(* ===== verification/_CoqProject ===== *)
-Q . S2P
Prelude.v
RustStd.v
RustFloat.v
ObservationModel.v
AbiTag.v
DriverAbi.v
ModbusAddress.v
ModbusFrame.v
ModbusCodec.v
ModbusSession.v
ModbusSessionLaws.v
ModbusMock.v
ModbusBatch.v
ModbusPlans.v
ModbusDriver.v
ModbusDriverLaws.v
ModbusEndToEnd.v
ModbusExamples.v
BatchRuns.v
S7Address.v
S7Codec.v
S7Batch.v
S7Driver.v
S7Loopback.v
S7EndToEnd.v
S7WriteEndToEnd.v
S7Examples.v
McCodec.v
McBatch.v
McDriver.v
McLoopback.v
McEndToEnd.v
McWriteEndToEnd.v
McExamples.v
EipAddress.v
EipFrame.v
EipCodec.v
EipDriver.v
EipLoopback.v
EipEndToEnd.v
EipWriteEndToEnd.v
EipExamples.v
ProfileModel.v
ProfileConvert.v
ProfileLaws.v
ProfileRegistryLaws.v
DomainModel.v
DataPipeline.v
LocalBuffer.v
LocalBufferLaws.v
LocalBufferWorld.v
LocalBufferSpec.v
NorthExamples.v
MqttConfig.v
MqttClient.v
MqttClientLaws.v
MqttAcks.v
MqttExamples.v
ControlModel.v
ControlJournal.v
ControlQueue.v
ControlValidate.v
ControlValidateLaws.v
ControlSubmit.v
ControlSubmitLaws.v
ControlWorker.v
ControlExamples.v
PollEngine.v
DriverLoader.v
DriverPlugins.v
DeviceManager.v
DevicePipelineLaws.v
DeviceControlLaws.v
DriverDevices.v
DeviceEndToEnd.v
CollectorForward.v
CollectorRuntime.v
CollectorExamples.v
CollectorConfig.v
