(* ===== verification/Prelude.v ===== *)
(** * Verification of the ForgeLink edge collector

    ForgeLink connects industrial devices to a platform: protocol drivers
    (plug-ins behind a C ABI) read and write devices, a poll engine and a data
    pipeline carry observations north, through a store-and-forward buffer and
    MQTT, and a control engine carries commands south.  This development models,
    definition by definition, the Modbus, S7, Mitsubishi MC and EtherNet/IP
    drivers from their C entry points down to the bytes on the wire, the
    simulated devices the repository tests them with, the driver loader, the poll
    engine, the device manager, profile conversion, the domain mapping, the data
    pipeline, the buffer, the MQTT client, the collector's tasks and shutdown,
    and the control engine, and proves what makes them correct.

    ** Shared files

    - Prelude (this file): outcomes of fallible code ([outcome]: value, error
      or panic) and the state-and-error monad [stm] with its weakest
      preconditions ([wp], [safe], [keeps]); machine integers as [Z] with
      explicit wrap-around; big- and little-endian bytes; tactics ([inv_ok],
      [case_if], [no_panic], [dlia]) and the hint database [bytes].
    - RustStd: what the code uses of Rust's library: trimming, splitting,
      parsing and printing of text (a string is a list of code points), UTF-8,
      stable sorting by key, [BTreeMap] of vectors, IEEE-754 conversions on bit
      patterns, the iteration order of a hash map ([MapOrder]).
    - RustFloat: [f64] arithmetic, rounding and conversions on bit patterns,
      with the value of a pattern as an integer multiple of 2^-1074.
    - ObservationModel: the records of crates/observation-model and
      crates/driver-contract that drivers exchange.
    - DriverAbi: what every driver is linked against (byte streams
      [ByteStream], name resolution and TCP [TcpNet], the clock [Os], the
      structures of the C ABI and the JSON envelopes [Envelopes]), and the C
      entry points that the S7, MC and EtherNet/IP drivers share, over the class
      [Plugin] of the driver behind them; whatever the driver does, a batch call
      reports its results or records its error.
    - BatchRuns: runs of neighbouring entries, which the planners of the S7 and
      MC drivers share.

    ** The Modbus driver (drivers/modbus/src, crates/driver-abi, crates/modbus-mock)

    - AbiTag: type tags and scalar values of the ABI (tag.rs).
    - ModbusAddress: the address grammar (address.rs).  Accepted addresses are
      in range, the canonical form parses back, numeric forms mean one segment.
    - ModbusFrame: CRC-16, request builders, response parsers, error classes
      (crc.rs, frame.rs, error.rs).  Any one-byte corruption is detected.
    - ModbusCodec: the connection configuration (config.rs), registers and coils
      to values and back (decode.rs, encode.rs).  Writing and reading a value is
      the identity.
    - ModbusBatch, ModbusPlans: the planner that groups, merges and splits
      requests (batch.rs).  Plans are complete, legal frames, total, and their
      effect on a slave is the effect of the single writes.
    - ModbusSession, ModbusSessionLaws: the TCP and RTU sessions (session.rs)
      over an interface of byte streams ([ByteStream], [TcpNet], [SerialNet]);
      [Transport] is what the driver asks of a session and [TransportLaws] what
      both sessions promise.  A transaction succeeds exactly when the answer
      is the well-formed answer to the request.
    - ModbusDriver, ModbusDriverLaws: the driver and its C entry points
      (lib.rs), proved against [TransportLaws]: no panic, one result per item,
      a transport failure drops the session, errors are recorded.
    - ModbusMock: the request handler of the simulated slave.
    - ModbusEndToEnd: the driver wired to the slave.  Batching is transparent,
      writes store exactly their cells, what was written is read back.
    - ModbusExamples: concrete inputs for the theorems with hypotheses.

    ** The S7 driver (drivers/s7comm/src, crates/s7comm-mock)

    - S7Address (address.rs): the canonical form parses back; which texts make
      the parser panic.
    - S7Codec (error.rs, cotp.rs, pdu.rs, decode.rs, encode.rs, config.rs): COTP
      and S7 frames, values, configuration.
    - S7Batch (batch.rs): planning; no item is lost or misplaced and a plan fits
      the negotiated PDU.
    - S7Driver (session.rs, lib.rs): handshake, exchange, driver.
    - S7Loopback, S7EndToEnd, S7WriteEndToEnd: the simulated device and the
      driver wired to it.  Batches of compatible items are transparent, what was
      written is read back; consecutive bits and mixed widths are misread, which
      the planner's comments rule out.
    - S7Examples: a connected driver and concrete inputs.

    ** The MC driver (drivers/mitsubishi-mc/src, crates/mc-mock)

    - McCodec: device addresses, 3E frames, values, configuration.
    - McBatch: planning, with bits packed into words; McDriver: the session and
      the driver.
    - McLoopback, McEndToEnd, McWriteEndToEnd: the simulated controller and the
      driver wired to it.  Batches whose bits of one kind lie a multiple of
      eight points apart are transparent (others are misread, [mc_bits_misread]);
      what was written is read back.
    - McExamples: concrete inputs.

    ** The EtherNet/IP driver (drivers/ethernet-ip/src, crates/etherip-mock)

    - EipAddress: tag paths; EipFrame: encapsulation and CIP messages; EipCodec:
      values, configuration and the packing of services into packets by number
      and bytes; EipDriver: the session and the driver, whose writes discover
      unknown types first and write in a second stage.
    - EipLoopback, EipEndToEnd, EipWriteEndToEnd: the simulated controller and
      the driver wired to it, for tags whose replies take at most 200 bytes
      ([small]).  Any batch is transparent, every request stores its value, what
      was written is read back; an unsigned value for a UDINT tag panics.
    - EipExamples: concrete inputs.

    ** From drivers to observations

    - DriverLoader (crates/driver-loader): a plugin behind the loader, the C ABI
      and JSON behaves like the driver called directly, but for what JSON does
      to floats.  DriverPlugins: the
      Modbus and S7 drivers as plugins; DriverDevices: the MC and EtherNet/IP
      drivers.
    - PollEngine (crates/poll-engine): the polling task of one target as a step
      relation; what is delivered, how much is asked of a driver, cancellation.
      The runtime is assumed to poll the task when one of its timers ends.
    - ProfileModel, ProfileConvert (crates/profile-engine): device profiles, the
      decoding of raw values and the encoding of writes, validation, directory
      loading and the registry.  ProfileLaws: decoded values have the declared
      type, encoded ones fit the register and are rounded as declared, integers
      survive a round trip, bounds are exact.  ProfileRegistryLaws: validation
      rules out the profile's own errors, loading is atomic, the registry holds
      valid profiles only; concrete inputs.
    - DomainModel (crates/domain-model): path prefixes and the construction of
      observations; their identifiers are injective.
    - DeviceManager (crates/device-manager): devices bound to profiles and
      sessions, read items, polling groups, the mapping of polled results, the
      executor.  DevicePipelineLaws: observations are numbered without
      repetition and nothing polled is lost; DeviceControlLaws: what a reported
      outcome of a write means; DeviceEndToEnd: the Modbus driver behind loader
      and manager, and concrete inputs.

    ** From observations to the platform

    - DataPipeline (crates/data-pipeline): the batching task and its channels as
      a step relation.  Per device nothing is reordered, duplicated or silently
      lost; a shutdown ends.
    - LocalBuffer (crates/local-buffer): the worker of the store-and-forward
      buffer over an interface of SQL statements ([BatchTable], with the
      documented behaviour of SQLite in [BatchTableLaws], and in
      [BatchTableReliable] for statements that succeed).  LocalBufferLaws and
      LocalBufferWorld hold the invariant of the worker and of runs with
      clients, failures and restarts, in which clients use ASCII identifiers and
      acknowledge only what is in flight or no longer stored; LocalBufferSpec the abstract queue, the
      refinement, the durability, order and capacity theorems and the delivery
      of everything that is stored.
    - NorthExamples: pipeline and buffer together, concrete inputs, and a list
      as a table.
    - MqttConfig (crates/mqtt-client): errors, topics, payload limits,
      configuration, TLS material with its DER walk, back-off.  MqttClient: the
      worker and its handlers over the class [Rumqttc] of the MQTT library.
      MqttClientLaws: every request is answered once, the bookkeeping of
      messages in flight is exact, a device for which the worker has taken a
      publish_offline stays silent.
      MqttAcks: under the documented behaviour of the library ([RumqttcLaws]) a
      request reported as acknowledged was acknowledged by the broker, in runs in
      which no connection is lost while a message is parked or while a shutdown
      forwards offline requests; MqttExamples has runs in which it is lost
      there and the report is wrong, a concrete library and the witnesses.
    - CollectorForward (apps/collector tasks.rs, health.rs): the event pump, the
      health counters and the forwarding loop, over the class [Collaborators];
      theorems are about the recorded calls, for every behaviour of the
      collaborators: nothing received is lost or reordered, a record is deleted
      only after its own confirmation, an undisturbed drain publishes everything.
      CollectorRuntime (runtime.rs): supervision and shutdown over
      [RuntimeParts]; the calls of a shutdown and what becomes of the batches
      that were never stored, for every outcome.  CollectorExamples: concrete collaborators, a stop signal
      that disables the drain.
    - CollectorConfig (config.rs, preflight.rs): the configuration, its
      validation, the conversion to the components' configurations and the
      checks before the start.  A validated configuration is one the collector
      can serve, buffer and MQTT agree on topics; which validated configurations
      components refuse, and profiles that preflight does not look at.

    ** The control engine (crates/control-engine/src)

    - ControlModel: results, keys, roles and the authorizer (role.rs), the
      policy (policy.rs), the driver-error whitelist (validate.rs).
    - ControlJournal: the in-memory and the file journal (journal.rs) with
      replay, recovery and compaction, and faults of every write.  The log
      denotes a map; the invariant [journal_inv] relates it to memory through
      restarts and writes that fail without leaving anything in the file;
      nothing recorded within its retention is forgotten or executed twice.
    - ControlQueue: the data and critical sections of a device queue, execution
      and settlement (queue.rs, executor.rs).  The choice of the next request is
      specified; a reported success is one the driver confirmed.
    - ControlWorker: workers, clients, supervisors, panics, restarts and forced
      stops as a step relation over all interleavings of critical sections; the
      two locks of a queue are taken in steps of their own, and a worker may run
      beside one that [join] waits for.  By its invariant, in runs without a
      worker that is started after the engine closed and without a forced stop
      between two await points ([c_orderly]), every accepted request can be
      reached until it is answered, so a forced stop answers all of them, and a
      shutdown can end.  ControlExamples has a run with a late worker in which a
      request is never answered.
    - ControlValidate, ControlValidateLaws: validation and mapping of property
      writes and commands (validate.rs), credentials and the role authorizer
      (auth.rs).  A command is accepted exactly when it meets its declaration, a
      property write is mapped completely or refused, a token is recognised
      exactly when it is listed.
    - ControlSubmit, ControlSubmitLaws: the submission of requests (engine.rs)
      as a step relation over concurrent submissions, whose pieces lie between
      await points.  A key is executed once within its retention, only by
      authorized subjects; what a receipt waits for, and a run in which one
      waits for ever.
    - ControlExamples: concrete inputs and runs.

    ** Bounds and fuel

    The outer loops of the Modbus planner take the length of their run as fuel,
    and each iteration consumes an entry; running out would be a panic, which
    [plan_batch_total] and [plan_write_batch_total] exclude.  The connection
    loops of the simulated devices take the number of frames they may serve.
    The drain of a closed queue takes fuel in [drain_rounds]; the proof supplies
    enough, from the number of unanswered entries.  [flush_chunks] takes the
    number of observations, of which each chunk consumes at least one
    ([pipeline_shutdown_ends] excludes the panic); the drain of the pipeline
    takes one event per wait; [confirm_loop] takes the number of pending
    confirmations.  [forward_loop] takes the number of iterations and returns its
    state when they are used up: the safety theorems hold for every number, and
    [forward_drains] gives the number that suffices.  Everything else is
    structural.

    ** What stands for code outside the repository

    Sockets, serial ports, the clock and sleeping ([ByteStream], [TcpNet],
    [SerialNet], [Os]), JSON ([from_json]'s and [parse_config]'s parser,
    [Envelopes], [RecordCodec], [BatchCodec], [StatusJson]; where it matters,
    serde_json writes a non-finite number as null and reads a finite one back as
    [float_read_back] says), the SQL statements ([BatchTable]), the MQTT library
    ([Rumqttc], [RumqttcLaws]), certificates and signatures ([TlsLibrary]),
    hash-map order ([HashOrder], [MapOrder]), the device executor and the
    precondition checker ([ControlExecutor]) are interfaces; the laws assumed
    of them are named classes with an instance in the example files.  Release
    profile arithmetic is assumed where it matters and said there.

    ** Not modelled

    Message texts, logging, metrics and audit events; raw memory of the C ABI
    (pointers appear as null flags and byte lists); threads, locks and timers
    as such.  The REST server (HTTP routing and rendering of what the control
    engine and the health view return), the assembly of the collector's
    components at start, driver-package manifests and their directory scan,
    diagnostics, the metrics registry, the benchmarks and the MQTT broker of the
    tests are input and output around the modelled parts. *)

From stdpp Require Export base decidable option list list_numbers numbers strings sorting gmap.
From Stdlib Require Export ZifyBool.
From stdpp Require Import options.

#[global] Set Default Goal Selector "!".
#[export] Set Warnings "-clear-no-such-hyp".

(** ** Outcomes of fallible code

    A Rust function that returns [Result<A, E>] and contains calls that can
    panic ([expect], [unreachable!], slice indexing) has three outcomes. *)
Inductive outcome (E A : Type) : Type :=
| Ok (a : A)
| Err (e : E)
| Panic.
Arguments Ok {E A} a.
Arguments Err {E A} e.
Arguments Panic {E A}.

Definition outcome_bind {E A B} (m : outcome E A) (k : A → outcome E B) : outcome E B :=
  match m with
  | Ok a => k a
  | Err e => Err e
  | Panic => Panic
  end.

Definition map_err {E F A} (f : E → F) (m : outcome E A) : outcome F A :=
  match m with
  | Ok a => Ok a
  | Err e => Err (f e)
  | Panic => Panic
  end.

Definition outcome_map {E A B} (f : A → B) (m : outcome E A) : outcome E B :=
  match m with
  | Ok a => Ok (f a)
  | Err e => Err e
  | Panic => Panic
  end.

(** [Result::ok]. *)
Definition outcome_ok {E A} (m : outcome E A) : option A :=
  match m with Ok a => Some a | _ => None end.

(** [ok_or]: an [Option] turned into a [Result]. *)
Definition ok_or {E A} (o : option A) (e : E) : outcome E A :=
  match o with Some a => Ok a | None => Err e end.

(** [expect]: an [Option] whose absence panics. *)
Definition expect {E A} (o : option A) : outcome E A :=
  match o with Some a => Ok a | None => Panic end.

Declare Scope outcome_scope.
Delimit Scope outcome_scope with outcome.
Notation "'let?' x ':=' m 'in' k" := (outcome_bind m (λ x, k))
  (at level 10, x pattern, m at level 100, k at level 200) : outcome_scope.
Open Scope outcome_scope.

Section outcome_laws.
Context {E A B C : Type}.

Lemma outcome_bind_assoc (m : outcome E A) (f : A → outcome E B) (g : B → outcome E C) :
  outcome_bind (outcome_bind m f) g = outcome_bind m (λ x, outcome_bind (f x) g).
Proof. by destruct m. Qed.

Lemma outcome_bind_Ok_inv (m : outcome E A) (f : A → outcome E B) b :
  outcome_bind m f = Ok b → ∃ a, m = Ok a ∧ f a = Ok b.
Proof. destruct m; naive_solver. Qed.

Lemma outcome_bind_Err_inv (m : outcome E A) (f : A → outcome E B) e :
  outcome_bind m f = Err e → m = Err e ∨ ∃ a, m = Ok a ∧ f a = Err e.
Proof. destruct m; naive_solver. Qed.

Lemma outcome_bind_no_panic (m : outcome E A) (f : A → outcome E B) :
  m ≠ Panic → (∀ a, m = Ok a → f a ≠ Panic) → outcome_bind m f ≠ Panic.
Proof. destruct m; naive_solver. Qed.

Lemma map_err_no_panic (f : E → C) (m : outcome E A) : m ≠ Panic → map_err f m ≠ Panic.
Proof. by destruct m. Qed.

Lemma outcome_map_no_panic (f : A → B) (m : outcome E A) : m ≠ Panic → outcome_map f m ≠ Panic.
Proof. by destruct m. Qed.
End outcome_laws.

(** ** Stateful fallible code

    A method on [&mut self] that returns a [Result]: the state after the call
    is kept whether the call succeeded or failed. *)
Definition stm (S E A : Type) : Type := S → S * outcome E A.

Definition sret {S E A} (a : A) : stm S E A := λ s, (s, Ok a).
Definition slift {S E A} (o : outcome E A) : stm S E A := λ s, (s, o).
Definition sfail {S E A} (e : E) : stm S E A := λ s, (s, Err e).
Definition sget {S E} : stm S E S := λ s, (s, Ok s).
Definition smodify {S E} (f : S → S) : stm S E () := λ s, (f s, Ok ()).

Definition sbind {S E A B} (m : stm S E A) (k : A → stm S E B) : stm S E B :=
  λ s, match m s with
       | (s', Ok a) => k a s'
       | (s', Err e) => (s', Err e)
       | (s', Panic) => (s', Panic)
       end.

Notation "'let!' x ':=' m 'in' k" := (sbind m (λ x, k))
  (at level 10, x pattern, m at level 100, k at level 200) : outcome_scope.

Section stm_laws.
Context {S E A B : Type}.

Lemma sbind_Ok_inv (m : stm S E A) (k : A → stm S E B) s s' b :
  sbind m k s = (s', Ok b) → ∃ s1 a, m s = (s1, Ok a) ∧ k a s1 = (s', Ok b).
Proof. unfold sbind. destruct (m s) as [s1 [a|e|]] eqn:?; naive_solver. Qed.

Lemma sbind_Ok (m : stm S E A) (k : A → stm S E B) s s1 a :
  m s = (s1, Ok a) → sbind m k s = k a s1.
Proof. unfold sbind. by intros ->. Qed.

Lemma sbind_Err_inv (m : stm S E A) (k : A → stm S E B) s s' e :
  sbind m k s = (s', Err e) →
  m s = (s', Err e) ∨ ∃ s1 a, m s = (s1, Ok a) ∧ k a s1 = (s', Err e).
Proof. unfold sbind. destruct (m s) as [s1 [a|e'|]] eqn:?; naive_solver. Qed.

(** A property of the state that every step keeps. *)
Definition keeps (P : S → Prop) (m : stm S E A) : Prop := ∀ s, P s → P (m s).1.
End stm_laws.

Lemma keeps_bind {S E A B} (P : S → Prop) (m : stm S E A) (k : A → stm S E B) :
  keeps P m → (∀ a, keeps P (k a)) → keeps P (sbind m k).
Proof.
  intros Hm Hk s Hs. specialize (Hm s Hs). unfold sbind. destruct (m s) as [s1 [a|e|]]; [|done..].
  by apply Hk.
Qed.

(** From this state the code does not panic and fails only with errors in [G]. *)
Definition safe {S E A} (G : E → Prop) (m : stm S E A) (s : S) : Prop :=
  match (m s).2 with Ok _ => True | Err e => G e | Panic => False end.

Lemma safe_bind {S E A B} (G : E → Prop) (m : stm S E A) (k : A → stm S E B) s :
  safe G m s → (∀ s' a, m s = (s', Ok a) → safe G (k a) s') → safe G (sbind m k) s.
Proof.
  unfold safe, sbind. intros Hm Hk. destruct (m s) as [s' [a|e|]]; [by apply Hk|done..].
Qed.

(** The weakest precondition: no panic, [Q] of a success, [R] of a failure. *)
Definition wp {S E A} (m : stm S E A) (Q : S → A → Prop) (R : S → E → Prop) (s : S) : Prop :=
  match m s with
  | (s', Ok a) => Q s' a
  | (s', Err e) => R s' e
  | (_, Panic) => False
  end.

Section wp.
Context {S E A B : Type}.
Implicit Types (m : stm S E A) (k : A → stm S E B).

Lemma wp_bind m k Q R s : wp m (λ s' a, wp (k a) Q R s') R s → wp (sbind m k) Q R s.
Proof. unfold wp, sbind. by destruct (m s) as [s' [a|e|]]. Qed.

Lemma wp_mono m (Q Q' : S → A → Prop) (R R' : S → E → Prop) s :
  wp m Q R s → (∀ s' a, Q s' a → Q' s' a) → (∀ s' e, R s' e → R' s' e) → wp m Q' R' s.
Proof. unfold wp. destruct (m s) as [s' [a|e|]]; naive_solver. Qed.

Lemma wp_lift (o : outcome E A) (Q : S → A → Prop) R s :
  match o with Ok a => Q s a | Err e => R s e | Panic => False end → wp (slift o) Q R s.
Proof. unfold wp, slift. by destruct o. Qed.
End wp.

(** Decompose every hypothesis that says a composition of fallible calls
    returned a value. *)
Ltac inv_ok :=
  repeat match goal with
  | H : outcome_bind _ _ = Ok _ |- _ =>
      let x := fresh "v" in let Hx := fresh "Hv" in
      apply outcome_bind_Ok_inv in H as (x & Hx & H)
  | H : Ok _ = Ok _ |- _ => injection H as H
  | H : Err _ = Ok _ |- _ => discriminate H
  | H : Panic = Ok _ |- _ => discriminate H
  | H : ok_or ?o _ = Ok _ |- _ => destruct o eqn:?; simpl in H
  | H : map_err _ ?o = Ok _ |- _ => destruct o eqn:?; simpl in H
  end.

(** Case analysis on the test of the [if] or [match] at the head of a
    hypothesis or of the goal, keeping the equation. *)
Ltac case_if :=
  match goal with
  | H : context [if ?b then _ else _] |- _ => destruct b eqn:?
  | |- context [if ?b then _ else _] => destruct b eqn:?
  end.

(** Close [m ≠ Panic] where every leaf of the code is a value or an error. *)
Ltac no_panic :=
  repeat match goal with
  | |- outcome_bind _ _ ≠ Panic => apply outcome_bind_no_panic; [|intros]
  | |- ok_or ?o _ ≠ Panic => by destruct o
  | |- map_err _ _ ≠ Panic => apply map_err_no_panic
  | |- outcome_map _ _ ≠ Panic => apply outcome_map_no_panic
  | |- Ok _ ≠ Panic => done
  | |- Err _ ≠ Panic => done
  | |- context [match ?b with _ => _ end] => destruct b eqn:?
  end.

(** [lia] with the Euclidean equations of every division and remainder. *)
Ltac dlia := Z.to_euclidean_division_equations; lia.

(** ** Machine integers

    A [w]-bit unsigned integer is a [Z] in [0 .. 2^w - 1]; a signed one a [Z]
    in [-2^(w-1) .. 2^(w-1) - 1].  [wrap] is the [as] cast to an unsigned type
    and the result of a release-profile arithmetic operation; [wrap_signed]
    the [as] cast to a signed type. *)
Open Scope Z_scope.

Definition wrap (w z : Z) : Z := z mod 2 ^ w.
Definition wrap_signed (w z : Z) : Z := (z + 2 ^ (w - 1)) mod 2 ^ w - 2 ^ (w - 1).

Definition in_u (w z : Z) : Prop := 0 ≤ z < 2 ^ w.
Definition in_i (w z : Z) : Prop := - 2 ^ (w - 1) ≤ z < 2 ^ (w - 1).

#[global] Instance in_u_dec w z : Decision (in_u w z).
Proof. unfold in_u. apply _. Defined.
#[global] Instance in_i_dec w z : Decision (in_i w z).
Proof. unfold in_i. apply _. Defined.

Lemma wrap_range w z : 0 ≤ w → in_u w (wrap w z).
Proof. intros. unfold in_u, wrap. apply Z.mod_pos_bound. lia. Qed.

Lemma wrap_small w z : in_u w z → wrap w z = z.
Proof. intros. by apply Z.mod_small. Qed.

Lemma wrap_signed_small w z : 0 < w → in_i w z → wrap_signed w z = z.
Proof.
  unfold in_i, wrap_signed. intros Hw [Hl Hu].
  assert (2 ^ w = 2 * 2 ^ (w - 1)) as Hp.
  { rewrite <- Z.pow_succ_r by lia. f_equal. lia. }
  rewrite Z.mod_small; lia.
Qed.

Lemma wrap_signed_range w z : 0 < w → in_i w (wrap_signed w z).
Proof.
  unfold in_i, wrap_signed. intros Hw.
  assert (2 ^ w = 2 * 2 ^ (w - 1)) as Hp.
  { rewrite <- Z.pow_succ_r by lia. f_equal. lia. }
  pose proof (Z.mod_pos_bound (z + 2 ^ (w - 1)) (2 ^ w)). lia.
Qed.

(** A signed value survives a trip through the unsigned type of its width. *)
Lemma wrap_signed_wrap w z : 0 < w → wrap_signed w (wrap w z) = wrap_signed w z.
Proof.
  intros Hw. unfold wrap_signed, wrap. by rewrite Zplus_mod_idemp_l.
Qed.

Lemma wrap_signed_wrap_small w z :
  0 < w → in_i w z → wrap_signed w (wrap w z) = z.
Proof. intros. rewrite wrap_signed_wrap by done. by apply wrap_signed_small. Qed.

Lemma wrap_wrap_signed w z : wrap w (wrap_signed w z) = wrap w z.
Proof.
  unfold wrap_signed, wrap. rewrite Zminus_mod_idemp_l. f_equal. lia.
Qed.

Abbreviation wrap8 := (wrap 8).
Abbreviation wrap16 := (wrap 16).
Abbreviation wrap32 := (wrap 32).
Abbreviation wrap64 := (wrap 64).

(** [div_ceil] on unsigned integers. *)
Definition div_ceil (a b : Z) : Z := a / b + (if a mod b =? 0 then 0 else 1).

Lemma div_ceil_spec a b : 0 ≤ a → 0 < b → div_ceil a b = (a + b - 1) / b.
Proof.
  intros Ha Hb. unfold div_ceil.
  pose proof (Z.div_mod a b ltac:(lia)) as Hdm.
  pose proof (Z.mod_pos_bound a b Hb) as Hm.
  destruct (Z.eqb_spec (a mod b) 0) as [H0|H0].
  - apply Z.div_unique with (r := b - 1); lia.
  - apply Z.div_unique with (r := a mod b - 1); lia.
Qed.

(** ** Bytes and fixed-width encodings

    A byte is a [Z] in [0 .. 255]; a slice or [Vec<u8>] a [list Z]. *)
Definition byte_ok (b : Z) : Prop := 0 ≤ b < 256.
Abbreviation bytes_ok := (Forall byte_ok).
#[global] Instance byte_ok_dec b : Decision (byte_ok b).
Proof. unfold byte_ok. apply _. Defined.

(** [to_le_bytes] of an [8 n]-bit integer, given modulo [2^(8n)]. *)
Fixpoint to_le_bytes (n : nat) (z : Z) : list Z :=
  match n with
  | O => []
  | S n' => z mod 256 :: to_le_bytes n' (z / 256)
  end.

Fixpoint from_le_bytes (l : list Z) : Z :=
  match l with
  | [] => 0
  | b :: l' => b + 256 * from_le_bytes l'
  end.

Definition to_be_bytes (n : nat) (z : Z) : list Z := reverse (to_le_bytes n z).
Definition from_be_bytes (l : list Z) : Z := from_le_bytes (reverse l).

Lemma length_to_le_bytes n z : length (to_le_bytes n z) = n.
Proof. revert z. induction n as [|n IH]; intros z; simpl; [done|by rewrite IH]. Qed.

Lemma length_to_be_bytes n z : length (to_be_bytes n z) = n.
Proof. unfold to_be_bytes. by rewrite length_reverse, length_to_le_bytes. Qed.

Lemma to_le_bytes_ok n z : bytes_ok (to_le_bytes n z).
Proof.
  revert z. induction n as [|n IH]; intros z; simpl; constructor; [|apply IH].
  unfold byte_ok. apply Z.mod_pos_bound. lia.
Qed.

Lemma to_be_bytes_ok n z : bytes_ok (to_be_bytes n z).
Proof. apply Forall_reverse, to_le_bytes_ok. Qed.

Lemma pow256_S (n : nat) : 2 ^ (8 * Z.of_nat (S n)) = 256 * 2 ^ (8 * Z.of_nat n).
Proof.
  replace (8 * Z.of_nat (S n)) with (8 + 8 * Z.of_nat n) by lia.
  by rewrite Z.pow_add_r by lia.
Qed.

Lemma from_to_le_bytes n z : from_le_bytes (to_le_bytes n z) = z mod 2 ^ (8 * Z.of_nat n).
Proof.
  revert z. induction n as [|n IH]; intros z.
  - simpl. by rewrite Z.mod_1_r.
  - cbn [to_le_bytes from_le_bytes]. rewrite IH, pow256_S.
    rewrite (Z.rem_mul_r z 256); lia.
Qed.

Lemma from_le_bytes_range l :
  bytes_ok l → 0 ≤ from_le_bytes l < 2 ^ (8 * Z.of_nat (length l)).
Proof.
  induction 1 as [|b l Hb Hl IH]; [simpl; lia|].
  cbn [from_le_bytes length]. rewrite pow256_S. unfold byte_ok in Hb. lia.
Qed.

Lemma to_from_le_bytes l : bytes_ok l → to_le_bytes (length l) (from_le_bytes l) = l.
Proof.
  induction 1 as [|b l Hb Hl IH]; [done|].
  cbn [from_le_bytes length to_le_bytes]. unfold byte_ok in Hb.
  replace (b + 256 * from_le_bytes l) with (from_le_bytes l * 256 + b) by lia.
  rewrite Z.div_add_l, Z.div_small, Z.add_0_r by lia.
  rewrite Z.add_comm, Z_mod_plus_full, Z.mod_small by lia. by rewrite IH.
Qed.

Lemma from_to_be_bytes n z : from_be_bytes (to_be_bytes n z) = z mod 2 ^ (8 * Z.of_nat n).
Proof. unfold from_be_bytes, to_be_bytes. rewrite reverse_involutive. apply from_to_le_bytes. Qed.

Lemma to_from_be_bytes l : bytes_ok l → to_be_bytes (length l) (from_be_bytes l) = l.
Proof.
  intros Hl. unfold from_be_bytes, to_be_bytes.
  rewrite <- (length_reverse l), to_from_le_bytes by by apply Forall_reverse.
  apply reverse_involutive.
Qed.

Lemma from_be_bytes_range l :
  bytes_ok l → 0 ≤ from_be_bytes l < 2 ^ (8 * Z.of_nat (length l)).
Proof.
  intros Hl. unfold from_be_bytes. rewrite <- (length_reverse l).
  by apply from_le_bytes_range, Forall_reverse.
Qed.

Lemma from_to_be_bytes_small n z :
  0 ≤ z < 2 ^ (8 * Z.of_nat n) → from_be_bytes (to_be_bytes n z) = z.
Proof. intros. rewrite from_to_be_bytes. by apply Z.mod_small. Qed.

Lemma to_le_bytes_wrap n z :
  to_le_bytes n (wrap (8 * Z.of_nat n) z) = to_le_bytes n z.
Proof.
  unfold wrap. rewrite <- from_to_le_bytes.
  rewrite <- (length_to_le_bytes n z) at 1. apply to_from_le_bytes, to_le_bytes_ok.
Qed.

Lemma to_be_bytes_wrap n z :
  to_be_bytes n (wrap (8 * Z.of_nat n) z) = to_be_bytes n z.
Proof. unfold to_be_bytes. by rewrite to_le_bytes_wrap. Qed.

(** The signed reading of [n] bytes is written back as the same bytes. *)
Lemma to_le_bytes_signed n l :
  bytes_ok l → length l = n →
  to_le_bytes n (wrap_signed (8 * Z.of_nat n) (from_le_bytes l)) = l.
Proof.
  intros Hl <-. by rewrite <- to_le_bytes_wrap, wrap_wrap_signed, to_le_bytes_wrap,
    to_from_le_bytes.
Qed.

#[global] Arguments to_le_bytes : simpl never.
#[global] Arguments from_le_bytes : simpl never.

(** Byte-string well-formedness goals are closed by [auto with bytes]. *)
Create HintDb bytes.
#[export] Hint Resolve Forall_nil_2 Forall_cons_2 Forall_app_2 to_be_bytes_ok to_le_bytes_ok
  Forall_take Forall_drop Forall_reverse : bytes.
#[export] Hint Extern 2 (byte_ok _) => unfold byte_ok; lia : bytes.

(** A mask of one bit. *)
Lemma testbit_mask x b : 0 ≤ b → negb (Z.land x (Z.shiftl 1 b) =? 0) = Z.testbit x b.
Proof.
  intros Hb. rewrite Z.shiftl_1_l. destruct (Z.testbit x b) eqn:E.
  - apply negb_true_iff, Z.eqb_neq. intros H. assert (Z.testbit (Z.land x (2 ^ b)) b = true) as H'.
    { by rewrite Z.land_spec, E, Z.pow2_bits_true. }
    by rewrite H, Z.bits_0 in H'.
  - apply negb_false_iff, Z.eqb_eq. apply Z.bits_inj'. intros n Hn. rewrite Z.land_spec, Z.bits_0.
    destruct (Z.eq_dec n b) as [->|Hne]; [by rewrite E|]. rewrite Z.pow2_bits_false by lia. apply andb_false_r.
Qed.

(** Splitting at a known prefix length. *)
(** The slice [&bytes[a..b]]. *)
Definition slice (a b : nat) (l : list Z) : list Z := take (b - a) (drop a l).

(** [l.get(start..start + width)] *)
Definition get_slice (start width : Z) (payload : list Z) : option (list Z) :=
  if Z.of_nat (length payload) <? start + width then None
  else Some (slice (Z.to_nat start) (Z.to_nat (start + width)) payload).

Lemma take_app_exact {A} (l k : list A) n : n = length l → take n (l ++ k) = l.
Proof. intros ->. apply take_app_length. Qed.
Lemma drop_app_exact {A} (l k : list A) n : n = length l → drop n (l ++ k) = k.
Proof. intros ->. apply drop_app_length. Qed.

Lemma list_bind_assoc {A B C} (f : A → list B) (g : B → list C) (l : list A) :
  (l ≫= f) ≫= g = l ≫= λ x, f x ≫= g.
Proof. induction l as [|x l IH]; [done|]. cbn. by rewrite bind_app, IH. Qed.

Lemma elem_of_concat {A} (x : A) (ls : list (list A)) : x ∈ concat ls ↔ ∃ l, x ∈ l ∧ l ∈ ls.
Proof.
  induction ls as [|l ls IH]; cbn; [set_solver|]. rewrite elem_of_app, IH. set_solver.
Qed.

(** A symmetric pairwise relation does not depend on the order. *)
Lemma ForallOrdPairs_perm {A} (R : A → A → Prop) l k :
  (∀ x y, R x y → R y x) → l ≡ₚ k → ForallOrdPairs R l → ForallOrdPairs R k.
Proof.
  intros Hsym. induction 1 as [|x l k Hp IH|x y l|l1 l2 l3 _ IH1 _ IH2]; intros H; auto.
  - inversion H; subst. constructor; [by rewrite <- Hp|auto].
  - inversion H as [|? ? Hy H']; subst. inversion H' as [|? ? Hx H'']; subst.
    apply Forall_cons in Hy as [Hxy Hy]. constructor; [|by constructor].
    constructor; [by apply Hsym|done].
Qed.

Lemma Permutation_Some {A} (l k : list A) : Some <$> l ≡ₚ Some <$> k → l ≡ₚ k.
Proof.
  intros H. assert (∀ l : list A, omap id (Some <$> l) = l) as Hid.
  { intros l'. induction l' as [|x l' IH]; [done|]. cbn [fmap list_fmap omap list_omap id].
    by rewrite IH. }
  rewrite <- (Hid l), <- (Hid k). by rewrite H.
Qed.

(** Filters that keep everything, or nothing. *)
Lemma filter_all {A} (P : A → Prop) `{!∀ x, Decision (P x)} l : Forall P l → filter P l = l.
Proof.
  induction 1 as [|x l Hx _ IH]; [done|]. rewrite filter_cons_True by done. by rewrite IH.
Qed.

Lemma filter_none {A} (P : A → Prop) `{!∀ x, Decision (P x)} l :
  Forall (λ x, ¬ P x) l → filter P l = [].
Proof. induction 1 as [|x l Hx _ IH]; [done|]. by rewrite filter_cons_False. Qed.
