(* ===== verification/RustStd.v ===== *)
(** * The parts of the Rust language and standard library the program uses

    Strings and UTF-8, integer parsing and printing, the stable sort of
    slices, [BTreeMap] entries and the IEEE-754 casts, as executable
    functions, with the laws the components rely on. *)

From S2P Require Import Prelude.
From stdpp Require Import options.

(** ** Rust strings

    A [str] is a sequence of Unicode scalar values. *)
Abbreviation str := (list Z).

Definition char_ok (c : Z) : Prop := 0 ≤ c < 0xD800 ∨ 0xE000 ≤ c < 0x110000.
#[global] Instance char_ok_dec c : Decision (char_ok c).
Proof. unfold char_ok. apply _. Defined.

(** An ASCII literal of the source. *)
Fixpoint lit (s : string) : str :=
  match s with
  | EmptyString => []
  | String a s' => Z.of_nat (Ascii.nat_of_ascii a) :: lit s'
  end.

(** [char::is_whitespace]: the Unicode White_Space property. *)
Definition is_whitespace (c : Z) : bool :=
  ((0x9 <=? c) && (c <=? 0xD)) || (c =? 0x20) || (c =? 0x85) || (c =? 0xA0)
  || (c =? 0x1680) || ((0x2000 <=? c) && (c <=? 0x200A)) || (c =? 0x2028)
  || (c =? 0x2029) || (c =? 0x202F) || (c =? 0x205F) || (c =? 0x3000).

Fixpoint trim_start (s : str) : str :=
  match s with
  | [] => []
  | c :: s' => if is_whitespace c then trim_start s' else s
  end.

(** [str::trim]. *)
Definition trim (s : str) : str := reverse (trim_start (reverse (trim_start s))).

(** [str::split_once] at a character. *)
Fixpoint split_once (c : Z) (s : str) : option (str * str) :=
  match s with
  | [] => None
  | x :: s' =>
      if x =? c then Some ([], s')
      else match split_once c s' with
           | Some (a, b) => Some (x :: a, b)
           | None => None
           end
  end.

(** [split_at(find(is_ascii_digit)?)] *)
Fixpoint split_at_digit (s : str) : option (str * str) :=
  match s with
  | [] => None
  | c :: s' =>
      if (48 <=? c) && (c <=? 57) then Some ([], s)
      else '(a, b) ← split_at_digit s'; Some (c :: a, b)
  end.

(** [str::parse] to a [w]-bit unsigned integer: an optional [+], then at least
    one decimal digit, refusing overflow at every step. *)
Fixpoint parse_digits (w acc : Z) (s : str) : option Z :=
  match s with
  | [] => Some acc
  | c :: s' =>
      if (48 <=? c) && (c <=? 57) then
        let acc' := acc * 10 + (c - 48) in
        if acc' <? 2 ^ w then parse_digits w acc' s' else None
      else None
  end.

Definition parse_uint (w : Z) (s : str) : option Z :=
  let digits :=
    match s with
    | c :: ((_ :: _) as rest) => if c =? 43 then rest else s
    | _ => s
    end in
  match digits with
  | [] => None
  | _ => parse_digits w 0 digits
  end.

Example parse_uint_sign :
  parse_uint 32 (lit "+12") = Some 12 ∧ parse_uint 32 (lit "+") = None ∧ parse_uint 32 (lit "-1") = None ∧
  parse_uint 8 (lit "256") = None.
Proof. by vm_compute. Qed.

(** [to_string] of an unsigned integer of at most 64 bits (20 digits). *)
Fixpoint dec_aux (fuel : nat) (n : Z) (acc : str) : str :=
  match fuel with
  | O => acc
  | S f =>
      let acc' := 48 + n mod 10 :: acc in
      if n / 10 =? 0 then acc' else dec_aux f (n / 10) acc'
  end.
Definition to_string (n : Z) : str := dec_aux 20 n [].

Lemma trim_start_no_ws s : Forall (λ c, is_whitespace c = false) s → trim_start s = s.
Proof. destruct 1 as [|c s Hc _]; simpl; [done|by rewrite Hc]. Qed.

Lemma trim_no_ws s : Forall (λ c, is_whitespace c = false) s → trim s = s.
Proof.
  intros Hs. unfold trim. rewrite (trim_start_no_ws s) by done.
  rewrite trim_start_no_ws by by apply Forall_reverse. apply reverse_involutive.
Qed.

Lemma split_once_app c a b : c ∉ a → split_once c (a ++ c :: b) = Some (a, b).
Proof.
  induction a as [|x a IH]; intros Hc; simpl.
  - by rewrite Z.eqb_refl.
  - apply not_elem_of_cons in Hc as [Hx Ha].
    destruct (Z.eqb_spec x c); [congruence|]. by rewrite IH.
Qed.

Lemma split_once_None c s : c ∉ s → split_once c s = None.
Proof.
  induction s as [|x s IH]; intros Hc; simpl; [done|].
  apply not_elem_of_cons in Hc as [Hx Ha].
  destruct (Z.eqb_spec x c); [congruence|]. by rewrite IH.
Qed.

Definition is_digit (c : Z) : Prop := 48 ≤ c ≤ 57.

Lemma dec_aux_digits f n acc : Forall is_digit acc → Forall is_digit (dec_aux f n acc).
Proof.
  revert n acc. induction f as [|f IH]; intros n acc Hacc; cbn [dec_aux]; [done|].
  assert (is_digit (48 + n mod 10)).
  { unfold is_digit. pose proof (Z.mod_pos_bound n 10). lia. }
  case_match; [by constructor|]. apply IH. by constructor.
Qed.

Lemma to_string_digits n : Forall is_digit (to_string n).
Proof. by apply dec_aux_digits. Qed.

Lemma is_digit_no_ws c : is_digit c → is_whitespace c = false.
Proof. unfold is_digit, is_whitespace. lia. Qed.

Lemma dec_aux_cons f n acc : ∃ c l, is_digit c ∧ dec_aux (S f) n acc = c :: l.
Proof.
  revert n acc. induction f as [|f IH]; intros n acc.
  - simpl. exists (48 + n mod 10), acc.
    pose proof (Z.mod_pos_bound n 10). split; [unfold is_digit; lia|by case_match].
  - cbn [dec_aux]. case_match; [|apply IH]. exists (48 + n mod 10), acc.
    pose proof (Z.mod_pos_bound n 10). split; [unfold is_digit; lia|done].
Qed.

Lemma parse_digits_dec_aux w f n rest :
  0 ≤ n < 10 ^ Z.of_nat f → n < 2 ^ w →
  parse_digits w 0 (dec_aux f n rest) = parse_digits w n rest.
Proof.
  revert n rest. induction f as [|f IH]; intros n rest Hn Hw.
  { change (10 ^ Z.of_nat 0) with 1 in Hn. replace n with 0 by lia. done. }
  cbn [dec_aux].
  assert (10 ^ Z.of_nat (S f) = 10 * 10 ^ Z.of_nat f) as Hp.
  { rewrite Nat2Z.inj_succ. apply Z.pow_succ_r. lia. }
  pose proof (Z.div_mod n 10 ltac:(lia)) as Hdm.
  pose proof (Z.mod_pos_bound n 10 ltac:(lia)) as Hm.
  assert (∀ a, a * 10 + n mod 10 = n → a = n / 10 →
    parse_digits w a (48 + n mod 10 :: rest) = parse_digits w n rest) as Hstep.
  { intros a Ha _. cbn [parse_digits].
    replace ((48 <=? 48 + n mod 10) && (48 + n mod 10 <=? 57)) with true by lia.
    replace (a * 10 + (48 + n mod 10 - 48)) with n by lia.
    by replace (n <? 2 ^ w) with true by lia. }
  destruct (Z.eqb_spec (n / 10) 0).
  - apply Hstep; lia.
  - rewrite IH; [apply Hstep; lia| |].
    + split; [apply Z.div_pos; lia|]. apply Z.div_lt_upper_bound; lia.
    + assert (n / 10 ≤ n) by (apply Z.div_le_upper_bound; lia). lia.
Qed.

(** Printing then parsing an unsigned integer gives it back. *)
Lemma parse_uint_to_string w n :
  0 ≤ n < 2 ^ w → w ≤ 64 → parse_uint w (to_string n) = Some n.
Proof.
  intros Hn Hw. unfold parse_uint, to_string.
  pose proof (dec_aux_cons 19 n []) as (c & l & Hc & Hl).
  assert (2 ^ w ≤ 2 ^ 64) as Hp by (apply Z.pow_le_mono_r; lia).
  assert (parse_digits w 0 (dec_aux 20 n []) = Some n) as Hd.
  { rewrite parse_digits_dec_aux; [done| |lia]. split; [lia|].
    change (10 ^ Z.of_nat 20) with 100000000000000000000.
    change (2 ^ 64) with 18446744073709551616 in Hp. lia. }
  rewrite Hl in *. unfold is_digit in Hc.
  destruct l as [|d l]; [done|].
  by replace (c =? 43) with false by lia.
Qed.

Lemma parse_digits_range w acc s n :
  0 ≤ acc < 2 ^ w → parse_digits w acc s = Some n → 0 ≤ n < 2 ^ w.
Proof.
  revert acc. induction s as [|c s IH]; intros acc Hacc; simpl; [by intros [= <-]|].
  destruct ((48 <=? c) && (c <=? 57)) eqn:Ec; [|done].
  destruct (Z.ltb_spec (acc * 10 + (c - 48)) (2 ^ w)); [|done].
  apply IH. lia.
Qed.

(** A parsed unsigned integer is in the range of its type. *)
Lemma parse_uint_range w s n : 0 < w → parse_uint w s = Some n → in_u w n.
Proof.
  intros Hw. unfold parse_uint, in_u.
  assert (0 < 2 ^ w) by (apply Z.pow_pos_nonneg; lia).
  case_match; [done|]. apply parse_digits_range. lia.
Qed.

Lemma to_string_not_elem c n : ¬ is_digit c → c ∉ to_string n.
Proof.
  intros Hc Hin. apply Hc. by apply (proj1 (Forall_forall _ _) (to_string_digits n)).
Qed.

Lemma split_at_digit_app l n r :
  Forall (λ c, ¬ is_digit c) l → split_at_digit (l ++ to_string n ++ r) = Some (l, to_string n ++ r).
Proof.
  intros H. destruct (dec_aux_cons 19 n []) as (d & s & Hd & E). fold (to_string n) in E. rewrite E.
  induction H as [|c l Hc _ IH]; cbn [app split_at_digit]; unfold is_digit in *.
  - by replace ((48 <=? d) && (d <=? 57)) with true by lia.
  - replace ((48 <=? c) && (c <=? 57)) with false by lia. cbn [app] in IH. by rewrite IH.
Qed.

Lemma trim_to_string n : trim (to_string n) = to_string n.
Proof.
  apply trim_no_ws. eapply Forall_impl; [apply to_string_digits|]. apply is_digit_no_ws.
Qed.

(** ** UTF-8: [str::as_bytes] and [std::str::from_utf8] *)
Definition utf8_encode_char (c : Z) : list Z :=
  if c <? 0x80 then [c]
  else if c <? 0x800 then [0xC0 + c / 64; 0x80 + c mod 64]
  else if c <? 0x10000 then [0xE0 + c / 4096; 0x80 + c / 64 mod 64; 0x80 + c mod 64]
  else [0xF0 + c / 262144; 0x80 + c / 4096 mod 64; 0x80 + c / 64 mod 64; 0x80 + c mod 64].

Definition utf8_encode (s : str) : list Z := s ≫= utf8_encode_char.

Definition between (lo hi b : Z) : bool := (lo <=? b) && (b <=? hi).
Definition utf8_cont (b : Z) : bool := between 0x80 0xBF b.

(** The second byte of a three-byte and of a four-byte sequence: overlong
    forms, surrogates and values above U+10FFFF are refused. *)
Definition utf8_second3 (b0 b1 : Z) : bool :=
  if b0 =? 0xE0 then between 0xA0 0xBF b1
  else if b0 =? 0xED then between 0x80 0x9F b1
  else between 0xE1 0xEF b0 && utf8_cont b1.
Definition utf8_second4 (b0 b1 : Z) : bool :=
  if b0 =? 0xF0 then between 0x90 0xBF b1
  else if b0 =? 0xF4 then between 0x80 0x8F b1
  else between 0xF1 0xF3 b0 && utf8_cont b1.

Fixpoint utf8_decode (l : list Z) : option str :=
  match l with
  | [] => Some []
  | b0 :: l0 =>
      if b0 <? 0x80 then (b0 ::.) <$> utf8_decode l0
      else
        match l0 with
        | [] => None
        | b1 :: l1 =>
            if between 0xC2 0xDF b0 then
              if utf8_cont b1
              then ((b0 - 0xC0) * 64 + (b1 - 0x80) ::.) <$> utf8_decode l1
              else None
            else
              match l1 with
              | [] => None
              | b2 :: l2 =>
                  if between 0xE0 0xEF b0 then
                    if utf8_second3 b0 b1 && utf8_cont b2
                    then ((b0 - 0xE0) * 4096 + (b1 - 0x80) * 64 + (b2 - 0x80) ::.)
                           <$> utf8_decode l2
                    else None
                  else
                    match l2 with
                    | [] => None
                    | b3 :: l3 =>
                        if between 0xF0 0xF4 b0
                           && utf8_second4 b0 b1 && utf8_cont b2 && utf8_cont b3
                        then ((b0 - 0xF0) * 262144 + (b1 - 0x80) * 4096
                              + (b2 - 0x80) * 64 + (b3 - 0x80) ::.) <$> utf8_decode l3
                        else None
                    end
              end
        end
  end.

Lemma utf8_decode_char c rest :
  char_ok c → utf8_decode (utf8_encode_char c ++ rest) = (c ::.) <$> utf8_decode rest.
Proof.
  intros Hc. unfold char_ok in Hc. unfold utf8_encode_char.
  destruct (Z.ltb_spec c 0x80); [|destruct (Z.ltb_spec c 0x800);
    [|destruct (Z.ltb_spec c 0x10000)]]; cbn [app utf8_decode].
  - by replace (c <? 0x80) with true by dlia.
  - replace (0xC0 + c / 64 <? 0x80) with false by dlia.
    replace (between 0xC2 0xDF (0xC0 + c / 64)) with true by (unfold between; dlia).
    replace (utf8_cont (0x80 + c mod 64)) with true by (unfold utf8_cont, between; dlia).
    by replace ((192 + c / 64 - 192) * 64 + (128 + c mod 64 - 128)) with c by dlia.
  - replace (0xE0 + c / 4096 <? 0x80) with false by dlia.
    replace (between 0xC2 0xDF (0xE0 + c / 4096)) with false by (unfold between; dlia).
    replace (between 0xE0 0xEF (0xE0 + c / 4096)) with true by (unfold between; dlia).
    replace (utf8_second3 _ _ && utf8_cont _) with true
      by (unfold utf8_second3, utf8_cont, between; repeat case_match; dlia).
    by replace ((224 + c / 4096 - 224) * 4096 + (128 + c / 64 mod 64 - 128) * 64 +
      (128 + c mod 64 - 128)) with c by dlia.
  - replace (0xF0 + c / 262144 <? 0x80) with false by dlia.
    replace (between 0xC2 0xDF (0xF0 + c / 262144)) with false by (unfold between; dlia).
    replace (between 0xE0 0xEF (0xF0 + c / 262144)) with false by (unfold between; dlia).
    replace (_ && _ && _ && _) with true
      by (unfold utf8_second4, utf8_cont, between; repeat case_match; dlia).
    by replace ((240 + c / 262144 - 240) * 262144 + (128 + c / 4096 mod 64 - 128) * 4096 +
      (128 + c / 64 mod 64 - 128) * 64 + (128 + c mod 64 - 128)) with c by dlia.
Qed.

(** Every string survives the trip through its UTF-8 bytes. *)
Lemma utf8_decode_encode s : Forall char_ok s → utf8_decode (utf8_encode s) = Some s.
Proof.
  induction 1 as [|c s Hc Hs IH]; [done|].
  unfold utf8_encode in *. cbn [mbind list_bind].
  rewrite utf8_decode_char by done. by rewrite IH.
Qed.

(** ** Stable sort: [sort_by] *)
Section sort_by.
Context {A : Type} (le : A → A → bool).

Fixpoint insert_by (x : A) (l : list A) : list A :=
  match l with
  | [] => [x]
  | y :: l' => if le x y then x :: y :: l' else y :: insert_by x l'
  end.

Definition sort_by (l : list A) : list A := foldr insert_by [] l.

Lemma insert_by_perm x l : insert_by x l ≡ₚ x :: l.
Proof.
  induction l as [|y l IH]; cbn; [done|]. destruct (le x y); [done|]. by rewrite IH, Permutation_swap.
Qed.

Lemma sort_by_perm l : sort_by l ≡ₚ l.
Proof. induction l as [|x l IH]; cbn; [done|]. by rewrite insert_by_perm, IH. Qed.

(** Elements that are before, or not after, everything else stay where they are. *)
Lemma sort_by_app_first l k :
  Forall (λ x, Forall (λ y, le x y = true) (l ++ k)) l → sort_by k = k → sort_by (l ++ k) = l ++ k.
Proof.
  intros Hl Hk. induction l as [|x l IH]; [done|]. change (insert_by x (sort_by (l ++ k)) = x :: l ++ k).
  inversion Hl as [|? ? Hx Hl']; subst.
  rewrite IH. 2:{ eapply Forall_impl; [exact Hl'|]. cbn. intros y Hy. by inversion Hy. }
  inversion Hx as [|? ? _ Hx']; subst. destruct (l ++ k) as [|y m]; [done|]. cbn. inversion Hx'; subst.
  by case_match.
Qed.

Lemma insert_by_app_between x l m k :
  Forall (λ y, le x y = false) l → Forall (λ y, le x y = true) k →
  insert_by x (l ++ m ++ k) = l ++ insert_by x m ++ k.
Proof.
  intros Hl Hk. induction Hl as [|y l Hy _ IH]; cbn; [|by rewrite Hy, IH].
  induction m as [|y m IH]; cbn; [|by destruct (le x y); cbn; rewrite ?IH].
  destruct k as [|y k]; [done|]. cbn. inversion Hk; subst. by case_match.
Qed.

Lemma sort_by_between l m k :
  Forall (λ x, Forall (λ y, le x y = false) l ∧ Forall (λ y, le x y = true) k) m → sort_by (l ++ k) = l ++ k →
  sort_by (m ++ l ++ k) = l ++ sort_by m ++ k.
Proof.
  intros Hm Hlk. induction Hm as [|x m [Hx1 Hx2] _ IH]; [done|].
  change (insert_by x (sort_by (m ++ l ++ k)) = l ++ insert_by x (sort_by m) ++ k). rewrite IH. by apply insert_by_app_between.
Qed.

Section sorted.
Context (Htot : ∀ x y, le x y = true ∨ le y x = true) (Htrans : ∀ x y z, le x y = true → le y z = true → le x z = true).

Lemma insert_by_sorted x l :
  StronglySorted (λ x y, le x y = true) l → StronglySorted (λ x y, le x y = true) (insert_by x l).
Proof using Htot Htrans.
  induction 1 as [|y l Hl IH Hy]; cbn; [repeat constructor|]. destruct (le x y) eqn:H.
  - constructor; [by constructor|]. constructor; [done|]. eapply Forall_impl; [exact Hy|]. eauto.
  - constructor; [done|]. rewrite insert_by_perm. constructor; [|done]. by destruct (Htot x y) as [?|?]; [congruence|].
Qed.

Lemma sort_by_sorted l : StronglySorted (λ x y, le x y = true) (sort_by l).
Proof using Htot Htrans. induction l as [|x l IH]; cbn; [constructor|]. by apply insert_by_sorted. Qed.

(** Without ties the order of the input does not matter. *)
Lemma sort_by_proper l k :
  l ≡ₚ k → (∀ x y, x ∈ l → y ∈ l → le x y = true → le y x = true → x = y) → sort_by l = sort_by k.
Proof using Htot Htrans.
  intros Hp Hanti. apply (StronglySorted_unique_strong (λ x y, le x y = true)); try apply sort_by_sorted.
  - intros x y Hx Hy. rewrite sort_by_perm in Hx. rewrite sort_by_perm, <- Hp in Hy. by apply Hanti.
  - by rewrite !sort_by_perm.
Qed.
End sorted.
End sort_by.

Lemma insert_by_fmap {A B} (f : A → B) (le : A → A → bool) (le' : B → B → bool) x l :
  (∀ y, y ∈ l → le x y = le' (f x) (f y)) → f <$> insert_by le x l = insert_by le' (f x) (f <$> l).
Proof.
  induction l as [|y l IH]; intros H; [done|]. cbn. rewrite <- (H y) by left. destruct (le x y); [done|].
  cbn. f_equal. apply IH. intros z Hz. apply H. by right.
Qed.

Lemma sort_by_fmap {A B} (f : A → B) (le : A → A → bool) (le' : B → B → bool) l :
  (∀ x y, x ∈ l → y ∈ l → le x y = le' (f x) (f y)) → f <$> sort_by le l = sort_by le' (f <$> l).
Proof.
  induction l as [|x l IH]; intros H; [done|].
  change (f <$> insert_by le x (sort_by le l) = insert_by le' (f x) (sort_by le' (f <$> l))). rewrite <- IH.
  - apply insert_by_fmap. intros y Hy. rewrite sort_by_perm in Hy. apply H; [by left|by right].
  - intros y z Hy Hz. apply H; by right.
Qed.

(** [Ord for str]: the order of UTF-8 is the order of the scalar values. *)
Fixpoint str_le (a b : str) : bool :=
  match a, b with
  | [], _ => true
  | _, [] => false
  | x :: a', y :: b' => if x =? y then str_le a' b' else x <? y
  end.

(** ** Stable sort: [sort_by_key] *)
Section sort_by_key.
Context {A : Type} (key : A → Z).

Fixpoint insert_by_key (x : A) (l : list A) : list A :=
  match l with
  | [] => [x]
  | y :: l' => if key x <=? key y then x :: y :: l' else y :: insert_by_key x l'
  end.

Definition sort_by_key (l : list A) : list A := foldr insert_by_key [] l.

Definition key_le (x y : A) : Prop := key x ≤ key y.

Lemma insert_by_key_perm x l : insert_by_key x l ≡ₚ x :: l.
Proof.
  induction l as [|y l IH]; simpl; [done|].
  case_match; [done|]. rewrite IH. apply Permutation_swap.
Qed.

Lemma sort_by_key_perm l : sort_by_key l ≡ₚ l.
Proof. induction l as [|x l IH]; simpl; [done|]. by rewrite insert_by_key_perm, IH. Qed.

Lemma insert_by_key_sorted x l :
  StronglySorted key_le l → StronglySorted key_le (insert_by_key x l).
Proof.
  induction 1 as [|y l Hl IH Hy]; simpl; [repeat constructor|].
  destruct (Z.leb_spec (key x) (key y)).
  - constructor; [by constructor|]. constructor; [done|].
    eapply Forall_impl; [exact Hy|]. unfold key_le. simpl. lia.
  - constructor; [done|]. rewrite insert_by_key_perm. constructor; [unfold key_le; lia|done].
Qed.

Lemma sort_by_key_sorted l : StronglySorted key_le (sort_by_key l).
Proof.
  induction l as [|x l IH]; simpl; [constructor|]. by apply insert_by_key_sorted.
Qed.

(** A list that is sorted already is left alone: in particular elements with
    equal keys keep their order. *)
Lemma sort_by_key_id l : StronglySorted key_le l → sort_by_key l = l.
Proof.
  induction 1 as [|x l Hl IH Hx]; simpl; [done|]. rewrite IH.
  destruct l as [|y l]; [done|]. simpl.
  assert (key_le x y) as Hxy by by inversion Hx.
  unfold key_le in Hxy. by replace (key x <=? key y) with true by lia.
Qed.

Lemma insert_by_key_filter k x l :
  StronglySorted key_le l →
  filter (λ y, key y = k) (insert_by_key x l) = filter (λ y, key y = k) (x :: l).
Proof.
  induction 1 as [|y l Hl IH Hy]; simpl; [done|].
  destruct (Z.leb_spec (key x) (key y)); [done|].
  rewrite !filter_cons in *. rewrite IH. repeat case_decide; try done; lia.
Qed.

(** Stability: the elements of one key keep their order. *)
Lemma sort_by_key_filter k l :
  filter (λ y, key y = k) (sort_by_key l) = filter (λ y, key y = k) l.
Proof.
  induction l as [|x l IH]; simpl; [done|].
  rewrite insert_by_key_filter by apply sort_by_key_sorted.
  rewrite !filter_cons, IH. done.
Qed.
End sort_by_key.

(** ** [BTreeMap<K, Vec<V>>] built with [entry(k).or_default().push(v)]

    The map is its ascending sequence of entries. *)
Section btree.
Context {K V : Type} (cmp : K → K → comparison).

Fixpoint btree_push (k : K) (v : V) (m : list (K * list V)) : list (K * list V) :=
  match m with
  | [] => [(k, [v])]
  | (k', vs) :: m' =>
      match cmp k k' with
      | Eq => (k', vs ++ [v]) :: m'
      | Lt => (k, [v]) :: (k', vs) :: m'
      | Gt => (k', vs) :: btree_push k v m'
      end
  end.

Definition btree_values (m : list (K * list V)) : list V := concat (m.*2).

Lemma btree_push_values k v m : btree_values (btree_push k v m) ≡ₚ btree_values m ++ [v].
Proof.
  unfold btree_values. induction m as [|[k' vs] m IH]; simpl; [done|].
  destruct (cmp k k'); simpl.
  - solve_Permutation.
  - solve_Permutation.
  - by rewrite IH, app_assoc.
Qed.

(** A property of every (key, value) pair is kept by a push that satisfies it. *)
Definition btree_all (P : K → V → Prop) (m : list (K * list V)) : Prop :=
  Forall (λ e, Forall (P e.1) e.2) m.

Lemma btree_push_all (P : K → V → Prop) k v m :
  (∀ k', cmp k k' = Eq → k = k') →
  btree_all P m → P k v → btree_all P (btree_push k v m).
Proof.
  intros Hcmp Hm Hv. induction Hm as [|[k' vs] m Hvs Hm IH]; simpl.
  { repeat constructor. done. }
  destruct (cmp k k') eqn:E.
  - apply Hcmp in E as ->. constructor; [|done]. apply Forall_app. split; [done|].
    by constructor.
  - constructor; [by repeat constructor|]. by constructor.
  - by constructor.
Qed.

(** The entries with their keys. *)
Definition btree_pairs (m : list (K * list V)) : list (K * V) := m ≫= λ e, pair e.1 <$> e.2.

Lemma btree_pairs_values m : (btree_pairs m).*2 = btree_values m.
Proof.
  unfold btree_pairs, btree_values. induction m as [|[k vs] m IH]; [done|]. cbn.
  rewrite fmap_app, IH. f_equal. rewrite <- list_fmap_compose. apply list_fmap_id.
Qed.

Lemma btree_push_pairs k v m :
  (∀ k', cmp k k' = Eq → k = k') → btree_pairs (btree_push k v m) ≡ₚ btree_pairs m ++ [(k, v)].
Proof.
  intros Heq. unfold btree_pairs. induction m as [|[k' vs] m IH]; cbn; [done|].
  destruct (cmp k k') eqn:E; cbn.
  - apply Heq in E as ->. rewrite fmap_app. cbn. solve_Permutation.
  - solve_Permutation.
  - by rewrite IH, app_assoc.
Qed.

Lemma bind_pairs {B} (f : K → V → B) (m : list (K * list V)) :
  (m ≫= λ g, f g.1 <$> g.2) = (λ kv, f kv.1 kv.2) <$> btree_pairs m.
Proof.
  unfold btree_pairs. induction m as [|[k vs] m IH]; [done|]. cbn. rewrite fmap_app. f_equal; [|apply IH].
  by rewrite <- list_fmap_compose.
Qed.

(** Keys stay in strictly ascending order, so no key has two entries. *)
Definition btree_sorted (m : list (K * list V)) : Prop :=
  StronglySorted (λ a b, cmp a.1 b.1 = Lt) m.

Lemma btree_push_sorted k v m :
  (∀ a b, cmp a b = Eq → a = b) →
  (∀ a b, cmp a b = Gt → cmp b a = Lt) →
  (∀ a b c, cmp a b = Lt → cmp b c = Lt → cmp a c = Lt) →
  btree_sorted m → btree_sorted (btree_push k v m).
Proof.
  intros Heq Hgt Htrans. unfold btree_sorted.
  assert (∀ (P : K → Prop) m, Forall (λ e, P e.1) m → P k →
    Forall (λ e, P e.1) (btree_push k v m)) as Hall.
  { intros P m0 Hm0 Hk. induction Hm0 as [|[k' vs] m0 Hv Hm0 IH]; simpl; [by repeat constructor|].
    destruct (cmp k k'); by repeat constructor. }
  induction 1 as [|[k' vs] m Hm IH Hk']; simpl; [repeat constructor|].
  destruct (cmp k k') eqn:E.
  - by constructor.
  - constructor; [by constructor|]. constructor; [done|].
    eapply Forall_impl; [exact Hk'|]. simpl. eauto.
  - constructor; [done|]. apply (Hall (λ x, cmp k' x = Lt)); [done|]. by apply Hgt.
Qed.
End btree.

(** ** IEEE-754 binary64 and binary32

    An [f64] is its 64-bit pattern, an [f32] its 32-bit pattern; [to_bits],
    [to_be_bytes] and [from_be_bytes] are then conversions of integers. *)
Definition f64_exp (b : Z) : Z := b / 2 ^ 52 mod 2 ^ 11.
Definition f64_man (b : Z) : Z := b mod 2 ^ 52.
Definition f64_is_nan (b : Z) : bool := (f64_exp b =? 2047) && negb (f64_man b =? 0).
Definition f64_is_finite (b : Z) : bool := negb (f64_exp b =? 2047).
Definition f64_is_zero (b : Z) : bool := b mod 2 ^ 63 =? 0.

Definition f32_exp (b : Z) : Z := b / 2 ^ 23 mod 2 ^ 8.
Definition f32_man (b : Z) : Z := b mod 2 ^ 23.
Definition f32_is_nan (b : Z) : bool := (f32_exp b =? 255) && negb (f32_man b =? 0).
Definition f32_is_infinite (b : Z) : bool := b mod 2 ^ 31 =? 0x7F800000.

(** [a == b] on [f64]: NaN is equal to nothing, the two zeros are equal. *)
Definition f64_eq (a b : Z) : bool :=
  negb (f64_is_nan a) && negb (f64_is_nan b)
  && ((a =? b) || (f64_is_zero a && f64_is_zero b)).

(** [m / 2^d] rounded to nearest, ties to even. *)
Definition round_half_even (m d : Z) : Z :=
  let q := m / 2 ^ d in
  let r := m mod 2 ^ d in
  if (2 ^ d <? 2 * r) || ((2 * r =? 2 ^ d) && Z.odd q) then q + 1 else q.

(** [x as f64] for an [f32]: exact; a NaN keeps its payload and is quiet. *)
Definition f32_to_f64 (b : Z) : Z :=
  let s := b / 2 ^ 31 mod 2 in
  let e := f32_exp b in
  let m := f32_man b in
  let magnitude :=
    if e =? 255 then
      if m =? 0 then 2047 * 2 ^ 52
      else 2047 * 2 ^ 52 + Z.lor (2 ^ 51) (m * 2 ^ 29)
    else if e =? 0 then
      if m =? 0 then 0
      else let k := Z.log2 m in (k + 874) * 2 ^ 52 + (m - 2 ^ k) * 2 ^ (52 - k)
    else (e + 896) * 2 ^ 52 + m * 2 ^ 29 in
  s * 2 ^ 63 + magnitude.

(** [x as f32] for an [f64]: round to nearest even, overflow to infinity,
    gradual underflow.  For a significand [m * 2^e] the result has exponent
    [q] (at least the subnormal exponent -149) and its bit pattern is
    [(q + 149) * 2^23] plus the rounded significand: a carry out of the
    rounding moves to the next binade by itself. *)
Definition f64_to_f32 (b : Z) : Z :=
  let s := b / 2 ^ 63 mod 2 in
  let e := f64_exp b in
  let m := f64_man b in
  let magnitude :=
    if e =? 2047 then
      if m =? 0 then 0x7F800000
      else 0x7F800000 + Z.lor (2 ^ 22) (m / 2 ^ 29)
    else
      let m' := if e =? 0 then m else 2 ^ 52 + m in
      let e' := Z.max e 1 - 1075 in
      if m' =? 0 then 0
      else
        let q := Z.max (e' + (Z.log2 m' + 1) - 24) (-149) in
        let r := if q <=? e' then m' * 2 ^ (e' - q) else round_half_even m' (q - e') in
        Z.min 0x7F800000 ((q + 149) * 2 ^ 23 + r) in
  s * 2 ^ 31 + magnitude.

Example f64_to_f32_one : f64_to_f32 0x3FF0000000000000 = 0x3F800000.
Proof. reflexivity. Qed.
Example f64_to_f32_tenth : f64_to_f32 0x3FB999999999999A = 0x3DCCCCCD.
Proof. reflexivity. Qed.
Example f64_to_f32_overflow : f64_to_f32 0x47EFFFFFF0000000 = 0x7F800000.
Proof. reflexivity. Qed.
Example f64_to_f32_max : f64_to_f32 0x47EFFFFFE0000000 = 0x7F7FFFFF.
Proof. reflexivity. Qed.
Example f64_to_f32_subnormal : f64_to_f32 0x36A0000000000000 = 1.
Proof. reflexivity. Qed.
Example f64_to_f32_neg_tiny : f64_to_f32 0x8000000000000001 = 0x80000000.
Proof. reflexivity. Qed.
Example f32_to_f64_tenth : f32_to_f64 0x3DCCCCCD = 0x3FB99999A0000000.
Proof. reflexivity. Qed.
Example f32_to_f64_subnormal : f32_to_f64 3 = 0x36B8000000000000.
Proof. reflexivity. Qed.

Lemma round_half_even_nonneg m d : 0 ≤ m → 0 ≤ round_half_even m d.
Proof.
  intros Hm. unfold round_half_even.
  assert (0 ≤ m / 2 ^ d).
  { destruct (Z.lt_ge_cases d 0).
    - rewrite Z.pow_neg_r by done. by rewrite Z.div_0_r.
    - apply Z.div_pos; [done|]. apply Z.pow_pos_nonneg; lia. }
  case_match; lia.
Qed.

Lemma f64_to_f32_range b : in_u 32 (f64_to_f32 b).
Proof.
  unfold in_u, f64_to_f32. set (s := b / 2 ^ 63 mod 2).
  assert (0 ≤ s < 2) by (apply Z.mod_pos_bound; lia).
  match goal with |- 0 ≤ _ + ?m < _ => assert (0 ≤ m < 2 ^ 31) end; [|lia].
  assert (0 ≤ f64_man b < 2 ^ 52) as Hm by (apply Z.mod_pos_bound; lia).
  repeat case_match; try lia;
    try (match goal with |- context [Z.min _ ((?q + 149) * _ + ?r)] =>
      assert (-149 ≤ q) by apply Z.le_max_r; assert (0 ≤ r); [|lia] end;
    first [apply round_half_even_nonneg; lia
      | apply Z.mul_nonneg_nonneg; [lia|apply Z.pow_nonneg; lia]]).
  - assert (0 ≤ Z.lor (2 ^ 22) (f64_man b / 2 ^ 29) < 2 ^ 23); [|lia].
    assert (0 ≤ f64_man b / 2 ^ 29 < 2 ^ 23) as Hd by dlia.
    assert (0 ≤ Z.lor (2 ^ 22) (f64_man b / 2 ^ 29)) as Hnn by (apply Z.lor_nonneg; lia).
    split; [done|]. destruct (Z.eq_dec (Z.lor (2 ^ 22) (f64_man b / 2 ^ 29)) 0); [lia|].
    apply Z.log2_lt_pow2; [lia|]. rewrite Z.log2_lor by lia.
    destruct (Z.eq_dec (f64_man b / 2 ^ 29) 0) as [->|]; [simpl; lia|].
    assert (Z.log2 (f64_man b / 2 ^ 29) < 23) by (apply Z.log2_lt_pow2; lia).
    change (Z.log2 (2 ^ 22)) with 22. lia.
Qed.

(** Only a NaN narrows to a NaN: rounding goes to infinity at most. *)
Lemma f64_to_f32_not_nan b : f64_is_nan b = false → f32_is_nan (f64_to_f32 b) = false.
Proof.
  intros Hb. unfold f64_to_f32. set (s := b / 2 ^ 63 mod 2).
  assert (0 ≤ s < 2) by (apply Z.mod_pos_bound; lia).
  assert (∀ M, 0 ≤ M ≤ 0x7F800000 → f32_is_nan (s * 2 ^ 31 + M) = false) as Hmag.
  { intros M HM. unfold f32_is_nan, f32_exp, f32_man. apply andb_false_iff.
    destruct (Z.eqb_spec ((s * 2 ^ 31 + M) / 2 ^ 23 mod 2 ^ 8) 255); [right|by left].
    apply negb_false_iff, Z.eqb_eq. dlia. }
  assert (0 ≤ f64_man b < 2 ^ 52) as Hm by (apply Z.mod_pos_bound; lia).
  apply Hmag. unfold f64_is_nan in Hb. destruct (f64_exp b =? 2047).
  { destruct (f64_man b =? 0); [lia|done]. }
  match goal with |- context [Z.max ?x (-149)] => pose proof (Z.le_max_r x (-149)) end.
  repeat case_match; try lia;
    (match goal with |- context [Z.min _ (_ + ?r)] => assert (0 ≤ r); [|lia] end);
    first [apply round_half_even_nonneg; lia
      | apply Z.mul_nonneg_nonneg; [lia|apply Z.pow_nonneg; lia]].
Qed.

(** Two [f64] that compare equal have the same pattern, the zeros apart. *)
Lemma f64_eq_true a b :
  f64_eq a b = true → a = b ∨ (f64_is_zero a = true ∧ f64_is_zero b = true).
Proof.
  unfold f64_eq. rewrite !andb_true_iff, orb_true_iff, andb_true_iff, Z.eqb_eq. tauto.
Qed.

(** A value that narrows to [f32] and compares equal after widening is
    recovered bit for bit. *)
Lemma f32_round_trip_bits v :
  in_u 64 v → f64_eq (f32_to_f64 (f64_to_f32 v)) v = true →
  f32_to_f64 (f64_to_f32 v) = v.
Proof.
  intros Hv [?|[_ Hz]]%f64_eq_true; [done|].
  unfold f64_is_zero in Hz. unfold in_u in Hv.
  assert (v = 0 ∨ v = 2 ^ 63) as [->| ->] by dlia; reflexivity.
Qed.

Lemma round_half_even_exact m d : 0 ≤ d → round_half_even (m * 2 ^ d) d = m.
Proof.
  intros Hd. unfold round_half_even. assert (0 < 2 ^ d) by (apply Z.pow_pos_nonneg; lia).
  rewrite Z.div_mul, Z.mod_mul by lia.
  by replace ((2 ^ d <? 2 * 0) || ((2 * 0 =? 2 ^ d) && Z.odd m)) with false by lia.
Qed.

(** The fields of an [f64] pattern put together from them. *)
Lemma f64_fields s E M :
  0 ≤ s < 2 → 0 ≤ E < 2048 → 0 ≤ M < 2 ^ 52 →
  let b := s * 2 ^ 63 + (E * 2 ^ 52 + M) in
  b / 2 ^ 63 mod 2 = s ∧ f64_exp b = E ∧ f64_man b = M.
Proof. intros Hs HE HM b. unfold b, f64_exp, f64_man. dlia. Qed.

(** Rescaling an exact multiple of the new unit does not round. *)
Lemma scale_exact mm e d q M :
  mm = M * 2 ^ d → 0 ≤ d → q - e = d → 0 < M →
  (if q <=? e then mm * 2 ^ (e - q) else round_half_even mm (q - e)) = M.
Proof.
  intros -> Hd Hq HM. destruct (Z.leb_spec q e).
  - replace d with 0 by lia. replace (e - q) with 0 by lia. lia.
  - rewrite Hq. by apply round_half_even_exact.
Qed.

(** Widening loses nothing: narrowing a widened non-NaN [f32] gives it back. *)
Lemma f64_to_f32_to_f64 x :
  in_u 32 x → f32_is_nan x = false → f64_to_f32 (f32_to_f64 x) = x.
Proof.
  intros Hx Hnan. unfold in_u in Hx.
  set (s := x / 2 ^ 31 mod 2). set (e := f32_exp x). set (m := f32_man x).
  assert (0 ≤ s < 2 ∧ 0 ≤ e < 256 ∧ 0 ≤ m < 2 ^ 23 ∧ x = s * 2 ^ 31 + e * 2 ^ 23 + m)
    as (Hs & He & Hm & Hx').
  { unfold s, e, m, f32_exp, f32_man. dlia. }
  unfold f32_to_f64. fold s e m. unfold f32_is_nan in Hnan. fold e m in Hnan.
  destruct (Z.eqb_spec e 255) as [He'|He'].
  { destruct (Z.eqb_spec m 0) as [Hm'|]; [|simpl in Hnan; congruence].
    rewrite He', Hm' in Hx'.
    assert (s = 0 ∨ s = 1) as [Hs'|Hs'] by lia; rewrite Hs' in *; rewrite Hx'; reflexivity. }
  destruct (Z.eqb_spec e 0) as [He0|He0].
  - destruct (Z.eqb_spec m 0) as [Hm0|Hm0].
    { rewrite He0, Hm0 in Hx'.
      assert (s = 0 ∨ s = 1) as [Hs'|Hs'] by lia; rewrite Hs' in *; rewrite Hx'; reflexivity. }
    set (k := Z.log2 m).
    assert (2 ^ k ≤ m < 2 ^ (k + 1)) as Hk by (apply Z.log2_spec; lia).
    assert (0 ≤ k < 23) as Hk23.
    { split; [apply Z.log2_nonneg|]. apply Z.log2_lt_pow2; lia. }
    assert (2 ^ k * 2 ^ (52 - k) = 2 ^ 52) as Hp by (rewrite <- Z.pow_add_r by lia; f_equal; lia).
    assert (2 ^ (k + 1) * 2 ^ (52 - k) = 2 ^ 53) as Hp1
      by (rewrite <- Z.pow_add_r by lia; f_equal; lia).
    assert (0 < 2 ^ (52 - k)) by (apply Z.pow_pos_nonneg; lia).
    destruct (f64_fields s (k + 874) ((m - 2 ^ k) * 2 ^ (52 - k))) as (F1 & F2 & F3); [done|lia|nia|].
    unfold f64_to_f32. rewrite F1, F2, F3.
    replace (k + 874 =? 2047) with false by lia. replace (k + 874 =? 0) with false by lia.
    assert (2 ^ 52 + (m - 2 ^ k) * 2 ^ (52 - k) = m * 2 ^ (52 - k)) as Hmm by nia.
    rewrite Hmm. replace (m * 2 ^ (52 - k) =? 0) with false by nia.
    replace (Z.log2 (m * 2 ^ (52 - k))) with 52
      by (symmetry; apply Z.log2_unique; [lia|]; change (Z.succ 52) with 53; nia).
    replace (Z.max (Z.max (k + 874) 1 - 1075 + (52 + 1) - 24) (-149)) with (-149) by lia.
    rewrite (scale_exact _ _ (52 - k) _ m) by lia. lia.
  - assert (0 ≤ m * 2 ^ 29 < 2 ^ 52) by lia.
    destruct (f64_fields s (e + 896) (m * 2 ^ 29)) as (F1 & F2 & F3); [done|lia|done|].
    unfold f64_to_f32. rewrite F1, F2, F3.
    replace (e + 896 =? 2047) with false by lia. replace (e + 896 =? 0) with false by lia.
    replace (2 ^ 52 + m * 2 ^ 29 =? 0) with false by lia.
    replace (Z.log2 (2 ^ 52 + m * 2 ^ 29)) with 52
      by (symmetry; apply Z.log2_unique; [lia|]; change (Z.succ 52) with 53; lia).
    replace (Z.max (Z.max (e + 896) 1 - 1075 + (52 + 1) - 24) (-149)) with (e - 150) by lia.
    rewrite (scale_exact _ _ 29 _ (2 ^ 23 + m)) by lia. lia.
Qed.

(** ** Length-prefixed text

    [str::len] counts bytes.  A segment written as its decimal length, a colon
    and its content can be followed by anything and still be recognised. *)
Definition byte_len (s : str) : Z := Z.of_nat (length (utf8_encode s)).

Definition colon : Z := 58.

Lemma utf8_encode_char_pos c : (0 < length (utf8_encode_char c))%nat.
Proof. unfold utf8_encode_char. repeat case_match; simpl; lia. Qed.

Lemma byte_len_cons c s : byte_len (c :: s) = Z.of_nat (length (utf8_encode_char c)) + byte_len s.
Proof. unfold byte_len, utf8_encode. cbn [mbind list_bind]. rewrite length_app. lia. Qed.

Lemma byte_len_nonneg s : 0 ≤ byte_len s.
Proof. unfold byte_len. lia. Qed.

(** Two prefixes of one text that are equally long in bytes are equal. *)
Lemma byte_len_prefix_inj s1 s2 r1 r2 :
  s1 ++ r1 = s2 ++ r2 → byte_len s1 = byte_len s2 → s1 = s2 ∧ r1 = r2.
Proof.
  revert s2. induction s1 as [|c s1 IH]; intros [|d s2] Heq Hlen; simpl in *.
  - done.
  - pose proof (utf8_encode_char_pos d). pose proof (byte_len_nonneg s2).
    rewrite byte_len_cons in Hlen. change (byte_len []) with 0 in Hlen. lia.
  - pose proof (utf8_encode_char_pos c). pose proof (byte_len_nonneg s1).
    rewrite byte_len_cons in Hlen. change (byte_len []) with 0 in Hlen. lia.
  - injection Heq as -> Heq. rewrite !byte_len_cons in Hlen.
    destruct (IH s2 Heq) as [-> ->]; [lia|done].
Qed.

Lemma to_string_inj n m : in_u 64 n → in_u 64 m → to_string n = to_string m → n = m.
Proof.
  intros Hn Hm Heq. pose proof (parse_uint_to_string 64 n Hn ltac:(lia)) as Pn.
  rewrite Heq, (parse_uint_to_string 64 m Hm ltac:(lia)) in Pn. congruence.
Qed.

(** A number before a character that is not a digit is read unambiguously. *)
Lemma to_string_delim_inj c n m r1 r2 :
  ¬ is_digit c → in_u 64 n → in_u 64 m →
  to_string n ++ c :: r1 = to_string m ++ c :: r2 → n = m ∧ r1 = r2.
Proof.
  intros Hc Hn Hm Heq.
  pose proof (split_once_app c (to_string n) r1 (to_string_not_elem c n Hc)) as H1.
  rewrite Heq, (split_once_app c _ _ (to_string_not_elem c m Hc)) in H1.
  injection H1 as Hs ->. split; [|done]. by apply to_string_inj.
Qed.

Lemma len_prefixed_inj s1 s2 r1 r2 :
  in_u 64 (byte_len s1) → in_u 64 (byte_len s2) →
  to_string (byte_len s1) ++ colon :: s1 ++ r1 = to_string (byte_len s2) ++ colon :: s2 ++ r2 →
  s1 = s2 ∧ r1 = r2.
Proof.
  intros H1 H2 Heq. apply to_string_delim_inj in Heq as [Hl Heq]; [|unfold is_digit, colon; lia|done..].
  by apply byte_len_prefix_inj.
Qed.

(** ** Hash maps

    The iteration order of a [HashMap] is not specified: any order of its
    entries, each once. *)
Class MapOrder (A : Type) : Type := {
  map_order : gmap str A → list (str * A);
  map_order_perm m : map_order m ≡ₚ map_to_list m;
}.

Lemma elem_of_map_order `{!MapOrder A} (m : gmap str A) k v :
  (k, v) ∈ map_order m ↔ m !! k = Some v.
Proof. by rewrite map_order_perm, elem_of_map_to_list. Qed.

Lemma map_order_NoDup `{!MapOrder A} (m : gmap str A) : NoDup (map_order m).*1.
Proof. rewrite map_order_perm. apply NoDup_fst_map_to_list. Qed.
