(* ===== verification/RustFloat.v ===== *)
(** * Arithmetic on [f64]

    An [f64] is its bit pattern, as in RustStd.v.  Every finite one is an
    integer multiple of 2^-1074, so its value is an integer [f64_num] in that
    unit; comparison is comparison of these integers, and an operation is the
    exact result rounded to the nearest representable number, ties to even.
    The pattern of a NaN result is the quiet NaN. *)

From S2P Require Import Prelude RustStd.
From stdpp Require Import options.

(** ** Values *)
Definition f64_unit : Z := 2 ^ 1074.

Definition f64_sign (b : Z) : bool := b / 2 ^ 63 mod 2 =? 1.

(** The magnitude in units of 2^-1074; infinity is above every number. *)
Definition f64_mag (b : Z) : Z :=
  if f64_exp b =? 0 then f64_man b else (2 ^ 52 + f64_man b) * 2 ^ (f64_exp b - 1).

Definition f64_num (b : Z) : Z := if f64_sign b then - f64_mag b else f64_mag b.

Definition f64_lt (a b : Z) : bool :=
  negb (f64_is_nan a) && negb (f64_is_nan b) && (f64_num a <? f64_num b).
Definition f64_le (a b : Z) : bool :=
  negb (f64_is_nan a) && negb (f64_is_nan b) && (f64_num a <=? f64_num b).

Definition f64_is_infinite (b : Z) : bool := (f64_exp b =? 2047) && (f64_man b =? 0).

Definition INFINITY : Z := 2047 * 2 ^ 52.
Definition NAN : Z := 2047 * 2 ^ 52 + 2 ^ 51.

Definition sign_bit (s : bool) : Z := if s then 2 ^ 63 else 0.

(** ** Rounding *)

(** [n / d] rounded to the nearest integer, ties to even. *)
Definition div_half_even (n d : Z) : Z :=
  let q := n / d in
  let r := n mod d in
  if (d <? 2 * r) || ((2 * r =? d) && Z.odd q) then q + 1 else q.

(** The exponent for a magnitude of [n / d] units: the significand has 53
    bits, or fewer at the bottom of the range. *)
Definition ratio_exp (n d : Z) : Z := Z.max 0 (Z.log2 (n / d) - 52).

(** The pattern of the number nearest to [n / d] units.  The significand is
    added to the exponent field, so that a carry of the rounding moves to the
    next binade. *)
Definition f64_of_ratio (s : bool) (n d : Z) : Z :=
  let e := ratio_exp n d in
  sign_bit s + Z.min INFINITY (e * 2 ^ 52 + div_half_even n (d * 2 ^ e)).

(** [k as f64] for an integer. *)
Definition f64_of_int (k : Z) : Z := f64_of_ratio (k <? 0) (Z.abs k * f64_unit) 1.

(** ** Operations *)
Definition f64_neg (a : Z) : Z := if f64_sign a then a - 2 ^ 63 else a + 2 ^ 63.

Definition f64_mul (a b : Z) : Z :=
  let s := xorb (f64_sign a) (f64_sign b) in
  if f64_is_nan a || f64_is_nan b then NAN
  else if f64_is_infinite a || f64_is_infinite b then
    if f64_is_zero a || f64_is_zero b then NAN else sign_bit s + INFINITY
  else f64_of_ratio s (f64_mag a * f64_mag b) f64_unit.

Definition f64_add (a b : Z) : Z :=
  if f64_is_nan a || f64_is_nan b then NAN
  else if f64_is_infinite a then
    if f64_is_infinite b && negb (eqb (f64_sign a) (f64_sign b)) then NAN else a
  else if f64_is_infinite b then b
  else
    let n := f64_num a + f64_num b in
    if n =? 0 then sign_bit (f64_sign a && f64_sign b)
    else f64_of_ratio (n <? 0) (Z.abs n) 1.

Definition f64_sub (a b : Z) : Z := if f64_is_nan b then NAN else f64_add a (f64_neg b).

Definition f64_div (a b : Z) : Z :=
  let s := xorb (f64_sign a) (f64_sign b) in
  if f64_is_nan a || f64_is_nan b then NAN
  else if f64_is_infinite a then if f64_is_infinite b then NAN else sign_bit s + INFINITY
  else if f64_is_infinite b then sign_bit s
  else if f64_is_zero b then if f64_is_zero a then NAN else sign_bit s + INFINITY
  else f64_of_ratio s (f64_mag a * f64_unit) (f64_mag b).

(** ** Integers near a number *)
Definition f64_floor_Z (b : Z) : Z := f64_num b / f64_unit.
Definition f64_ceil_Z (b : Z) : Z := - (- f64_num b / f64_unit).
Definition f64_trunc_Z (b : Z) : Z := Z.quot (f64_num b) f64_unit.
(* half away from zero *)
Definition f64_round_Z (b : Z) : Z :=
  Z.sgn (f64_num b) * ((2 * Z.abs (f64_num b) + f64_unit) / (2 * f64_unit)).

(** The [f64] of such an integer; a zero keeps the sign of the argument. *)
Definition f64_integral (to_int : Z → Z) (b : Z) : Z :=
  if negb (f64_is_finite b) then b
  else if to_int b =? 0 then sign_bit (f64_sign b) else f64_of_int (to_int b).

Definition f64_floor : Z → Z := f64_integral f64_floor_Z.
Definition f64_ceil : Z → Z := f64_integral f64_ceil_Z.
Definition f64_trunc : Z → Z := f64_integral f64_trunc_Z.
Definition f64_round : Z → Z := f64_integral f64_round_Z.

(** [x.fract() == 0.0]: the fraction of an infinity is a NaN. *)
Definition f64_fract_is_zero (b : Z) : bool :=
  f64_is_finite b && (f64_num b mod f64_unit =? 0).

(** [x as i64] and the like: the fraction is cut off, out-of-range values
    saturate, a NaN is zero. *)
Definition f64_as_int (lo hi : Z) (b : Z) : Z :=
  if f64_is_nan b then 0 else Z.max lo (Z.min hi (f64_trunc_Z b)).

Example f64_add_tenths : f64_add 0x3FB999999999999A 0x3FC999999999999A = 0x3FD3333333333334.
Proof. vm_compute. reflexivity. Qed.
Example f64_mul_hundredth : f64_mul (f64_of_int 4999) 0x3F847AE147AE147B = 0x4048FEB851EB851F.
Proof. vm_compute. reflexivity. Qed.
Example f64_div_third : f64_div (f64_of_int 1) (f64_of_int 3) = 0x3FD5555555555555.
Proof. vm_compute. reflexivity. Qed.
Example f64_of_int_rounds : f64_of_int (2 ^ 53 + 1) = 0x4340000000000000.
Proof. vm_compute. reflexivity. Qed.
Example f64_of_int_max : f64_of_int (2 ^ 64 - 1) = 0x43F0000000000000.
Proof. vm_compute. reflexivity. Qed.
Example f64_underflow : f64_div 1 (f64_of_int 2) = 0.
Proof. vm_compute. reflexivity. Qed.
Example f64_overflow : f64_mul 0x7FEFFFFFFFFFFFFF (f64_of_int (-2)) = 0xFFF0000000000000.
Proof. vm_compute. reflexivity. Qed.
Example f64_round_half : f64_round 0xC004000000000000 = 0xC008000000000000.
Proof. vm_compute. reflexivity. Qed.
Example f64_ceil_minus_half : f64_ceil 0xBFE0000000000000 = 0x8000000000000000.
Proof. vm_compute. reflexivity. Qed.

(** ** Laws *)
Lemma f64_unit_pos : 0 < f64_unit.
Proof. apply Z.pow_pos_nonneg; lia. Qed.

Lemma f64_man_bound b : 0 ≤ f64_man b < 2 ^ 52.
Proof. apply Z.mod_pos_bound. lia. Qed.

Lemma f64_exp_bound b : 0 ≤ f64_exp b < 2 ^ 11.
Proof. apply Z.mod_pos_bound. lia. Qed.

Lemma f64_mag_nonneg b : 0 ≤ f64_mag b.
Proof.
  pose proof (f64_man_bound b). unfold f64_mag. case_if; [lia|].
  apply Z.mul_nonneg_nonneg; [lia|]. apply Z.pow_nonneg. lia.
Qed.

Lemma f64_num_abs b : Z.abs (f64_num b) = f64_mag b.
Proof. pose proof (f64_mag_nonneg b). unfold f64_num. case_if; lia. Qed.

(** *** The pattern *)
Definition pattern (s : bool) (e m : Z) : Z := sign_bit s + e * 2 ^ 52 + m.

Lemma pattern_fields s e m :
  0 ≤ e < 2 ^ 11 → 0 ≤ m < 2 ^ 52 →
  f64_exp (pattern s e m) = e ∧ f64_man (pattern s e m) = m ∧ f64_sign (pattern s e m) = s ∧
  in_u 64 (pattern s e m).
Proof.
  intros He Hm. unfold f64_exp, f64_man, f64_sign, pattern, sign_bit, in_u.
  destruct s; split_and!; try lia; dlia.
Qed.

Lemma pattern_of b : in_u 64 b → b = pattern (f64_sign b) (f64_exp b) (f64_man b).
Proof.
  unfold in_u, pattern, f64_exp, f64_man, f64_sign, sign_bit. intros Hb.
  destruct (b / 2 ^ 63 mod 2 =? 1) eqn:E; [apply Z.eqb_eq in E|apply Z.eqb_neq in E]; dlia.
Qed.

(** A significand [m] of up to 53 bits at exponent [e]. *)
Lemma pattern_mag s e m :
  0 ≤ e → 0 ≤ m ≤ 2 ^ 53 → e = 0 ∨ 2 ^ 52 ≤ m → e * 2 ^ 52 + m < INFINITY →
  let b := sign_bit s + (e * 2 ^ 52 + m) in
  in_u 64 b ∧ f64_is_finite b = true ∧ f64_sign b = s ∧ f64_mag b = m * 2 ^ e.
Proof.
  intros He Hm Hn Hinf b.
  assert (∃ x y, b = pattern s x y ∧ 0 ≤ x < 2047 ∧ 0 ≤ y < 2 ^ 52 ∧
    (if x =? 0 then y else (2 ^ 52 + y) * 2 ^ (x - 1)) = m * 2 ^ e) as (x & y & Hb & Hx & Hy & Hmag).
  { unfold pattern, INFINITY in *. destruct (decide (m < 2 ^ 52)); [|destruct (decide (m < 2 ^ 53))].
    - exists 0, m. assert (e = 0) as -> by lia. cbn [Z.eqb]. split_and!; lia.
    - exists (e + 1), (m - 2 ^ 52). replace (e + 1 =? 0) with false by lia.
      replace (e + 1 - 1) with e by lia. split_and!; lia.
    - assert (m = 2 ^ 53) by lia. subst m. exists (e + 2), 0. replace (e + 2 =? 0) with false by lia.
      replace (e + 2 - 1) with (Z.succ e) by lia. rewrite Z.pow_succ_r by done. split_and!; lia. }
  destruct (pattern_fields s x y) as (H1 & H2 & H3 & H4); [lia|done|]. rewrite Hb.
  unfold f64_is_finite, f64_mag. rewrite H1, H2, H3. split_and!; [done| |done|done].
  apply negb_true_iff, Z.eqb_neq. lia.
Qed.

(** *** Rounding is to the nearest *)
Lemma div_half_even_spec n d :
  0 < d → - d ≤ 2 * (div_half_even n d * d - n) ≤ d.
Proof.
  intros Hd. unfold div_half_even. pose proof (Z.div_mod n d ltac:(lia)) as Hdm.
  pose proof (Z.mod_pos_bound n d Hd). set (q := n / d) in *. set (r := n mod d) in *.
  destruct (_ || _) eqn:E.
  - replace ((q + 1) * d - n) with (d - r) by lia. lia.
  - replace (q * d - n) with (- r) by lia. lia.
Qed.

Lemma div_half_even_exact n d : 0 < d → div_half_even (n * d) d = n.
Proof.
  intros Hd. unfold div_half_even. rewrite Z.div_mul, Z.mod_mul by lia.
  replace (d <? 2 * 0) with false by lia. replace (2 * 0 =? d) with false by lia. done.
Qed.

Lemma div_half_even_bounds n d lo hi :
  0 < d → lo * d ≤ n → n < hi * d → lo ≤ div_half_even n d ≤ hi.
Proof.
  intros Hd Hlo Hhi. unfold div_half_even.
  assert (lo ≤ n / d) by (apply Z.div_le_lower_bound; lia).
  assert (n / d < hi) by (apply Z.div_lt_upper_bound; lia). case_match; lia.
Qed.

Section ratio.
Context (n d : Z) (Hn : 0 ≤ n) (Hd : 0 < d).

Lemma ratio_scaled : 0 < d * 2 ^ ratio_exp n d.
Proof using Hd. apply Z.mul_pos_pos; [done|]. apply Z.pow_pos_nonneg; [lia|]. unfold ratio_exp. lia. Qed.

(** The significand of a ratio. *)
Lemma ratio_significand :
  0 ≤ div_half_even n (d * 2 ^ ratio_exp n d) ≤ 2 ^ 53 ∧
  (ratio_exp n d = 0 ∨ 2 ^ 52 ≤ div_half_even n (d * 2 ^ ratio_exp n d)).
Proof using Hn Hd.
  pose proof ratio_scaled as Hs. unfold ratio_exp in *. set (q := n / d) in *.
  assert (0 ≤ q) as Hq by (apply Z.div_pos; lia).
  pose proof (Z.div_mod n d ltac:(lia)) as Hdm. pose proof (Z.mod_pos_bound n d Hd). fold q in Hdm.
  destruct (decide (Z.log2 q < 52)) as [Hl|Hl].
  - rewrite Z.max_l in * by lia. change (2 ^ 0) with 1 in *. rewrite Z.mul_1_r in *.
    assert (q < 2 ^ 52).
    { destruct (decide (q = 0)); [lia|]. apply Z.log2_lt_pow2; lia. }
    split; [|by left]. pose proof (div_half_even_bounds n d 0 (2 ^ 52) Hd).
    assert (d * (q + 1) ≤ d * 2 ^ 52) by (apply Z.mul_le_mono_nonneg_l; lia). lia.
  - assert (0 < q) by (destruct (decide (q = 0)) as [E|]; [rewrite E in Hl; cbn in Hl; lia|lia]).
    rewrite Z.max_r in * by lia. set (e := Z.log2 q - 52) in *.
    pose proof (Z.log2_spec q ltac:(done)) as [Hlo Hhi]. rewrite <- Z.add_1_r in Hhi.
    replace (Z.log2 q) with (52 + e) in Hlo by lia. replace (Z.log2 q + 1) with (53 + e) in Hhi by lia.
    rewrite Z.pow_add_r in Hlo, Hhi by lia.
    pose proof (div_half_even_bounds n (d * 2 ^ e) (2 ^ 52) (2 ^ 53) Hs) as Hb.
    assert (d * (2 ^ 52 * 2 ^ e) ≤ d * q) by (apply Z.mul_le_mono_nonneg_l; lia).
    assert (d * (q + 1) ≤ d * (2 ^ 53 * 2 ^ e)) by (apply Z.mul_le_mono_nonneg_l; lia).
    set (p := 2 ^ e) in *. clearbody p. lia.
Qed.

Lemma f64_of_ratio_range s : in_u 64 (f64_of_ratio s n d).
Proof using Hn Hd.
  destruct ratio_significand as [Hm _]. unfold f64_of_ratio, sign_bit, in_u, INFINITY.
  assert (0 ≤ ratio_exp n d) by (unfold ratio_exp; lia). destruct s; lia.
Qed.

(** A result that is not infinite is the rounded ratio. *)
Lemma f64_of_ratio_value s :
  let m := div_half_even n (d * 2 ^ ratio_exp n d) in
  ratio_exp n d * 2 ^ 52 + m < INFINITY →
  f64_is_finite (f64_of_ratio s n d) = true ∧ f64_sign (f64_of_ratio s n d) = s ∧
  f64_mag (f64_of_ratio s n d) = m * 2 ^ ratio_exp n d.
Proof using Hn Hd.
  intros m Hinf. destruct ratio_significand as [Hm Hnorm]. fold m in Hm, Hnorm.
  unfold f64_of_ratio. fold m. rewrite Z.min_r by lia.
  destruct (pattern_mag s (ratio_exp n d) m) as (_ & ? & ? & ?); try done. unfold ratio_exp. lia.
Qed.
End ratio.

(** *** Representable numbers are kept *)
Lemma f64_of_ratio_id s b d :
  in_u 64 b → f64_is_finite b = true → 0 < d →
  f64_of_ratio s (f64_mag b * d) d = pattern s (f64_exp b) (f64_man b).
Proof.
  intros Hb Hf Hd. pose proof (f64_man_bound b) as Hm. pose proof (f64_exp_bound b) as He.
  unfold f64_is_finite in Hf. apply negb_true_iff, Z.eqb_neq in Hf.
  unfold f64_of_ratio, ratio_exp, f64_mag, pattern, INFINITY. rewrite Z.div_mul by lia.
  destruct (Z.eqb_spec (f64_exp b) 0) as [->|Hx].
  - assert (Z.log2 (f64_man b) < 52).
    { destruct (decide (f64_man b = 0)) as [->|]; [done|]. apply Z.log2_lt_pow2; lia. }
    rewrite Z.max_l by lia. rewrite Z.mul_1_r, div_half_even_exact by done. lia.
  - set (x := f64_exp b - 1) in *. rewrite Z.log2_mul_pow2 by lia.
    assert (Z.log2 (2 ^ 52 + f64_man b) = 52) as -> by (apply Z.log2_unique; lia).
    replace (Z.max 0 (x + 52 - 52)) with x by lia.
    replace ((2 ^ 52 + f64_man b) * 2 ^ x * d) with ((2 ^ 52 + f64_man b) * (d * 2 ^ x)) by ring.
    rewrite div_half_even_exact by (apply Z.mul_pos_pos; [done|]; apply Z.pow_pos_nonneg; lia).
    lia.
Qed.

Lemma f64_zero_mag b : in_u 64 b → f64_is_zero b = true ↔ f64_mag b = 0.
Proof.
  intros Hb. pose proof (f64_man_bound b). unfold f64_is_zero, f64_mag.
  rewrite Z.eqb_eq. destruct (Z.eqb_spec (f64_exp b) 0) as [E|E].
  - unfold f64_exp, f64_man, in_u in *. split; intros; dlia.
  - split; [unfold f64_exp in E; intros; dlia|]. intros [?|Hp]%Z.mul_eq_0; [lia|].
    assert (0 < 2 ^ (f64_exp b - 1)); [|lia]. pose proof (f64_exp_bound b). apply Z.pow_pos_nonneg; lia.
Qed.

Lemma f64_num_sign b : f64_mag b ≠ 0 → (f64_num b <? 0) = f64_sign b.
Proof. pose proof (f64_mag_nonneg b). unfold f64_num. destruct (f64_sign b); intros; lia. Qed.

Lemma f64_finite_not b : f64_is_finite b = true → f64_is_nan b = false ∧ f64_is_infinite b = false.
Proof. unfold f64_is_finite, f64_is_nan, f64_is_infinite. by destruct (f64_exp b =? 2047). Qed.

(** Two patterns of the same number. *)
Definition f64_same (a b : Z) : Prop :=
  in_u 64 a ∧ f64_is_finite a = true ∧ f64_num a = f64_num b.

Lemma f64_same_ratio b n d :
  in_u 64 b → f64_is_finite b = true → f64_mag b ≠ 0 → 0 < d → n = f64_mag b * d →
  f64_of_ratio (f64_sign b) n d = b.
Proof. intros Hb Hf Hz Hd ->. rewrite f64_of_ratio_id by done. symmetry. by apply pattern_of. Qed.

Lemma sign_bit_zero s : in_u 64 (sign_bit s) ∧ f64_is_finite (sign_bit s) = true ∧ f64_num (sign_bit s) = 0.
Proof. by destruct s. Qed.

Lemma f64_add_zero a z :
  in_u 64 a → f64_is_finite a = true → in_u 64 z → f64_is_zero z = true → f64_same (f64_add a z) a.
Proof.
  intros Ha Hf Hz Hzero. destruct (f64_finite_not a Hf) as [Hn Hi].
  assert (f64_is_finite z = true ∧ f64_num z = 0) as [Hzf Hzn].
  { apply f64_zero_mag in Hzero as Hm; [|done]. split; [|unfold f64_num; case_if; lia].
    unfold f64_is_finite. unfold f64_is_zero in Hzero. unfold f64_exp. apply Z.eqb_eq in Hzero.
    apply negb_true_iff, Z.eqb_neq. dlia. }
  destruct (f64_finite_not z Hzf) as [Hzn' Hzi].
  unfold f64_add. rewrite Hn, Hi, Hzn', Hzi, Hzn, Z.add_0_r. cbn [orb].
  pose proof (f64_num_abs a) as Habs. destruct (Z.eqb_spec (f64_num a) 0) as [E|E].
  - destruct (sign_bit_zero (f64_sign a && f64_sign z)) as (?&?&?).
    split_and!; [done|done|lia].
  - rewrite f64_num_sign, (f64_same_ratio a) by (done || lia). done.
Qed.

Lemma f64_sub_zero a z :
  in_u 64 a → f64_is_finite a = true → in_u 64 z → f64_is_zero z = true → f64_same (f64_sub a z) a.
Proof.
  intros Ha Hf Hz Hzero. assert (z = 0 ∨ z = 2 ^ 63) as [-> | ->].
  { unfold in_u, f64_is_zero in *. apply Z.eqb_eq in Hzero. dlia. }
  - by apply (f64_add_zero a (2 ^ 63)).
  - by apply (f64_add_zero a 0).
Qed.

Definition ONE : Z := 0x3FF0000000000000.

Lemma f64_mag_one : f64_mag ONE = f64_unit.
Proof. vm_compute. reflexivity. Qed.

Lemma f64_div_one a :
  in_u 64 a → f64_is_finite a = true → f64_same (f64_div a ONE) a.
Proof.
  intros Ha Hf. destruct (f64_finite_not a Hf) as [Hn Hi]. pose proof f64_unit_pos.
  unfold f64_div. rewrite Hn, Hi, f64_mag_one. change (f64_is_nan ONE) with false.
  change (f64_is_infinite ONE) with false. change (f64_is_zero ONE) with false.
  change (f64_sign ONE) with false. rewrite xorb_false_r. cbn [orb].
  destruct (decide (f64_mag a = 0)) as [E|E]; [|by rewrite (f64_same_ratio a)].
  rewrite f64_of_ratio_id by done. rewrite <- pattern_of by done. done.
Qed.

Lemma f64_mul_one a :
  in_u 64 a → f64_is_finite a = true → f64_same (f64_mul a ONE) a.
Proof.
  intros Ha Hf. destruct (f64_finite_not a Hf) as [Hn Hi]. pose proof f64_unit_pos.
  unfold f64_mul. rewrite Hn, Hi, f64_mag_one. change (f64_is_nan ONE) with false.
  change (f64_is_infinite ONE) with false. change (f64_sign ONE) with false. rewrite xorb_false_r. cbn [orb].
  rewrite f64_of_ratio_id, <- pattern_of by done. done.
Qed.

(** *** Integers *)
Lemma pow2_divide a b : 0 ≤ a ≤ b → (2 ^ a | 2 ^ b).
Proof. intros Hab. exists (2 ^ (b - a)). rewrite <- Z.pow_add_r by lia. f_equal. lia. Qed.

(** The significand of an integer of at most 53 bits is exact. *)
Lemma f64_of_int_exact k :
  Z.abs k ≤ 2 ^ 53 →
  in_u 64 (f64_of_int k) ∧ f64_is_finite (f64_of_int k) = true ∧ f64_num (f64_of_int k) = k * f64_unit.
Proof.
  intros Hk. destruct (decide (Z.abs k = 2 ^ 53)) as [Hmax|Hmax].
  { assert (k = 2 ^ 53 ∨ k = - 2 ^ 53) as [-> | ->] by lia; by vm_compute. }
  pose proof f64_unit_pos as Hu. unfold f64_of_int. set (n := Z.abs k * f64_unit).
  assert (0 ≤ n) as Hn by (subst n; lia).
  split; [by apply f64_of_ratio_range|].
  assert (0 ≤ ratio_exp n 1 ≤ 1074) as He.
  { unfold ratio_exp. rewrite Z.div_1_r. split; [lia|]. assert (Z.log2 n < 1127); [|lia].
    destruct (decide (n = 0)) as [->|]; [done|]. apply Z.log2_lt_pow2; [lia|].
    unfold n, f64_unit. change 1127 with (53 + 1074). rewrite Z.pow_add_r by lia.
    apply Z.mul_lt_mono_pos_r; [exact Hu|lia]. }
  pose proof (f64_of_ratio_value n 1 Hn ltac:(lia) (k <? 0)) as Hv. cbn zeta in Hv.
  destruct (ratio_significand n 1 Hn ltac:(lia)) as [Hsig _].
  set (e := ratio_exp n 1) in *. rewrite Z.mul_1_l in *. destruct (pow2_divide e 1074 He) as [c Hc].
  assert (div_half_even n (2 ^ e) = Z.abs k * c) as Hm.
  { replace n with (Z.abs k * c * 2 ^ e) by (unfold n, f64_unit; rewrite Hc; ring).
    apply div_half_even_exact, Z.pow_pos_nonneg; lia. }
  destruct Hv as (Hf & Hs & Hmag); [unfold INFINITY; lia|]. split; [done|].
  unfold f64_num. rewrite Hs, Hmag, Hm. unfold f64_unit. rewrite Hc. destruct (Z.ltb_spec k 0); lia.
Qed.

(** A larger integer becomes an integer, if a rounded one. *)
Lemma f64_of_int_integral k :
  Z.abs k ≤ 2 ^ 200 →
  in_u 64 (f64_of_int k) ∧ f64_is_finite (f64_of_int k) = true ∧
  ∃ j, f64_num (f64_of_int k) = j * f64_unit.
Proof.
  intros Hk. destruct (decide (Z.abs k ≤ 2 ^ 53)) as [Hs|Hs].
  { destruct (f64_of_int_exact k Hs) as (? & ? & ?). eauto. }
  pose proof f64_unit_pos as Hu. unfold f64_of_int. set (n := Z.abs k * f64_unit).
  assert (0 ≤ n) as Hn by (subst n; lia). split; [by apply f64_of_ratio_range|].
  assert (1074 ≤ ratio_exp n 1 ≤ 1222) as He.
  { unfold ratio_exp, n, f64_unit. rewrite Z.div_1_r, Z.log2_mul_pow2 by lia.
    assert (53 ≤ Z.log2 (Z.abs k)) by (apply Z.log2_le_pow2; lia).
    assert (Z.log2 (Z.abs k) ≤ 200) by (rewrite <- (Z.log2_pow2 200) by lia; by apply Z.log2_le_mono). lia. }
  pose proof (f64_of_ratio_value n 1 Hn ltac:(lia) (k <? 0)) as Hv. cbn zeta in Hv.
  destruct (ratio_significand n 1 Hn ltac:(lia)) as [Hsig _].
  set (e := ratio_exp n 1) in *. destruct Hv as (Hf & Hsg & Hmag); [unfold INFINITY; lia|]. split; [done|].
  unfold f64_num. rewrite Hsg, Hmag. destruct (pow2_divide 1074 e ltac:(lia)) as [c Hc].
  set (m := div_half_even n (1 * 2 ^ e)). exists ((if k <? 0 then - m else m) * c).
  unfold f64_unit. rewrite Hc. destruct (k <? 0); ring.
Qed.

Lemma f64_large_integral b :
  f64_is_finite b = true → 2 ^ 52 * f64_unit ≤ f64_mag b → (f64_unit | f64_num b).
Proof.
  intros Hf Hl. assert (f64_unit | f64_mag b) as [c Hc].
  { pose proof (f64_man_bound b) as Hm. pose proof (f64_exp_bound b) as He. revert Hl. unfold f64_mag.
    destruct (Z.eqb_spec (f64_exp b) 0) as [E|E]; intros Hl.
    { pose proof f64_unit_pos. nia. }
    destruct (decide (f64_exp b - 1 < 1074)) as [Hlt|Hge].
    - assert (2 ^ (f64_exp b - 1) ≤ 2 ^ 1073) by (apply Z.pow_le_mono_r; lia).
      assert (f64_unit = 2 * 2 ^ 1073) as Hu by (unfold f64_unit; rewrite <- Z.pow_succ_r by lia; done).
      rewrite Hu in Hl. assert (0 < 2 ^ 1073) by (apply Z.pow_pos_nonneg; lia).
      set (p := 2 ^ (f64_exp b - 1)) in *. set (u := 2 ^ 1073) in *. clearbody p u. nia.
    - apply Z.divide_mul_r. unfold f64_unit. apply pow2_divide. lia. }
  unfold f64_num. rewrite Hc. destruct (f64_sign b); [exists (- c); ring|by exists c].
Qed.

(** Rounding to an integer is exact. *)
Lemma f64_integral_value (to_int : Z → Z) b :
  in_u 64 b → f64_is_finite b = true →
  (f64_mag b < 2 ^ 52 * f64_unit → Z.abs (to_int b) ≤ 2 ^ 53) →
  ((f64_unit | f64_num b) → to_int b * f64_unit = f64_num b) →
  in_u 64 (f64_integral to_int b) ∧ f64_is_finite (f64_integral to_int b) = true ∧
  f64_num (f64_integral to_int b) = to_int b * f64_unit.
Proof.
  intros Hb Hf Hsmall Hint. unfold f64_integral. rewrite Hf. cbn [negb].
  destruct (Z.eqb_spec (to_int b) 0) as [->|Hnz]; [by destruct (f64_sign b)|].
  destruct (decide (f64_mag b < 2 ^ 52 * f64_unit)) as [Hlt|Hge].
  { by apply f64_of_int_exact, Hsmall. }
  specialize (Hint (f64_large_integral b Hf ltac:(lia))). pose proof f64_unit_pos as Hu.
  pose proof (f64_num_abs b) as Habs. rewrite <- Hint in Habs.
  assert (f64_of_int (to_int b) = b) as ->; [|done].
  unfold f64_of_int. replace (to_int b <? 0) with (f64_num b <? 0) by (rewrite <- Hint; nia).
  rewrite f64_num_sign by nia. apply f64_same_ratio; [done|done|nia|lia|nia].
Qed.

Lemma f64_trunc_bounds b :
  f64_mag b < 2 ^ 52 * f64_unit →
  Z.abs (f64_floor_Z b) ≤ 2 ^ 53 ∧ Z.abs (f64_ceil_Z b) ≤ 2 ^ 53 ∧
  Z.abs (f64_trunc_Z b) ≤ 2 ^ 53 ∧ Z.abs (f64_round_Z b) ≤ 2 ^ 53.
Proof.
  intros Hb. pose proof f64_unit_pos as Hu. pose proof (f64_num_abs b) as Habs.
  unfold f64_floor_Z, f64_ceil_Z, f64_trunc_Z, f64_round_Z. set (n := f64_num b) in *. set (u := f64_unit) in *.
  clearbody n u.
  assert (- 2 ^ 52 ≤ n / u ≤ 2 ^ 52) by (split; [apply Z.div_le_lower_bound|apply Z.div_le_upper_bound]; lia).
  assert (- 2 ^ 52 ≤ - n / u ≤ 2 ^ 52) by (split; [apply Z.div_le_lower_bound|apply Z.div_le_upper_bound]; lia).
  assert (0 ≤ (2 * Z.abs n + u) / (2 * u) ≤ 2 ^ 53)
    by (split; [apply Z.div_pos|apply Z.div_le_upper_bound]; lia).
  split_and!; [lia|lia| |].
  - rewrite Z.quot_div by lia. rewrite Z.abs_mul. assert (0 ≤ Z.abs n / Z.abs u ≤ 2 ^ 52).
    { split; [apply Z.div_pos; lia|apply Z.div_le_upper_bound; lia]. }
    destruct n, u; cbn [Z.sgn Z.abs] in *; lia.
  - rewrite Z.abs_mul. destruct n; cbn [Z.sgn Z.abs] in *; lia.
Qed.

Lemma f64_integral_exact b :
  (f64_unit | f64_num b) →
  f64_floor_Z b * f64_unit = f64_num b ∧ f64_ceil_Z b * f64_unit = f64_num b ∧
  f64_trunc_Z b * f64_unit = f64_num b ∧ f64_round_Z b * f64_unit = f64_num b.
Proof.
  intros [c Hc]. pose proof f64_unit_pos as Hu. unfold f64_floor_Z, f64_ceil_Z, f64_trunc_Z, f64_round_Z.
  rewrite Hc. set (u := f64_unit) in *. clearbody u. split_and!.
  - by rewrite Z.div_mul by lia.
  - rewrite <- Z.mul_opp_l, Z.div_mul by lia. lia.
  - by rewrite Z.quot_mul by lia.
  - rewrite Z.sgn_mul, (Z.sgn_pos u Hu), Z.mul_1_r, Z.abs_mul, (Z.abs_eq u) by lia.
    replace (2 * (Z.abs c * u) + u) with (u + Z.abs c * (2 * u)) by ring.
    rewrite Z.div_add, Z.div_small by lia. destruct c; cbn [Z.sgn Z.abs]; lia.
Qed.

Lemma f64_floor_Z_spec b : f64_floor_Z b * f64_unit ≤ f64_num b < (f64_floor_Z b + 1) * f64_unit.
Proof.
  pose proof f64_unit_pos. unfold f64_floor_Z. set (n := f64_num b). set (u := f64_unit) in *. clearbody n u.
  pose proof (Z.div_mod n u ltac:(lia)). pose proof (Z.mod_pos_bound n u ltac:(lia)). lia.
Qed.

Lemma f64_ceil_Z_spec b : (f64_ceil_Z b - 1) * f64_unit < f64_num b ≤ f64_ceil_Z b * f64_unit.
Proof.
  pose proof f64_unit_pos. unfold f64_ceil_Z. set (n := f64_num b). set (u := f64_unit) in *. clearbody n u.
  pose proof (Z.div_mod (- n) u ltac:(lia)). pose proof (Z.mod_pos_bound (- n) u ltac:(lia)). lia.
Qed.

Lemma f64_round_Z_spec b : - f64_unit ≤ 2 * (f64_num b - f64_round_Z b * f64_unit) ≤ f64_unit.
Proof.
  pose proof f64_unit_pos. unfold f64_round_Z. set (n := f64_num b). set (u := f64_unit) in *. clearbody n u.
  pose proof (Z.div_mod (2 * Z.abs n + u) (2 * u) ltac:(lia)).
  pose proof (Z.mod_pos_bound (2 * Z.abs n + u) (2 * u) ltac:(lia)).
  set (q := (2 * Z.abs n + u) / (2 * u)) in *. clearbody q. destruct n; cbn [Z.sgn Z.abs] in *; lia.
Qed.

(** [floor], [ceil], [round] and [trunc] of a finite number are exact. *)
Lemma f64_integral_values b :
  in_u 64 b → f64_is_finite b = true →
  let ok f k := in_u 64 f ∧ f64_is_finite f = true ∧ f64_num f = k * f64_unit in
  ok (f64_floor b) (f64_floor_Z b) ∧ ok (f64_ceil b) (f64_ceil_Z b) ∧
  ok (f64_round b) (f64_round_Z b) ∧ ok (f64_trunc b) (f64_trunc_Z b).
Proof.
  intros Hb Hf. pose proof (f64_trunc_bounds b) as Hs. pose proof (f64_integral_exact b) as Hi.
  split_and!; apply f64_integral_value; (done || tauto).
Qed.
