(* ===== verification/ObservationModel.v ===== *)
(** * The shared data model: crates/observation-model and crates/driver-contract

    Data types, raw protocol values and the results drivers exchange with the
    platform.  Human-readable message texts are diagnostics only and are not
    part of the model; every code, number and flag is. *)

From S2P Require Import Prelude RustStd.
From stdpp Require Import options.

#[local] Set Warnings "-register-all".

(** [DataType] (data_type.rs). *)
Module DataType.
Inductive t : Type :=
| Bool | I8 | I16 | I32 | I64 | U8 | U16 | U32 | U64 | F32 | F64
| String | Bytes
| Array (elem : t)
| Struct (fields : list (str * t)).

Definition is_bool (d : t) : bool := match d with Bool => true | _ => false end.
End DataType.

(** [RawValue] and [RawFieldValue] (raw.rs); an [f64] is its bit pattern. *)
Module RawValue.
Inductive t : Type :=
| Bool (b : bool)
| I64 (v : Z)
| U64 (v : Z)
| F64 (v : Z)
| String (s : str)
| Bytes (l : list Z)
| Array (l : list t)
| Struct (l : list (str * t)).

(** The values a Rust program can hold: every scalar is in its type. *)
Definition wf (v : t) : Prop :=
  match v with
  | I64 v => in_i 64 v
  | U64 v | F64 v => in_u 64 v
  | String s => Forall char_ok s
  | Bytes l => bytes_ok l
  | _ => True
  end.
End RawValue.

(** [DriverErrorInfo] (raw.rs), without its message. *)
Record DriverErrorInfo : Type := mkDriverErrorInfo {
  dei_code : string;
  dei_protocol_code : option Z;
  dei_retryable : bool;
}.

(** [RawReadResult] (raw.rs). *)
Record RawReadResult : Type := mkRawReadResult {
  rr_item_id : Z;
  rr_value : option RawValue.t;
  rr_source_timestamp_ns : option Z;
  rr_received_timestamp_ns : Z;
  rr_protocol_quality_code : option Z;
  rr_error : option DriverErrorInfo;
}.

(** [DriverReadItem] (driver-contract items.rs). *)
Record DriverReadItem : Type := mkDriverReadItem {
  ri_id : Z;
  ri_address : str;
  ri_expected_type : option DataType.t;
}.

(** [RawWriteResult] and [AddressMetadata] (driver-contract results.rs). *)
Record RawWriteResult : Type := mkRawWriteResult {
  wr_item_id : Z;
  wr_success : bool;
  wr_protocol_code : option Z;
  wr_error : option DriverErrorInfo;
}.

Record AddressMetadata : Type := mkAddressMetadata {
  am_canonical_address : str;
  am_raw_type : option DataType.t;
  am_readable : bool;
  am_writable : bool;
}.

(** [Value] (value.rs), the value after profile conversion; an [f32] and an
    [f64] are their bit patterns. *)
Module Value.
Inductive t : Type :=
| Bool (b : bool)
| I8 (v : Z) | I16 (v : Z) | I32 (v : Z) | I64 (v : Z)
| U8 (v : Z) | U16 (v : Z) | U32 (v : Z) | U64 (v : Z)
| F32 (v : Z) | F64 (v : Z)
| String (s : str)
| Bytes (l : list Z)
| Array (l : list t)
| Struct (l : list (str * t)).

(** The values of each type. *)
Definition has_type (v : t) (d : DataType.t) : Prop :=
  match v, d with
  | Bool _, DataType.Bool => True
  | I8 v, DataType.I8 => in_i 8 v
  | I16 v, DataType.I16 => in_i 16 v
  | I32 v, DataType.I32 => in_i 32 v
  | I64 v, DataType.I64 => in_i 64 v
  | U8 v, DataType.U8 => in_u 8 v
  | U16 v, DataType.U16 => in_u 16 v
  | U32 v, DataType.U32 | F32 v, DataType.F32 => in_u 32 v
  | U64 v, DataType.U64 | F64 v, DataType.F64 => in_u 64 v
  | String s, DataType.String => Forall char_ok s
  | Bytes l, DataType.Bytes => bytes_ok l
  | _, _ => False
  end.
End Value.

(** [Quality] (quality.rs), without its message. *)
Module QualityLevel.
Inductive t : Type := Good | Uncertain | Bad.
End QualityLevel.

Module QualityReason.
Inductive t : Type :=
| None | Stale | Timeout | NotConnected | InvalidAddress | DeviceError | ProtocolError
| ConfigurationError | Unsupported.
End QualityReason.

Record Quality : Type := mkQuality {
  q_level : QualityLevel.t;
  q_reason : QualityReason.t;
  q_protocol_code : option Z;
}.

(** [DomainKind] (device.rs). *)
Module DomainKind.
Inductive t : Type :=
| Plc | Cnc | Robot | Drive | Servo | Meter | Sensor | Instrument | Machine
| PowerDevice | BuildingDevice
| Custom (name : str).
End DomainKind.

(** [Observation] (observation.rs). *)
Record Observation : Type := mkObservation {
  obs_observation_id : str;
  obs_device_id : str;
  obs_path : str;
  obs_value : option Value.t;
  obs_quality : Quality;
  obs_source_timestamp_ns : option Z;
  obs_ingest_timestamp_ns : Z;
  obs_sequence : Z;
  obs_metadata : gmap str str;
}.

(** [CommandRiskLevel] (command.rs). *)
Module CommandRiskLevel.
Inductive t : Type := Low | Medium | High | Critical.

#[global] Instance t_eq_dec : EqDecision t.
Proof. solve_decision. Defined.

Definition index (r : t) : nat :=
  match r with Low => 0 | Medium => 1 | High => 2 | Critical => 3 end.
Definition of_index (n : nat) : option t :=
  match n with
  | 0 => Some Low | 1 => Some Medium | 2 => Some High | 3 => Some Critical | _ => None
  end%nat.

#[global] Instance t_countable : Countable t.
Proof. refine (inj_countable index of_index _). by intros []. Defined.
End CommandRiskLevel.
