(* ===== verification/AbiTag.v ===== *)
(** * ABI v1 type tags and scalar encoding: crates/driver-abi/src/tag.rs

    The 15 stable tags, their correspondence with [DataType], and the
    little-endian [value_bytes] encoding of scalar values. *)

From S2P Require Import Prelude RustStd ObservationModel.
From stdpp Require Import options.

Definition TAG_UNKNOWN : Z := 0.

Module TypeTag.
Inductive t : Type :=
| Bool | I8 | I16 | I32 | I64 | U8 | U16 | U32 | U64 | F32 | F64
| String | Bytes | Array | Struct.

#[global] Instance t_eq_dec : EqDecision t.
Proof. solve_decision. Defined.

(** [tag as u32]: the discriminants of the [repr(u32)] enum. *)
Definition as_u32 (tag : t) : Z :=
  match tag with
  | Bool => 1 | I8 => 2 | I16 => 3 | I32 => 4 | I64 => 5
  | U8 => 6 | U16 => 7 | U32 => 8 | U64 => 9
  | F32 => 10 | F64 => 11 | String => 12 | Bytes => 13 | Array => 14 | Struct => 15
  end.

Definition from_data_type (d : DataType.t) : t :=
  match d with
  | DataType.Bool => Bool | DataType.I8 => I8 | DataType.I16 => I16
  | DataType.I32 => I32 | DataType.I64 => I64 | DataType.U8 => U8
  | DataType.U16 => U16 | DataType.U32 => U32 | DataType.U64 => U64
  | DataType.F32 => F32 | DataType.F64 => F64 | DataType.String => String
  | DataType.Bytes => Bytes | DataType.Array _ => Array | DataType.Struct _ => Struct
  end.

Definition to_data_type (tag : t) : option DataType.t :=
  match tag with
  | Bool => Some DataType.Bool | I8 => Some DataType.I8 | I16 => Some DataType.I16
  | I32 => Some DataType.I32 | I64 => Some DataType.I64 | U8 => Some DataType.U8
  | U16 => Some DataType.U16 | U32 => Some DataType.U32 | U64 => Some DataType.U64
  | F32 => Some DataType.F32 | F64 => Some DataType.F64
  | String => Some DataType.String | Bytes => Some DataType.Bytes
  | Array | Struct => None
  end.
End TypeTag.

Module TagError.
Inductive t : Type :=
| UnknownTag (tag : Z)
| ComplexTypeNeedsSchema (tag : Z)
| TypeMismatch (tag : Z)
| ComplexTypeNotEncodable
| InvalidLength (tag : Z) (expected actual : nat)
| InvalidBool (b : Z)
| OutOfRange (tag : Z)
| InvalidUtf8.
End TagError.

(** [impl TryFrom<u32> for TypeTag]. *)
Definition try_from (value : Z) : outcome TagError.t TypeTag.t :=
  match value with
  | 1 => Ok TypeTag.Bool | 2 => Ok TypeTag.I8 | 3 => Ok TypeTag.I16
  | 4 => Ok TypeTag.I32 | 5 => Ok TypeTag.I64 | 6 => Ok TypeTag.U8
  | 7 => Ok TypeTag.U16 | 8 => Ok TypeTag.U32 | 9 => Ok TypeTag.U64
  | 10 => Ok TypeTag.F32 | 11 => Ok TypeTag.F64 | 12 => Ok TypeTag.String
  | 13 => Ok TypeTag.Bytes | 14 => Ok TypeTag.Array | 15 => Ok TypeTag.Struct
  | _ => Err (TagError.UnknownTag value)
  end.

Definition data_type_to_tag (d : option DataType.t) : Z :=
  match d with
  | Some dt => TypeTag.as_u32 (TypeTag.from_data_type dt)
  | None => TAG_UNKNOWN
  end.

Definition tag_to_data_type (tag : Z) : outcome TagError.t (option DataType.t) :=
  if tag =? TAG_UNKNOWN then Ok None
  else
    let? t := try_from tag in
    ok_or (Some <$> TypeTag.to_data_type t)
      (TagError.ComplexTypeNeedsSchema (TypeTag.as_u32 t)).

Definition exact_len (tag : TypeTag.t) (expected : nat) (bytes : list Z) :
    outcome TagError.t unit :=
  if (length bytes =? expected)%nat then Ok ()
  else Err (TagError.InvalidLength (TypeTag.as_u32 tag) expected (length bytes)).

(** [iN::try_from] and [uN::try_from] on the 64-bit carriers. *)
Definition try_signed (w : Z) (tag : TypeTag.t) (v : Z) : outcome TagError.t Z :=
  if decide (in_i w v) then Ok v else Err (TagError.OutOfRange (TypeTag.as_u32 tag)).
Definition try_unsigned (w : Z) (tag : TypeTag.t) (v : Z) : outcome TagError.t Z :=
  if decide (in_u w v) then Ok v else Err (TagError.OutOfRange (TypeTag.as_u32 tag)).

Definition encode_value_bytes (tag : Z) (value : RawValue.t) : outcome TagError.t (list Z) :=
  let? tag := try_from tag in
  match tag, value with
  | TypeTag.Bool, RawValue.Bool b => Ok [if b then 1 else 0]
  | TypeTag.Bool, _ => Err (TagError.TypeMismatch (TypeTag.as_u32 tag))
  | TypeTag.I8, RawValue.I64 v =>
      let? v := try_signed 8 tag v in Ok (to_le_bytes 1 v)
  | TypeTag.I16, RawValue.I64 v =>
      let? v := try_signed 16 tag v in Ok (to_le_bytes 2 v)
  | TypeTag.I32, RawValue.I64 v =>
      let? v := try_signed 32 tag v in Ok (to_le_bytes 4 v)
  | TypeTag.I64, RawValue.I64 v => Ok (to_le_bytes 8 v)
  | TypeTag.U8, RawValue.U64 v =>
      let? v := try_unsigned 8 tag v in Ok (to_le_bytes 1 v)
  | TypeTag.U16, RawValue.U64 v =>
      let? v := try_unsigned 16 tag v in Ok (to_le_bytes 2 v)
  | TypeTag.U32, RawValue.U64 v =>
      let? v := try_unsigned 32 tag v in Ok (to_le_bytes 4 v)
  | TypeTag.U64, RawValue.U64 v => Ok (to_le_bytes 8 v)
  | TypeTag.F32, RawValue.F64 v =>
      let v32 := f64_to_f32 v in
      if f64_is_finite v && f32_is_infinite v32
      then Err (TagError.OutOfRange (TypeTag.as_u32 tag))
      else Ok (to_le_bytes 4 v32)
  | TypeTag.F64, RawValue.F64 v => Ok (to_le_bytes 8 v)
  | TypeTag.String, RawValue.String s => Ok (utf8_encode s)
  | TypeTag.Bytes, RawValue.Bytes b => Ok b
  | (TypeTag.Array | TypeTag.Struct), _ => Err TagError.ComplexTypeNotEncodable
  | _, _ => Err (TagError.TypeMismatch (TypeTag.as_u32 tag))
  end.

Definition decode_value_bytes (tag : Z) (bytes : list Z) : outcome TagError.t RawValue.t :=
  let? tag := try_from tag in
  match tag with
  | TypeTag.Bool =>
      let? _ := exact_len tag 1 bytes in
      match bytes !!! 0%nat with
      | 0 => Ok (RawValue.Bool false)
      | 1 => Ok (RawValue.Bool true)
      | b => Err (TagError.InvalidBool b)
      end
  | TypeTag.I8 =>
      let? _ := exact_len tag 1 bytes in
      Ok (RawValue.I64 (wrap_signed 8 (bytes !!! 0%nat)))
  | TypeTag.I16 =>
      let? _ := exact_len tag 2 bytes in
      Ok (RawValue.I64 (wrap_signed 16 (from_le_bytes bytes)))
  | TypeTag.I32 =>
      let? _ := exact_len tag 4 bytes in
      Ok (RawValue.I64 (wrap_signed 32 (from_le_bytes bytes)))
  | TypeTag.I64 =>
      let? _ := exact_len tag 8 bytes in
      Ok (RawValue.I64 (wrap_signed 64 (from_le_bytes bytes)))
  | TypeTag.U8 =>
      let? _ := exact_len tag 1 bytes in Ok (RawValue.U64 (bytes !!! 0%nat))
  | TypeTag.U16 =>
      let? _ := exact_len tag 2 bytes in Ok (RawValue.U64 (from_le_bytes bytes))
  | TypeTag.U32 =>
      let? _ := exact_len tag 4 bytes in Ok (RawValue.U64 (from_le_bytes bytes))
  | TypeTag.U64 =>
      let? _ := exact_len tag 8 bytes in Ok (RawValue.U64 (from_le_bytes bytes))
  | TypeTag.F32 =>
      let? _ := exact_len tag 4 bytes in
      Ok (RawValue.F64 (f32_to_f64 (from_le_bytes bytes)))
  | TypeTag.F64 =>
      let? _ := exact_len tag 8 bytes in Ok (RawValue.F64 (from_le_bytes bytes))
  | TypeTag.String =>
      match utf8_decode bytes with
      | Some s => Ok (RawValue.String s)
      | None => Err TagError.InvalidUtf8
      end
  | TypeTag.Bytes => Ok (RawValue.Bytes bytes)
  | TypeTag.Array | TypeTag.Struct => Err TagError.ComplexTypeNotEncodable
  end.

(** ** Properties *)

Lemma try_from_as_u32 t : try_from (TypeTag.as_u32 t) = Ok t.
Proof. by destruct t. Qed.

Lemma try_from_Ok v t : try_from v = Ok t → v = TypeTag.as_u32 t.
Proof.
  unfold try_from. intros H.
  repeat match type of H with context [match ?x with _ => _ end] => destruct x; try done end;
    by simplify_eq.
Qed.

(** What a decoded value is: an [F32] tag rounds the carried [f64]. *)
Definition decoded (t : TypeTag.t) (v : RawValue.t) : RawValue.t :=
  match t, v with
  | TypeTag.F32, RawValue.F64 x => RawValue.F64 (f32_to_f64 (f64_to_f32 x))
  | _, _ => v
  end.

Lemma exact_len_to_le t n z : exact_len t n (to_le_bytes n z) = Ok ().
Proof. unfold exact_len. by rewrite length_to_le_bytes, Nat.eqb_refl. Qed.

Lemma from_to_le_unsigned (n : nat) z :
  in_u (8 * Z.of_nat n) z → from_le_bytes (to_le_bytes n z) = z.
Proof. intros. rewrite from_to_le_bytes. by apply Z.mod_small. Qed.

Lemma from_to_le_signed (n : nat) z :
  (0 < n)%nat → in_i (8 * Z.of_nat n) z →
  wrap_signed (8 * Z.of_nat n) (from_le_bytes (to_le_bytes n z)) = z.
Proof.
  intros. rewrite from_to_le_bytes.
  change (z mod 2 ^ (8 * Z.of_nat n)) with (wrap (8 * Z.of_nat n) z).
  apply wrap_signed_wrap_small; [lia|done].
Qed.

(** The scalar encoding round-trips. *)
Theorem tag_encode_decode tag t v bs :
  try_from tag = Ok t → RawValue.wf v →
  encode_value_bytes tag v = Ok bs → decode_value_bytes tag bs = Ok (decoded t v).
Proof.
  intros Ht Hv He. unfold encode_value_bytes, decode_value_bytes in *. rewrite Ht in *.
  cbn [outcome_bind] in *. unfold try_signed, try_unsigned in He.
  destruct t, v; cbn [outcome_bind] in He; try discriminate He; cbn [RawValue.wf decoded] in *.
  all: repeat case_decide; cbn [outcome_bind] in He; try discriminate He.
  all: try (destruct (f64_is_finite v && f32_is_infinite (f64_to_f32 v)); [discriminate He|]).
  all: injection He as <-; rewrite ?exact_len_to_le; cbn [outcome_bind].
  all: try (by destruct b).
  all: try (f_equal; f_equal).
  all: try (by apply (from_to_le_signed 2) || apply (from_to_le_signed 4)
    || apply (from_to_le_signed 8); [lia|]).
  all: try (by apply from_to_le_unsigned).
  - by apply (wrap_signed_wrap_small 8).
  - by apply (wrap_small 8).
  - by rewrite from_to_le_unsigned by apply f64_to_f32_range.
  - by rewrite utf8_decode_encode.
Qed.

Lemma exact_len_Ok t n bs x : exact_len t n bs = Ok x → length bs = n.
Proof. unfold exact_len. destruct (Nat.eqb_spec (length bs) n); naive_solver. Qed.

Lemma from_le_bytes_in_u (n : nat) bs :
  bytes_ok bs → length bs = n → in_u (8 * Z.of_nat n) (from_le_bytes bs).
Proof. intros ? <-. by apply from_le_bytes_range. Qed.

Lemma lookup_0_from_le bs : length bs = 1%nat → bs !!! 0%nat = from_le_bytes bs.
Proof.
  destruct bs as [|b [|??]]; try done. intros _. unfold from_le_bytes. cbn. lia.
Qed.

Lemma try_signed_wrap w t z : 0 < w → try_signed w t (wrap_signed w z) = Ok (wrap_signed w z).
Proof. intros. unfold try_signed. by rewrite decide_True by by apply wrap_signed_range. Qed.

Lemma try_unsigned_from_le (n : nat) t bs :
  bytes_ok bs → length bs = n →
  try_unsigned (8 * Z.of_nat n) t (from_le_bytes bs) = Ok (from_le_bytes bs).
Proof. intros. unfold try_unsigned. by rewrite decide_True by by apply from_le_bytes_in_u. Qed.

(** Every byte sequence the decoder accepts under an integer, bool,
    [F64] or [Bytes] tag is exactly the encoding of the decoded value. *)
Theorem tag_decode_encode tag t bs v :
  try_from tag = Ok t → t ≠ TypeTag.F32 → t ≠ TypeTag.String → bytes_ok bs →
  decode_value_bytes tag bs = Ok v → encode_value_bytes tag v = Ok bs.
Proof.
  intros Ht HF HS Hbs Hd. unfold encode_value_bytes, decode_value_bytes in *.
  rewrite Ht in *. cbn [outcome_bind] in *.
  destruct t; try done; inv_ok; try subst v; cbn [outcome_bind].
  all: try match goal with H : exact_len _ _ _ = Ok _ |- _ => apply exact_len_Ok in H end.
  all: rewrite ?lookup_0_from_le in * by done.
  all: rewrite ?try_signed_wrap by lia.
  all: try (rewrite (try_unsigned_from_le 1) by done).
  all: try (rewrite (try_unsigned_from_le 2) by done).
  all: try (rewrite (try_unsigned_from_le 4) by done).
  all: cbn [outcome_bind].
  all: try (by rewrite (to_le_bytes_signed 1) || rewrite (to_le_bytes_signed 2)
    || rewrite (to_le_bytes_signed 4) || rewrite (to_le_bytes_signed 8)).
  all: try (by f_equal; rewrite <- (to_from_le_bytes bs) at 2 by done; rewrite Hv).
  destruct (from_le_bytes bs) as [|[]|] eqn:E; simplify_eq; cbn;
      by rewrite <- (to_from_le_bytes bs), Hv, E.
Qed.

(** Type declarations and wire tags correspond: an optional scalar type
    survives the trip through its [u32] tag, and a composite type, whose
    schema the tag does not carry, is refused on the way back. *)
Lemma tag_data_type_round_trip d :
  tag_to_data_type (data_type_to_tag d) =
    match d with
    | Some (DataType.Array _) => Err (TagError.ComplexTypeNeedsSchema 14)
    | Some (DataType.Struct _) => Err (TagError.ComplexTypeNeedsSchema 15)
    | _ => Ok d
    end.
Proof. by destruct d as [[]|]. Qed.

(** Every [u32] outside the table is refused. *)
Lemma tag_to_data_type_unknown v :
  v < 0 ∨ 15 < v → tag_to_data_type v = Err (TagError.UnknownTag v).
Proof.
  intros Hv. unfold tag_to_data_type, TAG_UNKNOWN.
  replace (v =? 0) with false by lia.
  destruct (try_from v) as [t|e|] eqn:E.
  - apply try_from_Ok in E. destruct t; simpl in E; lia.
  - unfold try_from in E.
    by repeat match type of E with context [match ?x with _ => _ end] => destruct x; try done end;
      simplify_eq.
  - unfold try_from in E.
    by repeat match type of E with context [match ?x with _ => _ end] => destruct x; try done end.
Qed.
