(* ===== verification/DriverAbi.v ===== *)
(** * What drivers run on

    The operating system's sockets, clock and name resolution, and the data of
    the C ABI, as far as the drivers use them: interfaces whose state [W] is
    threaded through every call, and records for borrowed memory. *)

From S2P Require Import Prelude RustStd ObservationModel AbiTag.
From stdpp Require Import options.

(** ** The outside world *)

(** [std::io::ErrorKind], as far as the driver distinguishes it. *)
Module IoKind.
Inductive t : Type := TimedOut | WouldBlock | Other.
End IoKind.

Definition io_result (A : Type) : Type := (IoKind.t + A)%type.

(** [Read::read_exact], [Write::write_all] and the drop of a handle. *)
Class ByteStream (W H : Type) : Type := {
  write_all : H → list Z → W → W * io_result ();
  read_exact : H → nat → W → W * io_result (list Z);
  close : H → W → W;
}.

(** [read_exact] fills the whole buffer with bytes or fails (its documented
    contract). *)
Class ByteStreamLaws (W H : Type) `{ByteStream W H} : Prop := {
  read_exact_full : ∀ h n w w' bs,
    read_exact h n w = (w', inr bs) → length bs = n ∧ bytes_ok bs;
}.

(** [ToSocketAddrs], [TcpStream::connect_timeout] and the socket options. *)
Class TcpNet (W H Addr : Type) : Type := {
  to_socket_addrs : str → Z → W → W * io_result (list Addr);
  connect_timeout : Addr → Z → W → W * io_result H;
  set_read_timeout : H → Z → W → W * io_result ();
  set_write_timeout : H → Z → W → W * io_result ();
}.

(** The clock and [thread::sleep]. *)
Class Os (W : Type) : Type := {
  now_ns : W → W * Z;
  sleep : Z → W → W;
}.

(** ** The C ABI (crates/driver-abi, crates/driver-contract) *)

(** A borrowed string: a pointer (null or not) and its bytes. *)
Record FfiStr : Type := mkFfiStr {
  fs_null : bool;
  fs_bytes : list Z;
}.

Definition ffi_str_to_str (ffi : FfiStr) : option str :=
  if (length (fs_bytes ffi) =? 0)%nat then Some []
  else if fs_null ffi then None
  else utf8_decode (fs_bytes ffi).

Record FfiReadItem : Type := mkFfiReadItem {
  fr_id : Z;
  fr_address : FfiStr;
  fr_expected_type : Z;
}.

Record FfiWriteItem : Type := mkFfiWriteItem {
  fw_id : Z;
  fw_address : FfiStr;
  fw_value_type : Z;
  fw_value_bytes : list Z;
}.

(** [ProtocolCapabilities] (driver-contract capabilities.rs). *)
Record ProtocolCapabilities : Type := mkProtocolCapabilities {
  cap_read : bool; cap_write : bool; cap_batch_read : bool; cap_batch_write : bool;
  cap_browse : bool; cap_polling : bool; cap_subscription : bool; cap_events : bool;
  cap_history : bool;
}.

(** The JSON envelopes ([serde_json::to_vec] of the envelope types): each may
    fail, in which case the call fails without an error detail. *)
Class Envelopes : Type := {
  read_envelope : list RawReadResult → option (list Z);
  write_envelope : list RawWriteResult → option (list Z);
  address_envelope : AddressMetadata → option (list Z);
  capabilities_envelope : ProtocolCapabilities → option (list Z);
  error_envelope : DriverErrorInfo → option (list Z);
}.

(** * The C entry points of the drivers

    The S7comm, Mitsubishi MC and EtherNet/IP drivers have the same entry
    points (the part of their lib.rs under "C ABI"): they borrow strings and
    item arrays, guard every call against panics, record the last error in the
    handle and write envelopes into owned buffers.  [Plugin] is what such a
    driver provides; the entry points are defined over it once.  Pointers appear
    as null flags and byte lists, buffers as the bytes they own. *)

#[local] Set Default Proof Using "Type".

(** A driver handle [D] in a world [W] with errors [E] and write requests [Q]. *)
Class Plugin (D W E Q : Type) : Type := {
  pl_create : str → outcome E D;
  pl_broken : D;                                    (* the handle after a failed create *)
  pl_set_last_error : E → D → D;
  pl_last_error : D → option DriverErrorInfo;
  pl_connect : stm (D * W) E ();
  pl_disconnect : D * W → D * W;
  pl_read_batch : list DriverReadItem → stm (D * W) E (list RawReadResult);
  pl_request : Z → str → RawValue.t → Q;
  pl_write_batch : list Q → stm (D * W) E (list RawWriteResult);
  pl_validate_address : str → stm (D * W) E AddressMetadata;
  pl_capabilities : ProtocolCapabilities;
  pl_config_error : E;
  pl_invalid_address : E;
  pl_invalid_type : E;
  pl_unsupported : E;
  pl_driver_panic : E;
}.

Section abi.
Context {D W E Q : Type} `{!Plugin D W E Q} `{!Envelopes}.
Abbreviation Handle := (option D).
Abbreviation M := (stm (D * W) E).

(** The status of a call and the buffer it wrote. *)
Abbreviation api_result := (Z * option (list Z))%type.
Abbreviation Body := (stm (D * W) Empty_set api_result).

Fixpoint convert_read_items (items : list FfiReadItem) : outcome E (list DriverReadItem) :=
  match items with
  | [] => Ok []
  | item :: items' =>
      let? expected_type := map_err (λ _, pl_invalid_type) (tag_to_data_type (fr_expected_type item)) in
      let? rest := convert_read_items items' in
      Ok ({| ri_id := fr_id item; ri_address := default [] (ffi_str_to_str (fr_address item));
             ri_expected_type := expected_type |} :: rest)
  end.

Fixpoint convert_write_items (items : list FfiWriteItem) : outcome E (list Q) :=
  match items with
  | [] => Ok []
  | item :: items' =>
      let? value := map_err (λ _, pl_invalid_type)
                      (decode_value_bytes (fw_value_type item) (fw_value_bytes item)) in
      let? rest := convert_write_items items' in
      Ok (pl_request (fw_id item) (default [] (ffi_str_to_str (fw_address item))) value :: rest)
  end.

Definition catch_abi_panic (f : Body) (s : D * W) : (D * W) * option api_result :=
  match f s with
  | (s', Ok r) => (s', Some r)
  | (_, Err e) => match e with end
  | ((d', w'), Panic) => ((pl_set_last_error pl_driver_panic d', w'), None)
  end.

Definition entry (f : Body) (h : Handle) (w : W) : (Handle * W) * api_result :=
  match h with
  | None => ((None, w), (-1, None))
  | Some d =>
      let '((d', w'), r) := catch_abi_panic f (d, w) in
      ((Some d', w'), default (-1, None) r)
  end.

Definition fail_with (e : E) : Body :=
  λ '(d, w), ((pl_set_last_error e d, w), Ok (-1, None)).

(** [match call { Ok(v) => serialize and return 0, Err(e) => last_error, -1 }] *)
Definition finish {A} (m : M A) (to_vec : A → option (list Z)) : Body := λ s,
  match m s with
  | (s', Ok a) =>
      match to_vec a with
      | Some bytes => (s', Ok (0, Some bytes))
      | None => (s', Ok (-1, None))
      end
  | (s', Err e) => fail_with e s'
  | (s', Panic) => (s', Panic)
  end.

Definition api_create (config : FfiStr) : Z * Handle :=
  match (if ffi_str_to_str config is Some json then pl_create json else Err pl_config_error) with
  | Ok driver => (0, Some driver)
  | Err e => (-1, Some (pl_set_last_error e pl_broken))
  | Panic => (-1, None)
  end.

(** Dropping the box drops the session, which closes its stream. *)
Definition api_destroy (h : Handle) (w : W) : W * Z :=
  match h with
  | Some d => ((pl_disconnect (d, w)).2, 0)
  | None => (w, 0)
  end.

Definition api_connect (h : Handle) (w : W) : (Handle * W) * api_result :=
  entry (λ s, match pl_connect s with
              | (s', Ok ()) => (s', Ok (0, None))
              | (s', Err e) => fail_with e s'
              | (s', Panic) => (s', Panic)
              end) h w.

Definition api_disconnect (h : Handle) (w : W) : (Handle * W) * api_result :=
  match h with
  | None => ((None, w), (0, None))
  | Some d => let '(d', w') := pl_disconnect (d, w) in ((Some d', w'), (0, None))
  end.

Definition api_get_capabilities_json (h : Handle) (w : W) : (Handle * W) * api_result :=
  entry (match capabilities_envelope pl_capabilities with
         | Some bytes => sret (0, Some bytes)
         | None => fail_with pl_unsupported
         end) h w.

Definition api_validate_address (addr : FfiStr) (h : Handle) (w : W) : (Handle * W) * api_result :=
  entry (match ffi_str_to_str addr with
         | None => fail_with pl_invalid_address
         | Some a => finish (pl_validate_address a) address_envelope
         end) h w.

(** [items] is the array behind the pointer, [None] when it is null. *)
Definition with_items {I R} (items : option (list I)) (len : nat) (convert : list I → outcome E R)
    (k : R → Body) : Body :=
  match items with
  | None => if (0 <? len)%nat then fail_with pl_invalid_address
            else match convert [] with Ok r => k r | Err e => fail_with e | Panic => λ s, (s, Panic) end
  | Some l =>
      match convert (take len l) with Ok r => k r | Err e => fail_with e | Panic => λ s, (s, Panic) end
  end.

Definition api_read (items : option (list FfiReadItem)) (len : nat) (h : Handle) (w : W) :
    (Handle * W) * api_result :=
  entry (with_items items len convert_read_items (λ l, finish (pl_read_batch l) read_envelope)) h w.

Definition api_write (items : option (list FfiWriteItem)) (len : nat) (h : Handle) (w : W) :
    (Handle * W) * api_result :=
  entry (with_items items len convert_write_items (λ l, finish (pl_write_batch l) write_envelope)) h w.

(** [api_execute], [api_browse], [api_subscribe], [api_unsubscribe] and
    [api_query_history]. *)
Definition api_unsupported (h : Handle) (w : W) : (Handle * W) * api_result :=
  entry (fail_with pl_unsupported) h w.

Definition api_get_last_error_json (h : Handle) (w : W) : (Handle * W) * api_result :=
  entry (λ s, match pl_last_error s.1 with
              | None => (s, Ok (0, Some []))
              | Some error =>
                  match error_envelope error with
                  | Some bytes => (s, Ok (0, Some bytes))
                  | None => (s, Ok (-1, None))
                  end
              end) h w.
End abi.

(** ** What the entry points promise whatever the driver does *)

(** A handle records the errors it is given. *)
Class PluginLaws (D W E Q : Type) `{!Plugin D W E Q} : Prop := {
  pl_last_error_set e (d : D) : is_Some (pl_last_error (pl_set_last_error e d));
}.

Section laws.
Context {D W E Q : Type} `{!Plugin D W E Q} `{!PluginLaws D W E Q} `{!Envelopes}.

(** The outcome of a batch entry point: the results of the batch in the
    buffer; or an error, whose detail is in the handle, or a result that could
    not be serialized. *)
Definition batch_reports {I R A} (convert : list I → outcome E R) (batch : R → stm (D * W) E A)
    (to_vec : A → option (list Z)) (l : list I) (s : D * W) (r : (option D * W) * (Z * option (list Z))) :
    Prop :=
  ∃ d' w', r.1 = (Some d', w') ∧
    ((∃ q a bytes, convert l = Ok q ∧ batch q s = ((d', w'), Ok a) ∧ to_vec a = Some bytes ∧
        r.2 = (0, Some bytes)) ∨
     (r.2 = (-1, None) ∧
        (is_Some (pl_last_error d') ∨
         ∃ q a, convert l = Ok q ∧ batch q s = ((d', w'), Ok a) ∧ to_vec a = None))).

Lemma entry_reports {I R A} (items : option (list I)) len (convert : list I → outcome E R)
    (batch : R → stm (D * W) E A) to_vec d w :
  (items = None → len = 0%nat) →
  batch_reports convert batch to_vec (take len (default [] items)) (d, w)
    (entry (with_items items len convert (λ q, finish (batch q) to_vec)) (Some d) w).
Proof using PluginLaws0.
  intros Hitems.
  assert (with_items items len convert (λ q, finish (batch q) to_vec) =
    match convert (take len (default [] items)) with
    | Ok q => finish (batch q) to_vec | Err e => fail_with e | Panic => λ s, (s, Panic) end) as ->.
  { destruct items as [l|]; [done|]. rewrite (Hitems eq_refl). done. }
  unfold entry, catch_abi_panic, batch_reports.
  destruct (convert (take len (default [] items))) as [q|e|].
  - unfold finish. destruct (batch q (d, w)) as [[d1 w1] [a|e|]] eqn:Eb.
    + destruct (to_vec a) as [bytes|] eqn:Ev; exists d1, w1; (split; [done|]).
      * left. exists q, a, bytes. done.
      * right. split; [done|]. right. exists q, a. done.
    + exists (pl_set_last_error e d1), w1. split; [done|]. right. split; [done|left; apply pl_last_error_set].
    + eexists _, w1. split; [done|]. right. split; [done|left; apply pl_last_error_set].
  - exists (pl_set_last_error e d), w. split; [done|]. right. split; [done|left; apply pl_last_error_set].
  - eexists _, w. split; [done|]. right. split; [done|left; apply pl_last_error_set].
Qed.

(** No batch call of a driver is lost.  On a live handle, with a pointer
    that is not null unless the batch is empty, [read] and [write] return
    status 0 with the envelope of the results of the batch, or status -1 with
    no buffer; in the second case the handle holds the error, be it a refused
    item, a failed batch or a panic of the driver, unless the results could not
    be serialized.  A null handle is answered with -1. *)
Theorem plugin_batch_reports (reads : option (list FfiReadItem)) (writes : option (list FfiWriteItem)) len d w :
  (reads = None ∨ writes = None → len = 0%nat) →
  batch_reports (convert_read_items (Plugin0 := Plugin0)) pl_read_batch read_envelope
    (take len (default [] reads)) (d, w) (api_read reads len (Some d) w) ∧
  batch_reports (convert_write_items (Plugin0 := Plugin0)) pl_write_batch write_envelope
    (take len (default [] writes)) (d, w) (api_write writes len (Some d) w) ∧
  api_read (Plugin0 := Plugin0) reads len None w = ((None, w), (-1, None)) ∧
  api_write (Plugin0 := Plugin0) writes len None w = ((None, w), (-1, None)).
Proof using PluginLaws0.
  intros Hlen. split_and!; [apply entry_reports; auto..|done|done].
Qed.
End laws.
