(* ===== verification/ModbusAddress.v ===== *)
(** * Modbus addresses: drivers/modbus/src/address.rs

    The four accepted forms of an address string, the register segments and
    the canonical form. *)

From S2P Require Import Prelude RustStd ObservationModel.
From stdpp Require Import options.

Module RegisterKind.
Inductive t : Type := Coil | DiscreteInput | InputRegister | HoldingRegister.

#[global] Instance t_eq_dec : EqDecision t.
Proof. solve_decision. Defined.

(** The derived [Ord]: declaration order. *)
Definition rank (k : t) : Z :=
  match k with Coil => 0 | DiscreteInput => 1 | InputRegister => 2 | HoldingRegister => 3 end.

Definition function_code (k : t) : Z :=
  match k with
  | Coil => 0x01
  | DiscreteInput => 0x02
  | HoldingRegister => 0x03
  | InputRegister => 0x04
  end.

Definition segment_base (k : t) : Z :=
  match k with
  | Coil => 1
  | DiscreteInput => 10001
  | InputRegister => 30001
  | HoldingRegister => 40001
  end.

Definition explicit_max (k : t) : Z := segment_base k + 65535.

Definition matches_numeric (k : t) (address : Z) : bool :=
  let base := segment_base k in
  (base <=? address) && (address <? base + 9999).

Definition writable (k : t) : bool :=
  match k with Coil | HoldingRegister => true | _ => false end.

Definition name (k : t) : str :=
  match k with
  | Coil => lit "coil"
  | DiscreteInput => lit "discrete"
  | InputRegister => lit "input"
  | HoldingRegister => lit "holding"
  end.
End RegisterKind.

Record ModbusAddress : Type := mkModbusAddress {
  unit_id : Z;
  kind : RegisterKind.t;
  address : Z;
}.

#[global] Instance ModbusAddress_eq_dec : EqDecision ModbusAddress.
Proof. solve_decision. Defined.

(** The protocol offset: a [u32] subtraction cast to [u16]. *)
Definition offset (a : ModbusAddress) : Z :=
  wrap16 (wrap32 (address a - RegisterKind.segment_base (kind a))).

(** [{unit}!{kind}:{address}] *)
Definition canonical (a : ModbusAddress) : str :=
  to_string (unit_id a) ++ lit "!" ++ RegisterKind.name (kind a) ++ lit ":"
    ++ to_string (address a).

Module AddressError.
Inductive t : Type :=
| OutOfRange (number : Z)
| UnknownSegment (number : Z)
| InvalidSyntax
| InvalidUnit (unit : Z).
End AddressError.

Definition infer_kind_from_numeric (number : Z) : outcome AddressError.t RegisterKind.t :=
  if RegisterKind.matches_numeric RegisterKind.Coil number then Ok RegisterKind.Coil
  else if RegisterKind.matches_numeric RegisterKind.DiscreteInput number
  then Ok RegisterKind.DiscreteInput
  else if RegisterKind.matches_numeric RegisterKind.InputRegister number
  then Ok RegisterKind.InputRegister
  else if RegisterKind.matches_numeric RegisterKind.HoldingRegister number
  then Ok RegisterKind.HoldingRegister
  else Err (AddressError.UnknownSegment number).

Definition validate (k : RegisterKind.t) (number : Z) : outcome AddressError.t ModbusAddress :=
  if (number <? RegisterKind.segment_base k) || (RegisterKind.explicit_max k <? number)
  then Err (AddressError.OutOfRange number)
  else Ok {| unit_id := 1; kind := k; address := number |}.

(** The segment names an address may carry. *)
Definition kind_of_name (name : str) : outcome AddressError.t RegisterKind.t :=
  if decide (name = lit "coil") then Ok RegisterKind.Coil
  else if decide (name = lit "discrete") then Ok RegisterKind.DiscreteInput
  else if decide (name = lit "input") then Ok RegisterKind.InputRegister
  else if decide (name = lit "holding") then Ok RegisterKind.HoldingRegister
  else Err AddressError.InvalidSyntax.

Definition bang : Z := 33.
Definition colon : Z := 58.

Definition parse_address (input : str) (default_unit_id : Z) :
    outcome AddressError.t ModbusAddress :=
  if (default_unit_id =? 0) || (247 <? default_unit_id)
  then Err (AddressError.InvalidUnit default_unit_id)
  else
    let? (unit, rest) :=
      match split_once bang input with
      | Some (u, rest) =>
          let? unit := ok_or (parse_uint 8 (trim u)) AddressError.InvalidSyntax in
          Ok (unit, rest)
      | None => Ok (default_unit_id, input)
      end in
    if (unit =? 0) || (247 <? unit) then Err (AddressError.InvalidUnit unit)
    else
      let? (k, number) :=
        match split_once colon rest with
        | Some (name, number) =>
            let? k := kind_of_name (trim name) in
            let? number := ok_or (parse_uint 32 (trim number)) AddressError.InvalidSyntax in
            Ok (k, number)
        | None =>
            let? number := ok_or (parse_uint 32 (trim rest)) AddressError.InvalidSyntax in
            let? k := infer_kind_from_numeric number in
            Ok (k, number)
        end in
      let? a := validate k number in
      Ok {| unit_id := unit; kind := kind a; address := address a |}.

(** ** Properties *)

(** The addresses the protocol has: a unit in 1..247 and a number whose
    offset in its segment is a 16-bit number. *)
Definition addr_wf (a : ModbusAddress) : Prop :=
  1 ≤ unit_id a ≤ 247 ∧
  RegisterKind.segment_base (kind a) ≤ address a ≤ RegisterKind.explicit_max (kind a).

#[global] Instance addr_wf_dec a : Decision (addr_wf a).
Proof. unfold addr_wf. apply _. Defined.

Lemma segment_base_range k : 1 ≤ RegisterKind.segment_base k ≤ 40001.
Proof. destruct k; simpl; lia. Qed.

(** In a parsed address neither the [u32] subtraction nor the [u16] cast of
    [offset] wraps. *)
Lemma offset_wf a :
  addr_wf a → offset a = address a - RegisterKind.segment_base (kind a) ∧ 0 ≤ offset a < 65536.
Proof.
  intros [_ Ha]. unfold RegisterKind.explicit_max in Ha. unfold offset.
  rewrite (wrap_small 32) by (unfold in_u; lia).
  rewrite (wrap_small 16) by (unfold in_u; lia). lia.
Qed.

Lemma offset_inj a b :
  addr_wf a → addr_wf b → kind a = kind b → offset a = offset b → address a = address b.
Proof.
  intros [-> _]%offset_wf [-> _]%offset_wf -> ?. lia.
Qed.

Lemma validate_Ok k n a :
  validate k n = Ok a →
  a = {| unit_id := 1; kind := k; address := n |} ∧
  RegisterKind.segment_base k ≤ n ≤ RegisterKind.explicit_max k.
Proof. unfold validate. case_if; naive_solver lia. Qed.

Lemma parse_address_in_range input d a :
  in_u 8 d → parse_address input d = Ok a → addr_wf a.
Proof.
  intros Hd H. unfold parse_address in H. case_if; [done|].
  apply outcome_bind_Ok_inv in H as ([u rest] & Hu & H).
  assert (0 ≤ u) as Hu0.
  { destruct (split_once bang input) as [[us r]|]; inv_ok; simplify_eq; [|unfold in_u in Hd; lia].
    eapply parse_uint_range in Heqo as [? _]; [done|lia]. }
  case_if; [done|]. inv_ok. destruct v as [k n]. inv_ok. subst a.
  apply validate_Ok in Hv0 as [-> Hr]. unfold addr_wf. simpl. lia.
Qed.

Lemma parse_address_no_panic input d : parse_address input d ≠ Panic.
Proof.
  unfold parse_address, kind_of_name, infer_kind_from_numeric, validate. no_panic.
Qed.

(** An accepted address is in range: its unit is in 1..247 and its number
    in the 16-bit window of its segment, so that the protocol offset is
    [address - segment_base] with no wrap-around. *)
Theorem parse_address_wf input d a :
  in_u 8 d → parse_address input d = Ok a →
  addr_wf a ∧ offset a = address a - RegisterKind.segment_base (kind a)
  ∧ 0 ≤ offset a < 65536.
Proof.
  intros Hd H. apply parse_address_in_range in H; [|done]. by split; [|apply offset_wf].
Qed.

Lemma name_no_colon k : colon ∉ RegisterKind.name k.
Proof. destruct k; apply (bool_decide_unpack _); by vm_compute. Qed.

Lemma trim_name k : trim (RegisterKind.name k) = RegisterKind.name k.
Proof. by destruct k. Qed.

Lemma kind_of_name_name k : kind_of_name (RegisterKind.name k) = Ok k.
Proof. by destruct k. Qed.

(** The canonical form is a fixed point of parsing: printing a valid
    address and parsing the result, whatever the default unit, gives the
    address back (so deduplication by canonical form is sound and complete). *)
Theorem parse_address_canonical a d :
  addr_wf a → 1 ≤ d ≤ 247 → parse_address (canonical a) d = Ok a.
Proof.
  intros Ha Hd. destruct a as [u k n]. pose proof Ha as [Hu Hn]. cbn in Hu, Hn.
  unfold parse_address, canonical. cbn [unit_id kind address].
  replace ((d =? 0) || (247 <? d)) with false by lia.
  change (lit "!" ++ RegisterKind.name k ++ lit ":" ++ to_string n)
    with (bang :: RegisterKind.name k ++ colon :: to_string n).
  rewrite split_once_app by (apply to_string_not_elem; unfold is_digit, bang; lia).
  rewrite trim_to_string, parse_uint_to_string by (unfold in_u; lia). cbn [ok_or outcome_bind].
  replace ((u =? 0) || (247 <? u)) with false by lia.
  rewrite split_once_app by apply name_no_colon.
  rewrite trim_name, kind_of_name_name. cbn [outcome_bind].
  pose proof (segment_base_range k). unfold RegisterKind.explicit_max in Hn.
  rewrite trim_to_string, parse_uint_to_string by lia. cbn [ok_or outcome_bind].
  unfold validate, RegisterKind.explicit_max.
  by replace ((n <? RegisterKind.segment_base k) || _) with false by lia.
Qed.

(** The traditional five-digit segments are disjoint. *)
Lemma matches_numeric_unique n k k' :
  RegisterKind.matches_numeric k n = true → RegisterKind.matches_numeric k' n = true → k = k'.
Proof.
  unfold RegisterKind.matches_numeric. destruct k, k'; simpl; intros; try done; lia.
Qed.

Lemma infer_kind_matches n k :
  infer_kind_from_numeric n = Ok k ↔ RegisterKind.matches_numeric k n = true.
Proof.
  unfold infer_kind_from_numeric. split.
  - repeat case_if; naive_solver.
  - intros Hk. repeat case_if; try (f_equal; by eapply matches_numeric_unique).
    by destruct k; congruence.
Qed.

(** The purely numeric form of an address means the explicit form with the
    one segment whose five-digit range contains the number, under the default
    unit; a number in no such range (2xxxx, 5xxxx, 0) is refused. *)
Theorem parse_address_numeric n d :
  0 ≤ n < 2 ^ 32 → 1 ≤ d ≤ 247 →
  (∀ k, parse_address (to_string n) d = Ok {| unit_id := d; kind := k; address := n |} ↔
        RegisterKind.matches_numeric k n = true) ∧
  ((∀ k, RegisterKind.matches_numeric k n = false) →
     parse_address (to_string n) d = Err (AddressError.UnknownSegment n)).
Proof.
  intros Hn Hd.
  assert (parse_address (to_string n) d =
    (let? k := infer_kind_from_numeric n in Ok {| unit_id := d; kind := k; address := n |})) as ->.
  { unfold parse_address. replace ((d =? 0) || (247 <? d)) with false by lia.
    rewrite !split_once_None; try (apply to_string_not_elem; unfold is_digit, bang, colon; lia).
    cbn [outcome_bind]. replace ((d =? 0) || (247 <? d)) with false by lia.
    rewrite split_once_None by (apply to_string_not_elem; unfold is_digit, colon; lia).
    rewrite trim_to_string, parse_uint_to_string by lia. cbn [ok_or outcome_bind].
    destruct (infer_kind_from_numeric n) as [k|e|] eqn:Ek; try done. cbn [outcome_bind].
    apply infer_kind_matches in Ek. unfold RegisterKind.matches_numeric in Ek.
    unfold validate, RegisterKind.explicit_max.
    by replace ((n <? RegisterKind.segment_base k) || _) with false by lia. }
  split.
  - intros k. rewrite <- infer_kind_matches.
    destruct (infer_kind_from_numeric n); simpl; split; intros; by simplify_eq.
  - intros Hno. unfold infer_kind_from_numeric. by rewrite !Hno.
Qed.
