(* ===== verification/ModbusFrame.v ===== *)
(** * Modbus errors, CRC-16 and frames:
    drivers/modbus/src/error.rs, crc.rs and frame.rs

    The driver's error values, the RTU checksum, the request builders and the
    response parsers of the TCP (MBAP) and RTU framings. *)

From S2P Require Import Prelude RustStd ObservationModel ModbusAddress.
From stdpp Require Import options.

(** ** [ModbusError] (error.rs) *)
Module ModbusError.
Record t : Type := mk {
  code : string;
  protocol_code : option Z;
  retryable : bool;
}.

Definition new (code : string) (retryable : bool) : t :=
  {| code := code; protocol_code := None; retryable := retryable |}.

Definition connection_failed : t := new "connection_failed" true.
Definition connection_lost : t := new "connection_lost" true.
Definition timeout : t := new "timeout" true.
Definition modbus_exception (c : Z) : t :=
  {| code := "modbus_exception"; protocol_code := Some c;
     retryable := negb ((1 <=? c) && (c <=? 3)) |}.
Definition invalid_response : t := new "invalid_response" false.
Definition invalid_address : t := new "invalid_address" false.
Definition config_error : t := new "config_error" false.
Definition decode_error : t := new "decode_error" false.
Definition invalid_type : t := new "invalid_type" false.
Definition driver_panic : t := new "DRIVER_PANIC" false.
Definition unsupported : t := new "unsupported" false.

Definition into_info (e : t) : DriverErrorInfo :=
  {| dei_code := code e; dei_protocol_code := protocol_code e; dei_retryable := retryable e |}.

Definition is_transport_level (e : t) : bool :=
  bool_decide (code e = "connection_lost"%string ∨ code e = "connection_failed"%string
               ∨ code e = "timeout"%string ∨ code e = "invalid_response"%string).
End ModbusError.

(** ** CRC-16 (crc.rs) *)
Definition crc_shift (crc : Z) : Z :=
  if negb (Z.land crc 1 =? 0)
  then Z.lxor (Z.shiftr crc 1) 0xA001
  else Z.shiftr crc 1.

Definition crc_byte (crc byte : Z) : Z := Nat.iter 8 crc_shift (Z.lxor crc byte).

Definition crc16 (data : list Z) : Z := fold_left crc_byte data 0xFFFF.

Definition verify (frame : list Z) : bool :=
  if (length frame <? 2)%nat then false
  else
    let payload := take (length frame - 2) frame in
    let expected := drop (length frame - 2) frame in
    crc16 payload =? from_le_bytes expected.

(** ** Function codes and limits (frame.rs) *)
Definition FC_READ_COILS : Z := 0x01.
Definition FC_READ_DISCRETE_INPUTS : Z := 0x02.
Definition FC_READ_HOLDING_REGISTERS : Z := 0x03.
Definition FC_READ_INPUT_REGISTERS : Z := 0x04.
Definition FC_WRITE_SINGLE_COIL : Z := 0x05.
Definition FC_WRITE_SINGLE_REGISTER : Z := 0x06.
Definition FC_WRITE_MULTIPLE_COILS : Z := 0x0F.
Definition FC_WRITE_MULTIPLE_REGISTERS : Z := 0x10.

Definition MAX_REGISTERS_PER_REQUEST : Z := 125.
Definition MAX_BITS_PER_REQUEST : Z := 2000.
Definition MAX_WRITE_REGISTERS_PER_REQUEST : Z := 123.
Definition MAX_WRITE_BITS_PER_REQUEST : Z := 1968.

Definition is_write_function (function : Z) : bool :=
  (function =? FC_WRITE_SINGLE_COIL) || (function =? FC_WRITE_SINGLE_REGISTER)
  || (function =? FC_WRITE_MULTIPLE_COILS) || (function =? FC_WRITE_MULTIPLE_REGISTERS).

Definition is_bit_function (function : Z) : bool :=
  (function =? FC_READ_COILS) || (function =? FC_READ_DISCRETE_INPUTS).

Definition read_function_code (k : RegisterKind.t) : Z := RegisterKind.function_code k.

Definition expected_data_len (function quantity : Z) : Z :=
  if (function =? FC_READ_COILS) || (function =? FC_READ_DISCRETE_INPUTS)
  then div_ceil quantity 8
  else if (function =? FC_READ_HOLDING_REGISTERS) || (function =? FC_READ_INPUT_REGISTERS)
  then quantity * 2
  else if is_write_function function then 4
  else 0.

(** ** Request builders *)
Definition build_tcp_read_request
    (transaction_id unit_id function start_offset quantity : Z) : list Z :=
  to_be_bytes 2 transaction_id ++ to_be_bytes 2 0 ++ to_be_bytes 2 6
  ++ [unit_id] ++ [function] ++ to_be_bytes 2 start_offset ++ to_be_bytes 2 quantity.

Definition build_rtu_read_request (unit_id function start_offset quantity : Z) : list Z :=
  let frame := [unit_id] ++ [function] ++ to_be_bytes 2 start_offset ++ to_be_bytes 2 quantity in
  frame ++ to_le_bytes 2 (crc16 frame).

Definition build_tcp_write_request
    (transaction_id unit_id function start_offset : Z) (payload : list Z) : list Z :=
  to_be_bytes 2 transaction_id ++ to_be_bytes 2 0
  ++ to_be_bytes 2 (wrap16 (4 + Z.of_nat (length payload)))
  ++ [unit_id] ++ [function] ++ to_be_bytes 2 start_offset ++ payload.

Definition build_rtu_write_request (unit_id function start_offset : Z) (payload : list Z) :
    list Z :=
  let frame := [unit_id] ++ [function] ++ to_be_bytes 2 start_offset ++ payload in
  frame ++ to_le_bytes 2 (crc16 frame).

(** ** Response parsers *)
Module FrameError.
Inductive t : Type := Truncated | Invalid.
End FrameError.

Definition validate_write_echo (data : list Z) (start_offset : Z) (payload : list Z) :
    outcome FrameError.t unit :=
  if negb (length data =? 4)%nat then Err FrameError.Invalid
  else if negb (bool_decide (take 2 data = to_be_bytes 2 start_offset))
  then Err FrameError.Invalid
  else if (length payload <? 2)%nat || negb (bool_decide (drop 2 data = take 2 payload))
  then Err FrameError.Invalid
  else Ok ().

Record TcpResponseHeader : Type := mkTcpResponseHeader {
  trh_transaction_id : Z;
  trh_unit_id : Z;
  trh_data_len : nat;
}.

Definition parse_tcp_response_header (header : list Z) : outcome FrameError.t TcpResponseHeader :=
  if (length header <? 7)%nat then Err FrameError.Truncated
  else if negb (from_be_bytes (slice 2 4 header) =? 0) then Err FrameError.Invalid
  else
    let len := Z.to_nat (from_be_bytes (slice 4 6 header)) in
    if (len <? 2)%nat then Err FrameError.Invalid
    else Ok {| trh_transaction_id := from_be_bytes (slice 0 2 header);
               trh_unit_id := header !!! 6%nat;
               trh_data_len := len - 1 |}.

Record RtuResponseMeta : Type := mkRtuResponseMeta {
  rrm_unit_id : Z;
  rrm_function : Z;
  rrm_is_exception : bool;
  rrm_data_len : nat;
}.

Definition rtu_response_total_len (frame : list Z) (request_function request_quantity : Z) :
    outcome FrameError.t nat :=
  if (length frame <? 2)%nat then Err FrameError.Truncated
  else
    let function := frame !!! 1%nat in
    let is_exception := negb (Z.land function 0x80 =? 0) in
    let function := Z.land function 0x7F in
    if negb (function =? request_function) then Err FrameError.Invalid
    else
      let data_len :=
        if is_exception then 1
        else if is_write_function function then expected_data_len function request_quantity
        else 1 + expected_data_len function request_quantity in
      Ok (2 + Z.to_nat data_len + 2)%nat.

(** [frame.len() - 5] underflows on a four-byte normal response: a panic with
    overflow checks, a wrapped [data_len] without; the model panics. *)
Definition parse_rtu_response_meta (frame : list Z) : outcome FrameError.t RtuResponseMeta :=
  if (length frame <? 4)%nat then Err FrameError.Truncated
  else
    let unit_id := frame !!! 0%nat in
    let raw_function := frame !!! 1%nat in
    let? data_len :=
      if negb (Z.land raw_function 0x80 =? 0) then Ok 1%nat
      else if (length frame <? 5)%nat then Panic else Ok (length frame - 5)%nat in
    Ok {| rrm_unit_id := unit_id;
          rrm_function := Z.land raw_function 0x7F;
          rrm_is_exception := negb (Z.land raw_function 0x80 =? 0);
          rrm_data_len := data_len |}.

(** The retry classification of an exception code (the second component of
    the source's table; the names are diagnostics text). *)
Definition exception_code_retryable (code : Z) : bool :=
  match code with
  | 0x01 | 0x02 | 0x03 => false
  | 0x04 | 0x05 | 0x06 | 0x08 | 0x0A | 0x0B => true
  | _ => true
  end.

(** ** Properties of the checksum *)

Lemma crc_shift_range c : in_u 16 c → in_u 16 (crc_shift c).
Proof.
  unfold in_u. intros Hc. unfold crc_shift.
  assert (0 ≤ Z.shiftr c 1 < 2 ^ 15) as Hs by (rewrite Z.shiftr_div_pow2 by lia; dlia).
  case_if; [|lia].
  assert (0 ≤ Z.lxor (Z.shiftr c 1) 0xA001) as Hnn by (apply Z.lxor_nonneg; lia).
  split; [done|]. destruct (Z.eq_dec (Z.lxor (Z.shiftr c 1) 0xA001) 0); [lia|].
  apply Z.log2_lt_pow2; [lia|].
  eapply Z.le_lt_trans; [apply Z.log2_lxor; lia|].
  change (Z.log2 0xA001) with 15.
  destruct (Z.eq_dec (Z.shiftr c 1) 0) as [->|]; [simpl; lia|].
  assert (Z.log2 (Z.shiftr c 1) < 15) by (apply Z.log2_lt_pow2; lia). lia.
Qed.

Lemma land_1_odd c : Z.land c 1 = if Z.odd c then 1 else 0.
Proof. rewrite <- Zmod_odd. exact (Z.land_ones c 1 ltac:(lia)). Qed.

(** Bit 15 of a shifted checksum is the bit that was shifted out. *)
Lemma crc_shift_bit15 c : in_u 16 c → Z.testbit (crc_shift c) 15 = Z.odd c.
Proof.
  unfold in_u. intros Hc. unfold crc_shift. rewrite land_1_odd.
  assert (Z.testbit (Z.shiftr c 1) 15 = false) as Hb.
  { rewrite Z.shiftr_spec by lia. apply Z.bits_above_log2; [lia|].
    destruct (Z.eq_dec c 0) as [->|]; [simpl; lia|]. apply Z.log2_lt_pow2; lia. }
  destruct (Z.odd c); [|done]. change (negb (1 =? 0)) with true. cbv iota.
  by rewrite Z.lxor_spec, Hb.
Qed.

Lemma crc_shift_inj c c' :
  in_u 16 c → in_u 16 c' → crc_shift c = crc_shift c' → c = c'.
Proof.
  intros Hc Hc' Heq. pose proof (crc_shift_bit15 c Hc) as Ho.
  rewrite Heq, crc_shift_bit15 in Ho by done.
  unfold crc_shift in Heq. rewrite !land_1_odd, Ho in Heq.
  assert (Z.shiftr c 1 = Z.shiftr c' 1) as Hs.
  { destruct (Z.odd c); [|done]. change (negb (1 =? 0)) with true in Heq. cbv iota in Heq.
    rewrite <- (Z.lxor_0_r (Z.shiftr c 1)), <- (Z.lxor_0_r (Z.shiftr c' 1)).
    rewrite <- (Z.lxor_nilpotent 0xA001), <- !Z.lxor_assoc. by rewrite Heq. }
  rewrite !Z.shiftr_div_pow2 in Hs by lia. change (2 ^ 1) with 2 in Hs.
  pose proof (Zmod_odd c) as H1. pose proof (Zmod_odd c') as H2. rewrite <- Ho in H1.
  rewrite (Z.div_mod c 2), (Z.div_mod c' 2) by lia. congruence.
Qed.

Lemma lxor_byte_range c b : in_u 16 c → byte_ok b → in_u 16 (Z.lxor c b).
Proof.
  unfold in_u, byte_ok. intros Hc Hb.
  assert (0 ≤ Z.lxor c b) by (apply Z.lxor_nonneg; lia). split; [done|].
  destruct (Z.eq_dec (Z.lxor c b) 0); [lia|]. apply Z.log2_lt_pow2; [lia|].
  eapply Z.le_lt_trans; [apply Z.log2_lxor; lia|].
  assert (∀ x, 0 ≤ x < 2 ^ 16 → Z.log2 x < 16) as Hl.
  { intros x Hx. destruct (Z.eq_dec x 0) as [->|]; [simpl; lia|]. apply Z.log2_lt_pow2; lia. }
  assert (Z.log2 c < 16 ∧ Z.log2 b < 16) by (split; apply Hl; lia). lia.
Qed.

Lemma lxor_cancel_l c b b' : Z.lxor c b = Z.lxor c b' → b = b'.
Proof.
  intros H. rewrite <- (Z.lxor_0_l b), <- (Z.lxor_0_l b'), <- (Z.lxor_nilpotent c).
  rewrite !Z.lxor_assoc. by rewrite H.
Qed.

Lemma crc_iter_range n c : in_u 16 c → in_u 16 (Nat.iter n crc_shift c).
Proof. intros Hc. induction n; simpl; [done|]. by apply crc_shift_range. Qed.

Lemma crc_iter_inj n c c' :
  in_u 16 c → in_u 16 c' → Nat.iter n crc_shift c = Nat.iter n crc_shift c' → c = c'.
Proof.
  intros Hc Hc'. induction n as [|n IH]; simpl; [done|].
  intros ?%crc_shift_inj; [by apply IH|by apply crc_iter_range..].
Qed.

Lemma crc_byte_range c b : in_u 16 c → byte_ok b → in_u 16 (crc_byte c b).
Proof. intros Hc Hb. by apply crc_iter_range, lxor_byte_range. Qed.

Lemma crc_byte_inj_l c c' b :
  in_u 16 c → in_u 16 c' → byte_ok b → crc_byte c b = crc_byte c' b → c = c'.
Proof.
  intros Hc Hc' Hb H. apply crc_iter_inj in H; [|by apply lxor_byte_range..].
  rewrite !(Z.lxor_comm _ b) in H. by apply lxor_cancel_l in H.
Qed.

Lemma crc_byte_inj_r c b b' :
  in_u 16 c → byte_ok b → byte_ok b' → crc_byte c b = crc_byte c b' → b = b'.
Proof.
  intros Hc Hb Hb' H. apply crc_iter_inj in H; [|by apply lxor_byte_range..].
  by apply lxor_cancel_l in H.
Qed.

Lemma crc_fold_range l c : in_u 16 c → bytes_ok l → in_u 16 (fold_left crc_byte l c).
Proof.
  intros Hc Hl. revert c Hc. induction Hl as [|b l Hb Hl IH]; intros c Hc; simpl; [done|].
  by apply IH, crc_byte_range.
Qed.

Lemma crc16_range l : bytes_ok l → in_u 16 (crc16 l).
Proof. apply crc_fold_range. unfold in_u. lia. Qed.

Lemma crc_fold_inj l c c' :
  in_u 16 c → in_u 16 c' → bytes_ok l →
  fold_left crc_byte l c = fold_left crc_byte l c' → c = c'.
Proof.
  intros Hc Hc' Hl. revert c c' Hc Hc'.
  induction Hl as [|b l Hb Hl IH]; intros c c' Hc Hc' H; simpl in H; [done|].
  apply IH in H; [|by apply crc_byte_range..]. by eapply crc_byte_inj_l.
Qed.

(** Replacing one byte of a message by another changes its checksum. *)
Lemma crc16_one_byte l1 b b' l2 :
  bytes_ok (l1 ++ b :: l2) → byte_ok b' → b' ≠ b →
  crc16 (l1 ++ b' :: l2) ≠ crc16 (l1 ++ b :: l2).
Proof.
  intros [Hl1 [Hb Hl2]%Forall_cons]%Forall_app Hb' Hne. unfold crc16.
  rewrite !fold_left_app. cbn [fold_left]. intros H.
  pose proof (crc_fold_range l1 0xFFFF ltac:(unfold in_u; lia) Hl1) as Hc.
  apply crc_fold_inj in H; [|by apply crc_byte_range..|done].
  by apply crc_byte_inj_r in H.
Qed.

Lemma verify_app p c1 c2 :
  verify (p ++ [c1; c2]) = (crc16 p =? from_le_bytes [c1; c2]).
Proof.
  unfold verify. rewrite length_app. cbn [length].
  replace (length p + 2 <? 2)%nat with false by lia.
  replace (length p + 2 - 2)%nat with (length p) by lia.
  by rewrite take_app_length, drop_app_length.
Qed.

Lemma verify_inv f :
  verify f = true → ∃ p c1 c2, f = p ++ [c1; c2] ∧ crc16 p = from_le_bytes [c1; c2].
Proof.
  intros H. assert (2 ≤ length f)%nat as Hlen.
  { unfold verify in H. case_if; [done|]. by apply Nat.ltb_ge. }
  destruct (drop (length f - 2) f) as [|c1 [|c2 [|??]]] eqn:E;
    apply (f_equal length) in E as E'; rewrite length_drop in E'; simpl in E'; try lia.
  assert (f = take (length f - 2) f ++ [c1; c2]) as Hf by by rewrite <- E, take_drop.
  exists (take (length f - 2) f), c1, c2. split; [done|].
  rewrite Hf, verify_app in H. by apply Z.eqb_eq.
Qed.

(** The two checksum bytes of the source are the checksum, low byte first. *)
Lemma from_le_2 c1 c2 : from_le_bytes [c1; c2] = c1 + 256 * c2.
Proof. unfold from_le_bytes. lia. Qed.

(** A byte string with a valid checksum is its payload and the payload's
    checksum. *)
Definition with_crc (p : list Z) : list Z := p ++ to_le_bytes 2 (crc16 p).

Lemma verify_with_crc p : bytes_ok p → verify (with_crc p) = true.
Proof.
  intros Hpok. unfold with_crc.
  change (to_le_bytes 2 (crc16 p)) with [crc16 p mod 256; crc16 p / 256 mod 256].
  rewrite verify_app, from_le_2. pose proof (crc16_range p Hpok) as Hr. unfold in_u in Hr.
  apply Z.eqb_eq. dlia.
Qed.

Lemma verify_with_crc_inv f :
  bytes_ok f → verify f = true → ∃ p, f = with_crc p ∧ bytes_ok p.
Proof.
  intros Hf (p & c1 & c2 & -> & Hc)%verify_inv. apply Forall_app in Hf as [Hp Hcs].
  exists p. split; [|done]. unfold with_crc. f_equal. rewrite Hc. symmetry.
  by apply (to_from_le_bytes [c1; c2]).
Qed.

Lemma length_with_crc p : length (with_crc p) = (length p + 2)%nat.
Proof. unfold with_crc. by rewrite length_app, length_to_le_bytes. Qed.

(** A frame built by appending its checksum passes [verify]: both RTU
    request builders produce frames the receiver accepts. *)
Lemma rtu_frames_verify unit function off q payload :
  byte_ok unit → byte_ok function → bytes_ok payload →
  verify (build_rtu_read_request unit function off q) = true ∧
  verify (build_rtu_write_request unit function off payload) = true.
Proof. intros Hu Hf Hp. split; apply verify_with_crc; auto 10 with bytes. Qed.

(** The checksum detects every single-byte corruption: replacing any one
    byte of a valid frame (payload or checksum) by a different byte makes
    [verify] reject it. *)
Theorem verify_detects_single_byte f i b b' :
  bytes_ok f → verify f = true → f !! i = Some b → byte_ok b' → b' ≠ b →
  verify (<[i:=b']> f) = false.
Proof.
  intros Hok Hv Hi Hb' Hne.
  apply verify_inv in Hv as (p & c1 & c2 & -> & Hcrc).
  apply Forall_app in Hok as [Hp Hc]. apply Forall_cons in Hc as [Hc1 [Hc2 _]%Forall_cons].
  unfold byte_ok in *.
  destruct (decide (i < length p)%nat) as [Hlt|Hge].
  - rewrite lookup_app_l in Hi by done.
    rewrite insert_app_l, verify_app by done. apply Z.eqb_neq.
    rewrite <- Hcrc. rewrite <- (take_drop_middle p i b Hi).
    rewrite (insert_app_r_alt (take i p)) by (rewrite length_take; lia).
    replace (i - length (take i p))%nat with 0%nat by (rewrite length_take; lia). simpl.
    apply crc16_one_byte; [by rewrite take_drop_middle|done|done].
  - rewrite lookup_app_r in Hi by lia.
    rewrite insert_app_r_alt by lia.
    destruct (i - length p)%nat as [|[|n]]; simplify_eq/=;
      rewrite verify_app; apply Z.eqb_neq; rewrite Hcrc, !from_le_2; lia.
Qed.

(** ** Properties of the parsers *)

(** The MBAP header a peer sends: transaction, protocol 0, length, unit. *)
Definition mbap_header (tid len unit : Z) : list Z :=
  to_be_bytes 2 tid ++ to_be_bytes 2 0 ++ to_be_bytes 2 len ++ [unit].

Lemma to_be_bytes_2 z : to_be_bytes 2 z = [z / 256 mod 256; z mod 256].
Proof. done. Qed.

Lemma length_mbap_header tid len unit : length (mbap_header tid len unit) = 7%nat.
Proof. done. Qed.

Lemma mbap_header_ok tid len unit : byte_ok unit → bytes_ok (mbap_header tid len unit).
Proof. intros. unfold mbap_header. auto 8 with bytes. Qed.

Lemma parse_mbap_header tid len unit :
  in_u 16 tid → 2 ≤ len < 2 ^ 16 →
  parse_tcp_response_header (mbap_header tid len unit) =
    Ok {| trh_transaction_id := tid; trh_unit_id := unit; trh_data_len := Z.to_nat len - 1 |}.
Proof.
  intros Ht Hl. unfold parse_tcp_response_header. rewrite length_mbap_header.
  change (7 <? 7)%nat with false.
  change (slice 2 4 (mbap_header tid len unit)) with (to_be_bytes 2 0).
  change (slice 4 6 (mbap_header tid len unit)) with (to_be_bytes 2 len).
  change (slice 0 2 (mbap_header tid len unit)) with (to_be_bytes 2 tid).
  rewrite !from_to_be_bytes_small by (change (8 * Z.of_nat 2) with 16; unfold in_u in *; lia).
  replace (Z.to_nat len <? 2)%nat with false by lia. done.
Qed.

(** Both request builders start with the header of their own length. *)
Lemma build_tcp_read_request_eq tid unit fc off q :
  build_tcp_read_request tid unit fc off q =
    mbap_header tid 6 unit ++ fc :: to_be_bytes 2 off ++ to_be_bytes 2 q.
Proof. done. Qed.

Lemma build_tcp_write_request_eq tid unit fc off payload :
  Z.of_nat (length payload) < 2 ^ 16 - 4 →
  build_tcp_write_request tid unit fc off payload =
    mbap_header tid (4 + Z.of_nat (length payload)) unit ++ fc :: to_be_bytes 2 off ++ payload.
Proof.
  intros. unfold build_tcp_write_request. by rewrite (wrap_small 16) by (unfold in_u; lia).
Qed.

(** The MBAP header of every request the driver builds is read back by the
    response parser with the same transaction and unit, and a length that
    covers exactly the bytes that follow the header. *)
Theorem tcp_request_header_round_trip tid unit fc off q payload :
  in_u 16 tid → Z.of_nat (length payload) < 2 ^ 16 - 4 →
  parse_tcp_response_header (take 7 (build_tcp_read_request tid unit fc off q)) =
    Ok {| trh_transaction_id := tid; trh_unit_id := unit;
          trh_data_len := length (drop 7 (build_tcp_read_request tid unit fc off q)) |} ∧
  parse_tcp_response_header (take 7 (build_tcp_write_request tid unit fc off payload)) =
    Ok {| trh_transaction_id := tid; trh_unit_id := unit;
          trh_data_len := length (drop 7 (build_tcp_write_request tid unit fc off payload)) |}.
Proof.
  intros Ht Hp. rewrite build_tcp_read_request_eq, build_tcp_write_request_eq by done.
  rewrite !take_app_exact, !drop_app_exact by done.
  rewrite !parse_mbap_header by (try done; lia).
  split; [done|]. do 2 f_equal. cbn [length]. rewrite length_app, length_to_be_bytes. lia.
Qed.

Lemma write_echo_accepted data off payload :
  validate_write_echo data off payload = Ok () ↔
  (2 ≤ length payload)%nat ∧ data = to_be_bytes 2 off ++ take 2 payload.
Proof.
  unfold validate_write_echo. split.
  - case_if; [done|]. case_if; [done|]. case_if; [done|]. intros _.
    rewrite negb_false_iff in *. rewrite orb_false_iff, negb_false_iff in *.
    destruct_and!. rewrite bool_decide_eq_true in *. rewrite Nat.ltb_ge in *.
    split; [done|]. rewrite <- (take_drop 2 data). congruence.
  - intros [Hp ->]. rewrite length_app, length_to_be_bytes, length_take.
    replace (2 + 2 `min` length payload =? 4)%nat with true by lia.
    rewrite (take_app_exact (to_be_bytes 2 off)), (drop_app_exact (to_be_bytes 2 off)) by done.
    rewrite !bool_decide_eq_true_2 by done.
    by replace (length payload <? 2)%nat with false by lia.
Qed.

(** A write is acknowledged exactly when the response echoes the request's
    address and the first two payload bytes, no more and no less. *)
Lemma validate_write_echo_iff data off payload :
  validate_write_echo data off payload = Ok () ↔
  (2 ≤ length payload)%nat ∧ data = to_be_bytes 2 off ++ take 2 payload.
Proof. apply write_echo_accepted. Qed.

(** The two places that classify an exception code agree, and codes 1 to 3
    (illegal function, address, value) are exactly the permanent ones. *)
Lemma exception_retry_consistent c :
  ModbusError.retryable (ModbusError.modbus_exception c) = exception_code_retryable c ∧
  (exception_code_retryable c = false ↔ 1 ≤ c ≤ 3).
Proof.
  assert (exception_code_retryable c = negb ((1 <=? c) && (c <=? 3))) as ->.
  { unfold exception_code_retryable.
    repeat match goal with |- context [match ?x with _ => _ end] => destruct x; try done end;
      by symmetry; apply negb_true_iff, andb_false_iff; right; apply Z.leb_gt; lia. }
  split; [done|]. rewrite negb_false_iff. lia.
Qed.

Lemma expected_data_len_nonneg fc q : 0 ≤ q → 0 ≤ expected_data_len fc q.
Proof.
  intros Hq. unfold expected_data_len, div_ceil. repeat case_if; try dlia.
Qed.

(** A write response has a four-byte body. *)
Lemma expected_write_len fc q : is_write_function fc = true → expected_data_len fc q = 4.
Proof.
  intros Hf. unfold expected_data_len. rewrite Hf.
  unfold is_write_function, FC_READ_COILS, FC_READ_DISCRETE_INPUTS, FC_READ_HOLDING_REGISTERS,
    FC_READ_INPUT_REGISTERS in *.
  unfold FC_WRITE_SINGLE_COIL, FC_WRITE_SINGLE_REGISTER, FC_WRITE_MULTIPLE_COILS,
    FC_WRITE_MULTIPLE_REGISTERS in Hf.
  replace (_ || _) with false by lia. by replace (_ || _) with false by lia.
Qed.

(** The length read from the two head bytes is never the four-byte frame whose
    metadata computation would underflow. *)
Lemma rtu_total_len_at_least_5 frame fc q n :
  0 ≤ q → rtu_response_total_len frame fc q = Ok n → (5 ≤ n)%nat.
Proof.
  intros Hq. unfold rtu_response_total_len. case_if; [done|]. case_if; [done|].
  intros [= <-]. case_if; [lia|]. case_if; [rewrite expected_write_len by done; lia|].
  pose proof (expected_data_len_nonneg (Z.land (frame !!! 1%nat) 127) q Hq). lia.
Qed.

Lemma parse_rtu_response_meta_no_panic frame :
  (5 ≤ length frame)%nat → parse_rtu_response_meta frame ≠ Panic.
Proof.
  intros Hl. unfold parse_rtu_response_meta.
  replace (length frame <? 4)%nat with false by lia.
  replace (length frame <? 5)%nat with false by lia.
  by case_if.
Qed.
