(* ===== verification/ModbusCodec.v ===== *)
(** * Modbus connection configuration: drivers/modbus/src/config.rs

    JSON parsing itself is the [serde_json] crate's: [from_json] takes the
    parser as an argument; the defaults and the validation are the driver's. *)

From S2P Require Import Prelude RustStd ObservationModel AbiTag ModbusAddress ModbusFrame.
From stdpp Require Import options.

Module TransportMode.
Inductive t : Type := Tcp | Rtu.
End TransportMode.

Module WordOrder.
Inductive t : Type := Abcd | Cdab.
End WordOrder.

Record SerialConfig : Type := mkSerialConfig {
  sc_port : str;
  sc_baud_rate : Z;
  sc_data_bits : Z;
  sc_stop_bits : Z;
  sc_parity : str;
}.

Definition default_baud_rate : Z := 9600.
Definition default_data_bits : Z := 8.
Definition default_stop_bits : Z := 1.
Definition default_parity : str := lit "none".

Record ModbusConfig : Type := mkModbusConfig {
  mc_mode : TransportMode.t;
  mc_host : option str;
  mc_port : Z;
  mc_serial : option SerialConfig;
  mc_timeout_ms : Z;
  mc_unit_id : Z;
  mc_word_order : WordOrder.t;
  mc_reconnect : bool;
  mc_reconnect_max_attempts : Z;
  mc_reconnect_delay_ms : Z;
}.

Definition default_port : Z := 502.
Definition default_timeout_ms : Z := 3000.
Definition default_unit_id : Z := 1.
Definition default_true : bool := true.
Definition default_reconnect_attempts : Z := 3.
Definition default_reconnect_delay_ms : Z := 1000.

(** [impl Default for ModbusConfig]. *)
Definition config_default : ModbusConfig := {|
  mc_mode := TransportMode.Tcp;
  mc_host := None;
  mc_port := default_port;
  mc_serial := None;
  mc_timeout_ms := default_timeout_ms;
  mc_unit_id := default_unit_id;
  mc_word_order := WordOrder.Abcd;
  mc_reconnect := true;
  mc_reconnect_max_attempts := default_reconnect_attempts;
  mc_reconnect_delay_ms := default_reconnect_delay_ms;
|}.

(** [ConfigError]: the failed rule. *)
Module ConfigError.
Inductive t : Type :=
| EmptyConfig | InvalidJson | ZeroTimeout | UnitOutOfRange (unit : Z)
| MissingHost | MissingSerialPort | ZeroBaudRate | BadDataBits (n : Z)
| BadStopBits (n : Z) | BadParity (p : str) | MissingSerial.
End ConfigError.

Definition is_empty (s : str) : bool := match s with [] => true | _ => false end.

Definition validate (c : ModbusConfig) : outcome ConfigError.t unit :=
  if mc_timeout_ms c =? 0 then Err ConfigError.ZeroTimeout
  else if (mc_unit_id c =? 0) || (247 <? mc_unit_id c)
  then Err (ConfigError.UnitOutOfRange (mc_unit_id c))
  else
    match mc_mode c with
    | TransportMode.Tcp =>
        if is_empty (trim (default [] (mc_host c))) then Err ConfigError.MissingHost else Ok ()
    | TransportMode.Rtu =>
        match mc_serial c with
        | Some s =>
            if is_empty (trim (sc_port s)) then Err ConfigError.MissingSerialPort
            else if sc_baud_rate s =? 0 then Err ConfigError.ZeroBaudRate
            else if negb ((5 <=? sc_data_bits s) && (sc_data_bits s <=? 8))
            then Err (ConfigError.BadDataBits (sc_data_bits s))
            else if negb ((sc_stop_bits s =? 1) || (sc_stop_bits s =? 2))
            then Err (ConfigError.BadStopBits (sc_stop_bits s))
            else if negb (bool_decide (sc_parity s = lit "none" ∨ sc_parity s = lit "even"
                                       ∨ sc_parity s = lit "odd"))
            then Err (ConfigError.BadParity (sc_parity s))
            else Ok ()
        | None => Err ConfigError.MissingSerial
        end
    end.

Definition from_json (from_str : str → option ModbusConfig) (json : str) :
    outcome ConfigError.t ModbusConfig :=
  if is_empty (trim json) then Err ConfigError.EmptyConfig
  else
    let? config := ok_or (from_str json) ConfigError.InvalidJson in
    let? _ := validate config in
    Ok config.

(** ** Properties *)

(** What a validated configuration guarantees to the session and the planner. *)
Definition config_valid (c : ModbusConfig) : Prop :=
  mc_timeout_ms c ≠ 0 ∧ 1 ≤ mc_unit_id c ≤ 247 ∧
  match mc_mode c with
  | TransportMode.Tcp => ∃ h, mc_host c = Some h ∧ trim h ≠ []
  | TransportMode.Rtu => ∃ s, mc_serial c = Some s ∧ trim (sc_port s) ≠ [] ∧
      sc_baud_rate s ≠ 0 ∧ 5 ≤ sc_data_bits s ≤ 8 ∧ 1 ≤ sc_stop_bits s ≤ 2 ∧
      (sc_parity s = lit "none" ∨ sc_parity s = lit "even" ∨ sc_parity s = lit "odd")
  end.

Lemma is_empty_true s : is_empty s = true ↔ s = [].
Proof. by destruct s. Qed.

Lemma is_empty_false s : is_empty s = false ↔ s ≠ [].
Proof. by destruct s. Qed.

(** [validate] accepts exactly the configurations the session can run:
    every rule is necessary and together they are sufficient. *)
Theorem config_validate_iff c :
  0 ≤ mc_unit_id c → validate c = Ok () ↔ config_valid c.
Proof.
  intros Hu. unfold validate, config_valid.
  destruct (Z.eqb_spec (mc_timeout_ms c) 0); [naive_solver|].
  destruct ((mc_unit_id c =? 0) || (247 <? mc_unit_id c)) eqn:Eu; [split; [done|lia]|].
  assert (1 ≤ mc_unit_id c ≤ 247) by lia.
  destruct (mc_mode c).
  - destruct (mc_host c) as [h|]; simpl; [|naive_solver].
    destruct (is_empty (trim h)) eqn:E; [apply is_empty_true in E; naive_solver|].
    apply is_empty_false in E. naive_solver.
  - destruct (mc_serial c) as [s|]; [|naive_solver].
    destruct (is_empty (trim (sc_port s))) eqn:E; [apply is_empty_true in E; naive_solver|].
    destruct (Z.eqb_spec (sc_baud_rate s) 0); [naive_solver|].
    destruct (negb ((5 <=? _) && _)) eqn:Ed; [split; [done|naive_solver lia]|].
    destruct (negb ((_ =? 1) || _)) eqn:Es; [split; [done|naive_solver lia]|].
    destruct (bool_decide _) eqn:Ep; [|apply bool_decide_eq_false in Ep; naive_solver].
    apply bool_decide_eq_true in Ep. split; [|done]. intros _.
    apply is_empty_false in E. repeat split; try done || lia.
    exists s. repeat split; try done || lia.
Qed.

Lemma from_json_valid from_str json c :
  from_json from_str json = Ok c → validate c = Ok () ∧ from_str json = Some c.
Proof.
  unfold from_json. case_if; [done|]. intros H. inv_ok. destruct v0. by simplify_eq.
Qed.

(** * Value codec: drivers/modbus/src/decode.rs and encode.rs

    Response data to raw values (big-endian registers, LSB-first bits) and the
    write side's inverse, including the width rules of carrier tags. *)

(** ** Decoding (decode.rs) *)

(** [DecodeError]: a single-item failure; its text is not modelled. *)
Inductive DecodeError : Type := mkDecodeError.

Definition register_width (d : DataType.t) : option Z :=
  match d with
  | DataType.U8 | DataType.I8 | DataType.U16 | DataType.I16 => Some 1
  | DataType.U32 | DataType.I32 | DataType.F32 => Some 2
  | DataType.U64 | DataType.I64 | DataType.F64 => Some 4
  | DataType.Bool => Some 1
  | DataType.String | DataType.Bytes | DataType.Array _ | DataType.Struct _ => None
  end.

Definition decode_bit (bytes : list Z) (bit_offset : nat) : outcome DecodeError bool :=
  let? byte := ok_or (bytes !! (bit_offset / 8)%nat) mkDecodeError in
  Ok (negb (Z.land (Z.shiftr byte (Z.of_nat (bit_offset mod 8))) 1 =? 0)).

Definition decode_u16 (bytes : list Z) (reg_offset : nat) : outcome DecodeError Z :=
  let byte_start := (reg_offset * 2)%nat in
  let byte_end := (byte_start + 2)%nat in
  if (length bytes <? byte_end)%nat then Err mkDecodeError
  else Ok (from_be_bytes (slice byte_start byte_end bytes)).

(** Word reordering of two and four registers (the same permutation serves
    reading and writing). *)
Definition reorder_words4 (s : list Z) (wo : WordOrder.t) : list Z :=
  match wo with
  | WordOrder.Abcd => [s !!! 0%nat; s !!! 1%nat; s !!! 2%nat; s !!! 3%nat]
  | WordOrder.Cdab => [s !!! 2%nat; s !!! 3%nat; s !!! 0%nat; s !!! 1%nat]
  end.

Definition reorder_words8 (s : list Z) (wo : WordOrder.t) : list Z :=
  match wo with
  | WordOrder.Abcd => [s !!! 0%nat; s !!! 1%nat; s !!! 2%nat; s !!! 3%nat;
                       s !!! 4%nat; s !!! 5%nat; s !!! 6%nat; s !!! 7%nat]
  | WordOrder.Cdab => [s !!! 6%nat; s !!! 7%nat; s !!! 4%nat; s !!! 5%nat;
                       s !!! 2%nat; s !!! 3%nat; s !!! 0%nat; s !!! 1%nat]
  end.

Definition is_bit_kind (k : RegisterKind.t) : bool :=
  match k with RegisterKind.Coil | RegisterKind.DiscreteInput => true | _ => false end.

Definition decode_register_value (k : RegisterKind.t) (bytes : list Z) (reg_offset : nat)
    (data_type : option DataType.t) (wo : WordOrder.t) : outcome DecodeError RawValue.t :=
  match data_type with
  | None =>
      if is_bit_kind k
      then outcome_map RawValue.Bool (decode_bit bytes reg_offset)
      else outcome_map RawValue.U64 (decode_u16 bytes reg_offset)
  | Some dt =>
      if is_bit_kind k then
        if negb (DataType.is_bool dt) then Err mkDecodeError
        else outcome_map RawValue.Bool (decode_bit bytes reg_offset)
      else if DataType.is_bool dt then Err mkDecodeError
      else
        let? words := ok_or (register_width dt) mkDecodeError in
        let byte_start := (reg_offset * 2)%nat in
        let byte_end := (byte_start + Z.to_nat words * 2)%nat in
        if (length bytes <? byte_end)%nat then Err mkDecodeError
        else
          let sl := slice byte_start byte_end bytes in
          match dt with
          | DataType.U8 => Ok (RawValue.U64 (sl !!! 1%nat))
          | DataType.I8 => Ok (RawValue.I64 (wrap_signed 8 (sl !!! 1%nat)))
          | DataType.U16 => outcome_map RawValue.U64 (decode_u16 bytes reg_offset)
          | DataType.I16 => Ok (RawValue.I64 (wrap_signed 16 (from_be_bytes sl)))
          | DataType.U32 => Ok (RawValue.U64 (from_be_bytes (reorder_words4 sl wo)))
          | DataType.I32 =>
              Ok (RawValue.I64 (wrap_signed 32 (from_be_bytes (reorder_words4 sl wo))))
          | DataType.F32 =>
              Ok (RawValue.F64 (f32_to_f64 (from_be_bytes (reorder_words4 sl wo))))
          | DataType.U64 => Ok (RawValue.U64 (from_be_bytes (reorder_words8 sl wo)))
          | DataType.I64 =>
              Ok (RawValue.I64 (wrap_signed 64 (from_be_bytes (reorder_words8 sl wo))))
          | DataType.F64 => Ok (RawValue.F64 (from_be_bytes (reorder_words8 sl wo)))
          | DataType.Bool => Panic
          | DataType.String | DataType.Bytes | DataType.Array _ | DataType.Struct _ =>
              Err mkDecodeError
          end
  end.

Lemma decode_register_value_no_panic k bytes off dt wo :
  decode_register_value k bytes off dt wo ≠ Panic.
Proof.
  unfold decode_register_value, decode_bit, decode_u16. destruct dt as [dt|].
  - destruct (is_bit_kind k); [no_panic|].
    destruct dt; cbn [DataType.is_bool]; no_panic.
  - no_panic.
Qed.

(** ** Encoding (encode.rs) *)

(** [EncodeError]: a single-item failure; its text is not modelled. *)
Inductive EncodeError : Type := mkEncodeError.

Module EncodedWrite.
Inductive t : Type :=
| Coil (bit : bool)
| Registers (data : list Z).

Definition units (e : t) : Z :=
  match e with
  | Coil _ => 1
  | Registers data => wrap16 (Z.of_nat (length data / 2)%nat)
  end.
End EncodedWrite.

Definition coil_payload (on : bool) : list Z := if on then [0xFF; 0x00] else [0x00; 0x00].

(** [bytes[index / 8] |= 1 << (index % 8)] for each set bit. *)
Definition set_bit (bytes : list Z) (index : nat) : list Z :=
  alter (λ b, Z.lor b (Z.shiftl 1 (Z.of_nat (index mod 8)))) (index / 8)%nat bytes.

Fixpoint pack_loop (bits : list bool) (index : nat) (bytes : list Z) : list Z :=
  match bits with
  | [] => bytes
  | bit :: bits' => pack_loop bits' (S index) (if bit then set_bit bytes index else bytes)
  end.

Definition pack_bits (bits : list bool) : list Z :=
  pack_loop bits 0 (replicate (Z.to_nat (div_ceil (Z.of_nat (length bits)) 8)) 0).

Definition minimal_unsigned_words (v : Z) : Z :=
  if v <=? 0xFFFF then 1 else if v <=? 0xFFFFFFFF then 2 else 4.

Definition minimal_signed_words (v : Z) : Z :=
  if (-0x8000 <=? v) && (v <=? 0x7FFF) then 1
  else if (-0x80000000 <=? v) && (v <=? 0x7FFFFFFF) then 2
  else 4.

(** [as] casts before [to_be_bytes] are absorbed by [to_be_bytes], which works
    modulo the width. *)
Definition unsigned_be (v words : Z) : list Z :=
  if words =? 1 then to_be_bytes 2 (wrap16 v)
  else if words =? 2 then to_be_bytes 4 (wrap32 v)
  else to_be_bytes 8 v.

Definition signed_be (v words : Z) : list Z :=
  if words =? 1 then to_be_bytes 2 (wrap_signed 16 v)
  else if words =? 2 then to_be_bytes 4 (wrap_signed 32 v)
  else to_be_bytes 8 v.

Definition f32_lossless (v : Z) : bool :=
  negb (f64_is_nan v) && f64_eq (f32_to_f64 (f64_to_f32 v)) v.

(** The natural big-endian bytes of a value under its tag. *)
Definition register_bytes (tag : TypeTag.t) (value : RawValue.t) : outcome EncodeError (list Z) :=
  match tag, value with
  | TypeTag.U64, RawValue.U64 v => Ok (unsigned_be v (minimal_unsigned_words v))
  | TypeTag.I64, RawValue.I64 v => Ok (signed_be v (minimal_signed_words v))
  | TypeTag.U8, RawValue.U64 v => Ok [0x00; wrap8 v]
  | TypeTag.I8, RawValue.I64 v => Ok [0x00; wrap8 (wrap_signed 8 v)]
  | TypeTag.U16, RawValue.U64 v => Ok (to_be_bytes 2 (wrap16 v))
  | TypeTag.I16, RawValue.I64 v => Ok (to_be_bytes 2 (wrap_signed 16 v))
  | TypeTag.U32, RawValue.U64 v => Ok (to_be_bytes 4 (wrap32 v))
  | TypeTag.I32, RawValue.I64 v => Ok (to_be_bytes 4 (wrap_signed 32 v))
  | TypeTag.F32, RawValue.F64 v => Ok (to_be_bytes 4 (f64_to_f32 v))
  | TypeTag.F64, RawValue.F64 v =>
      if f32_lossless v then Ok (to_be_bytes 4 (f64_to_f32 v)) else Ok (to_be_bytes 8 v)
  | TypeTag.Bool, _ => Err mkEncodeError
  | _, _ => Err mkEncodeError
  end.

(** The wire order of one, two or four registers. *)
Definition order_words (bytes : list Z) (wo : WordOrder.t) : outcome EncodeError (list Z) :=
  match length bytes with
  | 2%nat => Ok bytes
  | 4%nat => Ok (reorder_words4 bytes wo)
  | 8%nat => Ok (reorder_words8 bytes wo)
  | _ => Err mkEncodeError
  end.

Definition encode_register_data (value_type : Z) (value : RawValue.t) (wo : WordOrder.t) :
    outcome EncodeError (list Z) :=
  let? tag := map_err (λ _, mkEncodeError) (try_from value_type) in
  let? bytes := register_bytes tag value in
  order_words bytes wo.

Definition encode_write_value (k : RegisterKind.t) (value_type : Z) (value : RawValue.t)
    (wo : WordOrder.t) : outcome EncodeError EncodedWrite.t :=
  match k with
  | RegisterKind.Coil =>
      match value with
      | RawValue.Bool bit => Ok (EncodedWrite.Coil bit)
      | _ => Err mkEncodeError
      end
  | RegisterKind.HoldingRegister =>
      let? data := encode_register_data value_type value wo in
      Ok (EncodedWrite.Registers data)
  | RegisterKind.DiscreteInput | RegisterKind.InputRegister => Err mkEncodeError
  end.

(** ** Properties of the bit stream *)

(** The bit of a byte stream at an LSB-first position. *)
Definition bit_at (bytes : list Z) (i : nat) : option bool :=
  (λ b, Z.testbit b (Z.of_nat (i mod 8))) <$> bytes !! (i / 8)%nat.

Lemma decode_bit_spec bytes i : decode_bit bytes i = ok_or (bit_at bytes i) mkDecodeError.
Proof.
  unfold decode_bit, bit_at. destruct (bytes !! (i / 8)%nat) as [b|]; simpl; [|done].
  rewrite land_1_odd, Z.testbit_odd. by destruct (Z.odd _).
Qed.

Lemma set_bit_same bytes i b :
  bytes !! (i / 8)%nat = Some b → bit_at (set_bit bytes i) i = Some true.
Proof.
  intros Hb. unfold bit_at, set_bit. rewrite list_lookup_alter_eq, Hb. cbn [fmap option_fmap option_map].
  rewrite Z.lor_spec, Z.shiftl_spec, Z.sub_diag by lia. by rewrite orb_true_r.
Qed.

Lemma set_bit_ne bytes i j : i ≠ j → bit_at (set_bit bytes i) j = bit_at bytes j.
Proof.
  intros Hne. unfold bit_at, set_bit.
  destruct (decide (i / 8 = j / 8)%nat) as [Heq|?]; [|by rewrite list_lookup_alter_ne].
  rewrite <- Heq, list_lookup_alter_eq. destruct (bytes !! (i / 8)%nat); [|done]. cbn [fmap option_fmap option_map].
  f_equal. rewrite Z.lor_spec, Z.shiftl_spec by lia.
  assert (i mod 8 ≠ j mod 8)%nat as Hm.
  { intros Hm. apply Hne. rewrite (Nat.div_mod_eq i 8), (Nat.div_mod_eq j 8). congruence. }
  replace (Z.testbit 1 _) with false; [apply orb_false_r|].
  destruct (Z.lt_ge_cases (Z.of_nat (j mod 8)) (Z.of_nat (i mod 8))).
  - by rewrite Z.testbit_neg_r by lia.
  - by rewrite Z.bits_above_log2 by (change (Z.log2 1) with 0; lia).
Qed.

Lemma length_set_bit bytes i : length (set_bit bytes i) = length bytes.
Proof. apply length_alter. Qed.

Lemma set_bit_ok bytes i : bytes_ok bytes → bytes_ok (set_bit bytes i).
Proof.
  intros Hb. unfold set_bit. apply Forall_alter; [done|]. intros b _ Hbb.
  unfold byte_ok in *.
  assert (i mod 8 < 8)%nat by (apply Nat.mod_upper_bound; lia).
  rewrite Z.shiftl_1_l. assert (0 < 2 ^ Z.of_nat (i mod 8)) by lia.
  assert (2 ^ Z.of_nat (i mod 8) ≤ 2 ^ 7) by (apply Z.pow_le_mono_r; lia).
  assert (0 ≤ Z.lor b (2 ^ Z.of_nat (i mod 8))) by (apply Z.lor_nonneg; lia).
  split; [done|]. change 256 with (2 ^ 8).
  destruct (Z.eq_dec (Z.lor b (2 ^ Z.of_nat (i mod 8))) 0); [lia|].
  apply Z.log2_lt_pow2; [lia|]. rewrite Z.log2_lor, Z.log2_pow2 by lia.
  destruct (Z.eq_dec b 0) as [->|]; [simpl; lia|].
  assert (Z.log2 b < 8) by (apply Z.log2_lt_pow2; lia). lia.
Qed.

Lemma pack_loop_spec bits k bytes i :
  (∀ j, (k ≤ j < k + length bits)%nat → is_Some (bytes !! (j / 8)%nat)) →
  (∀ j, (k ≤ j)%nat → bit_at bytes j ≠ Some true) →
  bit_at (pack_loop bits k bytes) i =
    if decide (k ≤ i < k + length bits)%nat then bits !! (i - k)%nat else bit_at bytes i.
Proof.
  revert k bytes. induction bits as [|bit bits IH]; intros k bytes Hin Hz; cbn [pack_loop length].
  { by rewrite decide_False by lia. }
  cbn [length] in Hin. destruct (Hin k ltac:(lia)) as [b0 Hb0].
  rewrite IH.
  - destruct (decide (S k ≤ i < S k + length bits)%nat); [|destruct (decide (i = k)) as [->|]].
    + rewrite decide_True by lia. by replace (i - k)%nat with (S (i - S k)) by lia.
    + rewrite decide_True by lia. rewrite Nat.sub_diag. cbn.
      destruct bit; [by eapply set_bit_same|].
      specialize (Hz k ltac:(lia)). unfold bit_at in *. rewrite Hb0 in *. simpl in *.
      by destruct (Z.testbit _ _).
    + rewrite decide_False by lia. destruct bit; [by apply set_bit_ne|done].
  - intros j Hj. destruct (Hin j ltac:(lia)) as [b Hb].
    destruct bit; [|done]. apply lookup_lt_is_Some. rewrite length_set_bit.
    by eapply lookup_lt_Some.
  - intros j Hj. destruct bit; [|apply Hz; lia]. rewrite set_bit_ne by lia. apply Hz. lia.
Qed.

Lemma pack_loop_shape bits k bytes :
  length (pack_loop bits k bytes) = length bytes ∧
  (bytes_ok bytes → bytes_ok (pack_loop bits k bytes)).
Proof.
  revert k bytes. induction bits as [|[] bits IH]; intros k bytes; simpl; [done| |by apply IH].
  destruct (IH (S k) (set_bit bytes k)) as [-> Hok]. rewrite length_set_bit.
  split; [done|]. intros. by apply Hok, set_bit_ok.
Qed.

Lemma length_pack_bits bits :
  length (pack_bits bits) = Z.to_nat (div_ceil (Z.of_nat (length bits)) 8).
Proof. unfold pack_bits. destruct (pack_loop_shape bits 0 (replicate
  (Z.to_nat (div_ceil (Z.of_nat (length bits)) 8)) 0)) as [-> _]. apply length_replicate. Qed.

Lemma pack_bits_ok bits : bytes_ok (pack_bits bits).
Proof.
  unfold pack_bits. apply pack_loop_shape. apply Forall_replicate. unfold byte_ok. lia.
Qed.

Lemma bit_at_zero n i : bit_at (replicate n 0) i ≠ Some true.
Proof.
  unfold bit_at. destruct (replicate n 0 !! (i / 8)%nat) eqn:E; [|done].
  apply lookup_replicate in E as [-> _]. simpl. by rewrite Z.testbit_0_l.
Qed.

Lemma pack_bits_bit bits i :
  bit_at (pack_bits bits) i =
    if decide (i < length bits)%nat then bits !! i
    else bit_at (replicate (Z.to_nat (div_ceil (Z.of_nat (length bits)) 8)) 0) i.
Proof.
  unfold pack_bits. rewrite pack_loop_spec.
  - rewrite Nat.sub_0_r. repeat case_decide; try done; lia.
  - intros j Hj. apply lookup_lt_is_Some. rewrite length_replicate.
    rewrite div_ceil_spec by lia.
    assert (Z.of_nat (j / 8) = Z.of_nat j / 8) as Hd by apply Nat2Z.inj_div.
    apply Nat2Z.inj_lt. rewrite Z2Nat.id by dlia. rewrite Hd. dlia.
  - intros j _. apply bit_at_zero.
Qed.

(** The FC15 bit stream is the inverse of reading coils: every packed bit
    is decoded at its own position, and the padding of the last byte is zero. *)
Theorem pack_bits_decode bits i :
  (∀ b, bits !! i = Some b → decode_bit (pack_bits bits) i = Ok b) ∧
  ((length bits ≤ i)%nat → (i < 8 * length (pack_bits bits))%nat →
     decode_bit (pack_bits bits) i = Ok false).
Proof.
  rewrite decode_bit_spec, length_pack_bits, pack_bits_bit. split.
  - intros b Hb. rewrite decide_True by by eapply lookup_lt_Some. by rewrite Hb.
  - intros Hge Hlt. rewrite decide_False by lia. unfold bit_at.
    rewrite lookup_replicate_2 by (apply Nat.Div0.div_lt_upper_bound; lia). simpl.
    by rewrite Z.testbit_0_l.
Qed.

(** ** Properties of the register codec *)

Lemma reorder_words4_involutive s wo :
  length s = 4%nat → reorder_words4 (reorder_words4 s wo) wo = s.
Proof. by destruct s as [|? [|? [|? [|? [|??]]]]], wo. Qed.

Lemma reorder_words8_involutive s wo :
  length s = 8%nat → reorder_words8 (reorder_words8 s wo) wo = s.
Proof. by destruct s as [|? [|? [|? [|? [|? [|? [|? [|? [|??]]]]]]]]], wo. Qed.

Lemma length_reorder_words4 s wo : length (reorder_words4 s wo) = 4%nat.
Proof. by destruct wo. Qed.
Lemma length_reorder_words8 s wo : length (reorder_words8 s wo) = 8%nat.
Proof. by destruct wo. Qed.

Lemma lookup_total_ok s i : bytes_ok s → byte_ok (s !!! i).
Proof.
  intros Hs. destruct (s !! i) as [b|] eqn:E.
  - rewrite (list_lookup_total_correct _ _ _ E). by eapply Forall_lookup_1.
  - rewrite list_lookup_total_alt, E. vm_compute. by split.
Qed.

Lemma reorder_words4_ok s wo : bytes_ok s → bytes_ok (reorder_words4 s wo).
Proof. intros. destruct wo; repeat constructor; by apply lookup_total_ok. Qed.
Lemma reorder_words8_ok s wo : bytes_ok s → bytes_ok (reorder_words8 s wo).
Proof. intros. destruct wo; repeat constructor; by apply lookup_total_ok. Qed.
#[export] Hint Resolve reorder_words4_ok reorder_words8_ok : bytes.

Lemma wrap_byte_ok z : byte_ok (wrap8 z).
Proof. by apply (wrap_range 8). Qed.
#[export] Hint Resolve wrap_byte_ok : bytes.

Lemma slice_mid (pre bs post : list Z) a b :
  a = length pre → b = (a + length bs)%nat → slice a b (pre ++ bs ++ post) = bs.
Proof.
  intros -> ->. unfold slice. rewrite drop_app_length.
  replace (length pre + length bs - length pre)%nat with (length bs) by lia.
  apply take_app_length.
Qed.

(** The value of the registers of one item, read as a given type. *)
Definition decode_words (dt : DataType.t) (sl : list Z) (wo : WordOrder.t) : RawValue.t :=
  match dt with
  | DataType.U8 => RawValue.U64 (sl !!! 1%nat)
  | DataType.I8 => RawValue.I64 (wrap_signed 8 (sl !!! 1%nat))
  | DataType.U16 => RawValue.U64 (from_be_bytes sl)
  | DataType.I16 => RawValue.I64 (wrap_signed 16 (from_be_bytes sl))
  | DataType.U32 => RawValue.U64 (from_be_bytes (reorder_words4 sl wo))
  | DataType.I32 => RawValue.I64 (wrap_signed 32 (from_be_bytes (reorder_words4 sl wo)))
  | DataType.F32 => RawValue.F64 (f32_to_f64 (from_be_bytes (reorder_words4 sl wo)))
  | DataType.U64 => RawValue.U64 (from_be_bytes (reorder_words8 sl wo))
  | DataType.I64 => RawValue.I64 (wrap_signed 64 (from_be_bytes (reorder_words8 sl wo)))
  | DataType.F64 => RawValue.F64 (from_be_bytes (reorder_words8 sl wo))
  | _ => RawValue.Bool false
  end.

(** Decoding looks only at the item's own registers. *)
Lemma decode_register_value_at k pre bs post off dt wo w :
  is_bit_kind k = false → DataType.is_bool dt = false → register_width dt = Some w →
  length pre = (off * 2)%nat → length bs = (Z.to_nat w * 2)%nat →
  decode_register_value k (pre ++ bs ++ post) off (Some dt) wo = Ok (decode_words dt bs wo).
Proof.
  intros Hk Hb Hw Hpre Hbs. unfold decode_register_value. rewrite Hk, Hb, Hw.
  cbn [ok_or outcome_bind]. rewrite !length_app.
  replace (_ <? _)%nat with false by lia.
  rewrite slice_mid by lia. unfold decode_u16. rewrite !length_app.
  destruct dt; try done. injection Hw as <-.
  replace (_ <? _)%nat with false by lia. by rewrite slice_mid by lia.
Qed.

(** The type under which a written value reads back: a carrier tag (the 64-bit
    variants every in-process value has) stands for the narrowest type that
    holds the value. *)
Definition written_type (t : TypeTag.t) (v : RawValue.t) : option DataType.t :=
  match t, v with
  | TypeTag.U64, RawValue.U64 v =>
      Some (if v <=? 0xFFFF then DataType.U16
            else if v <=? 0xFFFFFFFF then DataType.U32 else DataType.U64)
  | TypeTag.I64, RawValue.I64 v =>
      Some (if (-0x8000 <=? v) && (v <=? 0x7FFF) then DataType.I16
            else if (-0x80000000 <=? v) && (v <=? 0x7FFFFFFF) then DataType.I32 else DataType.I64)
  | TypeTag.F64, RawValue.F64 v => Some (if f32_lossless v then DataType.F32 else DataType.F64)
  | _, _ => TypeTag.to_data_type t
  end.

(** The value is one the narrow tag can carry. *)
Definition tag_fits (t : TypeTag.t) (v : RawValue.t) : Prop :=
  match t, v with
  | TypeTag.U8, RawValue.U64 v => in_u 8 v
  | TypeTag.U16, RawValue.U64 v => in_u 16 v
  | TypeTag.U32, RawValue.U64 v => in_u 32 v
  | TypeTag.I8, RawValue.I64 v => in_i 8 v
  | TypeTag.I16, RawValue.I64 v => in_i 16 v
  | TypeTag.I32, RawValue.I64 v => in_i 32 v
  | TypeTag.F32, RawValue.F64 v => f32_lossless v = true
  | _, _ => True
  end.

Lemma f32_lossless_round_trip v :
  in_u 64 v → f32_lossless v = true → f32_to_f64 (f64_to_f32 v) = v.
Proof.
  intros Hv [_ H]%andb_true_iff. by apply f32_round_trip_bits.
Qed.

Lemma from_to_be_unsigned (n : nat) z :
  in_u (8 * Z.of_nat n) z → from_be_bytes (to_be_bytes n z) = z.
Proof. intros. by apply from_to_be_bytes_small. Qed.

Lemma from_to_be_signed (n : nat) z :
  (0 < n)%nat → in_i (8 * Z.of_nat n) z →
  wrap_signed (8 * Z.of_nat n) (from_be_bytes (to_be_bytes n z)) = z.
Proof.
  intros. rewrite from_to_be_bytes.
  change (z mod 2 ^ (8 * Z.of_nat n)) with (wrap (8 * Z.of_nat n) z).
  apply wrap_signed_wrap_small; [lia|done].
Qed.

(** The natural bytes have the width of the written type and, read as that
    type in natural order, are the value. *)
Lemma register_bytes_spec t v bytes :
  RawValue.wf v → tag_fits t v → register_bytes t v = Ok bytes →
  ∃ dt w, written_type t v = Some dt ∧ DataType.is_bool dt = false ∧
    register_width dt = Some w ∧ length bytes = (Z.to_nat w * 2)%nat ∧
    bytes_ok bytes ∧ decode_words dt bytes WordOrder.Abcd = v.
Proof.
  intros Hv Hfit He.
  assert (∀ l wo, length l = 4%nat → wo = WordOrder.Abcd → reorder_words4 l wo = l) as H4.
  { intros l wo Hl ->. by destruct l as [|? [|? [|? [|? [|??]]]]]. }
  assert (∀ l wo, length l = 8%nat → wo = WordOrder.Abcd → reorder_words8 l wo = l) as H8.
  { intros l wo Hl ->. by destruct l as [|? [|? [|? [|? [|? [|? [|? [|? [|??]]]]]]]]]. }
  unfold register_bytes, unsigned_be, signed_be, minimal_unsigned_words, minimal_signed_words in He.
  destruct t, v; try discriminate He; cbn [written_type RawValue.wf tag_fits] in *;
    repeat case_match; simplify_eq;
    eexists _, _; (split; [reflexivity|]); (split; [reflexivity|]); (split; [reflexivity|]);
    rewrite ?length_to_be_bytes; (split; [reflexivity|]).
  all: (split; [by auto with bytes|]); cbn [decode_words];
    rewrite ?H4, ?H8 by (by rewrite ?length_to_be_bytes); f_equal.
  all: try (by apply from_to_be_unsigned).
  all: try (rewrite wrap_small by (unfold in_u in *; lia)).
  all: try (rewrite (wrap_signed_small 8 v) by first [done|unfold in_i in *; lia]).
  all: try (rewrite (wrap_signed_small 16 v) by first [done|unfold in_i in *; lia]).
  all: try (rewrite (wrap_signed_small 32 v) by first [done|unfold in_i in *; lia]).
  all: try (by apply (wrap_signed_wrap_small 8)).
  all: try (apply (from_to_be_signed 2) || apply (from_to_be_signed 4)
    || apply (from_to_be_signed 8); first [done|lia|unfold in_i in *; lia]).
  all: try (apply from_to_be_unsigned; unfold in_u in *; lia).
  all: rewrite ?from_to_be_unsigned by apply f64_to_f32_range.
  all: first [done|by apply f32_lossless_round_trip].
Qed.

Lemma decode_words_reorder4 dt s wo :
  register_width dt = Some 2 → length s = 4%nat →
  decode_words dt (reorder_words4 s wo) wo = decode_words dt s WordOrder.Abcd.
Proof.
  intros Hw Hs. destruct dt; try done; cbn [decode_words];
    rewrite reorder_words4_involutive by done;
    by destruct s as [|? [|? [|? [|? [|??]]]]].
Qed.

Lemma decode_words_reorder8 dt s wo :
  register_width dt = Some 4 → length s = 8%nat →
  decode_words dt (reorder_words8 s wo) wo = decode_words dt s WordOrder.Abcd.
Proof.
  intros Hw Hs. destruct dt; try done; cbn [decode_words];
    rewrite reorder_words8_involutive by done;
    by destruct s as [|? [|? [|? [|? [|? [|? [|? [|? [|??]]]]]]]]].
Qed.

Lemma register_width_cases dt w : register_width dt = Some w → w = 1 ∨ w = 2 ∨ w = 4.
Proof. destruct dt; simpl; intros; simplify_eq; lia. Qed.

(** What encoding produces: the registers of the written type, in word order. *)
Lemma encode_register_data_spec vt t v wo bs :
  try_from vt = Ok t → RawValue.wf v → tag_fits t v →
  encode_register_data vt v wo = Ok bs →
  ∃ dt w, written_type t v = Some dt ∧ DataType.is_bool dt = false ∧
    register_width dt = Some w ∧ length bs = (Z.to_nat w * 2)%nat ∧
    bytes_ok bs ∧ decode_words dt bs wo = v.
Proof.
  intros Ht Hv Hfit He. unfold encode_register_data in He. rewrite Ht in He.
  cbn [map_err outcome_bind] in He. inv_ok.
  destruct (register_bytes_spec t v v0) as (dt & w & Hdt & Hb & Hw & Hlen & Hok & Hdec); try done.
  exists dt, w. do 3 (split; [done|]). unfold order_words in He.
  destruct (register_width_cases _ _ Hw) as [->|[->| ->]]; simpl in Hlen;
    rewrite Hlen in He; injection He as <-.
  - split; [done|]. split; [done|]. rewrite <- Hdec. by destruct dt.
  - rewrite length_reorder_words4. split; [done|].
    split; [by auto with bytes|]. rewrite <- Hdec. by apply decode_words_reorder4.
  - rewrite length_reorder_words8. split; [done|].
    split; [by auto with bytes|]. rewrite <- Hdec. by apply decode_words_reorder8.
Qed.

(** Writing a value and reading its registers back gives the value, for
    every scalar type, both word orders and any position in the response: the
    encoder is the inverse of the decoder. *)
Theorem write_read_round_trip k vt t v wo bs pre post off :
  try_from vt = Ok t → RawValue.wf v → tag_fits t v → is_bit_kind k = false →
  encode_register_data vt v wo = Ok bs → length pre = (off * 2)%nat →
  ∃ dt, written_type t v = Some dt ∧
    decode_register_value k (pre ++ bs ++ post) off (Some dt) wo = Ok v.
Proof.
  intros Ht Hv Hfit Hk He Hpre.
  destruct (encode_register_data_spec vt t v wo bs) as (dt & w & Hdt & Hb & Hw & Hlen & Hok & Hdec);
    try done.
  exists dt. split; [done|]. erewrite decode_register_value_at by done. by rewrite Hdec.
Qed.

Lemma register_bytes_ok t v bytes : register_bytes t v = Ok bytes → bytes_ok bytes.
Proof.
  intros H. unfold register_bytes, unsigned_be, signed_be in H.
  destruct t, v; try discriminate H; repeat case_match; simplify_eq; by auto with bytes.
Qed.

(** The registers an encoded write occupies. *)
Lemma encode_register_data_shape vt v wo bs :
  encode_register_data vt v wo = Ok bs →
  bytes_ok bs ∧ (length bs = 2 ∨ length bs = 4 ∨ length bs = 8)%nat.
Proof.
  unfold encode_register_data. intros H. inv_ok. subst.
  apply register_bytes_ok in Hv0. unfold order_words in H.
  destruct (length v1) as [|[|[|[|[|[|[|[|[|?]]]]]]]]] eqn:E; inv_ok; subst;
    rewrite ?length_reorder_words4, ?length_reorder_words8; (split; [|lia]); by auto with bytes.
Qed.

(** An encoded write fits its segment and occupies one, two or four units. *)
Definition encoded_wf (k : RegisterKind.t) (e : EncodedWrite.t) : Prop :=
  match k, e with
  | RegisterKind.Coil, EncodedWrite.Coil _ => True
  | RegisterKind.HoldingRegister, EncodedWrite.Registers d =>
      bytes_ok d ∧ (length d = 2 ∨ length d = 4 ∨ length d = 8)%nat
  | _, _ => False
  end.

Lemma encode_write_value_wf k vt v wo e :
  encode_write_value k vt v wo = Ok e → encoded_wf k e.
Proof.
  unfold encode_write_value. intros H. destruct k; try done.
  - by destruct v; simplify_eq.
  - inv_ok. subst e. by apply encode_register_data_shape in Hv.
Qed.

Lemma encoded_units k e :
  encoded_wf k e → 1 ≤ EncodedWrite.units e ≤ 4 ∧
  match e with
  | EncodedWrite.Coil _ => EncodedWrite.units e = 1
  | EncodedWrite.Registers d => Z.of_nat (length d) = 2 * EncodedWrite.units e
  end.
Proof.
  destruct k, e as [|d]; try done. cbn [encoded_wf].
  intros [_ [H|[H|H]]]; cbn [EncodedWrite.units]; rewrite H; by vm_compute.
Qed.
