(* ===== verification/ModbusSession.v ===== *)
(** * Transport sessions: drivers/modbus/src/session.rs

    The request/response transactions over TCP (MBAP) and RTU (serial line).
    The operating system's sockets and serial ports are interfaces: a byte
    stream with [write_all] and [read_exact], a resolver and a connector; the
    state of the outside world is threaded through every call. *)

From S2P Require Import Prelude RustStd ObservationModel DriverAbi ModbusAddress ModbusCodec.
From S2P Require Import ModbusFrame.
From stdpp Require Import options.

(** The settings the driver passes to the serial port library. *)
Module DataBits.
Inductive t : Type := Five | Six | Seven | Eight.
End DataBits.
Module StopBits.
Inductive t : Type := One | Two.
End StopBits.
Module Parity.
Inductive t : Type := NoParity | Even | Odd.
End Parity.

Record SerialSettings : Type := mkSerialSettings {
  ss_path : str;
  ss_baud_rate : Z;
  ss_data_bits : DataBits.t;
  ss_stop_bits : StopBits.t;
  ss_parity : Parity.t;
  ss_timeout : Z;
}.

Class SerialNet (W H : Type) : Type := {
  open_port : SerialSettings → W → W * io_result H;
}.

(** ** Common helpers *)
Definition map_io_error (e : IoKind.t) : ModbusError.t :=
  match e with
  | IoKind.TimedOut | IoKind.WouldBlock => ModbusError.timeout
  | IoKind.Other => ModbusError.connection_lost
  end.

(** An operation of the world inside a method of a transport [T]. *)
Definition io {W T A} (err : IoKind.t → ModbusError.t) (op : W → W * io_result A) :
    stm (T * W) ModbusError.t A :=
  λ '(t, w), match op w with
             | (w', inr a) => ((t, w'), Ok a)
             | (w', inl e) => ((t, w'), Err (err e))
             end.

Definition invalid_frame {A} (o : outcome FrameError.t A) : outcome ModbusError.t A :=
  map_err (λ _, ModbusError.invalid_response) o.

Definition validate_write_body (function start_offset : Z) (payload body : list Z) :
    outcome ModbusError.t unit :=
  match body with
  | [] => Err ModbusError.invalid_response
  | raw_function :: data =>
      let response_function := Z.land raw_function 0x7F in
      if negb (response_function =? function) then Err ModbusError.invalid_response
      else if negb (Z.land raw_function 0x80 =? 0) then
        if negb (length body =? 2)%nat then Err ModbusError.invalid_response
        else Err (ModbusError.modbus_exception (body !!! 1%nat))
      else if negb (is_write_function function) then Err ModbusError.invalid_response
      else invalid_frame (validate_write_echo data start_offset payload)
  end.

(** ** The transport interface *)
Class Transport (W T : Type) : Type := {
  tr_connect : stm (T * W) ModbusError.t ();
  tr_is_connected : T → bool;
  tr_disconnect : T * W → T * W;
  tr_read_transaction : Z → Z → Z → Z → stm (T * W) ModbusError.t (list Z);
  tr_write_transaction : Z → Z → Z → list Z → stm (T * W) ModbusError.t ();
}.

(** The errors of a transaction: the session is out of order, or the slave
    answered with an exception. *)
Definition transaction_error (e : ModbusError.t) : Prop :=
  ModbusError.is_transport_level e = true ∨ ∃ code, e = ModbusError.modbus_exception code.

Class TransportLaws (W T : Type) `{Transport W T} : Prop := {
  connect_connected : ∀ s s' x, tr_connect s = (s', Ok x) → tr_is_connected s'.1 = true;
  connect_failed : ∀ s s' e,
    tr_connect s = (s', Err e) → tr_is_connected s'.1 = false;
  connect_safe : ∀ s, safe (λ e, ModbusError.is_transport_level e = true) tr_connect s;
  disconnect_disconnected : ∀ s, tr_is_connected (tr_disconnect s).1 = false;
  read_keeps_connection : ∀ unit fc off q s,
    tr_is_connected (tr_read_transaction unit fc off q s).1.1 = tr_is_connected s.1;
  write_keeps_connection : ∀ unit fc off p s,
    tr_is_connected (tr_write_transaction unit fc off p s).1.1 = tr_is_connected s.1;
  read_safe : ∀ unit fc off q s, 0 ≤ q →
    safe transaction_error (tr_read_transaction unit fc off q) s;
  write_safe : ∀ unit fc off p s,
    safe transaction_error (tr_write_transaction unit fc off p) s;
  read_data_ok : ∀ unit fc off q s s' data, 0 ≤ q → is_write_function fc = false →
    tr_read_transaction unit fc off q s = (s', Ok data) →
    Z.of_nat (length data) = expected_data_len fc q ∧ bytes_ok data;
}.

(** ** TCP *)
Record TcpTransport (H : Type) : Type := mkTcpTransport {
  tt_host : str;
  tt_port : Z;
  tt_timeout : Z;
  tt_stream : option H;
  tt_transaction_id : Z;
}.
Arguments mkTcpTransport {H} _ _ _ _ _.
Arguments tt_host {H} _.
Arguments tt_port {H} _.
Arguments tt_timeout {H} _.
Arguments tt_stream {H} _.
Arguments tt_transaction_id {H} _.

Section tcp.
Context {W H Addr : Type} `{!ByteStream W H} `{!TcpNet W H Addr}.

Definition tcp_new (config : ModbusConfig) : TcpTransport H :=
  {| tt_host := default [] (mc_host config); tt_port := mc_port config;
     tt_timeout := mc_timeout_ms config; tt_stream := None; tt_transaction_id := 0 |}.

Definition tcp_set_stream (o : option H) (t : TcpTransport H) : TcpTransport H :=
  {| tt_host := tt_host t; tt_port := tt_port t; tt_timeout := tt_timeout t; tt_stream := o;
     tt_transaction_id := tt_transaction_id t |}.

Definition tcp_next_transaction (t : TcpTransport H) : TcpTransport H :=
  {| tt_host := tt_host t; tt_port := tt_port t; tt_timeout := tt_timeout t;
     tt_stream := tt_stream t; tt_transaction_id := wrap16 (tt_transaction_id t + 1) |}.

Definition tcp_stream : stm (TcpTransport H * W) ModbusError.t H :=
  λ s, (s, ok_or (tt_stream s.1) ModbusError.connection_lost).

Definition tcp_read_exact (len : nat) : stm (TcpTransport H * W) ModbusError.t (list Z) :=
  let! h := tcp_stream in
  io map_io_error (read_exact h len).

(** The first resolved address that accepts the connection. *)
Fixpoint try_addrs (timeout : Z) (addrs : list Addr) (w : W) : W * option H :=
  match addrs with
  | [] => (w, None)
  | addr :: addrs' =>
      match connect_timeout addr timeout w with
      | (w', inr stream) => (w', Some stream)
      | (w', inl _) => try_addrs timeout addrs' w'
      end
  end.

(** A socket option; the fresh socket is dropped when it fails. *)
Definition socket_option (h : H) (op : W → W * io_result ()) :
    stm (TcpTransport H * W) ModbusError.t () :=
  λ '(t, w), match op w with
             | (w', inr _) => ((t, w'), Ok ())
             | (w', inl _) => ((t, close h w'), Err ModbusError.connection_failed)
             end.

Definition tcp_connect : stm (TcpTransport H * W) ModbusError.t () :=
  let! (t, w) := sget in
  match tt_stream t with
  | Some _ => sret ()
  | None =>
      let! addrs := io (λ _, ModbusError.connection_failed)
                      (to_socket_addrs (tt_host t) (tt_port t)) in
      let! connected := λ '(t, w), let '(w', o) := try_addrs (tt_timeout t) addrs w in
                                   ((t, w'), Ok o) in
      let! h := slift (ok_or connected ModbusError.connection_failed) in
      let! _ := socket_option h (set_read_timeout h (tt_timeout t)) in
      let! _ := socket_option h (set_write_timeout h (tt_timeout t)) in
      smodify (λ '(t, w), (tcp_set_stream (Some h) t, w))
  end.

Definition tcp_is_connected (t : TcpTransport H) : bool :=
  match tt_stream t with Some _ => true | None => false end.

Definition tcp_disconnect (s : TcpTransport H * W) : TcpTransport H * W :=
  (tcp_set_stream None s.1,
   match tt_stream s.1 with Some h => close h s.2 | None => s.2 end).

(** Send a request and read back the body of its response: the part the
    read and write transactions share. *)
Definition tcp_exchange (request : Z → list Z) (unit_id : Z) :
    stm (TcpTransport H * W) ModbusError.t (list Z) :=
  let! _ := smodify (λ '(t, w), (tcp_next_transaction t, w)) in
  let! (t, _) := sget in
  let! h := tcp_stream in
  let! _ := io (λ _, ModbusError.connection_lost)
              (write_all h (request (tt_transaction_id t))) in
  let! header := tcp_read_exact 7 in
  let! meta := slift (invalid_frame (parse_tcp_response_header header)) in
  if negb (trh_transaction_id meta =? tt_transaction_id t)
  then sfail ModbusError.invalid_response
  else if negb (trh_unit_id meta =? unit_id) then sfail ModbusError.invalid_response
  else tcp_read_exact (trh_data_len meta).

(** The checks of a read response body. *)
Definition tcp_check_read_body (function quantity : Z) (body : list Z) :
    outcome ModbusError.t (list Z) :=
  match body with
  | [] => Err ModbusError.invalid_response
  | raw_function :: _ =>
      let response_function := Z.land raw_function 0x7F in
      if negb (response_function =? function) then Err ModbusError.invalid_response
      else if negb (Z.land raw_function 0x80 =? 0) then
        if negb (length body =? 2)%nat then Err ModbusError.invalid_response
        else Err (ModbusError.modbus_exception (body !!! 1%nat))
      else
        let expected := expected_data_len function quantity in
        if negb (Z.of_nat (length body) =? expected + 2) || negb (body !!! 1%nat =? expected)
        then Err ModbusError.invalid_response
        else Ok (drop 2 body)
  end.

Definition tcp_read_transaction (unit_id function start_offset quantity : Z) :
    stm (TcpTransport H * W) ModbusError.t (list Z) :=
  let! body := tcp_exchange
                 (λ tid, build_tcp_read_request tid unit_id function start_offset quantity)
                 unit_id in
  slift (tcp_check_read_body function quantity body).

Definition tcp_write_transaction (unit_id function start_offset : Z) (payload : list Z) :
    stm (TcpTransport H * W) ModbusError.t () :=
  let! body := tcp_exchange
                 (λ tid, build_tcp_write_request tid unit_id function start_offset payload)
                 unit_id in
  slift (validate_write_body function start_offset payload body).

#[global] Instance tcp_transport : Transport W (TcpTransport H) := {|
  tr_connect := tcp_connect;
  tr_is_connected := tcp_is_connected;
  tr_disconnect := tcp_disconnect;
  tr_read_transaction := tcp_read_transaction;
  tr_write_transaction := tcp_write_transaction;
|}.
End tcp.

(** ** RTU *)
Record RtuTransport (H : Type) : Type := mkRtuTransport {
  rt_serial : SerialConfig;
  rt_timeout : Z;
  rt_port : option H;
}.
Arguments mkRtuTransport {H} _ _ _.
Arguments rt_serial {H} _.
Arguments rt_timeout {H} _.
Arguments rt_port {H} _.

Section rtu.
Context {W H : Type} `{!ByteStream W H} `{!SerialNet W H}.

Definition rtu_new (config : ModbusConfig) : outcome ModbusError.t (RtuTransport H) :=
  let? serial := ok_or (mc_serial config) ModbusError.config_error in
  Ok {| rt_serial := serial; rt_timeout := mc_timeout_ms config; rt_port := None |}.

Definition rtu_set_port (o : option H) (t : RtuTransport H) : RtuTransport H :=
  {| rt_serial := rt_serial t; rt_timeout := rt_timeout t; rt_port := o |}.

Definition rtu_port : stm (RtuTransport H * W) ModbusError.t H :=
  λ s, (s, ok_or (rt_port s.1) ModbusError.connection_lost).

Definition rtu_read_exact (len : nat) : stm (RtuTransport H * W) ModbusError.t (list Z) :=
  let! h := rtu_port in
  io map_io_error (read_exact h len).

Definition serial_settings (t : RtuTransport H) : SerialSettings :=
  let s := rt_serial t in
  {| ss_path := sc_port s;
     ss_baud_rate := sc_baud_rate s;
     ss_data_bits :=
       match sc_data_bits s with
       | 5 => DataBits.Five | 6 => DataBits.Six | 7 => DataBits.Seven | _ => DataBits.Eight
       end;
     ss_stop_bits :=
       match sc_stop_bits s with 1 => StopBits.One | 2 => StopBits.Two | _ => StopBits.One end;
     ss_parity :=
       if decide (sc_parity s = lit "even") then Parity.Even
       else if decide (sc_parity s = lit "odd") then Parity.Odd
       else Parity.NoParity;
     ss_timeout := rt_timeout t |}.

Definition rtu_connect : stm (RtuTransport H * W) ModbusError.t () :=
  let! (t, w) := sget in
  match rt_port t with
  | Some _ => sret ()
  | None =>
      let! h := io (λ _, ModbusError.connection_failed) (open_port (serial_settings t)) in
      smodify (λ '(t, w), (rtu_set_port (Some h) t, w))
  end.

Definition rtu_is_connected (t : RtuTransport H) : bool :=
  match rt_port t with Some _ => true | None => false end.

Definition rtu_disconnect (s : RtuTransport H * W) : RtuTransport H * W :=
  (rtu_set_port None s.1,
   match rt_port s.1 with Some h => close h s.2 | None => s.2 end).

(** Send a request and read back a whole frame of the expected unit with a
    valid checksum and the expected function. *)
Definition rtu_exchange (request : list Z) (unit_id function quantity : Z) :
    stm (RtuTransport H * W) ModbusError.t (list Z * RtuResponseMeta) :=
  let! h := rtu_port in
  let! _ := io (λ _, ModbusError.connection_lost) (write_all h request) in
  let! head := rtu_read_exact 2 in
  if negb (head !!! 0%nat =? unit_id) then sfail ModbusError.invalid_response
  else
    let! total := slift (invalid_frame (rtu_response_total_len head function quantity)) in
    let! rest := rtu_read_exact (total - 2) in
    let frame := head ++ rest in
    if negb (verify frame) then sfail ModbusError.invalid_response
    else
      let! meta := slift (invalid_frame (parse_rtu_response_meta frame)) in
      if negb (rrm_function meta =? function) then sfail ModbusError.invalid_response
      else sret (frame, meta).

Definition rtu_read_transaction (unit_id function start_offset quantity : Z) :
    stm (RtuTransport H * W) ModbusError.t (list Z) :=
  let! (frame, meta) :=
    rtu_exchange (build_rtu_read_request unit_id function start_offset quantity)
      unit_id function quantity in
  if rrm_is_exception meta
  then sfail (ModbusError.modbus_exception (frame !!! 2%nat))
  else
    let expected := expected_data_len function quantity in
    if negb (frame !!! 2%nat =? expected) then sfail ModbusError.invalid_response
    else sret (slice 3 (length frame - 2) frame).

Definition rtu_write_transaction (unit_id function start_offset : Z) (payload : list Z) :
    stm (RtuTransport H * W) ModbusError.t () :=
  let! (frame, meta) :=
    rtu_exchange (build_rtu_write_request unit_id function start_offset payload)
      unit_id function 0 in
  if rrm_is_exception meta
  then sfail (ModbusError.modbus_exception (frame !!! 2%nat))
  else slift (validate_write_body function start_offset payload
                (slice 1 (length frame - 2) frame)).

#[global] Instance rtu_transport : Transport W (RtuTransport H) := {|
  tr_connect := rtu_connect;
  tr_is_connected := rtu_is_connected;
  tr_disconnect := rtu_disconnect;
  tr_read_transaction := rtu_read_transaction;
  tr_write_transaction := rtu_write_transaction;
|}.
End rtu.

(** ** [Box<dyn Transport>] *)
Section any_transport.
Context {W H HS Addr : Type} `{!ByteStream W H} `{!TcpNet W H Addr}.
Context `{!ByteStream W HS} `{!SerialNet W HS}.

Inductive AnyTransport : Type :=
| Tcp (t : TcpTransport H)
| Rtu (t : RtuTransport HS).

Definition create_transport (config : ModbusConfig) : outcome ModbusError.t AnyTransport :=
  match mc_mode config with
  | TransportMode.Tcp => Ok (Tcp (tcp_new config))
  | TransportMode.Rtu => outcome_map Rtu (rtu_new config)
  end.

(** Dynamic dispatch: a method of the implementation, the box kept. *)
Definition dispatch {A} (mt : stm (TcpTransport H * W) ModbusError.t A)
    (mr : stm (RtuTransport HS * W) ModbusError.t A) : stm (AnyTransport * W) ModbusError.t A :=
  λ '(t, w),
    match t with
    | Tcp t => let '((t', w'), r) := mt (t, w) in ((Tcp t', w'), r)
    | Rtu t => let '((t', w'), r) := mr (t, w) in ((Rtu t', w'), r)
    end.

#[global] Instance any_transport : Transport W AnyTransport := {|
  tr_connect := dispatch tr_connect tr_connect;
  tr_is_connected t :=
    match t with Tcp t => tr_is_connected t | Rtu t => tr_is_connected t end;
  tr_disconnect s :=
    match s with
    | (Tcp t, w) => let '(t', w') := tr_disconnect (t, w) in (Tcp t', w')
    | (Rtu t, w) => let '(t', w') := tr_disconnect (t, w) in (Rtu t', w')
    end;
  tr_read_transaction u f o q := dispatch (tr_read_transaction u f o q) (tr_read_transaction u f o q);
  tr_write_transaction u f o p :=
    dispatch (tr_write_transaction u f o p) (tr_write_transaction u f o p);
|}.
End any_transport.
Arguments AnyTransport _ _ : clear implicits.
