(* ===== verification/ModbusSessionLaws.v ===== *)
(** * Correctness of the sessions

    Both transports satisfy the interface the driver relies on
    ([TransportLaws]), and a transaction succeeds only on a response that
    belongs to its request. *)

From S2P Require Import Prelude RustStd ObservationModel DriverAbi ModbusAddress ModbusCodec.
From S2P Require Import ModbusFrame ModbusSession.
From stdpp Require Import options.

Create HintDb session.

(** ** Steps that cannot panic *)
Lemma transport_level_io e : transaction_error (map_io_error e).
Proof. left. by destruct e. Qed.

Lemma transport_level_errors :
  transaction_error ModbusError.invalid_response ∧ transaction_error ModbusError.connection_lost.
Proof. split; by left. Qed.

Lemma safe_io {W T A} (G : ModbusError.t → Prop) err (op : W → W * io_result A) (s : T * W) :
  (∀ e, G (err e)) → safe G (io err op) s.
Proof. intros HG. destruct s as [t w]. unfold safe, io. destruct (op w) as [w' [e|a]]; cbn; auto. Qed.

Lemma safe_fail {S A} (G : ModbusError.t → Prop) e (s : S) : G e → safe G (sfail e : stm S _ A) s.
Proof. done. Qed.

Lemma safe_lift {S A} (G : ModbusError.t → Prop) (o : outcome ModbusError.t A) (s : S) :
  o ≠ Panic → (∀ e, o = Err e → G e) → safe G (slift o) s.
Proof. intros ? HG. unfold safe, slift. cbn. destruct o; auto. Qed.

Lemma safe_lift_frame {S A} (o : outcome FrameError.t A) (s : S) :
  o ≠ Panic → safe transaction_error (slift (invalid_frame o)) s.
Proof.
  intros Hp. apply safe_lift; [by apply map_err_no_panic|]. intros e He.
  destruct o; simplify_eq/=. apply transport_level_errors.
Qed.

Lemma safe_lift_ok_or {S A} (G : ModbusError.t → Prop) (o : option A) e (s : S) :
  G e → safe G (slift (ok_or o e)) s.
Proof. intros. apply safe_lift; destruct o; naive_solver. Qed.

Lemma parse_tcp_response_header_no_panic header : parse_tcp_response_header header ≠ Panic.
Proof. unfold parse_tcp_response_header. no_panic. Qed.

Lemma rtu_response_total_len_no_panic head fc q : rtu_response_total_len head fc q ≠ Panic.
Proof. unfold rtu_response_total_len. no_panic. Qed.

#[export] Hint Resolve transport_level_io safe_io safe_fail safe_lift_frame safe_lift_ok_or
  parse_tcp_response_header_no_panic rtu_response_total_len_no_panic : session.
#[export] Hint Extern 1 (transaction_error _) => apply transport_level_errors : session.

(** Walk through a computation down to its leaves. *)
Ltac safe_walk :=
  repeat match goal with
  | |- safe _ (sbind _ _) _ => apply safe_bind; [|intros ? ? ?]
  | |- safe _ (if ?b then _ else _) _ => destruct b eqn:?
  | |- safe _ (match ?o with _ => _ end) _ => destruct o eqn:?
  | |- safe _ sget _ => exact I
  | |- safe _ (sret _) _ => exact I
  | |- safe _ (smodify _) _ => exact I
  | |- safe _ _ _ => solve [auto with session]
  end.

(** An operation of the world does not touch the transport. *)
Lemma keeps_io {W T A} (P : T → Prop) err (op : W → W * io_result A) :
  keeps (λ s : T * W, P s.1) (io err op).
Proof. intros [t w] Ht. unfold io. by destruct (op w) as [w' [e|a]]. Qed.

Lemma keeps_same {S E A} (P : S → Prop) (m : stm S E A) : (∀ s, (m s).1 = s) → keeps P m.
Proof. intros Hm s. by rewrite Hm. Qed.

Ltac keeps_walk :=
  repeat match goal with
  | |- keeps _ (sbind _ _) => apply keeps_bind; [|intros ?]
  | |- keeps _ (if ?b then _ else _) => destruct b
  | |- keeps _ (match ?x with _ => _ end) => destruct x
  | |- keeps _ sget => by apply keeps_same
  | |- keeps _ (sret _) => by apply keeps_same
  | |- keeps _ (sfail _) => by apply keeps_same
  | |- keeps _ (slift _) => by apply keeps_same
  | |- keeps _ (λ s, (s, _)) => by apply keeps_same
  end.

(** Decompose a successful run. *)
Ltac inv_run :=
  repeat match goal with
  | H : sbind _ _ _ = (_, Ok _) |- _ =>
      let s := fresh "s" in let a := fresh "a" in let Ha := fresh "Ha" in
      apply sbind_Ok_inv in H as (s & a & Ha & H)
  | H : (if ?b then _ else _) _ = (_, Ok _) |- _ => destruct b eqn:?
  | H : sfail _ _ = (_, Ok _) |- _ => discriminate H
  | H : sget _ = (_, Ok _) |- _ => injection H as <- <-
  | H : sret _ _ = (_, Ok _) |- _ => injection H as <- <-
  | H : smodify _ _ = (_, Ok _) |- _ => injection H as <- <-
  end.

Lemma io_Ok {W T A} err (op : W → W * io_result A) t w (s' : T * W) a :
  io err op (t, w) = (s', Ok a) ↔ ∃ w', op w = (w', inr a) ∧ s' = (t, w').
Proof. unfold io. destruct (op w) as [w' [e|b]]; naive_solver. Qed.

Lemma slift_Ok {S E A} (o : outcome E A) (s s' : S) a :
  slift o s = (s', Ok a) ↔ o = Ok a ∧ s' = s.
Proof. unfold slift. naive_solver. Qed.

Lemma invalid_frame_Ok {A} (o : outcome FrameError.t A) a : invalid_frame o = Ok a ↔ o = Ok a.
Proof. destruct o; naive_solver. Qed.

(** ** Masks *)
Lemma function_masks raw fc :
  byte_ok raw → Z.land raw 0x7F = fc → Z.land raw 0x80 = 0 → raw = fc.
Proof.
  intros Hr H1 H2. rewrite <- H1. change 0x7F with (Z.ones 7). rewrite Z.land_ones by lia.
  symmetry. apply Z.mod_small. unfold byte_ok in Hr.
  assert (Z.testbit raw 7 = false) as H7.
  { pose proof (f_equal (λ z, Z.testbit z 7) H2) as Hb. cbv beta in Hb.
    rewrite Z.land_spec, Z.testbit_0_l in Hb. change (Z.testbit 128 7) with true in Hb.
    by rewrite andb_true_r in Hb. }
  rewrite Z.testbit_eqb in H7 by lia. apply Z.eqb_neq in H7.
  change (2 ^ 7) with 128 in *. dlia.
Qed.

Lemma land_function fc : 0 ≤ fc < 0x80 → Z.land fc 0x7F = fc ∧ Z.land fc 0x80 = 0.
Proof.
  intros Hf. split.
  - change 0x7F with (Z.ones 7). rewrite Z.land_ones by lia. apply Z.mod_small. lia.
  - apply Z.bits_inj'. intros n Hn. rewrite Z.land_spec, Z.testbit_0_l.
    destruct (Z.eq_dec n 7) as [->|Hne].
    + rewrite Z.testbit_eqb by lia. rewrite Z.div_small by lia. done.
    + change 0x80 with (2 ^ 7). rewrite Z.pow2_bits_false by lia. by rewrite andb_false_r.
Qed.

(** ** Response bodies *)
Lemma read_body_Ok fc q body data :
  bytes_ok body → 0 ≤ fc < 0x80 → 0 ≤ q →
  tcp_check_read_body fc q body = Ok data ↔
  Z.of_nat (length data) = expected_data_len fc q ∧ body = fc :: Z.of_nat (length data) :: data.
Proof.
  intros Hb Hf Hq. pose proof (expected_data_len_nonneg fc q Hq) as He.
  destruct (land_function fc Hf) as [Hl1 Hl2]. split.
  - destruct body as [|raw body]; [done|]. cbn [tcp_check_read_body].
    apply Forall_cons in Hb as [Hraw _].
    case_if; [done|]. case_if; [by case_if|]. case_if; [done|]. intros [= <-].
    assert (raw = fc) as -> by (apply function_masks; [done|lia|lia]).
    destruct body as [|bc body]; simpl length in *; [lia|].
    change ((fc :: bc :: body) !!! 1%nat) with bc in *. cbn [drop]. rewrite drop_0.
    split; [lia|]. do 2 f_equal. lia.
  - intros [Hl ->]. cbn [tcp_check_read_body]. rewrite Hl1, Hl2, Z.eqb_refl. cbn [negb].
    change ((fc :: Z.of_nat (length data) :: data) !!! 1%nat) with (Z.of_nat (length data)).
    cbn [length]. replace (_ || _) with false by lia. cbn [drop]. by rewrite drop_0.
Qed.

Lemma is_write_function_range fc : is_write_function fc = true → 0 ≤ fc < 0x80.
Proof.
  unfold is_write_function, FC_WRITE_SINGLE_COIL, FC_WRITE_SINGLE_REGISTER,
    FC_WRITE_MULTIPLE_COILS, FC_WRITE_MULTIPLE_REGISTERS. lia.
Qed.

Lemma write_body_Ok fc off payload body :
  bytes_ok body →
  validate_write_body fc off payload body = Ok () ↔
  is_write_function fc = true ∧ (2 ≤ length payload)%nat ∧
  body = fc :: to_be_bytes 2 off ++ take 2 payload.
Proof.
  intros Hb. split.
  - destruct body as [|raw body]; [done|]. cbn [validate_write_body].
    apply Forall_cons in Hb as [Hraw _].
    case_if; [done|]. case_if; [by case_if|]. case_if; [done|]. intros H.
    apply invalid_frame_Ok, write_echo_accepted in H as [Hl ->].
    assert (raw = fc) as -> by (apply function_masks; [done|lia|lia]).
    by rewrite negb_false_iff in *.
  - intros (Hw & Hl & ->). destruct (land_function fc (is_write_function_range fc Hw)) as [H1 H2].
    cbn [validate_write_body]. rewrite H1, H2, Z.eqb_refl, Hw. cbn [negb].
    by apply invalid_frame_Ok, write_echo_accepted.
Qed.

Lemma read_body_errors fc q body e :
  tcp_check_read_body fc q body = Err e → transaction_error e.
Proof.
  unfold tcp_check_read_body. intros H. repeat case_match; simplify_eq; try by apply transport_level_errors.
  right. by eexists.
Qed.

Lemma write_body_errors fc off payload body e :
  validate_write_body fc off payload body = Err e → transaction_error e.
Proof.
  unfold validate_write_body. intros H.
  repeat case_match; simplify_eq; try by apply transport_level_errors.
  - right. by eexists.
  - unfold invalid_frame in H. destruct (validate_write_echo _ _ _); simplify_eq/=.
    apply transport_level_errors.
Qed.

Lemma check_bodies_no_panic fc q off payload body :
  tcp_check_read_body fc q body ≠ Panic ∧ validate_write_body fc off payload body ≠ Panic.
Proof.
  unfold tcp_check_read_body, validate_write_body, invalid_frame, validate_write_echo.
  split; no_panic.
Qed.

(** ** TCP *)
Section tcp_laws.
Context {W H Addr : Type} `{!ByteStream W H} `{!TcpNet W H Addr}.

(** The bytes of a successful exchange: the request went out, and a header
    with its transaction and unit came back, followed by the body. *)
Lemma tcp_exchange_Ok request unit (t : TcpTransport H) (w : W) s' body :
  tcp_exchange request unit (t, w) = (s', Ok body) ↔
  ∃ h w1 w2 w3 header n,
    tt_stream t = Some h ∧
    write_all h (request (wrap16 (tt_transaction_id t + 1))) w = (w1, inr ()) ∧
    read_exact h 7 w1 = (w2, inr header) ∧
    parse_tcp_response_header header =
      Ok {| trh_transaction_id := wrap16 (tt_transaction_id t + 1); trh_unit_id := unit;
            trh_data_len := n |} ∧
    read_exact h n w2 = (w3, inr body) ∧ s' = (tcp_next_transaction t, w3).
Proof.
  unfold tcp_exchange. set (t' := tcp_next_transaction t).
  rewrite (sbind_Ok _ _ _ (t', w) ()) by done. rewrite (sbind_Ok _ _ _ (t', w) (t', w)) by done.
  change (tt_transaction_id t') with (wrap16 (tt_transaction_id t + 1)).
  split.
  - intros E. inv_run; try done. unfold tcp_stream in Ha.
    destruct (tt_stream t) as [h|] eqn:Hh; cbn [fst t' tcp_next_transaction tt_stream] in Ha;
      rewrite Hh in Ha; [|done]. injection Ha as <- <-.
    apply io_Ok in Ha0 as (w1 & Hw & ->). destruct a0.
    unfold tcp_read_exact in Ha1, E. inv_run. unfold tcp_stream in Ha0, Ha.
    cbn [fst t' tcp_next_transaction tt_stream] in Ha0. rewrite Hh in Ha0.
    injection Ha0 as <- <-. apply io_Ok in Ha1 as (w2 & Hr & ->).
    apply slift_Ok in Ha2 as [Hp%invalid_frame_Ok ->].
    cbn [fst t' tcp_next_transaction tt_stream] in Ha. rewrite Hh in Ha. injection Ha as <- <-.
    apply io_Ok in E as (w3 & Hb & ->). destruct a2 as [tid u n]. cbn in *.
    rewrite negb_false_iff in *. exists h, w1, w2, w3, a1, n.
    repeat split; try done. rewrite Hp. repeat f_equal; lia.
  - intros (h & w1 & w2 & w3 & header & n & Hh & Hw & Hr & Hp & Hb & ->).
    assert (∀ w' : W, tcp_stream (t', w') = ((t', w'), Ok h)) as Hst.
    { intros w'. unfold tcp_stream. cbn. by rewrite Hh. }
    rewrite (sbind_Ok _ _ _ _ _ (Hst _)). rewrite (sbind_Ok _ _ _ (t', w1) ()).
    2:{ apply io_Ok. by exists w1. }
    rewrite (sbind_Ok _ _ _ (t', w2) header).
    2:{ unfold tcp_read_exact. rewrite (sbind_Ok _ _ _ _ _ (Hst _)). apply io_Ok. by exists w2. }
    erewrite (sbind_Ok _ _ _ (t', w2)).
    2:{ apply slift_Ok. split; [|done]. by apply invalid_frame_Ok. }
    cbn [trh_transaction_id trh_unit_id trh_data_len]. rewrite !Z.eqb_refl. cbn [negb].
    unfold tcp_read_exact. rewrite (sbind_Ok _ _ _ _ _ (Hst _)). apply io_Ok. by exists w3.
Qed.

Lemma tcp_exchange_safe request unit (s : TcpTransport H * W) :
  safe transaction_error (tcp_exchange request unit) s.
Proof.
  assert (∀ s, safe transaction_error (tcp_stream (W := W) (H := H)) s) as Hst.
  { intros [t w]. unfold safe, tcp_stream. cbn. destruct (tt_stream t); cbn; auto with session. }
  assert (∀ n s, safe transaction_error (tcp_read_exact (W := W) (H := H) n) s) as Hre.
  { intros n s'. unfold tcp_read_exact. apply safe_bind; [apply Hst|]. intros. auto with session. }
  unfold tcp_exchange. safe_walk; try destruct a0; safe_walk; try apply Hst; try apply Hre.
  all: safe_walk; auto with session.
Qed.

Lemma tcp_exchange_keeps request unit (s : TcpTransport H * W) :
  tt_stream (tcp_exchange request unit s).1.1 = tt_stream s.1.
Proof.
  assert (∀ o, keeps (λ s : TcpTransport H * W, tt_stream s.1 = o) (tcp_exchange request unit))
    as Hk; [|by apply Hk].
  intros o. unfold tcp_exchange, tcp_read_exact, tcp_stream.
  keeps_walk; try apply (keeps_io (λ t, tt_stream t = o)). by intros [t w].
Qed.

Lemma tcp_connect_safe (s : TcpTransport H * W) :
  safe (λ e, ModbusError.is_transport_level e = true) tcp_connect s.
Proof.
  assert (∀ h (op : W → W * io_result ()) (s : TcpTransport H * W),
    safe (λ e, ModbusError.is_transport_level e = true) (socket_option h op) s) as Hso.
  { intros h op [t w]. unfold safe, socket_option. by destruct (op w) as [w' [e|[]]]. }
  unfold tcp_connect. safe_walk; try apply Hso; try by auto with session.
  all: try match goal with |- safe _ _ ?s => destruct s as [t' w'] end.
  unfold safe. by destruct (try_addrs _ _ _).
Qed.

Lemma tcp_connect_connected (s s' : TcpTransport H * W) x :
  tcp_connect s = (s', Ok x) → tcp_is_connected s'.1 = true.
Proof.
  unfold tcp_connect. intros E. inv_run. destruct s as [t w].
  destruct (tt_stream t) eqn:Et.
  - inv_run. unfold tcp_is_connected. cbn. by rewrite Et.
  - inv_run. by destruct s3 as [t' w'].
Qed.

Lemma tcp_connect_failed (s s' : TcpTransport H * W) e :
  tcp_connect s = (s', Err e) → tcp_is_connected s'.1 = false.
Proof.
  unfold tcp_connect, sbind, sget. destruct s as [t w]. destruct (tt_stream t) eqn:Et; [done|].
  unfold io. destruct (to_socket_addrs _ _ _) as [w1 [e1|addrs]].
  { intros [= <- _]. unfold tcp_is_connected. cbn. by rewrite Et. }
  destruct (try_addrs _ _ _) as [w2 [h|]]; cbn.
  2:{ intros [= <- _]. unfold tcp_is_connected. cbn. by rewrite Et. }
  destruct (set_read_timeout _ _ _) as [w3 [e3|[]]].
  { intros [= <- _]. unfold tcp_is_connected. cbn. by rewrite Et. }
  cbn. destruct (set_write_timeout h (tt_timeout t) w3) as [w4 [e4|[]]]; [|done].
  intros [= <- _]. unfold tcp_is_connected. cbn. by rewrite Et.
Qed.

#[global] Instance tcp_transport_laws `{!ByteStreamLaws W H} :
  TransportLaws W (TcpTransport H).
Proof.
  split; cbn [tr_connect tr_is_connected tr_disconnect tr_read_transaction tr_write_transaction
              tcp_transport].
  - apply tcp_connect_connected.
  - apply tcp_connect_failed.
  - apply tcp_connect_safe.
  - done.
  - intros unit fc off q s. unfold tcp_read_transaction, tcp_is_connected, sbind.
    pose proof (tcp_exchange_keeps (λ tid, build_tcp_read_request tid unit fc off q) unit s) as Hk.
    destruct (tcp_exchange _ _ s) as [s1 [a|e|]]; cbn in *; by rewrite Hk.
  - intros unit fc off p s. unfold tcp_write_transaction, tcp_is_connected, sbind.
    pose proof (tcp_exchange_keeps (λ tid, build_tcp_write_request tid unit fc off p) unit s) as Hk.
    destruct (tcp_exchange _ _ s) as [s1 [a|e|]]; cbn in *; by rewrite Hk.
  - intros unit fc off q s _. apply safe_bind; [apply tcp_exchange_safe|]. intros s1 body _.
    apply safe_lift; [apply (check_bodies_no_panic fc q 0 [] body)|apply read_body_errors].
  - intros unit fc off p s. apply safe_bind; [apply tcp_exchange_safe|]. intros s1 body _.
    apply safe_lift; [apply (check_bodies_no_panic fc 0 off p body)|apply write_body_errors].
  - intros unit fc off q s s' data Hq _ E. unfold tcp_read_transaction in E. inv_run.
    destruct s as [t w]. apply tcp_exchange_Ok in Ha as (? & ? & ? & ? & ? & ? & _ & _ & _ & _ & Hb & _).
    apply read_exact_full in Hb as [_ Hb]. apply slift_Ok in E as [E _].
    unfold tcp_check_read_body in E. repeat case_match; simplify_eq.
    split; [|by apply (Forall_drop _ 2) in Hb]. pose proof (expected_data_len_nonneg fc q Hq).
    rewrite length_drop. simpl length in *. lia.
Qed.
End tcp_laws.

(** ** RTU *)
Section rtu_laws.
Context {W H : Type} `{!ByteStream W H} `{!SerialNet W H}.

(** The bytes of a successful exchange: a two-byte head of the right unit,
    then exactly the rest of the frame its function announces, with a valid
    checksum. *)
Lemma rtu_exchange_Ok request unit fc q (t : RtuTransport H) (w : W) s' frame meta :
  rtu_exchange request unit fc q (t, w) = (s', Ok (frame, meta)) ↔
  ∃ h w1 w2 w3 head rest total,
    rt_port t = Some h ∧ write_all h request w = (w1, inr ()) ∧
    read_exact h 2 w1 = (w2, inr head) ∧ head !!! 0%nat = unit ∧
    rtu_response_total_len head fc q = Ok total ∧
    read_exact h (total - 2) w2 = (w3, inr rest) ∧
    frame = head ++ rest ∧ verify frame = true ∧ parse_rtu_response_meta frame = Ok meta ∧
    rrm_function meta = fc ∧ s' = (t, w3).
Proof.
  unfold rtu_exchange, rtu_read_exact.
  assert (∀ h, rt_port t = Some h → ∀ w' : W, rtu_port (t, w') = ((t, w'), Ok h)) as Hst.
  { intros h Hh w'. unfold rtu_port. cbn. by rewrite Hh. }
  split.
  - intros E. inv_run; try done. unfold rtu_port in Ha.
    destruct (rt_port t) as [h|] eqn:Hh; cbn [fst] in Ha; rewrite Hh in Ha; [|done].
    injection Ha as <- <-. apply io_Ok in Ha0 as (w1 & Hw & ->). destruct a0.
    rewrite (Hst h eq_refl) in Ha2. injection Ha2 as <- <-.
    apply io_Ok in Ha1 as (w2 & Hr & ->). apply slift_Ok in Ha3 as [Ht%invalid_frame_Ok ->].
    rewrite (Hst h eq_refl) in Ha5. injection Ha5 as <- <-.
    apply io_Ok in Ha4 as (w3 & Hb & ->). apply slift_Ok in Ha6 as [Hm%invalid_frame_Ok ->].
    rewrite negb_false_iff in *. subst a6. exists h, w1, w2, w3, a1, a4, a3.
    repeat split; try done; lia.
  - intros (h & w1 & w2 & w3 & head & rest & total & Hh & Hw & Hr & Hu & Ht & Hb & -> & Hv & Hm
            & Hf & ->).
    specialize (Hst h Hh). rewrite (sbind_Ok _ _ _ _ _ (Hst _)).
    rewrite (sbind_Ok _ _ _ (t, w1) ()) by (apply io_Ok; by exists w1).
    rewrite (sbind_Ok _ _ _ (t, w2) head).
    2:{ rewrite (sbind_Ok _ _ _ _ _ (Hst _)). apply io_Ok. by exists w2. }
    rewrite Hu, Z.eqb_refl. cbn [negb].
    rewrite (sbind_Ok _ _ _ (t, w2) total).
    2:{ apply slift_Ok. split; [|done]. by apply invalid_frame_Ok. }
    rewrite (sbind_Ok _ _ _ (t, w3) rest).
    2:{ rewrite (sbind_Ok _ _ _ _ _ (Hst _)). apply io_Ok. by exists w3. }
    rewrite Hv. cbn [negb]. rewrite (sbind_Ok _ _ _ (t, w3) meta).
    2:{ apply slift_Ok. split; [|done]. by apply invalid_frame_Ok. }
    by rewrite Hf, Z.eqb_refl.
Qed.

Context `{!ByteStreamLaws W H}.

(** The frame length is the announced one, so no index is out of range. *)
Lemma rtu_exchange_length request unit fc q (s s' : RtuTransport H * W) frame meta :
  0 ≤ q → rtu_exchange request unit fc q s = (s', Ok (frame, meta)) →
  (5 ≤ length frame)%nat ∧ bytes_ok frame ∧
  rtu_response_total_len frame fc q = Ok (length frame).
Proof using All.
  intros Hq E. destruct s as [t w].
  apply rtu_exchange_Ok in E as (h & w1 & w2 & w3 & head & rest & total & _ & _ & Hr & _ & Ht & Hb
    & -> & _).
  apply read_exact_full in Hr as [Hl1 Hb1]. apply read_exact_full in Hb as [Hl2 Hb2].
  pose proof (rtu_total_len_at_least_5 _ _ _ _ Hq Ht).
  assert (length (head ++ rest) = total) as Hl by (rewrite length_app; lia).
  split; [lia|]. split; [by apply Forall_app|]. rewrite Hl.
  destruct head as [|u [|f [|? ?]]]; try done.
Qed.

Lemma rtu_exchange_safe request unit fc q (s : RtuTransport H * W) :
  0 ≤ q → safe transaction_error (rtu_exchange request unit fc q) s.
Proof using All.
  intros Hq.
  assert (∀ s, safe transaction_error (rtu_port (W := W) (H := H)) s) as Hst.
  { intros [t w]. unfold safe, rtu_port. cbn. destruct (rt_port t); cbn; auto with session. }
  assert (∀ n s, safe transaction_error (rtu_read_exact (W := W) (H := H) n) s) as Hre.
  { intros n s'. unfold rtu_read_exact. apply safe_bind; [apply Hst|]. intros. auto with session. }
  assert (∀ n s s' bs, rtu_read_exact (W := W) (H := H) n s = (s', Ok bs) → length bs = n) as Hlen.
  { intros n [t w] s' bs E. unfold rtu_read_exact in E. inv_run. destruct s0 as [t0 w0].
    apply io_Ok in E as (w' & E & _). by apply read_exact_full in E as [? _]. }
  unfold rtu_exchange.
  apply safe_bind; [apply Hst|]. intros s1 h _. apply safe_bind; [auto with session|].
  intros s2 [] _. apply safe_bind; [apply Hre|]. intros s3 head Hhead.
  case_if; [auto with session|]. apply safe_bind; [auto with session|]. intros s4 total Htot.
  apply safe_bind; [apply Hre|]. intros s5 rest Hrest. cbv zeta. case_if; [auto with session|].
  apply slift_Ok in Htot as [Htot%invalid_frame_Ok ->].
  pose proof (rtu_total_len_at_least_5 _ _ _ _ Hq Htot).
  apply Hlen in Hhead, Hrest.
  apply safe_bind; [|intros s6 meta _; safe_walk].
  apply safe_lift_frame, parse_rtu_response_meta_no_panic. rewrite length_app. lia.
Qed.

Lemma rtu_exchange_keeps request unit fc q (s : RtuTransport H * W) :
  rt_port (rtu_exchange request unit fc q s).1.1 = rt_port s.1.
Proof.
  assert (∀ o, keeps (λ s : RtuTransport H * W, rt_port s.1 = o) (rtu_exchange request unit fc q))
    as Hk; [|by apply Hk].
  intros o. unfold rtu_exchange, rtu_read_exact, rtu_port.
  keeps_walk; apply (keeps_io (λ t, rt_port t = o)).
Qed.

(** A normal response: its function is the request's and its length is
    fixed by the request. *)
Lemma rtu_frame_shape frame fc q meta :
  bytes_ok frame → 0 ≤ q → (5 ≤ length frame)%nat →
  rtu_response_total_len frame fc q = Ok (length frame) →
  parse_rtu_response_meta frame = Ok meta → rrm_is_exception meta = false →
  frame !!! 1%nat = fc ∧
  Z.of_nat (length frame) =
    (if is_write_function fc then 4 + expected_data_len fc q else 5 + expected_data_len fc q).
Proof.
  intros Hb Hq Hl Ht Hm He. unfold parse_rtu_response_meta in Hm.
  replace (length frame <? 4)%nat with false in Hm by lia.
  replace (length frame <? 5)%nat with false in Hm by lia. inv_ok. subst meta. cbn in He.
  unfold rtu_response_total_len in Ht. replace (length frame <? 2)%nat with false in Ht by lia.
  rewrite He in Ht. destruct (negb (Z.land (frame !!! 1%nat) 127 =? fc)) eqn:Hne; [done|].
  injection Ht as Ht.
  assert (frame !!! 1%nat = fc) as Hfc.
  { apply function_masks; [|lia|lia].
    apply (Forall_lookup_total_1 _ _ _ Hb). lia. }
  split; [done|].
  assert (Z.land (frame !!! 1%nat) 127 = fc) as Hmask by lia.
  pose proof (expected_data_len_nonneg fc q Hq). rewrite Hmask in Ht. cbv iota in Ht.
  destruct (is_write_function fc); lia.
Qed.

(** The function and length of a well-formed response are accepted. *)
Lemma rtu_frame_accepted unit fc q data :
  0 ≤ fc < 0x80 → 0 ≤ q → (5 ≤ length (unit :: fc :: data))%nat →
  Z.of_nat (length (unit :: fc :: data)) =
    (if is_write_function fc then 4 + expected_data_len fc q else 5 + expected_data_len fc q) →
  rtu_response_total_len [unit; fc] fc q = Ok (length (unit :: fc :: data)) ∧
  ∃ meta, parse_rtu_response_meta (unit :: fc :: data) = Ok meta ∧ rrm_function meta = fc ∧
    rrm_is_exception meta = false.
Proof.
  intros Hf Hq Hl Hlen. destruct (land_function fc Hf) as [H1 H2].
  pose proof (expected_data_len_nonneg fc q Hq). split.
  - unfold rtu_response_total_len. change ([unit; fc] !!! 1%nat) with fc. cbn [length Nat.ltb Nat.leb].
    rewrite H1, H2, Z.eqb_refl. cbn [negb Z.eqb]. f_equal. revert Hlen. cbn [length].
    case_if; lia.
  - unfold parse_rtu_response_meta. change ((unit :: fc :: data) !!! 1%nat) with fc.
    replace (length (unit :: fc :: data) <? 4)%nat with false by lia.
    replace (length (unit :: fc :: data) <? 5)%nat with false by lia. rewrite H1, H2.
    by eexists.
Qed.

#[global] Instance rtu_transport_laws : TransportLaws W (RtuTransport H).
Proof using All.
  split; cbn [tr_connect tr_is_connected tr_disconnect tr_read_transaction tr_write_transaction
              rtu_transport].
  - intros s s' x E. unfold rtu_connect in E. inv_run. destruct s as [t w].
    destruct (rt_port t) eqn:Et.
    + inv_run. unfold rtu_is_connected. cbn. by rewrite Et.
    + inv_run. match goal with |- context [smodify _ ?p] => by destruct p
               | |- context [match ?p with _ => _ end] => by destruct p end.
  - intros [t w] s' e. unfold rtu_connect, sbind, sget. destruct (rt_port t) eqn:Et; [done|].
    unfold io. destruct (open_port _ _) as [w1 [e1|h]]; [|done]. intros [= <- _].
    unfold rtu_is_connected. cbn. by rewrite Et.
  - intros s. unfold rtu_connect. safe_walk.
  - done.
  - intros unit fc off q s. unfold rtu_read_transaction, rtu_is_connected, sbind.
    pose proof (rtu_exchange_keeps (build_rtu_read_request unit fc off q) unit fc q s) as Hk.
    rewrite <- Hk. destruct (rtu_exchange _ _ _ _ s) as [s1 [[f m]|e|]]; [|done..].
    destruct (rrm_is_exception m); [done|]. by destruct (negb _).
  - intros unit fc off p s. unfold rtu_write_transaction, rtu_is_connected, sbind.
    pose proof (rtu_exchange_keeps (build_rtu_write_request unit fc off p) unit fc 0 s) as Hk.
    rewrite <- Hk. destruct (rtu_exchange _ _ _ _ s) as [s1 [[f m]|e|]]; [|done..].
    by destruct (rrm_is_exception m).
  - intros unit fc off q s Hq. apply safe_bind; [by apply rtu_exchange_safe|]. intros s1 [f m] _.
    case_if; [apply safe_fail; right; by eexists|]. cbv zeta. safe_walk.
  - intros unit fc off p s. apply safe_bind; [by apply rtu_exchange_safe|]. intros s1 [f m] _.
    case_if; [apply safe_fail; right; by eexists|].
    apply safe_lift; [apply (check_bodies_no_panic fc 0 off p _)|apply write_body_errors].
  - intros unit fc off q s s' data Hq Hnw E. unfold rtu_read_transaction in E. inv_run.
    destruct a as [f m]. inv_run; try done.
    destruct (rtu_exchange_length _ _ _ _ _ _ _ _ Hq Ha) as (Hl & Hb & Ht).
    destruct s as [t w].
    apply rtu_exchange_Ok in Ha as (? & ? & ? & ? & ? & ? & ? & _ & _ & _ & _ & _ & _ & _ & _ & Hm & _).
    destruct (rtu_frame_shape _ _ _ _ Hb Hq Hl Ht Hm Heqb) as [_ Hlen].
    split; [|unfold slice; by auto with bytes]. unfold slice. rewrite length_take, length_drop.
    pose proof (expected_data_len_nonneg fc q Hq). rewrite Hnw in Hlen. lia.
Qed.
End rtu_laws.

(** ** The boxed transport *)
#[global] Instance any_transport_laws {W H HS Addr : Type} `{!ByteStream W H} `{!TcpNet W H Addr}
    `{!ByteStream W HS} `{!SerialNet W HS} `{!ByteStreamLaws W H} `{!ByteStreamLaws W HS} :
  TransportLaws W (AnyTransport H HS).
Proof.
  assert (∀ A (mt : stm (TcpTransport H * W) ModbusError.t A) (mr : stm (RtuTransport HS * W) _ A) t w,
    dispatch mt mr (t, w) =
      match t with
      | Tcp t => let r := mt (t, w) in ((Tcp r.1.1, r.1.2), r.2)
      | Rtu t => let r := mr (t, w) in ((Rtu r.1.1, r.1.2), r.2)
      end) as Hd.
  { intros A mt mr [t|t] w; cbn; [destruct (mt (t, w)) as [[] ?]|destruct (mr (t, w)) as [[] ?]]; done. }
  split; cbn [tr_connect tr_is_connected tr_disconnect tr_read_transaction tr_write_transaction
              any_transport].
  - intros [[t|t] w] s' x; rewrite Hd; cbv zeta; destruct (tr_connect (t, w)) as [s1 r] eqn:E;
      cbn [fst snd]; intros [= <- ->]; exact (connect_connected _ _ _ E).
  - intros [[t|t] w] s' x; rewrite Hd; cbv zeta; destruct (tr_connect (t, w)) as [s1 r] eqn:E;
      cbn [fst snd]; intros [= <- ->]; exact (connect_failed _ _ _ E).
  - intros [[t|t] w]; unfold safe; rewrite Hd; cbv zeta; cbn [snd]; apply connect_safe.
  - intros [[t|t] w].
    + pose proof (disconnect_disconnected (t, w)) as Hc. by destruct (tr_disconnect (t, w)).
    + pose proof (disconnect_disconnected (t, w)) as Hc. by destruct (tr_disconnect (t, w)).
  - intros unit fc off q [[t|t] w]; rewrite Hd; cbv zeta; cbn [fst]; apply read_keeps_connection.
  - intros unit fc off p [[t|t] w]; rewrite Hd; cbv zeta; cbn [fst]; apply write_keeps_connection.
  - intros unit fc off q [[t|t] w] Hq; unfold safe; rewrite Hd; cbv zeta; cbn [snd];
      by apply read_safe.
  - intros unit fc off p [[t|t] w]; unfold safe; rewrite Hd; cbv zeta; cbn [snd];
      by apply write_safe.
  - intros unit fc off q [[t|t] w] s' data Hq Hw; rewrite Hd; cbv zeta;
      destruct (tr_read_transaction unit fc off q (t, w)) as [s1 r] eqn:E;
      cbn [fst snd]; intros [= _ ->]; exact (read_data_ok _ _ _ _ _ _ _ Hq Hw E).
Qed.

(** ** The theorems *)
Section tcp_theorems.
Context {W H Addr : Type} `{!ByteStream W H} `{!TcpNet W H Addr} `{!ByteStreamLaws W H}.

(** A TCP read succeeds exactly when the stream accepts the request and
    answers with a header of the same transaction and unit followed by the
    function, the byte count and the expected number of data bytes: no
    foreign, truncated or oversized response is ever taken for data, and no
    correct one is refused. *)
Theorem tcp_read_transaction_iff unit fc off q (t : TcpTransport H) (w : W) s' data :
  0 ≤ fc < 0x80 → 0 ≤ q →
  tcp_read_transaction unit fc off q (t, w) = (s', Ok data) ↔
  let tid := wrap16 (tt_transaction_id t + 1) in
  ∃ h w1 w2 w3 header,
    tt_stream t = Some h ∧
    write_all h (build_tcp_read_request tid unit fc off q) w = (w1, inr ()) ∧
    read_exact h 7 w1 = (w2, inr header) ∧
    parse_tcp_response_header header =
      Ok {| trh_transaction_id := tid; trh_unit_id := unit;
            trh_data_len := length data + 2 |} ∧
    read_exact h (length data + 2) w2 = (w3, inr (fc :: Z.of_nat (length data) :: data)) ∧
    Z.of_nat (length data) = expected_data_len fc q ∧ s' = (tcp_next_transaction t, w3).
Proof using All.
  intros Hf Hq. cbv zeta. split.
  - intros E. unfold tcp_read_transaction in E. inv_run.
    apply tcp_exchange_Ok in Ha as (h & w1 & w2 & w3 & header & n & Hh & Hw & Hr & Hp & Hb & ->).
    apply read_exact_full in Hb as Hb'. destruct Hb' as [Hn Hok].
    apply slift_Ok in E as [E ->]. apply read_body_Ok in E as [Hl ->]; [|done..].
    exists h, w1, w2, w3, header. simpl in Hn. replace (length data + 2)%nat with n by lia. done.
  - intros (h & w1 & w2 & w3 & header & Hh & Hw & Hr & Hp & Hb & Hl & ->).
    apply read_exact_full in Hb as Hb'. destruct Hb' as [_ Hok].
    unfold tcp_read_transaction. erewrite sbind_Ok.
    2:{ apply tcp_exchange_Ok. by exists h, w1, w2, w3, header, (length data + 2)%nat. }
    apply slift_Ok. split; [|done]. by apply read_body_Ok.
Qed.

(** A TCP write is confirmed exactly when the answer carries the same
    transaction and unit and echoes the function, the address and the first
    two payload bytes. *)
Theorem tcp_write_transaction_iff unit fc off payload (t : TcpTransport H) (w : W) s' :
  is_write_function fc = true → (2 ≤ length payload)%nat →
  tcp_write_transaction unit fc off payload (t, w) = (s', Ok ()) ↔
  let tid := wrap16 (tt_transaction_id t + 1) in
  ∃ h w1 w2 w3 header,
    tt_stream t = Some h ∧
    write_all h (build_tcp_write_request tid unit fc off payload) w = (w1, inr ()) ∧
    read_exact h 7 w1 = (w2, inr header) ∧
    parse_tcp_response_header header =
      Ok {| trh_transaction_id := tid; trh_unit_id := unit; trh_data_len := 5 |} ∧
    read_exact h 5 w2 = (w3, inr (fc :: to_be_bytes 2 off ++ take 2 payload)) ∧
    s' = (tcp_next_transaction t, w3).
Proof using All.
  intros Hf Hpl. cbv zeta.
  assert (length (fc :: to_be_bytes 2 off ++ take 2 payload) = 5)%nat as H5.
  { cbn [length]. rewrite length_app, length_to_be_bytes, length_take. lia. }
  split.
  - intros E. unfold tcp_write_transaction in E. inv_run.
    apply tcp_exchange_Ok in Ha as (h & w1 & w2 & w3 & header & n & Hh & Hw & Hr & Hp & Hb & ->).
    apply read_exact_full in Hb as Hb'. destruct Hb' as [Hn Hok].
    apply slift_Ok in E as [E ->]. apply write_body_Ok in E as (_ & _ & ->); [|done].
    rewrite H5 in Hn. subst n. by exists h, w1, w2, w3, header.
  - intros (h & w1 & w2 & w3 & header & Hh & Hw & Hr & Hp & Hb & ->).
    apply read_exact_full in Hb as Hb'. destruct Hb' as [_ Hok].
    unfold tcp_write_transaction. erewrite sbind_Ok.
    2:{ apply tcp_exchange_Ok. by exists h, w1, w2, w3, header, 5%nat. }
    apply slift_Ok. split; [|done]. by apply write_body_Ok.
Qed.
End tcp_theorems.

(** The bytes between the unit and the checksum. *)
Lemma with_crc_body unit p :
  slice 1 (length (with_crc (unit :: p)) - 2) (with_crc (unit :: p)) = p.
Proof.
  unfold slice. rewrite length_with_crc. unfold with_crc. cbn [length app drop]. rewrite drop_0.
  apply take_app_exact. lia.
Qed.

Section rtu_theorems.
Context {W H : Type} `{!ByteStream W H} `{!SerialNet W H} `{!ByteStreamLaws W H}.

(** A frame that passed the exchange as a normal response, split into its
    fields. *)
Lemma rtu_normal_frame request unit fc q (t : RtuTransport H) (w : W) s' frame meta :
  0 ≤ q → rtu_exchange request unit fc q (t, w) = (s', Ok (frame, meta)) →
  rrm_is_exception meta = false →
  ∃ h w1 w2 w3 p,
    rt_port t = Some h ∧ write_all h request w = (w1, inr ()) ∧
    read_exact h 2 w1 = (w2, inr [unit; fc]) ∧
    read_exact h (length p + 2) w2 = (w3, inr (drop 2 (with_crc (unit :: fc :: p)))) ∧
    frame = with_crc (unit :: fc :: p) ∧ bytes_ok (unit :: fc :: p) ∧
    Z.of_nat (length p) =
      (if is_write_function fc then expected_data_len fc q else 1 + expected_data_len fc q) ∧
    s' = (t, w3).
Proof using All.
  intros Hq E Hne.
  destruct (rtu_exchange_length _ _ _ _ _ _ _ _ Hq E) as (Hl & Hb & Ht).
  apply rtu_exchange_Ok in E as (h & w1 & w2 & w3 & head & rest & total & Hh & Hw & Hr & Hu & Htot
    & Hrest & -> & Hv & Hm & Hf & ->).
  destruct (rtu_frame_shape _ _ _ _ Hb Hq Hl Ht Hm Hne) as [Hfc Hlen].
  apply read_exact_full in Hr as Hr'. destruct Hr' as [Hl1 _].
  apply read_exact_full in Hrest as Hrest'. destruct Hrest' as [Hl2 _].
  destruct head as [|u [|f [|? ?]]]; try done. cbn in Hu, Hfc. subst u f.
  apply verify_with_crc_inv in Hv as (p & Hp & Hpok); [|done].
  assert (length ([unit; fc] ++ rest) = length p + 2)%nat as Hpl
    by (by rewrite Hp, length_with_crc).
  pose proof (expected_data_len_nonneg fc q Hq).
  destruct p as [|a [|b p]]; cbn [length] in *; try (destruct (is_write_function fc); lia).
  unfold with_crc in Hp. injection Hp as <- <- Hrest'. fold (with_crc (unit :: fc :: p)).
  exists h, w1, w2, w3, p. repeat split; try done.
  - unfold with_crc. cbn [app drop]. rewrite drop_0, <- Hrest'.
    replace (length p + 2)%nat with (total - 2)%nat; [done|].
    rewrite <- Hl2, Hrest', length_app, length_to_le_bytes. done.
  - by rewrite Hrest'.
  - destruct (is_write_function fc); lia.
Qed.

Lemma rtu_normal_exchange request unit fc q (t : RtuTransport H) (w w1 w2 w3 : W) h p :
  0 ≤ fc < 0x80 → 0 ≤ q → bytes_ok (unit :: fc :: p) →
  Z.of_nat (length p) =
    (if is_write_function fc then expected_data_len fc q else 1 + expected_data_len fc q) →
  rt_port t = Some h → write_all h request w = (w1, inr ()) →
  read_exact h 2 w1 = (w2, inr [unit; fc]) →
  read_exact h (length p + 2) w2 = (w3, inr (drop 2 (with_crc (unit :: fc :: p)))) →
  ∃ meta, rtu_exchange request unit fc q (t, w) = ((t, w3), Ok (with_crc (unit :: fc :: p), meta)) ∧
    rrm_is_exception meta = false.
Proof using All.
  intros Hf Hq Hb Hl Hh Hw Hr Hrest. pose proof (expected_data_len_nonneg fc q Hq).
  assert (with_crc (unit :: fc :: p) = unit :: fc :: drop 2 (with_crc (unit :: fc :: p))) as Heq
    by done.
  destruct (rtu_frame_accepted unit fc q (drop 2 (with_crc (unit :: fc :: p))) Hf Hq)
    as (Ht & meta & Hm & Hfn & He).
  { assert (1 ≤ length p)%nat; [|rewrite <- Heq, length_with_crc; cbn [length]; lia].
    destruct (is_write_function fc) eqn:Hwf; [|lia]. rewrite expected_write_len in Hl by done. lia. }
  { rewrite <- Heq, length_with_crc. cbn [length]. destruct (is_write_function fc); lia. }
  exists meta. split; [|done]. apply rtu_exchange_Ok.
  exists h, w1, w2, w3, [unit; fc], (drop 2 (with_crc (unit :: fc :: p))).
  eexists. repeat split; try done.
  - replace (length _ - 2)%nat with (length p + 2)%nat; [done|].
    change (unit :: fc :: drop 2 (with_crc (unit :: fc :: p))) with (with_crc (unit :: fc :: p)).
    rewrite length_with_crc. cbn [length]. lia.
  - by apply verify_with_crc.
Qed.

(** An RTU read succeeds exactly when the line answers with the unit,
    the function, the byte count and the expected data, followed by the
    checksum of all of it. *)
Theorem rtu_read_transaction_iff unit fc off q (t : RtuTransport H) (w : W) s' data :
  0 ≤ fc < 0x80 → is_write_function fc = false → 0 ≤ q →
  bytes_ok (unit :: fc :: Z.of_nat (length data) :: data) →
  rtu_read_transaction unit fc off q (t, w) = (s', Ok data) ↔
  ∃ h w1 w2 w3,
    rt_port t = Some h ∧
    write_all h (build_rtu_read_request unit fc off q) w = (w1, inr ()) ∧
    read_exact h 2 w1 = (w2, inr [unit; fc]) ∧
    read_exact h (length data + 3) w2 =
      (w3, inr (drop 2 (with_crc (unit :: fc :: Z.of_nat (length data) :: data)))) ∧
    Z.of_nat (length data) = expected_data_len fc q ∧ s' = (t, w3).
Proof using All.
  intros Hf Hnw Hq Hok. split.
  - intros E. unfold rtu_read_transaction in E.
    apply sbind_Ok_inv in E as (s1 & [frame meta] & Ha & E).
    destruct (rrm_is_exception meta) eqn:Hex; [done|]. cbv zeta in E.
    destruct (negb _) eqn:Hbc; [done|]. injection E as <- Hd.
    apply rtu_normal_frame in Ha as (h & w1 & w2 & w3 & p & Hh & Hw & Hr & Hrest & -> & _ & Hl & ->);
      [|done|done].
    rewrite Hnw in Hl. destruct p as [|bc p]; cbn [length] in *;
      [pose proof (expected_data_len_nonneg fc q Hq); lia|].
    unfold slice, with_crc in Hd. rewrite length_app in Hd. cbn [length app drop] in Hd.
    rewrite drop_0 in Hd.
    rewrite take_app_exact in Hd by (rewrite length_to_le_bytes; cbn; lia). subst p.
    cbn in Hbc. rewrite negb_false_iff in Hbc.
    assert (bc = Z.of_nat (length data)) as -> by lia.
    exists h, w1, w2, w3. replace (length data + 3)%nat with (S (length data) + 2)%nat by lia.
    repeat split; try done; lia.
  - intros (h & w1 & w2 & w3 & Hh & Hw & Hr & Hrest & Hl & ->).
    destruct (rtu_normal_exchange (build_rtu_read_request unit fc off q) unit fc q t w w1 w2 w3 h
      (Z.of_nat (length data) :: data)) as (meta & E & He); try done.
    { rewrite Hnw. cbn [length]. lia. }
    { cbn [length]. by replace (S (length data) + 2)%nat with (length data + 3)%nat by lia. }
    unfold rtu_read_transaction. rewrite (sbind_Ok _ _ _ _ _ E), He. cbv zeta.
    change (with_crc (unit :: fc :: Z.of_nat (length data) :: data) !!! 2%nat)
      with (Z.of_nat (length data)).
    rewrite Hl, Z.eqb_refl. cbn [negb]. unfold sret. do 2 f_equal. rewrite <- Hl.
    unfold slice. rewrite length_with_crc. unfold with_crc. cbn [length app drop].
    apply take_app_exact. lia.
Qed.

(** An RTU write is confirmed exactly when the line echoes the unit, the
    function, the address and the first two payload bytes with a valid
    checksum. *)
Theorem rtu_write_transaction_iff unit fc off payload (t : RtuTransport H) (w : W) s' :
  is_write_function fc = true → (2 ≤ length payload)%nat → byte_ok unit → bytes_ok payload →
  rtu_write_transaction unit fc off payload (t, w) = (s', Ok ()) ↔
  ∃ h w1 w2 w3,
    rt_port t = Some h ∧
    write_all h (build_rtu_write_request unit fc off payload) w = (w1, inr ()) ∧
    read_exact h 2 w1 = (w2, inr [unit; fc]) ∧
    read_exact h 6 w2 =
      (w3, inr (drop 2 (with_crc (unit :: fc :: to_be_bytes 2 off ++ take 2 payload)))) ∧
    s' = (t, w3).
Proof using All.
  intros Hwf Hpl Hu Hpok. pose proof (is_write_function_range fc Hwf) as Hf.
  set (p := to_be_bytes 2 off ++ take 2 payload).
  assert (length p = 4)%nat as Hp4.
  { unfold p. rewrite length_app, length_to_be_bytes, length_take. lia. }
  assert (bytes_ok (unit :: fc :: p)) as Hok.
  { constructor; [done|]. constructor; [unfold byte_ok; lia|]. unfold p. auto with bytes. }
  split.
  - intros E. unfold rtu_write_transaction in E. inv_run. destruct a as [frame meta]. inv_run; try done.
    apply rtu_normal_frame in Ha as (h & w1 & w2 & w3 & p' & Hh & Hw & Hr & Hrest & -> & Hbs & Hl & ->);
      [|lia|done].
    apply slift_Ok in E as [E ->]. exists h, w1, w2, w3.
    rewrite with_crc_body in E. apply write_body_Ok in E as (_ & _ & E).
    2:{ by apply Forall_cons in Hbs as [_ ?]. }
    assert (p' = p) as -> by exact (f_equal tail E). by rewrite Hp4 in Hrest.
  - intros (h & w1 & w2 & w3 & Hh & Hw & Hr & Hrest & ->).
    destruct (rtu_normal_exchange (build_rtu_write_request unit fc off payload) unit fc 0 t w w1 w2 w3 h
      p) as (meta & E & He); try done.
    { by rewrite Hwf, Hp4, expected_write_len. }
    { by rewrite Hp4. }
    unfold rtu_write_transaction. rewrite (sbind_Ok _ _ _ _ _ E), He.
    rewrite with_crc_body. apply slift_Ok. split; [|done].
    apply write_body_Ok; [by apply Forall_cons in Hok as [_ ?]|done].
Qed.
End rtu_theorems.
