(* ===== verification/ModbusMock.v ===== *)
(** * The Modbus TCP slave: crates/modbus-mock/src/lib.rs

    The in-process slave the driver is tested against: its register bank, the
    request loop of one connection ([handle_connection]) and the responses it
    sends.  It is the device of the end-to-end theorems.

    One iteration of the loop is [handle_request]; the listener thread, the
    lock around the shared behaviour and the sleep of [response_delay] are not
    modelled (one connection at a time, the behaviour unchanged during the
    sleep).  The [stop] flag and failures of [write_all] are inputs of
    [handle_connection]. *)

From S2P Require Import Prelude RustStd ModbusAddress ModbusFrame ModbusCodec.
From stdpp Require Import options.

Module Kind.
Inductive t : Type := Coil | DiscreteInput | InputRegister | HoldingRegister.

#[global] Instance t_eq_dec : EqDecision t.
Proof. solve_decision. Defined.

Definition index (k : t) : nat :=
  match k with Coil => 0 | DiscreteInput => 1 | InputRegister => 2 | HoldingRegister => 3 end.
Definition of_index (n : nat) : option t :=
  [Coil; DiscreteInput; InputRegister; HoldingRegister] !! n.

#[global] Program Instance t_countable : Countable t :=
  inj_countable index of_index _.
Next Obligation. by intros []. Qed.
End Kind.

(** [(unit, kind, offset)] *)
Abbreviation AddrKey := (Z * Kind.t * Z)%type.

Module MalformedException.
Inductive t : Type := MissingCode | ExtraByte.
End MalformedException.

Record WriteRecord : Type := mkWriteRecord {
  wrec_unit : Z;
  wrec_function : Z;
  wrec_start_offset : Z;
  wrec_quantity : Z;
}.

Record MockBehavior : Type := mkMockBehavior {
  values : gmap AddrKey Z;
  exception_at : gmap AddrKey Z;
  drop_connection : bool;
  timeout_rate : option (Z * Z);
  declare_wrong_byte_count : bool;
  malformed_exception : option MalformedException.t;
  request_count : Z;
  captured_writes : list WriteRecord;
}.

(** [MockBehavior::new] *)
Definition mock_new : MockBehavior :=
  {| values := ∅; exception_at := ∅; drop_connection := false; timeout_rate := None;
     declare_wrong_byte_count := false; malformed_exception := None; request_count := 0;
     captured_writes := [] |}.

Definition set_values (f : gmap AddrKey Z → gmap AddrKey Z) (b : MockBehavior) : MockBehavior :=
  {| values := f (values b); exception_at := exception_at b;
     drop_connection := drop_connection b; timeout_rate := timeout_rate b;
     declare_wrong_byte_count := declare_wrong_byte_count b;
     malformed_exception := malformed_exception b; request_count := request_count b;
     captured_writes := captured_writes b |}.

(** [fetch_add(1)] on the request counter. *)
Definition count_request (b : MockBehavior) : MockBehavior :=
  {| values := values b; exception_at := exception_at b;
     drop_connection := drop_connection b; timeout_rate := timeout_rate b;
     declare_wrong_byte_count := declare_wrong_byte_count b;
     malformed_exception := malformed_exception b; request_count := wrap32 (request_count b + 1);
     captured_writes := captured_writes b |}.

Definition capture_write (r : WriteRecord) (b : MockBehavior) : MockBehavior :=
  {| values := values b; exception_at := exception_at b;
     drop_connection := drop_connection b; timeout_rate := timeout_rate b;
     declare_wrong_byte_count := declare_wrong_byte_count b;
     malformed_exception := malformed_exception b; request_count := request_count b;
     captured_writes := captured_writes b ++ [r] |}.

(** [for offset in 0..n { values.insert((unit, kind, start + offset), f offset) }] *)
Fixpoint insert_cells (unit : Z) (k : Kind.t) (start : Z) (f : nat → Z) (n : nat)
    (m : gmap AddrKey Z) : gmap AddrKey Z :=
  match n with
  | O => m
  | S n' =>
      <[(unit, k, wrap16 (start + Z.of_nat n')) := f n']> (insert_cells unit k start f n' m)
  end.

(** [with_holding_range], [with_input_range] and [with_coil_range]. *)
Definition with_range (k : Kind.t) (unit start : Z) (vs : list Z) (b : MockBehavior) :
    MockBehavior :=
  set_values (insert_cells unit k start (λ i, vs !!! i) (length vs)) b.
Definition with_holding_range := with_range Kind.HoldingRegister.
Definition with_input_range := with_range Kind.InputRegister.
Definition with_coil_range (unit start : Z) (bits : list bool) : MockBehavior → MockBehavior :=
  with_range Kind.Coil unit start (Z.b2z <$> bits).

(** The pseudo-random sequence of the timeout injection. *)
Module XorShift32.
Definition new (unit : Z) : Z := Z.lor (Z.lxor unit 0x9E3779B9) 1.
Definition next (x : Z) : Z :=
  let x := Z.lxor x (wrap32 (Z.shiftl x 13)) in
  let x := Z.lxor x (Z.shiftr x 17) in
  Z.lxor x (wrap32 (Z.shiftl x 5)).
End XorShift32.

Definition kind_of (function : Z) : option Kind.t :=
  if (function =? 0x01) || (function =? 0x05) || (function =? 0x0F) then Some Kind.Coil
  else if function =? 0x02 then Some Kind.DiscreteInput
  else if (function =? 0x03) || (function =? 0x06) || (function =? 0x10)
  then Some Kind.HoldingRegister
  else if function =? 0x04 then Some Kind.InputRegister
  else None.

Definition mock_is_write_function (function : Z) : bool :=
  (function =? 0x05) || (function =? 0x06) || (function =? 0x0F) || (function =? 0x10).

Definition exception_response (header : list Z) (unit function code : Z)
    (malformed : option MalformedException.t) : list Z :=
  let body := [Z.lor function 0x80; code] in
  let body :=
    match malformed with
    | Some MalformedException.MissingCode => [Z.lor function 0x80]
    | Some MalformedException.ExtraByte => body ++ [0x00]
    | None => body
    end in
  take 2 header ++ [0x00; 0x00] ++ to_be_bytes 2 (wrap16 (1 + Z.of_nat (length body)))
    ++ [unit] ++ body.

(** What an iteration does with the connection. *)
Inductive action : Type :=
| Respond (response : list Z)
| Skip
| Close.

(** The value or quantity echoed by a write, [None] when the payload is
    refused with an illegal-data-value exception. *)
Definition echo_tail (function quantity write_quantity : Z) (rest : list Z) : option Z :=
  if function =? 0x05 then
    if quantity =? 0xFF00 then Some 0xFF00 else if quantity =? 0 then Some 0 else None
  else if function =? 0x06 then Some quantity
  else
    let max := if function =? 0x0F then 1968 else 123 in
    let byte_count := default 0 (rest !! 5%nat) in
    let expected :=
      if function =? 0x0F then div_ceil write_quantity 8 else write_quantity * 2 in
    if (write_quantity =? 0) || (max <? write_quantity) || negb (byte_count =? expected)
       || (Z.of_nat (length rest) <? 6 + byte_count)
    then None
    else Some write_quantity.

(** The cells a write sets. *)
Definition apply_write (function unit : Z) (k : Kind.t) (start tail write_quantity : Z)
    (rest : list Z) (m : gmap AddrKey Z) : gmap AddrKey Z :=
  if function =? 0x05 then <[(unit, k, start) := if tail =? 0xFF00 then 1 else 0]> m
  else if function =? 0x06 then <[(unit, k, start) := tail]> m
  else if function =? 0x0F then
    let bits := take (Z.to_nat (div_ceil write_quantity 8)) (drop 6 rest) in
    insert_cells unit k start
      (λ i, Z.land (Z.shiftr (bits !!! (i / 8)%nat) (Z.of_nat (i mod 8))) 1)
      (Z.to_nat write_quantity) m
  else
    let data := take (Z.to_nat (write_quantity * 2)) (drop 6 rest) in
    insert_cells unit k start
      (λ i, from_be_bytes [data !!! (i * 2)%nat; data !!! (i * 2 + 1)%nat])
      (Z.to_nat write_quantity) m.

(** The bytes a read returns. *)
Definition cell (m : gmap AddrKey Z) (unit : Z) (k : Kind.t) (start : Z) (i : nat) : Z :=
  default 0 (m !! (unit, k, wrap16 (start + Z.of_nat i))).

Definition is_register (k : Kind.t) : bool :=
  match k with Kind.HoldingRegister | Kind.InputRegister => true | _ => false end.

Definition read_data (m : gmap AddrKey Z) (unit : Z) (k : Kind.t) (start quantity : Z) : list Z :=
  let cells := cell m unit k start <$> seq 0 (Z.to_nat quantity) in
  if is_register k then concat (to_be_bytes 2 <$> cells)
  else pack_loop ((λ v, negb (v =? 0)) <$> cells) 0
         (replicate (Z.to_nat (div_ceil quantity 8)) 0).

Definition find_exception (m : gmap AddrKey Z) (unit : Z) (k : Kind.t) (start : Z) (n : nat) :
    option Z :=
  head (omap (λ i, m !! (unit, k, wrap16 (start + Z.of_nat i))) (seq 0 n)).

(** The timeout injection: the next state of the generator and whether the
    request is dropped. *)
Definition roll_timeout (rate : option (Z * Z)) (rng : option Z) (unit : Z) :
    option Z * bool :=
  match rate with
  | Some (num, den) =>
      if (0 <? num) && (0 <? den) then
        let roll := XorShift32.next (default (XorShift32.new unit) rng) in
        (Some roll, roll mod den <? num)
      else (rng, false)
  | None => (rng, false)
  end.

(** The response of a write that passed the injections. *)
Definition handle_write (b : MockBehavior) (header rest : list Z) (unit function : Z)
    (k : Kind.t) (start quantity write_quantity : Z) : MockBehavior * action :=
  match echo_tail function quantity write_quantity rest with
  | None => (b, Respond (exception_response header unit function 0x03 (malformed_exception b)))
  | Some tail =>
      (set_values (apply_write function unit k start tail write_quantity rest) b,
       Respond (take 2 header ++ [0x00; 0x00] ++ to_be_bytes 2 6 ++ [unit; function]
                  ++ to_be_bytes 2 start ++ to_be_bytes 2 tail))
  end.

(** The response of a read. *)
Definition read_response (b : MockBehavior) (header : list Z) (unit function : Z)
    (k : Kind.t) (start quantity : Z) : list Z :=
  let data := read_data (values b) unit k start quantity in
  let wrong_byte_count := declare_wrong_byte_count b in
  let declared_len := Z.of_nat (length data) + (if wrong_byte_count then 1 else 0) in
  take 2 header ++ [0x00; 0x00] ++ to_be_bytes 2 (wrap16 (declared_len + 3))
    ++ [unit; function; wrap8 declared_len] ++ data ++ (if wrong_byte_count then [0x00] else []).

(** One iteration, after a whole frame has been read. *)
Definition handle_request (b : MockBehavior) (rng : option Z) (header rest : list Z) :
    MockBehavior * option Z * action :=
  if (length rest <? 5)%nat then (b, rng, Close)
  else
    let unit := header !!! 6%nat in
    let function := rest !!! 0%nat in
    let start := from_be_bytes [rest !!! 1%nat; rest !!! 2%nat] in
    let quantity := from_be_bytes [rest !!! 3%nat; rest !!! 4%nat] in
    let b := count_request b in
    let '(rng, dropped) := roll_timeout (timeout_rate b) rng unit in
    if dropped then (b, rng, Skip)
    else if drop_connection b then (b, rng, Close)
    else
      match kind_of function with
      | None => (b, rng, Close)
      | Some k =>
          let write_quantity :=
            if (function =? 0x05) || (function =? 0x06) then 1 else quantity in
          let b :=
            if mock_is_write_function function then
              capture_write {| wrec_unit := unit; wrec_function := function;
                               wrec_start_offset := start; wrec_quantity := write_quantity |} b
            else b in
          match find_exception (exception_at b) unit k start (Z.to_nat write_quantity) with
          | Some code =>
              (b, rng, Respond (exception_response header unit function code
                                  (malformed_exception b)))
          | None =>
              if mock_is_write_function function then
                let '(b, a) := handle_write b header rest unit function k start quantity
                                 write_quantity in
                (b, rng, a)
              else (b, rng, Respond (read_response b header unit function k start quantity))
          end
      end.

(** The connection loop on the bytes the client sent: the behaviour, the
    generator, the unread bytes, the bytes sent and whether the connection is
    still open waiting for a whole frame.  A length field of zero makes the
    allocation of the body panic. *)
Record Conn : Type := mkConn {
  cn_behavior : MockBehavior;
  cn_rng : option Z;
  cn_inbox : list Z;
  cn_outbox : list Z;
  cn_open : bool;
}.

Definition next_frame (inbox : list Z) : outcome () (option (list Z * list Z * list Z)) :=
  if (length inbox <? 7)%nat then Ok None
  else
    let header := take 7 inbox in
    let len := from_be_bytes [header !!! 4%nat; header !!! 5%nat] in
    if len =? 0 then Panic
    else
      let n := Z.to_nat (len - 1) in
      if (length inbox <? 7 + n)%nat then Ok None
      else Ok (Some (header, take n (drop 7 inbox), drop (7 + n) inbox)).

(** The loop runs until the inbox holds no whole frame; a frame has at least
    seven bytes, so the length of the inbox bounds the iterations. *)
Fixpoint handle_connection (fuel : nat) (stop write_ok : nat → bool) (c : Conn) :
    outcome () Conn :=
  match fuel with
  | O => Ok c
  | S fuel' =>
      if negb (cn_open c) then Ok c
      else if stop fuel' then
        Ok {| cn_behavior := cn_behavior c; cn_rng := cn_rng c; cn_inbox := cn_inbox c;
              cn_outbox := cn_outbox c; cn_open := false |}
      else
        let? f := next_frame (cn_inbox c) in
        match f with
        | None => Ok c
        | Some (header, rest, inbox) =>
            let '(b, rng, a) := handle_request (cn_behavior c) (cn_rng c) header rest in
            let c' out open :=
              {| cn_behavior := b; cn_rng := rng; cn_inbox := inbox; cn_outbox := out;
                 cn_open := open |} in
            match a with
            | Close => Ok (c' (cn_outbox c) false)
            | Skip => handle_connection fuel' stop write_ok (c' (cn_outbox c) true)
            | Respond r =>
                if write_ok fuel'
                then handle_connection fuel' stop write_ok (c' (cn_outbox c ++ r) true)
                else Ok (c' (cn_outbox c) false)
            end
        end
  end.

(** ** The register bank *)

Lemma insert_cells_ext unit k start f g n m :
  (∀ i, (i < n)%nat → f i = g i) → insert_cells unit k start f n m = insert_cells unit k start g n m.
Proof.
  induction n as [|n IH]; intros H; cbn [insert_cells]; [done|].
  rewrite H by lia. rewrite IH; [done|]. intros i ?. apply H. lia.
Qed.

Lemma insert_cells_add unit k start f n n' m :
  insert_cells unit k start f (n + n') m =
    insert_cells unit k (start + Z.of_nat n) (λ i, f (n + i)%nat) n'
      (insert_cells unit k start f n m).
Proof.
  induction n' as [|n' IH]; [by rewrite Nat.add_0_r|].
  rewrite Nat.add_succ_r. cbn [insert_cells]. rewrite IH.
  by replace (start + Z.of_nat (n + n')) with (start + Z.of_nat n + Z.of_nat n') by lia.
Qed.

Lemma insert_cells_lookup unit k start f n m i :
  0 ≤ start → start + Z.of_nat n ≤ 65536 → (i < n)%nat →
  insert_cells unit k start f n m !! (unit, k, start + Z.of_nat i) = Some (f i).
Proof.
  intros Hs Hn. induction n as [|n IH]; intros Hi; [lia|]. cbn [insert_cells].
  rewrite (wrap_small 16) by (unfold in_u; lia).
  destruct (decide (i = n)) as [->|Hne]; [by rewrite lookup_insert_eq|].
  rewrite lookup_insert_ne by (intros [= Heq]; lia). apply IH; lia.
Qed.

Lemma insert_cells_lookup_ne unit k start f n m u' k' o :
  0 ≤ start → start + Z.of_nat n ≤ 65536 →
  (unit, k) ≠ (u', k') ∨ o < start ∨ start + Z.of_nat n ≤ o →
  insert_cells unit k start f n m !! (u', k', o) = m !! (u', k', o).
Proof.
  intros Hs Hn Ho. induction n as [|n IH]; [done|]. cbn [insert_cells].
  rewrite (wrap_small 16) by (unfold in_u; lia).
  rewrite lookup_insert_ne; [apply IH; [lia|destruct Ho as [?|?]; [by left|right; lia]]|].
  intros [= -> -> Heq]. destruct Ho as [?|?]; [done|lia].
Qed.

(** Consecutive values written from an offset on. *)
Definition insert_list (unit : Z) (k : Kind.t) (start : Z) (vs : list Z) :
    gmap AddrKey Z → gmap AddrKey Z :=
  insert_cells unit k start (λ i, vs !!! i) (length vs).

Lemma insert_list_app unit k start vs vs' m :
  insert_list unit k start (vs ++ vs') m =
    insert_list unit k (start + Z.of_nat (length vs)) vs' (insert_list unit k start vs m).
Proof.
  unfold insert_list. rewrite length_app, insert_cells_add.
  rewrite (insert_cells_ext _ _ start _ (λ i, vs !!! i)).
  - apply insert_cells_ext. intros i Hi. by rewrite lookup_total_app_r, Nat.add_sub' by lia.
  - intros i Hi. by rewrite lookup_total_app_l by lia.
Qed.

Lemma insert_list_one unit k start v m :
  in_u 16 start → insert_list unit k start [v] m = <[(unit, k, start) := v]> m.
Proof.
  intros H. unfold insert_list. cbn [length insert_cells].
  by rewrite Z.add_0_r, wrap_small by done.
Qed.

(** The 16-bit words of a big-endian byte string. *)
Fixpoint words (data : list Z) : list Z :=
  match data with
  | a :: b :: data' => from_be_bytes [a; b] :: words data'
  | _ => []
  end.

Lemma words_spec q data :
  length data = (2 * q)%nat →
  length (words data) = q ∧
  ∀ i, (i < q)%nat → words data !!! i = from_be_bytes [data !!! (i * 2)%nat; data !!! (i * 2 + 1)%nat].
Proof.
  revert data. induction q as [|q IH]; intros data Hl.
  { apply nil_length_inv in Hl as ->. split; [done|lia]. }
  destruct data as [|a [|b data]]; simpl in Hl; try lia.
  destruct (IH data ltac:(lia)) as [Hlen Hi]. split; [simpl; lia|].
  intros [|i] ?; [done|]. cbn [words]. rewrite lookup_total_cons_ne_0 by lia.
  cbn [Init.Nat.pred]. rewrite Hi by lia.
  replace (S i * 2)%nat with (S (S (i * 2))) by lia. done.
Qed.

Lemma words_app q data data' :
  length data = (2 * q)%nat → words (data ++ data') = words data ++ words data'.
Proof.
  revert data. induction q as [|q IH]; intros data Hl.
  { by apply nil_length_inv in Hl as ->. }
  destruct data as [|a [|b data]]; simpl in Hl; try lia.
  cbn [app words]. rewrite IH by lia. done.
Qed.

(** ** What each write function stores *)

Lemma bits_byte data i b :
  bit_at data i = Some b →
  Z.land (Z.shiftr (data !!! (i / 8)%nat) (Z.of_nat (i mod 8))) 1 = Z.b2z b.
Proof.
  unfold bit_at. intros H. destruct (data !! (i / 8)%nat) as [x|] eqn:E; [|done].
  cbn [fmap option_fmap option_map] in H. injection H as <-.
  rewrite (list_lookup_total_correct _ _ _ E), land_1_odd, Z.testbit_odd. by destruct (Z.odd _).
Qed.

Lemma apply_write_coils unit k start tail rest m bits pre :
  length pre = 6%nat → rest = pre ++ pack_bits bits →
  apply_write 0x0F unit k start tail (Z.of_nat (length bits)) rest m =
    insert_list unit k start (Z.b2z <$> bits) m.
Proof.
  intros Hpre ->. unfold apply_write. cbn [Z.eqb Pos.eqb]. rewrite drop_app_exact by done.
  rewrite take_ge by by rewrite length_pack_bits.
  unfold insert_list. rewrite length_fmap, Nat2Z.id. apply insert_cells_ext. intros i Hi.
  destruct (lookup_lt_is_Some_2 _ _ Hi) as [b Hb].
  rewrite (bits_byte _ _ b).
  - symmetry. apply list_lookup_total_correct. by rewrite list_lookup_fmap, Hb.
  - rewrite pack_bits_bit, decide_True by done. done.
Qed.

Lemma apply_write_registers unit k start tail rest m q data pre :
  length pre = 6%nat → length data = (2 * q)%nat → rest = pre ++ data →
  apply_write 0x10 unit k start tail (Z.of_nat q) rest m =
    insert_list unit k start (words data) m.
Proof.
  intros Hpre Hl ->. unfold apply_write. cbn [Z.eqb Pos.eqb]. rewrite drop_app_exact by done.
  rewrite take_ge by lia. unfold insert_list.
  destruct (words_spec q data Hl) as [-> Hw]. rewrite Nat2Z.id.
  apply insert_cells_ext. intros i Hi. by rewrite Hw.
Qed.
