(* ===== verification/ModbusBatch.v ===== *)
(** * Batch planning: drivers/modbus/src/batch.rs

    Grouping of read and write items by unit and segment, merging of adjacent
    addresses into runs, splitting at the protocol limits, and the write
    payloads. *)

From S2P Require Import Prelude RustStd ObservationModel AbiTag ModbusAddress ModbusCodec ModbusFrame.
From stdpp Require Import options.

(** ** Data *)

(** A group key [(u8, RegisterKind)] with its derived order. *)
Abbreviation group_key := (Z * RegisterKind.t)%type.

Definition group_cmp (a b : group_key) : comparison :=
  match a.1 ?= b.1 with
  | Eq => RegisterKind.rank a.2 ?= RegisterKind.rank b.2
  | c => c
  end.

Record GroupEntry : Type := mkGroupEntry {
  ge_id : Z;
  ge_addr : ModbusAddress;
  ge_type : option DataType.t;
}.

Record PlannedItem : Type := mkPlannedItem {
  pi_item_id : Z;
  pi_offset_in_frame : Z;
  pi_expected_type : option DataType.t;
  pi_width : Z;
}.

Record ReadPlan : Type := mkReadPlan {
  rp_unit_id : Z;
  rp_kind : RegisterKind.t;
  rp_start_offset : Z;
  rp_quantity : Z;
  rp_items : list PlannedItem;
}.

Record WriteRequest : Type := mkWriteRequest {
  wq_id : Z;
  wq_address : str;
  wq_value_type : Z;
  wq_value : RawValue.t;
}.

Record WritePlan : Type := mkWritePlan {
  wp_unit_id : Z;
  wp_kind : RegisterKind.t;
  wp_function : Z;
  wp_start_offset : Z;
  wp_quantity : Z;
  wp_payload : list Z;
  wp_item_ids : list Z;
}.

Record WriteGroupEntry : Type := mkWriteGroupEntry {
  we_id : Z;
  we_addr : ModbusAddress;
  we_encoded : EncodedWrite.t;
}.

(** ** The run loop shared by both planners

    The group is walked once; [run] holds the current run, which is emitted
    when the next entry does not continue it and once more at the end. *)
Section runs.
Context {A P E : Type} (breaks : A → A → bool) (emit : list P → list A → outcome E (list P)).

Definition flush (run : list A) (entry : A) : bool :=
  match last run with Some prev => breaks prev entry | None => false end.

Fixpoint run_loop (group run : list A) (plans : list P) : outcome E (list P) :=
  match group with
  | [] => emit plans run
  | entry :: group' =>
      if flush run entry then
        let? plans' := emit plans run in
        run_loop group' [entry] plans'
      else run_loop group' (run ++ [entry]) plans
  end.
End runs.

(** ** Read planning *)
Definition item_width (k : RegisterKind.t) (expected_type : option DataType.t) : Z :=
  match k with
  | RegisterKind.Coil | RegisterKind.DiscreteInput => 1
  | RegisterKind.HoldingRegister | RegisterKind.InputRegister =>
      match expected_type with
      | Some dt => default 1 (register_width dt)
      | None => 1
      end
  end.

(** The inner loop of [emit_plan]: the items of one request and the rest. *)
Fixpoint read_chunk (k : RegisterKind.t) (limit chunk_start used : Z) (run : list GroupEntry) :
    list PlannedItem * list GroupEntry :=
  match run with
  | [] => ([], [])
  | e :: run' =>
      let width := item_width k (ge_type e) in
      if limit <? used + width then ([], run)
      else
        let '(items, rest) := read_chunk k limit chunk_start (used + width) run' in
        ({| pi_item_id := ge_id e;
            pi_offset_in_frame := wrap16 (offset (ge_addr e) - chunk_start);
            pi_expected_type := ge_type e;
            pi_width := width |} :: items, rest)
  end.

(** The outer loop; each iteration consumes at least one entry (or panics), so
    the length of the run bounds the number of iterations. *)
Fixpoint emit_plan_loop (fuel : nat) (unit_id : Z) (k : RegisterKind.t) (limit : Z)
    (run : list GroupEntry) (plans : list ReadPlan) : outcome ModbusError.t (list ReadPlan) :=
  match run with
  | [] => Ok plans
  | first :: _ =>
      match fuel with
      | O => Panic
      | S fuel' =>
          let chunk_start := offset (ge_addr first) in
          let '(items, rest) := read_chunk k limit chunk_start 0 run in
          let? last_item := expect (last items) in
          let quantity := wrap16 (pi_offset_in_frame last_item + pi_width last_item) in
          emit_plan_loop fuel' unit_id k limit rest
            (plans ++ [{| rp_unit_id := unit_id; rp_kind := k; rp_start_offset := chunk_start;
                          rp_quantity := quantity; rp_items := items |}])
      end
  end.

Definition emit_plan (unit_id : Z) (k : RegisterKind.t) (limit : Z)
    (plans : list ReadPlan) (run : list GroupEntry) : outcome ModbusError.t (list ReadPlan) :=
  emit_plan_loop (length run) unit_id k limit run plans.

Definition read_limit (k : RegisterKind.t) : Z :=
  match k with
  | RegisterKind.Coil | RegisterKind.DiscreteInput => MAX_BITS_PER_REQUEST
  | RegisterKind.HoldingRegister | RegisterKind.InputRegister => MAX_REGISTERS_PER_REQUEST
  end.

Definition read_breaks (prev entry : GroupEntry) : bool :=
  negb (address (ge_addr entry) =? wrap32 (address (ge_addr prev) + 1)).

(** Step 1 of [plan_batch]: parse and group. *)
Fixpoint group_items (items : list DriverReadItem) (default_unit_id : Z)
    (groups : list (group_key * list GroupEntry)) :
    outcome ModbusError.t (list (group_key * list GroupEntry)) :=
  match items with
  | [] => Ok groups
  | item :: items' =>
      let? a := map_err (λ _, ModbusError.invalid_address)
                  (parse_address (ri_address item) default_unit_id) in
      let width := item_width (kind a) (ri_expected_type item) in
      let end_ := offset a + width in
      if 65535 + 1 <? end_ then Err ModbusError.invalid_address
      else
        group_items items' default_unit_id
          (btree_push group_cmp (unit_id a, kind a)
             {| ge_id := ri_id item; ge_addr := a; ge_type := ri_expected_type item |} groups)
  end.

(** Step 2: each group sorted, cut into runs and emitted. *)
Fixpoint plan_groups (groups : list (group_key * list GroupEntry)) (plans : list ReadPlan) :
    outcome ModbusError.t (list ReadPlan) :=
  match groups with
  | [] => Ok plans
  | ((unit_id, k), group) :: groups' =>
      let group := sort_by_key (λ e, address (ge_addr e)) group in
      let? plans' :=
        run_loop read_breaks (emit_plan unit_id k (read_limit k)) group [] plans in
      plan_groups groups' plans'
  end.

Definition plan_batch (items : list DriverReadItem) (default_unit_id : Z) :
    outcome ModbusError.t (list ReadPlan) :=
  let? groups := group_items items default_unit_id [] in
  plan_groups groups [].

(** ** Write planning *)

(** [build_write_payload]; the [unreachable!] arms panic. *)
Fixpoint coil_bits (chunk : list WriteGroupEntry) : outcome ModbusError.t (list bool) :=
  match chunk with
  | [] => Ok []
  | e :: chunk' =>
      match we_encoded e with
      | EncodedWrite.Coil bit => let? bits := coil_bits chunk' in Ok (bit :: bits)
      | EncodedWrite.Registers _ => Panic
      end
  end.

Fixpoint register_data (chunk : list WriteGroupEntry) : outcome ModbusError.t (list Z) :=
  match chunk with
  | [] => Ok []
  | e :: chunk' =>
      match we_encoded e with
      | EncodedWrite.Registers bytes => let? data := register_data chunk' in Ok (bytes ++ data)
      | EncodedWrite.Coil _ => Panic
      end
  end.

Definition multi_payload (quantity : Z) (data : list Z) : list Z :=
  to_be_bytes 2 quantity ++ [wrap8 (Z.of_nat (length data))] ++ data.

Definition build_write_payload (k : RegisterKind.t) (chunk : list WriteGroupEntry)
    (quantity : Z) : outcome ModbusError.t (Z * list Z) :=
  match k with
  | RegisterKind.Coil =>
      let? bits := coil_bits chunk in
      if (length chunk =? 1)%nat then
        let? bit := expect (bits !! 0%nat) in
        Ok (FC_WRITE_SINGLE_COIL, coil_payload bit)
      else
        let data := pack_bits bits in
        Ok (FC_WRITE_MULTIPLE_COILS, multi_payload quantity data)
  | RegisterKind.HoldingRegister =>
      let single :=
        match chunk with [e] => EncodedWrite.units (we_encoded e) =? 1 | _ => false end in
      let? data := register_data chunk in
      if single then Ok (FC_WRITE_SINGLE_REGISTER, data)
      else Ok (FC_WRITE_MULTIPLE_REGISTERS, multi_payload quantity data)
  | RegisterKind.DiscreteInput | RegisterKind.InputRegister => Panic
  end.

(** The inner loop of [emit_write_plan]: entries, units used, rest. *)
Fixpoint write_chunk (limit used : Z) (run : list WriteGroupEntry) :
    list WriteGroupEntry * Z * list WriteGroupEntry :=
  match run with
  | [] => ([], used, [])
  | e :: run' =>
      let units := EncodedWrite.units (we_encoded e) in
      if limit <? used + units then ([], used, run)
      else
        let '(chunk, used', rest) := write_chunk limit (used + units) run' in
        (e :: chunk, used', rest)
  end.

(** The [debug_assert!] on an empty chunk is a panic. *)
Fixpoint emit_write_plan_loop (fuel : nat) (unit_id : Z) (k : RegisterKind.t) (limit : Z)
    (run : list WriteGroupEntry) (plans : list WritePlan) :
    outcome ModbusError.t (list WritePlan) :=
  match run with
  | [] => Ok plans
  | first :: _ =>
      match fuel with
      | O => Panic
      | S fuel' =>
          let chunk_start := offset (we_addr first) in
          let '(chunk, used, rest) := write_chunk limit 0 run in
          if (length chunk =? 0)%nat then Panic
          else
            let quantity := wrap16 used in
            let? (function, payload) := build_write_payload k chunk quantity in
            emit_write_plan_loop fuel' unit_id k limit rest
              (plans ++ [{| wp_unit_id := unit_id; wp_kind := k; wp_function := function;
                            wp_start_offset := chunk_start; wp_quantity := quantity;
                            wp_payload := payload; wp_item_ids := we_id <$> chunk |}])
      end
  end.

Definition emit_write_plan (unit_id : Z) (k : RegisterKind.t) (limit : Z)
    (plans : list WritePlan) (run : list WriteGroupEntry) :
    outcome ModbusError.t (list WritePlan) :=
  emit_write_plan_loop (length run) unit_id k limit run plans.

(** The release-profile [u16] addition of the adjacency test wraps. *)
Definition write_breaks (prev entry : WriteGroupEntry) : bool :=
  negb (offset (we_addr entry)
        =? wrap16 (offset (we_addr prev) + EncodedWrite.units (we_encoded prev))).

Definition write_limit (k : RegisterKind.t) : option Z :=
  match k with
  | RegisterKind.Coil => Some MAX_WRITE_BITS_PER_REQUEST
  | RegisterKind.HoldingRegister => Some MAX_WRITE_REGISTERS_PER_REQUEST
  | RegisterKind.DiscreteInput | RegisterKind.InputRegister => None
  end.

Fixpoint group_writes (items : list WriteRequest) (default_unit_id : Z) (wo : WordOrder.t)
    (groups : list (group_key * list WriteGroupEntry)) (errors : list RawWriteResult) :
    outcome ModbusError.t (list (group_key * list WriteGroupEntry) * list RawWriteResult) :=
  match items with
  | [] => Ok (groups, errors)
  | item :: items' =>
      let? a := map_err (λ _, ModbusError.invalid_address)
                  (parse_address (wq_address item) default_unit_id) in
      if negb (RegisterKind.writable (kind a)) then Err ModbusError.invalid_address
      else
        match encode_write_value (kind a) (wq_value_type item) (wq_value item) wo with
        | Panic => Panic
        | Err _ =>
            group_writes items' default_unit_id wo groups
              (errors ++ [{| wr_item_id := wq_id item; wr_success := false;
                             wr_protocol_code := None;
                             wr_error := Some (ModbusError.into_info ModbusError.invalid_type) |}])
        | Ok encoded =>
            let end_ := offset a + EncodedWrite.units encoded in
            if 65535 + 1 <? end_ then Err ModbusError.invalid_address
            else
              group_writes items' default_unit_id wo
                (btree_push group_cmp (unit_id a, kind a)
                   {| we_id := wq_id item; we_addr := a; we_encoded := encoded |} groups)
                errors
        end
  end.

Fixpoint plan_write_groups (groups : list (group_key * list WriteGroupEntry))
    (plans : list WritePlan) : outcome ModbusError.t (list WritePlan) :=
  match groups with
  | [] => Ok plans
  | ((unit_id, k), group) :: groups' =>
      let group := sort_by_key (λ e, address (we_addr e)) group in
      match write_limit k with
      | None => plan_write_groups groups' plans
      | Some limit =>
          let? plans' :=
            run_loop write_breaks (emit_write_plan unit_id k limit) group [] plans in
          plan_write_groups groups' plans'
      end
  end.

Definition plan_write_batch (items : list WriteRequest) (default_unit_id : Z)
    (wo : WordOrder.t) : outcome ModbusError.t (list WritePlan * list RawWriteResult) :=
  let? (groups, errors) := group_writes items default_unit_id wo [] [] in
  let? plans := plan_write_groups groups [] in
  Ok (plans, errors).

(** * The structure of a batch plan

    Both planners cut a group into runs and a run into chunks; this file shows
    that a plan is exactly the list of those chunks, one request each, and
    proves the properties of chunks the component theorems use. *)

(** ** Lists *)

Definition sumZ (l : list Z) : Z := foldr Z.add 0 l.

Lemma sumZ_app l k : sumZ (l ++ k) = sumZ l + sumZ k.
Proof. induction l; simpl; lia. Qed.

(** Widths of at least one add up to the span of consecutive positions. *)
Lemma sumZ_span {A} (w : A → Z) l x :
  Forall (λ y, 1 ≤ w y) l → last l = Some x →
  Z.of_nat (pred (length l)) + w x ≤ sumZ (w <$> l).
Proof.
  intros Hw. revert x. induction Hw as [|y l Hy Hw IH]; intros x Hx; [done|].
  destruct l as [|z l].
  - injection Hx as ->. cbn. lia.
  - rewrite last_cons_cons in Hx. specialize (IH x Hx). cbn in *. lia.
Qed.

Lemma Sorted_app_inv {A} (R : A → A → Prop) l k :
  Sorted R (l ++ k) → Sorted R l ∧ Sorted R k.
Proof.
  induction l as [|x l IH]; simpl; [done|]. intros H.
  inversion H as [|? ? Hs Hh]; subst. destruct (IH Hs) as [Hl Hk]. split; [|done].
  constructor; [done|]. destruct l as [|y l]; [constructor|].
  inversion Hh; subst. by constructor.
Qed.

Lemma Sorted_concat_inv {A} (R : A → A → Prop) (ls : list (list A)) :
  Sorted R (concat ls) → Forall (Sorted R) ls.
Proof.
  induction ls as [|l ls IH]; simpl; [done|].
  intros [Hl Hls]%Sorted_app_inv. constructor; [done|by apply IH].
Qed.

Lemma Sorted_snoc {A} (R : A → A → Prop) l x :
  Sorted R l → (∀ y, last l = Some y → R y x) → Sorted R (l ++ [x]).
Proof.
  induction l as [|z l IH]; intros Hs Hx; simpl; [by repeat constructor|].
  inversion Hs as [|? ? Hs' Hh]; subst. constructor.
  - apply IH; [done|]. intros y Hy. apply Hx. destruct l; [done|]. by rewrite last_cons_cons.
  - destruct l as [|y l]; simpl; constructor; [by apply Hx|]. by inversion Hh.
Qed.

Lemma ForallOrdPairs_app_inv {A} (R : A → A → Prop) l k :
  ForallOrdPairs R (l ++ k) → ForallOrdPairs R l ∧ ForallOrdPairs R k.
Proof.
  induction l as [|x l IH]; simpl; [split; [constructor|done]|].
  intros H. inversion H as [|? ? Hx H']; subst. destruct (IH H') as [Hl Hk].
  apply Forall_app in Hx as [Hx _]. split; [by constructor|done].
Qed.

Lemma ForallOrdPairs_concat_inv {A} (R : A → A → Prop) (ls : list (list A)) l :
  ForallOrdPairs R (concat ls) → l ∈ ls → ForallOrdPairs R l.
Proof.
  intros H Hin. induction Hin as [|l l' ls _ IH]; apply ForallOrdPairs_app_inv in H as [H1 H2];
    [done|by apply IH].
Qed.

Lemma ForallOrdPairs_lookup {A} (R : A → A → Prop) l i j x y :
  ForallOrdPairs R l → (i < j)%nat → l !! i = Some x → l !! j = Some y → R x y.
Proof.
  intros H. revert i j. induction H as [|z l Hz H IH]; intros [|i] [|j] Hij Hx Hy; try done; try lia.
  - injection Hx as ->. simpl in Hy. by eapply Forall_lookup_1 in Hz.
  - eapply IH; [|exact Hx|exact Hy]. lia.
Qed.

(** ** Runs *)
Section runs_lemmas.
Context {A P E : Type} (breaks : A → A → bool).

Fixpoint split_runs (group run : list A) : list (list A) :=
  match group with
  | [] => [run]
  | entry :: group' =>
      if flush breaks run entry then run :: split_runs group' [entry]
      else split_runs group' (run ++ [entry])
  end.

Lemma concat_split_runs group run : concat (split_runs group run) = run ++ group.
Proof.
  revert run. induction group as [|e group IH]; intros run; simpl; [done|].
  case_match; simpl; rewrite IH; by rewrite <- ?app_assoc.
Qed.

Definition continues (a b : A) : Prop := breaks a b = false.

Lemma split_runs_sorted group run :
  Sorted continues run → Forall (Sorted continues) (split_runs group run).
Proof.
  revert run. induction group as [|e group IH]; intros run Hr; simpl; [by repeat constructor|].
  destruct (flush breaks run e) eqn:Ef.
  - constructor; [done|]. apply IH. by repeat constructor.
  - apply IH, Sorted_snoc; [done|]. intros y Hy. unfold flush in Ef. by rewrite Hy in Ef.
Qed.

(** The loop emits the runs in order, once each. *)
Lemma run_loop_emit (emit : list P → list A → outcome E (list P)) (out : list A → list P)
    group run plans :
  (∀ r ps, r ∈ split_runs group run → emit ps r = Ok (ps ++ out r)) →
  run_loop breaks emit group run plans = Ok (plans ++ concat (out <$> split_runs group run)).
Proof.
  revert run plans. induction group as [|e group IH]; intros run plans Hemit; simpl.
  - rewrite Hemit by (simpl; set_solver). by rewrite app_nil_r.
  - simpl in Hemit. destruct (flush breaks run e).
    + rewrite Hemit by set_solver. cbn [outcome_bind].
      rewrite IH by (intros; apply Hemit; set_solver). simpl. by rewrite app_assoc.
    + by rewrite IH by (intros; apply Hemit; set_solver).
Qed.
End runs_lemmas.

(** ** Chunks *)
Section chunks.
Context {A : Type} (width : A → Z) (limit : Z).

Fixpoint cut (used : Z) (run : list A) : list A * list A :=
  match run with
  | [] => ([], [])
  | e :: run' =>
      if limit <? used + width e then ([], run)
      else let '(c, rest) := cut (used + width e) run' in (e :: c, rest)
  end.

Fixpoint chunks_of (fuel : nat) (run : list A) : list (list A) :=
  match run with
  | [] => []
  | _ :: _ =>
      match fuel with
      | O => []
      | S fuel' => let '(c, rest) := cut 0 run in c :: chunks_of fuel' rest
      end
  end.

Lemma cut_app used run : (cut used run).1 ++ (cut used run).2 = run.
Proof.
  revert used. induction run as [|e run IH]; intros used; simpl; [done|].
  case_match; [done|]. specialize (IH (used + width e)).
  destruct (cut (used + width e) run). simpl in *. by rewrite IH.
Qed.

Lemma cut_sum used run :
  used ≤ limit → used + sumZ (width <$> (cut used run).1) ≤ limit.
Proof.
  revert used. induction run as [|e run IH]; intros used Hu; cbn [cut]; [cbn; lia|].
  case_match; [cbn; lia|]. specialize (IH (used + width e) ltac:(lia)).
  destruct (cut (used + width e) run). cbn in *. unfold sumZ in *. lia.
Qed.

Lemma cut_nonempty e run : width e ≤ limit → ∃ c, (cut 0 (e :: run)).1 = e :: c.
Proof.
  intros He. cbn [cut]. replace (limit <? 0 + width e) with false by lia.
  destruct (cut _ run) as [c rest]. by exists c.
Qed.

(** Every chunk is a non-empty piece of the run within the limit. *)
Lemma chunks_of_spec fuel run :
  (length run ≤ fuel)%nat → 0 ≤ limit → Forall (λ e, width e ≤ limit) run →
  concat (chunks_of fuel run) = run ∧
  Forall (λ c, c ≠ [] ∧ sumZ (width <$> c) ≤ limit) (chunks_of fuel run).
Proof.
  revert run. induction fuel as [|fuel IH]; intros [|e run] Hf Hl Hw; simpl in Hf; try lia;
    [done|done|].
  cbn [chunks_of]. apply Forall_cons in Hw as Hw'. destruct Hw' as [He _].
  destruct (cut_nonempty e run He) as [c Hc].
  pose proof (cut_app 0 (e :: run)) as Happ. pose proof (cut_sum 0 (e :: run) Hl) as Hsum.
  destruct (cut 0 (e :: run)) as [c' rest]. cbn [fst snd] in *. subst c'.
  assert (length rest ≤ fuel)%nat as Hrest.
  { apply (f_equal length) in Happ. rewrite length_app in Happ. simpl in Happ. lia. }
  rewrite <- Happ in Hw. apply Forall_app in Hw as [_ Hw].
  destruct (IH rest Hrest Hl Hw) as [Hcat Hall]. split.
  - simpl. by rewrite Hcat.
  - constructor; [|done]. split; [done|lia].
Qed.
End chunks.

(** ** A planned group *)

Lemma Sorted_and {A} (R R' : A → A → Prop) l :
  Sorted R l → Sorted R' l → Sorted (λ x y, R x y ∧ R' x y) l.
Proof.
  induction 1 as [|x l Hs IH Hh]; intros H'; [constructor|].
  inversion H' as [|? ? Hs' Hh']; subst. constructor; [by apply IH|].
  destruct Hh; inversion Hh'; subst; by constructor.
Qed.

Lemma Sorted_impl_Forall {A} (R R' : A → A → Prop) (Q : A → Prop) l :
  (∀ x y, Q x → Q y → R x y → R' x y) → Forall Q l → Sorted R l → Sorted R' l.
Proof.
  intros Himp HQ. induction 1 as [|x l Hs IH Hh]; [constructor|].
  apply Forall_cons in HQ as [Hx HQ]. constructor; [by apply IH|].
  destruct Hh as [|y l Hxy]; constructor. apply Forall_cons in HQ as [Hy _]. by apply Himp.
Qed.

Section planned_group.
Context {A P E : Type} (breaks : A → A → bool) (emit : list P → list A → outcome E (list P)).
Context (plan_of : list A → P) (width : A → Z) (limit : Z) (Q : A → Prop).
Context (Hlimit : 0 ≤ limit) (Hwidth : ∀ x, Q x → width x ≤ limit).
Context (Hemit : ∀ r ps, Forall Q r →
  emit ps r = Ok (ps ++ (plan_of <$> chunks_of width limit (length r) r))).

(** A chunk is a non-empty piece of a run, within the limit. *)
Definition piece (c : list A) : Prop :=
  c ≠ [] ∧ Sorted (continues breaks) c ∧ sumZ (width <$> c) ≤ limit.

Lemma run_pieces r :
  Forall Q r → Sorted (continues breaks) r →
  concat (chunks_of width limit (length r) r) = r ∧
  Forall piece (chunks_of width limit (length r) r).
Proof using Hlimit Hwidth.
  intros HQ Hs.
  destruct (chunks_of_spec width limit (length r) r) as [Hcat Hall];
    [done|done|by eapply Forall_impl|].
  split; [done|]. rewrite <- Hcat in Hs. apply Sorted_concat_inv in Hs.
  rewrite Forall_forall in *. intros c Hc. destruct (Hall c Hc). by repeat split; [|apply Hs|].
Qed.

(** The plans of a group are its pieces in order, one request each. *)
Lemma run_loop_pieces group plans :
  Forall Q group →
  ∃ cs, run_loop breaks emit group [] plans = Ok (plans ++ (plan_of <$> cs)) ∧
    concat cs = group ∧ Forall piece cs.
Proof using Hlimit Hwidth Hemit.
  intros HQ.
  pose proof (concat_split_runs breaks group []) as Hcat. cbn [app] in Hcat.
  pose proof (split_runs_sorted breaks group [] ltac:(constructor)) as Hs.
  rewrite (run_loop_emit breaks _ (λ r, plan_of <$> chunks_of width limit (length r) r)).
  2:{ intros r ps Hr. apply Hemit. rewrite <- Hcat in HQ. rewrite Forall_concat in HQ.
      by eapply Forall_forall in HQ. }
  revert Hcat Hs. generalize (split_runs breaks group []) as runs. intros runs <- Hs.
  rewrite Forall_concat in HQ.
  exists (concat ((λ r, chunks_of width limit (length r) r) <$> runs)).
  induction runs as [|r runs IH]; [done|].
  apply Forall_cons in HQ as [HQr HQ]. apply Forall_cons in Hs as [Hsr Hs].
  destruct (run_pieces r HQr Hsr) as [Hr Hp]. destruct (IH HQ Hs) as (He & Hc & Hps).
  injection He as He. cbn [fmap list_fmap concat].
  rewrite fmap_app, concat_app, Hr, Hc.
  split; [|split; [done|by apply Forall_app]]. do 2 f_equal.
  by apply (app_inv_head plans) in He as ->.
Qed.
End planned_group.
