(* ===== verification/ModbusPlans.v ===== *)
(** * Correctness of read planning ([plan_batch])

    A plan is a list of chunks of consecutive addresses of one unit and
    segment; from that: completeness, localisation, the protocol limits and
    the coverage of every item's registers. *)

From S2P Require Import Prelude RustStd ObservationModel AbiTag ModbusAddress ModbusCodec ModbusFrame ModbusBatch ModbusMock.
From stdpp Require Import options.

Lemma group_cmp_eq a b : group_cmp a b = Eq → a = b.
Proof.
  destruct a as [u k], b as [u' k']. unfold group_cmp. simpl.
  destruct (Z.compare_spec u u'); try done. subst. rewrite Z.compare_eq_iff.
  by destruct k, k'.
Qed.

Lemma item_width_range k dt : 1 ≤ item_width k dt ≤ 4.
Proof. destruct k, dt as [[]|]; simpl; lia. Qed.

Lemma read_limit_range k : 125 ≤ read_limit k ≤ 2000.
Proof.
  destruct k; simpl; unfold MAX_BITS_PER_REQUEST, MAX_REGISTERS_PER_REQUEST; lia.
Qed.

(** ** Entries *)
Definition ge_width (e : GroupEntry) : Z := item_width (kind (ge_addr e)) (ge_type e).
Definition ge_key (e : GroupEntry) : group_key := (unit_id (ge_addr e), kind (ge_addr e)).

(** The entry an accepted item becomes. *)
Definition entry_of (d : Z) (item : DriverReadItem) (e : GroupEntry) : Prop :=
  parse_address (ri_address item) d = Ok (ge_addr e) ∧ ge_id e = ri_id item ∧
  ge_type e = ri_expected_type item.

Definition entry_wf (e : GroupEntry) : Prop :=
  addr_wf (ge_addr e) ∧ offset (ge_addr e) + ge_width e ≤ 65536.

Definition entry_in (key : group_key) (e : GroupEntry) : Prop := ge_key e = key ∧ entry_wf e.

Lemma group_items_spec items d groups groups' :
  in_u 8 d → group_items items d groups = Ok groups' → btree_all entry_in groups →
  ∃ entries, Forall2 (entry_of d) items entries ∧
    btree_values groups' ≡ₚ btree_values groups ++ entries ∧ btree_all entry_in groups'.
Proof.
  intros Hd. revert groups. induction items as [|item items IH]; intros groups H Hall; simpl in H.
  { injection H as <-. exists []. rewrite app_nil_r. by repeat split. }
  inv_ok. case_if; [done|]. subst v. rename a into a.
  pose proof Heqo as Hparse. apply parse_address_in_range in Hparse; [|done].
  apply IH in H as (entries & H2 & Hperm & Hall').
  - exists ({| ge_id := ri_id item; ge_addr := a; ge_type := ri_expected_type item |} :: entries).
    split; [by constructor|]. split; [|done]. rewrite Hperm, btree_push_values.
    by rewrite <- app_assoc.
  - apply btree_push_all; [by intros ? ?%group_cmp_eq|done|].
    split; [done|]. split; [done|]. unfold ge_width. simpl. lia.
Qed.

(** ** Plans are chunks *)
Definition planned (k : RegisterKind.t) (cs : Z) (e : GroupEntry) : PlannedItem :=
  {| pi_item_id := ge_id e; pi_offset_in_frame := wrap16 (offset (ge_addr e) - cs);
     pi_expected_type := ge_type e; pi_width := item_width k (ge_type e) |}.

Definition chunk_start (c : list GroupEntry) : Z :=
  match c with e :: _ => offset (ge_addr e) | [] => 0 end.

Definition chunk_quantity (k : RegisterKind.t) (c : list GroupEntry) : Z :=
  match last c with
  | Some e => wrap16 (wrap16 (offset (ge_addr e) - chunk_start c) + item_width k (ge_type e))
  | None => 0
  end.

Definition read_plan_of (key : group_key) (c : list GroupEntry) : ReadPlan :=
  {| rp_unit_id := key.1; rp_kind := key.2; rp_start_offset := chunk_start c;
     rp_quantity := chunk_quantity key.2 c; rp_items := planned key.2 (chunk_start c) <$> c |}.

Lemma read_chunk_cut k limit cs used run :
  read_chunk k limit cs used run =
    (planned k cs <$> (cut (λ e, item_width k (ge_type e)) limit used run).1,
     (cut (λ e, item_width k (ge_type e)) limit used run).2).
Proof.
  revert used. induction run as [|e run IH]; intros used; cbn [read_chunk cut]; [done|].
  case_match; [done|]. rewrite IH. by destruct (cut _ _ _ run).
Qed.

Lemma emit_plan_loop_chunks fuel unit k limit run plans :
  (length run ≤ fuel)%nat → Forall (λ e, item_width k (ge_type e) ≤ limit) run →
  emit_plan_loop fuel unit k limit run plans =
    Ok (plans ++ (read_plan_of (unit, k)
          <$> chunks_of (λ e, item_width k (ge_type e)) limit fuel run)).
Proof.
  revert run plans. induction fuel as [|fuel IH]; intros [|e run] plans Hf Hw; simpl in Hf; try lia;
    cbn [emit_plan_loop chunks_of]; [by rewrite app_nil_r..|].
  apply Forall_cons in Hw as Hw'. destruct Hw' as [He _].
  rewrite read_chunk_cut.
  destruct (cut_nonempty (λ e, item_width k (ge_type e)) limit e run He) as [c Hc].
  pose proof (cut_app (λ e, item_width k (ge_type e)) limit 0 (e :: run)) as Happ.
  destruct (cut _ _ 0 (e :: run)) as [c' rest]. cbn [fst snd] in *. subst c'.
  assert (is_Some (last (e :: c))) as [l Hl] by by rewrite last_is_Some.
  rewrite fmap_last, Hl. cbn [fmap option_fmap option_map expect outcome_bind].
  rewrite IH.
  - rewrite <- app_assoc. cbn [app]. f_equal. f_equal.
    set (cs := chunks_of _ _ _ _). cbn [fmap list_fmap]. f_equal.
    unfold read_plan_of, chunk_quantity. cbn [fst snd]. by rewrite Hl.
  - apply (f_equal length) in Happ. rewrite length_app in Happ. simpl in Happ. lia.
  - rewrite <- Happ in Hw. by apply Forall_app in Hw as [_ Hw].
Qed.

(** What the theorems need to know of a chunk of the group [key]. *)
Record chunk_ok (key : group_key) (c : list GroupEntry) : Prop := {
  co_nonempty : c ≠ [];
  co_in : Forall (entry_in key) c;
  co_next : Sorted (λ a b, address (ge_addr b) = address (ge_addr a) + 1) c;
  co_limit : sumZ (ge_width <$> c) ≤ read_limit key.2;
}.

Lemma read_continues key x y :
  entry_in key x → entry_in key y → continues read_breaks x y →
  address (ge_addr y) = address (ge_addr x) + 1.
Proof.
  intros [_ [[_ Hx] _]] _. unfold continues, read_breaks, RegisterKind.explicit_max in *.
  pose proof (segment_base_range (kind (ge_addr x))).
  rewrite (wrap_small 32) by (unfold in_u; lia). rewrite negb_false_iff. lia.
Qed.

Lemma ge_width_in key c :
  Forall (entry_in key) c → ge_width <$> c = (λ e, item_width key.2 (ge_type e)) <$> c.
Proof.
  intros Hc. apply list_fmap_ext. intros i e He. eapply Forall_lookup_1 in Hc as [Hk _]; [|done].
  unfold ge_width. by rewrite <- Hk.
Qed.

(** One group: its plans are chunks whose concatenation is the sorted group. *)
Lemma plan_group_chunks key group plans :
  Forall (entry_in key) group →
  ∃ cs, run_loop read_breaks (emit_plan key.1 key.2 (read_limit key.2)) group [] plans
          = Ok (plans ++ (read_plan_of key <$> cs)) ∧
        concat cs = group ∧ Forall (chunk_ok key) cs.
Proof.
  intros Hin. pose proof (read_limit_range key.2) as Hlim.
  assert (∀ e, item_width key.2 (ge_type e) ≤ read_limit key.2) as Hw.
  { intros e. pose proof (item_width_range key.2 (ge_type e)). lia. }
  destruct (run_loop_pieces read_breaks (emit_plan key.1 key.2 (read_limit key.2))
    (read_plan_of key) (λ e, item_width key.2 (ge_type e)) (read_limit key.2) (entry_in key)
    ltac:(lia) (λ e _, Hw e)) with (group := group) (plans := plans) as (cs & Hrun & Hcat & Hp);
    [|done|].
  { intros r ps _. unfold emit_plan. rewrite emit_plan_loop_chunks; [by destruct key|done|].
    by apply Forall_forall. }
  exists cs. split; [done|]. split; [done|].
  rewrite <- Hcat, Forall_concat in Hin. rewrite Forall_forall in *.
  intros c Hc. destruct (Hp c Hc) as (Hne & Hs & Hsum). specialize (Hin c Hc).
  split; [done|done| |].
  - by eapply Sorted_impl_Forall; [apply (read_continues key)| |].
  - by rewrite (ge_width_in key).
Qed.

Lemma btree_all_sorted key group :
  Forall (entry_in key) group →
  Forall (entry_in key) (sort_by_key (λ e, address (ge_addr e)) group).
Proof. intros. by rewrite sort_by_key_perm. Qed.

Lemma plan_groups_chunks groups plans :
  btree_all entry_in groups →
  ∃ kcs, plan_groups groups plans = Ok (plans ++ (uncurry read_plan_of <$> kcs)) ∧
    concat (kcs.*2) ≡ₚ btree_values groups ∧ Forall (uncurry chunk_ok) kcs.
Proof.
  revert plans. induction groups as [|[[u k] group] groups IH]; intros plans Hall; simpl.
  { exists []. by rewrite app_nil_r. }
  apply Forall_cons in Hall as [Hg Hall]. cbn [fst snd] in Hg.
  destruct (plan_group_chunks (u, k) _ plans (btree_all_sorted _ _ Hg)) as (cs & Hrun & Hcat & Hok).
  cbn [fst snd] in Hrun. rewrite Hrun. cbn [outcome_bind].
  destruct (IH (plans ++ (read_plan_of (u, k) <$> cs)) Hall) as (kcs & -> & Hperm & Hoks).
  exists ((pair (u, k) <$> cs) ++ kcs). split; [|split].
  - rewrite fmap_app, <- app_assoc, <- list_fmap_compose. done.
  - rewrite fmap_app, concat_app, Hperm, <- list_fmap_compose.
    unfold btree_values. cbn [fmap list_fmap concat snd]. f_equiv.
    rewrite (list_fmap_ext _ id) by done. rewrite list_fmap_id, Hcat. apply sort_by_key_perm.
  - apply Forall_app. split; [|done]. by rewrite Forall_fmap.
Qed.

(** A successful plan is a list of chunks of the parsed items. *)
Lemma plan_batch_chunks items d plans :
  in_u 8 d → plan_batch items d = Ok plans →
  ∃ entries kcs, Forall2 (entry_of d) items entries ∧
    plans = uncurry read_plan_of <$> kcs ∧ concat (kcs.*2) ≡ₚ entries ∧
    Forall (uncurry chunk_ok) kcs.
Proof.
  intros Hd H. unfold plan_batch in H. inv_ok.
  apply group_items_spec in Hv as (entries & H2 & Hperm & Hall); [|done|constructor].
  destruct (plan_groups_chunks v [] Hall) as (kcs & Hplan & Hcat & Hok).
  rewrite Hplan in H. injection H as <-. exists entries, kcs.
  split; [done|]. split; [done|]. split; [|done]. by rewrite Hcat, Hperm.
Qed.

(** ** Addresses inside a chunk *)

(** The [i]-th entry of a chunk is [i] addresses after the first. *)
Lemma chunk_address c e0 i e :
  Sorted (λ a b, address (ge_addr b) = address (ge_addr a) + 1) (e0 :: c) →
  (e0 :: c) !! i = Some e → address (ge_addr e) = address (ge_addr e0) + Z.of_nat i.
Proof.
  revert e0 i. induction c as [|e1 c IH]; intros e0 [|i] Hs Hi; simpl in Hi; simplify_eq; try lia.
  inversion Hs as [|? ? Hs' Hh]; subst. inversion Hh as [|? ? He1]; subst.
  rewrite (IH e1 i Hs' Hi), He1. lia.
Qed.

Section chunk.
Context (key : group_key) (c : list GroupEntry) (Hc : chunk_ok key c).

Lemma chunk_entry i e :
  c !! i = Some e →
  entry_in key e ∧ offset (ge_addr e) = chunk_start c + Z.of_nat i ∧
  wrap16 (offset (ge_addr e) - chunk_start c) = Z.of_nat i ∧
  item_width key.2 (ge_type e) = ge_width e ∧ 0 ≤ chunk_start c ∧
  chunk_start c + Z.of_nat i + ge_width e ≤ 65536.
Proof using Hc.
  intros Hi. destruct c as [|e0 c'] eqn:Ec; [done|].
  pose proof (co_in _ _ Hc) as Hin.
  pose proof (Forall_lookup_1 _ _ _ _ Hin Hi) as [Hk [Hwf Hend]].
  apply Forall_cons in Hin as [[Hk0 [Hwf0 _]] _].
  apply chunk_address in Hi as Haddr; [|by apply co_next in Hc].
  destruct (offset_wf _ Hwf) as [Ho ?]. destruct (offset_wf _ Hwf0) as [Ho0 ?].
  assert (kind (ge_addr e) = kind (ge_addr e0)) as Hkk.
  { unfold ge_key in *. congruence. }
  cbn [chunk_start]. rewrite Hkk in Ho.
  assert (offset (ge_addr e) = offset (ge_addr e0) + Z.of_nat i) as Hoff by lia.
  split; [done|]. split; [done|]. split; [|split; [|lia]].
  - rewrite (wrap_small 16) by (unfold in_u; lia). lia.
  - unfold ge_width. by rewrite <- Hk.
Qed.

Lemma chunk_last : ∃ e, last c = Some e ∧ c !! pred (length c) = Some e.
Proof using Hc.
  assert (is_Some (last c)) as [e He] by (apply last_is_Some; by eapply co_nonempty).
  exists e. by rewrite <- last_lookup.
Qed.

(** The frame spans from the first address to the end of the last item,
    within the request limit and the address space. *)
Lemma chunk_quantity_eq :
  ∃ e, last c = Some e ∧ chunk_quantity key.2 c = Z.of_nat (pred (length c)) + ge_width e ∧
    1 ≤ chunk_quantity key.2 c ≤ read_limit key.2 ∧
    chunk_start c + chunk_quantity key.2 c ≤ 65536.
Proof using Hc.
  destruct chunk_last as (e & He & Hl). exists e. split; [done|].
  apply chunk_entry in Hl as (_ & _ & Hw & Hi & ? & Hend).
  assert (Z.of_nat (pred (length c)) + ge_width e ≤ read_limit key.2) as Hlim.
  { etransitivity; [|by apply co_limit in Hc]. apply sumZ_span; [|done].
    apply Forall_forall. intros x _. apply item_width_range. }
  assert (1 ≤ ge_width e) by apply item_width_range.
  pose proof (read_limit_range key.2).
  assert (chunk_quantity key.2 c = Z.of_nat (pred (length c)) + ge_width e) as ->.
  { unfold chunk_quantity. rewrite He, Hw, Hi. apply (wrap_small 16). unfold in_u. lia. }
  split; [done|]. lia.
Qed.
End chunk.

(** ** What the driver relies on *)
Lemma plan_batch_quantities items d plans :
  in_u 8 d → plan_batch items d = Ok plans → Forall (λ p, 0 ≤ rp_quantity p) plans.
Proof.
  intros Hd (entries & kcs & _ & -> & _ & Hok)%plan_batch_chunks; [|done].
  apply Forall_fmap. eapply Forall_impl; [exact Hok|]. intros [key c] Hc. cbn in Hc |- *.
  destruct (chunk_quantity_eq _ _ Hc) as (e & _ & _ & ? & _). lia.
Qed.

Lemma plan_batch_ids items d plans :
  in_u 8 d → plan_batch items d = Ok plans →
  concat ((λ p, pi_item_id <$> rp_items p) <$> plans) ≡ₚ ri_id <$> items.
Proof.
  intros Hd (entries & kcs & H2 & -> & Hperm & _)%plan_batch_chunks; [|done].
  trans (ge_id <$> entries).
  - rewrite <- Hperm. clear. induction kcs as [|[key c] kcs IH]; [done|].
    cbn [fmap list_fmap concat uncurry snd] in *. rewrite IH, fmap_app. f_equiv.
    unfold read_plan_of. cbn [rp_items]. by rewrite <- list_fmap_compose.
  - clear Hperm. induction H2 as [|item e items entries (_ & Hid & _) H2 IH]; [done|].
    cbn [fmap list_fmap]. by rewrite IH, Hid.
Qed.

(** ** The theorems *)

(** Where a plan's request puts each of its items: id, unit, segment, protocol
    offset of the first unit, expected type. *)
Definition plan_locations (p : ReadPlan) :
    list (Z * group_key * Z * option DataType.t) :=
  (λ i, (pi_item_id i, (rp_unit_id p, rp_kind p), rp_start_offset p + pi_offset_in_frame i,
         pi_expected_type i)) <$> rp_items p.

(** Where an item asks to be read. *)
Definition item_location (d : Z) (item : DriverReadItem) :
    option (Z * group_key * Z * option DataType.t) :=
  match parse_address (ri_address item) d with
  | Ok a => Some (ri_id item, (unit_id a, kind a), offset a, ri_expected_type item)
  | _ => None
  end.

Lemma read_plan_locations key c :
  chunk_ok key c →
  plan_locations (read_plan_of key c) =
    (λ e, (ge_id e, ge_key e, offset (ge_addr e), ge_type e)) <$> c.
Proof.
  intros Hc. unfold plan_locations, read_plan_of. cbn [rp_items rp_unit_id rp_kind rp_start_offset].
  rewrite <- list_fmap_compose. apply list_fmap_ext. intros i e Hi.
  destruct (chunk_entry _ _ Hc i e Hi) as ([Hk _] & Ho & Hw & _).
  unfold planned. cbn. rewrite Hw, Hk, Ho. by destruct key.
Qed.

(** Planning loses nothing and invents nothing: the requests of a plan
    locate exactly the requested items, each once, at the unit, segment and
    offset its address denotes and with its type. *)
Theorem plan_batch_complete items d plans :
  in_u 8 d → plan_batch items d = Ok plans →
  Some <$> concat (plan_locations <$> plans) ≡ₚ item_location d <$> items.
Proof.
  intros Hd (entries & kcs & H2 & -> & Hperm & Hok)%plan_batch_chunks; [|done].
  trans (Some <$> ((λ e, (ge_id e, ge_key e, offset (ge_addr e), ge_type e)) <$> entries)).
  - f_equiv. rewrite <- Hperm. clear Hperm H2.
    induction Hok as [|[key c] kcs Hc Hok IH]; [done|]. simpl.
    by rewrite IH, read_plan_locations, fmap_app.
  - clear Hperm Hok. induction H2 as [|item e items entries (Hp & Hid & Hty) H2 IH]; [done|].
    simpl. rewrite IH. unfold item_location at 2. by rewrite Hp, Hid, Hty.
Qed.

(** Every request respects the protocol: at least one unit, at most 125
    registers or 2000 bits, inside the 16-bit address space; so the response's
    byte count fits its one-byte field. *)
Theorem plan_batch_limits items d plans p :
  in_u 8 d → plan_batch items d = Ok plans → p ∈ plans →
  1 ≤ rp_quantity p ≤ read_limit (rp_kind p) ∧
  0 ≤ rp_start_offset p ∧ rp_start_offset p + rp_quantity p ≤ 65536 ∧
  1 ≤ expected_data_len (RegisterKind.function_code (rp_kind p)) (rp_quantity p) ≤ 250.
Proof.
  intros Hd (entries & kcs & _ & -> & _ & Hok)%plan_batch_chunks Hp; [|done].
  apply list_elem_of_fmap in Hp as ([key c] & -> & Hin).
  rewrite Forall_forall in Hok. specialize (Hok _ Hin). cbn [uncurry] in *.
  destruct (chunk_quantity_eq _ _ Hok) as (e & He & Hq & Hlim & Hend).
  destruct (chunk_last _ _ Hok) as (e' & _ & Hl').
  destruct (chunk_entry _ _ Hok _ _ Hl') as (_ & _ & _ & _ & Hs0 & _).
  cbn [rp_quantity rp_kind rp_start_offset read_plan_of].
  split; [done|]. split; [done|]. split; [done|].
  unfold expected_data_len. destruct key as [u []]; cbn [snd] in *;
    unfold read_limit, MAX_BITS_PER_REQUEST, MAX_REGISTERS_PER_REQUEST in *; cbn -[div_ceil Z.mul];
    rewrite ?div_ceil_spec by lia; dlia.
Qed.

(** *** Success and failure *)

(** The item has a well-formed address and its units end inside the 16-bit
    address space. *)
Definition item_fits (d : Z) (item : DriverReadItem) : bool :=
  match parse_address (ri_address item) d with
  | Ok a => offset a + item_width (kind a) (ri_expected_type item) <=? 65536
  | _ => false
  end.

Lemma group_items_total items d groups :
  match group_items items d groups with
  | Ok _ => forallb (item_fits d) items = true
  | Err e => e = ModbusError.invalid_address ∧ forallb (item_fits d) items = false
  | Panic => False
  end.
Proof.
  revert groups. induction items as [|item items IH]; intros groups; [done|].
  cbn [group_items forallb]. unfold item_fits at 1 3.
  pose proof (parse_address_no_panic (ri_address item) d) as Hnp.
  destruct (parse_address _ _) as [a|e|]; cbn [map_err outcome_bind]; [|by split|done].
  case_if.
  - split; [done|]. apply andb_false_intro1. lia.
  - replace (_ <=? 65536) with true by lia. apply IH.
Qed.

Lemma plan_batch_cases items d :
  in_u 8 d →
  match plan_batch items d with
  | Ok _ => forallb (item_fits d) items = true
  | Err e => e = ModbusError.invalid_address ∧ forallb (item_fits d) items = false
  | Panic => False
  end.
Proof.
  intros Hd. unfold plan_batch. pose proof (group_items_total items d []) as Ht.
  destruct (group_items items d []) as [groups|e|] eqn:Eg; cbn [outcome_bind]; [|done..].
  apply group_items_spec in Eg as (_ & _ & _ & Hall); [|done|constructor].
  by destruct (plan_groups_chunks groups [] Hall) as (kcs & -> & _).
Qed.

(** Planning is total: it succeeds exactly when every item has a valid
    address whose units fit the 16-bit space, otherwise it reports
    [invalid_address]; it never panics (every chunk has a last item). *)
Theorem plan_batch_total items d :
  in_u 8 d →
  match plan_batch items d with
  | Ok _ => forallb (item_fits d) items = true
  | Err e => e = ModbusError.invalid_address ∧ forallb (item_fits d) items = false
  | Panic => False
  end.
Proof. apply plan_batch_cases. Qed.

(** *** Coverage *)

(** Two items do not share a unit of the same segment of the same device. *)
Definition spans_disjoint (d : Z) (x y : DriverReadItem) : Prop :=
  match parse_address (ri_address x) d, parse_address (ri_address y) d with
  | Ok a, Ok b =>
      (unit_id a, kind a) ≠ (unit_id b, kind b) ∨
      offset a + item_width (kind a) (ri_expected_type x) ≤ offset b ∨
      offset b + item_width (kind b) (ri_expected_type y) ≤ offset a
  | _, _ => True
  end.

Definition entries_disjoint (a b : GroupEntry) : Prop :=
  ge_key a ≠ ge_key b ∨ offset (ge_addr a) + ge_width a ≤ offset (ge_addr b) ∨
  offset (ge_addr b) + ge_width b ≤ offset (ge_addr a).

Lemma entries_disjoint_of d items entries :
  Forall2 (entry_of d) items entries → ForallOrdPairs (spans_disjoint d) items →
  ForallOrdPairs entries_disjoint entries.
Proof.
  induction 1 as [|x e items entries (Hx & _ & Hxt) H2 IH]; intros H; [constructor|].
  inversion H as [|? ? Hall H']; subst. constructor; [|by apply IH].
  clear IH H H'. induction H2 as [|y e' items entries (Hy & _ & Hyt) H2 IH]; [done|].
  apply Forall_cons in Hall as [Hxy Hall]. constructor; [|by apply IH].
  unfold spans_disjoint in Hxy. rewrite Hx, Hy, <- Hxt, <- Hyt in Hxy. exact Hxy.
Qed.

Lemma chunk_covers key c i e :
  chunk_ok key c → ForallOrdPairs entries_disjoint c → c !! i = Some e →
  Z.of_nat i + ge_width e ≤ chunk_quantity key.2 c.
Proof.
  intros Hc Hd Hi. destruct (chunk_quantity_eq _ _ Hc) as (l & Hl & -> & _).
  rewrite last_lookup in Hl. apply lookup_lt_Some in Hi as Hlt.
  destruct (decide (i = pred (length c))) as [->|Hne]; [simplify_eq; lia|].
  destruct (chunk_entry _ _ Hc _ _ Hi) as ([Hk _] & Ho & _ & _ & _).
  destruct (chunk_entry _ _ Hc _ _ Hl) as ([Hk' _] & Ho' & _ & _ & _).
  assert (1 ≤ ge_width e ∧ 1 ≤ ge_width l) by (split; apply item_width_range).
  pose proof (ForallOrdPairs_lookup _ _ i (pred (length c)) e l Hd ltac:(lia) Hi Hl)
    as [Hdis|Hdis]; [congruence|lia].
Qed.

(** When the items of a batch do not overlap, every planned item's units
    lie inside the range its request asks for, so a full response carries all
    the bytes the decoder needs. *)
Theorem plan_batch_covers items d plans p i :
  in_u 8 d → plan_batch items d = Ok plans → ForallOrdPairs (spans_disjoint d) items →
  p ∈ plans → i ∈ rp_items p →
  0 ≤ pi_offset_in_frame i ∧ pi_offset_in_frame i + pi_width i ≤ rp_quantity p.
Proof.
  intros Hd (entries & kcs & H2 & -> & Hperm & Hok)%plan_batch_chunks Hdis Hp Hi; [|done].
  apply list_elem_of_fmap in Hp as ([key c] & -> & Hin).
  rewrite Forall_forall in Hok. specialize (Hok _ Hin). cbn [uncurry] in *.
  cbn [rp_items rp_quantity read_plan_of] in *.
  apply list_elem_of_fmap in Hi as (e & -> & [n Hn]%list_elem_of_lookup_1).
  destruct (chunk_entry _ _ Hok _ _ Hn) as (_ & _ & Hw & Hwid & _).
  cbn [planned pi_offset_in_frame pi_width]. rewrite Hw, Hwid. split; [lia|].
  apply chunk_covers; [done| |done].
  apply (ForallOrdPairs_concat_inv _ kcs.*2); [|by apply (list_elem_of_fmap_2 snd) in Hin].
  eapply ForallOrdPairs_perm; [|symmetry; exact Hperm|by eapply entries_disjoint_of].
  unfold entries_disjoint. naive_solver.
Qed.

(** Without that hypothesis the claim is false: a 64-bit item at 40001
    and a 16-bit item at 40002 are merged into one request of two registers,
    although the first item spans four. *)
Theorem plan_batch_overlap_truncates :
  ∃ p i,
    plan_batch [ {| ri_id := 1; ri_address := lit "40001"; ri_expected_type := Some DataType.U64 |};
                 {| ri_id := 2; ri_address := lit "40002"; ri_expected_type := Some DataType.U16 |} ]
      1 = Ok [p] ∧
    i ∈ rp_items p ∧ rp_quantity p = 2 ∧ pi_width i = 4.
Proof.
  eexists _, _. split; [by vm_compute|]. split; [by left|]. done.
Qed.

(** * Correctness of write planning ([plan_write_batch])

    A write plan is a list of chunks of exactly adjacent entries; executed on
    the slave in order it stores the encoded values of the entries and touches
    no other cell. *)

(** ** Entries *)
Definition we_key (e : WriteGroupEntry) : group_key := (unit_id (we_addr e), kind (we_addr e)).
Definition we_units (e : WriteGroupEntry) : Z := EncodedWrite.units (we_encoded e).
Definition we_offset (e : WriteGroupEntry) : Z := offset (we_addr e).

(** The entry an item becomes, when its address parses and its value encodes. *)
Definition write_entry (d : Z) (wo : WordOrder.t) (item : WriteRequest) :
    option WriteGroupEntry :=
  match parse_address (wq_address item) d with
  | Ok a =>
      match encode_write_value (kind a) (wq_value_type item) (wq_value item) wo with
      | Ok encoded => Some {| we_id := wq_id item; we_addr := a; we_encoded := encoded |}
      | _ => None
      end
  | _ => None
  end.

(** The result of an item whose value does not encode. *)
Definition encode_failure (d : Z) (wo : WordOrder.t) (item : WriteRequest) :
    option RawWriteResult :=
  match write_entry d wo item with
  | Some _ => None
  | None => Some {| wr_item_id := wq_id item; wr_success := false; wr_protocol_code := None;
                    wr_error := Some (ModbusError.into_info ModbusError.invalid_type) |}
  end.

Record wentry_in (key : group_key) (e : WriteGroupEntry) : Prop := {
  wi_key : we_key e = key;
  wi_addr : addr_wf (we_addr e);
  wi_encoded : encoded_wf key.2 (we_encoded e);
  wi_end : we_offset e + we_units e ≤ 65536;
}.

Lemma wentry_units key e : wentry_in key e → 1 ≤ we_units e ≤ 4.
Proof. intros [_ _ He _]. by apply encoded_units in He as [? _]. Qed.

Lemma encode_write_value_no_panic k vt v wo : encode_write_value k vt v wo ≠ Panic.
Proof.
  unfold encode_write_value, encode_register_data, register_bytes, order_words, try_from. no_panic.
Qed.

Lemma group_writes_spec items d wo groups errs groups' errs' :
  in_u 8 d → group_writes items d wo groups errs = Ok (groups', errs') →
  btree_all wentry_in groups →
  btree_values groups' ≡ₚ btree_values groups ++ omap (write_entry d wo) items ∧
  errs' = errs ++ omap (encode_failure d wo) items ∧ btree_all wentry_in groups'.
Proof.
  intros Hd. revert groups errs.
  induction items as [|item items IH]; intros groups errs H Hall; cbn [group_writes omap] in *.
  { injection H as <- <-. by rewrite !app_nil_r. }
  inv_ok. subst v. case_if; [done|]. cbn [omap list_omap].
  pose proof (parse_address_in_range _ _ _ Hd Heqo) as Hwf.
  destruct (encode_write_value _ _ _ wo) as [enc|err|] eqn:Eenc; [| |done].
  - assert (write_entry d wo item =
      Some {| we_id := wq_id item; we_addr := a; we_encoded := enc |}) as He.
    { unfold write_entry. by rewrite Heqo, Eenc. }
    replace (encode_failure d wo item) with (@None RawWriteResult)
      by (unfold encode_failure; by rewrite He).
    rewrite He. case_if; [done|]. apply IH in H as (Hperm & -> & Hall').
    + split; [|done]. rewrite Hperm, btree_push_values. by rewrite <- app_assoc.
    + apply btree_push_all; [by intros ? ?%group_cmp_eq|done|].
      split; [done|done| |unfold we_offset, we_units; simpl; lia].
      by eapply encode_write_value_wf.
  - assert (write_entry d wo item = None) as He by (unfold write_entry; by rewrite Heqo, Eenc).
    unfold encode_failure at 1. rewrite He.
    apply IH in H as (Hperm & -> & Hall'); [|done]. split; [done|]. split; [|done].
    by rewrite <- app_assoc.
Qed.

(** ** The values an entry stores *)
Definition slave_kind (k : RegisterKind.t) : Kind.t :=
  match k with
  | RegisterKind.Coil => Kind.Coil
  | RegisterKind.DiscreteInput => Kind.DiscreteInput
  | RegisterKind.InputRegister => Kind.InputRegister
  | RegisterKind.HoldingRegister => Kind.HoldingRegister
  end.

Definition cells_of (e : EncodedWrite.t) : list Z :=
  match e with
  | EncodedWrite.Coil bit => [Z.b2z bit]
  | EncodedWrite.Registers data => words data
  end.

Definition chunk_cells (c : list WriteGroupEntry) : list Z :=
  concat ((λ e, cells_of (we_encoded e)) <$> c).

(** The specification of a single write. *)
Definition store_entry (m : gmap AddrKey Z) (e : WriteGroupEntry) : gmap AddrKey Z :=
  insert_list (unit_id (we_addr e)) (slave_kind (kind (we_addr e))) (we_offset e)
    (cells_of (we_encoded e)) m.

Lemma cells_of_length k e :
  encoded_wf k e → Z.of_nat (length (cells_of e)) = EncodedWrite.units e.
Proof.
  intros He. apply encoded_units in He as Hu. destruct Hu as [Hr Hu]. destruct e as [b|data]; [done|].
  cbn [cells_of].
  destruct (words_spec (Z.to_nat (EncodedWrite.units (EncodedWrite.Registers data))) data)
    as [-> _]; lia.
Qed.

Lemma coil_bits_ok c :
  Forall (λ e, encoded_wf RegisterKind.Coil (we_encoded e)) c →
  ∃ bits, coil_bits c = Ok bits ∧ length bits = length c ∧ Z.b2z <$> bits = chunk_cells c ∧
    sumZ (we_units <$> c) = Z.of_nat (length bits).
Proof.
  induction 1 as [|[id a [bit|]] c He Hc (bits & Hb & Hl & Hcells & Hs)]; [by exists []| |done].
  exists (bit :: bits). cbn [coil_bits we_encoded]. rewrite Hb.
  unfold chunk_cells in *. cbn in *. rewrite Hcells. split; [done|]. split; [lia|].
  split; [done|]. unfold sumZ in *. rewrite Hs. cbn. lia.
Qed.

Lemma register_data_ok c :
  Forall (λ e, encoded_wf RegisterKind.HoldingRegister (we_encoded e)) c →
  ∃ data q, register_data c = Ok data ∧ bytes_ok data ∧ length data = (2 * q)%nat ∧
    sumZ (we_units <$> c) = Z.of_nat q ∧ words data = chunk_cells c.
Proof.
  induction 1 as [|[id a e] c He Hc (data & q & Hd & Hok & Hl & Hs & Hcells)].
  { by exists [], 0%nat. }
  apply encoded_units in He as Hu. destruct e as [|bs]; [done|]. destruct Hu as [Hr Hu].
  cbv beta iota in Hu.
  cbn [we_encoded] in Hr, Hu.
  set (u := EncodedWrite.units (EncodedWrite.Registers bs)) in *. destruct He as [Hbs _].
  exists (bs ++ data), (Z.to_nat u + q)%nat. cbn [register_data we_encoded]. rewrite Hd.
  split; [done|]. split; [by apply Forall_app|]. rewrite length_app. split; [lia|].
  cbn [fmap list_fmap sumZ foldr]. unfold sumZ in Hs. rewrite Hs.
  change (we_units _) with u. split; [lia|].
  rewrite (words_app (Z.to_nat u)) by lia. by rewrite Hcells.
Qed.

(** ** What a write request does to the slave *)

(** The protocol data unit of a write request, and its fields as the slave
    reads them. *)
Definition write_pdu (fn start : Z) (payload : list Z) : list Z :=
  fn :: to_be_bytes 2 start ++ payload.

Definition pdu_quantity (rest : list Z) : Z := from_be_bytes [rest !!! 3%nat; rest !!! 4%nat].
Definition pdu_write_quantity (rest : list Z) : Z :=
  if (rest !!! 0%nat =? 0x05) || (rest !!! 0%nat =? 0x06) then 1 else pdu_quantity rest.

(** The slave accepts the request, stores [vs] from [start] on and echoes the
    first two payload bytes. *)
Record stores (k : Kind.t) (start fn : Z) (payload vs : list Z) : Prop := {
  st_kind : kind_of fn = Some k;
  st_write : mock_is_write_function fn = true;
  st_payload : bytes_ok payload;
  st_length : (2 ≤ length payload ≤ 249)%nat;
  st_effect : let rest := write_pdu fn start payload in
    ∃ tail, echo_tail fn (pdu_quantity rest) (pdu_write_quantity rest) rest = Some tail ∧
      to_be_bytes 2 tail = take 2 payload ∧
      ∀ unit m, apply_write fn unit k start tail (pdu_write_quantity rest) rest m =
        insert_list unit k start vs m;
}.

Lemma pdu_quantity_pdu fn start b1 b2 payload :
  pdu_quantity (write_pdu fn start (b1 :: b2 :: payload)) = from_be_bytes [b1; b2].
Proof. done. Qed.

Lemma from_be_2 z : in_u 16 z → from_be_bytes [z / 256 mod 256; z mod 256] = z.
Proof. intros. rewrite <- to_be_bytes_2. by apply from_to_be_bytes_small. Qed.

Lemma stores_single_coil start bit :
  in_u 16 start →
  stores Kind.Coil start FC_WRITE_SINGLE_COIL (coil_payload bit) [Z.b2z bit].
Proof.
  intros Hs. split; [done|done|destruct bit; cbn; by auto with bytes|destruct bit; cbn; lia|].
  exists (if bit then 0xFF00 else 0). split; [by destruct bit|]. split; [by destruct bit|].
  intros unit m. rewrite insert_list_one by done. by destruct bit.
Qed.

Lemma stores_single_register start data :
  in_u 16 start → bytes_ok data → length data = 2%nat →
  stores Kind.HoldingRegister start FC_WRITE_SINGLE_REGISTER data (words data).
Proof.
  intros Hs Hok Hl. destruct data as [|a [|b [|? ?]]]; try done.
  split; [done|done|done|simpl; lia|]. exists (from_be_bytes [a; b]).
  split; [done|]. split; [by apply (to_from_be_bytes [a; b])|].
  intros unit m. cbn [words]. by rewrite insert_list_one.
Qed.

(** The fields of a multiple write. *)
Lemma multi_fields fn start q data :
  in_u 16 q → Z.of_nat (length data) < 256 →
  let rest := write_pdu fn start (multi_payload q data) in
  pdu_quantity rest = q ∧ rest !! 5%nat = Some (Z.of_nat (length data)) ∧
  length rest = (6 + length data)%nat ∧
  rest = (fn :: to_be_bytes 2 start ++ to_be_bytes 2 q ++ [Z.of_nat (length data)]) ++ data.
Proof.
  intros Hq Hd rest. unfold rest, multi_payload. rewrite (wrap_small 8) by (unfold in_u; lia).
  rewrite (to_be_bytes_2 q). split; [by apply from_be_2|]. done.
Qed.

Lemma multi_payload_ok q data :
  bytes_ok data → bytes_ok (multi_payload q data) ∧ length (multi_payload q data) = (3 + length data)%nat.
Proof.
  intros Hd. unfold multi_payload. split; [|done].
  apply Forall_app_2; [by auto with bytes|]. constructor; [apply wrap_byte_ok|done].
Qed.

Lemma stores_multiple_coils start bits :
  in_u 16 start → 1 ≤ Z.of_nat (length bits) ≤ 1968 →
  stores Kind.Coil start FC_WRITE_MULTIPLE_COILS
    (multi_payload (Z.of_nat (length bits)) (pack_bits bits)) (Z.b2z <$> bits).
Proof.
  intros Hs Hb. pose proof (length_pack_bits bits) as Hl.
  assert (div_ceil (Z.of_nat (length bits)) 8 = Z.of_nat (length (pack_bits bits))
    ∧ 1 ≤ Z.of_nat (length (pack_bits bits)) ≤ 246) as [Hlz Hr].
  { rewrite Hl. rewrite div_ceil_spec by lia. rewrite Z2Nat.id by dlia. split; [done|dlia]. }
  destruct (multi_payload_ok (Z.of_nat (length bits)) (pack_bits bits) (pack_bits_ok bits))
    as [Hok Hlen].
  destruct (multi_fields FC_WRITE_MULTIPLE_COILS start (Z.of_nat (length bits)) (pack_bits bits))
    as (Hq & H5 & Hrl & Hrest); [unfold in_u; lia|lia|].
  split; [done|done|done|rewrite Hlen; lia|]. cbv zeta.
  assert (∀ p, pdu_write_quantity (write_pdu FC_WRITE_MULTIPLE_COILS start p) =
    pdu_quantity (write_pdu FC_WRITE_MULTIPLE_COILS start p)) as Hw by done.
  rewrite Hw, Hq. exists (Z.of_nat (length bits)). split; [|split; [done|]].
  - unfold echo_tail. cbn [Z.eqb Pos.eqb FC_WRITE_MULTIPLE_COILS].
    rewrite H5, Hrl, Hlz. unfold default, id. by replace (_ || _) with false by lia.
  - intros unit m. by eapply apply_write_coils; [|exact Hrest].
Qed.

Lemma stores_multiple_registers start data q :
  in_u 16 start → bytes_ok data → length data = (2 * q)%nat → (1 ≤ q ≤ 123)%nat →
  stores Kind.HoldingRegister start FC_WRITE_MULTIPLE_REGISTERS
    (multi_payload (Z.of_nat q) data) (words data).
Proof.
  intros Hs Hd Hl Hq.
  destruct (multi_payload_ok (Z.of_nat q) data Hd) as [Hok Hlen].
  destruct (multi_fields FC_WRITE_MULTIPLE_REGISTERS start (Z.of_nat q) data)
    as (Hqq & H5 & Hrl & Hrest); [unfold in_u; lia|lia|].
  split; [done|done|done|rewrite Hlen; lia|]. cbv zeta.
  assert (∀ p, pdu_write_quantity (write_pdu FC_WRITE_MULTIPLE_REGISTERS start p) =
    pdu_quantity (write_pdu FC_WRITE_MULTIPLE_REGISTERS start p)) as Hw by done.
  rewrite Hw, Hqq. exists (Z.of_nat q). split; [|split; [done|]].
  - unfold echo_tail. cbn [Z.eqb Pos.eqb FC_WRITE_MULTIPLE_REGISTERS].
    rewrite H5, Hrl. unfold default, id. by replace (_ || _) with false by lia.
  - intros unit m. by eapply apply_write_registers; [|exact Hl|exact Hrest].
Qed.

(** ** Plans are chunks *)
Definition payload_of (k : RegisterKind.t) (c : list WriteGroupEntry) : Z * list Z :=
  match build_write_payload k c (wrap16 (sumZ (we_units <$> c))) with
  | Ok r => r
  | _ => (0, [])
  end.

Definition wchunk_start (c : list WriteGroupEntry) : Z :=
  match c with e :: _ => we_offset e | [] => 0 end.

Definition write_plan_of (key : group_key) (c : list WriteGroupEntry) : WritePlan :=
  {| wp_unit_id := key.1; wp_kind := key.2; wp_function := (payload_of key.2 c).1;
     wp_start_offset := wchunk_start c; wp_quantity := wrap16 (sumZ (we_units <$> c));
     wp_payload := (payload_of key.2 c).2; wp_item_ids := we_id <$> c |}.

Lemma Forall_encoded key c :
  Forall (wentry_in key) c → Forall (λ e, encoded_wf key.2 (we_encoded e)) c.
Proof. intros H. eapply Forall_impl; [exact H|]. by intros e []. Qed.

(** Building a payload never reaches the [unreachable!] arms. *)
Lemma build_write_payload_ok key c q :
  Forall (wentry_in key) c → c ≠ [] → is_Some (write_limit key.2) →
  ∃ r, build_write_payload key.2 c q = Ok r.
Proof.
  intros Hc%Forall_encoded Hne [limit Hl]. destruct key as [u []]; try done; cbn [snd] in *.
  - destruct (coil_bits_ok c Hc) as (bits & Hb & Hlen & _). cbn [build_write_payload].
    rewrite Hb. cbn [outcome_bind]. case_if; [|by eexists].
    destruct bits as [|b bits]; [by destruct c|]. by eexists.
  - destruct (register_data_ok c Hc) as (data & n & Hd & _). cbn [build_write_payload].
    rewrite Hd. cbn [outcome_bind]. case_if; by eexists.
Qed.

Lemma payload_of_eq key c :
  Forall (wentry_in key) c → c ≠ [] → is_Some (write_limit key.2) →
  build_write_payload key.2 c (wrap16 (sumZ (we_units <$> c))) = Ok (payload_of key.2 c).
Proof.
  intros Hc Hne Hl. unfold payload_of.
  by destruct (build_write_payload_ok key c (wrap16 (sumZ (we_units <$> c))) Hc Hne Hl) as [r ->].
Qed.

(** The payload of a chunk stores the chunk's cells. *)
Lemma payload_of_stores key c limit start :
  Forall (wentry_in key) c → c ≠ [] → write_limit key.2 = Some limit →
  sumZ (we_units <$> c) ≤ limit → in_u 16 start →
  stores (slave_kind key.2) start (payload_of key.2 c).1 (payload_of key.2 c).2 (chunk_cells c).
Proof.
  intros Hc Hne Hl Hsum Hs.
  assert (build_write_payload key.2 c (wrap16 (sumZ (we_units <$> c))) = Ok (payload_of key.2 c))
    as Hp by by apply payload_of_eq.
  apply Forall_encoded in Hc. revert Hp. generalize (payload_of key.2 c) as r. intros r Hp.
  destruct key as [u []]; try done; cbn [snd] in *; injection Hl as <-; cbn [slave_kind].
  - destruct (coil_bits_ok c Hc) as (bits & Hb & Hlen & <- & Hbs). cbn [build_write_payload] in Hp.
    rewrite Hb in Hp. cbn [outcome_bind] in Hp. rewrite Hbs in *.
    unfold MAX_WRITE_BITS_PER_REQUEST in Hsum. case_if.
    + destruct bits as [|bit [|? ?]]; simpl in Hlen; try lia. injection Hp as <-.
      by apply stores_single_coil.
    + injection Hp as <-. cbn [fst snd]. rewrite (wrap_small 16) by (unfold in_u; lia).
      apply stores_multiple_coils; [done|]. destruct c; [done|]. simpl in Hlen. lia.
  - destruct (register_data_ok c Hc) as (data & n & Hd & Hok & Hlen & Hn & <-).
    cbn [build_write_payload] in Hp. rewrite Hd in Hp. cbn [outcome_bind] in Hp.
    unfold MAX_WRITE_REGISTERS_PER_REQUEST in Hsum.
    assert (1 ≤ sumZ (we_units <$> c)) as H1.
    { destruct c as [|e c]; [done|]. apply Forall_cons in Hc as [He Hc].
      apply encoded_units in He as [He _]. cbn. change (sumZ _) with (sumZ (we_units <$> c)).
      enough (0 ≤ sumZ (we_units <$> c)) by (unfold sumZ, we_units in *; lia).
      clear -Hc. induction Hc as [|x c [Hx _]%encoded_units Hc IH]; [done|].
      unfold sumZ, we_units in *. cbn in *. lia. }
    case_if; injection Hp as <-; cbn [fst snd].
    + apply stores_single_register; [done|done|]. destruct c as [|e [|? ?]]; try done.
      unfold we_units in Hn. cbn in Hn. lia.
    + rewrite Hn, (wrap_small 16) by (unfold in_u; lia). apply stores_multiple_registers; try done. lia.
Qed.

Lemma write_chunk_cut limit used run :
  write_chunk limit used run =
    ((cut we_units limit used run).1,
     used + sumZ (we_units <$> (cut we_units limit used run).1),
     (cut we_units limit used run).2).
Proof.
  revert used. induction run as [|e run IH]; intros used; cbn [write_chunk cut].
  { cbn. by rewrite Z.add_0_r. }
  change (EncodedWrite.units (we_encoded e)) with (we_units e).
  case_if; [cbn; by rewrite Z.add_0_r|]. rewrite IH.
  destruct (cut _ _ _ run). cbn. by rewrite Z.add_assoc.
Qed.

Lemma write_limit_range k limit : write_limit k = Some limit → 123 ≤ limit ≤ 1968.
Proof. destruct k; intros [= <-]; done. Qed.

Lemma emit_write_plan_loop_chunks fuel key limit run plans :
  (length run ≤ fuel)%nat → Forall (wentry_in key) run → write_limit key.2 = Some limit →
  emit_write_plan_loop fuel key.1 key.2 limit run plans =
    Ok (plans ++ (write_plan_of key <$> chunks_of we_units limit fuel run)).
Proof.
  intros Hf Hin Hl. revert run plans Hf Hin.
  pose proof (write_limit_range _ _ Hl) as Hl4.
  induction fuel as [|fuel IH]; intros [|e run] plans Hf Hin; simpl in Hf; try lia;
    cbn [emit_write_plan_loop chunks_of]; [by rewrite app_nil_r..|].
  apply Forall_cons in Hin as Hin'. destruct Hin' as [He _]. apply wentry_units in He.
  rewrite write_chunk_cut.
  destruct (cut_nonempty we_units limit e run ltac:(lia)) as [c Hc].
  pose proof (cut_app we_units limit 0 (e :: run)) as Happ.
  destruct (cut _ _ 0 (e :: run)) as [c' rest]. cbn [fst snd] in *. subst c'.
  rewrite <- Happ in Hin. apply Forall_app in Hin as [Hc Hrest].
  cbn [length Nat.eqb]. rewrite Z.add_0_l, payload_of_eq by done.
  destruct (payload_of key.2 (e :: c)) as [fn payload] eqn:Ep. cbn [outcome_bind].
  rewrite IH; [| |done].
  - rewrite <- app_assoc. rewrite (fmap_cons (write_plan_of key)).
    unfold write_plan_of at 2. by rewrite Ep.
  - apply (f_equal length) in Happ. rewrite length_app in Happ. simpl in Happ. lia.
Qed.

(** A chunk of the group [key]: exactly adjacent entries within the limit. *)
Record wchunk_ok (key : group_key) (c : list WriteGroupEntry) : Prop := {
  wc_nonempty : c ≠ [];
  wc_in : Forall (wentry_in key) c;
  wc_next : Sorted (λ a b, we_offset b = we_offset a + we_units a) c;
  wc_limit : ∃ limit, write_limit key.2 = Some limit ∧ sumZ (we_units <$> c) ≤ limit;
}.

Definition addr_le (a b : WriteGroupEntry) : Prop := address (we_addr a) ≤ address (we_addr b).

(** The wrapped adjacency test is exact on a group sorted by address. *)
Lemma write_continues key x y :
  wentry_in key x → wentry_in key y → continues write_breaks x y ∧ addr_le x y →
  we_offset y = we_offset x + we_units x.
Proof.
  intros Hx Hy [Hc Hle]. unfold continues, write_breaks in Hc. rewrite negb_false_iff in Hc.
  pose proof (wentry_units _ _ Hx) as Hu. destruct Hx as [Hkx Hax _ Hex], Hy as [Hky Hay _ _].
  destruct (offset_wf _ Hax) as [Hox ?], (offset_wf _ Hay) as [Hoy ?].
  assert (kind (we_addr x) = kind (we_addr y)) as Hk by (unfold we_key in *; congruence).
  rewrite Hk in Hox. unfold addr_le, we_offset, we_units in *.
  destruct (decide (offset (we_addr x) + EncodedWrite.units (we_encoded x) = 65536)) as [E|E].
  - rewrite E in Hc. change (wrap16 65536) with 0 in Hc. lia.
  - rewrite (wrap_small 16) in Hc by (unfold in_u; lia). lia.
Qed.

Lemma plan_write_group_chunks key limit group plans :
  Forall (wentry_in key) group → write_limit key.2 = Some limit → Sorted addr_le group →
  ∃ cs, run_loop write_breaks (emit_write_plan key.1 key.2 limit) group [] plans
          = Ok (plans ++ (write_plan_of key <$> cs)) ∧
        concat cs = group ∧ Forall (wchunk_ok key) cs.
Proof.
  intros Hin Hl Hs.
  pose proof (write_limit_range _ _ Hl) as Hl4.
  destruct (run_loop_pieces write_breaks (emit_write_plan key.1 key.2 limit)
    (write_plan_of key) we_units limit (wentry_in key)) with (group := group) (plans := plans)
    as (cs & Hrun & Hcat & Hp); [lia| | |done|].
  { intros e He%wentry_units. lia. }
  { intros r ps Hr. unfold emit_write_plan. by apply emit_write_plan_loop_chunks. }
  exists cs. split; [done|]. split; [done|].
  rewrite <- Hcat, Forall_concat in Hin. rewrite <- Hcat in Hs. apply Sorted_concat_inv in Hs.
  rewrite Forall_forall in *. intros c Hc. destruct (Hp c Hc) as (Hne & Hcont & Hsum).
  split; [done|by apply Hin| |by exists limit].
  eapply Sorted_impl_Forall; [apply (write_continues key)|by apply Hin|].
  apply Sorted_and; [done|by apply Hs].
Qed.

Lemma wentry_limit key e : wentry_in key e → is_Some (write_limit key.2).
Proof. intros [_ _ He _]. destruct key as [u []], (we_encoded e); try done; by eexists. Qed.

Lemma plan_write_groups_chunks groups plans :
  btree_all wentry_in groups →
  ∃ kcs, plan_write_groups groups plans = Ok (plans ++ (uncurry write_plan_of <$> kcs)) ∧
    concat (kcs.*2) ≡ₚ btree_values groups ∧ Forall (uncurry wchunk_ok) kcs.
Proof.
  revert plans. induction groups as [|[[u k] group] groups IH]; intros plans Hall;
    cbn [plan_write_groups].
  { exists []. by rewrite app_nil_r. }
  apply Forall_cons in Hall as [Hg Hall]. cbn [fst snd] in Hg.
  destruct (write_limit k) as [limit|] eqn:El.
  2:{ destruct group as [|e group]; [by apply IH|].
      apply Forall_cons in Hg as [He _]. apply wentry_limit in He as [? ?]. simpl in *. congruence. }
  set (sorted := sort_by_key (λ e, address (we_addr e)) group).
  destruct (plan_write_group_chunks (u, k) limit sorted plans) as (cs & Hrun & Hcat & Hok); [|done| |].
  { unfold sorted. by rewrite sort_by_key_perm. }
  { apply StronglySorted_Sorted, sort_by_key_sorted. }
  cbn [fst snd] in Hrun. rewrite Hrun. cbn [outcome_bind].
  destruct (IH (plans ++ (write_plan_of (u, k) <$> cs)) Hall) as (kcs & -> & Hperm & Hoks).
  exists ((pair (u, k) <$> cs) ++ kcs). split; [|split].
  - rewrite fmap_app, <- app_assoc, <- list_fmap_compose. done.
  - rewrite fmap_app, concat_app, Hperm, <- list_fmap_compose.
    unfold btree_values. cbn [fmap list_fmap concat snd]. f_equiv.
    rewrite (list_fmap_ext _ id) by done. rewrite list_fmap_id, Hcat. apply sort_by_key_perm.
  - apply Forall_app. split; [|done]. by rewrite Forall_fmap.
Qed.

(** A successful plan is a list of chunks of the encodable items. *)
Lemma plan_write_batch_chunks items d wo plans errs :
  in_u 8 d → plan_write_batch items d wo = Ok (plans, errs) →
  ∃ kcs, plans = uncurry write_plan_of <$> kcs ∧
    concat (kcs.*2) ≡ₚ omap (write_entry d wo) items ∧ Forall (uncurry wchunk_ok) kcs ∧
    errs = omap (encode_failure d wo) items.
Proof.
  intros Hd H. unfold plan_write_batch in H. inv_ok. destruct v as [groups errs'].
  apply group_writes_spec in Hv as (Hperm & Herr & Hall); [|done|constructor].
  destruct (plan_write_groups_chunks groups [] Hall) as (kcs & Hplan & Hcat & Hok).
  rewrite Hplan in H. cbn [outcome_bind] in H. injection H as <- <-.
  exists kcs. split; [done|]. split; [by rewrite Hcat, Hperm|]. done.
Qed.

(** ** The effect of a plan on the slave's bank *)

(** A healthy slave executing the write request of a plan. *)
Definition plan_effect (p : WritePlan) (m : gmap AddrKey Z) : option (gmap AddrKey Z) :=
  let rest := write_pdu (wp_function p) (wp_start_offset p) (wp_payload p) in
  match kind_of (wp_function p) with
  | Some k =>
      (λ tail, apply_write (wp_function p) (wp_unit_id p) k (wp_start_offset p) tail
                 (pdu_write_quantity rest) rest m)
        <$> echo_tail (wp_function p) (pdu_quantity rest) (pdu_write_quantity rest) rest
  | None => None
  end.

Fixpoint plans_effect (plans : list WritePlan) (m : gmap AddrKey Z) : option (gmap AddrKey Z) :=
  match plans with
  | [] => Some m
  | p :: plans' => plan_effect p m ≫= plans_effect plans'
  end.

(** Storing a chunk at once is storing its entries one by one. *)
Lemma chunk_store key c m :
  Forall (wentry_in key) c → Sorted (λ a b, we_offset b = we_offset a + we_units a) c →
  insert_list key.1 (slave_kind key.2) (wchunk_start c) (chunk_cells c) m = foldl store_entry m c.
Proof.
  revert m. induction c as [|e c IH]; intros m Hin Hs; [done|].
  apply Forall_cons in Hin as [He Hin]. inversion Hs as [|? ? Hs' Hh]; subst.
  unfold chunk_cells. cbn [fmap list_fmap concat foldl wchunk_start].
  rewrite insert_list_app, (cells_of_length key.2) by apply He. destruct c as [|e' c].
  - cbn. unfold insert_list at 1. cbn. unfold store_entry. rewrite <- (wi_key _ _ He). done.
  - inversion Hh as [|? ? Hadj]; subst. rewrite <- IH by done. cbn [wchunk_start].
    unfold we_units in Hadj. rewrite Hadj. f_equal. unfold store_entry.
    rewrite <- (wi_key _ _ He). done.
Qed.

Lemma wchunk_start_range key c : wchunk_ok key c → in_u 16 (wchunk_start c).
Proof.
  intros [Hne Hin _ _]. destruct c as [|e c]; [done|]. apply Forall_cons in Hin as [[_ Ha _ _] _].
  by apply offset_wf in Ha as [_ ?].
Qed.

Lemma wchunk_stores key c :
  wchunk_ok key c →
  stores (slave_kind key.2) (wchunk_start c) (payload_of key.2 c).1 (payload_of key.2 c).2
    (chunk_cells c).
Proof.
  intros Hc. pose proof (wchunk_start_range _ _ Hc). destruct Hc as [Hne Hin _ (limit & Hl & Hs)].
  by eapply payload_of_stores.
Qed.

Lemma plan_effect_chunk key c m :
  wchunk_ok key c → plan_effect (write_plan_of key c) m = Some (foldl store_entry m c).
Proof.
  intros Hc. destruct (wchunk_stores _ _ Hc) as [Hk _ _ _ (tail & Htail & _ & Happly)].
  unfold plan_effect. cbn [wp_function wp_start_offset wp_payload wp_unit_id write_plan_of].
  rewrite Hk, Htail. cbn [fmap option_fmap option_map]. rewrite Happly. f_equal.
  destruct Hc. by apply chunk_store.
Qed.

Lemma plans_effect_chunks kcs m :
  Forall (uncurry wchunk_ok) kcs →
  plans_effect (uncurry write_plan_of <$> kcs) m = Some (foldl store_entry m (concat kcs.*2)).
Proof.
  intros H. revert m. induction H as [|[key c] kcs Hc H IH]; intros m; [done|].
  cbn [fmap list_fmap plans_effect uncurry concat snd]. rewrite plan_effect_chunk by done.
  cbn [mbind option_bind]. by rewrite IH, foldl_app.
Qed.

(** ** Storing entries one by one *)
Definition covers (e : WriteGroupEntry) (a : AddrKey) : Prop :=
  ∃ i, (i < length (cells_of (we_encoded e)))%nat ∧
    a = (unit_id (we_addr e), slave_kind (kind (we_addr e)), we_offset e + Z.of_nat i).

Definition fits (e : WriteGroupEntry) : Prop :=
  0 ≤ we_offset e ∧ we_offset e + Z.of_nat (length (cells_of (we_encoded e))) ≤ 65536.

Lemma wentry_fits key e : wentry_in key e → fits e.
Proof.
  intros [_ Ha He Hend]. unfold fits, we_offset, we_units in *.
  rewrite (cells_of_length key.2) by done. apply offset_wf in Ha as [_ ?]. lia.
Qed.

Lemma store_entry_covered e m i :
  fits e → (i < length (cells_of (we_encoded e)))%nat →
  store_entry m e !! (unit_id (we_addr e), slave_kind (kind (we_addr e)), we_offset e + Z.of_nat i)
    = cells_of (we_encoded e) !! i.
Proof.
  intros [H0 Hf] Hi. unfold store_entry, insert_list. rewrite insert_cells_lookup by done.
  symmetry. by apply list_lookup_lookup_total_lt.
Qed.

Lemma store_entry_frame e m a : fits e → ¬ covers e a → store_entry m e !! a = m !! a.
Proof.
  intros [H0 Hf] Hc. destruct a as [[u k] o]. unfold store_entry, insert_list.
  apply insert_cells_lookup_ne; [done|done|].
  destruct (decide ((unit_id (we_addr e), slave_kind (kind (we_addr e))) = (u, k))) as [Heq|];
    [|by left].
  destruct (decide (o < we_offset e ∨ we_offset e + Z.of_nat (length (cells_of (we_encoded e))) ≤ o));
    [by right|].
  exfalso. apply Hc. exists (Z.to_nat (o - we_offset e)). split; [lia|].
  injection Heq as -> ->. f_equal. lia.
Qed.

Lemma foldl_store_frame order m a :
  Forall fits order → (∀ e, e ∈ order → ¬ covers e a) → foldl store_entry m order !! a = m !! a.
Proof.
  intros Hf. revert m. induction Hf as [|e order He Hf IH]; intros m Hc; [done|]. cbn [foldl].
  rewrite IH by set_solver. apply store_entry_frame; [done|]. apply Hc. set_solver.
Qed.

(** Two entries share no cell. *)
Definition apart (a b : WriteGroupEntry) : Prop := ∀ x, covers a x → ¬ covers b x.

Lemma apart_sym a b : apart a b → apart b a.
Proof. unfold apart. naive_solver. Qed.

Lemma foldl_store_covered order m e i v :
  Forall fits order → ForallOrdPairs apart order → e ∈ order →
  cells_of (we_encoded e) !! i = Some v →
  foldl store_entry m order
    !! (unit_id (we_addr e), slave_kind (kind (we_addr e)), we_offset e + Z.of_nat i) = Some v.
Proof.
  intros Hf Hp He Hv. apply lookup_lt_Some in Hv as Hi. revert m.
  induction order as [|e' order IH]; intros m; [by apply not_elem_of_nil in He|].
  apply Forall_cons in Hf as [Hf' Hf]. inversion Hp as [|? ? Hap Hp']; subst. cbn [foldl].
  apply elem_of_cons in He as [->|He]; [|by apply IH].
  rewrite foldl_store_frame; [by rewrite store_entry_covered|done|].
  intros e He. rewrite Forall_forall in Hap. apply (Hap e He). by exists i.
Qed.

Lemma sum_units_end key e c :
  Forall (wentry_in key) (e :: c) →
  Sorted (λ a b, we_offset b = we_offset a + we_units a) (e :: c) →
  1 ≤ sumZ (we_units <$> e :: c) ∧ we_offset e + sumZ (we_units <$> e :: c) ≤ 65536.
Proof.
  revert e. induction c as [|e' c IH]; intros e Hin Hs; apply Forall_cons in Hin as [He Hin];
    pose proof (wentry_units _ _ He); pose proof (wi_end _ _ He).
  - cbn. lia.
  - inversion Hs as [|? ? Hs' Hh]; subst. inversion Hh as [|? ? Hadj]; subst.
    specialize (IH e' Hin Hs'). cbn in *. unfold sumZ in *. lia.
Qed.

(** The quantity of a chunk does not wrap and stays in the address space. *)
Lemma wchunk_quantity key c :
  wchunk_ok key c →
  ∃ limit, write_limit key.2 = Some limit ∧
    wrap16 (sumZ (we_units <$> c)) = sumZ (we_units <$> c) ∧
    1 ≤ sumZ (we_units <$> c) ≤ limit ∧
    wchunk_start c + sumZ (we_units <$> c) ≤ 65536 ∧ 1 ≤ key.1 ≤ 247.
Proof.
  intros [Hne Hin Hs (limit & Hl & Hsum)]. destruct c as [|e c]; [done|].
  destruct (sum_units_end _ _ _ Hin Hs) as [H1 Hend]. exists limit.
  pose proof (write_limit_range _ _ Hl).
  apply Forall_cons in Hin as [[<- [Hu _] _ _] _].
  split; [done|]. split; [apply (wrap_small 16); unfold in_u; lia|]. split; [lia|]. split; [done|]. exact Hu.
Qed.

(** ** The theorems *)

Lemma chunks_fit kcs : Forall (uncurry wchunk_ok) kcs → Forall fits (concat kcs.*2).
Proof.
  intros H. apply Forall_concat, Forall_fmap. eapply Forall_impl; [exact H|].
  intros [key c] [_ Hin _ _]. cbn. eapply Forall_impl; [exact Hin|]. apply wentry_fits.
Qed.

(** Executed in order on a slave, a plan changes exactly the requested
    cells: every cell no encodable item covers keeps its value and, when the
    items do not overlap, every item's cells hold its encoded value, however
    the planner merged and split them. *)
Theorem plan_write_batch_effect items d wo plans errs m :
  in_u 8 d → plan_write_batch items d wo = Ok (plans, errs) →
  ∃ m', plans_effect plans m = Some m' ∧
    (∀ a, (∀ e, e ∈ omap (write_entry d wo) items → ¬ covers e a) → m' !! a = m !! a) ∧
    (ForallOrdPairs apart (omap (write_entry d wo) items) →
     ∀ e i v, e ∈ omap (write_entry d wo) items → cells_of (we_encoded e) !! i = Some v →
       m' !! (unit_id (we_addr e), slave_kind (kind (we_addr e)), we_offset e + Z.of_nat i)
         = Some v).
Proof.
  intros Hd (kcs & -> & Hperm & Hok & _)%plan_write_batch_chunks; [|done].
  pose proof (chunks_fit kcs Hok) as Hfits.
  exists (foldl store_entry m (concat kcs.*2)). split; [by apply plans_effect_chunks|]. split.
  - intros a Ha. apply foldl_store_frame; [done|]. intros e. rewrite Hperm. apply Ha.
  - intros Hap e i v. rewrite <- Hperm. intros He Hv. apply foldl_store_covered; try done.
    by eapply ForallOrdPairs_perm; [apply apart_sym| |].
Qed.

Lemma omap_partition {A B C D} (f : A → option B) (g : A → option C) (fb : B → D) (gc : C → D)
    (h : A → D) l :
  (∀ x, match f x with Some b => fb b = h x ∧ g x = None
        | None => gc <$> g x = Some (h x) end) →
  (fb <$> omap f l) ++ (gc <$> omap g l) ≡ₚ h <$> l.
Proof.
  intros H. induction l as [|x l IH]; [done|]. cbn [omap list_omap fmap list_fmap].
  specialize (H x). destruct (f x) as [b|].
  - destruct H as [<- ->]. cbn [fmap list_fmap app]. by rewrite <- IH.
  - destruct (g x) as [c|]; [|done]. injection H as <-. cbn [fmap list_fmap].
    rewrite <- IH. by rewrite Permutation_middle.
Qed.

Lemma plan_write_batch_ids items d wo plans errs :
  in_u 8 d → plan_write_batch items d wo = Ok (plans, errs) →
  concat (wp_item_ids <$> plans) ++ (wr_item_id <$> errs) ≡ₚ wq_id <$> items ∧
  Forall (λ r, wr_success r = false ∧
               wr_error r = Some (ModbusError.into_info ModbusError.invalid_type)) errs.
Proof.
  intros Hd (kcs & -> & Hperm & Hok & ->)%plan_write_batch_chunks; [|done]. split.
  - assert (concat (wp_item_ids <$> (uncurry write_plan_of <$> kcs)) = we_id <$> concat kcs.*2) as ->.
    { clear. induction kcs as [|[key c] kcs IH]; [done|]. cbn [fmap list_fmap concat uncurry snd] in *.
      by rewrite IH, fmap_app. }
    rewrite Hperm. apply omap_partition. intros item. unfold encode_failure.
    destruct (write_entry d wo item) as [e|] eqn:Ee; [|done]. split; [|done].
    unfold write_entry in Ee. repeat case_match; by simplify_eq.
  - apply Forall_forall. intros r (item & _ & Hr)%list_elem_of_omap.
    unfold encode_failure in Hr. by case_match; simplify_eq.
Qed.

(** Every write item is accounted for exactly once: it is in one planned
    request, or it has an [invalid_type] result because its value does not
    encode. *)
Theorem plan_write_batch_complete items d wo plans errs :
  in_u 8 d → plan_write_batch items d wo = Ok (plans, errs) →
  concat (wp_item_ids <$> plans) ++ (wr_item_id <$> errs) ≡ₚ wq_id <$> items ∧
  Forall (λ r, wr_success r = false ∧
               wr_error r = Some (ModbusError.into_info ModbusError.invalid_type)) errs.
Proof. apply plan_write_batch_ids. Qed.

(** Every write request is a legal frame: at most 123 registers or 1968
    bits, inside the address space of a writable segment, its protocol data
    unit within 253 bytes and its quantity that of its function. *)
Theorem plan_write_batch_limits items d wo plans errs p :
  in_u 8 d → plan_write_batch items d wo = Ok (plans, errs) → p ∈ plans →
  RegisterKind.writable (wp_kind p) = true ∧ is_write_function (wp_function p) = true ∧
  1 ≤ wp_unit_id p ≤ 247 ∧ 0 ≤ wp_start_offset p ∧
  (∃ limit, write_limit (wp_kind p) = Some limit ∧ 1 ≤ wp_quantity p ≤ limit) ∧
  wp_start_offset p + wp_quantity p ≤ 65536 ∧
  (length (write_pdu (wp_function p) (wp_start_offset p) (wp_payload p)) ≤ 253)%nat.
Proof.
  intros Hd (kcs & -> & _ & Hok & _)%plan_write_batch_chunks Hp; [|done].
  apply list_elem_of_fmap in Hp as ([key c] & -> & Hin).
  rewrite Forall_forall in Hok. specialize (Hok _ Hin). cbn [uncurry] in *.
  pose proof (wchunk_start_range _ _ Hok) as Hs. unfold in_u in Hs.
  destruct (wchunk_stores _ _ Hok) as [_ Hw _ Hlen _].
  destruct (wchunk_quantity _ _ Hok) as (limit & Hl & Hq & Hr & Hend & Hu).
  cbn [write_plan_of wp_kind wp_function wp_unit_id wp_start_offset wp_quantity wp_payload].
  rewrite Hq. split; [by destruct key as [? []]|]. split; [done|]. split; [done|]. split; [lia|].
  split; [by exists limit|]. split; [done|]. unfold write_pdu. cbn [length].
  rewrite length_app, length_to_be_bytes. lia.
Qed.

(** The address is valid, of a writable segment, and an encodable value ends
    inside the 16-bit address space. *)
Definition write_fits (d : Z) (wo : WordOrder.t) (item : WriteRequest) : bool :=
  match parse_address (wq_address item) d with
  | Ok a =>
      RegisterKind.writable (kind a) &&
      match encode_write_value (kind a) (wq_value_type item) (wq_value item) wo with
      | Ok encoded => offset a + EncodedWrite.units encoded <=? 65536
      | _ => true
      end
  | _ => false
  end.

Lemma group_writes_total items d wo groups errs :
  match group_writes items d wo groups errs with
  | Ok _ => forallb (write_fits d wo) items = true
  | Err e => e = ModbusError.invalid_address ∧ forallb (write_fits d wo) items = false
  | Panic => False
  end.
Proof.
  revert groups errs. induction items as [|item items IH]; intros groups errs; [done|].
  cbn [group_writes forallb]. unfold write_fits at 1 3.
  pose proof (parse_address_no_panic (wq_address item) d) as Hnp.
  destruct (parse_address _ _) as [a|e|]; cbn [map_err outcome_bind]; [|by split|done].
  destruct (RegisterKind.writable (kind a)); cbn [negb andb]; [|by split].
  pose proof (encode_write_value_no_panic (kind a) (wq_value_type item) (wq_value item) wo) as Hne.
  destruct (encode_write_value _ _ _ wo) as [enc|err|]; [|apply IH|done].
  case_if.
  - split; [done|]. apply andb_false_intro1. lia.
  - replace (_ <=? 65536) with true by lia. apply IH.
Qed.

Lemma plan_write_batch_cases items d wo :
  in_u 8 d →
  match plan_write_batch items d wo with
  | Ok _ => forallb (write_fits d wo) items = true
  | Err e => e = ModbusError.invalid_address ∧ forallb (write_fits d wo) items = false
  | Panic => False
  end.
Proof.
  intros Hd. unfold plan_write_batch. pose proof (group_writes_total items d wo [] []) as Ht.
  destruct (group_writes items d wo [] []) as [[groups errs]|e|] eqn:Eg; cbn [outcome_bind];
    [|done..].
  apply group_writes_spec in Eg as (_ & _ & Hall); [|done|constructor].
  by destruct (plan_write_groups_chunks groups [] Hall) as (kcs & -> & _).
Qed.

(** Write planning is total: it succeeds exactly when every item has a
    valid address in a writable segment (read-only segments are refused, never
    silently dropped) and fits the address space, otherwise the whole batch is
    refused with [invalid_address]; the [unreachable!] arms are unreachable. *)
Theorem plan_write_batch_total items d wo :
  in_u 8 d →
  match plan_write_batch items d wo with
  | Ok _ => forallb (write_fits d wo) items = true
  | Err e => e = ModbusError.invalid_address ∧ forallb (write_fits d wo) items = false
  | Panic => False
  end.
Proof. apply plan_write_batch_cases. Qed.
