(* ===== verification/ModbusDriver.v ===== *)
(** * The Modbus driver: drivers/modbus/src/lib.rs

    The driver handle (configuration, transport, last error), the batch
    operations over a transport, and the entry points of the C ABI with their
    panic isolation. *)

From S2P Require Import Prelude RustStd ObservationModel DriverAbi AbiTag ModbusAddress ModbusCodec.
From S2P Require Import ModbusFrame ModbusSession ModbusBatch.
From stdpp Require Import options.

Record ModbusDriver (T : Type) : Type := mkModbusDriver {
  md_config : ModbusConfig;
  md_transport : option T;
  md_last_error : option DriverErrorInfo;
}.
Arguments mkModbusDriver {T} _ _ _.
Arguments md_config {T} _.
Arguments md_transport {T} _.
Arguments md_last_error {T} _.

Definition set_transport {T} (t : T) (d : ModbusDriver T) : ModbusDriver T :=
  {| md_config := md_config d; md_transport := Some t; md_last_error := md_last_error d |}.
Definition set_last_error {T} (e : ModbusError.t) (d : ModbusDriver T) : ModbusDriver T :=
  {| md_config := md_config d; md_transport := md_transport d;
     md_last_error := Some (ModbusError.into_info e) |}.

(** ** Item results *)
Definition error_result_with_ts (item_id : Z) (error : ModbusError.t) (now : Z) : RawReadResult :=
  {| rr_item_id := item_id; rr_value := None; rr_source_timestamp_ns := None;
     rr_received_timestamp_ns := now; rr_protocol_quality_code := ModbusError.protocol_code error;
     rr_error := Some (ModbusError.into_info error) |}.

Definition write_error_result (item_id : Z) (error : ModbusError.t) : RawWriteResult :=
  {| wr_item_id := item_id; wr_success := false;
     wr_protocol_code := ModbusError.protocol_code error;
     wr_error := Some (ModbusError.into_info error) |}.

Definition write_ok_result (item_id : Z) : RawWriteResult :=
  {| wr_item_id := item_id; wr_success := true; wr_protocol_code := Some 0; wr_error := None |}.

Definition decode_item (k : RegisterKind.t) (data : list Z) (planned : PlannedItem)
    (wo : WordOrder.t) (now : Z) : outcome ModbusError.t RawReadResult :=
  match decode_register_value k data (Z.to_nat (pi_offset_in_frame planned))
          (pi_expected_type planned) wo with
  | Ok value =>
      Ok {| rr_item_id := pi_item_id planned; rr_value := Some value;
            rr_source_timestamp_ns := None; rr_received_timestamp_ns := now;
            rr_protocol_quality_code := Some 0; rr_error := None |}
  | Err _ => Ok (error_result_with_ts (pi_item_id planned) ModbusError.decode_error now)
  | Panic => Panic
  end.

Section driver.
Context {W T : Type} `{!Os W} `{!Transport W T}.
Abbreviation M := (stm (ModbusDriver T * W) ModbusError.t).

(** [self.transport.as_deref_mut().expect(..)] followed by a method call. *)
Definition with_transport {A} (m : stm (T * W) ModbusError.t A) : M A :=
  λ '(d, w),
    match md_transport d with
    | None => ((d, w), Panic)
    | Some t => let '((t', w'), r) := m (t, w) in ((set_transport t' d, w'), r)
    end.

Definition tick : M Z := λ '(d, w), let '(w', now) := now_ns w in ((d, w'), Ok now).

(** [ModbusDriver::create]; the JSON parser and the transport constructor
    are arguments. *)
Definition create (from_str : str → option ModbusConfig)
    (create_transport : ModbusConfig → outcome ModbusError.t T) (config_json : str) :
    outcome ModbusError.t (ModbusDriver T) :=
  let? config := map_err (λ _, ModbusError.config_error) (from_json from_str config_json) in
  let? transport := create_transport config in
  Ok {| md_config := config; md_transport := Some transport; md_last_error := None |}.

(** The attempts that remain, and the error of the last one made. *)
Fixpoint connect_attempts (delay : Z) (remaining : nat) (last_error : option ModbusError.t) :
    stm (T * W) ModbusError.t () :=
  match remaining with
  | O => slift (match last_error with Some e => Err e | None => Panic end)
  | S remaining' => λ s,
      match tr_connect s with
      | (s', Ok ()) => (s', Ok ())
      | (s', Panic) => (s', Panic)
      | ((t', w'), Err e) =>
          connect_attempts delay remaining' (Some e)
            (t', if (0 <? remaining')%nat then sleep delay w' else w')
      end
  end.

Definition attempts_of (config : ModbusConfig) : nat :=
  if mc_reconnect config then Z.to_nat (Z.max (mc_reconnect_max_attempts config) 1) else 1.

Definition connect : M () :=
  let! (d, _) := sget in
  with_transport (λ s,
    if tr_is_connected s.1 then (s, Ok ())
    else connect_attempts (mc_reconnect_delay_ms (md_config d)) (attempts_of (md_config d)) None s).

Definition disconnect (s : ModbusDriver T * W) : ModbusDriver T * W :=
  match md_transport s.1 with
  | None => s
  | Some t => let '(t', w') := tr_disconnect (t, s.2) in (set_transport t' s.1, w')
  end.

Definition ensure_connected_before_plan : M () :=
  let! connected := with_transport (λ s, (s, Ok (tr_is_connected s.1))) in
  if connected then sret () else connect.

(** A transaction after which a transport-level error drops the session. *)
Definition drop_on_transport_error {A} (m : stm (T * W) ModbusError.t A) :
    stm (T * W) ModbusError.t A :=
  λ s, match m s with
       | (s', Err e) =>
           if ModbusError.is_transport_level e then (tr_disconnect s', Err e) else (s', Err e)
       | r => r
       end.

Definition request_plan (plan : ReadPlan) : M (list Z) :=
  with_transport (drop_on_transport_error
    (tr_read_transaction (rp_unit_id plan) (RegisterKind.function_code (rp_kind plan))
       (rp_start_offset plan) (rp_quantity plan))).

Definition request_write_plan (plan : WritePlan) : M () :=
  with_transport (drop_on_transport_error
    (tr_write_transaction (wp_unit_id plan) (wp_function plan) (wp_start_offset plan)
       (wp_payload plan))).

(** The results of a plan whose response arrived. *)
Fixpoint decode_items (k : RegisterKind.t) (data : list Z) (wo : WordOrder.t)
    (items : list PlannedItem) : M (list RawReadResult) :=
  match items with
  | [] => sret []
  | planned :: items' =>
      let! now := tick in
      let! r := slift (decode_item k data planned wo now) in
      let! rs := decode_items k data wo items' in
      sret (r :: rs)
  end.

(** The results of a plan the slave refused. *)
Fixpoint error_items (error : ModbusError.t) (items : list PlannedItem) :
    M (list RawReadResult) :=
  match items with
  | [] => sret []
  | planned :: items' =>
      let! now := tick in
      let! rs := error_items error items' in
      sret (error_result_with_ts (pi_item_id planned) error now :: rs)
  end.

(** [match m { Ok(a) => .., Err(e) if transport level => return Err(e),
    Err(e) => .. }] *)
Definition on_protocol_error {A B} (m : M A) (ok : A → M B) (refused : ModbusError.t → M B) : M B :=
  λ s, match m s with
       | (s', Ok a) => ok a s'
       | (s', Err e) =>
           if ModbusError.is_transport_level e then (s', Err e) else refused e s'
       | (s', Panic) => (s', Panic)
       end.

Fixpoint read_plans (plans : list ReadPlan) (results : list RawReadResult) :
    M (list RawReadResult) :=
  match plans with
  | [] => sret results
  | plan :: plans' =>
      let! _ := ensure_connected_before_plan in
      let! (d, _) := sget in
      let! rs := on_protocol_error (request_plan plan)
        (λ data, decode_items (rp_kind plan) data (mc_word_order (md_config d)) (rp_items plan))
        (λ e, error_items e (rp_items plan)) in
      read_plans plans' (results ++ rs)
  end.

Definition read_batch (items : list DriverReadItem) : M (list RawReadResult) :=
  let! (d, _) := sget in
  let! plans := slift (plan_batch items (mc_unit_id (md_config d))) in
  let! results := read_plans plans [] in
  sret (sort_by_key rr_item_id results).

Fixpoint write_plans (plans : list WritePlan) (results : list RawWriteResult) :
    M (list RawWriteResult) :=
  match plans with
  | [] => sret results
  | plan :: plans' =>
      let! _ := ensure_connected_before_plan in
      let! rs := on_protocol_error (request_write_plan plan)
        (λ _, sret (write_ok_result <$> wp_item_ids plan))
        (λ e, sret ((λ id, write_error_result id e) <$> wp_item_ids plan)) in
      write_plans plans' (results ++ rs)
  end.

Definition write_batch (items : list WriteRequest) : M (list RawWriteResult) :=
  let! (d, _) := sget in
  let! (plans, results) :=
    slift (plan_write_batch items (mc_unit_id (md_config d)) (mc_word_order (md_config d))) in
  let! results := write_plans plans results in
  sret (sort_by_key wr_item_id results).

Definition validate_address (addr : str) : M AddressMetadata :=
  let! (d, _) := sget in
  let! parsed := slift (map_err (λ _, ModbusError.invalid_address)
                          (parse_address addr (mc_unit_id (md_config d)))) in
  sret {| am_canonical_address := canonical parsed; am_raw_type := None; am_readable := true;
          am_writable := RegisterKind.writable (kind parsed) |}.
End driver.

(** ** The C ABI *)

Definition CAPABILITIES : ProtocolCapabilities :=
  {| cap_read := true; cap_write := true; cap_batch_read := true; cap_batch_write := true;
     cap_browse := false; cap_polling := true; cap_subscription := false; cap_events := false;
     cap_history := false |}.

(** The item conversion loops of [api_read] and [api_write]. *)
Fixpoint convert_read_items (items : list FfiReadItem) :
    outcome ModbusError.t (list DriverReadItem) :=
  match items with
  | [] => Ok []
  | item :: items' =>
      let? expected_type :=
        map_err (λ _, ModbusError.invalid_type) (tag_to_data_type (fr_expected_type item)) in
      let? rest := convert_read_items items' in
      Ok ({| ri_id := fr_id item; ri_address := default [] (ffi_str_to_str (fr_address item));
             ri_expected_type := expected_type |} :: rest)
  end.

Fixpoint convert_write_items (items : list FfiWriteItem) :
    outcome ModbusError.t (list WriteRequest) :=
  match items with
  | [] => Ok []
  | item :: items' =>
      let? value :=
        map_err (λ _, ModbusError.invalid_type)
          (decode_value_bytes (fw_value_type item) (fw_value_bytes item)) in
      let? rest := convert_write_items items' in
      Ok ({| wq_id := fw_id item; wq_address := default [] (ffi_str_to_str (fw_address item));
             wq_value_type := fw_value_type item; wq_value := value |} :: rest)
  end.

Section abi.
Context {W T : Type} `{!Os W} `{!Transport W T} `{!Envelopes}.

(** A handle is null or points to a driver. *)
Abbreviation Handle := (option (ModbusDriver T)).
Abbreviation M := (stm (ModbusDriver T * W) ModbusError.t).

(** The status of a call and the buffer it wrote. *)
Abbreviation api_result := (Z * option (list Z))%type.

(** The body of an entry point on a live handle: its own errors are in the
    result, a panic is not. *)
Abbreviation Body := (stm (ModbusDriver T * W) Empty_set api_result).

Definition catch_abi_panic (f : Body) (s : ModbusDriver T * W) :
    (ModbusDriver T * W) * option api_result :=
  match f s with
  | (s', Ok r) => (s', Some r)
  | (_, Err e) => match e with end
  | ((d', w'), Panic) => ((set_last_error ModbusError.driver_panic d', w'), None)
  end.

(** [let Some(driver) = driver_mut(handle) else return -1], inside the panic
    guard, and the final [unwrap_or(-1)]. *)
Definition entry (f : Body) (h : Handle) (w : W) : (Handle * W) * api_result :=
  match h with
  | None => ((None, w), (-1, None))
  | Some d =>
      let '((d', w'), r) := catch_abi_panic f (d, w) in
      ((Some d', w'), default (-1, None) r)
  end.

(** [match call { Ok(v) => serialize and return 0, Err(e) => last_error, -1 }] *)
Definition finish {A} (m : M A) (to_vec : A → option (list Z)) : Body :=
  λ s, match m s with
       | (s', Ok a) =>
           match to_vec a with
           | Some bytes => (s', Ok (0, Some bytes))
           | None => (s', Ok (-1, None))
           end
       | ((d', w'), Err e) => ((set_last_error e d', w'), Ok (-1, None))
       | (s', Panic) => (s', Panic)
       end.

Definition fail_with (e : ModbusError.t) : Body :=
  λ '(d, w), ((set_last_error e d, w), Ok (-1, None)).

Definition api_create (from_str : str → option ModbusConfig)
    (create_transport : ModbusConfig → outcome ModbusError.t T) (config : FfiStr) :
    Z * Handle :=
  let result :=
    match ffi_str_to_str config with
    | Some json => create from_str create_transport json
    | None => Err ModbusError.config_error
    end in
  match result with
  | Ok driver => (0, Some driver)
  | Err e =>
      (-1, Some {| md_config := config_default; md_transport := None;
                   md_last_error := Some (ModbusError.into_info e) |})
  | Panic => (-1, None)
  end.

(** Dropping the box drops the transport, which closes its stream. *)
Definition api_destroy (h : Handle) (w : W) : W * Z :=
  match h with
  | Some d => ((disconnect (d, w)).2, 0)
  | None => (w, 0)
  end.

Definition api_connect (h : Handle) (w : W) : (Handle * W) * api_result :=
  entry (λ s, match connect s with
              | (s', Ok ()) => (s', Ok (0, None))
              | ((d', w'), Err e) => ((set_last_error e d', w'), Ok (-1, None))
              | (s', Panic) => (s', Panic)
              end) h w.

Definition api_disconnect (h : Handle) (w : W) : (Handle * W) * api_result :=
  match h with
  | None => ((None, w), (0, None))
  | Some d => let '(d', w') := disconnect (d, w) in ((Some d', w'), (0, None))
  end.

Definition api_get_capabilities_json (h : Handle) (w : W) : (Handle * W) * api_result :=
  entry (match capabilities_envelope CAPABILITIES with
         | Some bytes => sret (0, Some bytes)
         | None => fail_with ModbusError.unsupported
         end) h w.

Definition api_validate_address (addr : FfiStr) (h : Handle) (w : W) :
    (Handle * W) * api_result :=
  entry (match ffi_str_to_str addr with
         | None => fail_with ModbusError.invalid_address
         | Some a => finish (validate_address a) address_envelope
         end) h w.

(** [items] is the array behind the pointer, [None] when it is null. *)
Definition api_read (items : option (list FfiReadItem)) (len : nat) (h : Handle) (w : W) :
    (Handle * W) * api_result :=
  entry (match items with
         | None =>
             if (0 <? len)%nat then fail_with ModbusError.invalid_address
             else finish (read_batch []) read_envelope
         | Some l =>
             match convert_read_items (take len l) with
             | Ok read_items => finish (read_batch read_items) read_envelope
             | Err e => fail_with e
             | Panic => λ s, (s, Panic)
             end
         end) h w.

Definition api_write (items : option (list FfiWriteItem)) (len : nat) (h : Handle) (w : W) :
    (Handle * W) * api_result :=
  entry (match items with
         | None =>
             if (0 <? len)%nat then fail_with ModbusError.invalid_address
             else finish (write_batch []) write_envelope
         | Some l =>
             match convert_write_items (take len l) with
             | Ok write_items => finish (write_batch write_items) write_envelope
             | Err e => fail_with e
             | Panic => λ s, (s, Panic)
             end
         end) h w.

(** [api_execute], [api_browse], [api_subscribe], [api_unsubscribe] and
    [api_query_history]. *)
Definition api_unsupported (h : Handle) (w : W) : (Handle * W) * api_result :=
  entry (fail_with ModbusError.unsupported) h w.

Definition api_get_last_error_json (h : Handle) (w : W) : (Handle * W) * api_result :=
  entry (λ s,
    match md_last_error s.1 with
    | None => (s, Ok (0, Some []))
    | Some error =>
        match error_envelope error with
        | Some bytes => (s, Ok (0, Some bytes))
        | None => (s, Ok (-1, None))
        end
    end) h w.
End abi.
