(* ===== verification/ModbusDriverLaws.v ===== *)
(** * Correctness of the driver

    Proved against the transport interface: whatever transport satisfies
    [TransportLaws], the batch operations return one result per item or fail
    as a whole with the session dropped. *)

From S2P Require Import Prelude RustStd ObservationModel DriverAbi AbiTag ModbusAddress ModbusCodec.
From S2P Require Import ModbusFrame ModbusSession ModbusSessionLaws ModbusBatch.
From S2P Require Import ModbusPlans ModbusMock.
From S2P Require Import ModbusDriver.
From stdpp Require Import options.

Section driver_laws.
Context {W T : Type} `{!Os W} `{!Transport W T} `{!TransportLaws W T}.

(** The driver [d0] with some transport: the configuration and the last
    error are those of [d0]. *)
Definition at_driver (d0 : ModbusDriver T) (P : T → Prop) (s : ModbusDriver T * W) : Prop :=
  ∃ t, s.1 = set_transport t d0 ∧ P t.

Definition ready (t : T) : Prop := True.
Definition up (t : T) : Prop := tr_is_connected t = true.
Definition down (t : T) : Prop := tr_is_connected t = false.

Lemma at_driver_mono d0 (P Q : T → Prop) s :
  at_driver d0 P s → (∀ t, P t → Q t) → at_driver d0 Q s.
Proof. intros (t & Hs & HP) HQ. exists t. auto. Qed.

(** Run a method of the transport. *)
Lemma wp_with_transport {A} (m : stm (T * W) ModbusError.t A) d0 (P : T → Prop)
    (Q : T * W → A → Prop) (R : T * W → ModbusError.t → Prop) (s : ModbusDriver T * W)
    (Q' : ModbusDriver T * W → A → Prop) (R' : ModbusDriver T * W → ModbusError.t → Prop) :
  at_driver d0 P s → (∀ t w, P t → wp m Q R (t, w)) →
  (∀ t w a, Q (t, w) a → Q' (set_transport t d0, w) a) →
  (∀ t w e, R (t, w) e → R' (set_transport t d0, w) e) →
  wp (with_transport m) Q' R' s.
Proof.
  intros (t & Hs & HP) Hm HQ HR. destruct s as [d w]. cbn in Hs. subst d.
  specialize (Hm t w HP). unfold wp, with_transport in *. cbn [md_transport set_transport].
  destruct (m (t, w)) as [[t' w'] [a|e|]]; [by apply HQ|by apply HR|done].
Qed.

Lemma connect_attempts_wp delay n last (s : T * W) :
  (0 < n)%nat ∨ (∃ e, last = Some e ∧ ModbusError.is_transport_level e = true ∧ down s.1) →
  wp (connect_attempts delay n last) (λ s' _, up s'.1)
    (λ s' e, ModbusError.is_transport_level e = true ∧ down s'.1) s.
Proof using All.
  revert last s. induction n as [|n IH]; intros last s Hn.
  - destruct Hn as [?|(e & -> & He & Hd)]; [lia|done].
  - cbn [connect_attempts]. unfold wp.
    pose proof (connect_safe s) as Hsafe. unfold safe in Hsafe.
    destruct (tr_connect s) as [[t' w'] [[]|e|]] eqn:E; cbn in Hsafe; [| |done].
    + by apply connect_connected in E.
    + apply connect_failed in E. apply IH. right. by exists e.
Qed.

Lemma attempts_of_pos c : (0 < attempts_of c)%nat.
Proof. unfold attempts_of. case_if; lia. Qed.

Lemma connect_wp d0 s :
  at_driver d0 ready s →
  wp connect (λ s' _, at_driver d0 up s')
    (λ s' e, ModbusError.is_transport_level e = true ∧ at_driver d0 down s') s.
Proof using All.
  intros Hs. unfold connect. apply wp_bind. unfold sget at 1, wp at 1. destruct s as [d w].
  eapply (wp_with_transport _ _ ready (λ s' _, up s'.1)
    (λ s' e, ModbusError.is_transport_level e = true ∧ down s'.1)); [exact Hs| | |].
  - intros t w' _. unfold wp. cbn [fst]. destruct (tr_is_connected t) eqn:Et; [done|].
    apply (connect_attempts_wp _ _ None (t, w')). left. apply attempts_of_pos.
  - intros t w' a Ha. by exists t.
  - intros t w' e [He Ht]. split; [done|]. by exists t.
Qed.

Lemma ensure_connected_wp d0 s :
  at_driver d0 ready s →
  wp ensure_connected_before_plan (λ s' _, at_driver d0 up s')
    (λ s' e, ModbusError.is_transport_level e = true ∧ at_driver d0 down s') s.
Proof using All.
  intros Hs. unfold ensure_connected_before_plan. apply wp_bind.
  eapply (wp_with_transport _ _ ready
    (λ s' a, tr_is_connected s'.1 = a) (λ _ _, False)); [exact Hs|done| |done].
  intros t w a Ha. cbn in Ha. destruct a; [by exists t|].
  apply connect_wp. by exists t.
Qed.

(** What a transaction through the driver leaves behind. *)
Definition transaction_failed d0 s (e : ModbusError.t) : Prop :=
  (ModbusError.is_transport_level e = true ∧ at_driver d0 down s) ∨
  (ModbusError.is_transport_level e = false ∧
   (∃ code, e = ModbusError.modbus_exception code) ∧ at_driver d0 up s).

Lemma transaction_wp {A} (m : stm (T * W) ModbusError.t A) d0 (Q : A → Prop) s :
  at_driver d0 up s → (∀ x : T * W, safe transaction_error m x) →
  (∀ x : T * W, tr_is_connected (m x).1.1 = tr_is_connected x.1) →
  (∀ (x x' : T * W) a, m x = (x', Ok a) → Q a) →
  wp (with_transport (drop_on_transport_error m)) (λ s' a, at_driver d0 up s' ∧ Q a)
    (transaction_failed d0) s.
Proof using All.
  intros Hs Hsafe Hkeep HQ.
  eapply (wp_with_transport _ _ up (λ s' a, up s'.1 ∧ Q a)
    (λ s' e, (ModbusError.is_transport_level e = true ∧ down s'.1) ∨
             (ModbusError.is_transport_level e = false ∧
              (∃ code, e = ModbusError.modbus_exception code) ∧ up s'.1))); [exact Hs| | |].
  - intros t w Hup. specialize (Hsafe (t, w)). specialize (Hkeep (t, w)).
    specialize (HQ (t, w)). unfold wp, drop_on_transport_error, safe in *.
    destruct (m (t, w)) as [s' [a|e|]]; cbn in Hkeep, Hsafe; [| |done].
    + split; [unfold up in *; congruence|by eapply HQ].
    + destruct (ModbusError.is_transport_level e) eqn:Ee.
      * left. split; [done|]. apply disconnect_disconnected.
      * right. split; [done|]. split; [|unfold up in *; congruence].
        destruct Hsafe as [?|?]; [congruence|done].
  - intros t w a [Hup Ha]. split; [by exists t|done].
  - intros t w e [[He Ht]|(He & Hc & Ht)]; [left|right]; repeat split; try done; by exists t.
Qed.

Lemma request_plan_wp plan d0 s :
  at_driver d0 up s → 0 ≤ rp_quantity plan →
  wp (request_plan plan)
    (λ s' data, at_driver d0 up s' ∧
       Z.of_nat (length data) =
         expected_data_len (RegisterKind.function_code (rp_kind plan)) (rp_quantity plan) ∧
       bytes_ok data)
    (transaction_failed d0) s.
Proof using All.
  intros Hs Hq. unfold request_plan. apply transaction_wp; [done| | |].
  - intros s'. by apply read_safe.
  - intros s'. apply read_keeps_connection.
  - intros s' s'' data E. eapply read_data_ok; [done| |done]. by destruct (rp_kind plan).
Qed.

Lemma request_write_plan_wp plan d0 s :
  at_driver d0 up s →
  wp (request_write_plan plan) (λ s' _, at_driver d0 up s' ∧ True) (transaction_failed d0) s.
Proof using All.
  intros Hs. unfold request_write_plan. apply transaction_wp; [done| | |done].
  - intros s'. apply write_safe.
  - intros s'. apply write_keeps_connection.
Qed.

(** ** Batches *)

(** A result is a value of good quality or an error, never both. *)
Definition result_wf (r : RawReadResult) : Prop :=
  (is_Some (rr_value r) ∧ rr_error r = None ∧ rr_protocol_quality_code r = Some 0) ∨
  (rr_value r = None ∧ is_Some (rr_error r)).

Definition results_of (ids : list Z) (rs : list RawReadResult) : Prop :=
  rr_item_id <$> rs = ids ∧ Forall result_wf rs.

Lemma results_of_cons id ids r rs :
  rr_item_id r = id → result_wf r → results_of ids rs → results_of (id :: ids) (r :: rs).
Proof. intros <- Hr [<- Hrs]. split; [done|by constructor]. Qed.

Lemma results_of_app ids ids' rs rs' :
  results_of ids rs → results_of ids' rs' → results_of (ids ++ ids') (rs ++ rs').
Proof. intros [<- ?] [<- ?]. split; [apply fmap_app|by apply Forall_app]. Qed.

Lemma tick_wp d0 P s : at_driver d0 P s → wp tick (λ s' _, at_driver d0 P s') (λ _ _, False) s.
Proof.
  intros (t & Hs & HP). destruct s as [d w]. unfold wp, tick.
  destruct (now_ns w) as [w' now]. by exists t.
Qed.

Lemma decode_item_result k data p wo now :
  ∃ r, decode_item k data p wo now = Ok r ∧ rr_item_id r = pi_item_id p ∧ result_wf r.
Proof.
  unfold decode_item.
  pose proof (decode_register_value_no_panic k data (Z.to_nat (pi_offset_in_frame p))
    (pi_expected_type p) wo) as Hnp.
  destruct (decode_register_value _ _ _ _ _) as [v|e|]; [| |done]; eexists; (split; [done|]);
    (split; [done|]); [left|right]; by repeat split; eauto.
Qed.

Lemma decode_items_wp k data wo items d0 P s :
  at_driver d0 P s →
  wp (decode_items k data wo items)
    (λ s' rs, at_driver d0 P s' ∧ results_of (pi_item_id <$> items) rs) (λ _ _, False) s.
Proof.
  revert s. induction items as [|p items IH]; intros s Hs; cbn [decode_items].
  { split; [done|]. by split. }
  apply wp_bind. eapply wp_mono; [by apply tick_wp| |done]. intros s1 now Hs1.
  destruct (decode_item_result k data p wo now) as (r & Hr & Hid & Hwf). rewrite Hr.
  apply wp_bind, wp_lift, wp_bind. eapply wp_mono; [by apply IH| |done].
  intros s2 rs [Hs2 Hrs]. split; [done|]. by apply results_of_cons.
Qed.

Lemma error_items_wp e items d0 P s :
  at_driver d0 P s →
  wp (error_items e items)
    (λ s' rs, at_driver d0 P s' ∧ results_of (pi_item_id <$> items) rs) (λ _ _, False) s.
Proof.
  revert s. induction items as [|p items IH]; intros s Hs; cbn [error_items].
  { split; [done|]. by split. }
  apply wp_bind. eapply wp_mono; [by apply tick_wp| |done]. intros s1 now Hs1.
  apply wp_bind. eapply wp_mono; [by apply IH| |done].
  intros s2 rs [Hs2 Hrs]. split; [done|]. apply results_of_cons; [done| |done].
  right. by split.
Qed.

Lemma on_protocol_error_wp {A B} (m : stm (ModbusDriver T * W) ModbusError.t A)
    (ok : A → stm (ModbusDriver T * W) ModbusError.t B) refused d0 (Q : A → Prop)
    (Q' : ModbusDriver T * W → B → Prop) s :
  wp m (λ s' a, at_driver d0 up s' ∧ Q a) (transaction_failed d0) s →
  (∀ s' a, at_driver d0 up s' → Q a → wp (ok a) Q' (λ _ _, False) s') →
  (∀ s' e, at_driver d0 up s' → ModbusError.is_transport_level e = false →
     wp (refused e) Q' (λ _ _, False) s') →
  wp (on_protocol_error m ok refused) Q'
    (λ s' e, ModbusError.is_transport_level e = true ∧ at_driver d0 down s') s.
Proof.
  unfold wp, on_protocol_error. intros Hm Hok Hre.
  destruct (m s) as [s' [a|e|]]; [| |done].
  - destruct Hm as [Hs' Ha]. specialize (Hok s' a Hs' Ha). by destruct (ok a s') as [? [?|?|]].
  - destruct Hm as [[He Hs']|(He & _ & Hs')]; rewrite He; [done|].
    specialize (Hre s' e Hs' He). by destruct (refused e s') as [? [?|?|]].
Qed.

Lemma read_plans_wp plans results ids d0 s :
  at_driver d0 ready s → Forall (λ p, 0 ≤ rp_quantity p) plans → results_of ids results →
  wp (read_plans plans results)
    (λ s' rs, at_driver d0 ready s' ∧
       results_of (ids ++ concat ((λ p, pi_item_id <$> rp_items p) <$> plans)) rs)
    (λ s' e, ModbusError.is_transport_level e = true ∧ at_driver d0 down s') s.
Proof using All.
  intros Hs Hq. revert results ids s Hs.
  induction Hq as [|p plans Hp Hq IH]; intros results ids s Hs Hr; cbn [read_plans].
  { split; [done|]. cbn. by rewrite app_nil_r. }
  apply wp_bind. eapply wp_mono; [by apply ensure_connected_wp| |done]. intros s1 [] Hs1.
  apply wp_bind. unfold sget at 1, wp at 1. destruct s1 as [d1 w1].
  apply wp_bind. eapply wp_mono; [eapply on_protocol_error_wp| |].
  - by apply request_plan_wp.
  - intros s2 data Hs2 _. by apply decode_items_wp.
  - intros s2 e Hs2 _. by apply error_items_wp.
  - intros s2 rs [Hs2 Hrs]. cbn [fmap list_fmap concat]. rewrite app_assoc.
    apply IH; [by eapply at_driver_mono|]. by apply results_of_app.
  - done.
Qed.

Lemma write_plans_wp plans results d0 s :
  at_driver d0 ready s →
  wp (write_plans plans results)
    (λ s' rs, at_driver d0 ready s' ∧
       wr_item_id <$> rs = (wr_item_id <$> results) ++ concat (wp_item_ids <$> plans))
    (λ s' e, ModbusError.is_transport_level e = true ∧ at_driver d0 down s') s.
Proof using All.
  revert results s. induction plans as [|p plans IH]; intros results s Hs; cbn [write_plans].
  { split; [done|]. cbn. by rewrite app_nil_r. }
  apply wp_bind. eapply wp_mono; [by apply ensure_connected_wp| |done]. intros s1 [] Hs1.
  apply wp_bind. eapply wp_mono;
    [eapply (on_protocol_error_wp _ _ _ _ _
       (λ s' rs, at_driver d0 up s' ∧ wr_item_id <$> rs = wp_item_ids p))| |].
  - by apply request_write_plan_wp.
  - intros s2 [] Hs2 _. split; [done|]. rewrite <- list_fmap_compose. apply list_fmap_id.
  - intros s2 e Hs2 _. split; [done|]. rewrite <- list_fmap_compose. apply list_fmap_id.
  - intros s2 rs [Hs2 Hrs]. cbn [fmap list_fmap concat].
    eapply wp_mono; [apply IH; by eapply at_driver_mono| |done].
    intros s3 rs' [Hs3 Hrs']. split; [done|]. by rewrite Hrs', fmap_app, Hrs, app_assoc.
  - done.
Qed.
End driver_laws.

(** ** The theorems *)
Section driver_theorems.
Context {W T : Type} `{!Os W} `{!Transport W T} `{!TransportLaws W T}.

(** A batch read never panics; it returns one result per item, sorted
    by item id, each a value or an error; or it refuses the whole batch with
    [invalid_address] before any I/O; or it fails with a transport-level
    error and leaves the session disconnected, so that the next request
    starts on a fresh connection. *)
Theorem read_batch_outcome items (d : ModbusDriver T) (w : W) t :
  md_transport d = Some t → in_u 8 (mc_unit_id (md_config d)) →
  match read_batch items (d, w) with
  | (s', Ok rs) =>
      (rr_item_id <$> rs) ≡ₚ (ri_id <$> items) ∧ StronglySorted (key_le rr_item_id) rs ∧
      Forall result_wf rs ∧ at_driver d ready s'
  | (s', Err e) =>
      (e = ModbusError.invalid_address ∧ s' = (d, w)) ∨
      (ModbusError.is_transport_level e = true ∧ at_driver d down s')
  | (_, Panic) => False
  end.
Proof using All.
  intros Ht Hu.
  change (wp (read_batch items)
    (λ s' rs, (rr_item_id <$> rs) ≡ₚ (ri_id <$> items) ∧ StronglySorted (key_le rr_item_id) rs ∧
      Forall result_wf rs ∧ at_driver d ready s')
    (λ s' e, (e = ModbusError.invalid_address ∧ s' = (d, w)) ∨
      (ModbusError.is_transport_level e = true ∧ at_driver d down s')) (d, w)).
  unfold read_batch. apply wp_bind. unfold sget at 1, wp at 1.
  pose proof (plan_batch_cases items _ Hu) as Hc.
  destruct (plan_batch items _) as [plans|e|] eqn:Hp; [| |done]; apply wp_bind, wp_lift.
  2:{ left. by destruct Hc as [-> _]. }
  apply wp_bind. eapply wp_mono; [apply (read_plans_wp plans [] [] d)| |].
  - exists t. split; [|done]. by destruct d; cbn in *; subst.
  - by eapply plan_batch_quantities.
  - by split.
  - intros s' rs [Hs' [Hids Hwf]]. cbn [app] in Hids. split; [|split; [|split]].
    + rewrite sort_by_key_perm, Hids. by eapply plan_batch_ids.
    + apply sort_by_key_sorted.
    + by rewrite sort_by_key_perm.
    + done.
  - intros s' e He. by right.
Qed.

(** A batch write never panics; it returns one result per item, sorted
    by item id; or it refuses the whole batch before any I/O; or it fails
    with a transport-level error and leaves the session disconnected. *)
Theorem write_batch_outcome items (d : ModbusDriver T) (w : W) t :
  md_transport d = Some t → in_u 8 (mc_unit_id (md_config d)) →
  match write_batch items (d, w) with
  | (s', Ok rs) =>
      (wr_item_id <$> rs) ≡ₚ (wq_id <$> items) ∧ StronglySorted (key_le wr_item_id) rs ∧
      at_driver d ready s'
  | (s', Err e) =>
      (e = ModbusError.invalid_address ∧ s' = (d, w)) ∨
      (ModbusError.is_transport_level e = true ∧ at_driver d down s')
  | (_, Panic) => False
  end.
Proof using All.
  intros Ht Hu.
  change (wp (write_batch items)
    (λ s' rs, (wr_item_id <$> rs) ≡ₚ (wq_id <$> items) ∧
      StronglySorted (key_le wr_item_id) rs ∧ at_driver d ready s')
    (λ s' e, (e = ModbusError.invalid_address ∧ s' = (d, w)) ∨
      (ModbusError.is_transport_level e = true ∧ at_driver d down s')) (d, w)).
  unfold write_batch. apply wp_bind. unfold sget at 1, wp at 1.
  pose proof (plan_write_batch_cases items _ (mc_word_order (md_config d)) Hu) as Hc.
  destruct (plan_write_batch items _ _) as [[plans errs]|e|] eqn:Hp; [| |done];
    apply wp_bind, wp_lift.
  2:{ left. by destruct Hc as [-> _]. }
  apply wp_bind. eapply wp_mono; [apply (write_plans_wp plans errs d)| |].
  - exists t. split; [|done]. by destruct d; cbn in *; subst.
  - intros s' rs [Hs' Hids]. split; [|split; [|done]].
    + rewrite sort_by_key_perm, Hids, Permutation_app_comm.
      by apply plan_write_batch_ids in Hp as [? _].
    + apply sort_by_key_sorted.
  - intros s' e He. by right.
Qed.

(** The state in which the attempt number [i] is made. *)
Definition retry_state (delay : Z) (i : nat) (s : T * W) : T * W :=
  Nat.iter i (λ s, let s1 := (tr_connect s).1 in (s1.1, sleep delay s1.2)) s.

Definition attempt_fails (delay : Z) (s : T * W) (i : nat) : Prop :=
  ∃ s1 e, tr_connect (retry_state delay i s) = (s1, Err e).

Lemma retry_state_S delay i s :
  retry_state delay (S i) s =
    retry_state delay i ((tr_connect s).1.1, sleep delay (tr_connect s).1.2).
Proof. unfold retry_state. by rewrite Nat.iter_succ_r. Qed.

Lemma connect_attempts_cases delay n last (s s' : T * W) r :
  (0 < n)%nat → connect_attempts delay n last s = (s', r) →
  (r = Ok () ∧ ∃ k, (k < n)%nat ∧ (∀ i, (i < k)%nat → attempt_fails delay s i) ∧
     tr_connect (retry_state delay k s) = (s', Ok ())) ∨
  (∃ e, r = Err e ∧ (∀ i, (i < n)%nat → attempt_fails delay s i) ∧
     tr_connect (retry_state delay (pred n) s) = (s', Err e)).
Proof using All.
  revert last s. induction n as [|n IH]; intros last s Hn; [lia|]. cbn [connect_attempts].
  pose proof (connect_safe s) as Hsafe. unfold safe in Hsafe.
  destruct (tr_connect s) as [[t1 w1] [[]|e|]] eqn:E; cbn in Hsafe; [| |done].
  - intros [= <- <-]. left. split; [done|]. exists 0%nat. split; [lia|]. split; [lia|done].
  - assert (attempt_fails delay s 0) as H0 by by exists (t1, w1), e.
    destruct n as [|n].
    + intros [= <- <-]. right. exists e. split; [done|]. split; [|done].
      intros i Hi. by replace i with 0%nat by lia.
    + assert (∀ i, attempt_fails delay (t1, sleep delay w1) i → attempt_fails delay s (S i)) as HS.
      { intros i (s1 & e1 & Hi). exists s1, e1. by rewrite retry_state_S, E. }
      intros [(-> & k & Hk & Hf & Hok)|(e' & -> & Hf & Herr)]%IH; [| |lia].
      * left. split; [done|]. exists (S k). split; [lia|]. rewrite retry_state_S, E.
        split; [|done]. intros [|i] Hi; [done|]. apply HS, Hf. lia.
      * right. exists e'. split; [done|]. cbn [pred] in *. rewrite retry_state_S, E.
        split; [|done]. intros [|i] Hi; [done|]. apply HS, Hf. lia.
Qed.

(** [connect] on a disconnected transport makes the attempts one after
    the other, sleeping in between: it succeeds at the first attempt that
    succeeds among the first [max 1 reconnect_max_attempts] (one, without
    reconnection), and otherwise reports the error of the last of them. *)
Theorem connect_retries (d : ModbusDriver T) (w : W) t s' r :
  md_transport d = Some t → tr_is_connected t = false → connect (d, w) = (s', r) →
  let n := attempts_of (md_config d) in
  let delay := mc_reconnect_delay_ms (md_config d) in
  ∃ t' w', s' = (set_transport t' d, w') ∧
  ((r = Ok () ∧ ∃ k, (k < n)%nat ∧ (∀ i, (i < k)%nat → attempt_fails delay (t, w) i) ∧
     tr_connect (retry_state delay k (t, w)) = ((t', w'), Ok ())) ∨
   (∃ e, r = Err e ∧ (∀ i, (i < n)%nat → attempt_fails delay (t, w) i) ∧
     tr_connect (retry_state delay (pred n) (t, w)) = ((t', w'), Err e))).
Proof using All.
  intros Ht Hd E n delay. unfold connect in E. rewrite (sbind_Ok _ _ _ (d, w) (d, w)) in E by done.
  unfold with_transport in E. rewrite Ht in E. cbn [fst] in E. rewrite Hd in E.
  destruct (connect_attempts _ _ None (t, w)) as [[t' w'] r'] eqn:Ea. injection E as <- <-.
  exists t', w'. split; [done|]. apply connect_attempts_cases in Ea; [done|apply attempts_of_pos].
Qed.
End driver_theorems.

(** ** The ABI *)
Section abi_theorems.
Context {W T : Type} `{!Os W} `{!Transport W T} `{!Envelopes}.

(** No operation of the driver touches its configuration or last error; only
    the ABI layer records errors. *)
Definition fixed (d0 : ModbusDriver T) (s : ModbusDriver T * W) : Prop :=
  md_config s.1 = md_config d0 ∧ md_last_error s.1 = md_last_error d0.

Lemma keeps_with_transport {A} (m : stm (T * W) ModbusError.t A) d0 :
  keeps (fixed d0) (with_transport m).
Proof.
  intros [d w] Hd. unfold with_transport. destruct (md_transport d) as [t|]; [|done].
  by destruct (m (t, w)) as [[t' w'] r].
Qed.

Lemma keeps_tick d0 : keeps (fixed d0) (tick (W := W) (T := T)).
Proof. intros [d w] Hd. unfold tick. by destruct (now_ns w). Qed.

Lemma keeps_on_protocol_error {A B} (m : stm (ModbusDriver T * W) ModbusError.t A)
    (ok : A → stm (ModbusDriver T * W) ModbusError.t B) refused d0 :
  keeps (fixed d0) m → (∀ a, keeps (fixed d0) (ok a)) → (∀ e, keeps (fixed d0) (refused e)) →
  keeps (fixed d0) (on_protocol_error m ok refused).
Proof.
  intros Hm Hok Hre s Hs. specialize (Hm s Hs). unfold on_protocol_error.
  destruct (m s) as [s' [a|e|]]; [by apply Hok| |done].
  destruct (ModbusError.is_transport_level e); [done|by apply Hre].
Qed.

Lemma keeps_ensure_connected d0 :
  keeps (fixed d0) (ensure_connected_before_plan (W := W) (T := T)).
Proof.
  unfold ensure_connected_before_plan, connect.
  keeps_walk; apply keeps_with_transport.
Qed.

Lemma keeps_decode_items k data wo items d0 :
  keeps (fixed d0) (decode_items (W := W) (T := T) k data wo items).
Proof.
  induction items as [|p items IH]; cbn [decode_items]; keeps_walk; by try apply keeps_tick.
Qed.

Lemma keeps_error_items e items d0 :
  keeps (fixed d0) (error_items (W := W) (T := T) e items).
Proof.
  induction items as [|p items IH]; cbn [error_items]; keeps_walk; by try apply keeps_tick.
Qed.

Lemma keeps_read_batch items d0 : keeps (fixed d0) (read_batch (W := W) (T := T) items).
Proof.
  assert (∀ plans rs, keeps (fixed d0) (read_plans (W := W) (T := T) plans rs)) as Hp.
  { induction plans as [|p plans IH]; intros rs; cbn [read_plans]; keeps_walk.
    - apply keeps_ensure_connected.
    - apply keeps_on_protocol_error; [apply keeps_with_transport| |]; intros;
        [apply keeps_decode_items|apply keeps_error_items].
    - apply IH. }
  unfold read_batch. keeps_walk. apply Hp.
Qed.

Lemma keeps_write_batch items d0 : keeps (fixed d0) (write_batch (W := W) (T := T) items).
Proof.
  assert (∀ plans rs, keeps (fixed d0) (write_plans (W := W) (T := T) plans rs)) as Hp.
  { induction plans as [|p plans IH]; intros rs; cbn [write_plans]; keeps_walk.
    - apply keeps_ensure_connected.
    - apply keeps_on_protocol_error; [apply keeps_with_transport| |]; intros; by apply keeps_same.
    - apply IH. }
  unfold write_batch. keeps_walk. apply Hp.
Qed.

(** What a call on a live handle reports: success with a buffer and the last
    error untouched, or failure with no buffer and an error recorded. *)
Definition reports (d : ModbusDriver T)
    (r : (option (ModbusDriver T) * W) * (Z * option (list Z))) : Prop :=
  ∃ d' w' st out, r = ((Some d', w'), (st, out)) ∧ md_config d' = md_config d ∧
    ((st = 0 ∧ is_Some out ∧ md_last_error d' = md_last_error d) ∨
     (st = -1 ∧ out = None ∧ is_Some (md_last_error d'))).

Lemma entry_finish {A} (m : stm (ModbusDriver T * W) ModbusError.t A) to_vec d w :
  keeps (fixed d) m → (∀ a, is_Some (to_vec a)) → reports d (entry (finish m to_vec) (Some d) w).
Proof.
  intros Hk Hser. specialize (Hk (d, w) ltac:(done)). destruct Hk as [Hc Hl].
  unfold reports, entry, catch_abi_panic, finish.
  destruct (m (d, w)) as [[d' w'] [a|e|]]; cbn in Hc, Hl.
  - destruct (Hser a) as [bytes Hb]. rewrite Hb. exists d', w', 0, (Some bytes).
    split; [done|]. split; [done|]. left. by repeat split; eauto.
  - exists (set_last_error e d'), w', (-1), None. split; [done|]. split; [done|]. right.
    by repeat split; eauto.
  - exists (set_last_error ModbusError.driver_panic d'), w', (-1), None. split; [done|].
    split; [done|]. right. by repeat split; eauto.
Qed.

Lemma entry_fail_with e d w : reports d (entry (fail_with e) (Some d) w).
Proof.
  exists (set_last_error e d), w, (-1), None. split; [done|]. split; [done|]. right.
  by repeat split; eauto.
Qed.

Lemma convert_items_no_panic ritems witems :
  convert_read_items ritems ≠ Panic ∧ convert_write_items witems ≠ Panic.
Proof.
  split.
  - induction ritems as [|i l IH]; cbn [convert_read_items]; [done|].
    apply outcome_bind_no_panic; [|intros; apply outcome_bind_no_panic; done].
    apply map_err_no_panic. unfold tag_to_data_type, try_from. no_panic.
  - induction witems as [|i l IH]; cbn [convert_write_items]; [done|].
    apply outcome_bind_no_panic; [|intros; apply outcome_bind_no_panic; done].
    apply map_err_no_panic. unfold decode_value_bytes, try_from, exact_len. no_panic.
Qed.

(** The batch entry points of the C ABI keep their error contract for
    every input and every state of the handle, also after a failed [create]
    or a panic of the driver: status 0 comes with a buffer and leaves the
    last error alone; status -1 comes with no buffer and a recorded error
    (as long as the envelopes serialize). *)
Theorem api_batch_reports ritems witems len d w :
  (∀ rs, is_Some (read_envelope rs)) → (∀ rs, is_Some (write_envelope rs)) →
  reports d (api_read ritems len (Some d) w) ∧ reports d (api_write witems len (Some d) w).
Proof.
  intros Hr Hw. split.
  - unfold api_read. destruct ritems as [l|].
    + pose proof (convert_items_no_panic (take len l) []) as [Hnp _].
      destruct (convert_read_items _) as [items|e|]; [|apply entry_fail_with|done].
      apply entry_finish; [apply keeps_read_batch|done].
    + destruct (0 <? len)%nat; [apply entry_fail_with|].
      apply entry_finish; [apply keeps_read_batch|done].
  - unfold api_write. destruct witems as [l|].
    + pose proof (convert_items_no_panic [] (take len l)) as [_ Hnp].
      destruct (convert_write_items _) as [items|e|]; [|apply entry_fail_with|done].
      apply entry_finish; [apply keeps_write_batch|done].
    + destruct (0 <? len)%nat; [apply entry_fail_with|].
      apply entry_finish; [apply keeps_write_batch|done].
Qed.

(** A handle whose [create] failed answers [connect] with the panic
    error of the missing transport, contained by the ABI guard: the original
    configuration error is overwritten. *)
Theorem failed_create_connect from_str (create_tr : ModbusConfig → outcome ModbusError.t T)
    config h (w : W) :
  api_create from_str create_tr config = (-1, Some h) →
  is_Some (md_last_error h) ∧ md_transport h = None ∧
  api_connect (Some h) w =
    ((Some (set_last_error ModbusError.driver_panic h), w), (-1, None)).
Proof.
  unfold api_create. intros E.
  destruct (match ffi_str_to_str config with Some _ => _ | None => _ end) as [d|e|]; try done.
  injection E as <-. by repeat split; eauto.
Qed.
End abi_theorems.
