(* ===== verification/ModbusEndToEnd.v ===== *)
(** * A device on the line: the driver's TCP session against the slave

    The byte-stream and network interfaces of the session instantiated with
    the in-process slave of crates/modbus-mock, and the transactions of the
    driver against it: reads return the slave's bank, writes change it. *)

From S2P Require Import Prelude RustStd ObservationModel DriverAbi AbiTag ModbusAddress ModbusCodec ModbusFrame.
From S2P Require Import ModbusSession ModbusSessionLaws ModbusMock ModbusBatch ModbusPlans ModbusDriver ModbusDriverLaws.
From stdpp Require Import options.

(** ** The network with one slave *)
Definition with_boxes (c : Conn) (inbox outbox : list Z) (open : bool) : Conn :=
  {| cn_behavior := cn_behavior c; cn_rng := cn_rng c; cn_inbox := inbox; cn_outbox := outbox;
     cn_open := open |}.

(** The slave runs as far as it can on the bytes it received; when its thread
    dies the connection is gone. *)
Definition mock_write_all (_ : ()) (bytes : list Z) (c : Conn) : Conn * io_result () :=
  if cn_open c then
    let inbox := cn_inbox c ++ bytes in
    match handle_connection (S (length inbox)) (λ _, false) (λ _, true)
            (with_boxes c inbox (cn_outbox c) true) with
    | Ok c' => (c', inr ())
    | _ => (with_boxes c [] (cn_outbox c) false, inr ())
    end
  else (c, inl IoKind.Other).

Definition mock_read_exact (_ : ()) (n : nat) (c : Conn) : Conn * io_result (list Z) :=
  if (n <=? length (cn_outbox c))%nat then
    (with_boxes c (cn_inbox c) (drop n (cn_outbox c)) (cn_open c),
     inr (wrap8 <$> take n (cn_outbox c)))
  else (with_boxes c (cn_inbox c) [] (cn_open c),
        inl (if cn_open c then IoKind.TimedOut else IoKind.Other)).

#[global] Instance mock_stream : ByteStream Conn () := {|
  write_all := mock_write_all;
  read_exact := mock_read_exact;
  close _ c := with_boxes c [] [] false;
|}.

#[global] Instance mock_stream_laws : ByteStreamLaws Conn ().
Proof.
  split. intros [] n c c' bs. cbn. unfold mock_read_exact. case_if; [|done].
  intros [= <- <-]. split; [rewrite length_fmap, length_take; lia|].
  apply Forall_fmap, Forall_forall. intros x _. apply wrap_byte_ok.
Qed.

#[global] Instance mock_net : TcpNet Conn () () := {|
  to_socket_addrs _ _ c := (c, inr [()]);
  connect_timeout _ _ c :=
    ({| cn_behavior := cn_behavior c; cn_rng := None; cn_inbox := []; cn_outbox := [];
        cn_open := true |}, inr ());
  set_read_timeout _ _ c := (c, inr ());
  set_write_timeout _ _ c := (c, inr ());
|}.

(** A clock that stands still and a sleep that takes no time. *)
#[global] Instance mock_os : Os Conn := {|
  now_ns c := (c, 0);
  sleep _ c := c;
|}.

(** ** One exchange *)

(** The line is idle: connected, nothing in flight. *)
Record idle (c : Conn) : Prop := {
  idle_open : cn_open c = true;
  idle_inbox : cn_inbox c = [];
  idle_outbox : cn_outbox c = [];
}.

Lemma next_frame_mbap tid unit rest :
  (1 ≤ length rest)%nat → Z.of_nat (length rest) < 65535 →
  next_frame (mbap_header tid (1 + Z.of_nat (length rest)) unit ++ rest) =
    Ok (Some (mbap_header tid (1 + Z.of_nat (length rest)) unit, rest, [])).
Proof.
  intros H1 Hl. set (len := 1 + Z.of_nat (length rest)).
  set (hdr := mbap_header tid len unit).
  assert (length hdr = 7%nat) as Hh by apply length_mbap_header.
  unfold next_frame. rewrite length_app, Hh.
  replace (7 + length rest <? 7)%nat with false by lia.
  rewrite take_app_exact, drop_app_exact by done.
  change [hdr !!! 4%nat; hdr !!! 5%nat] with (to_be_bytes 2 len).
  rewrite from_to_be_bytes_small by (change (8 * Z.of_nat 2) with 16; lia).
  replace (len =? 0) with false by lia.
  replace (Z.to_nat (len - 1)) with (length rest) by lia.
  replace (7 + length rest <? 7 + length rest)%nat with false by lia.
  rewrite take_ge by lia. rewrite drop_ge by (rewrite length_app; lia). done.
Qed.

(** The slave's answer to one whole request on an idle line. *)
Lemma mock_serves c tid unit rest b rng r :
  idle c → (1 ≤ length rest)%nat → Z.of_nat (length rest) < 65535 →
  handle_request (cn_behavior c) (cn_rng c)
    (mbap_header tid (1 + Z.of_nat (length rest)) unit) rest = (b, rng, Respond r) →
  mock_write_all () (mbap_header tid (1 + Z.of_nat (length rest)) unit ++ rest) c =
    ({| cn_behavior := b; cn_rng := rng; cn_inbox := []; cn_outbox := r; cn_open := true |}, inr ()).
Proof.
  intros [Ho Hi Hou] H1 Hl Hr. unfold mock_write_all. rewrite Ho, Hi. cbn [app].
  set (frame := mbap_header _ _ _ ++ rest).
  assert (∃ n, length frame = S n) as [n Hn].
  { unfold frame. rewrite length_app, length_mbap_header. by exists (6 + length rest)%nat. }
  rewrite Hn. cbn [handle_connection with_boxes cn_open cn_inbox negb].
  unfold frame. rewrite next_frame_mbap by done. cbn [outcome_bind].
  cbn [cn_behavior cn_rng cn_outbox with_boxes]. rewrite Hr, Hou. done.
Qed.

Lemma wrap8_bytes l : bytes_ok l → wrap8 <$> l = l.
Proof.
  induction 1 as [|b l Hb Hl IH]; [done|]. cbn [fmap list_fmap].
  rewrite IH, wrap_small; [done|]. unfold byte_ok in Hb. unfold in_u. lia.
Qed.

Lemma mock_reads c l l' :
  cn_outbox c = l ++ l' → bytes_ok l →
  mock_read_exact () (length l) c = (with_boxes c (cn_inbox c) l' (cn_open c), inr l).
Proof.
  intros Ho Hl. unfold mock_read_exact. rewrite Ho, length_app.
  replace (_ <=? _)%nat with true by lia.
  rewrite take_app_exact, drop_app_exact by done. by rewrite wrap8_bytes.
Qed.

(** A request the slave answers with a matching header is exchanged for the
    body of that answer. *)
Lemma mock_exchange (t : TcpTransport ()) c request unit rest b rng body :
  let tid := wrap16 (tt_transaction_id t + 1) in
  tt_stream t = Some () → idle c → (1 ≤ length rest)%nat → Z.of_nat (length rest) < 65535 →
  request tid = mbap_header tid (1 + Z.of_nat (length rest)) unit ++ rest →
  handle_request (cn_behavior c) (cn_rng c)
    (mbap_header tid (1 + Z.of_nat (length rest)) unit) rest =
    (b, rng, Respond (mbap_header tid (1 + Z.of_nat (length body)) unit ++ body)) →
  bytes_ok body → byte_ok unit → (1 ≤ length body)%nat → Z.of_nat (length body) < 65535 →
  ∃ c', tcp_exchange request unit (t, c) = ((tcp_next_transaction t, c'), Ok body) ∧
    idle c' ∧ cn_behavior c' = b ∧ cn_rng c' = rng.
Proof.
  intros tid Hst Hc H1 Hl Hreq Hh Hb Hu Hb1 Hbl.
  set (c1 := {| cn_behavior := b; cn_rng := rng; cn_inbox := [];
    cn_outbox := mbap_header tid (1 + Z.of_nat (length body)) unit ++ body; cn_open := true |}).
  exists (with_boxes c1 [] [] true). split; [|done].
  apply tcp_exchange_Ok.
  exists (), c1, (with_boxes c1 [] body true), (with_boxes c1 [] [] true),
    (mbap_header tid (1 + Z.of_nat (length body)) unit), (length body).
  split; [done|]. split; [fold tid; rewrite Hreq; by apply mock_serves|].
  split; [by apply (mock_reads c1 (mbap_header _ _ _) body); [|apply mbap_header_ok]|].
  split.
  - fold tid. rewrite parse_mbap_header; [|apply wrap_range; lia|lia].
    do 2 f_equal. lia.
  - split; [|done].
    apply (mock_reads (with_boxes c1 [] body true) body []); [|done]. by rewrite app_nil_r.
Qed.

(** ** A healthy slave *)
Record healthy (b : MockBehavior) : Prop := {
  hl_timeout : timeout_rate b = None;
  hl_drop : drop_connection b = false;
  hl_exceptions : exception_at b = ∅;
  hl_byte_count : declare_wrong_byte_count b = false;
}.

Lemma find_exception_none unit k start n : find_exception ∅ unit k start n = None.
Proof.
  unfold find_exception. generalize (seq 0 n) as l. intros l.
  induction l as [|i l IH]; [done|]. cbn [omap list_omap]. by rewrite lookup_empty.
Qed.

(** A write request that passes the payload checks is stored and echoed. *)
Lemma healthy_write b rng tid len unit k start fn payload vs :
  healthy b → in_u 16 start → stores k start fn payload vs →
  ∃ b', handle_request b rng (mbap_header tid len unit) (write_pdu fn start payload) =
      (b', rng, Respond (mbap_header tid 6 unit ++ fn :: to_be_bytes 2 start ++ take 2 payload)) ∧
    healthy b' ∧ values b' = insert_list unit k start vs (values b).
Proof.
  intros [Ht Hd He Hw] Hs [Hk Hwr Hok Hlen (tail & Htail & Hecho & Happly)].
  unfold handle_request.
  replace (length (write_pdu fn start payload) <? 5)%nat with false.
  2:{ symmetry. apply Nat.ltb_ge. unfold write_pdu. cbn [length].
      rewrite length_app, length_to_be_bytes. lia. }
  change (mbap_header tid len unit !!! 6%nat) with unit.
  change (write_pdu fn start payload !!! 0%nat) with fn.
  change [write_pdu fn start payload !!! 1%nat; write_pdu fn start payload !!! 2%nat]
    with (to_be_bytes 2 start).
  rewrite from_to_be_bytes_small by done.
  change (from_be_bytes [write_pdu fn start payload !!! 3%nat; write_pdu fn start payload !!! 4%nat])
    with (pdu_quantity (write_pdu fn start payload)).
  change (if (fn =? 0x05) || (fn =? 0x06) then 1 else pdu_quantity (write_pdu fn start payload))
    with (pdu_write_quantity (write_pdu fn start payload)).
  cbn [count_request timeout_rate drop_connection]. rewrite Ht, Hd. cbn [roll_timeout].
  rewrite Hk, Hwr. cbn [capture_write count_request exception_at]. rewrite He, find_exception_none.
  unfold handle_write. rewrite Htail. eexists. split.
  - do 2 f_equal. rewrite <- Hecho. done.
  - split; [by split|]. cbn [set_values values]. by rewrite Happly.
Qed.

(** A read request is answered with the bank's bytes. *)
Lemma healthy_read b rng tid len unit k start q fc :
  healthy b → in_u 16 start → in_u 16 q → kind_of fc = Some k → mock_is_write_function fc = false →
  Z.of_nat (length (read_data (values b) unit k start q)) < 256 →
  ∃ b', handle_request b rng (mbap_header tid len unit)
        (fc :: to_be_bytes 2 start ++ to_be_bytes 2 q) =
      (b', rng, Respond (mbap_header tid
          (3 + Z.of_nat (length (read_data (values b) unit k start q))) unit
        ++ fc :: Z.of_nat (length (read_data (values b) unit k start q))
             :: read_data (values b) unit k start q)) ∧
    healthy b' ∧ values b' = values b.
Proof.
  intros [Ht Hd He Hw] Hs Hq Hk Hnw Hlen.
  set (rest := fc :: to_be_bytes 2 start ++ to_be_bytes 2 q).
  unfold handle_request.
  change (length rest <? 5)%nat with false.
  change (mbap_header tid len unit !!! 6%nat) with unit.
  change (rest !!! 0%nat) with fc.
  change [rest !!! 1%nat; rest !!! 2%nat] with (to_be_bytes 2 start).
  change [rest !!! 3%nat; rest !!! 4%nat] with (to_be_bytes 2 q).
  rewrite !from_to_be_bytes_small by done. cbv zeta.
  cbn [count_request timeout_rate drop_connection]. rewrite Ht, Hd. cbn [roll_timeout].
  rewrite Hk, Hnw. cbn [count_request exception_at]. rewrite He, find_exception_none.
  eexists. split; [|split]; [refine (f_equal (λ r, (_, rng, Respond r)) _)|by split|done].
  unfold read_response.
  cbn [count_request declare_wrong_byte_count values]. rewrite Hw.
  rewrite (wrap_small 16) by (unfold in_u; lia).
  rewrite (wrap_small 8) by (unfold in_u; lia). rewrite app_nil_r, Z.add_0_r, Z.add_comm. done.
Qed.

(** ** The bytes of a read *)
Lemma words_bytes_length l : length (concat (to_be_bytes 2 <$> l)) = (2 * length l)%nat.
Proof.
  induction l as [|x l IH]; [done|]. cbn [fmap list_fmap concat length].
  rewrite length_app, length_to_be_bytes, IH. lia.
Qed.

Lemma read_data_shape m unit rk start q :
  0 ≤ q →
  Z.of_nat (length (read_data m unit (slave_kind rk) start q)) =
    expected_data_len (RegisterKind.function_code rk) q ∧
  bytes_ok (read_data m unit (slave_kind rk) start q).
Proof.
  intros Hq. unfold read_data.
  assert (bytes_ok (concat (to_be_bytes 2 <$>
    (cell m unit (slave_kind rk) start <$> seq 0 (Z.to_nat q))))) as Hreg.
  { apply Forall_concat, Forall_fmap, Forall_forall. intros x _. apply to_be_bytes_ok. }
  assert (0 ≤ div_ceil q 8) by (unfold div_ceil; case_if; dlia).
  destruct rk; cbn [slave_kind is_register].
  2,4: try (split; [rewrite words_bytes_length, !length_fmap, length_seq; cbn; lia|done]).
  1,2: split; [|apply pack_loop_shape, Forall_replicate; unfold byte_ok; lia].
  1,2: rewrite (proj1 (pack_loop_shape _ _ _)), length_replicate; cbn -[div_ceil]; lia.
  all: split; [rewrite words_bytes_length, !length_fmap, length_seq; cbn; lia|done].
Qed.

Lemma kind_of_function_code rk :
  kind_of (RegisterKind.function_code rk) = Some (slave_kind rk) ∧
  mock_is_write_function (RegisterKind.function_code rk) = false ∧
  byte_ok (RegisterKind.function_code rk).
Proof. destruct rk; (split; [done|]); (split; [done|]); unfold byte_ok; cbn; lia. Qed.

(** ** The transactions of the driver *)

(** The line and the slave between two transactions. *)
Definition serving (bank : gmap AddrKey Z) (s : TcpTransport () * Conn) : Prop :=
  tt_stream s.1 = Some () ∧ idle s.2 ∧ healthy (cn_behavior s.2) ∧
  values (cn_behavior s.2) = bank.

Lemma loopback_read bank s unit rk start q :
  serving bank s → byte_ok unit → in_u 16 start → 0 ≤ q →
  expected_data_len (RegisterKind.function_code rk) q < 256 → in_u 16 q →
  ∃ s', tcp_read_transaction unit (RegisterKind.function_code rk) start q s =
      (s', Ok (read_data bank unit (slave_kind rk) start q)) ∧ serving bank s'.
Proof.
  intros (Hst & Hi & Hh & <-) Hu Hs Hq0 Hlen Hq. destruct s as [t c]. cbn [fst snd] in *.
  set (fc := RegisterKind.function_code rk) in *.
  destruct (kind_of_function_code rk) as (Hk & Hnw & Hfc).
  set (data := read_data (values (cn_behavior c)) unit (slave_kind rk) start q).
  destruct (read_data_shape (values (cn_behavior c)) unit rk start q Hq0) as [Hdl Hdok].
  fold data in Hdl, Hdok. fold fc in Hdl.
  set (tid := wrap16 (tt_transaction_id t + 1)).
  destruct (healthy_read (cn_behavior c) (cn_rng c) tid 6 unit (slave_kind rk) start q fc)
    as (b' & Hb' & Hh' & Hv'); [done|done|done|done|done|fold data; lia|]. fold data in Hb'.
  destruct (mock_exchange t c (λ tid, build_tcp_read_request tid unit fc start q) unit
    (fc :: to_be_bytes 2 start ++ to_be_bytes 2 q) b' (cn_rng c) (fc :: Z.of_nat (length data) :: data))
    as (c' & Hex & Hi' & Hbc & _); try done.
  - cbn. lia.
  - fold tid. cbn [length] in *. change (1 + Z.of_nat 5) with 6.
    by replace (1 + Z.of_nat (S (S (length data)))) with (3 + Z.of_nat (length data)) by lia.
  - constructor; [done|]. constructor; [unfold byte_ok; lia|done].
  - cbn. lia.
  - cbn. lia.
  - exists (tcp_next_transaction t, c'). split; [|by subst b'].
    unfold tcp_read_transaction. rewrite (sbind_Ok _ _ _ _ _ Hex). apply slift_Ok. split; [|done].
    apply read_body_Ok; [| |done|done].
    + constructor; [done|]. constructor; [unfold byte_ok; lia|done].
    + unfold fc. destruct rk; cbn; lia.
Qed.

Lemma loopback_write bank s unit k start fn payload vs :
  serving bank s → byte_ok unit → in_u 16 start → stores k start fn payload vs →
  is_write_function fn = true →
  ∃ s', tcp_write_transaction unit fn start payload s = (s', Ok ()) ∧
    serving (insert_list unit k start vs bank) s'.
Proof.
  intros (Hst & Hi & Hh & <-) Hu Hs Hstores Hwf. destruct s as [t c]. cbn [fst snd] in *.
  pose proof (is_write_function_range fn Hwf) as Hfn.
  pose proof (st_length _ _ _ _ _ Hstores) as Hl. pose proof (st_payload _ _ _ _ _ Hstores) as Hpok.
  set (tid := wrap16 (tt_transaction_id t + 1)). set (rest := write_pdu fn start payload).
  assert (length rest = 3 + length payload)%nat as Hrl.
  { unfold rest, write_pdu. cbn [length]. by rewrite length_app, length_to_be_bytes. }
  destruct (healthy_write (cn_behavior c) (cn_rng c) tid (1 + Z.of_nat (length rest)) unit k start fn
    payload vs) as (b' & Hb' & Hh' & Hv'); [done..|].
  set (body := fn :: to_be_bytes 2 start ++ take 2 payload).
  assert (length body = 5)%nat as Hbl.
  { unfold body. cbn [length]. rewrite length_app, length_to_be_bytes, length_take. lia. }
  assert (bytes_ok body) as Hbok.
  { constructor; [unfold byte_ok; lia|]. by auto with bytes. }
  destruct (mock_exchange t c (λ tid, build_tcp_write_request tid unit fn start payload) unit
    rest b' (cn_rng c) body) as (c' & Hex & Hi' & Hbc & _); try done; try lia.
  - rewrite build_tcp_write_request_eq by lia. unfold rest at 2, write_pdu.
    by replace (1 + Z.of_nat (length rest)) with (4 + Z.of_nat (length payload)) by lia.
  - fold tid. rewrite Hbl. exact Hb'.
  - exists (tcp_next_transaction t, c'). split.
    + unfold tcp_write_transaction. rewrite (sbind_Ok _ _ _ _ _ Hex). apply slift_Ok.
      split; [|done]. apply write_body_Ok; [done|]. split; [done|]. split; [lia|done].
    + subst b'. by repeat split; try apply Hi'; try apply Hh'.
Qed.

(** * End to end: batches of the driver against the slave

    A batch read returns for every item what reading it alone would return;
    a batch write stores every item; and what was written is read back. *)

(** ** Decoding an item out of a larger response *)

Lemma decode_None_at k pre bs post off wo :
  is_bit_kind k = false → length pre = (off * 2)%nat → length bs = 2%nat →
  decode_register_value k (pre ++ bs ++ post) off None wo = Ok (RawValue.U64 (from_be_bytes bs)).
Proof.
  intros Hk Hpre Hbs. unfold decode_register_value. rewrite Hk. unfold decode_u16.
  rewrite !length_app. replace (_ <? _)%nat with false by lia. by rewrite slice_mid by lia.
Qed.

(** Only the item's own registers matter, and their position does not. *)
Lemma decode_registers_at k pre bs post off ty wo :
  is_bit_kind k = false → length pre = (off * 2)%nat →
  Z.of_nat (length bs) = 2 * item_width k ty →
  decode_register_value k (pre ++ bs ++ post) off ty wo = decode_register_value k bs 0 ty wo.
Proof.
  intros Hk Hpre Hbs. destruct ty as [dt|].
  - destruct (DataType.is_bool dt) eqn:Hb; [unfold decode_register_value; by rewrite Hk, Hb|].
    destruct (register_width dt) as [w|] eqn:Hw.
    2:{ unfold decode_register_value. by rewrite Hk, Hb, Hw. }
    assert (length bs = Z.to_nat w * 2)%nat as Hbs'.
    { destruct k; try done; cbn in Hbs; rewrite Hw in Hbs; cbn in Hbs; lia. }
    rewrite (decode_register_value_at k pre bs post off dt wo w) by done.
    pose proof (decode_register_value_at k [] bs [] 0 dt wo w Hk Hb Hw eq_refl Hbs') as H0.
    cbn [app] in H0. by rewrite app_nil_r in H0.
  - assert (length bs = 2)%nat as Hbs' by (destruct k; try done; cbn in Hbs; lia).
    rewrite decode_None_at by done.
    pose proof (decode_None_at k [] bs [] 0 wo Hk eq_refl Hbs') as H0.
    cbn [app] in H0. by rewrite app_nil_r in H0.
Qed.

Lemma decode_bits_at k bits bits' off ty wo :
  is_bit_kind k = true → bits !! off = bits' !! 0%nat → is_Some (bits !! off) →
  decode_register_value k (pack_bits bits) off ty wo =
    decode_register_value k (pack_bits bits') 0 ty wo.
Proof.
  intros Hk Heq [b Hb]. rewrite Hb in Heq.
  assert (decode_bit (pack_bits bits) off = decode_bit (pack_bits bits') 0) as Hbit.
  { rewrite !decode_bit_spec, !pack_bits_bit.
    rewrite !decide_True by (by eapply lookup_lt_Some). by rewrite Hb, <- Heq. }
  unfold decode_register_value. rewrite Hk. destruct ty as [dt|]; by rewrite Hbit.
Qed.

(** ** The bytes of a sub-range *)
Lemma cells_shift m unit k start off n :
  cell m unit k start <$> seq off n = cell m unit k (start + Z.of_nat off) <$> seq 0 n.
Proof.
  replace (seq off n) with (Nat.add off <$> seq 0 n) by (by rewrite fmap_add_seq, Nat.add_0_r).
  rewrite <- list_fmap_compose. apply list_fmap_ext. intros i x _. unfold cell, compose.
  by rewrite Nat2Z.inj_add, Z.add_assoc.
Qed.

Lemma read_data_decode m unit rk start q off ty wo :
  0 ≤ off → off + item_width rk ty ≤ q →
  decode_register_value rk (read_data m unit (slave_kind rk) start q) (Z.to_nat off) ty wo =
    decode_register_value rk
      (read_data m unit (slave_kind rk) (start + off) (item_width rk ty)) 0 ty wo.
Proof.
  intros Ho Hq. pose proof (item_width_range rk ty) as Hw.
  set (w := item_width rk ty) in *. unfold read_data.
  assert (Z.to_nat q = Z.to_nat off + (Z.to_nat w + Z.to_nat (q - off - w)))%nat as Hsplit by lia.
  destruct (is_bit_kind rk) eqn:Hk.
  - assert (is_register (slave_kind rk) = false) as -> by by destruct rk.
    assert (w = 1) as Hw1 by (unfold w; by destruct rk).
    assert (∀ n s, pack_loop ((λ v, negb (v =? 0)) <$> (cell m unit (slave_kind rk) s <$> seq 0 n)) 0
      (replicate (Z.to_nat (div_ceil (Z.of_nat n) 8)) 0) =
      pack_bits ((λ v, negb (v =? 0)) <$> (cell m unit (slave_kind rk) s <$> seq 0 n))) as Hpack.
    { intros n s. unfold pack_bits. by rewrite !length_fmap, length_seq. }
    rewrite <- (Z2Nat.id q) at 2 by lia. rewrite <- (Z2Nat.id w) at 2 by lia. rewrite !Hpack.
    assert (seq 0 (Z.to_nat q) !! Z.to_nat off = Some (Z.to_nat off)) as Hoff
      by (rewrite lookup_seq_lt by lia; done).
    assert (seq 0 (Z.to_nat w) !! 0%nat = Some 0%nat) as H0
      by (rewrite lookup_seq_lt by lia; done).
    apply decode_bits_at; [done| |].
    + rewrite !list_lookup_fmap, Hoff, H0. cbn [fmap option_fmap option_map]. do 2 f_equal.
      unfold cell. by rewrite Z2Nat.id, Z.add_0_r by lia.
    + rewrite !list_lookup_fmap, Hoff. by eexists.
  - assert (is_register (slave_kind rk) = true) as -> by by destruct rk.
    rewrite Hsplit, !seq_app, !fmap_app, !concat_app. cbn [Nat.add].
    rewrite (cells_shift _ _ _ _ (Z.to_nat off)), Z2Nat.id by lia.
    apply decode_registers_at; [done| |]; rewrite words_bytes_length, !length_fmap, length_seq; lia.
Qed.

(** ** The driver on an idle line *)
Abbreviation Driver := (ModbusDriver (TcpTransport ())).

Definition d_serving (d0 : Driver) (bank : gmap AddrKey Z) (s : Driver * Conn) : Prop :=
  ∃ t, s.1 = set_transport t d0 ∧ serving bank (t, s.2).

Lemma ensure_serving d0 bank s :
  d_serving d0 bank s → ensure_connected_before_plan s = (s, Ok ()).
Proof.
  intros (t & Hs & Hst & _). destruct s as [d c]. cbn in Hs, Hst. subst d.
  unfold ensure_connected_before_plan, sbind, with_transport. cbn. unfold tcp_is_connected.
  by rewrite Hst.
Qed.

(** The result of an item from its decoding. *)
Definition read_result (id : Z) (o : outcome DecodeError RawValue.t) : RawReadResult :=
  match o with
  | Ok v => {| rr_item_id := id; rr_value := Some v; rr_source_timestamp_ns := None;
               rr_received_timestamp_ns := 0; rr_protocol_quality_code := Some 0;
               rr_error := None |}
  | _ => error_result_with_ts id ModbusError.decode_error 0
  end.

Definition item_result (k : RegisterKind.t) (data : list Z) (wo : WordOrder.t) (p : PlannedItem) :
    RawReadResult :=
  read_result (pi_item_id p)
    (decode_register_value k data (Z.to_nat (pi_offset_in_frame p)) (pi_expected_type p) wo).

Lemma decode_items_run k data wo items (s : Driver * Conn) :
  decode_items k data wo items s = (s, Ok (item_result k data wo <$> items)).
Proof.
  destruct s as [d c]. induction items as [|p items IH]; [done|]. cbn [decode_items fmap list_fmap].
  rewrite (sbind_Ok _ _ _ (d, c) 0) by done.
  rewrite (sbind_Ok _ _ _ (d, c) (item_result k data wo p)).
  - by rewrite (sbind_Ok _ _ _ _ _ IH).
  - apply slift_Ok. split; [|done]. unfold decode_item, item_result, read_result.
    pose proof (decode_register_value_no_panic k data (Z.to_nat (pi_offset_in_frame p))
      (pi_expected_type p) wo). by destruct (decode_register_value _ _ _ _ _).
Qed.

(** A plan the slave can answer in one response. *)
Record plan_fits (p : ReadPlan) : Prop := {
  pf_unit : byte_ok (rp_unit_id p);
  pf_start : in_u 16 (rp_start_offset p);
  pf_quantity : in_u 16 (rp_quantity p);
  pf_len : expected_data_len (RegisterKind.function_code (rp_kind p)) (rp_quantity p) < 256;
}.

Definition plan_results (bank : gmap AddrKey Z) (wo : WordOrder.t) (p : ReadPlan) :
    list RawReadResult :=
  item_result (rp_kind p)
    (read_data bank (rp_unit_id p) (slave_kind (rp_kind p)) (rp_start_offset p) (rp_quantity p)) wo
    <$> rp_items p.

Lemma request_plan_run d0 bank s p :
  d_serving d0 bank s → plan_fits p →
  ∃ s', request_plan p s =
      (s', Ok (read_data bank (rp_unit_id p) (slave_kind (rp_kind p)) (rp_start_offset p)
                 (rp_quantity p))) ∧ d_serving d0 bank s'.
Proof.
  intros (t & Hs & Hserv) [Hu Hst Hq Hlen]. destruct s as [d c]. cbn in Hs. subst d.
  destruct (loopback_read bank (t, c) (rp_unit_id p) (rp_kind p) (rp_start_offset p) (rp_quantity p))
    as ([t' c'] & Hrun & Hserv'); [done|done|done|unfold in_u in Hq; lia|done|done|].
  exists (set_transport t' d0, c'). split; [|by exists t'].
  unfold request_plan, with_transport, drop_on_transport_error. cbn [md_transport set_transport].
  cbn [tr_read_transaction tcp_transport]. by rewrite Hrun.
Qed.

Lemma read_plans_run d0 bank s plans results :
  d_serving d0 bank s → Forall plan_fits plans →
  ∃ s', read_plans plans results s =
      (s', Ok (results ++ concat (plan_results bank (mc_word_order (md_config d0)) <$> plans))) ∧
    d_serving d0 bank s'.
Proof.
  intros Hs Hp. revert s results Hs.
  induction Hp as [|p plans Hp Hps IH]; intros s results Hs; cbn [read_plans].
  { exists s. by rewrite app_nil_r. }
  rewrite (sbind_Ok _ _ _ s ()) by by eapply ensure_serving.
  rewrite (sbind_Ok _ _ _ s s) by done. destruct s as [d c].
  destruct (request_plan_run d0 bank (d, c) p Hs Hp) as (s1 & Hreq & Hs1).
  rewrite (sbind_Ok _ _ _ s1 (plan_results bank (mc_word_order (md_config d0)) p)).
  - destruct (IH s1 (results ++ plan_results bank (mc_word_order (md_config d0)) p) Hs1)
      as (s' & Hrun & Hs'). exists s'. split; [|done]. rewrite Hrun.
    cbn [fmap list_fmap concat]. by rewrite app_assoc.
  - unfold on_protocol_error. rewrite Hreq, decode_items_run.
    destruct Hs as (t & Hd & _). cbn in Hd. by subst d.
Qed.

(** ** Reading *)

(** The result of an item read on its own. *)
Definition read_entry_alone (bank : gmap AddrKey Z) (wo : WordOrder.t) (e : GroupEntry) :
    RawReadResult :=
  read_result (ge_id e)
    (decode_register_value (kind (ge_addr e))
       (read_data bank (unit_id (ge_addr e)) (slave_kind (kind (ge_addr e))) (offset (ge_addr e))
          (ge_width e)) 0 (ge_type e) wo).

Definition read_alone (d : Z) (bank : gmap AddrKey Z) (wo : WordOrder.t) (item : DriverReadItem) :
    option RawReadResult :=
  match parse_address (ri_address item) d with
  | Ok a => Some (read_entry_alone bank wo
                    {| ge_id := ri_id item; ge_addr := a; ge_type := ri_expected_type item |})
  | _ => None
  end.

Lemma chunk_fits key c : chunk_ok key c → plan_fits (read_plan_of key c).
Proof.
  intros Hc. destruct (chunk_quantity_eq _ _ Hc) as (e & He & _ & Hq & Hend).
  destruct (chunk_last _ _ Hc) as (e' & _ & Hl).
  destruct (chunk_entry _ _ Hc _ _ Hl) as ([Hk [Hwf _]] & _ & _ & _ & Hs & _).
  pose proof (read_limit_range key.2).
  split; cbn [read_plan_of rp_unit_id rp_kind rp_start_offset rp_quantity].
  - unfold byte_ok. rewrite <- Hk. destruct Hwf as [? _]. cbn. lia.
  - unfold in_u. lia.
  - unfold in_u. lia.
  - unfold expected_data_len. destruct key as [u []]; cbn [snd] in *;
      unfold read_limit, MAX_BITS_PER_REQUEST, MAX_REGISTERS_PER_REQUEST in *;
      cbn -[div_ceil Z.mul]; rewrite ?div_ceil_spec by lia; dlia.
Qed.

Lemma chunk_results bank wo key c :
  chunk_ok key c → ForallOrdPairs entries_disjoint c →
  plan_results bank wo (read_plan_of key c) = read_entry_alone bank wo <$> c.
Proof.
  intros Hc Hd. unfold plan_results. cbn [read_plan_of rp_items rp_kind rp_unit_id rp_start_offset
    rp_quantity]. rewrite <- list_fmap_compose. apply list_fmap_ext. intros i e Hi.
  destruct (chunk_entry _ _ Hc i e Hi) as ([Hk _] & Ho & Hw & Hwid & _).
  pose proof (chunk_covers _ _ _ _ Hc Hd Hi) as Hcov.
  unfold compose, item_result, read_entry_alone, planned.
  cbn [pi_item_id pi_offset_in_frame pi_expected_type]. rewrite Hw. f_equal.
  rewrite read_data_decode by (rewrite ?Hwid; lia). rewrite Hwid, <- Ho.
  unfold ge_key in Hk. by subst key.
Qed.

Lemma results_alone d bank wo items entries :
  Forall2 (entry_of d) items entries →
  Some <$> (read_entry_alone bank wo <$> entries) = read_alone d bank wo <$> items.
Proof.
  induction 1 as [|item e items entries (Hp & Hid & Hty) H2 IH]; [done|].
  cbn [fmap list_fmap]. rewrite IH. f_equal. destruct e as [i a ty]. cbn in Hp, Hid, Hty. subst.
  unfold read_alone. by rewrite Hp.
Qed.

Lemma read_batch_alone items (d : Driver) c t bank :
  md_transport d = Some t → serving bank (t, c) → in_u 8 (mc_unit_id (md_config d)) →
  forallb (item_fits (mc_unit_id (md_config d))) items = true →
  ForallOrdPairs (spans_disjoint (mc_unit_id (md_config d))) items →
  ∃ s' rs, read_batch items (d, c) = (s', Ok rs) ∧ d_serving d bank s' ∧
    Some <$> rs ≡ₚ
      read_alone (mc_unit_id (md_config d)) bank (mc_word_order (md_config d)) <$> items.
Proof.
  intros Ht Hserv Hu Hfit Hdis.
  pose proof (plan_batch_cases items _ Hu) as Hc.
  destruct (plan_batch items _) as [plans|e|] eqn:Hp; [|by destruct Hc; congruence|done].
  apply plan_batch_chunks in Hp as Hp'; [|done]. destruct Hp' as (entries & kcs & H2 & -> & Hperm & Hok).
  set (wo := mc_word_order (md_config d)).
  assert (d_serving d bank (d, c)) as Hs.
  { exists t. split; [|done]. by destruct d; cbn in *; subst. }
  assert (Forall plan_fits (uncurry read_plan_of <$> kcs)) as Hfits.
  { apply Forall_fmap. eapply Forall_impl; [exact Hok|]. intros [key ch] ?. by apply chunk_fits. }
  destruct (read_plans_run d bank (d, c) _ [] Hs Hfits) as (s' & Hrun & Hs').
  eexists s', _. split; [|split; [done|]].
  - unfold read_batch. rewrite (sbind_Ok _ _ _ (d, c) (d, c)) by done.
    rewrite (sbind_Ok _ _ _ (d, c) (uncurry read_plan_of <$> kcs)) by (by apply slift_Ok).
    rewrite (sbind_Ok _ _ _ _ _ Hrun). done.
  - rewrite sort_by_key_perm. cbn [app]. rewrite <- (results_alone _ _ _ _ _ H2), <- Hperm.
    assert (ForallOrdPairs entries_disjoint (concat kcs.*2)) as Hdis'.
    { eapply ForallOrdPairs_perm; [|symmetry; exact Hperm|by eapply entries_disjoint_of].
      unfold entries_disjoint. naive_solver. }
    clear Hrun Hfits Hperm Hp. induction Hok as [|[key ch] kcs Hch Hok IH]; [done|].
    cbn [fmap list_fmap concat uncurry snd] in *.
    apply ForallOrdPairs_app_inv in Hdis' as [Hd1 Hd2].
    rewrite chunk_results by done. rewrite !fmap_app. apply Permutation_app; [done|by apply IH].
Qed.

(** C18: batching is transparent: against a healthy slave, a batch read of items
    that fit their address space and do not overlap returns for every item exactly the result of reading
    that item alone, whatever was merged, split, grouped or reordered. *)
Theorem read_batch_transparent items (d : Driver) c t bank :
  md_transport d = Some t → serving bank (t, c) → in_u 8 (mc_unit_id (md_config d)) →
  forallb (item_fits (mc_unit_id (md_config d))) items = true →
  ForallOrdPairs (spans_disjoint (mc_unit_id (md_config d))) items →
  ∃ s' rs, read_batch items (d, c) = (s', Ok rs) ∧ d_serving d bank s' ∧
    Some <$> rs ≡ₚ
      read_alone (mc_unit_id (md_config d)) bank (mc_word_order (md_config d)) <$> items.
Proof. apply read_batch_alone. Qed.

(** ** Writing *)
Lemma request_write_plan_run d0 bank s key c :
  d_serving d0 bank s → wchunk_ok key c →
  ∃ s', request_write_plan (write_plan_of key c) s = (s', Ok ()) ∧
    d_serving d0 (foldl store_entry bank c) s'.
Proof.
  intros (t & Hs & Hserv) Hc. destruct s as [d w]. cbn in Hs. subst d.
  pose proof (wchunk_stores _ _ Hc) as Hst.
  destruct (wchunk_quantity _ _ Hc) as (limit & _ & _ & _ & _ & Hu).
  destruct (loopback_write bank (t, w) key.1 (slave_kind key.2) (wchunk_start c)
    (payload_of key.2 c).1 (payload_of key.2 c).2 (chunk_cells c)) as ([t' c'] & Hrun & Hserv').
  - done.
  - unfold byte_ok. lia.
  - by eapply wchunk_start_range.
  - done.
  - apply Hst.
  - exists (set_transport t' d0, c'). split.
    + unfold request_write_plan, with_transport, drop_on_transport_error.
      cbn [md_transport set_transport tr_write_transaction tcp_transport write_plan_of wp_unit_id
        wp_function wp_start_offset wp_payload]. by rewrite Hrun.
    + exists t'. split; [done|]. destruct Hc as [_ Hin Hnext _]. by rewrite <- (chunk_store key).
Qed.

Lemma write_plans_run d0 bank s kcs results :
  d_serving d0 bank s → Forall (uncurry wchunk_ok) kcs →
  ∃ s', write_plans (uncurry write_plan_of <$> kcs) results s =
      (s', Ok (results ++ (write_ok_result <$> (we_id <$> concat kcs.*2)))) ∧
    d_serving d0 (foldl store_entry bank (concat kcs.*2)) s'.
Proof.
  intros Hs Hk. revert bank s results Hs.
  induction Hk as [|[key c] kcs Hc Hk IH]; intros bank s results Hs.
  { exists s. cbn. by rewrite app_nil_r. }
  cbn [fmap list_fmap write_plans uncurry].
  rewrite (sbind_Ok _ _ _ s ()) by by eapply ensure_serving.
  destruct (request_write_plan_run d0 bank s key c Hs Hc) as (s1 & Hreq & Hs1).
  rewrite (sbind_Ok _ _ _ s1 (write_ok_result <$> (we_id <$> c))).
  - destruct (IH _ _ (results ++ (write_ok_result <$> (we_id <$> c))) Hs1) as (s' & Hrun & Hs').
    exists s'. cbn [concat snd]. rewrite foldl_app, !fmap_app, app_assoc. done.
  - unfold on_protocol_error. by rewrite Hreq.
Qed.

(** The result of an item: confirmed, or refused for its type. *)
Definition write_result (d : Z) (wo : WordOrder.t) (item : WriteRequest) : RawWriteResult :=
  default (write_ok_result (wq_id item)) (encode_failure d wo item).

Lemma write_entry_id d wo item e : write_entry d wo item = Some e → we_id e = wq_id item.
Proof. unfold write_entry. intros H. repeat case_match; by simplify_eq. Qed.

Lemma write_results d wo items :
  (write_ok_result <$> (we_id <$> omap (write_entry d wo) items))
    ++ omap (encode_failure d wo) items ≡ₚ write_result d wo <$> items.
Proof.
  rewrite <- list_fmap_compose.
  rewrite <- (list_fmap_id (omap (encode_failure d wo) items)). apply omap_partition.
  intros item. unfold write_result, encode_failure.
  destruct (write_entry d wo item) as [e|] eqn:He; [|done].
  split; [|done]. unfold compose. by rewrite (write_entry_id _ _ _ _ He).
Qed.

(** The bank after the batch is the bank after storing the entries one by one
    in some order. *)
Lemma write_batch_run items (d : Driver) c t bank :
  md_transport d = Some t → serving bank (t, c) → in_u 8 (mc_unit_id (md_config d)) →
  let unit := mc_unit_id (md_config d) in
  let wo := mc_word_order (md_config d) in
  forallb (write_fits unit wo) items = true →
  ∃ s' rs order, write_batch items (d, c) = (s', Ok rs) ∧
    d_serving d (foldl store_entry bank order) s' ∧
    rs ≡ₚ write_result unit wo <$> items ∧
    order ≡ₚ omap (write_entry unit wo) items ∧ Forall fits order.
Proof.
  intros Ht Hserv Hu unit wo Hfit.
  pose proof (plan_write_batch_cases items unit wo Hu) as Hc.
  destruct (plan_write_batch items unit wo) as [[plans errs]|e|] eqn:Hp;
    [|by destruct Hc; congruence|done].
  apply plan_write_batch_chunks in Hp as Hp'; [|done].
  destruct Hp' as (kcs & -> & Hperm & Hok & ->).
  assert (d_serving d bank (d, c)) as Hs.
  { exists t. split; [|done]. by destruct d; cbn in *; subst. }
  destruct (write_plans_run d bank (d, c) kcs (omap (encode_failure unit wo) items) Hs Hok)
    as (s' & Hrun & Hs').
  eexists s', _, (concat kcs.*2). split; [|split; [done|split; [|split; [done|by apply chunks_fit]]]].
  - unfold write_batch. rewrite (sbind_Ok _ _ _ (d, c) (d, c)) by done.
    erewrite sbind_Ok by (apply slift_Ok; split; [exact Hp|done]).
    cbv beta iota. rewrite (sbind_Ok _ _ _ _ _ Hrun). done.
  - rewrite sort_by_key_perm, Permutation_app_comm, Hperm. apply write_results.
Qed.

(** Against a healthy slave a batch write confirms every encodable item
    and reports [invalid_type] for the others; afterwards every confirmed
    item's cells hold its value and no other cell has changed. *)
Theorem write_batch_stores items (d : Driver) c t bank :
  md_transport d = Some t → serving bank (t, c) → in_u 8 (mc_unit_id (md_config d)) →
  let unit := mc_unit_id (md_config d) in
  let wo := mc_word_order (md_config d) in
  forallb (write_fits unit wo) items = true →
  ForallOrdPairs apart (omap (write_entry unit wo) items) →
  ∃ s' rs bank', write_batch items (d, c) = (s', Ok rs) ∧ d_serving d bank' s' ∧
    rs ≡ₚ write_result unit wo <$> items ∧
    (∀ e i v, e ∈ omap (write_entry unit wo) items → cells_of (we_encoded e) !! i = Some v →
       bank' !! (unit_id (we_addr e), slave_kind (kind (we_addr e)), we_offset e + Z.of_nat i)
         = Some v) ∧
    (∀ a, (∀ e, e ∈ omap (write_entry unit wo) items → ¬ covers e a) → bank' !! a = bank !! a).
Proof.
  cbv zeta. intros Ht Hserv Hu Hfit Hap.
  destruct (write_batch_run items d c t bank Ht Hserv Hu Hfit)
    as (s' & rs & order & Hrun & Hs' & Hrs & Hperm & Hfits).
  exists s', rs, (foldl store_entry bank order). do 3 (split; [done|]). split.
  - intros e i v. rewrite <- Hperm. intros He Hv. apply foldl_store_covered; try done.
    by eapply ForallOrdPairs_perm; [apply apart_sym| |].
  - intros a Ha. apply foldl_store_frame; [done|]. intros e. rewrite Hperm. apply Ha.
Qed.

(** ** Reading back what was written *)

(** The type under which a written item reads back. *)
Definition readback_type (k : RegisterKind.t) (vt : Z) (v : RawValue.t) : option DataType.t :=
  match k with
  | RegisterKind.Coil => Some DataType.Bool
  | _ => match try_from vt with Ok t => written_type t v | _ => None end
  end.

Definition readback (d : Z) (item : WriteRequest) : DriverReadItem :=
  {| ri_id := wq_id item; ri_address := wq_address item;
     ri_expected_type :=
       match parse_address (wq_address item) d with
       | Ok a => readback_type (kind a) (wq_value_type item) (wq_value item)
       | _ => None
       end |}.

(** The value is well formed and its tag, where narrow, can carry it. *)
Definition value_fits (item : WriteRequest) : Prop :=
  RawValue.wf (wq_value item) ∧
  match try_from (wq_value_type item) with Ok t => tag_fits t (wq_value item) | _ => True end.

(** What an encodable item is, on both sides. *)
Lemma write_entry_readback d wo item e :
  write_entry d wo item = Some e → value_fits item →
  ∃ a ty, parse_address (wq_address item) d = Ok a ∧ we_addr e = a ∧ we_id e = wq_id item ∧
    ri_expected_type (readback d item) = ty ∧ encoded_wf (kind a) (we_encoded e) ∧
    item_width (kind a) ty = we_units e ∧
    match we_encoded e with
    | EncodedWrite.Coil bit => kind a = RegisterKind.Coil ∧ wq_value item = RawValue.Bool bit
    | EncodedWrite.Registers data =>
        kind a = RegisterKind.HoldingRegister ∧
        ∃ dt w, ty = Some dt ∧ DataType.is_bool dt = false ∧ register_width dt = Some w ∧
          length data = (Z.to_nat w * 2)%nat ∧ bytes_ok data ∧ decode_words dt data wo = wq_value item
    end.
Proof.
  intros He [Hv Hfit]. unfold write_entry in He.
  destruct (parse_address (wq_address item) d) as [a|?|] eqn:Hp; [|done..].
  destruct (encode_write_value _ _ _ wo) as [enc|?|] eqn:Henc; [|done..].
  injection He as <-. pose proof (encode_write_value_wf _ _ _ _ _ Henc) as Hwf.
  pose proof (encoded_units _ _ Hwf) as [_ Hu].
  exists a, (ri_expected_type (readback d item)). cbn [we_addr we_id we_encoded].
  do 4 (split; [done|]). split; [done|]. unfold we_units, readback. cbn [we_encoded ri_expected_type].
  rewrite Hp. destruct (kind a); try done; cbn [encode_write_value readback_type] in *.
  - destruct (wq_value item); try done. injection Henc as <-. done.
  - destruct (encode_register_data _ _ wo) as [data|?|] eqn:Hd; [|done..]. injection Henc as <-.
    destruct (try_from (wq_value_type item)) as [tg|?|] eqn:Htag;
      [|unfold encode_register_data in Hd; by rewrite Htag in Hd..].
    destruct (encode_register_data_spec (wq_value_type item) tg (wq_value item) wo data)
      as (dt & w & Hdt & Hb & Hw & Hl & Hok & Hdec); try done.
    rewrite Hdt. split; [|split; [done|by exists dt, w]].
    cbn [item_width]. rewrite Hw. unfold default, id. apply register_width_cases in Hw.
    cbv beta iota in Hu. lia.
Qed.

Lemma words_bytes q data :
  length data = (2 * q)%nat → bytes_ok data → concat (to_be_bytes 2 <$> words data) = data.
Proof.
  revert data. induction q as [|q IH]; intros data Hl Hok.
  { by apply nil_length_inv in Hl as ->. }
  destruct data as [|a [|b data]]; simpl in Hl; try lia.
  apply Forall_cons in Hok as [Ha Hok]. apply Forall_cons in Hok as [Hb Hok].
  cbn [words fmap list_fmap concat]. rewrite (IH data) by (done || lia).
  pose proof (to_from_be_bytes [a; b] ltac:(auto with bytes)) as Hab. cbn [length] in Hab.
  by rewrite Hab.
Qed.

(** The cells of an item, as the slave would read them. *)
Lemma cells_of_entry bank unit k start vs :
  0 ≤ start → start + Z.of_nat (length vs) ≤ 65536 →
  (∀ i v, vs !! i = Some v → bank !! (unit, k, start + Z.of_nat i) = Some v) →
  cell bank unit k start <$> seq 0 (length vs) = vs.
Proof.
  intros Hs Hl Hv. apply list_eq. intros i. rewrite list_lookup_fmap.
  destruct (decide (i < length vs)%nat) as [Hi|Hi].
  - rewrite lookup_seq_lt by done. cbn [fmap option_fmap option_map].
    destruct (lookup_lt_is_Some_2 _ _ Hi) as [v Hvi]. rewrite Hvi. f_equal. unfold cell.
    rewrite (wrap_small 16) by (unfold in_u; lia). rewrite Nat.add_0_l. by rewrite (Hv i v Hvi).
  - rewrite lookup_seq_ge by lia. rewrite lookup_ge_None_2 by lia. done.
Qed.

(** An entry whose cells are in the bank reads back as its value. *)
Lemma read_back_entry d wo item e bank :
  write_entry d wo item = Some e → value_fits item → fits e →
  (∀ i v, cells_of (we_encoded e) !! i = Some v →
     bank !! (unit_id (we_addr e), slave_kind (kind (we_addr e)), we_offset e + Z.of_nat i) = Some v) →
  read_alone d bank wo (readback d item) =
    Some (read_result (wq_id item) (Ok (wq_value item))).
Proof.
  intros He Hv [H0 Hend] Hcells.
  destruct (write_entry_readback _ _ _ _ He Hv) as (a & ty & Hp & Ha & _ & Hty & Hwf & Hw & Henc).
  rewrite Ha in Hcells. unfold we_offset in *. rewrite Ha in *.
  unfold read_alone. cbn [readback ri_address]. rewrite Hp, Hty. f_equal.
  unfold read_entry_alone, ge_width. cbn [ge_id ge_addr ge_type ri_id readback]. f_equal.
  pose proof (cells_of_length _ _ Hwf) as Hlen.
  pose proof (cells_of_entry bank (unit_id a) (slave_kind (kind a)) (offset a)
    (cells_of (we_encoded e)) H0 Hend Hcells) as Hcell.
  unfold read_data. rewrite Hw. unfold we_units. rewrite <- Hlen, Nat2Z.id, Hcell.
  destruct (we_encoded e) as [bit|data].
  - destruct Henc as [-> Hbit]. rewrite Hbit. subst ty. cbn [readback ri_expected_type].
    rewrite Hp. by destruct bit, (kind a) eqn:Hk.
  - destruct Henc as [-> (dt & w & -> & Hb & Hrw & Hl & Hok & Hdec)]. cbn [slave_kind is_register cells_of].
    rewrite (words_bytes (Z.to_nat w)) by (done || lia).
    pose proof (decode_register_value_at RegisterKind.HoldingRegister [] data [] 0 dt wo w
      eq_refl Hb Hrw eq_refl Hl) as Hd.
    cbn [app] in Hd. by rewrite app_nil_r, Hdec in Hd.
Qed.

(** Entries that share no cell are items whose spans are disjoint. *)
Lemma apart_spans d wo x y ex ey :
  write_entry d wo x = Some ex → write_entry d wo y = Some ey → value_fits x → value_fits y →
  apart ex ey → spans_disjoint d (readback d x) (readback d y).
Proof.
  intros Hx Hy Hvx Hvy Hap.
  destruct (write_entry_readback _ _ _ _ Hx Hvx) as (a & ty & Hp & Ha & _ & Hty & Hwf & Hw & _).
  destruct (write_entry_readback _ _ _ _ Hy Hvy) as (b & ty' & Hp' & Hb & _ & Hty' & Hwf' & Hw' & _).
  unfold spans_disjoint. cbn [readback ri_address]. rewrite Hp, Hp', Hty, Hty', Hw, Hw'.
  destruct (decide ((unit_id a, kind a) = (unit_id b, kind b))) as [[= Hu Hk]|?]; [right|by left].
  pose proof (cells_of_length _ _ Hwf) as Hl. pose proof (cells_of_length _ _ Hwf') as Hl'.
  destruct (encoded_units _ _ Hwf) as [? _]. destruct (encoded_units _ _ Hwf') as [? _].
  destruct (decide (offset a + we_units ex ≤ offset b)) as [?|Hn]; [by left|].
  destruct (decide (offset b + we_units ey ≤ offset a)) as [?|Hn']; [by right|].
  exfalso. set (o := Z.max (offset a) (offset b)). unfold we_units in *.
  apply (Hap (unit_id a, slave_kind (kind a), o)).
  - exists (Z.to_nat (o - offset a)). unfold we_offset. rewrite Ha. split; [lia|]. f_equal. lia.
  - exists (Z.to_nat (o - offset b)). unfold we_offset. rewrite Hb, Hu, Hk. split; [lia|].
    f_equal. lia.
Qed.

Definition encodable (d : Z) (wo : WordOrder.t) (item : WriteRequest) : Prop :=
  is_Some (write_entry d wo item) ∧ value_fits item.

Lemma readback_disjoint d wo items :
  Forall (encodable d wo) items → ForallOrdPairs apart (omap (write_entry d wo) items) →
  ForallOrdPairs (spans_disjoint d) (readback d <$> items).
Proof.
  induction 1 as [|x items [[ex Hx] Hvx] Hall IH]; intros Hap; [constructor|].
  cbn [omap list_omap] in Hap. rewrite Hx in Hap. inversion Hap as [|? ? Hex Hap']; subst.
  constructor; [|by apply IH]. clear IH Hap Hap'.
  induction Hall as [|y items [[ey Hy] Hvy] Hall IH]; [constructor|].
  cbn [omap list_omap] in Hex. rewrite Hy in Hex. apply Forall_cons in Hex as [Hxy Hex].
  constructor; [by eapply apart_spans|by apply IH].
Qed.

Lemma readback_fits d wo items :
  Forall (encodable d wo) items → forallb (write_fits d wo) items = true →
  forallb (item_fits d) (readback d <$> items) = true.
Proof.
  induction 1 as [|x items [[ex Hx] Hvx] Hall IH]; intros Hf; [done|].
  cbn [forallb fmap list_fmap] in *. apply andb_true_iff in Hf as [Hfx Hf].
  rewrite IH by done. rewrite andb_true_r.
  destruct (write_entry_readback _ _ _ _ Hx Hvx) as (a & ty & Hp & _ & _ & Hty & _ & Hw & _).
  unfold item_fits. cbn [readback ri_address]. rewrite Hp, Hty, Hw.
  unfold write_fits in Hfx. unfold write_entry in Hx. rewrite Hp in Hfx, Hx.
  destruct (encode_write_value _ _ _ wo) as [enc|?|]; [|done..]. injection Hx as <-.
  apply andb_true_iff in Hfx as [_ Hfx]. unfold we_units. done.
Qed.

(** C1: what a batch write stored, a batch read returns: on a healthy slave,
    writing non-overlapping items and reading the same addresses back gives
    every item its own value, through planning, encoding, framing, the slave's
    bank and decoding. *)
Theorem write_then_read items (d : Driver) c t bank :
  md_transport d = Some t → serving bank (t, c) → in_u 8 (mc_unit_id (md_config d)) →
  let unit := mc_unit_id (md_config d) in
  let wo := mc_word_order (md_config d) in
  forallb (write_fits unit wo) items = true → Forall (encodable unit wo) items →
  ForallOrdPairs apart (omap (write_entry unit wo) items) →
  ∃ s1 rs1 s2 rs2,
    write_batch items (d, c) = (s1, Ok rs1) ∧
    rs1 ≡ₚ (λ item, write_ok_result (wq_id item)) <$> items ∧
    read_batch (readback unit <$> items) s1 = (s2, Ok rs2) ∧
    rs2 ≡ₚ (λ item, read_result (wq_id item) (Ok (wq_value item))) <$> items.
Proof.
  cbv zeta. intros Ht Hserv Hu Hfit Henc Hap.
  destruct (write_batch_run items d c t bank Ht Hserv Hu Hfit)
    as (s1 & rs1 & order & Hrun & Hs1 & Hrs & Hperm & Hfits).
  destruct s1 as [d1 c1]. destruct Hs1 as (t1 & Hd1 & Hserv1). cbn in Hd1. subst d1.
  destruct (read_batch_alone (readback (mc_unit_id (md_config d)) <$> items)
    (set_transport t1 d) c1 t1 (foldl store_entry bank order)) as (s2 & rs2 & Hread & _ & Hrs2);
    [done|done|done|by eapply readback_fits|by eapply readback_disjoint|].
  eexists _, rs1, s2, rs2. split; [exact Hrun|]. split; [|split; [exact Hread|]].
  - rewrite Hrs. clear -Henc. induction Henc as [|x items [[ex Hx] _] Henc IH]; [done|].
    cbn [fmap list_fmap]. rewrite IH. unfold write_result at 1, encode_failure. by rewrite Hx.
  - apply Permutation_Some. rewrite Hrs2. cbn [md_config set_transport].
    rewrite <- !list_fmap_compose. erewrite list_fmap_ext; [reflexivity|]. intros i x Hi.
    unfold compose.
    apply list_elem_of_lookup_2 in Hi. rewrite Forall_forall in Henc.
    destruct (Henc x Hi) as [[ex Hx] Hvx].
    assert (ex ∈ order) as Hex.
    { rewrite Hperm. apply list_elem_of_omap. by exists x. }
    eapply read_back_entry; [exact Hx|done| |].
    + rewrite Forall_forall in Hfits. by apply Hfits.
    + intros j v Hv. apply foldl_store_covered; try done.
        by eapply ForallOrdPairs_perm; [apply apart_sym|symmetry; exact Hperm|].
Qed.
