(* ===== verification/ModbusExamples.v ===== *)
(** * Concrete runs of the Modbus driver

    For every theorem with hypotheses, an input on which they hold, checked by
    evaluation. *)

From S2P Require Import Prelude RustStd ObservationModel DriverAbi AbiTag ModbusAddress ModbusCodec.
From S2P Require Import ModbusFrame ModbusSession ModbusSessionLaws ModbusMock.
From S2P Require Import ModbusBatch ModbusPlans.
From S2P Require Import ModbusDriver ModbusDriverLaws ModbusEndToEnd.
From stdpp Require Import options.

(** The pairs of a concrete list. *)
Ltac all_pairs :=
  repeat first [apply FOP_nil | apply FOP_cons | apply Forall_nil_2 | apply Forall_cons_2].

(** ** Tags, addresses, frames, configuration *)

Lemma tag_encode_decode_witness :
  decode_value_bytes 5 [0x34; 0x12; 0; 0; 0; 0; 0; 0] = Ok (RawValue.I64 0x1234).
Proof.
  apply (tag_encode_decode 5 TypeTag.I64 (RawValue.I64 0x1234));
    [by vm_compute|by vm_compute|by vm_compute].
Defined.

Lemma tag_decode_encode_witness :
  encode_value_bytes 9 (RawValue.U64 0x1234) = Ok [0x34; 0x12; 0; 0; 0; 0; 0; 0].
Proof.
  apply (tag_decode_encode 9 TypeTag.U64);
    [by vm_compute|done|done|by repeat constructor|by vm_compute].
Defined.

Definition example_address : ModbusAddress :=
  {| unit_id := 2; kind := RegisterKind.Coil; address := 17 |}.

Lemma parse_address_wf_witness :
  addr_wf example_address ∧ offset example_address = 16 ∧ 0 ≤ offset example_address < 65536.
Proof. apply (parse_address_wf (lit "2!coil:17") 1); [done|by vm_compute]. Defined.

Lemma parse_address_canonical_witness :
  parse_address (canonical example_address) 1 = Ok example_address.
Proof. apply (parse_address_canonical example_address 1); [by vm_compute|lia]. Defined.

Lemma parse_address_numeric_witness :
  parse_address (to_string 40001) 1 =
    Ok {| unit_id := 1; kind := RegisterKind.HoldingRegister; address := 40001 |}.
Proof.
  apply (proj1 (parse_address_numeric 40001 1 ltac:(lia) ltac:(lia))). by vm_compute.
Defined.

Lemma rtu_frames_verify_witness :
  verify (build_rtu_read_request 1 3 0 10) = true ∧
  verify (build_rtu_write_request 1 3 0 [1; 2]) = true.
Proof. apply (rtu_frames_verify 1 3 0 10 [1; 2]); [done|done|by repeat constructor]. Defined.

Lemma verify_detects_single_byte_witness :
  verify (<[2%nat := 1]> (build_rtu_read_request 1 3 0 10)) = false.
Proof.
  apply (verify_detects_single_byte (build_rtu_read_request 1 3 0 10) 2 0 1).
  - apply (bool_decide_unpack _). by vm_compute.
  - by vm_compute.
  - by vm_compute.
  - by vm_compute.
  - done.
Defined.

Lemma tcp_request_header_round_trip_witness :
  parse_tcp_response_header (take 7 (build_tcp_write_request 7 1 6 0 [0; 5])) =
    Ok {| trh_transaction_id := 7; trh_unit_id := 1; trh_data_len := 5 |}.
Proof.
  refine (proj2 (tcp_request_header_round_trip 7 1 6 0 10 [0; 5] _ _)); [done|by vm_compute].
Defined.

Definition example_config : ModbusConfig :=
  {| mc_mode := TransportMode.Tcp; mc_host := Some (lit "plc"); mc_port := 502;
     mc_serial := None; mc_timeout_ms := 3000; mc_unit_id := 1; mc_word_order := WordOrder.Cdab;
     mc_reconnect := true; mc_reconnect_max_attempts := 3; mc_reconnect_delay_ms := 1000 |}.

Lemma config_validate_iff_witness : config_valid example_config.
Proof. apply (config_validate_iff example_config); [done|by vm_compute]. Defined.

Lemma write_read_round_trip_witness :
  ∃ dt, written_type TypeTag.U32 (RawValue.U64 0x01020304) = Some dt ∧
    decode_register_value RegisterKind.HoldingRegister ([9; 9] ++ [3; 4; 1; 2] ++ [7]) 1 (Some dt)
      WordOrder.Cdab = Ok (RawValue.U64 0x01020304).
Proof.
  apply (write_read_round_trip RegisterKind.HoldingRegister 8 TypeTag.U32);
    [by vm_compute|by vm_compute|by vm_compute|done|by vm_compute|done].
Defined.

(** ** Plans *)
Definition example_reads : list DriverReadItem :=
  [ {| ri_id := 2; ri_address := lit "40002"; ri_expected_type := Some DataType.U32 |};
    {| ri_id := 1; ri_address := lit "40001"; ri_expected_type := Some DataType.U16 |};
    {| ri_id := 3; ri_address := lit "coil:9"; ri_expected_type := None |} ].

Definition example_read_plans : list ReadPlan :=
  match plan_batch example_reads 1 with Ok plans => plans | _ => [] end.

Lemma example_reads_planned : plan_batch example_reads 1 = Ok example_read_plans.
Proof. by vm_compute. Qed.

Lemma example_reads_disjoint : ForallOrdPairs (spans_disjoint 1) example_reads.
Proof.
  all_pairs; unfold spans_disjoint;
    repeat match goal with |- context [parse_address ?a ?d] =>
      let r := eval vm_compute in (parse_address a d) in
      change (parse_address a d) with r end; cbv iota; cbn [unit_id kind];
    first [by left|right; left; by vm_compute|right; right; by vm_compute].
Qed.

Lemma plan_batch_complete_witness :
  Some <$> concat (plan_locations <$> example_read_plans) ≡ₚ item_location 1 <$> example_reads.
Proof. apply plan_batch_complete; [done|exact example_reads_planned]. Defined.

Definition example_plan : ReadPlan :=
  {| rp_unit_id := 1; rp_kind := RegisterKind.HoldingRegister; rp_start_offset := 0;
     rp_quantity := 3;
     rp_items :=
       [ {| pi_item_id := 1; pi_offset_in_frame := 0; pi_expected_type := Some DataType.U16;
            pi_width := 1 |};
         {| pi_item_id := 2; pi_offset_in_frame := 1; pi_expected_type := Some DataType.U32;
            pi_width := 2 |} ] |}.

Lemma example_plan_in : example_plan ∈ example_read_plans.
Proof. vm_compute. right. left. Qed.

Lemma plan_batch_limits_witness :
  1 ≤ 3 ≤ read_limit RegisterKind.HoldingRegister ∧ 0 ≤ 0 ∧ 0 + 3 ≤ 65536 ∧
  1 ≤ expected_data_len 3 3 ≤ 250.
Proof.
  apply (plan_batch_limits example_reads 1 example_read_plans example_plan);
    [done|exact example_reads_planned|exact example_plan_in].
Defined.

Lemma plan_batch_total_witness : forallb (item_fits 1) example_reads = true.
Proof.
  pose proof (plan_batch_total example_reads 1 ltac:(done)) as H.
  rewrite example_reads_planned in H. exact H.
Defined.

Lemma plan_batch_covers_witness : 0 ≤ 1 ∧ 1 + 2 ≤ 3.
Proof.
  apply (plan_batch_covers example_reads 1 example_read_plans example_plan
    {| pi_item_id := 2; pi_offset_in_frame := 1; pi_expected_type := Some DataType.U32;
       pi_width := 2 |});
    [done|exact example_reads_planned|exact example_reads_disjoint|exact example_plan_in|].
  right. left.
Defined.

(** Two adjacent registers merged into one request, a coil on its own. *)
Definition example_writes : list WriteRequest :=
  [ {| wq_id := 1; wq_address := lit "holding:40001"; wq_value_type := 8;
       wq_value := RawValue.U64 0x01020304 |};
    {| wq_id := 2; wq_address := lit "40003"; wq_value_type := 3; wq_value := RawValue.I64 (-5) |};
    {| wq_id := 3; wq_address := lit "coil:9"; wq_value_type := 1;
       wq_value := RawValue.Bool true |} ].

Definition example_write_plans : list WritePlan :=
  match plan_write_batch example_writes 1 WordOrder.Cdab with Ok (plans, _) => plans | _ => [] end.

Lemma example_writes_planned :
  plan_write_batch example_writes 1 WordOrder.Cdab = Ok (example_write_plans, []).
Proof. by vm_compute. Qed.

Definition example_entries : list WriteGroupEntry :=
  omap (write_entry 1 WordOrder.Cdab) example_writes.

Lemma example_entries_apart : ForallOrdPairs apart example_entries.
Proof.
  let l := eval vm_compute in example_entries in change example_entries with l.
  all_pairs; intros x (i & Hi & ->) (j & Hj & [= Ho]); vm_compute in Hi, Hj;
    cbn -[Z.add] in Ho; vm_compute (we_offset _) in Ho; lia.
Qed.

Lemma plan_write_batch_effect_witness :
  ∃ m', plans_effect example_write_plans ∅ = Some m' ∧
    (∀ a, (∀ e, e ∈ example_entries → ¬ covers e a) → m' !! a = (∅ : gmap AddrKey Z) !! a) ∧
    (ForallOrdPairs apart example_entries →
     ∀ e i v, e ∈ example_entries → cells_of (we_encoded e) !! i = Some v →
       m' !! (unit_id (we_addr e), slave_kind (kind (we_addr e)), we_offset e + Z.of_nat i)
         = Some v).
Proof.
  apply (plan_write_batch_effect example_writes 1 WordOrder.Cdab example_write_plans [] ∅);
    [done|exact example_writes_planned].
Defined.

Lemma plan_write_batch_complete_witness :
  concat (wp_item_ids <$> example_write_plans) ++ (wr_item_id <$> []) ≡ₚ wq_id <$> example_writes ∧
  Forall (λ r, wr_success r = false ∧
               wr_error r = Some (ModbusError.into_info ModbusError.invalid_type)) [].
Proof.
  apply (plan_write_batch_complete example_writes 1 WordOrder.Cdab);
    [done|exact example_writes_planned].
Defined.

Definition example_write_plan : WritePlan :=
  {| wp_unit_id := 1; wp_kind := RegisterKind.HoldingRegister; wp_function := 0x10;
     wp_start_offset := 0; wp_quantity := 3;
     wp_payload := [0; 3; 6; 3; 4; 1; 2; 0xFF; 0xFB]; wp_item_ids := [1; 2] |}.

Lemma plan_write_batch_limits_witness :
  true = true ∧ is_write_function 0x10 = true ∧ 1 ≤ 1 ≤ 247 ∧ 0 ≤ 0 ∧
  (∃ limit, write_limit RegisterKind.HoldingRegister = Some limit ∧ 1 ≤ 3 ≤ limit) ∧
  0 + 3 ≤ 65536 ∧
  (length (write_pdu 0x10 0 (wp_payload example_write_plan)) ≤ 253)%nat.
Proof.
  apply (plan_write_batch_limits example_writes 1 WordOrder.Cdab example_write_plans []
    example_write_plan); [done|exact example_writes_planned|].
  vm_compute. right. left.
Defined.

Lemma plan_write_batch_total_witness :
  forallb (write_fits 1 WordOrder.Cdab) example_writes = true.
Proof.
  pose proof (plan_write_batch_total example_writes 1 WordOrder.Cdab ltac:(done)) as H.
  rewrite example_writes_planned in H. exact H.
Defined.

(** ** Sessions *)

(** A slave with two registers and a transport connected to it. *)
Definition example_bank : gmap AddrKey Z :=
  <[(1, Kind.HoldingRegister, 0) := 0x1234]> (<[(1, Kind.HoldingRegister, 1) := 7]> ∅).

Definition example_conn : Conn :=
  {| cn_behavior := set_values (λ _, example_bank) mock_new; cn_rng := None; cn_inbox := [];
     cn_outbox := []; cn_open := true |}.

Definition example_tcp : TcpTransport () :=
  {| tt_host := lit "plc"; tt_port := 502; tt_timeout := 3000; tt_stream := Some ();
     tt_transaction_id := 65535 |}.

Lemma example_serving : serving example_bank (example_tcp, example_conn).
Proof. by repeat split. Qed.

Lemma tcp_read_transaction_iff_witness :
  ∃ h w1 w2 w3 header,
    tt_stream example_tcp = Some h ∧
    write_all h (build_tcp_read_request 0 1 3 0 2) example_conn = (w1, inr ()) ∧
    read_exact h 7 w1 = (w2, inr header) ∧
    parse_tcp_response_header header =
      Ok {| trh_transaction_id := 0; trh_unit_id := 1; trh_data_len := 6 |} ∧
    read_exact h 6 w2 = (w3, inr [3; 4; 0x12; 0x34; 0; 7]) ∧ 4 = expected_data_len 3 2 ∧
    (tcp_read_transaction 1 3 0 2 (example_tcp, example_conn)).1 =
      (tcp_next_transaction example_tcp, w3).
Proof.
  apply (tcp_read_transaction_iff 1 3 0 2 example_tcp example_conn _ [0x12; 0x34; 0; 7]);
    [lia|lia|by vm_compute].
Defined.

Lemma tcp_write_transaction_iff_witness :
  ∃ h w1 w2 w3 header,
    tt_stream example_tcp = Some h ∧
    write_all h (build_tcp_write_request 0 1 6 1 [0; 9]) example_conn = (w1, inr ()) ∧
    read_exact h 7 w1 = (w2, inr header) ∧
    parse_tcp_response_header header =
      Ok {| trh_transaction_id := 0; trh_unit_id := 1; trh_data_len := 5 |} ∧
    read_exact h 5 w2 = (w3, inr [6; 0; 1; 0; 9]) ∧
    (tcp_write_transaction 1 6 1 [0; 9] (example_tcp, example_conn)).1 =
      (tcp_next_transaction example_tcp, w3).
Proof.
  apply (tcp_write_transaction_iff 1 6 1 [0; 9] example_tcp example_conn);
    [done|simpl; lia|by vm_compute].
Defined.

(** A serial line that has the bytes of a response waiting. *)
Definition line_read_exact (_ : ()) (n : nat) (w : list Z) : list Z * io_result (list Z) :=
  if (n <=? length w)%nat then (drop n w, inr (wrap8 <$> take n w)) else ([], inl IoKind.TimedOut).

Definition example_line : ByteStream (list Z) () :=
  {| write_all _ _ w := (w, inr ()); read_exact := line_read_exact; close _ w := w |}.

Definition example_serial : SerialNet (list Z) () := {| open_port _ w := (w, inr ()) |}.

Lemma example_line_laws : @ByteStreamLaws (list Z) () example_line.
Proof.
  split. intros [] n c c' bs. cbn. unfold line_read_exact. case_if; [|done].
  intros [= <- <-]. split; [rewrite length_fmap, length_take; lia|].
  apply Forall_fmap, Forall_forall. intros x _. apply wrap_byte_ok.
Qed.

Definition example_rtu : RtuTransport () :=
  {| rt_serial := {| sc_port := lit "/dev/ttyS0"; sc_baud_rate := 9600; sc_data_bits := 8;
                     sc_stop_bits := 1; sc_parity := lit "none" |};
     rt_timeout := 3000; rt_port := Some () |}.

Lemma rtu_read_transaction_iff_witness :
  let line := with_crc [1; 3; 2; 0x12; 0x34] in
  ∃ h w1 w2 w3,
    rt_port example_rtu = Some h ∧
    @write_all _ _ example_line h (build_rtu_read_request 1 3 0 1) line = (w1, inr ()) ∧
    @read_exact _ _ example_line h 2 w1 = (w2, inr [1; 3]) ∧
    @read_exact _ _ example_line h 5 w2 = (w3, inr (drop 2 line)) ∧ 2 = expected_data_len 3 1 ∧
    (@rtu_read_transaction _ _ example_line 1 3 0 1 (example_rtu, line)).1 = (example_rtu, w3).
Proof.
  cbv zeta.
  apply (@rtu_read_transaction_iff _ _ example_line example_serial example_line_laws 1 3 0 1
    example_rtu (with_crc [1; 3; 2; 0x12; 0x34]) _ [0x12; 0x34]);
    [lia|done|lia|by repeat constructor|by vm_compute].
Defined.

Lemma rtu_write_transaction_iff_witness :
  let line := with_crc [1; 6; 0; 1; 0; 9] in
  ∃ h w1 w2 w3,
    rt_port example_rtu = Some h ∧
    @write_all _ _ example_line h (build_rtu_write_request 1 6 1 [0; 9]) line = (w1, inr ()) ∧
    @read_exact _ _ example_line h 2 w1 = (w2, inr [1; 6]) ∧
    @read_exact _ _ example_line h 6 w2 = (w3, inr (drop 2 line)) ∧
    (@rtu_write_transaction _ _ example_line 1 6 1 [0; 9] (example_rtu, line)).1 =
      (example_rtu, w3).
Proof.
  cbv zeta.
  apply (@rtu_write_transaction_iff _ _ example_line example_serial example_line_laws 1 6 1 [0; 9]
    example_rtu (with_crc [1; 6; 0; 1; 0; 9]));
    [done|simpl; lia|done|by repeat constructor|by vm_compute].
Defined.

(** ** The driver *)
Definition example_driver : Driver :=
  {| md_config := example_config; md_transport := Some example_tcp; md_last_error := None |}.

Lemma read_batch_outcome_witness :
  match read_batch example_reads (example_driver, example_conn) with
  | (s', Ok rs) =>
      (rr_item_id <$> rs) ≡ₚ (ri_id <$> example_reads) ∧ StronglySorted (key_le rr_item_id) rs ∧
      Forall result_wf rs ∧ at_driver example_driver ready s'
  | (s', Err e) =>
      (e = ModbusError.invalid_address ∧ s' = (example_driver, example_conn)) ∨
      (ModbusError.is_transport_level e = true ∧ at_driver example_driver down s')
  | (_, Panic) => False
  end.
Proof.
  apply (read_batch_outcome example_reads example_driver example_conn example_tcp); done.
Defined.

Lemma write_batch_outcome_witness :
  match write_batch example_writes (example_driver, example_conn) with
  | (s', Ok rs) =>
      (wr_item_id <$> rs) ≡ₚ (wq_id <$> example_writes) ∧ StronglySorted (key_le wr_item_id) rs ∧
      at_driver example_driver ready s'
  | (s', Err e) =>
      (e = ModbusError.invalid_address ∧ s' = (example_driver, example_conn)) ∨
      (ModbusError.is_transport_level e = true ∧ at_driver example_driver down s')
  | (_, Panic) => False
  end.
Proof.
  apply (write_batch_outcome example_writes example_driver example_conn example_tcp); done.
Defined.

Definition example_offline : TcpTransport () := tcp_set_stream None example_tcp.
Definition example_offline_driver : Driver := set_transport example_offline example_driver.

Lemma connect_retries_witness :
  let s := (example_offline, example_conn) in
  ∃ t' w', (connect (example_offline_driver, example_conn)).1 = (set_transport t' example_driver, w') ∧
  ((@Ok ModbusError.t () () = Ok () ∧ ∃ k, (k < 3)%nat ∧
      (∀ i, (i < k)%nat → attempt_fails 1000 s i) ∧
      tr_connect (retry_state 1000 k s) = ((t', w'), Ok ())) ∨
   (∃ e, @Ok ModbusError.t () () = Err e ∧ (∀ i, (i < 3)%nat → attempt_fails 1000 s i) ∧
      tr_connect (retry_state 1000 2 s) = ((t', w'), Err e))).
Proof.
  apply (connect_retries example_offline_driver example_conn example_offline); done.
Defined.

(** Envelopes that carry no content. *)
#[export] Instance example_envelopes : Envelopes :=
  {| read_envelope _ := Some [0x7B; 0x7D]; write_envelope _ := Some [0x7B; 0x7D];
     address_envelope _ := Some [0x7B; 0x7D]; capabilities_envelope _ := Some [0x7B; 0x7D];
     error_envelope _ := Some [0x7B; 0x7D] |}.

Lemma api_batch_reports_witness :
  reports example_driver (api_read None 1 (Some example_driver) example_conn) ∧
  reports example_driver (api_write None 1 (Some example_driver) example_conn).
Proof.
  apply (api_batch_reports None None 1 example_driver example_conn); intros; by eexists.
Defined.

Definition null_config : FfiStr := {| fs_null := true; fs_bytes := [0x7B] |}.

Definition failed_handle : Driver :=
  {| md_config := config_default; md_transport := None;
     md_last_error := Some (ModbusError.into_info ModbusError.config_error) |}.

Lemma failed_create_connect_witness :
  is_Some (md_last_error failed_handle) ∧ md_transport failed_handle = None ∧
  api_connect (Some failed_handle) example_conn =
    ((Some (set_last_error ModbusError.driver_panic failed_handle), example_conn), (-1, None)).
Proof.
  apply (failed_create_connect (λ _, None) (λ c, Ok (tcp_new c)) null_config); done.
Defined.

(** ** End to end *)
Lemma read_batch_transparent_witness :
  ∃ s' rs, read_batch example_reads (example_driver, example_conn) = (s', Ok rs) ∧
    d_serving example_driver example_bank s' ∧
    Some <$> rs ≡ₚ read_alone 1 example_bank WordOrder.Cdab <$> example_reads.
Proof.
  apply (read_batch_transparent example_reads example_driver example_conn example_tcp);
    [done|exact example_serving|done|by vm_compute|exact example_reads_disjoint].
Defined.

Lemma write_batch_stores_witness :
  ∃ s' rs bank', write_batch example_writes (example_driver, example_conn) = (s', Ok rs) ∧
    d_serving example_driver bank' s' ∧
    rs ≡ₚ write_result 1 WordOrder.Cdab <$> example_writes ∧
    (∀ e i v, e ∈ example_entries → cells_of (we_encoded e) !! i = Some v →
       bank' !! (unit_id (we_addr e), slave_kind (kind (we_addr e)), we_offset e + Z.of_nat i)
         = Some v) ∧
    (∀ a, (∀ e, e ∈ example_entries → ¬ covers e a) → bank' !! a = example_bank !! a).
Proof.
  apply (write_batch_stores example_writes example_driver example_conn example_tcp);
    [done|exact example_serving|done|by vm_compute|exact example_entries_apart].
Defined.

Lemma example_writes_encodable : Forall (encodable 1 WordOrder.Cdab) example_writes.
Proof. all_pairs; (split; [vm_compute; by eexists|split; by vm_compute]). Qed.

Lemma write_then_read_witness :
  ∃ s1 rs1 s2 rs2,
    write_batch example_writes (example_driver, example_conn) = (s1, Ok rs1) ∧
    rs1 ≡ₚ (λ item, write_ok_result (wq_id item)) <$> example_writes ∧
    read_batch (readback 1 <$> example_writes) s1 = (s2, Ok rs2) ∧
    rs2 ≡ₚ (λ item, read_result (wq_id item) (Ok (wq_value item))) <$> example_writes.
Proof.
  apply (write_then_read example_writes example_driver example_conn example_tcp example_bank);
    [done|exact example_serving|done|by vm_compute|exact example_writes_encodable
    |exact example_entries_apart].
Defined.
