(* ===== verification/BatchRuns.v ===== *)
(** * Runs and chunks of a sorted batch

    The batch planners of the S7 and MC drivers (their batch.rs) cut a sorted
    group of entries into runs of neighbours and the runs into chunks that fit a
    request. *)

From S2P Require Import Prelude RustStd.
From stdpp Require Import options.

#[local] Set Default Proof Using "Type".

(** ** Runs: an entry continues the last run or opens a new one *)
Section runs.
Context {A : Type} (continues : A → A → bool).

Definition push_run (runs : list (list A)) (entry : A) : list (list A) :=
  match last runs with
  | Some run =>
      if (if last run is Some prev then continues prev entry else false)
      then removelast runs ++ [run ++ [entry]]
      else runs ++ [[entry]]
  | None => runs ++ [[entry]]
  end.

Definition split_runs (entries : list A) : list (list A) := foldl push_run [] entries.
End runs.

(** ** Laws *)
Section runs_laws.
Context {A : Type} (continues : A → A → bool).

Definition chain (l : list A) : Prop := ∀ k x y, l !! k = Some x → l !! S k = Some y → continues x y = true.

Lemma chain_snoc l x y : chain (l ++ [x]) → continues x y = true → chain (l ++ [x; y]).
Proof.
  intros Hc Hxy k a b Ha Hb. change [x; y] with ([x] ++ [y]) in Ha, Hb. rewrite app_assoc in Ha, Hb.
  apply lookup_snoc_Some in Hb as [[Hk Hb]|[Hk <-]].
  - rewrite lookup_app_l in Ha by lia. by eapply Hc.
  - rewrite length_app in Hk. cbn in Hk. rewrite <- app_assoc in Ha.
    rewrite lookup_app_r in Ha by lia. replace (k - length l)%nat with 0%nat in Ha by lia. by injection Ha as <-.
Qed.

Lemma chain_app l1 l2 : chain (l1 ++ l2) → chain l1 ∧ chain l2.
Proof.
  intros Hc. split; intros k x y Hx Hy.
  - apply (Hc k); by apply lookup_app_l_Some.
  - apply (Hc (length l1 + k)%nat); [|rewrite <- Nat.add_succ_r]; rewrite lookup_app_r by lia;
      by rewrite Nat.add_comm, Nat.add_sub.
Qed.

Lemma chain_concat ls l : chain (concat ls) → l ∈ ls → chain l.
Proof. intros Hc Hl. induction Hl; cbn in Hc; apply chain_app in Hc as [? ?]; auto. Qed.

Lemma push_run_ok runs e :
  Forall (λ r, r ≠ [] ∧ chain r) runs →
  Forall (λ r, r ≠ [] ∧ chain r) (push_run continues runs e) ∧
  concat (push_run continues runs e) = concat runs ++ [e].
Proof.
  intros Hr. unfold push_run. assert (chain [e]) as He by (by intros [|k] x y).
  destruct runs as [|run runs _] using rev_ind.
  { split; [|done]. constructor; [done|constructor]. }
  rewrite last_snoc. apply Forall_app in Hr as [Hr [Hrun _]%Forall_cons]. destruct Hrun as [Hne Hrun].
  destruct (if last run is Some p then continues p e else false) eqn:E.
  - rewrite removelast_last. split.
    + apply Forall_app. split; [done|]. constructor; [|constructor]. split; [by destruct run|].
      destruct run as [|x run _] using rev_ind; [done|]. rewrite last_snoc in E. rewrite <- app_assoc.
      by apply chain_snoc.
    + rewrite !concat_app. cbn. by rewrite !app_nil_r, app_assoc.
  - split; [|by rewrite concat_app].
    apply Forall_app. split; [apply Forall_app; split; [done|by constructor]|]. by constructor.
Qed.

Lemma split_runs_ok l :
  Forall (λ r, r ≠ [] ∧ chain r) (split_runs continues l) ∧ concat (split_runs continues l) = l.
Proof.
  unfold split_runs. assert (∀ runs, Forall (λ r, r ≠ [] ∧ chain r) runs →
    Forall (λ r, r ≠ [] ∧ chain r) (foldl (push_run continues) runs l) ∧
    concat (foldl (push_run continues) runs l) = concat runs ++ l) as Hgen.
  { induction l as [|e l IH]; intros runs Hr; cbn; [by rewrite app_nil_r|].
    destruct (push_run_ok runs e Hr) as [Hp Hc]. destruct (IH _ Hp) as [? Hc']. split; [done|].
    by rewrite Hc', Hc, <- app_assoc. }
  apply (Hgen []). constructor.
Qed.
End runs_laws.

(** ** Chunks of a stream *)
Section chunks.
Context {A : Type} (overflows : list A → A → bool).

(** The loop both planners use. *)
Fixpoint chunk_loop (stream chunk : list A) : list (list A) :=
  match stream with
  | [] => match chunk with [] => [] | _ => [chunk] end
  | entry :: stream' =>
      if overflows chunk entry then chunk :: chunk_loop stream' [entry]
      else chunk_loop stream' (chunk ++ [entry])
  end.

(** No entry of the chunk overflowed what was before it. *)
Definition chunk_ok (chunk : list A) : Prop :=
  chunk ≠ [] ∧ ∀ k e, chunk !! k = Some e → overflows (take k chunk) e = false.

Lemma chunk_loop_ok stream chunk :
  (∀ e, overflows [] e = false) → (chunk = [] ∨ chunk_ok chunk) →
  Forall chunk_ok (chunk_loop stream chunk) ∧ concat (chunk_loop stream chunk) = chunk ++ stream.
Proof.
  intros H0. revert chunk. induction stream as [|e stream IH]; intros chunk Hc; cbn.
  { destruct chunk; cbn; [done|]. destruct Hc as [?|Hc]; [done|]. split; [by apply Forall_singleton|by rewrite !app_nil_r]. }
  assert (∀ c, overflows c e = false → (c = [] ∨ chunk_ok c) → chunk_ok (c ++ [e])) as Hext.
  { intros c Ho Hok. split; [by destruct c|]. intros k x [Hx|[-> ->]]%lookup_snoc_Some.
    - destruct Hx as [Hk Hx]. rewrite take_app_le by lia. destruct Hok as [->|[_ Hok]]; [done|by apply Hok].
    - rewrite take_app_length'; done. }
  destruct (overflows chunk e) eqn:E.
  - destruct (IH [e]) as [Hf Hcc]; [right; apply (Hext []); auto|]. cbn. split; [|by rewrite Hcc].
    constructor; [|done]. destruct Hc as [->|Hc]; [by rewrite H0 in E|done].
  - destruct (IH (chunk ++ [e])) as [Hf Hcc]; [right; by apply Hext|]. split; [done|].
    by rewrite Hcc, <- app_assoc.
Qed.
End chunks.

Lemma sorted_concat {B} (R : B → B → Prop) (ls : list (list B)) c :
  StronglySorted R (concat ls) → c ∈ ls → StronglySorted R c.
Proof.
  intros Hs Hc. induction Hc as [c ls|c d ls _ IH]; cbn in Hs; apply StronglySorted_app in Hs as (_ & ? & ?); auto.
Qed.
