(* ===== verification/S7Address.v ===== *)
(** * S7 addresses: drivers/s7comm/src/address.rs

    Storage areas, widths, the address grammar and the canonical form. *)

From S2P Require Import Prelude RustStd ObservationModel.
From stdpp Require Import options.

Module Area.
Inductive t : Type := Db | Marker | Input | Output.

#[global] Instance t_eq_dec : EqDecision t.
Proof. solve_decision. Defined.

(** The area codes of an Any pointer (pdu.rs). *)
Definition code (a : t) : Z :=
  match a with Db => 0x84 | Marker => 0x83 | Input => 0x81 | Output => 0x82 end.
End Area.

Module S7Type.
Inductive t : Type := Bit | Byte | Word | Dword.

#[global] Instance t_eq_dec : EqDecision t.
Proof. solve_decision. Defined.

Definition width_bytes (ty : t) : Z :=
  match ty with Bit | Byte => 1 | Word => 2 | Dword => 4 end.

Definition suffix (ty : t) : str :=
  match ty with Bit => lit "dbx" | Byte => lit "dbb" | Word => lit "dbw" | Dword => lit "dbd" end.

(** The derived [Ord]: declaration order. *)
Definition rank (ty : t) : Z := match ty with Bit => 0 | Byte => 1 | Word => 2 | Dword => 3 end.
End S7Type.

Record S7Address : Type := mkS7Address {
  sa_area : Area.t;
  sa_db : Z;
  sa_byte : Z;
  sa_bit : Z;
  sa_ty : S7Type.t;
}.

#[global] Instance S7Address_eq_dec : EqDecision S7Address.
Proof. solve_decision. Defined.

Module AddressError.
Inductive t : Type := InvalidSyntax | OutOfRange.
End AddressError.

Definition MAX_BYTE_OFFSET : Z := 0x001FFFFF.

Definition dot : Z := 46.

(** [str::to_ascii_lowercase] *)
Definition to_ascii_lowercase (s : str) : str :=
  (λ c, if (65 <=? c) && (c <=? 90) then c + 32 else c) <$> s.

(** [str::strip_prefix] *)
Fixpoint strip_prefix (p s : str) : option str :=
  match p, s with
  | [], _ => Some s
  | a :: p', b :: s' => if a =? b then strip_prefix p' s' else None
  | _, [] => None
  end.

(** [split_at(1)] panics when the string is empty or its first character
    takes more than one byte. *)
Definition strip_area (s : str) : outcome AddressError.t (option (Area.t * str)) :=
  match s with
  | [] => Panic
  | c :: rest =>
      if 128 <=? c then Panic
      else if c =? 109 then Ok (Some (Area.Marker, rest))
      else if c =? 105 then Ok (Some (Area.Input, rest))
      else if c =? 113 then Ok (Some (Area.Output, rest))
      else Ok None
  end.

Definition parse_u32 (s : str) : outcome AddressError.t Z :=
  ok_or (parse_uint 32 s) AddressError.OutOfRange.

Definition split_bit (s : str) : option (Z * Z) :=
  '(off, bit) ← split_once dot s;
  byte ← parse_uint 32 off;
  b ← parse_uint 8 bit;
  Some (byte, b).

Definition validate_bit (bit : Z) : outcome AddressError.t () :=
  if 7 <? bit then Err AddressError.OutOfRange else Ok ().

Definition validate_offset (byte : Z) : outcome AddressError.t () :=
  if MAX_BYTE_OFFSET <? byte then Err AddressError.OutOfRange else Ok ().

(** The part of a DB address after the number of the block. *)
Definition parse_db_tail (db : Z) (tail : str) : outcome AddressError.t S7Address :=
  let? (suffix, offset_str) := ok_or (split_at_digit tail) AddressError.InvalidSyntax in
  let? (ty, byte, bit) :=
    if decide (suffix = lit "dbx") then
      let? (off, b) := ok_or (split_bit offset_str) AddressError.InvalidSyntax in
      Ok (S7Type.Bit, off, b)
    else if decide (suffix = lit "dbb") then
      let? n := parse_u32 offset_str in Ok (S7Type.Byte, n, 0)
    else if decide (suffix = lit "dbw") then
      let? n := parse_u32 offset_str in Ok (S7Type.Word, n, 0)
    else if decide (suffix = lit "dbd") then
      let? n := parse_u32 offset_str in Ok (S7Type.Dword, n, 0)
    else Err AddressError.InvalidSyntax in
  let? _ := validate_offset byte in
  let? _ := if decide (ty = S7Type.Bit) then validate_bit bit else Ok () in
  Ok {| sa_area := Area.Db; sa_db := db; sa_byte := byte; sa_bit := bit; sa_ty := ty |}.

Definition parse_db (rest : str) : outcome AddressError.t S7Address :=
  let? (db_str, tail) := ok_or (split_once dot rest) AddressError.InvalidSyntax in
  let? db := ok_or (parse_uint 16 db_str) AddressError.OutOfRange in
  if db =? 0 then Err AddressError.OutOfRange else parse_db_tail db tail.

Definition parse_area (area : Area.t) (rest : str) : outcome AddressError.t S7Address :=
  let? addr :=
    match split_bit rest with
    | Some (byte, bit) =>
        let? _ := validate_bit bit in
        Ok {| sa_area := area; sa_db := 0; sa_byte := byte; sa_bit := bit; sa_ty := S7Type.Bit |}
    | None =>
        let? (suffix, digits) := ok_or (split_at_digit rest) AddressError.InvalidSyntax in
        let? ty :=
          if decide (suffix = lit "b") then Ok S7Type.Byte
          else if decide (suffix = lit "w") then Ok S7Type.Word
          else if decide (suffix = lit "d") then Ok S7Type.Dword
          else Err AddressError.InvalidSyntax in
        let? n := parse_u32 digits in
        Ok {| sa_area := area; sa_db := 0; sa_byte := n; sa_bit := 0; sa_ty := ty |}
    end in
  let? _ := validate_offset (sa_byte addr) in
  Ok addr.

Definition parse (input : str) : outcome AddressError.t S7Address :=
  let s := to_ascii_lowercase (trim input) in
  match strip_prefix (lit "db") s with
  | Some rest => parse_db rest
  | None =>
      let? area := strip_area s in
      match area with
      | Some (area, rest) => parse_area area rest
      | None => Err AddressError.InvalidSyntax
      end
  end.

Definition canonical_area (prefix : str) (a : S7Address) : str :=
  match sa_ty a with
  | S7Type.Bit => prefix ++ to_string (sa_byte a) ++ [dot] ++ to_string (sa_bit a)
  | S7Type.Byte => prefix ++ lit "b" ++ to_string (sa_byte a)
  | S7Type.Word => prefix ++ lit "w" ++ to_string (sa_byte a)
  | S7Type.Dword => prefix ++ lit "d" ++ to_string (sa_byte a)
  end.

Definition canonical (a : S7Address) : str :=
  match sa_area a with
  | Area.Db =>
      match sa_ty a with
      | S7Type.Bit =>
          lit "db" ++ to_string (sa_db a) ++ lit ".dbx" ++ to_string (sa_byte a) ++ [dot]
            ++ to_string (sa_bit a)
      | ty => lit "db" ++ to_string (sa_db a) ++ [dot] ++ S7Type.suffix ty ++ to_string (sa_byte a)
      end
  | Area.Marker => canonical_area (lit "m") a
  | Area.Input => canonical_area (lit "i") a
  | Area.Output => canonical_area (lit "q") a
  end.

Definition writable (a : S7Address) : bool := negb (bool_decide (sa_area a = Area.Input)).

Definition width_bytes (a : S7Address) : Z := S7Type.width_bytes (sa_ty a).

(** ** Properties *)

(** The addresses an Any pointer can carry. *)
Record addr_wf (a : S7Address) : Prop := {
  aw_db : match sa_area a with Area.Db => 1 ≤ sa_db a < 2 ^ 16 | _ => sa_db a = 0 end;
  aw_byte : 0 ≤ sa_byte a ≤ MAX_BYTE_OFFSET;
  aw_bit : 0 ≤ sa_bit a ≤ 7;
  aw_width : sa_ty a ≠ S7Type.Bit → sa_bit a = 0;
}.

Lemma split_bit_range s byte bit : split_bit s = Some (byte, bit) → in_u 32 byte ∧ in_u 8 bit.
Proof.
  unfold split_bit. destruct (split_once dot s) as [[off b]|]; cbn; [|done].
  destruct (parse_uint 32 off) eqn:Eo; cbn; [|done]. destruct (parse_uint 8 b) eqn:Eb; cbn; [|done].
  intros [= -> ->]. split; by eapply parse_uint_range.
Qed.

Lemma validate_bit_Ok b x : validate_bit b = Ok x → b ≤ 7.
Proof. unfold validate_bit. case_if; [done|lia]. Qed.
Lemma validate_offset_Ok b x : validate_offset b = Ok x → b ≤ MAX_BYTE_OFFSET.
Proof. unfold validate_offset. case_if; [done|lia]. Qed.
Lemma parse_u32_Ok s n : parse_u32 s = Ok n → in_u 32 n.
Proof. unfold parse_u32. destruct (parse_uint 32 s) eqn:E; [|done]. intros [= ->]. by eapply parse_uint_range. Qed.

Lemma parse_db_wf rest a : parse_db rest = Ok a → addr_wf a ∧ sa_area a = Area.Db.
Proof.
  unfold parse_db. intros ([db_str tail] & _ & H)%outcome_bind_Ok_inv.
  apply outcome_bind_Ok_inv in H as (db & Hdb & H).
  destruct (parse_uint 16 db_str) as [db'|] eqn:Edb; [|done]. injection Hdb as ->.
  apply parse_uint_range in Edb; [|done]. destruct (db =? 0) eqn:E0; [done|]. unfold parse_db_tail in H.
  apply outcome_bind_Ok_inv in H as ([suffix off] & _ & H).
  apply outcome_bind_Ok_inv in H as ([[ty byte] bit] & Hty & H).
  apply outcome_bind_Ok_inv in H as ([] & Ho%validate_offset_Ok & H).
  apply outcome_bind_Ok_inv in H as ([] & Hbit & H). injection H as <-.
  unfold in_u in *. split; [|done].
  assert ((ty = S7Type.Bit ∧ in_u 32 byte ∧ in_u 8 bit) ∨ (ty ≠ S7Type.Bit ∧ in_u 32 byte ∧ bit = 0)) as Hc.
  { clear Hbit. repeat case_decide; try done;
      try (apply outcome_bind_Ok_inv in Hty as (n & Hn%parse_u32_Ok & [= <- <- <-]); by right).
    apply outcome_bind_Ok_inv in Hty as ([o b] & Hs & [= <- <- <-]). left.
    destruct (split_bit off) eqn:Es; [|done]. injection Hs as ->. split; [done|by eapply split_bit_range]. }
  unfold in_u in Hc. destruct Hc as [(-> & Hby & Hbi)|(Hne & Hby & ->)].
  - rewrite decide_True in Hbit by done. apply validate_bit_Ok in Hbit. split; cbn; [lia..|done].
  - split; cbn; [lia..|done].
Qed.

Lemma parse_area_wf area rest a :
  area ≠ Area.Db → parse_area area rest = Ok a → addr_wf a ∧ sa_area a = area.
Proof.
  intros Ha (addr & Hp & H)%outcome_bind_Ok_inv.
  apply outcome_bind_Ok_inv in H as ([] & Ho%validate_offset_Ok & [= <-]).
  destruct (split_bit rest) as [[byte bit]|] eqn:Es.
  - apply outcome_bind_Ok_inv in Hp as ([] & Hb%validate_bit_Ok & [= <-]).
    apply split_bit_range in Es as [Hby Hbi]. unfold in_u in *. cbn in *.
    split; [|done]. split; cbn; [by destruct area|lia..|done].
  - apply outcome_bind_Ok_inv in Hp as ([suffix digits] & _ & Hp).
    apply outcome_bind_Ok_inv in Hp as (ty & Hty & Hp).
    apply outcome_bind_Ok_inv in Hp as (n & Hn%parse_u32_Ok & [= <-]). unfold in_u in *. cbn in *.
    split; [|done]. split; cbn; [by destruct area|lia..|done].
Qed.

Lemma strip_area_Ok s area rest : strip_area s = Ok (Some (area, rest)) → area ≠ Area.Db.
Proof. unfold strip_area. destruct s; [done|]. repeat case_if; by intros [= <- <-]. Qed.

(** An accepted address is in range: its Any pointer does not wrap. *)
Lemma parse_wf input a : parse input = Ok a → addr_wf a.
Proof.
  unfold parse. destruct (strip_prefix _ _) as [rest|].
  - by intros [? _]%parse_db_wf.
  - intros ([[area rest]|] & Hs & H)%outcome_bind_Ok_inv; [|done]. apply strip_area_Ok in Hs.
    by apply parse_area_wf in H as [? _].
Qed.

(** *** The canonical form *)
#[local] Opaque to_string.

Definition plain (c : Z) : Prop := is_whitespace c = false ∧ (c < 65 ∨ 90 < c).

Lemma plain_parsed s : Forall plain s → to_ascii_lowercase (trim s) = s.
Proof.
  intros H. rewrite trim_no_ws by (eapply Forall_impl; [exact H|by intros ? []]).
  induction H as [|c s [_ Hc] _ IH]; [done|]. unfold to_ascii_lowercase in *. cbn. rewrite IH.
  by replace ((65 <=? c) && (c <=? 90)) with false by lia.
Qed.

Lemma to_string_plain n : Forall plain (to_string n).
Proof.
  eapply Forall_impl; [apply to_string_digits|]. intros c Hc.
  split; [by apply is_digit_no_ws|unfold is_digit in Hc; lia].
Qed.

Lemma canonical_plain a : Forall plain (canonical a).
Proof.
  assert (∀ l, forallb (λ c, negb (is_whitespace c) && negb ((65 <=? c) && (c <=? 90))) l = true →
    Forall plain l) as Hl.
  { intros l H. apply Forall_forall. intros c Hc. rewrite forallb_forall in H.
    apply list_elem_of_In, H, andb_true_iff in Hc as [Hw Hc]. split; [by apply negb_true_iff|lia]. }
  destruct a as [[] db byte bit []]; unfold canonical, canonical_area; cbn [sa_area sa_ty sa_db sa_byte sa_bit];
    repeat (apply Forall_app; split); try apply to_string_plain; by apply Hl.
Qed.

Lemma split_bit_to_string byte bit :
  in_u 32 byte → in_u 8 bit → split_bit (to_string byte ++ dot :: to_string bit) = Some (byte, bit).
Proof.
  intros Hy Hb. unfold split_bit. rewrite split_once_app by (apply to_string_not_elem; unfold is_digit, dot; lia).
  cbn. unfold in_u in *. by rewrite !parse_uint_to_string by lia.
Qed.

Lemma split_bit_None c n : c ≠ dot → split_bit (c :: to_string n) = None.
Proof.
  intros Hc. unfold split_bit. rewrite split_once_None; [done|].
  rewrite not_elem_of_cons. split; [done|]. apply to_string_not_elem. unfold is_digit, dot. lia.
Qed.

Lemma parse_u32_to_string n : in_u 32 n → parse_u32 (to_string n) = Ok n.
Proof. unfold parse_u32, in_u. intros. by rewrite parse_uint_to_string by lia. Qed.

Lemma validate_offset_ok byte : byte ≤ MAX_BYTE_OFFSET → validate_offset byte = Ok ().
Proof. intros. unfold validate_offset. by replace (MAX_BYTE_OFFSET <? byte) with false by lia. Qed.
Lemma validate_bit_ok bit : bit ≤ 7 → validate_bit bit = Ok ().
Proof. intros. unfold validate_bit. by replace (7 <? bit) with false by lia. Qed.

Lemma suffix_no_digit ty : Forall (λ c, ¬ is_digit c) (S7Type.suffix ty).
Proof. unfold is_digit. destruct ty; vm_compute; repeat (apply Forall_cons; split; [intuition congruence|]); apply Forall_nil_2. Qed.

Lemma parse_db_tail_canonical db byte bit ty :
  0 ≤ byte ≤ MAX_BYTE_OFFSET → 0 ≤ bit ≤ 7 → (ty ≠ S7Type.Bit → bit = 0) →
  parse_db_tail db (S7Type.suffix ty ++ to_string byte ++
      match ty with S7Type.Bit => dot :: to_string bit | _ => [] end) =
  Ok {| sa_area := Area.Db; sa_db := db; sa_byte := byte; sa_bit := bit; sa_ty := ty |}.
Proof.
  intros Hby Hbi Hw. unfold parse_db_tail.
  assert (in_u 32 byte) by (unfold in_u, MAX_BYTE_OFFSET in *; lia).
  assert (in_u 8 bit) by (unfold in_u; lia).
  pose proof (validate_offset_ok byte ltac:(lia)) as Ho.
  rewrite split_at_digit_app by apply suffix_no_digit. cbn [ok_or outcome_bind].
  destruct ty; rewrite ?app_nil_r; cbn [S7Type.suffix].
  - rewrite decide_True by done. rewrite split_bit_to_string by done. cbn [ok_or outcome_bind].
    rewrite Ho. cbn [outcome_bind]. rewrite decide_True by done. by rewrite validate_bit_ok by lia.
  - rewrite (Hw ltac:(done)), decide_False, decide_True, parse_u32_to_string by done. cbn [outcome_bind].
    by rewrite Ho.
  - rewrite (Hw ltac:(done)), !decide_False, decide_True, parse_u32_to_string by done. cbn [outcome_bind].
    by rewrite Ho.
  - rewrite (Hw ltac:(done)), !decide_False, decide_True, parse_u32_to_string by done. cbn [outcome_bind].
    by rewrite Ho.
Qed.

Lemma parse_db_canonical a :
  addr_wf a → sa_area a = Area.Db →
  ∃ rest, canonical a = 100 :: 98 :: rest ∧ parse_db rest = Ok a.
Proof.
  destruct a as [area db byte bit ty]. intros [Hdb Hby Hbi Hw] Ha. cbn in Ha. subst area. cbn in *.
  exists (to_string db ++ dot :: S7Type.suffix ty ++ to_string byte ++
          match ty with S7Type.Bit => dot :: to_string bit | _ => [] end).
  split; [by destruct ty; cbn; rewrite ?app_nil_r|].
  unfold parse_db. rewrite split_once_app by (apply to_string_not_elem; unfold is_digit, dot; lia).
  cbn [ok_or outcome_bind]. rewrite parse_uint_to_string by lia. cbn [ok_or outcome_bind].
  replace (db =? 0) with false by lia. by apply parse_db_tail_canonical.
Qed.

Lemma parse_area_canonical area byte bit ty :
  0 ≤ byte ≤ MAX_BYTE_OFFSET → 0 ≤ bit ≤ 7 → (ty ≠ S7Type.Bit → bit = 0) →
  let a := {| sa_area := area; sa_db := 0; sa_byte := byte; sa_bit := bit; sa_ty := ty |} in
  parse_area area (canonical_area [] a) = Ok a.
Proof.
  intros Hby Hbi Hw a. unfold parse_area.
  assert (in_u 32 byte) by (unfold in_u, MAX_BYTE_OFFSET in *; lia).
  assert (in_u 8 bit) by (unfold in_u; lia).
  pose proof (validate_offset_ok byte ltac:(lia)) as Ho.
  subst a. destruct ty; unfold canonical_area; cbn [sa_ty sa_byte sa_bit app lit].
  1: { rewrite split_bit_to_string by done. rewrite validate_bit_ok by lia. cbn [outcome_bind sa_byte]. by rewrite Ho. }
  all: rewrite split_bit_None by done; rewrite (Hw ltac:(done)).
  all: match goal with |- context [split_at_digit (?c :: ?l)] =>
         change (c :: l) with ([c] ++ l); rewrite <- (app_nil_r l), split_at_digit_app, app_nil_r
           by (repeat constructor; unfold is_digit; vm_compute; intuition congruence) end.
  all: cbn [ok_or outcome_bind]; rewrite ?decide_False by done; rewrite decide_True by done;
    cbn [outcome_bind]; rewrite parse_u32_to_string by done; cbn [outcome_bind sa_byte]; by rewrite Ho.
Qed.

(** The canonical form of an S7 address denotes the address: parsing the
    canonical text of an address an Any pointer can carry gives it back, and
    every accepted text denotes such an address. *)
Theorem s7_parse_canonical a :
  (addr_wf a → parse (canonical a) = Ok a) ∧ (∀ input, parse input = Ok a → addr_wf a).
Proof.
  split; [|intros input; apply parse_wf]. intros Ha. unfold parse.
  rewrite plain_parsed by apply canonical_plain. destruct (sa_area a) eqn:Ea.
  1: destruct (parse_db_canonical a Ha Ea) as (rest & -> & ?); done.
  all: destruct a as [area db byte bit ty], Ha as [Hdb Hby Hbi Hw]; cbn in Ea, Hdb, Hby, Hbi, Hw; subst area db;
    destruct ty; cbn; by apply (parse_area_canonical _ byte bit _ Hby Hbi Hw).
Qed.

Lemma parse_db_no_panic rest : parse_db rest ≠ Panic.
Proof. unfold parse_db, parse_db_tail, parse_u32, validate_offset, validate_bit. no_panic. Qed.

Lemma parse_area_no_panic area rest : parse_area area rest ≠ Panic.
Proof. unfold parse_area, parse_u32, validate_offset, validate_bit. no_panic. Qed.

(** Which texts make the parser panic.  Parsing an address panics exactly
    when nothing is left of the text after trimming, or when its first
    character is not ASCII; every other text is accepted or refused with an
    error. *)
Theorem s7_parse_panics input :
  parse input = Panic ↔ trim input = [] ∨ ∃ c s, trim input = c :: s ∧ 128 ≤ c.
Proof.
  unfold parse. destruct (trim input) as [|c s]; [split; [by left|done]|].
  cbn [to_ascii_lowercase fmap list_fmap].
  set (c' := if (65 <=? c) && (c <=? 90) then c + 32 else c). fold (to_ascii_lowercase s).
  assert (128 ≤ c ↔ 128 ≤ c') as Hc by (subst c'; destruct ((65 <=? c) && (c <=? 90)) eqn:?; lia).
  transitivity (128 ≤ c'); [|rewrite <- Hc; naive_solver]. clearbody c'.
  destruct (strip_prefix (lit "db") (c' :: to_ascii_lowercase s)) as [rest|] eqn:E.
  - split; [by intros ?%parse_db_no_panic|]. change (lit "db") with [100; 98] in E.
    cbn [strip_prefix] in E.
    intros ?. exfalso. destruct (Z.eqb_spec 100 c'); [lia|done].
  - unfold strip_area. destruct (128 <=? c') eqn:?; [split; [lia|done]|].
    split; [|lia]. repeat case_if; cbn [outcome_bind]; try done; by intros ?%parse_area_no_panic.
Qed.
