(* ===== verification/S7Codec.v ===== *)
(** * S7 frames: drivers/s7comm/src/{error,cotp,pdu}.rs

    The error classes, the TPKT and COTP wrapping of ISO-on-TCP, and the
    requests and responses of the S7 protocol with its Any pointers. *)

From S2P Require Import Prelude RustStd ObservationModel S7Address.
From stdpp Require Import options.

(** ** Errors (error.rs) *)
Module S7Error.
Record t : Type := mk {
  code : string;
  protocol_code : option Z;
  retryable : bool;
}.

Definition new (code : string) (retryable : bool) : t :=
  {| code := code; protocol_code := None; retryable := retryable |}.

Definition connection_failed : t := new "connection_failed" true.
Definition connection_lost : t := new "connection_lost" true.
Definition timeout : t := new "timeout" true.
Definition invalid_response : t := new "invalid_response" false.
Definition unexpected_function_code : t := new "unexpected_function_code" false.
Definition s7_error_response (error_class error_code : Z) : t :=
  {| code := "s7_error_response";
     protocol_code := Some (Z.lor (Z.shiftl error_class 8) error_code); retryable := false |}.
Definition access_denied (return_code : Z) : t :=
  {| code := "access_denied"; protocol_code := Some return_code; retryable := false |}.
Definition s7_item_error (return_code : Z) : t :=
  {| code := "s7_item_error"; protocol_code := Some return_code; retryable := false |}.
Definition invalid_address : t := new "invalid_address" false.
Definition config_error : t := new "config_error" false.
Definition decode_error : t := new "decode_error" false.
Definition invalid_type : t := new "invalid_type" false.
Definition driver_panic : t := new "DRIVER_PANIC" false.
Definition unsupported : t := new "unsupported" false.

Definition into_info (e : t) : DriverErrorInfo :=
  {| dei_code := code e; dei_protocol_code := protocol_code e; dei_retryable := retryable e |}.

Definition is_transport_level (e : t) : bool :=
  bool_decide (code e = "connection_lost"%string ∨ code e = "connection_failed"%string
               ∨ code e = "timeout"%string ∨ code e = "invalid_response"%string
               ∨ code e = "unexpected_function_code"%string).
End S7Error.

(** ** TPKT and COTP (cotp.rs) *)
Definition TPKT_VERSION : Z := 3.
Definition TPKT_HEADER_LEN : nat := 4.
Definition COTP_CR : Z := 0xE0.
Definition COTP_CC : Z := 0xD0.
Definition COTP_DT : Z := 0xF0.
Definition MAX_TPKT_LEN : Z := 65579.

(** [rack << 5] is a shift of a [u8]. *)
Definition remote_tsap (rack slot : Z) : list Z :=
  [0x03; Z.lor (wrap8 (Z.shiftl rack 5)) slot].

Definition connection_request (local_tsap remote_tsap : list Z) : list Z :=
  [0x0E; COTP_CR; 0x00; 0x00; 0x00; 0x0F; 0x00; 0xC1; 0x02] ++ local_tsap ++ [0xC2; 0x02]
    ++ remote_tsap.

Definition data_tpdu (payload : list Z) : list Z := [0x02; COTP_DT; 0x80] ++ payload.

Module CotpFrame.
Inductive t : Type := ConnectionConfirm | Data (payload : list Z).
End CotpFrame.

Definition parse_frame (frame : list Z) : outcome S7Error.t CotpFrame.t :=
  if (length frame <? TPKT_HEADER_LEN)%nat || negb (frame !!! 0%nat =? TPKT_VERSION)
     || negb (frame !!! 1%nat =? 0)
  then Err S7Error.invalid_response
  else
    let declared := from_be_bytes (slice 2 4 frame) in
    if negb ((Z.of_nat TPKT_HEADER_LEN <=? declared) && (declared <=? MAX_TPKT_LEN))
       || negb (declared =? Z.of_nat (length frame))
    then Err S7Error.invalid_response
    else
      let body := drop TPKT_HEADER_LEN frame in
      if (length body <? 2)%nat then Err S7Error.invalid_response
      else
        let li := body !!! 0%nat in
        let ty := body !!! 1%nat in
        if ty =? COTP_CC then Ok CotpFrame.ConnectionConfirm
        else if ty =? COTP_DT then
          if (li <? 2) || (Z.of_nat (length body) <? li + 1) || (Z.land (body !!! 2%nat) 0x80 =? 0)
          then Err S7Error.invalid_response
          else Ok (CotpFrame.Data (drop (Z.to_nat (li + 1)) body))
        else Err S7Error.invalid_response.

(** ** S7 PDUs (pdu.rs) *)
Definition PROTOCOL_ID : Z := 0x32.
Definition ROSCTR_JOB : Z := 0x01.
Definition ROSCTR_ACK_DATA : Z := 0x03.
Definition FUNCTION_SETUP : Z := 0xF0.
Definition FUNCTION_READ : Z := 0x04.
Definition FUNCTION_WRITE : Z := 0x05.
Definition TS_BIT : Z := 0x01.
Definition TS_BYTE : Z := 0x03.
Definition TS_WORD : Z := 0x04.
Definition TS_DWORD : Z := 0x06.
Definition RC_SUCCESS : Z := 0xFF.
Definition JOB_HEADER_LEN : Z := 10.
Definition ACK_HEADER_LEN : Z := 12.
Definition ANY_ITEM_LEN : Z := 12.
Definition PROPOSED_PDU_SIZE : Z := 500.

Record AnyItem : Type := mkAnyItem {
  ai_transport_size : Z;
  ai_length : Z;
  ai_area_code : Z;
  ai_db : Z;
  ai_byte_offset : Z;
  ai_bit : Z;
}.

Definition area_code_of (area : Area.t) : Z := Area.code area.

Definition from_address (addr : S7Address) : AnyItem :=
  {| ai_transport_size :=
       match sa_ty addr with
       | S7Type.Bit => TS_BIT | S7Type.Byte => TS_BYTE
       | S7Type.Word => TS_WORD | S7Type.Dword => TS_DWORD
       end;
     ai_length := 1; ai_area_code := Area.code (sa_area addr); ai_db := sa_db addr;
     ai_byte_offset := sa_byte addr; ai_bit := sa_bit addr |}.

(** [u16 >> 8 as u8], [u16 as u8] and the like are the big-endian bytes. *)
Definition any_encode (i : AnyItem) : list Z :=
  let addr := Z.lor (wrap32 (Z.shiftl (ai_byte_offset i) 3)) (ai_bit i) in
  [0x12; 0x0A; 0x10; ai_transport_size i] ++ to_be_bytes 2 (ai_length i) ++ to_be_bytes 2 (ai_db i)
    ++ [ai_area_code i] ++ to_be_bytes 3 addr.

Definition any_width_bytes (i : AnyItem) : Z :=
  if ai_transport_size i =? TS_BIT then 1
  else if ai_transport_size i =? TS_BYTE then ai_length i
  else if ai_transport_size i =? TS_WORD then ai_length i * 2
  else if ai_transport_size i =? TS_DWORD then ai_length i * 4
  else 0.

Definition build_job (pdu_ref : Z) (param data : list Z) : list Z :=
  [PROTOCOL_ID; ROSCTR_JOB; 0x00; 0x00] ++ to_be_bytes 2 pdu_ref
    ++ to_be_bytes 2 (Z.of_nat (length param)) ++ to_be_bytes 2 (Z.of_nat (length data))
    ++ param ++ data.

Definition build_setup (pdu_ref proposed_pdu : Z) : list Z :=
  build_job pdu_ref
    ([FUNCTION_SETUP; 0x00] ++ to_be_bytes 2 proposed_pdu ++ to_be_bytes 2 proposed_pdu) [].

Definition parse_setup_ack (param : list Z) : outcome S7Error.t Z :=
  if (8 <=? length param)%nat && (param !!! 0%nat =? FUNCTION_SETUP)
  then Ok (from_be_bytes (slice 6 8 param))
  else if (4 <=? length param)%nat && (param !!! 0%nat =? FUNCTION_SETUP)
  then Ok (from_be_bytes (slice 2 4 param))
  else Err S7Error.unexpected_function_code.

Definition build_read (pdu_ref : Z) (items : list AnyItem) : list Z :=
  build_job pdu_ref
    ([FUNCTION_READ; wrap8 (Z.of_nat (length items))] ++ (items ≫= any_encode)) [].

Definition write_data (item : AnyItem * list Z) : list Z :=
  let '(i, payload) := item in
  [0x00; ai_transport_size i] ++ to_be_bytes 2 (ai_length i) ++ payload
    ++ (if (length payload mod 2 =? 1)%nat then [0x00] else []).

Definition build_write (pdu_ref : Z) (items : list (AnyItem * list Z)) : list Z :=
  build_job pdu_ref
    ([FUNCTION_WRITE; wrap8 (Z.of_nat (length items))] ++ (items.*1 ≫= any_encode))
    (items ≫= write_data).

Record AckParts : Type := mkAckParts {
  ap_pdu_ref : Z;
  ap_param : list Z;
  ap_data : list Z;
}.

Definition parse_ack (pdu : list Z) : outcome S7Error.t AckParts :=
  if (Z.of_nat (length pdu) <? ACK_HEADER_LEN) || negb (pdu !!! 0%nat =? PROTOCOL_ID)
  then Err S7Error.invalid_response
  else if negb (pdu !!! 1%nat =? ROSCTR_ACK_DATA) then Err S7Error.unexpected_function_code
  else
    let pdu_ref := from_be_bytes (slice 4 6 pdu) in
    let param_len := from_be_bytes (slice 6 8 pdu) in
    let data_len := from_be_bytes (slice 8 10 pdu) in
    let declared_total := ACK_HEADER_LEN + param_len + data_len in
    if Z.of_nat (length pdu) <? declared_total then Err S7Error.invalid_response
    else if declared_total <? Z.of_nat (length pdu) then Err S7Error.invalid_response
    else if negb (pdu !!! 10%nat =? 0) || negb (pdu !!! 11%nat =? 0)
    then Err (S7Error.s7_error_response (pdu !!! 10%nat) (pdu !!! 11%nat))
    else
      let p := Z.to_nat (ACK_HEADER_LEN + param_len) in
      Ok {| ap_pdu_ref := pdu_ref; ap_param := slice (Z.to_nat ACK_HEADER_LEN) p pdu;
            ap_data := slice p (Z.to_nat declared_total) pdu |}.

Record ReadItemResult : Type := mkReadItemResult {
  rir_return_code : Z;
  rir_transport_size : Z;
  rir_payload : list Z;
}.

Definition check_read_header (param : list Z) (expected_items : nat) : outcome S7Error.t () :=
  if (length param <? 2)%nat || negb (param !!! 0%nat =? FUNCTION_READ)
  then Err S7Error.unexpected_function_code
  else if negb (param !!! 1%nat =? Z.of_nat expected_items) then Err S7Error.invalid_response
  else Ok ().

(** The length of the payload of an item whose header [rest] starts with. *)
Definition payload_len (expected_items : nat) (rest : list Z) : nat :=
  let transport_size := rest !!! 1%nat in
  let declared := from_be_bytes (slice 2 4 rest) in
  let by_bits := Z.to_nat (div_ceil declared 8) in
  let by_bytes := Z.to_nat declared in
  if transport_size =? TS_BIT then by_bits
  else if (transport_size =? TS_WORD) || (transport_size =? 0x05) || (transport_size =? TS_DWORD)
          || (transport_size =? 0x07)
  then if (expected_items =? 1)%nat then (length rest - 4)%nat
       else if (4 + by_bits <=? length rest)%nat then by_bits else by_bytes
  else by_bytes.

(** The loop over the items; [rest] is the data from the cursor on. *)
Fixpoint read_items (expected_items n : nat) (rest : list Z) :
    outcome S7Error.t (list ReadItemResult) :=
  match n with
  | O => match rest with [] => Ok [] | _ => Err S7Error.invalid_response end
  | S n' =>
      if (length rest <? 4)%nat then Err S7Error.invalid_response
      else
        let len := payload_len expected_items rest in
        if (length rest <? 4 + len)%nat then Err S7Error.invalid_response
        else
          let after := drop (4 + len) rest in
          let? items := read_items expected_items n'
                          (if (len mod 2 =? 1)%nat then drop 1 after else after) in
          Ok ({| rir_return_code := rest !!! 0%nat; rir_transport_size := rest !!! 1%nat;
                 rir_payload := slice 4 (4 + len) rest |} :: items)
  end.

Definition parse_read_response (param data : list Z) (expected_items : nat) :
    outcome S7Error.t (list ReadItemResult) :=
  let? _ := check_read_header param expected_items in
  read_items expected_items expected_items data.

Definition parse_write_response (param data : list Z) (expected_items : nat) :
    outcome S7Error.t (list Z) :=
  if (length param <? 2)%nat || negb (param !!! 0%nat =? FUNCTION_WRITE)
  then Err S7Error.unexpected_function_code
  else if negb (param !!! 1%nat =? Z.of_nat expected_items) then Err S7Error.invalid_response
  else if negb (length data =? expected_items)%nat then Err S7Error.invalid_response
  else Ok data.

(** [u16::saturating_sub] *)
Definition read_data_budget (negotiated_pdu : Z) (item_count : nat) : Z :=
  Z.max 0 (negotiated_pdu - wrap16 (JOB_HEADER_LEN + 4 + 4 * Z.of_nat item_count + 16)).

Definition write_data_budget (negotiated_pdu : Z) (item_count : nat) : Z :=
  Z.max 0 (negotiated_pdu
           - wrap16 (JOB_HEADER_LEN + 2 + ANY_ITEM_LEN * Z.of_nat item_count + 16)).

(** * S7 values and configuration: drivers/s7comm/src/{decode,encode,config}.rs

    The interpretation of a payload by the width of its address and the
    expected type, the encoding of values for writing, and the connection
    configuration with its validation. *)

(** ** Decoding *)
Module RawValueOut.
Inductive t : Type :=
| Bool (b : bool)
| Signed (v : Z)
| Unsigned (v : Z)
| Real (v : Z).                     (* the pattern of an [f32] *)

(** The conversion in [assemble_item] (lib.rs). *)
Definition to_raw (o : t) : RawValue.t :=
  match o with
  | Bool b => RawValue.Bool b
  | Signed v => RawValue.I64 v
  | Unsigned v => RawValue.U64 v
  | Real v => RawValue.F64 (f32_to_f64 v)
  end.
End RawValueOut.

Definition decode_read (ty : S7Type.t) (expected : option DataType.t) (payload : list Z) :
    outcome S7Error.t RawValueOut.t :=
  if negb (Z.of_nat (length payload) =? S7Type.width_bytes ty) then Err S7Error.invalid_response
  else
    let raw := from_be_bytes payload in
    match ty with
    | S7Type.Bit =>
        match expected with
        | None | Some DataType.Bool => Ok (RawValueOut.Bool (negb (Z.land (payload !!! 0%nat) 1 =? 0)))
        | Some _ => Err S7Error.invalid_type
        end
    | S7Type.Byte =>
        match expected with
        | None | Some DataType.U8 | Some DataType.U64 => Ok (RawValueOut.Unsigned raw)
        | Some DataType.I8 | Some DataType.I64 => Ok (RawValueOut.Signed (wrap_signed 8 raw))
        | Some _ => Err S7Error.invalid_type
        end
    | S7Type.Word =>
        match expected with
        | None | Some DataType.U16 | Some DataType.U64 => Ok (RawValueOut.Unsigned raw)
        | Some DataType.I16 | Some DataType.I64 => Ok (RawValueOut.Signed (wrap_signed 16 raw))
        | Some _ => Err S7Error.invalid_type
        end
    | S7Type.Dword =>
        match expected with
        | None | Some DataType.U32 | Some DataType.U64 => Ok (RawValueOut.Unsigned raw)
        | Some DataType.I32 | Some DataType.I64 => Ok (RawValueOut.Signed (wrap_signed 32 raw))
        | Some DataType.F32 | Some DataType.F64 => Ok (RawValueOut.Real raw)
        | Some _ => Err S7Error.invalid_type
        end
    end.

(** ** Encoding *)
Record EncodedWrite : Type := mkEncodedWrite {
  ew_transport_size : Z;
  ew_length : Z;
  ew_payload : list Z;
}.

Definition byte_write (bytes : list Z) : EncodedWrite :=
  {| ew_transport_size := TS_BYTE; ew_length := 1; ew_payload := bytes |}.
Definition word_write (bytes : list Z) : EncodedWrite :=
  {| ew_transport_size := TS_WORD; ew_length := 1; ew_payload := bytes |}.
Definition dword_write (bytes : list Z) : EncodedWrite :=
  {| ew_transport_size := TS_DWORD; ew_length := 1; ew_payload := bytes |}.

Definition encode_write (ty : S7Type.t) (value : RawValue.t) : outcome S7Error.t EncodedWrite :=
  match ty, value with
  | S7Type.Bit, RawValue.Bool b =>
      Ok {| ew_transport_size := TS_BIT; ew_length := 1; ew_payload := [if b then 1 else 0] |}
  | S7Type.Byte, RawValue.I64 v =>
      if decide (in_i 8 v) then Ok (byte_write (to_be_bytes 1 v)) else Err S7Error.invalid_type
  | S7Type.Byte, RawValue.U64 v =>
      if decide (in_u 8 v) then Ok (byte_write (to_be_bytes 1 v)) else Err S7Error.invalid_type
  | S7Type.Word, RawValue.I64 v =>
      if decide (in_i 16 v) then Ok (word_write (to_be_bytes 2 v)) else Err S7Error.invalid_type
  | S7Type.Word, RawValue.U64 v =>
      if decide (in_u 16 v) then Ok (word_write (to_be_bytes 2 v)) else Err S7Error.invalid_type
  | S7Type.Dword, RawValue.I64 v =>
      if decide (in_i 32 v) then Ok (dword_write (to_be_bytes 4 v)) else Err S7Error.invalid_type
  | S7Type.Dword, RawValue.U64 v =>
      if decide (in_u 32 v) then Ok (dword_write (to_be_bytes 4 v)) else Err S7Error.invalid_type
  | S7Type.Dword, RawValue.F64 v =>
      let narrowed := f64_to_f32 v in
      if negb (f32_is_nan narrowed) && negb (f64_eq (f32_to_f64 narrowed) v)
      then Err S7Error.invalid_type
      else Ok (dword_write (to_be_bytes 4 narrowed))
  | _, _ => Err S7Error.invalid_type
  end.

(** ** Configuration (config.rs) *)
Record S7Config : Type := mkS7Config {
  s7_mode : str;
  s7_host : str;
  s7_port : Z;
  s7_rack : Z;
  s7_slot : Z;
  s7_timeout_ms : Z;
  s7_reconnect : bool;
  s7_reconnect_max_attempts : Z;
  s7_reconnect_delay_ms : Z;
  s7_max_items_per_pdu : nat;
}.

Definition config_default : S7Config :=
  {| s7_mode := lit "tcp"; s7_host := []; s7_port := 102; s7_rack := 0; s7_slot := 0;
     s7_timeout_ms := 3000; s7_reconnect := true; s7_reconnect_max_attempts := 3;
     s7_reconnect_delay_ms := 1000; s7_max_items_per_pdu := 20 |}.

Definition validate (config : S7Config) : outcome S7Error.t () :=
  if negb (bool_decide (s7_mode config = lit "tcp")) then Err S7Error.config_error
  else if bool_decide (trim (s7_host config) = []) then Err S7Error.config_error
  else if 7 <? s7_rack config then Err S7Error.config_error
  else if 31 <? s7_slot config then Err S7Error.config_error
  else if s7_timeout_ms config =? 0 then Err S7Error.config_error
  else if (s7_max_items_per_pdu config =? 0)%nat || (20 <? s7_max_items_per_pdu config)%nat
  then Err S7Error.config_error
  else Ok ().

(** [serde_json::from_str] is a parameter. *)
Definition parse_config (from_str : str → option S7Config) (json : str) : outcome S7Error.t S7Config :=
  let? config := ok_or (from_str json) S7Error.config_error in
  let? _ := validate config in
  Ok config.

(** ** Properties *)

(** The expected type under which a value written to an address is read back. *)
Definition natural_type (v : RawValue.t) : option DataType.t :=
  match v with
  | RawValue.Bool _ => Some DataType.Bool
  | RawValue.I64 _ => Some DataType.I64
  | RawValue.U64 _ => Some DataType.U64
  | RawValue.F64 _ => Some DataType.F64
  | _ => None
  end.

Lemma encode_write_payload ty v enc :
  encode_write ty v = Ok enc →
  Z.of_nat (length (ew_payload enc)) = S7Type.width_bytes ty ∧ bytes_ok (ew_payload enc) ∧
  ew_length enc = 1 ∧
  ew_transport_size enc =
    match ty with S7Type.Bit => TS_BIT | S7Type.Byte => TS_BYTE | S7Type.Word => TS_WORD | S7Type.Dword => TS_DWORD end.
Proof.
  destruct ty, v; cbn [encode_write]; try done; try case_decide; try done; try case_if; try done; intros [= <-];
    cbn [ew_payload ew_length ew_transport_size byte_write word_write dword_write];
    rewrite ?length_to_be_bytes; split_and!; try done; try apply to_be_bytes_ok.
  all: by repeat constructor.
Qed.

Lemma encode_decode ty v enc :
  RawValue.wf v → encode_write ty v = Ok enc →
  ∃ out, decode_read ty (natural_type v) (ew_payload enc) = Ok out ∧
    (RawValueOut.to_raw out = v ∨
     ∃ f, v = RawValue.F64 f ∧ f64_is_nan f = true ∧ out = RawValueOut.Real (f64_to_f32 f)).
Proof.
  intros Hwf Henc. pose proof (encode_write_payload _ _ _ Henc) as (Hl & _).
  unfold decode_read. rewrite Hl, Z.eqb_refl. cbn [negb]. clear Hl.
  destruct ty, v as [[]|n|n|f| | | |]; cbn [encode_write] in Henc; try done;
    try case_decide; try done; try (injection Henc as <-); cbn [natural_type ew_payload byte_write word_write dword_write];
    try (eexists; split; [reflexivity|]; left; cbn [RawValueOut.to_raw]; f_equal; rewrite from_to_be_bytes;
         first [by apply (wrap_signed_wrap_small 8)|by apply (wrap_signed_wrap_small 16)
               |by apply (wrap_signed_wrap_small 32)|by apply Z.mod_small]);
    try (eexists; split; [reflexivity|]; left; reflexivity).
  case_if; [done|]. injection Henc as <-. cbn [ew_payload dword_write]. eexists. split; [reflexivity|].
  rewrite from_to_be_bytes, Z.mod_small by apply f64_to_f32_range.
  destruct (f64_is_nan f) eqn:Hn; [by right; exists f|]. left. cbn [RawValueOut.to_raw]. f_equal.
  apply f32_round_trip_bits; [done|]. rewrite (f64_to_f32_not_nan f Hn) in *. cbn in *.
  by apply negb_false_iff.
Qed.

(** What is written to an S7 address is read back: a value that can be
    encoded for the width of an address decodes, under the type of the value,
    to the value itself; only the payload of a NaN may differ.  *)
Theorem s7_codec_round_trip ty v enc :
  RawValue.wf v → encode_write ty v = Ok enc →
  ∃ out, decode_read ty (natural_type v) (ew_payload enc) = Ok out ∧
    (RawValueOut.to_raw out = v ∨
     ∃ f, v = RawValue.F64 f ∧ f64_is_nan f = true ∧ out = RawValueOut.Real (f64_to_f32 f)).
Proof. apply encode_decode. Qed.
