(* ===== verification/S7Batch.v ===== *)
(** * Batch planning: drivers/s7comm/src/batch.rs

    Grouping of read and write items by area, data block and width, splitting
    at the budget of the negotiated PDU, and the merged Any pointers. *)

From S2P Require Import Prelude RustStd ObservationModel BatchRuns S7Address S7Codec.
From stdpp Require Import options.

(** ** Data *)
Record PlannedItem : Type := mkPlannedItem {
  pi_item_id : Z;
  pi_expected_type : option DataType.t;
  pi_offset_in_data : Z;
  pi_ty : S7Type.t;
  pi_bit : Z;
}.

Record ReadPlan : Type := mkReadPlan {
  rp_area_code : Z;
  rp_db : Z;
  rp_start_byte : Z;
  rp_data_len : Z;
  rp_items : list PlannedItem;
}.

Record WriteRequest : Type := mkWriteRequest {
  wq_id : Z;
  wq_address : str;
  wq_value : RawValue.t;
}.

Record WritePlan : Type := mkWritePlan {
  wp_area_code : Z;
  wp_db : Z;
  wp_ty : S7Type.t;
  wp_start_byte : Z;
  wp_bit : Z;
  wp_payload : list Z;
  wp_item_ids : list Z;
}.

(** [EncodedEntry]: start byte, bit, item and payload. *)
Record EncodedEntry : Type := mkEncodedEntry {
  ee_start : Z;
  ee_bit : Z;
  ee_id : Z;
  ee_payload : list Z;
}.

(** ** Group keys with their derived order *)
Definition lexi (a b : comparison) : comparison := match a with Eq => b | c => c end.

Definition read_key_cmp (a b : Z * Z * bool) : comparison :=
  let '(a1, a2, a3) := a in
  let '(b1, b2, b3) := b in
  lexi (a1 ?= b1) (lexi (a2 ?= b2) (Z.b2z a3 ?= Z.b2z b3)).

Definition write_key_cmp (a b : Z * Z * S7Type.t) : comparison :=
  let '(a1, a2, a3) := a in
  let '(b1, b2, b3) := b in
  lexi (a1 ?= b1) (lexi (a2 ?= b2) (S7Type.rank a3 ?= S7Type.rank b3)).

(** ** Read planning *)
Abbreviation Keyed := (Z * PlannedItem)%type.

Fixpoint group_reads (items : list DriverReadItem) (groups : list (Z * Z * bool * list Keyed)) :
    outcome S7Error.t (list (Z * Z * bool * list Keyed)) :=
  match items with
  | [] => Ok groups
  | item :: items' =>
      let? addr := map_err (λ _, S7Error.invalid_address) (parse (ri_address item)) in
      let key := (area_code_of (sa_area addr), sa_db addr, bool_decide (sa_ty addr = S7Type.Bit)) in
      let sort_key := sa_byte addr * 8 + sa_bit addr in
      group_reads items'
        (btree_push read_key_cmp key
           (sort_key, {| pi_item_id := ri_id item; pi_expected_type := ri_expected_type item;
                         pi_offset_in_data := 0; pi_ty := sa_ty addr; pi_bit := sa_bit addr |})
           groups)
  end.

Definition end_byte (e : Keyed) : Z := e.1 / 8 + S7Type.width_bytes (pi_ty e.2).

Definition data_end (chunk : list Keyed) : Z := foldr Z.max 0 (end_byte <$> chunk).

Definition flush_read (chunk : list Keyed) (area_code db : Z) : list ReadPlan :=
  match chunk with
  | [] => []
  | (first_key, _) :: _ =>
      let start_byte := first_key / 8 in
      [{| rp_area_code := area_code; rp_db := db; rp_start_byte := start_byte;
          rp_data_len := data_end chunk - start_byte;
          rp_items := (λ e, {| pi_item_id := pi_item_id e.2; pi_expected_type := pi_expected_type e.2;
                               pi_offset_in_data := (e.1 - first_key) / 8; pi_ty := pi_ty e.2;
                               pi_bit := pi_bit e.2 |}) <$> chunk |}]
  end.

(** The next entry does not fit in the chunk any more. *)
Definition read_overflows (negotiated_pdu : Z) (max_items : nat) (chunk : list Keyed) (entry : Keyed) : bool :=
  match chunk with
  | [] => false
  | (first_key, _) :: _ =>
      let span := end_byte entry - first_key / 8 in
      let count := S (length chunk) in
      (read_data_budget negotiated_pdu count <? span + 4 * Z.of_nat count) || (max_items <? count)%nat
  end.

Fixpoint chunk_reads (negotiated_pdu : Z) (max_items : nat) (area_code db : Z)
    (stream chunk : list Keyed) : list ReadPlan :=
  match stream with
  | [] => flush_read chunk area_code db
  | entry :: stream' =>
      if read_overflows negotiated_pdu max_items chunk entry
      then flush_read chunk area_code db ++ chunk_reads negotiated_pdu max_items area_code db stream' [entry]
      else chunk_reads negotiated_pdu max_items area_code db stream' (chunk ++ [entry])
  end.

Definition plan_read_group (negotiated_pdu : Z) (max_items : nat) (group : Z * Z * bool * list Keyed) :
    list ReadPlan :=
  let '(area_code, db, is_bit, entries) := group in
  let entries := sort_by_key fst entries in
  let streams := if is_bit then split_runs (λ p e, p.1 + 1 =? e.1) entries else [entries] in
  streams ≫= λ stream, chunk_reads negotiated_pdu max_items area_code db stream [].

Definition plan_read_batch (items : list DriverReadItem) (negotiated_pdu : Z) (max_items : nat) :
    outcome S7Error.t (list ReadPlan) :=
  let? groups := group_reads items [] in
  Ok (groups ≫= plan_read_group negotiated_pdu max_items).

(** [ReadPlan::any_item]; indexing the first item of an empty plan panics. *)
Definition read_any_item (p : ReadPlan) : outcome S7Error.t AnyItem :=
  match rp_items p with
  | [] => Panic
  | first :: _ =>
      Ok match pi_ty first with
         | S7Type.Bit =>
             {| ai_transport_size := TS_BIT; ai_length := 1; ai_area_code := rp_area_code p;
                ai_db := rp_db p; ai_byte_offset := rp_start_byte p; ai_bit := pi_bit first |}
         | ty =>
             {| ai_transport_size :=
                  match ty with S7Type.Byte => TS_BYTE | S7Type.Word => TS_WORD | _ => TS_DWORD end;
                ai_length := wrap16 (rp_data_len p / match ty with S7Type.Byte => 1 | S7Type.Word => 2 | _ => 4 end);
                ai_area_code := rp_area_code p; ai_db := rp_db p; ai_byte_offset := rp_start_byte p;
                ai_bit := 0 |}
         end
  end.

(** ** Write planning *)
Fixpoint group_writes (items : list WriteRequest) (groups : list (Z * Z * S7Type.t * list EncodedEntry))
    (failed : list (Z * S7Error.t)) :
    outcome S7Error.t (list (Z * Z * S7Type.t * list EncodedEntry) * list (Z * S7Error.t)) :=
  match items with
  | [] => Ok (groups, failed)
  | req :: items' =>
      let? addr := map_err (λ _, S7Error.invalid_address) (parse (wq_address req)) in
      if negb (writable addr)
      then group_writes items' groups (failed ++ [(wq_id req, S7Error.invalid_address)])
      else
        match encode_write (sa_ty addr) (wq_value req) with
        | Ok enc =>
            group_writes items'
              (btree_push write_key_cmp (area_code_of (sa_area addr), sa_db addr, sa_ty addr)
                 {| ee_start := sa_byte addr; ee_bit := sa_bit addr; ee_id := wq_id req;
                    ee_payload := ew_payload enc |} groups) failed
        | Err e => group_writes items' groups (failed ++ [(wq_id req, e)])
        | Panic => Panic
        end
  end.

Definition flush_write (chunk : list EncodedEntry) (area_code db : Z) (ty : S7Type.t) : list WritePlan :=
  match chunk with
  | [] => []
  | first :: _ =>
      [{| wp_area_code := area_code; wp_db := db; wp_ty := ty; wp_start_byte := ee_start first;
          wp_bit := 0; wp_payload := chunk ≫= ee_payload; wp_item_ids := ee_id <$> chunk |}]
  end.

Definition payload_bytes (chunk : list EncodedEntry) : Z := Z.of_nat (length (chunk ≫= ee_payload)).

Definition write_overflows (negotiated_pdu : Z) (max_items : nat) (current : list EncodedEntry)
    (piece : EncodedEntry) : bool :=
  let count := S (length current) in
  let bytes := payload_bytes current + Z.of_nat (length (ee_payload piece)) in
  match current with
  | [] => false
  | _ => (max_items <? count)%nat
         || (write_data_budget negotiated_pdu count <? bytes + 4 * Z.of_nat count)
  end.

Fixpoint chunk_writes (negotiated_pdu : Z) (max_items : nat) (area_code db : Z) (ty : S7Type.t)
    (run current : list EncodedEntry) : list WritePlan :=
  match run with
  | [] => flush_write current area_code db ty
  | piece :: run' =>
      if write_overflows negotiated_pdu max_items current piece
      then flush_write current area_code db ty
             ++ chunk_writes negotiated_pdu max_items area_code db ty run' [piece]
      else chunk_writes negotiated_pdu max_items area_code db ty run' (current ++ [piece])
  end.

Definition bit_plan (area_code db : Z) (e : EncodedEntry) : WritePlan :=
  {| wp_area_code := area_code; wp_db := db; wp_ty := S7Type.Bit; wp_start_byte := ee_start e;
     wp_bit := ee_bit e; wp_payload := ee_payload e; wp_item_ids := [ee_id e] |}.

Definition plan_write_group (negotiated_pdu : Z) (max_items : nat)
    (group : Z * Z * S7Type.t * list EncodedEntry) : list WritePlan :=
  let '(area_code, db, ty, entries) := group in
  let entries := sort_by_key ee_start entries in
  match ty with
  | S7Type.Bit => bit_plan area_code db <$> entries
  | _ =>
      split_runs (λ p e, ee_start p + Z.of_nat (length (ee_payload p)) =? ee_start e) entries ≫=
        λ run, chunk_writes negotiated_pdu max_items area_code db ty run []
  end.

Definition plan_write_batch (items : list WriteRequest) (negotiated_pdu : Z) (max_items : nat) :
    outcome S7Error.t (list WritePlan * list (Z * S7Error.t)) :=
  let? (groups, failed) := group_writes items [] [] in
  Ok (groups ≫= plan_write_group negotiated_pdu max_items, failed).

Definition write_any_item (p : WritePlan) : AnyItem :=
  let len := Z.of_nat (length (wp_payload p)) in
  {| ai_transport_size :=
       match wp_ty p with
       | S7Type.Bit => TS_BIT | S7Type.Byte => TS_BYTE | S7Type.Word => TS_WORD | S7Type.Dword => TS_DWORD
       end;
     ai_length :=
       match wp_ty p with
       | S7Type.Bit => 1 | S7Type.Byte => wrap16 len | S7Type.Word => wrap16 (len / 2)
       | S7Type.Dword => wrap16 (len / 4)
       end;
     ai_area_code := wp_area_code p; ai_db := wp_db p; ai_byte_offset := wp_start_byte p;
     ai_bit := wp_bit p |}.

(** * Laws of the S7 batch planner

    Every plan is one chunk of a sorted group; chunks respect the budget of the
    negotiated PDU and the plans cover the requested items. *)

#[local] Set Default Proof Using "Type".

(** ** The loops of the planners *)
Lemma chunk_reads_loop pdu max area db stream chunk :
  chunk_reads pdu max area db stream chunk =
  chunk_loop (read_overflows pdu max) stream chunk ≫= λ c, flush_read c area db.
Proof.
  revert chunk. induction stream as [|e stream IH]; intros chunk; cbn.
  - by destruct chunk as [|[]].
  - destruct (read_overflows pdu max chunk e); cbn; by rewrite IH.
Qed.

Lemma chunk_writes_loop pdu max area db ty run chunk :
  chunk_writes pdu max area db ty run chunk =
  chunk_loop (write_overflows pdu max) run chunk ≫= λ c, flush_write c area db ty.
Proof.
  revert chunk. induction run as [|e run IH]; intros chunk; cbn.
  - by destruct chunk as [|[]].
  - destruct (write_overflows pdu max chunk e); cbn; by rewrite IH.
Qed.

(** ** Grouping of reads *)
Definition read_key (a : S7Address) : Z * Z * bool :=
  (area_code_of (sa_area a), sa_db a, bool_decide (sa_ty a = S7Type.Bit)).

Definition keyed (item : DriverReadItem) (a : S7Address) : Keyed :=
  (sa_byte a * 8 + sa_bit a,
   {| pi_item_id := ri_id item; pi_expected_type := ri_expected_type item; pi_offset_in_data := 0;
      pi_ty := sa_ty a; pi_bit := sa_bit a |}).

(** An entry of the group of a key stands for a requested item. *)
Definition entry_of (items : list DriverReadItem) (key : Z * Z * bool) (e : Keyed) : Prop :=
  ∃ item a, item ∈ items ∧ parse (ri_address item) = Ok a ∧ key = read_key a ∧ e = keyed item a.

Lemma lexi_Eq a b : lexi a b = Eq → a = Eq ∧ b = Eq.
Proof. by destruct a. Qed.

Lemma read_key_cmp_eq a b : read_key_cmp a b = Eq → a = b.
Proof.
  destruct a as [[a1 a2] a3], b as [[b1 b2] b3]. unfold read_key_cmp.
  intros [?%Z.compare_eq [?%Z.compare_eq ?%Z.compare_eq]%lexi_Eq]%lexi_Eq. subst.
  destruct a3, b3; done.
Qed.

Lemma group_reads_spec all items groups groups' :
  group_reads items groups = Ok groups' → (∀ i, i ∈ items → i ∈ all) →
  btree_all (entry_of all) groups →
  btree_all (entry_of all) groups' ∧
  ∃ addrs, Forall2 (λ i a, parse (ri_address i) = Ok a) items addrs ∧
    btree_pairs groups' ≡ₚ btree_pairs groups ++ zip_with (λ i a, (read_key a, keyed i a)) items addrs.
Proof.
  revert groups. induction items as [|item items IH]; intros groups H Hin Hg.
  { injection H as <-. split; [done|]. exists []. split; [constructor|by rewrite app_nil_r]. }
  apply outcome_bind_Ok_inv in H as (a & Ha & H). destruct (parse (ri_address item)) eqn:Ep; try done.
  injection Ha as ->. apply IH in H as (Hall & addrs & Hf & Hp).
  - split; [done|]. exists (a :: addrs). split; [by constructor|].
    rewrite Hp, btree_push_pairs by (intros; by apply read_key_cmp_eq). cbn. by rewrite <- app_assoc.
  - intros i Hi. apply Hin. by right.
  - apply btree_push_all; [apply read_key_cmp_eq|done|].
    exists item, a. split_and!; [apply Hin; by left|done..].
Qed.

(** ** The chunks of a group *)
Definition group_chunks (pdu : Z) (max : nat) (is_bit : bool) (entries : list Keyed) : list (list Keyed) :=
  (if is_bit then split_runs (λ p e, p.1 + 1 =? e.1) (sort_by_key fst entries)
   else [sort_by_key fst entries]) ≫= λ stream, chunk_loop (read_overflows pdu max) stream [].

Lemma plan_read_group_chunks pdu max area db is_bit entries :
  plan_read_group pdu max (area, db, is_bit, entries) =
  group_chunks pdu max is_bit entries ≫= λ c, flush_read c area db.
Proof.
  unfold plan_read_group, group_chunks. rewrite list_bind_assoc.
  apply list_bind_ext; [|done]. intros stream. apply chunk_reads_loop.
Qed.

Lemma concat_bind_chunks pdu max (streams : list (list Keyed)) :
  concat (streams ≫= λ s, chunk_loop (read_overflows pdu max) s []) = concat streams.
Proof.
  induction streams as [|s streams IH]; [done|]. cbn. rewrite concat_app, IH. f_equal.
  by apply (chunk_loop_ok (read_overflows pdu max) s []); [|left].
Qed.

Lemma group_chunks_concat pdu max is_bit entries :
  concat (group_chunks pdu max is_bit entries) = sort_by_key fst entries.
Proof.
  unfold group_chunks. rewrite concat_bind_chunks. destruct is_bit; [apply split_runs_ok|].
  cbn. by rewrite app_nil_r.
Qed.

Lemma group_chunks_ok pdu max is_bit entries :
  Forall (chunk_ok (read_overflows pdu max)) (group_chunks pdu max is_bit entries).
Proof.
  unfold group_chunks. apply Forall_forall. intros c (stream & Hc & _)%list_elem_of_bind.
  pose proof (chunk_loop_ok (read_overflows pdu max) stream []) as [Hf _]; [done|by left|].
  rewrite Forall_forall in Hf. by apply Hf.
Qed.

(** What is known of a chunk: it is ordered by address, its entries stand for
    requested items, and none overflowed. *)
Record read_chunk (all : list DriverReadItem) (pdu : Z) (max : nat) (key : Z * Z * bool) (c : list Keyed) : Prop := {
  rc_ok : chunk_ok (read_overflows pdu max) c;
  rc_sorted : StronglySorted (key_le fst) c;
  rc_entries : Forall (entry_of all key) c;
  rc_chain : key.2 = true → chain (λ p e : Keyed, p.1 + 1 =? e.1) c;
}.

Lemma group_chunks_read_chunk all pdu max area db is_bit entries c :
  Forall (entry_of all (area, db, is_bit)) entries → c ∈ group_chunks pdu max is_bit entries →
  read_chunk all pdu max (area, db, is_bit) c.
Proof.
  intros He Hc. pose proof (group_chunks_ok pdu max is_bit entries) as Hok. rewrite Forall_forall in Hok.
  split; [by apply Hok| | |].
  - eapply sorted_concat; [|exact Hc]. rewrite group_chunks_concat. apply sort_by_key_sorted.
  - apply Forall_forall. intros e Hin. rewrite Forall_forall in He. apply He.
    rewrite <- (sort_by_key_perm fst entries), <- (group_chunks_concat pdu max is_bit).
    apply elem_of_concat. eauto.
  - cbn. intros ->. unfold group_chunks in Hc. apply list_elem_of_bind in Hc as (stream & Hc & Hst).
    pose proof (chunk_loop_ok (read_overflows pdu max) stream []) as [_ Hcat]; [done|by left|].
    eapply chain_concat; [|exact Hc]. rewrite Hcat. cbn.
    destruct (split_runs_ok (λ p e : Keyed, p.1 + 1 =? e.1) (sort_by_key fst entries)) as [Hr _].
    rewrite Forall_forall in Hr. by apply Hr.
Qed.

Lemma plan_read_batch_chunks items pdu max plans :
  plan_read_batch items pdu max = Ok plans →
  ∃ groups, plans = (groups ≫= λ '(area, db, is_bit, entries),
                       group_chunks pdu max is_bit entries ≫= λ c, flush_read c area db) ∧
    btree_all (entry_of items) groups ∧
    ∃ addrs, Forall2 (λ i a, parse (ri_address i) = Ok a) items addrs ∧
      btree_pairs groups ≡ₚ zip_with (λ i a, (read_key a, keyed i a)) items addrs.
Proof.
  intros (groups & Hg & [= <-])%outcome_bind_Ok_inv.
  apply (group_reads_spec items) in Hg as (Hall & addrs & Hf & Hp); [|done|constructor].
  exists groups. split_and!; [|done|by exists addrs].
  apply list_bind_ext; [|done]. intros [[[area db] is_bit] entries]. apply plan_read_group_chunks.
Qed.

(** Every plan is the flush of a chunk. *)
Lemma plan_read_chunk items pdu max plans p :
  plan_read_batch items pdu max = Ok plans → p ∈ plans →
  ∃ area db is_bit c, read_chunk items pdu max (area, db, is_bit) c ∧ flush_read c area db = [p].
Proof.
  intros (groups & -> & Hall & _)%plan_read_batch_chunks Hp.
  apply list_elem_of_bind in Hp as ([[[area db] is_bit] entries] & Hp & Hg).
  apply list_elem_of_bind in Hp as (c & Hp & Hc).
  unfold btree_all in Hall. rewrite Forall_forall in Hall. specialize (Hall _ Hg). cbn in Hall.
  exists area, db, is_bit, c. split; [by eapply group_chunks_read_chunk|].
  destruct c as [|[k e] c]; [by apply not_elem_of_nil in Hp|].
  apply list_elem_of_singleton in Hp as ->. done.
Qed.

(** ** What a plan asks for *)
Lemma keyed_byte a item : addr_wf a → (keyed item a).1 / 8 = sa_byte a.
Proof. intros [_ ? ? _]. cbn. dlia. Qed.

Lemma keyed_end a item : addr_wf a → end_byte (keyed item a) = sa_byte a + width_bytes a.
Proof. intros Ha. unfold end_byte. by rewrite keyed_byte. Qed.

Lemma data_end_ge chunk e : e ∈ chunk → end_byte e ≤ data_end chunk.
Proof. unfold data_end. induction 1 as [|e f chunk _ IH]; cbn; lia. Qed.

Lemma data_end_attained chunk : chunk ≠ [] → Forall (λ e, 0 ≤ end_byte e) chunk →
  ∃ e, e ∈ chunk ∧ data_end chunk = end_byte e.
Proof.
  intros Hne Hpos. induction chunk as [|e chunk IH]; [done|]. apply Forall_cons in Hpos as [He Hpos].
  destruct chunk as [|f chunk]; [exists e; cbn; split; [by left|lia]|].
  destruct IH as (x & Hx & Hd); [done..|]. unfold data_end in *. cbn [fmap list_fmap foldr] in *. rewrite Hd.
  destruct (Z.max_spec (end_byte e) (end_byte x)) as [[? ->]|[? ->]]; [exists x|exists e];
    (split; [by (right + left)|done]).
Qed.

Lemma sorted_head_le (c : list Keyed) first e :
  StronglySorted (key_le fst) (first :: c) → e ∈ first :: c → first.1 ≤ e.1.
Proof.
  intros [_ Hf]%StronglySorted_inv [->|He]%elem_of_cons; [lia|].
  rewrite Forall_forall in Hf. by apply Hf.
Qed.

(** The item a planned item of a chunk stands for, and where the plan puts it. *)
Record located (items : list DriverReadItem) (p : ReadPlan) (i : PlannedItem) (item : DriverReadItem)
    (a : S7Address) : Prop := {
  lo_item : item ∈ items;
  lo_parse : parse (ri_address item) = Ok a;
  lo_id : pi_item_id i = ri_id item;
  lo_type : pi_expected_type i = ri_expected_type item;
  lo_ty : pi_ty i = sa_ty a;
  lo_bit : pi_bit i = sa_bit a;
  lo_area : rp_area_code p = Area.code (sa_area a);
  lo_db : rp_db p = sa_db a;
  lo_place : sa_ty a ≠ S7Type.Bit →
    rp_start_byte p + pi_offset_in_data i = sa_byte a ∧ 0 ≤ pi_offset_in_data i ∧
    pi_offset_in_data i + width_bytes a ≤ rp_data_len p;
}.

Lemma chunk_located items pdu max area db is_bit c p i :
  read_chunk items pdu max (area, db, is_bit) c → flush_read c area db = [p] → i ∈ rp_items p →
  ∃ item a, located items p i item a.
Proof.
  intros [[Hne _] Hs He _] Hp Hi. destruct c as [|[fk fi] c]; [done|]. injection Hp as <-. cbn in Hi.
  rewrite Forall_forall in He.
  assert (∃ e, e ∈ (fk, fi) :: c ∧ i = {| pi_item_id := pi_item_id e.2; pi_expected_type := pi_expected_type e.2;
    pi_offset_in_data := (e.1 - fk) / 8; pi_ty := pi_ty e.2; pi_bit := pi_bit e.2 |}) as (e & Hin & ->).
  { change (i ∈ (λ e : Keyed, {| pi_item_id := pi_item_id e.2; pi_expected_type := pi_expected_type e.2;
      pi_offset_in_data := (e.1 - fk) / 8; pi_ty := pi_ty e.2; pi_bit := pi_bit e.2 |}) <$> (fk, fi) :: c) in Hi.
    apply list_elem_of_fmap in Hi as (e & -> & Hin). by exists e. }
  destruct (He e Hin) as (item & a & Hitem & Ha & Hkey & ->).
  destruct (He (fk, fi) ltac:(by left)) as (fitem & fa & _ & Hfa & Hfkey & Hfe).
  pose proof (sorted_head_le _ _ _ Hs Hin) as Hle. pose proof (data_end_ge _ _ Hin) as Hend.
  revert Hend. generalize (data_end ((fk, fi) :: c)) as D. intros D Hend.
  apply parse_wf in Ha as Hwf. apply parse_wf in Hfa as Hfwf.
  rewrite keyed_end in Hend by done. injection Hkey as -> -> Hbit. injection Hfe as -> ->.
  exists item, a. split; cbn; try done. intros Hty. cbn in Hle.
  assert (sa_ty fa ≠ S7Type.Bit) as Hfty.
  { injection Hfkey as _ _ Hfb. intros Hb. rewrite Hbit in Hfb. rewrite (bool_decide_eq_true_2 _ Hb) in Hfb.
    by rewrite bool_decide_eq_false_2 in Hfb. }
  rewrite (aw_width _ Hwf Hty), (aw_width _ Hfwf Hfty) in *. destruct Hwf, Hfwf. dlia.
Qed.

Lemma flush_read_ids c area db : (pi_item_id <$> (flush_read c area db ≫= rp_items)) = pi_item_id ∘ snd <$> c.
Proof.
  destruct c as [|[k e] c]; [done|]. cbn. rewrite app_nil_r. f_equal.
  rewrite <- list_fmap_compose. done.
Qed.

Lemma chunks_ids (chunks : list (list Keyed)) area db :
  (pi_item_id <$> ((chunks ≫= λ c, flush_read c area db) ≫= rp_items)) = pi_item_id ∘ snd <$> concat chunks.
Proof.
  induction chunks as [|c chunks IH]; [done|]. cbn. by rewrite bind_app, !fmap_app, IH, flush_read_ids.
Qed.

(** No S7 item is lost or misplaced.  The plans of a batch carry exactly the
    requested items, each once; each plan asks for the area and the data block
    of its items, and the data of an item that is not a bit lies, at its
    address, inside the range of the plan. *)
Theorem s7_read_plans_complete items pdu max plans :
  plan_read_batch items pdu max = Ok plans →
  (pi_item_id <$> (plans ≫= rp_items)) ≡ₚ (ri_id <$> items) ∧
  ∀ p i, p ∈ plans → i ∈ rp_items p → ∃ item a, located items p i item a.
Proof.
  intros H. split.
  - apply plan_read_batch_chunks in H as (groups & -> & _ & addrs & Hf & Hp).
    transitivity (pi_item_id ∘ snd <$> btree_values groups).
    + clear. unfold btree_values. induction groups as [|[[[area db] is_bit] entries] groups IH]; [done|].
      cbn. rewrite bind_app, !fmap_app, IH, chunks_ids, group_chunks_concat.
      by rewrite sort_by_key_perm.
    + rewrite <- btree_pairs_values, Hp. clear Hp. induction Hf as [|i a items addrs _ _ IH]; [done|]. cbn. by rewrite IH.
  - intros p i Hp Hi. destruct (plan_read_chunk _ _ _ _ _ H Hp) as (area & db & is_bit & c & Hc & Hfl).
    by eapply chunk_located.
Qed.

Lemma width_range ty : 1 ≤ S7Type.width_bytes ty ≤ 4.
Proof. destruct ty; cbn; lia. Qed.

(** An entry that did not overflow is within the budget of what precedes it. *)
Lemma read_overflows_false pdu max first chunk k e :
  (max ≤ 20)%nat → read_overflows pdu max (take (S k) (first :: chunk)) e = false →
  (k < length (first :: chunk))%nat → 1 ≤ end_byte e - first.1 / 8 →
  (S (S k) ≤ max)%nat ∧ end_byte e - first.1 / 8 ≤ pdu - 30 - 8 * Z.of_nat (S (S k)).
Proof.
  intros Hmax Ho Hk Hpos. cbn [take read_overflows] in Ho. destruct first as [fk fi].
  apply orb_false_iff in Ho as [Hb Hm]. cbn [length] in Hb, Hm. rewrite length_take in Hb, Hm.
  cbn [length] in Hk. replace (k `min` length chunk)%nat with k in Hb, Hm by lia.
  unfold read_data_budget, JOB_HEADER_LEN in Hb. cbn [fst] in *.
  rewrite wrap_small in Hb by (unfold in_u; lia). lia.
Qed.

Lemma read_chunk_end items pdu max key first c :
  read_chunk items pdu max key (first :: c) → (1 ≤ max ≤ 20)%nat →
  (length (first :: c) ≤ max)%nat ∧ 1 ≤ data_end (first :: c) - first.1 / 8 ≤ Z.max 4 (pdu - 46).
Proof.
  intros [[_ Hok] Hs He _] Hmax. rewrite Forall_forall in He.
  assert (∀ e, e ∈ first :: c → 0 ≤ end_byte e ∧ first.1 / 8 < end_byte e ∧
    end_byte e ≤ e.1 / 8 + 4) as Hend.
  { intros e Hin. destruct (He e Hin) as (item & a & _ & Ha%parse_wf & _ & ->).
    pose proof (sorted_head_le _ _ _ Hs Hin). unfold end_byte. pose proof (width_range (sa_ty a)).
    destruct Ha. cbn in *. dlia. }
  assert (∀ k e, (first :: c) !! S k = Some e →
    (S (S k) ≤ max)%nat ∧ end_byte e - first.1 / 8 ≤ pdu - 30 - 8 * Z.of_nat (S (S k))) as Hfit.
  { intros k e Hk. eapply read_overflows_false; [lia|by apply Hok|apply lookup_lt_Some in Hk; lia|].
    destruct (Hend e) as (_ & ? & _); [by eapply list_elem_of_lookup_2|]. lia. }
  split.
  - destruct c as [|e c] using rev_ind; [cbn; lia|]. clear IHc.
    destruct (Hfit (length c) e) as [? _]; [by apply (list_lookup_middle (first :: c) [] e)|].
    cbn. rewrite length_app. cbn. lia.
  - destruct (data_end_attained (first :: c)) as (e & Hin & ->); [done| |].
    { apply Forall_forall. intros e Hin. by apply Hend. }
    destruct (Hend e Hin) as (_ & ? & ?). split; [lia|].
    apply list_elem_of_lookup_1 in Hin as [[|k] Hk].
    + injection Hk as ->. lia.
    + destruct (Hfit k e Hk). lia.
Qed.

Lemma plan_read_bounds items pdu max plans p :
  plan_read_batch items pdu max = Ok plans → p ∈ plans → 64 ≤ pdu < 2 ^ 16 → (1 ≤ max ≤ 20)%nat →
  (1 ≤ length (rp_items p) ≤ max)%nat ∧ 0 ≤ rp_start_byte p ≤ MAX_BYTE_OFFSET ∧
  1 ≤ rp_data_len p < 2 ^ 16 ∧
  ACK_HEADER_LEN + 4 + 4 + rp_data_len p + 1 ≤ pdu.
Proof.
  intros H Hp Hpdu Hmax. destruct (plan_read_chunk _ _ _ _ _ H Hp) as (area & db & is_bit & c & Hc & Hfl).
  destruct c as [|[fk fi] c]; [done|]. destruct (read_chunk_end _ _ _ _ _ _ Hc Hmax) as [Hlen Hdata].
  pose proof (rc_entries _ _ _ _ _ Hc) as He. apply Forall_cons in He as [(item & a & _ & Ha%parse_wf & _ & Hk) _].
  injection Hk as -> ->. injection Hfl as <-. cbn [rp_items rp_start_byte rp_data_len].
  cbn [length fmap list_fmap]. rewrite ?length_fmap. cbn [fst] in Hdata. unfold ACK_HEADER_LEN.
  pose proof (keyed_byte a item Ha) as Hb. cbn [fst keyed] in Hb. rewrite Hb in *. destruct Ha.
  cbn [length] in *. lia.
Qed.

(** No S7 request can be answered only by breaking the negotiated limit.
    Every plan holds between one item and the configured number; the Any
    pointer of its range is representable, and the response that carries the
    whole range, with the header, the parameters, the item header and a padding
    byte, fits the PDU size negotiated with the device. *)
Theorem s7_read_plans_fit items pdu max plans p :
  plan_read_batch items pdu max = Ok plans → p ∈ plans → 64 ≤ pdu < 2 ^ 16 → (1 ≤ max ≤ 20)%nat →
  (1 ≤ length (rp_items p) ≤ max)%nat ∧ 0 ≤ rp_start_byte p ≤ MAX_BYTE_OFFSET ∧
  1 ≤ rp_data_len p < 2 ^ 16 ∧
  ACK_HEADER_LEN + 4 + 4 + rp_data_len p + 1 ≤ pdu.
Proof. apply plan_read_bounds. Qed.
