(* ===== verification/S7Driver.v ===== *)
(** * The S7 session: drivers/s7comm/src/session.rs

    The three-step handshake (TCP, COTP, Setup) and the exchange of a request
    for its acknowledgement, over the interfaces of DriverAbi.  The option
    [TCP_NODELAY] has no effect in the model. *)

From S2P Require Import Prelude RustStd ObservationModel DriverAbi S7Address S7Codec AbiTag.
From S2P Require Import S7Batch.
From stdpp Require Import options.

#[local] Set Default Proof Using "Type".

Definition MIN_USABLE_PDU : Z := 64.

Record TcpSession (H : Type) : Type := mkTcpSession {
  ts_host : str;
  ts_port : Z;
  ts_rack : Z;
  ts_slot : Z;
  ts_timeout : Z;
  ts_stream : option H;
  ts_pdu_ref : Z;
  ts_negotiated_pdu : Z;
}.
Arguments mkTcpSession {H}.
Arguments ts_host {H}.
Arguments ts_port {H}.
Arguments ts_rack {H}.
Arguments ts_slot {H}.
Arguments ts_timeout {H}.
Arguments ts_stream {H}.
Arguments ts_pdu_ref {H}.
Arguments ts_negotiated_pdu {H}.

Definition map_io_error (e : IoKind.t) : S7Error.t :=
  match e with
  | IoKind.TimedOut | IoKind.WouldBlock => S7Error.timeout
  | IoKind.Other => S7Error.connection_lost
  end.

Record AckOwned : Type := mkAckOwned {
  ao_param : list Z;
  ao_data : list Z;
}.

Section session.
Context {W H Addr : Type} `{!ByteStream W H} `{!TcpNet W H Addr}.
Abbreviation M := (stm (TcpSession H * W) S7Error.t).

Definition session_new (config : S7Config) : TcpSession H :=
  {| ts_host := s7_host config; ts_port := s7_port config; ts_rack := s7_rack config;
     ts_slot := s7_slot config; ts_timeout := s7_timeout_ms config; ts_stream := None;
     ts_pdu_ref := 0; ts_negotiated_pdu := PROPOSED_PDU_SIZE |}.

Definition is_connected (t : TcpSession H) : bool :=
  match ts_stream t with Some _ => true | None => false end.

Definition set_stream (o : option H) (t : TcpSession H) : TcpSession H :=
  {| ts_host := ts_host t; ts_port := ts_port t; ts_rack := ts_rack t; ts_slot := ts_slot t;
     ts_timeout := ts_timeout t; ts_stream := o; ts_pdu_ref := ts_pdu_ref t;
     ts_negotiated_pdu := ts_negotiated_pdu t |}.

(** Overwriting the stream drops it, which closes it. *)
Definition session_disconnect (s : TcpSession H * W) : TcpSession H * W :=
  (set_stream None s.1, match ts_stream s.1 with Some h => close h s.2 | None => s.2 end).

(** The stream, an operation on it, and the loss of the session when it fails. *)
Definition on_stream {A} (op : H → W → W * io_result A) : M A := λ s,
  match ts_stream s.1 with
  | None => (s, Err S7Error.connection_lost)
  | Some h =>
      match op h s.2 with
      | (w, inr a) => ((s.1, w), Ok a)
      | (w, inl e) => (session_disconnect (s.1, w), Err (map_io_error e))
      end
  end.

Definition fail_disconnect {A} (e : S7Error.t) : M A := λ s, (session_disconnect s, Err e).

Definition tpkt (tpdu : list Z) : list Z :=
  [TPKT_VERSION; 0] ++ to_be_bytes 2 (Z.of_nat (length tpdu) + 4) ++ tpdu.

Definition send_frame (tpdu : list Z) : M () := λ s,
  match ts_stream s.1 with
  | None => (s, Err S7Error.connection_lost)
  | Some _ =>
      if MAX_TPKT_LEN <? Z.of_nat (length tpdu) + 4 then (s, Err S7Error.invalid_response)
      else on_stream (λ h, write_all h (tpkt tpdu)) s
  end.

Definition read_frame : M (list Z) :=
  let! header := on_stream (λ h, read_exact h 4) in
  if negb (header !!! 0%nat =? TPKT_VERSION) || negb (header !!! 1%nat =? 0)
  then fail_disconnect S7Error.invalid_response
  else
    let declared := Z.max (from_be_bytes (slice 2 4 header)) (Z.of_nat TPKT_HEADER_LEN) in
    let! rest := on_stream (λ h, read_exact h (Z.to_nat declared - TPKT_HEADER_LEN)) in
    sret (header ++ rest).

Definition next_ref : M Z := λ s,
  let r := wrap16 (ts_pdu_ref s.1 + 1) in
  (({| ts_host := ts_host s.1; ts_port := ts_port s.1; ts_rack := ts_rack s.1; ts_slot := ts_slot s.1;
       ts_timeout := ts_timeout s.1; ts_stream := ts_stream s.1; ts_pdu_ref := r;
       ts_negotiated_pdu := ts_negotiated_pdu s.1 |}, s.2), Ok r).

(** The acknowledgement of the request with the expected reference. *)
Definition match_ack (expected_ref : Z) (s7 : list Z) : outcome S7Error.t AckOwned :=
  let? ack := parse_ack s7 in
  if negb (ap_pdu_ref ack =? expected_ref) then Err S7Error.invalid_response
  else Ok {| ao_param := ap_param ack; ao_data := ap_data ack |}.

Definition exchange (expected_ref : Z) (job_pdu : list Z) : M AckOwned :=
  let! _ := send_frame (data_tpdu job_pdu) in
  let! frame := read_frame in
  let! f := slift (parse_frame frame) in
  match f with
  | CotpFrame.ConnectionConfirm => fail_disconnect S7Error.invalid_response
  | CotpFrame.Data s7 =>
      match match_ack expected_ref s7 with
      | Err e => if S7Error.is_transport_level e then fail_disconnect e else sfail e
      | o => slift o
      end
  end.

Definition set_negotiated (pdu : Z) (t : TcpSession H) : TcpSession H :=
  {| ts_host := ts_host t; ts_port := ts_port t; ts_rack := ts_rack t; ts_slot := ts_slot t;
     ts_timeout := ts_timeout t; ts_stream := ts_stream t; ts_pdu_ref := ts_pdu_ref t;
     ts_negotiated_pdu := pdu |}.

Definition handshake : M () :=
  let! (t, _) := sget in
  let! _ := send_frame (connection_request [0x01; 0x00] (remote_tsap (ts_rack t) (ts_slot t))) in
  let! frame := read_frame in
  let! f := slift (parse_frame frame) in
  match f with
  | CotpFrame.Data _ => sfail S7Error.invalid_response
  | CotpFrame.ConnectionConfirm =>
      let! setup_ref := next_ref in
      let! ack := exchange setup_ref (build_setup setup_ref PROPOSED_PDU_SIZE) in
      let! offered := slift (parse_setup_ack (ao_param ack)) in
      if offered <? MIN_USABLE_PDU then sfail S7Error.connection_failed
      else smodify (λ '(t, w), (set_negotiated (Z.min PROPOSED_PDU_SIZE offered) t, w))
  end.

(** The first address that accepts; the results of the options are ignored. *)
Fixpoint connect_targets (timeout : Z) (targets : list Addr) (w : W) : W * option H :=
  match targets with
  | [] => (w, None)
  | target :: targets' =>
      match connect_timeout target timeout w with
      | (w, inr stream) =>
          let '(w, _) := set_read_timeout stream timeout w in
          let '(w, _) := set_write_timeout stream timeout w in
          (w, Some stream)
      | (w, inl _) => connect_targets timeout targets' w
      end
  end.

Definition tcp_connect : M H := λ '(t, w),
  match to_socket_addrs (ts_host t) (ts_port t) w with
  | (w, inl _) => ((t, w), Err S7Error.connection_failed)
  | (w, inr targets) =>
      let '(w, o) := connect_targets (ts_timeout t) targets w in
      ((t, w), ok_or o S7Error.connection_failed)
  end.

Definition session_connect : M () :=
  let! stream := tcp_connect in
  let! _ := smodify (λ s, (set_stream (Some stream) s.1, (session_disconnect s).2)) in
  λ s, match handshake s with
       | (s', Err e) => (session_disconnect s', Err e)
       | r => r
       end.
End session.

(** ** What a session promises *)
Section laws.
Context {W H Addr : Type} `{!ByteStream W H} `{!TcpNet W H Addr} `{!ByteStreamLaws W H}.
Abbreviation M := (stm (TcpSession H * W) S7Error.t).

(** The errors of an exchange: the session is out of order, or the device
    refused the request. *)
Definition exchange_error (e : S7Error.t) : Prop :=
  S7Error.is_transport_level e = true ∨ ∃ c d, e = S7Error.s7_error_response c d.

Lemma disconnected s : is_connected (session_disconnect s).1 = false.
Proof. done. Qed.

Lemma on_stream_safe {A} (op : H → W → W * io_result A) s :
  safe (λ e, S7Error.is_transport_level e = true) (on_stream op) s.
Proof.
  unfold safe, on_stream. destruct (ts_stream s.1) as [h|]; [|done].
  destruct (op h s.2) as [w [[]|a]]; done.
Qed.

Lemma parse_frame_safe frame :
  match parse_frame frame with Ok _ => True | Err e => e = S7Error.invalid_response | Panic => False end.
Proof. unfold parse_frame. cbn zeta. repeat case_if; done. Qed.

Lemma parse_ack_safe pdu :
  match parse_ack pdu with Ok _ => True | Err e => exchange_error e | Panic => False end.
Proof. unfold parse_ack. cbn zeta. repeat case_if; try done; try (by left). right. eauto. Qed.

Lemma match_ack_safe r pdu :
  match match_ack r pdu with Ok _ => True | Err e => exchange_error e | Panic => False end.
Proof.
  unfold match_ack. pose proof (parse_ack_safe pdu). destruct (parse_ack pdu) as [a|e|]; cbn; [|done..].
  case_if; [by left|done].
Qed.

Lemma read_frame_safe s : safe (λ e, S7Error.is_transport_level e = true) read_frame s.
Proof.
  apply safe_bind; [apply on_stream_safe|]. intros s1 header _. case_if; [done|].
  apply safe_bind; [apply on_stream_safe|done].
Qed.

Lemma send_frame_safe tpdu s : safe (λ e, S7Error.is_transport_level e = true) (send_frame tpdu) s.
Proof.
  unfold send_frame, safe. destruct (ts_stream s.1); [|done]. case_if; [done|].
  apply (on_stream_safe (λ h, write_all h (tpkt tpdu)) s).
Qed.

Lemma safe_weaken {S E A} (G G' : E → Prop) (m : stm S E A) s :
  (∀ e, G e → G' e) → safe G m s → safe G' m s.
Proof. unfold safe. destruct (m s) as [? []]; naive_solver. Qed.

Lemma exchange_safe r job s : safe exchange_error (exchange r job) s.
Proof.
  apply safe_bind; [eapply safe_weaken; [|apply send_frame_safe]; by left|]. intros s1 [] _.
  apply safe_bind; [eapply safe_weaken; [|apply read_frame_safe]; by left|]. intros s2 frame _.
  pose proof (parse_frame_safe frame) as Hf. apply safe_bind.
  - unfold safe, slift. cbn. destruct (parse_frame frame); [done|subst; by left|done].
  - intros s3 f _. destruct f as [|s7]; [by left|].
    pose proof (match_ack_safe r s7) as Hm. unfold safe.
    destruct (match_ack r s7) as [a|e|]; [done| |done]. by destruct (S7Error.is_transport_level e).
Qed.
End laws.

(** * The S7 driver: drivers/s7comm/src/lib.rs

    The driver handle, connection attempts, the execution of read and write
    plans and the assembly of their results; the entry points are those of
    DriverAbi. *)

Record ItemResponse : Type := mkItemResponse {
  ir_return_code : Z;
  ir_payload : list Z;
}.

Record S7commDriver (H : Type) : Type := mkS7commDriver {
  sd_config : S7Config;
  sd_session : option (TcpSession H);
  sd_last_error : option DriverErrorInfo;
}.
Arguments mkS7commDriver {H}.
Arguments sd_config {H}.
Arguments sd_session {H}.
Arguments sd_last_error {H}.

(** ** Item results *)
Definition item_return_error (return_code : Z) : S7Error.t :=
  if return_code =? 0x07 then S7Error.access_denied return_code else S7Error.s7_item_error return_code.

Definition error_result_with_ts (item_id : Z) (error : S7Error.t) (now : Z) : RawReadResult :=
  {| rr_item_id := item_id; rr_value := None; rr_source_timestamp_ns := None;
     rr_received_timestamp_ns := now; rr_protocol_quality_code := S7Error.protocol_code error;
     rr_error := Some (S7Error.into_info error) |}.

Definition write_error_result (item_id : Z) (error : S7Error.t) : RawWriteResult :=
  {| wr_item_id := item_id; wr_success := false; wr_protocol_code := S7Error.protocol_code error;
     wr_error := Some (S7Error.into_info error) |}.

Definition write_ok_result (item_id : Z) : RawWriteResult :=
  {| wr_item_id := item_id; wr_success := true; wr_protocol_code := Some 0; wr_error := None |}.

(** The value or error of an item in a response. *)
Definition item_value (planned : PlannedItem) (response : ItemResponse) : outcome S7Error.t RawValue.t :=
  if negb (ir_return_code response =? RC_SUCCESS) then Err (item_return_error (ir_return_code response))
  else
    match get_slice (pi_offset_in_data planned) (S7Type.width_bytes (pi_ty planned)) (ir_payload response) with
    | None => Err S7Error.invalid_response
    | Some slice =>
        match decode_read (pi_ty planned) (pi_expected_type planned) slice with
        | Ok out => Ok (RawValueOut.to_raw out)
        | Err _ => Err S7Error.decode_error
        | Panic => Panic
        end
    end.

Definition assemble_item (planned : PlannedItem) (response : ItemResponse) (now : Z) :
    outcome S7Error.t RawReadResult :=
  match item_value planned response with
  | Ok v =>
      Ok {| rr_item_id := pi_item_id planned; rr_value := Some v; rr_source_timestamp_ns := None;
            rr_received_timestamp_ns := now; rr_protocol_quality_code := Some 0; rr_error := None |}
  | Err e => Ok (error_result_with_ts (pi_item_id planned) e now)
  | Panic => Panic
  end.

Section driver.
Context {W H Addr : Type} `{!Os W} `{!ByteStream W H} `{!TcpNet W H Addr}.
Abbreviation M := (stm (S7commDriver H * W) S7Error.t).

Definition set_session (t : TcpSession H) (d : S7commDriver H) : S7commDriver H :=
  {| sd_config := sd_config d; sd_session := Some t; sd_last_error := sd_last_error d |}.

(** [self.session.as_mut().expect(..)] followed by a method call. *)
Definition with_session {A} (m : stm (TcpSession H * W) S7Error.t A) : M A := λ '(d, w),
  match sd_session d with
  | None => ((d, w), Panic)
  | Some t => let '((t', w'), r) := m (t, w) in ((set_session t' d, w'), r)
  end.

Definition create (from_str : str → option S7Config) (config_json : str) :
    outcome S7Error.t (S7commDriver H) :=
  let? config := parse_config from_str config_json in
  Ok {| sd_config := config; sd_session := Some (session_new config); sd_last_error := None |}.

Fixpoint connect_attempts (delay : Z) (remaining : nat) (last_error : option S7Error.t) :
    stm (TcpSession H * W) S7Error.t () :=
  match remaining with
  | O => slift (match last_error with Some e => Err e | None => Panic end)
  | S remaining' => λ s,
      match session_connect s with
      | (s', Ok _) => (s', Ok ())
      | (s', Panic) => (s', Panic)
      | ((t', w'), Err e) =>
          connect_attempts delay remaining' (Some e)
            (t', if (0 <? remaining')%nat then sleep delay w' else w')
      end
  end.

Definition attempts_of (config : S7Config) : nat :=
  if s7_reconnect config then Z.to_nat (Z.max (s7_reconnect_max_attempts config) 1) else 1.

Definition connect : M () :=
  let! (d, _) := sget in
  with_session (λ s,
    if is_connected s.1 then (s, Ok ())
    else connect_attempts (s7_reconnect_delay_ms (sd_config d)) (attempts_of (sd_config d)) None s).

Definition ensure_connected : M Z :=
  let! connected := with_session (λ s, (s, Ok (is_connected s.1))) in
  let! _ := if connected then sret () else connect in
  with_session (λ s, (s, Ok (ts_negotiated_pdu s.1))).

Definition disconnect (s : S7commDriver H * W) : S7commDriver H * W :=
  match sd_session s.1 with
  | None => s
  | Some t => let '(t', w') := session_disconnect (t, s.2) in (set_session t' s.1, w')
  end.

Definition execute_read_plan (plan : ReadPlan) : M ItemResponse :=
  with_session (
    let! r := next_ref in
    let! item := slift (read_any_item plan) in
    let! ack := exchange r (build_read r [item]) in
    let! parsed := slift (parse_read_response (ao_param ack) (ao_data ack) 1) in
    slift match parsed with
          | [] => Panic
          | first :: _ => Ok {| ir_return_code := rir_return_code first; ir_payload := rir_payload first |}
          end).

Definition tick : M Z := λ '(d, w), let '(w', now) := now_ns w in ((d, w'), Ok now).

Fixpoint assemble_items (response : ItemResponse) (items : list PlannedItem) : M (list RawReadResult) :=
  match items with
  | [] => sret []
  | planned :: items' =>
      let! now := tick in
      let! r := slift (assemble_item planned response now) in
      let! rs := assemble_items response items' in
      sret (r :: rs)
  end.

Fixpoint read_plans (plans : list ReadPlan) (results : list RawReadResult) : M (list RawReadResult) :=
  match plans with
  | [] => sret results
  | plan :: plans' =>
      let! response := execute_read_plan plan in
      let! rs := assemble_items response (rp_items plan) in
      read_plans plans' (results ++ rs)
  end.

Definition read_batch (items : list DriverReadItem) : M (list RawReadResult) :=
  let! negotiated := ensure_connected in
  let! (d, _) := sget in
  let! plans := slift (plan_read_batch items negotiated (s7_max_items_per_pdu (sd_config d))) in
  let! results := read_plans plans [] in
  sret (sort_by_key rr_item_id results).

Definition execute_write_plan (plan : WritePlan) : M Z :=
  with_session (
    let! r := next_ref in
    let! ack := exchange r (build_write r [(write_any_item plan, wp_payload plan)]) in
    let! codes := slift (parse_write_response (ao_param ack) (ao_data ack) 1) in
    slift match codes with [] => Panic | code :: _ => Ok code end).

Fixpoint write_plans (plans : list WritePlan) (results : list RawWriteResult) : M (list RawWriteResult) :=
  match plans with
  | [] => sret results
  | plan :: plans' =>
      let! code := execute_write_plan plan in
      write_plans plans'
        (results ++ if code =? RC_SUCCESS then write_ok_result <$> wp_item_ids plan
                    else (λ id, write_error_result id (item_return_error code)) <$> wp_item_ids plan)
  end.

Definition write_batch (items : list WriteRequest) : M (list RawWriteResult) :=
  let! negotiated := ensure_connected in
  let! (d, _) := sget in
  let! (plans, failed) := slift (plan_write_batch items negotiated (s7_max_items_per_pdu (sd_config d))) in
  let! results := write_plans plans ((λ '(id, e), write_error_result id e) <$> failed) in
  sret (sort_by_key wr_item_id results).

Definition validate_address (addr : str) : M AddressMetadata :=
  let! parsed := slift (map_err (λ _, S7Error.invalid_address) (parse addr)) in
  sret {| am_canonical_address := canonical parsed; am_raw_type := None; am_readable := true;
          am_writable := writable parsed |}.

(** ** The entry points *)
Definition CAPABILITIES : ProtocolCapabilities :=
  {| cap_read := true; cap_write := true; cap_batch_read := true; cap_batch_write := true;
     cap_browse := false; cap_polling := true; cap_subscription := false; cap_events := false;
     cap_history := false |}.

Definition set_last_error (e : S7Error.t) (d : S7commDriver H) : S7commDriver H :=
  {| sd_config := sd_config d; sd_session := sd_session d;
     sd_last_error := Some (S7Error.into_info e) |}.

Definition s7_plugin (from_str : str → option S7Config) : Plugin (S7commDriver H) W S7Error.t WriteRequest := {|
  pl_create := create from_str;
  pl_broken := {| sd_config := config_default; sd_session := None; sd_last_error := None |};
  pl_set_last_error := set_last_error;
  pl_last_error := sd_last_error;
  pl_connect := connect;
  pl_disconnect := disconnect;
  pl_read_batch := read_batch;
  pl_request id address value := {| wq_id := id; wq_address := address; wq_value := value |};
  pl_write_batch := write_batch;
  pl_validate_address := validate_address;
  pl_capabilities := CAPABILITIES;
  pl_config_error := S7Error.config_error;
  pl_invalid_address := S7Error.invalid_address;
  pl_invalid_type := S7Error.invalid_type;
  pl_unsupported := S7Error.unsupported;
  pl_driver_panic := S7Error.driver_panic;
|}.

Lemma s7_plugin_laws from_str : PluginLaws (Plugin0 := s7_plugin from_str) _ _ _ _.
Proof. split. by eexists. Qed.

Context (from_str : str → option S7Config) `{!Envelopes}.

Definition s7_api_create := api_create (Plugin0 := s7_plugin from_str).
Definition s7_api_destroy := api_destroy (Plugin0 := s7_plugin from_str).
Definition s7_api_connect := api_connect (Plugin0 := s7_plugin from_str).
Definition s7_api_disconnect := api_disconnect (Plugin0 := s7_plugin from_str).
Definition s7_api_get_capabilities_json := api_get_capabilities_json (Plugin0 := s7_plugin from_str).
Definition s7_api_validate_address := api_validate_address (Plugin0 := s7_plugin from_str).
Definition s7_api_read := api_read (Plugin0 := s7_plugin from_str).
Definition s7_api_write := api_write (Plugin0 := s7_plugin from_str).
Definition s7_api_unsupported := api_unsupported (Plugin0 := s7_plugin from_str).
Definition s7_api_get_last_error_json := api_get_last_error_json (Plugin0 := s7_plugin from_str).
End driver.
