(* ===== verification/S7Loopback.v ===== *)
(** * The simulated S7 device: crates/s7comm-mock/src/lib.rs

    The memory image, the parsing of Any pointers, the answers to Setup, Read
    and Write, the injected faults and the handling of one TPKT frame.  Delays,
    the listener and the locks are not modelled. *)

From S2P Require Import Prelude RustStd S7Codec ObservationModel DriverAbi S7Address S7Batch.
From S2P Require Import S7Driver.
From stdpp Require Import options.

(** [HashMap<AddrKey, u8>]: area, data block, byte; a missing byte reads 0. *)
Abbreviation image := (gmap (Z * Z * Z) Z).

Record WriteRecord : Type := mkWriteRecord {
  wrec_area : Z; wrec_db : Z; wrec_start_byte : Z; wrec_len_bytes : Z; wrec_data : list Z;
}.

Record ReadRecord : Type := mkReadRecord {
  rrec_area : Z; rrec_db : Z; rrec_start_byte : Z; rrec_len_bytes : Z;
}.

Record MockBehavior : Type := mkMockBehavior {
  mb_values : image;
  mb_offered_pdu_size : Z;
  mb_drop_connection : bool;
  mb_timeout_rate : option (Z * Z);
  mb_access_denied_at : gset (Z * Z * Z);
  mb_wrong_pdu_ref : bool;
  mb_declare_wrong_item_count : bool;
  mb_bad_tpkt_version : bool;
  mb_request_count : Z;
  mb_captured_writes : list WriteRecord;
  mb_captured_reads : list ReadRecord;
}.

Definition behavior_new : MockBehavior :=
  {| mb_values := ∅; mb_offered_pdu_size := 480; mb_drop_connection := false; mb_timeout_rate := None;
     mb_access_denied_at := ∅; mb_wrong_pdu_ref := false; mb_declare_wrong_item_count := false;
     mb_bad_tpkt_version := false; mb_request_count := 0; mb_captured_writes := [];
     mb_captured_reads := [] |}.

Module XorShift32.
Definition new (rack slot : Z) : Z :=
  Z.lor (Z.lxor (Z.lor (Z.shiftl rack 5) slot) 0x9E3779B9) 1.
Definition next (x : Z) : Z :=
  let x := Z.lxor x (wrap32 (Z.shiftl x 13)) in
  let x := Z.lxor x (Z.shiftr x 17) in
  Z.lxor x (wrap32 (Z.shiftl x 5)).
End XorShift32.

(** ** Any pointers *)
Record MockItem : Type := mkMockItem {
  mi_transport_size : Z;
  mi_length : Z;
  mi_area : Z;
  mi_db : Z;
  mi_start_byte : Z;
  mi_bit : Z;
}.

Definition any_parse (b : list Z) : option MockItem :=
  if (length b <? 12)%nat || negb (b !!! 0%nat =? 0x12) || negb (b !!! 1%nat =? 0x0A)
     || negb (b !!! 2%nat =? 0x10)
  then None
  else
    let addr := from_be_bytes (slice 9 12 b) in
    Some {| mi_transport_size := b !!! 3%nat; mi_length := from_be_bytes (slice 4 6 b);
            mi_db := from_be_bytes (slice 6 8 b); mi_area := b !!! 8%nat;
            mi_start_byte := Z.shiftr addr 3; mi_bit := Z.land addr 0x07 |}.

Definition mock_width_bytes (i : MockItem) : Z :=
  if mi_transport_size i =? TS_BIT then 1
  else if mi_transport_size i =? TS_BYTE then Z.max (mi_length i) 1
  else if mi_transport_size i =? TS_WORD then Z.max (mi_length i) 1 * 2
  else if mi_transport_size i =? TS_DWORD then Z.max (mi_length i) 1 * 4
  else 0.

Definition payload_size (ts length : Z) : Z :=
  if ts =? TS_BIT then 1
  else if ts =? TS_BYTE then length
  else if ts =? TS_WORD then length * 2
  else if ts =? TS_DWORD then length * 4
  else length.

(** ** The image *)
Definition image_byte (values : image) (area db byte : Z) : Z := default 0 (values !! (area, db, byte)).

(** The bytes from an address on. *)
Definition image_bytes (values : image) (area db start : Z) (n : nat) : list Z :=
  (λ i, image_byte values area db (start + Z.of_nat i)) <$> seq 0 n.

Definition read_image (values : image) (i : MockItem) : list Z :=
  if mi_transport_size i =? TS_BIT then
    [if negb (Z.land (image_byte values (mi_area i) (mi_db i) (mi_start_byte i))
                (Z.shiftl 1 (mi_bit i)) =? 0) then 1 else 0]
  else if mi_transport_size i =? TS_BYTE then
    image_bytes values (mi_area i) (mi_db i) (mi_start_byte i) (Z.to_nat (mi_length i))
  else if mi_transport_size i =? TS_WORD then
    seq 0 (Z.to_nat (mi_length i)) ≫= λ w,
      image_bytes values (mi_area i) (mi_db i) (mi_start_byte i + Z.of_nat w * 2) 2
  else if mi_transport_size i =? TS_DWORD then
    seq 0 (Z.to_nat (mi_length i)) ≫= λ d,
      image_bytes values (mi_area i) (mi_db i) (mi_start_byte i + Z.of_nat d * 4) 4
  else [].

(** Storing bytes from an address on.  The nested loops over words and double
    words store byte [k] of the payload at offset [k]. *)
Fixpoint store_bytes (area db start : Z) (bytes : list Z) (values : image) : image :=
  match bytes with
  | [] => values
  | b :: bytes' => store_bytes area db (start + 1) bytes' (<[(area, db, start) := b]> values)
  end.

Definition apply_write (values : image) (i : MockItem) (payload : list Z) : image :=
  if mi_transport_size i =? TS_BIT then
    let b := image_byte values (mi_area i) (mi_db i) (mi_start_byte i) in
    let mask := wrap8 (Z.shiftl 1 (mi_bit i)) in
    let b := if negb (Z.land (default 0 (head payload)) 1 =? 0) then Z.lor b mask else Z.ldiff b mask in
    <[(mi_area i, mi_db i, mi_start_byte i) := b]> values
  else if (mi_transport_size i =? TS_BYTE) || (mi_transport_size i =? TS_WORD)
          || (mi_transport_size i =? TS_DWORD)
  then store_bytes (mi_area i) (mi_db i) (mi_start_byte i) payload values
  else values.

(** ** Requests *)
Definition build_ack_data (pdu_ref : Z) (param data : list Z) : list Z :=
  [PROTOCOL_ID; ROSCTR_ACK_DATA; 0x00; 0x00] ++ to_be_bytes 2 pdu_ref
    ++ to_be_bytes 2 (Z.of_nat (length param)) ++ to_be_bytes 2 (Z.of_nat (length data))
    ++ [0x00; 0x00] ++ param ++ data.

Definition RC_ACCESS_DENIED : Z := 0x07.

Definition return_code (b : MockBehavior) (i : MockItem) : Z :=
  if bool_decide ((mi_area i, mi_db i, mi_start_byte i) ∈ mb_access_denied_at b)
  then RC_ACCESS_DENIED else RC_SUCCESS.

Definition read_answer (b : MockBehavior) (i : MockItem) : list Z :=
  let payload := read_image (mb_values b) i in
  let ts := mi_transport_size i in
  let declared :=
    if (ts =? TS_BIT) || (ts =? TS_WORD) || (ts =? 0x05) || (ts =? TS_DWORD) || (ts =? 0x07)
    then wrap16 (Z.of_nat (length payload)) * 8 else Z.of_nat (length payload) in
  [return_code b i; ts] ++ to_be_bytes 2 declared ++ payload
    ++ (if (length payload mod 2 =? 1)%nat then [0x00] else []).

Definition count_request (b : MockBehavior) : MockBehavior :=
  {| mb_values := mb_values b; mb_offered_pdu_size := mb_offered_pdu_size b;
     mb_drop_connection := mb_drop_connection b; mb_timeout_rate := mb_timeout_rate b;
     mb_access_denied_at := mb_access_denied_at b; mb_wrong_pdu_ref := mb_wrong_pdu_ref b;
     mb_declare_wrong_item_count := mb_declare_wrong_item_count b;
     mb_bad_tpkt_version := mb_bad_tpkt_version b; mb_request_count := wrap32 (mb_request_count b + 1);
     mb_captured_writes := mb_captured_writes b; mb_captured_reads := mb_captured_reads b |}.

Definition set_values (v : image) (writes : list WriteRecord) (reads : list ReadRecord) (b : MockBehavior) :
    MockBehavior :=
  {| mb_values := v; mb_offered_pdu_size := mb_offered_pdu_size b;
     mb_drop_connection := mb_drop_connection b; mb_timeout_rate := mb_timeout_rate b;
     mb_access_denied_at := mb_access_denied_at b; mb_wrong_pdu_ref := mb_wrong_pdu_ref b;
     mb_declare_wrong_item_count := mb_declare_wrong_item_count b;
     mb_bad_tpkt_version := mb_bad_tpkt_version b; mb_request_count := mb_request_count b;
     mb_captured_writes := writes; mb_captured_reads := reads |}.

(** The loop over the items of a read; [param] is what is left of them. *)
Fixpoint serve_reads (count : nat) (param : list Z) (b : MockBehavior) (data : list Z) :
    MockBehavior * option (list Z) :=
  match count with
  | O => (b, Some data)
  | S count' =>
      if (length param <? 12)%nat then (b, None)
      else
        match any_parse (take 12 param) with
        | None => (b, None)
        | Some i =>
            let b' := set_values (mb_values b) (mb_captured_writes b)
              (mb_captured_reads b ++ [{| rrec_area := mi_area i; rrec_db := mi_db i;
                 rrec_start_byte := mi_start_byte i; rrec_len_bytes := mock_width_bytes i |}]) b in
            serve_reads count' (drop 12 param) b' (data ++ read_answer b i)
        end
  end.

Fixpoint serve_writes (count : nat) (param data : list Z) (b : MockBehavior) (results : list Z) :
    MockBehavior * option (list Z) :=
  match count with
  | O => (b, Some results)
  | S count' =>
      if (length param <? 12)%nat then (b, None)
      else
        match any_parse (take 12 param) with
        | None => (b, None)
        | Some i =>
            if (length data <? 4)%nat then (b, None)
            else
              let size := Z.to_nat (payload_size (data !!! 1%nat) (from_be_bytes (slice 2 4 data))) in
              if (length data <? 4 + size)%nat then (b, None)
              else
                let payload := slice 4 (4 + size) data in
                let after := drop (4 + size) data in
                let rc := return_code b i in
                let b' := set_values
                  (if rc =? RC_SUCCESS then apply_write (mb_values b) i payload else mb_values b)
                  (mb_captured_writes b ++ [{| wrec_area := mi_area i; wrec_db := mi_db i;
                     wrec_start_byte := mi_start_byte i; wrec_len_bytes := Z.of_nat size;
                     wrec_data := payload |}]) (mb_captured_reads b) b in
                serve_writes count' (drop 12 param)
                  (if (size mod 2 =? 1)%nat then drop 1 after else after) b' (results ++ [rc])
        end
  end.

(** [handle_s7]; a read or write request of one byte panics on its count. *)
Definition handle_s7 (b : MockBehavior) (pdu : list Z) : MockBehavior * outcome () (option (list Z)) :=
  if (length pdu <? 10)%nat || negb (pdu !!! 0%nat =? PROTOCOL_ID) then (b, Ok None)
  else if negb (pdu !!! 1%nat =? ROSCTR_JOB) then (b, Ok None)
  else
    let pdu_ref := from_be_bytes (slice 4 6 pdu) in
    let param_len := Z.to_nat (from_be_bytes (slice 6 8 pdu)) in
    if (length pdu <? 10 + param_len)%nat then (b, Ok None)
    else
      let param := slice 10 (10 + param_len) pdu in
      match param with
      | [] => (b, Ok None)
      | function :: args =>
          if function =? FUNCTION_SETUP then
            (b, Ok (Some (build_ack_data pdu_ref
                            ([FUNCTION_SETUP; 0x00] ++ to_be_bytes 2 (mb_offered_pdu_size b)) [])))
          else if function =? FUNCTION_READ then
            let b := count_request b in
            match args with
            | [] => (b, Panic)
            | count :: items =>
                let '(b', o) := serve_reads (Z.to_nat count) items b [] in
                (b', Ok ((λ data, build_ack_data pdu_ref
                            [FUNCTION_READ;
                             if mb_declare_wrong_item_count b then wrap8 (count + 1) else count;
                             0x00; 0x00] data) <$> o))
            end
          else if function =? FUNCTION_WRITE then
            let b := count_request b in
            match args with
            | [] => (b, Panic)
            | count :: items =>
                let data_len := Z.to_nat (from_be_bytes (slice 8 10 pdu)) in
                if (length pdu <? 10 + param_len + data_len)%nat then (b, Ok None)
                else
                  let data_in := slice (10 + param_len) (10 + param_len + data_len) pdu in
                  let '(b', o) := serve_writes (Z.to_nat count) items data_in b [] in
                  (b', Ok ((λ results, build_ack_data pdu_ref [FUNCTION_WRITE; count] results) <$> o))
            end
          else (b, Ok None)
      end.

(** ** A connection *)
Record MockConn : Type := mkMockConn {
  mk_behavior : MockBehavior;
  mk_rng : option Z;
  mk_last_tsap : option (Z * Z);
}.

(** What the connection thread does with a frame: answer, stay silent, or
    end (by returning or by a panic). *)
Inductive served : Type := Reply (bytes : list Z) | Silent | Ended.

(** The last called TSAP among the variable parameters of a request. *)
Fixpoint called_tsap (fuel : nat) (var : list Z) (called : option (Z * Z)) : option (Z * Z) :=
  match fuel with
  | O => called
  | S fuel' =>
      if (length var <? 2)%nat then called
      else
        let plen := var !!! 1%nat in
        called_tsap fuel' (drop (2 + Z.to_nat plen) var)
          (if (var !!! 0%nat =? 0xC2) && (plen =? 2) && (4 <=? length var)%nat && (var !!! 2%nat =? 0x03)
           then Some (Z.shiftr (var !!! 3%nat) 5, Z.land (var !!! 3%nat) 0x1F) else called)
  end.

Definition wrap_tpkt (version : Z) (body : list Z) : list Z :=
  [version; 0] ++ to_be_bytes 2 (Z.of_nat (length body) + 4) ++ body.

Definition serve_connect (c : MockConn) (rest : list Z) : MockConn * served :=
  let li := Z.to_nat (rest !!! 0%nat) in
  let stop := Nat.min (li + 1) (length rest) in
  if (8 <=? length rest)%nat && (stop <? 7)%nat then (c, Ended)      (* the slice panics *)
  else
    let called := if (8 <=? length rest)%nat
                  then called_tsap (length rest) (slice 7 stop rest) None else None in
    let '(rack, slot) := default (0, 0) called in
    ({| mk_behavior := mk_behavior c; mk_rng := Some (XorShift32.new rack slot); mk_last_tsap := called |},
     Reply (wrap_tpkt TPKT_VERSION
       [0x0E; COTP_CC; 0x00; 0x01; 0x00; 0x0F; 0x00; 0xC1; 0x02; 0x01; 0x00; 0xC2; 0x02; 0x03; slot])).

Definition bump_ref (response : list Z) : list Z :=
  take 4 response ++ to_be_bytes 2 (wrap16 (from_be_bytes (slice 4 6 response) + 1)) ++ drop 6 response.

Definition serve_data (c : MockConn) (rest : list Z) : MockConn * served :=
  let li := Z.to_nat (rest !!! 0%nat) in
  if (length rest <? li + 1)%nat then (c, Ended)                      (* the slice panics *)
  else
    let pdu := drop (li + 1) rest in
    let b := mk_behavior c in
    if (length pdu <? 10)%nat then (c, Ended)
    else if mb_drop_connection b then (c, Ended)
    else
      let '(rng, silent) :=
        match mb_timeout_rate b with
        | None => (mk_rng c, false)
        | Some (num, den) =>
            let roll := XorShift32.next (default (XorShift32.new 0 0) (mk_rng c)) in
            (Some roll, (0 <? num) && (0 <? den) && (roll mod den <? num))
        end in
      let conn b := {| mk_behavior := b; mk_rng := rng; mk_last_tsap := mk_last_tsap c |} in
      if silent then (conn b, Silent)
      else
        match handle_s7 b pdu with
        | (b', Ok (Some response)) =>
            let response := if mb_wrong_pdu_ref b' && (6 <? length response)%nat
                            then bump_ref response else response in
            (conn b', Reply (wrap_tpkt (if mb_bad_tpkt_version b' then 4 else TPKT_VERSION)
                               ([0x02; COTP_DT; 0x80] ++ response)))
        | (b', _) => (conn b', Ended)
        end.

(** One iteration of [handle_connection] on a frame whose header is valid. *)
Definition serve_frame (c : MockConn) (rest : list Z) : MockConn * served :=
  if (length rest <? 2)%nat then (c, Ended)
  else if rest !!! 1%nat =? COTP_CR then serve_connect c rest
  else if rest !!! 1%nat =? COTP_DT then serve_data c rest
  else (c, Ended).

(** The loop of [handle_connection] on the bytes received so far: whole frames
    are served, an incomplete one waits.  Every iteration consumes at least the
    header of a frame.  The flag tells whether the connection is still open. *)
Fixpoint handle_connection (fuel : nat) (c : MockConn) (inbox outbox : list Z) :
    MockConn * list Z * list Z * bool :=
  match fuel with
  | O => (c, inbox, outbox, true)
  | S fuel' =>
      if (length inbox <? 4)%nat then (c, inbox, outbox, true)
      else
        let total := Z.to_nat (from_be_bytes (slice 2 4 inbox)) in
        if (total <? 4)%nat then (c, [], outbox, false)
        else if (length inbox <? total)%nat then (c, inbox, outbox, true)
        else
          match serve_frame c (slice 4 total inbox) with
          | (c', Reply bytes) => handle_connection fuel' c' (drop total inbox) (outbox ++ bytes)
          | (c', Silent) => handle_connection fuel' c' (drop total inbox) outbox
          | (c', Ended) => (c', [], outbox, false)
          end
  end.

(** * The S7 driver wired to the simulated device

    The interfaces of DriverAbi instantiated with the device of
    crates/s7comm-mock, and the exchanges of the session against it. *)

Record Line : Type := mkLine {
  ln_conn : MockConn;
  ln_inbox : list Z;
  ln_outbox : list Z;
  ln_open : bool;
}.

Definition line_write_all (_ : ()) (bytes : list Z) (l : Line) : Line * io_result () :=
  if ln_open l then
    let inbox := ln_inbox l ++ bytes in
    let '(c, inbox', outbox', open) := handle_connection (S (length inbox)) (ln_conn l) inbox (ln_outbox l) in
    ({| ln_conn := c; ln_inbox := inbox'; ln_outbox := outbox'; ln_open := open |}, inr ())
  else (l, inl IoKind.Other).

Definition line_read_exact (_ : ()) (n : nat) (l : Line) : Line * io_result (list Z) :=
  if (n <=? length (ln_outbox l))%nat then
    ({| ln_conn := ln_conn l; ln_inbox := ln_inbox l; ln_outbox := drop n (ln_outbox l); ln_open := ln_open l |},
     inr (take n (ln_outbox l)))
  else ({| ln_conn := ln_conn l; ln_inbox := ln_inbox l; ln_outbox := []; ln_open := ln_open l |},
        inl (if ln_open l then IoKind.TimedOut else IoKind.Other)).

#[global] Instance line_stream : ByteStream Line () := {|
  write_all := line_write_all;
  read_exact := line_read_exact;
  close _ l := {| ln_conn := ln_conn l; ln_inbox := []; ln_outbox := []; ln_open := false |};
|}.

#[global] Instance line_net : TcpNet Line () () := {|
  to_socket_addrs _ _ l := (l, inr [()]);
  connect_timeout _ _ l :=
    ({| ln_conn := {| mk_behavior := mk_behavior (ln_conn l); mk_rng := None;
                      mk_last_tsap := mk_last_tsap (ln_conn l) |};
        ln_inbox := []; ln_outbox := []; ln_open := true |}, inr ());
  set_read_timeout _ _ l := (l, inr ());
  set_write_timeout _ _ l := (l, inr ());
|}.

#[global] Instance line_os : Os Line := {| now_ns l := (l, 0); sleep _ l := l |}.

(** ** Frames *)
Definition idle (l : Line) : Prop := ln_inbox l = [] ∧ ln_outbox l = [] ∧ ln_open l = true.

Lemma tpkt_parts (body : list Z) :
  Z.of_nat (length body) + 4 < 2 ^ 16 → (2 ≤ length body)%nat →
  slice 2 4 (tpkt body) = to_be_bytes 2 (Z.of_nat (length body) + 4) ∧
  from_be_bytes (slice 2 4 (tpkt body)) = Z.of_nat (length body) + 4 ∧
  length (tpkt body) = (4 + length body)%nat ∧ drop 4 (tpkt body) = body.
Proof.
  intros Hlen H2. assert (slice 2 4 (tpkt body) = to_be_bytes 2 (Z.of_nat (length body) + 4)) as Hs by done.
  split_and!; [done| |done|done]. rewrite Hs, from_to_be_bytes_small; [done|].
  change (8 * Z.of_nat 2) with 16. lia.
Qed.

(** The device serves one whole frame on an idle line. *)
Lemma line_serves l body c bytes :
  idle l → Z.of_nat (length body) + 4 < 2 ^ 16 → (2 ≤ length body)%nat →
  serve_frame (ln_conn l) body = (c, Reply bytes) →
  line_write_all () (tpkt body) l =
    ({| ln_conn := c; ln_inbox := []; ln_outbox := bytes; ln_open := true |}, inr ()).
Proof.
  intros (Hi & Ho & Hop) Hlen H2 Hs. unfold line_write_all. rewrite Hop, Hi, Ho. cbn [app].
  destruct (tpkt_parts body Hlen H2) as (_ & Ht & Hl & Hd).
  rewrite Hl. cbn [handle_connection Nat.add]. rewrite Hl.
  replace (4 + length body <? 4)%nat with false by lia. rewrite Ht.
  replace (Z.to_nat (Z.of_nat (length body) + 4)) with (4 + length body)%nat by lia.
  replace (4 + length body <? 4)%nat with false by lia.
  replace (4 + length body <? 4 + length body)%nat with false by lia.
  assert (slice 4 (4 + length body) (tpkt body) = body) as ->.
  { unfold slice. rewrite Hd. rewrite take_ge; [done|lia]. }
  rewrite Hs. rewrite drop_ge by lia. done.
Qed.

Lemma line_reads l n bytes :
  (n ≤ length (ln_outbox l))%nat → bytes = take n (ln_outbox l) →
  line_read_exact () n l =
    ({| ln_conn := ln_conn l; ln_inbox := ln_inbox l; ln_outbox := drop n (ln_outbox l); ln_open := ln_open l |},
     inr bytes).
Proof. intros Hn ->. unfold line_read_exact. by replace (n <=? length (ln_outbox l))%nat with true by lia. Qed.

(** A frame the device sent is read whole. *)
Lemma read_frame_line (t : TcpSession ()) c body :
  ts_stream t = Some () → Z.of_nat (length body) + 4 < 2 ^ 16 → (2 ≤ length body)%nat →
  read_frame (t, {| ln_conn := c; ln_inbox := []; ln_outbox := tpkt body; ln_open := true |}) =
    ((t, {| ln_conn := c; ln_inbox := []; ln_outbox := []; ln_open := true |}), Ok (tpkt body)).
Proof.
  intros Ht Hlen H2. destruct (tpkt_parts body Hlen H2) as (_ & Hd & Hl & Hdrop).
  unfold read_frame, sbind, on_stream. cbn [fst snd]. rewrite Ht.
  unfold read_exact, line_stream. rewrite (line_reads _ 4 (take 4 (tpkt body))) by (cbn [ln_outbox]; rewrite ?Hl; (lia || done)).
  cbn [ln_conn ln_inbox ln_outbox ln_open].
  change (take 4 (tpkt body) !!! 0%nat) with 3. change (take 4 (tpkt body) !!! 1%nat) with 0.
  change (slice 2 4 (take 4 (tpkt body))) with (slice 2 4 (tpkt body)). rewrite Hd.
  change (negb (3 =? TPKT_VERSION) || negb (0 =? 0)) with false. cbv iota. cbn [fst snd]. rewrite Ht.
  replace (Z.to_nat _ - TPKT_HEADER_LEN)%nat with (length body) by (unfold TPKT_HEADER_LEN; lia).
  rewrite (line_reads _ (length body) body); cbn [ln_outbox]; rewrite ?Hdrop; [|lia|by rewrite take_ge].
  cbn [ln_conn ln_inbox ln_outbox ln_open]. rewrite drop_ge by lia. unfold sret. do 2 f_equal.
Qed.

(** ** Acknowledgements *)
Lemma parse_ack_build r param data :
  in_u 16 r → Z.of_nat (length param) < 2 ^ 16 → Z.of_nat (length data) < 2 ^ 16 →
  parse_ack (build_ack_data r param data) = Ok {| ap_pdu_ref := r; ap_param := param; ap_data := data |}.
Proof.
  intros Hr Hp Hd. unfold parse_ack. set (pdu := build_ack_data r param data).
  assert (length pdu = (12 + length param + length data)%nat) as Hlen.
  { unfold pdu, build_ack_data. rewrite !length_app, !length_to_be_bytes. cbn. lia. }
  assert (drop 12 pdu = param ++ data) as Hdrop by done.
  change (slice 4 6 pdu) with (to_be_bytes 2 r).
  change (slice 6 8 pdu) with (to_be_bytes 2 (Z.of_nat (length param))).
  change (slice 8 10 pdu) with (to_be_bytes 2 (Z.of_nat (length data))).
  rewrite !from_to_be_bytes_small by (change (8 * Z.of_nat 2) with 16; unfold in_u in *; lia).
  cbn zeta. unfold ACK_HEADER_LEN. rewrite Hlen.
  replace (Z.of_nat (12 + length param + length data) <? 12) with false by lia.
  change (pdu !!! 0%nat) with PROTOCOL_ID. change (pdu !!! 1%nat) with ROSCTR_ACK_DATA.
  change (pdu !!! 10%nat) with 0. change (pdu !!! 11%nat) with 0. cbn [negb orb].
  replace (Z.of_nat (12 + length param + length data) <? _) with false by lia.
  replace (_ <? Z.of_nat (12 + length param + length data)) with false by lia.
  change (negb (PROTOCOL_ID =? PROTOCOL_ID)) with false. change (negb (ROSCTR_ACK_DATA =? ROSCTR_ACK_DATA)) with false.
  cbn [negb orb Z.eqb]. f_equal. f_equal.
  - unfold slice. change (Z.to_nat 12) with 12%nat. rewrite Hdrop. apply take_app_exact. lia.
  - unfold slice.
    replace (Z.to_nat (12 + Z.of_nat (length param))) with (12 + length param)%nat by lia.
    rewrite <- drop_drop, Hdrop, drop_app_exact by done. apply take_ge. lia.
Qed.

Lemma match_ack_build r param data :
  in_u 16 r → Z.of_nat (length param) < 2 ^ 16 → Z.of_nat (length data) < 2 ^ 16 →
  match_ack r (build_ack_data r param data) = Ok {| ao_param := param; ao_data := data |}.
Proof.
  intros. unfold match_ack. rewrite parse_ack_build by done. cbn [outcome_bind ap_pdu_ref].
  by rewrite Z.eqb_refl.
Qed.

(** ** Exchanges with a device without injected faults *)
Record healthy (b : MockBehavior) : Prop := {
  hb_drop : mb_drop_connection b = false;
  hb_rate : mb_timeout_rate b = None;
  hb_denied : mb_access_denied_at b = ∅;
  hb_ref : mb_wrong_pdu_ref b = false;
  hb_count : mb_declare_wrong_item_count b = false;
  hb_version : mb_bad_tpkt_version b = false;
}.

Definition with_behavior (b : MockBehavior) (l : Line) : Line :=
  {| ln_conn := {| mk_behavior := b; mk_rng := mk_rng (ln_conn l); mk_last_tsap := mk_last_tsap (ln_conn l) |};
     ln_inbox := []; ln_outbox := []; ln_open := true |}.

Lemma serve_data_tpdu c job b' resp :
  healthy (mk_behavior c) → healthy b' → (10 ≤ length job)%nat →
  handle_s7 (mk_behavior c) job = (b', Ok (Some resp)) →
  serve_frame c (data_tpdu job) =
    ({| mk_behavior := b'; mk_rng := mk_rng c; mk_last_tsap := mk_last_tsap c |},
     Reply (tpkt (data_tpdu resp))).
Proof.
  intros [H1 H2 _ _ _ _] [_ _ _ H3 _ H4] Hlen Hh. unfold serve_frame.
  change (length (data_tpdu job) <? 2)%nat with false. cbv iota.
  change (data_tpdu job !!! 1%nat =? COTP_CR) with false. change (data_tpdu job !!! 1%nat =? COTP_DT) with true.
  cbv iota. unfold serve_data. change (data_tpdu job !!! 0%nat) with 2. change (Z.to_nat 2 + 1)%nat with 3%nat.
  change (length (data_tpdu job) <? 3)%nat with false. cbv iota. change (drop 3 (data_tpdu job)) with job.
  replace (length job <? 10)%nat with false by lia. rewrite H1, H2, Hh. cbv iota beta zeta.
  rewrite H3, H4. done.
Qed.

Lemma exchange_line (t : TcpSession ()) l r job b' param data :
  ts_stream t = Some () → idle l → healthy (mk_behavior (ln_conn l)) → healthy b' →
  (10 ≤ length job)%nat → Z.of_nat (length job) < 60000 → in_u 16 r →
  Z.of_nat (length data) < 5000 → Z.of_nat (length param) < 5000 →
  handle_s7 (mk_behavior (ln_conn l)) job = (b', Ok (Some (build_ack_data r param data))) →
  exchange r job (t, l) = ((t, with_behavior b' l), Ok {| ao_param := param; ao_data := data |}).
Proof.
  intros Ht Hi Hh Hh' Hj Hj' Hr Hd Hp Hs.
  set (resp := build_ack_data r param data) in *.
  assert (Z.of_nat (length resp) = 12 + Z.of_nat (length param) + Z.of_nat (length data)) as Hresp.
  { unfold resp, build_ack_data. rewrite !length_app, !length_to_be_bytes. cbn. lia. }
  assert (length (data_tpdu job) = (3 + length job)%nat) as Hlj by done.
  assert (length (data_tpdu resp) = (3 + length resp)%nat) as Hlr by done.
  assert (send_frame (data_tpdu job) (t, l) =
    ((t, {| ln_conn := ln_conn (with_behavior b' l); ln_inbox := []; ln_outbox := tpkt (data_tpdu resp);
            ln_open := true |}), Ok ())) as Hsend.
  { unfold send_frame. cbn [fst]. rewrite Ht. unfold MAX_TPKT_LEN. rewrite Hlj.
    replace (65579 <? Z.of_nat (3 + length job) + 4) with false by lia.
    unfold on_stream. cbn [fst snd]. rewrite Ht. unfold write_all, line_stream.
    erewrite line_serves; [|done|rewrite Hlj; lia|rewrite Hlj; lia|by apply serve_data_tpdu]. done. }
  unfold exchange. rewrite (sbind_Ok _ _ _ _ _ Hsend).
  rewrite (sbind_Ok _ _ _ _ _ (read_frame_line t _ (data_tpdu resp) Ht ltac:(rewrite Hlr; lia) ltac:(rewrite Hlr; lia))).
  assert (parse_frame (tpkt (data_tpdu resp)) = Ok (CotpFrame.Data resp)) as Hpf.
  { unfold parse_frame. destruct (tpkt_parts (data_tpdu resp)) as (_ & Hdec & Hl & Hdrop); [rewrite Hlr; lia..|].
    rewrite Hl. change (tpkt (data_tpdu resp) !!! 0%nat =? TPKT_VERSION) with true.
    change (tpkt (data_tpdu resp) !!! 1%nat =? 0) with true. unfold TPKT_HEADER_LEN, MAX_TPKT_LEN.
    replace (4 + length (data_tpdu resp) <? 4)%nat with false by lia. cbn [negb orb]. rewrite Hdec, Hdrop.
    cbn zeta. rewrite Hlr.
    replace (negb _ || negb _) with false by lia. replace (3 + length resp <? 2)%nat with false by lia.
    change (data_tpdu resp !!! 1%nat =? COTP_CC) with false. change (data_tpdu resp !!! 1%nat =? COTP_DT) with true.
    change (data_tpdu resp !!! 0%nat) with 2. change (data_tpdu resp !!! 2%nat) with 0x80. cbv iota.
    replace (Z.of_nat (3 + length resp) <? 2 + 1) with false by lia. done. }
  unfold slift at 1. unfold sbind at 1. rewrite Hpf. unfold resp. rewrite match_ack_build by (done || lia). done.
Qed.
