(* ===== verification/S7EndToEnd.v ===== *)
(** * The S7 driver against the simulated device

    What a batch read or write does to and learns of the memory image of the
    device. *)

From S2P Require Import Prelude RustStd ObservationModel DriverAbi BatchRuns S7Address S7Codec.
From S2P Require Import S7Batch S7Driver S7Loopback.
From stdpp Require Import options.

(** ** Any pointers on the wire *)
Record any_ok (i : AnyItem) : Prop := {
  ao_ts : in_u 8 (ai_transport_size i);
  ao_len : in_u 16 (ai_length i);
  ao_area : in_u 8 (ai_area_code i);
  ao_db : in_u 16 (ai_db i);
  ao_byte : 0 ≤ ai_byte_offset i ≤ MAX_BYTE_OFFSET;
  ao_bit : 0 ≤ ai_bit i ≤ 7;
}.

Definition mock_item (i : AnyItem) : MockItem :=
  {| mi_transport_size := ai_transport_size i; mi_length := ai_length i; mi_area := ai_area_code i;
     mi_db := ai_db i; mi_start_byte := ai_byte_offset i; mi_bit := ai_bit i |}.

Lemma any_address byte bit :
  0 ≤ byte ≤ MAX_BYTE_OFFSET → 0 ≤ bit ≤ 7 →
  Z.lor (wrap32 (Z.shiftl byte 3)) bit = byte * 8 + bit.
Proof.
  intros Hy Hb. unfold MAX_BYTE_OFFSET in Hy. rewrite Z.shiftl_mul_pow2 by lia. change (2 ^ 3) with 8.
  rewrite wrap_small by (unfold in_u; lia).
  assert (Z.land (byte * 8) bit = 0) as Hl.
  { apply Z.bits_inj'. intros n Hn. rewrite Z.land_spec, Z.bits_0. change 8 with (2 ^ 3).
    destruct (Z.lt_ge_cases n 3).
    - by rewrite Z.mul_pow2_bits_low.
    - rewrite (Z.bits_above_log2 bit n), andb_false_r; [done|lia|].
      destruct (Z.eq_dec bit 0) as [->|]; [cbn; lia|]. apply Z.log2_lt_pow2; [lia|].
      apply Z.lt_le_trans with (2 ^ 3); [cbn; lia|]. apply Z.pow_le_mono_r; lia. }
  rewrite <- Z.lxor_lor by done. rewrite <- Z.add_nocarry_lxor by done. lia.
Qed.

(** The device reads an Any pointer as the driver meant it. *)
Lemma any_parse_encode i : any_ok i → any_parse (any_encode i) = Some (mock_item i).
Proof.
  intros [Hts Hl Ha Hdb Hby Hbi]. unfold any_encode. rewrite any_address by done.
  set (b := _ ++ _). unfold any_parse.
  change (length b <? 12)%nat with false. change (b !!! 0%nat) with 0x12. change (b !!! 1%nat) with 0x0A.
  change (b !!! 2%nat) with 0x10. change (b !!! 3%nat) with (ai_transport_size i).
  change (b !!! 8%nat) with (ai_area_code i).
  change (slice 4 6 b) with (to_be_bytes 2 (ai_length i)). change (slice 6 8 b) with (to_be_bytes 2 (ai_db i)).
  change (slice 9 12 b) with (to_be_bytes 3 (ai_byte_offset i * 8 + ai_bit i)).
  unfold MAX_BYTE_OFFSET in Hby.
  rewrite !from_to_be_bytes_small by (change (8 * Z.of_nat 2) with 16; change (8 * Z.of_nat 3) with 24; unfold in_u in *; lia).
  cbn [negb orb Z.eqb Pos.eqb]. unfold mock_item. do 2 f_equal.
  - rewrite Z.shiftr_div_pow2 by lia. change (2 ^ 3) with 8. dlia.
  - change 7 with (Z.ones 3). rewrite Z.land_ones by lia. change (2 ^ 3) with 8. dlia.
Qed.

(** ** The image *)
Lemma length_image_bytes v area db start n : length (image_bytes v area db start n) = n.
Proof. unfold image_bytes. by rewrite length_fmap, length_seq. Qed.

Lemma image_bytes_app v area db start n m :
  image_bytes v area db start (n + m) =
  image_bytes v area db start n ++ image_bytes v area db (start + Z.of_nat n) m.
Proof.
  unfold image_bytes. rewrite seq_app, fmap_app. f_equal. cbn.
  rewrite <- (Nat.add_0_r n) at 1. rewrite <- fmap_add_seq, <- list_fmap_compose.
  apply list_fmap_ext. intros _ i _. cbn. f_equal. lia.
Qed.

Lemma image_bytes_blocks v area db start n k :
  (seq 0 n ≫= λ w, image_bytes v area db (start + Z.of_nat w * Z.of_nat k) k) =
  image_bytes v area db start (n * k).
Proof.
  induction n as [|n IH]; [done|]. rewrite seq_S, bind_app, IH. cbn [mbind list_bind Nat.add].
  rewrite app_nil_r, Nat.mul_succ_l, image_bytes_app. do 2 f_equal. lia.
Qed.

Lemma image_bytes_slice v area db start n off w :
  (off + w ≤ n)%nat →
  slice off (off + w) (image_bytes v area db start n) = image_bytes v area db (start + Z.of_nat off) w.
Proof.
  intros Hn. replace n with (off + (w + (n - off - w)))%nat by lia.
  rewrite !image_bytes_app. unfold slice. rewrite drop_app_exact by (by rewrite length_image_bytes).
  apply take_app_exact. rewrite length_image_bytes. lia.
Qed.

Definition unit_of (ts : Z) : nat := if ts =? TS_WORD then 2 else if ts =? TS_DWORD then 4 else 1.

Definition byte_kind (ts : Z) : Prop := ts = TS_BYTE ∨ ts = TS_WORD ∨ ts = TS_DWORD.

Lemma read_image_bytes v i :
  byte_kind (mi_transport_size i) →
  read_image v i =
    image_bytes v (mi_area i) (mi_db i) (mi_start_byte i)
      (Z.to_nat (mi_length i) * unit_of (mi_transport_size i)).
Proof.
  unfold read_image. intros [->|[->| ->]]; cbn [Z.eqb Pos.eqb TS_BIT TS_BYTE TS_WORD TS_DWORD unit_of].
  - by rewrite Nat.mul_1_r.
  - apply (image_bytes_blocks _ _ _ _ _ 2).
  - apply (image_bytes_blocks _ _ _ _ _ 4).
Qed.

(** ** A read of one Any pointer *)
Definition read_served (b : MockBehavior) (i : MockItem) : MockBehavior :=
  set_values (mb_values b) (mb_captured_writes b)
    (mb_captured_reads b ++ [{| rrec_area := mi_area i; rrec_db := mi_db i;
       rrec_start_byte := mi_start_byte i; rrec_len_bytes := mock_width_bytes i |}]) (count_request b).

Lemma handle_s7_read b r item :
  any_ok item → healthy b → in_u 16 r →
  handle_s7 b (build_read r [item]) =
    (read_served b (mock_item item),
     Ok (Some (build_ack_data r [FUNCTION_READ; 1; 0; 0] (read_answer (count_request b) (mock_item item))))).
Proof.
  intros Hi Hb Hr. unfold handle_s7. set (pdu := build_read r [item]).
  assert (build_read r [item] = [PROTOCOL_ID; ROSCTR_JOB; 0; 0] ++ to_be_bytes 2 r ++ to_be_bytes 2 14 ++
    to_be_bytes 2 0 ++ [FUNCTION_READ; 1] ++ any_encode item ++ []) as Hp by done.
  change (length pdu <? 10)%nat with false. change (pdu !!! 0%nat) with PROTOCOL_ID.
  change (pdu !!! 1%nat) with ROSCTR_JOB. cbn [negb orb Z.eqb Pos.eqb].
  change (negb (PROTOCOL_ID =? PROTOCOL_ID)) with false. change (negb (ROSCTR_JOB =? ROSCTR_JOB)) with false. cbv iota.
  change (slice 4 6 pdu) with (to_be_bytes 2 r). change (slice 6 8 pdu) with (to_be_bytes 2 14).
  rewrite !from_to_be_bytes_small by (change (8 * Z.of_nat 2) with 16; unfold in_u in *; lia).
  change (Z.to_nat 14) with 14%nat. cbn zeta. change (length pdu <? 10 + 14)%nat with false. cbv iota.
  change (slice 10 (10 + 14) pdu) with (FUNCTION_READ :: 1 :: any_encode item). cbv iota.
  change (FUNCTION_READ =? FUNCTION_SETUP) with false. change (FUNCTION_READ =? FUNCTION_READ) with true. cbv iota.
  change (Z.to_nat 1) with 1%nat. cbn [serve_reads].
  change (length (any_encode item) <? 12)%nat with false. cbv iota.
  change (take 12 (any_encode item)) with (any_encode item). rewrite any_parse_encode by done.
  cbn [fmap option_fmap option_map app]. unfold read_served. do 4 f_equal.
  by change (mb_declare_wrong_item_count (count_request b)) with (mb_declare_wrong_item_count b);
    rewrite (hb_count _ Hb).
Qed.

Lemma return_code_healthy b i : healthy b → return_code (count_request b) i = RC_SUCCESS.
Proof. intros Hb. unfold return_code. cbn. rewrite (hb_denied _ Hb). by rewrite bool_decide_eq_false_2 by set_solver. Qed.

(** The driver finds the payload in the answer of the device. *)
Lemma read_items_one rc ts len payload pad :
  length (pad : list Z) = (length payload mod 2)%nat → in_u 16 len →
  payload_len 1 ([rc; ts] ++ to_be_bytes 2 len ++ payload ++ pad) = length payload →
  read_items 1 1 ([rc; ts] ++ to_be_bytes 2 len ++ payload ++ pad) =
    Ok [{| rir_return_code := rc; rir_transport_size := ts; rir_payload := payload |}].
Proof.
  intros Hpad Hlen Hpl. set (rest := _ ++ _ ++ _ ++ _) in *.
  assert (length rest = (4 + length payload + length pad)%nat) as Hr.
  { unfold rest. rewrite !length_app, length_to_be_bytes. cbn. lia. }
  assert (drop 4 rest = payload ++ pad) as Hd by done.
  cbn [read_items]. rewrite Hpl, Hr.
  replace (4 + length payload + length pad <? 4)%nat with false by lia.
  replace (4 + length payload + length pad <? 4 + length payload)%nat with false by lia.
  change (rest !!! 0%nat) with rc. change (rest !!! 1%nat) with ts.
  rewrite <- drop_drop, Hd, drop_app_exact by done.
  assert ((if (length payload mod 2 =? 1)%nat then drop 1 pad else pad) = []) as ->.
  { pose proof (Nat.mod_upper_bound (length payload) 2 ltac:(lia)).
    destruct (length payload mod 2 =? 1)%nat eqn:E; [apply Nat.eqb_eq in E|apply Nat.eqb_neq in E].
    - destruct pad as [|x [|y pad]]; cbn in *; [lia|done|lia].
    - destruct pad as [|x pad]; cbn in *; [done|lia]. }
  cbn [outcome_bind]. do 2 f_equal. f_equal. unfold slice. rewrite Hd.
  apply take_app_exact. lia.
Qed.

Lemma div_ceil_8 n : div_ceil (n * 8) 8 = n.
Proof. unfold div_ceil. rewrite Z.div_mul, Z.mod_mul by lia. cbn. lia. Qed.

Lemma payload_len_header rc ts declared l :
  in_u 16 declared →
  payload_len 1 ([rc; ts] ++ to_be_bytes 2 declared ++ l) =
    if ts =? TS_BIT then Z.to_nat (div_ceil declared 8)
    else if (ts =? TS_WORD) || (ts =? 0x05) || (ts =? TS_DWORD) || (ts =? 0x07) then length l
    else Z.to_nat declared.
Proof.
  intros Hd. unfold payload_len. set (rest := _ ++ _ ++ _). change (rest !!! 1%nat) with ts.
  change (slice 2 4 rest) with (to_be_bytes 2 declared).
  rewrite from_to_be_bytes_small by (change (8 * Z.of_nat 2) with 16; unfold in_u in *; lia).
  assert (length rest = (4 + length l)%nat) as Hl
    by (unfold rest; rewrite !length_app, length_to_be_bytes; cbn; lia).
  rewrite Hl. repeat case_if; try done; lia.
Qed.

Definition declared_len (ts : Z) (payload : list Z) : Z :=
  if (ts =? TS_BIT) || (ts =? TS_WORD) || (ts =? 0x05) || (ts =? TS_DWORD) || (ts =? 0x07)
  then wrap16 (Z.of_nat (length payload)) * 8 else Z.of_nat (length payload).

Lemma parse_read_answer b i :
  healthy b → byte_kind (mi_transport_size i) ∨ mi_transport_size i = TS_BIT →
  Z.of_nat (length (read_image (mb_values b) i)) < 5000 →
  parse_read_response [FUNCTION_READ; 1; 0; 0] (read_answer (count_request b) i) 1 =
    Ok [{| rir_return_code := RC_SUCCESS; rir_transport_size := mi_transport_size i;
           rir_payload := read_image (mb_values b) i |}].
Proof.
  intros Hb Hk Hlen. unfold parse_read_response. change (check_read_header _ 1) with (Ok (E := S7Error.t) ()).
  cbn [outcome_bind]. unfold read_answer. change (mb_values (count_request b)) with (mb_values b).
  rewrite return_code_healthy by done. cbn zeta.
  set (payload := read_image (mb_values b) i) in *. set (pad := if (length payload mod 2 =? 1)%nat then [0] else []).
  fold (declared_len (mi_transport_size i) payload).
  assert (in_u 16 (declared_len (mi_transport_size i) payload)) as Hd.
  { unfold declared_len, in_u. case_if; [rewrite wrap_small by (unfold in_u; lia)|]; lia. }
  pose proof (Nat.mod_upper_bound (length payload) 2 ltac:(lia)) as Hub.
  apply read_items_one; [|done|].
  { unfold pad. destruct (length payload mod 2 =? 1)%nat eqn:E; [apply Nat.eqb_eq in E; by rewrite E|].
    apply Nat.eqb_neq in E. change (length []) with 0%nat. lia. }
  rewrite payload_len_header by done. unfold declared_len.
  assert (mi_transport_size i = TS_WORD ∨ mi_transport_size i = TS_DWORD → pad = []) as Hpad.
  { intros Hw. unfold pad, payload. rewrite read_image_bytes, length_image_bytes by (unfold byte_kind; tauto).
    assert (∃ u, unit_of (mi_transport_size i) = (u * 2)%nat) as [u ->]
      by (destruct Hw as [->| ->]; [by exists 1%nat|by exists 2%nat]).
    by rewrite Nat.mul_assoc, Nat.Div0.mod_mul. }
  destruct Hk as [[Hk|[Hk|Hk]]|Hk]; rewrite Hk in *; cbn [TS_BIT TS_BYTE TS_WORD TS_DWORD Z.eqb Pos.eqb orb].
  - lia.
  - rewrite Hpad by (by left). by rewrite app_nil_r.
  - rewrite Hpad by (by right). by rewrite app_nil_r.
  - rewrite wrap_small by (unfold in_u; lia). rewrite div_ceil_8. lia.
Qed.

(** ** A driver connected to a device without faults *)
Record serving (config : S7Config) (pdu : Z) (v : image) (s : S7commDriver () * Line) : Prop := {
  sv_config : sd_config s.1 = config;
  sv_session : ∃ t, sd_session s.1 = Some t ∧ ts_stream t = Some () ∧ ts_negotiated_pdu t = pdu;
  sv_idle : idle s.2;
  sv_healthy : healthy (mk_behavior (ln_conn s.2));
  sv_values : mb_values (mk_behavior (ln_conn s.2)) = v;
}.

Lemma healthy_count b : healthy b → healthy (count_request b).
Proof. by intros []. Qed.

Lemma healthy_set_values v ws rs b : healthy b → healthy (set_values v ws rs b).
Proof. by intros []. Qed.

Lemma length_build_read r item : length (build_read r [item]) = 24%nat.
Proof. done. Qed.

(** ** Plans whose Any pointer the wire can carry *)
Record plan_ok (p : ReadPlan) (item : AnyItem) : Prop := {
  po_item : read_any_item p = Ok item;
  po_any : any_ok item;
  po_kind : byte_kind (ai_transport_size item) ∨ ai_transport_size item = TS_BIT;
  po_size : ai_length item * 4 < 4900;
}.

Lemma length_read_image v i :
  byte_kind (mi_transport_size i) ∨ mi_transport_size i = TS_BIT → 0 ≤ mi_length i →
  Z.of_nat (length (read_image v i)) ≤ Z.max 1 (mi_length i * 4).
Proof.
  intros [Hk|Hk] Hl.
  - rewrite read_image_bytes, length_image_bytes by done.
    destruct Hk as [->|[->| ->]]; cbn [unit_of TS_BYTE TS_WORD TS_DWORD Z.eqb Pos.eqb]; lia.
  - unfold read_image. rewrite Hk. cbn. lia.
Qed.

Lemma with_session_run {A} (m : stm (TcpSession () * Line) S7Error.t A) d w t :
  sd_session d = Some t →
  with_session m (d, w) = let '((t', w'), r) := m (t, w) in ((set_session t' d, w'), r).
Proof. intros H. unfold with_session. by rewrite H. Qed.

(** The device answers the request of a plan with the bytes it stores. *)
Lemma execute_read_plan_served config pdu v s p item :
  serving config pdu v s → plan_ok p item →
  ∃ s', serving config pdu v s' ∧
    execute_read_plan p s =
      (s', Ok {| ir_return_code := RC_SUCCESS; ir_payload := read_image v (mock_item item) |}).
Proof.
  destruct s as [d l]. intros [Hcfg (t & Ht & Hst & Hpdu) Hidle Hh Hv] [Hp Hany Hkind Hsize].
  cbn [fst snd] in *. unfold execute_read_plan. rewrite (with_session_run _ _ _ _ Ht).
  set (r := wrap16 (ts_pdu_ref t + 1)).
  assert (in_u 16 r) as Hr by (apply wrap_range; lia).
  set (t1 := {| ts_host := ts_host t; ts_port := ts_port t; ts_rack := ts_rack t; ts_slot := ts_slot t;
    ts_timeout := ts_timeout t; ts_stream := ts_stream t; ts_pdu_ref := r;
    ts_negotiated_pdu := ts_negotiated_pdu t |}).
  assert (next_ref (t, l) = ((t1, l), Ok r)) as Hn by done.
  rewrite (sbind_Ok _ _ _ _ _ Hn).
  unfold slift at 1. unfold sbind at 1. rewrite Hp.
  assert (Z.of_nat (length (read_image v (mock_item item))) < 4900) as Hlen.
  { pose proof (length_read_image v (mock_item item) Hkind). destruct (ao_len _ Hany). cbn in *. lia. }
  set (b := mk_behavior (ln_conn l)) in *.
  assert (Z.of_nat (length (read_answer (count_request b) (mock_item item))) < 5000) as Ha.
  { unfold read_answer. change (mb_values (count_request b)) with (mb_values b). rewrite Hv.
    rewrite !length_app, length_to_be_bytes. case_if; cbn [length]; lia. }
  assert (healthy (read_served b (mock_item item))) as Hh' by (apply healthy_set_values, healthy_count, Hh).
  rewrite (sbind_Ok _ _ _ _ _ (exchange_line t1 l r (build_read r [item]) (read_served b (mock_item item))
    [FUNCTION_READ; 1; 0; 0] (read_answer (count_request b) (mock_item item)) Hst Hidle Hh Hh'
    ltac:(rewrite length_build_read; lia) ltac:(rewrite length_build_read; lia) Hr
    ltac:(lia) ltac:(cbn; lia) (handle_s7_read _ _ _ Hany Hh Hr))).
  cbn [ao_param ao_data]. unfold slift at 1. unfold sbind. cbn iota beta.
  rewrite parse_read_answer; [|done|done|fold b; rewrite Hv; lia]. cbn [rir_return_code rir_payload]. rewrite Hv.
  eexists. split; [|reflexivity]. split; cbn; try done. by exists t1.
Qed.

(** ** The results of a batch *)
Definition read_result (id : Z) (o : outcome S7Error.t RawValue.t) : RawReadResult :=
  match o with
  | Ok v => {| rr_item_id := id; rr_value := Some v; rr_source_timestamp_ns := None;
               rr_received_timestamp_ns := 0; rr_protocol_quality_code := Some 0; rr_error := None |}
  | Err e => error_result_with_ts id e 0
  | Panic => error_result_with_ts id S7Error.driver_panic 0
  end.

Lemma item_value_no_panic planned response : item_value planned response ≠ Panic.
Proof.
  unfold item_value. case_if; [done|]. destruct (get_slice _ _ _) as [bytes|]; [|done].
  unfold decode_read. case_if; [done|].
  destruct (pi_ty planned), (pi_expected_type planned) as [[]|]; done.
Qed.

Lemma assemble_items_run response items (d : S7commDriver ()) (l : Line) :
  assemble_items response items (d, l) =
    ((d, l), Ok ((λ i, read_result (pi_item_id i) (item_value i response)) <$> items)).
Proof.
  induction items as [|i items IH]; [done|]. cbn [assemble_items].
  unfold sbind at 1. change (tick (d, l)) with ((d, l), Ok (E := S7Error.t) 0). cbn iota beta.
  unfold sbind at 1, slift. pose proof (item_value_no_panic i response) as Hn. unfold assemble_item.
  cbn [fmap list_fmap].
  destruct (item_value i response); [..|done]; unfold sbind; rewrite IH; done.
Qed.

(** What the plan of an Any pointer yields on a memory image. *)
Definition plan_results (v : image) (p : ReadPlan) : list RawReadResult :=
  match read_any_item p with
  | Ok item =>
      (λ i, read_result (pi_item_id i)
              (item_value i {| ir_return_code := RC_SUCCESS; ir_payload := read_image v (mock_item item) |}))
        <$> rp_items p
  | _ => []
  end.

Lemma read_plans_served config pdu v plans s acc :
  serving config pdu v s → Forall (λ p, ∃ item, plan_ok p item) plans →
  ∃ s', serving config pdu v s' ∧ read_plans plans acc s = (s', Ok (acc ++ (plans ≫= plan_results v))).
Proof.
  intros Hs Hp. revert s acc Hs. induction Hp as [|p plans [item Hok] Hp IH]; intros s acc Hs.
  { exists s. by rewrite app_nil_r. }
  destruct (execute_read_plan_served _ _ _ _ _ _ Hs Hok) as ([d1 l1] & Hs1 & Hrun).
  destruct (IH _ (acc ++ plan_results v p) Hs1) as (s2 & Hs2 & Hrun2). exists s2. split; [done|].
  cbn [read_plans]. rewrite (sbind_Ok _ _ _ _ _ Hrun), (sbind_Ok _ _ _ _ _ (assemble_items_run _ _ d1 l1)).
  change (mbind (plan_results v) (p :: plans)) with (plan_results v p ++ (plans ≫= plan_results v)).
  rewrite app_assoc, <- Hrun2. do 2 f_equal. unfold plan_results. by rewrite (po_item _ _ Hok).
Qed.

Lemma area_code_u8 a : in_u 8 (Area.code a).
Proof. destruct a; by vm_compute. Qed.

(** Every plan of a batch has such a pointer. *)
Lemma plan_read_ok items pdu max plans p :
  plan_read_batch items pdu max = Ok plans → p ∈ plans → 64 ≤ pdu ≤ PROPOSED_PDU_SIZE → (1 ≤ max ≤ 20)%nat →
  ∃ item, plan_ok p item.
Proof.
  intros H Hp Hpdu Hmax. unfold PROPOSED_PDU_SIZE in Hpdu.
  destruct (plan_read_bounds _ _ _ _ _ H Hp ltac:(lia) Hmax) as ([Hne _] & Hstart & Hdata & Hfit).
  destruct (plan_read_chunk _ _ _ _ _ H Hp) as (area & db & is_bit & c & Hc & Hfl).
  destruct (rp_items p) as [|first rest] eqn:Ei; [cbn in Hne; lia|].
  destruct (chunk_located _ _ _ _ _ _ _ _ first Hc Hfl) as (item & a & Hloc); [rewrite Ei; by left|].
  pose proof (parse_wf _ _ (lo_parse _ _ _ _ _ Hloc)) as [Hdb Hby Hbi _].
  unfold ACK_HEADER_LEN in Hfit. pose proof (area_code_u8 (sa_area a)) as Ha.
  rewrite <- (lo_area _ _ _ _ _ Hloc) in Ha. rewrite <- (lo_db _ _ _ _ _ Hloc) in Hdb.
  rewrite <- (lo_bit _ _ _ _ _ Hloc) in Hbi.
  eexists. split.
  - unfold read_any_item. rewrite Ei. reflexivity.
  - assert (in_u 16 (rp_db p)) as Hu by (unfold in_u; destruct (sa_area a); lia).
    destruct (pi_ty first); (split; cbn [ai_transport_size ai_length ai_area_code ai_db ai_byte_offset ai_bit];
      [done|first [apply wrap_range; lia | done]|done..|lia]).
  - destruct (pi_ty first); cbn; unfold byte_kind; tauto.
  - destruct (pi_ty first); cbn; [lia|..]; rewrite wrap_small by (unfold in_u; dlia); dlia.
Qed.

Lemma ensure_connected_served config pdu v s :
  serving config pdu v s → ensure_connected s = (s, Ok pdu).
Proof.
  destruct s as [[cfg sess err] l]. intros [_ (t & Ht & Hst & Hpdu) _ _ _]. cbn [fst snd sd_session] in *. subst sess.
  unfold ensure_connected, sbind, with_session. cbn [sd_session]. unfold is_connected. cbn [fst]. rewrite Hst.
  cbn. by rewrite Hpdu.
Qed.

Definition usable (config : S7Config) (pdu : Z) : Prop :=
  64 ≤ pdu ≤ PROPOSED_PDU_SIZE ∧ (1 ≤ s7_max_items_per_pdu config ≤ 20)%nat.

(** A batch read returns what the Any pointers of its plans find. *)
Lemma read_batch_served config pdu v s items plans :
  serving config pdu v s → usable config pdu →
  plan_read_batch items pdu (s7_max_items_per_pdu config) = Ok plans →
  ∃ s', serving config pdu v s' ∧
    read_batch items s = (s', Ok (sort_by_key rr_item_id (plans ≫= plan_results v))).
Proof.
  intros Hs [Hpdu Hmax] Hplans.
  destruct (read_plans_served config pdu v plans s [] Hs) as (s' & Hs' & Hrun).
  { apply Forall_forall. intros p Hp. by eapply plan_read_ok. }
  exists s'. split; [done|]. unfold read_batch.
  rewrite (sbind_Ok _ _ _ _ _ (ensure_connected_served _ _ _ _ Hs)). destruct s as [d l].
  rewrite (sbind_Ok _ _ _ (d, l) (d, l)) by done. pose proof (sv_config _ _ _ _ Hs) as Hc. cbn in Hc.
  rewrite Hc. unfold slift at 1. unfold sbind at 1. rewrite Hplans. cbn iota beta.
  by rewrite (sbind_Ok _ _ _ _ _ Hrun).
Qed.

(** ** Reading an item on its own *)
Definition cell_bytes (v : image) (area db byte bit : Z) (ty : S7Type.t) : list Z :=
  match ty with
  | S7Type.Bit => [if Z.testbit (image_byte v area db byte) bit then 1 else 0]
  | ty => image_bytes v area db byte (Z.to_nat (S7Type.width_bytes ty))
  end.

Definition decoded (ty : S7Type.t) (expected : option DataType.t) (bytes : list Z) :
    outcome S7Error.t RawValue.t :=
  match decode_read ty expected bytes with
  | Ok out => Ok (RawValueOut.to_raw out)
  | Err _ => Err S7Error.decode_error
  | Panic => Panic
  end.

Definition read_alone (v : image) (item : DriverReadItem) : option RawReadResult :=
  match parse (ri_address item) with
  | Ok a =>
      Some (read_result (ri_id item)
              (decoded (sa_ty a) (ri_expected_type item)
                 (cell_bytes v (Area.code (sa_area a)) (sa_db a) (sa_byte a) (sa_bit a) (sa_ty a))))
  | _ => None
  end.

Definition entry_result (v : image) (key : Z * Z * bool) (e : Keyed) : RawReadResult :=
  read_result (pi_item_id e.2)
    (decoded (pi_ty e.2) (pi_expected_type e.2)
       (cell_bytes v key.1.1 key.1.2 (e.1 / 8) (pi_bit e.2) (pi_ty e.2))).

Lemma read_alone_entry v item a :
  parse (ri_address item) = Ok a → read_alone v item = Some (entry_result v (read_key a) (keyed item a)).
Proof.
  intros Ha. unfold read_alone, entry_result. rewrite Ha. rewrite keyed_byte by (by eapply parse_wf). done.
Qed.

(** Items one request can serve together: bits that do not follow each other,
    and other items of one width at distances that are multiples of it. *)
Definition compatible (x y : DriverReadItem) : Prop :=
  ∀ a b, parse (ri_address x) = Ok a → parse (ri_address y) = Ok b → read_key a = read_key b →
    match sa_ty a with
    | S7Type.Bit => sa_byte b * 8 + sa_bit b ≠ sa_byte a * 8 + sa_bit a + 1
    | ty => sa_ty b = ty ∧ (sa_byte b - sa_byte a) mod S7Type.width_bytes ty = 0
    end.

Lemma read_image_bit v area db byte bit :
  0 ≤ bit →
  read_image v {| mi_transport_size := TS_BIT; mi_length := 1; mi_area := area; mi_db := db;
                  mi_start_byte := byte; mi_bit := bit |} = cell_bytes v area db byte bit S7Type.Bit.
Proof. intros Hb. unfold read_image, cell_bytes. cbn. by rewrite testbit_mask. Qed.

Lemma get_slice_image v area db start n off w :
  0 ≤ off → 0 ≤ w → off + w ≤ Z.of_nat n →
  get_slice off w (image_bytes v area db start n) = Some (image_bytes v area db (start + off) (Z.to_nat w)).
Proof.
  intros H0 Hw Hn. unfold get_slice. rewrite length_image_bytes.
  replace (Z.of_nat n <? off + w) with false by lia. f_equal.
  replace (Z.to_nat (off + w)) with (Z.to_nat off + Z.to_nat w)%nat by lia.
  rewrite image_bytes_slice by lia. f_equal. lia.
Qed.

(** The entries of a bit chunk follow each other, so compatible items leave one. *)
Lemma bit_chunk_single items pdu max area db c :
  read_chunk items pdu max (area, db, true) c → (∀ x y, x ∈ items → y ∈ items → compatible x y) →
  ∃ e, c = [e].
Proof.
  intros [[Hne _] _ He Hch] Hcomp. destruct c as [|e [|f c]]; [done|by exists e|]. exfalso.
  specialize (Hch eq_refl 0%nat e f eq_refl eq_refl). apply Z.eqb_eq in Hch.
  apply Forall_cons in He as [(x & a & Hx & Ha & Hka & ->) He].
  apply Forall_cons in He as [(y & b & Hy & Hb & Hkb & ->) _]. cbn in Hch.
  specialize (Hcomp x y Hx Hy a b Ha Hb ltac:(congruence)).
  injection Hka as _ _ Hbit. symmetry in Hbit. apply bool_decide_eq_true in Hbit. rewrite Hbit in Hcomp. lia.
Qed.

Lemma entry_bit items key e : entry_of items key e → key.2 = bool_decide (pi_ty e.2 = S7Type.Bit).
Proof. by intros (x & a & _ & _ & -> & ->). Qed.

(** The range of a chunk of compatible items is a whole number of units. *)
Lemma chunk_whole items pdu max area db e c :
  read_chunk items pdu max (area, db, false) (e :: c) →
  (∀ x y, x ∈ items → y ∈ items → compatible x y) →
  (∀ f, f ∈ e :: c → pi_ty f.2 = pi_ty e.2) ∧
  (data_end (e :: c) - e.1 / 8) mod S7Type.width_bytes (pi_ty e.2) = 0.
Proof.
  intros [_ _ He _] Hcomp. rewrite Forall_forall in He.
  assert (∀ f, f ∈ e :: c → pi_ty f.2 = pi_ty e.2 ∧
    (f.1 / 8 - e.1 / 8) mod S7Type.width_bytes (pi_ty e.2) = 0 ∧ 0 ≤ end_byte f) as Hall.
  { intros f Hf. destruct (He e ltac:(by left)) as (x & a & Hx & Ha & Hka & ->).
    destruct (He f Hf) as (y & b & Hy & Hb & Hkb & ->).
    pose proof (parse_wf _ _ Ha) as Hwa. pose proof (parse_wf _ _ Hb) as Hwb.
    rewrite !keyed_byte, keyed_end by done. cbn [keyed snd pi_ty].
    specialize (Hcomp x y Hx Hy a b Ha Hb ltac:(congruence)).
    injection Hka as _ _ Hbit. symmetry in Hbit. apply bool_decide_eq_false in Hbit.
    unfold width_bytes. pose proof (width_range (sa_ty b)). destruct Hwb.
    split_and!; [| |lia]; by destruct (sa_ty a); try done; destruct Hcomp. }
  split; [naive_solver|].
  destruct (data_end_attained (e :: c)) as (f & Hf & ->); [done| |].
  { apply Forall_forall. intros f Hf. by apply Hall. }
  destruct (Hall f Hf) as (Hty & Hmod & _). unfold end_byte. rewrite Hty.
  pose proof (width_range (pi_ty e.2)) as Hw.
  replace (f.1 / 8 + S7Type.width_bytes (pi_ty e.2) - e.1 / 8)
    with (f.1 / 8 - e.1 / 8 + 1 * S7Type.width_bytes (pi_ty e.2)) by lia.
  by rewrite Z.mod_add by lia.
Qed.

(** The pointer of a chunk of whole units reads its range. *)
Lemma read_any_range v p first rest item :
  rp_items p = first :: rest → pi_ty first ≠ S7Type.Bit → read_any_item p = Ok item →
  0 ≤ rp_data_len p < 2 ^ 16 → rp_data_len p mod S7Type.width_bytes (pi_ty first) = 0 →
  read_image v (mock_item item) =
    image_bytes v (rp_area_code p) (rp_db p) (rp_start_byte p) (Z.to_nat (rp_data_len p)).
Proof.
  intros Hi Hty Hitem Hlen Hmod. unfold read_any_item in Hitem. rewrite Hi in Hitem.
  injection Hitem as <-. pose proof (width_range (pi_ty first)) as Hw.
  assert (rp_data_len p = S7Type.width_bytes (pi_ty first) * (rp_data_len p / S7Type.width_bytes (pi_ty first)))
    as Hd by (apply Z_div_exact_full_2; lia).
  destruct (pi_ty first); [done|..]; rewrite read_image_bytes by (unfold byte_kind; cbn; tauto);
    cbn [mock_item ai_transport_size ai_length ai_area_code ai_db ai_byte_offset mi_transport_size mi_length
         mi_area mi_db mi_start_byte S7Type.width_bytes] in *;
    rewrite wrap_small by (unfold in_u; dlia); f_equal; unfold unit_of; cbn [Z.eqb Pos.eqb TS_BYTE TS_WORD TS_DWORD]; lia.
Qed.

Lemma item_value_success planned payload bytes :
  get_slice (pi_offset_in_data planned) (S7Type.width_bytes (pi_ty planned)) payload = Some bytes →
  item_value planned {| ir_return_code := RC_SUCCESS; ir_payload := payload |} =
    decoded (pi_ty planned) (pi_expected_type planned) bytes.
Proof. intros H. unfold item_value, decoded. cbn [ir_return_code ir_payload negb Z.eqb]. by rewrite H. Qed.

Lemma bit_chunk_results items pdu max v area db c p :
  read_chunk items pdu max (area, db, true) c → flush_read c area db = [p] →
  (∀ x y, x ∈ items → y ∈ items → compatible x y) →
  plan_results v p = entry_result v (area, db, true) <$> c.
Proof.
  intros Hc Hfl Hcomp. pose proof (rc_entries _ _ _ _ _ Hc) as He.
  destruct (bit_chunk_single _ _ _ _ _ _ Hc Hcomp) as [[k e] ->]. injection Hfl as <-.
  pose proof (Forall_inv He) as Hent. pose proof (entry_bit _ _ _ Hent) as Hbit.
  symmetry in Hbit. apply bool_decide_eq_true in Hbit. cbn in Hbit.
  destruct Hent as (x & a & _ & Ha%parse_wf & _ & Hk). injection Hk as -> ->.
  unfold plan_results, read_any_item. cbn [rp_items fmap list_fmap pi_ty] in *. rewrite Hbit.
  unfold entry_result. cbn [fst snd pi_ty]. do 2 f_equal.
  rewrite <- read_image_bit by apply Ha. unfold mock_item. cbn [fst snd pi_item_id pi_bit].
  erewrite item_value_success; [reflexivity|]. cbn [pi_offset_in_data pi_ty snd fst]. by rewrite Z.sub_diag.
Qed.

Lemma wide_chunk_results items pdu max v area db c p :
  read_chunk items pdu max (area, db, false) c → flush_read c area db = [p] →
  (∀ x y, x ∈ items → y ∈ items → compatible x y) → 0 ≤ rp_data_len p < 2 ^ 16 →
  plan_results v p = entry_result v (area, db, false) <$> c.
Proof.
  intros Hc Hfl Hcomp Hlen. pose proof (rc_entries _ _ _ _ _ Hc) as He.
  destruct c as [|[fk fi] c]; [done|]. injection Hfl as <-.
  destruct (chunk_whole _ _ _ _ _ _ _ Hc Hcomp) as [Hty Hmod].
  pose proof (data_end_ge ((fk, fi) :: c)) as Hge. revert Hge Hmod Hlen.
  generalize (data_end ((fk, fi) :: c)) as D. intros D Hge Hmod Hlen.
  pose proof (entry_bit _ _ _ (Forall_inv He)) as Hbit. symmetry in Hbit. apply bool_decide_eq_false in Hbit.
  set (p := {| rp_area_code := area |}) in *. cbn [fst snd] in *.
  assert (∃ item, read_any_item p = Ok item) as [item Hitem] by (by eexists).
  unfold plan_results. rewrite Hitem.
  rewrite (read_any_range v p _ _ item eq_refl Hbit Hitem Hlen Hmod).
  change (rp_items p) with ((λ e : Keyed, {| pi_item_id := pi_item_id e.2;
    pi_expected_type := pi_expected_type e.2; pi_offset_in_data := (e.1 - fk) / 8; pi_ty := pi_ty e.2;
    pi_bit := pi_bit e.2 |}) <$> (fk, fi) :: c).
  rewrite <- list_fmap_compose. apply list_fmap_ext. intros i f Hf. apply list_elem_of_lookup_2 in Hf.
  rewrite Forall_forall in He. destruct (He f Hf) as (x & a & _ & Ha%parse_wf & _ & ->).
  destruct (He (fk, fi) ltac:(by left)) as (x' & a' & _ & Ha'%parse_wf & _ & Hk). injection Hk as -> ->.
  unfold compose, entry_result. cbn [pi_item_id snd]. f_equal.
  pose proof (Hty _ Hf) as Htyf. cbn [keyed snd pi_ty fst] in *.
  pose proof (sorted_head_le _ _ _ (rc_sorted _ _ _ _ _ Hc) Hf) as Hle.
  pose proof (Hge _ Hf) as Hend. rewrite keyed_end in Hend by done.
  assert (sa_bit a = 0 ∧ sa_bit a' = 0) as [Hb Hb'] by (split; [apply Ha; congruence|by apply Ha']).
  cbn [fst keyed] in Hle. rewrite Hb, Hb' in *. rewrite !Z.add_0_r in *.
  assert ((sa_byte a * 8 - sa_byte a' * 8) / 8 = sa_byte a - sa_byte a') as Hoff by dlia.
  assert (sa_byte a * 8 / 8 = sa_byte a ∧ sa_byte a' * 8 / 8 = sa_byte a') as [Hd Hd'] by dlia.
  rewrite Hd. pose proof (width_range (sa_ty a)) as Hw. unfold width_bytes in Hend.
  erewrite item_value_success; [reflexivity|]. cbn [pi_offset_in_data pi_ty]. rewrite Hoff.
  rewrite get_slice_image; [|lia|lia|].
  - unfold cell_bytes. rewrite Htyf. cbn [rp_area_code rp_db rp_start_byte p].
    rewrite Hb', Z.add_0_r, Hd'. replace (sa_byte a' + (sa_byte a - sa_byte a')) with (sa_byte a) by lia.
    by destruct (sa_ty a').
  - cbn [rp_data_len p fst] in *. rewrite Hb', Z.add_0_r, Hd' in *. lia.
Qed.

Lemma group_results items pdu max v area db is_bit (chunks : list (list Keyed)) :
  Forall (read_chunk items pdu max (area, db, is_bit)) chunks →
  (∀ x y, x ∈ items → y ∈ items → compatible x y) → 64 ≤ pdu ≤ PROPOSED_PDU_SIZE → (1 ≤ max ≤ 20)%nat →
  ((chunks ≫= λ c, flush_read c area db) ≫= plan_results v) =
    entry_result v (area, db, is_bit) <$> concat chunks.
Proof.
  intros Hc Hcomp Hpdu Hmax. induction Hc as [|c chunks Hc _ IH]; [done|].
  cbn [concat]. rewrite bind_cons, bind_app, fmap_app, IH. f_equal.
  destruct c as [|[fk fi] c]; [by destruct (rc_ok _ _ _ _ _ Hc)|].
  destruct (read_chunk_end _ _ _ _ _ _ Hc Hmax) as [_ Hd]. unfold PROPOSED_PDU_SIZE in Hpdu.
  assert (∃ p, flush_read ((fk, fi) :: c) area db = [p] ∧ rp_data_len p = data_end ((fk, fi) :: c) - fk / 8)
    as (p & Hp & Hlen) by (by eexists).
  rewrite Hp. cbn [mbind list_bind]. rewrite app_nil_r. cbn [fst] in Hd. destruct is_bit.
  - by eapply bit_chunk_results.
  - eapply wide_chunk_results; try done. rewrite Hlen. lia.
Qed.

Lemma plan_results_alone items pdu max v plans :
  plan_read_batch items pdu max = Ok plans →
  (∀ x y, x ∈ items → y ∈ items → compatible x y) → 64 ≤ pdu ≤ PROPOSED_PDU_SIZE → (1 ≤ max ≤ 20)%nat →
  Some <$> (plans ≫= plan_results v) ≡ₚ read_alone v <$> items.
Proof.
  intros (groups & -> & Hall & addrs & Hf & Hp)%plan_read_batch_chunks Hcomp Hpdu Hmax.
  transitivity (Some <$> (groups ≫= λ g, entry_result v g.1 <$> g.2)).
  - apply fmap_Permutation. clear Hp Hf. unfold btree_all in Hall.
    induction Hall as [|[[[area db] is_bit] entries] groups Hg _ IH]; [done|].
    rewrite !bind_cons, bind_app. f_equiv; [|exact IH].
    rewrite (group_results items pdu max _ _ _ is_bit); try done.
    + rewrite group_chunks_concat. cbn [fst snd]. by rewrite sort_by_key_perm.
    + apply Forall_forall. intros c Hc. by eapply group_chunks_read_chunk.
  - rewrite bind_pairs, Hp. clear Hp Hall.
    induction Hf as [|item a items addrs Ha Hf IH]; [done|]. cbn [zip_with fmap list_fmap].
    rewrite (read_alone_entry _ _ _ Ha). cbn [fst snd]. f_equiv. apply IH.
    intros x y Hx Hy. apply Hcomp; by right.
Qed.

(** C25: an S7 batch read is transparent.  On a healthy device a batch of bits
    that do not follow each other and of other items that, within a block, have
    one width at distances that are multiples of it returns for every item
    exactly what the memory image of the device holds at its address, decoded
    on its own: grouping, merging into Any pointers, splitting at the budget of
    the PDU, framing and slicing lose nothing. *)
Theorem s7_read_transparent config pdu v s items plans :
  serving config pdu v s → usable config pdu →
  plan_read_batch items pdu (s7_max_items_per_pdu config) = Ok plans →
  (∀ x y, x ∈ items → y ∈ items → compatible x y) →
  ∃ s' rs, read_batch items s = (s', Ok rs) ∧ serving config pdu v s' ∧
    Some <$> rs ≡ₚ read_alone v <$> items.
Proof.
  intros Hs Hu Hplans Hcomp. destruct (read_batch_served _ _ _ _ _ _ Hs Hu Hplans) as (s' & Hs' & Hrun).
  eexists s', _. split; [exact Hrun|]. split; [done|]. rewrite sort_by_key_perm.
  destruct Hu as [Hpdu Hmax]. by eapply plan_results_alone.
Qed.

(** ** Pairs of items the planner merges *)
Lemma read_key_cmp_refl k : read_key_cmp k k = Eq.
Proof. destruct k as [[a b] []]; cbn; by rewrite !Z.compare_refl. Qed.

Lemma plan_pair x y a b pdu max :
  parse (ri_address x) = Ok a → parse (ri_address y) = Ok b → read_key a = read_key b →
  (keyed x a).1 < (keyed y b).1 → (sa_ty a = S7Type.Bit → (keyed x a).1 + 1 = (keyed y b).1) →
  read_overflows pdu max [keyed x a] (keyed y b) = false →
  plan_read_batch [x; y] pdu max =
    Ok (flush_read [keyed x a; keyed y b] (Area.code (sa_area a)) (sa_db a)).
Proof.
  intros Ha Hb Hkey Hlt Hbit Ho. unfold plan_read_batch. cbn [group_reads]. rewrite Ha. cbn [map_err outcome_bind].
  fold (read_key a) (keyed x a). cbn [btree_push]. rewrite Hb. cbn [map_err outcome_bind].
  fold (read_key b) (keyed y b). rewrite <- Hkey. cbn [btree_push]. rewrite read_key_cmp_refl.
  cbn [outcome_bind app]. f_equal. rewrite bind_cons, app_nil_r. unfold plan_read_group, read_key at 1.
  assert (sort_by_key fst [keyed x a; keyed y b] = [keyed x a; keyed y b]) as Hsort.
  { cbn -[keyed]. by replace (_ <=? _) with true by lia. }
  rewrite Hsort.
  assert (chunk_reads pdu max (Area.code (sa_area a)) (sa_db a) [keyed x a; keyed y b] [] =
    flush_read [keyed x a; keyed y b] (Area.code (sa_area a)) (sa_db a)) as Hchunk.
  { cbn [chunk_reads app]. change (read_overflows pdu max [] (keyed x a)) with false. cbv iota. by rewrite Ho. }
  case_bool_decide as Ht.
  - assert (split_runs (λ p e : Keyed, p.1 + 1 =? e.1) [keyed x a; keyed y b] = [[keyed x a; keyed y b]]) as ->.
    { unfold split_runs. cbn -[keyed]. by rewrite (Hbit Ht), Z.eqb_refl. }
    by rewrite bind_cons, app_nil_r.
  - by rewrite bind_cons, app_nil_r.
Qed.

Lemma sort_pair i j o1 o2 :
  i < j → sort_by_key rr_item_id [read_result i o1; read_result j o2] = [read_result i o1; read_result j o2].
Proof.
  intros Hij. apply sort_by_key_id. repeat constructor. unfold key_le. destruct o1, o2; cbn; lia.
Qed.

(** S7 bits that follow each other are misread.  When a batch asks for two
    bits one after the other, the planner merges them into one plan whose Any
    pointer reads a single bit, and both items are reported, as good values,
    with the value of the first, whatever the device holds in the second. *)
Theorem s7_adjacent_bits_misread config pdu v s x y a b :
  serving config pdu v s → usable config pdu → (2 ≤ s7_max_items_per_pdu config)%nat →
  parse (ri_address x) = Ok a → parse (ri_address y) = Ok b → read_key a = read_key b →
  sa_ty a = S7Type.Bit → sa_byte b * 8 + sa_bit b = sa_byte a * 8 + sa_bit a + 1 →
  ri_expected_type x = None → ri_expected_type y = None → ri_id x < ri_id y →
  let first := RawValue.Bool (Z.testbit (image_byte v (Area.code (sa_area a)) (sa_db a) (sa_byte a)) (sa_bit a)) in
  ∃ s', read_batch [x; y] s =
    (s', Ok [read_result (ri_id x) (Ok first); read_result (ri_id y) (Ok first)]).
Proof.
  cbv zeta. intros Hs Hu Hmax2 Ha Hb Hkey Hty Hadj Hx Hy Hid. pose proof Hu as [Hpdu Hmax].
  pose proof (parse_wf _ _ Ha) as Hwa. pose proof (parse_wf _ _ Hb) as Hwb. unfold PROPOSED_PDU_SIZE in Hpdu.
  assert (sa_ty b = S7Type.Bit) as Htyb.
  { injection Hkey as _ _ Hk. rewrite Hty in Hk. symmetry in Hk. by apply bool_decide_eq_true in Hk. }
  destruct (read_batch_served config pdu v s [x; y]
    (flush_read [keyed x a; keyed y b] (Area.code (sa_area a)) (sa_db a)) Hs Hu) as (s' & _ & Hrun).
  { apply plan_pair; try done; cbn [keyed fst]; [lia..|]. unfold read_overflows. cbn [keyed length].
    unfold end_byte, read_data_budget, JOB_HEADER_LEN. cbn [keyed fst snd pi_ty]. rewrite Htyb.
    cbn [S7Type.width_bytes]. destruct Hwa, Hwb. rewrite wrap_small by (unfold in_u; lia). dlia. }
  exists s'. rewrite Hrun. do 2 f_equal. cbn [flush_read keyed]. rewrite bind_cons, app_nil_r.
  unfold plan_results, read_any_item. cbn [rp_items fmap list_fmap pi_ty keyed snd fst]. rewrite Hty, Htyb, Hx, Hy.
  unfold mock_item. cbn [ai_transport_size ai_length ai_area_code ai_db ai_byte_offset ai_bit rp_area_code rp_db
    rp_start_byte pi_bit pi_item_id]. rewrite read_image_bit by apply Hwa.
  destruct Hwa, Hwb.
  replace ((sa_byte a * 8 + sa_bit a) / 8) with (sa_byte a) by dlia.
  rewrite Z.sub_diag. rewrite Hadj.
  replace ((sa_byte a * 8 + sa_bit a + 1 - (sa_byte a * 8 + sa_bit a)) / 8) with 0 by dlia.
  rewrite sort_pair by done. unfold cell_bytes. by destruct (Z.testbit _ _).
Qed.

(** An S7 item after a wider one is lost.  When a batch asks for a double
    word and the word that follows it, the planner merges them, but the Any
    pointer counts double words and rounds down: the response of a healthy
    device ends before the word, which is reported as an invalid response. *)
Theorem s7_mixed_widths_lost config pdu v s x y a b :
  serving config pdu v s → usable config pdu → (2 ≤ s7_max_items_per_pdu config)%nat →
  parse (ri_address x) = Ok a → parse (ri_address y) = Ok b →
  sa_area b = sa_area a → sa_db b = sa_db a → sa_ty a = S7Type.Dword → sa_ty b = S7Type.Word →
  sa_byte b = sa_byte a + 4 → ri_id x < ri_id y →
  ∃ s' r, read_batch [x; y] s = (s', Ok [r; read_result (ri_id y) (Err S7Error.invalid_response)]).
Proof.
  intros Hs Hu Hmax2 Ha Hb Harea Hdb Hty Htyb Hbyte Hid. pose proof Hu as [Hpdu Hmax].
  pose proof (parse_wf _ _ Ha) as Hwa. pose proof (parse_wf _ _ Hb) as Hwb. unfold PROPOSED_PDU_SIZE in Hpdu.
  assert (sa_bit a = 0 ∧ sa_bit b = 0) as [Hba Hbb] by (split; [apply Hwa|apply Hwb]; congruence).
  assert (read_key a = read_key b) as Hkey by (unfold read_key; by rewrite Hty, Htyb, Harea, Hdb).
  destruct (read_batch_served config pdu v s [x; y]
    (flush_read [keyed x a; keyed y b] (Area.code (sa_area a)) (sa_db a)) Hs Hu) as (s' & _ & Hrun).
  { apply plan_pair; try done; cbn [keyed fst]; [lia|by rewrite Hty|]. unfold read_overflows. cbn [keyed length].
    unfold end_byte, read_data_budget, JOB_HEADER_LEN. cbn [keyed fst snd pi_ty]. rewrite Htyb.
    cbn [S7Type.width_bytes]. destruct Hwa, Hwb. rewrite wrap_small by (unfold in_u; lia). dlia. }
  exists s'. rewrite Hrun.
  assert (data_end [keyed x a; keyed y b] = sa_byte a + 6) as Hend.
  { unfold data_end. cbn [fmap list_fmap foldr]. rewrite !keyed_end by done. unfold width_bytes.
    rewrite Hty, Htyb. destruct Hwa. cbn. lia. }
  unfold flush_read. rewrite Hend. cbn [keyed fmap list_fmap fst snd].
  rewrite Hba, Hbb, Hbyte. replace ((sa_byte a * 8 + 0) / 8) with (sa_byte a) by dlia.
  replace (((sa_byte a + 4) * 8 + 0 - (sa_byte a * 8 + 0)) / 8) with 4 by dlia.
  replace (sa_byte a + 6 - sa_byte a) with 6 by lia.
  rewrite bind_cons, app_nil_r. unfold plan_results, read_any_item.
  cbn [rp_items fmap list_fmap pi_ty snd fst pi_item_id]. rewrite Hty, Htyb.
  rewrite sort_pair by done. eexists. reflexivity.
Qed.
