(* ===== verification/S7WriteEndToEnd.v ===== *)
(** * Laws of the S7 write planner

    What a batch of writes means for the memory of the device, entry by entry,
    and that its plans amount to the same: they carry exactly the encodable
    requests, respect the negotiated PDU, and a merged plan stores what its
    entries would store one after the other. *)

From S2P Require Import Prelude RustStd ObservationModel DriverAbi BatchRuns S7Address S7Codec S7Batch.
From S2P Require Import S7Driver S7Loopback S7EndToEnd.
From stdpp Require Import options.

(** ** Requests *)
Abbreviation WriteKey := (Z * Z * S7Type.t)%type.

Definition write_key (a : S7Address) : WriteKey := (area_code_of (sa_area a), sa_db a, sa_ty a).

(** The entry of a request that is planned. *)
Definition write_entry (item : WriteRequest) : option (WriteKey * EncodedEntry) :=
  match parse (wq_address item) with
  | Ok a =>
      if negb (writable a) then None
      else
        match encode_write (sa_ty a) (wq_value item) with
        | Ok enc => Some (write_key a, {| ee_start := sa_byte a; ee_bit := sa_bit a; ee_id := wq_id item;
                                          ee_payload := ew_payload enc |})
        | _ => None
        end
  | _ => None
  end.

(** Why a request is not planned. *)
Definition write_failure (item : WriteRequest) : option S7Error.t :=
  match parse (wq_address item) with
  | Ok a =>
      if negb (writable a) then Some S7Error.invalid_address
      else match encode_write (sa_ty a) (wq_value item) with Err e => Some e | _ => None end
  | _ => None
  end.

Definition write_result (item : WriteRequest) : RawWriteResult :=
  match write_failure item with
  | Some e => write_error_result (wq_id item) e
  | None => write_ok_result (wq_id item)
  end.

(** Entries of well-formed addresses with payloads of their width. *)
Record entry_ok (ke : WriteKey * EncodedEntry) : Prop := {
  eo_area : ∃ a, ke.1.1.1 = Area.code a;
  eo_db : in_u 16 ke.1.1.2;
  eo_start : 0 ≤ ee_start ke.2 ≤ MAX_BYTE_OFFSET;
  eo_bit : 0 ≤ ee_bit ke.2 ≤ 7;
  eo_len : Z.of_nat (length (ee_payload ke.2)) = S7Type.width_bytes ke.1.2;
  eo_bytes : bytes_ok (ee_payload ke.2);
  eo_flag : ke.1.2 = S7Type.Bit → ∃ b : bool, ee_payload ke.2 = [if b then 1 else 0];
}.

Lemma s7_encode_write_no_panic ty v : encode_write ty v ≠ Panic.
Proof. destruct ty, v; cbn [encode_write]; try done; try case_decide; try done; by case_if. Qed.

Lemma write_entry_ok item ke : write_entry item = Some ke → entry_ok ke.
Proof.
  unfold write_entry. destruct (parse (wq_address item)) as [a| |] eqn:Ea; [|done..].
  case_if; [done|]. destruct (encode_write (sa_ty a) (wq_value item)) as [enc| |] eqn:Ee; [|done..].
  intros [= <-]. apply parse_wf in Ea as [Hdb Hby Hbi _].
  destruct (encode_write_payload _ _ _ Ee) as (Hl & Hb & _).
  split; cbn [fst snd write_key ee_start ee_bit ee_payload]; try done.
  - by exists (sa_area a).
  - unfold in_u. destruct (sa_area a); lia.
  - intros Hty. rewrite Hty in Ee. destruct (wq_value item); try done. injection Ee as <-. by eexists.
Qed.

Lemma write_key_cmp_eq a b : write_key_cmp a b = Eq → a = b.
Proof.
  destruct a as [[a1 a2] a3], b as [[b1 b2] b3]. unfold write_key_cmp.
  intros [?%Z.compare_eq [?%Z.compare_eq Hr%Z.compare_eq]%lexi_Eq]%lexi_Eq. subst.
  f_equal. by destruct a3, b3.
Qed.

Lemma s7_group_writes_spec items groups failed groups' failed' :
  group_writes items groups failed = Ok (groups', failed') →
  btree_pairs groups' ≡ₚ btree_pairs groups ++ omap write_entry items ∧
  failed' = failed ++ omap (λ i, pair (wq_id i) <$> write_failure i) items ∧
  Forall (λ i, is_Some (write_entry i) ∨ is_Some (write_failure i)) items.
Proof.
  revert groups failed. induction items as [|item items IH]; intros groups failed H.
  { injection H as <- <-. by rewrite !app_nil_r. }
  cbn [group_writes] in H. apply outcome_bind_Ok_inv in H as (a & Ha & H).
  destruct (parse (wq_address item)) as [a'| |] eqn:Ep; try done. injection Ha as ->.
  cbn [omap list_omap].
  assert (∀ e f, write_entry item = e → write_failure item = f → is_Some e ∨ is_Some f →
    Forall (λ i, is_Some (write_entry i) ∨ is_Some (write_failure i)) items →
    Forall (λ i, is_Some (write_entry i) ∨ is_Some (write_failure i)) (item :: items)) as Hcons.
  { intros ? ? <- <-. by constructor. }
  remember (write_entry item) as we eqn:Hwe. remember (write_failure item) as wf eqn:Hwf.
  unfold write_entry in Hwe. unfold write_failure in Hwf. rewrite Ep in Hwe, Hwf.
  destruct (negb (writable a)).
  { apply IH in H as (Hp & -> & Hall). subst we wf. rewrite Hp.
    split_and!; [done|by rewrite <- app_assoc|]. eapply Hcons; eauto. }
  pose proof (s7_encode_write_no_panic (sa_ty a) (wq_value item)).
  destruct (encode_write (sa_ty a) (wq_value item)) as [enc|e|]; [| |done];
    apply IH in H as (Hp & -> & Hall); subst we wf; rewrite Hp.
  - rewrite btree_push_pairs by (intros; by apply write_key_cmp_eq).
    split_and!; [by rewrite <- app_assoc|done|]. eapply Hcons; eauto.
  - split_and!; [done|by rewrite <- app_assoc|]. eapply Hcons; eauto.
Qed.

(** ** Chunks *)
Abbreviation adjacent := (λ p e : EncodedEntry, ee_start p + Z.of_nat (length (ee_payload p)) =? ee_start e).

(** What a plan is: a bit, or a chunk of entries that follow each other. *)
Inductive write_plan (pdu : Z) (max : nat) : WriteKey → list EncodedEntry → WritePlan → Prop :=
| plan_bit area db e : write_plan pdu max (area, db, S7Type.Bit) [e] (bit_plan area db e)
| plan_chunk area db ty c p :
    ty ≠ S7Type.Bit → chunk_ok (write_overflows pdu max) c → chain adjacent c →
    flush_write c area db ty = [p] → write_plan pdu max (area, db, ty) c p.

Lemma flush_write_one c area db ty : c ≠ [] → ∃ p, flush_write c area db ty = [p].
Proof. destruct c; [done|by eexists]. Qed.

Lemma s7_plan_write_group_chunks pdu max key entries :
  ∃ chunks, concat chunks = sort_by_key ee_start entries ∧
    Forall2 (write_plan pdu max key) chunks (plan_write_group pdu max (key, entries)).
Proof.
  destruct key as [[area db] ty]. unfold plan_write_group. set (sorted := sort_by_key ee_start entries).
  destruct (decide (ty = S7Type.Bit)) as [->|Hty].
  { exists ((λ e, [e]) <$> sorted). split; [by induction sorted as [|e l IH]; cbn; [|f_equal]|].
    induction sorted as [|e l IH]; constructor; [constructor|done]. }
  set (chunks := split_runs adjacent sorted ≫= λ r, chunk_loop (write_overflows pdu max) r []).
  exists chunks. destruct (split_runs_ok adjacent sorted) as [Hruns Hcat]. split.
  { rewrite <- Hcat. unfold chunks. clear. induction (split_runs _ _) as [|r rs IH]; [done|].
    rewrite bind_cons, concat_app, IH. cbn. f_equal.
    by apply (chunk_loop_ok (write_overflows pdu max) r []); [|left]. }
  assert (Forall (λ c, chunk_ok (write_overflows pdu max) c ∧ chain adjacent c) chunks) as Hc.
  { apply Forall_forall. intros c (r & Hc & Hr)%list_elem_of_bind. rewrite Forall_forall in Hruns.
    destruct (chunk_loop_ok (write_overflows pdu max) r []) as [Hf Hcc]; [done|by left|].
    rewrite Forall_forall in Hf. split; [by apply Hf|].
    eapply chain_concat; [|exact Hc]. rewrite Hcc. by apply Hruns. }
  assert (match ty with
    | S7Type.Bit => bit_plan area db <$> sorted
    | _ => split_runs adjacent sorted ≫= λ run, chunk_writes pdu max area db ty run []
    end = chunks ≫= λ c, flush_write c area db ty) as ->.
  { unfold chunks. rewrite list_bind_assoc. destruct ty; [done|..];
      (apply list_bind_ext; [|done]; intros r; apply chunk_writes_loop). }
  clearbody chunks. induction Hc as [|c chunks [Hok Hch] _ IH]; [constructor|].
  destruct (flush_write_one c area db ty) as [p Hp]; [apply Hok|].
  rewrite bind_cons, Hp. constructor; [by constructor|done].
Qed.

(** ** Bounds *)
Lemma write_overflows_false pdu max c e :
  c ≠ [] → (max ≤ 20)%nat → write_overflows pdu max c e = false → 1 ≤ payload_bytes (c ++ [e]) →
  (S (length c) ≤ max)%nat ∧ payload_bytes (c ++ [e]) ≤ pdu - 28 - 16 * Z.of_nat (S (length c)).
Proof.
  intros Hne Hmax Ho Hpos. unfold payload_bytes in *. rewrite bind_app, length_app in *.
  rewrite bind_cons, app_nil_r in *.
  destruct c as [|e0 c]; [done|]. unfold write_overflows in Ho. apply orb_false_iff in Ho as [Hm Hb].
  unfold write_data_budget, JOB_HEADER_LEN, ANY_ITEM_LEN, payload_bytes in Hb. cbn [length] in *.
  rewrite wrap_small in Hb by (unfold in_u; lia). lia.
Qed.

Lemma write_plan_bounds pdu max key c p :
  write_plan pdu max key c p → Forall (λ e, entry_ok (key, e)) c → 64 ≤ pdu → (1 ≤ max ≤ 20)%nat →
  (1 ≤ length c ≤ max)%nat ∧ 1 ≤ Z.of_nat (length (wp_payload p)) ≤ pdu - 60.
Proof.
  intros Hp He Hpdu Hmax. destruct Hp as [area db e|area db ty c p Hty [Hne Hok] _ Hfl].
  { apply Forall_inv in He. pose proof (eo_len _ He) as Hl. cbn in *. lia. }
  destruct c as [|first c]; [done|].
  assert (Z.of_nat (length (wp_payload p)) = payload_bytes (first :: c)) as -> by (by injection Hfl as <-).
  clear Hfl. assert (1 ≤ payload_bytes (first :: c)) as Hpos.
  { apply Forall_inv in He. pose proof (eo_len _ He) as Hel. cbn [fst snd] in Hel. pose proof (width_range ty).
    unfold payload_bytes. rewrite bind_cons, length_app. lia. }
  destruct c as [|e c _] using rev_ind.
  - apply Forall_inv in He. pose proof (eo_len _ He) as Hl. cbn [fst snd] in Hl. pose proof (width_range ty).
    unfold payload_bytes in *. rewrite bind_cons, app_nil_r in *. cbn [length]. lia.
  - change (first :: c ++ [e]) with ((first :: c) ++ [e]) in *.
    assert (write_overflows pdu max (first :: c) e = false) as Ho.
    { rewrite <- (take_app_length (first :: c) [e]). apply Hok. by apply list_lookup_middle. }
    destruct (write_overflows_false pdu max (first :: c) e) as [? Hb]; try done; [lia|].
    rewrite length_app. cbn [length] in *. lia.
Qed.

(** ** What an entry stores *)
Definition entry_item (ke : WriteKey * EncodedEntry) : MockItem :=
  {| mi_transport_size := match ke.1.2 with
       | S7Type.Bit => TS_BIT | S7Type.Byte => TS_BYTE | S7Type.Word => TS_WORD | S7Type.Dword => TS_DWORD end;
     mi_length := 1; mi_area := ke.1.1.1; mi_db := ke.1.1.2; mi_start_byte := ee_start ke.2;
     mi_bit := ee_bit ke.2 |}.

Definition store_entry (v : image) (ke : WriteKey * EncodedEntry) : image :=
  apply_write v (entry_item ke) (ee_payload ke.2).

Lemma store_entry_wide v key e :
  key.2 ≠ S7Type.Bit → store_entry v (key, e) = store_bytes key.1.1 key.1.2 (ee_start e) (ee_payload e) v.
Proof. unfold store_entry, apply_write. destruct key as [[area db] []]; done. Qed.

Lemma store_bytes_app area db start l1 l2 v :
  store_bytes area db start (l1 ++ l2) v =
  store_bytes area db (start + Z.of_nat (length l1)) l2 (store_bytes area db start l1 v).
Proof.
  revert start v. induction l1 as [|b l1 IH]; intros start v; cbn [store_bytes app length].
  - f_equal. lia.
  - rewrite IH. f_equal. lia.
Qed.

(** Entries that follow each other are stored at once. *)
Lemma store_chain key c first v :
  key.2 ≠ S7Type.Bit → chain adjacent (first :: c) →
  store_bytes key.1.1 key.1.2 (ee_start first) ((first :: c) ≫= ee_payload) v =
  foldl (λ v e, store_entry v (key, e)) v (first :: c).
Proof.
  intros Hty. revert first v. induction c as [|e c IH]; intros first v Hc; cbn [foldl].
  - rewrite bind_cons, app_nil_r. by rewrite store_entry_wide.
  - rewrite bind_cons, store_bytes_app, <- (store_entry_wide v key) by done.
    specialize (Hc 0%nat first e eq_refl eq_refl) as Ha. apply Z.eqb_eq in Ha. rewrite Ha.
    rewrite IH; [done|]. intros k. apply (Hc (S k)).
Qed.

(** A plan stores what its entries store in turn. *)
Lemma write_plan_effect pdu max key c p v :
  write_plan pdu max key c p →
  apply_write v (mock_item (write_any_item p)) (wp_payload p) = foldl (λ v e, store_entry v (key, e)) v c.
Proof.
  intros [area db e|area db ty c' p' Hty [Hne _] Hch Hfl]; [done|].
  destruct c' as [|first c']; [done|]. injection Hfl as <-.
  rewrite <- (store_chain (area, db, ty)) by done. unfold apply_write. by destruct ty.
Qed.

(** ** Entries that share no bit *)
Definition span (ke : WriteKey * EncodedEntry) : Z * Z :=
  match ke.1.2 with
  | S7Type.Bit => (ee_start ke.2 * 8 + ee_bit ke.2, ee_start ke.2 * 8 + ee_bit ke.2 + 1)
  | ty => (ee_start ke.2 * 8, (ee_start ke.2 + S7Type.width_bytes ty) * 8)
  end.

Definition apart (x y : WriteKey * EncodedEntry) : Prop :=
  x.1.1 ≠ y.1.1 ∨ (span x).2 ≤ (span y).1 ∨ (span y).2 ≤ (span x).1.

(** What the image holds where an entry is stored. *)
Definition cell (v : image) (ke : WriteKey * EncodedEntry) : list Z :=
  cell_bytes v ke.1.1.1 ke.1.1.2 (ee_start ke.2) (ee_bit ke.2) ke.1.2.

Lemma image_byte_insert v area db byte b area' db' byte' :
  image_byte (<[(area, db, byte) := b]> v) area' db' byte' =
    if decide ((area, db, byte) = (area', db', byte')) then b else image_byte v area' db' byte'.
Proof.
  unfold image_byte. case_decide as H; [by rewrite H, lookup_insert_eq|by rewrite lookup_insert_ne].
Qed.

Lemma image_byte_store area db start l v area' db' byte :
  image_byte (store_bytes area db start l v) area' db' byte =
    if decide (area = area' ∧ db = db' ∧ start ≤ byte < start + Z.of_nat (length l))
    then l !!! Z.to_nat (byte - start) else image_byte v area' db' byte.
Proof.
  revert start v. induction l as [|b l IH]; intros start v; cbn [store_bytes length].
  { rewrite decide_False by lia. done. }
  rewrite IH, image_byte_insert.
  destruct (decide (area = area' ∧ db = db' ∧ start ≤ byte < start + Z.of_nat (S (length l)))) as [(-> & -> & H)|H].
  - destruct (Z.eq_dec byte start) as [->|Hne].
    + rewrite decide_False by lia. rewrite decide_True by done. by rewrite Z.sub_diag.
    + rewrite decide_True by lia. replace (Z.to_nat (byte - start)) with (S (Z.to_nat (byte - (start + 1)))) by lia. done.
  - rewrite decide_False by lia. rewrite decide_False; [done|]. intros [= -> -> ->]. apply H. split_and!; [done..|lia].
Qed.

Lemma testbit_set_bit x bit (flag : bool) n :
  0 ≤ bit ≤ 7 → 0 ≤ n →
  Z.testbit (if negb (Z.land (if flag then 1 else 0) 1 =? 0) then Z.lor x (wrap8 (Z.shiftl 1 bit))
             else Z.ldiff x (wrap8 (Z.shiftl 1 bit))) n =
    if n =? bit then flag else Z.testbit x n.
Proof.
  intros Hb Hn. assert (wrap8 (Z.shiftl 1 bit) = 2 ^ bit) as ->.
  { rewrite Z.shiftl_1_l. apply wrap_small. unfold in_u. split; [lia|]. apply Z.pow_lt_mono_r; lia. }
  assert (Z.testbit (2 ^ bit) n = (n =? bit)) as Hp.
  { destruct (Z.eqb_spec n bit) as [->|?]; [by apply Z.pow2_bits_true|by apply Z.pow2_bits_false]. }
  destruct flag.
  - change (negb (Z.land 1 1 =? 0)) with true. cbv iota. rewrite Z.lor_spec, Hp.
    by destruct (n =? bit), (Z.testbit x n).
  - change (negb (Z.land 0 1 =? 0)) with false. cbv iota. rewrite Z.ldiff_spec, Hp.
    by destruct (n =? bit), (Z.testbit x n).
Qed.

Lemma image_bytes_ext v w area db start n :
  (∀ k, start ≤ k < start + Z.of_nat n → image_byte v area db k = image_byte w area db k) →
  image_bytes v area db start n = image_bytes w area db start n.
Proof.
  intros H. unfold image_bytes. apply list_fmap_ext. intros i y [-> Hi]%lookup_seq. apply H. lia.
Qed.

(** The bytes and the bit an entry leaves in the image. *)
Lemma image_byte_bit_entry v area db e (flag : bool) a d x :
  ee_payload e = [if flag then 1 else 0] →
  image_byte (store_entry v (area, db, S7Type.Bit, e)) a d x =
    if decide ((area, db, ee_start e) = (a, d, x))
    then (if negb (Z.land (if flag then 1 else 0) 1 =? 0)
          then Z.lor (image_byte v area db (ee_start e)) (wrap8 (Z.shiftl 1 (ee_bit e)))
          else Z.ldiff (image_byte v area db (ee_start e)) (wrap8 (Z.shiftl 1 (ee_bit e))))
    else image_byte v a d x.
Proof.
  intros Hp. unfold store_entry, apply_write. cbn [entry_item mi_transport_size mi_area mi_db mi_start_byte mi_bit
    fst snd Z.eqb Pos.eqb TS_BIT]. rewrite image_byte_insert, Hp. done.
Qed.

Lemma store_hit v ke : entry_ok ke → cell (store_entry v ke) ke = ee_payload ke.2.
Proof.
  destruct ke as [[[area db] ty] e]. intros [_ _ _ Hb Hl _ Hf]. cbn [fst snd] in *. unfold cell. cbn [fst snd].
  destruct (decide (ty = S7Type.Bit)) as [->|Hty].
  - destruct (Hf eq_refl) as [flag Hp]. unfold cell_bytes. rewrite (image_byte_bit_entry _ _ _ _ flag) by done.
    rewrite decide_True by done. rewrite testbit_set_bit by lia. by rewrite Z.eqb_refl, Hp.
  - rewrite store_entry_wide by done. cbn [fst snd].
    assert (cell_bytes (store_bytes area db (ee_start e) (ee_payload e) v) area db (ee_start e) (ee_bit e) ty =
      image_bytes (store_bytes area db (ee_start e) (ee_payload e) v) area db (ee_start e)
        (length (ee_payload e))) as ->.
    { replace (length (ee_payload e)) with (Z.to_nat (S7Type.width_bytes ty)) by lia. by destruct ty. }
    apply list_eq. intros i. unfold image_bytes. rewrite list_lookup_fmap.
    destruct (decide (i < length (ee_payload e))%nat) as [Hi|Hi].
    + rewrite lookup_seq_lt by done. cbn. rewrite image_byte_store, decide_True by lia.
      replace (Z.to_nat (ee_start e + Z.of_nat i - ee_start e)) with i by lia.
      symmetry. by apply list_lookup_lookup_total_lt.
    + rewrite lookup_seq_ge by lia. by rewrite lookup_ge_None_2 by lia.
Qed.

Lemma store_miss v x y : entry_ok x → entry_ok y → apart x y → cell (store_entry v y) x = cell v x.
Proof.
  destruct x as [[[area db] ty] e], y as [[[area' db'] ty'] f]. intros [_ _ _ Hb _ _ _] [_ _ _ Hb' Hl' _ Hf'] Hap.
  unfold apart in Hap. cbn [fst snd] in *. unfold cell. cbn [fst snd].
  assert (∀ k, (∀ bit, 0 ≤ bit ≤ 7 → (area, db) ≠ (area', db') ∨
      ¬ (span (area', db', ty', f)).1 ≤ k * 8 + bit < (span (area', db', ty', f)).2) →
    image_byte (store_entry v (area', db', ty', f)) area db k = image_byte v area db k) as Hbyte.
  { intros k Hk. unfold span in Hk. cbn [fst snd] in Hk. destruct (decide (ty' = S7Type.Bit)) as [->|Hty'].
    - destruct (Hf' eq_refl) as [flag Hp]. rewrite (image_byte_bit_entry _ _ _ _ flag) by done.
      rewrite decide_False; [done|]. intros [= -> -> Hs]. destruct (Hk (ee_bit f) Hb') as [?|Hk']; [done|].
      apply Hk'. cbn. lia.
    - rewrite store_entry_wide by done. cbn [fst snd]. rewrite image_byte_store. rewrite decide_False; [done|].
      intros (-> & -> & Hin). destruct (Hk 0 ltac:(lia)) as [?|Hk']; [done|]. apply Hk'.
      pose proof (width_range ty'). destruct ty'; [done|..]; cbn in *; lia. }
  destruct (decide (ty = S7Type.Bit)) as [->|Hty].
  - unfold cell_bytes. destruct (decide (ty' = S7Type.Bit)) as [->|Hty'].
    + destruct (Hf' eq_refl) as [flag Hp]. rewrite (image_byte_bit_entry _ _ _ _ flag) by done.
      case_decide as Heq; [|done]. injection Heq as -> -> Hs. rewrite testbit_set_bit by lia. rewrite Hs.
      replace (ee_bit e =? ee_bit f) with false; [done|]. cbn in Hap.
      destruct Hap as [?|Hap]; [done|lia].
    + rewrite Hbyte; [done|]. intros bit Hbit. destruct Hap as [?|Hap]; [by left|right].
      destruct ty'; [done|..]; cbn in *; lia.
  - assert (∀ w, cell_bytes w area db (ee_start e) (ee_bit e) ty =
      image_bytes w area db (ee_start e) (Z.to_nat (S7Type.width_bytes ty))) as Hw by (by destruct ty).
    rewrite !Hw. apply image_bytes_ext. intros k Hk. apply Hbyte. intros bit Hbit.
    destruct Hap as [?|Hap]; [by left|right].
    assert ((span (area, db, ty, e)) = (ee_start e * 8, (ee_start e + S7Type.width_bytes ty) * 8)) as Hsp
      by (by destruct ty).
    rewrite Hsp in Hap. pose proof (width_range ty). cbn [fst snd] in *. lia.
Qed.

(** What is stored in pairwise disjoint places stays. *)
Lemma foldl_store_cell order v ke :
  Forall entry_ok order → ForallOrdPairs apart order → ke ∈ order →
  cell (foldl store_entry v order) ke = ee_payload ke.2.
Proof.
  assert (∀ order v ke, entry_ok ke → Forall entry_ok order → Forall (apart ke) order →
    cell (foldl store_entry v order) ke = cell v ke) as Hkeep.
  { clear. intros order v ke Hk Ho. revert v. induction Ho as [|y order Hy Ho IH]; intros v Hap; [done|].
    apply Forall_cons in Hap as [Hxy Hap]. cbn [foldl]. rewrite IH by done. by apply store_miss. }
  intros Ho Hap Hin. revert v. induction Hap as [|x order Hx Hap IH]; [by apply not_elem_of_nil in Hin|].
  intros v. apply Forall_cons in Ho as [Hxo Ho]. cbn [foldl]. apply elem_of_cons in Hin as [->|Hin].
  - rewrite Hkeep by done. by apply store_hit.
  - by apply IH.
Qed.

Lemma s7_apart_sym x y : apart x y → apart y x.
Proof. unfold apart. intros [?|[?|?]]; auto. Qed.

(** * S7 writes against the simulated device

    A batch write stores exactly its encodable requests, and what it stored is
    read back. *)

(** ** A write of one Any pointer *)
Definition write_served (b : MockBehavior) (i : MockItem) (payload : list Z) : MockBehavior :=
  set_values (apply_write (mb_values b) i payload)
    (mb_captured_writes b ++ [{| wrec_area := mi_area i; wrec_db := mi_db i;
       wrec_start_byte := mi_start_byte i; wrec_len_bytes := Z.of_nat (length payload);
       wrec_data := payload |}]) (mb_captured_reads b) (count_request b).

Lemma serve_writes_one b item payload :
  any_ok item → healthy b → payload_size (ai_transport_size item) (ai_length item) = Z.of_nat (length payload) →
  serve_writes 1 (any_encode item) (write_data (item, payload)) (count_request b) [] =
    (write_served b (mock_item item) payload, Some [RC_SUCCESS]).
Proof.
  intros Hi Hb Hsize. cbn [serve_writes]. change (length (any_encode item) <? 12)%nat with false. cbv iota.
  change (take 12 (any_encode item)) with (any_encode item). rewrite any_parse_encode by done.
  unfold write_data. set (pad := if (length payload mod 2 =? 1)%nat then [0] else []).
  set (data := _ ++ _ ++ _ ++ _).
  assert (length data = (4 + length payload + length pad)%nat) as Hlen.
  { unfold data. rewrite !length_app, length_to_be_bytes. cbn. lia. }
  change (data !!! 1%nat) with (ai_transport_size item). change (slice 2 4 data) with (to_be_bytes 2 (ai_length item)).
  rewrite from_to_be_bytes_small by (change (8 * Z.of_nat 2) with 16; destruct Hi; unfold in_u in *; lia).
  rewrite Hsize, Nat2Z.id, Hlen. cbn zeta.
  replace (4 + length payload + length pad <? 4)%nat with false by lia.
  replace (4 + length payload + length pad <? 4 + length payload)%nat with false by lia.
  assert (slice 4 (4 + length payload) data = payload) as ->.
  { unfold slice. change (drop 4 data) with (payload ++ pad). apply take_app_exact. lia. }
  rewrite return_code_healthy by done. done.
Qed.

Lemma handle_s7_write b r item payload :
  any_ok item → healthy b → in_u 16 r →
  payload_size (ai_transport_size item) (ai_length item) = Z.of_nat (length payload) →
  Z.of_nat (length payload) < 5000 →
  handle_s7 b (build_write r [(item, payload)]) =
    (write_served b (mock_item item) payload,
     Ok (Some (build_ack_data r [FUNCTION_WRITE; 1] [RC_SUCCESS]))).
Proof.
  intros Hi Hb Hr Hsize Hlen. unfold handle_s7. set (pdu := build_write r [(item, payload)]).
  set (data := write_data (item, payload)).
  assert (Z.of_nat (length data) < 5010) as Hd.
  { unfold data, write_data. rewrite !length_app, length_to_be_bytes. case_if; cbn [length]; lia. }
  assert (pdu = [PROTOCOL_ID; ROSCTR_JOB; 0; 0] ++ to_be_bytes 2 r ++ to_be_bytes 2 14 ++
    to_be_bytes 2 (Z.of_nat (length data)) ++ ([FUNCTION_WRITE; 1] ++ any_encode item) ++ data) as Hp.
  { unfold pdu, build_write, build_job. rewrite !bind_cons, !app_nil_r. done. }
  assert (length pdu = (24 + length data)%nat) as Hpl.
  { rewrite Hp, !length_app, !length_to_be_bytes. change (length (any_encode item)) with 12%nat. cbn. lia. }
  clearbody pdu. subst pdu. rewrite Hpl. set (pdu := _ ++ _ ++ _ ++ _ ++ _ ++ _).
  change (pdu !!! 0%nat) with PROTOCOL_ID. change (pdu !!! 1%nat) with ROSCTR_JOB.
  replace (24 + length data <? 10)%nat with false by lia.
  change (negb (PROTOCOL_ID =? PROTOCOL_ID)) with false. change (negb (ROSCTR_JOB =? ROSCTR_JOB)) with false.
  cbn [orb]. cbv iota. change (slice 4 6 pdu) with (to_be_bytes 2 r). change (slice 6 8 pdu) with (to_be_bytes 2 14).
  change (slice 8 10 pdu) with (to_be_bytes 2 (Z.of_nat (length data))).
  rewrite !from_to_be_bytes_small by (change (8 * Z.of_nat 2) with 16; unfold in_u in *; lia).
  change (Z.to_nat 14) with 14%nat. rewrite Nat2Z.id. cbn zeta.
  replace (24 + length data <? 10 + 14)%nat with false by lia. cbv iota.
  change (slice 10 (10 + 14) pdu) with (FUNCTION_WRITE :: 1 :: any_encode item). cbv iota.
  change (FUNCTION_WRITE =? FUNCTION_SETUP) with false. change (FUNCTION_WRITE =? FUNCTION_READ) with false.
  change (FUNCTION_WRITE =? FUNCTION_WRITE) with true. cbv iota.
  replace (24 + length data <? 10 + 14 + length data)%nat with false by lia. cbv iota.
  assert (slice (10 + 14) (10 + 14 + length data) pdu = data) as ->.
  { unfold slice. change (drop (10 + 14) pdu) with data. apply take_ge. lia. }
  change (Z.to_nat 1) with 1%nat. unfold data. by rewrite serve_writes_one.
Qed.

Record write_plan_ok (p : WritePlan) : Prop := {
  wo_any : any_ok (write_any_item p);
  wo_size : payload_size (ai_transport_size (write_any_item p)) (ai_length (write_any_item p)) =
            Z.of_nat (length (wp_payload p));
  wo_len : Z.of_nat (length (wp_payload p)) < 5000;
}.

Lemma execute_write_plan_served config pdu v s p :
  serving config pdu v s → write_plan_ok p →
  ∃ s', serving config pdu (apply_write v (mock_item (write_any_item p)) (wp_payload p)) s' ∧
    execute_write_plan p s = (s', Ok RC_SUCCESS).
Proof.
  destruct s as [d l]. intros [Hcfg (t & Ht & Hst & Hpdu) Hidle Hh Hv] [Hany Hsize Hlen].
  cbn [fst snd] in *. unfold execute_write_plan. rewrite (with_session_run _ _ _ _ Ht).
  set (r := wrap16 (ts_pdu_ref t + 1)).
  assert (in_u 16 r) as Hr by (apply wrap_range; lia).
  set (t1 := {| ts_host := ts_host t; ts_port := ts_port t; ts_rack := ts_rack t; ts_slot := ts_slot t;
    ts_timeout := ts_timeout t; ts_stream := ts_stream t; ts_pdu_ref := r;
    ts_negotiated_pdu := ts_negotiated_pdu t |}).
  assert (next_ref (t, l) = ((t1, l), Ok r)) as Hn by done.
  rewrite (sbind_Ok _ _ _ _ _ Hn).
  set (item := write_any_item p) in *. set (b := mk_behavior (ln_conn l)) in *.
  set (b' := write_served b (mock_item item) (wp_payload p)).
  assert (healthy b') as Hh' by (apply healthy_set_values, healthy_count, Hh).
  assert (10 ≤ Z.of_nat (length (build_write r [(item, wp_payload p)])) < 6000) as Hj.
  { unfold build_write, build_job. rewrite !length_app, !length_to_be_bytes, !bind_cons, !length_app.
    change (length ([(item, wp_payload p)].*1 ≫= any_encode)) with 12%nat. unfold write_data.
    rewrite !length_app, length_to_be_bytes. case_if; cbn [length mbind list_bind]; lia. }
  rewrite (sbind_Ok _ _ _ _ _ (exchange_line t1 l r (build_write r [(item, wp_payload p)]) b' [FUNCTION_WRITE; 1] [RC_SUCCESS] Hst Hidle Hh Hh'
    ltac:(lia) ltac:(lia) Hr ltac:(cbn; lia) ltac:(cbn; lia) (handle_s7_write _ _ _ _ Hany Hh Hr Hsize Hlen))).
  eexists. split; [|reflexivity]. split; cbn; try done; [by exists t1|]. by rewrite Hv.
Qed.

(** ** A batch of plans *)
Lemma write_plan_served_ok pdu max key c p :
  write_plan pdu max key c p → Forall (λ e, entry_ok (key, e)) c → 64 ≤ pdu ≤ PROPOSED_PDU_SIZE →
  (1 ≤ max ≤ 20)%nat → write_plan_ok p.
Proof.
  intros Hp He [Hpdu Hpdu'] Hmax. unfold PROPOSED_PDU_SIZE in Hpdu'.
  destruct (write_plan_bounds _ _ _ _ _ Hp He Hpdu Hmax) as [_ Hlen].
  assert (∃ n, length (wp_payload p) = (n * Z.to_nat (S7Type.width_bytes key.2))%nat ∧
    (key.2 = S7Type.Bit → n = 1%nat)) as (n & Hn & Hone).
  { destruct Hp as [area db e|area db ty c p Hty _ _ Hfl].
    - apply Forall_inv in He. pose proof (eo_len _ He) as Hl. exists 1%nat. cbn in *. lia.
    - exists (length c). split; [|done]. destruct c as [|first c']; [done|]. injection Hfl as <-. cbn [wp_payload].
      clear -He. change (length (mbind ee_payload (first :: c')) =
        (length (first :: c') * Z.to_nat (S7Type.width_bytes ty))%nat).
      induction He as [|e l He _ IH]; [done|]. rewrite bind_cons, length_app, IH.
      pose proof (eo_len _ He) as Hl. cbn [fst snd] in Hl. cbn [length]. lia. }
  assert (wp_ty p = key.2 ∧ wp_area_code p = key.1.1 ∧ wp_db p = key.1.2 ∧ ∃ e, e ∈ c ∧
    wp_start_byte p = ee_start e ∧ (wp_bit p = 0 ∨ wp_bit p = ee_bit e)) as (Hty & Harea & Hdb & e & Hin & Hst & Hbit).
  { destruct Hp as [area db e|area db ty c p Hty _ _ Hfl].
    - split_and!; try done. exists e. split; [by left|]. auto.
    - destruct c as [|first c]; [done|]. injection Hfl as <-. split_and!; try done.
      exists first. split; [by left|]. auto. }
  rewrite Forall_forall in He. destruct (He e Hin) as [[ar Ha] Hu Hs Hb Hl _ _]. cbn [fst snd] in *.
  split; [| |lia].
  - split; unfold write_any_item; cbn [ai_transport_size ai_length ai_area_code ai_db ai_byte_offset ai_bit].
    + by destruct (wp_ty p).
    + destruct (wp_ty p); [done|apply wrap_range; lia..].
    + rewrite Harea, Ha. apply area_code_u8.
    + by rewrite Hdb.
    + by rewrite Hst.
    + lia.
  - unfold write_any_item. cbn [ai_transport_size ai_length]. rewrite Hty, Hn in *.
    destruct key.2; cbn [S7Type.width_bytes] in *; unfold payload_size;
      cbn [TS_BIT TS_BYTE TS_WORD TS_DWORD Z.eqb Pos.eqb].
    + rewrite Hone by done. done.
    + rewrite wrap_small by (unfold in_u; lia). lia.
    + rewrite wrap_small by (unfold in_u; dlia). dlia.
    + rewrite wrap_small by (unfold in_u; dlia). dlia.
Qed.

(** The plans of one group, and of all groups. *)
Lemma write_plans_served config pdu max v s key chunks plans acc :
  serving config pdu v s → Forall2 (write_plan pdu max key) chunks plans →
  Forall (λ e, entry_ok (key, e)) (concat chunks) → 64 ≤ pdu ≤ PROPOSED_PDU_SIZE → (1 ≤ max ≤ 20)%nat →
  ∃ s', serving config pdu (foldl store_entry v (pair key <$> concat chunks)) s' ∧
    ∀ rest, write_plans (plans ++ rest) acc s =
      write_plans rest (acc ++ (write_ok_result ∘ ee_id <$> concat chunks)) s'.
Proof.
  intros Hs Hp He Hpdu Hmax. revert v s acc Hs. induction Hp as [|c p chunks plans Hp _ IH]; intros v s acc Hs.
  { exists s. split; [done|]. intros rest. by rewrite app_nil_r. }
  cbn [concat] in He. apply Forall_app in He as [Hc He].
  destruct (execute_write_plan_served _ _ _ _ _ Hs (write_plan_served_ok _ _ _ _ _ Hp Hc Hpdu Hmax))
    as (s1 & Hs1 & Hrun).
  rewrite (write_plan_effect _ _ _ _ _ _ Hp) in Hs1.
  destruct (IH He _ _ (acc ++ (write_ok_result ∘ ee_id <$> c)) Hs1) as (s2 & Hs2 & Hrest).
  exists s2. cbn [concat]. rewrite !fmap_app, foldl_app. split.
  - rewrite !foldl_fmap. by rewrite foldl_fmap in Hs2.
  - intros rest. rewrite app_assoc, <- Hrest. cbn [write_plans app]. rewrite (sbind_Ok _ _ _ _ _ Hrun).
    change (RC_SUCCESS =? RC_SUCCESS) with true. cbv iota. f_equal. f_equal.
    assert (wp_item_ids p = ee_id <$> c) as ->; [|by rewrite <- list_fmap_compose].
    destruct Hp as [|area db ty c p _ _ _ Hfl]; [done|]. destruct c; [done|]. by injection Hfl as <-.
Qed.

Lemma write_groups_served config pdu max v s (groups : list (WriteKey * list EncodedEntry)) acc :
  serving config pdu v s → Forall entry_ok (btree_pairs groups) →
  64 ≤ pdu ≤ PROPOSED_PDU_SIZE → (1 ≤ max ≤ 20)%nat →
  ∃ s' order, order ≡ₚ btree_pairs groups ∧ serving config pdu (foldl store_entry v order) s' ∧
    write_plans (groups ≫= plan_write_group pdu max) acc s =
      (s', Ok (acc ++ ((λ ke, write_ok_result (ee_id ke.2)) <$> order))).
Proof.
  intros Hs He Hpdu Hmax. revert v s acc Hs. induction groups as [|[key entries] groups IH]; intros v s acc Hs.
  { exists s, []. split_and!; [done|done|]. by rewrite app_nil_r. }
  unfold btree_pairs in *. rewrite bind_cons in *. cbn [fst snd] in *. apply Forall_app in He as [He Hes].
  destruct (s7_plan_write_group_chunks pdu max key entries) as (chunks & Hcat & Hplans).
  destruct (write_plans_served config pdu max v s key chunks (plan_write_group pdu max (key, entries)) acc)
    as (s1 & Hs1 & Hrest); try done.
  { rewrite Hcat. rewrite Forall_forall. intros e Hin. rewrite Forall_forall in He. apply He.
    apply list_elem_of_fmap. exists e. split; [done|]. by rewrite sort_by_key_perm in Hin. }
  rewrite Hcat in *. destruct (IH Hes _ _ (acc ++ (write_ok_result ∘ ee_id <$> sort_by_key ee_start entries)) Hs1)
    as (s2 & order & Hord & Hs2 & Hrun).
  exists s2, ((pair key <$> sort_by_key ee_start entries) ++ order). split_and!.
  - rewrite Hord. by rewrite (fmap_Permutation (pair key) _ _ (sort_by_key_perm ee_start entries)).
  - by rewrite foldl_app.
  - rewrite bind_cons, Hrest, Hrun, fmap_app, app_assoc, <- list_fmap_compose. done.
Qed.

Lemma entry_or_failure item :
  is_Some (write_entry item) ∨ is_Some (write_failure item) →
  (∃ ke, write_entry item = Some ke ∧ write_failure item = None ∧ ee_id ke.2 = wq_id item) ∨
  (∃ e, write_entry item = None ∧ write_failure item = Some e).
Proof.
  unfold write_entry, write_failure.
  destruct (parse (wq_address item)) as [a| |]; [|by intros [[]|[]]..].
  destruct (negb (writable a)); [by right; eexists|].
  destruct (encode_write (sa_ty a) (wq_value item)) as [enc|e|]; [by left; eexists|by right; eexists|by intros [[]|[]]].
Qed.

(** A batch write stores its encodable requests, in an order of which only
    requests to common addresses depend, and reports on every request. *)
Lemma s7_write_batch_run config pdu v s items plans failed :
  serving config pdu v s → usable config pdu →
  plan_write_batch items pdu (s7_max_items_per_pdu config) = Ok (plans, failed) →
  ∃ s' rs order, write_batch items s = (s', Ok rs) ∧ rs ≡ₚ write_result <$> items ∧
    order ≡ₚ omap write_entry items ∧ serving config pdu (foldl store_entry v order) s'.
Proof.
  intros Hs [Hpdu Hmax] Hplans. pose proof Hplans as Hpl.
  apply outcome_bind_Ok_inv in Hpl as ((groups & failed') & Hg & [= <- <-]).
  destruct (s7_group_writes_spec _ _ _ _ _ Hg) as (Hpairs & Hfail & Hall). cbn [btree_pairs mbind list_bind app] in Hpairs.
  destruct (write_groups_served config pdu (s7_max_items_per_pdu config) v s groups
    ((λ '(id, e), write_error_result id e) <$> failed') Hs) as (s' & order & Hord & Hs' & Hrun); try done.
  { rewrite Hpairs. apply Forall_forall. intros ke (item & _ & Hk)%list_elem_of_omap. by eapply write_entry_ok. }
  eexists s', _, order. split_and!; [| |by rewrite Hord|done].
  - unfold write_batch. rewrite (sbind_Ok _ _ _ _ _ (ensure_connected_served _ _ _ _ Hs)). destruct s as [d l].
    rewrite (sbind_Ok _ _ _ (d, l) (d, l)) by done. pose proof (sv_config _ _ _ _ Hs) as Hc. cbn in Hc.
    rewrite Hc. unfold slift at 1. unfold sbind at 1. rewrite Hplans. cbn iota beta.
    rewrite (sbind_Ok _ _ _ _ _ Hrun). reflexivity.
  - rewrite sort_by_key_perm, Hord, Hpairs, Hfail. clear -Hall. cbn [app].
    induction Hall as [|item items Hi _ IH]; [done|]. cbn [omap list_omap fmap list_fmap].
    unfold write_result at 1. rewrite <- IH. clear IH.
    destruct (entry_or_failure item Hi) as [(ke & -> & -> & Hid)|(e & -> & ->)]; [|done].
    cbn. by rewrite Hid, <- Permutation_middle.
Qed.

(** An S7 batch write does what it reports.  On a healthy device every
    request is reported once, as done or with the reason it was refused
    (an input address, a value that does not fit the width); the memory of the
    device afterwards is the memory before with exactly the encodable requests
    stored, each once, at its address. *)
Theorem s7_write_stores config pdu v s items plans failed :
  serving config pdu v s → usable config pdu →
  plan_write_batch items pdu (s7_max_items_per_pdu config) = Ok (plans, failed) →
  ∃ s' rs order, write_batch items s = (s', Ok rs) ∧ rs ≡ₚ write_result <$> items ∧
    order ≡ₚ omap write_entry items ∧ serving config pdu (foldl store_entry v order) s'.
Proof. apply s7_write_batch_run. Qed.

(** ** Reading back *)
Definition readback (item : WriteRequest) : DriverReadItem :=
  {| ri_id := wq_id item; ri_address := wq_address item; ri_expected_type := natural_type (wq_value item) |}.

Definition not_nan (v : RawValue.t) : Prop :=
  match v with RawValue.F64 f => f64_is_nan f = false | _ => True end.

(** A request that can be stored and whose value has one representation. *)
Definition storable (item : WriteRequest) : Prop :=
  is_Some (write_entry item) ∧ RawValue.wf (wq_value item) ∧ not_nan (wq_value item).

Lemma group_reads_total items groups :
  Forall (λ i, ∃ a, parse (ri_address i) = Ok a) items → ∃ groups', group_reads items groups = Ok groups'.
Proof.
  intros H. revert groups. induction H as [|item items [a Ha] _ IH]; intros groups; [by eexists|].
  cbn [group_reads]. rewrite Ha. apply IH.
Qed.

Lemma plan_read_batch_total items pdu max :
  Forall (λ i, ∃ a, parse (ri_address i) = Ok a) items → ∃ plans, plan_read_batch items pdu max = Ok plans.
Proof.
  intros H. unfold plan_read_batch. destruct (group_reads_total items [] H) as [groups ->]. by eexists.
Qed.

Lemma write_entry_inv item ke :
  write_entry item = Some ke →
  ∃ a enc, parse (wq_address item) = Ok a ∧ writable a = true ∧ encode_write (sa_ty a) (wq_value item) = Ok enc ∧
    ke = (write_key a, {| ee_start := sa_byte a; ee_bit := sa_bit a; ee_id := wq_id item;
                          ee_payload := ew_payload enc |}).
Proof.
  unfold write_entry. destruct (parse (wq_address item)) as [a| |]; [|done..].
  destruct (writable a) eqn:Ew; [|done]. cbn [negb].
  destruct (encode_write (sa_ty a) (wq_value item)) as [enc| |] eqn:Ee; [|done..].
  intros [= <-]. by exists a, enc.
Qed.

Lemma s7_plan_write_batch_total items pdu max :
  Forall (λ i, is_Some (write_entry i)) items → ∃ plans failed, plan_write_batch items pdu max = Ok (plans, failed).
Proof.
  intros H. unfold plan_write_batch.
  assert (∀ groups failed, ∃ r, group_writes items groups failed = Ok r) as Hg.
  { induction H as [|item items [ke Hke] _ IH]; intros groups failed; [by eexists|].
    destruct (write_entry_inv _ _ Hke) as (a & enc & Ha & Hw & He & _).
    cbn [group_writes]. rewrite Ha. cbn [map_err outcome_bind]. rewrite Hw. cbn [negb]. rewrite He. apply IH. }
  destruct (Hg [] []) as [[groups failed] ->]. by eexists _, _.
Qed.

Lemma encodable_no_failure item : is_Some (write_entry item) → write_failure item = None.
Proof.
  intros [ke Hke]. destruct (write_entry_inv _ _ Hke) as (a & enc & Ha & Hw & He & _).
  unfold write_failure. by rewrite Ha, Hw, He.
Qed.

(** Where the payload of a request is, the request reads back. *)
Lemma s7_read_back_entry v item ke :
  write_entry item = Some ke → RawValue.wf (wq_value item) → not_nan (wq_value item) →
  cell v ke = ee_payload ke.2 →
  read_alone v (readback item) = Some (read_result (wq_id item) (Ok (wq_value item))).
Proof.
  intros Hke Hwf Hnan Hcell. destruct (write_entry_inv _ _ Hke) as (a & enc & Ha & _ & He & ->).
  unfold read_alone. cbn [readback ri_address ri_id ri_expected_type]. rewrite Ha. do 2 f_equal.
  unfold cell in Hcell. cbn [fst snd write_key ee_start ee_bit ee_payload] in Hcell. unfold decoded.
  change (area_code_of (sa_area a)) with (Area.code (sa_area a)) in Hcell. rewrite Hcell.
  destruct (encode_decode _ _ _ Hwf He) as (out & -> & Hout). f_equal.
  destruct Hout as [<-|(f & Hf & Hn & _)]; [done|]. exfalso. rewrite Hf in Hnan. cbn in Hnan. congruence.
Qed.

(** C24: what an S7 batch write stored, a batch read returns.  On a healthy
    device, writing values that are no NaN to disjoint places and reading the
    same addresses back gives every request its own value, if the items that
    are read can be served together (no two consecutive bits, and one width and
    alignment within a block), through planning, encoding, merging, framing, the memory of the
    device and decoding. *)
Theorem s7_write_then_read config pdu v s items :
  serving config pdu v s → usable config pdu → Forall storable items →
  ForallOrdPairs apart (omap write_entry items) →
  (∀ x y, x ∈ readback <$> items → y ∈ readback <$> items → compatible x y) →
  ∃ s1 rs1 s2 rs2,
    write_batch items s = (s1, Ok rs1) ∧ rs1 ≡ₚ (λ i, write_ok_result (wq_id i)) <$> items ∧
    read_batch (readback <$> items) s1 = (s2, Ok rs2) ∧
    rs2 ≡ₚ (λ i, read_result (wq_id i) (Ok (wq_value i))) <$> items.
Proof.
  intros Hs Hu Hst Hap Hcomp. set (max := s7_max_items_per_pdu config).
  destruct (s7_plan_write_batch_total items pdu max) as (plans & failed & Hplans).
  { eapply Forall_impl; [exact Hst|]. by intros i []. }
  destruct (s7_write_batch_run config pdu v s items plans failed Hs Hu Hplans) as (s1 & rs1 & order & Hw & Hrs & Hord & Hs1).
  destruct (plan_read_batch_total (readback <$> items) pdu max) as [rplans Hrplans].
  { apply Forall_fmap. eapply Forall_impl; [exact Hst|]. intros i [[ke Hke] _].
    destruct (write_entry_inv _ _ Hke) as (a & _ & Ha & _). by exists a. }
  destruct (read_batch_served _ _ _ _ _ _ Hs1 Hu Hrplans) as (s2 & _ & Hr).
  eexists s1, rs1, s2, _. split_and!; [exact Hw| |exact Hr|].
  - rewrite Hrs. erewrite list_fmap_ext; [reflexivity|]. intros i x Hx%list_elem_of_lookup_2.
    rewrite Forall_forall in Hst. destruct (Hst x Hx) as [Hsome _].
    unfold write_result. by rewrite (encodable_no_failure _ Hsome).
  - apply Permutation_Some. rewrite sort_by_key_perm.
    destruct Hu as [Hpdu Hmax]. rewrite (plan_results_alone _ _ _ _ _ Hrplans Hcomp Hpdu Hmax).
    rewrite <- !list_fmap_compose. erewrite list_fmap_ext; [reflexivity|].
    intros i x Hx%list_elem_of_lookup_2. rewrite Forall_forall in Hst. destruct (Hst x Hx) as ([ke Hke] & Hwf & Hn).
    unfold compose. eapply s7_read_back_entry; try done. apply foldl_store_cell.
    + rewrite Hord. apply Forall_forall. intros k (y & _ & Hk)%list_elem_of_omap. by eapply write_entry_ok.
    + eapply ForallOrdPairs_perm; [apply s7_apart_sym|symmetry; exact Hord|done].
    + rewrite Hord. apply list_elem_of_omap. by exists x.
Qed.
