(* ===== verification/S7Examples.v ===== *)
(** * Concrete runs of the S7 driver

    A driver connected to the simulated device, and for every theorem with
    hypotheses an input on which they hold, checked by evaluation. *)

From S2P Require Import Prelude RustStd ObservationModel DriverAbi AbiTag S7Address S7Codec.
From S2P Require Import S7Batch S7Driver S7Loopback S7EndToEnd S7WriteEndToEnd.
From stdpp Require Import options.

(** ** A connected driver *)
Definition example_config : S7Config :=
  {| s7_mode := lit "tcp"; s7_host := lit "10.0.0.1"; s7_port := 102; s7_rack := 0; s7_slot := 1;
     s7_timeout_ms := 3000; s7_reconnect := true; s7_reconnect_max_attempts := 3;
     s7_reconnect_delay_ms := 1000; s7_max_items_per_pdu := 20 |}.

(** Bytes 0 to 7 of data block 1. *)
Definition example_image : image :=
  store_bytes 0x84 1 0 [0x12; 0x34; 0x56; 0x78; 0x9A; 0xBC; 0x02; 0x01] ∅.

Definition example_device (v : image) : Line :=
  {| ln_conn := {| mk_behavior := set_values v [] [] behavior_new; mk_rng := None; mk_last_tsap := None |};
     ln_inbox := []; ln_outbox := []; ln_open := false |}.

Definition example_driver : S7commDriver () :=
  {| sd_config := example_config; sd_session := Some (session_new example_config); sd_last_error := None |}.

Definition example_state : S7commDriver () * Line :=
  Eval vm_compute in (connect (example_driver, example_device example_image)).1.

(** The handshake connects and negotiates the PDU size the device offers. *)
Lemma example_connects :
  (connect (example_driver, example_device example_image)).2 = Ok () ∧
  (connect (example_driver, example_device example_image)).1 = example_state.
Proof. split; by vm_compute. Qed.

Lemma s7_example_serving : serving example_config 480 example_image example_state.
Proof.
  split; [done| |done|by split|by vm_compute]. eexists. split_and!; [by vm_compute|done|done].
Qed.

Lemma example_usable : usable example_config 480.
Proof. split; [by vm_compute|cbn; lia]. Qed.

Definition read_item (id : Z) (address : str) (ty : option DataType.t) : DriverReadItem :=
  {| ri_id := id; ri_address := address; ri_expected_type := ty |}.

Definition write_item (id : Z) (address : str) (v : RawValue.t) : WriteRequest :=
  {| wq_id := id; wq_address := address; wq_value := v |}.

(** ** Addresses and values *)
Lemma s7_parse_canonical_witness :
  parse (canonical {| sa_area := Area.Db; sa_db := 10; sa_byte := 4; sa_bit := 3; sa_ty := S7Type.Bit |}) =
    Ok {| sa_area := Area.Db; sa_db := 10; sa_byte := 4; sa_bit := 3; sa_ty := S7Type.Bit |}.
Proof.
  apply (s7_parse_canonical {| sa_area := Area.Db; sa_db := 10; sa_byte := 4; sa_bit := 3; sa_ty := S7Type.Bit |}).
  by split.
Defined.

Lemma s7_codec_round_trip_witness :
  ∃ out, decode_read S7Type.Word (Some DataType.I64) [0xFF; 0xFE] = Ok out ∧
    (RawValueOut.to_raw out = RawValue.I64 (-2) ∨
     ∃ f, RawValue.I64 (-2) = RawValue.F64 f ∧ f64_is_nan f = true ∧ out = RawValueOut.Real (f64_to_f32 f)).
Proof.
  apply (s7_codec_round_trip S7Type.Word (RawValue.I64 (-2)) (word_write [0xFF; 0xFE])); by vm_compute.
Defined.

(** ** Plans *)
Definition example_words : list DriverReadItem :=
  [read_item 1 (lit "DB1.DBW0") (Some DataType.U16); read_item 2 (lit "DB1.DBW4") None;
   read_item 3 (lit "DB1.DBX6.1") None].

Definition example_plans : list ReadPlan := Eval vm_compute in
  match plan_read_batch example_words 480 20 with Ok plans => plans | _ => [] end.

Lemma example_plans_eq : plan_read_batch example_words 480 20 = Ok example_plans.
Proof. by vm_compute. Qed.

Lemma s7_read_plans_complete_witness :
  (pi_item_id <$> (example_plans ≫= rp_items)) ≡ₚ (ri_id <$> example_words) ∧
  ∀ p i, p ∈ example_plans → i ∈ rp_items p → ∃ item a, located example_words p i item a.
Proof. apply (s7_read_plans_complete example_words 480 20 example_plans), example_plans_eq. Defined.

Definition example_plan : ReadPlan := Eval vm_compute in default (mkReadPlan 0 0 0 0 []) (head example_plans).

Lemma s7_read_plans_fit_witness :
  (1 ≤ length (rp_items example_plan) ≤ 20)%nat ∧ 0 ≤ rp_start_byte example_plan ≤ MAX_BYTE_OFFSET ∧
  1 ≤ rp_data_len example_plan < 2 ^ 16 ∧
  ACK_HEADER_LEN + 4 + 4 + rp_data_len example_plan + 1 ≤ 480.
Proof.
  apply (s7_read_plans_fit example_words 480 20 example_plans example_plan);
    [apply example_plans_eq|by left|done|lia].
Defined.

(** ** Batches *)
Definition compatible_dec (x y : DriverReadItem) : bool :=
  match parse (ri_address x), parse (ri_address y) with
  | Ok a, Ok b =>
      negb (bool_decide (read_key a = read_key b)) ||
      match sa_ty a with
      | S7Type.Bit => negb (sa_byte b * 8 + sa_bit b =? sa_byte a * 8 + sa_bit a + 1)
      | ty => bool_decide (sa_ty b = ty) && ((sa_byte b - sa_byte a) mod S7Type.width_bytes ty =? 0)
      end
  | _, _ => true
  end.

Lemma compatible_dec_sound x y : compatible_dec x y = true → compatible x y.
Proof.
  unfold compatible_dec, compatible. intros H a b Ha Hb Hk. rewrite Ha, Hb in H.
  rewrite (bool_decide_eq_true_2 _ Hk) in H. cbn in H.
  destruct (sa_ty a); [lia|..];
    (apply andb_true_iff in H as [H1%bool_decide_eq_true H2%Z.eqb_eq]; by split).
Qed.

Lemma compatible_all items :
  forallb (λ x, forallb (compatible_dec x) items) items = true →
  ∀ x y, x ∈ items → y ∈ items → compatible x y.
Proof.
  rewrite forallb_forall. intros H x y Hx%list_elem_of_In Hy%list_elem_of_In. specialize (H x Hx). rewrite forallb_forall in H.
  by apply compatible_dec_sound, H.
Qed.

Lemma s7_read_transparent_witness :
  ∃ s' rs, read_batch example_words example_state = (s', Ok rs) ∧ serving example_config 480 example_image s' ∧
    Some <$> rs ≡ₚ read_alone example_image <$> example_words.
Proof.
  apply (s7_read_transparent example_config 480 example_image example_state example_words example_plans
    s7_example_serving example_usable example_plans_eq).
  apply compatible_all. by vm_compute.
Defined.

(** Bits 0 and 1 of byte 6 hold 0 and 1; both items report 0. *)
Lemma s7_adjacent_bits_misread_witness :
  ∃ s', read_batch [read_item 1 (lit "DB1.DBX6.0") None; read_item 2 (lit "DB1.DBX6.1") None] example_state =
    (s', Ok [read_result 1 (Ok (RawValue.Bool false)); read_result 2 (Ok (RawValue.Bool false))]).
Proof.
  apply (s7_adjacent_bits_misread example_config 480 example_image example_state
    (read_item 1 (lit "DB1.DBX6.0") None) (read_item 2 (lit "DB1.DBX6.1") None)
    {| sa_area := Area.Db; sa_db := 1; sa_byte := 6; sa_bit := 0; sa_ty := S7Type.Bit |}
    {| sa_area := Area.Db; sa_db := 1; sa_byte := 6; sa_bit := 1; sa_ty := S7Type.Bit |}
    s7_example_serving example_usable); [cbn; lia|by vm_compute..].
Defined.

Lemma s7_mixed_widths_lost_witness :
  ∃ s' r, read_batch [read_item 1 (lit "DB1.DBD0") None; read_item 2 (lit "DB1.DBW4") None] example_state =
    (s', Ok [r; read_result 2 (Err S7Error.invalid_response)]).
Proof.
  apply (s7_mixed_widths_lost example_config 480 example_image example_state
    (read_item 1 (lit "DB1.DBD0") None) (read_item 2 (lit "DB1.DBW4") None)
    {| sa_area := Area.Db; sa_db := 1; sa_byte := 0; sa_bit := 0; sa_ty := S7Type.Dword |}
    {| sa_area := Area.Db; sa_db := 1; sa_byte := 4; sa_bit := 0; sa_ty := S7Type.Word |}
    s7_example_serving example_usable); [cbn; lia|by vm_compute..].
Defined.

Definition example_writes : list WriteRequest :=
  [write_item 1 (lit "DB1.DBW2") (RawValue.U64 0xBEEF); write_item 2 (lit "DB1.DBW0") (RawValue.I64 (-2));
   write_item 3 (lit "DB1.DBX8.5") (RawValue.Bool true); write_item 4 (lit "MD12") (RawValue.F64 0x3FF8000000000000)].

Definition refused_writes : list WriteRequest :=
  write_item 5 (lit "IW0") (RawValue.U64 1) :: write_item 6 (lit "MB3") (RawValue.U64 300) :: example_writes.

Definition refused_plan : list WritePlan * list (Z * S7Error.t) := Eval vm_compute in
  match plan_write_batch refused_writes 480 20 with Ok r => r | _ => ([], []) end.

Lemma s7_write_stores_witness :
  ∃ s' rs order, write_batch refused_writes example_state = (s', Ok rs) ∧ rs ≡ₚ write_result <$> refused_writes ∧
    order ≡ₚ omap write_entry refused_writes ∧ serving example_config 480 (foldl store_entry example_image order) s'.
Proof.
  apply (s7_write_stores example_config 480 example_image example_state refused_writes refused_plan.1 refused_plan.2
    s7_example_serving example_usable). by vm_compute.
Defined.

Definition apart_dec (x y : WriteKey * EncodedEntry) : bool :=
  negb (bool_decide (x.1.1 = y.1.1)) || ((span x).2 <=? (span y).1) || ((span y).2 <=? (span x).1).

Lemma apart_dec_sound x y : apart_dec x y = true → apart x y.
Proof.
  unfold apart_dec, apart. rewrite !orb_true_iff, negb_true_iff, bool_decide_eq_false, !Z.leb_le. tauto.
Qed.

Definition example_entries : list (WriteKey * EncodedEntry) :=
  Eval vm_compute in omap write_entry example_writes.

Lemma example_entries_eq : example_entries = omap write_entry example_writes.
Proof. by vm_compute. Qed.

Lemma s7_write_then_read_witness :
  ∃ s1 rs1 s2 rs2,
    write_batch example_writes example_state = (s1, Ok rs1) ∧
    rs1 ≡ₚ (λ i, write_ok_result (wq_id i)) <$> example_writes ∧
    read_batch (readback <$> example_writes) s1 = (s2, Ok rs2) ∧
    rs2 ≡ₚ (λ i, read_result (wq_id i) (Ok (wq_value i))) <$> example_writes.
Proof.
  apply (s7_write_then_read example_config 480 example_image example_state example_writes s7_example_serving example_usable).
  - repeat constructor; try (eexists; by vm_compute); by vm_compute.
  - rewrite <- example_entries_eq.
    repeat first [apply FOP_nil | apply FOP_cons | apply Forall_nil_2 | apply Forall_cons_2];
      apply apart_dec_sound; by vm_compute.
  - apply compatible_all. by vm_compute.
Defined.

(** ** The entry points *)
#[export] Instance example_plugin : Plugin (S7commDriver ()) Line S7Error.t WriteRequest :=
  s7_plugin (λ _, Some example_config).

#[export] Instance example_plugin_laws : PluginLaws (S7commDriver ()) Line S7Error.t WriteRequest :=
  s7_plugin_laws _.

(** Envelopes that carry no content. *)
#[export] Instance empty_envelopes : Envelopes :=
  {| read_envelope _ := Some [0x7B; 0x7D]; write_envelope _ := Some [0x7B; 0x7D];
     address_envelope _ := Some [0x7B; 0x7D]; capabilities_envelope _ := Some [0x7B; 0x7D];
     error_envelope _ := Some [0x7B; 0x7D] |}.

Definition example_request : FfiReadItem :=
  {| fr_id := 1; fr_address := {| fs_null := false; fs_bytes := lit "DB1.DBW0" |}; fr_expected_type := 0 |}.

Lemma plugin_batch_reports_witness :
  batch_reports convert_read_items pl_read_batch read_envelope (take 1 (default [] (Some [example_request])))
    (example_state.1, example_state.2)
    (api_read (Some [example_request]) 1 (Some example_state.1) example_state.2).
Proof.
  exact (proj1 (plugin_batch_reports (Some [example_request]) (Some []) 1 example_state.1 example_state.2
    ltac:(by intros [|]))).
Defined.
