(* ===== verification/McCodec.v ===== *)
(** * MC device addresses: drivers/mitsubishi-mc/src/address.rs

    The kinds of devices of a Mitsubishi controller, the address grammar and the
    canonical form. *)

From S2P Require Import Prelude RustStd ObservationModel.
From stdpp Require Import options.

Module DeviceKind.
Inductive t : Type := X | Y | M | B | S | Sm | D | W | R | Zr | Sd.

#[global] Instance t_eq_dec : EqDecision t.
Proof. solve_decision. Defined.

(** The derived [Ord]: declaration order. *)
Definition rank (k : t) : Z :=
  match k with
  | X => 0 | Y => 1 | M => 2 | B => 3 | S => 4 | Sm => 5 | D => 6 | W => 7 | R => 8 | Zr => 9 | Sd => 10
  end.

(** The device codes of a 3E frame. *)
Definition code (k : t) : Z :=
  match k with
  | X => 0x9C | Y => 0x9D | M => 0x90 | B => 0xA0 | S => 0x98 | Sm => 0x91
  | D => 0xA8 | W => 0xB4 | R => 0xAF | Zr => 0xB0 | Sd => 0xA9
  end.

Definition is_bit (k : t) : bool :=
  match k with X | Y | M | B | S | Sm => true | _ => false end.

Definition writable (k : t) : bool :=
  negb match k with X | Sm => true | _ => false end.

Definition canonical_prefix (k : t) : str :=
  match k with
  | X => lit "X" | Y => lit "Y" | M => lit "M" | B => lit "B" | S => lit "S" | Sm => lit "SM"
  | D => lit "D" | W => lit "W" | R => lit "R" | Zr => lit "ZR" | Sd => lit "SD"
  end.

(** [str::to_ascii_uppercase] *)
Definition to_ascii_uppercase (s : str) : str :=
  (λ c, if (97 <=? c) && (c <=? 122) then c - 32 else c) <$> s.

Definition parse_prefix (prefix : str) : option t :=
  let p := to_ascii_uppercase prefix in
  if decide (p = lit "X") then Some X
  else if decide (p = lit "Y") then Some Y
  else if decide (p = lit "M") then Some M
  else if decide (p = lit "B") then Some B
  else if decide (p = lit "S") then Some S
  else if decide (p = lit "D") then Some D
  else if decide (p = lit "W") then Some W
  else if decide (p = lit "R") then Some R
  else if decide (p = lit "SM") then Some Sm
  else if decide (p = lit "SD") then Some Sd
  else if decide (p = lit "ZR") then Some Zr
  else None.
End DeviceKind.

Record DeviceAddress : Type := mkDeviceAddress {
  da_kind : DeviceKind.t;
  da_number : Z;
}.

#[global] Instance DeviceAddress_eq_dec : EqDecision DeviceAddress.
Proof. solve_decision. Defined.

Definition MAX_NUMBER : Z := 0x00FFFFFF.

(** Every error of [parse] is [McError::invalid_address]. *)
Inductive AddressError : Type := InvalidAddress.

Definition dot : Z := 46.

Definition parse (input : str) : outcome AddressError DeviceAddress :=
  let raw := trim input in
  if bool_decide (raw = []) then Err InvalidAddress
  else
    let? (prefix, digits) := ok_or (split_at_digit raw) InvalidAddress in
    if bool_decide (dot ∈ digits) then Err InvalidAddress
    else if bool_decide (digits = []) || negb (forallb (λ c, (48 <=? c) && (c <=? 57)) digits)
    then Err InvalidAddress
    else
      let? kind := ok_or (DeviceKind.parse_prefix prefix) InvalidAddress in
      let? number := ok_or (parse_uint 32 digits) InvalidAddress in
      if MAX_NUMBER <? number then Err InvalidAddress
      else Ok {| da_kind := kind; da_number := number |}.

Definition canonical (a : DeviceAddress) : str :=
  DeviceKind.canonical_prefix (da_kind a) ++ to_string (da_number a).

(** ** Properties *)
Definition addr_wf (a : DeviceAddress) : Prop := 0 ≤ da_number a ≤ MAX_NUMBER.

Lemma mc_parse_wf s a : parse s = Ok a → addr_wf a.
Proof.
  unfold parse. cbn zeta. case_if; [done|].
  intros ([prefix digits] & _ & H)%outcome_bind_Ok_inv. case_if; [done|]. case_if; [done|].
  apply outcome_bind_Ok_inv in H as (kind & _ & H). apply outcome_bind_Ok_inv in H as (number & Hn & H).
  case_if; [done|]. injection H as <-. unfold addr_wf. cbn [da_number].
  destruct (parse_uint 32 digits) as [n|] eqn:E; [|done]. injection Hn as ->.
  pose proof (parse_uint_range 32 digits number ltac:(lia) E) as Hr. unfold in_u in Hr. lia.
Qed.

Lemma parse_no_panic s : parse s ≠ Panic.
Proof.
  unfold parse. cbn zeta. case_if; [done|]. destruct (split_at_digit _) as [[p d]|]; [|done].
  cbn [ok_or outcome_bind]. case_if; [done|]. case_if; [done|].
  destruct (DeviceKind.parse_prefix p); [|done]. destruct (parse_uint 32 d); [|done].
  cbn [ok_or outcome_bind]. by case_if.
Qed.

Lemma parse_canonical a : addr_wf a → parse (canonical a) = Ok a.
Proof.
  unfold addr_wf, MAX_NUMBER. intros Ha. unfold parse, canonical.
  assert (Forall (λ c, is_whitespace c = false ∧ ¬ is_digit c) (DeviceKind.canonical_prefix (da_kind a))) as Hp.
  { assert (forallb (λ c, negb (is_whitespace c) && negb ((48 <=? c) && (c <=? 57)))
      (DeviceKind.canonical_prefix (da_kind a)) = true) as Hb%Is_true_eq_left by (by destruct (da_kind a)).
    apply forallb_True in Hb. eapply Forall_impl; [exact Hb|]. intros c Hc%Is_true_eq_true. unfold is_digit.
    destruct (is_whitespace c); [done|]. split; [done|lia]. }
  pose proof (to_string_digits (da_number a)) as Hd.
  set (p := DeviceKind.canonical_prefix (da_kind a)) in *. set (n := to_string (da_number a)) in *.
  assert (trim (p ++ n) = p ++ n) as ->.
  { apply trim_no_ws, Forall_app. split; [by eapply Forall_impl; [exact Hp|intros c []]|].
    eapply Forall_impl; [exact Hd|]. intros c. apply is_digit_no_ws. }
  rewrite bool_decide_eq_false_2 by (unfold p; by destruct (da_kind a)). cbn zeta.
  rewrite <- (app_nil_r n) at 1. unfold n at 1.
  rewrite split_at_digit_app by (eapply Forall_impl; [exact Hp|by intros c []]).
  rewrite app_nil_r. fold n. cbn [ok_or outcome_bind].
  rewrite bool_decide_eq_false_2 by (apply to_string_not_elem; unfold is_digit, dot; lia).
  assert (n ≠ []) as Hne. { unfold n, to_string. destruct (dec_aux_cons 19 (da_number a) []) as (c & l & _ & ->). done. }
  rewrite bool_decide_eq_false_2 by done.
  assert (forallb (λ c, (48 <=? c) && (c <=? 57)) n = true) as ->.
  { clear -Hd. induction Hd as [|c l Hc _ IH]; [done|]. cbn. unfold is_digit in Hc. rewrite IH. lia. }
  cbn [negb orb]. assert (DeviceKind.parse_prefix p = Some (da_kind a)) as -> by (unfold p; by destruct (da_kind a)).
  cbn [ok_or outcome_bind]. unfold n. rewrite parse_uint_to_string by lia. cbn [ok_or outcome_bind].
  replace (MAX_NUMBER <? da_number a) with false by (unfold MAX_NUMBER; lia). by destruct a.
Qed.

(** The MC address grammar is exact: parsing never panics, an accepted address
    has a number the wire can carry, and its canonical text is parsed back to
    it. *)
Theorem mc_address_round_trip s a :
  parse s = Ok a → addr_wf a ∧ parse (canonical a) = Ok a.
Proof. intros H%mc_parse_wf. split; [done|by apply parse_canonical]. Qed.

Example parses_d200 : parse (lit " d200 ") = Ok {| da_kind := DeviceKind.D; da_number := 200 |}.
Proof. reflexivity. Qed.
Example rejects_bit_offset : parse (lit "D200.3") = Err InvalidAddress.
Proof. reflexivity. Qed.

(** * MC 3E frames: drivers/mitsubishi-mc/src/{error,mc}.rs

    The error classes, the routing area, the requests for batch reads and
    writes and the checks on the head of a response. *)

(** ** Errors (error.rs) *)
Module McError.
Record t : Type := mk {
  code : string;
  protocol_code : option Z;
  retryable : bool;
}.

Definition new (code : string) (retryable : bool) : t :=
  {| code := code; protocol_code := None; retryable := retryable |}.

Definition connection_failed : t := new "connection_failed" true.
Definition connection_lost : t := new "connection_lost" true.
Definition timeout : t := new "timeout" true.
Definition invalid_response : t := new "invalid_response" false.
Definition unexpected_subheader : t := new "unexpected_subheader" false.
Definition mc_error_response (end_code : Z) : t :=
  {| code := "mc_error_response"; protocol_code := Some end_code; retryable := false |}.
Definition invalid_address : t := new "invalid_address" false.
Definition config_error : t := new "config_error" false.
Definition decode_error : t := new "decode_error" false.
Definition invalid_type : t := new "invalid_type" false.
Definition driver_panic : t := new "DRIVER_PANIC" false.
Definition unsupported : t := new "unsupported" false.

Definition into_info (e : t) : DriverErrorInfo :=
  {| dei_code := code e; dei_protocol_code := protocol_code e; dei_retryable := retryable e |}.

Definition is_transport_level (e : t) : bool :=
  bool_decide (code e = "connection_lost"%string ∨ code e = "connection_failed"%string
               ∨ code e = "timeout"%string ∨ code e = "invalid_response"%string
               ∨ code e = "unexpected_subheader"%string).
End McError.

(** ** Frames (mc.rs) *)
Definition SUBHEADER_REQUEST : Z := 0x0050.
Definition SUBHEADER_RESPONSE : Z := 0x00D0.
Definition CMD_READ_WORD : Z := 0x0401.
Definition CMD_READ_BIT : Z := 0x0402.
Definition CMD_WRITE_WORD : Z := 0x1401.
Definition CMD_WRITE_BIT : Z := 0x1402.
Definition SUBCOMMAND_BINARY : Z := 0x0000.
Definition REQUEST_HEAD_LEN : nat := 9.
Definition RESPONSE_HEAD_LEN : nat := 9.

Module McUnit.
Inductive t : Type := Bit | Word.
End McUnit.

Definition unit (k : DeviceKind.t) : McUnit.t := if DeviceKind.is_bit k then McUnit.Bit else McUnit.Word.

Record Routing : Type := mkRouting {
  rt_network_no : Z;
  rt_pc_no : Z;
  rt_module_io : Z;
  rt_module_station : Z;
}.

#[global] Instance Routing_eq_dec : EqDecision Routing.
Proof. solve_decision. Defined.

Definition routing_encode (r : Routing) : list Z :=
  let io := to_le_bytes 2 (rt_module_io r) in
  [rt_network_no r; rt_pc_no r; io !!! 0%nat; io !!! 1%nat; rt_module_station r].

Definition routing_decode (frame : list Z) : option Routing :=
  if (length frame <? 7)%nat then None
  else Some {| rt_network_no := frame !!! 2%nat; rt_pc_no := frame !!! 3%nat;
               rt_module_io := from_le_bytes [frame !!! 4%nat; frame !!! 5%nat];
               rt_module_station := frame !!! 6%nat |}.

Definition build_command_body (command : Z) (kind : DeviceKind.t) (start_number points : Z) (data : list Z) :
    list Z :=
  [0; 0] ++ to_le_bytes 2 command ++ to_le_bytes 2 SUBCOMMAND_BINARY ++ [DeviceKind.code kind]
    ++ take 3 (to_le_bytes 4 start_number) ++ to_le_bytes 2 points ++ data.

(** The monitoring timer overwrites the first two bytes of the body, which
    every caller leaves free for it. *)
Definition assemble_frame (subheader : Z) (routing : Routing) (monitoring_timer : Z) (body : list Z) : list Z :=
  let frame := to_le_bytes 2 subheader ++ routing_encode routing
                 ++ to_le_bytes 2 (Z.of_nat (length body)) ++ body in
  <[S REQUEST_HEAD_LEN := wrap8 (Z.shiftr monitoring_timer 8)]>
    (<[REQUEST_HEAD_LEN := Z.land monitoring_timer 0xFF]> frame).

Definition read_command_of (kind : DeviceKind.t) : Z :=
  match unit kind with McUnit.Word => CMD_READ_WORD | McUnit.Bit => CMD_READ_BIT end.

Definition write_command_of (kind : DeviceKind.t) : Z :=
  match unit kind with McUnit.Word => CMD_WRITE_WORD | McUnit.Bit => CMD_WRITE_BIT end.

Definition build_read_request (kind : DeviceKind.t) (start_number points monitoring_timer : Z)
    (routing : Routing) : list Z :=
  let command := match unit kind with McUnit.Word => CMD_READ_WORD | McUnit.Bit => CMD_READ_BIT end in
  let body := build_command_body command kind start_number points [] in
  assemble_frame SUBHEADER_REQUEST routing monitoring_timer body.

Definition build_write_request (kind : DeviceKind.t) (start_number points : Z) (data : list Z)
    (monitoring_timer : Z) (routing : Routing) : list Z :=
  let command := match unit kind with McUnit.Word => CMD_WRITE_WORD | McUnit.Bit => CMD_WRITE_BIT end in
  let body := build_command_body command kind start_number points data in
  assemble_frame SUBHEADER_REQUEST routing monitoring_timer body.

Record ResponseHead : Type := mkResponseHead {
  rh_end_code : Z;
  rh_declared_len : Z;
}.

Definition parse_response_head (frame : list Z) (expect_routing : Routing) :
    outcome McError.t (ResponseHead * list Z) :=
  if (length frame <? RESPONSE_HEAD_LEN)%nat then Err McError.invalid_response
  else
    let subheader := from_le_bytes [frame !!! 0%nat; frame !!! 1%nat] in
    if negb (subheader =? SUBHEADER_RESPONSE) then Err McError.unexpected_subheader
    else
      let? got_routing := ok_or (routing_decode frame) McError.invalid_response in
      if negb (bool_decide (got_routing = expect_routing)) then Err McError.invalid_response
      else
        let declared_len := from_le_bytes [frame !!! 7%nat; frame !!! 8%nat] in
        if Z.of_nat (length frame) <? Z.of_nat RESPONSE_HEAD_LEN + declared_len
        then Err McError.invalid_response
        else
          let body := slice RESPONSE_HEAD_LEN (RESPONSE_HEAD_LEN + Z.to_nat declared_len) frame in
          if (length body <? 2)%nat then Err McError.invalid_response
          else Ok ({| rh_end_code := from_le_bytes [body !!! 0%nat; body !!! 1%nat];
                      rh_declared_len := declared_len |}, body).

Definition expected_resp_body_len (command points : Z) : Z :=
  if command =? CMD_READ_WORD then 2 + points * 2
  else if command =? CMD_READ_BIT then 2 + div_ceil points 8
  else 2.

(** ** Properties *)
Record routing_wf (r : Routing) : Prop := {
  rw_network : byte_ok (rt_network_no r);
  rw_pc : byte_ok (rt_pc_no r);
  rw_io : in_u 16 (rt_module_io r);
  rw_station : byte_ok (rt_module_station r);
}.

Lemma routing_decode_encode sub r rest :
  routing_wf r → routing_decode (to_le_bytes 2 sub ++ routing_encode r ++ rest) = Some r.
Proof.
  intros [_ _ Hio _]. unfold routing_decode. set (frame := _ ++ _ ++ _).
  change (length frame <? 7)%nat with false.
  change (frame !!! 2%nat) with (rt_network_no r). change (frame !!! 3%nat) with (rt_pc_no r).
  change [frame !!! 4%nat; frame !!! 5%nat] with (to_le_bytes 2 (rt_module_io r)).
  change (frame !!! 6%nat) with (rt_module_station r). cbv iota.
  rewrite from_to_le_bytes. change (8 * Z.of_nat 2) with 16. rewrite Z.mod_small by exact Hio. by destruct r.
Qed.

(** The response that answers a request with an end code and data. *)
Definition response (r : Routing) (body : list Z) : list Z :=
  to_le_bytes 2 SUBHEADER_RESPONSE ++ routing_encode r ++ to_le_bytes 2 (Z.of_nat (length body)) ++ body.

Lemma parse_response r end_code data :
  routing_wf r → in_u 16 end_code → Z.of_nat (length data) + 2 < 2 ^ 16 →
  parse_response_head (response r (to_le_bytes 2 end_code ++ data)) r =
    Ok ({| rh_end_code := end_code; rh_declared_len := Z.of_nat (length data) + 2 |},
        to_le_bytes 2 end_code ++ data).
Proof.
  intros Hr He Hd. unfold parse_response_head. set (body := to_le_bytes 2 end_code ++ data).
  assert (length body = (2 + length data)%nat) as Hlen by (unfold body; rewrite length_app, length_to_le_bytes; done).
  set (frame := response r body).
  assert (length frame = (9 + length body)%nat) as Hf by done.
  rewrite Hf, Hlen. unfold RESPONSE_HEAD_LEN.
  replace (9 + (2 + length data) <? 9)%nat with false by lia. cbn zeta.
  change [frame !!! 0%nat; frame !!! 1%nat] with (to_le_bytes 2 SUBHEADER_RESPONSE).
  change [frame !!! 7%nat; frame !!! 8%nat] with (to_le_bytes 2 (Z.of_nat (length body))).
  rewrite !from_to_le_bytes. change (8 * Z.of_nat 2) with 16.
  change (negb (SUBHEADER_RESPONSE mod 2 ^ 16 =? SUBHEADER_RESPONSE)) with false. cbv iota.
  rewrite Z.mod_small by (rewrite Hlen; lia). unfold frame at 1, response at 1.
  rewrite routing_decode_encode by done. cbn [ok_or outcome_bind].
  rewrite bool_decide_eq_true_2 by done. cbn [negb].
  replace (Z.of_nat (9 + (2 + length data)) <? _) with false by lia.
  assert (slice 9 (9 + Z.to_nat (Z.of_nat (length body))) frame = body) as ->.
  { unfold slice. change (drop 9 frame) with body. apply take_ge. lia. }
  rewrite Hlen. replace (2 + length data <? 2)%nat with false by lia.
  change [body !!! 0%nat; body !!! 1%nat] with (to_le_bytes 2 end_code).
  rewrite from_to_le_bytes. change (8 * Z.of_nat 2) with 16. rewrite Z.mod_small by exact He. do 3 f_equal. lia.
Qed.

Lemma parse_response_head_safe frame r :
  match parse_response_head frame r with
  | Ok (_, body) => (2 ≤ length body)%nat
  | Err e => McError.is_transport_level e = true
  | Panic => False
  end.
Proof.
  unfold parse_response_head. case_if; [done|]. cbn zeta. case_if; [done|].
  destruct (routing_decode frame); [|done]. cbn [ok_or outcome_bind]. case_if; [done|].
  case_if; [done|]. case_if; [done|]. lia.
Qed.

(** Golden bytes of the unit tests. *)
Example golden_read_word_request :
  drop 9 (build_read_request DeviceKind.D 200 3 2000
    {| rt_network_no := 0; rt_pc_no := 0; rt_module_io := 0x03FF; rt_module_station := 0 |}) =
  [0xD0; 0x07; 0x01; 0x04; 0x00; 0x00; 0xA8; 200; 0; 0; 3; 0].
Proof. reflexivity. Qed.

(** * MC values and configuration: drivers/mitsubishi-mc/src/{decode,encode,config}.rs

    The interpretation of device words under an expected type, the encoding of
    values by their narrowest width, and the connection configuration. *)

(** ** Decoding *)

(** Words, signed, float. *)
Definition word_layout (expected : option DataType.t) : outcome McError.t (nat * bool * bool) :=
  match expected with
  | None => Ok (1%nat, false, false)
  | Some DataType.U8 | Some DataType.U16 => Ok (1%nat, false, false)
  | Some DataType.I8 | Some DataType.I16 => Ok (1%nat, true, false)
  | Some DataType.U32 => Ok (2%nat, false, false)
  | Some DataType.I32 => Ok (2%nat, true, false)
  | Some DataType.F32 => Ok (2%nat, false, true)
  | Some DataType.U64 => Ok (4%nat, false, false)
  | Some DataType.I64 => Ok (4%nat, true, false)
  | Some DataType.F64 => Ok (4%nat, false, true)
  | Some _ => Err McError.invalid_type
  end.

Definition decode_bit (expected : option DataType.t) (payload : list Z) : outcome McError.t RawValue.t :=
  match expected with
  | None | Some DataType.Bool =>
      match payload with
      | [] => Err McError.invalid_response
      | b :: _ => Ok (RawValue.Bool (negb (Z.land b 1 =? 0)))
      end
  | Some _ => Err McError.invalid_type
  end.

(** [decode_read_ref]; the payload has the length of the words it decodes, so
    the zero padding of the buffer is not read. *)
Definition decode_read (kind : DeviceKind.t) (expected : option DataType.t) (payload : list Z) :
    outcome McError.t RawValue.t :=
  if DeviceKind.is_bit kind then decode_bit expected payload
  else
    let? (points, signed, float) := word_layout expected in
    if negb (length payload =? points * 2)%nat then Err McError.invalid_response
    else
      let raw := from_le_bytes payload in
      match points, signed, float with
      | 1%nat, false, false => Ok (RawValue.U64 raw)
      | 1%nat, true, false => Ok (RawValue.I64 (wrap_signed 16 raw))
      | 2%nat, false, false => Ok (RawValue.U64 raw)
      | 2%nat, true, false => Ok (RawValue.I64 (wrap_signed 32 raw))
      | 2%nat, false, true => Ok (RawValue.F64 (f32_to_f64 raw))
      | 4%nat, false, false => Ok (RawValue.U64 raw)
      | 4%nat, true, false => Ok (RawValue.I64 (wrap_signed 64 raw))
      | 4%nat, false, true => Ok (RawValue.F64 raw)
      | _, _, _ => Err McError.invalid_type
      end.

(** ** Encoding *)
Record EncodedWrite : Type := mkEncodedWrite {
  ew_points : Z;
  ew_data : list Z;
}.

Definition encode_bit (value : RawValue.t) : outcome McError.t EncodedWrite :=
  match value with
  | RawValue.Bool b => Ok {| ew_points := 1; ew_data := [if b then 1 else 0] |}
  | _ => Err McError.invalid_type
  end.

Definition narrow_signed_i (v : Z) : EncodedWrite :=
  if decide (in_i 16 v) then {| ew_points := 1; ew_data := to_le_bytes 2 v |}
  else if decide (in_i 32 v) then {| ew_points := 2; ew_data := to_le_bytes 4 v |}
  else {| ew_points := 4; ew_data := to_le_bytes 8 v |}.

Definition narrow_unsigned_u (v : Z) : EncodedWrite :=
  if v <=? 0xFFFF then {| ew_points := 1; ew_data := to_le_bytes 2 v |}
  else if v <=? 0xFFFFFFFF then {| ew_points := 2; ew_data := to_le_bytes 4 v |}
  else {| ew_points := 4; ew_data := to_le_bytes 8 v |}.

Definition narrow_float (v : Z) : EncodedWrite :=
  let narrowed := f64_to_f32 v in
  if negb (f32_is_nan narrowed) && f64_eq (f32_to_f64 narrowed) v
  then {| ew_points := 2; ew_data := to_le_bytes 4 narrowed |}
  else {| ew_points := 4; ew_data := to_le_bytes 8 v |}.

Definition encode_write (kind : DeviceKind.t) (value : RawValue.t) : outcome McError.t EncodedWrite :=
  if DeviceKind.is_bit kind then encode_bit value
  else
    let numeric := match kind with
                   | DeviceKind.D | DeviceKind.W | DeviceKind.R | DeviceKind.Zr => true | _ => false end in
    match value with
    | RawValue.I64 v => if numeric then Ok (narrow_signed_i v) else Err McError.invalid_type
    | RawValue.U64 v => if numeric then Ok (narrow_unsigned_u v) else Err McError.invalid_type
    | RawValue.F64 v => if numeric then Ok (narrow_float v) else Err McError.invalid_type
    | _ => Err McError.invalid_type
    end.

(** ** Configuration (config.rs) *)
Record McConfig : Type := mkMcConfig {
  mc_mode : str;
  mc_host : str;
  mc_port : Z;
  mc_timeout_ms : Z;
  mc_reconnect : bool;
  mc_reconnect_max_attempts : Z;
  mc_reconnect_delay_ms : Z;
  mc_network_no : Z;
  mc_pc_no : Z;
  mc_module_io : Z;
  mc_module_station : Z;
  mc_monitoring_timer : Z;
  mc_max_word_points_per_access : Z;
  mc_max_bit_points_per_access : Z;
  mc_max_merge_gap_points : Z;
}.

Definition config_default : McConfig :=
  {| mc_mode := lit "tcp"; mc_host := []; mc_port := 6006; mc_timeout_ms := 3000; mc_reconnect := true;
     mc_reconnect_max_attempts := 3; mc_reconnect_delay_ms := 1000; mc_network_no := 0; mc_pc_no := 0;
     mc_module_io := 0x03FF; mc_module_station := 0; mc_monitoring_timer := 2000;
     mc_max_word_points_per_access := 960; mc_max_bit_points_per_access := 720;
     mc_max_merge_gap_points := 8 |}.

Definition validate (config : McConfig) : outcome McError.t () :=
  if negb (bool_decide (mc_mode config = lit "tcp")) then Err McError.config_error
  else if bool_decide (trim (mc_host config) = []) then Err McError.config_error
  else if mc_timeout_ms config =? 0 then Err McError.config_error
  else if (mc_max_word_points_per_access config =? 0) || (960 <? mc_max_word_points_per_access config)
  then Err McError.config_error
  else if (mc_max_bit_points_per_access config =? 0) || (720 <? mc_max_bit_points_per_access config)
  then Err McError.config_error
  else Ok ().

(** [serde_json::from_str] is a parameter. *)
Definition parse_config (from_str : str → option McConfig) (json : str) : outcome McError.t McConfig :=
  let? config := ok_or (from_str json) McError.config_error in
  let? _ := validate config in
  Ok config.

(** The values the fields of a configuration can hold. *)
Record config_wf (c : McConfig) : Prop := {
  cw_network : byte_ok (mc_network_no c);
  cw_pc : byte_ok (mc_pc_no c);
  cw_io : in_u 16 (mc_module_io c);
  cw_station : byte_ok (mc_module_station c);
  cw_timer : in_u 16 (mc_monitoring_timer c);
  cw_words : 1 ≤ mc_max_word_points_per_access c ≤ 960;
  cw_bits : 1 ≤ mc_max_bit_points_per_access c ≤ 720;
  cw_gap : in_u 32 (mc_max_merge_gap_points c);
}.

(** ** Properties *)

(** The expected type under which an encoded value is read back. *)
Definition read_type (v : RawValue.t) (enc : EncodedWrite) : option DataType.t :=
  match v with
  | RawValue.Bool _ => Some DataType.Bool
  | RawValue.I64 _ => Some (if ew_points enc =? 1 then DataType.I16
                            else if ew_points enc =? 2 then DataType.I32 else DataType.I64)
  | RawValue.U64 _ => Some (if ew_points enc =? 1 then DataType.U16
                            else if ew_points enc =? 2 then DataType.U32 else DataType.U64)
  | RawValue.F64 _ => Some (if ew_points enc =? 2 then DataType.F32 else DataType.F64)
  | _ => None
  end.

(** What an encoded value looks like: a bit in one byte, or whole words. *)
Lemma encode_write_shape kind v enc :
  encode_write kind v = Ok enc →
  bytes_ok (ew_data enc) ∧ 1 ≤ ew_points enc ≤ 4 ∧
  (if DeviceKind.is_bit kind then ew_points enc = 1 ∧ ∃ b : bool, ew_data enc = [Z.b2z b]
   else Z.of_nat (length (ew_data enc)) = ew_points enc * 2).
Proof.
  unfold encode_write. destruct (DeviceKind.is_bit kind).
  - destruct v as [b| | | | | | |]; try done. intros [= <-]. cbn [ew_data ew_points].
    split_and!; [by destruct b; repeat constructor; lia|lia|lia|done|by exists b; destruct b].
  - destruct v as [|v|v|v| | | |]; try done; (case_if; [|done]); intros [= <-];
      unfold narrow_signed_i, narrow_unsigned_u, narrow_float;
      repeat case_decide; repeat case_if; cbn [ew_data ew_points]; rewrite ?length_to_le_bytes;
      split_and!; try apply to_le_bytes_ok; lia.
Qed.

Lemma from_to_le (n : nat) v : from_le_bytes (to_le_bytes n v) = wrap (8 * Z.of_nat n) v.
Proof. apply from_to_le_bytes. Qed.

Lemma mc_encode_decode kind v enc :
  RawValue.wf v → encode_write kind v = Ok enc →
  decode_read kind (read_type v enc) (ew_data enc) = Ok v.
Proof.
  unfold encode_write, decode_read. intros Hwf. destruct (DeviceKind.is_bit kind).
  { destruct v as [[]| | | | | | |]; try done; by intros [= <-]. }
  destruct v as [|v|v|v| | | |]; try done; (case_if; [|done]); intros [= <-]; cbn [read_type].
  - unfold narrow_signed_i. repeat case_decide; cbn [ew_points ew_data Z.eqb Pos.eqb word_layout outcome_bind];
      rewrite length_to_le_bytes, from_to_le; cbn [negb Nat.eqb Nat.mul Nat.add]; do 2 f_equal;
      [by apply (wrap_signed_wrap_small 16)|by apply (wrap_signed_wrap_small 32)|by apply (wrap_signed_wrap_small 64)].
  - cbn in Hwf. unfold in_u in Hwf. unfold narrow_unsigned_u.
    destruct (v <=? 0xFFFF) eqn:?; [|destruct (v <=? 0xFFFFFFFF) eqn:?]; cbn [ew_points ew_data Z.eqb Pos.eqb word_layout outcome_bind];
      rewrite length_to_le_bytes, from_to_le; cbn [negb Nat.eqb Nat.mul Nat.add]; do 2 f_equal;
      apply wrap_small; unfold in_u; lia.
  - cbn in Hwf. unfold narrow_float. destruct (_ && _) eqn:E; cbn [ew_points ew_data Z.eqb Pos.eqb word_layout outcome_bind];
      rewrite length_to_le_bytes, from_to_le; cbn [negb Nat.eqb Nat.mul Nat.add]; do 2 f_equal;
      [|by apply wrap_small].
    rewrite wrap_small by apply f64_to_f32_range.
    apply f32_round_trip_bits; [done|]. lia.
Qed.
