(* ===== verification/McBatch.v ===== *)
(** * Batch planning: drivers/mitsubishi-mc/src/batch.rs

    Reads of one kind of device are sorted and merged into ranges, over small
    holes too; writes are merged only when they are exactly adjacent; both are
    split at the number of points of one access. *)

From S2P Require Import Prelude RustStd ObservationModel BatchRuns McCodec.
From stdpp Require Import options.

(** ** Data *)
Record PlannedItem : Type := mkPlannedItem {
  pi_item_id : Z;
  pi_expected : option DataType.t;
  pi_offset_in_points : Z;
}.

Record ReadPlan : Type := mkReadPlan {
  rp_kind : DeviceKind.t;
  rp_start_number : Z;
  rp_points : Z;
  rp_items : list (PlannedItem * Z);
}.

(** [ReadEntry]: device, number, points, item. *)
Record ReadEntry : Type := mkReadEntry {
  re_kind : DeviceKind.t;
  re_start : Z;
  re_width : Z;
  re_id : Z;
  re_expected : option DataType.t;
}.

Record WriteRequest : Type := mkWriteRequest {
  wq_id : Z;
  wq_address : str;
  wq_value : RawValue.t;
}.

Record WritePlan : Type := mkWritePlan {
  wp_kind : DeviceKind.t;
  wp_start_number : Z;
  wp_points : Z;
  wp_data : list Z;
  wp_item_ids : list Z;
}.

(** [WriteEntry]: number, points, item, payload. *)
Record WriteEntry : Type := mkWriteEntry {
  we_start : Z;
  we_width : Z;
  we_id : Z;
  we_data : list Z;
}.

Definition MAX_ITEMS_PER_PLAN : nat := 960.

Definition kind_cmp (a b : DeviceKind.t) : comparison := DeviceKind.rank a ?= DeviceKind.rank b.

(** [unit_limit] of a group. *)
Definition unit_limit (kind : DeviceKind.t) (max_word_points max_bit_points : Z) : Z :=
  if DeviceKind.is_bit kind then max_bit_points else max_word_points.

(** ** Read planning *)
Definition layout_points (expected : option DataType.t) : nat :=
  match word_layout expected with Ok (points, _, _) => points | _ => 1 end.

Definition read_entry (item : DriverReadItem) (addr : DeviceAddress) : ReadEntry :=
  {| re_kind := da_kind addr; re_start := da_number addr;
     re_width := if DeviceKind.is_bit (da_kind addr) then 1
                 else Z.of_nat (layout_points (ri_expected_type item));
     re_id := ri_id item; re_expected := ri_expected_type item |}.

Fixpoint read_entries (items : list DriverReadItem) : outcome McError.t (list ReadEntry) :=
  match items with
  | [] => Ok []
  | item :: items' =>
      let? addr := map_err (λ _, McError.invalid_address) (parse (ri_address item)) in
      let? rest := read_entries items' in
      Ok (read_entry item addr :: rest)
  end.

Definition group_reads (entries : list ReadEntry) : list (DeviceKind.t * list ReadEntry) :=
  foldl (λ groups e, btree_push kind_cmp (re_kind e) e groups) [] entries.

Definition chunk_end (chunk : list ReadEntry) : Z :=
  foldr Z.max 0 ((λ e, re_start e + re_width e) <$> chunk).

(** The next entry is too far away or does not fit in the chunk; the [u32]
    addition of the gap wraps. *)
Definition read_overflows (limit max_merge_gap : Z) (chunk : list ReadEntry) (entry : ReadEntry) : bool :=
  match chunk with
  | [] => false
  | first :: _ =>
      let gap_ok := re_start entry <=? wrap32 (chunk_end chunk + max_merge_gap) in
      let span := re_start entry + re_width entry - re_start first in
      negb gap_ok || (limit <? span) || (MAX_ITEMS_PER_PLAN <? S (length chunk))%nat
  end.

Definition planned_item (start_number : Z) (e : ReadEntry) : PlannedItem * Z :=
  ({| pi_item_id := re_id e; pi_expected := re_expected e; pi_offset_in_points := re_start e - start_number |},
   re_start e).

Definition flush_read (chunk : list ReadEntry) : list ReadPlan :=
  match chunk with
  | [] => []
  | first :: _ =>
      let start_number := re_start first in
      [{| rp_kind := re_kind first; rp_start_number := start_number;
          rp_points := wrap16 (chunk_end chunk - start_number);
          rp_items := planned_item start_number <$> chunk |}]
  end.

Definition plan_read_group (max_word_points max_bit_points max_merge_gap : Z)
    (group : DeviceKind.t * list ReadEntry) : list ReadPlan :=
  chunk_loop (read_overflows (unit_limit group.1 max_word_points max_bit_points) max_merge_gap)
    (sort_by_key re_start group.2) [] ≫= flush_read.

Definition plan_read_batch (items : list DriverReadItem) (max_word_points max_bit_points max_merge_gap : Z) :
    outcome McError.t (list ReadPlan) :=
  let? entries := read_entries items in
  Ok (group_reads entries ≫= plan_read_group max_word_points max_bit_points max_merge_gap).

(** ** Write planning *)
Fixpoint group_writes (items : list WriteRequest) (groups : list (DeviceKind.t * list WriteEntry))
    (failed : list (Z * McError.t)) :
    outcome McError.t (list (DeviceKind.t * list WriteEntry) * list (Z * McError.t)) :=
  match items with
  | [] => Ok (groups, failed)
  | req :: items' =>
      let? addr := map_err (λ _, McError.invalid_address) (parse (wq_address req)) in
      if negb (DeviceKind.writable (da_kind addr))
      then group_writes items' groups (failed ++ [(wq_id req, McError.invalid_address)])
      else
        match encode_write (da_kind addr) (wq_value req) with
        | Ok enc =>
            group_writes items'
              (btree_push kind_cmp (da_kind addr)
                 {| we_start := da_number addr; we_width := ew_points enc; we_id := wq_id req;
                    we_data := ew_data enc |} groups) failed
        | Err e => group_writes items' groups (failed ++ [(wq_id req, e)])
        | Panic => Panic
        end
  end.

(** The bits of a piece: [piece_data.get(i / 8)], bit [i % 8]. *)
Definition piece_bits (e : WriteEntry) : list bool :=
  (λ i, match we_data e !! (i / 8)%nat with
        | Some b => negb (Z.land (Z.shiftr b (Z.of_nat (i mod 8))) 1 =? 0)
        | None => false
        end) <$> seq 0 (Z.to_nat (we_width e)).

(** One byte of the bit string: [b |= 1 << i] for every bit set. *)
Fixpoint pack_byte (i : Z) (bits : list bool) (b : Z) : Z :=
  match bits with
  | [] => b
  | bit :: bits' => pack_byte (i + 1) bits' (if bit then Z.lor b (Z.shiftl 1 i) else b)
  end.

(** [bits.chunks(8)] *)
Definition pack_bits (bits : list bool) : list Z :=
  (λ j, pack_byte 0 (take 8 (drop (8 * j) bits)) 0)
    <$> seq 0 (Z.to_nat (div_ceil (Z.of_nat (length bits)) 8)).

Definition flush_write (chunk : list WriteEntry) (kind : DeviceKind.t) : list WritePlan :=
  match chunk with
  | [] => []
  | first :: _ =>
      [if DeviceKind.is_bit kind then
         let bits := chunk ≫= piece_bits in
         {| wp_kind := kind; wp_start_number := we_start first; wp_points := wrap16 (Z.of_nat (length bits));
            wp_data := pack_bits bits; wp_item_ids := we_id <$> chunk |}
       else
         {| wp_kind := kind; wp_start_number := we_start first;
            wp_points := wrap16 (foldr Z.add 0 (we_width <$> chunk));
            wp_data := chunk ≫= we_data; wp_item_ids := we_id <$> chunk |}]
  end.

Definition write_overflows (limit : Z) (current : list WriteEntry) (piece : WriteEntry) : bool :=
  match current with
  | [] => false
  | first :: _ =>
      (limit <? we_start piece + we_width piece - we_start first)
        || (MAX_ITEMS_PER_PLAN <? S (length current))%nat
  end.

Definition adjacent (prev entry : WriteEntry) : bool := we_start prev + we_width prev =? we_start entry.

Definition plan_write_group (max_word_points max_bit_points : Z)
    (group : DeviceKind.t * list WriteEntry) : list WritePlan :=
  split_runs adjacent (sort_by_key we_start group.2) ≫= λ run,
    chunk_loop (write_overflows (unit_limit group.1 max_word_points max_bit_points)) run [] ≫= λ chunk,
      flush_write chunk group.1.

Definition plan_write_batch (items : list WriteRequest) (max_word_points max_bit_points : Z) :
    outcome McError.t (list WritePlan * list (Z * McError.t)) :=
  let? (groups, failed) := group_writes items [] [] in
  Ok (groups ≫= plan_write_group max_word_points max_bit_points, failed).

(** ** The unit tests of the source *)
Definition word_read (id : Z) (address : string) : DriverReadItem :=
  {| ri_id := id; ri_address := lit address; ri_expected_type := None |}.

Example small_gap_merged :
  outcome_map (map (λ p, (rp_start_number p, rp_points p)))
    (plan_read_batch [word_read 1 "D100"; word_read 2 "D104"] 960 720 8) = Ok [(100, 5)].
Proof. reflexivity. Qed.

Example large_gap_split :
  outcome_map length (plan_read_batch [word_read 1 "D100"; word_read 2 "D120"] 960 720 8) = Ok 2%nat.
Proof. reflexivity. Qed.

Example exact_adjacent_write :
  outcome_map (λ r, map (λ p, (wp_points p, wp_data p)) r.1)
    (plan_write_batch
       [{| wq_id := 1; wq_address := lit "D0"; wq_value := RawValue.I64 10 |};
        {| wq_id := 2; wq_address := lit "D1"; wq_value := RawValue.I64 20 |}] 960 720) =
  Ok [(2, [10; 0; 20; 0])].
Proof. reflexivity. Qed.

(** * Laws of the MC batch planner

    Every plan is one chunk of a sorted group; the chunks respect the number of
    points of an access and the plans cover the requested items. *)

#[local] Set Default Proof Using "Type".

(** ** Grouping of reads *)
Lemma kind_cmp_eq a b : kind_cmp a b = Eq → a = b.
Proof. unfold kind_cmp. intros H%Z.compare_eq. by destruct a, b. Qed.

Lemma read_entries_spec items entries :
  read_entries items = Ok entries →
  Forall2 (λ i e, ∃ a, parse (ri_address i) = Ok a ∧ e = read_entry i a) items entries.
Proof.
  revert entries. induction items as [|item items IH]; intros entries H; [by injection H as <-|].
  apply outcome_bind_Ok_inv in H as (a & Ha & H). apply outcome_bind_Ok_inv in H as (rest & Hr & [= <-]).
  constructor; [|by apply IH]. destruct (parse (ri_address item)) as [a'| |] eqn:E; try done.
  injection Ha as ->. by exists a.
Qed.

Lemma read_entries_total items :
  Forall (λ i, ∃ a, parse (ri_address i) = Ok a) items → ∃ entries, read_entries items = Ok entries.
Proof.
  induction 1 as [|item items [a Ha] _ [entries IH]]; [by eexists|]. cbn [read_entries]. rewrite Ha, IH. by eexists.
Qed.

Lemma mc_group_reads_spec entries :
  btree_pairs (group_reads entries) ≡ₚ (λ e, (re_kind e, e)) <$> entries ∧
  btree_all (λ k e, k = re_kind e ∧ e ∈ entries) (group_reads entries).
Proof.
  unfold group_reads. assert (∀ groups seen,
    btree_all (λ k e, k = re_kind e ∧ e ∈ seen ++ entries) groups →
    btree_pairs (foldl (λ g e, btree_push kind_cmp (re_kind e) e g) groups entries) ≡ₚ
      btree_pairs groups ++ ((λ e, (re_kind e, e)) <$> entries) ∧
    btree_all (λ k e, k = re_kind e ∧ e ∈ seen ++ entries)
      (foldl (λ g e, btree_push kind_cmp (re_kind e) e g) groups entries)) as Hgen.
  { induction entries as [|e entries IH]; intros groups seen Hall; [by rewrite app_nil_r|].
    cbn [foldl]. destruct (IH (btree_push kind_cmp (re_kind e) e groups) (seen ++ [e])) as [Hp Ha].
    - rewrite <- app_assoc. apply btree_push_all; [apply kind_cmp_eq|done|]. split; [done|set_solver].
    - rewrite <- app_assoc in Ha. split; [|done].
      rewrite Hp, btree_push_pairs by apply kind_cmp_eq. by rewrite <- app_assoc. }
  apply (Hgen [] []). constructor.
Qed.

(** ** Entries *)
Record entry_wf (e : ReadEntry) : Prop := {
  ew_start : 0 ≤ re_start e ≤ MAX_NUMBER;
  ew_width : re_width e = if DeviceKind.is_bit (re_kind e) then 1 else Z.of_nat (layout_points (re_expected e));
}.

Lemma layout_points_range t : (1 ≤ layout_points t ≤ 4)%nat.
Proof. unfold layout_points. destruct t as [[]|]; cbn; lia. Qed.

Lemma entry_width_range e : entry_wf e → 1 ≤ re_width e ≤ 4.
Proof. intros [_ ->]. pose proof (layout_points_range (re_expected e)). case_if; lia. Qed.

Lemma read_entry_wf item a : parse (ri_address item) = Ok a → entry_wf (read_entry item a).
Proof. intros Ha%mc_parse_wf. by split. Qed.

(** ** Chunks *)
Definition read_chunks (words bits gap : Z) (group : DeviceKind.t * list ReadEntry) : list (list ReadEntry) :=
  chunk_loop (read_overflows (unit_limit group.1 words bits) gap) (sort_by_key re_start group.2) [].

Lemma read_chunks_concat words bits gap group :
  concat (read_chunks words bits gap group) = sort_by_key re_start group.2.
Proof.
  unfold read_chunks. destruct (chunk_loop_ok (read_overflows (unit_limit group.1 words bits) gap)
    (sort_by_key re_start group.2) []) as [_ Hcat]; [done|by left|exact Hcat].
Qed.

(** What is known of a chunk of a group. *)
Record read_chunk (limit gap : Z) (kind : DeviceKind.t) (c : list ReadEntry) : Prop := {
  rc_ok : chunk_ok (read_overflows limit gap) c;
  rc_sorted : StronglySorted (key_le re_start) c;
  rc_kind : Forall (λ e, re_kind e = kind) c;
  rc_wf : Forall entry_wf c;
}.

Lemma read_chunks_read_chunk words bits gap kind entries c :
  Forall (λ e, re_kind e = kind) entries → Forall entry_wf entries → c ∈ read_chunks words bits gap (kind, entries) →
  read_chunk (unit_limit kind words bits) gap kind c.
Proof.
  intros Hk Hw Hc. unfold read_chunks in Hc. cbn [fst snd] in Hc.
  destruct (chunk_loop_ok (read_overflows (unit_limit kind words bits) gap) (sort_by_key re_start entries) [])
    as [Hf Hcat]; [done|by left|].
  assert (∀ P : ReadEntry → Prop, Forall P entries → Forall P c) as Hsub.
  { intros P HP. rewrite Forall_forall in *. intros e He. apply HP.
    rewrite <- (sort_by_key_perm re_start entries), <- (app_nil_l (sort_by_key _ _)), <- Hcat.
    apply elem_of_concat. eauto. }
  rewrite Forall_forall in Hf. split; [by apply Hf| |by apply Hsub..].
  eapply sorted_concat; [|exact Hc]. rewrite Hcat. apply sort_by_key_sorted.
Qed.

Lemma sorted_first_le first c e :
  StronglySorted (key_le re_start) (first :: c) → e ∈ first :: c → re_start first ≤ re_start e.
Proof.
  intros [_ Hf]%StronglySorted_inv [->|He]%elem_of_cons; [lia|].
  rewrite Forall_forall in Hf. by apply Hf.
Qed.

Lemma chunk_end_ge c e : e ∈ c → re_start e + re_width e ≤ chunk_end c.
Proof. unfold chunk_end. induction 1 as [|e f c _ IH]; cbn; lia. Qed.

Lemma chunk_end_attained c :
  c ≠ [] → Forall entry_wf c → ∃ e, e ∈ c ∧ chunk_end c = re_start e + re_width e.
Proof.
  intros Hne Hw. induction c as [|e c IH]; [done|]. apply Forall_cons in Hw as [He Hw].
  pose proof (entry_width_range _ He). destruct He as [Hs _].
  destruct c as [|f c]; [exists e; cbn; split; [by left|lia]|].
  destruct IH as (x & Hx & Hd); [done..|]. unfold chunk_end in *. cbn [fmap list_fmap foldr] in *. rewrite Hd.
  destruct (Z.max_spec (re_start e + re_width e) (re_start x + re_width x)) as [[? ->]|[? ->]];
    [exists x|exists e]; (split; [by (right + left)|done]).
Qed.

(** No access asks for more points than the limit, or than one item needs. *)
Lemma read_chunk_points limit gap kind first c :
  read_chunk limit gap kind (first :: c) →
  1 ≤ chunk_end (first :: c) - re_start first ≤ Z.max limit 4 ∧ (length (first :: c) ≤ MAX_ITEMS_PER_PLAN)%nat.
Proof.
  intros [[_ Hok] Hs _ Hw]. pose proof Hw as Hw'. rewrite Forall_forall in Hw'.
  assert (∀ k e, (first :: c) !! S k = Some e →
    re_start e + re_width e - re_start first ≤ limit ∧ (S (S k) ≤ MAX_ITEMS_PER_PLAN)%nat) as Hfit.
  { intros k e Hk. specialize (Hok _ _ Hk). cbn [take read_overflows] in Hok.
    apply lookup_lt_Some in Hk. cbn [length] in *. rewrite length_take in Hok. lia. }
  destruct (chunk_end_attained (first :: c)) as (e & Hin & ->); [done..|].
  pose proof (sorted_first_le _ _ _ Hs Hin). pose proof (entry_width_range _ (Hw' _ Hin)). split.
  - split; [lia|]. apply list_elem_of_lookup_1 in Hin as [[|k] Hk]; [injection Hk as ->; lia|].
    destruct (Hfit _ _ Hk). lia.
  - destruct c as [|x c _] using rev_ind; [unfold MAX_ITEMS_PER_PLAN; cbn; lia|].
    destruct (Hfit (length c) x) as [_ ?]; [by apply (list_lookup_middle (first :: c) [] x)|].
    cbn [length] in *. rewrite length_app. cbn. lia.
Qed.

Lemma mc_plan_read_batch_chunks items words bits gap plans :
  plan_read_batch items words bits gap = Ok plans →
  ∃ entries groups,
    Forall2 (λ i e, ∃ a, parse (ri_address i) = Ok a ∧ e = read_entry i a) items entries ∧
    plans = (groups ≫= λ g, read_chunks words bits gap g ≫= flush_read) ∧
    btree_pairs groups ≡ₚ (λ e, (re_kind e, e)) <$> entries ∧
    Forall (λ g, ∀ c, c ∈ read_chunks words bits gap g →
              read_chunk (unit_limit g.1 words bits) gap g.1 c) groups.
Proof.
  intros (entries & He & [= <-])%outcome_bind_Ok_inv. pose proof (read_entries_spec _ _ He) as Hf.
  destruct (mc_group_reads_spec entries) as [Hp Hall]. exists entries, (group_reads entries).
  split_and!; [done|done|done|]. unfold btree_all in Hall. eapply Forall_impl; [exact Hall|].
  intros [kind es] Hes c Hc. cbn [fst snd] in *.
  eapply read_chunks_read_chunk; [|eapply Forall_impl; [exact Hes|]|exact Hc].
  - eapply Forall_impl; [exact Hes|]. by intros e [-> _].
  - intros e [_ Hin]. apply list_elem_of_lookup_1 in Hin as [k Hk].
    destruct (Forall2_lookup_r _ _ _ _ _ Hf Hk) as (i & _ & a & Ha & ->). by apply read_entry_wf.
Qed.

Lemma mc_plan_read_chunk items words bits gap plans p :
  plan_read_batch items words bits gap = Ok plans → p ∈ plans →
  ∃ kind c, read_chunk (unit_limit kind words bits) gap kind c ∧ flush_read c = [p].
Proof.
  intros (entries & groups & _ & -> & _ & Hall)%mc_plan_read_batch_chunks Hp.
  apply list_elem_of_bind in Hp as ([kind es] & Hp & Hg). apply list_elem_of_bind in Hp as (c & Hp & Hc).
  rewrite Forall_forall in Hall. specialize (Hall _ Hg _ Hc). cbn [fst] in Hall. exists kind, c. split; [done|].
  destruct c as [|e c]; [by apply not_elem_of_nil in Hp|]. by apply list_elem_of_singleton in Hp as ->.
Qed.

Lemma mc_plan_read_bounds items words bits gap plans p :
  plan_read_batch items words bits gap = Ok plans → p ∈ plans → 1 ≤ words ≤ 960 → 1 ≤ bits ≤ 720 →
  0 ≤ rp_start_number p ≤ MAX_NUMBER ∧
  1 ≤ rp_points p ≤ Z.max (unit_limit (rp_kind p) words bits) 4 ∧
  (length (rp_items p) ≤ MAX_ITEMS_PER_PLAN)%nat.
Proof.
  intros H Hp Hw Hb. destruct (mc_plan_read_chunk _ _ _ _ _ _ H Hp) as (kind & c & Hc & Hfl).
  destruct c as [|first c]; [done|]. destruct (read_chunk_points _ _ _ _ _ Hc) as [Hpts Hlen].
  pose proof (Forall_inv (rc_wf _ _ _ _ Hc)) as [Hst _]. pose proof (Forall_inv (rc_kind _ _ _ _ Hc)) as Hk.
  injection Hfl as <-. cbn [rp_start_number rp_points rp_kind rp_items].
  cbn [length fmap list_fmap] in *. rewrite ?length_fmap, Hk.
  assert (unit_limit kind words bits ≤ 960) by (unfold unit_limit; case_if; lia).
  rewrite wrap_small by (unfold in_u; lia). done.
Qed.

(** No MC access is too large.  Every plan starts at a number the wire can
    carry, asks for at most the configured number of points (or the words of a
    single item), and holds at most 960 items. *)
Theorem mc_read_plans_fit items words bits gap plans p :
  plan_read_batch items words bits gap = Ok plans → p ∈ plans → 1 ≤ words ≤ 960 → 1 ≤ bits ≤ 720 →
  0 ≤ rp_start_number p ≤ MAX_NUMBER ∧
  1 ≤ rp_points p ≤ Z.max (unit_limit (rp_kind p) words bits) 4 ∧
  (length (rp_items p) ≤ MAX_ITEMS_PER_PLAN)%nat.
Proof. apply mc_plan_read_bounds. Qed.
