(* ===== verification/McDriver.v ===== *)
(** * The MC session: drivers/mitsubishi-mc/src/session.rs

    Connection on demand and the exchange of one frame for one frame, over the
    interfaces of DriverAbi.  The option [TCP_NODELAY] has no effect in the
    model. *)

From S2P Require Import Prelude RustStd ObservationModel DriverAbi McCodec AbiTag.
From S2P Require Import McBatch.
From stdpp Require Import options.

#[local] Set Default Proof Using "Type".

Record TcpSession (H : Type) : Type := mkTcpSession {
  ts_host : str;
  ts_port : Z;
  ts_timeout : Z;
  ts_routing : Routing;
  ts_monitoring_timer : Z;
  ts_stream : option H;
}.
Arguments mkTcpSession {H}.
Arguments ts_host {H}.
Arguments ts_port {H}.
Arguments ts_timeout {H}.
Arguments ts_routing {H}.
Arguments ts_monitoring_timer {H}.
Arguments ts_stream {H}.

Definition map_io_error (e : IoKind.t) : McError.t :=
  match e with
  | IoKind.TimedOut | IoKind.WouldBlock => McError.timeout
  | IoKind.Other => McError.connection_lost
  end.

Definition config_routing (config : McConfig) : Routing :=
  {| rt_network_no := mc_network_no config; rt_pc_no := mc_pc_no config;
     rt_module_io := mc_module_io config; rt_module_station := mc_module_station config |}.

Section session.
Context {W H Addr : Type} `{!ByteStream W H} `{!TcpNet W H Addr}.
Abbreviation M := (stm (TcpSession H * W) McError.t).

Definition session_new (config : McConfig) : TcpSession H :=
  {| ts_host := mc_host config; ts_port := mc_port config; ts_timeout := mc_timeout_ms config;
     ts_routing := config_routing config; ts_monitoring_timer := mc_monitoring_timer config;
     ts_stream := None |}.

Definition is_connected (t : TcpSession H) : bool :=
  match ts_stream t with Some _ => true | None => false end.

Definition set_stream (o : option H) (t : TcpSession H) : TcpSession H :=
  {| ts_host := ts_host t; ts_port := ts_port t; ts_timeout := ts_timeout t; ts_routing := ts_routing t;
     ts_monitoring_timer := ts_monitoring_timer t; ts_stream := o |}.

(** Overwriting the stream drops it, which closes it. *)
Definition session_disconnect (s : TcpSession H * W) : TcpSession H * W :=
  (set_stream None s.1, match ts_stream s.1 with Some h => close h s.2 | None => s.2 end).

(** The stream, an operation on it, and the loss of the session when it fails. *)
Definition on_stream {A} (op : H → W → W * io_result A) : M A := λ s,
  match ts_stream s.1 with
  | None => (s, Err McError.connection_lost)
  | Some h =>
      match op h s.2 with
      | (w, inr a) => ((s.1, w), Ok a)
      | (w, inl e) => (session_disconnect (s.1, w), Err (map_io_error e))
      end
  end.

Definition fail_disconnect {A} (e : McError.t) : M A := λ s, (session_disconnect s, Err e).

(** The first address that accepts; the results of the options are ignored. *)
Fixpoint connect_targets (timeout : Z) (targets : list Addr) (w : W) : W * option H :=
  match targets with
  | [] => (w, None)
  | target :: targets' =>
      match connect_timeout target timeout w with
      | (w, inr stream) =>
          let '(w, _) := set_read_timeout stream timeout w in
          let '(w, _) := set_write_timeout stream timeout w in
          (w, Some stream)
      | (w, inl _) => connect_targets timeout targets' w
      end
  end.

Definition tcp_connect : M H := λ '(t, w),
  match to_socket_addrs (ts_host t) (ts_port t) w with
  | (w, inl _) => ((t, w), Err McError.connection_failed)
  | (w, inr targets) =>
      let '(w, o) := connect_targets (ts_timeout t) targets w in
      ((t, w), ok_or o McError.connection_failed)
  end.

(** [attempts] connections, whatever the configuration says about them. *)
Definition attempts : nat := 3.

Fixpoint connect_attempts (remaining : nat) (last : option McError.t) : M () :=
  match remaining with
  | O => slift (match last with Some e => Err e | None => Panic end)
  | S remaining' => λ s,
      match tcp_connect s with
      | ((t, w), Ok stream) => ((set_stream (Some stream) t, w), Ok ())
      | (s', Err e) => connect_attempts remaining' (Some e) s'
      | (s', Panic) => (s', Panic)
      end
  end.

Definition session_ensure_connected : M () := λ s,
  if is_connected s.1 then (s, Ok ()) else connect_attempts attempts None s.

Definition send_frame (frame : list Z) : M () := on_stream (λ h, write_all h frame).

Definition read_frame : M (list Z) :=
  let! head := on_stream (λ h, read_exact h RESPONSE_HEAD_LEN) in
  let declared := from_le_bytes [head !!! 7%nat; head !!! 8%nat] in
  let! body := on_stream (λ h, read_exact h (Z.to_nat declared)) in
  sret (head ++ body).

(** The command area of a request; indexing a request that is shorter than it
    declares panics. *)
Definition command_area (request : list Z) : outcome McError.t (list Z) :=
  if (length request <? REQUEST_HEAD_LEN)%nat then Panic
  else
    let data_len := Z.to_nat (from_le_bytes [request !!! 7%nat; request !!! 8%nat]) in
    if (length request <? REQUEST_HEAD_LEN + data_len)%nat then Panic
    else Ok (slice REQUEST_HEAD_LEN (REQUEST_HEAD_LEN + data_len) request).

Definition transact (request : list Z) : M (list Z) :=
  let! _ := session_ensure_connected in
  let! area := slift (command_area request) in
  if (length area <? 12)%nat then fail_disconnect McError.invalid_response
  else
    let command := from_le_bytes [area !!! 2%nat; area !!! 3%nat] in
    let points := from_le_bytes [area !!! 10%nat; area !!! 11%nat] in
    let expected_resp_len := expected_resp_body_len command points in
    let! _ := send_frame request in
    let! frame := read_frame in
    let! (t, _) := sget in
    let! (head, _) := slift (parse_response_head frame (ts_routing t)) in
    let is_error_reply := negb (rh_end_code head =? 0) && (rh_declared_len head =? 2) in
    if negb (rh_declared_len head =? expected_resp_len) && negb is_error_reply
    then fail_disconnect McError.invalid_response
    else sret frame.
End session.

(** ** What a session promises *)
Section laws.
Context {W H Addr : Type} `{!ByteStream W H} `{!TcpNet W H Addr} `{!ByteStreamLaws W H}.
Abbreviation M := (stm (TcpSession H * W) McError.t).
Abbreviation transport := (λ e, McError.is_transport_level e = true).

Lemma mc_on_stream_safe {A} (op : H → W → W * io_result A) s : safe transport (on_stream op) s.
Proof.
  unfold safe, on_stream. destruct (ts_stream s.1) as [h|]; [|done].
  destruct (op h s.2) as [w [[]|a]]; done.
Qed.

Lemma mc_tcp_connect_safe s : safe transport tcp_connect s.
Proof.
  destruct s as [t w]. unfold safe, tcp_connect. destruct (to_socket_addrs _ _ w) as [w' [e|targets]]; [done|].
  destruct (connect_targets _ _ w') as [w2 [h|]]; done.
Qed.

Lemma connect_attempts_safe n last s :
  (n = 0%nat → ∃ e, last = Some e ∧ transport e) → safe transport (connect_attempts n last) s.
Proof.
  revert last s. induction n as [|n IH]; intros last s Hn; cbn.
  { destruct (Hn eq_refl) as (e & -> & He). exact He. }
  pose proof (mc_tcp_connect_safe s) as Hc. unfold safe in *.
  destruct (tcp_connect s) as [[t w] [stream|e|]]; [done| |done]. apply IH. intros _. by exists e.
Qed.

Lemma session_ensure_connected_safe s : safe transport session_ensure_connected s.
Proof.
  unfold safe, session_ensure_connected. case_if; [done|].
  apply (connect_attempts_safe attempts None s). done.
Qed.

(** A request whose declared length is that of its command area. *)
Definition request_ok (request : list Z) : Prop := ∃ area, command_area request = Ok area.

Lemma transact_safe request s : request_ok request → safe transport (transact request) s.
Proof.
  intros [area Ha]. apply safe_bind; [apply session_ensure_connected_safe|]. intros s1 [] _.
  apply safe_bind; [by unfold safe, slift; rewrite Ha|]. intros s2 area' _. case_if; [done|].
  apply safe_bind; [apply mc_on_stream_safe|]. intros s3 [] _.
  apply safe_bind.
  { apply safe_bind; [apply mc_on_stream_safe|]. intros s4 head _.
    apply safe_bind; [apply mc_on_stream_safe|done]. }
  intros s4 frame _. apply safe_bind; [done|]. intros s5 [t w] _.
  apply safe_bind.
  - unfold safe, slift. pose proof (parse_response_head_safe frame (ts_routing t)) as Hp. cbn.
    destruct (parse_response_head frame (ts_routing t)) as [[]|e|]; done.
  - intros s6 [head body] _. cbn zeta. by case_if.
Qed.

(** Refuting the discipline of the session: a response with a foreign subheader
    or routing area fails the transaction but leaves the session connected. *)
Lemma transact_desync request s s1 s2 s3 area frame e :
  session_ensure_connected s = (s1, Ok ()) → command_area request = Ok area → (12 ≤ length area)%nat →
  send_frame request s1 = (s2, Ok ()) → read_frame s2 = (s3, Ok frame) →
  parse_response_head frame (ts_routing s3.1) = Err e →
  transact request s = (s3, Err e).
Proof.
  intros H1 H2 H3 H4 H5 H6. unfold transact. rewrite (sbind_Ok _ _ _ _ _ H1).
  unfold slift at 1. unfold sbind at 1. rewrite H2. replace (length area <? 12)%nat with false by lia.
  rewrite (sbind_Ok _ _ _ _ _ H4), (sbind_Ok _ _ _ _ _ H5). unfold sget, sbind at 1. destruct s3 as [t w].
  cbn [fst] in H6. unfold slift, sbind. by rewrite H6.
Qed.
End laws.

(** * The MC driver: drivers/mitsubishi-mc/src/lib.rs

    The driver handle, the execution of read and write plans and the assembly
    of their results; the entry points are those of DriverAbi. *)

Record PlanResponse : Type := mkPlanResponse {
  pr_end_code : Z;
  pr_data : list Z;
}.

Record MitsubishiMcDriver (H : Type) : Type := mkMitsubishiMcDriver {
  md_config : McConfig;
  md_session : option (TcpSession H);
  md_last_error : option DriverErrorInfo;
}.
Arguments mkMitsubishiMcDriver {H}.
Arguments md_config {H}.
Arguments md_session {H}.
Arguments md_last_error {H}.

(** ** Item results *)
Definition read_error_result (item_id : Z) (error : McError.t) (now : Z) : RawReadResult :=
  {| rr_item_id := item_id; rr_value := None; rr_source_timestamp_ns := None;
     rr_received_timestamp_ns := now; rr_protocol_quality_code := McError.protocol_code error;
     rr_error := Some (McError.into_info error) |}.

Definition read_ok_result (item_id : Z) (value : RawValue.t) (now : Z) : RawReadResult :=
  {| rr_item_id := item_id; rr_value := Some value; rr_source_timestamp_ns := None;
     rr_received_timestamp_ns := now; rr_protocol_quality_code := Some 0; rr_error := None |}.

Definition write_error_result (item_id : Z) (error : McError.t) : RawWriteResult :=
  {| wr_item_id := item_id; wr_success := false; wr_protocol_code := McError.protocol_code error;
     wr_error := Some (McError.into_info error) |}.

Definition write_ok_result (item_id : Z) : RawWriteResult :=
  {| wr_item_id := item_id; wr_success := true; wr_protocol_code := Some 0; wr_error := None |}.

(** The value of an item in the data area of its plan. *)
Definition item_value (planned : PlannedItem) (is_bit : bool) (data : list Z) : outcome McError.t RawValue.t :=
  if is_bit then
    match data !! Z.to_nat (pi_offset_in_points planned / 8) with
    | None => Err McError.invalid_response
    | Some byte => decode_read DeviceKind.M (pi_expected planned) [byte]
    end
  else
    let width := Z.of_nat (layout_points (pi_expected planned)) in
    match get_slice (pi_offset_in_points planned * 2) (width * 2) data with
    | None => Err McError.invalid_response
    | Some slice => decode_read DeviceKind.D (pi_expected planned) slice
    end.

Definition assemble_read (planned : PlannedItem) (is_bit : bool) (data : list Z) (now : Z) :
    outcome McError.t RawReadResult :=
  match item_value planned is_bit data with
  | Ok value => Ok (read_ok_result (pi_item_id planned) value now)
  | Err e => Ok (read_error_result (pi_item_id planned) e now)
  | Panic => Panic
  end.

Section driver.
Context {W H Addr : Type} `{!Os W} `{!ByteStream W H} `{!TcpNet W H Addr}.
Abbreviation M := (stm (MitsubishiMcDriver H * W) McError.t).

Definition create (from_str : str → option McConfig) (config_json : str) :
    outcome McError.t (MitsubishiMcDriver H) :=
  let? config := parse_config from_str config_json in
  Ok {| md_config := config; md_session := Some (session_new config); md_last_error := None |}.

Definition set_session (t : TcpSession H) (d : MitsubishiMcDriver H) : MitsubishiMcDriver H :=
  {| md_config := md_config d; md_session := Some t; md_last_error := md_last_error d |}.

(** [self.session.as_mut().expect(..)] followed by a method call. *)
Definition with_session {A} (m : stm (TcpSession H * W) McError.t A) : M A := λ '(d, w),
  match md_session d with
  | None => ((d, w), Panic)
  | Some t => let '((t', w'), r) := m (t, w) in ((set_session t' d, w'), r)
  end.

Definition ensure_connected : M () := with_session session_ensure_connected.

Definition disconnect (s : MitsubishiMcDriver H * W) : MitsubishiMcDriver H * W :=
  match md_session s.1 with
  | None => s
  | Some t => let '(t', w') := session_disconnect (t, s.2) in (set_session t' s.1, w')
  end.

(** The response of a frame already checked by the transaction, parsed again. *)
Definition plan_response (request : TcpSession H → list Z) : stm (TcpSession H * W) McError.t PlanResponse :=
  let! (t, _) := sget in
  let! frame := transact (request t) in
  let! (t', _) := sget in
  let! (head, body) := slift (parse_response_head frame (ts_routing t')) in
  sret {| pr_end_code := rh_end_code head; pr_data := drop 2 body |}.

Definition execute_read_plan (plan : ReadPlan) : M PlanResponse :=
  with_session (plan_response (λ t,
    build_read_request (rp_kind plan) (rp_start_number plan) (rp_points plan)
      (ts_monitoring_timer t) (ts_routing t))).

Definition tick : M Z := λ '(d, w), let '(w', now) := now_ns w in ((d, w'), Ok now).

(** [read_error_result] for every item of a refused plan. *)
Fixpoint refuse_items (e : McError.t) (items : list (PlannedItem * Z)) : M (list RawReadResult) :=
  match items with
  | [] => sret []
  | (planned, _) :: items' =>
      let! now := tick in
      let! rs := refuse_items e items' in
      sret (read_error_result (pi_item_id planned) e now :: rs)
  end.

Fixpoint assemble_items (is_bit : bool) (data : list Z) (items : list (PlannedItem * Z)) :
    M (list RawReadResult) :=
  match items with
  | [] => sret []
  | (planned, _) :: items' =>
      let! now := tick in
      let! r := slift (assemble_read planned is_bit data now) in
      let! rs := assemble_items is_bit data items' in
      sret (r :: rs)
  end.

Fixpoint read_plans (plans : list ReadPlan) (results : list RawReadResult) : M (list RawReadResult) :=
  match plans with
  | [] => sret results
  | plan :: plans' =>
      let! response := execute_read_plan plan in
      let! rs :=
        if negb (pr_end_code response =? 0)
        then refuse_items (McError.mc_error_response (pr_end_code response)) (rp_items plan)
        else assemble_items (DeviceKind.is_bit (rp_kind plan)) (pr_data response) (rp_items plan) in
      read_plans plans' (results ++ rs)
  end.

Definition read_batch (items : list DriverReadItem) : M (list RawReadResult) :=
  let! _ := ensure_connected in
  let! (d, _) := sget in
  let config := md_config d in
  let! plans := slift (plan_read_batch items (mc_max_word_points_per_access config)
                         (mc_max_bit_points_per_access config) (mc_max_merge_gap_points config)) in
  let! results := read_plans plans [] in
  sret (sort_by_key rr_item_id results).

Definition execute_write_plan (plan : WritePlan) : M PlanResponse :=
  with_session (plan_response (λ t,
    build_write_request (wp_kind plan) (wp_start_number plan) (wp_points plan) (wp_data plan)
      (ts_monitoring_timer t) (ts_routing t))).

Fixpoint write_plans (plans : list WritePlan) (results : list RawWriteResult) : M (list RawWriteResult) :=
  match plans with
  | [] => sret results
  | plan :: plans' =>
      let! response := execute_write_plan plan in
      write_plans plans'
        (results ++
           if negb (pr_end_code response =? 0)
           then (λ id, write_error_result id (McError.mc_error_response (pr_end_code response)))
                  <$> wp_item_ids plan
           else write_ok_result <$> wp_item_ids plan)
  end.

Definition write_batch (items : list WriteRequest) : M (list RawWriteResult) :=
  let! _ := ensure_connected in
  let! (d, _) := sget in
  let config := md_config d in
  let! (plans, failed) := slift (plan_write_batch items (mc_max_word_points_per_access config)
                                   (mc_max_bit_points_per_access config)) in
  let! results := write_plans plans ((λ '(id, e), write_error_result id e) <$> failed) in
  sret (sort_by_key wr_item_id results).

Definition validate_address (addr : str) : M AddressMetadata :=
  let! parsed := slift (map_err (λ _, McError.invalid_address) (parse addr)) in
  sret {| am_canonical_address := canonical parsed; am_raw_type := None; am_readable := true;
          am_writable := DeviceKind.writable (da_kind parsed) |}.

(** ** The entry points *)
Definition CAPABILITIES : ProtocolCapabilities :=
  {| cap_read := true; cap_write := true; cap_batch_read := true; cap_batch_write := true;
     cap_browse := false; cap_polling := true; cap_subscription := false; cap_events := false;
     cap_history := false |}.

Definition set_last_error (e : McError.t) (d : MitsubishiMcDriver H) : MitsubishiMcDriver H :=
  {| md_config := md_config d; md_session := md_session d;
     md_last_error := Some (McError.into_info e) |}.

Definition mc_plugin (from_str : str → option McConfig) :
    Plugin (MitsubishiMcDriver H) W McError.t WriteRequest := {|
  pl_create := create from_str;
  pl_broken := {| md_config := config_default; md_session := None; md_last_error := None |};
  pl_set_last_error := set_last_error;
  pl_last_error := md_last_error;
  pl_connect := ensure_connected;
  pl_disconnect := disconnect;
  pl_read_batch := read_batch;
  pl_request id address value := {| wq_id := id; wq_address := address; wq_value := value |};
  pl_write_batch := write_batch;
  pl_validate_address := validate_address;
  pl_capabilities := CAPABILITIES;
  pl_config_error := McError.config_error;
  pl_invalid_address := McError.invalid_address;
  pl_invalid_type := McError.invalid_type;
  pl_unsupported := McError.unsupported;
  pl_driver_panic := McError.driver_panic;
|}.

Lemma mc_plugin_laws from_str : PluginLaws (Plugin0 := mc_plugin from_str) _ _ _ _.
Proof. split. by eexists. Qed.

Context (from_str : str → option McConfig) `{!Envelopes}.

Definition mc_api_create := api_create (Plugin0 := mc_plugin from_str).
Definition mc_api_destroy := api_destroy (Plugin0 := mc_plugin from_str).
Definition mc_api_connect := api_connect (Plugin0 := mc_plugin from_str).
Definition mc_api_disconnect := api_disconnect (Plugin0 := mc_plugin from_str).
Definition mc_api_get_capabilities_json := api_get_capabilities_json (Plugin0 := mc_plugin from_str).
Definition mc_api_validate_address := api_validate_address (Plugin0 := mc_plugin from_str).
Definition mc_api_read := api_read (Plugin0 := mc_plugin from_str).
Definition mc_api_write := api_write (Plugin0 := mc_plugin from_str).
Definition mc_api_unsupported := api_unsupported (Plugin0 := mc_plugin from_str).
Definition mc_api_get_last_error_json := api_get_last_error_json (Plugin0 := mc_plugin from_str).
End driver.
