(* ===== verification/McLoopback.v ===== *)
(** * The simulated MC controller: crates/mc-mock/src/lib.rs

    The device memory, the answers to batch reads and writes, the injected
    faults and the handling of one frame.  Delays, the listener and the locks
    are not modelled. *)

From S2P Require Import Prelude RustStd McCodec ObservationModel DriverAbi McBatch McDriver.
From stdpp Require Import options.

(** [HashMap<(u8, u32), Cell>]: device code and number to a word; a missing
    cell reads 0. *)
Abbreviation cells := (gmap (Z * Z) Z).

Record ReadRecord : Type := mkReadRecord { rrec_code : Z; rrec_number : Z; rrec_points : Z }.

Record WriteRecord : Type := mkWriteRecord {
  wrec_code : Z; wrec_number : Z; wrec_points : Z; wrec_data : list Z;
}.

Record McBehavior : Type := mkMcBehavior {
  mb_cells : cells;
  mb_drop_connection : bool;
  mb_timeout_rate : option (Z * Z);
  mb_wrong_subheader : bool;
  mb_wrong_routing_echo : bool;
  mb_declare_wrong_data_length : bool;
  mb_force_end_code : option Z;
  mb_deny_writes_at : gset (Z * Z);
  mb_deny_end_code : Z;
  mb_request_count : Z;
  mb_captured_reads : list ReadRecord;
  mb_captured_writes : list WriteRecord;
}.

Definition behavior_new : McBehavior :=
  {| mb_cells := ∅; mb_drop_connection := false; mb_timeout_rate := None; mb_wrong_subheader := false;
     mb_wrong_routing_echo := false; mb_declare_wrong_data_length := false; mb_force_end_code := None;
     mb_deny_writes_at := ∅; mb_deny_end_code := 0xC051; mb_request_count := 0;
     mb_captured_reads := []; mb_captured_writes := [] |}.

(** The memory, the counter and the captured requests change; the rest is
    configuration. *)
Definition update (v : cells) (count : Z) (reads : list ReadRecord) (writes : list WriteRecord)
    (b : McBehavior) : McBehavior :=
  {| mb_cells := v; mb_drop_connection := mb_drop_connection b; mb_timeout_rate := mb_timeout_rate b;
     mb_wrong_subheader := mb_wrong_subheader b; mb_wrong_routing_echo := mb_wrong_routing_echo b;
     mb_declare_wrong_data_length := mb_declare_wrong_data_length b;
     mb_force_end_code := mb_force_end_code b; mb_deny_writes_at := mb_deny_writes_at b;
     mb_deny_end_code := mb_deny_end_code b; mb_request_count := count; mb_captured_reads := reads;
     mb_captured_writes := writes |}.

Definition with_d (number value : Z) (b : McBehavior) : McBehavior :=
  update (<[(0xA8, number) := value]> (mb_cells b)) (mb_request_count b) (mb_captured_reads b)
    (mb_captured_writes b) b.

Definition with_m (number : Z) (on : bool) (b : McBehavior) : McBehavior :=
  update (<[(0x90, number) := Z.b2z on]> (mb_cells b)) (mb_request_count b) (mb_captured_reads b)
    (mb_captured_writes b) b.

Definition cell (v : cells) (code number : Z) : Z := default 0 (v !! (code, number)).

(** [XorShift32::next] on [u32] *)
Definition xorshift_next (x : Z) : Z :=
  let x := Z.lxor x (wrap32 (Z.shiftl x 13)) in
  let x := Z.lxor x (Z.shiftr x 17) in
  Z.lxor x (wrap32 (Z.shiftl x 5)).

(** ** Memory *)
Definition read_words (v : cells) (code number points : Z) : list Z :=
  seq 0 (Z.to_nat points) ≫= λ i, to_le_bytes 2 (cell v code (Z.of_nat i + number)).

(** One byte of the bit string: the loop over its bits stops at the total. *)
Definition bit_byte (v : cells) (code number total byte : Z) : Z :=
  foldl (λ b bit,
    let idx := byte * 8 + bit in
    if total <=? idx then b
    else if negb (Z.land (cell v code (number + idx)) 1 =? 0) then Z.lor b (Z.shiftl 1 bit) else b)
    0 (seqZ 0 8).

Definition read_bits (v : cells) (code number points : Z) : list Z :=
  bit_byte v code number points <$> seqZ 0 (div_ceil points 8).

(** Stores word by word; a payload that ends early ends the connection. *)
Fixpoint write_words (n : nat) (code number : Z) (payload : list Z) (v : cells) : cells * bool :=
  match n with
  | O => (v, true)
  | S n' =>
      match payload with
      | lo :: hi :: rest =>
          write_words n' code (number + 1) rest (<[(code, number) := from_le_bytes [lo; hi]]> v)
      | _ => (v, false)
      end
  end.

(** Bit [idx % 8] of byte [idx / 8], in that order, up to the number of points. *)
Definition write_bits (total : nat) (code number : Z) (payload : list Z) (v : cells) : cells :=
  foldl (λ v idx,
    <[(code, number + Z.of_nat idx) :=
        Z.b2z (negb (Z.land (payload !!! (idx / 8)%nat) (Z.shiftl 1 (Z.of_nat (idx mod 8))) =? 0))]> v)
    v (seq 0 (Nat.min total (8 * length payload))).

(** ** Commands *)
Definition handle_command (b : McBehavior) (body : list Z) : McBehavior * option (list Z) :=
  if (length body <? 12)%nat then (b, None)
  else
    let command := from_le_bytes [body !!! 2%nat; body !!! 3%nat] in
    let code := body !!! 6%nat in
    let number := from_le_bytes [body !!! 7%nat; body !!! 8%nat; body !!! 9%nat; 0] in
    let points := from_le_bytes [body !!! 10%nat; body !!! 11%nat] in
    match mb_force_end_code b with
    | Some forced => (b, Some (to_le_bytes 2 forced))
    | None =>
        if (command =? CMD_READ_WORD) || (command =? CMD_READ_BIT) then
          (update (mb_cells b) (mb_request_count b)
             (mb_captured_reads b ++ [{| rrec_code := code; rrec_number := number; rrec_points := points |}])
             (mb_captured_writes b) b,
           Some (to_le_bytes 2 0 ++
             if command =? CMD_READ_WORD then read_words (mb_cells b) code number points
             else read_bits (mb_cells b) code number points))
        else if (command =? CMD_WRITE_WORD) || (command =? CMD_WRITE_BIT) then
          let payload := drop 12 body in
          let writes := mb_captured_writes b ++
            [{| wrec_code := code; wrec_number := number; wrec_points := points; wrec_data := payload |}] in
          let store v := update v (mb_request_count b) (mb_captured_reads b) writes b in
          if bool_decide ((code, number) ∈ mb_deny_writes_at b)
          then (store (mb_cells b), Some (to_le_bytes 2 (mb_deny_end_code b)))
          else if command =? CMD_WRITE_WORD then
            match write_words (Z.to_nat points) code number payload (mb_cells b) with
            | (v, true) => (store v, Some [0x00; 0x00])
            | (v, false) => (store v, None)
            end
          else (store (write_bits (Z.to_nat points) code number payload (mb_cells b)), Some [0x00; 0x00])
        else (b, None)
    end.

(** The response frame: [wrong_data_length] declares and sends two bytes more. *)
Definition send_response (routing reply_body : list Z) (wrong_subheader wrong_routing_echo wrong_data_length : bool) :
    list Z :=
  to_le_bytes 2 (if wrong_subheader then SUBHEADER_REQUEST else SUBHEADER_RESPONSE)
    ++ ((λ b, if wrong_routing_echo then wrap8 (b + 1) else b) <$> routing)
    ++ to_le_bytes 2 (Z.of_nat (length reply_body) + if wrong_data_length then 2 else 0)
    ++ reply_body ++ if wrong_data_length then [0; 0] else [].

(** ** A connection *)
Record MockConn : Type := mkMockConn {
  mk_behavior : McBehavior;
  mk_rng : Z;
}.

(** A new connection: [0x9E37_79B9 | 1]. *)
Definition conn_new (b : McBehavior) : MockConn :=
  {| mk_behavior := b; mk_rng := Z.lor 0x9E3779B9 1 |}.

(** What the connection thread does with a frame: answer, stay silent, or end. *)
Inductive served : Type := Reply (bytes : list Z) | Silent | Ended.

Definition count_request (b : McBehavior) : McBehavior :=
  update (mb_cells b) (wrap32 (mb_request_count b + 1)) (mb_captured_reads b) (mb_captured_writes b) b.

(** One iteration of [handle_connection] on the head and body of a frame. *)
Definition serve_frame (c : MockConn) (head body : list Z) : MockConn * served :=
  let b := count_request (mk_behavior c) in
  if mb_drop_connection b then ({| mk_behavior := b; mk_rng := mk_rng c |}, Ended)
  else
    let '(rng, silent) :=
      match mb_timeout_rate b with
      | Some (num, den) =>
          if (0 <? num) && (0 <? den)
          then let roll := xorshift_next (mk_rng c) in (roll, roll mod den <? num)
          else (mk_rng c, false)
      | None => (mk_rng c, false)
      end in
    if silent then ({| mk_behavior := b; mk_rng := rng |}, Silent)
    else
      match handle_command b body with
      | (b', Some reply_body) =>
          ({| mk_behavior := b'; mk_rng := rng |},
           Reply (send_response (slice 2 7 head) reply_body (mb_wrong_subheader b')
                    (mb_wrong_routing_echo b') (mb_declare_wrong_data_length b')))
      | (b', None) => ({| mk_behavior := b'; mk_rng := rng |}, Ended)
      end.

(** The loop of [handle_connection] on the bytes received so far: whole frames
    are served, an incomplete one waits.  Every iteration consumes at least the
    head of a frame.  The flag tells whether the connection is still open. *)
Fixpoint handle_connection (fuel : nat) (c : MockConn) (inbox outbox : list Z) :
    MockConn * list Z * list Z * bool :=
  match fuel with
  | O => (c, inbox, outbox, true)
  | S fuel' =>
      if (length inbox <? 9)%nat then (c, inbox, outbox, true)
      else
        let total := (9 + Z.to_nat (from_le_bytes [inbox !!! 7%nat; inbox !!! 8%nat]))%nat in
        if (length inbox <? total)%nat then (c, inbox, outbox, true)
        else
          match serve_frame c (take 9 inbox) (slice 9 total inbox) with
          | (c', Reply bytes) => handle_connection fuel' c' (drop total inbox) (outbox ++ bytes)
          | (c', Silent) => handle_connection fuel' c' (drop total inbox) outbox
          | (c', Ended) => (c', [], outbox, false)
          end
  end.

(** * The MC driver wired to the simulated controller

    The interfaces of DriverAbi instantiated with the device of
    crates/mc-mock, and the transactions of the session against it. *)

Record Line : Type := mkLine {
  ln_conn : MockConn;
  ln_inbox : list Z;
  ln_outbox : list Z;
  ln_open : bool;
}.

Definition line_write_all (_ : ()) (bytes : list Z) (l : Line) : Line * io_result () :=
  if ln_open l then
    let inbox := ln_inbox l ++ bytes in
    let '(c, inbox', outbox', open) := handle_connection (S (length inbox)) (ln_conn l) inbox (ln_outbox l) in
    ({| ln_conn := c; ln_inbox := inbox'; ln_outbox := outbox'; ln_open := open |}, inr ())
  else (l, inl IoKind.Other).

Definition line_read_exact (_ : ()) (n : nat) (l : Line) : Line * io_result (list Z) :=
  if (n <=? length (ln_outbox l))%nat then
    ({| ln_conn := ln_conn l; ln_inbox := ln_inbox l; ln_outbox := drop n (ln_outbox l); ln_open := ln_open l |},
     inr (take n (ln_outbox l)))
  else ({| ln_conn := ln_conn l; ln_inbox := ln_inbox l; ln_outbox := []; ln_open := ln_open l |},
        inl (if ln_open l then IoKind.TimedOut else IoKind.Other)).

#[global] Instance line_stream : ByteStream Line () := {|
  write_all := line_write_all;
  read_exact := line_read_exact;
  close _ l := {| ln_conn := ln_conn l; ln_inbox := []; ln_outbox := []; ln_open := false |};
|}.

#[global] Instance line_net : TcpNet Line () () := {|
  to_socket_addrs _ _ l := (l, inr [()]);
  connect_timeout _ _ l :=
    ({| ln_conn := conn_new (mk_behavior (ln_conn l)); ln_inbox := []; ln_outbox := []; ln_open := true |},
     inr ());
  set_read_timeout _ _ l := (l, inr ());
  set_write_timeout _ _ l := (l, inr ());
|}.

#[global] Instance line_os : Os Line := {| now_ns l := (l, 0); sleep _ l := l |}.

(** ** Requests *)
Definition idle (l : Line) : Prop := ln_inbox l = [] ∧ ln_outbox l = [] ∧ ln_open l = true.

(** The command area of a request. *)
Definition area_of (timer command : Z) (kind : DeviceKind.t) (start points : Z) (data : list Z) : list Z :=
  [Z.land timer 0xFF; wrap8 (Z.shiftr timer 8)] ++ to_le_bytes 2 command ++ to_le_bytes 2 SUBCOMMAND_BINARY
    ++ [DeviceKind.code kind] ++ take 3 (to_le_bytes 4 start) ++ to_le_bytes 2 points ++ data.

Definition request (r : Routing) (area : list Z) : list Z :=
  to_le_bytes 2 SUBHEADER_REQUEST ++ routing_encode r ++ to_le_bytes 2 (Z.of_nat (length area)) ++ area.

Lemma assemble_request r timer command kind start points data :
  assemble_frame SUBHEADER_REQUEST r timer (build_command_body command kind start points data) =
    request r (area_of timer command kind start points data).
Proof. reflexivity. Qed.

Lemma length_area timer command kind start points data :
  length (area_of timer command kind start points data) = (12 + length data)%nat.
Proof. reflexivity. Qed.

Lemma request_parts r area :
  Z.of_nat (length area) < 2 ^ 16 →
  length (request r area) = (9 + length area)%nat ∧
  from_le_bytes [request r area !!! 7%nat; request r area !!! 8%nat] = Z.of_nat (length area) ∧
  drop 9 (request r area) = area ∧ slice 2 7 (request r area) = routing_encode r.
Proof.
  intros Hlen. split_and!; [done| |done|done].
  change [request r area !!! 7%nat; request r area !!! 8%nat] with (to_le_bytes 2 (Z.of_nat (length area))).
  rewrite from_to_le_bytes, Z.mod_small; [done|]. change (8 * Z.of_nat 2) with 16. lia.
Qed.

Lemma command_area_request r area :
  Z.of_nat (length area) < 2 ^ 16 → command_area (request r area) = Ok area.
Proof.
  intros Hlen. destruct (request_parts r area Hlen) as (Hl & Hd & Hdrop & _). unfold command_area.
  rewrite Hl, Hd. unfold REQUEST_HEAD_LEN. replace (9 + length area <? 9)%nat with false by lia.
  cbn zeta. replace (9 + length area <? 9 + Z.to_nat _)%nat with false by lia.
  f_equal. unfold slice. rewrite Hdrop, take_ge; [done|lia].
Qed.

Lemma from_le_bytes_zero l : from_le_bytes (l ++ [0]) = from_le_bytes l.
Proof.
  induction l as [|b l IH]; [done|].
  change (b + 256 * from_le_bytes (l ++ [0]) = b + 256 * from_le_bytes l). by rewrite IH.
Qed.

(** The fields of a command area are what the request was built from. *)
Lemma area_fields timer command kind start points data :
  in_u 16 command → 0 ≤ start ≤ MAX_NUMBER → in_u 16 points →
  let area := area_of timer command kind start points data in
  from_le_bytes [area !!! 2%nat; area !!! 3%nat] = command ∧
  area !!! 6%nat = DeviceKind.code kind ∧
  from_le_bytes [area !!! 7%nat; area !!! 8%nat; area !!! 9%nat; 0] = start ∧
  from_le_bytes [area !!! 10%nat; area !!! 11%nat] = points ∧ drop 12 area = data.
Proof.
  intros Hc Hs Hp area. unfold MAX_NUMBER in Hs.
  change [area !!! 2%nat; area !!! 3%nat] with (to_le_bytes 2 command).
  change [area !!! 7%nat; area !!! 8%nat; area !!! 9%nat; 0] with (to_le_bytes 3 start ++ [0]).
  change [area !!! 10%nat; area !!! 11%nat] with (to_le_bytes 2 points).
  rewrite from_le_bytes_zero, !from_to_le_bytes. change (8 * Z.of_nat 2) with 16. change (8 * Z.of_nat 3) with 24.
  rewrite !Z.mod_small by (unfold in_u in *; lia). done.
Qed.

(** ** Transactions with a device without injected faults *)
Record healthy (b : McBehavior) : Prop := {
  hb_drop : mb_drop_connection b = false;
  hb_rate : mb_timeout_rate b = None;
  hb_subheader : mb_wrong_subheader b = false;
  hb_echo : mb_wrong_routing_echo b = false;
  hb_length : mb_declare_wrong_data_length b = false;
  hb_force : mb_force_end_code b = None;
  hb_denied : mb_deny_writes_at b = ∅;
}.

Lemma healthy_update v n rs ws b : healthy b → healthy (update v n rs ws b).
Proof. by intros []. Qed.

Definition with_behavior (b : McBehavior) (l : Line) : Line :=
  {| ln_conn := {| mk_behavior := b; mk_rng := mk_rng (ln_conn l) |};
     ln_inbox := []; ln_outbox := []; ln_open := true |}.

Lemma serve_healthy c r area b' body :
  healthy (mk_behavior c) → healthy b' →
  handle_command (count_request (mk_behavior c)) area = (b', Some body) →
  serve_frame c (take 9 (request r area)) area =
    ({| mk_behavior := b'; mk_rng := mk_rng c |}, Reply (response r body)).
Proof.
  intros [H1 H2 _ _ _ _ _] [_ _ H3 H4 H5 _ _] Hh. unfold serve_frame.
  change (mb_drop_connection (count_request (mk_behavior c))) with (mb_drop_connection (mk_behavior c)).
  change (mb_timeout_rate (count_request (mk_behavior c))) with (mb_timeout_rate (mk_behavior c)).
  rewrite H1, H2, Hh, H3, H4, H5. cbv iota beta zeta.
  change (slice 2 7 (take 9 (request r area))) with (routing_encode r).
  unfold send_response, response. rewrite list_fmap_id, Z.add_0_r, app_nil_r. done.
Qed.

Lemma mc_line_serves l r area b' body :
  idle l → healthy (mk_behavior (ln_conn l)) → healthy b' → Z.of_nat (length area) < 2 ^ 16 →
  handle_command (count_request (mk_behavior (ln_conn l))) area = (b', Some body) →
  line_write_all () (request r area) l =
    ({| ln_conn := ln_conn (with_behavior b' l); ln_inbox := []; ln_outbox := response r body;
        ln_open := true |}, inr ()).
Proof.
  intros (Hi & Ho & Hop) Hh Hh' Hlen Hs. unfold line_write_all. rewrite Hop, Hi, Ho. cbn [app].
  destruct (request_parts r area Hlen) as (Hl & Hd & Hdrop & _).
  generalize (length (request r area)) at 1 as fuel. intros fuel. cbn [handle_connection]. rewrite Hl.
  replace (9 + length area <? 9)%nat with false by lia. rewrite Hd, Nat2Z.id.
  replace (9 + length area <? 9 + length area)%nat with false by lia.
  assert (slice 9 (9 + length area) (request r area) = area) as ->.
  { unfold slice. rewrite Hdrop. rewrite take_ge; [done|lia]. }
  rewrite (serve_healthy _ _ _ _ _ Hh Hh' Hs). rewrite drop_ge by lia. by destruct fuel.
Qed.

Lemma mc_line_reads l n bytes :
  (n ≤ length (ln_outbox l))%nat → bytes = take n (ln_outbox l) →
  line_read_exact () n l =
    ({| ln_conn := ln_conn l; ln_inbox := ln_inbox l; ln_outbox := drop n (ln_outbox l); ln_open := ln_open l |},
     inr bytes).
Proof. intros Hn ->. unfold line_read_exact. by replace (n <=? length (ln_outbox l))%nat with true by lia. Qed.

Lemma mc_read_frame_line (t : TcpSession ()) c r body :
  ts_stream t = Some () → Z.of_nat (length body) < 2 ^ 16 →
  read_frame (t, {| ln_conn := c; ln_inbox := []; ln_outbox := response r body; ln_open := true |}) =
    ((t, {| ln_conn := c; ln_inbox := []; ln_outbox := []; ln_open := true |}), Ok (response r body)).
Proof.
  intros Ht Hlen. assert (length (response r body) = (9 + length body)%nat) as Hl by done.
  assert (drop 9 (response r body) = body) as Hdrop by done.
  unfold read_frame, sbind, on_stream. cbn [fst snd]. rewrite Ht. unfold read_exact, line_stream, RESPONSE_HEAD_LEN.
  rewrite (mc_line_reads _ 9 (take 9 (response r body))) by (cbn [ln_outbox]; rewrite ?Hl; (lia || done)).
  cbn [ln_conn ln_inbox ln_outbox ln_open]. cbn [fst snd]. rewrite Ht.
  change [take 9 (response r body) !!! 7%nat; take 9 (response r body) !!! 8%nat]
    with (to_le_bytes 2 (Z.of_nat (length body))).
  rewrite from_to_le_bytes, Z.mod_small by (change (8 * Z.of_nat 2) with 16; lia). rewrite Nat2Z.id.
  rewrite (mc_line_reads _ (length body) body); cbn [ln_outbox]; rewrite ?Hdrop; [|lia|by rewrite take_ge].
  cbn [ln_conn ln_inbox ln_outbox ln_open]. rewrite drop_ge by lia. reflexivity.
Qed.

(** A request whose answer has the length the session expects is answered. *)
Lemma transact_line (t : TcpSession ()) l area b' end_code data :
  ts_stream t = Some () → routing_wf (ts_routing t) → idle l → healthy (mk_behavior (ln_conn l)) → healthy b' →
  (12 ≤ length area)%nat → Z.of_nat (length area) < 2 ^ 16 → in_u 16 end_code →
  Z.of_nat (length data) + 2 < 2 ^ 16 →
  handle_command (count_request (mk_behavior (ln_conn l))) area = (b', Some (to_le_bytes 2 end_code ++ data)) →
  expected_resp_body_len (from_le_bytes [area !!! 2%nat; area !!! 3%nat])
    (from_le_bytes [area !!! 10%nat; area !!! 11%nat]) = Z.of_nat (length data) + 2 →
  transact (request (ts_routing t) area) (t, l) =
    ((t, with_behavior b' l), Ok (response (ts_routing t) (to_le_bytes 2 end_code ++ data))).
Proof.
  intros Ht Hr Hi Hh Hh' Ha Hlen He Hd Hs Hexp. unfold transact.
  assert (session_ensure_connected (t, l) = ((t, l), Ok ())) as Hc.
  { unfold session_ensure_connected, is_connected. cbn [fst]. by rewrite Ht. }
  rewrite (sbind_Ok _ _ _ _ _ Hc). unfold slift at 1. unfold sbind at 1. rewrite command_area_request by done.
  replace (length area <? 12)%nat with false by lia. cbn zeta. rewrite Hexp.
  assert (send_frame (request (ts_routing t) area) (t, l) =
    ((t, {| ln_conn := ln_conn (with_behavior b' l); ln_inbox := [];
            ln_outbox := response (ts_routing t) (to_le_bytes 2 end_code ++ data); ln_open := true |}), Ok ())) as Hsend.
  { unfold send_frame, on_stream. cbn [fst snd]. rewrite Ht. unfold write_all, line_stream.
    by rewrite (mc_line_serves _ _ _ _ _ Hi Hh Hh' Hlen Hs). }
  rewrite (sbind_Ok _ _ _ _ _ Hsend).
  assert (Z.of_nat (length (to_le_bytes 2 end_code ++ data)) < 2 ^ 16) as Hbody
    by (rewrite length_app, length_to_le_bytes; lia).
  rewrite (sbind_Ok _ _ _ _ _ (mc_read_frame_line t _ _ _ Ht Hbody)).
  unfold sget at 1. unfold sbind at 1. unfold slift. unfold sbind. rewrite parse_response by done.
  cbn [rh_declared_len]. rewrite Z.eqb_refl. done.
Qed.
