(* ===== verification/McEndToEnd.v ===== *)
(** * The MC driver against the simulated controller

    What a batch read learns of the memory of the controller. *)

From S2P Require Import Prelude RustStd ObservationModel DriverAbi BatchRuns McCodec.
From S2P Require Import McBatch McDriver McLoopback.
From stdpp Require Import options.

(** ** Memory *)
Definition cells_at (v : cells) (code start : Z) (n : nat) : list Z :=
  (λ i, cell v code (start + Z.of_nat i)) <$> seq 0 n.

Definition words_bytes (l : list Z) : list Z := l ≫= to_le_bytes 2.

Lemma read_words_cells v code number points :
  read_words v code number points = words_bytes (cells_at v code number (Z.to_nat points)).
Proof.
  unfold read_words, words_bytes, cells_at. induction (seq 0 (Z.to_nat points)) as [|i l IH]; [done|].
  rewrite fmap_cons, !bind_cons, IH. do 3 f_equal. lia.
Qed.

Lemma length_cells_at v code start n : length (cells_at v code start n) = n.
Proof. unfold cells_at. by rewrite length_fmap, length_seq. Qed.

Lemma cells_at_app v code start n m :
  cells_at v code start (n + m) = cells_at v code start n ++ cells_at v code (start + Z.of_nat n) m.
Proof.
  unfold cells_at. rewrite seq_app, fmap_app. f_equal. cbn.
  rewrite <- (Nat.add_0_r n) at 1. rewrite <- fmap_add_seq, <- list_fmap_compose.
  apply list_fmap_ext. intros _ i _. cbn. f_equal. lia.
Qed.

Lemma length_words_bytes l : length (words_bytes l) = (length l * 2)%nat.
Proof.
  unfold words_bytes. induction l as [|x l IH]; [done|].
  rewrite bind_cons, length_app, length_to_le_bytes, IH. cbn [length]. lia.
Qed.

Lemma words_bytes_app l k : words_bytes (l ++ k) = words_bytes l ++ words_bytes k.
Proof. apply bind_app. Qed.

(** The words of an item within the range of its plan. *)
Lemma get_slice_words v code start n off w :
  0 ≤ off → (Z.to_nat off + w ≤ n)%nat →
  get_slice (off * 2) (Z.of_nat w * 2) (words_bytes (cells_at v code start n)) =
    Some (words_bytes (cells_at v code (start + off) w)).
Proof.
  intros Ho Hn. unfold get_slice. rewrite length_words_bytes, length_cells_at.
  replace (Z.of_nat (n * 2) <? off * 2 + Z.of_nat w * 2) with false by lia. f_equal.
  replace n with (Z.to_nat off + (w + (n - Z.to_nat off - w)))%nat by lia.
  rewrite !cells_at_app, !words_bytes_app. unfold slice.
  rewrite drop_app_exact by (rewrite length_words_bytes, length_cells_at; lia).
  replace (start + Z.of_nat (Z.to_nat off)) with (start + off) by lia.
  apply take_app_exact. rewrite length_words_bytes, length_cells_at. lia.
Qed.

(** ** Bit strings: the first bit of a byte *)
Definition low_bit (x : Z) : bool := negb (Z.land x 1 =? 0).

Lemma low_bit_testbit x : low_bit x = Z.testbit x 0.
Proof.
  unfold low_bit. change 1 with (Z.ones 1). rewrite Z.land_ones, Z.bit0_odd by lia. change (2 ^ 1) with 2.
  rewrite Zmod_odd. by destruct (Z.odd x).
Qed.

Lemma bit_byte_low v code number total byte :
  byte * 8 < total → low_bit (bit_byte v code number total byte) = low_bit (cell v code (number + byte * 8)).
Proof.
  intros Hb. unfold bit_byte. change (seqZ 0 8) with ([0] ++ seqZ 1 7). rewrite foldl_app. cbn [foldl].
  rewrite Z.add_0_r. replace (total <=? byte * 8) with false by lia. fold (low_bit (cell v code (number + byte * 8))).
  set (b0 := if low_bit _ then _ else 0).
  assert (low_bit b0 = low_bit (cell v code (number + byte * 8))) as <-.
  { unfold b0. destruct (low_bit (cell v code (number + byte * 8))); done. }
  assert (Forall (λ k, 1 ≤ k) (seqZ 1 7)) as Hk by (by repeat constructor).
  generalize b0. induction Hk as [|k l Hk _ IH]; intros b; cbn [foldl]; [done|]. rewrite IH, !low_bit_testbit.
  case_if; [done|]. case_if; [|done]. rewrite Z.lor_spec, Z.shiftl_spec_low by lia. by rewrite orb_false_r.
Qed.

Lemma read_bits_at v code number points off :
  0 ≤ off < points →
  ∃ b, read_bits v code number points !! Z.to_nat (off / 8) = Some b ∧
    low_bit b = low_bit (cell v code (number + off / 8 * 8)).
Proof.
  intros Ho. unfold read_bits.
  assert (off / 8 < div_ceil points 8) as Hlt by (rewrite div_ceil_spec by lia; dlia).
  exists (bit_byte v code number points (off / 8)). split; [|apply bit_byte_low; dlia].
  apply list_lookup_fmap_Some. exists (off / 8). split; [done|].
  apply lookup_seqZ. rewrite Z2Nat.id by dlia. lia.
Qed.

Lemma length_read_bits v code number points :
  0 ≤ points → Z.of_nat (length (read_bits v code number points)) = div_ceil points 8.
Proof.
  intros Hp. unfold read_bits. rewrite length_fmap, length_seqZ. rewrite Z2Nat.id; [done|].
  rewrite div_ceil_spec by lia. dlia.
Qed.

(** ** A read plan *)
Definition read_data (v : cells) (kind : DeviceKind.t) (start points : Z) : list Z :=
  if DeviceKind.is_bit kind then read_bits v (DeviceKind.code kind) start points
  else read_words v (DeviceKind.code kind) start points.

Definition read_served (b : McBehavior) (kind : DeviceKind.t) (start points : Z) : McBehavior :=
  update (mb_cells b) (mb_request_count b)
    (mb_captured_reads b ++ [{| rrec_code := DeviceKind.code kind; rrec_number := start; rrec_points := points |}])
    (mb_captured_writes b) b.

Lemma handle_command_read b timer kind start points :
  healthy b → 0 ≤ start ≤ MAX_NUMBER → in_u 16 points →
  handle_command b (area_of timer (read_command_of kind) kind start points []) =
    (read_served b kind start points, Some (to_le_bytes 2 0 ++ read_data (mb_cells b) kind start points)).
Proof.
  intros Hb Hs Hp. unfold handle_command. set (area := area_of _ _ _ _ _ _).
  assert (in_u 16 (read_command_of kind)) as Hc by (by destruct kind).
  destruct (area_fields timer _ kind start points [] Hc Hs Hp) as (H1 & H2 & H3 & H4 & _). fold area in H1, H2, H3, H4.
  rewrite H1, H2, H3, H4. change (length area <? 12)%nat with false. rewrite (hb_force _ Hb). cbv iota zeta.
  unfold read_data, read_served. by destruct kind.
Qed.

Lemma length_read_data v kind start points :
  in_u 16 points →
  expected_resp_body_len (read_command_of kind) points = Z.of_nat (length (read_data v kind start points)) + 2.
Proof.
  unfold in_u. intros Hp. unfold read_data.
  assert (read_command_of kind = if DeviceKind.is_bit kind then CMD_READ_BIT else CMD_READ_WORD) as ->
    by (by destruct kind).
  unfold expected_resp_body_len. destruct (DeviceKind.is_bit kind).
  - change (CMD_READ_BIT =? CMD_READ_WORD) with false. change (CMD_READ_BIT =? CMD_READ_BIT) with true. cbv iota.
    rewrite length_read_bits by lia. lia.
  - change (CMD_READ_WORD =? CMD_READ_WORD) with true. cbv iota.
    rewrite read_words_cells, length_words_bytes, length_cells_at. lia.
Qed.

(** A driver connected to a device without faults. *)
Record serving (config : McConfig) (v : cells) (s : MitsubishiMcDriver () * Line) : Prop := {
  sv_config : md_config s.1 = config;
  sv_session : ∃ t, md_session s.1 = Some t ∧ ts_stream t = Some () ∧ ts_routing t = config_routing config;
  sv_idle : idle s.2;
  sv_healthy : healthy (mk_behavior (ln_conn s.2));
  sv_cells : mb_cells (mk_behavior (ln_conn s.2)) = v;
}.

Lemma config_routing_wf config : config_wf config → routing_wf (config_routing config).
Proof. by intros []. Qed.

(** Any request the controller serves, through the driver. *)
Lemma plan_response_served config v v' s command kind start points data body :
  serving config v s → config_wf config → 0 ≤ start ≤ MAX_NUMBER → in_u 16 points → in_u 16 command →
  Z.of_nat (length data) < 60000 → Z.of_nat (length body) < 60000 →
  expected_resp_body_len command points = Z.of_nat (length body) + 2 →
  (∀ b timer, healthy b → mb_cells b = v → ∃ b', healthy b' ∧ mb_cells b' = v' ∧
    handle_command b (area_of timer command kind start points data) = (b', Some (to_le_bytes 2 0 ++ body))) →
  ∃ s', serving config v' s' ∧
    with_session (plan_response (λ t,
      assemble_frame SUBHEADER_REQUEST (ts_routing t) (ts_monitoring_timer t)
        (build_command_body command kind start points data))) s =
      (s', Ok {| pr_end_code := 0; pr_data := body |}).
Proof.
  destruct s as [d l]. intros [Hcfg (t & Ht & Hst & Hr) Hidle Hh Hv] Hwf Hs Hp Hc Hd Hb Hexp Hserve.
  cbn [fst snd] in *. unfold with_session. rewrite Ht.
  set (area := area_of (ts_monitoring_timer t) command kind start points data).
  destruct (Hserve (count_request (mk_behavior (ln_conn l))) (ts_monitoring_timer t)) as (b' & Hh' & Hv' & Hhc);
    [by apply healthy_update|done|].
  assert (routing_wf (ts_routing t)) as Hrw by (rewrite Hr; by apply config_routing_wf).
  assert (length area = (12 + length data)%nat) as Hla by apply length_area.
  destruct (area_fields (ts_monitoring_timer t) command kind start points data Hc Hs Hp) as (H1 & _ & _ & H4 & _).
  assert (plan_response (λ t,
      assemble_frame SUBHEADER_REQUEST (ts_routing t) (ts_monitoring_timer t)
        (build_command_body command kind start points data)) (t, l) =
    ((t, with_behavior b' l), Ok {| pr_end_code := 0; pr_data := body |})) as ->.
  { unfold plan_response. unfold sget at 1. unfold sbind at 1. rewrite assemble_request.
    assert (transact (request (ts_routing t) area) (t, l) =
      ((t, with_behavior b' l), Ok (response (ts_routing t) (to_le_bytes 2 0 ++ body)))) as Htr.
    { apply transact_line; try done; [lia|lia|lia|]. fold area in H1, H4. by rewrite H1, H4. }
    rewrite (sbind_Ok _ _ _ _ _ Htr). unfold sget at 1. unfold sbind at 1. unfold slift, sbind.
    rewrite parse_response by (done || lia). done. }
  eexists. split; [|reflexivity]. split; cbn; try done. by exists t.
Qed.

Lemma mc_execute_read_plan_served config v s p :
  serving config v s → config_wf config → 0 ≤ rp_start_number p ≤ MAX_NUMBER → 0 ≤ rp_points p ≤ 1000 →
  ∃ s', serving config v s' ∧
    execute_read_plan p s =
      (s', Ok {| pr_end_code := 0; pr_data := read_data v (rp_kind p) (rp_start_number p) (rp_points p) |}).
Proof.
  intros Hs Hwf Hst Hp. assert (in_u 16 (rp_points p)) as Hpu by (unfold in_u; lia).
  pose proof (length_read_data v (rp_kind p) (rp_start_number p) (rp_points p) Hpu) as Hlen.
  assert (Z.of_nat (length (read_data v (rp_kind p) (rp_start_number p) (rp_points p))) < 60000) as Hb.
  { revert Hlen. unfold expected_resp_body_len. rewrite div_ceil_spec by lia. repeat case_if; dlia. }
  apply (plan_response_served config v v s (read_command_of (rp_kind p)) (rp_kind p) _ _ []); try done.
  - by destruct (rp_kind p).
  - intros b timer Hh <-. eexists. split_and!; [| |by apply handle_command_read]; [by apply healthy_update|done].
Qed.

(** ** The results of a batch *)
Definition read_result (id : Z) (o : outcome McError.t RawValue.t) : RawReadResult :=
  match o with
  | Ok v => read_ok_result id v 0
  | Err e => read_error_result id e 0
  | Panic => read_error_result id McError.driver_panic 0
  end.

Lemma decode_read_no_panic kind expected bytes : decode_read kind expected bytes ≠ Panic.
Proof.
  unfold decode_read. destruct (DeviceKind.is_bit kind).
  - unfold decode_bit. by destruct expected as [[]|], bytes.
  - destruct expected as [[]|]; cbn [word_layout outcome_bind]; try done; by case_if.
Qed.

Lemma mc_item_value_no_panic planned is_bit data : item_value planned is_bit data ≠ Panic.
Proof.
  unfold item_value. destruct is_bit.
  - destruct (_ !! _); [apply decode_read_no_panic|done].
  - cbn zeta. destruct (get_slice _ _ _); [apply decode_read_no_panic|done].
Qed.

Lemma mc_assemble_items_run is_bit data items (d : MitsubishiMcDriver ()) (l : Line) :
  assemble_items is_bit data items (d, l) =
    ((d, l), Ok ((λ i, read_result (pi_item_id i.1) (item_value i.1 is_bit data)) <$> items)).
Proof.
  induction items as [|[i n] items IH]; [done|]. cbn [assemble_items].
  unfold sbind at 1. change (tick (d, l)) with ((d, l), Ok (E := McError.t) 0). cbn iota beta.
  unfold sbind at 1, slift. pose proof (mc_item_value_no_panic i is_bit data) as Hn. unfold assemble_read.
  cbn [fmap list_fmap fst].
  destruct (item_value i is_bit data); [..|done]; unfold sbind; rewrite IH; done.
Qed.

(** What a plan yields on the memory of the controller. *)
Definition plan_results (v : cells) (p : ReadPlan) : list RawReadResult :=
  (λ i, read_result (pi_item_id i.1)
          (item_value i.1 (DeviceKind.is_bit (rp_kind p))
             (read_data v (rp_kind p) (rp_start_number p) (rp_points p)))) <$> rp_items p.

Definition plan_ok (p : ReadPlan) : Prop :=
  0 ≤ rp_start_number p ≤ MAX_NUMBER ∧ 0 ≤ rp_points p ≤ 1000.

Lemma mc_read_plans_served config v plans s acc :
  serving config v s → config_wf config → Forall plan_ok plans →
  ∃ s', serving config v s' ∧ read_plans plans acc s = (s', Ok (acc ++ (plans ≫= plan_results v))).
Proof.
  intros Hs Hwf Hp. revert s acc Hs. induction Hp as [|p plans [Hst Hpts] Hp IH]; intros s acc Hs.
  { exists s. by rewrite app_nil_r. }
  destruct (mc_execute_read_plan_served _ _ _ _ Hs Hwf Hst Hpts) as ([d1 l1] & Hs1 & Hrun).
  destruct (IH _ (acc ++ plan_results v p) Hs1) as (s2 & Hs2 & Hrun2). exists s2. split; [done|].
  cbn [read_plans]. rewrite (sbind_Ok _ _ _ _ _ Hrun). cbn [pr_end_code pr_data Z.eqb negb].
  rewrite (sbind_Ok _ _ _ _ _ (mc_assemble_items_run _ _ _ d1 l1)).
  rewrite bind_cons, app_assoc, <- Hrun2. done.
Qed.

Lemma mc_ensure_connected_served config v s : serving config v s → ensure_connected s = (s, Ok ()).
Proof.
  destruct s as [[cfg sess err] l]. intros [_ (t & Ht & Hst & _) _ _ _]. cbn [fst snd md_session] in *. subst sess.
  unfold ensure_connected, with_session. cbn [md_session]. unfold session_ensure_connected, is_connected.
  cbn [fst]. by rewrite Hst.
Qed.

Abbreviation plan_reads config items :=
  (plan_read_batch items (mc_max_word_points_per_access config) (mc_max_bit_points_per_access config)
     (mc_max_merge_gap_points config)).

Lemma mc_read_batch_served config v s items plans :
  serving config v s → config_wf config → plan_reads config items = Ok plans →
  ∃ s', serving config v s' ∧
    read_batch items s = (s', Ok (sort_by_key rr_item_id (plans ≫= plan_results v))).
Proof.
  intros Hs Hwf Hplans. destruct (mc_read_plans_served config v plans s [] Hs Hwf) as (s' & Hs' & Hrun).
  { apply Forall_forall. intros p Hp. destruct Hwf as [_ _ _ _ _ Hw Hb _].
    destruct (mc_plan_read_bounds _ _ _ _ _ _ Hplans Hp Hw Hb) as (Hst & Hpts & _). split; [done|].
    unfold unit_limit in Hpts. revert Hpts. case_if; lia. }
  exists s'. split; [done|]. unfold read_batch.
  rewrite (sbind_Ok _ _ _ _ _ (mc_ensure_connected_served _ _ _ Hs)). destruct s as [d l].
  rewrite (sbind_Ok _ _ _ (d, l) (d, l)) by done. pose proof (sv_config _ _ _ Hs) as Hc. cbn in Hc.
  cbn zeta. rewrite Hc. unfold slift at 1. unfold sbind at 1. rewrite Hplans. cbn iota beta.
  by rewrite (sbind_Ok _ _ _ _ _ Hrun).
Qed.

(** ** Where the driver samples an item *)

(** The payload of an item at a device number. *)
Definition payload_at (v : cells) (kind : DeviceKind.t) (expected : option DataType.t) (number : Z) : list Z :=
  if DeviceKind.is_bit kind then [Z.b2z (low_bit (cell v (DeviceKind.code kind) number))]
  else words_bytes (cells_at v (DeviceKind.code kind) number (layout_points expected)).

Definition sampled (v : cells) (kind : DeviceKind.t) (expected : option DataType.t) (number : Z) :
    outcome McError.t RawValue.t :=
  decode_read kind expected (payload_at v kind expected number).

(** The number whose cell an item of a plan is decoded from: the first bit of
    the byte of the bit string, when the device is one of bits. *)
Definition sample_number (kind : DeviceKind.t) (first number : Z) : Z :=
  if DeviceKind.is_bit kind then first + (number - first) / 8 * 8 else number.

Lemma decode_low_bit kind expected b c :
  DeviceKind.is_bit kind = true → low_bit b = c → decode_read DeviceKind.M expected [b] = decode_read kind expected [Z.b2z c].
Proof.
  intros Hk <-. unfold decode_read. rewrite Hk. cbn [DeviceKind.is_bit]. unfold decode_bit.
  assert (negb (Z.land (Z.b2z (low_bit b)) 1 =? 0) = negb (Z.land b 1 =? 0)) as ->.
  { fold (low_bit b). by destruct (low_bit b). }
  done.
Qed.

Lemma mc_chunk_results v limit gap kind c p :
  read_chunk limit gap kind c → 0 ≤ limit ≤ 960 → flush_read c = [p] →
  plan_results v p =
    (λ e, read_result (re_id e) (sampled v kind (re_expected e) (sample_number kind (rp_start_number p) (re_start e)))) <$> c.
Proof.
  intros Hc Hlim Hfl. destruct c as [|first c]; [done|]. destruct (read_chunk_points _ _ _ _ _ Hc) as [Hpts _].
  destruct Hc as [_ Hs Hk Hw]. pose proof (Forall_inv Hk) as Hkf. cbn beta in Hkf.
  pose proof (chunk_end_ge (first :: c)) as Hge. revert Hge Hpts Hfl. unfold flush_read.
  generalize (chunk_end (first :: c)) as D. intros D Hge Hpts [= <-]. unfold plan_results.
  cbn [rp_kind rp_start_number rp_points rp_items]. rewrite Hkf, wrap_small by (unfold in_u; lia).
  change (planned_item (re_start first) first :: _) with (planned_item (re_start first) <$> first :: c).
  rewrite <- list_fmap_compose. apply list_fmap_ext. intros i e He%list_elem_of_lookup_2.
  unfold compose, planned_item. cbn [fst pi_item_id]. f_equal. unfold item_value, sampled, payload_at, sample_number, read_data.
  cbn [pi_offset_in_points pi_expected].
  rewrite Forall_forall in Hw, Hk. destruct (Hw _ He) as [_ Hwd]. rewrite (Hk _ He) in Hwd.
  pose proof (sorted_first_le _ _ _ Hs He) as Hle. pose proof (Hge _ He) as Hend.
  destruct (DeviceKind.is_bit kind) eqn:Hbit.
  - destruct (read_bits_at v (DeviceKind.code kind) (re_start first) (D - re_start first) (re_start e - re_start first))
      as (b & -> & Hb); [lia|]. by apply decode_low_bit.
  - rewrite read_words_cells, get_slice_words by lia.
    replace (re_start first + (re_start e - re_start first)) with (re_start e) by lia.
    unfold decode_read. by rewrite Hbit.
Qed.

(** ** Batches are transparent, except for bits *)

(** What an item yields when it is read on its own. *)
Definition read_alone (v : cells) (item : DriverReadItem) : option RawReadResult :=
  match parse (ri_address item) with
  | Ok a => Some (read_result (ri_id item) (sampled v (da_kind a) (ri_expected_type item) (da_number a)))
  | _ => None
  end.

(** Bits of one kind of device at distances that are multiples of eight. *)
Definition compatible (x y : DriverReadItem) : Prop :=
  ∀ a b, parse (ri_address x) = Ok a → parse (ri_address y) = Ok b →
    da_kind a = da_kind b → DeviceKind.is_bit (da_kind a) = true → (da_number a - da_number b) mod 8 = 0.

Definition entry_result (v : cells) (kind : DeviceKind.t) (e : ReadEntry) : RawReadResult :=
  read_result (re_id e) (sampled v kind (re_expected e) (re_start e)).

(** Bits of a chunk at distances that are multiples of eight are their own samples. *)
Lemma sample_aligned kind first number :
  (DeviceKind.is_bit kind = true → (number - first) mod 8 = 0) → sample_number kind first number = number.
Proof. unfold sample_number. destruct (DeviceKind.is_bit kind); [|done]. intros H. specialize (H eq_refl). dlia. Qed.

Lemma mc_group_results v limit gap kind chunks :
  Forall (read_chunk limit gap kind) chunks → 0 ≤ limit ≤ 960 →
  (DeviceKind.is_bit kind = true → ∀ x y, x ∈ concat chunks → y ∈ concat chunks → (re_start x - re_start y) mod 8 = 0) →
  ((chunks ≫= flush_read) ≫= plan_results v) = entry_result v kind <$> concat chunks.
Proof.
  intros Hc Hlim Hal. induction Hc as [|c chunks Hc _ IH]; [done|].
  cbn [concat]. rewrite bind_cons, bind_app, fmap_app, IH.
  2:{ intros Hb x y Hx Hy. apply Hal; [done|cbn [concat]; set_solver..]. }
  f_equal. destruct c as [|first c]; [by destruct (rc_ok _ _ _ _ Hc)|].
  assert (∃ p, flush_read (first :: c) = [p] ∧ rp_start_number p = re_start first) as (p & Hp & Hst) by (by eexists).
  rewrite Hp. cbn [mbind list_bind]. rewrite app_nil_r, (mc_chunk_results _ _ _ _ _ _ Hc Hlim Hp), Hst.
  apply list_fmap_ext. intros i e He%list_elem_of_lookup_2. unfold entry_result. do 2 f_equal.
  apply sample_aligned. intros Hb. apply Hal; [done|cbn [concat]; set_solver..].
Qed.

Lemma mc_plan_results_alone items words bits gap v plans :
  plan_read_batch items words bits gap = Ok plans → 1 ≤ words ≤ 960 → 1 ≤ bits ≤ 720 →
  (∀ x y, x ∈ items → y ∈ items → compatible x y) →
  Some <$> (plans ≫= plan_results v) ≡ₚ read_alone v <$> items.
Proof.
  intros (entries & groups & Hf & -> & Hp & Hall)%mc_plan_read_batch_chunks Hw Hb Hcomp.
  transitivity (Some <$> (groups ≫= λ g, entry_result v g.1 <$> g.2)).
  - apply fmap_Permutation.
    assert (∀ k e, (k, e) ∈ btree_pairs groups → k = re_kind e ∧ e ∈ entries) as Hpairs.
    { intros k e. rewrite Hp. intros (e' & [= -> ->] & He)%list_elem_of_fmap. done. }
    clear Hp. induction Hall as [|[kind es] groups Hg _ IH]; [done|].
    rewrite !bind_cons, bind_app. cbn [fst snd] in *. f_equiv.
    2:{ apply IH. intros k e He. apply Hpairs. unfold btree_pairs. rewrite bind_cons. set_solver. }
    rewrite (mc_group_results v (unit_limit kind words bits) gap kind).
    + rewrite read_chunks_concat. cbn [snd]. by rewrite sort_by_key_perm.
    + apply Forall_forall. intros c Hc. by apply Hg.
    + unfold unit_limit. case_if; lia.
    + rewrite read_chunks_concat. cbn [snd]. intros Hbit x y Hx Hy. rewrite sort_by_key_perm in Hx, Hy.
      assert (∀ e, e ∈ es → kind = re_kind e ∧ e ∈ entries) as Hes.
      { intros e He. apply Hpairs. unfold btree_pairs. rewrite bind_cons. cbn [fst snd].
        apply elem_of_app. left. apply list_elem_of_fmap. by exists e. }
      destruct (Hes x Hx) as [Hkx (kx & Hix)%list_elem_of_lookup_1].
      destruct (Hes y Hy) as [Hky (ky & Hiy)%list_elem_of_lookup_1].
      destruct (Forall2_lookup_r _ _ _ _ _ Hf Hix) as (i & Hi & a & Ha & ->).
      destruct (Forall2_lookup_r _ _ _ _ _ Hf Hiy) as (j & Hj & b & Hb' & ->).
      apply (Hcomp i j); try done; [by eapply list_elem_of_lookup_2..| |]; cbn in Hkx, Hky; congruence.
  - rewrite bind_pairs, Hp, <- list_fmap_compose. clear -Hf.
    induction Hf as [|item e items entries (a & Ha & ->) Hf IH]; [done|].
    rewrite !fmap_cons, IH. unfold read_alone at 2. by rewrite Ha.
Qed.

(** C27: An MC batch read is transparent.  On a healthy controller a batch whose
    bits of one kind of device lie a multiple of eight apart returns for every
    item exactly what the memory of the controller holds at its address, decoded
    on its own: grouping, merging over holes, splitting, framing and slicing
    lose nothing. *)
Theorem mc_read_transparent config v s items plans :
  serving config v s → config_wf config → plan_reads config items = Ok plans →
  (∀ x y, x ∈ items → y ∈ items → compatible x y) →
  ∃ s' rs, read_batch items s = (s', Ok rs) ∧ serving config v s' ∧
    Some <$> rs ≡ₚ read_alone v <$> items.
Proof.
  intros Hs Hwf Hplans Hcomp. destruct (mc_read_batch_served _ _ _ _ _ Hs Hwf Hplans) as (s' & Hs' & Hrun).
  eexists s', _. split; [exact Hrun|]. split; [done|]. rewrite sort_by_key_perm.
  destruct Hwf as [_ _ _ _ _ Hw Hb _]. by eapply mc_plan_results_alone.
Qed.

(** ** Bits of one byte *)
Lemma kind_cmp_refl k : kind_cmp k k = Eq.
Proof. apply Z.compare_refl. Qed.

(** Two items the planner merges into one plan. *)
Lemma mc_plan_pair x y a b words bits gap :
  parse (ri_address x) = Ok a → parse (ri_address y) = Ok b → da_kind a = da_kind b → da_number a ≤ da_number b →
  read_overflows (unit_limit (da_kind a) words bits) gap [read_entry x a] (read_entry y b) = false →
  plan_read_batch [x; y] words bits gap = Ok (flush_read [read_entry x a; read_entry y b]).
Proof.
  intros Ha Hb Hk Hle Ho. unfold plan_read_batch. cbn [read_entries]. rewrite Ha, Hb. cbn [map_err outcome_bind].
  f_equal. unfold group_reads. cbn [foldl]. cbn [btree_push read_entry re_kind]. rewrite <- Hk, kind_cmp_refl.
  rewrite bind_cons, app_nil_r. unfold plan_read_group. cbn [fst snd app].
  assert (sort_by_key re_start [read_entry x a; read_entry y b] = [read_entry x a; read_entry y b]) as ->.
  { apply sort_by_key_id. repeat constructor. done. }
  cbn [chunk_loop app]. change (read_overflows _ gap [] (read_entry x a)) with false. cbv iota.
  rewrite Ho. cbv iota. by rewrite bind_cons, app_nil_r.
Qed.

Lemma pair_chunk limit gap x y a b :
  parse (ri_address x) = Ok a → parse (ri_address y) = Ok b → da_kind a = da_kind b → da_number a ≤ da_number b →
  read_overflows limit gap [read_entry x a] (read_entry y b) = false →
  read_chunk limit gap (da_kind a) [read_entry x a; read_entry y b].
Proof.
  intros Ha Hb Hk Hle Ho. split.
  - split; [done|]. intros [|[|k]] e; cbn [lookup list_lookup]; [done|by intros [= <-]|done].
  - by repeat constructor.
  - by repeat constructor.
  - constructor; [by apply read_entry_wf|]. constructor; [by apply read_entry_wf|constructor].
Qed.

Lemma mc_sort_pair i j o1 o2 :
  i < j → sort_by_key rr_item_id [read_result i o1; read_result j o2] = [read_result i o1; read_result j o2].
Proof.
  intros Hij. apply sort_by_key_id. repeat constructor. unfold key_le. destruct o1, o2; cbn; lia.
Qed.

(** MC bits that share a byte are misread.  When a batch asks for two bits of
    one kind of device that the planner merges, the second is reported, as a
    good value, with the state of the device at the start of its byte of the bit
    string, which is another device unless the distance is a multiple of eight;
    for neighbours it is the state of the first. *)
Theorem mc_bits_misread config v s x y a b :
  serving config v s → config_wf config →
  parse (ri_address x) = Ok a → parse (ri_address y) = Ok b →
  da_kind a = da_kind b → DeviceKind.is_bit (da_kind a) = true →
  da_number a < da_number b ≤ da_number a + 1 + mc_max_merge_gap_points config →
  da_number a + 1 + mc_max_merge_gap_points config < 2 ^ 32 →
  da_number b + 1 - da_number a ≤ mc_max_bit_points_per_access config →
  ri_expected_type x = None → ri_expected_type y = None → ri_id x < ri_id y →
  let state n := RawValue.Bool (low_bit (cell v (DeviceKind.code (da_kind a)) n)) in
  ∃ s', read_batch [x; y] s =
    (s', Ok [read_result (ri_id x) (Ok (state (da_number a)));
             read_result (ri_id y) (Ok (state (da_number a + (da_number b - da_number a) / 8 * 8)))]).
Proof.
  cbv zeta. intros Hs Hwf Ha Hb Hk Hbit Hgap Hover Hlim Hx Hy Hid.
  pose proof (mc_parse_wf _ _ Ha) as Hwa. pose proof (mc_parse_wf _ _ Hb) as Hwb. unfold addr_wf, MAX_NUMBER in *.
  assert (read_overflows (mc_max_bit_points_per_access config) (mc_max_merge_gap_points config)
    [read_entry x a] (read_entry y b) = false) as Ho.
  { unfold read_overflows, chunk_end, read_entry. cbn [re_start re_width fmap list_fmap foldr length].
    rewrite <- Hk, Hbit. pose proof (cw_gap _ Hwf) as Hg. unfold in_u in Hg.
    rewrite wrap_small by (unfold in_u; lia). unfold MAX_ITEMS_PER_PLAN. lia. }
  assert (plan_reads config [x; y] = Ok (flush_read [read_entry x a; read_entry y b])) as Hplan.
  { apply mc_plan_pair; try done; [lia|]. unfold unit_limit. by rewrite Hbit. }
  destruct (mc_read_batch_served _ _ _ _ _ Hs Hwf Hplan) as (s' & _ & Hrun). exists s'. rewrite Hrun. do 2 f_equal.
  assert (∃ p, flush_read [read_entry x a; read_entry y b] = [p] ∧ rp_start_number p = da_number a) as (p & Hp & Hst)
    by (by eexists).
  rewrite Hp, bind_cons, app_nil_r.
  rewrite (mc_chunk_results _ _ _ _ _ _ (pair_chunk _ _ _ _ _ _ Ha Hb Hk ltac:(lia) Ho)) by (done || (destruct Hwf; lia)).
  rewrite Hst. cbn [fmap list_fmap read_entry re_id re_expected re_start].
  unfold sampled, payload_at, sample_number. rewrite Hx, Hy, Hbit, Z.sub_diag, Z.div_0_l, Z.mul_0_l, Z.add_0_r by lia.
  rewrite mc_sort_pair by done. unfold decode_read. rewrite Hbit. cbn [decode_bit].
  by destruct (low_bit _), (low_bit _).
Qed.
