(* ===== verification/McWriteEndToEnd.v ===== *)
(** * Laws of MC write plans

    What the planner makes of a batch of writes, and what a plan stores in the
    memory of the controller. *)

From S2P Require Import Prelude RustStd ObservationModel BatchRuns McCodec McBatch.
From S2P Require Import McDriver McLoopback DriverAbi McEndToEnd.
From stdpp Require Import options.

(** ** Cells *)
Fixpoint store_cells (code start : Z) (l : list Z) (v : cells) : cells :=
  match l with
  | [] => v
  | x :: l' => store_cells code (start + 1) l' (<[(code, start) := x]> v)
  end.

Fixpoint words_of (data : list Z) : list Z :=
  match data with
  | lo :: hi :: rest => from_le_bytes [lo; hi] :: words_of rest
  | _ => []
  end.

Lemma store_cells_app code start l1 l2 v :
  store_cells code start (l1 ++ l2) v =
  store_cells code (start + Z.of_nat (length l1)) l2 (store_cells code start l1 v).
Proof.
  revert start v. induction l1 as [|x l1 IH]; intros start v; cbn [store_cells app length].
  - f_equal. lia.
  - rewrite IH. f_equal. lia.
Qed.

Lemma cell_insert v code n x code' n' :
  cell (<[(code, n) := x]> v) code' n' = if decide ((code, n) = (code', n')) then x else cell v code' n'.
Proof. unfold cell. case_decide as H; [by rewrite H, lookup_insert_eq|by rewrite lookup_insert_ne]. Qed.

Lemma cell_store code start l v code' n :
  cell (store_cells code start l v) code' n =
    if decide (code = code' ∧ start ≤ n < start + Z.of_nat (length l))
    then l !!! Z.to_nat (n - start) else cell v code' n.
Proof.
  revert start v. induction l as [|x l IH]; intros start v; cbn [store_cells length].
  { rewrite decide_False by lia. done. }
  rewrite IH, cell_insert.
  destruct (decide (code = code' ∧ start ≤ n < start + Z.of_nat (S (length l)))) as [(-> & H)|H].
  - destruct (Z.eq_dec n start) as [->|Hne].
    + rewrite decide_False by lia. rewrite decide_True by done. by rewrite Z.sub_diag.
    + rewrite decide_True by lia. replace (Z.to_nat (n - start)) with (S (Z.to_nat (n - (start + 1)))) by lia. done.
  - rewrite decide_False by lia. rewrite decide_False; [done|]. intros [= -> ->]. apply H. split; [done|lia].
Qed.

(** ** The two ways the controller stores a payload *)

Lemma words_of_length n data : length data = (n * 2)%nat → length (words_of data) = n.
Proof.
  revert data. induction n as [|n IH]; intros data Hl; [by destruct data|].
  destruct data as [|a [|b data]]; [done..|]. cbn [words_of length]. f_equal. apply IH. cbn in Hl. lia.
Qed.

Lemma words_of_app n d1 d2 : length d1 = (n * 2)%nat → words_of (d1 ++ d2) = words_of d1 ++ words_of d2.
Proof.
  revert d1. induction n as [|n IH]; intros d1 Hl; [by destruct d1|].
  destruct d1 as [|a [|b d1]]; [done..|]. cbn [words_of app]. f_equal. apply IH. cbn in Hl. lia.
Qed.

Lemma write_words_store n code start data v :
  length data = (n * 2)%nat → write_words n code start data v = (store_cells code start (words_of data) v, true).
Proof.
  revert start data v. induction n as [|n IH]; intros start data v Hl; [by destruct data|].
  destruct data as [|a [|b data]]; [done..|]. cbn [write_words words_of store_cells]. apply IH. cbn in Hl. lia.
Qed.

Lemma pack_byte_testbit bits i b n :
  0 ≤ i → 0 ≤ n →
  Z.testbit (pack_byte i bits b) n =
    Z.testbit b n || ((i <=? n) && default false (bits !! Z.to_nat (n - i))).
Proof.
  intros Hi Hn. revert i b Hi. induction bits as [|bit bits IH]; intros i b Hi; cbn [pack_byte].
  { cbn. by rewrite andb_false_r, orb_false_r. }
  rewrite IH by lia. assert (Z.testbit (if bit then Z.lor b (Z.shiftl 1 i) else b) n =
    Z.testbit b n || (bit && (i =? n))) as ->.
  { destruct bit; cbn [andb]; [|by rewrite orb_false_r]. rewrite Z.lor_spec, Z.shiftl_1_l. f_equal.
    destruct (Z.eqb_spec i n) as [->|?]; [by apply Z.pow2_bits_true|by apply Z.pow2_bits_false]. }
  rewrite <- orb_assoc. f_equal. destruct (Z.eq_dec i n) as [->|Hne].
  - rewrite Z.eqb_refl, Z.leb_refl, Z.sub_diag. replace (n + 1 <=? n) with false by lia. cbn. by destruct bit.
  - replace (i =? n) with false by lia. rewrite andb_false_r. cbn [orb]. destruct (Z.leb_spec i n).
    + replace (i + 1 <=? n) with true by lia. cbn [andb].
      by replace (Z.to_nat (n - i)) with (S (Z.to_nat (n - (i + 1)))) by lia.
    + by replace (i + 1 <=? n) with false by lia.
Qed.

Lemma mc_length_pack_bits bits : Z.of_nat (length (pack_bits bits)) = div_ceil (Z.of_nat (length bits)) 8.
Proof.
  unfold pack_bits. rewrite length_fmap, length_seq. rewrite Z2Nat.id; [done|].
  rewrite div_ceil_spec by lia. dlia.
Qed.

Lemma mc_pack_bits_bit bits k bit :
  bits !! k = Some bit →
  Z.testbit (pack_bits bits !!! (k / 8)%nat) (Z.of_nat (k mod 8)) = bit.
Proof.
  intros Hk. pose proof (lookup_lt_Some _ _ _ Hk) as Hlt.
  pose proof (Nat.mod_upper_bound k 8 ltac:(lia)) as Hm. pose proof (Nat.div_mod_eq k 8) as Hdm.
  assert (pack_bits bits !! (k / 8)%nat = Some (pack_byte 0 (take 8 (drop (8 * (k / 8)) bits)) 0)) as Hl.
  { unfold pack_bits. apply list_lookup_fmap_Some. exists (k / 8)%nat. split; [done|]. apply lookup_seq. split; [lia|].
    rewrite div_ceil_spec by lia. dlia. }
  rewrite (list_lookup_total_correct _ _ _ Hl), pack_byte_testbit by lia. cbn [Z.testbit orb].
  rewrite Z.bits_0. replace (0 <=? Z.of_nat (k mod 8)) with true by lia. cbn [orb andb].
  rewrite Z.sub_0_r, Nat2Z.id, lookup_take_lt, lookup_drop by lia. by rewrite <- Hdm, Hk.
Qed.

Lemma foldl_insert_store code start (f : nat → Z) k n v :
  foldl (λ v idx, <[(code, start + Z.of_nat idx) := f idx]> v) v (seq k n) =
  store_cells code (start + Z.of_nat k) (f <$> seq k n) v.
Proof.
  revert k v. induction n as [|n IH]; intros k v; [done|]. cbn [seq foldl fmap list_fmap store_cells].
  rewrite IH. f_equal. lia.
Qed.

Lemma write_bits_store bits code start v :
  write_bits (length bits) code start (pack_bits bits) v = store_cells code start (Z.b2z <$> bits) v.
Proof.
  unfold write_bits. pose proof (mc_length_pack_bits bits) as Hl. rewrite div_ceil_spec in Hl by lia.
  replace (Nat.min (length bits) (8 * length (pack_bits bits))) with (length bits) by dlia.
  rewrite (foldl_insert_store code start
    (λ idx, Z.b2z (negb (Z.land (pack_bits bits !!! (idx / 8)%nat) (Z.shiftl 1 (Z.of_nat (idx mod 8))) =? 0)))).
  rewrite Z.add_0_r. f_equal. apply list_eq. intros i. rewrite !list_lookup_fmap.
  destruct (bits !! i) as [bit|] eqn:E.
  - rewrite lookup_seq_lt by (by eapply lookup_lt_Some). cbn. do 2 f_equal. rewrite testbit_mask by lia.
    by apply mc_pack_bits_bit.
  - rewrite lookup_seq_ge by (by apply lookup_ge_None). done.
Qed.

(** ** Requests and their entries *)
Definition write_entry (item : WriteRequest) : option (DeviceKind.t * WriteEntry) :=
  match parse (wq_address item) with
  | Ok a =>
      if negb (DeviceKind.writable (da_kind a)) then None
      else
        match encode_write (da_kind a) (wq_value item) with
        | Ok enc => Some (da_kind a, {| we_start := da_number a; we_width := ew_points enc; we_id := wq_id item;
                                        we_data := ew_data enc |})
        | _ => None
        end
  | _ => None
  end.

(** Why a request is not planned. *)
Definition write_failure (item : WriteRequest) : option McError.t :=
  match parse (wq_address item) with
  | Ok a =>
      if negb (DeviceKind.writable (da_kind a)) then Some McError.invalid_address
      else match encode_write (da_kind a) (wq_value item) with Err e => Some e | _ => None end
  | _ => None
  end.

Definition write_result (item : WriteRequest) : RawWriteResult :=
  match write_failure item with
  | Some e => write_error_result (wq_id item) e
  | None => write_ok_result (wq_id item)
  end.

(** Entries of well-formed addresses with payloads of their width. *)
Record entry_ok (ke : DeviceKind.t * WriteEntry) : Prop := {
  eo_start : 0 ≤ we_start ke.2 ≤ MAX_NUMBER;
  eo_width : 1 ≤ we_width ke.2 ≤ 4;
  eo_bytes : bytes_ok (we_data ke.2);
  eo_data : if DeviceKind.is_bit ke.1 then we_width ke.2 = 1 ∧ ∃ b : bool, we_data ke.2 = [Z.b2z b]
            else Z.of_nat (length (we_data ke.2)) = we_width ke.2 * 2;
}.

Lemma mc_encode_write_no_panic kind v : encode_write kind v ≠ Panic.
Proof. unfold encode_write, encode_bit. destruct (DeviceKind.is_bit kind), v; try done; by case_if. Qed.

Lemma mc_write_entry_ok item ke : write_entry item = Some ke → entry_ok ke.
Proof.
  unfold write_entry. destruct (parse (wq_address item)) as [a| |] eqn:Ea; [|done..].
  case_if; [done|]. destruct (encode_write (da_kind a) (wq_value item)) as [enc| |] eqn:Ee; [|done..].
  intros [= <-]. apply mc_parse_wf in Ea. destruct (encode_write_shape _ _ _ Ee) as (Hb & Hw & Hd). by split.
Qed.

Lemma mc_group_writes_spec items groups failed groups' failed' :
  group_writes items groups failed = Ok (groups', failed') →
  btree_pairs groups' ≡ₚ btree_pairs groups ++ omap write_entry items ∧
  failed' = failed ++ omap (λ i, pair (wq_id i) <$> write_failure i) items ∧
  Forall (λ i, is_Some (write_entry i) ∨ is_Some (write_failure i)) items.
Proof.
  revert groups failed. induction items as [|item items IH]; intros groups failed H.
  { injection H as <- <-. by rewrite !app_nil_r. }
  cbn [group_writes] in H. apply outcome_bind_Ok_inv in H as (a & Ha & H).
  destruct (parse (wq_address item)) as [a'| |] eqn:Ep; try done. injection Ha as ->.
  cbn [omap list_omap].
  assert (∀ e f, write_entry item = e → write_failure item = f → is_Some e ∨ is_Some f →
    Forall (λ i, is_Some (write_entry i) ∨ is_Some (write_failure i)) items →
    Forall (λ i, is_Some (write_entry i) ∨ is_Some (write_failure i)) (item :: items)) as Hcons.
  { intros ? ? <- <-. by constructor. }
  remember (write_entry item) as we eqn:Hwe. remember (write_failure item) as wf eqn:Hwf.
  unfold write_entry in Hwe. unfold write_failure in Hwf. rewrite Ep in Hwe, Hwf.
  destruct (negb (DeviceKind.writable (da_kind a))).
  { apply IH in H as (Hp & -> & Hall). subst we wf. rewrite Hp.
    split_and!; [done|by rewrite <- app_assoc|]. eapply Hcons; eauto. }
  pose proof (mc_encode_write_no_panic (da_kind a) (wq_value item)).
  destruct (encode_write (da_kind a) (wq_value item)) as [enc|e|]; [| |done];
    apply IH in H as (Hp & -> & Hall); subst we wf; rewrite Hp.
  - rewrite btree_push_pairs by (intros; by apply kind_cmp_eq).
    split_and!; [by rewrite <- app_assoc|done|]. eapply Hcons; eauto.
  - split_and!; [done|by rewrite <- app_assoc|]. eapply Hcons; eauto.
Qed.

(** ** Chunks *)
Record write_chunk (limit : Z) (kind : DeviceKind.t) (c : list WriteEntry) : Prop := {
  wc_ok : chunk_ok (write_overflows limit) c;
  wc_chain : chain adjacent c;
  wc_entries : Forall (λ e, entry_ok (kind, e)) c;
}.

Lemma mc_plan_write_group_chunks words bits kind entries :
  Forall (λ e, entry_ok (kind, e)) entries →
  ∃ chunks, concat chunks = sort_by_key we_start entries ∧
    Forall (write_chunk (unit_limit kind words bits) kind) chunks ∧
    plan_write_group words bits (kind, entries) = chunks ≫= λ c, flush_write c kind.
Proof.
  intros He. unfold plan_write_group. cbn [fst snd]. set (sorted := sort_by_key we_start entries).
  set (limit := unit_limit kind words bits).
  exists (split_runs adjacent sorted ≫= λ r, chunk_loop (write_overflows limit) r []).
  destruct (split_runs_ok adjacent sorted) as [Hruns Hcat].
  assert (concat (split_runs adjacent sorted ≫= λ r, chunk_loop (write_overflows limit) r []) = sorted) as Hconcat.
  { rewrite <- Hcat at 2. clear. induction (split_runs _ _) as [|r rs IH]; [done|].
    rewrite bind_cons, concat_app, IH. cbn. f_equal.
    by apply (chunk_loop_ok (write_overflows limit) r []); [|left]. }
  split_and!; [done| |by rewrite list_bind_assoc].
  apply Forall_forall. intros c Hc. split.
  - apply list_elem_of_bind in Hc as (r & Hc & _).
    destruct (chunk_loop_ok (write_overflows limit) r []) as [Hf _]; [done|by left|].
    rewrite Forall_forall in Hf. by apply Hf.
  - apply list_elem_of_bind in Hc as (r & Hc & Hr). rewrite Forall_forall in Hruns.
    destruct (chunk_loop_ok (write_overflows limit) r []) as [_ Hcc]; [done|by left|].
    eapply chain_concat; [|exact Hc]. rewrite Hcc. by apply Hruns.
  - rewrite Forall_forall in *. intros e Hin. apply He.
    rewrite <- (sort_by_key_perm we_start entries). fold sorted. rewrite <- Hconcat. apply elem_of_concat. eauto.
Qed.

(** ** What an entry stores *)
Definition entry_cells (kind : DeviceKind.t) (e : WriteEntry) : list Z :=
  if DeviceKind.is_bit kind then Z.b2z <$> piece_bits e else words_of (we_data e).

Definition store_entry (v : cells) (ke : DeviceKind.t * WriteEntry) : cells :=
  store_cells (DeviceKind.code ke.1) (we_start ke.2) (entry_cells ke.1 ke.2) v.

Lemma length_entry_cells kind e :
  entry_ok (kind, e) → Z.of_nat (length (entry_cells kind e)) = we_width e.
Proof.
  intros [_ Hw _ Hd]. cbn [fst snd] in *. unfold entry_cells. destruct (DeviceKind.is_bit kind).
  - rewrite length_fmap. unfold piece_bits. rewrite length_fmap, length_seq. lia.
  - rewrite (words_of_length (Z.to_nat (we_width e))) by lia. lia.
Qed.

(** Neighbours are stored at once. *)
Lemma mc_store_chain kind c first v :
  chain adjacent (first :: c) → Forall (λ e, entry_ok (kind, e)) (first :: c) →
  store_cells (DeviceKind.code kind) (we_start first) ((first :: c) ≫= entry_cells kind) v =
  foldl (λ v e, store_entry v (kind, e)) v (first :: c).
Proof.
  revert first v. induction c as [|e c IH]; intros first v Hc He; apply Forall_cons in He as [Hf He]; cbn [foldl].
  - by rewrite bind_cons, app_nil_r.
  - rewrite bind_cons, store_cells_app, length_entry_cells by done.
    specialize (Hc 0%nat first e eq_refl eq_refl) as Ha. apply Z.eqb_eq in Ha. rewrite Ha.
    rewrite IH; [done| |done]. intros k. apply (Hc (S k)).
Qed.

Lemma chain_span kind c first :
  chain adjacent (first :: c) → Forall (λ e, entry_ok (kind, e)) (first :: c) →
  ∃ final, last (first :: c) = Some final ∧
    Z.of_nat (length ((first :: c) ≫= entry_cells kind)) = we_start final + we_width final - we_start first.
Proof.
  revert first. induction c as [|e c IH]; intros first Hc He; apply Forall_cons in He as [Hf He].
  - exists first. split; [done|]. rewrite bind_cons, app_nil_r, length_entry_cells by done. lia.
  - destruct (IH e) as (final & Hl & Hlen); [|done|]. { intros k. apply (Hc (S k)). }
    exists final. split; [done|]. rewrite bind_cons, length_app, Nat2Z.inj_add, Hlen, length_entry_cells by done.
    specialize (Hc 0%nat first e eq_refl eq_refl) as Ha. apply Z.eqb_eq in Ha. lia.
Qed.

Lemma write_chunk_points limit kind first c :
  write_chunk limit kind (first :: c) →
  1 ≤ Z.of_nat (length ((first :: c) ≫= entry_cells kind)) ≤ Z.max limit 4.
Proof.
  intros [[_ Hok] Hc He]. pose proof (Forall_inv He) as Hf. split.
  { rewrite bind_cons, length_app, Nat2Z.inj_add, length_entry_cells by done. destruct Hf as [_ Hw _ _].
    cbn in Hw. lia. }
  destruct (chain_span _ _ _ Hc He) as (final & Hl & ->).
  destruct c as [|x c _] using rev_ind.
  - injection Hl as <-. destruct Hf as [_ Hw _ _]. cbn in Hw. lia.
  - change (first :: c ++ [x]) with ((first :: c) ++ [x]) in *. rewrite last_snoc in Hl. injection Hl as ->.
    assert (write_overflows limit (first :: c) final = false) as Ho.
    { rewrite <- (take_app_length (first :: c) [final]). apply Hok. by apply list_lookup_middle. }
    cbn [write_overflows] in Ho. lia.
Qed.

(** The bytes and points of a plan. *)
Lemma words_of_chunk kind c :
  DeviceKind.is_bit kind = false → Forall (λ e, entry_ok (kind, e)) c →
  words_of (c ≫= we_data) = c ≫= entry_cells kind ∧
  length (c ≫= we_data) = (length (c ≫= entry_cells kind) * 2)%nat ∧
  foldr Z.add 0 (we_width <$> c) = Z.of_nat (length (c ≫= entry_cells kind)).
Proof.
  intros Hk He. induction He as [|e c Hok _ (IH1 & IH2 & IH3)]; [done|].
  pose proof (length_entry_cells _ _ Hok) as Hl. destruct Hok as [_ Hw _ Hd]. cbn [fst snd] in *. rewrite Hk in Hd.
  rewrite !bind_cons, !length_app. cbn [fmap list_fmap foldr]. rewrite IH2, IH3. split_and!; [|lia|lia].
  rewrite (words_of_app (Z.to_nat (we_width e))) by lia. rewrite IH1. f_equal. unfold entry_cells. by rewrite Hk.
Qed.

Lemma bits_of_chunk kind c :
  DeviceKind.is_bit kind = true → Z.b2z <$> (c ≫= piece_bits) = c ≫= entry_cells kind.
Proof.
  intros Hk. induction c as [|e c IH]; [done|]. rewrite !bind_cons, fmap_app, IH. f_equal.
  unfold entry_cells. by rewrite Hk.
Qed.

(** ** Entries that share no device *)
Definition apart (x y : DeviceKind.t * WriteEntry) : Prop :=
  x.1 ≠ y.1 ∨ we_start x.2 + we_width x.2 ≤ we_start y.2 ∨ we_start y.2 + we_width y.2 ≤ we_start x.2.

Lemma mc_apart_sym x y : apart x y → apart y x.
Proof. unfold apart. intros [?|[?|?]]; auto. Qed.

Lemma code_inj k k' : DeviceKind.code k = DeviceKind.code k' → k = k'.
Proof. by destruct k, k'. Qed.

(** The cells an entry covers, in a memory. *)
Definition covered (v : cells) (ke : DeviceKind.t * WriteEntry) : list Z :=
  (λ i, cell v (DeviceKind.code ke.1) (we_start ke.2 + Z.of_nat i)) <$> seq 0 (Z.to_nat (we_width ke.2)).

Lemma store_entry_hit v ke : entry_ok ke → covered (store_entry v ke) ke = entry_cells ke.1 ke.2.
Proof.
  destruct ke as [kind e]. intros He. pose proof (length_entry_cells _ _ He) as Hl.
  unfold covered, store_entry. cbn [fst snd]. apply list_eq. intros i. rewrite list_lookup_fmap.
  destruct (decide (i < length (entry_cells kind e))%nat) as [Hi|Hi].
  - rewrite lookup_seq_lt by lia. cbn. rewrite cell_store, decide_True by lia.
    replace (Z.to_nat (we_start e + Z.of_nat i - we_start e)) with i by lia.
    symmetry. by apply list_lookup_lookup_total_lt.
  - rewrite lookup_seq_ge by lia. by rewrite lookup_ge_None_2 by lia.
Qed.

Lemma store_entry_miss v x y : entry_ok y → apart x y → covered (store_entry v y) x = covered v x.
Proof.
  destruct x as [k e], y as [k' f]. intros Hf Hap. pose proof (length_entry_cells _ _ Hf) as Hl.
  unfold covered, store_entry. cbn [fst snd] in *. apply list_fmap_ext. intros i n [-> Hn]%lookup_seq.
  rewrite cell_store, decide_False; [done|]. intros [Hc Hin]. apply code_inj in Hc as ->.
  destruct Hap as [?|Hap]; [done|]. cbn in Hap. lia.
Qed.

(** What is stored in pairwise disjoint places stays. *)
Lemma mc_foldl_store_covered order v ke :
  Forall entry_ok order → ForallOrdPairs apart order → ke ∈ order →
  covered (foldl store_entry v order) ke = entry_cells ke.1 ke.2.
Proof.
  assert (∀ order v ke, Forall entry_ok order → Forall (apart ke) order →
    covered (foldl store_entry v order) ke = covered v ke) as Hkeep.
  { clear. intros order v ke Ho. revert v. induction Ho as [|y order Hy Ho IH]; intros v Hap; [done|].
    apply Forall_cons in Hap as [Hxy Hap]. cbn [foldl]. rewrite IH by done. by apply store_entry_miss. }
  intros Ho Hap Hin. revert v. induction Hap as [|x order Hx Hap IH]; [by apply not_elem_of_nil in Hin|].
  intros v. apply Forall_cons in Ho as [Hxo Ho]. cbn [foldl]. apply elem_of_cons in Hin as [->|Hin].
  - rewrite Hkeep by done. by apply store_entry_hit.
  - by apply IH.
Qed.

(** A device no entry covers keeps its value. *)
Lemma foldl_store_outside order v code n :
  Forall entry_ok order →
  Forall (λ ke, DeviceKind.code ke.1 = code → ¬ we_start ke.2 ≤ n < we_start ke.2 + we_width ke.2) order →
  cell (foldl store_entry v order) code n = cell v code n.
Proof.
  intros Ho Hout. revert v. induction Ho as [|[k e] order He Ho IH]; intros v; [done|].
  apply Forall_cons in Hout as [Hk Hout]. cbn [foldl]. rewrite IH by done. unfold store_entry. cbn [fst snd] in *.
  rewrite cell_store, decide_False; [done|]. rewrite (length_entry_cells _ _ He). intros [Hc Hin]. by apply Hk.
Qed.

(** * MC writes against the simulated controller

    What a batch write stores, and that it reads back. *)

(** ** A write plan *)
Definition chunk_plan (kind : DeviceKind.t) (first : WriteEntry) (c : list WriteEntry) : WritePlan :=
  {| wp_kind := kind; wp_start_number := we_start first;
     wp_points := wrap16 (if DeviceKind.is_bit kind then Z.of_nat (length ((first :: c) ≫= piece_bits))
                          else foldr Z.add 0 (we_width <$> first :: c));
     wp_data := if DeviceKind.is_bit kind then pack_bits ((first :: c) ≫= piece_bits)
                else (first :: c) ≫= we_data;
     wp_item_ids := we_id <$> first :: c |}.

Lemma flush_write_plan kind first c : flush_write (first :: c) kind = [chunk_plan kind first c].
Proof. unfold flush_write, chunk_plan. by destruct (DeviceKind.is_bit kind). Qed.

Lemma chunk_plan_points kind first c :
  Forall (λ e, entry_ok (kind, e)) (first :: c) →
  wp_points (chunk_plan kind first c) = wrap16 (Z.of_nat (length ((first :: c) ≫= entry_cells kind))).
Proof.
  intros He. unfold chunk_plan. cbn [wp_points]. f_equal. destruct (DeviceKind.is_bit kind) eqn:Hk.
  - by rewrite <- (bits_of_chunk _ _ Hk), length_fmap.
  - by destruct (words_of_chunk _ _ Hk He) as (_ & _ & ->).
Qed.

Lemma handle_command_write b timer kind first c :
  healthy b → write_chunk 960 kind (first :: c) →
  let p := chunk_plan kind first c in
  ∃ b', healthy b' ∧ mb_cells b' = foldl (λ v e, store_entry v (kind, e)) (mb_cells b) (first :: c) ∧
    handle_command b (area_of timer (write_command_of kind) kind (wp_start_number p) (wp_points p) (wp_data p)) =
      (b', Some (to_le_bytes 2 0 ++ [])).
Proof.
  intros Hb Hc p. pose proof (write_chunk_points _ _ _ _ Hc) as Hpts.
  destruct Hc as [_ Hch He]. pose proof (Forall_inv He) as [Hst _ _ _]. cbn [fst snd] in Hst.
  unfold p. rewrite (chunk_plan_points _ _ _ He), wrap_small by (unfold in_u; lia). clear p.
  change (wp_start_number (chunk_plan kind first c)) with (we_start first).
  set (pts := Z.of_nat (length ((first :: c) ≫= entry_cells kind))) in *.
  set (data := wp_data (chunk_plan kind first c)).
  assert (in_u 16 (write_command_of kind)) as Hcmd by (by destruct kind).
  assert (in_u 16 pts) as Hpu by (unfold in_u; lia).
  destruct (area_fields timer _ kind (we_start first) pts data Hcmd Hst Hpu) as (H1 & H2 & H3 & H4 & H5).
  unfold handle_command. set (area := area_of _ _ _ _ _ _) in *.
  rewrite H1, H2, H3, H4, H5. change (length area <? 12)%nat with false. rewrite (hb_force _ Hb), (hb_denied _ Hb).
  rewrite bool_decide_eq_false_2 by set_solver. cbv iota zeta.
  assert (write_command_of kind = if DeviceKind.is_bit kind then CMD_WRITE_BIT else CMD_WRITE_WORD) as ->
    by (by destruct kind).
  rewrite <- (mc_store_chain kind c first) by done. unfold data, chunk_plan. cbn [wp_data].
  destruct (DeviceKind.is_bit kind) eqn:Hk; cbn [orb Z.eqb Pos.eqb CMD_READ_WORD CMD_READ_BIT CMD_WRITE_WORD CMD_WRITE_BIT].
  - assert (Z.to_nat pts = length ((first :: c) ≫= piece_bits)) as ->.
    { unfold pts. by rewrite <- (bits_of_chunk _ _ Hk), length_fmap, Nat2Z.id. }
    rewrite <- (bits_of_chunk _ _ Hk), <- write_bits_store.
    eexists. split_and!; [| |reflexivity]; [by apply healthy_update|done].
  - destruct (words_of_chunk _ _ Hk He) as (Hw1 & Hw2 & _).
    rewrite write_words_store by (unfold pts; rewrite Nat2Z.id; exact Hw2). rewrite Hw1.
    eexists. split_and!; [| |reflexivity]; [by apply healthy_update|done].
Qed.

Lemma chunk_plan_data kind first c :
  write_chunk 960 kind (first :: c) → Z.of_nat (length (wp_data (chunk_plan kind first c))) < 60000.
Proof.
  intros Hc. pose proof (write_chunk_points _ _ _ _ Hc) as Hpts. destruct Hc as [_ Hch He].
  unfold chunk_plan. cbn [wp_data]. destruct (DeviceKind.is_bit kind) eqn:Hk.
  - rewrite <- (bits_of_chunk _ _ Hk), length_fmap in Hpts. rewrite mc_length_pack_bits, div_ceil_spec by lia. dlia.
  - destruct (words_of_chunk _ _ Hk He) as (_ & -> & _). lia.
Qed.

Lemma mc_execute_write_plan_served config v s kind first c :
  serving config v s → config_wf config → write_chunk 960 kind (first :: c) →
  ∃ s', serving config (foldl (λ v e, store_entry v (kind, e)) v (first :: c)) s' ∧
    execute_write_plan (chunk_plan kind first c) s = (s', Ok {| pr_end_code := 0; pr_data := [] |}).
Proof.
  intros Hs Hwf Hc.
  apply (plan_response_served config v _ s (write_command_of kind) kind _ _ (wp_data (chunk_plan kind first c)) []);
    try done.
  - apply (Forall_inv (wc_entries _ _ _ Hc)).
  - apply wrap_range. lia.
  - by destruct kind.
  - by apply chunk_plan_data.
  - by destruct kind.
  - intros b timer Hb <-. by apply handle_command_write.
Qed.

(** ** All plans of a batch *)
Lemma write_chunk_weaken limit kind c : limit ≤ 960 → write_chunk limit kind c → write_chunk 960 kind c.
Proof.
  intros Hl [[Hne Hok] Hch He]. split; [|done..]. split; [done|]. intros k e Hk. specialize (Hok k e Hk).
  destruct (take k c); [done|]. cbn [write_overflows] in *. lia.
Qed.

Lemma write_chunks_served config v s kind chunks acc :
  serving config v s → config_wf config → Forall (write_chunk 960 kind) chunks →
  ∃ s', serving config (foldl store_entry v (pair kind <$> concat chunks)) s' ∧
    ∀ rest, write_plans ((chunks ≫= λ c, flush_write c kind) ++ rest) acc s =
      write_plans rest (acc ++ (write_ok_result ∘ we_id <$> concat chunks)) s'.
Proof.
  intros Hs Hwf Hc. revert v s acc Hs. induction Hc as [|c chunks Hc _ IH]; intros v s acc Hs.
  { exists s. split; [done|]. intros rest. by rewrite app_nil_r. }
  destruct c as [|first c]; [by destruct (wc_ok _ _ _ Hc)|].
  destruct (mc_execute_write_plan_served _ _ _ _ _ _ Hs Hwf Hc) as (s1 & Hs1 & Hrun).
  destruct (IH _ _ (acc ++ (write_ok_result ∘ we_id <$> first :: c)) Hs1) as (s2 & Hs2 & Hrest).
  exists s2. rewrite concat_cons, !fmap_app, foldl_app. split.
  - rewrite !foldl_fmap. by rewrite foldl_fmap in Hs2.
  - intros rest. rewrite bind_cons, flush_write_plan, app_assoc, <- Hrest. cbn [write_plans app].
    rewrite (sbind_Ok _ _ _ _ _ Hrun). cbn [pr_end_code Z.eqb negb]. f_equal. f_equal.
    change (wp_item_ids (chunk_plan kind first c)) with (we_id <$> first :: c). by rewrite <- list_fmap_compose.
Qed.

Lemma mc_write_groups_served config v s (groups : list (DeviceKind.t * list WriteEntry)) words bits acc :
  serving config v s → config_wf config → Forall entry_ok (btree_pairs groups) → words ≤ 960 → bits ≤ 720 →
  ∃ s' order, order ≡ₚ btree_pairs groups ∧ serving config (foldl store_entry v order) s' ∧
    write_plans (groups ≫= plan_write_group words bits) acc s =
      (s', Ok (acc ++ ((λ ke, write_ok_result (we_id ke.2)) <$> order))).
Proof.
  intros Hs Hwf He Hw Hb. revert v s acc Hs. induction groups as [|[kind entries] groups IH]; intros v s acc Hs.
  { exists s, []. split_and!; [done|done|]. by rewrite app_nil_r. }
  unfold btree_pairs in *. rewrite bind_cons in *. cbn [fst snd] in *. apply Forall_app in He as [He Hes].
  rewrite Forall_fmap in He.
  destruct (mc_plan_write_group_chunks words bits kind entries He) as (chunks & Hcat & Hchunks & Hplans).
  assert (Forall (write_chunk 960 kind) chunks) as Hch.
  { eapply Forall_impl; [exact Hchunks|]. intros c. apply write_chunk_weaken. unfold unit_limit. case_if; lia. }
  destruct (write_chunks_served config v s kind chunks acc Hs Hwf Hch) as (s1 & Hs1 & Hrest).
  rewrite Hcat in *. destruct (IH Hes _ _ (acc ++ (write_ok_result ∘ we_id <$> sort_by_key we_start entries)) Hs1)
    as (s2 & order & Hord & Hs2 & Hrun).
  exists s2, ((pair kind <$> sort_by_key we_start entries) ++ order). split_and!.
  - rewrite Hord. by rewrite (fmap_Permutation (pair kind) _ _ (sort_by_key_perm we_start entries)).
  - by rewrite foldl_app.
  - rewrite bind_cons, Hplans, Hrest, Hrun, fmap_app, app_assoc, <- list_fmap_compose. done.
Qed.

Lemma mc_entry_or_failure item :
  is_Some (write_entry item) ∨ is_Some (write_failure item) →
  (∃ ke, write_entry item = Some ke ∧ write_failure item = None ∧ we_id ke.2 = wq_id item) ∨
  (∃ e, write_entry item = None ∧ write_failure item = Some e).
Proof.
  unfold write_entry, write_failure.
  destruct (parse (wq_address item)) as [a| |]; [|by intros [[]|[]]..].
  destruct (negb (DeviceKind.writable (da_kind a))); [by right; eexists|].
  destruct (encode_write (da_kind a) (wq_value item)) as [enc|e|]; [by left; eexists|by right; eexists|by intros [[]|[]]].
Qed.

Abbreviation plan_writes config items :=
  (plan_write_batch items (mc_max_word_points_per_access config) (mc_max_bit_points_per_access config)).

Lemma mc_write_batch_run config v s items plans failed :
  serving config v s → config_wf config → plan_writes config items = Ok (plans, failed) →
  ∃ s' rs order, write_batch items s = (s', Ok rs) ∧ rs ≡ₚ write_result <$> items ∧
    order ≡ₚ omap write_entry items ∧ serving config (foldl store_entry v order) s'.
Proof.
  intros Hs Hwf Hplans. pose proof Hplans as Hpl.
  apply outcome_bind_Ok_inv in Hpl as ((groups & failed') & Hg & [= <- <-]).
  destruct (mc_group_writes_spec _ _ _ _ _ Hg) as (Hpairs & Hfail & Hall). cbn [btree_pairs mbind list_bind app] in Hpairs.
  destruct (mc_write_groups_served config v s groups (mc_max_word_points_per_access config)
    (mc_max_bit_points_per_access config) ((λ '(id, e), write_error_result id e) <$> failed') Hs)
    as (s' & order & Hord & Hs' & Hrun); try (done || apply Hwf).
  { rewrite Hpairs. apply Forall_forall. intros ke (item & _ & Hk)%list_elem_of_omap. by eapply mc_write_entry_ok. }
  eexists s', _, order. split_and!; [| |by rewrite Hord|done].
  - unfold write_batch. rewrite (sbind_Ok _ _ _ _ _ (mc_ensure_connected_served _ _ _ Hs)). destruct s as [d l].
    rewrite (sbind_Ok _ _ _ (d, l) (d, l)) by done. pose proof (sv_config _ _ _ Hs) as Hc. cbn in Hc.
    cbn zeta. rewrite Hc. unfold slift at 1. unfold sbind at 1. rewrite Hplans. cbn iota beta.
    rewrite (sbind_Ok _ _ _ _ _ Hrun). reflexivity.
  - rewrite sort_by_key_perm, Hord, Hpairs, Hfail. clear -Hall. cbn [app].
    induction Hall as [|item items Hi _ IH]; [done|]. cbn [omap list_omap fmap list_fmap].
    unfold write_result at 1. rewrite <- IH. clear IH.
    destruct (mc_entry_or_failure item Hi) as [(ke & -> & -> & Hid)|(e & -> & ->)]; [|done].
    cbn. by rewrite Hid, <- Permutation_middle.
Qed.

(** An MC batch write does what it reports and nothing else.  On a healthy
    controller every request is reported once, as done or with the reason it was
    refused (a read-only device, a value its kind does not take); of the memory
    of the controller, the devices that accepted requests cover hold what was
    requested last, and every other device keeps its value. *)
Theorem mc_write_stores config v s items plans failed :
  serving config v s → config_wf config → plan_writes config items = Ok (plans, failed) →
  ∃ s' rs order, write_batch items s = (s', Ok rs) ∧ rs ≡ₚ write_result <$> items ∧
    order ≡ₚ omap write_entry items ∧ serving config (foldl store_entry v order) s' ∧
    ∀ code n,
      Forall (λ ke, DeviceKind.code ke.1 = code → ¬ we_start ke.2 ≤ n < we_start ke.2 + we_width ke.2)
        (omap write_entry items) →
      cell (foldl store_entry v order) code n = cell v code n.
Proof.
  intros Hs Hwf Hplans. destruct (mc_write_batch_run _ _ _ _ _ _ Hs Hwf Hplans) as (s' & rs & order & Hrun & Hrs & Hord & Hs').
  exists s', rs, order. split_and!; [done..|]. intros code n Hout. apply foldl_store_outside.
  - rewrite Hord. apply Forall_forall. intros k (y & _ & Hk)%list_elem_of_omap. by eapply mc_write_entry_ok.
  - by rewrite Hord.
Qed.

(** ** Reading back *)
Definition readback (item : WriteRequest) : DriverReadItem :=
  {| ri_id := wq_id item; ri_address := wq_address item;
     ri_expected_type :=
       match parse (wq_address item) with
       | Ok a => match encode_write (da_kind a) (wq_value item) with
                 | Ok enc => read_type (wq_value item) enc
                 | _ => None
                 end
       | _ => None
       end |}.

(** A request the planner accepts, with a value its type can hold. *)
Definition storable (item : WriteRequest) : Prop :=
  is_Some (write_entry item) ∧ RawValue.wf (wq_value item).

Lemma mc_write_entry_inv item ke :
  write_entry item = Some ke →
  ∃ a enc, parse (wq_address item) = Ok a ∧ DeviceKind.writable (da_kind a) = true ∧
    encode_write (da_kind a) (wq_value item) = Ok enc ∧
    ke = (da_kind a, {| we_start := da_number a; we_width := ew_points enc; we_id := wq_id item;
                        we_data := ew_data enc |}).
Proof.
  unfold write_entry. destruct (parse (wq_address item)) as [a| |]; [|done..].
  destruct (DeviceKind.writable (da_kind a)) eqn:Ew; [|done]. cbn [negb].
  destruct (encode_write (da_kind a) (wq_value item)) as [enc| |] eqn:Ee; [|done..].
  intros [= <-]. by exists a, enc.
Qed.

Lemma words_bytes_of n data :
  length data = (n * 2)%nat → bytes_ok data → words_bytes (words_of data) = data.
Proof.
  revert data. induction n as [|n IH]; intros data Hl Hb; [by destruct data|].
  destruct data as [|lo [|hi data]]; [done..|]. apply Forall_cons in Hb as [Hlo Hb]. apply Forall_cons in Hb as [Hhi Hb].
  unfold words_bytes. cbn [words_of]. rewrite bind_cons. fold (words_bytes (words_of data)).
  rewrite IH by (try done; cbn in Hl; lia).
  assert (to_le_bytes (length [lo; hi]) (from_le_bytes [lo; hi]) = [lo; hi]) as Hw
    by (apply to_from_le_bytes; constructor; [done|constructor; [done|constructor]]).
  change (length [lo; hi]) with 2%nat in Hw. by rewrite Hw.
Qed.

Lemma layout_of_encoded kind v enc :
  DeviceKind.is_bit kind = false → encode_write kind v = Ok enc →
  Z.of_nat (layout_points (read_type v enc)) = ew_points enc.
Proof.
  unfold encode_write. intros ->. destruct v as [|v|v|v| | | |]; try done; (case_if; [|done]); intros [= <-].
  - unfold narrow_signed_i. by repeat case_decide.
  - unfold narrow_unsigned_u. by destruct (v <=? 0xFFFF), (v <=? 0xFFFFFFFF).
  - unfold narrow_float. by destruct (_ && _).
Qed.

(** Where the payload of a request is, the request reads back. *)
Lemma mc_read_back_entry v item ke :
  write_entry item = Some ke → RawValue.wf (wq_value item) → covered v ke = entry_cells ke.1 ke.2 →
  read_alone v (readback item) = Some (read_result (wq_id item) (Ok (wq_value item))).
Proof.
  intros Hke Hwf Hcov. pose proof (mc_write_entry_ok _ _ Hke) as [_ _ Hbytes Hdata].
  destruct (mc_write_entry_inv _ _ Hke) as (a & enc & Ha & _ & He & ->). cbn [fst snd we_data we_width] in *.
  unfold read_alone, readback. cbn [ri_address ri_id ri_expected_type]. rewrite Ha, He. do 2 f_equal.
  unfold sampled. rewrite <- (mc_encode_decode _ _ _ Hwf He). f_equal. unfold payload_at.
  unfold covered, entry_cells in Hcov. cbn [fst snd we_start we_width we_data] in Hcov.
  destruct (DeviceKind.is_bit (da_kind a)) eqn:Hk.
  - destruct Hdata as [Hw [b Hb]]. rewrite Hw in Hcov. unfold piece_bits in Hcov. cbn [we_width we_data] in Hcov.
    rewrite ?Hw, Hb in Hcov. cbn in Hcov. injection Hcov as Hcell. rewrite Z.add_0_r in Hcell. rewrite Hcell, Hb.
    by destruct b.
  - rewrite <- (words_bytes_of (Z.to_nat (ew_points enc)) (ew_data enc)) by (done || lia). f_equal.
    rewrite <- Hcov. unfold cells_at. do 2 f_equal. pose proof (layout_of_encoded _ _ _ Hk He). lia.
Qed.

Lemma mc_plan_write_batch_total items words bits :
  Forall (λ i, is_Some (write_entry i)) items → ∃ plans failed, plan_write_batch items words bits = Ok (plans, failed).
Proof.
  intros H. unfold plan_write_batch.
  assert (∀ groups failed, ∃ r, group_writes items groups failed = Ok r) as Hg.
  { induction H as [|item items [ke Hke] _ IH]; intros groups failed; [by eexists|].
    destruct (mc_write_entry_inv _ _ Hke) as (a & enc & Ha & Hw & He & _).
    cbn [group_writes]. rewrite Ha. cbn [map_err outcome_bind]. rewrite Hw. cbn [negb]. rewrite He. apply IH. }
  destruct (Hg [] []) as [[groups failed] ->]. by eexists _, _.
Qed.

Lemma mc_encodable_no_failure item : is_Some (write_entry item) → write_failure item = None.
Proof.
  intros [ke Hke]. destruct (mc_write_entry_inv _ _ Hke) as (a & enc & Ha & Hw & He & _).
  unfold write_failure. by rewrite Ha, Hw, He.
Qed.

(** C26: What an MC batch write stored, a batch read returns.  On a healthy
    controller, writing requests to disjoint devices and reading the same
    addresses back under the width the values were written with (bits of one
    kind a multiple of eight apart) gives every request its own value, NaNs
    included, through planning, encoding, merging, bit packing, framing, the
    memory of the controller and decoding. *)
Theorem mc_write_then_read config v s items :
  serving config v s → config_wf config → Forall storable items →
  ForallOrdPairs apart (omap write_entry items) →
  (∀ x y, x ∈ readback <$> items → y ∈ readback <$> items → compatible x y) →
  ∃ s1 rs1 s2 rs2,
    write_batch items s = (s1, Ok rs1) ∧ rs1 ≡ₚ (λ i, write_ok_result (wq_id i)) <$> items ∧
    read_batch (readback <$> items) s1 = (s2, Ok rs2) ∧
    rs2 ≡ₚ (λ i, read_result (wq_id i) (Ok (wq_value i))) <$> items.
Proof.
  intros Hs Hwf Hst Hap Hcomp.
  destruct (mc_plan_write_batch_total items (mc_max_word_points_per_access config)
    (mc_max_bit_points_per_access config)) as (plans & failed & Hplans).
  { eapply Forall_impl; [exact Hst|]. by intros i []. }
  destruct (mc_write_batch_run config v s items plans failed Hs Hwf Hplans) as (s1 & rs1 & order & Hw & Hrs & Hord & Hs1).
  assert (∃ rplans, plan_reads config (readback <$> items) = Ok rplans) as [rplans Hrplans].
  { unfold plan_read_batch. destruct (read_entries_total (readback <$> items)) as [entries ->]; [|by eexists].
    apply Forall_fmap. eapply Forall_impl; [exact Hst|]. intros i [[ke Hke] _].
    destruct (mc_write_entry_inv _ _ Hke) as (a & _ & Ha & _). by exists a. }
  destruct (mc_read_batch_served _ _ _ _ _ Hs1 Hwf Hrplans) as (s2 & _ & Hr).
  eexists s1, rs1, s2, _. split_and!; [exact Hw| |exact Hr|].
  - rewrite Hrs. erewrite list_fmap_ext; [reflexivity|]. intros i x Hx%list_elem_of_lookup_2.
    rewrite Forall_forall in Hst. destruct (Hst x Hx) as [Hsome _].
    unfold write_result. by rewrite (mc_encodable_no_failure _ Hsome).
  - apply Permutation_Some. rewrite sort_by_key_perm.
    rewrite (mc_plan_results_alone _ _ _ _ _ _ Hrplans (cw_words _ Hwf) (cw_bits _ Hwf) Hcomp).
    rewrite <- !list_fmap_compose. erewrite list_fmap_ext; [reflexivity|].
    intros i x Hx%list_elem_of_lookup_2. rewrite Forall_forall in Hst. destruct (Hst x Hx) as ([ke Hke] & Hv).
    unfold compose. eapply mc_read_back_entry; try done. apply mc_foldl_store_covered.
    + rewrite Hord. apply Forall_forall. intros k (y & _ & Hk)%list_elem_of_omap. by eapply mc_write_entry_ok.
    + eapply ForallOrdPairs_perm; [apply mc_apart_sym|symmetry; exact Hord|done].
    + rewrite Hord. apply list_elem_of_omap. by exists x.
Qed.
