(* ===== verification/McExamples.v ===== *)
(** * Concrete runs of the MC driver

    A driver connected to the simulated controller, and for every theorem with
    hypotheses an input on which they hold, checked by evaluation. *)

From S2P Require Import Prelude RustStd ObservationModel DriverAbi McCodec.
From S2P Require Import McBatch McDriver McLoopback McEndToEnd McWriteEndToEnd.
From stdpp Require Import options.

(** ** A connected driver *)
Definition mc_config : McConfig :=
  {| mc_mode := lit "tcp"; mc_host := lit "10.0.0.2"; mc_port := 6006; mc_timeout_ms := 3000; mc_reconnect := true;
     mc_reconnect_max_attempts := 3; mc_reconnect_delay_ms := 1000; mc_network_no := 0; mc_pc_no := 0;
     mc_module_io := 0x03FF; mc_module_station := 0; mc_monitoring_timer := 2000;
     mc_max_word_points_per_access := 960; mc_max_bit_points_per_access := 720; mc_max_merge_gap_points := 8 |}.

Lemma mc_config_wf : config_wf mc_config.
Proof. by repeat split. Qed.

(** D200 to D203 and M100 hold values, M101 does not. *)
Definition mc_memory : cells :=
  store_cells 0xA8 200 [0x1234; 0x5678; 0x0000; 0x4000] (store_cells 0x90 100 [1; 0] ∅).

Definition mc_device (v : cells) : Line :=
  {| ln_conn := conn_new (update v 0 [] [] behavior_new); ln_inbox := []; ln_outbox := []; ln_open := false |}.

Definition mc_driver : MitsubishiMcDriver () :=
  {| md_config := mc_config; md_session := Some (session_new mc_config); md_last_error := None |}.

Definition mc_state : MitsubishiMcDriver () * Line := (ensure_connected (mc_driver, mc_device mc_memory)).1.

Lemma mc_connects : (ensure_connected (mc_driver, mc_device mc_memory)).2 = Ok ().
Proof. reflexivity. Qed.

Lemma mc_example_serving : serving mc_config mc_memory mc_state.
Proof. split; [done| |done|by split|done]. eexists. split_and!; reflexivity. Qed.

Definition mc_read_item (id : Z) (address : string) (ty : option DataType.t) : DriverReadItem :=
  {| ri_id := id; ri_address := lit address; ri_expected_type := ty |}.

Definition mc_write_item (id : Z) (address : string) (v : RawValue.t) : WriteRequest :=
  {| wq_id := id; wq_address := lit address; wq_value := v |}.

(** ** Reads *)
Definition mc_reads : list DriverReadItem :=
  [mc_read_item 1 "D200" None; mc_read_item 2 "D202" (Some DataType.F32); mc_read_item 3 "M100" None;
   mc_read_item 4 "M108" None].

Lemma mc_reads_compatible x y : x ∈ mc_reads → y ∈ mc_reads → compatible x y.
Proof.
  intros Hx Hy a b Ha Hb. unfold mc_reads in Hx, Hy.
  repeat (apply elem_of_cons in Hx as [->|Hx]); [..|by apply elem_of_nil in Hx];
    vm_compute in Ha; injection Ha as <-;
    repeat (apply elem_of_cons in Hy as [->|Hy]); try (by apply elem_of_nil in Hy);
    vm_compute in Hb; injection Hb as <-; by vm_compute.
Qed.

Lemma mc_read_transparent_witness :
  ∃ s' rs, read_batch mc_reads mc_state = (s', Ok rs) ∧ serving mc_config mc_memory s' ∧
    Some <$> rs ≡ₚ read_alone mc_memory <$> mc_reads.
Proof.
  eapply (mc_read_transparent mc_config mc_memory mc_state mc_reads _ mc_example_serving mc_config_wf).
  - vm_compute. reflexivity.
  - apply mc_reads_compatible.
Defined.

Lemma mc_read_plans_fit_witness :
  0 ≤ 200 ≤ MAX_NUMBER ∧ 1 ≤ 4 ≤ Z.max 960 4 ∧ (2 ≤ MAX_ITEMS_PER_PLAN)%nat.
Proof.
  apply (mc_read_plans_fit [mc_read_item 1 "D200" None; mc_read_item 2 "D202" (Some DataType.F32)] 960 720 8
    (flush_read
       [read_entry (mc_read_item 1 "D200" None) {| da_kind := DeviceKind.D; da_number := 200 |};
        read_entry (mc_read_item 2 "D202" (Some DataType.F32)) {| da_kind := DeviceKind.D; da_number := 202 |}])
    {| rp_kind := DeviceKind.D; rp_start_number := 200; rp_points := 4;
       rp_items :=
         [({| pi_item_id := 1; pi_expected := None; pi_offset_in_points := 0 |}, 200);
          ({| pi_item_id := 2; pi_expected := Some DataType.F32; pi_offset_in_points := 2 |}, 202)] |});
    [by vm_compute|by left|lia|lia].
Defined.

(** M101 is off, and reported on. *)
Lemma mc_bits_misread_witness :
  ∃ s', read_batch [mc_read_item 1 "M100" None; mc_read_item 2 "M101" None] mc_state =
    (s', Ok [read_result 1 (Ok (RawValue.Bool true)); read_result 2 (Ok (RawValue.Bool true))]).
Proof.
  apply (mc_bits_misread mc_config mc_memory mc_state (mc_read_item 1 "M100" None) (mc_read_item 2 "M101" None)
    {| da_kind := DeviceKind.M; da_number := 100 |} {| da_kind := DeviceKind.M; da_number := 101 |}
    mc_example_serving mc_config_wf); try reflexivity; cbn; lia.
Defined.

(** ** Writes *)
Definition mc_writes : list WriteRequest :=
  [mc_write_item 1 "D10" (RawValue.I64 (-5)); mc_write_item 2 "D11" (RawValue.U64 70000);
   mc_write_item 3 "Y0" (RawValue.Bool true); mc_write_item 4 "ZR5" (RawValue.F64 0x3FF8000000000000)].

Lemma mc_writes_storable : Forall storable mc_writes.
Proof.
  unfold mc_writes. repeat (apply Forall_cons; split); try apply Forall_nil_2;
    (split; [eexists; vm_compute; reflexivity|by vm_compute]).
Qed.

Lemma mc_writes_apart : ForallOrdPairs apart (omap write_entry mc_writes).
Proof.
  assert (omap write_entry mc_writes =
    [(DeviceKind.D, {| we_start := 10; we_width := 1; we_id := 1; we_data := to_le_bytes 2 (-5) |});
     (DeviceKind.D, {| we_start := 11; we_width := 2; we_id := 2; we_data := to_le_bytes 4 70000 |});
     (DeviceKind.Y, {| we_start := 0; we_width := 1; we_id := 3; we_data := [1] |});
     (DeviceKind.Zr, {| we_start := 5; we_width := 2; we_id := 4; we_data := [0; 0; 192; 63] |})]) as ->
    by (vm_compute; reflexivity).
  repeat (constructor; [repeat (apply Forall_cons; split); try apply Forall_nil_2; unfold apart; cbn;
    first [by left|right; lia]|]). constructor.
Qed.

Lemma mc_writes_compatible x y :
  x ∈ readback <$> mc_writes → y ∈ readback <$> mc_writes → compatible x y.
Proof.
  intros (i & -> & Hi)%list_elem_of_fmap (j & -> & Hj)%list_elem_of_fmap a b Ha Hb. unfold mc_writes in Hi, Hj.
  repeat (apply elem_of_cons in Hi as [->|Hi]); [..|by apply elem_of_nil in Hi];
    vm_compute in Ha; injection Ha as <-;
    repeat (apply elem_of_cons in Hj as [->|Hj]); try (by apply elem_of_nil in Hj);
    vm_compute in Hb; injection Hb as <-; by vm_compute.
Qed.

Lemma mc_write_then_read_witness :
  ∃ s1 rs1 s2 rs2,
    write_batch mc_writes mc_state = (s1, Ok rs1) ∧ rs1 ≡ₚ (λ i, write_ok_result (wq_id i)) <$> mc_writes ∧
    read_batch (readback <$> mc_writes) s1 = (s2, Ok rs2) ∧
    rs2 ≡ₚ (λ i, read_result (wq_id i) (Ok (wq_value i))) <$> mc_writes.
Proof.
  exact (mc_write_then_read mc_config mc_memory mc_state mc_writes mc_example_serving mc_config_wf
    mc_writes_storable mc_writes_apart mc_writes_compatible).
Defined.

Lemma mc_write_stores_witness :
  ∃ s' rs order, write_batch mc_writes mc_state = (s', Ok rs) ∧ rs ≡ₚ write_result <$> mc_writes ∧
    order ≡ₚ omap write_entry mc_writes ∧ serving mc_config (foldl store_entry mc_memory order) s' ∧
    ∀ code n,
      Forall (λ ke, DeviceKind.code ke.1 = code → ¬ we_start ke.2 ≤ n < we_start ke.2 + we_width ke.2)
        (omap write_entry mc_writes) →
      cell (foldl store_entry mc_memory order) code n = cell mc_memory code n.
Proof.
  eapply (mc_write_stores mc_config mc_memory mc_state mc_writes _ _ mc_example_serving mc_config_wf).
  vm_compute. reflexivity.
Defined.

(** A request for the neighbour is not needed to change it: 40000 is above the
    signed 16-bit range and takes two words. *)
Example wide_value_spills :
  outcome_map ew_points (encode_write DeviceKind.D (RawValue.I64 40000)) = Ok 2.
Proof. reflexivity. Qed.

(** SD registers are declared writable, and no value can be written to them. *)
Example sd_writable : DeviceKind.writable DeviceKind.Sd = true.
Proof. reflexivity. Qed.
Lemma sd_refuses_all v : encode_write DeviceKind.Sd v = Err McError.invalid_type.
Proof. by destruct v. Qed.

(** A response with a foreign subheader fails the batch, which is a transport
    error, and yet the session stays connected. *)
Definition desynced_device : Line :=
  {| ln_conn := conn_new {| mb_cells := mc_memory; mb_drop_connection := false; mb_timeout_rate := None;
       mb_wrong_subheader := true; mb_wrong_routing_echo := false; mb_declare_wrong_data_length := false;
       mb_force_end_code := None; mb_deny_writes_at := ∅; mb_deny_end_code := 0xC051; mb_request_count := 0;
       mb_captured_reads := []; mb_captured_writes := [] |};
     ln_inbox := []; ln_outbox := []; ln_open := false |}.

Example mc_desync_stays_connected :
  let r := read_batch [mc_read_item 1 "D200" None] (mc_driver, desynced_device) in
  r.2 = Err McError.unexpected_subheader ∧ is_connected <$> md_session r.1.1 = Some true.
Proof. split; reflexivity. Qed.
