(* ===== verification/EipAddress.v ===== *)
(** * EtherNet/IP tag paths: drivers/ethernet-ip/src/address.rs

    The syntax check of symbolic tag paths, a loop over the characters with
    buffers for the segment and the index it is in. *)

From S2P Require Import Prelude RustStd ObservationModel.
From stdpp Require Import options.

Record TagPath : Type := mkTagPath {
  tp_raw : str;
  tp_dims : nat;
}.

Inductive AddressError : Type := InvalidSyntax | OutOfRange.

Definition MAX_TOTAL_LEN : Z := 240.
Definition MAX_SEG_LEN : Z := 40.
Definition MAX_DIMS : nat := 3.
Definition MAX_INDICES_PER_DIM : nat := 3.

Definition is_ascii (s : str) : bool := forallb (λ c, c <? 128) s.

Definition is_ascii_alphabetic (c : Z) : bool := between 65 90 c || between 97 122 c.
Definition is_ascii_alphanumeric (c : Z) : bool := is_ascii_alphabetic c || between 48 57 c.

(** The characters the grammar names. *)
Definition dot : Z := 46.
Definition comma : Z := 44.
Definition open_bracket : Z := 91.
Definition close_bracket : Z := 93.
Definition underscore : Z := 95.

(** A segment of a path that is ASCII: its first byte is its first character. *)
Definition finish_seg (seg : str) : outcome AddressError () :=
  match seg with
  | [] => Err InvalidSyntax
  | first :: _ =>
      if MAX_SEG_LEN <? byte_len seg then Err OutOfRange
      else if negb (is_ascii_alphabetic first || (first =? underscore)) then Err InvalidSyntax
      else if negb (forallb (λ c, is_ascii_alphanumeric c || (c =? underscore)) seg) then Err InvalidSyntax
      else Ok ()
  end.

Definition parse_index (text : str) : outcome AddressError Z := ok_or (parse_uint 32 text) OutOfRange.

(** The variables of the loop. *)
Record PathState : Type := mkPathState {
  ps_dims : nat;
  ps_seg : str;
  ps_index : str;
  ps_in_bracket : bool;
  ps_indices_in_dim : nat;
  ps_after_index : bool;
}.

Definition path_start : PathState :=
  {| ps_dims := 0; ps_seg := []; ps_index := []; ps_in_bracket := false; ps_indices_in_dim := 0;
     ps_after_index := false |}.

(** The macro [close_segment!]. *)
Definition close_segment (st : PathState) : outcome AddressError PathState :=
  let? _ := if ps_after_index st then Ok () else finish_seg (ps_seg st) in
  Ok {| ps_dims := ps_dims st; ps_seg := []; ps_index := ps_index st; ps_in_bracket := ps_in_bracket st;
        ps_indices_in_dim := ps_indices_in_dim st; ps_after_index := false |}.

Definition path_step (st : PathState) (c : Z) : outcome AddressError PathState :=
  if (c =? dot) && negb (ps_in_bracket st) then close_segment st
  else if (c =? open_bracket) && negb (ps_in_bracket st) then
    if ps_after_index st then Err InvalidSyntax
    else
      let? st := close_segment st in
      let dims := S (ps_dims st) in
      if (MAX_DIMS <? dims)%nat then Err OutOfRange
      else Ok {| ps_dims := dims; ps_seg := ps_seg st; ps_index := ps_index st; ps_in_bracket := true;
                 ps_indices_in_dim := 0; ps_after_index := ps_after_index st |}
  else if (c =? close_bracket) && ps_in_bracket st then
    let? _ := parse_index (ps_index st) in
    Ok {| ps_dims := ps_dims st; ps_seg := ps_seg st; ps_index := []; ps_in_bracket := false;
          ps_indices_in_dim := ps_indices_in_dim st; ps_after_index := true |}
  else if (c =? comma) && ps_in_bracket st then
    let? _ := parse_index (ps_index st) in
    let indices := S (ps_indices_in_dim st) in
    if (MAX_INDICES_PER_DIM <=? indices)%nat then Err OutOfRange
    else Ok {| ps_dims := ps_dims st; ps_seg := ps_seg st; ps_index := []; ps_in_bracket := true;
               ps_indices_in_dim := indices; ps_after_index := ps_after_index st |}
  else if ps_in_bracket st then
    Ok {| ps_dims := ps_dims st; ps_seg := ps_seg st; ps_index := ps_index st ++ [c]; ps_in_bracket := true;
          ps_indices_in_dim := ps_indices_in_dim st; ps_after_index := ps_after_index st |}
  else
    Ok {| ps_dims := ps_dims st; ps_seg := ps_seg st ++ [c]; ps_index := ps_index st; ps_in_bracket := false;
          ps_indices_in_dim := ps_indices_in_dim st; ps_after_index := false |}.

Fixpoint path_loop (st : PathState) (raw : str) : outcome AddressError PathState :=
  match raw with
  | [] => Ok st
  | c :: raw' => let? st := path_step st c in path_loop st raw'
  end.

Definition parse (input : str) : outcome AddressError TagPath :=
  let raw := trim input in
  if bool_decide (raw = []) then Err InvalidSyntax
  else if MAX_TOTAL_LEN <? byte_len raw then Err OutOfRange
  else if negb (is_ascii raw) || existsb is_whitespace raw then Err InvalidSyntax
  else
    let? st := path_loop path_start raw in
    if ps_in_bracket st then Err InvalidSyntax
    else
      let? _ :=
        if negb (bool_decide (ps_seg st = [])) then finish_seg (ps_seg st)
        else if bool_decide (last raw = Some dot) then Err InvalidSyntax
        else if negb (ps_after_index st) && bool_decide (ps_seg st = []) && (ps_dims st =? 0)%nat
        then finish_seg (ps_seg st)
        else Ok () in
      Ok {| tp_raw := raw; tp_dims := ps_dims st |}.

(** ** Properties *)

(** The characters of a path that was accepted, as the wire carries them. *)
Definition tag_ok (tag : str) : Prop :=
  Forall (λ c, 0 ≤ c < 128 ∧ is_whitespace c = false) tag ∧ 0 < Z.of_nat (length tag) ≤ MAX_TOTAL_LEN.

Lemma utf8_encode_ascii s : Forall (λ c, 0 ≤ c < 128) s → utf8_encode s = s.
Proof.
  induction 1 as [|c s Hc _ IH]; [done|]. unfold utf8_encode in *. cbn [mbind list_bind]. rewrite IH.
  unfold utf8_encode_char. by replace (c <? 128) with true by lia.
Qed.

Lemma utf8_decode_ascii s : Forall (λ c, 0 ≤ c < 128) s → utf8_decode s = Some s.
Proof.
  intros H. rewrite <- (utf8_encode_ascii s) at 1 by done. apply utf8_decode_encode.
  eapply Forall_impl; [exact H|]. intros c Hc. cbn beta in Hc. unfold char_ok. lia.
Qed.

Lemma trim_start_idem s : trim_start (trim_start s) = trim_start s.
Proof. induction s as [|c s IH]; [done|]. cbn. destruct (is_whitespace c) eqn:E; [done|]. cbn. by rewrite E. Qed.

Definition path_char (c : Z) : Prop :=
  is_ascii_alphanumeric c = true ∨ c ∈ [underscore; dot; comma; open_bracket; close_bracket; 43].

Lemma path_char_ok c : path_char c → 0 ≤ c < 128 ∧ is_whitespace c = false.
Proof.
  unfold path_char, is_ascii_alphanumeric, is_ascii_alphabetic, between, is_whitespace.
  intros [H|H]; [split; [lia|]; repeat (apply orb_false_iff; split); lia|].
  repeat (apply elem_of_cons in H as [->|H]; [split; [unfold underscore, dot, comma, open_bracket, close_bracket; lia|reflexivity]|]).
  by apply elem_of_nil in H.
Qed.

Lemma finish_seg_chars seg u : finish_seg seg = Ok u → Forall path_char seg.
Proof.
  unfold finish_seg. destruct seg as [|first seg]; [done|]. case_if; [done|]. case_if; [done|].
  destruct (forallb _ (first :: seg)) eqn:E; [|done]. intros _. apply Is_true_eq_left, forallb_True in E.
  eapply Forall_impl; [exact E|]. intros c Hc%Is_true_eq_true. unfold path_char, underscore in *.
  apply orb_true_iff in Hc as [Hc|Hc]; [by left|right]. apply Z.eqb_eq in Hc as ->. apply list_elem_of_here.
Qed.

Lemma parse_digits_chars w acc s n : parse_digits w acc s = Some n → Forall path_char s.
Proof.
  revert acc. induction s as [|c s IH]; intros acc; [constructor|]. cbn [parse_digits]. cbn zeta.
  case_if; [|done]. case_if; [|done]. intros H1. constructor; [|by eapply IH].
  left. unfold is_ascii_alphanumeric, between. lia.
Qed.

Lemma parse_index_chars text n : parse_index text = Ok n → Forall path_char text.
Proof.
  unfold parse_index, parse_uint. destruct text as [|c [|c' text]]; [done| |]; cbv zeta iota.
  - destruct (parse_digits 32 0 [c]) eqn:E; [|discriminate]. intros _. by eapply parse_digits_chars.
  - destruct (c =? 43) eqn:Ec; cbv iota.
    + destruct (parse_digits 32 0 (c' :: text)) eqn:E; [|done]. intros _. constructor; [|by eapply parse_digits_chars].
      right. apply Z.eqb_eq in Ec as ->. set_solver.
    + destruct (parse_digits 32 0 (c :: c' :: text)) eqn:E; [|done]. intros _. by eapply parse_digits_chars.
Qed.

(** The buffers are only filled where the loop will check them. *)
Record path_inv (st : PathState) : Prop := {
  pv_after : ps_after_index st = true → ps_seg st = [];
  pv_outside : ps_in_bracket st = false → ps_index st = [];
  pv_inside : ps_in_bracket st = true → ps_seg st = [];
}.

Definition buffers_ok (st : PathState) : Prop := Forall path_char (ps_seg st) ∧ Forall path_char (ps_index st).

Lemma close_segment_back st st' :
  path_inv st → close_segment st = Ok st' →
  ps_seg st' = [] ∧ ps_index st' = ps_index st ∧ ps_in_bracket st' = ps_in_bracket st ∧
  ps_after_index st' = false ∧ Forall path_char (ps_seg st).
Proof.
  intros [Ha _ _]. unfold close_segment. destruct (ps_after_index st) eqn:E.
  - intros [= <-]. cbn. rewrite Ha by done. done.
  - destruct (finish_seg (ps_seg st)) as [[]| |] eqn:Ef; try done. intros [= <-]. cbn.
    split_and!; try done. by eapply finish_seg_chars.
Qed.

Lemma path_step_back st c st' :
  path_inv st → path_step st c = Ok st' →
  path_inv st' ∧ (buffers_ok st' → path_char c ∧ buffers_ok st).
Proof.
  intros Hinv. unfold path_step, buffers_ok. pose proof Hinv as [Ha Ho Hi].
  destruct (ps_in_bracket st) eqn:Eb; cbn [negb]; rewrite ?andb_false_r, ?andb_true_r.
  - rewrite Hi in * by done.
    case_if; [|case_if].
    + destruct (parse_index (ps_index st)) eqn:Ep; try done. intros [= <-]. cbn.
      split; [by constructor|]. intros _. assert (c = close_bracket) as -> by (by apply Z.eqb_eq).
      split; [right; set_solver|split; [constructor|by eapply parse_index_chars]].
    + destruct (parse_index (ps_index st)) eqn:Ep; try done. cbn [outcome_bind]. cbn zeta. case_if; [done|].
      intros [= <-]. cbn. split; [by constructor|]. intros _. assert (c = comma) as -> by (by apply Z.eqb_eq).
      split; [right; set_solver|split; [constructor|by eapply parse_index_chars]].
    + intros [= <-]. cbn. split; [by constructor|]. intros [_ Hx%Forall_app]. destruct Hx as [Hx Hc%Forall_inv].
      done.
  - rewrite Ho in * by done.
    case_if; [|case_if].
    + intros Hc%close_segment_back; [|done]. rewrite Eb, Ho in Hc by done. destruct Hc as (H1 & H2 & H3 & H4 & H5).
      split; [constructor; congruence|]. intros _. assert (c = dot) as -> by (by apply Z.eqb_eq).
      split; [right; set_solver|done].
    + case_if; [done|]. destruct (close_segment st) as [s1| |] eqn:Es; try done.
      apply close_segment_back in Es as (H1 & H2 & H3 & H4 & H5); [|done]. cbn [outcome_bind]. cbn zeta.
      case_if; [done|]. intros [= <-]. cbn. rewrite H1, H2. split; [by constructor|].
      intros _. assert (c = open_bracket) as -> by (by apply Z.eqb_eq). split; [right; set_solver|done].
    + intros [= <-]. cbn. split; [by constructor|].
      intros [Hx%Forall_app _]. destruct Hx as [Hx Hc%Forall_inv]. done.
Qed.

Lemma path_loop_back raw st st' :
  path_inv st → path_loop st raw = Ok st' →
  path_inv st' ∧ (buffers_ok st' → Forall path_char raw ∧ buffers_ok st).
Proof.
  revert st. induction raw as [|c raw IH]; intros st Hinv; cbn [path_loop].
  { intros [= <-]. split; [done|]. intros Hb. split; [constructor|done]. }
  destruct (path_step st c) as [s1| |] eqn:Es; try done. cbn [outcome_bind].
  destruct (path_step_back _ _ _ Hinv Es) as [Hinv1 Hb1]. intros Hl. destruct (IH s1 Hinv1 Hl) as [Hinv' Hb].
  split; [done|]. intros H. destruct (Hb H) as [Hraw Hs1]. destruct (Hb1 Hs1) as [Hc Hst].
  split; [by constructor|done].
Qed.

(** An accepted path is text the wire can carry. *)
Lemma eip_parse_tag_ok s p : parse s = Ok p → tag_ok (tp_raw p).
Proof.
  unfold parse. cbn zeta.
  destruct (bool_decide (trim s = [])) eqn:Hne; [done|]. destruct (MAX_TOTAL_LEN <? byte_len (trim s)) eqn:Hlen; [done|].
  case_if; [done|].
  destruct (path_loop path_start (trim s)) as [st| |] eqn:El; try done. cbn [outcome_bind].
  destruct (path_loop_back _ path_start _ ltac:(done) El) as [[_ Ho _] Hb]. destruct (ps_in_bracket st) eqn:Hin; [done|].
  intros H. assert (Forall path_char (trim s)) as Hc.
  { apply Hb. unfold buffers_ok. rewrite Ho by done. split; [|constructor]. revert H. destruct (ps_seg st) as [|c seg] eqn:E; [constructor|].
    rewrite bool_decide_eq_false_2 by done. cbn [negb].
    destruct (finish_seg (c :: seg)) as [[]| |] eqn:Ef; try done. intros _. by eapply finish_seg_chars. }
  assert (tp_raw p = trim s) as ->.
  { revert H. destruct (if negb _ then _ else _) as [[]| |]; try done. by intros [= <-]. }
  split; [eapply Forall_impl; [exact Hc|apply path_char_ok]|].
  rewrite <- (utf8_encode_ascii (trim s)) by (eapply Forall_impl; [exact Hc|intros c Hc'; by apply path_char_ok]).
  fold (byte_len (trim s)). split; [|lia]. apply bool_decide_eq_false_1 in Hne.
  unfold byte_len. rewrite utf8_encode_ascii by (eapply Forall_impl; [exact Hc|intros c Hc'; by apply path_char_ok]).
  destruct (trim s); [done|]. cbn. lia.
Qed.

Lemma eip_parse_no_panic s : parse s ≠ Panic.
Proof.
  unfold parse. cbn zeta. case_if; [done|]. case_if; [done|]. case_if; [done|].
  assert (∀ seg, finish_seg seg ≠ Panic) as Hf by (intros []; cbn; [done|]; by repeat case_if).
  assert (∀ t, parse_index t ≠ Panic) as Hi by (intros t; unfold parse_index; by destruct (parse_uint 32 t)).
  assert (∀ st, close_segment st ≠ Panic) as Hc.
  { intros st. unfold close_segment. case_if; [done|]. specialize (Hf (ps_seg st)). by destruct (finish_seg _). }
  assert (∀ raw st, path_loop st raw ≠ Panic) as Hl.
  { induction raw as [|c raw IH]; intros st; cbn [path_loop]; [done|]. apply outcome_bind_no_panic; [|auto].
    unfold path_step. repeat case_if; try done; try apply Hc; (apply outcome_bind_no_panic; [apply Hi || apply Hc|]);
      intros; cbn zeta; by repeat case_if. }
  apply outcome_bind_no_panic; [apply Hl|]. intros st _. case_if; [done|].
  apply outcome_bind_no_panic; [|done]. by repeat case_if.
Qed.

(** Parsing keeps the case of a tag and is idempotent on what it accepts. *)
Lemma eip_parse_idem s p : parse s = Ok p → parse (tp_raw p) = Ok p.
Proof.
  intros H. pose proof (eip_parse_tag_ok _ _ H) as [Hc _].
  assert (tp_raw p = trim s) as Hp.
  { revert H. unfold parse. cbn zeta. case_if; [done|]. case_if; [done|]. case_if; [done|].
    destruct (path_loop path_start (trim s)) as [st| |]; try done. cbn [outcome_bind].
    destruct (ps_in_bracket st); [done|]. destruct (if negb _ then _ else _) as [[]| |]; try done. by intros [= <-]. }
  rewrite Hp in *. revert H. unfold parse. rewrite (trim_no_ws (trim s)); [done|].
  eapply Forall_impl; [exact Hc|]. intros c Hw. exact (proj2 Hw).
Qed.

(** ** The unit tests of the source *)
Example eip_valid_paths :
  outcome_ok (parse (lit "Motor.Starter[2].Speed")) = Some {| tp_raw := lit "Motor.Starter[2].Speed"; tp_dims := 1 |} ∧
  outcome_ok (parse (lit "  Line1.Value  ")) = Some {| tp_raw := lit "Line1.Value"; tp_dims := 0 |} ∧
  outcome_ok (parse (lit "Cube[1,2,3]")) = Some {| tp_raw := lit "Cube[1,2,3]"; tp_dims := 1 |}.
Proof. by vm_compute. Qed.

Example eip_invalid_paths :
  Forall (λ s, outcome_ok (parse (lit s)) = None)
    [""; "   "; "[0]"; "a..b"; "a."; ".a"; "a[]"; "a["; "a[-1]"; "a[99999999999]"; "a[1,2,3,4]"; "a b"; "9Start";
     "a[1][2]"; "a[[1]]"; "a[1,]b"]%string.
Proof. by repeat constructor. Qed.

(** A segment that follows an index without a dot is accepted, and an index may
    carry a sign. *)
Example eip_lenient_paths :
  is_Some (outcome_ok (parse (lit "a[0]b"))) ∧ is_Some (outcome_ok (parse (lit "a[+1]"))).
Proof. split; by eexists. Qed.
