(* ===== verification/EipFrame.v ===== *)
(** * EtherNet/IP encapsulation and CIP messages:
    drivers/ethernet-ip/src/{error,enip,cip}.rs

    The error classes, the encapsulation header and the SendRRData body, the
    Read Tag and Write Tag services and the Multi-Service packet, with the laws
    that relate what one side builds to what the other parses. *)

From S2P Require Import Prelude RustStd ObservationModel EipAddress.
From stdpp Require Import options.

(** ** Errors (error.rs) *)
Module EtherIpError.
Record t : Type := mk {
  code : string;
  protocol_code : option Z;
  retryable : bool;
}.

Definition new (code : string) (retryable : bool) : t :=
  {| code := code; protocol_code := None; retryable := retryable |}.

Definition connection_failed : t := new "connection_failed" true.
Definition connection_lost : t := new "connection_lost" true.
Definition timeout : t := new "timeout" true.
Definition invalid_response : t := new "invalid_response" false.
Definition unexpected_command_code : t := new "unexpected_command_code" false.
Definition enip_error_response (status : Z) : t :=
  {| code := "enip_error_response"; protocol_code := Some status; retryable := false |}.
Definition cip_item_error (status : Z) : t :=
  {| code := "cip_item_error"; protocol_code := Some status; retryable := false |}.
Definition access_denied (status : Z) : t :=
  {| code := "access_denied"; protocol_code := Some status; retryable := false |}.
Definition invalid_address : t := new "invalid_address" false.
Definition config_error : t := new "config_error" false.
Definition decode_error : t := new "decode_error" false.
Definition invalid_type : t := new "invalid_type" false.
Definition driver_panic : t := new "DRIVER_PANIC" false.
Definition unsupported : t := new "unsupported" false.

Definition into_info (e : t) : DriverErrorInfo :=
  {| dei_code := code e; dei_protocol_code := protocol_code e; dei_retryable := retryable e |}.

Definition is_transport_level (e : t) : bool :=
  bool_decide (code e = "connection_lost"%string ∨ code e = "connection_failed"%string
               ∨ code e = "timeout"%string ∨ code e = "invalid_response"%string
               ∨ code e = "unexpected_command_code"%string ∨ code e = "enip_error_response"%string).
End EtherIpError.

(** ** The encapsulation layer (enip.rs) *)
Definition CMD_REGISTER_SESSION : Z := 0x0065.
Definition CMD_UNREGISTER_SESSION : Z := 0x0066.
Definition CMD_SEND_RR_DATA : Z := 0x00F0.
Definition HEADER_LEN : nat := 24.

Definition build_header (command body_len session status : Z) (context : list Z) : list Z :=
  to_le_bytes 2 command ++ to_le_bytes 2 (wrap16 body_len) ++ to_le_bytes 4 session ++ to_le_bytes 4 status
    ++ context ++ [0; 0; 0; 0].

Definition build_register_session (context : list Z) : list Z :=
  let body := [0x01; 0x00; 0x00; 0x00] in
  build_header CMD_REGISTER_SESSION (Z.of_nat (length body)) 0 0 context ++ body.

Definition build_unregister_session (session : Z) (context : list Z) : list Z :=
  build_header CMD_UNREGISTER_SESSION 0 session 0 context.

(** The fields of a header: command, length of the body, session, status and
    sender context. *)
Record Header : Type := mkHeader {
  hd_command : Z;
  hd_body_len : Z;
  hd_session : Z;
  hd_status : Z;
  hd_context : list Z;
}.

Definition parse_header (frame : list Z) : outcome EtherIpError.t Header :=
  if (length frame <? HEADER_LEN)%nat then Err EtherIpError.invalid_response
  else
    let options := from_le_bytes (slice 20 24 frame) in
    if negb (options =? 0) then Err EtherIpError.invalid_response
    else Ok {| hd_command := from_le_bytes (slice 0 2 frame); hd_body_len := from_le_bytes (slice 2 4 frame);
               hd_session := from_le_bytes (slice 4 8 frame); hd_status := from_le_bytes (slice 8 12 frame);
               hd_context := slice 12 20 frame |}.

Definition parse_register_session_reply (body : list Z) : outcome EtherIpError.t Z :=
  if (length body <? 8)%nat then Err EtherIpError.invalid_response
  else
    let version := from_le_bytes (slice 0 2 body) in
    if negb (version =? 1) then Err EtherIpError.invalid_response
    else Ok (from_le_bytes (slice 4 8 body)).

Definition wrap_rr_data (cip : list Z) : list Z :=
  to_le_bytes 4 0 ++ to_le_bytes 2 0 ++ to_le_bytes 2 2 ++ to_le_bytes 2 0x0000 ++ to_le_bytes 2 0
    ++ to_le_bytes 2 0x00B1 ++ to_le_bytes 2 (wrap16 (Z.of_nat (length cip))) ++ cip.

Definition unwrap_rr_data (body : list Z) : outcome EtherIpError.t (list Z) :=
  if (length body <? 12)%nat then Err EtherIpError.invalid_response
  else
    let item_count := from_le_bytes (slice 6 8 body) in
    if negb (item_count =? 2) then Err EtherIpError.invalid_response
    else
      let addr_type := from_le_bytes (slice 8 10 body) in
      let addr_len := from_le_bytes (slice 10 12 body) in
      if negb (addr_type =? 0) || negb (addr_len =? 0) then Err EtherIpError.invalid_response
      else
        let data_off := 12%nat in
        if (length body <? data_off + 4)%nat then Err EtherIpError.invalid_response
        else
          let data_type := from_le_bytes (slice data_off (data_off + 2) body) in
          let data_len := from_le_bytes (slice (data_off + 2) (data_off + 4) body) in
          if negb (data_type =? 0x00B1) || (length body <? data_off + 4 + Z.to_nat data_len)%nat
          then Err EtherIpError.invalid_response
          else Ok (slice (data_off + 4) (data_off + 4 + Z.to_nat data_len) body).

(** ** CIP (cip.rs) *)
Definition SVC_READ_TAG : Z := 0x4C.
Definition SVC_WRITE_TAG : Z := 0x4D.
Definition SVC_MULTI : Z := 0x0A.
Definition SEG_ANSI_SYMBOL : Z := 0x91.
Definition CM_PATH : list Z := [0x20; 0x06; 0x24; 0x01].
Definition STATUS_SUCCESS : Z := 0x00.
Definition STATUS_CONN_FAILED : Z := 0x01.
Definition STATUS_ACCESS_DENIED : Z := 0x0F.
Definition STATUS_PATH_NOT_FOUND : Z := 0x14.

Definition TYPE_BOOL : Z := 0xC1.
Definition TYPE_SINT : Z := 0xC2.
Definition TYPE_INT : Z := 0xC3.
Definition TYPE_DINT : Z := 0xC4.
Definition TYPE_LINT : Z := 0xC5.
Definition TYPE_USINT : Z := 0xC6.
Definition TYPE_UINT : Z := 0xC7.
Definition TYPE_UDINT : Z := 0xC8.
Definition TYPE_ULINT : Z := 0xC9.
Definition TYPE_REAL : Z := 0xCA.
Definition TYPE_LREAL : Z := 0xCB.

(** The width of a type code, as the code lists them: [TYPE_UDINT] is missing. *)
Definition type_width (type_code : Z) : option nat :=
  if (type_code =? TYPE_BOOL) || (type_code =? TYPE_SINT) || (type_code =? TYPE_USINT) then Some 1%nat
  else if (type_code =? TYPE_INT) || (type_code =? TYPE_UINT) then Some 2%nat
  else if (type_code =? TYPE_DINT) || (type_code =? TYPE_REAL) then Some 4%nat
  else if (type_code =? TYPE_LINT) || (type_code =? TYPE_ULINT) || (type_code =? TYPE_LREAL) then Some 8%nat
  else None.

Definition build_symbol_segment (path : str) : list Z :=
  let bytes := utf8_encode path in
  [SEG_ANSI_SYMBOL; wrap8 (Z.of_nat (length bytes))] ++ bytes
    ++ if Nat.odd (length bytes) then [0] else [].

Definition build_read_tag (path : str) : list Z :=
  let seg := build_symbol_segment path in
  let words := wrap8 (Z.of_nat (length seg / 2)) in
  [SVC_READ_TAG; words] ++ seg ++ to_le_bytes 2 1.

Definition build_write_tag (path : str) (type_code : Z) (payload : list Z) : list Z :=
  let seg := build_symbol_segment path in
  let words := wrap8 (Z.of_nat (length seg / 2)) in
  [SVC_WRITE_TAG; words] ++ seg ++ to_le_bytes 2 type_code ++ to_le_bytes 2 1 ++ payload.

Record ReadReply : Type := mkReadReply {
  rp_status : Z;
  rp_type_code : option Z;
  rp_payload : option (list Z);
}.

Definition parse_read_reply (body : list Z) : outcome EtherIpError.t ReadReply :=
  match body with
  | [] => Err EtherIpError.invalid_response
  | status :: _ =>
      if negb (status =? STATUS_SUCCESS) then
        Ok {| rp_status := status; rp_type_code := None; rp_payload := None |}
      else if (length body <? 4)%nat then Err EtherIpError.invalid_response
      else Ok {| rp_status := status; rp_type_code := Some (from_le_bytes (slice 2 4 body));
                 rp_payload := Some (drop 4 body) |}
  end.

(** The offset table: the running offset in [u16]. *)
Fixpoint offset_table (running : Z) (subs : list (list Z)) : list Z :=
  match subs with
  | [] => []
  | sub :: subs' =>
      to_le_bytes 2 running ++ offset_table (wrap16 (running + wrap16 (Z.of_nat (length sub)))) subs'
  end.

Definition multi_data (subs : list (list Z)) : list Z :=
  let count := length subs in
  to_le_bytes 2 (wrap16 (Z.of_nat count)) ++ offset_table (wrap16 (Z.of_nat (2 + count * 2))) subs ++ concat subs.

Definition build_multi (sub_requests : list (list Z)) : list Z :=
  [SVC_MULTI; wrap8 (Z.of_nat (length CM_PATH / 2))] ++ CM_PATH ++ multi_data sub_requests.

(** The table of offsets of a reply. *)
Definition parse_offsets (data : list Z) (expected_count : nat) : list nat :=
  (λ i, Z.to_nat (from_le_bytes (slice (2 + i * 2) (4 + i * 2) data))) <$> seq 0 expected_count.

(** The replies cut at consecutive offsets; the last one ends with the data. *)
Fixpoint cut_replies (data : list Z) (offsets : list nat) : outcome EtherIpError.t (list (list Z)) :=
  match offsets with
  | [] => Ok []
  | off :: offsets' =>
      if (length data <=? off)%nat then Err EtherIpError.invalid_response
      else
        let end_ := match offsets' with next :: _ => next | [] => length data end in
        if (length data <? end_)%nat || (end_ <? off)%nat then Err EtherIpError.invalid_response
        else
          let? replies := cut_replies data offsets' in
          Ok (slice off end_ data :: replies)
  end.

Definition parse_multi_reply (data : list Z) (expected_count : nat) : outcome EtherIpError.t (list (list Z)) :=
  if (length data <? 2)%nat then Err EtherIpError.invalid_response
  else
    let declared := Z.to_nat (from_le_bytes (slice 0 2 data)) in
    if negb (declared =? expected_count)%nat then Err EtherIpError.invalid_response
    else if (length data <? 2 + expected_count * 2)%nat then Err EtherIpError.invalid_response
    else cut_replies data (parse_offsets data expected_count).

Definition sub_request_overhead : nat := 2.

(** ** Framing is lossless *)
Lemma slice_app_skip (a b : nat) (l k : list Z) :
  (length l ≤ a)%nat → slice a b (l ++ k) = slice (a - length l) (b - length l) k.
Proof.
  intros Ha. unfold slice. rewrite drop_app, drop_ge by lia. cbn [app]. f_equal. lia.
Qed.

Lemma slice_app_here (b : nat) (l k : list Z) : length l = b → slice 0 b (l ++ k) = l.
Proof. intros <-. unfold slice. by rewrite drop_0, Nat.sub_0_r, take_app_length. Qed.

Lemma le_bytes_back (n : nat) v : in_u (8 * Z.of_nat n) v → from_le_bytes (to_le_bytes n v) = v.
Proof. intros H. rewrite from_to_le_bytes. by apply Z.mod_small. Qed.

Lemma length_build_header command len session status context :
  length context = 8%nat → length (build_header command len session status context) = HEADER_LEN.
Proof. intros Hc. unfold build_header. rewrite !length_app, !length_to_le_bytes, Hc. done. Qed.

Lemma parse_build_header command len session status context body :
  in_u 16 command → in_u 16 len → in_u 32 session → in_u 32 status → length context = 8%nat →
  parse_header (build_header command len session status context ++ body) =
    Ok {| hd_command := command; hd_body_len := len; hd_session := session; hd_status := status;
          hd_context := context |}.
Proof.
  intros H1 H2 H3 H4 Hc. unfold parse_header.
  rewrite length_app, length_build_header by done. replace (_ <? HEADER_LEN)%nat with false by (unfold HEADER_LEN; lia).
  unfold build_header. rewrite (wrap_small 16 len) by done. rewrite <- !app_assoc. cbn zeta.
  set (frame := _ ++ _). set (rest := context ++ [0; 0; 0; 0] ++ body).
  change (slice 0 2 frame) with (to_le_bytes 2 command). change (slice 2 4 frame) with (to_le_bytes 2 len).
  change (slice 4 8 frame) with (to_le_bytes 4 session). change (slice 8 12 frame) with (to_le_bytes 4 status).
  change (slice 12 20 frame) with (slice 0 8 rest). change (slice 20 24 frame) with (slice 8 12 rest).
  unfold rest. rewrite (slice_app_here 8) by done. rewrite (slice_app_skip 8 12 context) by lia. rewrite Hc.
  rewrite !le_bytes_back by done. done.
Qed.

Lemma unwrap_wrap_rr_data cip :
  Z.of_nat (length cip) < 2 ^ 16 → unwrap_rr_data (wrap_rr_data cip) = Ok cip.
Proof.
  intros Hl. unfold unwrap_rr_data.
  assert (length (wrap_rr_data cip) = (16 + length cip)%nat) as Hlen by done. rewrite Hlen.
  replace (_ <? 12)%nat with false by lia. cbn zeta. replace (_ <? 12 + 4)%nat with false by lia.
  assert (slice (12 + 2) (12 + 4) (wrap_rr_data cip) = to_le_bytes 2 (wrap16 (Z.of_nat (length cip)))) as -> by done.
  rewrite le_bytes_back by (apply wrap_range; lia). rewrite wrap_small by (unfold in_u; lia). rewrite Nat2Z.id.
  replace (_ <? 12 + 4 + length cip)%nat with false by lia. rewrite orb_false_r.
  change (slice 6 8 (wrap_rr_data cip)) with (to_le_bytes 2 2).
  change (slice 8 10 (wrap_rr_data cip)) with (to_le_bytes 2 0).
  change (slice 10 12 (wrap_rr_data cip)) with (to_le_bytes 2 0).
  change (slice 12 (12 + 2) (wrap_rr_data cip)) with (to_le_bytes 2 0x00B1).
  rewrite !le_bytes_back by done. cbn [Z.eqb Pos.eqb negb orb]. f_equal.
  unfold slice. change (drop (12 + 4) (wrap_rr_data cip)) with cip. apply take_ge. lia.
Qed.

(** Where the messages of a packet start. *)
Fixpoint starts (base : nat) (subs : list (list Z)) : list nat :=
  match subs with
  | [] => []
  | sub :: subs' => base :: starts (base + length sub) subs'
  end.

Lemma offset_table_starts base subs :
  Z.of_nat (base + length (concat subs)) < 2 ^ 16 →
  offset_table (Z.of_nat base) subs = starts base subs ≫= (λ n, to_le_bytes 2 (Z.of_nat n)).
Proof.
  revert base. induction subs as [|sub subs IH]; intros base Hb; [done|].
  cbn [offset_table starts mbind list_bind]. cbn [concat] in Hb. rewrite length_app in Hb.
  rewrite (wrap_small 16 (Z.of_nat (length sub))) by (unfold in_u; lia).
  rewrite wrap_small by (unfold in_u; lia). rewrite <- Nat2Z.inj_add, IH by lia. done.
Qed.

Lemma length_starts base subs : length (starts base subs) = length subs.
Proof. revert base. induction subs as [|sub subs IH]; intros base; cbn; [done|]. by rewrite IH. Qed.

Lemma starts_bound base subs n : n ∈ starts base subs → (base ≤ n ≤ base + length (concat subs))%nat.
Proof.
  revert base. induction subs as [|sub subs IH]; intros base; cbn; [by intros ?%elem_of_nil|].
  rewrite length_app. intros [->|H%IH]%elem_of_cons; lia.
Qed.

Lemma length_table (l : list nat) : length (l ≫= λ n, to_le_bytes 2 (Z.of_nat n)) = (2 * length l)%nat.
Proof. induction l as [|n l IH]; [done|]. cbn [mbind list_bind]. rewrite length_app, length_to_le_bytes, IH. cbn. lia. Qed.

(** The table is read back. *)
Lemma parse_table head (l : list nat) rest :
  length head = 2%nat → Forall (λ n, Z.of_nat n < 2 ^ 16) l →
  parse_offsets (head ++ (l ≫= λ n, to_le_bytes 2 (Z.of_nat n)) ++ rest) (length l) = l.
Proof.
  intros Hh Hl. unfold parse_offsets. set (g := λ n, to_le_bytes 2 (Z.of_nat n)). apply list_eq. intros i.
  rewrite list_lookup_fmap. destruct (decide (i < length l)%nat) as [Hi|Hi].
  2:{ by rewrite !lookup_ge_None_2 by (rewrite ?length_seq; lia). }
  rewrite lookup_seq_lt by done. cbn [fmap option_fmap option_map]. cbn [Nat.add].
  destruct (lookup_lt_is_Some_2 l i Hi) as [n Hn]. rewrite Hn. f_equal.
  pose proof (Forall_lookup_1 _ _ _ _ Hl Hn) as Hb. cbn beta in Hb.
  rewrite <- (take_drop_middle l i n Hn) at 1. rewrite bind_app. cbn [mbind list_bind].
  assert (length (take i l ≫= g) = (i * 2)%nat) as Ht.
  { unfold g. rewrite length_table, length_take. lia. }
  rewrite slice_app_skip by lia. rewrite Hh. rewrite <- !app_assoc. rewrite slice_app_skip by lia. rewrite Ht.
  replace (_ - 2 - i * 2)%nat with 0%nat at 1 by lia. replace (_ - 2 - i * 2)%nat with 2%nat by lia.
  rewrite slice_app_here by (unfold g; apply length_to_le_bytes). unfold g. rewrite le_bytes_back; [lia|].
  unfold in_u. change (8 * Z.of_nat 2) with 16. lia.
Qed.

Lemma cut_starts pre subs :
  Forall (λ sub : list Z, sub ≠ []) subs →
  cut_replies (pre ++ concat subs) (starts (length pre) subs) = Ok subs.
Proof.
  revert pre. induction subs as [|sub subs IH]; intros pre Hne; [done|].
  inversion_clear Hne as [|? ? Hs Hne']. cbn [starts cut_replies concat].
  assert (0 < length sub)%nat by (destruct sub; [done|cbn; lia]).
  rewrite !length_app. replace (_ <=? length pre)%nat with false by lia.
  specialize (IH (pre ++ sub) Hne'). rewrite length_app, <- app_assoc in IH. rewrite IH. cbn [outcome_bind].
  assert (match starts (length pre + length sub) subs with next :: _ => next
          | [] => length pre + (length sub + length (concat subs)) end = length pre + length sub)%nat as ->.
  { destruct subs; [cbn; lia|done]. }
  replace (_ <? length pre + length sub)%nat with false by lia. replace (_ <? length pre)%nat with false by lia.
  cbn zeta. cbn [orb]. do 2 f_equal. rewrite slice_app_skip by lia.
  replace (length pre + length sub - length pre)%nat with (length sub) by lia. rewrite Nat.sub_diag.
  by apply slice_app_here.
Qed.

(** A packet of non-empty messages that is addressable in 16 bits. *)
Definition packable (subs : list (list Z)) : Prop :=
  Forall (λ sub : list Z, sub ≠ []) subs ∧ Z.of_nat (2 + length subs * 2 + length (concat subs)) < 2 ^ 16.

Lemma multi_data_parts subs :
  packable subs →
  multi_data subs = to_le_bytes 2 (Z.of_nat (length subs))
    ++ (starts (2 + length subs * 2) subs ≫= λ n, to_le_bytes 2 (Z.of_nat n)) ++ concat subs.
Proof.
  intros [_ Hb]. unfold multi_data. cbn zeta. rewrite !wrap_small by (unfold in_u; lia).
  by rewrite offset_table_starts by lia.
Qed.

Lemma multi_data_split subs :
  packable subs →
  ∃ pre, multi_data subs = pre ++ concat subs ∧ length pre = (2 + length subs * 2)%nat ∧
    from_le_bytes (slice 0 2 (multi_data subs)) = Z.of_nat (length subs) ∧
    parse_offsets (multi_data subs) (length subs) = starts (2 + length subs * 2) subs.
Proof.
  intros Hp. pose proof Hp as [Hne Hb]. rewrite multi_data_parts by done.
  set (head := to_le_bytes 2 (Z.of_nat (length subs))). set (l := starts (2 + length subs * 2) subs).
  set (table := l ≫= _). exists (head ++ table).
  assert (length head = 2%nat) as Hh by apply length_to_le_bytes. rewrite <- app_assoc. split_and!; [done| | |].
  - unfold table, l. rewrite length_app, length_table, length_starts, Hh. lia.
  - rewrite slice_app_here by done. unfold head. apply le_bytes_back. unfold in_u.
    change (8 * Z.of_nat 2) with 16. lia.
  - assert (length subs = length l) as Hl by (symmetry; apply length_starts). rewrite Hl. apply parse_table; [done|].
    apply Forall_forall. intros n Hn%starts_bound. lia.
Qed.

(** Unpacking what was packed gives the messages back. *)
Lemma parse_multi_data subs :
  packable subs → parse_multi_reply (multi_data subs) (length subs) = Ok subs.
Proof.
  intros Hp. destruct (multi_data_split subs Hp) as (pre & Hd & Hl & Hc & Ho). destruct Hp as [Hne _].
  unfold parse_multi_reply. rewrite Hc, Ho, Nat2Z.id, Nat.eqb_refl. rewrite Hd, length_app, Hl.
  replace (_ <? 2)%nat with false by lia. cbn [negb]. cbn zeta.
  replace (_ <? 2 + length subs * 2)%nat with false by lia. rewrite <- Hl. by apply cut_starts.
Qed.
