(* ===== verification/EipCodec.v ===== *)
(** * EtherNet/IP values and configuration:
    drivers/ethernet-ip/src/{decode,encode,config}.rs

    The interpretation of a payload under the type code of the device and the
    expected type, the encoding of a value for a type code, and the connection
    configuration. *)

From S2P Require Import Prelude RustStd ObservationModel EipAddress EipFrame BatchRuns.
From stdpp Require Import options.

(** ** Decoding *)
Definition int_type_width (dt : DataType.t) : option nat :=
  match dt with
  | DataType.I8 | DataType.U8 => Some 1%nat
  | DataType.I16 | DataType.U16 => Some 2%nat
  | DataType.I32 | DataType.U32 => Some 4%nat
  | DataType.I64 | DataType.U64 => Some 8%nat
  | _ => None
  end.

Definition signed_or_unsigned (type_code : Z) (expected : option DataType.t) (width : nat) (payload : list Z) :
    outcome EtherIpError.t RawValue.t :=
  let declared_signed := (type_code =? TYPE_SINT) || (type_code =? TYPE_INT) || (type_code =? TYPE_DINT) in
  let? want_signed :=
    match expected with
    | None => Ok declared_signed
    | Some DataType.I64 => Ok true
    | Some DataType.U64 => Ok false
    | Some ((DataType.I32 | DataType.I16 | DataType.I8) as dt) =>
        if negb (bool_decide (int_type_width dt = Some width)) then Err EtherIpError.invalid_type else Ok true
    | Some ((DataType.U32 | DataType.U16 | DataType.U8) as dt) =>
        if negb (bool_decide (int_type_width dt = Some width)) then Err EtherIpError.invalid_type else Ok false
    | Some _ => Err EtherIpError.invalid_type
    end in
  let raw := from_le_bytes payload in
  match (want_signed : bool), width with
  | true, 1%nat => Ok (RawValue.I64 (wrap_signed 8 raw))
  | true, 2%nat => Ok (RawValue.I64 (wrap_signed 16 raw))
  | true, 4%nat => Ok (RawValue.I64 (wrap_signed 32 raw))
  | true, 8%nat => Ok (RawValue.I64 (wrap_signed 64 raw))
  | false, 1%nat | false, 2%nat | false, 4%nat | false, 8%nat => Ok (RawValue.U64 raw)
  | _, _ => Err EtherIpError.invalid_type
  end.

(** The payload has the width of its type, so the zero padding of the buffer
    beyond it is not read. *)
Definition decode_read (type_code : Z) (expected : option DataType.t) (payload : list Z) :
    outcome EtherIpError.t RawValue.t :=
  match type_width type_code with
  | None => Err EtherIpError.invalid_type
  | Some width =>
      if negb (length payload =? width)%nat then Err EtherIpError.invalid_response
      else if type_code =? TYPE_BOOL then
        match expected with
        | None | Some DataType.Bool => Ok (RawValue.Bool (negb (Z.land (payload !!! 0%nat) 1 =? 0)))
        | Some _ => Err EtherIpError.invalid_type
        end
      else if (type_code =? TYPE_SINT) || (type_code =? TYPE_USINT) || (type_code =? TYPE_INT)
              || (type_code =? TYPE_UINT) || (type_code =? TYPE_DINT) || (type_code =? TYPE_UDINT)
      then signed_or_unsigned type_code expected width payload
      else if (type_code =? TYPE_LINT) || (type_code =? TYPE_ULINT) then
        let raw := from_le_bytes payload in
        let is_i64_domain := match expected with None | Some DataType.I64 => true | _ => false end in
        let is_u64_expected := match expected with None | Some DataType.U64 => true | _ => false end in
        if negb is_i64_domain && negb is_u64_expected then Err EtherIpError.invalid_type
        else if type_code =? TYPE_LINT then Ok (RawValue.I64 (wrap_signed 64 raw))
        else if is_i64_domain && (2 ^ 63 - 1 <? raw) then Err EtherIpError.invalid_type
        else Ok (RawValue.U64 raw)
      else if type_code =? TYPE_REAL then
        match expected with
        | None | Some DataType.F32 | Some DataType.F64 => Ok (RawValue.F64 (f32_to_f64 (from_le_bytes payload)))
        | Some _ => Err EtherIpError.invalid_type
        end
      else if type_code =? TYPE_LREAL then
        match expected with
        | None | Some DataType.F64 => Ok (RawValue.F64 (from_le_bytes payload))
        | Some _ => Err EtherIpError.invalid_type
        end
      else Err EtherIpError.invalid_type
  end.

(** ** Encoding *)
Definition narrow_signed (v : Z) (width : nat) : outcome EtherIpError.t (list Z) :=
  let fits :=
    match width with
    | 1%nat => bool_decide (in_i 8 v)
    | 2%nat => bool_decide (in_i 16 v)
    | 4%nat => bool_decide (in_i 32 v)
    | _ => true
    end in
  if negb fits then Err EtherIpError.invalid_type else Ok (take width (to_le_bytes 8 v)).

Definition narrow_unsigned (v : Z) (width : nat) : outcome EtherIpError.t (list Z) :=
  let fits :=
    match width with
    | 1%nat => bool_decide (in_u 8 v)
    | 2%nat => bool_decide (in_u 16 v)
    | 4%nat => bool_decide (in_u 32 v)
    | _ => true
    end in
  if negb fits then Err EtherIpError.invalid_type else Ok (take width (to_le_bytes 8 v)).

Definition is_signed_code (code : Z) : bool :=
  (code =? TYPE_SINT) || (code =? TYPE_INT) || (code =? TYPE_DINT) || (code =? TYPE_LINT).

Definition is_unsigned_code (code : Z) : bool :=
  (code =? TYPE_USINT) || (code =? TYPE_UINT) || (code =? TYPE_UDINT) || (code =? TYPE_ULINT).

(** The width of the integer types is unwrapped with [expect]. *)
Definition encode_write (type_code : Z) (value : RawValue.t) : outcome EtherIpError.t (list Z) :=
  match value with
  | RawValue.Bool b => if type_code =? TYPE_BOOL then Ok [Z.b2z b] else Err EtherIpError.invalid_type
  | RawValue.I64 v =>
      if is_signed_code type_code then
        let? width := expect (type_width type_code) in narrow_signed v width
      else Err EtherIpError.invalid_type
  | RawValue.U64 v =>
      if is_unsigned_code type_code then
        let? width := expect (type_width type_code) in narrow_unsigned v width
      else Err EtherIpError.invalid_type
  | RawValue.F64 v =>
      if type_code =? TYPE_REAL then
        let narrowed := f64_to_f32 v in
        if negb (f32_is_nan narrowed) && negb (f64_eq (f32_to_f64 narrowed) v) then Err EtherIpError.invalid_type
        else Ok (to_le_bytes 4 narrowed)
      else if type_code =? TYPE_LREAL then Ok (to_le_bytes 8 v)
      else Err EtherIpError.invalid_type
  | _ => Err EtherIpError.invalid_type
  end.

(** ** Configuration (config.rs) *)
Record EnIpConfig : Type := mkEnIpConfig {
  ec_mode : str;
  ec_host : str;
  ec_port : Z;
  ec_timeout_ms : Z;
  ec_reconnect : bool;
  ec_reconnect_max_attempts : Z;
  ec_reconnect_delay_ms : Z;
  ec_max_services_per_multi : Z;
  ec_max_bytes_per_multi : Z;
}.

Definition config_default : EnIpConfig :=
  {| ec_mode := lit "tcp"; ec_host := []; ec_port := 44818; ec_timeout_ms := 3000; ec_reconnect := true;
     ec_reconnect_max_attempts := 3; ec_reconnect_delay_ms := 1000; ec_max_services_per_multi := 20;
     ec_max_bytes_per_multi := 500 |}.

Definition validate (config : EnIpConfig) : outcome EtherIpError.t () :=
  if negb (bool_decide (ec_mode config = lit "tcp")) then Err EtherIpError.config_error
  else if bool_decide (trim (ec_host config) = []) then Err EtherIpError.config_error
  else if ec_timeout_ms config =? 0 then Err EtherIpError.config_error
  else if negb (between 1 255 (ec_max_services_per_multi config)) then Err EtherIpError.config_error
  else if negb (between 256 4000 (ec_max_bytes_per_multi config)) then Err EtherIpError.config_error
  else Ok ().

(** [serde_json::from_str] is a parameter. *)
Definition parse_config (from_str : str → option EnIpConfig) (json : str) : outcome EtherIpError.t EnIpConfig :=
  let? config := ok_or (from_str json) EtherIpError.config_error in
  let? _ := validate config in
  Ok config.

(** What validation guarantees of the limits of a packet. *)
Record config_wf (c : EnIpConfig) : Prop := {
  ew_services : 1 ≤ ec_max_services_per_multi c ≤ 255;
  ew_bytes : 256 ≤ ec_max_bytes_per_multi c ≤ 4000;
}.

Lemma eip_validate_wf c : validate c = Ok () → config_wf c.
Proof.
  unfold validate. case_if; [done|]. case_if; [done|]. case_if; [done|].
  destruct (between 1 255 _) eqn:E1; [|done]. destruct (between 256 4000 _) eqn:E2; [|done].
  intros _. unfold between in *. constructor; lia.
Qed.

(** ** Properties *)

(** The type under which a value is read back as what was written. *)
Definition read_type (v : RawValue.t) : option DataType.t :=
  match v with
  | RawValue.U64 _ => Some DataType.U64
  | RawValue.I64 _ => Some DataType.I64
  | _ => None
  end.

(** A value that is not a NaN. *)
Definition no_nan (v : RawValue.t) : Prop :=
  match v with RawValue.F64 b => f64_is_nan b = false | _ => True end.

Lemma take_to_le_bytes (n m : nat) v : (n ≤ m)%nat → take n (to_le_bytes m v) = to_le_bytes n v.
Proof.
  revert m v. induction n as [|n IH]; intros m v Hm; [done|]. destruct m as [|m]; [lia|].
  change (v mod 256 :: take n (to_le_bytes m (v / 256)) = v mod 256 :: to_le_bytes n (v / 256)). f_equal. apply IH. lia.
Qed.

Lemma from_to_le_wrap (n : nat) v : from_le_bytes (to_le_bytes n v) = wrap (8 * Z.of_nat n) v.
Proof. apply from_to_le_bytes. Qed.

Lemma eip_encode_write_shape tc v p :
  encode_write tc v = Ok p → bytes_ok p ∧ ∃ w, type_width tc = Some w ∧ length p = w ∧ (1 ≤ w ≤ 8)%nat.
Proof.
  unfold encode_write.
  destruct v as [b|v|v|v| | | |]; try done.
  - destruct (Z.eqb_spec tc TYPE_BOOL) as [->|]; [|done]. intros [= <-].
    split; [by destruct b; repeat constructor; lia|]. exists 1%nat. split_and!; [done|done|lia|lia].
  - unfold is_signed_code. destruct (_ || _) eqn:E; [|done].
    destruct (type_width tc) as [w|] eqn:Ew; [|done]. cbn [expect outcome_bind]. unfold narrow_signed.
    case_if; [done|]. intros [= <-].
    assert (w = 1 ∨ w = 2 ∨ w = 4 ∨ w = 8)%nat as Hw by (revert Ew; unfold type_width; repeat case_if; intros [= <-]; auto).
    split; [apply Forall_take, to_le_bytes_ok|]. exists w. split; [done|].
    rewrite length_take, length_to_le_bytes. lia.
  - unfold is_unsigned_code. destruct (_ || _) eqn:E; [|done].
    destruct (type_width tc) as [w|] eqn:Ew; [|done]. cbn [expect outcome_bind]. unfold narrow_unsigned.
    case_if; [done|]. intros [= <-].
    assert (w = 1 ∨ w = 2 ∨ w = 4 ∨ w = 8)%nat as Hw by (revert Ew; unfold type_width; repeat case_if; intros [= <-]; auto).
    split; [apply Forall_take, to_le_bytes_ok|]. exists w. split; [done|].
    rewrite length_take, length_to_le_bytes. lia.
  - destruct (Z.eqb_spec tc TYPE_REAL) as [->|].
    + cbn zeta. case_if; [done|]. intros [= <-]. split; [apply to_le_bytes_ok|]. exists 4%nat.
      rewrite length_to_le_bytes. split_and!; [done|done|lia|lia].
    + destruct (Z.eqb_spec tc TYPE_LREAL) as [->|]; [|done]. intros [= <-]. split; [apply to_le_bytes_ok|].
      exists 8%nat. rewrite length_to_le_bytes. split_and!; [done|done|lia|lia].
Qed.

Definition int_width (w : nat) : Prop := (w = 1 ∨ w = 2 ∨ w = 4 ∨ w = 8)%nat.

Lemma type_width_int tc w : type_width tc = Some w → int_width w.
Proof. unfold type_width, int_width. repeat case_if; intros [= <-]; auto. Qed.

Lemma signed_read_back v w p :
  in_i 64 v → int_width w → narrow_signed v w = Ok p →
  length p = w ∧ in_i (8 * Z.of_nat w) v ∧ wrap_signed (8 * Z.of_nat w) (from_le_bytes p) = v.
Proof.
  intros Hv Hw. unfold narrow_signed. case_if; [done|]. intros [= <-].
  rewrite take_to_le_bytes by (unfold int_width in Hw; lia). rewrite length_to_le_bytes, from_to_le_wrap.
  assert (in_i (8 * Z.of_nat w) v) as Hi by (destruct Hw as [->|[->|[->| ->]]]; [apply negb_false_iff in Heqb; by apply bool_decide_eq_true in Heqb..|exact Hv]).
  split_and!; [done|done|]. apply wrap_signed_wrap_small; [|done]. unfold int_width in Hw. lia.
Qed.

Lemma unsigned_read_back v w p :
  in_u 64 v → int_width w → narrow_unsigned v w = Ok p → length p = w ∧ from_le_bytes p = v.
Proof.
  intros Hv Hw. unfold narrow_unsigned. case_if; [done|]. intros [= <-].
  rewrite take_to_le_bytes by (unfold int_width in Hw; lia). rewrite length_to_le_bytes, from_to_le_wrap.
  split; [done|]. apply wrap_small.
  destruct Hw as [->|[->|[->| ->]]]; [apply negb_false_iff in Heqb; by apply bool_decide_eq_true in Heqb..|exact Hv].
Qed.

(** What was encoded for a type code is decoded to the value, read as its own
    64-bit type. *)
Lemma eip_encode_decode tc v p :
  RawValue.wf v → no_nan v → encode_write tc v = Ok p → decode_read tc (read_type v) p = Ok v.
Proof.
  intros Hwf Hn. unfold encode_write, decode_read. destruct v as [b|v|v|v| | | |]; try done; cbn [read_type].
  - destruct (Z.eqb_spec tc TYPE_BOOL) as [->|]; [|done]. intros [= <-]. by destruct b.
  - destruct (is_signed_code tc) eqn:Es; [|done]. destruct (type_width tc) as [w|] eqn:Ew; [|done].
    cbn [expect outcome_bind]. intros Hp. pose proof (type_width_int _ _ Ew) as Hw.
    destruct (signed_read_back v w p Hwf Hw Hp) as (Hl & _ & Hr). rewrite Hl, Nat.eqb_refl. cbn [negb].
    unfold is_signed_code in Es.
    destruct (Z.eqb_spec tc TYPE_SINT) as [->|]; [injection Ew as <-; exact (f_equal (λ x, Ok (RawValue.I64 x)) Hr)|].
    destruct (Z.eqb_spec tc TYPE_INT) as [->|]; [injection Ew as <-; exact (f_equal (λ x, Ok (RawValue.I64 x)) Hr)|].
    destruct (Z.eqb_spec tc TYPE_DINT) as [->|]; [injection Ew as <-; exact (f_equal (λ x, Ok (RawValue.I64 x)) Hr)|].
    destruct (Z.eqb_spec tc TYPE_LINT) as [->|]; [injection Ew as <-; exact (f_equal (λ x, Ok (RawValue.I64 x)) Hr)|done].
  - destruct (is_unsigned_code tc) eqn:Es; [|done]. destruct (type_width tc) as [w|] eqn:Ew; [|done].
    cbn [expect outcome_bind]. intros Hp. pose proof (type_width_int _ _ Ew) as Hw.
    destruct (unsigned_read_back v w p Hwf Hw Hp) as (Hl & Hr). rewrite Hl, Nat.eqb_refl. cbn [negb].
    unfold is_unsigned_code in Es.
    destruct (Z.eqb_spec tc TYPE_USINT) as [->|]; [injection Ew as <-; exact (f_equal (λ x, Ok (RawValue.U64 x)) Hr)|].
    destruct (Z.eqb_spec tc TYPE_UINT) as [->|]; [injection Ew as <-; exact (f_equal (λ x, Ok (RawValue.U64 x)) Hr)|].
    destruct (Z.eqb_spec tc TYPE_UDINT) as [->|]; [done|].
    destruct (Z.eqb_spec tc TYPE_ULINT) as [->|]; [injection Ew as <-; exact (f_equal (λ x, Ok (RawValue.U64 x)) Hr)|done].
  - destruct (Z.eqb_spec tc TYPE_REAL) as [->|].
    + cbn zeta. destruct (_ && _) eqn:E; [done|]. intros [= <-].
      rewrite length_to_le_bytes. cbn [type_width]. cbn. rewrite from_to_le_wrap, wrap_small by apply f64_to_f32_range.
      rewrite f32_round_trip_bits; [done|done|]. rewrite f64_to_f32_not_nan in E by done. cbn in E.
      by apply negb_false_iff in E.
    + destruct (Z.eqb_spec tc TYPE_LREAL) as [->|]; [|done]. intros [= <-]. rewrite length_to_le_bytes. cbn.
      by rewrite from_to_le_wrap, wrap_small.
Qed.

(** A U64 written to a tag of type UDINT is a panic, and such a tag cannot be
    read at all. *)
Lemma udint_unusable v expected payload :
  encode_write TYPE_UDINT (RawValue.U64 v) = Panic ∧
  decode_read TYPE_UDINT expected payload = Err EtherIpError.invalid_type.
Proof. done. Qed.

(** The panic has no other cause. *)
Lemma encode_write_panics tc v :
  encode_write tc v = Panic ↔ tc = TYPE_UDINT ∧ ∃ u, v = RawValue.U64 u.
Proof.
  split; [|by intros [-> [u ->]]]. unfold encode_write. destruct v as [b|v|v|v| | | |]; try done.
  - by case_if.
  - destruct (is_signed_code tc) eqn:Es; [|done]. destruct (type_width tc) as [w|] eqn:Ew.
    + cbn. unfold narrow_signed. by repeat case_if.
    + intros _. exfalso. revert Es Ew. unfold is_signed_code, type_width. repeat case_if; try done; lia.
  - destruct (is_unsigned_code tc) eqn:Es; [|done]. destruct (type_width tc) as [w|] eqn:Ew.
    + cbn. unfold narrow_unsigned. by repeat case_if.
    + intros _. split; [|by eexists]. revert Es Ew. unfold is_unsigned_code, type_width.
      repeat case_if; try done; lia.
  - case_if; cbn zeta; by repeat case_if.
Qed.

(** An unsigned 64-bit tag whose value has the top bit set is refused when no
    type is expected, although it is within the type the device declares. *)
Example ulint_refused : decode_read TYPE_ULINT None (to_le_bytes 8 (2 ^ 63)) = Err EtherIpError.invalid_type.
Proof. by vm_compute. Qed.

(** * EtherNet/IP packet planning: drivers/ethernet-ip/src/batch.rs

    The split of a write batch by what is known of the types of its tags, and
    the division of a sequence of messages into Multi-Service packets. *)

Record WriteRequest : Type := mkWriteRequest {
  wq_id : Z;
  wq_address : str;
  wq_value : RawValue.t;
}.

Record TypeDiscovery : Type := mkTypeDiscovery {
  td_id : Z;
  td_tag : str;
  td_value : RawValue.t;
}.

Record ReadyWrite : Type := mkReadyWrite {
  rw_id : Z;
  rw_tag : str;
  rw_type_code : Z;
  rw_payload : list Z;
}.

(** What the loop of [plan_write_stage1] does with one request. *)
Inductive staged : Type :=
| Discover (d : TypeDiscovery)
| Ready (w : ReadyWrite)
| Failed (id : Z) (e : EtherIpError.t).

Definition stage_item (type_cache : gmap str Z) (req : WriteRequest) : outcome EtherIpError.t staged :=
  let? path := map_err (λ _, EtherIpError.invalid_address) (parse (wq_address req)) in
  let tag := tp_raw path in
  match type_cache !! tag with
  | Some type_code =>
      match encode_write type_code (wq_value req) with
      | Ok payload =>
          Ok (Ready {| rw_id := wq_id req; rw_tag := tag; rw_type_code := type_code; rw_payload := payload |})
      | Err e => Ok (Failed (wq_id req) e)
      | Panic => Panic
      end
  | None => Ok (Discover {| td_id := wq_id req; td_tag := tag; td_value := wq_value req |})
  end.

Fixpoint plan_write_stage1 (items : list WriteRequest) (type_cache : gmap str Z) :
    outcome EtherIpError.t (list TypeDiscovery * list ReadyWrite * list (Z * EtherIpError.t)) :=
  match items with
  | [] => Ok ([], [], [])
  | req :: items' =>
      let? st := stage_item type_cache req in
      let? (discovery, ready, failed) := plan_write_stage1 items' type_cache in
      match st with
      | Discover d => Ok (d :: discovery, ready, failed)
      | Ready w => Ok (discovery, w :: ready, failed)
      | Failed id e => Ok (discovery, ready, (id, e) :: failed)
      end
  end.

(** ** Packets *)
Definition MULTI_FIXED_OVERHEAD : Z := 10.

(** The bytes a packet is charged for its messages. *)
Definition packet_bytes (subs : list (list Z)) : Z :=
  foldr (λ sub n, Z.of_nat (length sub) + Z.of_nat sub_request_overhead + n) MULTI_FIXED_OVERHEAD subs.

Definition packet_overflows (max_services max_bytes : Z) (current : list (list Z)) (sub : list Z) : bool :=
  negb (bool_decide (current = [])) &&
  ((max_services <? Z.of_nat (length current) + 1)
   || (max_bytes <? packet_bytes current + Z.of_nat (length sub) + Z.of_nat sub_request_overhead)).

Definition chunk_multi (sub_requests : list (list Z)) (max_services max_bytes : Z) : list (list (list Z)) :=
  chunk_loop (packet_overflows max_services max_bytes) sub_requests [].

Definition plan_write_stage2 (ready : list ReadyWrite) (max_services_per_multi max_bytes_per_multi : Z) :
    list (list (list Z)) :=
  chunk_multi ((λ w, build_write_tag (rw_tag w) (rw_type_code w) (rw_payload w)) <$> ready)
    max_services_per_multi max_bytes_per_multi.

(** ** Properties *)
Lemma packet_bytes_app subs sub :
  packet_bytes (subs ++ [sub]) = packet_bytes subs + Z.of_nat (length sub) + Z.of_nat sub_request_overhead.
Proof. induction subs as [|s subs IH]; cbn; [lia|]. unfold packet_bytes in *. cbn [foldr] in *. lia. Qed.

Lemma packet_bytes_spec subs :
  packet_bytes subs = MULTI_FIXED_OVERHEAD + Z.of_nat (length (concat subs)) + 2 * Z.of_nat (length subs).
Proof.
  induction subs as [|s subs IH]; [done|]. unfold packet_bytes in *. cbn [foldr concat length] in *.
  rewrite length_app, IH. unfold sub_request_overhead. lia.
Qed.

(** Every packet holds at most the configured number of messages and bytes,
    unless it is a single message that is larger on its own, and the packets
    are the messages in order. *)
Lemma chunk_multi_ok subs max_services max_bytes :
  1 ≤ max_services →
  concat (chunk_multi subs max_services max_bytes) = subs ∧
  Forall (λ c, c ≠ [] ∧ Z.of_nat (length c) ≤ max_services ∧
               (packet_bytes c ≤ max_bytes ∨ ∃ sub, c = [sub])) (chunk_multi subs max_services max_bytes).
Proof.
  intros Hs. destruct (chunk_loop_ok (packet_overflows max_services max_bytes) subs []) as [Hf Hc].
  { intros e. done. }
  { by left. }
  split; [exact Hc|]. eapply Forall_impl; [exact Hf|]. intros c [Hne Hk]. split; [done|].
  destruct (exists_last Hne) as (c' & e & ->).
  specialize (Hk (length c') e). rewrite lookup_app_r, Nat.sub_diag in Hk by lia. specialize (Hk eq_refl).
  rewrite take_app_length in Hk. unfold packet_overflows in Hk. destruct c' as [|s c'].
  { cbn. split; [lia|]. right. by exists e. }
  rewrite bool_decide_eq_false_2 in Hk by done. cbn [negb andb] in Hk. rewrite length_app, packet_bytes_app. cbn [length] in *.
  split; [lia|]. left. lia.
Qed.
