(* ===== verification/EipDriver.v ===== *)
(** * The EtherNet/IP session: drivers/ethernet-ip/src/session.rs

    The connection with its registration, and the exchange of one CIP message
    for one, checked against the command, the session handle, the status and the
    sender context.  The option [TCP_NODELAY] has no effect in the model. *)

From S2P Require Import Prelude RustStd ObservationModel DriverAbi EipAddress EipFrame EipCodec AbiTag.
From stdpp Require Import options.

#[local] Set Default Proof Using "Type".

Record TcpSession (H : Type) : Type := mkTcpSession {
  ts_host : str;
  ts_port : Z;
  ts_timeout : Z;
  ts_stream : option H;
  ts_session_handle : Z;
  ts_context_counter : Z;
}.
Arguments mkTcpSession {H}.
Arguments ts_host {H}.
Arguments ts_port {H}.
Arguments ts_timeout {H}.
Arguments ts_stream {H}.
Arguments ts_session_handle {H}.
Arguments ts_context_counter {H}.

Definition map_io_error (e : IoKind.t) : EtherIpError.t :=
  match e with
  | IoKind.TimedOut | IoKind.WouldBlock => EtherIpError.timeout
  | IoKind.Other => EtherIpError.connection_lost
  end.

Section session.
Context {W H Addr : Type} `{!ByteStream W H} `{!TcpNet W H Addr}.
Abbreviation M := (stm (TcpSession H * W) EtherIpError.t).

Definition session_new (host : str) (port timeout_ms : Z) : TcpSession H :=
  {| ts_host := host; ts_port := port; ts_timeout := timeout_ms; ts_stream := None; ts_session_handle := 0;
     ts_context_counter := 0 |}.

Definition is_connected (t : TcpSession H) : bool :=
  match ts_stream t with Some _ => true | None => false end.

Definition set_stream (o : option H) (t : TcpSession H) : TcpSession H :=
  {| ts_host := ts_host t; ts_port := ts_port t; ts_timeout := ts_timeout t; ts_stream := o;
     ts_session_handle := ts_session_handle t; ts_context_counter := ts_context_counter t |}.

Definition set_handle (handle : Z) (t : TcpSession H) : TcpSession H :=
  {| ts_host := ts_host t; ts_port := ts_port t; ts_timeout := ts_timeout t; ts_stream := ts_stream t;
     ts_session_handle := handle; ts_context_counter := ts_context_counter t |}.

Definition set_counter (n : Z) (t : TcpSession H) : TcpSession H :=
  {| ts_host := ts_host t; ts_port := ts_port t; ts_timeout := ts_timeout t; ts_stream := ts_stream t;
     ts_session_handle := ts_session_handle t; ts_context_counter := n |}.

(** Overwriting the stream drops it, which closes it. *)
Definition session_disconnect (s : TcpSession H * W) : TcpSession H * W :=
  (set_handle 0 (set_stream None s.1), match ts_stream s.1 with Some h => close h s.2 | None => s.2 end).

(** The stream, an operation on it, and the loss of the session when it fails. *)
Definition on_stream {A} (op : H → W → W * io_result A) : M A := λ s,
  match ts_stream s.1 with
  | None => (s, Err EtherIpError.connection_lost)
  | Some h =>
      match op h s.2 with
      | (w, inr a) => ((s.1, w), Ok a)
      | (w, inl e) => (session_disconnect (s.1, w), Err (map_io_error e))
      end
  end.

Definition fail_disconnect {A} (e : EtherIpError.t) : M A := λ s, (session_disconnect s, Err e).

(** The first address that accepts; the results of the options are ignored. *)
Fixpoint connect_targets (timeout : Z) (targets : list Addr) (w : W) : W * option H :=
  match targets with
  | [] => (w, None)
  | target :: targets' =>
      match connect_timeout target timeout w with
      | (w, inr stream) =>
          let '(w, _) := set_read_timeout stream timeout w in
          let '(w, _) := set_write_timeout stream timeout w in
          (w, Some stream)
      | (w, inl _) => connect_targets timeout targets' w
      end
  end.

Definition tcp_connect : M H := λ '(t, w),
  match to_socket_addrs (ts_host t) (ts_port t) w with
  | (w, inl _) => ((t, w), Err EtherIpError.connection_failed)
  | (w, inr targets) =>
      let '(w, o) := connect_targets (ts_timeout t) targets w in
      ((t, w), ok_or o EtherIpError.connection_failed)
  end.

Definition next_context : M (list Z) := λ '(t, w),
  let n := wrap64 (ts_context_counter t + 1) in
  ((set_counter n t, w), Ok (to_le_bytes 8 n)).

Definition send_frame (frame : list Z) : M () := on_stream (λ h, write_all h frame).

(** A header that does not parse loses the session. *)
Definition read_frame : M (list Z) :=
  let! header := on_stream (λ h, read_exact h HEADER_LEN) in
  match parse_header header with
  | Ok hd =>
      let! body := on_stream (λ h, read_exact h (Z.to_nat (hd_body_len hd))) in
      sret (header ++ body)
  | Err e => fail_disconnect e
  | Panic => slift Panic
  end.

(** The body of a frame: [read_frame] has read as many bytes as it declares. *)
Definition frame_body (hd : Header) (frame : list Z) : list Z :=
  slice HEADER_LEN (HEADER_LEN + Z.to_nat (hd_body_len hd)) frame.

Definition register_session : M () :=
  let! context := next_context in
  let! _ := send_frame (build_register_session context) in
  let! frame := read_frame in
  let! hd := slift (parse_header frame) in
  if negb (hd_command hd =? CMD_REGISTER_SESSION) then sfail EtherIpError.unexpected_command_code
  else if negb (hd_status hd =? 0) then sfail EtherIpError.connection_failed
  else if negb (bool_decide (hd_context hd = context)) then sfail EtherIpError.invalid_response
  else
    let! handle := slift (parse_register_session_reply (frame_body hd frame)) in
    if handle =? 0 then sfail EtherIpError.invalid_response
    else smodify (λ '(t, w), (set_handle handle t, w)).

Definition session_connect : M () :=
  let! stream := tcp_connect in
  let! _ := smodify (λ '(t, w), (set_stream (Some stream) t, w)) in
  λ s,
    match register_session s with
    | (s', Err e) => (session_disconnect s', Err e)
    | r => r
    end.

Definition exchange (cip_request : list Z) : M (list Z) :=
  let! expect_ctx := next_context in
  let! (t, _) := sget in
  let body := wrap_rr_data cip_request in
  let frame := build_header CMD_SEND_RR_DATA (Z.of_nat (length body)) (ts_session_handle t) 0 expect_ctx ++ body in
  let! _ := send_frame frame in
  let! resp := read_frame in
  let! hd := slift (parse_header resp) in
  let! (t, _) := sget in
  if negb (hd_command hd =? CMD_SEND_RR_DATA) then fail_disconnect EtherIpError.unexpected_command_code
  else if negb (hd_session hd =? ts_session_handle t) then fail_disconnect EtherIpError.invalid_response
  else if negb (hd_status hd =? 0) then fail_disconnect (EtherIpError.enip_error_response (hd_status hd))
  else if negb (bool_decide (hd_context hd = expect_ctx)) then fail_disconnect EtherIpError.invalid_response
  else slift (unwrap_rr_data (frame_body hd resp)).
End session.

(** ** What a session promises *)
Section laws.
Context {W H Addr : Type} `{!ByteStream W H} `{!TcpNet W H Addr}.
Abbreviation M := (stm (TcpSession H * W) EtherIpError.t).
Abbreviation transport := (λ e, EtherIpError.is_transport_level e = true).

Lemma eip_on_stream_safe {A} (op : H → W → W * io_result A) s : safe transport (on_stream op) s.
Proof.
  unfold safe, on_stream. destruct (ts_stream s.1) as [h|]; [|done].
  destruct (op h s.2) as [w [[]|a]]; done.
Qed.

Lemma parse_header_safe frame :
  match parse_header frame with Ok _ => True | Err e => transport e | Panic => False end.
Proof. unfold parse_header. case_if; [done|]. cbn zeta. by case_if. Qed.

Lemma unwrap_rr_data_safe body :
  match unwrap_rr_data body with Ok _ => True | Err e => transport e | Panic => False end.
Proof. unfold unwrap_rr_data. cbn zeta. by repeat (case_if; [done|]). Qed.

Lemma eip_read_frame_safe s : safe transport read_frame s.
Proof.
  apply safe_bind; [apply eip_on_stream_safe|]. intros s1 header _.
  pose proof (parse_header_safe header) as Hp. destruct (parse_header header) as [hd|e|]; [|exact Hp|done].
  apply safe_bind; [apply eip_on_stream_safe|done].
Qed.

(** Exchanging a message never panics, and fails only with an error that makes
    the batch fail as a whole. *)
Lemma eip_exchange_safe request s : safe transport (exchange request) s.
Proof.
  apply safe_bind; [by destruct s as [t w]|]. intros s1 ctx _. apply safe_bind; [done|]. intros s2 [t w] _. cbn zeta.
  apply safe_bind; [apply eip_on_stream_safe|]. intros s3 [] _. apply safe_bind; [apply eip_read_frame_safe|].
  intros s4 resp _. apply safe_bind.
  { unfold safe, slift. cbn. pose proof (parse_header_safe resp) as Hp. by destruct (parse_header resp). }
  intros s5 hd _. apply safe_bind; [done|]. intros s6 [t' w'] _. repeat (case_if; [done|]).
  unfold safe, slift. cbn [snd]. pose proof (unwrap_rr_data_safe (frame_body hd resp)) as Hp.
  by destruct (unwrap_rr_data (frame_body hd resp)).
Qed.

(** A body that is not the expected pair of items fails the exchange and leaves
    the session connected. *)
Lemma exchange_desync request s s1 s2 s3 ctx resp hd e :
  next_context s = (s1, Ok ctx) →
  send_frame (build_header CMD_SEND_RR_DATA (Z.of_nat (length (wrap_rr_data request)))
                (ts_session_handle s1.1) 0 ctx ++ wrap_rr_data request) s1 = (s2, Ok ()) →
  read_frame s2 = (s3, Ok resp) → parse_header resp = Ok hd → hd_command hd = CMD_SEND_RR_DATA →
  hd_session hd = ts_session_handle s3.1 → hd_status hd = 0 → hd_context hd = ctx →
  unwrap_rr_data (frame_body hd resp) = Err e →
  exchange request s = (s3, Err e).
Proof.
  intros H1 H2 H3 H4 H5 H6 H7 H8 H9. unfold exchange. rewrite (sbind_Ok _ _ _ _ _ H1).
  unfold sget at 1. unfold sbind at 1. destruct s1 as [t w]. cbn zeta. cbn [fst] in H2.
  rewrite (sbind_Ok _ _ _ _ _ H2), (sbind_Ok _ _ _ _ _ H3). unfold slift at 1. unfold sbind at 1. rewrite H4.
  unfold sget, sbind. destruct s3 as [t' w']. cbn [fst] in H6. rewrite H5, H6, H7, H8, !Z.eqb_refl.
  rewrite bool_decide_eq_true_2 by done. cbn [negb Z.eqb Pos.eqb]. unfold slift. rewrite H9. reflexivity.
Qed.
End laws.

(** * The EtherNet/IP driver: drivers/ethernet-ip/src/lib.rs

    The driver handle with its cache of tag types, batch reads, and batch writes
    in two stages: the types of unknown tags are read first, then all writes are
    encoded and sent.  The entry points are those of DriverAbi. *)

Record EtherIpDriver (H : Type) : Type := mkEtherIpDriver {
  ed_config : EnIpConfig;
  ed_session : option (TcpSession H);
  ed_type_cache : gmap str Z;
  ed_last_error : option DriverErrorInfo;
}.
Arguments mkEtherIpDriver {H}.
Arguments ed_config {H}.
Arguments ed_session {H}.
Arguments ed_type_cache {H}.
Arguments ed_last_error {H}.

(** ** Item results *)
Definition item_status_error (status : Z) : EtherIpError.t :=
  if status =? STATUS_ACCESS_DENIED then EtherIpError.access_denied status else EtherIpError.cip_item_error status.

Definition read_error_result (item_id : Z) (error : EtherIpError.t) (now : Z) : RawReadResult :=
  {| rr_item_id := item_id; rr_value := None; rr_source_timestamp_ns := None;
     rr_received_timestamp_ns := now; rr_protocol_quality_code := EtherIpError.protocol_code error;
     rr_error := Some (EtherIpError.into_info error) |}.

Definition read_ok_result (item_id : Z) (value : RawValue.t) (now : Z) : RawReadResult :=
  {| rr_item_id := item_id; rr_value := Some value; rr_source_timestamp_ns := None;
     rr_received_timestamp_ns := now; rr_protocol_quality_code := Some 0; rr_error := None |}.

Definition write_error_result (item_id : Z) (error : EtherIpError.t) : RawWriteResult :=
  {| wr_item_id := item_id; wr_success := false; wr_protocol_code := EtherIpError.protocol_code error;
     wr_error := Some (EtherIpError.into_info error) |}.

Definition write_ok_result (item_id : Z) : RawWriteResult :=
  {| wr_item_id := item_id; wr_success := true; wr_protocol_code := Some 0; wr_error := None |}.

(** The value in a sub-reply. *)
Definition sub_reply_value (expected : option DataType.t) (sub_reply : list Z) : outcome EtherIpError.t RawValue.t :=
  let? parsed := parse_read_reply (drop 2 sub_reply) in
  if negb (rp_status parsed =? STATUS_SUCCESS) then Err (item_status_error (rp_status parsed))
  else decode_read (default 0 (rp_type_code parsed)) expected (default [] (rp_payload parsed)).

Definition assemble_read_with (item_id : Z) (expected : option DataType.t) (sub_reply : list Z) (now : Z) :
    outcome EtherIpError.t RawReadResult :=
  match sub_reply_value expected sub_reply with
  | Ok value => Ok (read_ok_result item_id value now)
  | Err e => Ok (read_error_result item_id e now)
  | Panic => Panic
  end.

(** ** Read planning *)
Record ReadEntry : Type := mkReadEntry {
  re_tag : str;
  re_item_id : Z;
  re_expected : option DataType.t;
}.

Fixpoint read_entries (items : list DriverReadItem) : outcome EtherIpError.t (list ReadEntry) :=
  match items with
  | [] => Ok []
  | item :: items' =>
      let? path := map_err (λ _, EtherIpError.invalid_address) (parse (ri_address item)) in
      let? entries := read_entries items' in
      Ok ({| re_tag := tp_raw path; re_item_id := ri_id item; re_expected := ri_expected_type item |} :: entries)
  end.

Definition plan_read_entries (items : list DriverReadItem) : outcome EtherIpError.t (list ReadEntry) :=
  let? entries := read_entries items in
  Ok (sort_by (λ a b, str_le (re_tag a) (re_tag b)) entries).

(** The type code in the reply to a discovery, with the status. *)
Definition discovered_type (sub_reply : list Z) : Z * option Z :=
  let parsed_status := default 0xFF (sub_reply !! 2%nat) in
  (parsed_status,
   if (parsed_status =? STATUS_SUCCESS) && (6 <=? length sub_reply)%nat
   then Some (from_le_bytes (slice 4 6 sub_reply)) else None).

Section driver.
Context {W H Addr : Type} `{!Os W} `{!ByteStream W H} `{!TcpNet W H Addr}.
Abbreviation M := (stm (EtherIpDriver H * W) EtherIpError.t).

Definition create (from_str : str → option EnIpConfig) (config_json : str) :
    outcome EtherIpError.t (EtherIpDriver H) :=
  let? config := parse_config from_str config_json in
  Ok {| ed_config := config; ed_session := Some (session_new (ec_host config) (ec_port config) (ec_timeout_ms config));
        ed_type_cache := ∅; ed_last_error := None |}.

Definition set_session (t : TcpSession H) (d : EtherIpDriver H) : EtherIpDriver H :=
  {| ed_config := ed_config d; ed_session := Some t; ed_type_cache := ed_type_cache d;
     ed_last_error := ed_last_error d |}.

Definition set_type_cache (cache : gmap str Z) (d : EtherIpDriver H) : EtherIpDriver H :=
  {| ed_config := ed_config d; ed_session := ed_session d; ed_type_cache := cache;
     ed_last_error := ed_last_error d |}.

(** [self.session.as_mut().expect(..)] followed by a method call. *)
Definition with_session {A} (m : stm (TcpSession H * W) EtherIpError.t A) : M A := λ '(d, w),
  match ed_session d with
  | None => ((d, w), Panic)
  | Some t => let '((t', w'), r) := m (t, w) in ((set_session t' d, w'), r)
  end.

(** The loop over the attempts; between two of them the thread sleeps. *)
Fixpoint connect_attempts (delay : Z) (remaining : nat) (last_error : option EtherIpError.t) :
    stm (TcpSession H * W) EtherIpError.t () :=
  match remaining with
  | O => slift (match last_error with Some e => Err e | None => Panic end)
  | S remaining' => λ s,
      match session_connect s with
      | (s', Ok _) => (s', Ok ())
      | (s', Panic) => (s', Panic)
      | ((t', w'), Err e) =>
          connect_attempts delay remaining' (Some e)
            (t', if (0 <? remaining')%nat then sleep delay w' else w')
      end
  end.

Definition attempts_of (config : EnIpConfig) : nat :=
  if ec_reconnect config then Z.to_nat (Z.max (ec_reconnect_max_attempts config) 1) else 1.

Definition connect : M () :=
  let! (d, _) := sget in
  with_session (λ s,
    if is_connected s.1 then (s, Ok ())
    else connect_attempts (ec_reconnect_delay_ms (ed_config d)) (attempts_of (ed_config d)) None s).

Definition ensure_connected : M () :=
  let! (d, _) := sget in
  match ed_session d with
  | None => slift Panic
  | Some t => if negb (is_connected t) then connect else sret ()
  end.

Definition disconnect (s : EtherIpDriver H * W) : EtherIpDriver H * W :=
  match ed_session s.1 with
  | None => s
  | Some t => let '(t', w') := session_disconnect (t, s.2) in (set_session t' s.1, w')
  end.

(** The head of the reply; indexing an empty request panics. *)
Definition check_reply (cip_request reply : list Z) : outcome EtherIpError.t (list Z) :=
  if (length reply <? 4)%nat then Err EtherIpError.invalid_response
  else
    let? service := expect (cip_request !! 0%nat) in
    if negb (reply !!! 0%nat =? Z.lor service 0x80) then Err EtherIpError.unexpected_command_code
    else if negb (reply !!! 2%nat =? STATUS_SUCCESS) then Err (EtherIpError.cip_item_error (reply !!! 2%nat))
    else Ok reply.

Definition exchange_checked (cip_request : list Z) : M (list Z) :=
  let! reply := with_session (exchange cip_request) in
  slift (check_reply cip_request reply).

Definition tick : M Z := λ '(d, w), let '(w', now) := now_ns w in ((d, w'), Ok now).

Fixpoint assemble_replies (entries : list ReadEntry) (sub_replies : list (list Z)) : M (list RawReadResult) :=
  match entries, sub_replies with
  | entry :: entries', sub_reply :: sub_replies' =>
      let! now := tick in
      let! r := slift (assemble_read_with (re_item_id entry) (re_expected entry) sub_reply now) in
      let! rs := assemble_replies entries' sub_replies' in
      sret (r :: rs)
  | _, _ => sret []
  end.

(** The loop over the packets; [entries] are those from the cursor on. *)
Fixpoint read_chunks (chunks : list (list (list Z))) (entries : list ReadEntry) (results : list RawReadResult) :
    M (list RawReadResult) :=
  match chunks with
  | [] => sret results
  | chunk :: chunks' =>
      let! reply := exchange_checked (build_multi chunk) in
      let! sub_replies := slift (parse_multi_reply (drop 4 reply) (length chunk)) in
      let! rs := assemble_replies (take (length chunk) entries) sub_replies in
      read_chunks chunks' (drop (length chunk) entries) (results ++ rs)
  end.

Definition read_batch (items : list DriverReadItem) : M (list RawReadResult) :=
  let! _ := ensure_connected in
  let! entries := slift (plan_read_entries items) in
  let! (d, _) := sget in
  let chunks := chunk_multi ((λ e, build_read_tag (re_tag e)) <$> entries)
                  (ec_max_services_per_multi (ed_config d)) (ec_max_bytes_per_multi (ed_config d)) in
  let! results := read_chunks chunks entries [] in
  sret (sort_by_key rr_item_id results).

(** ** Writing *)

(** The identifiers that have a result, and the results. *)
Definition Tally : Type := (gset Z * list RawWriteResult)%type.

Definition settle_failed (id : Z) (e : EtherIpError.t) (tally : Tally) : Tally :=
  ({[id]} ∪ tally.1, tally.2 ++ [write_error_result id e]).

(** [if settled.insert(id)] *)
Definition settle_new (id : Z) (r : RawWriteResult) (tally : Tally) : Tally :=
  if bool_decide (id ∈ tally.1) then tally else ({[id]} ∪ tally.1, tally.2 ++ [r]).

(** The replies of a discovery packet: a type goes into the cache, anything else
    is the failure of its request. *)
Fixpoint register_types (discovery : list TypeDiscovery) (sub_replies : list (list Z)) (cache : gmap str Z)
    (tally : Tally) : gmap str Z * Tally :=
  match discovery, sub_replies with
  | d :: discovery', sub_reply :: sub_replies' =>
      match discovered_type sub_reply with
      | (_, Some tc) => register_types discovery' sub_replies' (<[td_tag d := tc]> cache) tally
      | (status, None) =>
          register_types discovery' sub_replies' cache (settle_failed (td_id d) (item_status_error status) tally)
      end
  | _, _ => (cache, tally)
  end.

(** The discovery packets; one that fails fails the requests in it, and the loop
    goes on. *)
Fixpoint discover_chunks (chunks : list (list (list Z))) (discovery : list TypeDiscovery) (tally : Tally) : M Tally :=
  match chunks with
  | [] => sret tally
  | chunk :: chunks' => λ s,
      match exchange_checked (build_multi chunk) s with
      | (s', Panic) => (s', Panic)
      | (s', Err _) =>
          discover_chunks chunks' (drop (length chunk) discovery)
            (foldl (λ t d, settle_failed (td_id d) EtherIpError.decode_error t) tally (take (length chunk) discovery)) s'
      | (s', Ok reply) =>
          (let! sub_replies := slift (parse_multi_reply (drop 4 reply) (length chunk)) in
           let! (d, w) := sget in
           let '(cache, tally) := register_types (take (length chunk) discovery) sub_replies (ed_type_cache d) tally in
           let! _ := smodify (λ '(d, w), (set_type_cache cache d, w)) in
           discover_chunks chunks' (drop (length chunk) discovery) tally) s'
      end
  end.

(** The outcome of a write in its sub-reply; a request that has a result keeps
    it. *)
Definition settle_write (w : ReadyWrite) (sub_reply : list Z) (tally : Tally) : Tally :=
  let status := default 0xFF (sub_reply !! 2%nat) in
  settle_new (rw_id w)
    (if status =? STATUS_SUCCESS then write_ok_result (rw_id w)
     else write_error_result (rw_id w) (item_status_error status)) tally.

Fixpoint settle_writes (ready : list ReadyWrite) (sub_replies : list (list Z)) (tally : Tally) : Tally :=
  match ready, sub_replies with
  | w :: ready', sub_reply :: sub_replies' => settle_writes ready' sub_replies' (settle_write w sub_reply tally)
  | _, _ => tally
  end.

Fixpoint write_chunks (chunks : list (list (list Z))) (ready : list ReadyWrite) (tally : Tally) : M Tally :=
  match chunks with
  | [] => sret tally
  | chunk :: chunks' =>
      let! reply := exchange_checked (build_multi chunk) in
      let! sub_replies := slift (parse_multi_reply (drop 4 reply) (length chunk)) in
      write_chunks chunks' (drop (length chunk) ready) (settle_writes (take (length chunk) ready) sub_replies tally)
  end.

(** The second stage: everything whose type is known is encoded and written. *)
Definition write_known (items : list WriteRequest) (services bytes : Z) (tally : Tally) : M (list RawWriteResult) :=
  let! (d, _) := sget in
  let! (_, ready, stage2_failed) := slift (plan_write_stage1 items (ed_type_cache d)) in
  let tally := foldl (λ t '(id, e), settle_new id (write_error_result id e) t) tally stage2_failed in
  let! tally := write_chunks (plan_write_stage2 ready services bytes) ready tally in
  sret (sort_by_key wr_item_id tally.2).

Definition write_batch (items : list WriteRequest) : M (list RawWriteResult) :=
  let! _ := ensure_connected in
  let! (d, _) := sget in
  let services := ec_max_services_per_multi (ed_config d) in
  let bytes := ec_max_bytes_per_multi (ed_config d) in
  let! (discovery, _, failed) := slift (plan_write_stage1 items (ed_type_cache d)) in
  let tally := foldl (λ t '(id, e), settle_failed id e t) (∅, []) failed in
  let! tally :=
    if bool_decide (discovery = []) then sret tally
    else discover_chunks (chunk_multi ((λ d, build_read_tag (td_tag d)) <$> discovery) services bytes) discovery tally in
  write_known items services bytes tally.

Definition validate_address (addr : str) : M AddressMetadata :=
  let! parsed := slift (map_err (λ _, EtherIpError.invalid_address) (parse addr)) in
  sret {| am_canonical_address := tp_raw parsed; am_raw_type := None; am_readable := true; am_writable := true |}.

(** ** The entry points *)
Definition CAPABILITIES : ProtocolCapabilities :=
  {| cap_read := true; cap_write := true; cap_batch_read := true; cap_batch_write := true;
     cap_browse := false; cap_polling := true; cap_subscription := false; cap_events := false;
     cap_history := false |}.

Definition set_last_error (e : EtherIpError.t) (d : EtherIpDriver H) : EtherIpDriver H :=
  {| ed_config := ed_config d; ed_session := ed_session d; ed_type_cache := ed_type_cache d;
     ed_last_error := Some (EtherIpError.into_info e) |}.

Definition eip_plugin (from_str : str → option EnIpConfig) :
    Plugin (EtherIpDriver H) W EtherIpError.t WriteRequest := {|
  pl_create := create from_str;
  pl_broken := {| ed_config := config_default; ed_session := None; ed_type_cache := ∅; ed_last_error := None |};
  pl_set_last_error := set_last_error;
  pl_last_error := ed_last_error;
  pl_connect := connect;
  pl_disconnect := disconnect;
  pl_read_batch := read_batch;
  pl_request id address value := {| wq_id := id; wq_address := address; wq_value := value |};
  pl_write_batch := write_batch;
  pl_validate_address := validate_address;
  pl_capabilities := CAPABILITIES;
  pl_config_error := EtherIpError.config_error;
  pl_invalid_address := EtherIpError.invalid_address;
  pl_invalid_type := EtherIpError.invalid_type;
  pl_unsupported := EtherIpError.unsupported;
  pl_driver_panic := EtherIpError.driver_panic;
|}.

Lemma eip_plugin_laws from_str : PluginLaws (Plugin0 := eip_plugin from_str) _ _ _ _.
Proof. split. by eexists. Qed.

Context (from_str : str → option EnIpConfig) `{!Envelopes}.

Definition eip_api_create := api_create (Plugin0 := eip_plugin from_str).
Definition eip_api_destroy := api_destroy (Plugin0 := eip_plugin from_str).
Definition eip_api_connect := api_connect (Plugin0 := eip_plugin from_str).
Definition eip_api_disconnect := api_disconnect (Plugin0 := eip_plugin from_str).
Definition eip_api_get_capabilities_json := api_get_capabilities_json (Plugin0 := eip_plugin from_str).
Definition eip_api_validate_address := api_validate_address (Plugin0 := eip_plugin from_str).
Definition eip_api_read := api_read (Plugin0 := eip_plugin from_str).
Definition eip_api_write := api_write (Plugin0 := eip_plugin from_str).
Definition eip_api_unsupported := api_unsupported (Plugin0 := eip_plugin from_str).
Definition eip_api_get_last_error_json := api_get_last_error_json (Plugin0 := eip_plugin from_str).
End driver.
