(* ===== verification/EipLoopback.v ===== *)
(** * The simulated EtherNet/IP controller: crates/etherip-mock/src/lib.rs

    The table of tags, the services Read Tag, Write Tag and Multi-Service, the
    injected faults and the handling of one frame.  Delays, the listener and the
    locks are not modelled. *)

From S2P Require Import Prelude RustStd EipAddress EipFrame ObservationModel DriverAbi BatchRuns EipCodec.
From S2P Require Import EipDriver.
From stdpp Require Import options.

Record TagValue : Type := mkTagValue {
  tv_type_code : Z;
  tv_data : list Z;
}.

Record WriteRecord : Type := mkWriteRecord { wrec_tag : str; wrec_type_code : Z; wrec_data : list Z }.
Record ReadRecord : Type := mkReadRecord { rrec_tag : str }.

Record MockBehavior : Type := mkMockBehavior {
  mb_tags : gmap str TagValue;
  mb_drop_connection : bool;
  mb_timeout_rate : option (Z * Z);
  mb_register_reject : bool;
  mb_deny_writes_at : gset str;
  mb_wrong_session_handle : bool;
  mb_wrong_sender_context : bool;
  mb_declare_wrong_item_count : bool;
  mb_bad_frame_length : bool;
  mb_request_count : Z;
  mb_registered_sessions : Z;
  mb_captured_reads : list ReadRecord;
  mb_captured_writes : list WriteRecord;
}.

Definition behavior_new : MockBehavior :=
  {| mb_tags := ∅; mb_drop_connection := false; mb_timeout_rate := None; mb_register_reject := false;
     mb_deny_writes_at := ∅; mb_wrong_session_handle := false; mb_wrong_sender_context := false;
     mb_declare_wrong_item_count := false; mb_bad_frame_length := false; mb_request_count := 0;
     mb_registered_sessions := 0; mb_captured_reads := []; mb_captured_writes := [] |}.

(** The tags, the counters and the captured requests change; the rest is
    configuration. *)
Definition update (tags : gmap str TagValue) (count sessions : Z) (reads : list ReadRecord)
    (writes : list WriteRecord) (b : MockBehavior) : MockBehavior :=
  {| mb_tags := tags; mb_drop_connection := mb_drop_connection b; mb_timeout_rate := mb_timeout_rate b;
     mb_register_reject := mb_register_reject b; mb_deny_writes_at := mb_deny_writes_at b;
     mb_wrong_session_handle := mb_wrong_session_handle b; mb_wrong_sender_context := mb_wrong_sender_context b;
     mb_declare_wrong_item_count := mb_declare_wrong_item_count b; mb_bad_frame_length := mb_bad_frame_length b;
     mb_request_count := count; mb_registered_sessions := sessions; mb_captured_reads := reads;
     mb_captured_writes := writes |}.

Definition set_tags (tags : gmap str TagValue) (b : MockBehavior) : MockBehavior :=
  update tags (mb_request_count b) (mb_registered_sessions b) (mb_captured_reads b) (mb_captured_writes b) b.

Definition with_dint (tag : str) (value : Z) (b : MockBehavior) : MockBehavior :=
  set_tags (<[tag := {| tv_type_code := TYPE_DINT; tv_data := to_le_bytes 4 value |}]> (mb_tags b)) b.

Definition with_real (tag : str) (value : Z) (b : MockBehavior) : MockBehavior :=
  set_tags (<[tag := {| tv_type_code := TYPE_REAL; tv_data := to_le_bytes 4 value |}]> (mb_tags b)) b.

Definition with_bool (tag : str) (on : bool) (b : MockBehavior) : MockBehavior :=
  set_tags (<[tag := {| tv_type_code := TYPE_BOOL; tv_data := [Z.b2z on] |}]> (mb_tags b)) b.

Definition with_uint (tag : str) (value : Z) (b : MockBehavior) : MockBehavior :=
  set_tags (<[tag := {| tv_type_code := TYPE_UINT; tv_data := to_le_bytes 2 value |}]> (mb_tags b)) b.

(** [XorShift32::new] and [next] on [u32] *)
Definition xorshift_new (seed : Z) : Z := Z.lor seed 1.

Definition xorshift_next (x : Z) : Z :=
  let x := Z.lxor x (wrap32 (Z.shiftl x 13)) in
  let x := Z.lxor x (Z.shiftr x 17) in
  Z.lxor x (wrap32 (Z.shiftl x 5)).

(** ** Frames *)
Definition extract_cip (body : list Z) : option (list Z) := outcome_ok (unwrap_rr_data body).

Definition build_rr_data (cip : list Z) : list Z := wrap_rr_data cip.

(** A declared length that overflows [u16] is not modelled: replies are short. *)
Definition send_enip (b : MockBehavior) (command session status : Z) (context body : list Z) : list Z :=
  let declared := Z.of_nat (length body) + if mb_bad_frame_length b then 10 else 0 in
  to_le_bytes 2 command ++ to_le_bytes 2 declared ++ to_le_bytes 4 session ++ to_le_bytes 4 status
    ++ context ++ [0; 0; 0; 0] ++ body.

(** [bumped]: one more, carried from byte to byte. *)
Fixpoint bumped (context : list Z) : list Z :=
  match context with
  | [] => []
  | b :: context' => if b =? 255 then 0 :: bumped context' else b + 1 :: context'
  end.

(** The tag of a path; a length beyond the path is a panic, which ends the
    connection like [None].  Tags that are not UTF-8 are decoded with
    replacement characters by the source and ended here. *)
Definition extract_tag_path (path : list Z) : option str :=
  match path with
  | 0x91 :: len :: rest => if (length rest <? Z.to_nat len)%nat then None else utf8_decode (take (Z.to_nat len) rest)
  | _ => None
  end.

(** ** Services *)
Definition read_one_tag (b : MockBehavior) (tag : str) : MockBehavior * list Z :=
  (update (mb_tags b) (mb_request_count b) (mb_registered_sessions b)
     (mb_captured_reads b ++ [{| rrec_tag := tag |}]) (mb_captured_writes b) b,
   match mb_tags b !! tag with
   | Some value =>
       [Z.lor SVC_READ_TAG 0x80; 0x00; STATUS_SUCCESS; 0x00] ++ to_le_bytes 2 (tv_type_code value) ++ tv_data value
   | None => [Z.lor SVC_READ_TAG 0x80; 0x00; STATUS_PATH_NOT_FOUND]
   end).

Definition write_one_tag (b : MockBehavior) (tag : str) (request_data : list Z) : option MockBehavior :=
  if (length request_data <? 4)%nat then None
  else
    let type_code := from_le_bytes (slice 0 2 request_data) in
    let payload := drop 4 request_data in
    let writes := mb_captured_writes b ++
      [{| wrec_tag := tag; wrec_type_code := type_code; wrec_data := payload |}] in
    let tags :=
      if bool_decide (tag ∈ mb_deny_writes_at b) then mb_tags b
      else <[tag := {| tv_type_code := type_code; tv_data := payload |}]> (mb_tags b) in
    Some (update tags (mb_request_count b) (mb_registered_sessions b) (mb_captured_reads b) writes b).

(** One message of a packet, from its offset to [sub_end]; slicing beyond the
    data is a panic, which ends the connection like [None]. *)
Definition handle_sub (b : MockBehavior) (data : list Z) (off sub_end : nat) : MockBehavior * option (list Z) :=
  let service := data !!! off in
  let path_words := Z.to_nat (data !!! (off + 1)%nat) in
  let sub_data_start := (off + 2 + path_words * 2)%nat in
  if (sub_end <? sub_data_start)%nat then (b, None)
  else if (service =? SVC_READ_TAG) || (service =? SVC_WRITE_TAG) then
    if (length data <? sub_data_start)%nat then (b, None)
    else
      match extract_tag_path (slice (off + 2) sub_data_start data) with
      | None => (b, None)
      | Some tag =>
          if service =? SVC_READ_TAG then let '(b, bytes) := read_one_tag b tag in (b, Some bytes)
          else if (length data <? sub_end)%nat then (b, None)
          else
            let denied := bool_decide (tag ∈ mb_deny_writes_at b) in
            match write_one_tag b tag (slice sub_data_start sub_end data) with
            | None => (b, None)
            | Some b' =>
                (b', Some [Z.lor SVC_WRITE_TAG 0x80; 0x00; if denied then STATUS_ACCESS_DENIED else STATUS_SUCCESS])
            end
      end
  else (b, Some [Z.lor service 0x80; 0x00; 0x08]).

(** The loop over the offsets of a packet. *)
Fixpoint handle_subs (b : MockBehavior) (data : list Z) (offsets : list nat) : MockBehavior * option (list (list Z)) :=
  match offsets with
  | [] => (b, Some [])
  | off :: offsets' =>
      if (length data <=? off)%nat || (length data <? off + 2)%nat then (b, None)
      else
        let sub_end := match offsets' with next :: _ => next | [] => length data end in
        match handle_sub b data off sub_end with
        | (b, None) => (b, None)
        | (b, Some bytes) =>
            match handle_subs b data offsets' with
            | (b, None) => (b, None)
            | (b, Some replies) => (b, Some (bytes :: replies))
            end
        end
  end.

(** The table of the reply: the running offset is a [usize] cut to [u16]. *)
Fixpoint reply_table (running : nat) (replies : list (list Z)) : list Z :=
  match replies with
  | [] => []
  | sub :: replies' => to_le_bytes 2 (wrap16 (Z.of_nat running)) ++ reply_table (running + length sub) replies'
  end.

Definition handle_multi (b : MockBehavior) (data : list Z) : MockBehavior * option (list Z) :=
  if (length data <? 2)%nat then (b, None)
  else
    let count := Z.to_nat (from_le_bytes (slice 0 2 data)) in
    if (count =? 0)%nat || (length data <? 2 + count * 2)%nat then (b, None)
    else
      match handle_subs b data (parse_offsets data count) with
      | (b, None) => (b, None)
      | (b, Some replies) =>
          let declared_count := wrap16 (Z.of_nat count + if mb_declare_wrong_item_count b then 1 else 0) in
          (b, Some ([Z.lor SVC_MULTI 0x80; 0x00; STATUS_SUCCESS; 0x00] ++ to_le_bytes 2 declared_count
                      ++ reply_table (2 + count * 2) replies ++ concat replies))
      end.

Definition handle_cip (b : MockBehavior) (cip : list Z) : MockBehavior * option (list Z) :=
  match cip with
  | service :: path_words :: rest =>
      let path_len := (Z.to_nat path_words * 2)%nat in
      if (length rest <? path_len)%nat then (b, None)
      else if service =? SVC_MULTI then handle_multi b (drop path_len rest)
      else if service =? SVC_READ_TAG then
        match extract_tag_path (take path_len rest) with
        | None => (b, None)
        | Some tag => let '(b, bytes) := read_one_tag b tag in (b, Some bytes)
        end
      else if service =? SVC_WRITE_TAG then
        match extract_tag_path (take path_len rest) with
        | None => (b, None)
        | Some tag =>
            if bool_decide (tag ∈ mb_deny_writes_at b)
            then (b, Some [Z.lor SVC_WRITE_TAG 0x80; 0x00; STATUS_ACCESS_DENIED])
            else
              match write_one_tag b tag (drop path_len rest) with
              | None => (b, None)
              | Some b' => (b', Some [Z.lor SVC_WRITE_TAG 0x80; 0x00; STATUS_SUCCESS])
              end
        end
      else (b, None)
  | _ => (b, None)
  end.

(** ** A connection *)
Record MockConn : Type := mkMockConn {
  mk_behavior : MockBehavior;
  mk_session : option Z;
  mk_rng : Z;
}.

Definition conn_new (b : MockBehavior) : MockConn :=
  {| mk_behavior := b; mk_session := None; mk_rng := xorshift_new 1 |}.

(** What the connection thread does with a frame: answer, stay silent, or end. *)
Inductive served : Type := Reply (bytes : list Z) | Silent | Ended.

Definition count_request (b : MockBehavior) : MockBehavior :=
  update (mb_tags b) (wrap32 (mb_request_count b + 1)) (mb_registered_sessions b) (mb_captured_reads b)
    (mb_captured_writes b) b.

(** The session of the connection, allocated on its first registration. *)
Definition register (c : MockConn) : MockConn * Z :=
  let b := mk_behavior c in
  match mk_session c with
  | Some s => ({| mk_behavior := b; mk_session := Some s; mk_rng := xorshift_new s |}, s)
  | None =>
      let s := wrap32 (mb_registered_sessions b + 1) in
      ({| mk_behavior := update (mb_tags b) (mb_request_count b) s (mb_captured_reads b) (mb_captured_writes b) b;
          mk_session := Some s; mk_rng := xorshift_new s |}, s)
  end.

Definition serve_register (c : MockConn) (context : list Z) : MockConn * served :=
  let '(c, (status, session_out)) :=
    if mb_register_reject (mk_behavior c) then (c, (0x69, 0))
    else let '(c, s) := register c in (c, (0, s)) in
  let body := [0x01; 0x00; 0x00; 0x00] ++ to_le_bytes 4 session_out in
  (c, Reply (send_enip (mk_behavior c) CMD_REGISTER_SESSION session_out status context body)).

Definition serve_rr_data (c : MockConn) (context body : list Z) : MockConn * served :=
  match mk_session c with
  | None => (c, Ended)
  | Some session =>
      let b := count_request (mk_behavior c) in
      let with_b b rng := {| mk_behavior := b; mk_session := Some session; mk_rng := rng |} in
      if mb_drop_connection b then (with_b b (mk_rng c), Ended)
      else
        let '(rng, silent) :=
          match mb_timeout_rate b with
          | Some (num, den) =>
              if (0 <? num) && (0 <? den)
              then let roll := xorshift_next (mk_rng c) in (roll, roll mod den <? num)
              else (mk_rng c, false)
          | None => (mk_rng c, false)
          end in
        if silent then (with_b b rng, Silent)
        else
          match extract_cip body with
          | None => (with_b b rng, Ended)
          | Some cip =>
              match handle_cip b cip with
              | (b, None) => (with_b b rng, Ended)
              | (b, Some cip_reply) =>
                  let session_out := if mb_wrong_session_handle b then wrap32 (session + 1) else session in
                  let ctx_out := if mb_wrong_sender_context b then bumped context else context in
                  (with_b b rng,
                   Reply (send_enip b CMD_SEND_RR_DATA session_out 0 ctx_out (build_rr_data cip_reply)))
              end
          end
  end.

(** One iteration of [handle_connection] on the head and body of a frame. *)
Definition serve_frame (c : MockConn) (header body : list Z) : MockConn * served :=
  let command := from_le_bytes (slice 0 2 header) in
  let session_in := from_le_bytes (slice 4 8 header) in
  let context := slice 12 20 header in
  if command =? CMD_REGISTER_SESSION then serve_register c context
  else if command =? CMD_UNREGISTER_SESSION then
    ({| mk_behavior := mk_behavior c; mk_session := None; mk_rng := mk_rng c |},
     Reply (send_enip (mk_behavior c) command session_in 0 context []))
  else if command =? CMD_SEND_RR_DATA then serve_rr_data c context body
  else (c, Ended).

(** The loop of [handle_connection] on the bytes received so far: whole frames
    are served, an incomplete one waits.  Every iteration consumes at least the
    header of a frame.  The flag tells whether the connection is still open. *)
Fixpoint handle_connection (fuel : nat) (c : MockConn) (inbox outbox : list Z) :
    MockConn * list Z * list Z * bool :=
  match fuel with
  | O => (c, inbox, outbox, true)
  | S fuel' =>
      if (length inbox <? HEADER_LEN)%nat then (c, inbox, outbox, true)
      else
        let total := (HEADER_LEN + Z.to_nat (from_le_bytes (slice 2 4 inbox)))%nat in
        if (length inbox <? total)%nat then (c, inbox, outbox, true)
        else
          match serve_frame c (take HEADER_LEN inbox) (slice HEADER_LEN total inbox) with
          | (c', Reply bytes) => handle_connection fuel' c' (drop total inbox) (outbox ++ bytes)
          | (c', Silent) => handle_connection fuel' c' (drop total inbox) outbox
          | (c', Ended) => (c', [], outbox, false)
          end
  end.

(** * The EtherNet/IP driver wired to the simulated controller

    The interfaces of DriverAbi instantiated with the controller of
    crates/etherip-mock, and the exchange of a packet of tag services with it. *)

Record Line : Type := mkLine {
  ln_conn : MockConn;
  ln_inbox : list Z;
  ln_outbox : list Z;
  ln_open : bool;
}.

Definition line_write_all (_ : ()) (bytes : list Z) (l : Line) : Line * io_result () :=
  if ln_open l then
    let inbox := ln_inbox l ++ bytes in
    let '(c, inbox', outbox', open) := handle_connection (S (length inbox)) (ln_conn l) inbox (ln_outbox l) in
    ({| ln_conn := c; ln_inbox := inbox'; ln_outbox := outbox'; ln_open := open |}, inr ())
  else (l, inl IoKind.Other).

Definition line_read_exact (_ : ()) (n : nat) (l : Line) : Line * io_result (list Z) :=
  if (n <=? length (ln_outbox l))%nat then
    ({| ln_conn := ln_conn l; ln_inbox := ln_inbox l; ln_outbox := drop n (ln_outbox l); ln_open := ln_open l |},
     inr (take n (ln_outbox l)))
  else ({| ln_conn := ln_conn l; ln_inbox := ln_inbox l; ln_outbox := []; ln_open := ln_open l |},
        inl (if ln_open l then IoKind.TimedOut else IoKind.Other)).

#[global] Instance line_stream : ByteStream Line () := {|
  write_all := line_write_all;
  read_exact := line_read_exact;
  close _ l := {| ln_conn := ln_conn l; ln_inbox := []; ln_outbox := []; ln_open := false |};
|}.

#[global] Instance line_net : TcpNet Line () () := {|
  to_socket_addrs _ _ l := (l, inr [()]);
  connect_timeout _ _ l :=
    ({| ln_conn := conn_new (mk_behavior (ln_conn l)); ln_inbox := []; ln_outbox := []; ln_open := true |},
     inr ());
  set_read_timeout _ _ l := (l, inr ());
  set_write_timeout _ _ l := (l, inr ());
|}.

#[global] Instance line_os : Os Line := {| now_ns l := (l, 0); sleep _ l := l |}.

(** ** Tag messages *)

Lemma odd_even_length {A} (l : list A) : Nat.even (length l + if Nat.odd (length l) then 1 else 0) = true.
Proof. destruct (Nat.odd (length l)) eqn:E; [rewrite Nat.even_add|rewrite Nat.add_0_r]; unfold Nat.odd in E; by destruct (Nat.even _). Qed.

(** The path of a tag: its length is even and counted in words. *)
Lemma symbol_segment tag :
  tag_ok tag → let seg := build_symbol_segment tag in
  (length seg ≤ 242)%nat ∧ (Z.to_nat (wrap8 (Z.of_nat (length seg / 2))) * 2 = length seg)%nat ∧
  extract_tag_path seg = Some tag.
Proof.
  intros [Hc Hl]. unfold MAX_TOTAL_LEN in Hl. cbn zeta.
  assert (Forall (λ c, 0 ≤ c < 128) tag) as Ha by (eapply Forall_impl; [exact Hc|by intros c []]).
  unfold build_symbol_segment. rewrite utf8_encode_ascii by done.
  set (pad := if Nat.odd (length tag) then [0] else []).
  assert (length ([SEG_ANSI_SYMBOL; wrap8 (Z.of_nat (length tag))] ++ tag ++ pad) =
    (2 + (length tag + if Nat.odd (length tag) then 1 else 0)))%nat as Hlen.
  { rewrite !length_app. unfold pad. by destruct (Nat.odd _). }
  pose proof (odd_even_length tag) as He. set (k := (length tag + _)%nat) in *. rewrite Hlen.
  assert (k ≤ 240)%nat as Hk by (unfold k in *; destruct (Nat.odd (length tag)) eqn:E; [|lia];
    unfold Nat.odd in E; destruct (decide (length tag = 240%nat)) as [H1|]; [by rewrite H1 in E|lia]).
  apply Nat.even_spec in He as [m ->]. split_and!; [lia| |].
  - replace ((2 + 2 * m) / 2)%nat with (m + 1)%nat.
    + rewrite wrap_small by (unfold in_u; lia). lia.
    + replace (2 + 2 * m)%nat with ((m + 1) * 2)%nat by lia. by rewrite Nat.div_mul.
  - rewrite wrap_small by (unfold in_u; lia). cbn [app extract_tag_path SEG_ANSI_SYMBOL].
    unfold extract_tag_path. cbn [app]. rewrite Nat2Z.id, length_app.
    replace (_ <? length tag)%nat with false by lia. rewrite take_app_length. by apply utf8_decode_ascii.
Qed.

(** What a packet asks for. *)
Inductive Op : Type :=
| ReadOp (tag : str)
| WriteOp (tag : str) (type_code : Z) (payload : list Z).

Definition op_tag (op : Op) : str := match op with ReadOp tag => tag | WriteOp tag _ _ => tag end.

Definition op_bytes (op : Op) : list Z :=
  match op with
  | ReadOp tag => build_read_tag tag
  | WriteOp tag tc payload => build_write_tag tag tc payload
  end.

Definition op_ok (op : Op) : Prop :=
  tag_ok (op_tag op) ∧ match op with ReadOp _ => True | WriteOp _ tc payload => in_u 16 tc ∧ (length payload ≤ 8)%nat end.

(** What the controller does with it. *)
Definition run_op (b : MockBehavior) (op : Op) : MockBehavior * list Z :=
  match op with
  | ReadOp tag => read_one_tag b tag
  | WriteOp tag tc payload =>
      let denied := bool_decide (tag ∈ mb_deny_writes_at b) in
      (update (if denied then mb_tags b
               else <[tag := {| tv_type_code := tc; tv_data := payload |}]> (mb_tags b))
         (mb_request_count b) (mb_registered_sessions b) (mb_captured_reads b)
         (mb_captured_writes b ++ [{| wrec_tag := tag; wrec_type_code := tc; wrec_data := payload |}]) b,
       [Z.lor SVC_WRITE_TAG 0x80; 0x00; if denied then STATUS_ACCESS_DENIED else STATUS_SUCCESS])
  end.

Fixpoint run_ops (b : MockBehavior) (ops : list Op) : MockBehavior * list (list Z) :=
  match ops with
  | [] => (b, [])
  | op :: ops' =>
      let '(b, bytes) := run_op b op in
      let '(b, replies) := run_ops b ops' in
      (b, bytes :: replies)
  end.

(** A message: service, path and data. *)
Lemma op_bytes_parts op :
  ∃ rest, op_bytes op =
    [match op with ReadOp _ => SVC_READ_TAG | WriteOp _ _ _ => SVC_WRITE_TAG end;
     wrap8 (Z.of_nat (length (build_symbol_segment (op_tag op)) / 2))]
    ++ build_symbol_segment (op_tag op) ++ rest ∧
  match op with ReadOp _ => rest = to_le_bytes 2 1
           | WriteOp _ tc payload => rest = to_le_bytes 2 tc ++ to_le_bytes 2 1 ++ payload end.
Proof. destruct op; by eexists. Qed.

Lemma op_bytes_length op : op_ok op → (4 ≤ length (op_bytes op) ≤ 256)%nat.
Proof.
  intros [Ht Ho]. destruct (symbol_segment _ Ht) as (Hl & _ & _). destruct (op_bytes_parts op) as (rest & -> & Hr).
  rewrite !length_app. change (length [_; _]) with 2%nat.
  assert (2 ≤ length (build_symbol_segment (op_tag op)))%nat by (cbn; lia).
  destruct op; rewrite Hr, ?length_app, ?length_to_le_bytes; lia.
Qed.

Lemma slice_middle (pre l post : list Z) a b :
  a = length pre → b = (length pre + length l)%nat → slice a b (pre ++ l ++ post) = l.
Proof.
  intros -> ->. rewrite slice_app_skip by lia. rewrite Nat.sub_diag.
  replace (length pre + length l - length pre)%nat with (length l) by lia. by apply slice_app_here.
Qed.

Lemma handle_sub_op b op pre post :
  op_ok op →
  handle_sub b (pre ++ op_bytes op ++ post) (length pre) (length pre + length (op_bytes op)) =
    ((run_op b op).1, Some (run_op b op).2).
Proof.
  intros [Ht Ho]. destruct (symbol_segment _ Ht) as (_ & Hw & He). destruct (op_bytes_parts op) as (rest & Hb & Hr).
  set (seg := build_symbol_segment (op_tag op)) in *. set (words := wrap8 _) in *. rewrite Hb.
  set (service := match op with ReadOp _ => _ | _ => _ end).
  unfold handle_sub. set (data := pre ++ _ ++ post).
  assert (data !!! length pre = service) as ->.
  { unfold data. rewrite list_lookup_total_alt, lookup_app_r, Nat.sub_diag by lia. done. }
  assert (data !!! (length pre + 1)%nat = words) as ->.
  { unfold data. rewrite list_lookup_total_alt, lookup_app_r by lia.
    replace (length pre + 1 - length pre)%nat with 1%nat by lia. done. }
  cbn zeta. rewrite Hw. rewrite !length_app. change (length [service; words]) with 2%nat.
  replace (_ <? length pre + 2 + length seg)%nat with false by lia.
  assert (length data = length pre + (2 + (length seg + length rest)) + length post)%nat as Hl.
  { unfold data. rewrite !length_app. cbn. lia. }
  rewrite Hl. replace (_ <? length pre + 2 + length seg)%nat with false by lia.
  assert (slice (length pre + 2) (length pre + 2 + length seg) data = seg) as ->.
  { replace data with ((pre ++ [service; words]) ++ seg ++ rest ++ post) by (unfold data; by rewrite <- !app_assoc).
    apply slice_middle; rewrite length_app; cbn; lia. }
  rewrite He. replace (_ <? length pre + (2 + (length seg + length rest)))%nat with false by lia.
  assert (slice (length pre + 2 + length seg) (length pre + (2 + (length seg + length rest))) data = rest) as ->.
  { replace data with ((pre ++ [service; words] ++ seg) ++ rest ++ post) by (unfold data; by rewrite <- !app_assoc).
    apply slice_middle; rewrite !length_app; cbn; lia. }
  destruct op as [tag|tag tc payload]; cbn [op_tag] in *; [done|].
  change (service =? SVC_READ_TAG) with false. change (service =? SVC_WRITE_TAG) with true. cbn [orb].
  unfold write_one_tag, run_op. subst rest. destruct Ho as [Htc _].
  replace (length (_ ++ _ ++ payload) <? 4)%nat with false by (rewrite !length_app, !length_to_le_bytes; lia).
  change (slice 0 2 (to_le_bytes 2 tc ++ to_le_bytes 2 1 ++ payload)) with (to_le_bytes 2 tc).
  change (drop 4 (to_le_bytes 2 tc ++ to_le_bytes 2 1 ++ payload)) with payload.
  rewrite le_bytes_back by done. done.
Qed.

Lemma handle_subs_ops b ops pre :
  Forall op_ok ops →
  handle_subs b (pre ++ concat (op_bytes <$> ops)) (starts (length pre) (op_bytes <$> ops)) =
    ((run_ops b ops).1, Some (run_ops b ops).2).
Proof.
  revert b pre. induction ops as [|op ops IH]; intros b pre Hok; [done|].
  inversion_clear Hok as [|? ? Ho Hok']. rewrite fmap_cons. cbn [starts concat handle_subs].
  pose proof (op_bytes_length op Ho) as Hlen. rewrite !length_app.
  replace (_ <=? length pre)%nat with false by lia. replace (_ <? length pre + 2)%nat with false by lia. cbn [orb].
  specialize (IH (run_op b op).1 (pre ++ op_bytes op) Hok'). rewrite length_app, <- app_assoc in IH.
  assert (match starts (length pre + length (op_bytes op)) (op_bytes <$> ops) with next :: _ => next
          | [] => length pre + (length (op_bytes op) + length (concat (op_bytes <$> ops))) end
          = length pre + length (op_bytes op))%nat as ->.
  { destruct ops; [cbn; lia|done]. }
  cbn zeta. rewrite handle_sub_op by done. rewrite IH. cbn [run_ops].
  destruct (run_op b op) as [b1 bytes]. cbn [fst snd]. by destruct (run_ops b1 ops).
Qed.

(** ** Packets *)
Lemma run_ops_length b ops : length (run_ops b ops).2 = length ops.
Proof.
  revert b. induction ops as [|op ops IH]; intros b; [done|]. cbn [run_ops]. destruct (run_op b op) as [b1 bytes].
  specialize (IH b1). destruct (run_ops b1 ops). cbn in *. by rewrite IH.
Qed.

Lemma reply_table_starts base subs :
  Z.of_nat (base + length (concat subs)) < 2 ^ 16 →
  reply_table base subs = starts base subs ≫= (λ n, to_le_bytes 2 (Z.of_nat n)).
Proof.
  revert base. induction subs as [|sub subs IH]; intros base Hb; [done|].
  cbn [reply_table starts mbind list_bind]. cbn [concat] in Hb. rewrite length_app in Hb.
  rewrite wrap_small by (unfold in_u; lia). by rewrite IH by lia.
Qed.

Lemma handle_multi_ops b ops :
  Forall op_ok ops → ops ≠ [] → packable (op_bytes <$> ops) → packable (run_ops b ops).2 →
  mb_declare_wrong_item_count (run_ops b ops).1 = false →
  handle_multi b (multi_data (op_bytes <$> ops)) =
    ((run_ops b ops).1,
     Some ([Z.lor SVC_MULTI 0x80; 0x00; STATUS_SUCCESS; 0x00] ++ multi_data (run_ops b ops).2)).
Proof.
  intros Hok Hne Hp Hr Hw. destruct (multi_data_split _ Hp) as (pre & Hd & Hl & Hc & Ho). unfold handle_multi.
  rewrite Hc, Nat2Z.id, Ho. rewrite Hd, length_app, Hl, length_fmap in *.
  assert (0 < length ops)%nat by (destruct ops; [done|cbn; lia]).
  replace (_ <? 2)%nat with false by lia. cbn zeta. replace (length ops =? 0)%nat with false by lia.
  replace (_ <? 2 + length ops * 2)%nat with false by lia. cbn [orb].
  rewrite <- Hl, handle_subs_ops by done. rewrite Hw, Z.add_0_r. rewrite (multi_data_parts _ Hr), run_ops_length.
  destruct Hr as [_ Hb]. rewrite run_ops_length in Hb. rewrite wrap_small by (unfold in_u; lia).
  rewrite reply_table_starts by lia. by rewrite Hl.
Qed.

Lemma handle_cip_multi b msgs : handle_cip b (build_multi msgs) = handle_multi b (multi_data msgs).
Proof.
  unfold build_multi. set (data := multi_data msgs). unfold handle_cip. cbn [app CM_PATH].
  change (Z.to_nat (wrap8 (Z.of_nat (length [32; 6; 36; 1] / 2))) * 2)%nat with 4%nat.
  cbn [length]. replace (S (S (S (S (length data)))) <? 4)%nat with false by lia.
  change (SVC_MULTI =? SVC_MULTI) with true. reflexivity.
Qed.

(** ** A controller without injected faults *)
Record healthy (b : MockBehavior) : Prop := {
  hb_drop : mb_drop_connection b = false;
  hb_rate : mb_timeout_rate b = None;
  hb_handle : mb_wrong_session_handle b = false;
  hb_context : mb_wrong_sender_context b = false;
  hb_count : mb_declare_wrong_item_count b = false;
  hb_length : mb_bad_frame_length b = false;
}.

Lemma eip_healthy_update tags n m rs ws b : healthy b → healthy (update tags n m rs ws b).
Proof. by intros []. Qed.

Lemma healthy_run_op b op : healthy b → healthy (run_op b op).1.
Proof. destruct op; apply eip_healthy_update. Qed.

Lemma healthy_run_ops b ops : healthy b → healthy (run_ops b ops).1.
Proof.
  revert b. induction ops as [|op ops IH]; intros b Hb; [done|]. cbn [run_ops].
  pose proof (healthy_run_op b op Hb) as H1. destruct (run_op b op) as [b1 bytes]. specialize (IH b1 H1).
  by destruct (run_ops b1 ops).
Qed.

(** Tags of a size whose replies fit a packet. *)
Definition small (tags : gmap str TagValue) : Prop :=
  map_Forall (λ _ v, in_u 16 (tv_type_code v) ∧ (length (tv_data v) ≤ 200)%nat) tags.

(** The table and the writes that are refused. *)
Definition op_tags (deny : gset str) (tags : gmap str TagValue) (op : Op) : gmap str TagValue :=
  match op with
  | ReadOp _ => tags
  | WriteOp tag tc payload =>
      if bool_decide (tag ∈ deny) then tags else <[tag := {| tv_type_code := tc; tv_data := payload |}]> tags
  end.

(** The reply to a message, from the table it finds. *)
Definition op_reply (deny : gset str) (tags : gmap str TagValue) (op : Op) : list Z :=
  match op with
  | ReadOp tag =>
      match tags !! tag with
      | Some value =>
          [Z.lor SVC_READ_TAG 0x80; 0x00; STATUS_SUCCESS; 0x00] ++ to_le_bytes 2 (tv_type_code value) ++ tv_data value
      | None => [Z.lor SVC_READ_TAG 0x80; 0x00; STATUS_PATH_NOT_FOUND]
      end
  | WriteOp tag _ _ =>
      [Z.lor SVC_WRITE_TAG 0x80; 0x00; if bool_decide (tag ∈ deny) then STATUS_ACCESS_DENIED else STATUS_SUCCESS]
  end.

Fixpoint op_replies (deny : gset str) (tags : gmap str TagValue) (ops : list Op) : list (list Z) :=
  match ops with
  | [] => []
  | op :: ops' => op_reply deny tags op :: op_replies deny (op_tags deny tags op) ops'
  end.

Lemma run_op_spec b op :
  mb_tags (run_op b op).1 = op_tags (mb_deny_writes_at b) (mb_tags b) op ∧
  mb_deny_writes_at (run_op b op).1 = mb_deny_writes_at b ∧
  (run_op b op).2 = op_reply (mb_deny_writes_at b) (mb_tags b) op.
Proof. by destruct op. Qed.

Lemma run_ops_spec b ops :
  mb_tags (run_ops b ops).1 = foldl (op_tags (mb_deny_writes_at b)) (mb_tags b) ops ∧
  mb_deny_writes_at (run_ops b ops).1 = mb_deny_writes_at b ∧
  (run_ops b ops).2 = op_replies (mb_deny_writes_at b) (mb_tags b) ops.
Proof.
  revert b. induction ops as [|op ops IH]; intros b; [done|]. cbn [run_ops].
  destruct (run_op_spec b op) as (H1 & H2 & H3). destruct (run_op b op) as [b1 bytes]. cbn [fst snd] in *.
  specialize (IH b1). rewrite H1, H2 in IH. destruct IH as (I1 & I2 & I3). destruct (run_ops b1 ops) as [b2 rs].
  cbn [fst snd op_replies foldl] in *. by rewrite I1, I2, I3, H3.
Qed.

Lemma small_op deny tags op : small tags → op_ok op → small (op_tags deny tags op).
Proof.
  intros Hs [_ Ho]. destruct op as [tag|tag tc payload]; cbn; [done|]. case_if; [done|].
  apply map_Forall_insert_2; [|done]. cbn. split; [apply Ho|]. destruct Ho as [_ Ho]. lia.
Qed.

Lemma small_ops deny tags ops : small tags → Forall op_ok ops → small (foldl (op_tags deny) tags ops).
Proof.
  intros Hs Hok. revert tags Hs. induction Hok as [|op ops Ho _ IH]; intros tags Hs; [done|]. cbn.
  by apply IH, small_op.
Qed.

Lemma op_reply_length deny tags op : small tags → (3 ≤ length (op_reply deny tags op) ≤ 206)%nat.
Proof.
  intros Hs. destruct op as [tag|tag tc payload]; unfold op_reply; [|cbn; lia]. destruct (tags !! tag) as [v|] eqn:E; [|cbn; lia].
  destruct (Hs _ _ E) as [_ Hl]. rewrite !length_app, length_to_le_bytes. cbn [length]. lia.
Qed.

Lemma op_replies_packable deny tags ops :
  small tags → Forall op_ok ops → (length ops ≤ 255)%nat →
  packable (op_replies deny tags ops) ∧ (length (concat (op_replies deny tags ops)) ≤ 206 * length ops)%nat.
Proof.
  intros Hs Hok Hn. assert (Forall (λ sub : list Z, sub ≠ []) (op_replies deny tags ops) ∧
    (length (concat (op_replies deny tags ops)) ≤ 206 * length ops)%nat ∧
    length (op_replies deny tags ops) = length ops) as (H1 & H2 & H3).
  { clear Hn. revert tags Hs. induction Hok as [|op ops Ho _ IH]; intros tags Hs; cbn [op_replies]; [done|].
    destruct (IH _ (small_op deny tags op Hs Ho)) as (H1 & H2 & H3).
    pose proof (op_reply_length deny tags op Hs) as Hl. split_and!; [constructor; [|done]|..]; cbn [concat length].
    - intros E. rewrite E in Hl. cbn in Hl. lia.
    - rewrite length_app. lia.
    - by rewrite H3. }
  split; [|done]. split; [done|]. rewrite H3. lia.
Qed.

(** ** Frames *)
Definition idle (l : Line) : Prop := ln_inbox l = [] ∧ ln_outbox l = [] ∧ ln_open l = true.

(** A frame: header and body. *)
Definition enip (command session : Z) (context body : list Z) : list Z :=
  build_header command (Z.of_nat (length body)) session 0 context ++ body.

Lemma header_slices command len session context :
  in_u 16 command → in_u 16 len → length context = 8%nat →
  let h := build_header command len session 0 context in
  from_le_bytes (slice 0 2 h) = command ∧ slice 12 20 h = context ∧ length h = 24%nat ∧
  ∀ body, from_le_bytes (slice 2 4 (h ++ body)) = len.
Proof.
  intros Hc Hl Hx h. split_and!.
  - change (slice 0 2 h) with (to_le_bytes 2 command). by apply le_bytes_back.
  - change (slice 12 20 h) with (slice 0 8 (context ++ [0; 0; 0; 0])). by apply slice_app_here.
  - unfold h. by rewrite length_build_header.
  - intros body. change (slice 2 4 (h ++ body)) with (to_le_bytes 2 (wrap16 len)). rewrite wrap_small by done.
    by apply le_bytes_back.
Qed.

Lemma send_enip_healthy b command session context body :
  mb_bad_frame_length b = false → Z.of_nat (length body) < 2 ^ 16 →
  send_enip b command session 0 context body = enip command session context body.
Proof.
  intros Hb Hl. unfold send_enip, enip, build_header. rewrite Hb, Z.add_0_r, wrap_small by (unfold in_u; lia).
  by rewrite <- !app_assoc.
Qed.

Definition with_behavior (b : MockBehavior) (session : Z) (l : Line) : Line :=
  {| ln_conn := {| mk_behavior := b; mk_session := Some session; mk_rng := mk_rng (ln_conn l) |};
     ln_inbox := []; ln_outbox := []; ln_open := true |}.

(** The controller answers a message on an idle line. *)
Lemma eip_line_serves l session context cip b' reply :
  idle l → mk_session (ln_conn l) = Some session → healthy (mk_behavior (ln_conn l)) → healthy b' →
  length context = 8%nat → Z.of_nat (length cip) + 16 < 2 ^ 16 → Z.of_nat (length reply) + 16 < 2 ^ 16 →
  handle_cip (count_request (mk_behavior (ln_conn l))) cip = (b', Some reply) →
  line_write_all () (enip CMD_SEND_RR_DATA session context (wrap_rr_data cip)) l =
    ({| ln_conn := ln_conn (with_behavior b' session l); ln_inbox := [];
        ln_outbox := enip CMD_SEND_RR_DATA session context (wrap_rr_data reply); ln_open := true |}, inr ()).
Proof.
  intros (Hi & Ho & Hop) Hses Hh Hh' Hctx Hcip Hrep Hs. unfold line_write_all. rewrite Hop, Hi, Ho. cbn [app].
  assert (length (wrap_rr_data cip) = (16 + length cip)%nat) as Hlc by done.
  assert (length (wrap_rr_data reply) = (16 + length reply)%nat) as Hlr by done.
  set (body := wrap_rr_data cip) in *. unfold enip at 1 2.
  set (h := build_header CMD_SEND_RR_DATA (Z.of_nat (length body)) session 0 context).
  destruct (header_slices CMD_SEND_RR_DATA (Z.of_nat (length body)) session context)
    as (H1 & H2 & H3 & H4); [done|unfold in_u; lia|done|]. fold h in H1, H2, H3, H4. specialize (H4 body).
  generalize (length (h ++ body)) at 1 as fuel. intros fuel. cbn [handle_connection].
  rewrite H4, Nat2Z.id, length_app, H3. unfold HEADER_LEN. replace (24 + length body <? 24)%nat with false by lia.
  cbn zeta. rewrite Nat.ltb_irrefl. rewrite (take_app_exact h body 24) by done.
  assert (slice 24 (24 + length body) (h ++ body) = body) as ->.
  { rewrite slice_app_skip by lia. rewrite H3. replace (24 + length body - 24)%nat with (length body) by lia.
    unfold slice. rewrite Nat.sub_diag, Nat.sub_0_r. by rewrite drop_0, take_ge. }
  unfold serve_frame. rewrite H1, H2. change (CMD_SEND_RR_DATA =? CMD_REGISTER_SESSION) with false.
  change (CMD_SEND_RR_DATA =? CMD_UNREGISTER_SESSION) with false.
  change (CMD_SEND_RR_DATA =? CMD_SEND_RR_DATA) with true. cbv iota. unfold serve_rr_data. rewrite Hses.
  destruct Hh as [Hd Hr _ _ _ _]. destruct Hh' as [_ _ Hwh Hwc _ Hbl].
  change (mb_drop_connection (count_request (mk_behavior (ln_conn l)))) with (mb_drop_connection (mk_behavior (ln_conn l))).
  change (mb_timeout_rate (count_request (mk_behavior (ln_conn l)))) with (mb_timeout_rate (mk_behavior (ln_conn l))).
  rewrite Hd, Hr. cbv iota zeta. unfold extract_cip, body. rewrite unwrap_wrap_rr_data by lia. cbn [outcome_ok].
  rewrite Hs, Hwh, Hwc. unfold build_rr_data. rewrite send_enip_healthy by (done || lia).
  rewrite drop_ge by (rewrite length_app, H3; fold body; lia). by destruct fuel.
Qed.

Lemma eip_line_reads l n bytes :
  (n ≤ length (ln_outbox l))%nat → bytes = take n (ln_outbox l) →
  line_read_exact () n l =
    ({| ln_conn := ln_conn l; ln_inbox := ln_inbox l; ln_outbox := drop n (ln_outbox l); ln_open := ln_open l |},
     inr bytes).
Proof. intros Hn ->. unfold line_read_exact. by replace (n <=? length (ln_outbox l))%nat with true by lia. Qed.

Lemma eip_read_frame_line (t : TcpSession ()) c command session context body :
  ts_stream t = Some () → in_u 16 command → in_u 32 session → length context = 8%nat →
  Z.of_nat (length body) < 2 ^ 16 →
  read_frame (t, {| ln_conn := c; ln_inbox := []; ln_outbox := enip command session context body; ln_open := true |}) =
    ((t, {| ln_conn := c; ln_inbox := []; ln_outbox := []; ln_open := true |}), Ok (enip command session context body)).
Proof.
  intros Ht Hcmd Hses Hctx Hlen. unfold enip. set (h := build_header _ _ _ _ _).
  assert (length h = 24%nat) as Hh by (by apply length_build_header).
  assert (parse_header h = Ok {| hd_command := command; hd_body_len := Z.of_nat (length body); hd_session := session;
                                 hd_status := 0; hd_context := context |}) as Hp.
  { rewrite <- (app_nil_r h). apply parse_build_header; try done. unfold in_u. lia. }
  unfold read_frame, sbind, on_stream. cbn [fst snd]. rewrite Ht. unfold read_exact, line_stream, HEADER_LEN.
  rewrite (eip_line_reads _ 24 h); cbn [ln_outbox]; [|rewrite length_app; lia|by rewrite take_app_exact].
  cbn [ln_conn ln_inbox ln_outbox ln_open fst snd]. rewrite Hp. cbn [fst snd hd_body_len]. rewrite Ht.
  rewrite Nat2Z.id, drop_app_exact by done.
  rewrite (eip_line_reads _ (length body) body); cbn [ln_outbox]; [|lia|by rewrite take_ge].
  cbn [ln_conn ln_inbox ln_outbox ln_open]. rewrite drop_ge by lia. reflexivity.
Qed.

(** The next sender context. *)
Definition next_counter (t : TcpSession ()) : TcpSession () := set_counter (wrap64 (ts_context_counter t + 1)) t.

(** A message the controller answers is exchanged. *)
Lemma eip_exchange_line (t : TcpSession ()) l cip b' reply :
  ts_stream t = Some () → in_u 32 (ts_session_handle t) → idle l →
  mk_session (ln_conn l) = Some (ts_session_handle t) → healthy (mk_behavior (ln_conn l)) → healthy b' →
  Z.of_nat (length cip) + 16 < 2 ^ 16 → Z.of_nat (length reply) + 16 < 2 ^ 16 →
  handle_cip (count_request (mk_behavior (ln_conn l))) cip = (b', Some reply) →
  exchange cip (t, l) = ((next_counter t, with_behavior b' (ts_session_handle t) l), Ok reply).
Proof.
  intros Ht Hu Hi Hses Hh Hh' Hcip Hrep Hs. unfold exchange.
  set (ctx := to_le_bytes 8 (wrap64 (ts_context_counter t + 1))).
  assert (length ctx = 8%nat) as Hctx by apply length_to_le_bytes.
  assert (next_context (t, l) = ((next_counter t, l), Ok ctx)) as Hn by done.
  rewrite (sbind_Ok _ _ _ _ _ Hn). unfold sget at 1. unfold sbind at 1. cbn zeta.
  change (ts_session_handle (next_counter t)) with (ts_session_handle t).
  fold (enip CMD_SEND_RR_DATA (ts_session_handle t) ctx (wrap_rr_data cip)).
  assert (send_frame (enip CMD_SEND_RR_DATA (ts_session_handle t) ctx (wrap_rr_data cip)) (next_counter t, l) =
    ((next_counter t, {| ln_conn := ln_conn (with_behavior b' (ts_session_handle t) l); ln_inbox := [];
        ln_outbox := enip CMD_SEND_RR_DATA (ts_session_handle t) ctx (wrap_rr_data reply); ln_open := true |}),
     Ok ())) as Hsend.
  { unfold send_frame, on_stream. cbn [fst snd]. change (ts_stream (next_counter t)) with (ts_stream t). rewrite Ht.
    unfold write_all, line_stream. by rewrite (eip_line_serves _ _ _ _ _ _ Hi Hses Hh Hh' Hctx Hcip Hrep Hs). }
  rewrite (sbind_Ok _ _ _ _ _ Hsend).
  assert (Z.of_nat (length (wrap_rr_data reply)) < 2 ^ 16) as Hbody by (change (length (wrap_rr_data reply)) with (16 + length reply)%nat; lia).
  assert (in_u 16 CMD_SEND_RR_DATA) as Hcmd by done.
  rewrite (sbind_Ok _ _ _ _ _ (eip_read_frame_line (next_counter t) _ _ _ _ _ Ht Hcmd Hu Hctx Hbody)).
  unfold enip. unfold slift at 1. unfold sbind at 1.
  rewrite parse_build_header by (try done; unfold in_u; lia).
  unfold sget, sbind. cbn [hd_command hd_session hd_status hd_context].
  change (ts_session_handle (next_counter t)) with (ts_session_handle t). rewrite !Z.eqb_refl.
  rewrite bool_decide_eq_true_2 by done. cbn [negb]. unfold slift. do 2 f_equal.
  unfold frame_body. cbn [hd_body_len]. rewrite Nat2Z.id. rewrite slice_app_skip by (rewrite length_build_header; done).
  rewrite length_build_header by done. rewrite Nat.sub_diag.
  replace (HEADER_LEN + length (wrap_rr_data reply) - HEADER_LEN)%nat with (length (wrap_rr_data reply)) by lia.
  unfold slice. rewrite drop_0, Nat.sub_0_r, take_ge by lia. apply unwrap_wrap_rr_data. lia.
Qed.
