(* ===== verification/EipEndToEnd.v ===== *)
(** * The EtherNet/IP driver against the simulated controller: reading

    The packets of a batch on a healthy controller, and what a batch read learns
    of the table of tags. *)

From S2P Require Import Prelude RustStd ObservationModel DriverAbi BatchRuns EipAddress EipFrame EipCodec.
From S2P Require Import EipDriver EipLoopback.
From stdpp Require Import options.

(** A driver connected to a controller without faults: its table of tags, the
    tags that refuse writes, and what the driver knows of the types. *)
Record serving (config : EnIpConfig) (deny : gset str) (tags : gmap str TagValue) (cache : gmap str Z)
    (s : EtherIpDriver () * Line) : Prop := {
  sv_config : ed_config s.1 = config;
  sv_cache : ed_type_cache s.1 = cache;
  sv_session : ∃ t, ed_session s.1 = Some t ∧ ts_stream t = Some () ∧ in_u 32 (ts_session_handle t) ∧
                    mk_session (ln_conn s.2) = Some (ts_session_handle t);
  sv_idle : idle s.2;
  sv_healthy : healthy (mk_behavior (ln_conn s.2));
  sv_deny : mb_deny_writes_at (mk_behavior (ln_conn s.2)) = deny;
  sv_tags : mb_tags (mk_behavior (ln_conn s.2)) = tags;
  sv_small : small tags;
}.

(** A packet the planner makes. *)
Definition packet_ok (ops : list Op) : Prop :=
  Forall op_ok ops ∧ ops ≠ [] ∧ (length ops ≤ 255)%nat ∧ (length (concat (op_bytes <$> ops)) ≤ 4000)%nat.

Lemma packet_packable ops : packet_ok ops → packable (op_bytes <$> ops).
Proof.
  intros (Hok & _ & Hn & Hb). split; [|rewrite length_fmap; lia]. apply Forall_fmap.
  eapply Forall_impl; [exact Hok|]. intros op Ho%op_bytes_length. cbn. intros E. rewrite E in Ho. cbn in Ho. lia.
Qed.

Lemma length_multi_data subs : packable subs → length (multi_data subs) = (2 + length subs * 2 + length (concat subs))%nat.
Proof. intros Hp. destruct (multi_data_split subs Hp) as (pre & -> & Hl & _). rewrite length_app. lia. Qed.

(** One packet: the controller runs its messages, and the driver gets the
    replies. *)
Lemma packet_served config deny tags cache s ops :
  serving config deny tags cache s → packet_ok ops →
  ∃ s' reply, exchange_checked (build_multi (op_bytes <$> ops)) s = (s', Ok reply) ∧
    parse_multi_reply (drop 4 reply) (length (op_bytes <$> ops)) = Ok (op_replies deny tags ops) ∧
    serving config deny (foldl (op_tags deny) tags ops) cache s'.
Proof.
  destruct s as [d l]. intros [H1 H2 (t & H3 & H4 & H5 & H6) H7 H8 H9 H10 H11] Hp. cbn [fst snd] in *.
  pose proof Hp as (Hok & Hne & Hn & Hb). pose proof (packet_packable ops Hp) as Hpk.
  set (b := count_request (mk_behavior (ln_conn l))). pose proof (run_ops_spec b ops) as (R1 & R2 & R3).
  change (mb_deny_writes_at b) with (mb_deny_writes_at (mk_behavior (ln_conn l))) in *.
  change (mb_tags b) with (mb_tags (mk_behavior (ln_conn l))) in *. rewrite H9, H10 in *.
  destruct (op_replies_packable deny tags ops H11 Hok Hn) as [Hrp Hrl].
  assert (healthy (run_ops b ops).1) as Hh' by (apply healthy_run_ops, eip_healthy_update, H8).
  set (replies := op_replies deny tags ops) in *.
  assert (length replies = length ops) as Hnr by (rewrite <- R3; apply run_ops_length).
  set (reply := [Z.lor SVC_MULTI 0x80; 0x00; STATUS_SUCCESS; 0x00] ++ multi_data replies).
  assert (length (multi_data replies) = (2 + length replies * 2 + length (concat replies)))%nat as Hlr
    by (by apply length_multi_data).
  assert (length (multi_data (op_bytes <$> ops)) = (2 + length ops * 2 + length (concat (op_bytes <$> ops))))%nat as Hlm
    by (rewrite length_multi_data by done; by rewrite length_fmap).
  assert (handle_cip b (build_multi (op_bytes <$> ops)) = ((run_ops b ops).1, Some reply)) as Hc.
  { rewrite handle_cip_multi. unfold reply. rewrite <- R3. apply handle_multi_ops; [done..|by rewrite R3|apply Hh']. }
  assert (exchange (build_multi (op_bytes <$> ops)) (t, l) =
    ((next_counter t, with_behavior (run_ops b ops).1 (ts_session_handle t) l), Ok reply)) as He.
  { apply eip_exchange_line; try done.
    - unfold build_multi. cbn [app length CM_PATH]. rewrite Hlm. lia.
    - unfold reply. cbn [app length]. rewrite Hlr. lia. }
  exists (set_session (next_counter t) d, with_behavior (run_ops b ops).1 (ts_session_handle t) l), reply.
  split_and!.
  - unfold exchange_checked, with_session, sbind. rewrite H3, He. unfold slift, check_reply.
    unfold reply at 1. cbn [app length]. done.
  - unfold reply. cbn [app drop]. rewrite length_fmap, <- Hnr. by apply parse_multi_data.
  - split; cbn [fst snd ln_conn with_behavior mk_behavior mk_session]; try done.
    + exists (next_counter t). done.
    + by apply small_ops.
Qed.

(** ** Dividing a batch into packets *)

(** The packets of a sequence of messages are packets of the operations. *)
Fixpoint group_ops {A} (chunks : list (list (list Z))) (ops : list A) : list (list A) :=
  match chunks with
  | [] => []
  | chunk :: chunks' => take (length chunk) ops :: group_ops chunks' (drop (length chunk) ops)
  end.

Lemma group_ops_spec {A} (f : A → list Z) chunks (l : list A) :
  concat chunks = f <$> l →
  concat (group_ops chunks l) = l ∧ fmap (M:=list) f <$> group_ops chunks l = chunks.
Proof.
  revert l. induction chunks as [|c chunks IH]; intros l; cbn [concat group_ops].
  { intros E. destruct l; [done|discriminate]. }
  intros E. assert (f <$> take (length c) l = c) as Hc.
  { rewrite fmap_take, <- E. by apply take_app_exact. }
  destruct (IH (drop (length c) l)) as [H1 H2].
  { rewrite fmap_drop, <- E. symmetry. by apply drop_app_exact. }
  split; [by rewrite H1, take_drop|]. cbn [fmap list_fmap]. by rewrite Hc, H2.
Qed.

Lemma chunk_packets config ops :
  config_wf config → Forall op_ok ops →
  let chunks := chunk_multi (op_bytes <$> ops) (ec_max_services_per_multi config) (ec_max_bytes_per_multi config) in
  ∃ groups, concat groups = ops ∧ fmap (M:=list) op_bytes <$> groups = chunks ∧ Forall packet_ok groups.
Proof.
  intros [Hs Hb] Hok. cbn zeta.
  destruct (chunk_multi_ok (op_bytes <$> ops) (ec_max_services_per_multi config) (ec_max_bytes_per_multi config))
    as [Hc Hf]; [lia|].
  set (chunks := chunk_multi _ _ _) in *. destruct (group_ops_spec op_bytes chunks ops Hc) as [Hg Hm].
  exists (group_ops chunks ops). split_and!; [done|done|]. rewrite <- Hm in Hf. rewrite Forall_fmap in Hf.
  clear Hm Hc. assert (Forall (Forall op_ok) (group_ops chunks ops)) as Hall by (by apply Forall_concat; rewrite Hg).
  eapply Forall_impl; [apply Forall_and; split; [exact Hall|exact Hf]|]. intros g (Hg1 & Hne & Hl & Hp).
  cbn in Hl. rewrite length_fmap in Hl. split; [done|]. split_and!; [by intros ->|lia|].
  destruct Hp as [Hp|[sub Hsub]].
  - rewrite packet_bytes_spec in Hp. unfold MULTI_FIXED_OVERHEAD in Hp. lia.
  - destruct g as [|op [|]]; try done. cbn [fmap list_fmap concat]. rewrite app_nil_r.
    pose proof (op_bytes_length op (Forall_inv Hg1)). lia.
Qed.

(** ** Reading *)
Definition read_result (item_id : Z) (o : outcome EtherIpError.t RawValue.t) : RawReadResult :=
  match o with
  | Ok v => read_ok_result item_id v 0
  | Err e => read_error_result item_id e 0
  | Panic => read_error_result item_id EtherIpError.driver_panic 0
  end.

(** What the table of the controller says about an item, on its own. *)
Definition tag_value (tags : gmap str TagValue) (tag : str) (expected : option DataType.t) :
    outcome EtherIpError.t RawValue.t :=
  match tags !! tag with
  | None => Err (item_status_error STATUS_PATH_NOT_FOUND)
  | Some v => decode_read (tv_type_code v) expected (tv_data v)
  end.

Definition read_alone (tags : gmap str TagValue) (item : DriverReadItem) : option RawReadResult :=
  match parse (ri_address item) with
  | Ok p => Some (read_result (ri_id item) (tag_value tags (tp_raw p) (ri_expected_type item)))
  | _ => None
  end.

Definition entry_result (tags : gmap str TagValue) (e : ReadEntry) : RawReadResult :=
  read_result (re_item_id e) (tag_value tags (re_tag e) (re_expected e)).

Lemma eip_decode_read_no_panic tc expected payload : decode_read tc expected payload ≠ Panic.
Proof.
  unfold decode_read, signed_or_unsigned. destruct (type_width tc) as [w|]; [|done]. cbn zeta.
  repeat match goal with
  | |- context [if ?b then _ else _] => destruct b
  | |- context [match expected with _ => _ end] => destruct expected as [[]|]
  end; cbn [outcome_bind]; try done; repeat case_if; try done; by destruct w as [|[|[|[|[|[|[|[|[|]]]]]]]]].
Qed.

(** The reply to a read is decoded to what the table holds. *)
Lemma sub_reply_spec deny tags tag expected :
  small tags → sub_reply_value expected (op_reply deny tags (ReadOp tag)) = tag_value tags tag expected.
Proof.
  intros Hs. unfold op_reply, tag_value, sub_reply_value. destruct (tags !! tag) as [v|] eqn:E; [|done].
  destruct (Hs _ _ E) as [Ht _]. set (tb := to_le_bytes 2 (tv_type_code v)).
  assert (length tb = 2%nat) as Htb by apply length_to_le_bytes.
  change (drop 2 _) with (STATUS_SUCCESS :: 0 :: tb ++ tv_data v). unfold parse_read_reply.
  change (negb (STATUS_SUCCESS =? STATUS_SUCCESS)) with false. cbv iota. cbn [length]. rewrite length_app, Htb.
  replace (S (S (2 + length (tv_data v))) <? 4)%nat with false by lia. cbn [outcome_bind rp_status rp_type_code rp_payload default].
  change (negb (STATUS_SUCCESS =? STATUS_SUCCESS)) with false. cbv iota.
  change (slice 2 4 (STATUS_SUCCESS :: 0 :: tb ++ tv_data v)) with (slice 0 2 (tb ++ tv_data v)).
  rewrite slice_app_here by done. unfold tb at 1. rewrite le_bytes_back by done.
  change (drop 4 (STATUS_SUCCESS :: 0 :: tb ++ tv_data v)) with (drop 2 (tb ++ tv_data v)).
  by rewrite drop_app_exact.
Qed.

Lemma op_replies_reads deny tags (tgs : list str) :
  op_replies deny tags (ReadOp <$> tgs) = (λ tag, op_reply deny tags (ReadOp tag)) <$> tgs.
Proof. induction tgs as [|tag tgs IH]; [done|]. cbn [fmap list_fmap op_replies op_tags]. by rewrite <- IH. Qed.

Lemma reads_keep_tags deny tags (tgs : list str) : foldl (op_tags deny) tags (ReadOp <$> tgs) = tags.
Proof. induction tgs as [|tag tgs IH]; [done|]. exact IH. Qed.

Lemma assemble_replies_run deny tags entries (s : EtherIpDriver () * Line) :
  small tags →
  assemble_replies entries ((λ e, op_reply deny tags (ReadOp (re_tag e))) <$> entries) s =
    (s, Ok (entry_result tags <$> entries)).
Proof.
  intros Hs. revert s. induction entries as [|e entries IH]; intros [d l]; [done|].
  rewrite !fmap_cons. cbn [assemble_replies]. unfold tick, sbind. change (now_ns l) with (l, 0).
  unfold slift at 1, assemble_read_with. rewrite sub_reply_spec by done.
  pose proof (eip_decode_read_no_panic) as Hd. specialize (IH (d, l)). unfold entry_result at 1.
  assert (tag_value tags (re_tag e) (re_expected e) ≠ Panic) as Hnp
    by (unfold tag_value; destruct (tags !! re_tag e); [apply Hd|done]).
  destruct (tag_value tags (re_tag e) (re_expected e)) as [v|er|]; [| |done]; cbn beta iota; rewrite IH; done.
Qed.

Lemma read_chunks_served config deny tags cache groups entries rs s :
  serving config deny tags cache s → Forall packet_ok groups →
  concat groups = (λ e, ReadOp (re_tag e)) <$> entries →
  ∃ s', read_chunks (fmap (M:=list) op_bytes <$> groups) entries rs s = (s', Ok (rs ++ (entry_result tags <$> entries))) ∧
    serving config deny tags cache s'.
Proof.
  revert entries rs s. induction groups as [|g groups IH]; intros entries rs s Hs Hok Hg.
  { destruct entries; [|done]. exists s. cbn. by rewrite app_nil_r. }
  inversion_clear Hok as [|? ? Hp Hok']. cbn [concat] in Hg. rewrite fmap_cons. cbn [read_chunks].
  destruct (packet_served _ _ _ _ _ _ Hs Hp) as (s1 & reply & He & Hr & Hs1).
  rewrite length_fmap in *. set (n := length g) in *. assert (n = length g) as Hn by done. clearbody n.
  assert (g = ReadOp <$> (re_tag <$> take n entries)) as Hgn.
  { rewrite <- list_fmap_compose, fmap_take. unfold compose. rewrite <- Hg. symmetry. by apply take_app_exact. }
  rewrite Hgn, reads_keep_tags in Hs1. rewrite (sbind_Ok _ _ _ _ _ He). unfold slift at 1. unfold sbind at 1. rewrite Hr.
  assert (op_replies deny tags g = (λ e, op_reply deny tags (ReadOp (re_tag e))) <$> take n entries) as ->.
  { rewrite Hgn at 1. by rewrite op_replies_reads, <- list_fmap_compose. }
  rewrite (sbind_Ok _ _ _ _ _ (assemble_replies_run deny tags _ s1 (sv_small _ _ _ _ _ Hs))).
  destruct (IH (drop n entries) (rs ++ (entry_result tags <$> take n entries)) s1 Hs1 Hok') as (s' & H1 & H2).
  { rewrite fmap_drop, <- Hg. symmetry. by apply drop_app_exact. }
  exists s'. split; [|done]. rewrite H1, <- app_assoc, <- fmap_app, take_drop. done.
Qed.

(** ** A batch *)
Lemma eip_read_entries_spec items entries :
  read_entries items = Ok entries →
  Forall (λ e, tag_ok (re_tag e)) entries ∧
  ∀ tags, Some <$> (entry_result tags <$> entries) = read_alone tags <$> items.
Proof.
  revert entries. induction items as [|item items IH]; intros entries; cbn [read_entries]; [by intros [= <-]|].
  destruct (parse (ri_address item)) as [p|e|] eqn:Ep; [|done..]. cbn [map_err outcome_bind].
  destruct (read_entries items) as [es|e|]; [|done..]. cbn [outcome_bind]. intros [= <-].
  destruct (IH es eq_refl) as [H1 H2]. split.
  - constructor; [|done]. by apply (eip_parse_tag_ok _ _ Ep).
  - intros tags. rewrite !fmap_cons, H2. unfold read_alone at 2. by rewrite Ep.
Qed.

Lemma eip_read_entries_total items :
  Forall (λ i, is_Some (outcome_ok (parse (ri_address i)))) items → ∃ entries, read_entries items = Ok entries.
Proof.
  induction 1 as [|item items [p Hp] _ [es IH]]; [by exists []|]. cbn [read_entries].
  destruct (parse (ri_address item)); [|done..]. cbn. rewrite IH. by eexists.
Qed.

Lemma ensure_connected_serving config deny tags cache s :
  serving config deny tags cache s → ensure_connected s = (s, Ok ()).
Proof.
  destruct s as [d l]. intros [_ _ (t & H3 & H4 & _) _ _ _ _ _]. cbn [fst snd] in *.
  unfold ensure_connected, sget, sbind. rewrite H3. unfold is_connected. by rewrite H4.
Qed.

Lemma read_batch_served_eip config deny tags cache s items :
  serving config deny tags cache s → config_wf config →
  Forall (λ i, is_Some (outcome_ok (parse (ri_address i)))) items →
  ∃ s' rs, read_batch items s = (s', Ok rs) ∧ serving config deny tags cache s' ∧
    Some <$> rs ≡ₚ read_alone tags <$> items.
Proof.
  intros Hs Hwf Hitems. destruct (eip_read_entries_total items Hitems) as [es Hes].
  destruct (eip_read_entries_spec _ _ Hes) as [Htags Hres].
  set (entries := sort_by (λ a b, str_le (re_tag a) (re_tag b)) es).
  assert (entries ≡ₚ es) as Hperm by apply sort_by_perm.
  assert (Forall op_ok ((λ e, ReadOp (re_tag e)) <$> entries)) as Hok.
  { apply Forall_fmap. rewrite Hperm. eapply Forall_impl; [exact Htags|]. intros e He. by split. }
  destruct (chunk_packets config _ Hwf Hok) as (groups & Hg & Hm & Hp).
  destruct (read_chunks_served config deny tags cache groups entries [] s Hs Hp Hg) as (s' & Hr & Hs').
  exists s', (sort_by_key rr_item_id (entry_result tags <$> entries)). split_and!; [|done|].
  - unfold read_batch. rewrite (sbind_Ok _ _ _ _ _ (ensure_connected_serving _ _ _ _ _ Hs)).
    unfold slift at 1. unfold sbind at 1. unfold plan_read_entries. rewrite Hes. cbn [outcome_bind]. fold entries.
    destruct s as [d l]. unfold sget at 1. unfold sbind at 1.
    pose proof (sv_config _ _ _ _ _ Hs) as Hc. cbn [fst] in Hc. rewrite Hc. cbn zeta.
    rewrite <- list_fmap_compose in Hm. unfold compose in Hm. cbn [op_bytes] in Hm.
    change ((λ x, op_bytes (ReadOp (re_tag x))) <$> entries) with ((λ e, build_read_tag (re_tag e)) <$> entries) in Hm.
    rewrite <- Hm. unfold sbind. rewrite Hr. done.
  - rewrite sort_by_key_perm, <- Hres, Hperm. done.
Qed.

(** C29: an EtherNet/IP batch read is transparent.  On a healthy controller any
    batch of accepted tag paths, however it is sorted and divided into packets,
    returns for every item exactly what the table of tags holds: the value its
    type code and the expected type give, or the reason there is none. *)
Theorem eip_read_transparent config deny tags cache s items :
  serving config deny tags cache s → config_wf config →
  Forall (λ i, is_Some (outcome_ok (parse (ri_address i)))) items →
  ∃ s' rs, read_batch items s = (s', Ok rs) ∧ serving config deny tags cache s' ∧
    Some <$> rs ≡ₚ read_alone tags <$> items.
Proof. apply read_batch_served_eip. Qed.
