(* ===== verification/EipWriteEndToEnd.v ===== *)
(** * The EtherNet/IP driver against the simulated controller: writing

    The two stages of a batch write on a healthy controller, the outcome of
    every request and what the table of tags holds afterwards. *)

From S2P Require Import Prelude RustStd ObservationModel DriverAbi BatchRuns EipAddress EipFrame EipCodec.
From S2P Require Import EipDriver EipLoopback EipEndToEnd.
From stdpp Require Import options.

(** ** What a write comes to, on its own *)

(** The type the driver writes a tag with: the one it knows, or the one the
    controller declares. *)
Definition tag_type (tags : gmap str TagValue) (cache : gmap str Z) (tag : str) : option Z :=
  match cache !! tag with
  | Some tc => Some tc
  | None => tv_type_code <$> tags !! tag
  end.

Definition write_error (deny : gset str) (tags : gmap str TagValue) (cache : gmap str Z) (tag : str)
    (value : RawValue.t) : option EtherIpError.t :=
  match tag_type tags cache tag with
  | None => Some (item_status_error STATUS_PATH_NOT_FOUND)
  | Some tc =>
      match encode_write tc value with
      | Ok _ => if bool_decide (tag ∈ deny) then Some (item_status_error STATUS_ACCESS_DENIED) else None
      | Err e => Some e
      | Panic => Some EtherIpError.driver_panic
      end
  end.

Definition write_result (id : Z) (e : option EtherIpError.t) : RawWriteResult :=
  match e with None => write_ok_result id | Some e => write_error_result id e end.

Definition write_alone (deny : gset str) (tags : gmap str TagValue) (cache : gmap str Z) (item : WriteRequest) :
    RawWriteResult :=
  write_result (wq_id item)
    match parse (wq_address item) with
    | Ok p => write_error deny tags cache (tp_raw p) (wq_value item)
    | _ => Some EtherIpError.invalid_address
    end.

(** The message of a request, if it is sent. *)
Definition write_op (tags : gmap str TagValue) (cache : gmap str Z) (item : WriteRequest) : option Op :=
  match parse (wq_address item) with
  | Ok p =>
      match tag_type tags cache (tp_raw p) with
      | Some tc =>
          match encode_write tc (wq_value item) with
          | Ok payload => Some (WriteOp (tp_raw p) tc payload)
          | _ => None
          end
      | None => None
      end
  | _ => None
  end.

(** A request with a valid path whose encoding does not panic. *)
Definition writable (tags : gmap str TagValue) (cache : gmap str Z) (item : WriteRequest) : Prop :=
  ∃ p, parse (wq_address item) = Ok p ∧
    ∀ tc, tag_type tags cache (tp_raw p) = Some tc → encode_write tc (wq_value item) ≠ Panic.

(** ** The stages *)
Definition staged_discovery (st : outcome EtherIpError.t staged) : option TypeDiscovery :=
  match st with Ok (Discover d) => Some d | _ => None end.
Definition staged_ready (st : outcome EtherIpError.t staged) : option ReadyWrite :=
  match st with Ok (Ready w) => Some w | _ => None end.
Definition staged_failed (st : outcome EtherIpError.t staged) : option (Z * EtherIpError.t) :=
  match st with Ok (Failed id e) => Some (id, e) | _ => None end.

Lemma plan_write_stage1_spec items cache :
  Forall (λ i, ∃ st, stage_item cache i = Ok st) items →
  plan_write_stage1 items cache =
    Ok (omap (staged_discovery ∘ stage_item cache) items, omap (staged_ready ∘ stage_item cache) items,
        omap (staged_failed ∘ stage_item cache) items).
Proof.
  induction 1 as [|i items [st Hst] _ IH]; [done|]. cbn [plan_write_stage1 omap list_omap]. unfold compose in *.
  rewrite Hst. cbn [outcome_bind]. rewrite IH. by destruct st.
Qed.

(** One request under what is known of its tag. *)
Lemma stage_item_spec cache i p :
  parse (wq_address i) = Ok p →
  (∀ tc, cache !! tp_raw p = Some tc → encode_write tc (wq_value i) ≠ Panic) →
  stage_item cache i =
    Ok match cache !! tp_raw p with
       | None => Discover {| td_id := wq_id i; td_tag := tp_raw p; td_value := wq_value i |}
       | Some tc =>
           match encode_write tc (wq_value i) with
           | Ok payload =>
               Ready {| rw_id := wq_id i; rw_tag := tp_raw p; rw_type_code := tc; rw_payload := payload |}
           | Err e => Failed (wq_id i) e
           | Panic => Failed (wq_id i) EtherIpError.driver_panic
           end
       end.
Proof.
  intros Hp Hn. unfold stage_item. rewrite Hp. cbn [map_err outcome_bind].
  destruct (cache !! tp_raw p) as [tc|]; [|done]. specialize (Hn tc eq_refl).
  by destruct (encode_write tc (wq_value i)).
Qed.

(** ** Discovery *)
Lemma discovered_type_spec deny tags tag :
  small tags →
  discovered_type (op_reply deny tags (ReadOp tag)) =
    match tags !! tag with Some v => (STATUS_SUCCESS, Some (tv_type_code v)) | None => (STATUS_PATH_NOT_FOUND, None) end.
Proof.
  intros Hs. unfold op_reply. destruct (tags !! tag) as [v|] eqn:E; [|done]. destruct (Hs _ _ E) as [Ht _].
  set (tb := to_le_bytes 2 (tv_type_code v)). assert (length tb = 2%nat) as Htb by apply length_to_le_bytes.
  unfold discovered_type. change (([_; _; _; _] ++ tb ++ tv_data v) !! 2%nat) with (Some STATUS_SUCCESS).
  cbn [default]. cbn zeta. change (STATUS_SUCCESS =? STATUS_SUCCESS) with true.
  rewrite !length_app, Htb. cbn [length andb]. replace (6 <=? _)%nat with true by lia.
  change (slice 4 6 ([_; _; _; _] ++ tb ++ tv_data v)) with (slice 0 2 (tb ++ tv_data v)).
  rewrite slice_app_here by done. unfold tb. by rewrite le_bytes_back.
Qed.

Definition learn (tags : gmap str TagValue) (cache : gmap str Z) (d : TypeDiscovery) : gmap str Z :=
  match tags !! td_tag d with Some v => <[td_tag d := tv_type_code v]> cache | None => cache end.

Definition settle_missing (tags : gmap str TagValue) (t : Tally) (d : TypeDiscovery) : Tally :=
  match tags !! td_tag d with
  | Some _ => t
  | None => settle_failed (td_id d) (item_status_error STATUS_PATH_NOT_FOUND) t
  end.

Lemma register_types_spec deny tags discovery cache tally :
  small tags →
  register_types discovery ((λ d, op_reply deny tags (ReadOp (td_tag d))) <$> discovery) cache tally =
    (foldl (learn tags) cache discovery, foldl (settle_missing tags) tally discovery).
Proof.
  intros Hs. revert cache tally. induction discovery as [|d ds IH]; intros cache tally; [done|].
  rewrite fmap_cons. cbn [register_types foldl]. rewrite discovered_type_spec by done.
  unfold learn at 2, settle_missing at 2. destruct (tags !! td_tag d); apply IH.
Qed.

Lemma discover_chunks_served config deny tags cache groups discovery tally s :
  serving config deny tags cache s → Forall packet_ok groups →
  concat groups = (λ d, ReadOp (td_tag d)) <$> discovery →
  ∃ s', discover_chunks (fmap (M:=list) op_bytes <$> groups) discovery tally s =
          (s', Ok (foldl (settle_missing tags) tally discovery)) ∧
    serving config deny tags (foldl (learn tags) cache discovery) s'.
Proof.
  revert cache discovery tally s. induction groups as [|g groups IH]; intros cache discovery tally s Hs Hok Hg.
  { destruct discovery; [|done]. by exists s. }
  inversion_clear Hok as [|? ? Hp Hok']. cbn [concat] in Hg. rewrite fmap_cons. cbn [discover_chunks].
  destruct (packet_served _ _ _ _ _ _ Hs Hp) as ([d1 l1] & reply & He & Hr & Hs1).
  rewrite length_fmap in *. set (n := length g) in *. assert (n = length g) as Hn by done. clearbody n.
  assert (g = ReadOp <$> (td_tag <$> take n discovery)) as Hgn.
  { rewrite <- list_fmap_compose, fmap_take. unfold compose. rewrite <- Hg. symmetry. by apply take_app_exact. }
  rewrite Hgn, reads_keep_tags in Hs1. rewrite He. unfold slift at 1. unfold sbind at 1. rewrite Hr.
  assert (op_replies deny tags g = (λ d, op_reply deny tags (ReadOp (td_tag d))) <$> take n discovery) as ->.
  { rewrite Hgn at 1. by rewrite op_replies_reads, <- list_fmap_compose. }
  unfold sget at 1. unfold sbind at 1. rewrite register_types_spec by apply Hs.
  pose proof (sv_cache _ _ _ _ _ Hs1) as Hc. cbn [fst] in Hc. rewrite Hc.
  unfold smodify at 1. unfold sbind at 1. set (cache1 := foldl (learn tags) cache (take n discovery)).
  assert (serving config deny tags cache1 (set_type_cache cache1 d1, l1)) as Hs2 by (by destruct Hs1).
  destruct (IH cache1 (drop n discovery) (foldl (settle_missing tags) tally (take n discovery)) _ Hs2 Hok')
    as (s' & H1 & H2).
  { rewrite fmap_drop, <- Hg. symmetry. by apply drop_app_exact. }
  exists s'. unfold cache1 in *. rewrite <- !foldl_app, take_drop in *. done.
Qed.

(** What the driver knows after discovery. *)
Lemma learn_lookup tags cache discovery tag :
  Forall (λ d, cache !! td_tag d = None) discovery →
  foldl (learn tags) cache discovery !! tag =
    if bool_decide (tag ∈ td_tag <$> discovery) then tag_type tags cache tag else cache !! tag.
Proof.
  intros Hd. assert (∀ c, (∀ t, t ∈ td_tag <$> discovery → c !! t = cache !! t ∨ c !! t = tag_type tags cache t) →
    foldl (learn tags) c discovery !! tag =
      if bool_decide (tag ∈ td_tag <$> discovery) then tag_type tags cache tag else c !! tag) as Hgen.
  2:{ apply Hgen. by left. }
  induction Hd as [|d ds Hd0 Hd IH]; intros c Hc; [done|]. cbn [foldl]. rewrite fmap_cons in *.
  assert (learn tags c d !! td_tag d = tag_type tags cache (td_tag d)) as Hl.
  { unfold learn, tag_type. rewrite Hd0. destruct (tags !! td_tag d) as [v|] eqn:E; cbn.
    - by rewrite lookup_insert_eq.
    - destruct (Hc (td_tag d)) as [H|H]; [set_solver|by rewrite H|]. rewrite H. unfold tag_type. by rewrite Hd0, E. }
  assert (∀ t, t ≠ td_tag d → learn tags c d !! t = c !! t) as Hother.
  { intros t Ht. unfold learn. destruct (tags !! td_tag d); [|done]. by rewrite lookup_insert_ne. }
  rewrite IH.
  - destruct (decide (tag = td_tag d)) as [->|Hne].
    + rewrite (bool_decide_eq_true_2 (td_tag d ∈ td_tag d :: _)) by set_solver. case_if; [done|]. exact Hl.
    + rewrite Hother by done.
      by rewrite (bool_decide_ext (tag ∈ td_tag <$> ds) (tag ∈ td_tag d :: (td_tag <$> ds))) by set_solver.
  - intros t Ht. destruct (decide (t = td_tag d)) as [->|Hne]; [by right|]. rewrite Hother by done. apply Hc. set_solver.
Qed.

(** ** Tallies *)
Lemma filter_ext_elem {A} (P Q : A → Prop) `{!∀ x, Decision (P x), !∀ x, Decision (Q x)} (l : list A) :
  (∀ x, x ∈ l → P x ↔ Q x) → filter P l = filter Q l.
Proof.
  induction l as [|x l IH]; intros HPQ; [done|]. rewrite !filter_cons, IH by (intros y Hy; apply HPQ; by constructor).
  assert (P x ↔ Q x) as Hx by (apply HPQ; constructor). by destruct (decide (P x)), (decide (Q x)); tauto.
Qed.

(** The results in the order in which they are settled. *)
Definition settle_all (l : list (Z * RawWriteResult)) (t : Tally) : Tally :=
  foldl (λ t p, settle_new p.1 p.2 t) t l.

Lemma settle_all_spec l t :
  NoDup l.*1 → (settle_all l t).2 = t.2 ++ (filter (λ p, p.1 ∉ t.1) l).*2.
Proof.
  unfold settle_all. revert t. induction l as [|[id r] l IH]; intros t Hnd; cbn [foldl]; [by rewrite app_nil_r|].
  rewrite fmap_cons in Hnd. apply NoDup_cons in Hnd as [Hid Hnd]. rewrite IH by done. unfold settle_new.
  cbn [fst snd]. rewrite filter_cons. cbn [fst]. case_bool_decide as Hin.
  - by rewrite decide_False by (intros H; by apply H).
  - rewrite decide_True by done. cbn [fst snd]. rewrite fmap_cons, <- app_assoc. do 2 f_equal. cbn. f_equal. f_equal.
    apply filter_ext_elem. intros [id' r'] Hr. cbn.
    assert (id' ≠ id) by (intros ->; apply Hid; apply list_elem_of_fmap; by exists (id, r')). set_solver.
Qed.

(** The failures settled without a check. *)
Definition settle_errors (l : list (Z * EtherIpError.t)) (t : Tally) : Tally :=
  foldl (λ t '(id, e), settle_failed id e t) t l.

Lemma settle_errors_spec l t :
  (settle_errors l t).2 = t.2 ++ ((λ '(id, e), write_error_result id e) <$> l) ∧
  ∀ id, id ∈ (settle_errors l t).1 ↔ id ∈ t.1 ∨ id ∈ l.*1.
Proof.
  unfold settle_errors. revert t. induction l as [|[id e] l IH]; intros t; cbn [foldl].
  { rewrite app_nil_r. split; [done|]. intros id. cbn. set_solver. }
  destruct (IH (settle_failed id e t)) as [H1 H2]. split.
  - rewrite H1. cbn [settle_failed snd]. by rewrite <- app_assoc.
  - intros id'. rewrite H2, !fmap_cons. cbn. set_solver.
Qed.

Definition missing (tags : gmap str TagValue) (d : TypeDiscovery) : option (Z * EtherIpError.t) :=
  match tags !! td_tag d with
  | Some _ => None
  | None => Some (td_id d, item_status_error STATUS_PATH_NOT_FOUND)
  end.

Lemma settle_missing_errors tags discovery t :
  foldl (settle_missing tags) t discovery = settle_errors (omap (missing tags) discovery) t.
Proof.
  unfold settle_errors. revert t. induction discovery as [|d ds IH]; intros t; [done|]. cbn [foldl omap list_omap].
  rewrite IH. unfold settle_missing, missing. by destruct (tags !! td_tag d).
Qed.

(** ** Writing *)
Definition ready_op (w : ReadyWrite) : Op := WriteOp (rw_tag w) (rw_type_code w) (rw_payload w).

Definition ready_result (deny : gset str) (w : ReadyWrite) : Z * RawWriteResult :=
  (rw_id w,
   write_result (rw_id w) (if bool_decide (rw_tag w ∈ deny) then Some (item_status_error STATUS_ACCESS_DENIED) else None)).

Lemma op_replies_writes deny tags (ws : list ReadyWrite) :
  op_replies deny tags (ready_op <$> ws) =
    (λ w, [Z.lor SVC_WRITE_TAG 0x80; 0x00;
           if bool_decide (rw_tag w ∈ deny) then STATUS_ACCESS_DENIED else STATUS_SUCCESS]) <$> ws.
Proof. revert tags. induction ws as [|w ws IH]; intros tags; [done|]. rewrite !fmap_cons. cbn [op_replies]. by rewrite IH. Qed.

Lemma settle_writes_spec deny ws t :
  settle_writes ws
    ((λ w, [Z.lor SVC_WRITE_TAG 0x80; 0x00;
            if bool_decide (rw_tag w ∈ deny) then STATUS_ACCESS_DENIED else STATUS_SUCCESS]) <$> ws) t =
    settle_all (ready_result deny <$> ws) t.
Proof.
  revert t. induction ws as [|w ws IH]; intros t; [done|]. rewrite !fmap_cons. unfold settle_all. cbn [settle_writes foldl].
  fold (settle_all (ready_result deny <$> ws)). rewrite IH. f_equal. unfold settle_write, ready_result.
  cbn [fst snd]. change (default 255 ([_; _; ?x] !! 2%nat)) with x. by case_bool_decide.
Qed.

Lemma eip_write_chunks_served config deny tags cache groups ready tally s :
  serving config deny tags cache s → Forall packet_ok groups → concat groups = ready_op <$> ready →
  ∃ s', write_chunks (fmap (M:=list) op_bytes <$> groups) ready tally s =
          (s', Ok (settle_all (ready_result deny <$> ready) tally)) ∧
    serving config deny (foldl (op_tags deny) tags (ready_op <$> ready)) cache s'.
Proof.
  revert tags ready tally s. induction groups as [|g groups IH]; intros tags ready tally s Hs Hok Hg.
  { destruct ready; [|done]. by exists s. }
  inversion_clear Hok as [|? ? Hp Hok']. cbn [concat] in Hg. rewrite fmap_cons. cbn [write_chunks].
  destruct (packet_served _ _ _ _ _ _ Hs Hp) as (s1 & reply & He & Hr & Hs1).
  rewrite length_fmap in *. set (n := length g) in *. assert (n = length g) as Hn by done. clearbody n.
  assert (g = ready_op <$> take n ready) as Hgn.
  { rewrite fmap_take, <- Hg. symmetry. by apply take_app_exact. }
  rewrite (sbind_Ok _ _ _ _ _ He). unfold slift at 1. unfold sbind at 1. rewrite Hr.
  rewrite Hgn in Hs1. set (replies := op_replies deny tags g) in *.
  assert (settle_writes (take n ready) replies tally = settle_all (ready_result deny <$> take n ready) tally) as ->.
  { unfold replies. rewrite Hgn. rewrite op_replies_writes. apply settle_writes_spec. }
  destruct (IH _ (drop n ready) (settle_all (ready_result deny <$> take n ready) tally) s1 Hs1 Hok') as (s' & H1 & H2).
  { rewrite fmap_drop, <- Hg. symmetry. by apply drop_app_exact. }
  exists s'. unfold settle_all in *. rewrite <- !foldl_app, <- !fmap_app, take_drop in *. done.
Qed.

(** ** The outcome of every request *)

(** The result a request has before anything is written. *)
Definition early (tags : gmap str TagValue) (cache : gmap str Z) (i : WriteRequest) : option (Z * EtherIpError.t) :=
  match staged_failed (stage_item cache i) with
  | Some r => Some r
  | None => staged_discovery (stage_item cache i) ≫= missing tags
  end.

(** The result the second stage has for it. *)
Definition late (deny : gset str) (cache : gmap str Z) (i : WriteRequest) : option (Z * RawWriteResult) :=
  match stage_item cache i with
  | Ok (Failed id e) => Some (id, write_error_result id e)
  | Ok (Ready w) => Some (ready_result deny w)
  | _ => None
  end.

Lemma NoDup_fmap_inj_in {A B} (f : A → B) l x y : NoDup (f <$> l) → x ∈ l → y ∈ l → f x = f y → x = y.
Proof.
  induction l as [|z l IH]; intros Hnd Hx Hy Hf; [by apply elem_of_nil in Hx|].
  rewrite fmap_cons in Hnd. apply NoDup_cons in Hnd as [Hz Hnd].
  apply elem_of_cons in Hx as [->|Hx], Hy as [->|Hy]; try done; [| |by apply IH].
  - exfalso. apply Hz. rewrite Hf. by apply list_elem_of_fmap_2.
  - exfalso. apply Hz. rewrite <- Hf. by apply list_elem_of_fmap_2.
Qed.

(** Early results, and the late ones of the others, are one result each. *)
Lemma results_perm (f : WriteRequest → RawWriteResult) (e : WriteRequest → option (Z * EtherIpError.t))
    (g : WriteRequest → option (Z * RawWriteResult)) (S : gset Z) items :
  (∀ i, i ∈ items → ∀ p, e i = Some p → p.1 = wq_id i ∧ write_error_result p.1 p.2 = f i) →
  (∀ i, i ∈ items → e i = None → g i = Some (wq_id i, f i)) →
  (∀ i p, i ∈ items → g i = Some p → p.1 = wq_id i) →
  (∀ i, i ∈ items → wq_id i ∈ S ↔ is_Some (e i)) →
  ((λ '(id, er), write_error_result id er) <$> omap e items) ++ (filter (λ p, p.1 ∉ S) (omap g items)).*2
    ≡ₚ f <$> items.
Proof.
  intros He Hg Hid HS. induction items as [|i items IH]; [done|].
  assert (i ∈ i :: items) as Hi by constructor.
  specialize (IH (λ j Hj, He j (list_elem_of_further _ _ _ Hj)) (λ j Hj, Hg j (list_elem_of_further _ _ _ Hj))
                 (λ j p Hj, Hid j p (list_elem_of_further _ _ _ Hj)) (λ j Hj, HS j (list_elem_of_further _ _ _ Hj))).
  rewrite fmap_cons, <- IH. cbn [omap list_omap]. destruct (e i) as [[id er]|] eqn:Ei.
  - destruct (He i Hi _ Ei) as [H1 H2]. cbn [fst snd] in *. rewrite fmap_cons, H2. cbn [app].
    apply perm_skip. destruct (g i) as [[id' r]|] eqn:Eg; [|done]. rewrite filter_cons.
    rewrite decide_False; [done|]. pose proof (Hid i _ Hi Eg) as E. cbn [fst] in *. rewrite E.
    intros Hn. apply Hn. apply HS; [done|]. by rewrite Ei.
  - rewrite (Hg i Hi Ei). rewrite filter_cons. cbn [fst]. rewrite decide_True.
    + rewrite fmap_cons. cbn [snd]. by rewrite <- Permutation_middle.
    + intros Hin. apply HS in Hin; [|done]. rewrite Ei in Hin. by destruct Hin.
Qed.

Lemma omap_split {A B} (f1 f2 : A → option B) (l : list A) :
  (∀ x, f1 x = None ∨ f2 x = None) →
  omap f1 l ++ omap f2 l ≡ₚ omap (λ x, match f1 x with Some r => Some r | None => f2 x end) l.
Proof.
  intros H. induction l as [|x l IH]; [done|]. cbn [omap list_omap]. destruct (H x) as [E|E]; rewrite E.
  - destruct (f2 x); [by rewrite <- Permutation_middle, IH|done].
  - destruct (f1 x); [by rewrite <- IH|done].
Qed.

Lemma omap_omap {A B C} (f : A → option B) (g : B → option C) (l : list A) :
  omap g (omap f l) = omap (λ x, f x ≫= g) l.
Proof. induction l as [|x l IH]; [done|]. cbn [omap list_omap]. destruct (f x) as [y|]; cbn; by rewrite <- IH. Qed.

Lemma fmap_omap {A B C} (f : A → option B) (g : B → C) (l : list A) : g <$> omap f l = omap (λ x, g <$> f x) l.
Proof. induction l as [|x l IH]; [done|]. cbn [omap list_omap]. destruct (f x) as [y|]; [|exact IH].
  change (g y :: (g <$> omap f l) = g y :: omap (λ x, g <$> f x) l). by rewrite IH.
Qed.

(** The two stages of a batch of writable requests. *)
Section stages.
Context (deny : gset str) (tags : gmap str TagValue) (cache : gmap str Z) (items : list WriteRequest).
Hypothesis Hw : Forall (writable tags cache) items.

Definition discovery : list TypeDiscovery := omap (staged_discovery ∘ stage_item cache) items.
Definition known : gmap str Z := foldl (learn tags) cache discovery.

Lemma cached_type p tc : cache !! tp_raw p = Some tc → tag_type tags cache (tp_raw p) = Some tc.
Proof using. unfold tag_type. by intros ->. Qed.

Lemma stage1_item i : i ∈ items → ∃ p, parse (wq_address i) = Ok p ∧
  (∀ tc, tag_type tags cache (tp_raw p) = Some tc → encode_write tc (wq_value i) ≠ Panic) ∧
  ∀ c, (∀ tc, c !! tp_raw p = Some tc → tag_type tags cache (tp_raw p) = Some tc) →
  stage_item c i =
    Ok match c !! tp_raw p with
       | None => Discover {| td_id := wq_id i; td_tag := tp_raw p; td_value := wq_value i |}
       | Some tc =>
           match encode_write tc (wq_value i) with
           | Ok payload =>
               Ready {| rw_id := wq_id i; rw_tag := tp_raw p; rw_type_code := tc; rw_payload := payload |}
           | Err e => Failed (wq_id i) e
           | Panic => Failed (wq_id i) EtherIpError.driver_panic
           end
       end.
Proof using Hw.
  intros Hi. rewrite Forall_forall in Hw. destruct (Hw i Hi) as (p & Hp & Hn). exists p. split_and!; [done|done|].
  intros c Hc. apply stage_item_spec; [done|]. intros tc Htc. by apply Hn, Hc.
Qed.

Lemma stage_discover i p :
  parse (wq_address i) = Ok p → cache !! tp_raw p = None →
  stage_item cache i = Ok (Discover {| td_id := wq_id i; td_tag := tp_raw p; td_value := wq_value i |}).
Proof using. intros Hp Hc. unfold stage_item. rewrite Hp. cbn [map_err outcome_bind]. by rewrite Hc. Qed.

Lemma discovery_spec d :
  d ∈ discovery → ∃ i p, i ∈ items ∧ parse (wq_address i) = Ok p ∧ cache !! tp_raw p = None ∧
    d = {| td_id := wq_id i; td_tag := tp_raw p; td_value := wq_value i |}.
Proof using.
  unfold discovery. intros (i & Hi & Hd)%list_elem_of_omap. unfold compose, stage_item in Hd.
  destruct (parse (wq_address i)) as [p| |] eqn:Hp; [|done..]. cbn [map_err outcome_bind] in Hd.
  destruct (cache !! tp_raw p) as [tc|] eqn:E; [by destruct (encode_write tc (wq_value i))|].
  injection Hd as <-. by exists i, p.
Qed.

Lemma known_type i p : i ∈ items → parse (wq_address i) = Ok p → known !! tp_raw p = tag_type tags cache (tp_raw p).
Proof using.
  intros Hi Hp. unfold known. rewrite learn_lookup.
  2:{ apply Forall_forall. intros d (j & q & _ & _ & Hq & ->)%discovery_spec. exact Hq. }
  case_bool_decide as Hin; [done|]. unfold tag_type. destruct (cache !! tp_raw p) as [tc|] eqn:E; [done|].
  exfalso. apply Hin. apply list_elem_of_fmap. exists {| td_id := wq_id i; td_tag := tp_raw p; td_value := wq_value i |}.
  split; [done|]. unfold discovery. apply list_elem_of_omap. exists i. split; [done|].
  unfold compose. by rewrite (stage_discover i p Hp E).
Qed.

Lemma early_spec i r :
  i ∈ items → early tags cache i = Some r → r.1 = wq_id i ∧ write_error_result r.1 r.2 = write_alone deny tags cache i.
Proof using Hw.
  intros Hi. destruct (stage1_item i Hi) as (p & Hp & Hn & Hs). unfold early, write_alone, write_error.
  rewrite Hp, (Hs cache) by (intros tc; apply cached_type). unfold tag_type in *.
  destruct (cache !! tp_raw p) as [tc|] eqn:E.
  - specialize (Hn tc eq_refl). destruct (encode_write tc (wq_value i)); cbn; try done. by intros [= <-].
  - cbn. unfold missing. cbn. destruct (tags !! tp_raw p); cbn; [done|]. by intros [= <-].
Qed.

Lemma late_spec i :
  i ∈ items →
  (early tags cache i = None → late deny known i = Some (wq_id i, write_alone deny tags cache i)) ∧
  ∀ r, late deny known i = Some r → r.1 = wq_id i.
Proof using Hw.
  intros Hi. destruct (stage1_item i Hi) as (p & Hp & Hn & Hs). unfold late, write_alone, write_error.
  assert (known !! tp_raw p = tag_type tags cache (tp_raw p)) as Hk by (by apply (known_type i)).
  rewrite Hp, (Hs known) by (intros tc; by rewrite Hk). rewrite Hk. split.
  - unfold early. rewrite (Hs cache) by (intros tc; apply cached_type). unfold tag_type in *.
    destruct (cache !! tp_raw p) as [tc|].
    + specialize (Hn tc eq_refl). by destruct (encode_write tc (wq_value i)).
    + cbn. unfold missing. cbn. destruct (tags !! tp_raw p) as [v|]; cbn; [|done]. intros _.
      specialize (Hn _ eq_refl). by destruct (encode_write (tv_type_code v) (wq_value i)).
  - destruct (tag_type tags cache (tp_raw p)) as [tc|]; [|done].
    by destruct (encode_write tc (wq_value i)); intros r [= <-].
Qed.

Lemma stage_total c :
  (∀ i p, i ∈ items → parse (wq_address i) = Ok p → ∀ tc, c !! tp_raw p = Some tc → tag_type tags cache (tp_raw p) = Some tc) →
  Forall (λ i, ∃ st, stage_item c i = Ok st) items.
Proof using Hw.
  intros Hc. apply Forall_forall. intros i Hi. destruct (stage1_item i Hi) as (p & Hp & _ & Hs).
  rewrite (Hs c (Hc i p Hi Hp)). by eexists.
Qed.

(** The messages of the second stage are those of the requests. *)
Lemma ready_ops : ready_op <$> omap (staged_ready ∘ stage_item known) items = omap (write_op tags cache) items.
Proof using Hw.
  rewrite fmap_omap. apply list_omap_ext, Forall_Forall2_diag, Forall_forall. intros i Hi. unfold compose, write_op.
  destruct (stage1_item i Hi) as (p & Hp & Hn & Hs). pose proof (known_type i p Hi Hp) as Hk.
  rewrite Hp, (Hs known) by (intros tc; by rewrite Hk). rewrite Hk.
  destruct (tag_type tags cache (tp_raw p)) as [tc|]; [|done]. specialize (Hn tc eq_refl).
  by destruct (encode_write tc (wq_value i)).
Qed.

Lemma type_width_code tc w : type_width tc = Some w → in_u 16 tc.
Proof using.
  unfold type_width. repeat match goal with |- context [?a =? ?b] => destruct (Z.eqb_spec a b) as [->|_]; [done|] end. done.
Qed.

Lemma ready_ops_ok : Forall op_ok (omap (write_op tags cache) items).
Proof using Hw.
  apply Forall_forall. intros op (i & Hi & Hop)%list_elem_of_omap. unfold write_op in Hop.
  destruct (parse (wq_address i)) as [p| |] eqn:Hp; [|done..].
  destruct (tag_type tags cache (tp_raw p)) as [tc|]; [|done].
  destruct (encode_write tc (wq_value i)) as [payload| |] eqn:He; [|done..]. injection Hop as <-.
  destruct (eip_encode_write_shape _ _ _ He) as (_ & w & Hwd & Hl & Hb). split; [by apply (eip_parse_tag_ok _ _ Hp)|].
  split; [by apply (type_width_code tc w)|lia].
Qed.

Lemma discovery_ops_ok : Forall op_ok ((λ d, ReadOp (td_tag d)) <$> discovery).
Proof using.
  apply Forall_fmap, Forall_forall. intros d (i & p & _ & Hp & _ & ->)%discovery_spec. split; [|done].
  cbn. by apply (eip_parse_tag_ok _ _ Hp).
Qed.

(** The tally before anything is written, and the results of the batch. *)
Definition failed1 : list (Z * EtherIpError.t) := omap (staged_failed ∘ stage_item cache) items.
Definition failed2 : list (Z * EtherIpError.t) := omap (staged_failed ∘ stage_item known) items.
Definition ready2 : list ReadyWrite := omap (staged_ready ∘ stage_item known) items.

Definition final_tally : Tally :=
  settle_all (ready_result deny <$> ready2)
    (settle_all ((λ '(id, e), (id, write_error_result id e)) <$> failed2)
       (foldl (settle_missing tags) (settle_errors failed1 (∅, [])) discovery)).

Lemma early_perm : failed1 ++ omap (missing tags) discovery ≡ₚ omap (early tags cache) items.
Proof using.
  unfold failed1, discovery. rewrite omap_omap. apply omap_split. intros i. unfold compose.
  destruct (stage_item cache i) as [[]| |]; auto.
Qed.

Lemma late_perm :
  ((λ '(id, e), (id, write_error_result id e)) <$> failed2) ++ (ready_result deny <$> ready2)
    ≡ₚ omap (late deny known) items.
Proof using.
  unfold failed2, ready2. rewrite !fmap_omap. rewrite omap_split.
  - assert (∀ l : list WriteRequest, omap (λ x, match (λ '(id, e), (id, write_error_result id e)) <$> (staged_failed ∘ stage_item known) x with
              | Some r => Some r | None => ready_result deny <$> (staged_ready ∘ stage_item known) x end) l
            = omap (late deny known) l) as H.
    { intros l. apply list_omap_ext, Forall_Forall2_diag, Forall_forall. intros i _. unfold compose, late.
      by destruct (stage_item known i) as [[]| |]. }
    by rewrite H.
  - intros i. unfold compose. destruct (stage_item known i) as [[]| |]; auto.
Qed.

Lemma final_results : NoDup (wq_id <$> items) → (final_tally).2 ≡ₚ write_alone deny tags cache <$> items.
Proof using Hw.
  intros Hnd. unfold final_tally. rewrite settle_missing_errors.
  set (t1 := settle_errors (omap (missing tags) discovery) (settle_errors failed1 (∅, []))).
  assert (t1.2 = ((λ '(id, e), write_error_result id e) <$> (failed1 ++ omap (missing tags) discovery)) ∧
          ∀ id, id ∈ t1.1 ↔ id ∈ (failed1 ++ omap (missing tags) discovery).*1) as [Hr HS].
  { destruct (settle_errors_spec failed1 (∅, [])) as [A1 A2].
    destruct (settle_errors_spec (omap (missing tags) discovery) (settle_errors failed1 (∅, []))) as [B1 B2].
    unfold t1. rewrite B1, A1, fmap_app. split; [done|]. intros id. rewrite B2, A2, fmap_app, elem_of_app. cbn. set_solver. }
  clearbody t1. unfold settle_all. rewrite <- foldl_app.
  set (l := ((λ '(id, e), (id, write_error_result id e)) <$> failed2) ++ (ready_result deny <$> ready2)).
  fold (settle_all l t1). assert (l ≡ₚ omap (late deny known) items) as Hl by apply late_perm.
  assert ((omap (late deny known) items).*1 `sublist_of` wq_id <$> items) as Hsub.
  { assert (∀ k, (∀ i, i ∈ k → i ∈ items) → (omap (late deny known) k).*1 `sublist_of` wq_id <$> k) as H; [|by apply H].
    induction k as [|i k IH]; intros Hk; [done|]. cbn [omap list_omap]. rewrite fmap_cons.
    assert (∀ j, j ∈ k → j ∈ items) as Hk' by (intros j Hj; apply Hk; by constructor).
    destruct (late deny known i) as [r|] eqn:E.
    - rewrite fmap_cons. rewrite (proj2 (late_spec i (Hk i (list_elem_of_here _ _))) r E). by apply sublist_skip, IH.
    - by apply sublist_cons, IH. }
  rewrite settle_all_spec by (rewrite Hl; by eapply sublist_NoDup). rewrite Hr.
  rewrite (filter_Permutation _ _ _ Hl), early_perm.
  apply (results_perm (write_alone deny tags cache) (early tags cache) (late deny known)).
  - intros i Hi r Hre. by apply early_spec.
  - intros i Hi Hn. by apply late_spec.
  - intros i r Hi Hlr. by apply (late_spec i Hi).
  - intros i Hi. rewrite HS, early_perm. split.
    + intros (r & Hid & (j & Hj & Hjr)%list_elem_of_omap)%list_elem_of_fmap.
      destruct (early_spec j r Hj Hjr) as [Hrj _].
      assert (i = j) as -> by (apply (NoDup_fmap_inj_in wq_id items); [done..|congruence]). by eexists.
    + intros [r Hri]. apply list_elem_of_fmap. exists r. destruct (early_spec i r Hi Hri) as [Hrj _].
      split; [done|]. apply list_elem_of_omap. by exists i.
Qed.
End stages.

(** ** A batch *)
Lemma op_tags_other deny tags ops tag :
  Forall (λ op, op_tag op ≠ tag ∨ tag ∈ deny) ops → foldl (op_tags deny) tags ops !! tag = tags !! tag.
Proof.
  intros H. revert tags. induction H as [|op ops Ho _ IH]; intros tags; [done|]. cbn [foldl]. rewrite IH.
  destruct op as [t|t tc p]; [done|]. cbn in *. case_bool_decide; [done|].
  destruct Ho as [Ho|Ho]; [by rewrite lookup_insert_ne|]. destruct (decide (t = tag)) as [->|]; [done|].
  by rewrite lookup_insert_ne.
Qed.

(** The first stage: the types of the unknown tags are learnt. *)
Lemma discovery_served config deny tags cache s items :
  serving config deny tags cache s → config_wf config → Forall (λ i, ∃ st, stage_item cache i = Ok st) items →
  ∃ s1, serving config deny tags (known tags cache items) s1 ∧
    write_batch items s =
      write_known items (ec_max_services_per_multi config) (ec_max_bytes_per_multi config)
        (foldl (settle_missing tags) (settle_errors (failed1 cache items) (∅, [])) (discovery cache items)) s1.
Proof.
  intros Hs Hwf Ht1. destruct (chunk_packets config _ Hwf (discovery_ops_ok cache items)) as (groups & Hg & Hm & Hp).
  set (t0 := settle_errors (failed1 cache items) (∅, [])).
  destruct (discover_chunks_served config deny tags cache groups (discovery cache items) t0 s Hs Hp Hg)
    as ([d1 l1] & Hd & Hs1).
  exists (d1, l1). split; [exact Hs1|].
  unfold write_batch. rewrite (sbind_Ok _ _ _ _ _ (ensure_connected_serving _ _ _ _ _ Hs)).
  destruct s as [d l]. unfold sget at 1. unfold sbind at 1.
  pose proof (sv_config _ _ _ _ _ Hs) as Hc. pose proof (sv_cache _ _ _ _ _ Hs) as Hca. cbn [fst] in Hc, Hca.
  rewrite Hc, Hca. cbn zeta. unfold slift at 1. unfold sbind at 1. rewrite plan_write_stage1_spec by done.
  fold (discovery cache items). fold (failed1 cache items). fold (settle_errors (failed1 cache items) (∅, [])).
  fold t0. erewrite sbind_Ok; [reflexivity|].
  rewrite <- list_fmap_compose in Hm. unfold compose in Hm.
  change ((λ x, op_bytes (ReadOp (td_tag x))) <$> discovery cache items)
    with ((λ d, build_read_tag (td_tag d)) <$> discovery cache items) in Hm.
  rewrite <- Hm. case_bool_decide as E; [|exact Hd]. revert Hd Hm. rewrite E.
  change (chunk_multi ((λ d, build_read_tag (td_tag d)) <$> []) (ec_max_services_per_multi config)
            (ec_max_bytes_per_multi config)) with (@nil (list (list Z))).
  intros Hd Hm. by destruct groups.
Qed.

Lemma write_batch_served config deny tags cache s items :
  serving config deny tags cache s → config_wf config → Forall (writable tags cache) items →
  ∃ s', write_batch items s = (s', Ok (sort_by_key wr_item_id (final_tally deny tags cache items).2)) ∧
    serving config deny (foldl (op_tags deny) tags (omap (write_op tags cache) items)) (known tags cache items) s'.
Proof.
  intros Hs Hwf Hw. pose proof (stage_total tags cache items Hw (known tags cache items)) as Ht2.
  destruct (discovery_served config deny tags cache s items Hs Hwf) as ([d1 l1] & Hs1 & ->).
  { apply (stage_total tags cache items Hw cache). intros i p _ _ tc. apply cached_type. }
  assert (ready_op <$> ready2 tags cache items = omap (write_op tags cache) items) as Hops by (by apply ready_ops).
  pose proof (ready_ops_ok tags cache items Hw) as Hok. rewrite <- Hops in Hok.
  destruct (chunk_packets config _ Hwf Hok) as (groups2 & Hg2 & Hm2 & Hp2).
  destruct (eip_write_chunks_served config deny tags _ groups2 (ready2 tags cache items)
    (settle_all ((λ '(id, e), (id, write_error_result id e)) <$> failed2 tags cache items)
       (foldl (settle_missing tags) (settle_errors (failed1 cache items) (∅, [])) (discovery cache items)))
    _ Hs1 Hp2 Hg2) as (s' & Hwr & Hs').
  rewrite Hops in Hs'. exists s'. split; [|exact Hs']. unfold write_known. unfold sget at 1. unfold sbind at 1.
  pose proof (sv_cache _ _ _ _ _ Hs1) as Hca1. cbn [fst] in Hca1. rewrite Hca1.
  unfold slift at 1. unfold sbind at 1. rewrite plan_write_stage1_spec.
  2:{ apply Ht2. intros i p Hi Hpa tc. by rewrite (known_type tags cache items i p Hi Hpa). }
  fold (failed2 tags cache items). fold (ready2 tags cache items).
  assert (∀ l t, foldl (λ t '(id, e), settle_new id (write_error_result id e) t) t l =
    settle_all ((λ '(id, e), (id, write_error_result id e)) <$> l) t) as Hfold.
  { induction l as [|[id e] l IH]; intros t; [done|]. rewrite fmap_cons. unfold settle_all in *. cbn [foldl]. by rewrite IH. }
  rewrite Hfold. unfold plan_write_stage2.
  rewrite <- list_fmap_compose in Hm2. unfold compose in Hm2.
  change ((λ x, op_bytes (ready_op x)) <$> ready2 tags cache items)
    with ((λ w, build_write_tag (rw_tag w) (rw_type_code w) (rw_payload w)) <$> ready2 tags cache items) in Hm2.
  rewrite <- Hm2. unfold sbind. rewrite Hwr. done.
Qed.

(** An EtherNet/IP batch write does what it reports and nothing else.  On a
    healthy controller, whatever the driver already knows of the types, every
    request of a batch with distinct identifiers is reported once: as done, as
    refused by the controller, as addressed to a tag it does not have, or as a
    value its type does not take.  The table of tags is then changed by the
    requests reported as done, in their order, and by nothing else. *)
Theorem eip_write_stores config deny tags cache s items :
  serving config deny tags cache s → config_wf config → Forall (writable tags cache) items →
  NoDup (wq_id <$> items) →
  let ops := omap (write_op tags cache) items in
  ∃ s' rs cache', write_batch items s = (s', Ok rs) ∧ rs ≡ₚ write_alone deny tags cache <$> items ∧
    serving config deny (foldl (op_tags deny) tags ops) cache' s' ∧
    ∀ tag, Forall (λ op, op_tag op ≠ tag ∨ tag ∈ deny) ops → foldl (op_tags deny) tags ops !! tag = tags !! tag.
Proof.
  intros Hs Hwf Hw Hnd ops. destruct (write_batch_served _ _ _ _ _ _ Hs Hwf Hw) as (s' & Hb & Hs').
  exists s', (sort_by_key wr_item_id (final_tally deny tags cache items).2), (known tags cache items). split_and!; [exact Hb| |exact Hs'|].
  - rewrite sort_by_key_perm. by apply final_results.
  - intros tag. apply op_tags_other.
Qed.

(** ** Reading back *)
Definition storable (deny : gset str) (tags : gmap str TagValue) (cache : gmap str Z) (i : WriteRequest) : Prop :=
  ∃ p tc payload, parse (wq_address i) = Ok p ∧ tag_type tags cache (tp_raw p) = Some tc ∧
    encode_write tc (wq_value i) = Ok payload ∧ (tp_raw p ∉ deny) ∧ RawValue.wf (wq_value i) ∧ no_nan (wq_value i).

Definition readback (i : WriteRequest) : DriverReadItem :=
  {| ri_id := wq_id i; ri_address := wq_address i; ri_expected_type := read_type (wq_value i) |}.

Definition request_tag (i : WriteRequest) : option str := tp_raw <$> outcome_ok (parse (wq_address i)).

Lemma stored_lookup deny tags tags0 cache items i p tc payload :
  Forall (storable deny tags0 cache) items → NoDup (request_tag <$> items) → i ∈ items →
  parse (wq_address i) = Ok p → tag_type tags0 cache (tp_raw p) = Some tc → encode_write tc (wq_value i) = Ok payload →
  foldl (op_tags deny) tags (omap (write_op tags0 cache) items) !! tp_raw p =
    Some {| tv_type_code := tc; tv_data := payload |}.
Proof.
  intros Hst Hnd Hi Hp Ht He. revert tags. induction Hst as [|j items Hj Hst IH]; intros tags; [by apply elem_of_nil in Hi|].
  rewrite fmap_cons in Hnd. apply NoDup_cons in Hnd as [Hj0 Hnd].
  destruct Hj as (q & tcj & pj & Hq & Htj & Hej & Hdeny & _).
  assert (write_op tags0 cache j = Some (WriteOp (tp_raw q) tcj pj)) as Hop
    by (unfold write_op; by rewrite Hq, Htj, Hej).
  cbn [omap list_omap]. rewrite Hop. cbn [foldl op_tags]. rewrite bool_decide_eq_false_2 by done.
  apply elem_of_cons in Hi as [->|Hi]; [|by apply IH].
  rewrite Hp in Hq. injection Hq as <-. rewrite Ht in Htj. injection Htj as <-. rewrite He in Hej. injection Hej as <-.
  rewrite op_tags_other; [by rewrite lookup_insert_eq|].
  apply Forall_forall. intros op (k & Hk & Hko)%list_elem_of_omap. left. intros Heq. apply Hj0. apply list_elem_of_fmap. exists k.
  split; [|done]. unfold request_tag. rewrite Hp. cbn. unfold write_op in Hko.
  destruct (parse (wq_address k)) as [pk| |]; [|done..]. destruct (tag_type tags0 cache (tp_raw pk)) as [z|]; [|done].
  destruct (encode_write z (wq_value k)); [|done..]. injection Hko as <-. cbn in Heq. cbn. by rewrite Heq.
Qed.

(** C28: what an EtherNet/IP batch write stored, a batch read returns.  On a
    healthy controller, writing values that are no NaN to distinct tags whose
    types take them, whether or not the driver knew the types, and reading the
    same tags back gives every request its own value, through discovery,
    encoding, packets, the encapsulation, the table of the controller and
    decoding. *)
Theorem eip_write_then_read config deny tags cache s items :
  serving config deny tags cache s → config_wf config → Forall (storable deny tags cache) items →
  NoDup (wq_id <$> items) → NoDup (request_tag <$> items) →
  ∃ s1 rs1 s2 rs2,
    write_batch items s = (s1, Ok rs1) ∧ rs1 ≡ₚ (λ i, write_ok_result (wq_id i)) <$> items ∧
    read_batch (readback <$> items) s1 = (s2, Ok rs2) ∧
    rs2 ≡ₚ (λ i, read_result (wq_id i) (Ok (wq_value i))) <$> items.
Proof.
  intros Hs Hwf Hst Hids Htags.
  assert (Forall (writable tags cache) items) as Hw.
  { eapply Forall_impl; [exact Hst|]. intros i (p & tc & payload & Hp & Ht & He & _). exists p. split; [done|].
    intros tc' Ht'. rewrite Ht in Ht'. injection Ht' as <-. by rewrite He. }
  destruct (write_batch_served _ _ _ _ _ _ Hs Hwf Hw) as (s1 & Hb & Hs1).
  destruct (read_batch_served_eip _ _ _ _ _ (readback <$> items) Hs1 Hwf) as (s2 & rs2 & Hr & _ & Hrs).
  { apply Forall_fmap. eapply Forall_impl; [exact Hst|]. intros i (p & tc & payload & Hp & _). cbn. rewrite Hp. by eexists. }
  exists s1, (sort_by_key wr_item_id (final_tally deny tags cache items).2), s2, rs2. split_and!; [exact Hb| |exact Hr|].
  - rewrite sort_by_key_perm, final_results by done. clear -Hst.
    induction Hst as [|i items (p & tc & payload & Hp & Ht & He & Hd & _) _ IH]; [done|]. rewrite !fmap_cons, IH.
    unfold write_alone at 1, write_error. rewrite Hp, Ht, He, bool_decide_eq_false_2 by done. done.
  - apply Permutation_Some. rewrite Hrs. rewrite <- !list_fmap_compose.
    assert (∀ l : list WriteRequest, (∀ i, i ∈ l → i ∈ items) →
      (read_alone (foldl (op_tags deny) tags (omap (write_op tags cache) items)) ∘ readback) <$> l =
      (Some ∘ λ i, read_result (wq_id i) (Ok (wq_value i))) <$> l) as H; [|by rewrite H].
    induction l as [|i l IH]; intros Hl; [done|]. rewrite !fmap_cons, IH by (intros j Hj; apply Hl; by constructor).
    f_equal. assert (i ∈ items) as Hi by (apply Hl; constructor). pose proof Hst as Hall. rewrite Forall_forall in Hall.
    destruct (Hall i Hi) as (p & tc & payload & Hp & Ht & He & _ & Hv & Hn). unfold compose, read_alone, readback.
    cbn [ri_address ri_id ri_expected_type]. rewrite Hp. unfold tag_value.
    rewrite (stored_lookup deny tags tags cache items i p tc payload) by done. cbn [tv_type_code tv_data].
    by rewrite (eip_encode_decode tc _ _ Hv Hn He).
Qed.

(** ** Panics *)
Definition stage_panics (c : gmap str Z) (i : WriteRequest) : bool :=
  match stage_item c i with Panic => true | _ => false end.

Lemma stage1_panics items c :
  Forall (λ i, is_Some (outcome_ok (parse (wq_address i)))) items →
  Exists (λ i, stage_panics c i = true) items → plan_write_stage1 items c = Panic.
Proof.
  induction 1 as [|i items [p Hp] Hps IH]; intros Hex; [by apply Exists_nil in Hex|]. cbn [plan_write_stage1].
  destruct (stage_item c i) as [st|e|] eqn:E; [| |done].
  - apply Exists_cons in Hex as [H|H]; [unfold stage_panics in H; by rewrite E in H|]. cbn [outcome_bind]. by rewrite IH.
  - exfalso. revert E. unfold stage_item. destruct (parse (wq_address i)) as [q| |]; [|done..]. cbn [map_err outcome_bind].
    destruct (c !! tp_raw q) as [tc|]; [|done]. by destruct (encode_write tc (wq_value i)).
Qed.

(** An EtherNet/IP batch with an unsigned value for a tag of type UDINT is
    lost.  On a healthy controller such a batch makes the driver panic, whether
    it knew the type of the tag or learnt it from the controller, and none of
    the requests of the batch is written: the width of the type is missing from
    the table of widths. *)
Theorem eip_udint_write_panics config deny tags cache s items :
  serving config deny tags cache s → config_wf config →
  Forall (λ i, is_Some (outcome_ok (parse (wq_address i)))) items →
  Exists (λ i, ∃ p u, parse (wq_address i) = Ok p ∧ tag_type tags cache (tp_raw p) = Some TYPE_UDINT ∧
                      wq_value i = RawValue.U64 u) items →
  ∃ s' cache', write_batch items s = (s', Panic) ∧ serving config deny tags cache' s'.
Proof.
  intros Hs Hwf Hps Hex. destruct (decide (Exists (λ i, stage_panics cache i = true) items)) as [Hp|Hp].
  { exists s, cache. split; [|done]. unfold write_batch.
    rewrite (sbind_Ok _ _ _ _ _ (ensure_connected_serving _ _ _ _ _ Hs)). destruct s as [d l].
    pose proof (sv_cache _ _ _ _ _ Hs) as Hca. cbn [fst] in Hca.
    unfold sget, sbind, slift. rewrite Hca. by rewrite (stage1_panics items cache Hps Hp). }
  destruct (discovery_served config deny tags cache s items Hs Hwf) as ([d1 l1] & Hs1 & ->).
  { apply Forall_forall. intros i Hi. rewrite Forall_forall in Hps. destruct (Hps i Hi) as [p Hpi].
    destruct (stage_item cache i) as [st|e|] eqn:E; [by eexists| |].
    - exfalso. revert E. unfold stage_item. destruct (parse (wq_address i)) as [q| |]; [|done..]. cbn [map_err outcome_bind].
      destruct (cache !! tp_raw q) as [tc|]; [|done]. by destruct (encode_write tc (wq_value i)).
    - exfalso. apply Hp, Exists_exists. exists i. split; [done|]. unfold stage_panics. by rewrite E. }
  exists (d1, l1), (known tags cache items). split; [|done]. unfold write_known, sget, sbind, slift.
  pose proof (sv_cache _ _ _ _ _ Hs1) as Hca. cbn [fst] in Hca. rewrite Hca.
  rewrite (stage1_panics items); [done|done|]. apply Exists_exists in Hex as (i & Hi & p & u & Hpi & Ht & Hv).
  apply Exists_exists. exists i. split; [done|]. unfold stage_panics, stage_item. rewrite Hpi. cbn [map_err outcome_bind].
  by rewrite (known_type tags cache items i p Hi Hpi), Ht, Hv.
Qed.
