(* ===== verification/EipExamples.v ===== *)
(** * Concrete runs of the EtherNet/IP driver

    A driver connected to the simulated controller, and for every theorem with
    hypotheses an input on which they hold, checked by evaluation. *)

From S2P Require Import Prelude RustStd ObservationModel DriverAbi EipAddress EipFrame EipCodec.
From S2P Require Import EipDriver EipLoopback EipEndToEnd EipWriteEndToEnd.
From stdpp Require Import options.

(** ** A connected driver *)
Definition eip_config : EnIpConfig :=
  {| ec_mode := lit "tcp"; ec_host := lit "10.0.0.3"; ec_port := 44818; ec_timeout_ms := 3000; ec_reconnect := true;
     ec_reconnect_max_attempts := 2; ec_reconnect_delay_ms := 50; ec_max_services_per_multi := 20;
     ec_max_bytes_per_multi := 500 |}.

Lemma eip_config_wf : config_wf eip_config.
Proof. by apply eip_validate_wf. Qed.

Definition udint_value : TagValue := {| tv_type_code := TYPE_UDINT; tv_data := to_le_bytes 4 7 |}.

(** Three tags of scalar types and one of type UDINT. *)
Definition eip_tags : gmap str TagValue :=
  <[lit "Total" := udint_value]>
    (mb_tags (with_uint (lit "Counter.Total") 777 (with_bool (lit "Motor.Run") true
                (with_dint (lit "Line1.Speed") 1500 behavior_new)))).

Definition eip_controller : MockBehavior :=
  {| mb_tags := eip_tags; mb_drop_connection := false; mb_timeout_rate := None; mb_register_reject := false;
     mb_deny_writes_at := {[lit "Counter.Total"]}; mb_wrong_session_handle := false;
     mb_wrong_sender_context := false; mb_declare_wrong_item_count := false; mb_bad_frame_length := false;
     mb_request_count := 0; mb_registered_sessions := 0; mb_captured_reads := []; mb_captured_writes := [] |}.

Definition eip_line : Line :=
  {| ln_conn := conn_new eip_controller; ln_inbox := []; ln_outbox := []; ln_open := false |}.

Definition eip_driver : EtherIpDriver () :=
  {| ed_config := eip_config; ed_session := Some (session_new (lit "10.0.0.3") 44818 3000); ed_type_cache := ∅;
     ed_last_error := None |}.

Definition eip_state : EtherIpDriver () * Line := (ensure_connected (eip_driver, eip_line)).1.

Lemma eip_connects : (ensure_connected (eip_driver, eip_line)).2 = Ok ().
Proof. reflexivity. Qed.

Definition eip_deny : gset str := {[lit "Counter.Total"]}.

Lemma eip_small : small eip_tags.
Proof.
  unfold small. refine (bool_decide_unpack _ _). by vm_compute.
Qed.

Lemma eip_example_serving : serving eip_config eip_deny eip_tags ∅ eip_state.
Proof.
  split; [reflexivity|reflexivity| |by split|by split|reflexivity|reflexivity|exact eip_small].
  eexists. split_and!; [reflexivity|reflexivity| |reflexivity]. by vm_compute.
Qed.

Definition eip_read_item (id : Z) (address : string) (ty : option DataType.t) : DriverReadItem :=
  {| ri_id := id; ri_address := lit address; ri_expected_type := ty |}.

Definition eip_write_item (id : Z) (address : string) (v : RawValue.t) : WriteRequest :=
  {| wq_id := id; wq_address := lit address; wq_value := v |}.

(** ** Reads *)
Definition eip_reads : list DriverReadItem :=
  [eip_read_item 1 "Motor.Run" None; eip_read_item 2 "Line1.Speed" (Some DataType.I32);
   eip_read_item 3 "Missing" None; eip_read_item 4 "Counter.Total" (Some DataType.U16);
   eip_read_item 5 "Total" None].

Lemma eip_read_transparent_witness :
  ∃ s' rs, read_batch eip_reads eip_state = (s', Ok rs) ∧ serving eip_config eip_deny eip_tags ∅ s' ∧
    Some <$> rs ≡ₚ read_alone eip_tags <$> eip_reads.
Proof.
  apply (eip_read_transparent eip_config eip_deny eip_tags ∅ eip_state eip_reads eip_example_serving eip_config_wf).
  unfold eip_reads. repeat (apply Forall_cons; split); try apply Forall_nil_2; eexists; vm_compute; reflexivity.
Defined.

(** ** Writes *)
Definition eip_writes : list WriteRequest :=
  [eip_write_item 1 "Line1.Speed" (RawValue.I64 (-5)); eip_write_item 2 "Missing" (RawValue.Bool true);
   eip_write_item 3 "Counter.Total" (RawValue.U64 9); eip_write_item 4 "Motor.Run" (RawValue.I64 1);
   eip_write_item 5 "Motor.Run" (RawValue.Bool false)].

Lemma eip_writes_writable : Forall (writable eip_tags ∅) eip_writes.
Proof.
  unfold eip_writes.
  repeat (apply Forall_cons; split); try apply Forall_nil_2; (eexists; split; [vm_compute; reflexivity|]);
    intros tc Ht; vm_compute in Ht; try done; injection Ht as <-; by vm_compute.
Qed.

Lemma eip_write_stores_witness :
  ∃ s' rs cache', write_batch eip_writes eip_state = (s', Ok rs) ∧
    rs ≡ₚ write_alone eip_deny eip_tags ∅ <$> eip_writes ∧
    serving eip_config eip_deny (foldl (op_tags eip_deny) eip_tags (omap (write_op eip_tags ∅) eip_writes)) cache' s' ∧
    ∀ tag, Forall (λ op, op_tag op ≠ tag ∨ tag ∈ eip_deny) (omap (write_op eip_tags ∅) eip_writes) →
      foldl (op_tags eip_deny) eip_tags (omap (write_op eip_tags ∅) eip_writes) !! tag = eip_tags !! tag.
Proof.
  apply (eip_write_stores eip_config eip_deny eip_tags ∅ eip_state eip_writes eip_example_serving eip_config_wf
    eip_writes_writable).
  cbn. refine (bool_decide_unpack _ _). by vm_compute.
Defined.

Definition eip_stores : list WriteRequest :=
  [eip_write_item 1 "Line1.Speed" (RawValue.I64 (-5)); eip_write_item 2 "Motor.Run" (RawValue.Bool false)].

Lemma eip_write_then_read_witness :
  ∃ s1 rs1 s2 rs2,
    write_batch eip_stores eip_state = (s1, Ok rs1) ∧ rs1 ≡ₚ (λ i, write_ok_result (wq_id i)) <$> eip_stores ∧
    read_batch (readback <$> eip_stores) s1 = (s2, Ok rs2) ∧
    rs2 ≡ₚ (λ i, read_result (wq_id i) (Ok (wq_value i))) <$> eip_stores.
Proof.
  apply (eip_write_then_read eip_config eip_deny eip_tags ∅ eip_state eip_stores eip_example_serving eip_config_wf).
  - unfold eip_stores. repeat (apply Forall_cons; split); try apply Forall_nil_2;
      eexists _, _, _; (split; [vm_compute; reflexivity|]); (split; [vm_compute; reflexivity|]);
      (split; [vm_compute; reflexivity|]); (split; [|done]); refine (bool_decide_unpack _ _); by vm_compute.
  - refine (bool_decide_unpack _ _). by vm_compute.
  - refine (bool_decide_unpack _ _). by vm_compute.
Defined.

(** ** UDINT *)
Lemma eip_udint_write_panics_witness :
  ∃ s' cache', write_batch [eip_write_item 1 "Line1.Speed" (RawValue.I64 3); eip_write_item 2 "Total" (RawValue.U64 8)]
    eip_state = (s', Panic) ∧ serving eip_config eip_deny eip_tags cache' s'.
Proof.
  apply (eip_udint_write_panics eip_config eip_deny eip_tags ∅ eip_state _ eip_example_serving eip_config_wf).
  - repeat (apply Forall_cons; split); try apply Forall_nil_2; eexists; vm_compute; reflexivity.
  - apply Exists_cons_tl, Exists_cons_hd. eexists _, 8. split_and!; [vm_compute; reflexivity..].
Defined.

(** The mock's own test: two reads in one packet. *)
Example eip_one_packet :
  mb_request_count (mk_behavior (ln_conn (read_batch (take 2 eip_reads) eip_state).1.2)) = 1.
Proof. by vm_compute. Qed.

