(* ===== verification/ProfileModel.v ===== *)
(** * Device profiles (crates/profile-engine/src/models.rs)

    A profile maps the semantic properties and commands of a device model to
    the addresses and commands of its driver. *)

From S2P Require Import Prelude RustStd RustFloat ObservationModel.
From stdpp Require Import options.

Module WriteRounding.
Inductive t : Type := Exact | Nearest | Floor | Ceil | Truncate.
End WriteRounding.

(** [scale] and [offset] are the patterns of [f64]. *)
Record ProfileProperty : Type := mkProfileProperty {
  pr_path : str;
  pr_driver_address : str;
  pr_raw_type : DataType.t;
  pr_value_type : DataType.t;
  pr_unit : option str;
  pr_scale : Z;
  pr_offset : Z;
  pr_write_rounding : WriteRounding.t;
  pr_readable : bool;
  pr_writable : bool;
  pr_default_interval_ms : option Z;
  pr_min : option Value.t;
  pr_max : option Value.t;
}.

(** [CommandParameterDescriptor] and [CommandPrecondition]
    (observation-model command.rs). *)
Record CommandParameterDescriptor : Type := mkCommandParameterDescriptor {
  cp_name : str;
  cp_data_type : DataType.t;
  cp_required : bool;
  cp_min : option Value.t;
  cp_max : option Value.t;
}.

Module Operator.
Inductive t : Type := Eq | Ne | Gt | Ge | Lt | Le.
End Operator.

Record CommandPrecondition : Type := mkCommandPrecondition {
  cq_property : str;
  cq_operator : Operator.t;
  cq_value : Value.t;
}.

Record ProfileCommand : Type := mkProfileCommand {
  pcmd_id : str;
  pcmd_driver_command_id : str;
  pcmd_parameters : list CommandParameterDescriptor;
  pcmd_risk_level : CommandRiskLevel.t;
  pcmd_preconditions : list CommandPrecondition;
}.

Record AcquisitionConstraints : Type := mkAcquisitionConstraints {
  ac_polling : option bool;
  ac_subscription : option bool;
  ac_events : option bool;
  ac_history : option bool;
}.

Record ProfileCapabilities : Type := mkProfileCapabilities {
  cap_supported_properties : list str;
  cap_supported_commands : list str;
  cap_acquisition : AcquisitionConstraints;
  cap_limits : list (str * Value.t);
}.

Record DeviceProfile : Type := mkDeviceProfile {
  dp_id : str;
  dp_vendor : str;
  dp_family : str;
  dp_models : list str;
  dp_domain : DomainKind.t;
  dp_driver_id : str;
  dp_properties : list ProfileProperty;
  dp_commands : list ProfileCommand;
  dp_capabilities : ProfileCapabilities;
}.

Definition profile_property (p : DeviceProfile) (path : str) : option ProfileProperty :=
  List.find (λ q, bool_decide (pr_path q = path)) (dp_properties p).

(** [DecodedRead] (convert.rs). *)
Record DecodedRead : Type := mkDecodedRead {
  dr_value : option Value.t;
  dr_quality : Quality;
}.

(** ** Numeric types and values (convert.rs, validate.rs) *)
Definition is_integer_type (t : DataType.t) : bool :=
  match t with
  | DataType.I8 | DataType.I16 | DataType.I32 | DataType.I64
  | DataType.U8 | DataType.U16 | DataType.U32 | DataType.U64 => true
  | _ => false
  end.

Definition is_numeric (t : DataType.t) : bool :=
  match t with
  | DataType.I8 | DataType.I16 | DataType.I32 | DataType.I64
  | DataType.U8 | DataType.U16 | DataType.U32 | DataType.U64
  | DataType.F32 | DataType.F64 => true
  | _ => false
  end.

Definition is_numeric_value (v : Value.t) : bool :=
  match v with
  | Value.I8 _ | Value.I16 _ | Value.I32 _ | Value.I64 _
  | Value.U8 _ | Value.U16 _ | Value.U32 _ | Value.U64 _
  | Value.F32 _ | Value.F64 _ => true
  | _ => false
  end.

Definition integer_value_to_i128 (v : Value.t) : option Z :=
  match v with
  | Value.I8 x | Value.I16 x | Value.I32 x | Value.I64 x
  | Value.U8 x | Value.U16 x | Value.U32 x | Value.U64 x => Some x
  | _ => None
  end.

Definition numeric_value_to_f64 (v : Value.t) : option Z :=
  match v with
  | Value.I8 x | Value.I16 x | Value.I32 x | Value.I64 x
  | Value.U8 x | Value.U16 x | Value.U32 x | Value.U64 x => Some (f64_of_int x)
  | Value.F32 x => Some (f32_to_f64 x)
  | Value.F64 x => Some x
  | _ => None
  end.

Definition f64_as_i128 : Z → Z := f64_as_int (- 2 ^ 127) (2 ^ 127 - 1).

(** [v > bound] and [v < bound] for an integer and an [f64]. *)
Definition i128_gt_f64 (v bound : Z) : bool :=
  if f64_is_nan bound then false
  else
    let integerized := if f64_fract_is_zero bound then bound else f64_floor bound in
    f64_as_i128 integerized <? v.

Definition i128_lt_f64 (v bound : Z) : bool :=
  if f64_is_nan bound then false
  else
    let integerized := if f64_fract_is_zero bound then bound else f64_ceil bound in
    v <? f64_as_i128 integerized.
