(* ===== verification/ProfileConvert.v ===== *)
(** * Conversion of values (crates/profile-engine/src/convert.rs)

    Reading applies [semantic = raw * scale + offset] and a checked conversion
    to the semantic type; writing inverts it, rounds as the profile says and
    checks the range of the raw type.  With the identity scaling 64-bit
    integers bypass [f64]. *)

From S2P Require Import Prelude RustStd RustFloat ObservationModel ProfileModel.
From stdpp Require Import options.

Module ConversionError.
Inductive t : Type :=
| NotWritable
| SemanticTypeMismatch (expected : DataType.t)
| MinMaxViolation (value : Z) (min max : option Z)
| ScaleInvalid (scale offset : Z)
| NotFinite (v : Z)
| ExactRequired (candidate : Z)
| Overflow (candidate : Z) (raw_type : DataType.t)
| PrecisionLoss (value : Z).
End ConversionError.

(** [i8::try_from] and the like. *)
Definition try_i (w v : Z) : option Z := if bool_decide (in_i w v) then Some v else None.
Definition try_u (w v : Z) : option Z := if bool_decide (in_u w v) then Some v else None.

(** ** Between integers and [f64] *)
Definition f64_to_i64 (v : Z) : option Z :=
  if negb (f64_le (f64_of_int (- 2 ^ 63)) v && f64_lt v (f64_of_int (2 ^ 63))) then None
  else Some (f64_as_int (- 2 ^ 63) (2 ^ 63 - 1) v).

Definition f64_to_u64 (v : Z) : option Z :=
  if negb (f64_le 0 v && f64_lt v (f64_of_int (2 ^ 64))) then None
  else Some (f64_as_int 0 (2 ^ 64 - 1) v).

Definition i64_lossless_to_f64 (v : Z) : option Z :=
  let f := f64_of_int v in
  match f64_to_i64 f with
  | Some back => if back =? v then Some f else None
  | None => None
  end.

Definition u64_lossless_to_f64 (v : Z) : option Z :=
  let f := f64_of_int v in
  match f64_to_u64 f with
  | Some back => if back =? v then Some f else None
  | None => None
  end.

(** ** Reading *)
Definition exact_int_semantic (value_type : DataType.t) (v : Z) : option Value.t :=
  match value_type with
  | DataType.I8 => Value.I8 <$> try_i 8 v
  | DataType.I16 => Value.I16 <$> try_i 16 v
  | DataType.I32 => Value.I32 <$> try_i 32 v
  | DataType.I64 => Value.I64 <$> try_i 64 v
  | DataType.U8 => Value.U8 <$> try_u 8 v
  | DataType.U16 => Value.U16 <$> try_u 16 v
  | DataType.U32 => Value.U32 <$> try_u 32 v
  | DataType.U64 => Value.U64 <$> try_u 64 v
  | _ => None
  end.

Definition checked_to_semantic (value_type : DataType.t) (semantic : Z) : option Value.t :=
  if negb (f64_is_finite semantic) then None
  else
    let rounded := f64_round semantic in
    match value_type with
    | DataType.I8 => x ← f64_to_i64 rounded; Value.I8 <$> try_i 8 x
    | DataType.I16 => x ← f64_to_i64 rounded; Value.I16 <$> try_i 16 x
    | DataType.I32 => x ← f64_to_i64 rounded; Value.I32 <$> try_i 32 x
    | DataType.I64 => Value.I64 <$> f64_to_i64 rounded
    | DataType.U8 => x ← f64_to_u64 rounded; Value.U8 <$> try_u 8 x
    | DataType.U16 => x ← f64_to_u64 rounded; Value.U16 <$> try_u 16 x
    | DataType.U32 => x ← f64_to_u64 rounded; Value.U32 <$> try_u 32 x
    | DataType.U64 => Value.U64 <$> f64_to_u64 rounded
    | DataType.F32 =>
        let narrowed := f64_to_f32 semantic in
        if f32_is_infinite narrowed then None else Some (Value.F32 narrowed)
    | DataType.F64 => Some (Value.F64 semantic)
    | _ => None
    end.

Definition numeric_raw_to_f64 (raw_type : DataType.t) (raw : RawValue.t) : option Z :=
  match raw_type, raw with
  | (DataType.I8 | DataType.I16 | DataType.I32 | DataType.I64), RawValue.I64 v =>
      i64_lossless_to_f64 v
  | (DataType.U8 | DataType.U16 | DataType.U32 | DataType.U64), RawValue.U64 v =>
      u64_lossless_to_f64 v
  | (DataType.F32 | DataType.F64), RawValue.F64 v => Some v
  | (DataType.F32 | DataType.F64), RawValue.I64 v => i64_lossless_to_f64 v
  | (DataType.F32 | DataType.F64), RawValue.U64 v => u64_lossless_to_f64 v
  | _, _ => None
  end.

(** [scale == 1.0 && offset == 0.0] *)
Definition is_identity (p : ProfileProperty) : bool :=
  f64_eq (pr_scale p) ONE && f64_eq (pr_offset p) 0.

(** The integer of a raw value whose family is the one of its type. *)
Definition raw_integer (raw_type : DataType.t) (raw : RawValue.t) : option Z :=
  match raw_type, raw with
  | (DataType.I8 | DataType.I16 | DataType.I32 | DataType.I64), RawValue.I64 v => Some v
  | (DataType.U8 | DataType.U16 | DataType.U32 | DataType.U64), RawValue.U64 v => Some v
  | _, _ => None
  end.

(** The error of the code is a message; [None] here. *)
Definition decode_value (p : ProfileProperty) (raw : RawValue.t) : option Value.t :=
  match pr_raw_type p, pr_value_type p with
  | DataType.Bool, DataType.Bool =>
      match raw with RawValue.Bool b => Some (Value.Bool b) | _ => None end
  | DataType.String, DataType.String =>
      match raw with RawValue.String s => Some (Value.String s) | _ => None end
  | DataType.Bytes, DataType.Bytes =>
      match raw with RawValue.Bytes b => Some (Value.Bytes b) | _ => None end
  | raw_type, value_type =>
      if is_numeric raw_type && is_numeric value_type then
        match (if is_identity p && is_integer_type value_type then raw_integer raw_type raw
               else None) with
        | Some v => exact_int_semantic value_type v
        | None =>
            raw_num ← numeric_raw_to_f64 raw_type raw;
            checked_to_semantic value_type
              (f64_add (f64_mul raw_num (pr_scale p)) (pr_offset p))
        end
      else None
  end.

Definition bad_result (r : RawReadResult) (reason : QualityReason.t) : DecodedRead :=
  {| dr_value := None;
     dr_quality := mkQuality QualityLevel.Bad reason (rr_protocol_quality_code r) |}.

Definition decode_read (p : ProfileProperty) (r : RawReadResult) : DecodedRead :=
  match rr_error r with
  | Some e =>
      {| dr_value := None;
         dr_quality := mkQuality QualityLevel.Bad QualityReason.ProtocolError
           (match dei_protocol_code e with
            | Some c => Some c
            | None => rr_protocol_quality_code r
            end) |}
  | None =>
      match rr_value r with
      | None => bad_result r QualityReason.ProtocolError
      | Some raw =>
          match decode_value p raw with
          | Some v =>
              {| dr_value := Some v;
                 dr_quality := mkQuality QualityLevel.Good QualityReason.None
                   (rr_protocol_quality_code r) |}
          | None => bad_result r QualityReason.ConfigurationError
          end
      end
  end.

(** ** Writing *)
Definition apply_rounding (p : ProfileProperty) (candidate : Z) : outcome ConversionError.t Z :=
  match pr_write_rounding p with
  | WriteRounding.Exact =>
      if negb (f64_fract_is_zero candidate) then Err (ConversionError.ExactRequired candidate)
      else Ok candidate
  | WriteRounding.Nearest => Ok (f64_round candidate)
  | WriteRounding.Floor => Ok (f64_floor candidate)
  | WriteRounding.Ceil => Ok (f64_ceil candidate)
  | WriteRounding.Truncate => Ok (f64_trunc candidate)
  end.

Definition checked_signed (p : ProfileProperty) (candidate min max : Z) :
    outcome ConversionError.t RawValue.t :=
  let? rounded := apply_rounding p candidate in
  if negb (f64_le min rounded && f64_le rounded max) then
    Err (ConversionError.Overflow rounded (pr_raw_type p))
  else
    match f64_to_i64 rounded with
    | Some v => Ok (RawValue.I64 v)
    | None => Err (ConversionError.Overflow rounded (pr_raw_type p))
    end.

Definition checked_unsigned (p : ProfileProperty) (candidate max : Z) :
    outcome ConversionError.t RawValue.t :=
  let? rounded := apply_rounding p candidate in
  if negb (f64_le 0 rounded && f64_le rounded max) then
    Err (ConversionError.Overflow rounded (pr_raw_type p))
  else
    match f64_to_u64 rounded with
    | Some v => Ok (RawValue.U64 v)
    | None => Err (ConversionError.Overflow rounded (pr_raw_type p))
    end.

Definition is_exact (p : ProfileProperty) : bool :=
  match pr_write_rounding p with WriteRounding.Exact => true | _ => false end.

Definition checked_float (p : ProfileProperty) (candidate : Z) :
    outcome ConversionError.t RawValue.t :=
  let narrowed := f64_to_f32 candidate in
  if is_exact p && negb (f64_eq (f32_to_f64 narrowed) candidate) then
    Err (ConversionError.ExactRequired candidate)
  else if f32_is_infinite narrowed then
    Err (ConversionError.Overflow candidate (pr_raw_type p))
  else Ok (RawValue.F64 (f32_to_f64 narrowed)).

(** An integer against a bound of any numeric type. *)
Definition below_bound (v : Z) (bound : Value.t) : bool :=
  match integer_value_to_i128 bound with
  | Some b => v <? b
  | None => i128_lt_f64 v (default NAN (numeric_value_to_f64 bound))
  end.

Definition above_bound (v : Z) (bound : Value.t) : bool :=
  match integer_value_to_i128 bound with
  | Some b => b <? v
  | None => i128_gt_f64 v (default NAN (numeric_value_to_f64 bound))
  end.

Definition check_exact_bounds (p : ProfileProperty) (v : Z) : outcome ConversionError.t () :=
  let violation :=
    Err (ConversionError.MinMaxViolation (f64_of_int v) (pr_min p ≫= numeric_value_to_f64)
           (pr_max p ≫= numeric_value_to_f64)) in
  if from_option (below_bound v) false (pr_min p) then violation
  else if from_option (above_bound v) false (pr_max p) then violation
  else Ok ().

(** The error for an integer a float register cannot hold. *)
Definition inexact_error (p : ProfileProperty) (v candidate : Z) : ConversionError.t :=
  if is_exact p then ConversionError.ExactRequired candidate else ConversionError.PrecisionLoss v.

Definition encode_exact_int (p : ProfileProperty) (v : Z) : outcome ConversionError.t RawValue.t :=
  let? _ := check_exact_bounds p v in
  let ranged (o : option RawValue.t) :=
    ok_or o (ConversionError.Overflow (f64_of_int v) (pr_raw_type p)) in
  match pr_raw_type p with
  | DataType.I8 => ranged (RawValue.I64 <$> try_i 8 v)
  | DataType.I16 => ranged (RawValue.I64 <$> try_i 16 v)
  | DataType.I32 => ranged (RawValue.I64 <$> try_i 32 v)
  | DataType.I64 => ranged (RawValue.I64 <$> try_i 64 v)
  | DataType.U8 => ranged (RawValue.U64 <$> try_u 8 v)
  | DataType.U16 => ranged (RawValue.U64 <$> try_u 16 v)
  | DataType.U32 => ranged (RawValue.U64 <$> try_u 32 v)
  | DataType.U64 => ranged (RawValue.U64 <$> try_u 64 v)
  | DataType.F32 =>
      let narrowed := f32_to_f64 (f64_to_f32 (f64_of_int v)) in
      if negb (f64_as_i128 narrowed =? v) then Err (inexact_error p v narrowed)
      else Ok (RawValue.F64 narrowed)
  | DataType.F64 =>
      let f := f64_of_int v in
      if negb (f64_as_i128 f =? v) then Err (inexact_error p v f) else Ok (RawValue.F64 f)
  | _ => Err (ConversionError.SemanticTypeMismatch (pr_value_type p))
  end.

(** Step 2: the semantic value as [f64]. *)
Definition semantic_to_f64 (p : ProfileProperty) (semantic : Value.t) : outcome ConversionError.t Z :=
  match semantic with
  | Value.I64 x => ok_or (i64_lossless_to_f64 x) (ConversionError.PrecisionLoss x)
  | Value.U64 x => ok_or (u64_lossless_to_f64 x) (ConversionError.PrecisionLoss x)
  | other => ok_or (numeric_value_to_f64 other) (ConversionError.SemanticTypeMismatch (pr_value_type p))
  end.

(** Steps 6 to 8. *)
Definition encode_candidate (p : ProfileProperty) (candidate : Z) :
    outcome ConversionError.t RawValue.t :=
  match pr_raw_type p with
  | DataType.I8 => checked_signed p candidate (f64_of_int (-128)) (f64_of_int 127)
  | DataType.I16 => checked_signed p candidate (f64_of_int (-32768)) (f64_of_int 32767)
  | DataType.I32 => checked_signed p candidate (f64_of_int (- 2 ^ 31)) (f64_of_int (2 ^ 31 - 1))
  | DataType.I64 => checked_signed p candidate (f64_of_int (- 2 ^ 63)) (f64_of_int (2 ^ 63 - 1))
  | DataType.U8 => checked_unsigned p candidate (f64_of_int 255)
  | DataType.U16 => checked_unsigned p candidate (f64_of_int 65535)
  | DataType.U32 => checked_unsigned p candidate (f64_of_int (2 ^ 32 - 1))
  | DataType.U64 => checked_unsigned p candidate (f64_of_int (2 ^ 64 - 1))
  | DataType.F32 => checked_float p candidate
  | DataType.F64 => Ok (RawValue.F64 candidate)
  | _ => Err (ConversionError.SemanticTypeMismatch (pr_value_type p))
  end.

(** Steps 2 to 8, through [f64]. *)
Definition encode_scaled (p : ProfileProperty) (semantic : Value.t) :
    outcome ConversionError.t RawValue.t :=
  let? v := semantic_to_f64 p semantic in
  if negb (f64_is_finite v) then Err (ConversionError.NotFinite v)
  else
    let min := pr_min p ≫= numeric_value_to_f64 in
    let max := pr_max p ≫= numeric_value_to_f64 in
    if from_option (f64_lt v) false min then Err (ConversionError.MinMaxViolation v min max)
    else if from_option (λ m, f64_lt m v) false max then
      Err (ConversionError.MinMaxViolation v min max)
    else if f64_eq (pr_scale p) 0 || negb (f64_is_finite (pr_scale p))
            || negb (f64_is_finite (pr_offset p)) then
      Err (ConversionError.ScaleInvalid (pr_scale p) (pr_offset p))
    else
      let candidate := f64_div (f64_sub v (pr_offset p)) (pr_scale p) in
      if negb (f64_is_finite candidate) then Err (ConversionError.NotFinite candidate)
      else encode_candidate p candidate.

(** The values that take the integer path. *)
Definition wide_integer (v : Value.t) : option Z :=
  match v with Value.I64 x | Value.U64 x => Some x | _ => None end.

Definition encode_write (p : ProfileProperty) (semantic : Value.t) :
    outcome ConversionError.t RawValue.t :=
  if negb (pr_writable p) then Err ConversionError.NotWritable
  else
    match pr_value_type p, semantic with
    | DataType.Bool, Value.Bool b => Ok (RawValue.Bool b)
    | DataType.String, Value.String s => Ok (RawValue.String s)
    | DataType.Bytes, Value.Bytes b => Ok (RawValue.Bytes b)
    | (DataType.Bool | DataType.String | DataType.Bytes) as value_type, _ =>
        Err (ConversionError.SemanticTypeMismatch value_type)
    | _, _ =>
        match (if is_identity p then wide_integer semantic else None) with
        | Some v => encode_exact_int p v
        | None => encode_scaled p semantic
        end
    end.

(** * Validation, registry and loading of profiles
    (crates/profile-engine/src: validate.rs, registry.rs, loader.rs)

    A profile is checked completely before it is registered; loading a
    directory is all or nothing.  The file system and the JSON parser are
    outside the repository: a directory is the tree of what reading it
    yields. *)

#[local] Open Scope list_scope.
#[local] Set Warnings "-register-all".

(** ** Validation (validate.rs) *)
Record ValidationError : Type := mkValidationError {
  ve_profile_id : str;
  ve_field : str;
}.

Definition err {A} (profile : DeviceProfile) (field : str) : outcome ValidationError A :=
  Err (mkValidationError (dp_id profile) field).

Definition fail_if_empty (value field : str) : outcome ValidationError () :=
  if bool_decide (value = []) then Err (mkValidationError (lit "?") field) else Ok ().

(** [path.split('.')]: the segments between the dots. *)
Fixpoint split_dots (current : str) (path : str) : list str :=
  match path with
  | [] => [current]
  | c :: path' => if c =? 46 then current :: split_dots [] path' else split_dots (current ++ [c]) path'
  end.

Definition valid_path (path : str) : bool :=
  if bool_decide (path = []) then false
  else forallb (λ s, negb (bool_decide (s = []))) (split_dots [] path).

Definition same_family (raw_type value_type : DataType.t) : bool :=
  match raw_type, value_type with
  | DataType.Bool, DataType.Bool => true
  | DataType.String, DataType.String => true
  | DataType.Bytes, DataType.Bytes => true
  | a, b => is_numeric a && is_numeric b
  end.

Definition validate_value_pair (profile : DeviceProfile) (raw_type value_type : DataType.t)
    (field : str) : outcome ValidationError () :=
  if negb (same_family raw_type value_type) then err profile (field ++ lit ".raw_type") else Ok ().

Definition min_greater_than_max (min max : Value.t) : option bool :=
  match integer_value_to_i128 min, integer_value_to_i128 max with
  | Some a, Some b => Some (b <? a)
  | Some a, None => i128_gt_f64 a <$> numeric_value_to_f64 max
  | None, Some b => (λ a, b <? f64_as_i128 (f64_ceil a)) <$> numeric_value_to_f64 min
  | None, None =>
      a ← numeric_value_to_f64 min;
      b ← numeric_value_to_f64 max;
      Some (f64_lt b a)
  end.

(** The closure [check] of [validate_min_max] and of
    [validate_parameter_bounds]. *)
Definition bound_compatible (t : DataType.t) (bound : Value.t) : bool :=
  match t, bound with
  | DataType.Bool, Value.Bool _ => true
  | DataType.String, Value.String _ => true
  | DataType.Bytes, Value.Bytes _ => true
  | a, b => is_numeric a && is_numeric_value b
  end.

Definition check_bound (profile : DeviceProfile) (t : DataType.t) (field name : str)
    (bound : Value.t) : outcome ValidationError () :=
  if negb (bound_compatible t bound) then err profile (field ++ name)
  else if is_numeric_value bound &&
          negb (from_option f64_is_finite false (numeric_value_to_f64 bound)) then
    err profile (field ++ name)
  else Ok ().

Definition check_bounds (profile : DeviceProfile) (t : DataType.t) (min max : option Value.t)
    (field : str) : outcome ValidationError () :=
  let? _ := match min with Some b => check_bound profile t field (lit ".min") b | None => Ok () end in
  let? _ := match max with Some b => check_bound profile t field (lit ".max") b | None => Ok () end in
  match min, max with
  | Some a, Some b =>
      if bool_decide (min_greater_than_max a b = Some true) then err profile (field ++ lit ".min")
      else Ok ()
  | _, _ => Ok ()
  end.

Definition validate_min_max (profile : DeviceProfile) (p : ProfileProperty) (field : str) :
    outcome ValidationError () :=
  check_bounds profile (pr_value_type p) (pr_min p) (pr_max p) field.

Definition no_scale_family (t : DataType.t) : bool :=
  match t with DataType.String | DataType.Bytes | DataType.Bool => true | _ => false end.

Definition validate_property (profile : DeviceProfile) (p : ProfileProperty) (field : str) :
    outcome ValidationError () :=
  if negb (valid_path (pr_path p)) then err profile (field ++ lit ".path")
  else
    let? _ := fail_if_empty (pr_driver_address p) (field ++ lit ".driver_address") in
    if negb (f64_is_finite (pr_scale p)) || negb (f64_is_finite (pr_offset p)) then
      err profile (field ++ lit ".scale")
    else
      let? _ := validate_value_pair profile (pr_raw_type p) (pr_value_type p) field in
      let? _ :=
        if no_scale_family (pr_value_type p) then
          if negb (f64_eq (pr_scale p) 0) || negb (f64_eq (pr_offset p) 0) then
            err profile (field ++ lit ".scale")
          else
            match pr_write_rounding p with
            | WriteRounding.Exact => Ok ()
            | _ => err profile (field ++ lit ".write_rounding")
            end
        else if f64_eq (pr_scale p) 0 then err profile (field ++ lit ".scale")
        else Ok () in
      let? _ := validate_min_max profile p field in
      match pr_default_interval_ms p with
      | Some interval =>
          if interval =? 0 then err profile (field ++ lit ".default_interval_ms") else Ok ()
      | None => Ok ()
      end.

Definition validate_parameter_bounds (profile : DeviceProfile) (q : CommandParameterDescriptor)
    (field : str) : outcome ValidationError () :=
  match cp_data_type q with
  | DataType.Array _ | DataType.Struct _ =>
      match cp_min q, cp_max q with
      | None, None => Ok ()
      | _, _ => err profile (field ++ lit ".min")
      end
  | t => check_bounds profile t (cp_min q) (cp_max q) field
  end.

Definition indexed (field name : str) (i : nat) : str :=
  field ++ name ++ lit "[" ++ to_string (Z.of_nat i) ++ lit "]".

Fixpoint validate_parameters (profile : DeviceProfile) (field : str) (i : nat) (seen : list str)
    (l : list CommandParameterDescriptor) : outcome ValidationError () :=
  match l with
  | [] => Ok ()
  | q :: l' =>
      let param_field := indexed field (lit ".parameters") i in
      if bool_decide (cp_name q = []) then err profile (param_field ++ lit ".name")
      else if bool_decide (cp_name q ∈ seen) then err profile (param_field ++ lit ".name")
      else
        let? _ := validate_parameter_bounds profile q param_field in
        validate_parameters profile field (S i) (seen ++ [cp_name q]) l'
  end.

Fixpoint validate_preconditions (profile : DeviceProfile) (field : str) (i : nat)
    (l : list CommandPrecondition) : outcome ValidationError () :=
  match l with
  | [] => Ok ()
  | q :: l' =>
      if bool_decide (cq_property q = []) then
        err profile (indexed field (lit ".preconditions") i ++ lit ".property")
      else validate_preconditions profile field (S i) l'
  end.

Definition validate_command (profile : DeviceProfile) (c : ProfileCommand) (field : str) :
    outcome ValidationError () :=
  let? _ := fail_if_empty (pcmd_id c) (field ++ lit ".id") in
  let? _ := fail_if_empty (pcmd_driver_command_id c) (field ++ lit ".driver_command_id") in
  let? _ := validate_parameters profile field 0 [] (pcmd_parameters c) in
  validate_preconditions profile field 0 (pcmd_preconditions c).

Fixpoint validate_models (i : nat) (l : list str) : outcome ValidationError () :=
  match l with
  | [] => Ok ()
  | model :: l' =>
      let? _ := fail_if_empty model (indexed [] (lit "models") i) in
      validate_models (S i) l'
  end.

Fixpoint validate_properties (profile : DeviceProfile) (i : nat) (seen : list str)
    (l : list ProfileProperty) : outcome ValidationError () :=
  match l with
  | [] => Ok ()
  | p :: l' =>
      let field := indexed [] (lit "properties") i in
      let? _ := validate_property profile p field in
      if bool_decide (pr_path p ∈ seen) then err profile (field ++ lit ".path")
      else validate_properties profile (S i) (seen ++ [pr_path p]) l'
  end.

Fixpoint validate_commands (profile : DeviceProfile) (i : nat) (seen : list str)
    (l : list ProfileCommand) : outcome ValidationError () :=
  match l with
  | [] => Ok ()
  | c :: l' =>
      let field := indexed [] (lit "commands") i in
      let? _ := validate_command profile c field in
      if bool_decide (pcmd_id c ∈ seen) then err profile (field ++ lit ".id")
      else validate_commands profile (S i) (seen ++ [pcmd_id c]) l'
  end.

Definition validate_profile (profile : DeviceProfile) : outcome ValidationError () :=
  let? _ := fail_if_empty (dp_id profile) (lit "id") in
  let? _ := fail_if_empty (dp_vendor profile) (lit "vendor") in
  let? _ := fail_if_empty (dp_family profile) (lit "family") in
  let? _ := if bool_decide (dp_models profile = []) then err profile (lit "models") else Ok () in
  let? _ := validate_models 0 (dp_models profile) in
  let? _ := fail_if_empty (dp_driver_id profile) (lit "driver_id") in
  let? _ :=
    match dp_properties profile with [] => err profile (lit "properties") | _ => Ok () end in
  let? _ := validate_properties profile 0 [] (dp_properties profile) in
  validate_commands profile 0 [] (dp_commands profile).

(** ** Loading (loader.rs) *)

(** What reading a path yields: a directory with its entries, in the order of
    the listing, each readable or not; or a file with the parsed profile, or an
    error of the file system or the parser. *)
Module FileError.
Inductive t : Type := Io | Json.
End FileError.

Inductive entry : Type :=
| Dir (path : str) (entries : option (list (option entry)))
| File (path : str) (is_json : bool) (content : FileError.t + DeviceProfile).

Module LoaderError.
Inductive t : Type :=
| Io (path : str)
| Json (path : str)
| Validation (path : str) (source : ValidationError)
| Duplicate (path : str) (profile_id : str).
End LoaderError.

Definition load_single (path : str) (content : FileError.t + DeviceProfile) :
    outcome LoaderError.t DeviceProfile :=
  match content with
  | inl FileError.Io => Err (LoaderError.Io path)
  | inl FileError.Json => Err (LoaderError.Json path)
  | inr profile =>
      let? _ := map_err (LoaderError.Validation path) (validate_profile profile) in
      Ok profile
  end.

Fixpoint collect_entry (e : entry) (out : list DeviceProfile) :
    outcome LoaderError.t (list DeviceProfile) :=
  match e with
  | Dir path None => Err (LoaderError.Io path)
  | Dir path (Some entries) =>
      (fix collect (l : list (option entry)) (out : list DeviceProfile) :=
         match l with
         | [] => Ok out
         | None :: _ => Err (LoaderError.Io path)
         | Some e :: l' =>
             let? out := collect_entry e out in
             collect l' out
         end) entries out
  | File path true content =>
      let? profile := load_single path content in
      Ok (out ++ [profile])
  | File _ false _ => Ok out
  end.

Definition load_profiles_dir (e : entry) : outcome LoaderError.t (list DeviceProfile) :=
  match e with
  | Dir _ _ => collect_entry e []
  | File path _ _ => Err (LoaderError.Io path)      (* [read_dir] fails *)
  end.

(** ** The registry (registry.rs) *)
Abbreviation ProfileRegistry := (gmap str DeviceProfile).

Module RegistryError.
Inductive t : Type :=
| DuplicateId (profile_id : str)
| Invalid (profile_id : str) (reason : ValidationError).
End RegistryError.

Definition register (profile : DeviceProfile) (r : ProfileRegistry) :
    ProfileRegistry * outcome RegistryError.t () :=
  match validate_profile profile with
  | Ok _ =>
      match r !! dp_id profile with
      | Some _ => (r, Err (RegistryError.DuplicateId (dp_id profile)))
      | None => (<[dp_id profile := profile]> r, Ok ())
      end
  | Err e => (r, Err (RegistryError.Invalid (dp_id profile) e))
  | Panic => (r, Panic)
  end.

(** The loop of [load_dir] over the loaded profiles; [inserted] are the
    identifiers that are removed again when it fails. *)
Fixpoint register_all (dir : str) (l : list DeviceProfile) (inserted : list str) (r : ProfileRegistry) :
    ProfileRegistry * outcome LoaderError.t () :=
  match l with
  | [] => (r, Ok ())
  | p :: l' =>
      match register p r with
      | (r', Ok _) => register_all dir l' (inserted ++ [dp_id p]) r'
      | (r', Err (RegistryError.DuplicateId id)) =>
          (foldl (λ m id, delete id m) r' inserted, Err (LoaderError.Duplicate dir id))
      | (r', _) => (foldl (λ m id, delete id m) r' inserted, Panic)
      end
  end.

Definition entry_path (e : entry) : str := match e with Dir p _ | File p _ _ => p end.

Definition load_dir (e : entry) (r : ProfileRegistry) : ProfileRegistry * outcome LoaderError.t nat :=
  match load_profiles_dir e with
  | Ok profiles =>
      match register_all (entry_path e) profiles [] r with
      | (r', Ok _) => (r', Ok (length profiles))
      | (r', Err x) => (r', Err x)
      | (r', Panic) => (r', Panic)
      end
  | Err x => (r, Err x)
  | Panic => (r, Panic)
  end.
