(* ===== verification/ProfileLaws.v ===== *)
(** * Laws of the conversion *)

From S2P Require Import Prelude RustStd RustFloat ObservationModel ProfileModel ProfileConvert.
From stdpp Require Import options.

(** What the fields of a property are in Rust. *)
Record property_wf (p : ProfileProperty) : Prop := {
  wf_scale : in_u 64 (pr_scale p);
  wf_offset : in_u 64 (pr_offset p);
}.

(** ** Integers and [f64] *)
Definition f64_integer (f k : Z) : Prop :=
  in_u 64 f ∧ f64_is_finite f = true ∧ f64_num f = k * f64_unit.

Lemma f64_le_num a b : f64_le a b = true → f64_num a ≤ f64_num b.
Proof. unfold f64_le. intros [_ ?]%andb_true_iff. lia. Qed.

Lemma f64_lt_num a b : f64_lt a b = true → f64_num a < f64_num b.
Proof. unfold f64_lt. intros [_ ?]%andb_true_iff. lia. Qed.

Lemma f64_le_finite a b :
  f64_is_finite a = true → f64_is_finite b = true → f64_le a b = (f64_num a <=? f64_num b).
Proof. intros [Ha _]%f64_finite_not [Hb _]%f64_finite_not. unfold f64_le. by rewrite Ha, Hb. Qed.

Lemma f64_lt_finite a b :
  f64_is_finite a = true → f64_is_finite b = true → f64_lt a b = (f64_num a <? f64_num b).
Proof. intros [Ha _]%f64_finite_not [Hb _]%f64_finite_not. unfold f64_lt. by rewrite Ha, Hb. Qed.

Lemma of_int_integer k : Z.abs k ≤ 2 ^ 53 → f64_integer (f64_of_int k) k.
Proof. apply f64_of_int_exact. Qed.

(** The powers of two at the ends of the integer types. *)
Lemma pow_integer : f64_integer (f64_of_int (2 ^ 63)) (2 ^ 63) ∧ f64_integer (f64_of_int (- 2 ^ 63)) (- 2 ^ 63)
  ∧ f64_integer (f64_of_int (2 ^ 64)) (2 ^ 64).
Proof. by vm_compute. Qed.

Lemma f64_integer_trunc f k : f64_integer f k → f64_trunc_Z f = k.
Proof.
  intros (_ & _ & Hn). unfold f64_trunc_Z. rewrite Hn, Z.quot_mul; [done|]. pose proof f64_unit_pos. lia.
Qed.

Lemma as_i128_integer f k : f64_integer f k → f64_as_i128 f = Z.max (- 2 ^ 127) (Z.min (2 ^ 127 - 1) k).
Proof.
  intros Hf. unfold f64_as_i128, f64_as_int. pose proof (f64_integer_trunc f k Hf) as ->.
  destruct Hf as (_ & Hf & _). destruct (f64_finite_not f Hf) as [-> _]. done.
Qed.

Lemma unit_cancel a b : a * f64_unit ≤ b * f64_unit ↔ a ≤ b.
Proof. pose proof f64_unit_pos. symmetry. by apply Z.mul_le_mono_pos_r. Qed.

Lemma unit_cancel_lt a b : a * f64_unit < b * f64_unit ↔ a < b.
Proof. pose proof f64_unit_pos. symmetry. by apply Z.mul_lt_mono_pos_r. Qed.

Lemma trunc_between v lo hi :
  lo ≤ 0 < hi → lo * f64_unit ≤ f64_num v < hi * f64_unit → lo ≤ f64_trunc_Z v < hi.
Proof.
  intros Hlh [Hlo Hhi]. pose proof f64_unit_pos as Hu. unfold f64_trunc_Z.
  set (n := f64_num v) in *. set (u := f64_unit) in *. clearbody n u.
  destruct (decide (0 ≤ n)).
  - rewrite Z.quot_div_nonneg by lia. split; [|apply Z.div_lt_upper_bound; lia].
    assert (0 ≤ n / u) by (apply Z.div_pos; lia). lia.
  - replace n with (- (- n)) by lia. rewrite Z.quot_opp_l, Z.quot_div_nonneg by lia.
    assert (0 ≤ - n / u) by (apply Z.div_pos; lia).
    assert (- n / u ≤ - lo) by (apply Z.div_le_upper_bound; lia). lia.
Qed.

Lemma f64_to_i64_spec v x :
  f64_to_i64 v = Some x → in_i 64 x ∧ x = f64_trunc_Z v ∧ - 2 ^ 63 * f64_unit ≤ f64_num v < 2 ^ 63 * f64_unit.
Proof.
  unfold f64_to_i64. destruct pow_integer as ((_ & _ & Hp) & (_ & _ & Hm) & _).
  destruct (_ && _) eqn:E; [|done]. cbn [negb]. intros [= <-]. apply andb_true_iff in E as [Hlo Hhi].
  assert (f64_is_nan v = false) as Hn.
  { unfold f64_le in Hlo. by destruct (f64_is_nan v); rewrite andb_comm in Hlo; cbn in Hlo; rewrite ?andb_false_r in Hlo. }
  apply f64_le_num in Hlo. apply f64_lt_num in Hhi. rewrite Hp in Hhi. rewrite Hm in Hlo.
  pose proof (trunc_between v (- 2 ^ 63) (2 ^ 63) ltac:(lia) (conj Hlo Hhi)) as Ht.
  unfold f64_as_int, in_i. rewrite Hn. split_and!; [lia|lia|lia|exact Hlo|exact Hhi].
Qed.

Lemma f64_to_u64_spec v x :
  f64_to_u64 v = Some x → in_u 64 x ∧ x = f64_trunc_Z v ∧ 0 ≤ f64_num v < 2 ^ 64 * f64_unit.
Proof.
  unfold f64_to_u64. destruct pow_integer as (_ & _ & (_ & _ & Hp)).
  destruct (_ && _) eqn:E; [|done]. cbn [negb]. intros [= <-]. apply andb_true_iff in E as [Hlo Hhi].
  assert (f64_is_nan v = false) as Hn.
  { unfold f64_le in Hlo. by destruct (f64_is_nan v); rewrite andb_comm in Hlo; cbn in Hlo; rewrite ?andb_false_r in Hlo. }
  apply f64_le_num in Hlo. apply f64_lt_num in Hhi. rewrite Hp in Hhi. change (f64_num 0) with 0 in Hlo.
  pose proof (trunc_between v 0 (2 ^ 64) ltac:(lia) (conj Hlo Hhi)) as Ht.
  unfold f64_as_int, in_u. rewrite Hn. split_and!; [lia|lia|lia|exact Hlo|exact Hhi].
Qed.

Lemma f64_to_i64_integer f k : f64_integer f k → in_i 64 k → f64_to_i64 f = Some k.
Proof.
  intros Hf Hk. pose proof (f64_integer_trunc f k Hf) as Ht. destruct Hf as (_ & Hfin & Hn).
  destruct pow_integer as ((_ & Fp & Hp) & (_ & Fm & Hm) & _). unfold f64_to_i64, in_i in *.
  rewrite f64_le_finite, f64_lt_finite, Hp, Hm, Hn by done. pose proof f64_unit_pos.
  replace (- 2 ^ 63 * f64_unit <=? k * f64_unit) with true by (symmetry; apply Z.leb_le, unit_cancel; lia).
  replace (k * f64_unit <? 2 ^ 63 * f64_unit) with true by (symmetry; apply Z.ltb_lt, unit_cancel_lt; lia).
  unfold f64_as_int. destruct (f64_finite_not f Hfin) as [-> _]. rewrite Ht. cbn [negb andb]. f_equal. lia.
Qed.

Lemma f64_to_u64_integer f k : f64_integer f k → in_u 64 k → f64_to_u64 f = Some k.
Proof.
  intros Hf Hk. pose proof (f64_integer_trunc f k Hf) as Ht. destruct Hf as (_ & Hfin & Hn).
  destruct pow_integer as (_ & _ & (_ & Fp & Hp)). unfold f64_to_u64, in_u in *.
  rewrite f64_le_finite, f64_lt_finite, Hp, Hn by done. pose proof f64_unit_pos. change (f64_num 0) with 0.
  replace (0 <=? k * f64_unit) with true by lia.
  replace (k * f64_unit <? 2 ^ 64 * f64_unit) with true by (symmetry; apply Z.ltb_lt, unit_cancel_lt; lia).
  unfold f64_as_int. destruct (f64_finite_not f Hfin) as [-> _]. rewrite Ht. cbn [negb andb]. f_equal. lia.
Qed.

(** A lossless integer is exactly its [f64]. *)
Lemma integral_trunc f k : (∃ j, f64_num f = j * f64_unit) → f64_trunc_Z f = k → f64_num f = k * f64_unit.
Proof.
  intros [j Hj] <-. destruct (f64_integral_exact f) as (_ & _ & Ht & _); [by exists j|]. done.
Qed.

Lemma i64_lossless v f : in_i 64 v → i64_lossless_to_f64 v = Some f → f64_integer f v.
Proof.
  unfold i64_lossless_to_f64, in_i. intros Hv.
  destruct (f64_of_int_integral v ltac:(lia)) as (Hu & Hf & Hj).
  destruct (f64_to_i64 _) as [b|] eqn:E; [|done]. destruct (Z.eqb_spec b v) as [->|]; [|done].
  intros [= <-]. apply f64_to_i64_spec in E as (_ & Ht & _). split_and!; [done..|]. by apply integral_trunc.
Qed.

Lemma u64_lossless v f : in_u 64 v → u64_lossless_to_f64 v = Some f → f64_integer f v.
Proof.
  unfold u64_lossless_to_f64, in_u. intros Hv.
  destruct (f64_of_int_integral v ltac:(lia)) as (Hu & Hf & Hj).
  destruct (f64_to_u64 _) as [b|] eqn:E; [|done]. destruct (Z.eqb_spec b v) as [->|]; [|done].
  intros [= <-]. apply f64_to_u64_spec in E as (_ & Ht & _). split_and!; [done..|]. by apply integral_trunc.
Qed.

(** ** Patterns stay patterns *)
Lemma sign_bit_range s : 0 ≤ sign_bit s ≤ 2 ^ 63.
Proof. by destruct s. Qed.

Lemma f64_mul_range a b : in_u 64 (f64_mul a b).
Proof.
  unfold f64_mul. pose proof (f64_mag_nonneg a). pose proof (f64_mag_nonneg b). pose proof f64_unit_pos.
  repeat case_if; try done; try (by destruct (xorb _ _)). apply f64_of_ratio_range; nia.
Qed.

Lemma f64_add_range a b : in_u 64 a → in_u 64 b → in_u 64 (f64_add a b).
Proof.
  intros Ha Hb. unfold f64_add. repeat case_if; try done; try (by destruct (_ && _)).
  apply f64_of_ratio_range; lia.
Qed.

Lemma f64_neg_range a : in_u 64 a → in_u 64 (f64_neg a).
Proof. unfold f64_neg, f64_sign, in_u. intros Ha. case_match eqn:E; [apply Z.eqb_eq in E|apply Z.eqb_neq in E]; dlia. Qed.

Lemma f64_sub_range a b : in_u 64 a → in_u 64 b → in_u 64 (f64_sub a b).
Proof. intros Ha Hb. unfold f64_sub. case_if; [done|]. by apply f64_add_range, f64_neg_range. Qed.

Lemma f64_div_range a b : in_u 64 b → in_u 64 (f64_div a b).
Proof.
  intros Hb. unfold f64_div. pose proof (f64_mag_nonneg a). pose proof (f64_mag_nonneg b). pose proof f64_unit_pos.
  repeat case_if; try done; try (by destruct (xorb _ _)). apply f64_of_ratio_range; [nia|].
  assert (f64_mag b ≠ 0); [|lia]. rewrite <- f64_zero_mag by done. congruence.
Qed.

Lemma f32_to_f64_range b : in_u 64 (f32_to_f64 b).
Proof.
  unfold f32_to_f64, in_u. set (s := b / 2 ^ 31 mod 2).
  assert (0 ≤ s < 2) by (apply Z.mod_pos_bound; lia).
  match goal with |- 0 ≤ _ + ?m < _ => assert (0 ≤ m < 2 ^ 63) end; [|lia].
  assert (0 ≤ f32_man b < 2 ^ 23) as Hm by (apply Z.mod_pos_bound; lia).
  assert (0 ≤ f32_exp b < 2 ^ 8) as He by (apply Z.mod_pos_bound; lia).
  repeat case_match; try lia.
  - assert (0 ≤ Z.lor (2 ^ 51) (f32_man b * 2 ^ 29) < 2 ^ 52); [|lia].
    assert (0 ≤ Z.lor (2 ^ 51) (f32_man b * 2 ^ 29)) by (apply Z.lor_nonneg; lia). split; [done|].
    destruct (decide (Z.lor (2 ^ 51) (f32_man b * 2 ^ 29) = 0)); [lia|].
    apply Z.log2_lt_pow2; [lia|]. rewrite Z.log2_lor by lia. change (Z.log2 (2 ^ 51)) with 51.
    destruct (decide (f32_man b * 2 ^ 29 = 0)) as [->|]; [cbn; lia|].
    assert (Z.log2 (f32_man b * 2 ^ 29) < 52) by (apply Z.log2_lt_pow2; lia). lia.
  - set (k := Z.log2 (f32_man b)). assert (f32_man b ≠ 0) by lia.
    pose proof (Z.log2_spec (f32_man b) ltac:(lia)) as [Hlo Hhi]. fold k in Hlo, Hhi.
    assert (0 ≤ k < 23) by (split; [apply Z.log2_nonneg|apply Z.log2_lt_pow2; lia]).
    rewrite Z.pow_succ_r in Hhi by lia.
    assert (0 ≤ (f32_man b - 2 ^ k) * 2 ^ (52 - k) < 2 ^ 52); [|lia].
    assert (0 < 2 ^ (52 - k)) by (apply Z.pow_pos_nonneg; lia).
    assert (2 ^ 52 = 2 ^ k * 2 ^ (52 - k)) as -> by (rewrite <- Z.pow_add_r by lia; f_equal; lia).
    split; [nia|]. apply Z.mul_lt_mono_pos_r; lia.
Qed.

#[local] Opaque f64_to_i64 f64_to_u64 f64_round f64_floor f64_ceil f64_trunc f64_to_f32 f32_to_f64
  f64_add f64_sub f64_mul f64_div f64_of_int f64_num f64_is_finite f64_unit f64_le f64_lt f64_eq f64_as_int
  f64_trunc_Z f64_floor_Z f64_ceil_Z f64_round_Z.

(** ** Reading *)
Lemma try_i_Some w v x : try_i w v = Some x → x = v ∧ in_i w v.
Proof. unfold try_i. case_bool_decide; naive_solver. Qed.

Lemma try_u_Some w v x : try_u w v = Some x → x = v ∧ in_u w v.
Proof. unfold try_u. case_bool_decide; naive_solver. Qed.

Lemma try_i_ok w v : in_i w v → try_i w v = Some v.
Proof. intros. unfold try_i. by rewrite bool_decide_true. Qed.

Lemma try_u_ok w v : in_u w v → try_u w v = Some v.
Proof. intros. unfold try_u. by rewrite bool_decide_true. Qed.

(** Takes an optional computation apart and uses the checks in it. *)
Ltac use_checks :=
  repeat match goal with
  | E : None = Some _ |- _ => discriminate E
  | E : _ <$> _ = Some _ |- _ => apply fmap_Some in E as (? & E & ?)
  | E : _ ≫= _ = Some _ |- _ => apply bind_Some in E as (? & ? & E)
  | E : try_i _ _ = Some _ |- _ => apply try_i_Some in E as [? ?]
  | E : try_u _ _ = Some _ |- _ => apply try_u_Some in E as [? ?]
  | E : f64_to_i64 _ = Some _ |- _ => apply f64_to_i64_spec in E as (? & _ & _)
  | E : f64_to_u64 _ = Some _ |- _ => apply f64_to_u64_spec in E as (? & _ & _)
  | E : Some _ = Some _ |- _ => injection E as E
  end.

Lemma exact_int_semantic_typed t v x : exact_int_semantic t v = Some x → Value.has_type x t.
Proof. unfold exact_int_semantic. destruct t; intros E; use_checks; subst; assumption. Qed.

Lemma checked_to_semantic_typed t f x :
  in_u 64 f → checked_to_semantic t f = Some x → Value.has_type x t.
Proof.
  intros Hf. unfold checked_to_semantic. destruct (negb _); [done|].
  destruct t; intros E; use_checks; subst; try assumption.
  destruct (f32_is_infinite _); use_checks. subst. apply f64_to_f32_range.
Qed.

Lemma decode_value_typed p raw v :
  property_wf p → RawValue.wf raw → decode_value p raw = Some v →
  Value.has_type v (pr_value_type p).
Proof.
  intros Hp Hr. unfold decode_value.
  assert (∀ raw_num, in_u 64 (f64_add (f64_mul raw_num (pr_scale p)) (pr_offset p))) as Hrange.
  { intros. apply f64_add_range; [apply f64_mul_range|apply Hp]. }
  assert (∀ rt vt, (if is_numeric rt && is_numeric vt then
      match (if is_identity p && is_integer_type vt then raw_integer rt raw else None) with
      | Some v => exact_int_semantic vt v
      | None => raw_num ← numeric_raw_to_f64 rt raw;
          checked_to_semantic vt (f64_add (f64_mul raw_num (pr_scale p)) (pr_offset p))
      end else None) = Some v → Value.has_type v vt) as Hnum.
  { intros rt vt. case_if; [|done]. case_match.
    - apply exact_int_semantic_typed.
    - intros (? & _ & E)%bind_Some. by eapply checked_to_semantic_typed. }
  destruct (pr_raw_type p), (pr_value_type p); try apply Hnum;
    destruct raw; try done; by intros [= <-].
Qed.

(** C40: reading never invents a value.  A result of the driver with an error, or
    without a value, decodes to no value and quality Bad, with the protocol code
    of the device kept; a decoded value has the semantic type of its property,
    and the quality is Good exactly when there is a value. *)
Theorem decode_read_sound p r :
  property_wf p → from_option RawValue.wf True (rr_value r) →
  let d := decode_read p r in
  (q_level (dr_quality d) = QualityLevel.Good ↔ is_Some (dr_value d)) ∧
  (is_Some (rr_error r) ∨ rr_value r = None →
     dr_value d = None ∧ q_level (dr_quality d) = QualityLevel.Bad) ∧
  (∀ e c, rr_error r = Some e → dei_protocol_code e = Some c →
     q_protocol_code (dr_quality d) = Some c) ∧
  (∀ v, dr_value d = Some v → Value.has_type v (pr_value_type p)).
Proof.
  intros Hp Hr d.
  assert (∀ r', dr_value r' = None → q_level (dr_quality r') = QualityLevel.Bad →
    (q_level (dr_quality r') = QualityLevel.Good ↔ is_Some (dr_value r'))) as Hbad.
  { intros r' -> ->. split; [done|by intros []]. }
  unfold d, decode_read. destruct (rr_error r) as [e|].
  { split_and!; [by apply Hbad|done| |done]. by intros ? ? [= <-] ->. }
  destruct (rr_value r) as [raw|]; cbn in Hr; [|split_and!; [by apply Hbad|done..]].
  destruct (decode_value p raw) as [v|] eqn:E; split_and!; try done.
  - by intros [[]|].
  - intros ? [= <-]. by eapply decode_value_typed.
  - by apply Hbad.
Qed.

(** ** Writing *)

(** The raw values of a type. *)
Definition raw_fits (t : DataType.t) (raw : RawValue.t) : Prop :=
  match t, raw with
  | DataType.Bool, RawValue.Bool _ | DataType.String, RawValue.String _
  | DataType.Bytes, RawValue.Bytes _ => True
  | DataType.I8, RawValue.I64 v => in_i 8 v
  | DataType.I16, RawValue.I64 v => in_i 16 v
  | DataType.I32, RawValue.I64 v => in_i 32 v
  | DataType.I64, RawValue.I64 v => in_i 64 v
  | DataType.U8, RawValue.U64 v => in_u 8 v
  | DataType.U16, RawValue.U64 v => in_u 16 v
  | DataType.U32, RawValue.U64 v => in_u 32 v
  | DataType.U64, RawValue.U64 v => in_u 64 v
  | DataType.F32, RawValue.F64 v =>
      ∃ f, in_u 32 f ∧ v = f32_to_f64 f ∧ f32_is_infinite f = false
  | DataType.F64, RawValue.F64 v => in_u 64 v ∧ f64_is_finite v = true
  | _, _ => False
  end.

(** The integer a candidate is rounded to under each policy. *)
Definition rounds_to (r : WriteRounding.t) (candidate x : Z) : Prop :=
  let n := f64_num candidate in
  match r with
  | WriteRounding.Exact => n = x * f64_unit
  | WriteRounding.Nearest => - f64_unit ≤ 2 * (n - x * f64_unit) ≤ f64_unit
  | WriteRounding.Floor => x * f64_unit ≤ n < (x + 1) * f64_unit
  | WriteRounding.Ceil => (x - 1) * f64_unit < n ≤ x * f64_unit
  | WriteRounding.Truncate => x = Z.quot n f64_unit
  end.

Lemma apply_rounding_spec p c r :
  in_u 64 c → f64_is_finite c = true → apply_rounding p c = Ok r →
  ∃ x, f64_integer r x ∧ rounds_to (pr_write_rounding p) c x.
Proof.
  intros Hc Hf. destruct (f64_integral_values c Hc Hf) as (Hfl & Hce & Hro & Htr).
  unfold apply_rounding. destruct (pr_write_rounding p).
  - unfold f64_fract_is_zero. rewrite Hf. destruct (_ =? 0) eqn:E; [|done]. cbn. intros [= <-].
    apply Z.eqb_eq, Z.mod_divide in E as [x Hx]; [|pose proof f64_unit_pos; lia]. by exists x.
  - intros [= <-]. eexists. split; [exact Hro|apply f64_round_Z_spec].
  - intros [= <-]. eexists. split; [exact Hfl|apply f64_floor_Z_spec].
  - intros [= <-]. eexists. split; [exact Hce|apply f64_ceil_Z_spec].
  - intros [= <-]. eexists. split; [exact Htr|reflexivity].
Qed.

Lemma checked_signed_spec p c lo hi raw :
  in_u 64 c → f64_is_finite c = true → checked_signed p c lo hi = Ok raw →
  ∃ x, raw = RawValue.I64 x ∧ rounds_to (pr_write_rounding p) c x ∧ in_i 64 x ∧
    f64_num lo ≤ x * f64_unit ≤ f64_num hi.
Proof.
  intros Hc Hf. unfold checked_signed.
  intros (r & Hr & Hk)%outcome_bind_Ok_inv. destruct (apply_rounding_spec p c r Hc Hf Hr) as (x & Hx & Hround).
  destruct (f64_le _ _ && _) eqn:E; [|done]. cbn in Hk. apply andb_true_iff in E as [E1%f64_le_num E2%f64_le_num].
  destruct (f64_to_i64 r) as [v|] eqn:Ev; [|done]. injection Hk as <-.
  apply f64_to_i64_spec in Ev as (Hv & -> & _). rewrite (f64_integer_trunc r x Hx) in *.
  destruct Hx as (_ & _ & Hx). rewrite Hx in *. by exists x.
Qed.

Lemma checked_unsigned_spec p c hi raw :
  in_u 64 c → f64_is_finite c = true → checked_unsigned p c hi = Ok raw →
  ∃ x, raw = RawValue.U64 x ∧ rounds_to (pr_write_rounding p) c x ∧ in_u 64 x ∧
    x * f64_unit ≤ f64_num hi.
Proof.
  intros Hc Hf. unfold checked_unsigned.
  intros (r & Hr & Hk)%outcome_bind_Ok_inv. destruct (apply_rounding_spec p c r Hc Hf Hr) as (x & Hx & Hround).
  destruct (f64_le _ _ && _) eqn:E; [|done]. cbn in Hk. apply andb_true_iff in E as [E1%f64_le_num E2%f64_le_num].
  destruct (f64_to_u64 r) as [v|] eqn:Ev; [|done]. injection Hk as <-.
  apply f64_to_u64_spec in Ev as (Hv & -> & _). rewrite (f64_integer_trunc r x Hx) in *.
  destruct Hx as (_ & _ & Hx). rewrite Hx in *. by exists x.
Qed.

Definition raw_int (raw : RawValue.t) : option Z :=
  match raw with RawValue.I64 x | RawValue.U64 x => Some x | _ => None end.

Lemma int_bound k x : Z.abs k ≤ 2 ^ 53 → x * f64_unit ≤ f64_num (f64_of_int k) → x ≤ k.
Proof. intros (_ & _ & ->)%of_int_integer. apply unit_cancel. Qed.

Lemma int_lower_bound k x : Z.abs k ≤ 2 ^ 53 → f64_num (f64_of_int k) ≤ x * f64_unit → k ≤ x.
Proof. intros (_ & _ & ->)%of_int_integer. apply unit_cancel. Qed.

(** Steps 6 to 8: the result fits the raw type, and an integer is the rounded
    candidate. *)
Lemma encode_candidate_spec p c raw :
  in_u 64 c → f64_is_finite c = true → encode_candidate p c = Ok raw →
  raw_fits (pr_raw_type p) raw ∧
  (is_integer_type (pr_raw_type p) = true →
     ∃ x, raw_int raw = Some x ∧ rounds_to (pr_write_rounding p) c x).
Proof.
  intros Hc Hf. unfold encode_candidate.
  destruct (pr_raw_type p); match goal with
  | |- checked_signed _ _ _ _ = _ → _ =>
      intros (x & -> & Hr & Hx & Hlo & Hhi)%checked_signed_spec; [|done..];
      split; [cbn; unfold in_i in *|by exists x];
      try (apply int_bound in Hhi; [|lia]; apply int_lower_bound in Hlo; [|lia]); lia
  | |- checked_unsigned _ _ _ = _ → _ =>
      intros (x & -> & Hr & Hx & Hhi)%checked_unsigned_spec; [|done..];
      split; [cbn; unfold in_u in *|by exists x];
      try (apply int_bound in Hhi; [|lia]); lia
  | |- Err _ = Ok _ → _ => intros E; discriminate E
  | _ => idtac
  end.
  - unfold checked_float. destruct (_ && _); [done|]. destruct (f32_is_infinite _) eqn:E; [done|].
    intros [= <-]. split; [|done]. exists (f64_to_f32 c). split_and!; [apply f64_to_f32_range|done..].
  - intros [= <-]. by split.
Qed.

Lemma f32_infinite_cases f : in_u 32 f → f32_is_infinite f = true → f = 0x7F800000 ∨ f = 0xFF800000.
Proof. unfold in_u, f32_is_infinite. intros Hf Hi%Z.eqb_eq. dlia. Qed.

Lemma ranged_i w v (e : ConversionError.t) raw :
  ok_or (RawValue.I64 <$> try_i w v) e = Ok raw → raw = RawValue.I64 v ∧ in_i w v.
Proof. unfold try_i. case_bool_decide; [|done]. by intros [= <-]. Qed.

Lemma ranged_u w v (e : ConversionError.t) raw :
  ok_or (RawValue.U64 <$> try_u w v) e = Ok raw → raw = RawValue.U64 v ∧ in_u w v.
Proof. unfold try_u. case_bool_decide; [|done]. by intros [= <-]. Qed.

(** The integer path writes the value itself. *)
Lemma encode_exact_int_spec p v raw :
  Z.abs v ≤ 2 ^ 64 → encode_exact_int p v = Ok raw →
  check_exact_bounds p v = Ok () ∧ raw_fits (pr_raw_type p) raw ∧
  (is_integer_type (pr_raw_type p) = true → raw_int raw = Some v).
Proof.
  intros Hv ([] & Hb & Hk)%outcome_bind_Ok_inv. split; [done|]. revert Hk. cbn zeta.
  destruct (pr_raw_type p); match goal with
  | |- ok_or (RawValue.I64 <$> _) _ = _ → _ => by intros [-> ?]%ranged_i
  | |- ok_or (RawValue.U64 <$> _) _ = _ → _ => by intros [-> ?]%ranged_u
  | |- Err _ = Ok _ → _ => intros E; discriminate E
  | _ => idtac
  end.
  - destruct (Z.eqb_spec (f64_as_i128 (f32_to_f64 (f64_to_f32 (f64_of_int v)))) v) as [E|]; [|done].
    intros [= <-]. split; [|done]. eexists. split_and!; [apply f64_to_f32_range|done|].
    apply not_true_is_false. intros [Hi|Hi]%f32_infinite_cases; [| |apply f64_to_f32_range];
      rewrite Hi in E; vm_compute in E; lia.
  - destruct (_ =? v) eqn:E; [|done]. intros [= <-]. split; [|done].
    by destruct (f64_of_int_integral v ltac:(lia)) as (? & ? & _).
Qed.

(** ** The semantic value *)
Lemma semantic_to_f64_wf p v t f :
  Value.has_type v t → semantic_to_f64 p v = Ok f → in_u 64 f.
Proof.
  destruct v; cbn; intros Ht E;
    match type of E with
    | Err _ = _ => discriminate E
    | Ok (f64_of_int _) = _ =>
        injection E as <-; destruct t; try contradiction; unfold in_i, in_u in Ht; apply f64_of_int_exact; lia
    | Ok _ = _ => injection E as <-
    | _ => idtac
    end.
  - revert E. destruct (i64_lossless_to_f64 v) as [g|] eqn:El; intros E; [|discriminate E]. injection E as <-.
    apply i64_lossless in El; [apply El|]. destruct t; (contradiction || exact Ht).
  - revert E. destruct (u64_lossless_to_f64 v) as [g|] eqn:El; intros E; [|discriminate E]. injection E as <-.
    apply u64_lossless in El; [apply El|]. destruct t; (contradiction || exact Ht).
  - apply f32_to_f64_range.
  - destruct t; (contradiction || exact Ht).
Qed.

(** The candidate of the scaled path. *)
Definition candidate_of (p : ProfileProperty) (v : Z) : Z :=
  f64_div (f64_sub v (pr_offset p)) (pr_scale p).

Lemma encode_scaled_inv p v raw :
  encode_scaled p v = Ok raw →
  ∃ f, semantic_to_f64 p v = Ok f ∧ f64_is_finite f = true ∧
    from_option (f64_lt f) false (pr_min p ≫= numeric_value_to_f64) = false ∧
    from_option (λ m, f64_lt m f) false (pr_max p ≫= numeric_value_to_f64) = false ∧
    f64_is_finite (candidate_of p f) = true ∧ encode_candidate p (candidate_of p f) = Ok raw.
Proof.
  intros (f & Hf & Hk)%outcome_bind_Ok_inv. exists f. split; [done|]. revert Hk. cbn zeta.
  destruct (f64_is_finite f); [|discriminate]. cbn [negb].
  destruct (from_option _ _ _); [discriminate|]. destruct (from_option _ _ _); [discriminate|].
  destruct (_ || _); [discriminate|]. fold (candidate_of p f).
  destruct (f64_is_finite (candidate_of p f)); [|discriminate]. done.
Qed.

(** How a write gets through. *)
Lemma encode_write_inv p v raw :
  encode_write p v = Ok raw →
  pr_writable p = true ∧
  ((no_scale_family (pr_value_type p) = true ∧ raw_fits (pr_value_type p) raw) ∨
   (no_scale_family (pr_value_type p) = false ∧
    ((is_identity p = true ∧ ∃ x, wide_integer v = Some x ∧ encode_exact_int p x = Ok raw) ∨
     (is_identity p && bool_decide (is_Some (wide_integer v)) = false ∧ encode_scaled p v = Ok raw)))).
Proof.
  unfold encode_write. destruct (pr_writable p); [|discriminate]. cbn [negb]. intros Hk. split; [done|].
  destruct (no_scale_family (pr_value_type p)) eqn:Ef.
  - left. split; [done|]. destruct (pr_value_type p); try discriminate Ef; destruct v; try discriminate Hk;
      injection Hk as <-; done.
  - right. split; [done|].
    assert (match (if is_identity p then wide_integer v else None) with
            | Some v => encode_exact_int p v | None => encode_scaled p v end = Ok raw) as Hm.
    { by destruct (pr_value_type p). }
    clear Hk. destruct (is_identity p); [|by right]. destruct (wide_integer v) as [x|]; [left|right]; eauto.
Qed.

Lemma encode_write_spec p v t raw :
  property_wf p → same_family (pr_raw_type p) (pr_value_type p) = true → Value.has_type v t →
  encode_write p v = Ok raw →
  pr_writable p = true ∧ raw_fits (pr_raw_type p) raw ∧
  (is_integer_type (pr_raw_type p) = true →
     ∃ x, raw_int raw = Some x ∧
       ((is_identity p = true ∧ wide_integer v = Some x) ∨
        ∃ f, semantic_to_f64 p v = Ok f ∧ rounds_to (pr_write_rounding p) (candidate_of p f) x)).
Proof.
  intros Hp Hfam Ht (Hw & Hcase)%encode_write_inv. split; [done|].
  destruct Hcase as [[Hn Hr]|[_ [(Hid & x & Hx & He)|[_ He]]]].
  - assert (pr_raw_type p = pr_value_type p ∧ is_integer_type (pr_value_type p) = false) as [-> ->].
    { destruct (pr_value_type p); try discriminate Hn; destruct (pr_raw_type p); try discriminate Hfam; done. }
    split; [done|discriminate].
  - assert (Z.abs x ≤ 2 ^ 64) as Hb.
    { destruct v; try discriminate Hx; injection Hx as <-; destruct t; try contradiction;
        cbn in Ht; unfold in_i, in_u in Ht; lia. }
    destruct (encode_exact_int_spec p x raw Hb He) as (_ & Hr & Hi). split; [done|]. intros Hint.
    exists x. split; [by apply Hi|by left].
  - apply encode_scaled_inv in He as (f & Hf & _ & _ & _ & Hfin & Hc).
    destruct (encode_candidate_spec p (candidate_of p f) raw (f64_div_range _ _ (wf_scale _ Hp)) Hfin Hc) as [Hr Hi].
    split; [done|]. intros Hint. destruct (Hi Hint) as (x & Hx & Hround). exists x. split; [done|]. right. by exists f.
Qed.

(** C20: what a write produces.  For a property whose types are of one family (as
    validation demands), a semantic value that is accepted becomes a raw value
    in the range of the raw type: nothing is truncated.  For an integer
    register, the value is the semantic integer itself (identity scaling) or
    the integer the declared policy rounds the inverse transform to: exactly it,
    the nearest one, the floor, the ceiling or the truncation. *)
Theorem encode_write_fits p v t raw :
  property_wf p → same_family (pr_raw_type p) (pr_value_type p) = true → Value.has_type v t →
  encode_write p v = Ok raw →
  pr_writable p = true ∧ raw_fits (pr_raw_type p) raw ∧
  (is_integer_type (pr_raw_type p) = true →
     ∃ x, raw_int raw = Some x ∧
       ((is_identity p = true ∧ wide_integer v = Some x) ∨
        ∃ f, semantic_to_f64 p v = Ok f ∧ rounds_to (pr_write_rounding p) (candidate_of p f) x)).
Proof. apply encode_write_spec. Qed.

(** ** The identity scaling *)
Lemma identity_fields p :
  property_wf p → is_identity p = true → pr_scale p = ONE ∧ f64_is_zero (pr_offset p) = true.
Proof.
  intros Hp [Hs Ho]%andb_true_iff. apply f64_eq_true in Hs, Ho. split.
  - destruct Hs as [|[_ Hz]]; [done|]. vm_compute in Hz. discriminate Hz.
  - destruct Ho as [->|[? _]]; [reflexivity|done].
Qed.

Lemma candidate_identity p f :
  property_wf p → is_identity p = true → in_u 64 f → f64_is_finite f = true →
  f64_num (candidate_of p f) = f64_num f.
Proof.
  intros Hp Hid Hu Hf. destruct (identity_fields p Hp Hid) as [Hs Hz]. unfold candidate_of. rewrite Hs.
  assert (f64_same (f64_sub f (pr_offset p)) f) as (Ha & Hfa & Hna).
  { apply f64_sub_zero; [done..|apply Hp|done]. }
  destruct (f64_div_one _ Ha Hfa) as (_ & _ & Hnd). congruence.
Qed.

Lemma rounds_to_integer r c x k : f64_num c = k * f64_unit → rounds_to r c x → x = k.
Proof.
  intros Hc. pose proof f64_unit_pos as Hu. unfold rounds_to. rewrite Hc. cbn zeta.
  set (u := f64_unit) in *. clearbody u. destruct r; intros Hr.
  - nia.
  - assert (- u < 2 * u * (k - x) < 2 * u ∨ k = x) by nia. nia.
  - nia.
  - nia.
  - rewrite Z.quot_mul in Hr by lia. done.
Qed.

(** The integer of a semantic value, and its [f64]. *)
Lemma semantic_integer p v t x f :
  Value.has_type v t → integer_value_to_i128 v = Some x → semantic_to_f64 p v = Ok f → f64_integer f x.
Proof.
  destruct v; cbn; intros Ht Hx E; try discriminate Hx; injection Hx as <-;
    match type of E with
    | Ok (f64_of_int _) = _ =>
        injection E as <-; destruct t; try contradiction; unfold in_i, in_u in Ht; apply f64_of_int_exact; lia
    | _ => idtac
    end; revert E.
  - destruct (i64_lossless_to_f64 v) as [g|] eqn:El; intros E; [|discriminate E]. injection E as <-.
    apply i64_lossless in El; [done|]. destruct t; (contradiction || exact Ht).
  - destruct (u64_lossless_to_f64 v) as [g|] eqn:El; intros E; [|discriminate E]. injection E as <-.
    apply u64_lossless in El; [done|]. destruct t; (contradiction || exact Ht).
Qed.

(** Decoding an integer register under the identity scaling. *)
Lemma decode_identity p raw x v :
  is_identity p = true → is_integer_type (pr_raw_type p) = true →
  raw_fits (pr_raw_type p) raw → raw_int raw = Some x →
  Value.has_type v (pr_value_type p) → integer_value_to_i128 v = Some x →
  decode_value p raw = Some v.
Proof.
  intros Hid Hint Hfit Hraw Hv Hx. unfold decode_value. rewrite Hid.
  assert (raw_integer (pr_raw_type p) raw = Some x) as Hri.
  { destruct (pr_raw_type p); try discriminate Hint; destruct raw; try contradiction; exact Hraw. }
  assert (is_integer_type (pr_value_type p) = true ∧ exact_int_semantic (pr_value_type p) x = Some v) as [Hvi He].
  { destruct v; try discriminate Hx; injection Hx as <-; destruct (pr_value_type p); try contradiction;
      (split; [reflexivity|]); cbn in Hv |- *; rewrite ?try_i_ok, ?try_u_ok by exact Hv; reflexivity. }
  destruct (pr_raw_type p); try discriminate Hint; destruct (pr_value_type p); try discriminate Hvi;
    cbn [is_numeric andb is_integer_type]; rewrite Hri; exact He.
Qed.

(** Integers survive a write and a read.  With the identity scaling and
    integer types on both sides, whatever the rounding policy, a semantic value
    that was accepted for writing is read back unchanged from the raw value,
    over the whole range of 64-bit integers. *)
Theorem identity_round_trip p v raw :
  property_wf p → is_identity p = true →
  is_integer_type (pr_raw_type p) = true → is_integer_type (pr_value_type p) = true →
  Value.has_type v (pr_value_type p) → encode_write p v = Ok raw →
  decode_value p raw = Some v.
Proof.
  intros Hp Hid Hri Hvi Hv (_ & Hcase)%encode_write_inv.
  assert (∃ x, integer_value_to_i128 v = Some x ∧ Z.abs x ≤ 2 ^ 64) as (x & Hx & Hb).
  { destruct (pr_value_type p); try discriminate Hvi; destruct v; try contradiction;
      cbn in Hv; unfold in_i, in_u in Hv; eexists; (split; [reflexivity|lia]). }
  destruct Hcase as [[Hn _]|[_ [(_ & y & Hy & He)|[_ He]]]].
  - destruct (pr_value_type p); discriminate.
  - assert (y = x) as -> by (destruct v; try discriminate Hy; cbn in Hx, Hy; congruence).
    destruct (encode_exact_int_spec p x raw Hb He) as (_ & Hfit & Hi).
    eapply decode_identity; [done..|by apply Hi|done|done].
  - apply encode_scaled_inv in He as (f & Hf & Hfin & _ & _ & Hcf & Hc).
    destruct (semantic_integer p v _ x f Hv Hx Hf) as (Hu & _ & Hnum).
    destruct (encode_candidate_spec p (candidate_of p f) raw (f64_div_range _ _ (wf_scale _ Hp)) Hcf Hc) as [Hfit Hi].
    destruct (Hi Hri) as (y & Hy & Hround).
    assert (y = x) as -> by (eapply rounds_to_integer; [|exact Hround]; by rewrite candidate_identity).
    by eapply decode_identity.
Qed.

(** ** Bounds of the integer path *)

(** The comparison of an integer with a finite [f64] is exact. *)
Lemma i128_lt_f64_exact v f :
  Z.abs v ≤ 2 ^ 64 → in_u 64 f → f64_is_finite f = true →
  i128_lt_f64 v f = (v * f64_unit <? f64_num f).
Proof.
  intros Hv Hu Hf. destruct (f64_finite_not f Hf) as [Hn _]. unfold i128_lt_f64. rewrite Hn.
  destruct (f64_integral_values f Hu Hf) as (_ & Hce & _). pose proof (f64_ceil_Z_spec f) as [Hlo Hhi].
  assert (f64_as_i128 (if f64_fract_is_zero f then f else f64_ceil f) =
    Z.max (- 2 ^ 127) (Z.min (2 ^ 127 - 1) (f64_ceil_Z f))) as ->.
  { apply as_i128_integer. destruct (f64_fract_is_zero f) eqn:E; [|exact Hce].
    unfold f64_fract_is_zero in E. rewrite Hf in E. cbn [andb] in E. apply Z.eqb_eq in E.
    split_and!; [done..|]. symmetry. apply f64_integral_exact, Z.mod_divide; [|done]. pose proof f64_unit_pos. lia. }
  set (k := f64_ceil_Z f) in *. apply eq_true_iff_eq. rewrite !Z.ltb_lt. split.
  - intros Hlt. assert (v * f64_unit ≤ (k - 1) * f64_unit) by (apply unit_cancel; lia). lia.
  - intros Hlt. assert (v < k) by (apply unit_cancel_lt; lia). lia.
Qed.

Lemma i128_gt_f64_exact v f :
  Z.abs v ≤ 2 ^ 64 → in_u 64 f → f64_is_finite f = true →
  i128_gt_f64 v f = (f64_num f <? v * f64_unit).
Proof.
  intros Hv Hu Hf. destruct (f64_finite_not f Hf) as [Hn _]. unfold i128_gt_f64. rewrite Hn.
  destruct (f64_integral_values f Hu Hf) as (Hfl & _). pose proof (f64_floor_Z_spec f) as [Hlo Hhi].
  assert (f64_as_i128 (if f64_fract_is_zero f then f else f64_floor f) =
    Z.max (- 2 ^ 127) (Z.min (2 ^ 127 - 1) (f64_floor_Z f))) as ->.
  { apply as_i128_integer. destruct (f64_fract_is_zero f) eqn:E; [|exact Hfl].
    unfold f64_fract_is_zero in E. rewrite Hf in E. cbn [andb] in E. apply Z.eqb_eq in E.
    split_and!; [done..|]. symmetry. apply f64_integral_exact, Z.mod_divide; [|done]. pose proof f64_unit_pos. lia. }
  set (k := f64_floor_Z f) in *. apply eq_true_iff_eq. rewrite !Z.ltb_lt. split.
  - intros Hlt. assert ((k + 1) * f64_unit ≤ v * f64_unit) by (apply unit_cancel; lia). lia.
  - intros Hlt. assert (k < v) by (apply unit_cancel_lt; lia). lia.
Qed.

(** The number of a numeric value, in units of 2^-1074. *)
Definition value_num (v : Value.t) : option Z :=
  match integer_value_to_i128 v with
  | Some k => Some (k * f64_unit)
  | None => f64_num <$> numeric_value_to_f64 v
  end.

Definition finite_bound (b : Value.t) : Prop :=
  ∃ f, numeric_value_to_f64 b = Some f ∧ in_u 64 f ∧ f64_is_finite f = true.

Lemma below_bound_exact x b :
  Z.abs x ≤ 2 ^ 64 → finite_bound b → below_bound x b = from_option (λ n, x * f64_unit <? n) false (value_num b).
Proof.
  intros Hx (f & Hf & Hu & Hfin). unfold below_bound, value_num.
  destruct (integer_value_to_i128 b) as [k|]; cbn.
  - apply eq_true_iff_eq. rewrite !Z.ltb_lt. symmetry. apply unit_cancel_lt.
  - rewrite Hf. cbn. by apply i128_lt_f64_exact.
Qed.

Lemma above_bound_exact x b :
  Z.abs x ≤ 2 ^ 64 → finite_bound b → above_bound x b = from_option (λ n, n <? x * f64_unit) false (value_num b).
Proof.
  intros Hx (f & Hf & Hu & Hfin). unfold above_bound, value_num.
  destruct (integer_value_to_i128 b) as [k|]; cbn.
  - apply eq_true_iff_eq. rewrite !Z.ltb_lt. symmetry. apply unit_cancel_lt.
  - rewrite Hf. cbn. by apply i128_gt_f64_exact.
Qed.

Lemma finite_bound_num b : finite_bound b → ∃ n, value_num b = Some n.
Proof. intros (f & Hf & _). unfold value_num. rewrite Hf. destruct (integer_value_to_i128 b); eauto. Qed.

Lemma min_respected (o : option Value.t) x :
  Z.abs x ≤ 2 ^ 64 → (∀ b, o = Some b → finite_bound b) →
  from_option (below_bound x) false o = false ↔
  ∀ b n, o = Some b → value_num b = Some n → n ≤ x * f64_unit.
Proof.
  intros Hx Hfin. destruct o as [b|]; cbn; [|by split]. specialize (Hfin b eq_refl).
  rewrite below_bound_exact by done. destruct (finite_bound_num b Hfin) as [n Hn]. rewrite Hn. cbn.
  rewrite Z.ltb_ge. split; [intros Hle b' n' [= <-]; congruence|]. intros Hle. by apply (Hle b).
Qed.

Lemma max_respected (o : option Value.t) x :
  Z.abs x ≤ 2 ^ 64 → (∀ b, o = Some b → finite_bound b) →
  from_option (above_bound x) false o = false ↔
  ∀ b n, o = Some b → value_num b = Some n → x * f64_unit ≤ n.
Proof.
  intros Hx Hfin. destruct o as [b|]; cbn; [|by split]. specialize (Hfin b eq_refl).
  rewrite above_bound_exact by done. destruct (finite_bound_num b Hfin) as [n Hn]. rewrite Hn. cbn.
  rewrite Z.ltb_ge. split; [intros Hle b' n' [= <-]; congruence|]. intros Hle. by apply (Hle b).
Qed.

(** The integer path compares with the bounds of a property exactly.  Under
    the identity scaling a 64-bit integer is accepted for a 64-bit register of
    its own signedness exactly when it lies between [min] and [max] as numbers,
    integer or fractional, also beyond 2^53 where [f64] would round. *)
Theorem exact_bounds p x :
  pr_writable p = true → is_identity p = true → in_i 64 x →
  pr_raw_type p = DataType.I64 → pr_value_type p = DataType.I64 →
  (∀ b, pr_min p = Some b ∨ pr_max p = Some b → finite_bound b) →
  encode_write p (Value.I64 x) = Ok (RawValue.I64 x) ↔
    (∀ b n, pr_min p = Some b → value_num b = Some n → n ≤ x * f64_unit) ∧
    (∀ b n, pr_max p = Some b → value_num b = Some n → x * f64_unit ≤ n).
Proof.
  intros Hw Hid Hx Hr Hv Hb. assert (Z.abs x ≤ 2 ^ 64) as Hx' by (unfold in_i in Hx; lia).
  rewrite <- min_respected, <- max_respected by auto.
  unfold encode_write. rewrite Hw, Hv, Hid. cbn [negb wide_integer].
  unfold encode_exact_int, check_exact_bounds. rewrite Hr. cbn zeta. rewrite try_i_ok by done.
  destruct (from_option (below_bound x) false (pr_min p)), (from_option (above_bound x) false (pr_max p));
    cbn; (split; [intros Hok|intros [? ?]]); done.
Qed.
