(* ===== verification/ProfileRegistryLaws.v ===== *)
(** * Laws of validation, loading and the registry *)

From S2P Require Import Prelude RustStd RustFloat ObservationModel ProfileModel ProfileConvert ProfileLaws.
From stdpp Require Import options.

#[local] Opaque f64_is_finite f64_eq f64_to_i64 f64_to_u64 f64_round f64_floor f64_ceil f64_trunc
  f64_to_f32 f32_to_f64 f64_add f64_sub f64_mul f64_div f64_of_int f64_num f64_unit f64_le f64_lt
  f64_as_int f32_is_infinite.

(** ** What validation establishes *)
Record property_valid (p : ProfileProperty) : Prop := {
  pv_path : valid_path (pr_path p) = true;
  pv_address : pr_driver_address p ≠ [];
  pv_scale : f64_is_finite (pr_scale p) = true;
  pv_offset : f64_is_finite (pr_offset p) = true;
  pv_family : same_family (pr_raw_type p) (pr_value_type p) = true;
  pv_nonzero : no_scale_family (pr_value_type p) = false → f64_eq (pr_scale p) 0 = false;
  pv_interval : pr_default_interval_ms p ≠ Some 0;
}.

Lemma fail_if_empty_Ok v f : fail_if_empty v f = Ok () → v ≠ [].
Proof. unfold fail_if_empty. by case_bool_decide. Qed.

Lemma validate_property_Ok profile p field :
  validate_property profile p field = Ok () → property_valid p.
Proof.
  unfold validate_property. destruct (valid_path _) eqn:Hpath; [|done]. cbn [negb].
  intros ([] & Haddr%fail_if_empty_Ok & Hk)%outcome_bind_Ok_inv. revert Hk.
  destruct (f64_is_finite (pr_scale p)) eqn:Hs; [|done]. destruct (f64_is_finite (pr_offset p)) eqn:Ho; [|done].
  cbn [negb orb]. intros ([] & Hpair & ([] & Hscale & ([] & _ & Hint)%outcome_bind_Ok_inv)%outcome_bind_Ok_inv)%outcome_bind_Ok_inv.
  split; try done.
  - unfold validate_value_pair in Hpair. by destruct (same_family _ _).
  - intros Hn. rewrite Hn in Hscale. by destruct (f64_eq (pr_scale p) 0).
  - intros Hz. rewrite Hz in Hint. done.
Qed.

(** An outcome that does not blame the profile. *)
Definition blames_value {A} (o : outcome ConversionError.t A) : Prop :=
  match o with
  | Err (ConversionError.ScaleInvalid _ _) | Err (ConversionError.SemanticTypeMismatch _) | Panic => False
  | _ => True
  end.

Lemma apply_rounding_blames p c : blames_value (apply_rounding p c).
Proof. unfold apply_rounding. destruct (pr_write_rounding p); try done. by case_if. Qed.

Lemma blames_bind {A B} (m : outcome ConversionError.t A) (k : A → outcome ConversionError.t B) :
  blames_value m → (∀ a, blames_value (k a)) → blames_value (outcome_bind m k).
Proof. destruct m; cbn; auto. Qed.

Lemma encode_candidate_blames p c :
  is_numeric (pr_raw_type p) = true → blames_value (encode_candidate p c).
Proof.
  assert (∀ lo hi, blames_value (checked_signed p c lo hi)) as Hs.
  { intros lo hi. apply blames_bind; [apply apply_rounding_blames|]. intros r. destruct (negb _); [exact I|]. case_match; exact I. }
  assert (∀ hi, blames_value (checked_unsigned p c hi)) as Hu.
  { intros hi. apply blames_bind; [apply apply_rounding_blames|]. intros r. destruct (negb _); [exact I|]. case_match; exact I. }
  unfold encode_candidate. destruct (pr_raw_type p); intros Hn; try discriminate Hn;
    match goal with
    | |- blames_value (checked_signed _ _ _ _) => apply Hs
    | |- blames_value (checked_unsigned _ _ _) => apply Hu
    | |- blames_value (Ok _) => exact I
    | _ => idtac
    end.
  unfold checked_float. destruct (_ && _); [exact I|]. destruct (f32_is_infinite _); exact I.
Qed.

Lemma encode_exact_int_blames p v :
  is_numeric (pr_raw_type p) = true → blames_value (encode_exact_int p v).
Proof.
  intros Hn. apply blames_bind.
  - unfold check_exact_bounds. destruct (from_option _ _ _); [exact I|]. destruct (from_option _ _ _); exact I.
  - intros _. cbn zeta. unfold inexact_error.
    destruct (pr_raw_type p); try discriminate Hn;
      first [unfold try_i, try_u; case_bool_decide; exact I
            |destruct (_ =? v); [exact I|destruct (is_exact p); exact I]].
Qed.

Lemma semantic_blames p v : is_numeric_value v = true → blames_value (semantic_to_f64 p v).
Proof.
  destruct v; intros Hv; try discriminate Hv; unfold semantic_to_f64;
    match goal with |- blames_value (ok_or (numeric_value_to_f64 _) _) => exact I | _ => idtac end.
  - destruct (i64_lossless_to_f64 _); exact I.
  - destruct (u64_lossless_to_f64 _); exact I.
Qed.

Lemma encode_scaled_blames p v :
  property_valid p → no_scale_family (pr_value_type p) = false → is_numeric_value v = true →
  blames_value (encode_scaled p v).
Proof.
  intros Hp Hf Hv. assert (is_numeric (pr_raw_type p) = true) as Hr.
  { pose proof (pv_family _ Hp) as H. by destruct (pr_raw_type p), (pr_value_type p). }
  apply blames_bind; [by apply semantic_blames|]. intros f. cbn zeta. destruct (negb _); [exact I|].
  destruct (from_option _ _ _); [exact I|]. destruct (from_option _ _ _); [exact I|].
  rewrite (pv_nonzero _ Hp Hf), (pv_scale _ Hp), (pv_offset _ Hp). cbn [negb orb].
  destruct (negb _); [exact I|]. by apply encode_candidate_blames.
Qed.

(** For a property that passed validation, writing a value of the
    property's type never fails for a reason of the profile itself: the scale is
    usable and the types match, so the error, if any, says that the property is
    read-only or that this value cannot be represented. *)
Theorem validated_write_errors profile p field v :
  validate_property profile p field = Ok () → Value.has_type v (pr_value_type p) →
  blames_value (encode_write p v).
Proof.
  intros Hp%validate_property_Ok Ht. unfold encode_write. destruct (pr_writable p); [|done]. cbn [negb].
  destruct (no_scale_family (pr_value_type p)) eqn:Ef.
  { destruct (pr_value_type p); try discriminate Ef; destruct v; try contradiction; exact I. }
  assert (is_numeric_value v = true ∧ is_numeric (pr_raw_type p) = true) as [Hv Hr].
  { pose proof (pv_family _ Hp) as H.
    destruct (pr_value_type p); try discriminate Ef; destruct v; try contradiction; (split; [done|]);
      by destruct (pr_raw_type p). }
  assert (blames_value (match (if is_identity p then wide_integer v else None) with
            | Some x => encode_exact_int p x | None => encode_scaled p v end)) as Hb.
  { case_match; [by apply encode_exact_int_blames|by apply encode_scaled_blames]. }
  destruct (pr_value_type p); try discriminate Ef; exact Hb.
Qed.

(** ** Validation of a whole profile *)
Lemma validate_properties_Ok profile i seen l :
  validate_properties profile i seen l = Ok () →
  Forall property_valid l ∧ NoDup (pr_path <$> l) ∧ Forall (λ p, pr_path p ∉ seen) l.
Proof.
  revert i seen. induction l as [|p l IH]; intros i seen; cbn; [intros _; split_and!; constructor|].
  intros ([] & Hp%validate_property_Ok & Hk)%outcome_bind_Ok_inv. revert Hk.
  case_bool_decide as Hin; [done|]. intros (Hl & Hd & Hs)%IH. split_and!.
  - by constructor.
  - constructor; [|done]. intros (q & Hq & Hin')%list_elem_of_fmap.
    rewrite Forall_forall in Hs. apply (Hs q Hin'), elem_of_app. right. rewrite Hq. by apply list_elem_of_singleton.
  - constructor; [done|]. eapply Forall_impl; [exact Hs|]. intros q Hq Hq'. apply Hq, elem_of_app. by left.
Qed.

Lemma validate_profile_Ok profile :
  validate_profile profile = Ok () →
  dp_id profile ≠ [] ∧ Forall property_valid (dp_properties profile) ∧
  NoDup (pr_path <$> dp_properties profile).
Proof.
  intros ([] & Hid%fail_if_empty_Ok & Hk)%outcome_bind_Ok_inv. split; [done|].
  do 6 (apply outcome_bind_Ok_inv in Hk as ([] & _ & Hk)).
  apply outcome_bind_Ok_inv in Hk as ([] & (? & ? & _)%validate_properties_Ok & _). done.
Qed.

(** Validation returns; it does not panic. *)
Create HintDb no_panic.

Ltac no_panic :=
  repeat first
    [ discriminate
    | solve [auto with no_panic]
    | apply outcome_bind_no_panic; [|intros ? _]
    | case_match ].

Lemma fail_if_empty_no_panic v f : fail_if_empty v f ≠ Panic.
Proof. unfold fail_if_empty. no_panic. Qed.

Lemma check_bounds_no_panic profile t lo hi field : check_bounds profile t lo hi field ≠ Panic.
Proof. unfold check_bounds, check_bound, err. no_panic. Qed.
#[local] Hint Resolve fail_if_empty_no_panic check_bounds_no_panic : no_panic.

Lemma validate_property_no_panic profile p field : validate_property profile p field ≠ Panic.
Proof. unfold validate_property, validate_value_pair, validate_min_max, err. no_panic. Qed.

Lemma validate_command_no_panic profile c field : validate_command profile c field ≠ Panic.
Proof.
  unfold validate_command. apply outcome_bind_no_panic; [no_panic|intros ? _].
  apply outcome_bind_no_panic; [no_panic|intros ? _]. apply outcome_bind_no_panic; [|intros ? _].
  - generalize 0%nat (@nil str). induction (pcmd_parameters c) as [|q l IH]; intros i seen; cbn;
      unfold validate_parameter_bounds, err; no_panic.
  - generalize 0%nat. induction (pcmd_preconditions c) as [|q l IH]; intros i; cbn; unfold err; no_panic.
Qed.
#[local] Hint Resolve validate_property_no_panic validate_command_no_panic : no_panic.

Lemma validate_profile_no_panic profile : validate_profile profile ≠ Panic.
Proof.
  assert (∀ l i, validate_models i l ≠ Panic) by (induction l; intros i; cbn; no_panic).
  assert (∀ l i seen, validate_properties profile i seen l ≠ Panic)
    by (induction l; intros i seen; cbn; unfold err; no_panic).
  assert (∀ l i seen, validate_commands profile i seen l ≠ Panic)
    by (induction l; intros i seen; cbn; unfold err; no_panic).
  unfold validate_profile, err. no_panic.
Qed.

(** ** Loading *)
Lemma load_single_valid path content p :
  load_single path content = Ok p → validate_profile p = Ok ().
Proof.
  destruct content as [[]|q]; [done..|]. cbn. intros ([] & Hv & [= <-])%outcome_bind_Ok_inv.
  by destruct (validate_profile q) as [[]| |].
Qed.

(** The entries of a directory, one after the other. *)
Definition collect_entries (path : str) : list (option entry) → list DeviceProfile →
    outcome LoaderError.t (list DeviceProfile) :=
  fix collect l out :=
    match l with
    | [] => Ok out
    | None :: _ => Err (LoaderError.Io path)
    | Some e :: l' =>
        let? out := collect_entry e out in
        collect l' out
    end.

Abbreviation valid_profile := (λ p, validate_profile p = Ok ()).

Lemma collect_entry_valid e out l :
  collect_entry e out = Ok l → Forall valid_profile out → Forall valid_profile l.
Proof.
  revert e out l. fix IH 1. intros [path [entries|]|path [] content] out l; cbn [collect_entry].
  - fold (collect_entries path entries out). revert out l. induction entries as [|[e|] entries IHe]; intros out l; cbn.
    + by intros [= <-].
    + intros (mid & Hmid & Hk)%outcome_bind_Ok_inv Ho. eapply IHe; [exact Hk|]. by eapply IH.
    + discriminate.
  - discriminate.
  - intros (p & Hp%load_single_valid & Hk)%outcome_bind_Ok_inv Ho. injection Hk as <-.
    apply Forall_app. split; [done|]. by constructor.
  - by intros [= <-].
Qed.

Lemma load_profiles_no_panic e : load_profiles_dir e ≠ Panic.
Proof.
  assert (∀ e out, collect_entry e out ≠ Panic) as Hc; [|destruct e; [apply Hc|done]].
  clear e. fix IH 1. intros [path [entries|]|path [] content] out; cbn [collect_entry]; try discriminate.
  - fold (collect_entries path entries out). revert out.
    induction entries as [|[e|] entries IHe]; intros out; cbn; try discriminate.
    apply outcome_bind_no_panic; [apply IH|]. intros o _. apply IHe.
  - apply outcome_bind_no_panic; [|discriminate]. destruct content as [[]|q]; try discriminate. cbn.
    pose proof (validate_profile_no_panic q) as Hq. by destruct (validate_profile q).
Qed.

Lemma load_profiles_dir_valid e l : load_profiles_dir e = Ok l → Forall valid_profile l.
Proof.
  unfold load_profiles_dir. destruct e; [|discriminate]. intros Hl. eapply collect_entry_valid; [exact Hl|constructor].
Qed.

(** ** The registry *)
Definition registry_wf (r : ProfileRegistry) : Prop :=
  map_Forall (λ id p, dp_id p = id ∧ validate_profile p = Ok ()) r.

(** The profiles of [l], under their identifiers. *)
Definition registered (l : list DeviceProfile) : ProfileRegistry :=
  list_to_map ((λ p, (dp_id p, p)) <$> l).

Lemma foldl_delete_lookup {A} (ids : list str) (r : gmap str A) i :
  foldl (λ m i, delete i m) r ids !! i = if decide (i ∈ ids) then None else r !! i.
Proof.
  revert r. induction ids as [|a ids IH]; intros r; cbn; [done|]. rewrite IH.
  destruct (decide (i ∈ ids)); [by rewrite decide_True by set_solver|].
  destruct (decide (i = a)) as [->|Hne].
  - rewrite lookup_delete_eq. by rewrite decide_True by set_solver.
  - rewrite lookup_delete_ne by done. by rewrite decide_False by set_solver.
Qed.

(** Undoing the insertions of a failed load restores the registry. *)
Lemma rollback (base r : ProfileRegistry) ids :
  (∀ i, i ∈ ids → base !! i = None) → (∀ i, i ∉ ids → r !! i = base !! i) →
  foldl (λ m i, delete i m) r ids = base.
Proof.
  intros Hnew Hold. apply map_eq. intros i. rewrite foldl_delete_lookup.
  case_decide; [by rewrite Hnew|by apply Hold].
Qed.

Lemma register_all_spec dir l base ids r :
  Forall valid_profile l → (∀ i, i ∈ ids → base !! i = None) → (∀ i, i ∉ ids → r !! i = base !! i) →
  match register_all dir l ids r with
  | (r', Ok _) => (∀ i, i ∈ (dp_id <$> l) → r !! i = None) ∧ NoDup (dp_id <$> l) ∧ r' = registered l ∪ r
  | (r', Err _) => r' = base
  | (_, Panic) => False
  end.
Proof.
  revert ids r. induction l as [|p l IH]; intros ids r Hv Hnew Hold; cbn.
  { split_and!; [set_solver|constructor|]. unfold registered. cbn. by rewrite map_empty_union. }
  pose proof (Forall_inv Hv) as Hp. apply Forall_inv_tail in Hv.
  unfold register. rewrite Hp. destruct (r !! dp_id p) eqn:Hl; [by apply rollback|].
  assert (base !! dp_id p = None) as Hb.
  { destruct (decide (dp_id p ∈ ids)); [by apply Hnew|by rewrite <- Hold]. }
  assert (∀ i, i ∈ ids ++ [dp_id p] → base !! i = None) as Hnew'.
  { intros i [?|[= ->]%list_elem_of_singleton]%elem_of_app; auto. }
  assert (∀ i, i ∉ ids ++ [dp_id p] → <[dp_id p := p]> r !! i = base !! i) as Hold'.
  { intros i Hi. rewrite lookup_insert_ne; [apply Hold|]; set_solver. }
  specialize (IH (ids ++ [dp_id p]) (<[dp_id p := p]> r) Hv Hnew' Hold').
  destruct (register_all dir l _ _) as [r' [[]|e|]]; [|done..].
  destruct IH as (Hfresh & Hd & ->).
  assert (dp_id p ∉ dp_id <$> l) as Hni.
  { intros Hin%Hfresh. by rewrite lookup_insert_eq in Hin. }
  split_and!.
  - intros i [->|Hi]%elem_of_cons; [done|]. pose proof (Hfresh i Hi) as Hn.
    rewrite lookup_insert_ne in Hn; [done|]. by intros <-.
  - by constructor.
  - unfold registered. cbn. rewrite <- insert_union_l, insert_union_r; [done|].
    apply not_elem_of_list_to_map. rewrite <- list_fmap_compose. done.
Qed.

Lemma registry_wf_union l r :
  registry_wf r → Forall valid_profile l → registry_wf (registered l ∪ r).
Proof.
  intros Hr Hl. apply map_Forall_union_2; [|done]. intros id p Hin. unfold registered in Hin.
  apply elem_of_list_to_map_2, list_elem_of_fmap in Hin as (q & [= -> ->] & Hq).
  split; [done|]. by apply (proj1 (Forall_forall _ _) Hl).
Qed.

(** Loading a directory of profiles is atomic.  It never panics; when it
    fails, for a file that cannot be read or parsed, an invalid profile or an
    identifier that is taken, in the directory or in the registry, the registry
    is what it was; when it succeeds, every profile of the directory is
    registered under its identifier, no earlier one was replaced, and the
    registry holds valid profiles only. *)
Theorem load_dir_atomic e r :
  registry_wf r →
  match load_dir e r with
  | (r', Ok n) => ∃ l, load_profiles_dir e = Ok l ∧ n = length l ∧ r' = registered l ∪ r ∧
      NoDup (dp_id <$> l) ∧ (∀ id, id ∈ (dp_id <$> l) → r !! id = None) ∧ registry_wf r'
  | (r', Err _) => r' = r
  | (_, Panic) => False
  end.
Proof.
  intros Hr. unfold load_dir. destruct (load_profiles_dir e) as [l|x|] eqn:El; [|done|].
  - pose proof (load_profiles_dir_valid e l El) as Hv.
    pose proof (register_all_spec (entry_path e) l r [] r Hv ltac:(set_solver) ltac:(done)) as Hs.
    destruct (register_all _ _ _ _) as [r' [[]|x|]]; [|done..]. destruct Hs as (Hf & Hd & ->).
    exists l. split_and!; try done. by apply registry_wf_union.
  - by apply load_profiles_no_panic in El.
Qed.

(** ** Every registry of a running program *)
Inductive registry_run : ProfileRegistry → Prop :=
| run_new : registry_run ∅
| run_register p r : registry_run r → registry_run (register p r).1
| run_load_dir e r : registry_run r → registry_run (load_dir e r).1.

Lemma load_dir_wf e r : registry_wf r → registry_wf (load_dir e r).1.
Proof.
  intros Hr. unfold load_dir. destruct (load_profiles_dir e) as [l|x|] eqn:El; [|done..].
  pose proof (load_profiles_dir_valid e l El) as Hv.
  pose proof (register_all_spec (entry_path e) l r [] r Hv ltac:(set_solver) ltac:(done)) as Hs.
  destruct (register_all _ _ _ _) as [r' [[]|x|]]; [|by subst|done].
  destruct Hs as (_ & _ & ->). by apply registry_wf_union.
Qed.

Lemma registry_run_wf r : registry_run r → registry_wf r.
Proof.
  induction 1 as [|p r _ IH|e r _ IH]; [apply map_Forall_empty| |by apply load_dir_wf].
  unfold register. destruct (validate_profile p) as [[]| |] eqn:Hp; try done.
  destruct (r !! dp_id p); [done|]. by apply map_Forall_insert_2.
Qed.

Lemma find_path (l : list ProfileProperty) q :
  NoDup (pr_path <$> l) → q ∈ l → List.find (λ p, bool_decide (pr_path p = pr_path q)) l = Some q.
Proof.
  induction l as [|p l IH]; intros Hd Hin; [set_solver|]. cbn in *. apply NoDup_cons in Hd as [Hn Hd].
  case_bool_decide as Heq; apply elem_of_cons in Hin as [->|Hin]; try done; [|by apply IH].
  exfalso. apply Hn. rewrite Heq. apply list_elem_of_fmap. by exists q.
Qed.

(** The registry holds usable profiles only.  Whatever sequence of
    registrations and directory loads a program went through, successful or
    not, a profile found under an identifier has that identifier and passed
    validation; each of its properties is found by its path, has finite scaling
    factors and types of one family. *)
Theorem registry_invariant r id p :
  registry_run r → r !! id = Some p →
  dp_id p = id ∧ validate_profile p = Ok () ∧
  ∀ q, q ∈ dp_properties p → profile_property p (pr_path q) = Some q ∧ property_valid q.
Proof.
  intros Hr%registry_run_wf Hp. apply Hr in Hp as [Hid Hv]. split_and!; [done..|].
  intros q Hq. apply validate_profile_Ok in Hv as (_ & Hall & Hd).
  split; [by apply find_path|]. by apply (proj1 (Forall_forall _ _) Hall).
Qed.

(** The bounds of a scaled property are rounded before the comparison, so
    a value below the minimum can be accepted: with scale 1/2 and a minimum of
    2^53 + 1 the value 2^53 is written, although under the identity scaling the
    same bound rejects it. *)
Theorem scaled_minimum_rounds :
  let p scale := mkProfileProperty (lit "a") (lit "1") DataType.I64 DataType.I64 None scale 0
                   WriteRounding.Exact true true None (Some (Value.I64 (2 ^ 53 + 1))) None in
  encode_write (p 0x3FE0000000000000) (Value.I64 (2 ^ 53)) = Ok (RawValue.I64 (2 ^ 54)) ∧
  encode_write (p ONE) (Value.I64 (2 ^ 53)) =
    Err (ConversionError.MinMaxViolation (f64_of_int (2 ^ 53)) (Some (f64_of_int (2 ^ 53 + 1))) None).
Proof. split; vm_compute; reflexivity. Qed.

(** * Profiles on concrete data

    An inverter drive: a frequency in hundredths of a hertz and a 64-bit
    counter. *)

Definition frequency : ProfileProperty :=
  mkProfileProperty (lit "drive.output.frequency") (lit "1!40001") DataType.U16 DataType.F64
    (Some (lit "Hz")) 0x3F847AE147AE147B 0 WriteRounding.Nearest true true None
    (Some (Value.F64 0)) (Some (Value.F64 0x4079000000000000)).

Definition counter : ProfileProperty :=
  mkProfileProperty (lit "drive.counter") (lit "1!40010") DataType.I64 DataType.I64
    None ONE 0 WriteRounding.Floor true true None None
    (Some (Value.F64 (f64_of_int (2 ^ 62)))).

Definition drive : DeviceProfile :=
  mkDeviceProfile (lit "drive") (lit "v") (lit "f") [lit "m"] DomainKind.Drive (lit "modbus-tcp")
    [frequency; counter] []
    (mkProfileCapabilities [] [] (mkAcquisitionConstraints None None None None) []).

Definition drive_dir : entry :=
  Dir (lit "profiles") (Some [Some (File (lit "drive.json") true (inr drive))]).

(** 49.99 Hz is written as 4999 and read back as 49.99. *)
Example write_frequency :
  encode_write frequency (Value.F64 0x4048FEB851EB851F) = Ok (RawValue.U64 4999).
Proof. vm_compute. reflexivity. Qed.
Example read_frequency : decode_value frequency (RawValue.U64 4999) = Some (Value.F64 0x4048FEB851EB851F).
Proof. vm_compute. reflexivity. Qed.

Lemma frequency_wf : property_wf frequency.
Proof. by vm_compute. Qed.

Lemma counter_wf : property_wf counter.
Proof. by vm_compute. Qed.

Definition reading : RawReadResult := mkRawReadResult 1 (Some (RawValue.U64 4999)) None 0 None None.

Lemma decode_read_sound_witness :
  q_level (dr_quality (decode_read frequency reading)) = QualityLevel.Good ∧
  ∃ v, dr_value (decode_read frequency reading) = Some v ∧ Value.has_type v DataType.F64.
Proof.
  destruct (decode_read_sound frequency reading frequency_wf) as (Hgood & _ & _ & Hty).
  { vm_compute. split; discriminate || reflexivity. }
  destruct (dr_value (decode_read frequency reading)) as [v|] eqn:E; [|vm_compute in E; discriminate E].
  split; [apply Hgood; by exists v|]. exists v. split; [reflexivity|]. by apply Hty.
Defined.

Lemma encode_write_fits_witness : raw_fits DataType.U16 (RawValue.U64 4999).
Proof.
  apply (encode_write_fits frequency (Value.F64 0x4048FEB851EB851F) DataType.F64 (RawValue.U64 4999) frequency_wf);
    [reflexivity|vm_compute; split; discriminate || reflexivity|exact write_frequency].
Defined.

Lemma identity_round_trip_witness : decode_value counter (RawValue.I64 (2 ^ 53 + 1)) = Some (Value.I64 (2 ^ 53 + 1)).
Proof.
  apply (identity_round_trip counter (Value.I64 (2 ^ 53 + 1)) (RawValue.I64 (2 ^ 53 + 1)) counter_wf);
    [vm_compute; reflexivity|reflexivity|reflexivity|vm_compute; split; discriminate || reflexivity|].
  vm_compute. reflexivity.
Defined.

Lemma exact_bounds_witness : encode_write counter (Value.I64 (2 ^ 62 + 1)) ≠ Ok (RawValue.I64 (2 ^ 62 + 1)).
Proof.
  intros Hw. apply (exact_bounds counter (2 ^ 62 + 1)) in Hw as [_ Hmax].
  - specialize (Hmax (Value.F64 (f64_of_int (2 ^ 62))) (2 ^ 62 * f64_unit) eq_refl).
    pose proof f64_unit_pos. rewrite Z.mul_add_distr_r in Hmax.
    assert (2 ^ 62 * f64_unit + 1 * f64_unit ≤ 2 ^ 62 * f64_unit); [|lia].
    apply Hmax. vm_compute. reflexivity.
  - reflexivity.
  - vm_compute. reflexivity.
  - unfold in_i. lia.
  - reflexivity.
  - reflexivity.
  - intros b [Hb|Hb]; [discriminate Hb|]. injection Hb as <-.
    exists (f64_of_int (2 ^ 62)). split_and!; [reflexivity|by apply f64_of_int_integral|vm_compute; reflexivity].
Defined.

Lemma validated_write_errors_witness : blames_value (encode_write frequency (Value.F64 0x4048FEB851EB851F)).
Proof.
  apply (validated_write_errors drive frequency []); [vm_compute; reflexivity|].
  vm_compute. split; discriminate || reflexivity.
Defined.

Lemma registry_wf_empty : registry_wf ∅.
Proof. apply map_Forall_empty. Qed.

Lemma load_dir_atomic_witness :
  (load_dir drive_dir ∅).2 = Ok 1%nat ∧ registry_wf (load_dir drive_dir ∅).1.
Proof.
  pose proof (load_dir_atomic drive_dir ∅ registry_wf_empty) as Hl.
  destruct (load_dir drive_dir ∅) as [r o] eqn:E. cbn [fst snd].
  assert (o = Ok 1%nat) as -> by (vm_compute in E; injection E as _ <-; reflexivity).
  destruct Hl as (l & _ & _ & _ & _ & _ & Hwf). split; [reflexivity|exact Hwf].
Defined.

Lemma registry_invariant_witness :
  ∃ p, (register drive ∅).1 !! lit "drive" = Some p ∧ profile_property p (lit "drive.counter") = Some counter.
Proof.
  exists drive. assert ((register drive ∅).1 !! lit "drive" = Some drive) as Hl by (vm_compute; reflexivity).
  split; [exact Hl|].
  destruct (registry_invariant (register drive ∅).1 (lit "drive") drive) as (_ & _ & Hq);
    [apply run_register, run_new|exact Hl|].
  apply (Hq counter). right. left.
Defined.
