(* ===== verification/DomainModel.v ===== *)
(** * Domain mapping (crates/domain-model/src)

    The last step of the acquisition path: a decoded value becomes an
    [Observation] of the device's domain, under an identifier that is unique
    across devices, paths, sequences and collector sessions. *)

From S2P Require Import Prelude RustStd ObservationModel ProfileModel.
From stdpp Require Import options.

Definition standard_prefix (domain : DomainKind.t) : str :=
  match domain with
  | DomainKind.Plc => lit "plc"
  | DomainKind.Cnc => lit "cnc"
  | DomainKind.Robot => lit "robot"
  | DomainKind.Drive => lit "drive"
  | DomainKind.Servo => lit "servo"
  | DomainKind.Meter => lit "meter"
  | DomainKind.Sensor => lit "sensor"
  | DomainKind.Instrument => lit "instrument"
  | DomainKind.Machine => lit "machine"
  | DomainKind.PowerDevice => lit "power_device"
  | DomainKind.BuildingDevice => lit "building_device"
  | DomainKind.Custom _ => lit "custom"
  end.

Definition dot : Z := 46.

Definition first_segment (path : str) : str :=
  match split_once dot path with Some (a, _) => a | None => path end.

Module DomainError.
Inductive t : Type :=
| PathPrefix (domain : DomainKind.t) (path expected_prefix : str)
| EmptyCollectorSession.
End DomainError.

Definition validate_domain_path (domain : DomainKind.t) (path : str) : outcome DomainError.t () :=
  let prefix := standard_prefix domain in
  let expected := prefix ++ [dot] in
  if bool_decide (first_segment path = prefix) then Ok ()
  else Err (DomainError.PathPrefix domain path expected).

Definition observation_id (device_id path : str) (sequence : Z) (session : str) : str :=
  to_string (byte_len device_id) ++ [colon] ++ device_id ++ [colon]
  ++ to_string (byte_len path) ++ [colon] ++ path ++ [colon]
  ++ to_string sequence ++ [colon] ++ session.

Definition build_observation (device_id : str) (domain : DomainKind.t) (path : str)
    (decoded : DecodedRead) (source_timestamp_ns : option Z) (ingest_timestamp_ns sequence : Z)
    (collector_session_id : str) : outcome DomainError.t Observation :=
  match collector_session_id with
  | [] => Err DomainError.EmptyCollectorSession
  | _ =>
      let? _ := validate_domain_path domain path in
      Ok {| obs_observation_id := observation_id device_id path sequence collector_session_id;
            obs_device_id := device_id;
            obs_path := path;
            obs_value := dr_value decoded;
            obs_quality := dr_quality decoded;
            obs_source_timestamp_ns := source_timestamp_ns;
            obs_ingest_timestamp_ns := ingest_timestamp_ns;
            obs_sequence := sequence;
            obs_metadata := ∅ |}
  end.

(** The identifier determines what it identifies. *)
Lemma observation_id_inj d1 d2 p1 p2 s1 s2 c1 c2 :
  Forall (λ s, in_u 64 (byte_len s)) [d1; d2; p1; p2] → in_u 64 s1 → in_u 64 s2 →
  observation_id d1 p1 s1 c1 = observation_id d2 p2 s2 c2 →
  d1 = d2 ∧ p1 = p2 ∧ s1 = s2 ∧ c1 = c2.
Proof.
  intros Hl Hs1 Hs2 Heq. rewrite !Forall_cons in Hl. destruct Hl as (?&?&?&?&_).
  unfold observation_id in Heq. cbn [app] in Heq.
  apply len_prefixed_inj in Heq as [-> Heq]; [|done..]. injection Heq as Heq.
  apply len_prefixed_inj in Heq as [-> Heq]; [|done..]. injection Heq as Heq.
  apply to_string_delim_inj in Heq as [-> ->]; [done| |done..].
  unfold is_digit, colon. lia.
Qed.

(** Observations that are built from different devices, paths, sequence
    numbers or collector sessions have different identifiers (the deduplication
    key of the platform), and an observation is built exactly when the session
    is named and the path's first segment is the one of the device's domain. *)
Theorem build_observation_identity domain1 domain2 d1 d2 p1 p2 dec1 dec2 src1 src2 t1 t2 s1 s2 c1 c2 :
  Forall (λ s, in_u 64 (byte_len s)) [d1; d2; p1; p2] → in_u 64 s1 → in_u 64 s2 →
  (is_Some (outcome_ok (build_observation d1 domain1 p1 dec1 src1 t1 s1 c1)) ↔
     c1 ≠ [] ∧ first_segment p1 = standard_prefix domain1) ∧
  ∀ o1 o2, build_observation d1 domain1 p1 dec1 src1 t1 s1 c1 = Ok o1 →
    build_observation d2 domain2 p2 dec2 src2 t2 s2 c2 = Ok o2 →
    obs_observation_id o1 = obs_observation_id o2 →
    d1 = d2 ∧ p1 = p2 ∧ s1 = s2 ∧ c1 = c2.
Proof.
  intros Hl Hs1 Hs2. split.
  - unfold build_observation, validate_domain_path. destruct c1 as [|x c1].
    { split; [by intros [? [=]]|by intros [? _]]. }
    case_bool_decide as Hp; simpl; split; try (intros [? [=]]); naive_solver.
  - intros o1 o2 H1 H2 Hid. unfold build_observation in *.
    destruct c1; [done|]. destruct c2; [done|]. inv_ok. subst o1 o2. simpl in Hid.
    by eapply observation_id_inj.
Qed.
