(* ===== verification/DataPipeline.v ===== *)
(** * The data pipeline (crates/data-pipeline/src)

    Observations enter a bounded channel, are aggregated per device into
    batches and leave through a bounded output channel.  A batch leaves the
    aggregation when it is full, when the refresh period ends or at shutdown;
    the batches of a device are numbered, and the message identifier is made
    of the collector session, the device and the number.

    The loop of [run] selects among the events that are ready; [step] is one
    iteration of it, or an event of a producer or of the environment. *)

From S2P Require Import Prelude RustStd ObservationModel.
From stdpp Require Import options.

(** ** Batches (batch.rs) *)
Definition TELEMETRY_SCHEMA : str := lit "forgelink.telemetry.v1".

Record ObservationBatch : Type := mkObservationBatch {
  ob_schema : str;
  ob_message_id : str;
  ob_site_id : str;
  ob_device_id : str;
  ob_sequence : Z;
  ob_sent_at_ns : Z;
  ob_replayed : bool;
  ob_observations : list Observation;
}.

Definition message_id (session device_id : str) (sequence : Z) : str :=
  to_string (byte_len session) ++ [colon] ++ session
  ++ to_string (byte_len device_id) ++ [colon] ++ device_id ++ to_string sequence.

(** [sent_at_ns] is the reading of the wall clock. *)
Definition batch_new (site_id session device_id : str) (sequence : Z)
    (observations : list Observation) (sent_at_ns : Z) : ObservationBatch :=
  {| ob_schema := TELEMETRY_SCHEMA;
     ob_message_id := message_id session device_id sequence;
     ob_site_id := site_id;
     ob_device_id := device_id;
     ob_sequence := sequence;
     ob_sent_at_ns := sent_at_ns;
     ob_replayed := false;
     ob_observations := observations |}.

(** ** Configuration (config.rs) *)
Record PipelineConfig : Type := mkPipelineConfig {
  pc_collector_session_id : str;
  pc_site_id : str;
  pc_max_batch_size : nat;
  pc_flush_interval_ns : Z;
  pc_input_capacity : nat;
  pc_drain_timeout_ns : Z;
}.

Definition DEFAULT_MAX_BATCH_SIZE : nat := 1000.
Definition DEFAULT_FLUSH_INTERVAL_NS : Z := 1000000000.
Definition DEFAULT_INPUT_CAPACITY : nat := 4096.
Definition DEFAULT_DRAIN_TIMEOUT_NS : Z := 5 * 1000000000.
Definition BUFFER_BATCH_MULTIPLIER : Z := 16.

Definition config_new (site_id collector_session_id : str) : PipelineConfig :=
  {| pc_collector_session_id := collector_session_id;
     pc_site_id := site_id;
     pc_max_batch_size := DEFAULT_MAX_BATCH_SIZE;
     pc_flush_interval_ns := DEFAULT_FLUSH_INTERVAL_NS;
     pc_input_capacity := DEFAULT_INPUT_CAPACITY;
     pc_drain_timeout_ns := DEFAULT_DRAIN_TIMEOUT_NS |}.

Module ConfigReason.
Inductive t : Type :=
| SiteId | CollectorSessionId | MaxBatchSize | BufferOverflow | FlushInterval
| InputCapacity | DrainTimeout.
End ConfigReason.

(** [usize] has 64 bits. *)
Definition pipeline_validate (c : PipelineConfig) : outcome ConfigReason.t () :=
  if bool_decide (pc_site_id c = []) then Err ConfigReason.SiteId
  else if bool_decide (pc_collector_session_id c = []) then Err ConfigReason.CollectorSessionId
  else if (pc_max_batch_size c =? 0)%nat then Err ConfigReason.MaxBatchSize
  else if 2 ^ 64 <=? Z.of_nat (pc_max_batch_size c) * BUFFER_BATCH_MULTIPLIER then
    Err ConfigReason.BufferOverflow
  else if pc_flush_interval_ns c =? 0 then Err ConfigReason.FlushInterval
  else if (pc_input_capacity c =? 0)%nat then Err ConfigReason.InputCapacity
  else if pc_drain_timeout_ns c =? 0 then Err ConfigReason.DrainTimeout
  else Ok ().

Module PipelineError.
Inductive t : Type :=
| InvalidConfig (reason : ConfigReason.t)
| Closed
| TaskFailed.
End PipelineError.

(** ** State of the loop (pipeline.rs) *)
(** How the wait for an output slot ends while draining. *)
Module DrainEvent.
Inductive t : Type := Sent | Deadline | OutputClosed.
End DrainEvent.

Record DrainStats : Type := mkDrainStats {
  ds_batches_emitted : Z;
  ds_observations_emitted : Z;
  ds_batches_dropped : Z;
  ds_observations_dropped : Z;
}.

Definition stats_default : DrainStats := mkDrainStats 0 0 0 0.

Record PendingBatch : Type := mkPendingBatch {
  pb_sequence : Z;
  pb_observations : list Observation;
}.

Record Pipe : Type := mkPipe {
  pp_pending : gmap str PendingBatch;
  pp_device_sequence : gmap str Z;
  pp_outbox : list ObservationBatch;
  pp_buffered : Z;
  pp_stats : DrainStats;
}.

Definition pipe_new : Pipe :=
  {| pp_pending := ∅; pp_device_sequence := ∅; pp_outbox := []; pp_buffered := 0;
     pp_stats := stats_default |}.

Definition batch_count (b : ObservationBatch) : Z := Z.of_nat (length (ob_observations b)).
Definition batches_count (l : list ObservationBatch) : Z :=
  foldr (λ b n, batch_count b + n) 0 l.

Section pipeline.
Context `{!MapOrder PendingBatch} (config : PipelineConfig).
Implicit Types (p : Pipe) (o : Observation).

(** The clock readings of an operation that makes batches, by device and
    batch sequence. *)
Implicit Types (clock : str → Z → Z).

Definition buffer_limit : Z := Z.of_nat (pc_max_batch_size config) * BUFFER_BATCH_MULTIPLIER.

(** [entry(..).or_insert_with(..)] on [pending], and [push]. *)
Definition aggregate_observation (pending : gmap str PendingBatch) (device_sequence : gmap str Z)
    (o : Observation) : gmap str PendingBatch * gmap str Z :=
  let d := obs_device_id o in
  match pending !! d with
  | Some e =>
      (<[d := {| pb_sequence := pb_sequence e; pb_observations := pb_observations e ++ [o] |}]>
         pending, device_sequence)
  | None =>
      let seq := default 0 (device_sequence !! d) in
      (<[d := {| pb_sequence := seq; pb_observations := [o] |}]> pending,
       <[d := seq]> device_sequence)
  end.

(** The loop's [ingest_rx.recv] arm. *)
Definition receive_observation clock o p : outcome PipelineError.t Pipe :=
  let d := obs_device_id o in
  let '(pending, device_sequence) :=
    aggregate_observation (pp_pending p) (pp_device_sequence p) o in
  let? entry := expect (pending !! d) in
  if (pc_max_batch_size config <=? length (pb_observations entry))%nat then
    let batch := batch_new (pc_site_id config) (pc_collector_session_id config) d
                   (pb_sequence entry) (pb_observations entry) (clock d (pb_sequence entry)) in
    Ok {| pp_pending := delete d pending;
          pp_device_sequence :=
            match device_sequence !! d with
            | Some seq => <[d := wrap64 (seq + 1)]> device_sequence
            | None => device_sequence
            end;
          pp_outbox := pp_outbox p ++ [batch];
          pp_buffered := pp_buffered p + 1;
          pp_stats := pp_stats p |}
  else
    Ok {| pp_pending := pending; pp_device_sequence := device_sequence; pp_outbox := pp_outbox p;
          pp_buffered := pp_buffered p + 1; pp_stats := pp_stats p |}.

(** The inner loop of [flush_pending_to_outbox]: chunks of at most
    [max_batch_size]; the batches and the sequence after them. *)
Fixpoint flush_chunks (fuel : nat) clock (d : str) (sequence : Z) (observations : list Observation) :
    outcome PipelineError.t (list ObservationBatch * Z) :=
  match observations with
  | [] => Ok ([], sequence)
  | _ =>
      match fuel with
      | O => Panic
      | S fuel =>
          let take_ := (length observations `min` pc_max_batch_size config)%nat in
          let batch := batch_new (pc_site_id config) (pc_collector_session_id config) d sequence
                         (take take_ observations) (clock d sequence) in
          let? (rest, next) := flush_chunks fuel clock d (wrap64 (sequence + 1))
                                  (drop take_ observations) in
          Ok (batch :: rest, next)
      end
  end.

Fixpoint flush_devices clock (device_ids : list str) p : outcome PipelineError.t Pipe :=
  match device_ids with
  | [] => Ok p
  | d :: rest =>
      let? entry := expect (pp_pending p !! d) in
      let? (batches, sequence) :=
        flush_chunks (length (pb_observations entry)) clock d (pb_sequence entry)
          (pb_observations entry) in
      flush_devices clock rest
        {| pp_pending := delete d (pp_pending p);
           pp_device_sequence :=
             match pp_device_sequence p !! d with
             | Some _ => <[d := sequence]> (pp_device_sequence p)
             | None => pp_device_sequence p
             end;
           pp_outbox := pp_outbox p ++ batches;
           pp_buffered := pp_buffered p;
           pp_stats := pp_stats p |}
  end.

Definition flush_pending_to_outbox clock p : outcome PipelineError.t Pipe :=
  flush_devices clock (map_order (pp_pending p)).*1 p.

(** The loops that empty the input before the pipeline ends. *)
Fixpoint aggregate_all (l : list Observation) p : Pipe :=
  match l with
  | [] => p
  | o :: l' =>
      let '(pending, device_sequence) :=
        aggregate_observation (pp_pending p) (pp_device_sequence p) o in
      aggregate_all l'
        {| pp_pending := pending; pp_device_sequence := device_sequence; pp_outbox := pp_outbox p;
           pp_buffered := pp_buffered p; pp_stats := pp_stats p |}
  end.

(** [permit.send] of the loop's [reserve] arm, and of [drain_outbox]. *)
Definition stats_emit (b : ObservationBatch) (s : DrainStats) : DrainStats :=
  {| ds_batches_emitted := ds_batches_emitted s + 1;
     ds_observations_emitted := ds_observations_emitted s + batch_count b;
     ds_batches_dropped := ds_batches_dropped s;
     ds_observations_dropped := ds_observations_dropped s |}.

Definition stats_drop (l : list ObservationBatch) (s : DrainStats) : DrainStats :=
  {| ds_batches_emitted := ds_batches_emitted s;
     ds_observations_emitted := ds_observations_emitted s;
     ds_batches_dropped := ds_batches_dropped s + Z.of_nat (length l);
     ds_observations_dropped := ds_observations_dropped s + batches_count l |}.

Definition send_front p : outcome PipelineError.t (ObservationBatch * Pipe) :=
  match pp_outbox p with
  | [] => Panic
  | b :: rest =>
      Ok (b, {| pp_pending := pp_pending p; pp_device_sequence := pp_device_sequence p;
                pp_outbox := rest; pp_buffered := pp_buffered p - batch_count b;
                pp_stats := stats_emit b (pp_stats p) |})
  end.

(** [terminate_on_output_closed]; [input] is what the closed input channel
    still delivers. *)
Definition terminate_on_output_closed clock (input : list Observation) p :
    outcome PipelineError.t Pipe :=
  let? p := flush_pending_to_outbox clock (aggregate_all input p) in
  Ok {| pp_pending := pp_pending p; pp_device_sequence := pp_device_sequence p; pp_outbox := [];
        pp_buffered := pp_buffered p; pp_stats := stats_drop (pp_outbox p) (pp_stats p) |}.

(** The shutdown arm up to the drain. *)
Definition begin_shutdown clock (input : list Observation) p : outcome PipelineError.t Pipe :=
  flush_pending_to_outbox clock (aggregate_all input p).

(** One iteration of [drain_outbox]: the front batch is sent, or the deadline
    passed or the output closed and the rest is dropped; the loop ends on an
    empty outbox.  The batch that was sent, if any. *)
Definition drop_outbox_rest (current : ObservationBatch) (outbox : list ObservationBatch)
    (s : DrainStats) : DrainStats :=
  {| ds_batches_emitted := ds_batches_emitted s;
     ds_observations_emitted := ds_observations_emitted s;
     ds_batches_dropped := ds_batches_dropped s + (1 + Z.of_nat (length outbox));
     ds_observations_dropped :=
       ds_observations_dropped s + (batch_count current + batches_count outbox) |}.

Definition drain_one (event : DrainEvent.t) p : Pipe * option ObservationBatch :=
  match pp_outbox p with
  | [] => (p, None)
  | queued :: rest =>
      let set_ outbox stats :=
        {| pp_pending := pp_pending p; pp_device_sequence := pp_device_sequence p;
           pp_outbox := outbox; pp_buffered := pp_buffered p; pp_stats := stats |} in
      match event with
      | DrainEvent.Sent => (set_ rest (stats_emit queued (pp_stats p)), Some queued)
      | DrainEvent.Deadline | DrainEvent.OutputClosed =>
          (set_ [] (drop_outbox_rest queued rest (pp_stats p)), None)
      end
  end.

(** The loop of [drain_outbox]: [events] says how each wait ends. *)
Fixpoint drain_outbox (events : list DrainEvent.t) p : Pipe * list ObservationBatch :=
  match events, pp_outbox p with
  | event :: events', _ :: _ =>
      let '(p1, sent) := drain_one event p in
      let '(p2, rest) := drain_outbox events' p1 in
      (p2, option_list sent ++ rest)
  | _, _ => (p, [])
  end.

(** ** The task and its channels

    [w_input] is the content of the input channel, [w_output] everything that
    was put into the output channel, [w_accepted] every observation [ingest]
    returned success for, [w_received] those the task took from the channel
    and [w_dropped] the batches it dropped; the last three are histories. *)
Inductive phase : Type := Running | Draining | Done | Cancelled.

Record World : Type := mkWorld {
  w_pipe : Pipe;
  w_phase : phase;
  w_input : list Observation;
  w_output : list ObservationBatch;
  w_accepted : list Observation;
  w_received : list Observation;
  w_dropped : list ObservationBatch;
}.

Definition world_new : World := mkWorld pipe_new Running [] [] [] [] [].

Inductive step : World → World → Prop :=
(* [Pipeline::ingest] *)
| step_ingest w o :
    w_phase w = Running ∨ w_phase w = Draining → (length (w_input w) < pc_input_capacity config)%nat →
    step w {| w_pipe := w_pipe w; w_phase := w_phase w; w_input := w_input w ++ [o];
              w_output := w_output w; w_accepted := w_accepted w ++ [o];
              w_received := w_received w; w_dropped := w_dropped w |}
| step_flush w clock p' :
    w_phase w = Running → flush_pending_to_outbox clock (w_pipe w) = Ok p' →
    step w {| w_pipe := p'; w_phase := Running; w_input := w_input w; w_output := w_output w;
              w_accepted := w_accepted w; w_received := w_received w; w_dropped := w_dropped w |}
| step_receive w clock o rest p' :
    w_phase w = Running → pp_buffered (w_pipe w) < buffer_limit → w_input w = o :: rest →
    receive_observation clock o (w_pipe w) = Ok p' →
    step w {| w_pipe := p'; w_phase := Running; w_input := rest; w_output := w_output w;
              w_accepted := w_accepted w; w_received := w_received w ++ [o];
              w_dropped := w_dropped w |}
| step_send w b p' :
    w_phase w = Running → send_front (w_pipe w) = Ok (b, p') →
    step w {| w_pipe := p'; w_phase := Running; w_input := w_input w; w_output := w_output w ++ [b];
              w_accepted := w_accepted w; w_received := w_received w; w_dropped := w_dropped w |}
(* The output receiver is gone; [late] are sends that held a permit. *)
| step_output_closed w clock late p' p1 :
    w_phase w = Running →
    flush_pending_to_outbox clock (aggregate_all (w_input w ++ late) (w_pipe w)) = Ok p1 →
    terminate_on_output_closed clock (w_input w ++ late) (w_pipe w) = Ok p' →
    step w {| w_pipe := p'; w_phase := Done; w_input := []; w_output := w_output w;
              w_accepted := w_accepted w ++ late; w_received := w_received w ++ w_input w ++ late;
              w_dropped := w_dropped w ++ pp_outbox p1 |}
(* [late] are sends that arrive while the input is taken. *)
| step_shutdown w clock late p' :
    w_phase w = Running → begin_shutdown clock (w_input w ++ late) (w_pipe w) = Ok p' →
    step w {| w_pipe := p'; w_phase := Draining; w_input := []; w_output := w_output w;
              w_accepted := w_accepted w ++ late; w_received := w_received w ++ w_input w ++ late;
              w_dropped := w_dropped w |}
| step_drain w event p' sent :
    w_phase w = Draining → pp_outbox (w_pipe w) ≠ [] → drain_one event (w_pipe w) = (p', sent) →
    step w {| w_pipe := p'; w_phase := Draining; w_input := w_input w;
              w_output := w_output w ++ option_list sent; w_accepted := w_accepted w;
              w_received := w_received w;
              w_dropped := w_dropped w ++ match sent with Some _ => [] | None => pp_outbox (w_pipe w) end |}
| step_drained w :
    w_phase w = Draining → pp_outbox (w_pipe w) = [] →
    step w {| w_pipe := w_pipe w; w_phase := Done; w_input := w_input w; w_output := w_output w;
              w_accepted := w_accepted w; w_received := w_received w; w_dropped := w_dropped w |}
(* The handle was dropped: the task stops without draining. *)
| step_cancel w :
    w_phase w = Running →
    step w {| w_pipe := w_pipe w; w_phase := Cancelled; w_input := w_input w; w_output := w_output w;
              w_accepted := w_accepted w; w_received := w_received w; w_dropped := w_dropped w |}.

Definition reaches : World → Prop := rtc step world_new.
End pipeline.

(** * Correctness of the data pipeline

    The batches of a device partition its observations in order of arrival,
    under consecutive numbers; nothing is lost between [ingest] and the
    output except what the statistics count as dropped; the amount that is
    buffered is bounded. *)

#[local] Set Default Proof Using "Type".

#[local] Arguments batches_count : simpl never.

(** ** Views of a list of batches *)
Definition of_device (d : str) (l : list ObservationBatch) : list ObservationBatch :=
  filter (λ b, ob_device_id b = d) l.
Definition device_obs (d : str) (l : list Observation) : list Observation :=
  filter (λ o, obs_device_id o = d) l.
Definition contents (l : list ObservationBatch) : list Observation := l ≫= ob_observations.
Definition numbers (from : Z) (n : nat) : list Z :=
  (λ i, wrap64 (from + Z.of_nat i)) <$> seq 0 n.

Lemma of_device_app d l k : of_device d (l ++ k) = of_device d l ++ of_device d k.
Proof. apply filter_app. Qed.

Lemma device_obs_app d l k : device_obs d (l ++ k) = device_obs d l ++ device_obs d k.
Proof. apply filter_app. Qed.

Lemma contents_app l k : contents (l ++ k) = contents l ++ contents k.
Proof. apply bind_app. Qed.

Lemma device_obs_one o : device_obs (obs_device_id o) [o] = [o].
Proof. apply filter_all. by repeat constructor. Qed.

Lemma device_obs_other d o : obs_device_id o ≠ d → device_obs d [o] = [].
Proof. intros. apply filter_none. by repeat constructor. Qed.

Lemma batches_count_contents l : batches_count l = Z.of_nat (length (contents l)).
Proof.
  induction l as [|b l IH]; [done|]. change (contents (b :: l)) with (ob_observations b ++ contents l).
  rewrite length_app. change (batches_count (b :: l)) with (batch_count b + batches_count l).
  rewrite IH. unfold batch_count. lia.
Qed.

Lemma batches_count_app l k : batches_count (l ++ k) = batches_count l + batches_count k.
Proof. rewrite !batches_count_contents, contents_app, length_app. lia. Qed.

Lemma batches_count_cons b l : batches_count (b :: l) = batch_count b + batches_count l.
Proof. done. Qed.

Lemma wrap64_succ z : wrap64 (wrap64 z + 1) = wrap64 (z + 1).
Proof. unfold wrap. by rewrite Zplus_mod_idemp_l. Qed.

Lemma numbers_S from n : numbers from (S n) = wrap64 from :: numbers (from + 1) n.
Proof.
  unfold numbers. cbn [seq fmap list_fmap]. f_equal; [f_equal; lia|].
  rewrite <- fmap_S_seq, <- list_fmap_compose. apply list_fmap_ext. intros i x _. simpl. f_equal. lia.
Qed.

Lemma numbers_app from n m : numbers from (n + m) = numbers from n ++ numbers (from + Z.of_nat n) m.
Proof.
  revert from. induction n as [|n IH]; intros from; [simpl; f_equal; lia|].
  rewrite Nat.add_succ_l, !numbers_S, IH. simpl. do 3 f_equal. lia.
Qed.

Section laws.
Context `{!MapOrder PendingBatch} (config : PipelineConfig).
Implicit Types (p : Pipe) (B bs : list ObservationBatch) (R : list Observation).

(** What the consumer may rely on about one batch. *)
Definition batch_ok (b : ObservationBatch) : Prop :=
  (0 < length (ob_observations b) ≤ pc_max_batch_size config)%nat ∧
  Forall (λ o, obs_device_id o = ob_device_id b) (ob_observations b) ∧
  ob_site_id b = pc_site_id config ∧
  ob_message_id b = message_id (pc_collector_session_id config) (ob_device_id b) (ob_sequence b) ∧
  ob_replayed b = false.

Definition pending_obs (d : str) (pending : gmap str PendingBatch) : list Observation :=
  match pending !! d with Some e => pb_observations e | None => [] end.

Definition all_pending (pending : gmap str PendingBatch) : list Observation :=
  map_to_list pending ≫= λ '(_, e), pb_observations e.

(** The state of a device after the batches [B] were made of the observations
    [R]. *)
Definition device_ok B R (pending : gmap str PendingBatch) (ds : gmap str Z) (d : str) : Prop :=
  let n := length (of_device d B) in
  contents (of_device d B) ++ pending_obs d pending = device_obs d R ∧
  ob_sequence <$> of_device d B = numbers 0 n ∧
  match pending !! d with
  | Some e => ds !! d = Some (wrap64 (Z.of_nat n)) ∧ pb_sequence e = wrap64 (Z.of_nat n) ∧
              pb_observations e ≠ []
  | None => default 0 (ds !! d) = wrap64 (Z.of_nat n)
  end.

Record pipe_ok B R (pending : gmap str PendingBatch) (ds : gmap str Z) : Prop := {
  po_device d : device_ok B R pending ds d;
  po_batches : Forall batch_ok B;
  po_perm : contents B ++ all_pending pending ≡ₚ R;
}.

Lemma pipe_ok_new : pipe_ok [] [] ∅ ∅.
Proof.
  split; [intros d; repeat split|done|].
  unfold all_pending. by rewrite map_to_list_empty.
Qed.

Lemma all_pending_insert (m : gmap str PendingBatch) d e :
  all_pending (<[d := e]> m) ≡ₚ pb_observations e ++ all_pending (delete d m).
Proof.
  unfold all_pending. rewrite <- insert_delete_eq, map_to_list_insert by apply lookup_delete_eq. done.
Qed.

Lemma all_pending_delete (m : gmap str PendingBatch) d e :
  m !! d = Some e → all_pending m ≡ₚ pb_observations e ++ all_pending (delete d m).
Proof. intros Hd. rewrite <- (insert_id m d e Hd) at 1. apply all_pending_insert. Qed.

Lemma delete_absent (m : gmap str PendingBatch) d : m !! d = None → delete d m = m.
Proof. apply delete_id. Qed.

(** An observation joins the batch of its device. *)
Lemma aggregate_ok B R pending ds o pending' ds' :
  pipe_ok B R pending ds → aggregate_observation pending ds o = (pending', ds') →
  pipe_ok B (R ++ [o]) pending' ds'.
Proof.
  intros [Hd Hb Hperm]. unfold aggregate_observation. set (d := obs_device_id o).
  pose proof (Hd d) as (Hc & Hn & Hp). unfold pending_obs in Hc.
  destruct (pending !! d) as [e|] eqn:He; intros [= <- <-]; (split; [|done|]).
  1, 3: intros k; destruct (decide (k = d)) as [->|Hk];
    [|unfold device_ok, pending_obs; rewrite device_obs_app, lookup_insert_ne by done;
      rewrite device_obs_other, app_nil_r by (subst d; congruence);
      rewrite ?lookup_insert_ne by done; apply Hd].
  - unfold device_ok, pending_obs. rewrite !lookup_insert_eq, device_obs_app, <- Hc. unfold d. rewrite device_obs_one. cbn [pb_observations pb_sequence]. rewrite app_assoc.
    destruct Hp as (? & ? & ?). repeat split; [done..|]. by destruct (pb_observations e).
  - unfold device_ok, pending_obs. rewrite !lookup_insert_eq, device_obs_app, <- Hc. unfold d. rewrite device_obs_one. cbn [pb_observations pb_sequence]. rewrite app_nil_r.
    fold d. rewrite Hp. by repeat split.
  - rewrite all_pending_insert, <- Hperm, (all_pending_delete _ _ _ He). cbn. solve_Permutation.
  - rewrite all_pending_insert, delete_absent, <- Hperm by done. cbn. solve_Permutation.
Qed.

(** Consecutive batches made of [os] from number [s] on. *)
Definition chunks_of (d : str) (s : Z) (os : list Observation) bs : Prop :=
  contents bs = os ∧ Forall batch_ok bs ∧ Forall (λ b, ob_device_id b = d) bs ∧
  ob_sequence <$> bs = numbers s (length bs).

Lemma chunks_of_one clock d s os :
  Forall (λ o, obs_device_id o = d) os → (0 < length os ≤ pc_max_batch_size config)%nat →
  chunks_of d s os [batch_new (pc_site_id config) (pc_collector_session_id config) d (wrap64 s) os
                      (clock d (wrap64 s))].
Proof.
  intros Hd Hl. unfold chunks_of, contents. cbn. rewrite app_nil_r.
  split; [done|]. split; [apply Forall_singleton; unfold batch_ok; cbn; split_and!; done || lia|]. split; [by apply Forall_singleton|].
  by rewrite Z.add_0_r.
Qed.

Lemma flush_chunks_ok fuel clock d s os :
  (0 < pc_max_batch_size config)%nat →
  Forall (λ o, obs_device_id o = d) os → (length os ≤ fuel)%nat →
  ∃ bs, flush_chunks config fuel clock d (wrap64 s) os =
          Ok (bs, wrap64 (s + Z.of_nat (length bs))) ∧ chunks_of d s os bs.
Proof.
  intros Hmax. revert s os. induction fuel as [|fuel IH]; intros s os Hd Hf; (destruct os as [|o os];
    [exists []; cbn; rewrite Z.add_0_r; repeat split; by constructor|]); [simpl in Hf; lia|].
  cbn [flush_chunks]. set (t := (length (o :: os) `min` pc_max_batch_size config)%nat).
  assert (0 < t ≤ pc_max_batch_size config)%nat as Ht by (unfold t; cbn [length]; lia).
  assert (t ≤ length (o :: os))%nat as Htl by (unfold t; lia).
  destruct (IH (s + 1) (drop t (o :: os))) as (bs & Hbs & Hc & Hok & Hdev & Hseq);
    [by apply Forall_drop|rewrite length_drop; simpl in *; lia|].
  rewrite wrap64_succ, Hbs. cbn [outcome_bind].
  destruct (chunks_of_one clock d s (take t (o :: os))) as (Hc1 & Hok1 & Hdev1 & Hseq1);
    [by apply Forall_take|rewrite length_take; lia|].
  eexists. split; [do 2 f_equal; f_equal; cbn [length]; lia|].
  match goal with |- chunks_of _ _ _ (?b :: _) => change (b :: bs) with ([b] ++ bs) end.
  split; [by rewrite contents_app, Hc1, Hc, take_drop|].
  split; [by apply Forall_app|]. split; [by apply Forall_app|].
  rewrite fmap_app, Hseq1, Hseq, length_app. symmetry. apply (numbers_app s 1).
Qed.

(** Turning what is pending for a device into batches. *)
Lemma emit_ok B R pending ds d e bs :
  pipe_ok B R pending ds → pending !! d = Some e →
  chunks_of d (Z.of_nat (length (of_device d B))) (pb_observations e) bs →
  pipe_ok (B ++ bs) R (delete d pending)
    (<[d := wrap64 (Z.of_nat (length (of_device d B) + length bs))]> ds).
Proof.
  intros [Hd Hb Hperm] He (Hc & Hok & Hdev & Hseq). split.
  - intros k. unfold device_ok, pending_obs. rewrite of_device_app.
    destruct (decide (k = d)) as [->|Hk].
    + rewrite lookup_delete_eq, lookup_insert_eq, app_nil_r.
      rewrite (filter_all (λ b, ob_device_id b = d) bs Hdev : of_device d bs = bs).
      destruct (Hd d) as (Hcd & Hn & Hp). unfold pending_obs in Hcd. rewrite He in Hcd.
      rewrite contents_app, Hc, fmap_app, Hn, Hseq, length_app, (numbers_app 0). by split_and!.
    + rewrite lookup_delete_ne, lookup_insert_ne by done.
      assert (of_device k bs = []) as ->; [|rewrite app_nil_r; apply Hd].
      apply filter_none. eapply Forall_impl; [exact Hdev|]. simpl. congruence.
  - by apply Forall_app.
  - rewrite <- Hperm, (all_pending_delete _ _ _ He), contents_app, Hc. by rewrite <- app_assoc.
Qed.

Lemma pending_devices B R pending ds d e :
  pipe_ok B R pending ds → pending !! d = Some e →
  Forall (λ o, obs_device_id o = d) (pb_observations e).
Proof.
  intros [Hd _ _] He. destruct (Hd d) as (Hc & _). unfold pending_obs in Hc. rewrite He in Hc.
  apply Forall_forall. intros o Ho.
  assert (o ∈ device_obs d R) as Hin by (rewrite <- Hc; set_solver).
  unfold device_obs in Hin. by apply list_elem_of_filter in Hin as [? _].
Qed.
(** ** The operations of the loop *)
Definition open_batches (pending : gmap str PendingBatch) : Prop :=
  ∀ d e, pending !! d = Some e → (length (pb_observations e) < pc_max_batch_size config)%nat.

(** An operation that turns observations into the batches [bs]. *)
Definition made B R p p' bs : Prop :=
  pipe_ok (B ++ bs) R (pp_pending p') (pp_device_sequence p') ∧
  pp_outbox p' = pp_outbox p ++ bs ∧ pp_stats p' = pp_stats p.

Lemma device_number B R pending ds d e :
  pipe_ok B R pending ds → pending !! d = Some e →
  ds !! d = Some (wrap64 (Z.of_nat (length (of_device d B)))) ∧
  pb_sequence e = wrap64 (Z.of_nat (length (of_device d B))).
Proof. intros [Hd _ _] He. destruct (Hd d) as (_ & _ & Hp). rewrite He in Hp. tauto. Qed.

Lemma aggregate_entry pending ds o pending' ds' :
  (0 < pc_max_batch_size config)%nat → open_batches pending →
  aggregate_observation pending ds o = (pending', ds') →
  (∃ e, pending' !! obs_device_id o = Some e ∧
     (0 < length (pb_observations e) ≤ pc_max_batch_size config)%nat) ∧
  ∀ k, k ≠ obs_device_id o → pending' !! k = pending !! k.
Proof.
  intros Hmax Hopen. unfold aggregate_observation.
  destruct (pending !! obs_device_id o) as [e|] eqn:He; intros [= <- <-]; rewrite lookup_insert_eq;
    (split; [eexists; split; [done|]|intros; by rewrite lookup_insert_ne]); cbn; [|lia].
  rewrite length_app. cbn. specialize (Hopen _ _ He). lia.
Qed.

Lemma receive_observation_ok clock o B R p :
  (0 < pc_max_batch_size config)%nat →
  pipe_ok B R (pp_pending p) (pp_device_sequence p) → open_batches (pp_pending p) →
  ∃ p' bs, receive_observation config clock o p = Ok p' ∧ made B (R ++ [o]) p p' bs ∧
    open_batches (pp_pending p') ∧ pp_buffered p' = pp_buffered p + 1.
Proof.
  intros Hmax Hok Hopen. unfold receive_observation.
  destruct (aggregate_observation _ _ o) as [pending ds] eqn:Ha.
  pose proof (aggregate_ok _ _ _ _ _ _ _ Hok Ha) as Hok'.
  destruct (aggregate_entry _ _ _ _ _ Hmax Hopen Ha) as [(e & He & Hlen) Hother].
  rewrite He. cbn [expect outcome_bind].
  destruct (device_number _ _ _ _ _ _ Hok' He) as [Hds Hseq].
  destruct (Nat.leb_spec (pc_max_batch_size config) (length (pb_observations e))).
  - rewrite Hds, Hseq, wrap64_succ. eexists _, [_]. split; [done|]. split; [split; [|done]|].
    + cbn [pp_pending pp_device_sequence].
      replace (Z.of_nat (length (of_device (obs_device_id o) B)) + 1) with
        (Z.of_nat (length (of_device (obs_device_id o) B) + 1)) by lia.
      eapply (emit_ok _ _ _ _ _ e [_]); [done..|].
      apply (chunks_of_one clock); [by eapply pending_devices|lia].
    + split; [|done]. intros d e' He'. cbn in He'. apply lookup_delete_Some in He' as [Hne He'].
      rewrite Hother in He' by done. by eapply Hopen.
  - eexists _, []. split; [done|]. unfold made. rewrite !app_nil_r. split; [done|].
    split; [|done]. intros d e' He'. cbn in He'.
    destruct (decide (d = obs_device_id o)) as [->|Hne]; [congruence|].
    rewrite Hother in He' by done. by eapply Hopen.
Qed.

Lemma flush_devices_ok clock ids B R p :
  (0 < pc_max_batch_size config)%nat → NoDup ids →
  (∀ d, d ∈ ids → is_Some (pp_pending p !! d)) →
  pipe_ok B R (pp_pending p) (pp_device_sequence p) →
  ∃ p' bs, flush_devices config clock ids p = Ok p' ∧ made B R p p' bs ∧
    pp_buffered p' = pp_buffered p ∧
    ∀ k, pp_pending p' !! k = if decide (k ∈ ids) then None else pp_pending p !! k.
Proof.
  intros Hmax Hnd. revert B p. induction Hnd as [|d ids Hd _ IH]; intros B p Hin Hok.
  - exists p, []. unfold made. by rewrite !app_nil_r.
  - destruct (Hin d) as [e He]; [set_solver|]. cbn [flush_devices]. rewrite He. cbn [expect outcome_bind].
    destruct (device_number _ _ _ _ _ _ Hok He) as [Hds Hseq].
    destruct (flush_chunks_ok (length (pb_observations e)) clock d
      (Z.of_nat (length (of_device d B))) (pb_observations e)) as (bs & Hfl & Hbs);
      [done|by eapply pending_devices|done|].
    rewrite Hseq, Hfl, Hds. cbn [outcome_bind].
    pose proof (emit_ok _ _ _ _ _ _ _ Hok He Hbs) as Hok'. rewrite Nat2Z.inj_add in Hok'.
    edestruct IH as (p' & bs' & -> & (Hok2 & Hout & Hst) & Hbuf & Hpend); [|exact Hok'|].
    { intros k Hk. cbn. rewrite lookup_delete_ne by (intros ->; done). apply Hin. set_solver. }
    exists p', (bs ++ bs'). unfold made. rewrite !app_assoc. cbn in *. split; [done|].
    split; [done|]. split; [done|]. intros k. rewrite Hpend, lookup_delete.
    destruct (decide (k ∈ ids)), (decide (k ∈ d :: ids)), (decide (d = k)); set_solver.
Qed.

Lemma flush_pending_to_outbox_ok clock B R p :
  (0 < pc_max_batch_size config)%nat → pipe_ok B R (pp_pending p) (pp_device_sequence p) →
  ∃ p' bs, flush_pending_to_outbox config clock p = Ok p' ∧ made B R p p' bs ∧
    pp_buffered p' = pp_buffered p ∧ pp_pending p' = ∅.
Proof.
  intros Hmax Hok. unfold flush_pending_to_outbox.
  destruct (flush_devices_ok clock (map_order (pp_pending p)).*1 B R p)
    as (p' & bs & -> & Hm & Hb & Hp); [done|apply map_order_NoDup| |done|].
  { intros d [[k e] [-> Hin]]%list_elem_of_fmap. apply elem_of_map_order in Hin. by eexists. }
  exists p', bs. split_and!; [done..|]. apply map_eq. intros k. rewrite Hp, lookup_empty.
  case_decide as Hk; [done|]. destruct (pp_pending p !! k) as [e|] eqn:He; [|done].
  exfalso. apply Hk, list_elem_of_fmap. exists (k, e). by rewrite elem_of_map_order.
Qed.

Lemma aggregate_all_ok l B R p :
  pipe_ok B R (pp_pending p) (pp_device_sequence p) →
  let p' := aggregate_all l p in
  pipe_ok B (R ++ l) (pp_pending p') (pp_device_sequence p') ∧
  pp_outbox p' = pp_outbox p ∧ pp_stats p' = pp_stats p ∧ pp_buffered p' = pp_buffered p.
Proof.
  revert R p. induction l as [|o l IH]; intros R p Hok; [by rewrite app_nil_r|].
  cbn [aggregate_all]. destruct (aggregate_observation _ _ o) as [pending ds] eqn:Ha.
  pose proof (aggregate_ok _ _ _ _ _ _ _ Hok Ha) as Hok'.
  rewrite cons_middle, app_assoc.
  exact (IH _ (mkPipe pending ds (pp_outbox p) (pp_buffered p) (pp_stats p)) Hok').
Qed.
(** ** The invariant of the task *)
Definition made_so_far (w : World) : list ObservationBatch :=
  w_output w ++ w_dropped w ++ pp_outbox (w_pipe w).

Definition stats_ok (output dropped : list ObservationBatch) (s : DrainStats) : Prop :=
  ds_batches_emitted s = Z.of_nat (length output) ∧
  ds_observations_emitted s = batches_count output ∧
  ds_batches_dropped s = Z.of_nat (length dropped) ∧
  ds_observations_dropped s = batches_count dropped.

Record world_ok (w : World) : Prop := {
  wo_pipe : pipe_ok (made_so_far w) (w_received w)
              (pp_pending (w_pipe w)) (pp_device_sequence (w_pipe w));
  wo_accepted : w_accepted w = w_received w ++ w_input w;
  wo_stats : stats_ok (w_output w) (w_dropped w) (pp_stats (w_pipe w));
  wo_phase :
    match w_phase w with
    | Running =>
        w_dropped w = [] ∧ open_batches (pp_pending (w_pipe w)) ∧
        pp_buffered (w_pipe w) = Z.of_nat (length (w_received w)) - batches_count (w_output w) ∧
        pp_buffered (w_pipe w) ≤ buffer_limit config
    | Draining => pp_pending (w_pipe w) = ∅ ∧ (pp_outbox (w_pipe w) ≠ [] → w_dropped w = [])
    | Done => pp_pending (w_pipe w) = ∅ ∧ pp_outbox (w_pipe w) = []
    | Cancelled => True
    end;
}.

Lemma stats_ok_emit output dropped s b :
  stats_ok output dropped s → stats_ok (output ++ [b]) dropped (stats_emit b s).
Proof.
  intros (? & ? & ? & ?). unfold stats_ok. cbn.
  rewrite length_app, batches_count_app, batches_count_cons. change (batches_count []) with 0.
  cbn. split_and!; lia.
Qed.

Lemma stats_ok_drop output dropped s l :
  stats_ok output dropped s → stats_ok output (dropped ++ l) (stats_drop l s).
Proof.
  intros (? & ? & ? & ?). unfold stats_ok. cbn. rewrite length_app, batches_count_app.
  split_and!; lia.
Qed.

Lemma drop_outbox_rest_stats b rest s : drop_outbox_rest b rest s = stats_drop (b :: rest) s.
Proof. unfold drop_outbox_rest, stats_drop. rewrite batches_count_cons. cbn [length]. f_equal; lia. Qed.

Lemma open_batches_empty : (0 < pc_max_batch_size config)%nat → open_batches ∅.
Proof. intros _ d e. by rewrite lookup_empty. Qed.

Lemma begin_shutdown_ok clock input p B R :
  (0 < pc_max_batch_size config)%nat → pipe_ok B R (pp_pending p) (pp_device_sequence p) →
  ∃ p' bs, flush_pending_to_outbox config clock (aggregate_all input p) = Ok p' ∧
    made B (R ++ input) p p' bs ∧ pp_pending p' = ∅.
Proof.
  intros Hmax Hok. destruct (aggregate_all_ok input B R p Hok) as (Hok' & Ho & Hs & Hb).
  destruct (flush_pending_to_outbox_ok clock B _ _ Hmax Hok') as (p' & bs & Hf & (H1 & H2 & H3) & _ & He).
  exists p', bs. unfold made. rewrite H2, H3, Ho, Hs. by split_and!.
Qed.

Lemma pipeline_step_ok w w' :
  (0 < pc_max_batch_size config)%nat → world_ok w → step config w w' → world_ok w'.
Proof.
  intros Hmax [Hp Ha Hs Hph] Hstep. unfold made_so_far in Hp.
  destruct Hstep as [w o Hc Hl|w clock p' Hr Hf|w clock o rest p' Hr Hb Hi Hf|w b p' Hr Hf
    |w clock late p' p1 Hr Hf Ht|w clock late p' Hr Hf|w event p' sent Hr Ho Hf|w Hr Ho|w Hr];
    rewrite ?Hr in Hph.
  - split; [done| |done|done]. cbn. by rewrite Ha, app_assoc.
  - destruct (flush_pending_to_outbox_ok clock _ _ _ Hmax Hp) as (p2 & bs & Hf' & (H1 & H2 & H3) & Hbuf & He).
    rewrite Hf in Hf'. injection Hf' as <-. destruct Hph as (Hd & Hop & Hbu & Hlim).
    split; unfold made_so_far; cbn; [by rewrite H2, !app_assoc in *|done|by rewrite H3|].
    rewrite He, Hbuf. split_and!; [done|by apply open_batches_empty|done..].
  - destruct Hph as (Hd & Hop & Hbu & Hlim).
    destruct (receive_observation_ok clock o _ _ _ Hmax Hp Hop) as (p2 & bs & Hf' & (H1 & H2 & H3) & Hop' & Hbuf).
    rewrite Hf in Hf'. injection Hf' as <-.
    split; unfold made_so_far; cbn; [by rewrite H2, !app_assoc in *| |by rewrite H3|].
    + by rewrite Ha, Hi, <- app_assoc.
    + rewrite Hbuf, length_app. cbn. split_and!; [done..|lia|lia].
  - unfold send_front in Hf. destruct (pp_outbox (w_pipe w)) as [|b' rest] eqn:Eo; [done|].
    injection Hf as -> <-. destruct Hph as (Hd & Hop & Hbu & Hlim). rewrite Hd in *.
    split; unfold made_so_far; cbn; rewrite ?Hd; [by rewrite <- app_assoc|done| |].
    + by apply stats_ok_emit.
    + rewrite batches_count_app, batches_count_cons. change (batches_count []) with 0.
      unfold batch_count in *. split_and!; [done..|lia|lia].
  - destruct (begin_shutdown_ok clock (w_input w ++ late) _ _ _ Hmax Hp) as (p2 & bs & Hf' & (H1 & H2 & H3) & He).
    unfold terminate_on_output_closed in Ht. rewrite Hf in Hf', Ht. injection Hf' as <-.
    injection Ht as <-.
    split; unfold made_so_far; cbn; [| | |done].
    + by rewrite app_nil_r, H2, !app_assoc in *.
    + by rewrite Ha, app_nil_r, app_assoc.
    + rewrite H3, H2. by apply stats_ok_drop.
  - unfold begin_shutdown in Hf.
    destruct (begin_shutdown_ok clock (w_input w ++ late) _ _ _ Hmax Hp) as (p2 & bs & Hf' & (H1 & H2 & H3) & He).
    rewrite Hf in Hf'. injection Hf' as <-. destruct Hph as (Hd & _).
    split; unfold made_so_far; cbn; [by rewrite H2, !app_assoc in *| |by rewrite H3|done].
    by rewrite Ha, app_nil_r, app_assoc.
  - unfold drain_one in Hf. destruct (pp_outbox (w_pipe w)) as [|b rest] eqn:Eo; [done|].
    destruct Hph as (He & Hd). rewrite (Hd ltac:(done)) in *.
    destruct event; injection Hf as <- <-; split; unfold made_so_far; cbn;
      rewrite ?(Hd ltac:(done)), ?app_nil_r, ?drop_outbox_rest_stats, <- ?app_assoc;
      try done; try (by apply stats_ok_emit); by apply (stats_ok_drop _ []).
  - by split; cbn; [..|destruct Hph].
  - by split.
Qed.

Lemma pipeline_reaches_ok w : (0 < pc_max_batch_size config)%nat → reaches config w → world_ok w.
Proof.
  intros Hmax H. assert (world_ok world_new) as H0.
  { split; [apply pipe_ok_new|done|done|]. cbn. unfold buffer_limit, BUFFER_BATCH_MULTIPLIER.
    split_and!; [done|by apply open_batches_empty|done|lia]. }
  unfold reaches in H. revert H0. induction H as [|w w1 w2 Hs _ IH]; [done|].
  intros Hw. by eapply IH, pipeline_step_ok.
Qed.
(** ** What the pipeline promises *)
Lemma validate_max : pipeline_validate config = Ok () → (0 < pc_max_batch_size config)%nat.
Proof. unfold pipeline_validate. repeat case_if; try done. intros _. lia. Qed.

Lemma pipeline_numbers w d :
  (0 < pc_max_batch_size config)%nat → reaches config w →
  ob_sequence <$> of_device d (w_output w) = numbers 0 (length (of_device d (w_output w))).
Proof.
  intros Hv Hw%pipeline_reaches_ok; [|done]. destruct Hw as [[Hd _ _] _ _ _].
  destruct (Hd d) as (_ & Hn & _). unfold made_so_far in Hn. rewrite of_device_app in Hn.
  rewrite fmap_app, length_app, numbers_app in Hn. apply app_inj_1 in Hn as [? _]; [done|].
  unfold numbers. by rewrite !length_fmap, length_seq.
Qed.

Lemma length_contents l : Forall batch_ok l → (length l ≤ length (contents l))%nat.
Proof.
  induction 1 as [|b l Hb _ IH]; [done|]. change (contents (b :: l)) with (ob_observations b ++ contents l).
  rewrite length_app. destruct Hb as ([? _] & _). cbn. lia.
Qed.

(** C7: in every run, what reached the consumer of a device is, in order and
    without gaps or duplicates, an initial part of the observations that were
    accepted for it; the batches are numbered consecutively from zero, hold
    between one and [max_batch_size] observations of their own device only,
    and carry the identifiers of the configuration; while the task runs (and not
    yet drains for a shutdown), its count of buffered observations stays within
    the limit. *)
Theorem pipeline_faithful w d :
  pipeline_validate config = Ok () → reaches config w →
  Forall batch_ok (w_output w) ∧
  (∃ rest, device_obs d (w_accepted w) = contents (of_device d (w_output w)) ++ rest) ∧
  ob_sequence <$> of_device d (w_output w) = numbers 0 (length (of_device d (w_output w))) ∧
  (w_phase w = Running → 0 ≤ pp_buffered (w_pipe w) ≤ buffer_limit config).
Proof.
  intros Hv Hw. pose proof (pipeline_numbers w d (validate_max Hv) Hw) as Hn.
  apply pipeline_reaches_ok in Hw; [|by apply validate_max]. destruct Hw as [[Hd Hb Hperm] Ha _ Hph].
  unfold made_so_far in *. destruct (Hd d) as (Hc & _ & _). rewrite of_device_app in Hc.
  split; [by apply Forall_app in Hb as [? _]|]. split.
  { rewrite Ha, device_obs_app, <- Hc, contents_app, <- !app_assoc. by eexists. }
  split; [done|]. intros Hr. rewrite Hr in Hph. destruct Hph as (_ & _ & -> & Hl). split; [|done].
  apply Permutation_length in Hperm. rewrite <- Hperm, contents_app, !length_app, batches_count_contents. lia.
Qed.

(** Nothing is lost silently.  When the task has ended, by a shutdown or
    because its consumer went away, every accepted observation was either
    emitted or dropped and counted, except those that arrived after the
    shutdown began and are still in the channel; the statistics count exactly
    that. *)
Theorem pipeline_accounts w :
  pipeline_validate config = Ok () → reaches config w → w_phase w = Done →
  contents (w_output w) ++ contents (w_dropped w) ++ w_input w ≡ₚ w_accepted w ∧
  ds_observations_emitted (pp_stats (w_pipe w)) + ds_observations_dropped (pp_stats (w_pipe w))
    + Z.of_nat (length (w_input w)) = Z.of_nat (length (w_accepted w)) ∧
  ds_batches_emitted (pp_stats (w_pipe w)) = Z.of_nat (length (w_output w)).
Proof.
  intros Hv Hw%pipeline_reaches_ok Hdone; [|by apply validate_max].
  destruct Hw as [[_ _ Hperm] Ha (Hs1 & Hs2 & _ & Hs4) Hph]. rewrite Hdone in Hph.
  destruct Hph as [He Ho]. unfold made_so_far, all_pending in Hperm.
  rewrite He, Ho, map_to_list_empty, !app_nil_r, contents_app in Hperm.
  assert (contents (w_output w) ++ contents (w_dropped w) ++ w_input w ≡ₚ w_accepted w) as Hall.
  { by rewrite Ha, <- Hperm, app_assoc. }
  split; [done|]. split; [|done]. apply Permutation_length in Hall.
  rewrite <- Hall, !length_app, Hs2, Hs4, !batches_count_contents. lia.
Qed.

Lemma drain_outbox_empty events p :
  (length (pp_outbox p) ≤ length events)%nat → pp_outbox (drain_outbox events p).1 = [].
Proof.
  revert p. induction events as [|event events IH]; intros p Hl; cbn [drain_outbox].
  { cbn. destruct (pp_outbox p); [done|]. cbn in Hl. lia. }
  destruct (pp_outbox p) as [|b rest] eqn:Eo; [done|].
  destruct (drain_one event p) as [p1 sent] eqn:Ed.
  assert (length (pp_outbox p1) ≤ length events)%nat as Hl1.
  { unfold drain_one in Ed. rewrite Eo in Ed. cbn in Hl.
    destruct event; injection Ed as <- <-; cbn; lia. }
  specialize (IH p1 Hl1). by destruct (drain_outbox events p1).
Qed.

Lemma drain_outbox_steps events w :
  w_phase w = Draining →
  ∃ w', rtc (step config) w w' ∧ w_phase w' = Draining ∧
    w_pipe w' = (drain_outbox events (w_pipe w)).1 ∧
    w_output w' = w_output w ++ (drain_outbox events (w_pipe w)).2.
Proof.
  revert w. induction events as [|event events IH]; intros w Hw; cbn [drain_outbox].
  { exists w. by rewrite app_nil_r. }
  destruct (pp_outbox (w_pipe w)) as [|b rest] eqn:Eo.
  { exists w. by rewrite app_nil_r. }
  destruct (drain_one event (w_pipe w)) as [p1 sent] eqn:Ed.
  pose proof (step_drain config w event p1 sent Hw ltac:(by rewrite Eo) Ed) as Hs.
  match type of Hs with step _ _ ?w1 => destruct (IH w1 eq_refl) as (w' & Hr & Hp & Hpipe & Hout) end.
  cbn in Hpipe, Hout. exists w'. destruct (drain_outbox events p1) as [p2 l]. cbn in *.
  split_and!; [by eapply rtc_l|done..|]. by rewrite Hout, app_assoc.
Qed.

(** The task never gets stuck.  In a running state every event of its loop
    is handled without a panic, and a shutdown ends: however each wait of the
    drain ends (the batch is sent, the deadline passes, the output closes),
    after at most one wait per batch the task is done. *)
Theorem pipeline_shutdown_ends w clock events :
  pipeline_validate config = Ok () → reaches config w → w_phase w = Running →
  (∀ o, ∃ p', receive_observation config clock o (w_pipe w) = Ok p') ∧
  (∃ p', flush_pending_to_outbox config clock (w_pipe w) = Ok p') ∧
  ∃ p1, begin_shutdown config clock (w_input w) (w_pipe w) = Ok p1 ∧
    ((length (pp_outbox p1) ≤ length events)%nat →
     ∃ w', rtc (step config) w w' ∧ w_phase w' = Done ∧
       w_output w' = w_output w ++ (drain_outbox events p1).2).
Proof.
  intros Hv%validate_max Hw%pipeline_reaches_ok Hr; [|done]. destruct Hw as [Hp _ _ Hph].
  rewrite Hr in Hph. destruct Hph as (_ & Hop & _). split.
  { intros o. destruct (receive_observation_ok clock o _ _ _ Hv Hp Hop) as (p' & _ & Hf & _). by exists p'. }
  split.
  { destruct (flush_pending_to_outbox_ok clock _ _ _ Hv Hp) as (p' & _ & Hf & _). by exists p'. }
  destruct (begin_shutdown_ok clock (w_input w) _ _ _ Hv Hp) as (p1 & bs & Hf & _).
  exists p1. split; [done|]. intros Hl.
  rewrite <- (app_nil_r (w_input w)) in Hf. pose proof (step_shutdown config w clock [] p1 Hr Hf) as Hs.
  match type of Hs with step _ _ ?w1 =>
    destruct (drain_outbox_steps events w1 eq_refl) as (w' & Hrt & Hph' & Hpipe & Hout) end. cbn in Hpipe, Hout.
  eexists. split; [eapply rtc_l; [exact Hs|]; eapply rtc_r; [exact Hrt|]|].
  - apply step_drained; [done|]. rewrite Hpipe. by apply drain_outbox_empty.
  - done.
Qed.

(** ** Identifiers *)
Lemma message_id_inj s d1 d2 n1 n2 :
  in_u 64 (byte_len s) → in_u 64 (byte_len d1) → in_u 64 (byte_len d2) →
  in_u 64 n1 → in_u 64 n2 → message_id s d1 n1 = message_id s d2 n2 → d1 = d2 ∧ n1 = n2.
Proof.
  intros Hs H1 H2 Hn1 Hn2 Heq. unfold message_id in Heq. cbn [app] in Heq.
  apply len_prefixed_inj in Heq as [_ Heq]; [|done..].
  apply len_prefixed_inj in Heq as [-> Heq]; [|done..]. split; [done|]. by apply to_string_inj.
Qed.

Lemma numbers_lookup n i z : numbers 0 n !! i = Some z → z = wrap64 (Z.of_nat i) ∧ (i < n)%nat.
Proof.
  unfold numbers. rewrite list_lookup_fmap. intros (k & Hk & ->)%fmap_Some.
  apply lookup_seq in Hk as [-> Hi]. split; [f_equal; lia|done].
Qed.

Lemma numbered_elem l b :
  (∀ d, ob_sequence <$> of_device d l = numbers 0 (length (of_device d l))) → b ∈ l →
  ∃ i, (i < length (of_device (ob_device_id b) l))%nat ∧ ob_sequence b = wrap64 (Z.of_nat i).
Proof.
  intros Hnum Hb. assert (b ∈ of_device (ob_device_id b) l) as Hin by (by apply list_elem_of_filter).
  apply list_elem_of_lookup in Hin as [i Hi]. specialize (Hnum (ob_device_id b)).
  assert ((ob_sequence <$> of_device (ob_device_id b) l) !! i = Some (ob_sequence b)) as Hl
    by (by rewrite list_lookup_fmap, Hi).
  rewrite Hnum in Hl. apply numbers_lookup in Hl as [? ?]. by exists i.
Qed.

Lemma numbered_unique session l :
  in_u 64 (byte_len session) → Z.of_nat (length l) ≤ 2 ^ 64 →
  Forall (λ b, in_u 64 (byte_len (ob_device_id b)) ∧
               ob_message_id b = message_id session (ob_device_id b) (ob_sequence b)) l →
  (∀ d, ob_sequence <$> of_device d l = numbers 0 (length (of_device d l))) →
  NoDup (ob_message_id <$> l).
Proof.
  intros Hs. induction l as [|b l IH] using rev_ind; intros Hlen Hall Hnum; [constructor|].
  rewrite length_app in Hlen. cbn in Hlen. apply Forall_app in Hall as [Hall Hb].
  apply Forall_singleton in Hb as [Hbd Hbm].
  assert (∀ d, ob_sequence <$> of_device d l = numbers 0 (length (of_device d l))) as Hnum'.
  { intros d. specialize (Hnum d). rewrite of_device_app, fmap_app, length_app, numbers_app in Hnum.
    apply app_inj_1 in Hnum as [? _]; [done|]. unfold numbers. by rewrite !length_fmap, length_seq. }
  rewrite fmap_app. apply NoDup_app. split_and!; [apply IH; [lia|done..]| |apply NoDup_singleton].
  intros m (b' & -> & Hb')%list_elem_of_fmap Hin. apply list_elem_of_singleton in Hin.
  destruct (proj1 (Forall_forall _ _) Hall b' Hb') as [Hbd' Hbm']. rewrite Hbm, Hbm' in Hin.
  set (d := ob_device_id b) in *. specialize (Hnum d).
  rewrite of_device_app, fmap_app, length_app, numbers_app, Hnum' in Hnum. apply app_inv_head in Hnum.
  unfold of_device at 1 3 in Hnum. rewrite filter_all in Hnum by (by repeat constructor).
  cbn in Hnum. injection Hnum as Hseq. rewrite Z.add_0_r in Hseq.
  destruct (numbered_elem l b' Hnum' Hb') as (i & Hi & Hi').
  apply message_id_inj in Hin as [Hd Hq]; [|done..|rewrite Hi'|rewrite Hseq]; [|apply wrap_range; lia..].
  rewrite Hd in Hi. assert (length (of_device d l) ≤ length l)%nat by apply length_filter.
  rewrite Hseq, Hi', !wrap_small in Hq; [lia|split; lia..].
Qed.

Lemma output_ids_unique w :
  pipeline_validate config = Ok () → reaches config w →
  in_u 64 (byte_len (pc_collector_session_id config)) →
  Forall (λ o, in_u 64 (byte_len (obs_device_id o))) (w_accepted w) →
  Z.of_nat (length (w_accepted w)) < 2 ^ 64 →
  NoDup (ob_message_id <$> w_output w).
Proof.
  intros Hv Hw Hs Hdev Hlen.
  pose proof (λ d, pipeline_numbers w d (validate_max Hv) Hw) as Hnum.
  apply pipeline_reaches_ok in Hw; [|by apply validate_max]. destruct Hw as [[_ Hb Hperm] Ha _ _].
  unfold made_so_far in *. apply Forall_app in Hb as [Hb _]. rewrite Ha, Forall_app in Hdev.
  destruct Hdev as [Hdev _]. rewrite <- Hperm, contents_app, <- app_assoc, Forall_app in Hdev.
  destruct Hdev as [Hdev _]. apply (numbered_unique (pc_collector_session_id config)); [done| | |done].
  - apply Permutation_length in Hperm. rewrite contents_app, !length_app in Hperm.
    pose proof (length_contents _ Hb). rewrite Ha, length_app in Hlen. lia.
  - apply Forall_forall. intros b Hin. destruct (proj1 (Forall_forall _ _) Hb b Hin)
      as ([Hne _] & Ho & _ & Hm & _). split; [|done].
    destruct (ob_observations b) as [|o os] eqn:Eo; [simpl in Hne; lia|].
    apply Forall_inv in Ho. rewrite <- Ho. apply (proj1 (Forall_forall _ _) Hdev).
    unfold contents. apply list_elem_of_bind. exists b. rewrite Eo. set_solver.
Qed.

(** The deduplication key is sound: as long as fewer than 2^64
    observations were accepted, no two batches of a session, of the same or of
    different devices, have the same message identifier. *)
Theorem pipeline_message_ids_unique w :
  pipeline_validate config = Ok () → reaches config w →
  in_u 64 (byte_len (pc_collector_session_id config)) →
  Forall (λ o, in_u 64 (byte_len (obs_device_id o))) (w_accepted w) →
  Z.of_nat (length (w_accepted w)) < 2 ^ 64 →
  NoDup (ob_message_id <$> w_output w).
Proof. apply output_ids_unique. Qed.
End laws.
