(* ===== verification/LocalBuffer.v ===== *)
(** * The store-and-forward buffer (crates/local-buffer/src)

    A batch that was pushed is written to a table of an SQLite database before
    the caller is told; it is handed out for publication in the order of its
    local sequence number and deleted when the broker acknowledged it.  One
    worker thread owns the database and a window of records in memory: those
    waiting to be sent ([mem]) and those handed out ([inflight]).

    SQLite is outside the repository: the statements the worker executes are
    the operations of [BatchTable], with the documented behaviour of SQLite as
    [BatchTableLaws]; any of them may fail.  The JSON form of a batch is
    [BatchCodec].  A reply channel is a number; which channels the callers have
    closed, and the clock, are inputs of each step.  Replies are appended to a
    log. *)

From S2P Require Import Prelude RustStd ObservationModel DataPipeline.
From stdpp Require Import options.

#[local] Set Default Proof Using "Type".

(** ** Configuration and errors (config.rs, error.rs) *)
Module CapacityPolicy.
Inductive t : Type := Backpressure | Reject.
End CapacityPolicy.

Module CapacityKind.
Inductive t : Type := Memory | Disk.
End CapacityKind.

Module LocalBufferError.
Inductive t : Type :=
| InvalidConfig (field : string)
| InvalidBatch
| CapacityExceeded (kind : CapacityKind.t) (limit current requested : Z)
| Corrupt
| Db
| Closed
| WorkerFailed.
End LocalBufferError.

Record LocalBufferConfig : Type := mkLocalBufferConfig {
  lc_db_path : str;
  lc_memory_records : nat;
  lc_disk_max_bytes : Z;
  lc_retention_ns : Z;
  lc_capacity_policy : CapacityPolicy.t;
}.

Definition buffer_validate (c : LocalBufferConfig) : outcome LocalBufferError.t () :=
  if bool_decide (lc_db_path c = []) then Err (LocalBufferError.InvalidConfig "db_path")
  else if (lc_memory_records c =? 0)%nat then Err (LocalBufferError.InvalidConfig "memory_records")
  else if lc_disk_max_bytes c =? 0 then Err (LocalBufferError.InvalidConfig "disk_max_bytes")
  else if lc_retention_ns c =? 0 then Err (LocalBufferError.InvalidConfig "retention")
  else if 2 ^ 63 - 1 <? lc_retention_ns c then Err (LocalBufferError.InvalidConfig "retention")
  else Ok ().

(** ** Records *)
Record MemRecord : Type := mkMemRecord {
  mr_local_seq : Z;
  mr_message_id : str;
  mr_topic : str;
  mr_payload : list Z;
  mr_created_at_ns : Z;
  mr_sent_count : Z;
}.

#[global] Instance MemRecord_eq_dec : EqDecision MemRecord.
Proof. solve_decision. Defined.

Definition with_seq (seq : Z) (r : MemRecord) : MemRecord :=
  {| mr_local_seq := seq; mr_message_id := mr_message_id r; mr_topic := mr_topic r;
     mr_payload := mr_payload r; mr_created_at_ns := mr_created_at_ns r;
     mr_sent_count := mr_sent_count r |}.

Definition with_sent (n : Z) (r : MemRecord) : MemRecord :=
  {| mr_local_seq := mr_local_seq r; mr_message_id := mr_message_id r; mr_topic := mr_topic r;
     mr_payload := mr_payload r; mr_created_at_ns := mr_created_at_ns r; mr_sent_count := n |}.

Definition FIXED_OVERHEAD_PER_RECORD : Z := 512.
Definition MAX_WAITERS_PER_RECORD : nat := 1024.
Definition SCHEMA_VERSION : Z := 1.

Definition record_cost (r : MemRecord) : Z :=
  Z.of_nat (length (mr_payload r)) + byte_len (mr_topic r) + byte_len (mr_message_id r)
  + FIXED_OVERHEAD_PER_RECORD.

(** [u64] saturating arithmetic. *)
Definition sat_add (a b : Z) : Z := Z.min (2 ^ 64 - 1) (a + b).
Definition sat_sub (a b : Z) : Z := Z.max 0 (a - b).

Definition slash : Z := 47.

Definition segment_ok (segment : str) : bool :=
  negb (bool_decide (segment = [])) &&
  negb (bool_decide (slash ∈ segment)) &&
  negb (bool_decide (43 ∈ segment)) &&
  negb (bool_decide (35 ∈ segment)) &&
  forallb (λ c, negb ((c <=? 0x1F) || (c =? 0x7F))) segment.

Definition telemetry_topic (batch : ObservationBatch) : outcome LocalBufferError.t str :=
  let topic := lit "forgelink/v1/telemetry/" ++ ob_site_id batch ++ [slash] ++ ob_device_id batch in
  if negb (segment_ok (ob_site_id batch)) then Err LocalBufferError.InvalidBatch
  else if negb (segment_ok (ob_device_id batch)) then Err LocalBufferError.InvalidBatch
  else if 65535 <? byte_len topic then Err LocalBufferError.InvalidBatch
  else Ok topic.

(** ** The database *)
Class BatchTable (Conn : Type) : Type := {
  (* INSERT INTO batches .. VALUES (message_id, topic, payload, created_at_ns, sent_count) *)
  sql_insert : MemRecord → Conn → Conn * outcome LocalBufferError.t ();
  sql_last_insert_rowid : Conn → Z;
  (* DELETE FROM batches WHERE local_seq = ?1; the number of rows *)
  sql_delete : Z → Conn → Conn * outcome LocalBufferError.t Z;
  (* the same for each number, in one transaction *)
  sql_delete_all : list Z → Conn → Conn * outcome LocalBufferError.t ();
  (* UPDATE batches SET sent_count = ?1 WHERE local_seq = ?2 *)
  sql_set_sent : Z → Z → Conn → Conn * outcome LocalBufferError.t ();
  (* SELECT local_seq FROM batches WHERE message_id = ?1 *)
  sql_find : str → Conn → Conn * outcome LocalBufferError.t (option Z);
  (* SELECT .. WHERE local_seq > ?1 ORDER BY local_seq LIMIT ?2 *)
  sql_select_after : Z → nat → Conn → Conn * outcome LocalBufferError.t (list MemRecord);
  (* SELECT .. ORDER BY local_seq LIMIT ?1 *)
  sql_select_first : nat → Conn → Conn * outcome LocalBufferError.t (list MemRecord);
  (* SELECT COALESCE(MAX(local_seq), 0) FROM batches *)
  sql_max_seq : Conn → Conn * outcome LocalBufferError.t Z;
  sql_count : Conn → Conn * outcome LocalBufferError.t Z;
  (* SELECT COALESCE(SUM(length(payload) + length(topic) + length(message_id) + ?1), 0) *)
  sql_sum_length : Z → Conn → Conn * outcome LocalBufferError.t Z;
}.

(** SQLite's [length] of a text: the characters before the first NUL. *)
Fixpoint sql_text_length (s : str) : Z :=
  match s with
  | [] => 0
  | c :: s' => if c =? 0 then 0 else 1 + sql_text_length s'
  end.

Definition sql_row_length (overhead : Z) (r : MemRecord) : Z :=
  Z.of_nat (length (mr_payload r)) + sql_text_length (mr_topic r)
  + sql_text_length (mr_message_id r) + overhead.

Definition sum_list (f : MemRecord → Z) (l : list MemRecord) : Z := foldr (λ r n, f r + n) 0 l.

Definition seq_lt (r r' : MemRecord) : Prop := mr_local_seq r < mr_local_seq r'.

Definition seqs (l : list MemRecord) : list Z := mr_local_seq <$> l.

(** [rows] is the content of the table in the order of [local_seq];
    [high] is the largest number that was ever given out (AUTOINCREMENT).  A
    statement that fails has no effect. *)
Class BatchTableLaws (Conn : Type) `{!BatchTable Conn} : Type := {
  rows : Conn → list MemRecord;
  high : Conn → Z;
  high_nonneg c : 0 ≤ high c;
  rows_sorted c : StronglySorted seq_lt (rows c);
  rows_high c r : r ∈ rows c → 0 < mr_local_seq r ≤ high c;
  sql_insert_law r c c' o :
    sql_insert r c = (c', o) →
    match o with
    | Ok _ => high c < sql_last_insert_rowid c' ∧ high c' = sql_last_insert_rowid c' ∧
              (mr_message_id r ∉ (mr_message_id <$> rows c)) ∧
              rows c' = rows c ++ [with_seq (sql_last_insert_rowid c') r]
    | Err _ => rows c' = rows c ∧ high c ≤ high c'
    | Panic => False
    end;
  sql_delete_law seq c c' o :
    sql_delete seq c = (c', o) →
    high c' = high c ∧
    match o with
    | Ok n => rows c' = filter (λ r, mr_local_seq r ≠ seq) (rows c) ∧
              n = (if bool_decide (seq ∈ seqs (rows c)) then 1 else 0)
    | Err _ => rows c' = rows c
    | Panic => False
    end;
  sql_delete_all_law ids c c' o :
    sql_delete_all ids c = (c', o) →
    high c' = high c ∧
    match o with
    | Ok _ => rows c' = filter (λ r, mr_local_seq r ∉ ids) (rows c)
    | Err _ => rows c' = rows c
    | Panic => False
    end;
  sql_set_sent_law n seq c c' o :
    sql_set_sent n seq c = (c', o) →
    high c' = high c ∧
    match o with
    | Ok _ => rows c' =
        (λ r, if bool_decide (mr_local_seq r = seq) then with_sent n r else r) <$> rows c
    | Err _ => rows c' = rows c
    | Panic => False
    end;
  sql_find_law mid c c' o :
    sql_find mid c = (c', o) →
    rows c' = rows c ∧ high c' = high c ∧
    match o with
    | Ok found => is_Some found ↔ mid ∈ (mr_message_id <$> rows c)
    | Err _ => True
    | Panic => False
    end;
  sql_select_after_law mark limit c c' o :
    sql_select_after mark limit c = (c', o) →
    rows c' = rows c ∧ high c' = high c ∧
    match o with
    | Ok l => l = take limit (filter (λ r, mark < mr_local_seq r) (rows c))
    | Err _ => True
    | Panic => False
    end;
  sql_select_first_law limit c c' o :
    sql_select_first limit c = (c', o) →
    rows c' = rows c ∧ high c' = high c ∧
    match o with
    | Ok l => l = take limit (rows c)
    | Err _ => True
    | Panic => False
    end;
  sql_max_seq_law c c' o :
    sql_max_seq c = (c', o) →
    rows c' = rows c ∧ high c' = high c ∧
    match o with
    | Ok m => m = default 0 (last (seqs (rows c)))
    | Err _ => True
    | Panic => False
    end;
  sql_count_law c c' o :
    sql_count c = (c', o) →
    rows c' = rows c ∧ high c' = high c ∧
    match o with Ok n => n = Z.of_nat (length (rows c)) | Err _ => True | Panic => False end;
  sql_sum_length_law overhead c c' o :
    sql_sum_length overhead c = (c', o) →
    rows c' = rows c ∧ high c' = high c ∧
    match o with
    | Ok n => n = sum_list (sql_row_length overhead) (rows c)
    | Err _ => True
    | Panic => False
    end;
}.

(** [serde_json::to_vec] and [from_slice] of a batch. *)
Class BatchCodec : Type := {
  to_vec : ObservationBatch → option (list Z);
  from_slice : list Z → option ObservationBatch;
}.

(** ** The schema check of [open_db] *)
Record ColumnInfo : Type := mkColumnInfo {
  col_name : string;
  col_type : string;         (* upper case *)
  col_notnull : bool;
  col_default : option string;
  col_pk : bool;
}.

#[global] Instance ColumnInfo_eq_dec : EqDecision ColumnInfo.
Proof. solve_decision. Defined.

(** What the schema queries return. *)
Record SchemaInfo : Type := mkSchemaInfo {
  si_user_version : Z;
  si_has_table : bool;
  si_columns : list ColumnInfo;
  si_unique_message_id : bool;
  si_ddl_autoincrement : bool;
}.

Definition expected_columns : list ColumnInfo :=
  [ mkColumnInfo "local_seq" "INTEGER" false None true;
    mkColumnInfo "message_id" "TEXT" true None false;
    mkColumnInfo "topic" "TEXT" true None false;
    mkColumnInfo "payload" "BLOB" true None false;
    mkColumnInfo "created_at_ns" "INTEGER" true None false;
    mkColumnInfo "sent_count" "INTEGER" true (Some "0"%string) false ].

Definition find_column (name : string) (l : list ColumnInfo) : option ColumnInfo :=
  List.find (λ c, bool_decide (col_name c = name)) l.

Fixpoint check_columns (actual expected : list ColumnInfo) : outcome LocalBufferError.t () :=
  match expected with
  | [] => Ok ()
  | e :: rest =>
      match find_column (col_name e) actual with
      | Some a =>
          if negb (bool_decide (col_type a = col_type e)) then Err LocalBufferError.Corrupt
          else if negb (eqb (col_notnull a) (col_notnull e)) then Err LocalBufferError.Corrupt
          else if negb (bool_decide (col_default a = col_default e)) then Err LocalBufferError.Corrupt
          else if negb (eqb (col_pk a) (col_pk e)) then Err LocalBufferError.Corrupt
          else check_columns actual rest
      | None => Err LocalBufferError.Corrupt
      end
  end.

(** [Ok true]: the table has to be created. *)
Definition check_schema (s : SchemaInfo) : outcome LocalBufferError.t bool :=
  if si_user_version s =? 0 then
    if si_has_table s then Err LocalBufferError.Corrupt else Ok true
  else if si_user_version s =? SCHEMA_VERSION then
    if negb (si_has_table s) then Err LocalBufferError.Corrupt
    else if negb (length (si_columns s) =? length expected_columns)%nat then
      Err LocalBufferError.Corrupt
    else
      let? _ := check_columns (si_columns s) expected_columns in
      if negb (si_unique_message_id s) then Err LocalBufferError.Corrupt
      else if negb (si_ddl_autoincrement s) then Err LocalBufferError.Corrupt
      else Ok false
  else Err LocalBufferError.Corrupt.

(** ** The worker's state (worker.rs) *)
Record PendingPush : Type := mkPendingPush {
  pd_record : MemRecord;
  pd_replies : list nat;
}.

Record StoredBatch : Type := mkStoredBatch {
  sb_local_seq : Z;
  sb_topic : str;
  sb_batch : ObservationBatch;
}.

Module Reply.
Inductive t : Type :=
| Done (channel : nat) (result : outcome LocalBufferError.t ())
| Next (channel : nat) (result : outcome LocalBufferError.t (option StoredBatch)).
End Reply.

Module Cmd.
Inductive t : Type :=
| Push (batch : ObservationBatch) (reply : nat)
| Next (reply delivered : nat)
| Ack (local_seq : Z) (reply : nat)
| Requeue (local_seq : Z) (reply : nat)
| Shutdown (reply : nat).
End Cmd.

(** The state of a delivery-confirmation channel. *)
Module Delivery.
Inductive t : Type := Confirmed | Dropped | Empty.
End Delivery.

Record Worker (Conn : Type) : Type := mkWorker {
  wk_conn : Conn;
  wk_mem : list MemRecord;
  wk_inflight : gmap Z MemRecord;
  wk_pending_push : list PendingPush;
  wk_last_loaded_seq : Z;
  wk_recover_watermark : Z;
  wk_load_error : option LocalBufferError.t;
  wk_bytes : Z;
  wk_pending_confirm : list (Z * nat);
  wk_log : list Reply.t;
}.
Arguments mkWorker {Conn}.
Arguments wk_conn {Conn}.
Arguments wk_mem {Conn}.
Arguments wk_inflight {Conn}.
Arguments wk_pending_push {Conn}.
Arguments wk_last_loaded_seq {Conn}.
Arguments wk_recover_watermark {Conn}.
Arguments wk_load_error {Conn}.
Arguments wk_bytes {Conn}.
Arguments wk_pending_confirm {Conn}.
Arguments wk_log {Conn}.

Section worker.
Context {Conn : Type} `{!BatchTable Conn} `{!BatchCodec} (config : LocalBufferConfig).
Implicit Types (w : Worker Conn) (r : MemRecord).

Definition set_conn (c : Conn) w : Worker Conn :=
  {| wk_conn := c; wk_mem := wk_mem w; wk_inflight := wk_inflight w;
     wk_pending_push := wk_pending_push w; wk_last_loaded_seq := wk_last_loaded_seq w;
     wk_recover_watermark := wk_recover_watermark w; wk_load_error := wk_load_error w;
     wk_bytes := wk_bytes w; wk_pending_confirm := wk_pending_confirm w; wk_log := wk_log w |}.

Definition set_window (mem : list MemRecord) (inflight : gmap Z MemRecord) (last_loaded : Z) w :
    Worker Conn :=
  {| wk_conn := wk_conn w; wk_mem := mem; wk_inflight := inflight;
     wk_pending_push := wk_pending_push w; wk_last_loaded_seq := last_loaded;
     wk_recover_watermark := wk_recover_watermark w; wk_load_error := wk_load_error w;
     wk_bytes := wk_bytes w; wk_pending_confirm := wk_pending_confirm w; wk_log := wk_log w |}.

Definition set_mem (mem : list MemRecord) w : Worker Conn :=
  set_window mem (wk_inflight w) (wk_last_loaded_seq w) w.

Definition set_pending_push (l : list PendingPush) w : Worker Conn :=
  {| wk_conn := wk_conn w; wk_mem := wk_mem w; wk_inflight := wk_inflight w;
     wk_pending_push := l; wk_last_loaded_seq := wk_last_loaded_seq w;
     wk_recover_watermark := wk_recover_watermark w; wk_load_error := wk_load_error w;
     wk_bytes := wk_bytes w; wk_pending_confirm := wk_pending_confirm w; wk_log := wk_log w |}.

Definition set_load_error (e : option LocalBufferError.t) w : Worker Conn :=
  {| wk_conn := wk_conn w; wk_mem := wk_mem w; wk_inflight := wk_inflight w;
     wk_pending_push := wk_pending_push w; wk_last_loaded_seq := wk_last_loaded_seq w;
     wk_recover_watermark := wk_recover_watermark w; wk_load_error := e;
     wk_bytes := wk_bytes w; wk_pending_confirm := wk_pending_confirm w; wk_log := wk_log w |}.

Definition set_bytes (n : Z) w : Worker Conn :=
  {| wk_conn := wk_conn w; wk_mem := wk_mem w; wk_inflight := wk_inflight w;
     wk_pending_push := wk_pending_push w; wk_last_loaded_seq := wk_last_loaded_seq w;
     wk_recover_watermark := wk_recover_watermark w; wk_load_error := wk_load_error w;
     wk_bytes := n; wk_pending_confirm := wk_pending_confirm w; wk_log := wk_log w |}.

Definition set_confirm (l : list (Z * nat)) w : Worker Conn :=
  {| wk_conn := wk_conn w; wk_mem := wk_mem w; wk_inflight := wk_inflight w;
     wk_pending_push := wk_pending_push w; wk_last_loaded_seq := wk_last_loaded_seq w;
     wk_recover_watermark := wk_recover_watermark w; wk_load_error := wk_load_error w;
     wk_bytes := wk_bytes w; wk_pending_confirm := l; wk_log := wk_log w |}.

Definition send (events : list Reply.t) w : Worker Conn :=
  {| wk_conn := wk_conn w; wk_mem := wk_mem w; wk_inflight := wk_inflight w;
     wk_pending_push := wk_pending_push w; wk_last_loaded_seq := wk_last_loaded_seq w;
     wk_recover_watermark := wk_recover_watermark w; wk_load_error := wk_load_error w;
     wk_bytes := wk_bytes w; wk_pending_confirm := wk_pending_confirm w;
     wk_log := wk_log w ++ events |}.

Definition send_all (channels : list nat) (result : outcome LocalBufferError.t ()) w : Worker Conn :=
  send ((λ ch, Reply.Done ch result) <$> channels) w.

(** *** Loading *)
Definition held w : nat := (length (wk_mem w) + size (wk_inflight w))%nat.

Definition max_seq (l : list MemRecord) : option Z :=
  foldr (λ r m, Some (match m with Some z => Z.max (mr_local_seq r) z | None => mr_local_seq r end))
    None l.

Definition loaded w : list MemRecord := wk_mem w ++ (map_to_list (wk_inflight w)).*2.

Definition water_mark w : Z := default (wk_last_loaded_seq w) (max_seq (loaded w)).

Definition load_more w : Worker Conn * outcome LocalBufferError.t bool :=
  if (lc_memory_records config <=? held w)%nat then (w, Ok false)
  else
    let need := (lc_memory_records config - held w)%nat in
    match sql_select_after (water_mark w) need (wk_conn w) with
    | (c, Ok l) =>
        let w := set_conn c w in
        match last l with
        | Some r => (set_window (wk_mem w ++ l) (wk_inflight w) (mr_local_seq r) w, Ok true)
        | None => (w, Ok true)
        end
    | (c, Err e) => (set_conn c w, Err e)
    | (c, Panic) => (set_conn c w, Panic)
    end.

(** *** Requeue and delivery confirmation *)
Fixpoint insert_before r (l : list MemRecord) : list MemRecord :=
  match l with
  | [] => [r]
  | x :: l' => if mr_local_seq r <? mr_local_seq x then r :: x :: l' else x :: insert_before r l'
  end.

Definition handle_requeue (local_seq : Z) w : Worker Conn :=
  match wk_inflight w !! local_seq with
  | Some r =>
      set_window (insert_before r (wk_mem w)) (delete local_seq (wk_inflight w))
        (wk_last_loaded_seq w) w
  | None => w
  end.

(** [Vec::swap_remove] of the head of the part that is still to be examined. *)
Definition swap_in {A} (rest : list A) : list A :=
  match last rest with
  | Some x => x :: take (length rest - 1) rest
  | None => []
  end.

Fixpoint confirm_loop (fuel : nat) (delivered : nat → Delivery.t) (kept rest : list (Z * nat))
    (requeued : bool) w : Worker Conn * bool :=
  match fuel, rest with
  | S fuel, (seq, ch) :: rest' =>
      match delivered ch with
      | Delivery.Confirmed => confirm_loop fuel delivered kept (swap_in rest') requeued w
      | Delivery.Dropped =>
          confirm_loop fuel delivered kept (swap_in rest') true (handle_requeue seq w)
      | Delivery.Empty => confirm_loop fuel delivered (kept ++ [(seq, ch)]) rest' requeued w
      end
  | _, _ => (set_confirm (kept ++ rest) w, requeued)
  end.

Definition check_pending_confirm (delivered : nat → Delivery.t) w : Worker Conn * bool :=
  confirm_loop (length (wk_pending_confirm w)) delivered [] (wk_pending_confirm w) false w.

(** *** Expiry *)
Definition cleanup_expired (cutoff_ns : Z) w : Worker Conn * outcome LocalBufferError.t (nat * Z) :=
  let expired := filter (λ r, mr_created_at_ns r < cutoff_ns) (wk_mem w) in
  match expired with
  | [] => (w, Ok (0%nat, 0))
  | _ =>
      match sql_delete_all (seqs expired) (wk_conn w) with
      | (c, Ok _) =>
          let removed := sum_list record_cost expired in
          let mem := filter (λ r, mr_local_seq r ∉ seqs expired) (wk_mem w) in
          (set_bytes (sat_sub (wk_bytes w) removed) (set_mem mem (set_conn c w)),
           Ok (length expired, removed))
      | (c, Err e) => (set_conn c w, Err e)
      | (c, Panic) => (set_conn c w, Panic)
      end
  end.

(** *** Push *)
Definition capacity_full w (requested : Z) : bool :=
  lc_disk_max_bytes config <? sat_add (wk_bytes w) requested.

(** A record that was inserted: its number, the accounting, and the window. *)
Definition accept_record r w : Worker Conn :=
  let r := with_seq (sql_last_insert_rowid (wk_conn w)) r in
  let w := set_bytes (sat_add (wk_bytes w) (record_cost r)) w in
  if bool_decide (wk_load_error w = None) && (held w <? lc_memory_records config)%nat then
    set_mem (wk_mem w ++ [r]) w
  else w.

Fixpoint flush_loop (pending : list PendingPush) (flushed : nat) w : Worker Conn * nat :=
  match pending with
  | [] => (set_pending_push [] w, flushed)
  | p :: rest =>
      if capacity_full w (record_cost (pd_record p)) then (set_pending_push pending w, flushed)
      else
        match sql_insert (pd_record p) (wk_conn w) with
        | (c, Ok _) =>
            flush_loop rest (S flushed)
              (send_all (pd_replies p) (Ok ()) (accept_record (pd_record p) (set_conn c w)))
        | (c, Err e) => flush_loop rest flushed (send_all (pd_replies p) (Err e) (set_conn c w))
        | (c, Panic) => flush_loop rest flushed (send_all (pd_replies p) Panic (set_conn c w))
        end
  end.

(** The [Result] of the code is always [Ok]. *)
Definition flush_pending_push w : Worker Conn * nat := flush_loop (wk_pending_push w) 0 w.

Definition prune_cancelled_waiters (closed : gset nat) w : Worker Conn :=
  set_pending_push
    (filter (λ p, pd_replies p ≠ [])
       ((λ p, {| pd_record := pd_record p;
                 pd_replies := filter (λ ch, ch ∉ closed) (pd_replies p) |}) <$> wk_pending_push w)) w.

Fixpoint add_waiter (mid : str) (reply : nat) (l : list PendingPush) : list PendingPush :=
  match l with
  | [] => []
  | p :: l' =>
      if bool_decide (mr_message_id (pd_record p) = mid) then
        {| pd_record := pd_record p; pd_replies := pd_replies p ++ [reply] |} :: l'
      else p :: add_waiter mid reply l'
  end.

Definition exceeded (w : Worker Conn) (requested : Z) : LocalBufferError.t :=
  LocalBufferError.CapacityExceeded CapacityKind.Disk (lc_disk_max_bytes config) (wk_bytes w)
    requested.

(** The part of [push_inner] after the duplicate checks. *)
Definition push_new r (reply : nat) w : Worker Conn :=
  let requested := record_cost r in
  if lc_disk_max_bytes config <? requested then
    send [Reply.Done reply (Err (exceeded w requested))] w
  else if capacity_full w requested then
    if (lc_memory_records config <=? length (wk_pending_push w))%nat then
      send [Reply.Done reply (Err (exceeded w requested))] w
    else
      match lc_capacity_policy config with
      | CapacityPolicy.Reject => send [Reply.Done reply (Err (exceeded w requested))] w
      | CapacityPolicy.Backpressure =>
          set_pending_push
            (wk_pending_push w ++ [{| pd_record := r; pd_replies := [reply] |}]) w
      end
  else
    match sql_insert r (wk_conn w) with
    | (c, Ok _) => send [Reply.Done reply (Ok ())] (accept_record r (set_conn c w))
    | (c, Err e) => send [Reply.Done reply (Err e)] (set_conn c w)
    | (c, Panic) => send [Reply.Done reply Panic] (set_conn c w)
    end.

Definition push_inner (now_ns : Z) (batch : ObservationBatch) (reply : nat) w : Worker Conn :=
  match telemetry_topic batch with
  | Ok topic =>
      match to_vec batch with
      | None => send [Reply.Done reply (Err LocalBufferError.InvalidBatch)] w
      | Some payload =>
          let r := {| mr_local_seq := 0; mr_message_id := ob_message_id batch; mr_topic := topic;
                      mr_payload := payload; mr_created_at_ns := wrap_signed 64 now_ns;
                      mr_sent_count := 0 |} in
          if existsb (λ x, bool_decide (mr_message_id x = mr_message_id r))
               (map_to_list (wk_inflight w)).*2 then
            send [Reply.Done reply (Ok ())] w
          else
            match List.find (λ p, bool_decide (mr_message_id (pd_record p) = mr_message_id r))
                    (wk_pending_push w) with
            | Some p =>
                if (MAX_WAITERS_PER_RECORD <=? length (pd_replies p))%nat then
                  send [Reply.Done reply (Err (LocalBufferError.CapacityExceeded
                          CapacityKind.Memory (Z.of_nat MAX_WAITERS_PER_RECORD)
                          (Z.of_nat (length (pd_replies p))) 1))] w
                else
                  set_pending_push (add_waiter (mr_message_id r) reply (wk_pending_push w)) w
            | None =>
                match sql_find (mr_message_id r) (wk_conn w) with
                | (c, Ok (Some _)) => send [Reply.Done reply (Ok ())] (set_conn c w)
                | (c, Ok None) => push_new r reply (set_conn c w)
                | (c, Err e) => send [Reply.Done reply (Err e)] (set_conn c w)
                | (c, Panic) => send [Reply.Done reply Panic] (set_conn c w)
                end
            end
      end
  | Err e => send [Reply.Done reply (Err e)] w
  | Panic => send [Reply.Done reply Panic] w
  end.

(** *** Next and ack *)
Definition set_replayed (b : ObservationBatch) : ObservationBatch :=
  {| ob_schema := ob_schema b; ob_message_id := ob_message_id b; ob_site_id := ob_site_id b;
     ob_device_id := ob_device_id b; ob_sequence := ob_sequence b;
     ob_sent_at_ns := ob_sent_at_ns b; ob_replayed := true;
     ob_observations := ob_observations b |}.

Definition handle_next w : Worker Conn * outcome LocalBufferError.t (option StoredBatch) :=
  match wk_mem w with
  | [] => (w, match wk_load_error w with Some e => Err e | None => Ok None end)
  | r :: rest =>
      match from_slice (mr_payload r) with
      | None => (w, Err LocalBufferError.Db)
      | Some batch =>
          let batch :=
            if (0 <? mr_sent_count r) || (mr_local_seq r <=? wk_recover_watermark w)
            then set_replayed batch else batch in
          let sent_count := mr_sent_count r + 1 in
          match sql_set_sent sent_count (mr_local_seq r) (wk_conn w) with
          | (c, Ok _) =>
              (set_window rest (<[mr_local_seq r := with_sent sent_count r]> (wk_inflight w))
                 (wk_last_loaded_seq w) (set_conn c w),
               Ok (Some {| sb_local_seq := mr_local_seq r; sb_topic := mr_topic r;
                           sb_batch := batch |}))
          | (c, Err e) => (set_conn c w, Err e)
          | (c, Panic) => (set_conn c w, Panic)
          end
      end
  end.

Definition handle_ack (local_seq : Z) w : Worker Conn * outcome LocalBufferError.t () :=
  match sql_delete local_seq (wk_conn w) with
  | (c, Ok deleted) =>
      let w := set_conn c w in
      (match (if 0 <? deleted then wk_inflight w !! local_seq else None) with
       | Some r =>
           set_bytes (sat_sub (wk_bytes w) (record_cost r))
             (set_window (wk_mem w) (delete local_seq (wk_inflight w)) (wk_last_loaded_seq w) w)
       | None => w
       end, Ok ())
  | (c, Err e) => (set_conn c w, Err e)
  | (c, Panic) => (set_conn c w, Panic)
  end.

(** *** The loop *)

(** The inputs of an iteration: which deliveries were confirmed or dropped,
    the closed reply channels, and two readings of the clock. *)
Record Env : Type := mkEnv {
  en_delivered : nat → Delivery.t;
  en_closed : gset nat;
  en_now : Z;
  en_now2 : Z;
}.

(** Cleaning, loading and admitting what waits; whether anything was done, and
    whether the cleaning failed. *)
Definition top_half (env : Env) w : Worker Conn * bool * bool :=
  let '(w, requeued) := check_pending_confirm (en_delivered env) w in
  let cutoff := wrap_signed 64 (wrap_signed 64 (en_now env) - lc_retention_ns config) in
  let '(w, cleaned) := cleanup_expired cutoff w in
  let '(progress, cleanup_failed) :=
    match cleaned with
    | Ok (n, _) => (requeued || (0 <? n)%nat, false)
    | _ => (requeued, true)
    end in
  let '(w, more) := load_more w in
  let w :=
    match more with
    | Ok true => set_load_error None w
    | Ok false => w
    | Err e => set_load_error (Some e) w
    | Panic => w
    end in
  let '(w, flushed) := flush_pending_push w in
  (w, progress || (0 <? flushed)%nat, cleanup_failed).

Definition sat64_add (a b : Z) : Z := Z.max (- 2 ^ 63) (Z.min (2 ^ 63 - 1) (a + b)).

Definition min_list (l : list Z) : option Z :=
  foldr (λ x m, Some (match m with Some z => Z.min x z | None => x end)) None l.

(** How long the worker waits for a command, in nanoseconds. *)
Definition recv_timeout_ns (cleanup_failed : bool) (now : Z) w : Z :=
  if cleanup_failed then 50 * 1000000
  else
    match min_list ((λ r, sat64_add (mr_created_at_ns r) (lc_retention_ns config)) <$> wk_mem w) with
    | Some t => Z.max 0 (sat64_add t (- wrap_signed 64 now))
    | None => 3600 * 1000000000
    end.

Definition reject_cmd (cmd : Cmd.t) : Reply.t :=
  match cmd with
  | Cmd.Push _ reply | Cmd.Ack _ reply | Cmd.Requeue _ reply =>
      Reply.Done reply (Err LocalBufferError.Closed)
  | Cmd.Next reply _ => Reply.Next reply (Err LocalBufferError.Closed)
  | Cmd.Shutdown reply => Reply.Done reply (Ok ())
  end.

(** A shutdown, with the commands that are still in the channel. *)
Definition handle_shutdown (reply : nat) (queued : list Cmd.t) w : Worker Conn :=
  let w := send (concat ((λ p, (λ ch, Reply.Done ch (Err LocalBufferError.Closed)) <$> pd_replies p)
                           <$> wk_pending_push w)) w in
  let w := set_pending_push [] w in
  send (reject_cmd <$> queued ++ [Cmd.Shutdown reply]) w.

Definition handle_cmd (env : Env) (cmd : Cmd.t) (queued : list Cmd.t) w : Worker Conn * bool :=
  let '(w, _) := check_pending_confirm (en_delivered env) w in
  match cmd with
  | Cmd.Push batch reply =>
      (push_inner (en_now2 env) batch reply (prune_cancelled_waiters (en_closed env) w), true)
  | Cmd.Next reply delivered =>
      let '(w, result) := handle_next w in
      let w := send [Reply.Next reply result] w in
      match result with
      | Ok (Some stored) =>
          if bool_decide (reply ∈ en_closed env) then (handle_requeue (sb_local_seq stored) w, true)
          else (set_confirm (wk_pending_confirm w ++ [(sb_local_seq stored, delivered)]) w, true)
      | _ => (w, true)
      end
  | Cmd.Ack local_seq reply =>
      let '(w, result) := handle_ack local_seq w in
      (send [Reply.Done reply result] w, true)
  | Cmd.Requeue local_seq reply =>
      (send [Reply.Done reply (Ok ())] (handle_requeue local_seq w), true)
  | Cmd.Shutdown reply => (handle_shutdown reply queued w, false)
  end.

(** *** Opening

    The number of stored records is only the first value of a gauge. *)
Definition open_db (schema : SchemaInfo) (c : Conn) :
    Conn * outcome LocalBufferError.t (list MemRecord * Z * Z * Z) :=
  match check_schema schema with
  | Ok _ =>
      match sql_max_seq c with
      | (c, Ok recover_watermark) =>
          match sql_sum_length FIXED_OVERHEAD_PER_RECORD c with
          | (c, Ok bytes) =>
              match sql_count c with
              | (c, Ok _) =>
                  match sql_select_first (lc_memory_records config) c with
                  | (c, Ok records) =>
                      (c, Ok (records, default 0 (last (seqs records)), bytes, recover_watermark))
                  | (c, Err e) => (c, Err e)
                  | (c, Panic) => (c, Panic)
                  end
              | (c, Err e) => (c, Err e)
              | (c, Panic) => (c, Panic)
              end
          | (c, Err e) => (c, Err e)
          | (c, Panic) => (c, Panic)
          end
      | (c, Err e) => (c, Err e)
      | (c, Panic) => (c, Panic)
      end
  | Err e => (c, Err e)
  | Panic => (c, Panic)
  end.

Definition worker_start (c : Conn) (opened : list MemRecord * Z * Z * Z) : Worker Conn :=
  let '(records, last_loaded, bytes, watermark) := opened in
  {| wk_conn := c; wk_mem := records; wk_inflight := ∅; wk_pending_push := [];
     wk_last_loaded_seq := last_loaded; wk_recover_watermark := watermark; wk_load_error := None;
     wk_bytes := bytes; wk_pending_confirm := []; wk_log := [] |}.
End worker.

(** A reply channel that closed without a reply ([map_reply_err]). *)
Definition map_reply_err (closed : bool) : LocalBufferError.t :=
  if closed then LocalBufferError.Closed else LocalBufferError.WorkerFailed.
