(* ===== verification/LocalBufferLaws.v ===== *)
(** * Correctness of the store-and-forward buffer

    The invariant [inv] relates the window in memory to the table: what is
    loaded is an initial part of the table in the order of the sequence
    numbers, and the accounting is the cost of the table.  It is kept by every
    iteration of the worker and by every command of a client that acknowledges
    only what it was handed; it gives the order of delivery, the durability of
    what was confirmed and the capacity bound. *)

From S2P Require Import Prelude RustStd ObservationModel DataPipeline LocalBuffer.
From stdpp Require Import options.

#[local] Set Default Proof Using "Type".
#[local] Arguments sum_list : simpl never.
#[local] Arguments record_cost : simpl never.

(** ** Sorted lists of records *)
Lemma elem_of_seqs z l : z ∈ seqs l ↔ ∃ r, r ∈ l ∧ mr_local_seq r = z.
Proof. unfold seqs. rewrite list_elem_of_fmap. naive_solver. Qed.

Lemma elem_of_seqs_2 r l : r ∈ l → mr_local_seq r ∈ seqs l.
Proof. rewrite elem_of_seqs. eauto. Qed.

Lemma seqs_app l k : seqs (l ++ k) = seqs l ++ seqs k.
Proof. apply fmap_app. Qed.

Lemma sorted_seq_inj l r r' :
  StronglySorted seq_lt l → r ∈ l → r' ∈ l → mr_local_seq r = mr_local_seq r' → r = r'.
Proof.
  induction 1 as [|x l Hl IH Hx]; [by intros ?%not_elem_of_nil|].
  rewrite Forall_forall in Hx. unfold seq_lt in Hx.
  rewrite !elem_of_cons. intros [->|Hr] [->|Hr'] Heq; [done|..|by apply IH].
  - specialize (Hx _ Hr'). lia.
  - specialize (Hx _ Hr). lia.
Qed.

Lemma sorted_filter (P : MemRecord → Prop) `{!∀ r, Decision (P r)} l :
  StronglySorted seq_lt l → StronglySorted seq_lt (filter P l).
Proof.
  induction 1 as [|x l Hl IH Hx]; [constructor|]. rewrite filter_cons. case_decide; [|done].
  constructor; [done|]. rewrite Forall_forall in *. intros r [_ Hr]%list_elem_of_filter. by apply Hx.
Qed.

Lemma sorted_app l k :
  StronglySorted seq_lt l → StronglySorted seq_lt k →
  (∀ r r', r ∈ l → r' ∈ k → mr_local_seq r < mr_local_seq r') → StronglySorted seq_lt (l ++ k).
Proof.
  induction 1 as [|x l Hl IH Hx]; intros Hk Hlt; [done|]. cbn. constructor.
  - apply IH; [done|]. intros; apply Hlt; set_solver.
  - apply Forall_app. split; [done|]. apply Forall_forall. intros r' Hr'. apply Hlt; set_solver.
Qed.

Lemma sorted_app_inv l k :
  StronglySorted seq_lt (l ++ k) →
  StronglySorted seq_lt l ∧ StronglySorted seq_lt k ∧
  ∀ r r', r ∈ l → r' ∈ k → mr_local_seq r < mr_local_seq r'.
Proof.
  induction l as [|x l IH]; intros H; cbn in *; [split_and!; [constructor|done|set_solver]|].
  apply StronglySorted_inv in H as [H Hx]. apply IH in H as (Hl & Hk & Hlt).
  rewrite Forall_app, !Forall_forall in Hx. destruct Hx as [Hx1 Hx2].
  split_and!; [constructor; [done|by apply Forall_forall]|done|].
  intros r r' [->|Hr]%elem_of_cons Hr'; [by apply Hx2|by apply Hlt].
Qed.

Lemma sorted_map (f : MemRecord → MemRecord) l :
  (∀ r, mr_local_seq (f r) = mr_local_seq r) → StronglySorted seq_lt l →
  StronglySorted seq_lt (f <$> l).
Proof.
  intros Hf. induction 1 as [|x l Hl IH Hx]; [constructor|]. cbn. constructor; [done|].
  apply Forall_fmap. eapply Forall_impl; [exact Hx|]. unfold seq_lt. intros r. cbn. by rewrite !Hf.
Qed.

Lemma sum_list_app f l k : sum_list f (l ++ k) = sum_list f l + sum_list f k.
Proof. induction l as [|x l IH]; [done|]. unfold sum_list in *. cbn. lia. Qed.

Lemma sum_list_cons f x l : sum_list f (x :: l) = f x + sum_list f l.
Proof. done. Qed.

Lemma sum_list_perm f l k : l ≡ₚ k → sum_list f l = sum_list f k.
Proof. unfold sum_list. induction 1; cbn in *; lia. Qed.

Lemma sum_list_fmap f g l : (∀ r, f (g r) = f r) → sum_list f (g <$> l) = sum_list f l.
Proof. intros Hfg. induction l as [|x l IH]; [done|]. unfold sum_list in *. cbn. rewrite Hfg. lia. Qed.

Lemma sum_list_filter f P `{!∀ r, Decision (P r)} l :
  sum_list f (filter P l) + sum_list f (filter (λ r, ¬ P r) l) = sum_list f l.
Proof.
  induction l as [|x l IH]; [done|]. rewrite !filter_cons.
  repeat case_decide; try tauto; rewrite !sum_list_cons; lia.
Qed.

Lemma record_cost_pos r : 0 < record_cost r.
Proof.
  unfold record_cost, FIXED_OVERHEAD_PER_RECORD.
  pose proof (byte_len_nonneg (mr_topic r)). pose proof (byte_len_nonneg (mr_message_id r)). lia.
Qed.

Lemma sum_cost_nonneg l : 0 ≤ sum_list record_cost l.
Proof.
  induction l as [|r l IH]; [done|]. rewrite sum_list_cons. pose proof (record_cost_pos r). lia.
Qed.

Lemma sorted_NoDup l : StronglySorted seq_lt l → NoDup l.
Proof.
  induction 1 as [|x l Hl IH Hx]; constructor; [|done]. rewrite Forall_forall in Hx.
  intros Hin. specialize (Hx _ Hin). unfold seq_lt in Hx. lia.
Qed.

(** Removing part of a table removes its cost. *)
Lemma sum_list_remove f l k :
  StronglySorted seq_lt l → StronglySorted seq_lt k → (∀ r, r ∈ k → r ∈ l) →
  sum_list f (filter (λ r, mr_local_seq r ∉ seqs k) l) = sum_list f l - sum_list f k.
Proof.
  intros Hl Hk Hsub. pose proof (sum_list_filter f (λ r, mr_local_seq r ∈ seqs k) l) as Hs.
  assert (filter (λ r, mr_local_seq r ∈ seqs k) l ≡ₚ k) as Hperm.
  { apply NoDup_Permutation; [by apply sorted_NoDup, sorted_filter|by apply sorted_NoDup|].
    intros r. rewrite list_elem_of_filter, elem_of_seqs. split.
    - intros [(r' & Hr' & Heq) Hr]. by rewrite (sorted_seq_inj l r r' Hl Hr (Hsub _ Hr') (eq_sym Heq)).
    - intros Hr. split; [by exists r|by apply Hsub]. }
  rewrite (sum_list_perm f _ _ Hperm) in Hs. lia.
Qed.

(** The largest number of a list. *)
Lemma max_seq_spec l :
  match max_seq l with
  | Some m => m ∈ seqs l ∧ ∀ r, r ∈ l → mr_local_seq r ≤ m
  | None => l = []
  end.
Proof.
  induction l as [|x l IH]; [done|]. cbn [max_seq foldr]. fold (max_seq l). destruct (max_seq l) as [m|].
  - destruct IH as [Hm Hall]. split.
    + change (seqs (x :: l)) with (mr_local_seq x :: seqs l). rewrite elem_of_cons.
      destruct (Z.max_dec (mr_local_seq x) m) as [->| ->]; auto.
    + intros r [->|Hr]%elem_of_cons; [lia|]. specialize (Hall r Hr). lia.
  - subst. cbn. split; [set_solver|]. intros r Hr. apply list_elem_of_singleton in Hr as ->. lia.
Qed.

Section laws.
Context {Conn : Type} `{!BatchTable Conn} `{!BatchTableLaws Conn} `{!BatchCodec}.
Context (config : LocalBufferConfig).
Implicit Types (w : Worker Conn) (r : MemRecord).

(** ** The invariant *)
Abbreviation table w := (rows (wk_conn w)).

Record inv w : Prop := {
  iv_mem_sorted : StronglySorted seq_lt (wk_mem w);
  iv_mem_rows r : r ∈ wk_mem w → r ∈ table w;
  iv_inflight k r : wk_inflight w !! k = Some r → mr_local_seq r = k ∧ r ∈ table w;
  iv_disjoint r : r ∈ wk_mem w → wk_inflight w !! mr_local_seq r = None;
  iv_prefix r : r ∈ table w → mr_local_seq r ∉ seqs (loaded w) →
    wk_last_loaded_seq w < mr_local_seq r ∧
    ∀ z, z ∈ seqs (loaded w) → z < mr_local_seq r;
  iv_last : wk_last_loaded_seq w ≤ high (wk_conn w);
  iv_held : (held w ≤ lc_memory_records config)%nat;
  iv_bytes : wk_bytes w = sum_list record_cost (table w);
  iv_capacity : wk_bytes w ≤ lc_disk_max_bytes config;
  iv_mids : NoDup (mr_message_id <$> table w);
}.

(** Everything in the table is loaded unless the window is full or loading
    failed: it holds whenever the worker admits a record. *)
Definition caught_up w : Prop :=
  wk_load_error w = None → (held w < lc_memory_records config)%nat →
  ∀ r, r ∈ table w → mr_local_seq r ∈ seqs (loaded w).

Lemma elem_of_loaded w r :
  r ∈ loaded w ↔ r ∈ wk_mem w ∨ ∃ k, wk_inflight w !! k = Some r.
Proof.
  unfold loaded. rewrite elem_of_app, list_elem_of_fmap. split.
  - intros [?|([k x] & -> & Hx%elem_of_map_to_list)]; [by left|]. eauto.
  - intros [?|[k Hk]]; [by left|]. right. exists (k, r). by rewrite elem_of_map_to_list.
Qed.

Lemma loaded_rows w r : inv w → r ∈ loaded w → r ∈ table w.
Proof.
  intros Hi [Hr|[k Hk]]%elem_of_loaded; [by apply Hi|]. by apply (iv_inflight _ Hi) in Hk as [_ ?].
Qed.

Lemma length_loaded w : length (loaded w) = held w.
Proof. unfold loaded, held. by rewrite length_app, length_fmap, length_map_to_list. Qed.
(** ** Requeue

    A record moves between the two parts of the window. *)
Lemma insert_before_perm r l : insert_before r l ≡ₚ r :: l.
Proof.
  induction l as [|x l IH]; [done|]. cbn. case_if; [done|]. rewrite IH. constructor.
Qed.

Lemma insert_before_sorted r l :
  StronglySorted seq_lt l → mr_local_seq r ∉ seqs l → StronglySorted seq_lt (insert_before r l).
Proof.
  induction 1 as [|x l Hl IH Hx]; intros Hr; cbn; [repeat constructor|].
  change (seqs (x :: l)) with (mr_local_seq x :: seqs l) in Hr. rewrite elem_of_cons in Hr.
  case_if.
  - constructor; [by constructor|]. constructor; [unfold seq_lt; lia|].
    eapply Forall_impl; [exact Hx|]. unfold seq_lt. intros y. cbn. lia.
  - constructor; [by apply IH; tauto|]. rewrite insert_before_perm. constructor; [unfold seq_lt; lia|done].
Qed.

(** Steps that change neither the table nor the set of loaded records. *)
Definition same_window w w' : Prop :=
  wk_conn w' = wk_conn w ∧ wk_last_loaded_seq w' = wk_last_loaded_seq w ∧
  wk_bytes w' = wk_bytes w ∧ wk_load_error w' = wk_load_error w ∧
  wk_pending_push w' = wk_pending_push w ∧ wk_recover_watermark w' = wk_recover_watermark w ∧
  wk_log w' = wk_log w ∧ loaded w' ≡ₚ loaded w.

#[local] Instance same_window_preorder : PreOrder same_window.
Proof.
  split; [intros w; unfold same_window; by split_and!|]. intros w1 w2 w3 (?&?&?&?&?&?&?&?) (?&?&?&?&?&?&?&Hl).
  unfold same_window. rewrite Hl. split_and!; congruence || done.
Qed.

Lemma same_window_held w w' : same_window w w' → held w' = held w.
Proof.
  intros (_&_&_&_&_&_&_&Hl). rewrite <- !length_loaded. by apply Permutation_length.
Qed.

Lemma same_window_seqs w w' z : same_window w w' → z ∈ seqs (loaded w') ↔ z ∈ seqs (loaded w).
Proof. intros (_&_&_&_&_&_&_&Hl). unfold seqs. by rewrite Hl. Qed.

Lemma same_window_inv w w' :
  inv w → same_window w w' → StronglySorted seq_lt (wk_mem w') →
  (∀ k r, wk_inflight w' !! k = Some r → mr_local_seq r = k) →
  (∀ r, r ∈ wk_mem w' → wk_inflight w' !! mr_local_seq r = None) → inv w'.
Proof.
  intros Hi Hs Hsort Hkey Hdis. pose proof (same_window_held _ _ Hs) as Hh.
  pose proof (λ z, same_window_seqs _ _ z Hs) as Hseq.
  destruct Hs as (Hc & Hl & Hb & _ & _ & _ & _ & Hp).
  assert (∀ r, r ∈ loaded w' → r ∈ table w) as Hrows.
  { intros r. rewrite Hp. by apply loaded_rows. }
  split; rewrite ?Hc, ?Hl, ?Hb, ?Hh; try apply Hi; try done.
  - intros r Hr. apply Hrows, elem_of_loaded. by left.
  - intros k r Hk. split; [by apply Hkey|]. apply Hrows, elem_of_loaded. eauto.
  - intros r Hr Hz. rewrite Hseq in Hz. destruct (iv_prefix _ Hi r Hr Hz) as [? Hlt].
    split; [done|]. intros z. rewrite Hseq. apply Hlt.
Qed.

Lemma caught_up_same w w' : same_window w w' → caught_up w → caught_up w'.
Proof.
  intros Hs Hk. unfold caught_up. rewrite (same_window_held _ _ Hs).
  setoid_rewrite (λ z, same_window_seqs _ _ z Hs).
  destruct Hs as (-> & _ & _ & -> & _). apply Hk.
Qed.

Lemma handle_requeue_same seq w : same_window w (handle_requeue seq w).
Proof.
  unfold handle_requeue. destruct (wk_inflight w !! seq) as [r|] eqn:Hr; [|done].
  split_and!; [done..|]. unfold loaded. cbn. rewrite insert_before_perm.
  rewrite <- (insert_id (wk_inflight w) seq r Hr) at 2.
  rewrite <- insert_delete_eq, map_to_list_insert by apply lookup_delete_eq. cbn. solve_Permutation.
Qed.

Lemma handle_requeue_inv seq w : inv w → inv (handle_requeue seq w).
Proof.
  intros Hi. pose proof (handle_requeue_same seq w) as Hs. revert Hs. unfold handle_requeue.
  destruct (wk_inflight w !! seq) as [r|] eqn:Hr; [|done]. intros Hs.
  apply (same_window_inv w); [done..| | |]; cbn.
  - destruct (iv_inflight _ Hi _ _ Hr) as [<- _]. apply insert_before_sorted; [apply Hi|].
    intros (x & Hx & Heq)%elem_of_seqs. apply (iv_disjoint _ Hi) in Hx. congruence.
  - intros k x [_ Hx]%lookup_delete_Some. by apply (iv_inflight _ Hi) in Hx as [? _].
  - intros x. rewrite insert_before_perm, elem_of_cons. intros [->|Hx].
    + destruct (iv_inflight _ Hi _ _ Hr) as [-> _]. apply lookup_delete_eq.
    + apply lookup_delete_None. right. by apply Hi.
Qed.

Lemma confirm_loop_inv fuel delivered kept rest requeued w :
  inv w →
  let w' := (confirm_loop fuel delivered kept rest requeued w).1 in
  inv w' ∧ same_window w w'.
Proof.
  revert kept rest requeued w. induction fuel as [|fuel IH]; intros kept rest requeued w Hi; cbn.
  { split; [|done]. by destruct Hi. }
  destruct rest as [|[seq ch] rest]; cbn; [split; [by destruct Hi|done]|].
  destruct (delivered ch); [by apply IH| |by apply IH].
  destruct (IH kept (swap_in rest) true (handle_requeue seq w)) as [? Hs]; [by apply handle_requeue_inv|].
  split; [done|]. etransitivity; [apply handle_requeue_same|done].
Qed.

Lemma check_pending_confirm_inv delivered w :
  inv w → inv (check_pending_confirm delivered w).1 ∧
          same_window w (check_pending_confirm delivered w).1.
Proof. apply confirm_loop_inv. Qed.
(** ** Expiry *)

(** Removing records from the window and from the table by number. *)
Definition kept_mem (ids : list Z) w : list MemRecord :=
  filter (λ r, mr_local_seq r ∉ ids) (wk_mem w).
Definition kept_inflight (ids : list Z) w : gmap Z MemRecord :=
  filter (λ '(k, _), k ∉ ids) (wk_inflight w).

Lemma removed_inv (ids : list Z) w c removed :
  inv w → high c = high (wk_conn w) →
  rows c = filter (λ r, mr_local_seq r ∉ ids) (table w) →
  sum_list record_cost (rows c) = wk_bytes w - removed → 0 ≤ removed →
  inv (set_bytes (sat_sub (wk_bytes w) removed)
         (set_window (kept_mem ids w) (kept_inflight ids w) (wk_last_loaded_seq w) (set_conn c w))).
Proof.
  intros Hi Hh Hrows Hsum Hpos.
  assert (∀ r, r ∈ rows c ↔ (mr_local_seq r ∉ ids) ∧ r ∈ table w) as Hin.
  { intros r. by rewrite Hrows, list_elem_of_filter. }
  set (w' := set_bytes _ _).
  assert (∀ k r, wk_inflight w' !! k = Some r ↔ wk_inflight w !! k = Some r ∧ k ∉ ids) as Hfl.
  { intros k r. apply map_lookup_filter_Some. }
  assert (∀ r, r ∈ wk_mem w' ↔ (mr_local_seq r ∉ ids) ∧ r ∈ wk_mem w) as Hmem.
  { intros r. change (wk_mem w') with (kept_mem ids w). unfold kept_mem. by rewrite list_elem_of_filter. }
  assert (∀ z, z ∈ seqs (loaded w') ↔ z ∈ seqs (loaded w) ∧ z ∉ ids) as Hload.
  { intros z. rewrite !elem_of_seqs. setoid_rewrite elem_of_loaded. setoid_rewrite Hmem.
    setoid_rewrite Hfl. pose proof (λ k r H, proj1 (iv_inflight _ Hi k r H)). naive_solver. }
  split.
  - apply sorted_filter, Hi.
  - intros r [Hid Hr]%Hmem. apply Hin. split; [done|by apply Hi].
  - intros k r [Hk Hid]%Hfl. destruct (iv_inflight _ Hi _ _ Hk) as [<- Hr]. split; [done|]. by apply Hin.
  - intros r [Hid Hr]%Hmem. apply (iv_disjoint _ Hi) in Hr. apply map_lookup_filter_None. by left.
  - intros r [Hid Hr]%Hin Hz. rewrite Hload in Hz. destruct (iv_prefix _ Hi r Hr) as [Hl Hlt]; [tauto|].
    split; [done|]. intros z [Hz' _]%Hload. by apply Hlt.
  - cbn. rewrite Hh. apply Hi.
  - etransitivity; [|apply (iv_held _ Hi)]. unfold held. cbn. apply Nat.add_le_mono.
    + apply length_filter.
    + apply map_subseteq_size, map_filter_subseteq.
  - cbn. unfold sat_sub. rewrite Hsum. pose proof (sum_cost_nonneg (rows c)). lia.
  - cbn. unfold sat_sub. pose proof (iv_capacity _ Hi). pose proof (sum_cost_nonneg (table w)).
    rewrite <- (iv_bytes _ Hi) in *. lia.
  - cbn. rewrite Hrows. eapply sublist_NoDup; [apply (iv_mids _ Hi)|].
    apply fmap_sublist, sublist_filter.
Qed.

(** A statement that failed leaves everything as it was. *)
Lemma set_conn_inv c w :
  rows c = table w → high (wk_conn w) ≤ high c → inv w → inv (set_conn c w).
Proof.
  intros Hr Hh Hi. destruct Hi as [? ? ? ? ? ? ? ? ? ?].
  split; cbn; rewrite ?Hr; try done. lia.
Qed.

Lemma caught_up_set_conn c w : rows c = table w → caught_up w → caught_up (set_conn c w).
Proof. intros Hr Hk. unfold caught_up. cbn. by rewrite Hr. Qed.

Lemma kept_inflight_all ids w :
  (∀ k r, wk_inflight w !! k = Some r → k ∉ ids) → kept_inflight ids w = wk_inflight w.
Proof. intros H'. apply map_filter_id. intros k r. apply H'. Qed.

Lemma expired_ids cutoff w :
  inv w → let ids := seqs (filter (λ r, mr_created_at_ns r < cutoff) (wk_mem w)) in
  ∀ k r, wk_inflight w !! k = Some r → k ∉ ids.
Proof.
  intros Hi ids k r Hk (x & [_ Hx]%list_elem_of_filter & Heq)%elem_of_seqs.
  apply (iv_disjoint _ Hi) in Hx. congruence.
Qed.

(** The table lost only records that satisfy [P]. *)
Definition drops (P : MemRecord → Prop) (l l' : list MemRecord) : Prop :=
  ∃ ids : list Z, l' = filter (λ r, mr_local_seq r ∉ ids) l ∧
    ∀ r, r ∈ l → mr_local_seq r ∈ ids → P r.

Lemma drops_refl P l : drops P l l.
Proof.
  exists []. split; [|set_solver]. symmetry. induction l as [|x l IH]; [done|].
  rewrite filter_cons_True by set_solver. by rewrite IH.
Qed.

(** What the cleaning removed: records of the send queue that had expired. *)
Lemma cleanup_expired_inv cutoff w w' o :
  inv w → cleanup_expired cutoff w = (w', o) →
  inv w' ∧ o ≠ Panic ∧ wk_log w' = wk_log w ∧ wk_pending_push w' = wk_pending_push w ∧
  drops (λ r, r ∈ wk_mem w ∧ mr_created_at_ns r < cutoff) (table w) (table w').
Proof.
  intros Hi. unfold cleanup_expired. set (expired := filter _ (wk_mem w)).
  destruct expired as [|x l] eqn:Ex; [intros [= <- <-]; split_and!; try done; apply drops_refl|].
  rewrite <- Ex. destruct (sql_delete_all (seqs expired) (wk_conn w)) as [c [[]|e|]] eqn:Es;
    intros [= <- <-]; apply sql_delete_all_law in Es as [Hh Hr]; try done.
  - split_and!; [|done..|].
    + unfold set_mem. cbn [wk_inflight wk_last_loaded_seq set_conn].
      rewrite <- (kept_inflight_all (seqs expired) w) by apply (expired_ids cutoff w Hi).
      apply (removed_inv (seqs expired) w c); [done..| |apply sum_cost_nonneg].
      rewrite Hr, sum_list_remove, (iv_bytes _ Hi); [done|apply rows_sorted|apply sorted_filter, Hi|].
      intros r [_ Hin]%list_elem_of_filter. by apply Hi.
    + exists (seqs expired). split; [done|].
      intros r Hrow (r' & [Hc Hm]%list_elem_of_filter & Heq)%elem_of_seqs.
      assert (r = r') as ->; [|done]. apply (sorted_seq_inj (table w)); [apply rows_sorted|done| |done].
      by apply Hi.
  - split_and!; [apply set_conn_inv; [done|lia|done]|done..|]. cbn. rewrite Hr. apply drops_refl.
Qed.

(** ** Loading *)
Lemma water_mark_spec w :
  inv w → ∀ r, r ∈ table w → water_mark w < mr_local_seq r ↔ mr_local_seq r ∉ seqs (loaded w).
Proof.
  intros Hi r Hr. unfold water_mark. pose proof (max_seq_spec (loaded w)) as Hm.
  destruct (max_seq (loaded w)) as [m|]; cbn.
  - destruct Hm as [Hm Hall]. split.
    + intros Hlt (x & Hx & Heq)%elem_of_seqs. specialize (Hall _ Hx). lia.
    + intros Hz. by apply (iv_prefix _ Hi r Hr Hz).
  - rewrite Hm in *. split; [set_solver|]. intros Hz.
    destruct (iv_prefix _ Hi r Hr) as [? _]; [by rewrite Hm|done].
Qed.

Lemma loaded_extend mem inflight l last_loaded w :
  loaded (set_window (mem ++ l) inflight last_loaded w) ≡ₚ (mem ++ (map_to_list inflight).*2) ++ l.
Proof. unfold loaded. cbn. solve_Permutation. Qed.

(** The window grows at its end. *)
Lemma extend_inv w l last_loaded :
  inv w → StronglySorted seq_lt l →
  (∀ r, r ∈ l → r ∈ table w ∧ mr_local_seq r ∉ seqs (loaded w)) →
  (held w + length l ≤ lc_memory_records config)%nat → last_loaded ≤ high (wk_conn w) →
  (∀ r, r ∈ table w → mr_local_seq r ∉ seqs (loaded w) → r ∉ l →
     last_loaded < mr_local_seq r ∧ ∀ x, x ∈ l → mr_local_seq x < mr_local_seq r) →
  inv (set_window (wk_mem w ++ l) (wk_inflight w) last_loaded w).
Proof.
  intros Hi Hl Hnew Hheld Hlast Hrest.
  assert (∀ z, z ∈ seqs (loaded (set_window (wk_mem w ++ l) (wk_inflight w) last_loaded w)) ↔
    z ∈ seqs (loaded w) ∨ z ∈ seqs l) as Hseqs.
  { intros z. unfold seqs. rewrite loaded_extend, fmap_app. apply elem_of_app. }
  assert (∀ r, r ∈ wk_mem w → r ∈ loaded w) as Hml by (intros; apply elem_of_loaded; auto).
  split; try apply Hi; cbn [wk_conn wk_mem wk_inflight wk_last_loaded_seq set_window].
  - apply sorted_app; [apply Hi|done|]. intros r x Hr Hx. destruct (Hnew x Hx) as [Hxt Hxl].
    by apply (iv_prefix _ Hi x Hxt Hxl), elem_of_seqs_2, Hml.
  - intros r [Hr|Hr]%elem_of_app; [by apply Hi|by apply Hnew].
  - intros r [Hr|Hr]%elem_of_app; [by apply Hi|]. destruct (Hnew r Hr) as [_ Hz].
    destruct (wk_inflight w !! mr_local_seq r) as [x|] eqn:Hx; [|done]. exfalso. apply Hz, elem_of_seqs.
    exists x. split; [apply elem_of_loaded; eauto|by apply (iv_inflight _ Hi) in Hx as [? _]].
  - intros r Hr. rewrite Hseqs. intros Hz. destruct (Hrest r Hr) as [? Hlt]; [tauto|by intros ?%elem_of_seqs_2; tauto|].
    split; [done|]. intros z. rewrite Hseqs. intros [Hz'|(x & Hx & <-)%elem_of_seqs]; [|by apply Hlt].
    apply (iv_prefix _ Hi r Hr); tauto.
  - done.
  - unfold held in *. cbn. rewrite length_app. lia.
Qed.

(** A page: the first unloaded rows, and what remains behind them. *)
Lemma page_spec w need l :
  inv w → l = take need (filter (λ r, water_mark w < mr_local_seq r) (table w)) →
  StronglySorted seq_lt l ∧ (length l ≤ need)%nat ∧
  (∀ r, r ∈ l → r ∈ table w ∧ mr_local_seq r ∉ seqs (loaded w)) ∧
  (∀ r, r ∈ table w → mr_local_seq r ∉ seqs (loaded w) → r ∉ l →
     length l = need ∧ ∀ x, x ∈ l → mr_local_seq x < mr_local_seq r).
Proof.
  intros Hi Hl. pose proof (water_mark_spec w Hi) as Hwm. set (U := filter _ (table w)) in Hl.
  pose proof (take_drop need U) as Htd. rewrite <- Hl in Htd.
  assert (∀ r, r ∈ l ∨ r ∈ drop need U ↔ r ∈ table w ∧ mr_local_seq r ∉ seqs (loaded w)) as HU.
  { intros r. rewrite <- elem_of_app, Htd. unfold U. rewrite list_elem_of_filter. naive_solver. }
  assert (StronglySorted seq_lt (l ++ drop need U)) as Hsort.
  { rewrite Htd. apply sorted_filter, rows_sorted. }
  apply sorted_app_inv in Hsort as (Hsl & _ & Hlt).
  split_and!; [done|rewrite Hl, length_take; lia|intros r Hr; apply HU; by left|].
  intros r Hr Hz Hrl. destruct (proj2 (HU r)) as [?|Hd]; [done..|]. split; [|intros; by apply Hlt].
  rewrite Hl. destruct (decide (need ≤ length U)%nat); [by apply length_take_le|].
  rewrite drop_ge in Hd by lia. set_solver.
Qed.

Lemma load_more_inv w w' o :
  inv w → load_more config w = (w', o) →
  inv w' ∧ o ≠ Panic ∧ wk_log w' = wk_log w ∧ wk_pending_push w' = wk_pending_push w ∧
  table w' = table w ∧ wk_load_error w' = wk_load_error w ∧
  match o with
  | Ok true => (held w' < lc_memory_records config)%nat →
               ∀ r, r ∈ table w' → mr_local_seq r ∈ seqs (loaded w')
  | Ok false => (lc_memory_records config ≤ held w')%nat
  | _ => True
  end.
Proof.
  intros Hi. unfold load_more.
  destruct (Nat.leb_spec (lc_memory_records config) (held w)) as [Hh|Hh]; [intros [= <- <-]; by split_and!|].
  destruct (sql_select_after _ _ _) as [c [l|e|]] eqn:Es;
    apply sql_select_after_law in Es as (Hr & Hhigh & Hl); [| |done].
  2: { intros [= <- <-]. split_and!; try done. apply set_conn_inv; [done|lia|done]. }
  destruct (page_spec w _ l Hi Hl) as (Hsl & Hlen & Hnew & Hrest).
  pose proof (set_conn_inv c w Hr ltac:(lia) Hi) as Hi'.
  destruct (last l) as [x|] eqn:Hlast; intros [= <- <-].
  - assert (x ∈ l) as Hx by (by apply last_Some_elem_of). split_and!; [|done..|].
    + apply (extend_inv (set_conn c w)); cbn; rewrite ?Hr; [done..| | |].
      * unfold held in *. lia.
      * apply rows_high. rewrite Hr. by apply Hnew.
      * intros r Hrt Hz Hrl. destruct (Hrest r Hrt Hz Hrl) as [_ Hlt]. split; [by apply Hlt|done].
    + intros Hheld r Hrt. change (r ∈ rows c) in Hrt. rewrite Hr in Hrt. unfold seqs.
      rewrite loaded_extend, fmap_app, elem_of_app.
      destruct (decide (mr_local_seq r ∈ seqs (loaded w))) as [?|Hz]; [by left|]. right.
      destruct (decide (r ∈ l)); [by apply elem_of_seqs_2|].
      destruct (Hrest r Hrt Hz) as [Hfull _]; [done|].
      unfold held in *. cbn in Hheld. rewrite length_app in Hheld. lia.
  - apply last_None in Hlast as ->. split_and!; try done. cbn [wk_conn set_conn]. rewrite Hr.
    intros _ r Hrt. destruct (decide (mr_local_seq r ∈ seqs (loaded w))) as [?|Hz]; [done|].
    destruct (Hrest r Hrt Hz) as [Hfull _]; [set_solver|]. cbn in Hfull. lia.
Qed.
(** ** Next *)
Definition bump (n seq : Z) (r : MemRecord) : MemRecord :=
  if bool_decide (mr_local_seq r = seq) then with_sent n r else r.

Lemma bump_seq n seq r : mr_local_seq (bump n seq r) = mr_local_seq r.
Proof. unfold bump. by case_bool_decide. Qed.

Lemma bump_mid n seq r : mr_message_id (bump n seq r) = mr_message_id r.
Proof. unfold bump. by case_bool_decide. Qed.

Lemma bump_other n seq r (l : list MemRecord) : r ∈ l → mr_local_seq r ≠ seq → r ∈ bump n seq <$> l.
Proof.
  intros Hr Hne. apply list_elem_of_fmap. exists r. unfold bump. by rewrite bool_decide_eq_false_2.
Qed.

(** The head of the send queue is the oldest row that is not in flight. *)
Lemma mem_head_oldest r rest w :
  inv w → wk_mem w = r :: rest →
  ∀ x, x ∈ table w → wk_inflight w !! mr_local_seq x = None → mr_local_seq r ≤ mr_local_seq x.
Proof.
  intros Hi Hm x Hx Hf. pose proof (iv_mem_sorted _ Hi) as Hs. rewrite Hm in Hs.
  apply StronglySorted_inv in Hs as [_ Hs]. rewrite Forall_forall in Hs.
  destruct (decide (mr_local_seq x ∈ seqs (loaded w))) as [(y & Hy & Heq)%elem_of_seqs|Hz].
  - apply elem_of_loaded in Hy as [Hy|[k Hk]].
    + rewrite Hm in Hy. apply elem_of_cons in Hy as [->|Hy]; [lia|]. specialize (Hs _ Hy). unfold seq_lt in Hs. lia.
    + destruct (iv_inflight _ Hi _ _ Hk) as [? _]. congruence.
  - apply Z.lt_le_incl. apply (iv_prefix _ Hi x Hx Hz), elem_of_seqs_2, elem_of_loaded.
    left. rewrite Hm. by left.
Qed.

Lemma set_sent_inv r rest w c :
  inv w → wk_mem w = r :: rest → high c = high (wk_conn w) →
  rows c = bump (mr_sent_count r + 1) (mr_local_seq r) <$> table w →
  inv (set_window rest (<[mr_local_seq r := with_sent (mr_sent_count r + 1) r]> (wk_inflight w))
         (wk_last_loaded_seq w) (set_conn c w)).
Proof.
  intros Hi Hm Hh Hr. set (w' := set_window _ _ _ _).
  pose proof (iv_mem_sorted _ Hi) as Hs. rewrite Hm in Hs. apply StronglySorted_inv in Hs as [Hs Hlt].
  rewrite Forall_forall in Hlt. unfold seq_lt in Hlt.
  assert (wk_inflight w !! mr_local_seq r = None) as Hnone by (apply Hi; rewrite Hm; by left).
  assert (∀ x, x ∈ rest → x ∈ wk_mem w) as Hrest by (rewrite Hm; set_solver).
  assert (r ∈ wk_mem w) as Hrm by (rewrite Hm; set_solver).
  assert (seqs (loaded w') ≡ₚ seqs (loaded w)) as Hseqs.
  { unfold w', loaded, seqs. cbn. rewrite Hm, map_to_list_insert by done. cbn.
    rewrite !fmap_app. cbn. solve_Permutation. }
  split; cbn; try rewrite Hr.
  - done.
  - intros x Hx. apply bump_other; [by apply Hi, Hrest|]. specialize (Hlt _ Hx). lia.
  - intros k x Hk. apply lookup_insert_Some in Hk as [[<- <-]|[Hne Hk]].
    + split; [done|]. apply list_elem_of_fmap. exists r. unfold bump.
      rewrite bool_decide_eq_true_2 by done. split; [done|by apply Hi].
    + destruct (iv_inflight _ Hi _ _ Hk) as [<- Hx]. split; [done|]. by apply bump_other.
  - intros x Hx. specialize (Hlt _ Hx). rewrite lookup_insert_ne by lia. by apply Hi, Hrest.
  - intros x (y & -> & Hy)%list_elem_of_fmap. rewrite bump_seq. change (mr_local_seq <$> _) with (seqs (loaded w')).
    setoid_rewrite Hseqs. by apply Hi.
  - rewrite Hh. apply Hi.
  - pose proof (iv_held _ Hi) as Hheld. unfold held in *. cbn. rewrite map_size_insert_None by done.
    rewrite Hm in Hheld. cbn in Hheld. lia.
  - rewrite sum_list_fmap; [apply Hi|]. intros x. unfold bump. by case_bool_decide.
  - apply Hi.
  - rewrite <- list_fmap_compose. erewrite list_fmap_ext; [apply (iv_mids _ Hi)|].
    intros i x _. apply bump_mid.
Qed.

Lemma handle_next_inv w w' o :
  inv w → handle_next w = (w', o) →
  inv w' ∧ o ≠ Panic ∧ wk_log w' = wk_log w ∧ wk_pending_push w' = wk_pending_push w ∧
  (∃ n z, table w' = table w ∨ table w' = bump n z <$> table w).
Proof.
  intros Hi. unfold handle_next. destruct (wk_mem w) as [|r rest] eqn:Hm.
  { intros [= <- <-]. split_and!; try done; [by case_match|]. exists 0, 0. by left. }
  destruct (from_slice (mr_payload r)) as [batch|].
  2: { intros [= <- <-]. split_and!; try done. exists 0, 0. by left. }
  destruct (sql_set_sent _ _ _) as [c [[]|e|]] eqn:Hs; apply sql_set_sent_law in Hs as [Hh Hr];
    intros [= <- <-]; [| |done].
  - split_and!; [by apply set_sent_inv|done..|]. eexists _, _. right. exact Hr.
  - split_and!; try done; [apply set_conn_inv; [done|lia|done]|]. exists 0, 0. by left.
Qed.

(** ** Ack *)
Lemma handle_ack_inv seq w w' o :
  inv w → is_Some (wk_inflight w !! seq) ∨ seq ∉ seqs (table w) → handle_ack seq w = (w', o) →
  inv w' ∧ o ≠ Panic ∧ wk_log w' = wk_log w ∧ wk_pending_push w' = wk_pending_push w ∧
  drops (λ r, mr_local_seq r = seq) (table w) (table w').
Proof.
  intros Hi Hseq. unfold handle_ack.
  destruct (sql_delete seq (wk_conn w)) as [c [n|e|]] eqn:Hd; apply sql_delete_law in Hd as [Hh Hr]; [| |done].
  2: { intros [= <- <-]. split_and!; try done; [apply set_conn_inv; [done|lia|done]|]. cbn. rewrite Hr. apply drops_refl. }
  destruct Hr as [Hr Hn].
  assert (rows c = filter (λ r, mr_local_seq r ∉ [seq]) (table w)) as Hr'.
  { rewrite Hr. apply list_filter_iff. intros r. rewrite list_elem_of_singleton. done. }
  intros [= <- <-]. assert (∀ w1 : Worker Conn, wk_conn w1 = c → drops (λ r, mr_local_seq r = seq) (table w) (table w1)) as Hdrops.
  { intros w1 ->. exists [seq]. split; [done|]. intros r _. by rewrite list_elem_of_singleton. }
  destruct Hseq as [[r Hf]|Hout].
  - destruct (iv_inflight _ Hi _ _ Hf) as [Hs Ht].
    rewrite bool_decide_eq_true_2 in Hn by (apply elem_of_seqs; eauto). subst n. cbn [Z.ltb wk_inflight set_conn Z.compare].
    rewrite Hf. split_and!; [|done..|by apply Hdrops].
    assert (kept_mem [seq] w = wk_mem w) as Hkm.
    { apply filter_all. apply Forall_forall. intros x Hx%(iv_disjoint _ Hi) Heq.
      apply list_elem_of_singleton in Heq. congruence. }
    assert (kept_inflight [seq] w = delete seq (wk_inflight w)) as Hki.
    { apply map_eq. intros k. destruct (decide (k = seq)) as [->|Hne].
      - rewrite lookup_delete_eq. apply map_lookup_filter_None. right. intros x _ Hk. set_solver.
      - rewrite lookup_delete_ne by done. apply option_eq. intros x. unfold kept_inflight. rewrite map_lookup_filter_Some. set_solver. }
    pose proof (removed_inv [seq] w c (record_cost r) Hi Hh Hr') as Hinv. rewrite Hkm, Hki in Hinv. apply Hinv.
    + rewrite Hr', <- (eq_trans eq_refl (f_equal (λ z, [z]) Hs) : seqs [r] = [seq]).
      rewrite sum_list_remove, (iv_bytes _ Hi), sum_list_cons; [unfold sum_list; cbn; lia|..].
      * apply rows_sorted.
      * repeat constructor.
      * intros x Hx. by apply list_elem_of_singleton in Hx as ->.
    + pose proof (record_cost_pos r). lia.
  - rewrite bool_decide_eq_false_2 in Hn by done. subst n. cbn [Z.ltb Z.compare].
    split_and!; [|done..|by apply Hdrops]. apply set_conn_inv; [|lia|done]. rewrite Hr'.
    apply filter_all, Forall_forall. intros x Hx. rewrite list_elem_of_singleton. intros <-. by apply Hout, elem_of_seqs_2.
Qed.

(** ** Who is answered

    [waits l ch m]: the caller behind channel [ch] waits in [l] for the record
    with message identifier [m]. *)
Definition waits (l : list PendingPush) (ch : nat) (m : str) : Prop :=
  ∃ p, p ∈ l ∧ ch ∈ pd_replies p ∧ mr_message_id (pd_record p) = m.

Definition mids (l : list MemRecord) : list str := mr_message_id <$> l.

(** From [w] with the requests [asks], the step to [w'] extends the table,
    tells a caller that its record is stored only when it is, and forgets no
    caller. *)
Definition answers (asks : nat → str → Prop) w w' : Prop :=
  (∃ new, table w' = table w ++ new) ∧
  ∃ ev, wk_log w' = wk_log w ++ ev ∧
    (∀ ch res, Reply.Done ch res ∈ ev → ∃ m, asks ch m ∧ (res = Ok () → m ∈ mids (table w'))) ∧
    (∀ ch m, waits (wk_pending_push w') ch m → asks ch m) ∧
    (∀ ch m, asks ch m → waits (wk_pending_push w') ch m ∨ ∃ res, Reply.Done ch res ∈ ev).

Lemma waits_cons p l ch m :
  waits (p :: l) ch m ↔ (ch ∈ pd_replies p ∧ mr_message_id (pd_record p) = m) ∨ waits l ch m.
Proof.
  unfold waits. setoid_rewrite elem_of_cons. split.
  - intros (x & [->|Hx] & ? & ?); [by left|right; eauto].
  - intros [[? ?]|(x & ? & ? & ?)]; eauto 10.
Qed.

Lemma waits_nil ch m : ¬ waits [] ch m.
Proof. intros (p & []%not_elem_of_nil & _). Qed.

Lemma elem_of_send_all ch (channels : list nat) (res : outcome LocalBufferError.t ()) res' :
  Reply.Done ch res' ∈ ((λ c, Reply.Done c res) <$> channels) ↔ ch ∈ channels ∧ res' = res.
Proof. rewrite list_elem_of_fmap. naive_solver. Qed.

Lemma mids_mono l l' new m : l' = l ++ new → m ∈ mids l → m ∈ mids l'.
Proof. intros ->. unfold mids. rewrite fmap_app. set_solver. Qed.

(** One waiter of the loop is answered with [res]; the rest goes on. *)
Lemma answers_cons p l res w w1 w' :
  answers (waits l) (send_all (pd_replies p) res w1) w' →
  wk_log w1 = wk_log w → (∃ new, table w1 = table w ++ new) →
  (res = Ok () → mr_message_id (pd_record p) ∈ mids (table w1)) →
  answers (waits (p :: l)) w w'.
Proof.
  intros ([new Hnew] & ev & Hlog & Hok & Hw & Hall) Hlog1 [new1 Hnew1] Hres.
  cbn in Hnew, Hlog. rewrite Hlog1 in Hlog. split.
  { exists (new1 ++ new). by rewrite Hnew, Hnew1, app_assoc. }
  eexists. split; [by rewrite Hlog, <- app_assoc|]. split_and!.
  - intros ch res' [[Hch ->]%elem_of_send_all|Hev]%elem_of_app.
    + exists (mr_message_id (pd_record p)). rewrite waits_cons. split; [by left|].
      intros Hr. by eapply mids_mono, Hres.
    + destruct (Hok ch res' Hev) as (m & ? & ?). exists m. rewrite waits_cons. auto.
  - intros ch m Hwt. rewrite waits_cons. auto.
  - intros ch m [[Hch <-]|Hwt]%waits_cons.
    + right. exists res. rewrite elem_of_app, elem_of_send_all. auto.
    + destruct (Hall ch m Hwt) as [?|[r Hr]]; [by left|]. right. exists r. set_solver.
Qed.

(** ** Admission *)
Hypothesis Hdisk : lc_disk_max_bytes config < 2 ^ 64 - 1.

(** A new row is behind everything. *)
Lemma new_row_seq c c' w r :
  inv w → wk_conn w = c → sql_insert r c = (c', Ok ()) →
  (∀ x, x ∈ rows c → mr_local_seq x < sql_last_insert_rowid c') ∧
  (∀ z, z ∈ seqs (loaded w) → z < sql_last_insert_rowid c').
Proof.
  intros Hi <- (Hlt & _)%sql_insert_law. assert (∀ x, x ∈ table w → mr_local_seq x < sql_last_insert_rowid c') as Hall.
  { intros x Hx%rows_high. lia. }
  split; [done|]. intros z (x & Hx & <-)%elem_of_seqs. by apply Hall, loaded_rows.
Qed.

Lemma insert_inv w c r :
  inv w → capacity_full config w (record_cost r) = false →
  sql_insert r (wk_conn w) = (c, Ok ()) →
  inv (set_bytes (sat_add (wk_bytes w) (record_cost r)) (set_conn c w)).
Proof using Hdisk.
  intros Hi Hcap Hins. pose proof (new_row_seq _ _ w r Hi eq_refl Hins) as [Hnew Hnewl].
  apply sql_insert_law in Hins as (Hh & Hh' & Hmid & Hrows).
  assert (wk_bytes w + record_cost r ≤ lc_disk_max_bytes config) as Hb.
  { unfold capacity_full, sat_add in Hcap. lia. }
  assert (sat_add (wk_bytes w) (record_cost r) = wk_bytes w + record_cost r) as Hsat.
  { unfold sat_add. lia. }
  split; cbn; rewrite ?Hrows, ?Hsat.
  - apply Hi.
  - intros x Hx. apply elem_of_app. left. by apply Hi.
  - intros k x Hk. destruct (iv_inflight _ Hi _ _ Hk). split; [done|]. apply elem_of_app. by left.
  - apply Hi.
  - intros x [Hx|Hx]%elem_of_app Hz; [by apply Hi|]. apply list_elem_of_singleton in Hx as ->. cbn.
    split; [pose proof (iv_last _ Hi); lia|done].
  - pose proof (iv_last _ Hi). lia.
  - apply Hi.
  - rewrite sum_list_app, sum_list_cons, (iv_bytes _ Hi). unfold sum_list at 3. cbn.
    change (record_cost (with_seq _ r)) with (record_cost r). lia.
  - done.
  - rewrite fmap_app. apply NoDup_app. split_and!; [apply Hi| |apply NoDup_singleton].
    intros m Hm Hm'. apply list_elem_of_singleton in Hm' as ->. done.
Qed.

Lemma accept_record_inv w c r :
  inv w → caught_up w → capacity_full config w (record_cost r) = false →
  sql_insert r (wk_conn w) = (c, Ok ()) →
  let w' := accept_record config r (set_conn c w) in
  inv w' ∧ caught_up w' ∧ wk_log w' = wk_log w ∧ wk_pending_push w' = wk_pending_push w ∧
  table w' = table w ++ [with_seq (sql_last_insert_rowid c) r].
Proof using Hdisk.
  intros Hi Hk Hcap Hins. pose proof (insert_inv w c r Hi Hcap Hins) as Hi'.
  pose proof (new_row_seq _ _ w r Hi eq_refl Hins) as [Hnew Hnewl].
  apply sql_insert_law in Hins as (Hh & Hh' & _ & Hrows). unfold accept_record.
  cbn [wk_conn wk_bytes set_conn]. change (record_cost (with_seq _ r)) with (record_cost r).
  set (w1 := set_bytes _ (set_conn c w)) in *. change (held w1) with (held w).
  case_if; [|split_and!; [done| |done..]].
  - assert (held w < lc_memory_records config)%nat as Hheld by lia.
    assert (wk_load_error w = None) as He by (case_bool_decide; [done|lia]).
    specialize (Hk He Hheld). split_and!; [| |done..].
    + apply (extend_inv w1); [done|repeat constructor|..].
      * intros x Hx. apply list_elem_of_singleton in Hx as ->. cbn. rewrite Hrows.
        split; [set_solver|]. intros Hz. specialize (Hnewl _ Hz). cbn in Hnewl. lia.
      * change (held w1) with (held w). cbn. lia.
      * cbn. pose proof (iv_last _ Hi). lia.
      * intros x Hx Hz Hxl. cbn in Hx. rewrite Hrows in Hx. exfalso.
        apply elem_of_app in Hx as [Hx| ]; [|done]. by apply Hz, Hk.
    + intros _ _ x Hx. unfold seqs. change (x ∈ rows c) in Hx. rewrite Hrows in Hx.
      unfold set_mem. rewrite loaded_extend, fmap_app, elem_of_app.
      apply elem_of_app in Hx as [Hx|Hx]; [left; by apply Hk|right; by apply elem_of_seqs_2].
  - intros He Hheld. change (held w1) with (held w) in Hheld. exfalso.
    assert (bool_decide (wk_load_error w1 = None) = true) by (by apply bool_decide_eq_true). lia.
Qed.

(** Adding replies to the log, or changing who waits, changes nothing else. *)
Lemma send_inv events w : inv w → inv (send events w).
Proof. by intros []; split. Qed.

Lemma set_pending_inv l w : inv w → inv (set_pending_push l w).
Proof. by intros []; split. Qed.

Lemma caught_up_send events w : caught_up w → caught_up (send events w).
Proof. done. Qed.

Lemma flush_loop_inv pending n w :
  inv w → caught_up w →
  let w' := (flush_loop config pending n w).1 in
  inv w' ∧ caught_up w' ∧ answers (waits pending) w w'.
Proof using Hdisk.
  revert n w. induction pending as [|p pending IH]; intros n w Hi Hk; cbn.
  { split_and!; [by apply set_pending_inv|done|]. split; [exists []; by rewrite app_nil_r|].
    exists []. rewrite app_nil_r. split_and!; [done|set_solver|done|by left]. }
  destruct (capacity_full config w (record_cost (pd_record p))) eqn:Hcap; cbn.
  { split_and!; [by apply set_pending_inv|done|]. split; [exists []; by rewrite app_nil_r|].
    exists []. rewrite app_nil_r. split_and!; [done|set_solver|done|by left]. }
  destruct (sql_insert (pd_record p) (wk_conn w)) as [c [[]|e|]] eqn:Hins.
  - destruct (accept_record_inv w c _ Hi Hk Hcap Hins) as (Hi1 & Hk1 & Hl1 & _ & Ht1).
    destruct (IH (S n) (send_all (pd_replies p) (Ok ()) (accept_record config (pd_record p) (set_conn c w))))
      as (Hi2 & Hk2 & Ha); [by apply send_inv|done|].
    split_and!; [done..|]. eapply answers_cons; [exact Ha|done|by eexists|].
    intros _. rewrite Ht1. unfold mids. rewrite fmap_app. set_solver.
  - apply sql_insert_law in Hins as [Hr Hh].
    destruct (IH n (send_all (pd_replies p) (Err e) (set_conn c w))) as (Hi2 & Hk2 & Ha);
      [by apply send_inv, set_conn_inv|by apply caught_up_send, caught_up_set_conn|].
    split_and!; [done..|]. eapply answers_cons; [exact Ha|done| |done].
    exists []. by rewrite app_nil_r.
  - by apply sql_insert_law in Hins.
Qed.
(** ** Push *)
Definition asks (l : list PendingPush) (reply : nat) (mid : str) (ch : nat) (m : str) : Prop :=
  waits l ch m ∨ (ch = reply ∧ m = mid).

(** The caller is answered at once. *)
Lemma answers_reply reply mid res w w1 :
  wk_log w1 = wk_log w → wk_pending_push w1 = wk_pending_push w →
  (∃ new, table w1 = table w ++ new) → (res = Ok () → mid ∈ mids (table w1)) →
  answers (asks (wk_pending_push w) reply mid) w (send [Reply.Done reply res] w1).
Proof.
  intros Hl Hp Hnew Hres. split; [done|]. exists [Reply.Done reply res]. cbn. rewrite Hl, Hp.
  split_and!; [done| |by left|].
  - intros ch res' Hch. apply list_elem_of_singleton in Hch as [= -> ->]. exists mid. by split; [right|].
  - intros ch m [?|[-> ->]]; [by left|]. right. exists res. by apply list_elem_of_singleton.
Qed.

(** The caller joins those who wait. *)
Lemma answers_wait reply mid w w1 :
  wk_log w1 = wk_log w → table w1 = table w →
  (∀ ch m, waits (wk_pending_push w1) ch m ↔ asks (wk_pending_push w) reply mid ch m) →
  answers (asks (wk_pending_push w) reply mid) w w1.
Proof.
  intros Hl Ht Hw. split; [exists []; by rewrite app_nil_r|]. exists []. rewrite Hl, app_nil_r.
  split_and!; [done|by intros ? ? ?%not_elem_of_nil|intros; by apply Hw|intros; left; by apply Hw].
Qed.

Lemma add_waiter_waits mid reply l p ch m :
  List.find (λ p, bool_decide (mr_message_id (pd_record p) = mid)) l = Some p →
  waits (add_waiter mid reply l) ch m ↔ asks l reply mid ch m.
Proof.
  unfold asks. induction l as [|x l IH]; [done|]. cbn [List.find add_waiter].
  case_bool_decide as Hx; [intros _|intros Hf]; rewrite !waits_cons; cbn.
  - rewrite elem_of_app, list_elem_of_singleton. naive_solver.
  - rewrite (IH Hf). tauto.
Qed.

Lemma waits_app l k ch m : waits (l ++ k) ch m ↔ waits l ch m ∨ waits k ch m.
Proof. unfold waits. setoid_rewrite elem_of_app. naive_solver. Qed.

Lemma waits_one r reply ch m : waits [mkPendingPush r [reply]] ch m ↔ ch = reply ∧ m = mr_message_id r.
Proof.
  rewrite waits_cons. cbn. rewrite list_elem_of_singleton. pose proof (waits_nil ch m). naive_solver.
Qed.

Lemma push_new_inv r reply w :
  inv w → caught_up w →
  let w' := push_new config r reply w in
  inv w' ∧ caught_up w' ∧ answers (asks (wk_pending_push w) reply (mr_message_id r)) w w'.
Proof using Hdisk.
  intros Hi Hk. unfold push_new.
  assert (∀ e, let w' := send [Reply.Done reply (Err e)] w in
    inv w' ∧ caught_up w' ∧ answers (asks (wk_pending_push w) reply (mr_message_id r)) w w') as Hfail.
  { intros e. split_and!; [by apply send_inv|done|].
    apply answers_reply; [done..|exists []; by rewrite app_nil_r|done]. }
  case_if; [apply Hfail|]. destruct (capacity_full config w (record_cost r)) eqn:Hcap.
  - case_if; [apply Hfail|]. destruct (lc_capacity_policy config); [|apply Hfail].
    split_and!; [by apply set_pending_inv|done|]. apply answers_wait; [done..|].
    intros ch m. cbn. rewrite waits_app, waits_one. done.
  - destruct (sql_insert r (wk_conn w)) as [c [[]|e|]] eqn:Hins.
    + destruct (accept_record_inv w c _ Hi Hk Hcap Hins) as (Hi1 & Hk1 & Hl1 & Hp1 & Ht1).
      split_and!; [by apply send_inv|done|]. apply answers_reply; [done..|by eexists|].
      intros _. rewrite Ht1. unfold mids. rewrite fmap_app. set_solver.
    + apply sql_insert_law in Hins as [Hr Hh].
      split_and!; [by apply send_inv, set_conn_inv|by apply caught_up_send, caught_up_set_conn|].
      apply answers_reply; [done..|exists []; by rewrite app_nil_r|done].
    + by apply sql_insert_law in Hins.
Qed.

Lemma answers_set_conn P c w w' :
  rows c = table w → answers P (set_conn c w) w' → answers P w w'.
Proof. intros Hr. unfold answers. cbn. by rewrite Hr. Qed.

Lemma push_inner_inv now batch reply w :
  inv w → caught_up w →
  let w' := push_inner config now batch reply w in
  inv w' ∧ caught_up w' ∧ answers (asks (wk_pending_push w) reply (ob_message_id batch)) w w'.
Proof using Hdisk.
  intros Hi Hk. unfold push_inner.
  assert (∀ res, (res = Ok () → ob_message_id batch ∈ mids (table w)) →
    let w' := send [Reply.Done reply res] w in
    inv w' ∧ caught_up w' ∧ answers (asks (wk_pending_push w) reply (ob_message_id batch)) w w') as Hnow.
  { intros res Hres. split_and!; [by apply send_inv|done|].
    apply answers_reply; [done..|exists []; by rewrite app_nil_r|done]. }
  assert (telemetry_topic batch ≠ Panic) as Hnp by (unfold telemetry_topic; no_panic).
  destruct (telemetry_topic batch) as [topic|e|]; [|by apply Hnow|done].
  destruct (to_vec batch) as [payload|]; [|by apply Hnow]. cbn [mr_message_id].
  destruct (existsb _ _) eqn:Hfl.
  { apply Hnow. intros _. apply existsb_exists in Hfl as (x & Hx & Heq).
    apply bool_decide_eq_true in Heq as <-. apply list_elem_of_In in Hx.
    apply list_elem_of_fmap_2, (loaded_rows w x Hi). unfold loaded. apply elem_of_app. by right. }
  destruct (List.find _ _) as [p|] eqn:Hfind.
  { case_if; [by apply Hnow|]. split_and!; [by apply set_pending_inv|done|].
    apply answers_wait; [done..|]. intros ch m. by eapply add_waiter_waits. }
  destruct (sql_find _ _) as [c [[z|]|e|]] eqn:Hf; apply sql_find_law in Hf as (Hr & Hh & Hm).
  - split_and!; [apply send_inv, set_conn_inv; [done|lia|done]|by apply caught_up_send, caught_up_set_conn|].
    apply answers_reply; [done..|exists []; by rewrite app_nil_r|]. intros _. cbn. rewrite Hr. by apply Hm.
  - match goal with |- context [push_new _ ?r _ _] =>
      destruct (push_new_inv r reply (set_conn c w)) as (H1 & H2 & H3) end;
      [apply set_conn_inv; [done|lia|done]|by apply caught_up_set_conn|].
    split_and!; [done..|]. by eapply answers_set_conn.
  - split_and!; [apply send_inv, set_conn_inv; [done|lia|done]|by apply caught_up_send, caught_up_set_conn|].
    apply answers_reply; [done..|exists []; by rewrite app_nil_r|done].
  - done.
Qed.
End laws.
