(* ===== verification/LocalBufferWorld.v ===== *)
(** * Runs of the store-and-forward buffer

    A run interleaves iterations of the worker, commands of clients, failures
    of any statement and restarts of the process.  The theorems say what a
    client may rely on: order, durability, capacity, recovery. *)

From S2P Require Import Prelude RustStd ObservationModel DataPipeline LocalBuffer LocalBufferLaws.
From stdpp Require Import options.

#[local] Set Default Proof Using "Type".
#[local] Arguments loaded : simpl never.
#[local] Arguments sum_list : simpl never.

(** ** Text that SQLite and Rust measure alike *)
Definition ascii (s : str) : Prop := Forall (λ c, 0 < c < 128) s.

Lemma ascii_byte_len s : ascii s → byte_len s = sql_text_length s.
Proof.
  induction 1 as [|c s Hc _ IH]; [done|]. rewrite byte_len_cons, IH. cbn [sql_text_length].
  replace (c =? 0) with false by lia. unfold utf8_encode_char. replace (c <? 0x80) with true by lia. done.
Qed.

(** ** What happens in a run *)
Module Label.
Inductive t : Type := Turn (env : Env) | Command (env env' : Env) (cmd : Cmd.t) | Restart.
End Label.

Section world.
Context {Conn : Type} `{!BatchTable Conn} `{!BatchTableLaws Conn} `{!BatchCodec}.
Context (config : LocalBufferConfig).
Implicit Types (w : Worker Conn) (r : MemRecord).

Abbreviation table w := (rows (wk_conn w)).
Abbreviation pending_records w := (pd_record <$> wk_pending_push w).

(** ** What the stored records are *)

(** A record holds one of the batches [P], and its texts are ASCII. *)
Definition row_ok (P : list ObservationBatch) r : Prop :=
  ∃ b, b ∈ P ∧ to_vec b = Some (mr_payload r) ∧ mr_message_id r = ob_message_id b ∧
    telemetry_topic b = Ok (mr_topic r) ∧ ascii (mr_topic r) ∧ ascii (mr_message_id r).

(** A property of records that does not depend on the fields the worker
    changes. *)
Definition stable (Q : MemRecord → Prop) : Prop :=
  ∀ r r', mr_message_id r = mr_message_id r' → mr_topic r = mr_topic r' →
    mr_payload r = mr_payload r' → Q r → Q r'.

Lemma row_ok_stable P : stable (row_ok P).
Proof. intros r r' Hm Ht Hp (b & ?). exists b. by rewrite <- Hm, <- Ht, <- Hp. Qed.

Definition all_records (Q : MemRecord → Prop) w : Prop :=
  Forall Q (table w) ∧ Forall Q (pending_records w).

Lemma accept_record_table Q c r w :
  stable Q → sql_insert r (wk_conn w) = (c, Ok ()) → Q r → Forall Q (table w) →
  Forall Q (table (accept_record config r (set_conn c w))).
Proof.
  intros Hst (_ & _ & _ & Hrows)%sql_insert_law Hr Ht.
  assert (table (accept_record config r (set_conn c w)) = rows c) as ->.
  { unfold accept_record. by case_if. }
  rewrite Hrows. apply Forall_app. split; [done|]. apply Forall_singleton. by eapply Hst, Hr.
Qed.

Lemma flush_loop_records Q pending n w :
  stable Q → Forall Q (pd_record <$> pending) → Forall Q (table w) →
  all_records Q (flush_loop config pending n w).1.
Proof.
  intros Hst. revert n w. induction pending as [|p pending IH]; intros n w Hp Ht; cbn; [by split|].
  pose proof (Forall_inv Hp) as Hq. pose proof (Forall_inv_tail Hp) as Hp'.
  case_if; [by split|]. destruct (sql_insert _ _) as [c [[]|e|]] eqn:Hins; apply IH; try done; cbn.
  - by apply accept_record_table.
  - apply sql_insert_law in Hins as [-> _]. done.
  - by apply sql_insert_law in Hins.
Qed.

Lemma add_waiter_records Q mid reply l :
  Forall Q (pd_record <$> l) → Forall Q (pd_record <$> add_waiter mid reply l).
Proof.
  induction l as [|p l IH]; [done|]. cbn. intros Hl. pose proof (Forall_inv Hl).
  pose proof (Forall_inv_tail Hl). case_bool_decide; cbn; constructor; auto.
Qed.

Lemma push_new_records Q r reply w :
  stable Q → Q r → all_records Q w → all_records Q (push_new config r reply w).
Proof.
  intros Hst Hr [Ht Hp]. unfold push_new. case_if; [by split|]. case_if.
  - case_if; [by split|]. destruct (lc_capacity_policy config); split; try done. cbn.
    rewrite fmap_app. apply Forall_app. split; [done|]. by constructor.
  - destruct (sql_insert _ _) as [c [[]|e|]] eqn:Hins.
    + split; [by apply accept_record_table|]. unfold accept_record. by case_if.
    + apply sql_insert_law in Hins as [Hrows _]. split; [|done]. cbn. by rewrite Hrows.
    + by apply sql_insert_law in Hins.
Qed.

Lemma push_inner_records Q now batch reply w :
  stable Q → all_records Q w →
  (∀ r, to_vec batch = Some (mr_payload r) → mr_message_id r = ob_message_id batch →
        telemetry_topic batch = Ok (mr_topic r) → Q r) →
  all_records Q (push_inner config now batch reply w).
Proof.
  intros Hst Hall Hq. unfold push_inner.
  destruct (telemetry_topic batch) as [topic|e|] eqn:Et; [|done..].
  destruct (to_vec batch) as [payload|] eqn:Ev; [|done]. case_if; [done|].
  destruct (List.find _ _).
  { case_if; [done|]. destruct Hall. split; [done|]. by apply add_waiter_records. }
  destruct (sql_find _ _) as [c [[z|]|e|]] eqn:Hf; apply sql_find_law in Hf as (Hr & _);
    try (destruct Hall; split; [by cbn; rewrite Hr|done]).
  apply push_new_records; [done|by apply Hq|]. destruct Hall. split; [by cbn; rewrite Hr|done].
Qed.

(** *** The bounds on who waits *)
Definition bounded (l : list PendingPush) : Prop :=
  (length l ≤ lc_memory_records config)%nat ∧
  Forall (λ p, (0 < length (pd_replies p) ≤ MAX_WAITERS_PER_RECORD)%nat) l.

Lemma flush_loop_suffix pending n w :
  ∃ done, pending = done ++ wk_pending_push (flush_loop config pending n w).1.
Proof.
  revert n w. induction pending as [|p pending IH]; intros n w; cbn; [by exists []|].
  case_if; [by exists []|]. destruct (sql_insert _ _) as [c [[]|e|]];
    match goal with |- context [flush_loop config pending ?n ?w] => destruct (IH n w) as [l Hl] end;
    exists (p :: l); cbn; by f_equal.
Qed.

Lemma bounded_suffix l k : bounded (l ++ k) → bounded k.
Proof. intros [Hl Hf]. rewrite length_app in Hl. apply Forall_app in Hf as [_ ?]. split; [lia|done]. Qed.

Lemma add_waiter_bounded mid reply l p :
  List.find (λ p, bool_decide (mr_message_id (pd_record p) = mid)) l = Some p →
  (length (pd_replies p) < MAX_WAITERS_PER_RECORD)%nat → bounded l → bounded (add_waiter mid reply l).
Proof.
  intros Hf Hlen [Hl Hb]. split.
  - etransitivity; [|exact Hl]. clear. induction l as [|x l IH]; cbn; [done|].
    case_bool_decide; cbn; lia.
  - clear Hl. induction Hb as [|x l Hx Hb IH]; [done|]. cbn in *. case_bool_decide.
    + injection Hf as ->. constructor; [|done]. cbn. rewrite length_app. cbn. lia.
    + constructor; [done|by apply IH].
Qed.

Lemma push_inner_bounded now batch reply w :
  bounded (wk_pending_push w) → bounded (wk_pending_push (push_inner config now batch reply w)).
Proof.
  intros Hb. unfold push_inner. destruct (telemetry_topic batch); [|done..].
  destruct (to_vec batch); [|done]. case_if; [done|].
  destruct (List.find _ _) as [p|] eqn:Hf.
  { destruct (Nat.leb_spec MAX_WAITERS_PER_RECORD (length (pd_replies p))); [done|].
    by eapply add_waiter_bounded. }
  destruct (sql_find _ _) as [c [[z|]|e|]]; [done| |done..].
  unfold push_new. case_if; [done|]. case_if.
  - destruct (Nat.leb_spec (lc_memory_records config) (length (wk_pending_push (set_conn c w)))) as [|Hlt]; [done|].
    destruct (lc_capacity_policy config); [|done]. destruct Hb as [Hl Hf']. split; cbn.
    + rewrite length_app. cbn in *. lia.
    + apply Forall_app. split; [done|]. apply Forall_singleton. cbn. unfold MAX_WAITERS_PER_RECORD. lia.
  - destruct (sql_insert _ _) as [c' [[]|e|]]; cbn; try done. unfold accept_record. by case_if.
Qed.

Lemma prune_bounded closed w :
  bounded (wk_pending_push w) → bounded (wk_pending_push (prune_cancelled_waiters closed w)).
Proof.
  intros [Hl Hf]. split; cbn.
  - etransitivity; [apply length_filter|]. by rewrite length_fmap.
  - apply Forall_forall. intros p [Hne (q & -> & Hq)%list_elem_of_fmap]%list_elem_of_filter. cbn in *.
    apply (proj1 (Forall_forall _ _) Hf) in Hq as [_ Hq].
    destruct (filter _ (pd_replies q)) eqn:E; [done|]. rewrite <- E. split; [rewrite E; cbn; lia|].
    etransitivity; [apply length_filter|done].
Qed.
(** ** Runs *)
Record World : Type := mkWorld {
  bw_worker : Worker Conn;
  bw_running : bool;
  bw_used : gset nat;                  (* reply channels so far *)
  bw_asked : gmap nat str;             (* the message identifier behind a push channel *)
  bw_pushed : list ObservationBatch;
  bw_acked : list MemRecord;           (* stored when a client acknowledged their number *)
  bw_due : list MemRecord;             (* stored and due to expire in some iteration *)
}.

Definition reply_of (cmd : Cmd.t) : nat :=
  match cmd with
  | Cmd.Push _ reply | Cmd.Next reply _ | Cmd.Ack _ reply | Cmd.Requeue _ reply
  | Cmd.Shutdown reply => reply
  end.

Definition cutoff (env : Env) : Z :=
  wrap_signed 64 (wrap_signed 64 (en_now env) - lc_retention_ns config).

(** What the cleaning of an iteration may remove: expired and not in flight. *)
Definition may_expire (env : Env) w r : Prop :=
  mr_created_at_ns r < cutoff env ∧
  wk_inflight (check_pending_confirm (en_delivered env) w).1 !! mr_local_seq r = None.

#[export] Instance may_expire_dec env w r : Decision (may_expire env w r).
Proof. unfold may_expire. apply _. Defined.

Definition due (env : Env) w : list MemRecord := filter (may_expire env w) (table w).

(** The stored record a command acknowledges. *)
Definition acked_by (cmd : Cmd.t) (l : list MemRecord) : list MemRecord :=
  match cmd with Cmd.Ack seq _ => filter (λ r, mr_local_seq r = seq) l | _ => [] end.

(** A well-behaved client acknowledges what it was handed and has not
    returned; identifiers are ASCII. *)
Definition cmd_ok (env : Env) (k : Worker Conn) (cmd : Cmd.t) : Prop :=
  match cmd with
  | Cmd.Push b _ => ascii (ob_message_id b) ∧ ascii (ob_site_id b) ∧ ascii (ob_device_id b)
  | Cmd.Ack seq _ =>
      let k1 := (check_pending_confirm (en_delivered env) k).1 in
      is_Some (wk_inflight k1 !! seq) ∨ seq ∉ seqs (table k1)
  | _ => True
  end.

Definition pushes (cmd : Cmd.t) : list ObservationBatch :=
  match cmd with Cmd.Push b _ => [b] | _ => [] end.

Definition asked_by (cmd : Cmd.t) (m : gmap nat str) : gmap nat str :=
  match cmd with Cmd.Push b reply => <[reply := ob_message_id b]> m | _ => m end.

(** The world after an iteration that ends in the state [k]; .. *)
Definition turned (x : World) (env : Env) (k : Worker Conn) : World :=
  {| bw_worker := k; bw_running := true; bw_used := bw_used x; bw_asked := bw_asked x;
     bw_pushed := bw_pushed x; bw_acked := bw_acked x;
     bw_due := bw_due x ++ due env (bw_worker x) |}.

(** .. after the command [cmd], with [queued] behind it; .. *)
Definition commanded (x : World) (cmd : Cmd.t) (queued : list Cmd.t) (k : Worker Conn)
    (continue : bool) : World :=
  {| bw_worker := k; bw_running := continue;
     bw_used := list_to_set (reply_of <$> cmd :: queued) ∪ bw_used x;
     bw_asked := asked_by cmd (bw_asked x); bw_pushed := bw_pushed x ++ pushes cmd;
     bw_acked := bw_acked x ++ acked_by cmd (table (bw_worker x)); bw_due := bw_due x |}.

(** .. and after the process ended, in an orderly way or not, and the file was
    opened again. *)
Definition restarted (x : World) (c : Conn) (opened : list MemRecord * Z * Z * Z) : World :=
  {| bw_worker := send (wk_log (bw_worker x)) (worker_start c opened);
     bw_running := true; bw_used := bw_used x; bw_asked := bw_asked x;
     bw_pushed := bw_pushed x; bw_acked := bw_acked x; bw_due := bw_due x |}.

Inductive step : Label.t → World → World → Prop :=
| step_turn x env k progress failed :
    bw_running x = true → top_half config env (bw_worker x) = (k, progress, failed) →
    step (Label.Turn env) x (turned x env k)
| step_cmd x env env' cmd queued k failed k' continue :
    bw_running x = true → top_half config env (bw_worker x) = (k, false, failed) →
    cmd_ok env' k cmd → Forall (λ c, reply_of c ∉ bw_used x) (cmd :: queued) →
    handle_cmd config env' cmd queued k = (k', continue) →
    step (Label.Command env env' cmd) x (commanded (turned x env k) cmd queued k' continue)
| step_restart x schema c c' opened :
    rows c = table (bw_worker x) → high c = high (wk_conn (bw_worker x)) →
    open_db config schema c = (c', Ok opened) →
    step Label.Restart x (restarted x c' opened).

(** The first start, on an empty table. *)
Definition initial (x : World) : Prop :=
  ∃ c schema opened c0, rows c0 = [] ∧ open_db config schema c0 = (c, Ok opened) ∧
    x = mkWorld (worker_start c opened) true ∅ ∅ [] [] [].

Definition reaches (x : World) : Prop := ∃ x0, initial x0 ∧ rtc (λ x x', ∃ lab, step lab x x') x0 x.

(** ** The invariant of runs *)
Record world_ok (x : World) : Prop := {
  wo_inv : inv config (bw_worker x);
  wo_bounded : bounded (wk_pending_push (bw_worker x));
  wo_records : all_records (row_ok (bw_pushed x)) (bw_worker x);
  wo_waits ch m : waits (wk_pending_push (bw_worker x)) ch m → bw_asked x !! ch = Some m;
  wo_stored ch m :
    Reply.Done ch (Ok ()) ∈ wk_log (bw_worker x) → bw_asked x !! ch = Some m →
    m ∈ mids (table (bw_worker x)) ∨ m ∈ mids (bw_acked x) ∨ m ∈ mids (bw_due x);
  wo_used_log ch res : Reply.Done ch res ∈ wk_log (bw_worker x) → ch ∈ bw_used x;
  wo_used_asked ch m : bw_asked x !! ch = Some m → ch ∈ bw_used x;
}.

(** *** Opening *)
Lemma row_ok_cost P r : row_ok P r → sql_row_length FIXED_OVERHEAD_PER_RECORD r = record_cost r.
Proof.
  intros (b & _ & _ & _ & _ & Ht & Hm). unfold sql_row_length, record_cost.
  by rewrite !ascii_byte_len.
Qed.

Lemma sum_list_ext f g l : Forall (λ r, f r = g r) l → sum_list f l = sum_list g l.
Proof. induction 1 as [|r l Hr _ IH]; [done|]. rewrite !sum_list_cons. by rewrite Hr, IH. Qed.

Lemma open_db_spec schema c c' opened :
  open_db config schema c = (c', Ok opened) →
  rows c' = rows c ∧ high c' = high c ∧
  opened = (take (lc_memory_records config) (rows c),
            default 0 (last (seqs (take (lc_memory_records config) (rows c)))),
            sum_list (sql_row_length FIXED_OVERHEAD_PER_RECORD) (rows c),
            default 0 (last (seqs (rows c)))).
Proof.
  unfold open_db. destruct (check_schema schema); [|done..].
  destruct (sql_max_seq c) as [c1 [m|e|]] eqn:E1; [|done..]. apply sql_max_seq_law in E1 as (R1 & H1 & ->).
  destruct (sql_sum_length _ c1) as [c2 [n|e|]] eqn:E2; [|done..].
  apply sql_sum_length_law in E2 as (R2 & H2 & ->).
  destruct (sql_count c2) as [c2' [n|e|]] eqn:E2'; [|done..]. apply sql_count_law in E2' as (R2' & H2' & _).
  destruct (sql_select_first _ c2') as [c3 [l|e|]] eqn:E3; [|done..].
  apply sql_select_first_law in E3 as (R3 & H3 & ->). intros [= <- <-].
  rewrite R3, R2', R2, R1, H3, H2', H2, H1. done.
Qed.

Lemma worker_start_inv schema c c' opened :
  open_db config schema c = (c', Ok opened) →
  Forall (λ r, sql_row_length FIXED_OVERHEAD_PER_RECORD r = record_cost r) (rows c) →
  sum_list record_cost (rows c) ≤ lc_disk_max_bytes config → NoDup (mids (rows c)) → 0 ≤ high c →
  inv config (worker_start c' opened).
Proof.
  intros (Hr & Hh & ->)%open_db_spec Hcost Hcap Hmids Hpos. cbn.
  set (n := lc_memory_records config). pose proof (take_drop n (rows c)) as Htd.
  pose proof (rows_sorted c) as Hs. rewrite <- Htd in Hs. apply sorted_app_inv in Hs as (Hs1 & _ & Hlt).
  assert (∀ w : Worker Conn, wk_mem w = take n (rows c) → wk_inflight w = ∅ →
    loaded w = take n (rows c)) as Hload.
  { intros w Hm Hf. unfold loaded. by rewrite Hm, Hf, map_to_list_empty, app_nil_r. }
  assert (default 0 (last (seqs (take n (rows c)))) ≤ high c) as Hlast.
  { unfold seqs. rewrite fmap_last. destruct (last (take n (rows c))) as [x|] eqn:E; [|done]. cbn.
    apply last_Some_elem_of in E. apply rows_high. rewrite <- Htd. set_solver. }
  split; cbn; rewrite ?Hr, ?Hh; try done.
  - intros r Hin. rewrite <- Htd. set_solver.
  - intros r Hin Hz. rewrite Hload in * by done.
    assert (r ∈ drop n (rows c)) as Hd.
    { rewrite <- Htd in Hin. apply elem_of_app in Hin as [?|?]; [|done]. by destruct Hz; apply elem_of_seqs_2. }
    split; [|intros z (x & Hx & <-)%elem_of_seqs; by apply Hlt].
    unfold seqs. rewrite fmap_last. destruct (last (take n (rows c))) as [x|] eqn:E; cbn.
    + apply last_Some_elem_of in E. by apply Hlt.
    + by apply rows_high in Hin as [? _].
  - unfold held. cbn. rewrite map_size_empty, length_take. lia.
  - by apply sum_list_ext.
  - rewrite (sum_list_ext _ _ _ Hcost). done.
Qed.
(** The limit is a [u64]; the largest one would make the saturating check of
    the capacity always pass. *)
Definition disk_bound : Prop := 0 ≤ lc_disk_max_bytes config < 2 ^ 64 - 1.
Hypothesis Hdisk : disk_bound.

(** *** An iteration *)
Lemma set_load_error_inv e w : inv config w → inv config (set_load_error e w).
Proof. by intros []; split. Qed.

Lemma drops_all P Q l l' : drops P l l' → Forall Q l → Forall Q l'.
Proof.
  intros (ids & -> & _) Hl. rewrite Forall_forall in *. intros r [_ Hr]%list_elem_of_filter. auto.
Qed.

Lemma drops_mono (P Q : MemRecord → Prop) l l' : (∀ r, P r → Q r) → drops P l l' → drops Q l l'.
Proof. intros HPQ (ids & -> & Hp). exists ids. split; [done|]. intros r Hr Hin. by apply HPQ, Hp. Qed.

Lemma top_half_inv env w k p f :
  inv config w → top_half config env w = (k, p, f) →
  inv config k ∧ caught_up config k ∧
  ∃ w1, drops (may_expire env w) (table w) (table w1) ∧ wk_log w1 = wk_log w ∧
    answers (waits (wk_pending_push w)) w1 k ∧
    ∃ w2, table w2 = table w1 ∧ k = (flush_loop config (wk_pending_push w) 0 w2).1.
Proof using Hdisk.
  intros Hi. unfold top_half.
  destruct (check_pending_confirm_inv config (en_delivered env) w Hi) as [Hi0 Hs0].
  unfold may_expire. destruct (check_pending_confirm _ w) as [w0 requeued]. cbn [fst] in *.
  destruct Hs0 as (Hc0 & _ & _ & _ & Hp0 & _ & Hl0 & _).
  destruct (cleanup_expired _ w0) as [w1 cleaned] eqn:Ec.
  destruct (cleanup_expired_inv config _ _ _ _ Hi0 Ec) as (Hi1 & _ & Hl1 & Hp1 & Hd1).
  destruct (match cleaned with Ok _ => _ | _ => _ end) as [progress failed].
  destruct (load_more config w1) as [w2 more] eqn:El.
  destruct (load_more_inv config _ _ _ Hi1 El) as (Hi2 & Hnp & Hl2 & Hp2 & Ht2 & _ & Hmore).
  match goal with |- context [flush_pending_push config ?w] => set (w3 := w) end.
  assert (inv config w3 ∧ caught_up config w3 ∧ table w3 = table w1 ∧ wk_log w3 = wk_log w ∧
    wk_pending_push w3 = wk_pending_push w) as (Hi3 & Hk3 & Ht3 & Hl3 & Hp3).
  { unfold w3. destruct more as [[]|e|]; [| | |done]; (split_and!;
      [try apply set_load_error_inv; done| |cbn; congruence..]).
    - intros _ Hh. by apply Hmore.
    - intros _ Hh. lia.
    - done. }
  unfold flush_pending_push. rewrite Hp3. pose proof (flush_loop_inv config (proj2 Hdisk) (wk_pending_push w) 0 w3 Hi3 Hk3) as Hf.
  destruct (flush_loop config (wk_pending_push w) 0 w3) as [k0 n] eqn:Ef. cbn in Hf.
  intros [= <- _ _]. destruct Hf as (Hi4 & Hk4 & Ha). split_and!; [done..|].
  exists w1. rewrite <- Hc0. split_and!; [|congruence| |].
  - eapply drops_mono; [|exact Hd1]. intros r [Hr Hcr]. split; [done|]. by apply Hi0.
  - unfold answers in *. rewrite Ht3, Hl3 in Ha. by rewrite Hl1, Hl0.
  - exists w3. split; [done|]. by rewrite Ef.
Qed.

Lemma top_half_records Q env w k p f :
  stable Q → inv config w → all_records Q w → bounded (wk_pending_push w) →
  top_half config env w = (k, p, f) → all_records Q k ∧ bounded (wk_pending_push k).
Proof using Hdisk.
  intros Hst Hi [Ht Hp] Hb Htop.
  destruct (top_half_inv env w k p f Hi Htop) as (_ & _ & w1 & Hd & _ & _ & w2 & Ht2 & ->). split.
  - apply flush_loop_records; [done..|]. rewrite Ht2. by eapply drops_all.
  - destruct (flush_loop_suffix (wk_pending_push w) 0 w2) as [l Hl]. eapply bounded_suffix. by rewrite <- Hl.
Qed.
(** *** A command *)
Definition cmd_asks (cmd : Cmd.t) (ch : nat) (m : str) : Prop :=
  match cmd with Cmd.Push b reply => ch = reply ∧ m = ob_message_id b | _ => False end.

(** What a command adds to the log, and who waits after it. *)
Definition cmd_effect (cmd : Cmd.t) (queued : list Cmd.t) w w' : Prop :=
  ∃ ev, wk_log w' = wk_log w ++ ev ∧
    (∀ ch res, Reply.Done ch res ∈ ev →
       (∃ m, (waits (wk_pending_push w) ch m ∨ cmd_asks cmd ch m) ∧
             (res = Ok () → m ∈ mids (table w'))) ∨
       (pushes cmd = [] ∧ ch ∈ reply_of <$> cmd :: queued)) ∧
    (∀ ch m, waits (wk_pending_push w') ch m → waits (wk_pending_push w) ch m ∨ cmd_asks cmd ch m).

Lemma prune_waits closed w ch m :
  waits (wk_pending_push (prune_cancelled_waiters closed w)) ch m → waits (wk_pending_push w) ch m.
Proof.
  intros (p & [_ (q & -> & Hq)%list_elem_of_fmap]%list_elem_of_filter & Hch & <-). exists q.
  cbn in *. apply list_elem_of_filter in Hch as [_ ?]. done.
Qed.

Lemma push_effect env b reply queued w w0 :
  inv config w0 → caught_up config w0 → wk_log w0 = wk_log w →
  wk_pending_push w0 = wk_pending_push w →
  let w' := push_inner config (en_now2 env) b reply (prune_cancelled_waiters (en_closed env) w0) in
  inv config w' ∧ cmd_effect (Cmd.Push b reply) queued w w' ∧
  ∃ new, table w' = table w0 ++ new.
Proof using Hdisk.
  intros Hi Hk Hl Hp.
  destruct (push_inner_inv config (proj2 Hdisk) (en_now2 env) b reply (prune_cancelled_waiters (en_closed env) w0))
    as (Hi' & _ & Hnew & ev & Hlog & Hev & Hw & _); [by apply set_pending_inv|done|].
  split_and!; [done| |exact Hnew]. exists ev. split_and!; [by rewrite <- Hl|..].
  - intros ch res Hin. left. destruct (Hev ch res Hin) as (m & [Hm|Hm] & ?); exists m; (split; [|done]);
      [left|by right]. rewrite <- Hp. by eapply prune_waits.
  - intros ch m Hwt. destruct (Hw ch m Hwt) as [Hm|Hm]; [left|by right]. rewrite <- Hp. by eapply prune_waits.
Qed.

(** A command that answers its own caller only. *)
Lemma reply_effect cmd queued res w w' :
  pushes cmd = [] → wk_log w' = wk_log w ++ [Reply.Done (reply_of cmd) res] →
  wk_pending_push w' = wk_pending_push w → cmd_effect cmd queued w w'.
Proof.
  intros Hc Hl Hp. eexists. split; [done|]. split.
  - intros ch r Hin. apply list_elem_of_singleton in Hin as [= -> ->]. right. split; [done|]. by left.
  - intros ch m. rewrite Hp. auto.
Qed.

Lemma quiet_effect cmd queued ev w w' :
  (∀ ch res, Reply.Done ch res ∉ ev) → wk_log w' = wk_log w ++ ev →
  wk_pending_push w' = wk_pending_push w → cmd_effect cmd queued w w'.
Proof.
  intros Hev Hl Hp. exists ev. split; [done|]. split; [|intros ch m; rewrite Hp; auto].
  intros ch r Hin. by apply Hev in Hin.
Qed.

Lemma handle_requeue_frame seq w :
  wk_log (handle_requeue seq w) = wk_log w ∧ wk_pending_push (handle_requeue seq w) = wk_pending_push w ∧
  wk_conn (handle_requeue seq w) = wk_conn w.
Proof. pose proof (handle_requeue_same seq w) as (? & _ & _ & _ & ? & _ & ? & _). done. Qed.

Lemma shutdown_effect reply queued w w0 :
  wk_log w0 = wk_log w → wk_pending_push w0 = wk_pending_push w →
  cmd_effect (Cmd.Shutdown reply) queued w (handle_shutdown reply queued w0).
Proof.
  intros Hl Hp. eexists. split; [cbn; by rewrite Hl, <- app_assoc|]. split; [|by intros ? ? []%waits_nil].
  intros ch res [Hin|Hin]%elem_of_app.
  - left. apply list_elem_of_In, in_concat in Hin as (evs & Hevs & Hin).
    apply list_elem_of_In, list_elem_of_fmap in Hevs as (p & -> & Hp').
    apply list_elem_of_In, elem_of_send_all in Hin as [Hch ->].
    exists (mr_message_id (pd_record p)). split; [|done]. left. rewrite <- Hp. by exists p.
  - right. split; [done|]. apply list_elem_of_fmap in Hin as (c & Heq & Hc).
    apply list_elem_of_fmap. exists c. split; [by destruct c; simplify_eq/=|].
    rewrite elem_of_app, list_elem_of_singleton in Hc. rewrite elem_of_cons. tauto.
Qed.

(** How a command changes the table. *)
Definition cmd_table (cmd : Cmd.t) w w' : Prop :=
  match cmd with
  | Cmd.Push _ _ => ∃ new, table w' = table w ++ new
  | Cmd.Next _ _ => ∃ n z, table w' = table w ∨ table w' = bump n z <$> table w
  | Cmd.Ack seq _ => drops (λ r, mr_local_seq r = seq) (table w) (table w')
  | _ => table w' = table w
  end.

Lemma handle_cmd_inv env cmd queued k k' continue :
  inv config k → caught_up config k → cmd_ok env k cmd →
  handle_cmd config env cmd queued k = (k', continue) →
  inv config k' ∧ cmd_effect cmd queued k k' ∧ cmd_table cmd k k'.
Proof using Hdisk.
  intros Hi Hk Hc. unfold handle_cmd, cmd_ok in *.
  destruct (check_pending_confirm_inv config (en_delivered env) k Hi) as [Hi0 Hs0].
  revert Hc. destruct (check_pending_confirm _ k) as [w0 req]. cbn [fst] in *. intros Hc.
  pose proof (caught_up_same config _ _ Hs0 Hk) as Hk0. destruct Hs0 as (Hc0 & _ & _ & _ & Hp0 & _ & Hl0 & _).
  destruct cmd as [b reply|reply delivered|seq reply|seq reply|reply].
  - intros [= <- _]. destruct (push_effect env b reply queued k w0 Hi0 Hk0 Hl0 Hp0) as (? & ? & ?).
    split_and!; [done..|]. cbn. by rewrite <- Hc0.
  - destruct (handle_next w0) as [w1 res] eqn:En.
    destruct (handle_next_inv config _ _ _ Hi0 En) as (Hi1 & Hnp & Hl1 & Hp1 & Ht1).
    assert (∀ w2, wk_log w2 = wk_log w1 ++ [Reply.Next reply res] → wk_pending_push w2 = wk_pending_push w1 →
      cmd_effect (Cmd.Next reply delivered) queued k w2) as Heff.
    { intros w2 Hl Hp. eapply (quiet_effect _ _ [Reply.Next reply res]); [|congruence..].
      intros ch r Hin. by apply list_elem_of_singleton in Hin. }
    destruct res as [[stored|]|e|]; [case_if| | |done]; intros [= <- _]; cbn; rewrite <- Hc0.
    + destruct (handle_requeue_frame (sb_local_seq stored) (send [Reply.Next reply (Ok (Some stored))] w1)) as (E1 & E2 & E3).
      split_and!; [by apply handle_requeue_inv, send_inv|by apply Heff|]. rewrite E3. done.
    + split_and!; [by destruct Hi1|by apply Heff|done].
    + split_and!; [by apply send_inv|by apply Heff|done].
    + split_and!; [by apply send_inv|by apply Heff|done].
  - destruct (handle_ack seq w0) as [w1 res] eqn:Ea. intros [= <- _].
    destruct (handle_ack_inv config _ _ _ _ Hi0 Hc Ea) as (Hi1 & Hnp & Hl1 & Hp1 & Ht1).
    split_and!; [by apply send_inv| |cbn; by rewrite <- Hc0].
    apply (reply_effect _ _ res); cbn; congruence.
  - intros [= <- _]. destruct (handle_requeue_frame seq w0) as (E1 & E2 & E3).
    split_and!; [by apply send_inv, handle_requeue_inv| |cbn; by rewrite E3, Hc0].
    apply (reply_effect _ _ (Ok ())); cbn; congruence.
  - intros [= <- _]. split_and!; [by destruct Hi0|by apply shutdown_effect|cbn; by rewrite Hc0].
Qed.

Lemma prune_records Q closed w :
  all_records Q w → all_records Q (prune_cancelled_waiters closed w).
Proof.
  intros [Ht Hp]. split; [done|]. apply Forall_forall.
  intros r (p & -> & [_ (q & -> & Hq)%list_elem_of_fmap]%list_elem_of_filter)%list_elem_of_fmap.
  apply (proj1 (Forall_forall _ _) Hp). apply list_elem_of_fmap. by exists q.
Qed.

Lemma cmd_table_records Q cmd w w' :
  stable Q → pushes cmd = [] → cmd_table cmd w w' → Forall Q (table w) → Forall Q (table w').
Proof.
  intros Hst Hc Htab Hq. destruct cmd; cbn in Htab; [done| | |by rewrite Htab..].
  - destruct Htab as (n & z & [->| ->]); [done|]. apply Forall_fmap, (Forall_impl _ _ _ Hq).
    intros r. cbn. unfold bump. case_bool_decide; [by apply Hst|done].
  - by eapply drops_all.
Qed.

Lemma handle_cmd_records Q env cmd queued k k' continue :
  stable Q → inv config k → caught_up config k → cmd_ok env k cmd → all_records Q k →
  bounded (wk_pending_push k) →
  (∀ b reply r, cmd = Cmd.Push b reply → to_vec b = Some (mr_payload r) →
     mr_message_id r = ob_message_id b → telemetry_topic b = Ok (mr_topic r) → Q r) →
  handle_cmd config env cmd queued k = (k', continue) →
  all_records Q k' ∧ bounded (wk_pending_push k').
Proof using Hdisk.
  intros Hst Hi Hk Hc [Ht Hp] Hb Hq Hh.
  destruct (handle_cmd_inv _ _ _ _ _ _ Hi Hk Hc Hh) as (_ & _ & Htab). revert Hh Hc. unfold handle_cmd, cmd_ok.
  destruct (check_pending_confirm_inv config (en_delivered env) k Hi) as [Hi0 Hs0].
  destruct (check_pending_confirm _ k) as [w0 req]. cbn [fst] in *.
  destruct Hs0 as (Hc0 & _ & _ & _ & Hp0 & _ & _ & _).
  assert (wk_pending_push k' = wk_pending_push k ∨ wk_pending_push k' = [] → pushes cmd = [] →
    all_records Q k' ∧ bounded (wk_pending_push k')) as Hquiet.
  { intros Hp' Hnp. split; [split; [by eapply cmd_table_records|]|]; destruct Hp' as [->| ->]; try done.
    split; [cbn; lia|done]. }
  destruct cmd as [b reply|reply delivered|seq reply|seq reply|reply].
  - intros [= <- _] _. split.
    + apply push_inner_records; [done| |by eauto]. apply prune_records. split; cbn; by rewrite ?Hc0, ?Hp0.
    + apply push_inner_bounded, prune_bounded. by rewrite Hp0.
  - destruct (handle_next w0) as [w1 res] eqn:En.
    destruct (handle_next_inv config _ _ _ Hi0 En) as (_ & _ & _ & Hp1 & _). intros Hh _.
    apply Hquiet; [left|done]. rewrite <- Hp0, <- Hp1. revert Hh.
    destruct res as [[stored|]|e|]; [case_if|..]; intros [= <- _]; try done.
    by destruct (handle_requeue_frame (sb_local_seq stored) (send [Reply.Next reply (Ok (Some stored))] w1)) as (_ & -> & _).
  - destruct (handle_ack seq w0) as [w1 res] eqn:Ea. intros [= <- _] Hc.
    destruct (handle_ack_inv config _ _ _ _ Hi0 Hc Ea) as (_ & _ & _ & Hp1 & _).
    apply Hquiet; [left; cbn; congruence|done].
  - intros [= <- _] _. destruct (handle_requeue_frame seq w0) as (_ & E2 & _).
    apply Hquiet; [left; cbn; congruence|done].
  - intros [= <- _] _. apply Hquiet; [by right|done].
Qed.

(** *** The steps preserve the invariant *)
Lemma row_ok_mono P P' r : (∀ b, b ∈ P → b ∈ P') → row_ok P r → row_ok P' r.
Proof. intros Hp (b & Hb & ?). exists b. split; [by apply Hp|done]. Qed.

Lemma all_records_mono P P' w :
  (∀ b, b ∈ P → b ∈ P') → all_records (row_ok P) w → all_records (row_ok P') w.
Proof. intros Hp [? ?]. split; (eapply Forall_impl; [eassumption|]); intros r; by apply row_ok_mono. Qed.

Lemma pushed_row_ok P b r :
  b ∈ P → ascii (ob_message_id b) → ascii (ob_site_id b) → ascii (ob_device_id b) →
  to_vec b = Some (mr_payload r) → mr_message_id r = ob_message_id b →
  telemetry_topic b = Ok (mr_topic r) → row_ok P r.
Proof.
  intros Hb Hm Hs Hd Hv He Ht. exists b. split_and!; try done; [|by rewrite He].
  unfold telemetry_topic in Ht. repeat case_if; try done.
  injection Ht as <-. repeat (constructor; [done|]).
  apply Forall_app. split; [done|]. by constructor.
Qed.

Lemma mids_app l k m : m ∈ mids (l ++ k) ↔ m ∈ mids l ∨ m ∈ mids k.
Proof. unfold mids. by rewrite fmap_app, elem_of_app. Qed.

(** A message that is no longer stored was carried by a record that could go. *)
Lemma mids_drops P l l' m :
  drops P l l' → m ∈ mids l → m ∈ mids l' ∨ ∃ r, r ∈ l ∧ P r ∧ mr_message_id r = m.
Proof.
  intros (ids & -> & Hp) (r & -> & Hr)%list_elem_of_fmap.
  destruct (decide (mr_local_seq r ∈ ids)) as [Hin|Hn]; [right; exists r; auto|left].
  apply list_elem_of_fmap. exists r. split; [done|]. by apply list_elem_of_filter.
Qed.

Lemma cmd_table_mids cmd w w' m :
  cmd_table cmd w w' → m ∈ mids (table w) → m ∈ mids (table w') ∨ m ∈ mids (acked_by cmd (table w)).
Proof.
  intros Htab Hm. destruct cmd as [b reply|reply delivered|seq reply|seq reply|reply]; cbn in Htab;
    [| | |by left; rewrite Htab..].
  - left. destruct Htab as [new ->]. apply mids_app. by left.
  - left. destruct Htab as (n & z & [->| ->]); [done|]. unfold mids. rewrite <- list_fmap_compose.
    rewrite (list_fmap_ext _ mr_message_id); [done|]. intros _ r _. cbn. unfold bump. by case_bool_decide.
  - destruct (mids_drops _ _ _ m Htab Hm) as [|(r & Hr & Hseq & <-)]; [by left|right].
    apply list_elem_of_fmap. exists r. split; [done|]. by apply list_elem_of_filter.
Qed.

Lemma turn_ok x env k p f :
  world_ok x → top_half config env (bw_worker x) = (k, p, f) →
  world_ok (turned x env k) ∧ caught_up config k.
Proof using Hdisk.
  intros Hx Htop. pose proof (wo_inv _ Hx) as Hi.
  destruct (top_half_inv _ _ _ _ _ Hi Htop) as (Hi' & Hk & w1 & Hd & Hl & ((new & Hnew) & ev & Hlog & Hev & Hw & _) & _).
  destruct (top_half_records _ _ _ _ _ _ (row_ok_stable (bw_pushed x)) Hi (wo_records _ Hx)
    (wo_bounded _ Hx) Htop) as [Hr Hb].
  rewrite Hl in Hlog. split; [|done]. split; cbn; try done.
  - intros ch m Hwt. apply (wo_waits _ Hx). by apply Hw.
  - intros ch m. rewrite Hlog, !mids_app. intros [Hin|Hin]%elem_of_app Ha.
    + destruct (wo_stored _ Hx ch m Hin Ha) as [Hm|]; [|tauto].
      destruct (mids_drops _ _ _ m Hd Hm) as [Hm1|(r & Hr1 & Hexp & <-)].
      * left. rewrite Hnew, mids_app. by left.
      * do 3 right. apply list_elem_of_fmap. exists r. split; [done|]. by apply list_elem_of_filter.
    + destruct (Hev _ _ Hin) as (m' & Hwt & Hst). apply (wo_waits _ Hx) in Hwt. left.
      simplify_eq. by apply Hst.
  - intros ch res. rewrite Hlog. intros [Hin|Hin]%elem_of_app; [by apply (wo_used_log _ Hx ch res)|].
    destruct (Hev _ _ Hin) as (m' & Hwt & _). eapply (wo_used_asked _ Hx), (wo_waits _ Hx), Hwt.
  - apply (wo_used_asked _ Hx).
Qed.

(** A fresh channel does not hide an earlier request. *)
Lemma asked_by_old cmd (asked : gmap nat str) (used : gset nat) ch m :
  (∀ ch m, asked !! ch = Some m → ch ∈ used) → reply_of cmd ∉ used →
  asked !! ch = Some m ∨ cmd_asks cmd ch m → asked_by cmd asked !! ch = Some m.
Proof.
  intros Hu Hf [Ha|Ha]; destruct cmd; cbn in *; try done.
  - rewrite lookup_insert_ne; [done|]. intros ->. by apply Hu in Ha.
  - destruct Ha as [-> ->]. by rewrite lookup_insert_eq.
Qed.

Lemma asked_by_used cmd (asked : gmap nat str) (used : gset nat) ch m :
  ch ∈ used → reply_of cmd ∉ used → asked_by cmd asked !! ch = Some m → asked !! ch = Some m.
Proof.
  intros Hch Hf. destruct cmd; cbn in *; try done. rewrite lookup_insert_ne; [done|]. by intros ->.
Qed.

Lemma commanded_ok x env cmd queued k continue :
  world_ok x → caught_up config (bw_worker x) → cmd_ok env (bw_worker x) cmd →
  Forall (λ c, reply_of c ∉ bw_used x) (cmd :: queued) →
  handle_cmd config env cmd queued (bw_worker x) = (k, continue) →
  world_ok (commanded x cmd queued k continue).
Proof using Hdisk.
  intros Hx Hk Hc Hf Hh. pose proof (wo_inv _ Hx) as Hi.
  destruct (handle_cmd_inv _ _ _ _ _ _ Hi Hk Hc Hh) as (Hi' & (ev & Hlog & Hev & Hw) & Htab).
  pose proof (Forall_inv Hf) as Hfresh. pose proof (wo_used_asked _ Hx) as Hua.
  assert (∀ b, b ∈ bw_pushed x → b ∈ bw_pushed x ++ pushes cmd) as Hsub by set_solver.
  destruct (handle_cmd_records (row_ok (bw_pushed x ++ pushes cmd)) env cmd queued (bw_worker x) k continue)
    as [Hr Hb]; [apply row_ok_stable|done..|by eapply all_records_mono, Hx|apply Hx| |done|].
  { intros b reply r -> Hv Hm Ht. cbn in Hc. destruct_and!. eapply pushed_row_ok; set_solver. }
  pose proof (λ ch m, asked_by_old cmd _ _ ch m Hua Hfresh) as Hold.
  assert (∀ ch m, waits (wk_pending_push (bw_worker x)) ch m ∨ cmd_asks cmd ch m →
    asked_by cmd (bw_asked x) !! ch = Some m) as Hasks.
  { intros ch m [Hm|Hm]; apply Hold; [left; by apply Hx|by right]. }
  split; cbn; try done.
  - intros ch m Hwt. by apply Hasks, Hw.
  - intros ch m. rewrite Hlog, !mids_app. intros [Hin|Hin]%elem_of_app Ha.
    + apply (asked_by_used _ _ (bw_used x)) in Ha; [|by eapply (wo_used_log _ Hx)|done].
      destruct (wo_stored _ Hx ch m Hin Ha) as [Hm|]; [|tauto].
      destruct (cmd_table_mids _ _ _ m Htab Hm); tauto.
    + destruct (Hev _ _ Hin) as [(m' & Hm' & Hst)|[Hnp Hch]].
      * apply Hasks in Hm'. simplify_eq. left. by apply Hst.
      * replace (asked_by cmd (bw_asked x)) with (bw_asked x) in Ha by (by destruct cmd).
        apply Hua in Ha. apply list_elem_of_fmap in Hch as (c & -> & Hc').
        rewrite Forall_forall in Hf. by apply Hf in Hc'.
  - intros ch res. rewrite Hlog. intros [Hin|Hin]%elem_of_app; [apply (wo_used_log _ Hx) in Hin; set_solver|].
    destruct (Hev _ _ Hin) as [(m' & Hm' & _)|[_ Hch]]; [|set_solver].
    destruct Hm' as [Hm'|Hm']; [apply (wo_waits _ Hx), Hua in Hm'; set_solver|].
    destruct cmd; cbn in *; try done. destruct Hm' as [-> _]. set_solver.
  - intros ch m. destruct cmd; cbn; try (intros ?%Hua; set_solver).
    intros [[-> _]|[_ ?%Hua]]%lookup_insert_Some; set_solver.
Qed.

Lemma restart_ok x schema c c' opened :
  world_ok x → rows c = table (bw_worker x) → high c = high (wk_conn (bw_worker x)) →
  open_db config schema c = (c', Ok opened) →
  world_ok (restarted x c' opened).
Proof.
  intros Hx Hr Hh Hopen. pose proof (wo_inv _ Hx) as Hi. destruct (wo_records _ Hx) as [Hrec _].
  assert (inv config (worker_start c' opened)) as Hi'.
  { eapply worker_start_inv; [exact Hopen|..]; rewrite ?Hr, ?Hh.
    - eapply Forall_impl; [exact Hrec|]. intros r. apply row_ok_cost.
    - rewrite <- (iv_bytes _ _ Hi). apply Hi.
    - apply Hi.
    - apply high_nonneg. }
  apply open_db_spec in Hopen as (Hr' & Hh' & ->).
  split; cbn; try done.
  - by apply send_inv.
  - split; [cbn; lia|done].
  - split; [cbn; by rewrite Hr', Hr|done].
  - by intros ? ? []%waits_nil.
  - rewrite Hr', Hr. apply Hx.
  - apply Hx.
  - apply Hx.
Qed.

Lemma initial_ok x : initial x → world_ok x.
Proof using Hdisk.
  intros (c & schema & opened & c0 & Hr & Hopen & ->).
  assert (inv config (worker_start c opened)) as Hi.
  { eapply worker_start_inv; [exact Hopen|..]; rewrite ?Hr; [constructor| |constructor|apply high_nonneg].
    apply Hdisk. }
  apply open_db_spec in Hopen as (Hr' & _ & ->).
  split; cbn; try done.
  - split; [cbn; lia|done].
  - split; [cbn; by rewrite Hr', Hr|done].
  - by intros ? ? []%waits_nil.
  - set_solver.
Qed.

Lemma buffer_step_ok lab x x' : world_ok x → step lab x x' → world_ok x'.
Proof using Hdisk.
  intros Hx. destruct 1 as [? ? ? ? ? _ Htop|? ? ? ? ? ? ? ? ? _ Htop Hc Hf Hh|].
  - by eapply turn_ok.
  - destruct (turn_ok _ _ _ _ _ Hx Htop) as [Ht Hk]. eapply commanded_ok; [done|exact Hk|done..].
  - by eapply restart_ok.
Qed.

Lemma buffer_reaches_ok x : reaches x → world_ok x.
Proof using Hdisk.
  intros (x0 & Hinit%initial_ok & Hrun). induction Hrun as [|x y z [lab Hstep] _ IH]; [done|].
  by eapply IH, buffer_step_ok.
Qed.
End world.
