(* ===== verification/LocalBufferSpec.v ===== *)
(** * What the store-and-forward buffer promises

    The buffer is a queue of records: a record enters at the end, once per
    message, and leaves when it was acknowledged or has expired.  Every run of
    the worker, with failing statements and restarts, is a run of that queue;
    a caller that was told its batch is stored can rely on it; the worker
    hands out the oldest record that is not in flight; and its memory and its
    file stay within the configured limits. *)

From S2P Require Import Prelude RustStd ObservationModel DataPipeline LocalBuffer LocalBufferLaws LocalBufferWorld.
From stdpp Require Import options.

#[local] Set Default Proof Using "Type".
#[local] Arguments loaded : simpl never.
#[local] Arguments sum_list : simpl never.

(** ** The abstract queue *)
Module QEvent.
Inductive t : Type := Persist (r : MemRecord) | Expire (r : MemRecord) | Ack (seq : Z).
End QEvent.

Inductive queue_step (allowed : QEvent.t → Prop) : list MemRecord → list MemRecord → Prop :=
| queue_persist q r :
    allowed (QEvent.Persist r) → (∀ x, x ∈ q → mr_local_seq x < mr_local_seq r) →
    (mr_message_id r ∉ mids q) → queue_step allowed q (q ++ [r])
| queue_expire q r :
    allowed (QEvent.Expire r) → r ∈ q →
    queue_step allowed q (filter (λ x, mr_local_seq x ≠ mr_local_seq r) q)
| queue_ack q seq :
    allowed (QEvent.Ack seq) → seq ∈ seqs q →
    queue_step allowed q (filter (λ x, mr_local_seq x ≠ seq) q).

(** The counter of hand-outs is not part of the queue. *)
Definition unsent (l : list MemRecord) : list MemRecord := with_sent 0 <$> l.

Lemma unsent_filter (ids : list Z) l :
  unsent (filter (λ r, mr_local_seq r ∉ ids) l) = filter (λ r, mr_local_seq r ∉ ids) (unsent l).
Proof.
  induction l as [|r l IH]; [done|]. change (unsent (r :: l)) with (with_sent 0 r :: unsent l).
  rewrite !filter_cons, <- IH. change (mr_local_seq (with_sent 0 r)) with (mr_local_seq r).
  by case_decide.
Qed.

Lemma unsent_bump n z l : unsent (bump n z <$> l) = unsent l.
Proof.
  unfold unsent. rewrite <- list_fmap_compose. apply list_fmap_ext. intros _ r _. cbn.
  unfold bump. by case_bool_decide.
Qed.

Lemma seqs_unsent l : seqs (unsent l) = seqs l.
Proof. unfold seqs, unsent. by rewrite <- list_fmap_compose. Qed.

Lemma mids_unsent l : mids (unsent l) = mids l.
Proof. unfold mids, unsent. by rewrite <- list_fmap_compose. Qed.

Lemma filter_not_in_cons (a : Z) ids (l : list MemRecord) :
  filter (λ r, mr_local_seq r ∉ a :: ids) l =
  filter (λ r, mr_local_seq r ≠ a) (filter (λ r, mr_local_seq r ∉ ids) l).
Proof. rewrite list_filter_filter. apply list_filter_iff. intros r. set_solver. Qed.

Section queue.
Context (allowed : QEvent.t → Prop).
Abbreviation run := (rtc (queue_step allowed)).

(** Removing records one after the other. *)
Lemma run_filter (ids : list Z) l :
  (∀ r, r ∈ l → mr_local_seq r ∈ ids →
     allowed (QEvent.Expire r) ∨ allowed (QEvent.Ack (mr_local_seq r))) →
  run l (filter (λ r, mr_local_seq r ∉ ids) l).
Proof.
  induction ids as [|a ids IH]; intros Hall.
  { rewrite filter_all; [done|]. apply Forall_forall. set_solver. }
  etransitivity; [apply IH; set_solver|]. rewrite filter_not_in_cons.
  set (q := filter _ l). destruct (decide (a ∈ seqs q)) as [Ha|Ha].
  - apply rtc_once. pose proof Ha as (r & Hr & <-)%elem_of_seqs.
    destruct (Hall r) as [He|He]; [|set_solver|by apply queue_expire|by apply queue_ack].
    by apply list_elem_of_filter in Hr as [_ ?].
  - rewrite filter_all; [done|]. apply Forall_forall. intros r Hr Heq. apply Ha. rewrite <- Heq. by apply elem_of_seqs_2.
Qed.

(** Records that enter one after the other. *)
Lemma run_append l new :
  StronglySorted seq_lt (l ++ new) → NoDup (mids (l ++ new)) →
  Forall (λ r, allowed (QEvent.Persist r)) new → run l (l ++ new).
Proof.
  induction new as [|r new IH] using rev_ind; [by rewrite app_nil_r|].
  rewrite app_assoc. unfold mids. rewrite fmap_app.
  intros (Hs & _ & Hlt)%sorted_app_inv (Hd & Hdisj & _)%NoDup_app [Hn Hr%Forall_inv]%Forall_app.
  etransitivity; [by apply IH|]. apply rtc_once, queue_persist; [done| |].
  - intros x Hx. apply Hlt; set_solver.
  - intros Hin. by apply (Hdisj _ Hin), list_elem_of_here.
Qed.
End queue.

Lemma run_mono (P Q : QEvent.t → Prop) q q' :
  (∀ e, P e → Q e) → rtc (queue_step P) q q' → rtc (queue_step Q) q q'.
Proof.
  intros HPQ. apply rtc_congruence with (f := id). intros x y [??|??|??].
  - by apply queue_persist; [apply HPQ|..].
  - by apply queue_expire; [apply HPQ|..].
  - by apply queue_ack; [apply HPQ|..].
Qed.

(** ** Characters and bytes *)
Lemma utf8_len_char c : 1 ≤ Z.of_nat (length (utf8_encode_char c)) ∧
  (128 ≤ c → 2 ≤ Z.of_nat (length (utf8_encode_char c))).
Proof. unfold utf8_encode_char. repeat case_if; cbn; lia. Qed.

Lemma sql_text_length_le s :
  sql_text_length s ≤ byte_len s ∧ (Exists (λ c, 128 ≤ c) s → sql_text_length s < byte_len s).
Proof.
  induction s as [|c s [IH IH']]; [split; [done|by intros ?%Exists_nil]|].
  rewrite byte_len_cons. destruct (utf8_len_char c) as [H1 H2]. pose proof (byte_len_nonneg s).
  cbn [sql_text_length]. split; [case_if; lia|].
  intros [Hc|Hs]%Exists_cons; case_if; try lia. specialize (IH' Hs). lia.
Qed.

Definition non_ascii (r : MemRecord) : Prop :=
  Exists (λ c, 128 ≤ c) (mr_topic r) ∨ Exists (λ c, 128 ≤ c) (mr_message_id r).

Lemma sql_row_length_le r :
  sql_row_length FIXED_OVERHEAD_PER_RECORD r ≤ record_cost r ∧
  (non_ascii r → sql_row_length FIXED_OVERHEAD_PER_RECORD r < record_cost r).
Proof.
  unfold sql_row_length, record_cost, non_ascii.
  destruct (sql_text_length_le (mr_topic r)) as [? Ht], (sql_text_length_le (mr_message_id r)) as [? Hm].
  split; [lia|]. intros [He|He]; [apply Ht in He|apply Hm in He]; lia.
Qed.

Lemma sum_row_length_lt l :
  Exists non_ascii l → sum_list (sql_row_length FIXED_OVERHEAD_PER_RECORD) l < sum_list record_cost l.
Proof.
  assert (∀ l, sum_list (sql_row_length FIXED_OVERHEAD_PER_RECORD) l ≤ sum_list record_cost l) as Hle.
  { induction l0 as [|r k IH]; [done|]. rewrite !sum_list_cons. pose proof (sql_row_length_le r). lia. }
  induction 1 as [r k Hr|r k _ IH]; rewrite !sum_list_cons; pose proof (sql_row_length_le r);
    pose proof (Hle k); [|lia]. destruct (sql_row_length_le r) as [_ Hlt]. specialize (Hlt Hr). lia.
Qed.

Section promises.
Context {Conn : Type} `{!BatchTable Conn} `{!BatchTableLaws Conn} `{!BatchCodec}.
Context (config : LocalBufferConfig).
Implicit Types (w : Worker Conn) (x : World (Conn := Conn)).

Abbreviation table w := (rows (wk_conn w)).

Definition queue_of x : list MemRecord := unsent (table (bw_worker x)).

(** What may happen to the queue in a step: a batch of a client enters; what
    is older than the retention time and not in flight leaves; the record a
    client acknowledges leaves; a restart changes nothing. *)
Definition permitted (lab : Label.t) x x' (ev : QEvent.t) : Prop :=
  match ev, lab with
  | QEvent.Persist r, (Label.Turn _ | Label.Command _ _ _) => row_ok (bw_pushed x') r
  | QEvent.Expire r, (Label.Turn env | Label.Command env _ _) => may_expire config env (bw_worker x) r
  | QEvent.Ack seq, Label.Command _ _ (Cmd.Ack seq' _) => seq = seq'
  | _, _ => False
  end.

Lemma run_drops (allowed : QEvent.t → Prop) P l l' :
  drops P l l' →
  (∀ r, r ∈ l → P r → allowed (QEvent.Expire (with_sent 0 r)) ∨ allowed (QEvent.Ack (mr_local_seq r))) →
  rtc (queue_step allowed) (unsent l) (unsent l').
Proof.
  intros (ids & -> & Hp) Hall. rewrite unsent_filter. apply run_filter.
  intros r (r' & -> & Hr')%list_elem_of_fmap Hin. by apply (Hall r'), Hp.
Qed.

Lemma run_grows (allowed : QEvent.t → Prop) P c l new :
  NoDup (mids (rows c)) → Forall (row_ok P) (rows c) → rows c = l ++ new →
  (∀ r, row_ok P r → allowed (QEvent.Persist r)) →
  rtc (queue_step allowed) (unsent l) (unsent (rows c)).
Proof.
  intros Hd Hr Heq Hall. pose proof (rows_sorted c) as Hs. rewrite Heq in *. unfold unsent at 2.
  rewrite fmap_app. apply Forall_app in Hr as [_ Hr]. apply run_append.
  - rewrite <- fmap_app. by apply sorted_map.
  - rewrite <- fmap_app. fold (unsent (l ++ new)). by rewrite mids_unsent.
  - apply Forall_fmap, (Forall_impl _ _ _ Hr). intros r Hrow. apply Hall.
    by eapply row_ok_stable, Hrow.
Qed.

Hypothesis Hdisk : disk_bound config.

Lemma turn_run (allowed : QEvent.t → Prop) x env k p f :
  world_ok config x → top_half config env (bw_worker x) = (k, p, f) →
  (∀ r, row_ok (bw_pushed x) r → allowed (QEvent.Persist r)) →
  (∀ r, may_expire config env (bw_worker x) r → allowed (QEvent.Expire r)) →
  rtc (queue_step allowed) (queue_of x) (unsent (table k)).
Proof using Hdisk.
  intros Hx Htop Hpers Hexp. destruct (turn_ok config Hdisk _ _ _ _ _ Hx Htop) as [Hx' _].
  destruct (top_half_inv config Hdisk _ _ _ _ _ (wo_inv _ _ Hx) Htop)
    as (_ & _ & w1 & Hd & _ & ((new & Hnew) & _) & _).
  transitivity (unsent (table w1)).
  - eapply run_drops; [exact Hd|]. intros r _ Hr. left. by apply Hexp.
  - eapply run_grows; [apply Hx'|apply (wo_records _ _ Hx')|exact Hnew|done].
Qed.

Lemma cmd_run (allowed : QEvent.t → Prop) P cmd w w' :
  NoDup (mids (table w')) → Forall (row_ok P) (table w') → cmd_table cmd w w' →
  (∀ r, row_ok P r → allowed (QEvent.Persist r)) →
  (∀ seq reply, cmd = Cmd.Ack seq reply → allowed (QEvent.Ack seq)) →
  rtc (queue_step allowed) (unsent (table w)) (unsent (table w')).
Proof.
  intros Hd Hr Htab Hpers Hack. destruct cmd; cbn in Htab; [| | |by rewrite Htab..].
  - destruct Htab as [new Hnew]. by eapply run_grows.
  - destruct Htab as (n & z & [->| ->]); [done|]. by rewrite unsent_bump.
  - eapply run_drops; [exact Htab|]. intros r _ ->. right. by eapply Hack.
Qed.

(** C2: the store-and-forward buffer refines a durable queue.  In every run of
    the worker from an empty database, with commands of clients, statements of
    SQLite that fail and restarts of the process in any order, each step takes
    the stored records through steps of the abstract queue: a record enters
    behind all others, once per message, with the payload and topic of a pushed
    batch (clients use ASCII identifiers and acknowledge only what is in flight
    or no longer stored); a record leaves when it has outlived the retention time and is not
    in flight, or by the acknowledgement of its number; reopening the database
    changes nothing. *)
Theorem buffer_refines lab x x' :
  reaches config x → step config lab x x' →
  rtc (queue_step (permitted lab x x')) (queue_of x) (queue_of x').
Proof using Hdisk.
  intros Hx%buffer_reaches_ok Hs; [|done]. pose proof (buffer_step_ok config Hdisk _ _ _ Hx Hs) as Hx'.
  destruct Hs as [? ? ? ? ? _ Htop|? ? ? ? ? ? ? ? ? _ Htop Hc Hf Hh|? ? ? ? ? Hr _ Hopen].
  - by eapply turn_run.
  - destruct (turn_ok config Hdisk _ _ _ _ _ Hx Htop) as [Ht Hk].
    destruct (handle_cmd_inv config Hdisk _ _ _ _ _ _ (wo_inv _ _ Ht) Hk Hc Hh) as (_ & _ & Htab).
    etransitivity; [eapply turn_run; [done..| |done]|].
    + intros r. apply row_ok_mono. intros b. cbn. set_solver.
    + eapply cmd_run; [apply Hx'|apply (wo_records _ _ Hx')|exact Htab|done|].
      by intros seq reply ->.
  - apply open_db_spec in Hopen as (Hr' & _ & ->). unfold queue_of. cbn. by rewrite Hr', Hr.
Qed.

(** C23: a caller whose push was answered [Ok] can rely on the batch being
    stored.  In every run, also across restarts, its message is in the table,
    unless a client has acknowledged the number under which it was stored, or
    it was found older than the retention time, and not in flight, at the start
    of an iteration.  (Clients use ASCII identifiers and acknowledge only what
    is in flight or no longer stored.) *)
Theorem buffer_durable x ch m :
  reaches config x → Reply.Done ch (Ok ()) ∈ wk_log (bw_worker x) → bw_asked x !! ch = Some m →
  m ∈ mids (table (bw_worker x)) ∨ m ∈ mids (bw_acked x) ∨ m ∈ mids (bw_due x).
Proof using Hdisk. intros Hx%buffer_reaches_ok; [|done]. apply Hx. Qed.

(** The buffer stays within its limits in every run: the byte counter is
    the exact cost of the stored records and at most [disk_max_bytes]; at most
    [memory_records] records are held in memory, at most as many pushes wait
    for space, and each with at most 1024 callers. *)
Theorem buffer_bounded x :
  reaches config x →
  let w := bw_worker x in
  wk_bytes w = sum_list record_cost (table w) ∧ wk_bytes w ≤ lc_disk_max_bytes config ∧
  (held w ≤ lc_memory_records config)%nat ∧
  (length (wk_pending_push w) ≤ lc_memory_records config)%nat ∧
  Forall (λ p, (0 < length (pd_replies p) ≤ MAX_WAITERS_PER_RECORD)%nat) (wk_pending_push w).
Proof using Hdisk.
  intros Hx%buffer_reaches_ok; [|done]. destruct (wo_inv _ _ Hx), (wo_bounded _ _ Hx). by split_and!.
Qed.

(** Reopening a file that holds a record with a character outside ASCII in
    its topic or message identifier leaves the byte counter below the cost of
    the stored records: [open_db] adds up SQLite's [length], which counts
    characters, while every later operation accounts for bytes. *)
Theorem reopen_undercounts schema c c' opened :
  open_db config schema c = (c', Ok opened) → Exists non_ascii (rows c) →
  wk_bytes (worker_start c' opened) < sum_list record_cost (table (worker_start c' opened)).
Proof. intros (Hr & _ & ->)%open_db_spec Hn. cbn. rewrite Hr. by apply sum_row_length_lt. Qed.

(** *** Handing out *)
Lemma handle_next_branch w w' stored :
  handle_next w = (w', Ok (Some stored)) →
  ∃ r rest b, wk_mem w = r :: rest ∧ from_slice (mr_payload r) = Some b ∧
    stored = {| sb_local_seq := mr_local_seq r; sb_topic := mr_topic r;
                sb_batch := if (0 <? mr_sent_count r) || (mr_local_seq r <=? wk_recover_watermark w)
                            then set_replayed b else b |} ∧
    wk_inflight w' = <[mr_local_seq r := with_sent (mr_sent_count r + 1) r]> (wk_inflight w).
Proof.
  unfold handle_next. destruct (wk_mem w) as [|r rest]; [by destruct (wk_load_error w)|].
  destruct (from_slice _) as [b|] eqn:Hb; [|done]. destruct (sql_set_sent _ _ _) as [c [?|?|]]; [|done..].
  intros [= <- <-]. by exists r, rest, b.
Qed.

Lemma handle_next_none w w' :
  handle_next w = (w', Ok None) → wk_mem w = [] ∧ wk_load_error w = None.
Proof.
  unfold handle_next. destruct (wk_mem w) as [|r rest]; [by destruct (wk_load_error w)|].
  destruct (from_slice _) as [b|]; [|done]. by destruct (sql_set_sent _ _ _) as [c [?|?|]].
Qed.

(** [next] hands out the oldest record that is not in flight.  In every
    run, a batch it returns is a pushed batch, byte for byte after decoding but
    for the replay mark, which is set exactly when the record was handed out
    before or was found in the file at start; the record is in flight from then
    on; the answer "nothing" means that every stored record is in flight or
    that the window is full of records in flight. *)
Theorem next_in_order x env env' k f w' res :
  reaches config x → top_half config env (bw_worker x) = (k, false, f) →
  (∀ b p, b ∈ bw_pushed x → to_vec b = Some p → from_slice p = Some b) →
  let w := (check_pending_confirm (en_delivered env') k).1 in
  handle_next w = (w', res) →
  match res with
  | Ok (Some stored) => ∃ r b,
      r ∈ table w ∧ wk_inflight w !! mr_local_seq r = None ∧
      (∀ y, y ∈ table w → wk_inflight w !! mr_local_seq y = None → mr_local_seq r ≤ mr_local_seq y) ∧
      b ∈ bw_pushed x ∧ ob_message_id b = mr_message_id r ∧
      stored = {| sb_local_seq := mr_local_seq r; sb_topic := mr_topic r;
                  sb_batch := if (0 <? mr_sent_count r) || (mr_local_seq r <=? wk_recover_watermark w)
                              then set_replayed b else b |} ∧
      wk_inflight w' = <[mr_local_seq r := with_sent (mr_sent_count r + 1) r]> (wk_inflight w)
  | Ok None => (∀ r, r ∈ table w → is_Some (wk_inflight w !! mr_local_seq r)) ∨
               size (wk_inflight w) = lc_memory_records config
  | Err _ => True
  | Panic => False
  end.
Proof using Hdisk.
  intros Hx%buffer_reaches_ok Htop Hcodec w Hn; [|done].
  destruct (turn_ok config Hdisk _ _ _ _ _ Hx Htop) as [Ht Hk].
  destruct (check_pending_confirm_inv config (en_delivered env') k (wo_inv _ _ Ht)) as [Hi Hs].
  pose proof (caught_up_same config _ _ Hs Hk) as Hcu. destruct Hs as (Hconn & _). fold w in Hi, Hcu, Hconn.
  destruct (handle_next_inv config _ _ _ Hi Hn) as (_ & Hnp & _). destruct res as [[stored|]|e|]; try done.
  - apply handle_next_branch in Hn as (r & rest & b & Hm & Hb & -> & Hin).
    assert (r ∈ wk_mem w) as Hrm by (rewrite Hm; set_solver).
    pose proof (iv_mem_rows _ _ Hi _ Hrm) as Hr.
    destruct (proj1 (Forall_forall _ _) (proj1 (wo_records _ _ Ht)) r) as (b' & Hb' & Hv & Hmid & _).
    { cbn. by rewrite <- Hconn. }
    pose proof (Hcodec _ _ Hb' Hv). simplify_eq. exists r, b. split_and!; try done.
    + by apply Hi.
    + by eapply mem_head_oldest.
  - apply handle_next_none in Hn as [Hm He]. destruct (decide (held w < lc_memory_records config)%nat) as [Hlt|Hge].
    + left. intros r Hr. pose proof (Hcu He Hlt r Hr) as (y & Hy & Hyr)%elem_of_seqs.
      apply elem_of_loaded in Hy as [Hy|(z & Hz)]; [rewrite Hm in Hy; set_solver|].
      rewrite <- Hyr. apply (iv_inflight _ _ Hi) in Hz as Hz'. destruct Hz' as [<- _]. by exists y.
    + right. pose proof (iv_held _ _ Hi). unfold held in *. rewrite Hm in *. cbn in *. lia.
Qed.
End promises.

(** * The store-and-forward buffer empties

    A client that repeats "next, publish, ack" receives every stored record, in
    order, and leaves an empty table, provided the statements of SQLite succeed
    and nothing expires meanwhile. *)

#[local] Set Default Proof Using "Type".
#[local] Arguments loaded : simpl never.
#[local] Arguments sum_list : simpl never.

(** The statements that hand out, load and delete succeed. *)
Class BatchTableReliable (Conn : Type) `{!BatchTable Conn} : Prop := {
  select_after_ok mark limit c : ∃ c' l, sql_select_after mark limit c = (c', Ok l);
  set_sent_ok n seq c : ∃ c', sql_set_sent n seq c = (c', Ok ());
  delete_ok seq c : ∃ c' n, sql_delete seq c = (c', Ok n);
}.

Lemma length_swap_in {A} (l : list A) : length (swap_in l) = length l.
Proof.
  unfold swap_in. destruct l as [|x l] using rev_ind; [done|].
  rewrite last_snoc. cbn. rewrite length_take, length_app. cbn. lia.
Qed.

Lemma bump_others n r rest :
  StronglySorted seq_lt (r :: rest) →
  filter (λ y, mr_local_seq y ≠ mr_local_seq r) (bump n (mr_local_seq r) <$> r :: rest) = rest.
Proof.
  intros [_ Hlt]%StronglySorted_inv. rewrite fmap_cons, filter_cons_False; [|rewrite bump_seq; auto].
  induction Hlt as [|y l Hy _ IH]; [done|]. rewrite fmap_cons. unfold seq_lt in Hy.
  assert (bump n (mr_local_seq r) y = y) as -> by (unfold bump; case_bool_decide; [lia|done]).
  rewrite filter_cons_True by lia. by rewrite IH.
Qed.

Section live.
Context {Conn : Type} `{!BatchTable Conn} `{!BatchTableLaws Conn}.
Context `{!BatchCodec} (config : LocalBufferConfig) (env : Env).
Implicit Types (w : Worker Conn) (r : MemRecord).

Abbreviation table w := (rows (wk_conn w)).

(** A round of the client: it asks for a record on channel 0, confirms the
    delivery, and acknowledges what it got. *)
Definition deliver w : Worker Conn * option StoredBatch :=
  let '(k, _, _) := top_half config env w in
  let '(k1, _) := handle_cmd config env (Cmd.Next 0 0) [] k in
  match last (wk_log k1) with
  | Some (Reply.Next _ (Ok (Some stored))) =>
      let '(k2, _, _) := top_half config env k1 in
      ((handle_cmd config env (Cmd.Ack (sb_local_seq stored) 0) [] k2).1, Some stored)
  | _ => (k1, None)
  end.

Fixpoint deliver_all (n : nat) w : Worker Conn * list StoredBatch :=
  match n with
  | O => (w, [])
  | S n =>
      match deliver w with
      | (w, Some stored) => let '(w, l) := deliver_all n w in (w, stored :: l)
      | (w, None) => (w, [])
      end
  end.

(** A filled window starts with the first row. *)
Lemma window_head k r rest :
  (0 < lc_memory_records config)%nat → inv config k → wk_inflight k = ∅ → table k = r :: rest →
  ((held k < lc_memory_records config)%nat → ∀ r, r ∈ table k → mr_local_seq r ∈ seqs (loaded k)) →
  ∃ mem, wk_mem k = r :: mem.
Proof.
  intros Hmemory Hi Hin Ht Hall. destruct (wk_mem k) as [|y mem] eqn:Hm.
  - exfalso. assert (loaded k = []) as Hl by (unfold loaded; by rewrite Hm, Hin, map_to_list_empty).
    assert (held k = 0%nat) as Hh by (by rewrite <- length_loaded, Hl).
    apply (not_elem_of_nil (A := Z) (mr_local_seq r)). change [] with (seqs []). rewrite <- Hl.
    apply Hall; [lia|]. rewrite Ht. set_solver.
  - exists mem. f_equal. assert (y ∈ table k) as Hy by (apply (iv_mem_rows _ _ Hi); rewrite Hm; set_solver).
    pose proof (rows_sorted (wk_conn k)) as Hs.
    assert (mr_local_seq y ≤ mr_local_seq r).
    { eapply mem_head_oldest; [done..| |by rewrite Hin]. rewrite Ht. set_solver. }
    rewrite Ht in Hs, Hy. apply StronglySorted_inv in Hs as [_ Hs]. rewrite Forall_forall in Hs.
    apply elem_of_cons in Hy as [->|Hy]; [done|]. apply Hs in Hy. unfold seq_lt in Hy. lia.
Qed.

Context `{!BatchTableReliable Conn}.
Hypothesis Hconfirmed : ∀ ch, en_delivered env ch = Delivery.Confirmed.

Lemma confirm_all w : check_pending_confirm (en_delivered env) w = (set_confirm [] w, false).
Proof using Hconfirmed.
  unfold check_pending_confirm. generalize (wk_pending_confirm w) as rest. intros rest.
  remember (length rest) as n eqn:Hn. revert rest Hn.
  induction n as [|n IH]; intros [|[seq ch] rest] Hn; try done.
  cbn. rewrite Hconfirmed. apply IH. rewrite length_swap_in. by injection Hn.
Qed.

(** Nothing of the table is old enough to expire. *)
Definition fresh w : Prop := Forall (λ r, cutoff config env ≤ mr_created_at_ns r) (table w).

(** The worker between two rounds. *)
Record idle w : Prop := {
  id_inv : inv config w;
  id_inflight : wk_inflight w = ∅;
  id_pending : wk_pending_push w = [];
  id_fresh : fresh w;
}.

Lemma cleanup_fresh w : inv config w → fresh w → cleanup_expired (cutoff config env) w = (w, Ok (0%nat, 0)).
Proof.
  intros Hi Hf. unfold cleanup_expired. rewrite filter_none; [done|].
  unfold fresh in Hf. rewrite Forall_forall in *. intros r Hr%(iv_mem_rows _ _ Hi)%Hf. lia.
Qed.

Lemma load_more_ok w :
  ∃ w' b, load_more config w = (w', Ok b) ∧ wk_inflight w' = wk_inflight w ∧
    (b = false → (lc_memory_records config ≤ held w')%nat).
Proof using BatchTableReliable0.
  unfold load_more. destruct (Nat.leb_spec (lc_memory_records config) (held w)); [by exists w, false|].
  destruct (select_after_ok (water_mark w) (lc_memory_records config - held w) (wk_conn w)) as (c & l & ->).
  destruct (last l); by eexists _, true.
Qed.

(** An iteration fills the window and changes nothing else. *)
Lemma top_half_fills w k p f :
  inv config w → wk_pending_push w = [] → fresh w → top_half config env w = (k, p, f) →
  inv config k ∧ table k = table w ∧ wk_inflight k = wk_inflight w ∧ wk_pending_push k = [] ∧
  wk_log k = wk_log w ∧
  ((held k < lc_memory_records config)%nat → ∀ r, r ∈ table k → mr_local_seq r ∈ seqs (loaded k)).
Proof using BatchTableReliable0 Hconfirmed.
  intros Hi Hp Hf. unfold top_half. rewrite confirm_all. set (w0 := set_confirm [] w).
  assert (inv config w0) as Hi0 by by destruct Hi.
  fold (cutoff config env). rewrite cleanup_fresh by done.
  destruct (load_more_ok w0) as (w1 & b & El & Hin & Hfull). rewrite El.
  destruct (load_more_inv config _ _ _ Hi0 El) as (Hi1 & _ & Hl1 & Hp1 & Ht1 & _ & Hmore).
  unfold w0 in Hin, Hl1, Hp1, Ht1. cbn in Hin, Hl1, Hp1, Ht1.
  set (w2 := if b then set_load_error None w1 else w1).
  assert (wk_pending_push w2 = []) as Hp2 by (subst w2; destruct b; cbn; by rewrite Hp1).
  unfold flush_pending_push. rewrite Hp2. cbn. intros [= <- _ _].
  assert (wk_conn w2 = wk_conn w1 ∧ wk_inflight w2 = wk_inflight w1 ∧ wk_log w2 = wk_log w1 ∧
    loaded w2 = loaded w1 ∧ held w2 = held w1) as (Hc2 & Hi2 & Hl2 & Hd2 & Hh2) by by destruct b.
  split_and!; [|cbn; congruence..|].
  - apply set_pending_inv. unfold w2. destruct b; [by apply set_load_error_inv|done].
  - change (held (set_pending_push [] w2)) with (held w2). change (loaded (set_pending_push [] w2)) with (loaded w2).
    cbn [set_pending_push wk_conn]. rewrite Hc2, Hd2, Hh2. intros Hlt. destruct b; [by apply Hmore|]. specialize (Hfull eq_refl). lia.
Qed.


(** What the client gets for a record. *)
Definition stored_as r (s : StoredBatch) : Prop :=
  sb_local_seq s = mr_local_seq r ∧ sb_topic s = mr_topic r ∧
  ∃ b, from_slice (mr_payload r) = Some b ∧ (sb_batch s = b ∨ sb_batch s = set_replayed b).

Lemma bump_fresh n z w w' : table w' = bump n z <$> table w → fresh w → fresh w'.
Proof.
  intros Ht Hf. unfold fresh. rewrite Ht. apply Forall_fmap, (Forall_impl _ _ _ Hf).
  intros r Hr. cbn. unfold bump. by case_bool_decide.
Qed.

(** The worker deletes the one record that is in flight. *)
Lemma ack_round w r rest n :
  inv config w → fresh w → wk_pending_push w = [] → StronglySorted seq_lt (r :: rest) →
  table w = bump n (mr_local_seq r) <$> r :: rest →
  wk_inflight w = {[mr_local_seq r := with_sent n r]} →
  let w' := (handle_cmd config env (Cmd.Ack (mr_local_seq r) 0) [] w).1 in
  idle w' ∧ table w' = rest.
Proof using Hconfirmed BatchTableReliable0.
  intros Hi Hf Hp Hs Ht Hin. unfold handle_cmd. rewrite confirm_all. set (w0 := set_confirm [] w).
  assert (inv config w0) as Hi0 by by destruct Hi.
  destruct (handle_ack (mr_local_seq r) w0) as [w1 res] eqn:Ha.
  assert (wk_inflight w0 !! mr_local_seq r = Some (with_sent n r)) as Hl by (cbn; rewrite Hin; apply lookup_singleton_eq).
  destruct (handle_ack_inv config _ _ _ _ Hi0 (or_introl (mk_is_Some _ _ Hl)) Ha) as (Hi1 & _ & _ & Hp1 & _).
  destruct (delete_ok (mr_local_seq r) (wk_conn w)) as (c & d & Hc).
  pose proof Hc as [_ [Hr Hd]]%sql_delete_law. rewrite bool_decide_true in Hd; [subst d|].
  2:{ rewrite Ht. apply elem_of_seqs. exists (bump n (mr_local_seq r) r). rewrite bump_seq. set_solver. }
  assert (Forall (λ r, cutoff config env ≤ mr_created_at_ns r) (rows c)) as Hf'.
  { rewrite Hr. apply Forall_forall. intros y [_ Hy]%list_elem_of_filter.
    by apply (proj1 (Forall_forall _ _) Hf). }
  rewrite Ht, bump_others in Hr by done.
  unfold handle_ack in Ha. cbn [w0 set_confirm wk_conn] in Ha. rewrite Hc in Ha. cbn in Ha, Hl.
  rewrite Hl in Ha. injection Ha as <- <-. cbn. split; [|done]. split; cbn.
  - by apply send_inv.
  - rewrite Hin. apply delete_singleton_eq.
  - done.
  - done.
Qed.

Hypothesis Hopen : en_closed env = ∅.

(** The worker hands out the head of its window. *)
Lemma next_round w r mem b :
  idle w → wk_mem w = r :: mem → from_slice (mr_payload r) = Some b →
  ∃ k s, handle_cmd config env (Cmd.Next 0 0) [] w = (k, true) ∧
    last (wk_log k) = Some (Reply.Next 0 (Ok (Some s))) ∧ stored_as r s ∧
    inv config k ∧ fresh k ∧ wk_pending_push k = [] ∧
    table k = bump (mr_sent_count r + 1) (mr_local_seq r) <$> table w ∧
    wk_inflight k = {[mr_local_seq r := with_sent (mr_sent_count r + 1) r]}.
Proof using Hopen Hconfirmed BatchTableReliable0.
  intros [Hi Hin Hp Hf] Hm Hb. unfold handle_cmd. rewrite confirm_all. set (w0 := set_confirm [] w).
  assert (inv config w0) as Hi0 by by destruct Hi.
  destruct (set_sent_ok (mr_sent_count r + 1) (mr_local_seq r) (wk_conn w)) as [c Hc].
  pose proof Hc as [Hh Hr]%sql_set_sent_law.
  pose proof (set_sent_inv config r mem w0 c Hi0 Hm Hh Hr) as Hi1.
  assert (handle_next w0 = (set_window mem (<[mr_local_seq r := with_sent (mr_sent_count r + 1) r]> (wk_inflight w))
    (wk_last_loaded_seq w) (set_conn c w0), Ok (Some {| sb_local_seq := mr_local_seq r; sb_topic := mr_topic r;
      sb_batch := if (0 <? mr_sent_count r) || (mr_local_seq r <=? wk_recover_watermark w)
                  then set_replayed b else b |}))) as ->.
  { unfold handle_next. cbn [w0 set_confirm wk_mem wk_conn]. rewrite Hm, Hb, Hc. done. }
  rewrite Hopen. rewrite bool_decide_false by set_solver. eexists _, _. split; [done|].
  split_and!; [by cbn; rewrite last_snoc|..].
  - split_and!; [done..|]. exists b. split; [done|]. cbn. case_match; auto.
  - by destruct Hi1.
  - by eapply bump_fresh.
  - done.
  - exact Hr.
  - cbn. by rewrite Hin.
Qed.

Hypothesis Hmemory : (0 < lc_memory_records config)%nat.

Lemma deliver_round w r rest b :
  idle w → table w = r :: rest → from_slice (mr_payload r) = Some b →
  ∃ w' s, deliver w = (w', Some s) ∧ idle w' ∧ table w' = rest ∧ stored_as r s.
Proof using Hopen Hconfirmed Hmemory BatchTableReliable0.
  intros [Hi Hin Hp Hf] Ht Hb. unfold deliver.
  destruct (top_half config env w) as [[k p] f] eqn:E1.
  destruct (top_half_fills _ _ _ _ Hi Hp Hf E1) as (Hi1 & Ht1 & Hin1 & Hp1 & _ & Hall).
  assert (idle k) as Hidle by (split; [done|congruence|done|unfold fresh; by rewrite Ht1]).
  destruct (window_head k r rest) as [mem Hm]; [done|done|congruence|congruence|done|].
  destruct (next_round k r mem b Hidle Hm Hb) as (k1 & s & -> & -> & Hs & Hi2 & Hf2 & Hp2 & Ht2 & Hin2).
  destruct (top_half config env k1) as [[k2 p2] f2] eqn:E2.
  destruct (top_half_fills _ _ _ _ Hi2 Hp2 Hf2 E2) as (Hi3 & Ht3 & Hin3 & Hp3 & _ & _).
  pose proof (rows_sorted (wk_conn w)) as Hsort. rewrite Ht in Hsort.
  destruct (ack_round k2 r rest (mr_sent_count r + 1)) as [Hfin Htab];
    [done|by unfold fresh; rewrite Ht3|done|done|congruence|congruence|].
  destruct Hs as (Hseq & Hs). rewrite Hseq. by eexists _, _.
Qed.

(** C32: the buffer empties (liveness).  When the statements of SQLite succeed,
    nothing in the table is old enough to expire, the payloads decode, nothing
    is in flight and no push waits for space, a
    client that repeats "next, confirm, ack" once per stored record receives
    every record in the order of the table, with its number, topic and batch,
    and leaves an empty table; the worker loads what its window does not hold as
    it goes, whatever the size of the window. *)
Theorem buffer_drains w :
  idle w → Forall (λ r, is_Some (from_slice (mr_payload r))) (table w) →
  let '(w', l) := deliver_all (length (table w)) w in
  table w' = [] ∧ wk_inflight w' = ∅ ∧ wk_bytes w' = 0 ∧ Forall2 stored_as (table w) l.
Proof using Hopen Hconfirmed Hmemory BatchTableReliable0.
  remember (table w) as q eqn:Hq. revert w Hq. induction q as [|r q IH]; intros w Hq Hidle Hdec; cbn.
  - split_and!; [done|apply Hidle| |constructor]. rewrite (iv_bytes _ _ (id_inv _ Hidle)), <- Hq. done.
  - pose proof (Forall_inv Hdec) as [b Hb]. apply Forall_inv_tail in Hdec.
    destruct (deliver_round w r q b Hidle (eq_sym Hq) Hb) as (w' & s & -> & Hidle' & Ht' & Hs).
    specialize (IH w' (eq_sym Ht') Hidle' Hdec). destruct (deliver_all (length q) w') as [w'' l].
    destruct IH as (? & ? & ? & ?). split_and!; try done. by constructor.
Qed.
End live.
