(* ===== verification/NorthExamples.v ===== *)
(** * From the pipeline to the buffer

    The collector pushes what the pipeline emits into the store-and-forward
    buffer.  The buffer recognises a repeated push by the message identifier;
    the pipeline gives every batch its own. *)

From S2P Require Import Prelude RustStd ObservationModel DataPipeline LocalBuffer LocalBufferLaws LocalBufferWorld ProfileModel.
From S2P Require Import DomainModel LocalBufferSpec.
From stdpp Require Import options.

Section path.
Context `{!MapOrder PendingBatch} (pipeline : PipelineConfig).
Context {Conn : Type} `{!BatchTable Conn} `{!BatchTableLaws Conn} `{!BatchCodec}.
Context (buffer : LocalBufferConfig) (Hdisk : disk_bound buffer).

(** The deduplication of the buffer never confuses two batches.  When the
    batches that were pushed are batches a run of the pipeline emitted, every
    stored record holds exactly one of them, the only one with its message
    identifier, and no batch is stored twice. *)
Theorem stored_batches_unique (w : DataPipeline.World) (x : LocalBufferWorld.World (Conn := Conn)) :
  pipeline_validate pipeline = Ok () → DataPipeline.reaches pipeline w →
  in_u 64 (byte_len (pc_collector_session_id pipeline)) →
  Forall (λ o, in_u 64 (byte_len (obs_device_id o))) (w_accepted w) →
  Z.of_nat (length (w_accepted w)) < 2 ^ 64 →
  LocalBufferWorld.reaches buffer x → (∀ b, b ∈ bw_pushed x → b ∈ w_output w) →
  let table := rows (wk_conn (bw_worker x)) in
  (∀ r, r ∈ table → ∃ b, b ∈ w_output w ∧ to_vec b = Some (mr_payload r) ∧
     ob_message_id b = mr_message_id r ∧
     ∀ b', b' ∈ w_output w → ob_message_id b' = mr_message_id r → b' = b) ∧
  NoDup (mr_message_id <$> table).
Proof using Hdisk.
  intros Hv Hw Hs Hd Hl Hx%buffer_reaches_ok Hsub table; [|done].
  pose proof (output_ids_unique pipeline w Hv Hw Hs Hd Hl) as Hu. split; [|apply Hx].
  intros r Hr. destruct (proj1 (Forall_forall _ _) (proj1 (wo_records _ _ Hx)) r Hr)
    as (b & Hb%Hsub & Hvec & Hid & _).
  exists b. split_and!; [done..|]. intros b' Hb' Hid'. rewrite Hid in Hid'.
  apply list_elem_of_lookup in Hb as [i Hi], Hb' as [j Hj].
  assert (i = j) as ->; [|congruence].
  eapply (NoDup_lookup _ _ _ (ob_message_id b) Hu); rewrite list_lookup_fmap; [by rewrite Hi|].
  rewrite Hj. cbn. by rewrite Hid'.
Qed.
End path.

(** * The northbound path on concrete data

    A table of batches kept in a list, an encoding that knows one batch, a
    pipeline whose map is walked in key order, and runs of the pipeline and of
    the buffer at which their theorems apply. *)

(** ** A table in memory *)
Record ListTable : Type := mkListTable { lt_rows : list MemRecord; lt_high : Z }.

Fixpoint ordered (lo hi : Z) (l : list MemRecord) : bool :=
  match l with
  | [] => lo <=? hi
  | r :: l' => (lo <? mr_local_seq r) && ordered (mr_local_seq r) hi l'
  end.

(** A list that is not a table reads as the empty one. *)
Definition lt_read (c : ListTable) : ListTable :=
  if ordered 0 (lt_high c) (lt_rows c) then c else mkListTable [] 0.

Lemma lt_read_ordered c : ordered 0 (lt_high (lt_read c)) (lt_rows (lt_read c)) = true.
Proof. unfold lt_read. by destruct (ordered 0 (lt_high c) (lt_rows c)) eqn:E. Qed.

Lemma ordered_le lo hi l : ordered lo hi l = true → lo ≤ hi.
Proof.
  revert lo. induction l as [|r l IH]; cbn; intros lo; [lia|].
  intros [Hlt Ho]%andb_true_iff. apply IH in Ho. lia.
Qed.

Lemma ordered_spec lo hi l :
  ordered lo hi l = true →
  StronglySorted seq_lt l ∧ Forall (λ r, lo < mr_local_seq r ≤ hi) l.
Proof.
  revert lo. induction l as [|r l IH]; cbn; intros lo; [split; constructor|].
  intros [Hlt Ho]%andb_true_iff. pose proof (ordered_le _ _ _ Ho). apply IH in Ho as [Hs Hf]. split.
  - constructor; [done|]. eapply Forall_impl; [exact Hf|]. unfold seq_lt. cbn. lia.
  - constructor; [lia|]. eapply Forall_impl; [exact Hf|]. cbn. lia.
Qed.

Lemma ordered_snoc lo hi l r :
  ordered lo hi l = true → hi < mr_local_seq r → ordered lo (mr_local_seq r) (l ++ [r]) = true.
Proof.
  revert lo. induction l as [|x l IH]; cbn; intros lo; [lia|].
  intros [Hlt Ho]%andb_true_iff Hr. rewrite IH; [lia|done..].
Qed.

Lemma ordered_weaken lo lo' hi l : lo' ≤ lo → ordered lo hi l = true → ordered lo' hi l = true.
Proof. destruct l; cbn; [lia|]. intros ? [? ->]%andb_true_iff. lia. Qed.

Lemma ordered_filter (P : MemRecord → Prop) `{!∀ r, Decision (P r)} lo hi l :
  ordered lo hi l = true → ordered lo hi (filter P l) = true.
Proof.
  revert lo. induction l as [|r l IH]; [done|]. cbn [ordered]. intros lo [Hlt Ho]%andb_true_iff.
  rewrite filter_cons. case_decide.
  - cbn [ordered]. rewrite IH by done. lia.
  - apply (ordered_weaken (mr_local_seq r)); [lia|]. by apply IH.
Qed.

Lemma ordered_map (f : MemRecord → MemRecord) lo hi l :
  (∀ r, mr_local_seq (f r) = mr_local_seq r) → ordered lo hi (f <$> l) = ordered lo hi l.
Proof. intros Hf. revert lo. induction l as [|r l IH]; [done|]. intros lo. cbn. by rewrite Hf, IH. Qed.

Definition lt_set (l : list MemRecord) (c : ListTable) : ListTable := mkListTable l (lt_high c).

#[global] Instance list_table : BatchTable ListTable := {
  sql_insert r c :=
    let c := lt_read c in
    if bool_decide (mr_message_id r ∈ (mr_message_id <$> lt_rows c)) then (c, Err LocalBufferError.Db)
    else (mkListTable (lt_rows c ++ [with_seq (lt_high c + 1) r]) (lt_high c + 1), Ok ());
  sql_last_insert_rowid c := lt_high (lt_read c);
  sql_delete seq c :=
    let c := lt_read c in
    (lt_set (filter (λ r, mr_local_seq r ≠ seq) (lt_rows c)) c,
     Ok (if bool_decide (seq ∈ seqs (lt_rows c)) then 1 else 0));
  sql_delete_all ids c :=
    let c := lt_read c in (lt_set (filter (λ r, mr_local_seq r ∉ ids) (lt_rows c)) c, Ok ());
  sql_set_sent n seq c :=
    let c := lt_read c in
    (lt_set ((λ r, if bool_decide (mr_local_seq r = seq) then with_sent n r else r) <$> lt_rows c) c,
     Ok ());
  sql_find mid c :=
    let c := lt_read c in
    (c, Ok (mr_local_seq <$> List.find (λ r, bool_decide (mr_message_id r = mid)) (lt_rows c)));
  sql_select_after mark limit c :=
    let c := lt_read c in (c, Ok (take limit (filter (λ r, mark < mr_local_seq r) (lt_rows c))));
  sql_select_first limit c := let c := lt_read c in (c, Ok (take limit (lt_rows c)));
  sql_max_seq c := let c := lt_read c in (c, Ok (default 0 (last (seqs (lt_rows c)))));
  sql_count c := let c := lt_read c in (c, Ok (Z.of_nat (length (lt_rows c))));
  sql_sum_length overhead c :=
    let c := lt_read c in (c, Ok (sum_list (sql_row_length overhead) (lt_rows c)));
}.

Lemma lt_read_id c : ordered 0 (lt_high c) (lt_rows c) = true → lt_read c = c.
Proof. unfold lt_read. by intros ->. Qed.

Lemma lt_read_twice c : lt_read (lt_read c) = lt_read c.
Proof. apply lt_read_id, lt_read_ordered. Qed.

Lemma lt_read_set (l : list MemRecord) c :
  ordered 0 (lt_high (lt_read c)) l = true → lt_read (lt_set l (lt_read c)) = lt_set l (lt_read c).
Proof. intros Ho. by apply lt_read_id. Qed.

#[global] Program Instance list_table_laws : BatchTableLaws ListTable := {
  rows c := lt_rows (lt_read c);
  high c := lt_high (lt_read c);
}.
Next Obligation. intros c. eapply ordered_le, lt_read_ordered. Qed.
Next Obligation. intros c. eapply ordered_spec, lt_read_ordered. Qed.
Next Obligation.
  intros c r Hr. pose proof (ordered_spec _ _ _ (lt_read_ordered c)) as [_ Hf].
  by apply (proj1 (Forall_forall _ _) Hf).
Qed.
Next Obligation.
  cbn. intros r c c' o. case_bool_decide as Hm; intros [= <- <-].
  { rewrite lt_read_twice. split; [done|lia]. }
  assert (ordered 0 (lt_high (lt_read c) + 1)
    (lt_rows (lt_read c) ++ [with_seq (lt_high (lt_read c) + 1) r]) = true) as Ho.
  { change (lt_high (lt_read c) + 1) with (mr_local_seq (with_seq (lt_high (lt_read c) + 1) r)) at 1.
    apply (ordered_snoc _ (lt_high (lt_read c))); [apply lt_read_ordered|cbn; lia]. }
  rewrite (lt_read_id (mkListTable _ _) Ho). cbn. split_and!; [lia|done..].
Qed.
Next Obligation.
  cbn. intros seq c c' o [= <- <-]. rewrite lt_read_set by (apply ordered_filter, lt_read_ordered). done.
Qed.
Next Obligation.
  cbn. intros ids c c' o [= <- <-]. rewrite lt_read_set by (apply ordered_filter, lt_read_ordered). done.
Qed.
Next Obligation.
  cbn. intros n seq c c' o [= <- <-]. rewrite lt_read_set; [done|]. rewrite ordered_map; [apply lt_read_ordered|].
  intros r. by case_bool_decide.
Qed.
Next Obligation.
  cbn. intros mid c c' o [= <- <-]. rewrite lt_read_twice. split_and!; [done..|].
  rewrite fmap_is_Some, list_elem_of_fmap. split.
  - intros [r Hr]. apply List.find_some in Hr as [Hin Hr%bool_decide_eq_true]. exists r. by rewrite list_elem_of_In.
  - intros (r & -> & Hr). destruct (List.find _ _) eqn:E; [done|].
    eapply List.find_none in E; [|by apply list_elem_of_In]. by rewrite bool_decide_eq_false in E.
Qed.
Next Obligation. cbn. intros mark limit c c' o [= <- <-]. by rewrite lt_read_twice. Qed.
Next Obligation. cbn. intros limit c c' o [= <- <-]. by rewrite lt_read_twice. Qed.
Next Obligation. cbn. intros c c' o [= <- <-]. by rewrite lt_read_twice. Qed.
Next Obligation. cbn. intros c c' o [= <- <-]. by rewrite lt_read_twice. Qed.
Next Obligation. cbn. intros overhead c c' o [= <- <-]. by rewrite lt_read_twice. Qed.

#[global] Instance list_table_reliable : BatchTableReliable ListTable.
Proof. split; intros; by repeat eexists. Qed.

(** ** A run of the pipeline *)
#[global] Program Instance key_order {A} : MapOrder A := { map_order m := map_to_list m }.
Next Obligation. done. Qed.

Definition demo_pipeline : PipelineConfig :=
  mkPipelineConfig (lit "session") (lit "site") 2 1000 4 1000.

Definition demo_good : Quality := mkQuality QualityLevel.Good QualityReason.None None.

Definition demo_observation (n : Z) : Observation :=
  match build_observation (lit "dev") DomainKind.Plc (lit "plc.temp")
          (mkDecodedRead (Some (Value.U16 n)) demo_good) None 7 n (lit "session") with
  | Ok o => o
  | _ => mkObservation [] [] [] None demo_good None 0 0 ∅
  end.

Definition demo_clock : str → Z → Z := λ _ n, 100 + n.

Definition pipe_of (r : outcome PipelineError.t Pipe) : Pipe := default pipe_new (outcome_ok r).

(** Two observations make a batch, which is sent; a third one arrives. *)
Definition demo_received : Pipe :=
  pipe_of (receive_observation demo_pipeline demo_clock (demo_observation 1)
    (pipe_of (receive_observation demo_pipeline demo_clock (demo_observation 0) pipe_new))).

Definition demo_sent : outcome PipelineError.t (ObservationBatch * Pipe) := send_front demo_received.

Definition demo_batch : ObservationBatch :=
  match demo_sent with
  | Ok (b, _) => b
  | _ => batch_new [] [] [] 0 [] 0
  end.

Definition demo_running : DataPipeline.World :=
  DataPipeline.mkWorld (match demo_sent with Ok (_, p) => p | _ => pipe_new end) Running
    [demo_observation 2] [demo_batch] (demo_observation <$> [0; 1; 2]) (demo_observation <$> [0; 1]) [].

Definition demo_shutdown : Pipe :=
  pipe_of (begin_shutdown demo_pipeline demo_clock [demo_observation 2] (w_pipe demo_running)).

(** .. and the shutdown drops it at the deadline. *)
Definition demo_done : DataPipeline.World :=
  DataPipeline.mkWorld (drain_one DrainEvent.Deadline demo_shutdown).1 Done [] [demo_batch]
    (demo_observation <$> [0; 1; 2]) (demo_observation <$> [0; 1; 2]) (pp_outbox demo_shutdown).

Tactic Notation "run_step" uconstr(c) :=
  eapply rtc_l; [eapply c; try (vm_compute; reflexivity)|
    cbn [w_pipe w_phase w_input w_output w_accepted w_received w_dropped world_new app]].

Lemma demo_reaches_running : DataPipeline.reaches demo_pipeline demo_running.
Proof.
  unfold DataPipeline.reaches.
  run_step (step_ingest demo_pipeline _ (demo_observation 0)); [by left|cbn; lia|].
  run_step (step_ingest demo_pipeline _ (demo_observation 1)); [by left|cbn; lia|].
  run_step (step_ingest demo_pipeline _ (demo_observation 2)); [by left|cbn; lia|].
  run_step (step_receive demo_pipeline _ demo_clock).
  run_step (step_receive demo_pipeline _ demo_clock).
  run_step (step_send demo_pipeline).
  apply rtc_refl.
Qed.

Lemma demo_reaches_done : DataPipeline.reaches demo_pipeline demo_done.
Proof.
  unfold DataPipeline.reaches. etransitivity; [exact demo_reaches_running|].
  run_step (step_shutdown demo_pipeline _ demo_clock []).
  run_step (step_drain demo_pipeline _ DrainEvent.Deadline); [by vm_compute|].
  run_step (step_drained demo_pipeline).
  apply rtc_refl.
Qed.

Lemma build_observation_identity_witness :
  let build n := build_observation (lit "dev") DomainKind.Plc (lit "plc.temp")
    (mkDecodedRead (Some (Value.U16 n)) demo_good) None 7 n (lit "session") in
  is_Some (outcome_ok (build 1)) ∧
  (∀ o1 o2, build 1 = Ok o1 → build 2 = Ok o2 → obs_observation_id o1 ≠ obs_observation_id o2).
Proof.
  intros build.
  destruct (build_observation_identity DomainKind.Plc DomainKind.Plc (lit "dev") (lit "dev")
    (lit "plc.temp") (lit "plc.temp") (mkDecodedRead (Some (Value.U16 1)) demo_good)
    (mkDecodedRead (Some (Value.U16 2)) demo_good) None None 7 7 1 2 (lit "session") (lit "session"))
    as [Hb Hi]; [repeat constructor; vm_compute; done|done|done|].
  split; [by apply Hb|]. intros o1 o2 H1 H2 Heq. destruct (Hi o1 o2 H1 H2 Heq) as (_ & _ & ? & _). done.
Defined.

Lemma pipeline_faithful_witness :
  Forall (batch_ok demo_pipeline) (w_output demo_running) ∧
  ob_sequence <$> of_device (lit "dev") (w_output demo_running) = [0].
Proof.
  destruct (pipeline_faithful demo_pipeline demo_running (lit "dev") eq_refl demo_reaches_running)
    as (Hb & _ & Hn & _).
  split; [exact Hb|]. etransitivity; [exact Hn|]. vm_compute. reflexivity.
Defined.

Lemma pipeline_accounts_witness :
  contents (w_output demo_done) ++ contents (w_dropped demo_done) ++ w_input demo_done
    ≡ₚ demo_observation <$> [0; 1; 2].
Proof. apply (pipeline_accounts demo_pipeline demo_done eq_refl demo_reaches_done eq_refl). Defined.

Lemma pipeline_shutdown_ends_witness :
  ∃ w', rtc (DataPipeline.step demo_pipeline) demo_running w' ∧ w_phase w' = Done.
Proof.
  destruct (pipeline_shutdown_ends demo_pipeline demo_running demo_clock [DrainEvent.Deadline] eq_refl
    demo_reaches_running eq_refl) as (_ & _ & p1 & Hp & Hend).
  destruct Hend as (w' & Hrun & Hdone & _).
  { vm_compute in Hp. injection Hp as <-. cbn. lia. }
  exists w'. split; [exact Hrun|exact Hdone].
Defined.

Lemma pipeline_message_ids_unique_witness : NoDup (ob_message_id <$> w_output demo_done).
Proof.
  apply (pipeline_message_ids_unique demo_pipeline demo_done eq_refl demo_reaches_done);
    [vm_compute; done|repeat constructor; vm_compute; done|cbn; lia].
Defined.

(** ** A run of the buffer *)
#[global] Instance demo_codec : BatchCodec := {
  to_vec b := if bool_decide (ob_message_id b = ob_message_id demo_batch) then Some [123; 125] else None;
  from_slice l := if bool_decide (l = [123; 125]) then Some demo_batch else None;
}.

Definition demo_buffer : LocalBufferConfig :=
  mkLocalBufferConfig (lit "buffer.db") 2 10000 (10 ^ 15) CapacityPolicy.Backpressure.

Definition demo_schema : SchemaInfo := mkSchemaInfo 0 false [] false false.

Definition demo_env : Env := mkEnv (λ _, Delivery.Confirmed) ∅ 1000 1000.

Definition demo_start : LocalBufferWorld.World (Conn := ListTable) :=
  LocalBufferWorld.mkWorld
    (worker_start (mkListTable [] 0) ([], 0, 0, 0)) true ∅ ∅ [] [] [].

Definition demo_turn (w : Worker ListTable) : Worker ListTable := (top_half demo_buffer demo_env w).1.1.

Definition demo_push : Cmd.t := Cmd.Push demo_batch 0.

(** The batch of the pipeline is pushed. *)
Definition demo_stored : LocalBufferWorld.World (Conn := ListTable) :=
  commanded (turned demo_buffer demo_start demo_env (demo_turn (bw_worker demo_start))) demo_push []
    (handle_cmd demo_buffer demo_env demo_push [] (demo_turn (bw_worker demo_start))).1 true.

Lemma demo_disk : disk_bound demo_buffer.
Proof. split; cbn; lia. Qed.

Lemma demo_initial : initial demo_buffer demo_start.
Proof. by exists (mkListTable [] 0), demo_schema, ([], 0, 0, 0), (mkListTable [] 0). Qed.

Lemma demo_push_step :
  LocalBufferWorld.step demo_buffer (Label.Command demo_env demo_env demo_push) demo_start demo_stored.
Proof.
  eapply step_cmd; [done|vm_compute; reflexivity| |apply Forall_singleton; set_solver|reflexivity].
  split_and!; repeat constructor.
Qed.

Lemma demo_reaches_start : LocalBufferWorld.reaches demo_buffer demo_start.
Proof. exists demo_start. split; [apply demo_initial|done]. Qed.

Lemma demo_reaches_stored : LocalBufferWorld.reaches demo_buffer demo_stored.
Proof.
  exists demo_start. split; [apply demo_initial|]. apply rtc_once. eexists. apply demo_push_step.
Qed.

Lemma buffer_refines_witness :
  rtc (queue_step (permitted demo_buffer (Label.Command demo_env demo_env demo_push) demo_start demo_stored))
    [] (queue_of demo_stored) ∧ length (queue_of demo_stored) = 1%nat.
Proof.
  split; [|vm_compute; reflexivity].
  exact (buffer_refines demo_buffer demo_disk _ _ _ demo_reaches_start demo_push_step).
Defined.

Lemma buffer_durable_witness :
  ob_message_id demo_batch ∈ mids (rows (wk_conn (bw_worker demo_stored))) ∨
  ob_message_id demo_batch ∈ mids (bw_acked demo_stored) ∨
  ob_message_id demo_batch ∈ mids (bw_due demo_stored).
Proof.
  apply (buffer_durable demo_buffer demo_disk demo_stored 0 _ demo_reaches_stored).
  - replace (wk_log (bw_worker demo_stored)) with [Reply.Done 0 (Ok ())] by (vm_compute; reflexivity).
    by apply list_elem_of_singleton.
  - vm_compute. reflexivity.
Defined.

Lemma buffer_bounded_witness :
  wk_bytes (bw_worker demo_stored) = sum_list record_cost (rows (wk_conn (bw_worker demo_stored))) ∧
  wk_bytes (bw_worker demo_stored) ≤ 10000.
Proof.
  destruct (buffer_bounded demo_buffer demo_disk demo_stored demo_reaches_stored) as (Hb & Hm & _).
  split; [exact Hb|exact Hm].
Defined.

(** What [next] answers then. *)
Definition demo_window : Worker ListTable :=
  (check_pending_confirm (en_delivered demo_env) (demo_turn (bw_worker demo_stored))).1.

Definition demo_next : StoredBatch := mkStoredBatch 1 (lit "forgelink/v1/telemetry/site/dev") demo_batch.

Lemma next_in_order_witness :
  ∃ r b, r ∈ rows (wk_conn demo_window) ∧ b ∈ bw_pushed demo_stored ∧
    ob_message_id b = mr_message_id r ∧ sb_local_seq demo_next = mr_local_seq r.
Proof.
  destruct (next_in_order demo_buffer demo_disk demo_stored demo_env demo_env
    (demo_turn (bw_worker demo_stored)) false (handle_next demo_window).1 (Ok (Some demo_next)))
    as (r & b & Hr & _ & _ & Hb & Hid & Heq & _).
  - exact demo_reaches_stored.
  - vm_compute. reflexivity.
  - intros b p Hb Hv. apply list_elem_of_singleton in Hb as ->. vm_compute in Hv. injection Hv as <-.
    vm_compute. reflexivity.
  - vm_compute. reflexivity.
  - exists r, b. split_and!; [exact Hr|exact Hb|exact Hid|]. by rewrite Heq.
Defined.

(** A site whose name is not ASCII. *)
Definition demo_umlaut : MemRecord := mkMemRecord 1 (lit "m") [252] [] 0 0.

Lemma reopen_undercounts_witness :
  ∃ c opened, open_db demo_buffer demo_schema (mkListTable [demo_umlaut] 1) = (c, Ok opened) ∧
    wk_bytes (worker_start c opened) < sum_list record_cost (rows (wk_conn (worker_start c opened))).
Proof.
  eexists _, _. split; [vm_compute; reflexivity|].
  eapply (reopen_undercounts demo_buffer demo_schema (mkListTable [demo_umlaut] 1)); [vm_compute; reflexivity|].
  constructor. left. constructor. cbn. lia.
Defined.

Definition demo_row : MemRecord :=
  mkMemRecord 1 (ob_message_id demo_batch) (lit "forgelink/v1/telemetry/site/dev") [123; 125] 1000 0.

Lemma demo_rows : rows (wk_conn (bw_worker demo_stored)) = [demo_row].
Proof. vm_compute. reflexivity. Qed.

Lemma demo_idle : idle demo_buffer demo_env (bw_worker demo_stored).
Proof.
  split; [apply buffer_reaches_ok; [exact demo_disk|exact demo_reaches_stored]|vm_compute; reflexivity..|].
  unfold fresh. rewrite demo_rows. constructor; [vm_compute; done|constructor].
Qed.

Lemma buffer_drains_witness :
  let w := bw_worker demo_stored in
  let '(w', l) := deliver_all demo_buffer demo_env (length (rows (wk_conn w))) w in
  rows (wk_conn w') = [] ∧ wk_inflight w' = ∅ ∧ wk_bytes w' = 0 ∧
  Forall2 stored_as (rows (wk_conn w)) l.
Proof.
  apply (buffer_drains demo_buffer demo_env (λ _, eq_refl) eq_refl); [cbn; lia|exact demo_idle|].
  rewrite demo_rows. constructor; [vm_compute; by eexists|constructor].
Defined.

Lemma stored_batches_unique_witness :
  ∃ b, b ∈ w_output demo_running ∧ to_vec b = Some (mr_payload demo_row).
Proof.
  destruct (stored_batches_unique demo_pipeline demo_buffer demo_disk demo_running demo_stored)
    as [Hall _]; [done|exact demo_reaches_running|vm_compute; done| |cbn; lia|exact demo_reaches_stored| |].
  - repeat constructor; vm_compute; done.
  - intros b Hb. exact Hb.
  - destruct (Hall demo_row) as (b & Hb & Hv & _); [|by exists b].
    rewrite demo_rows. by apply list_elem_of_singleton.
Defined.
