(* ===== verification/MqttConfig.v ===== *)
(** * MQTT client: configuration, topics and TLS material (crates/mqtt-client/src)

    config.rs and the part of client.rs that runs before the worker: errors,
    topics and payload limits, the status envelopes, the construction of the
    transport with its check that the private key belongs to the certificate,
    the DER walk of that check, and the reconnection delay.  Texts of messages
    are constructors ([ConfigReason]); the PEM parser, the certificate and
    signature code of rustls, webpki and ring are the class [TlsLibrary], the
    rendering of a status envelope as JSON is [StatusJson]. *)

From S2P Require Import Prelude RustStd.
From stdpp Require Import options.

#[local] Set Default Proof Using "Type".

(** ** Errors ([enum MqttClientError]) *)
Module MqttClientError.
Inductive t : Type :=
| InvalidConfig (field : str)
| InvalidTopic (topic : str)
| InvalidPayload
| PayloadTooLarge (size max : Z)
| Closed
| PublishFailed
| CollisionOverwritten
| Disconnected
| TaskFailed.

#[export] Instance t_eq_dec : EqDecision t.
Proof. solve_decision. Defined.

Definition code (e : t) : str :=
  match e with
  | InvalidConfig _ => lit "invalid_config"
  | InvalidTopic _ => lit "invalid_topic"
  | InvalidPayload => lit "invalid_payload"
  | PayloadTooLarge _ _ => lit "payload_too_large"
  | Closed => lit "closed"
  | PublishFailed => lit "publish_failed"
  | CollisionOverwritten => lit "collision_overwritten"
  | Disconnected => lit "disconnected"
  | TaskFailed => lit "task_failed"
  end.
End MqttClientError.
Abbreviation MqttResult := (outcome MqttClientError.t).

Definition NS_PER_SEC : Z := 1000000000.

(** [Duration::MAX] in nanoseconds. *)
Definition DURATION_MAX : Z := (2 ^ 64 - 1) * NS_PER_SEC + 999999999.

Definition GRACE_PERIOD : Z := 2 * NS_PER_SEC.
Definition PUBLISH_OVERHEAD_MAX : Z := 5 + 2 + 2.

(** ** Topics *)
Definition slash : Z := 47.

Definition validate_path_segment (value topic : str) : MqttResult () :=
  match value with
  | [] => Err (MqttClientError.InvalidTopic topic)
  | _ => if bool_decide (slash ∈ value) then Err (MqttClientError.InvalidTopic topic) else Ok ()
  end.

Definition is_control (c : Z) : bool := (c <=? 0x1F) || (c =? 0x7F).

Definition validate_publish_topic (topic : str) : MqttResult () :=
  let e := Err (MqttClientError.InvalidTopic topic) in
  match topic with
  | [] => e
  | _ =>
      if 65535 <? byte_len topic then e
      else if bool_decide (35 ∈ topic ∨ 43 ∈ topic) then e
      else if existsb is_control topic then e
      else Ok ()
  end.

Definition device_topic (kind : string) (site_id device_id : str) : MqttResult str :=
  let topic := lit kind ++ site_id ++ [slash] ++ device_id in
  let? _ := validate_path_segment site_id topic in
  let? _ := validate_path_segment device_id topic in
  let? _ := validate_publish_topic topic in
  Ok topic.

Definition telemetry_topic : str → str → MqttResult str := device_topic "forgelink/v1/telemetry/".
Definition status_topic : str → str → MqttResult str := device_topic "forgelink/v1/status/".

Definition validate_payload_size (topic : str) (payload : list Z) (max_packet_size : Z) :
    MqttResult () :=
  let size := PUBLISH_OVERHEAD_MAX + byte_len topic + Z.of_nat (length payload) in
  if max_packet_size <? size then Err (MqttClientError.PayloadTooLarge size max_packet_size)
  else Ok ().

(** ** Status envelopes *)
Definition STATUS_SCHEMA : str := lit "forgelink.status.v1".

Record StatusEnvelope : Type := mkStatusEnvelope {
  se_schema : str;
  se_site_id : str;
  se_device_id : str;
  se_status : str;
  se_sent_at_ns : Z;
}.

(** [serde_json::json!(..).to_string().into_bytes()]. *)
Class StatusJson : Type := status_json : StatusEnvelope → list Z.

(** The wall clock in nanoseconds since 1970, negative before. *)
Definition status_envelope `{!StatusJson} (wall_ns : Z) (site_id device_id status : str) : list Z :=
  let sent_at_ns := if wall_ns <? 0 then 0 else wrap 64 wall_ns in
  status_json (mkStatusEnvelope STATUS_SCHEMA site_id device_id status sent_at_ns).

Definition lwt_offline_envelope `{!StatusJson} (site_id device_id : str) : list Z :=
  status_json (mkStatusEnvelope STATUS_SCHEMA site_id device_id (lit "offline") 0).

(** ** Configuration (config.rs) *)
Definition DEFAULT_KEEP_ALIVE : Z := 30 * NS_PER_SEC.
Definition KEEP_ALIVE_MAX_SECS : Z := 65535.
Definition DEFAULT_CONNECT_TIMEOUT : Z := 5 * NS_PER_SEC.
Definition DEFAULT_MAX_PACKET_SIZE : Z := 16 * 1024 * 1024.
Definition DEFAULT_RECONNECT_MIN_DELAY : Z := 1 * NS_PER_SEC.
Definition DEFAULT_RECONNECT_MAX_DELAY : Z := 30 * NS_PER_SEC.
Definition DEFAULT_PUBLISH_CAPACITY : nat := 256.
Definition DEFAULT_MAX_INFLIGHT : Z := 100.
Definition CONNECT_FIELD_MAX : Z := 65535.

Module TlsMode.
Inductive t : Type :=
| None
| ServerAuth (ca_pem : list Z)
| MutualTls (ca_pem client_cert_pem client_key_pem : list Z).
End TlsMode.

Record WillConfig : Type := mkWillConfig {
  wl_topic : str;
  wl_payload : list Z;
  wl_retain : bool;
}.

Definition offline_status `{!StatusJson} (site_id device_id : str) : MqttResult WillConfig :=
  let? topic := status_topic site_id device_id in
  Ok {| wl_topic := topic; wl_payload := lwt_offline_envelope site_id device_id; wl_retain := true |}.

Record MqttClientConfig : Type := mkMqttClientConfig {
  mq_client_id : str;
  mq_broker_host : str;
  mq_broker_port : Z;                    (* u16 *)
  mq_keep_alive : Z;                     (* durations in nanoseconds *)
  mq_connect_timeout : Z;
  mq_max_packet_size : Z;                (* usize *)
  mq_reconnect_min_delay : Z;
  mq_reconnect_max_delay : Z;
  mq_max_reconnect_retries : option Z;   (* u32 *)
  mq_publish_capacity : nat;
  mq_max_inflight : Z;                   (* u16 *)
  mq_tls : TlsMode.t;
  mq_username : option str;
  mq_password : option str;
  mq_will : option WillConfig;
}.

Definition config_new (client_id broker_host : str) (broker_port : Z) : MqttClientConfig := {|
  mq_client_id := client_id;
  mq_broker_host := broker_host;
  mq_broker_port := broker_port;
  mq_keep_alive := DEFAULT_KEEP_ALIVE;
  mq_connect_timeout := DEFAULT_CONNECT_TIMEOUT;
  mq_max_packet_size := DEFAULT_MAX_PACKET_SIZE;
  mq_reconnect_min_delay := DEFAULT_RECONNECT_MIN_DELAY;
  mq_reconnect_max_delay := DEFAULT_RECONNECT_MAX_DELAY;
  mq_max_reconnect_retries := None;
  mq_publish_capacity := DEFAULT_PUBLISH_CAPACITY;
  mq_max_inflight := DEFAULT_MAX_INFLIGHT;
  mq_tls := TlsMode.None;
  mq_username := None;
  mq_password := None;
  mq_will := None;
|}.

(** One constructor per message of [validate]. *)
Module ConfigReason.
Inductive t : Type :=
| ClientIdEmpty | ClientIdNul | BrokerHostEmpty | BrokerPortZero | KeepAliveTooShort
| KeepAliveTooLong | ConnectTimeoutTooShort | MaxPacketSizeZero | ReconnectMinZero
| ReconnectMaxBelowMin | PublishCapacityZero | MaxInflightZero | PasswordWithoutUsername
| ClientIdTooLong | UsernameTooLong | UsernameNul | PasswordTooLong | WillTopic (e : MqttClientError.t)
| WillPayloadTooLong | CaPemEmpty | ClientCertEmpty | ClientKeyEmpty.
End ConfigReason.

Definition reject (b : bool) (e : ConfigReason.t) : outcome ConfigReason.t () :=
  if b then Err e else Ok ().

Definition is_empty {A} (l : list A) : bool := match l with [] => true | _ => false end.
Definition has_nul (s : str) : bool := bool_decide (0 ∈ s).

Definition validate_will (w : WillConfig) : outcome ConfigReason.t () :=
  let? _ := map_err ConfigReason.WillTopic (validate_publish_topic (wl_topic w)) in
  reject (CONNECT_FIELD_MAX <? Z.of_nat (length (wl_payload w))) ConfigReason.WillPayloadTooLong.

Definition validate_tls (tls : TlsMode.t) : outcome ConfigReason.t () :=
  match tls with
  | TlsMode.None => Ok ()
  | TlsMode.ServerAuth ca => reject (is_empty ca) ConfigReason.CaPemEmpty
  | TlsMode.MutualTls ca cert key =>
      let? _ := reject (is_empty ca) ConfigReason.CaPemEmpty in
      let? _ := reject (is_empty cert) ConfigReason.ClientCertEmpty in
      reject (is_empty key) ConfigReason.ClientKeyEmpty
  end.

Definition validate (c : MqttClientConfig) : outcome ConfigReason.t () :=
  let? _ := reject (is_empty (mq_client_id c)) ConfigReason.ClientIdEmpty in
  let? _ := reject (has_nul (mq_client_id c)) ConfigReason.ClientIdNul in
  let? _ := reject (is_empty (mq_broker_host c)) ConfigReason.BrokerHostEmpty in
  let? _ := reject (mq_broker_port c =? 0) ConfigReason.BrokerPortZero in
  let? _ := reject (negb (mq_keep_alive c =? 0) && (mq_keep_alive c <? 1 * NS_PER_SEC))
    ConfigReason.KeepAliveTooShort in
  let? _ := reject (KEEP_ALIVE_MAX_SECS <? mq_keep_alive c / NS_PER_SEC)
    ConfigReason.KeepAliveTooLong in
  let? _ := reject (mq_connect_timeout c <? 1 * NS_PER_SEC) ConfigReason.ConnectTimeoutTooShort in
  let? _ := reject (mq_max_packet_size c =? 0) ConfigReason.MaxPacketSizeZero in
  let? _ := reject (mq_reconnect_min_delay c =? 0) ConfigReason.ReconnectMinZero in
  let? _ := reject (mq_reconnect_max_delay c <? mq_reconnect_min_delay c)
    ConfigReason.ReconnectMaxBelowMin in
  let? _ := reject (bool_decide (mq_publish_capacity c = 0%nat)) ConfigReason.PublishCapacityZero in
  let? _ := reject (mq_max_inflight c =? 0) ConfigReason.MaxInflightZero in
  let? _ := reject (bool_decide (is_Some (mq_password c) ∧ mq_username c = None))
    ConfigReason.PasswordWithoutUsername in
  let? _ := reject (CONNECT_FIELD_MAX <? byte_len (mq_client_id c)) ConfigReason.ClientIdTooLong in
  let? _ := match mq_username c with
            | Some u =>
                let? _ := reject (CONNECT_FIELD_MAX <? byte_len u) ConfigReason.UsernameTooLong in
                reject (has_nul u) ConfigReason.UsernameNul
            | None => Ok ()
            end in
  let? _ := match mq_password c with
            | Some p => reject (CONNECT_FIELD_MAX <? byte_len p) ConfigReason.PasswordTooLong
            | None => Ok ()
            end in
  let? _ := match mq_will c with Some w => validate_will w | None => Ok () end in
  validate_tls (mq_tls c).

(** ** The public key of a certificate *)

(** [l.get(n..)] and [l.get(..n)] *)
Definition get_from (n : nat) (l : list Z) : option (list Z) :=
  if decide (n ≤ length l)%nat then Some (drop n l) else None.
Definition get_to (n : nat) (l : list Z) : option (list Z) :=
  if decide (n ≤ length l)%nat then Some (take n l) else None.

Definition checked_mul (w a b : Z) : option Z := if a * b <? 2 ^ w then Some (a * b) else None.

Fixpoint der_len_bytes (len : Z) (l : list Z) : option Z :=
  match l with
  | [] => Some len
  | b :: l' => len ← checked_mul 64 len 256; der_len_bytes (len + b) l'
  end.

Definition read_der_len (input : list Z) : option (nat * list Z) :=
  match input with
  | [] => None
  | first :: rest =>
      if first <? 0x80 then Some (Z.to_nat first, rest)
      else
        let num_bytes := Z.to_nat (Z.land first 0x7F) in
        if bool_decide (num_bytes = 0%nat) || bool_decide (2 < num_bytes)%nat
           || bool_decide (length input < 1 + num_bytes)%nat then None
        else
          len ← der_len_bytes 0 (take num_bytes rest);
          Some (Z.to_nat len, drop num_bytes rest)
  end.

Definition extract_spki_key (spki : list Z) : option (list Z) :=
  spki1 ← get_from 1 spki;
  '(len, rest) ← read_der_len spki1;
  content ← get_to len rest;
  content1 ← get_from 1 content;
  '(alg_len, rest) ← read_der_len content1;
  after_alg ← get_from alg_len rest;
  after_alg1 ← get_from 1 after_alg;
  '(bit_len, rest) ← read_der_len after_alg1;
  bits ← get_to bit_len rest;
  get_from 1 bits.

(** ** The transport *)
Module SignatureAlgorithm.
Inductive t : Type := RSA | ECDSA | ED25519 | Other.
End SignatureAlgorithm.

Module SignatureScheme.
Inductive t : Type :=
| RSA_PKCS1_SHA256 | RSA_PKCS1_SHA384 | RSA_PKCS1_SHA512
| ECDSA_NISTP256_SHA256 | ECDSA_NISTP384_SHA384 | ED25519 | Other.
End SignatureScheme.

Module VerificationAlgorithm.
Inductive t : Type :=
| RSA_PKCS1_2048_8192_SHA256 | RSA_PKCS1_2048_8192_SHA384 | RSA_PKCS1_2048_8192_SHA512
| ECDSA_P256_SHA256_ASN1 | ECDSA_P384_SHA384_ASN1 | ED25519.
End VerificationAlgorithm.

(** What the code asks of rustls_pemfile, rustls, webpki and ring. *)
Class TlsLibrary (Cert Key SigningKey Signer : Type) : Type := {
  pem_certs : list Z → option (list Cert);
  pem_private_key : list Z → option (option Key);     (* [Err], [Ok(None)], [Ok(Some)] *)
  root_acceptable : Cert → bool;                      (* [RootCertStore::add] *)
  client_auth_acceptable : list Cert → Key → bool;    (* [with_client_auth_cert] *)
  load_private_key : Key → option SigningKey;
  key_algorithm : SigningKey → SignatureAlgorithm.t;
  choose_scheme : SigningKey → list SignatureScheme.t → option Signer;
  signer_scheme : Signer → SignatureScheme.t;
  sign : Signer → list Z → option (list Z);
  subject_public_key_info : Cert → option (list Z);
  verify : VerificationAlgorithm.t → list Z → list Z → list Z → bool;
}.

Inductive Transport (Cert Key : Type) : Type :=
| Tcp
| Tls (roots : list Cert) (client_auth : option (list Cert * Key)).
Arguments Tcp {Cert Key}.
Arguments Tls {Cert Key}.

Section tls.
Context {Cert Key SigningKey Signer : Type} `{!TlsLibrary Cert Key SigningKey Signer}.

Definition invalid {A} (field : string) : MqttResult A := Err (MqttClientError.InvalidConfig (lit field)).

Definition parse_cert_chain (pem : list Z) (field : string) : MqttResult (list Cert) :=
  match pem_certs pem with
  | None | Some [] => invalid field
  | Some certs => Ok certs
  end.

Fixpoint add_roots (roots certs : list Cert) : MqttResult (list Cert) :=
  match certs with
  | [] => Ok roots
  | c :: certs' =>
      if root_acceptable c then add_roots (roots ++ [c]) certs' else invalid "tls.ca_pem"
  end.

Definition load_root_certs (ca_pem : list Z) : MqttResult (list Cert) :=
  let? certs := parse_cert_chain ca_pem "tls.ca_pem" in
  add_roots [] certs.

Definition parse_private_key (pem : list Z) : MqttResult Key :=
  match pem_private_key pem with
  | Some (Some key) => Ok key
  | Some None | None => invalid "tls.client_key_pem"
  end.

Definition MESSAGE : list Z := lit "forgelink tls key match check".

Definition signature_scheme (a : SignatureAlgorithm.t) : option SignatureScheme.t :=
  match a with
  | SignatureAlgorithm.RSA => Some SignatureScheme.RSA_PKCS1_SHA256
  | SignatureAlgorithm.ECDSA => Some SignatureScheme.ECDSA_NISTP256_SHA256
  | SignatureAlgorithm.ED25519 => Some SignatureScheme.ED25519
  | SignatureAlgorithm.Other => None
  end.

Definition verification_algorithm (s : SignatureScheme.t) : option VerificationAlgorithm.t :=
  match s with
  | SignatureScheme.RSA_PKCS1_SHA256 => Some VerificationAlgorithm.RSA_PKCS1_2048_8192_SHA256
  | SignatureScheme.RSA_PKCS1_SHA384 => Some VerificationAlgorithm.RSA_PKCS1_2048_8192_SHA384
  | SignatureScheme.RSA_PKCS1_SHA512 => Some VerificationAlgorithm.RSA_PKCS1_2048_8192_SHA512
  | SignatureScheme.ECDSA_NISTP256_SHA256 => Some VerificationAlgorithm.ECDSA_P256_SHA256_ASN1
  | SignatureScheme.ECDSA_NISTP384_SHA384 => Some VerificationAlgorithm.ECDSA_P384_SHA384_ASN1
  | SignatureScheme.ED25519 => Some VerificationAlgorithm.ED25519
  | SignatureScheme.Other => None
  end.

Definition key_error : MqttClientError.t := MqttClientError.InvalidConfig (lit "tls.client_key_pem").
Definition cert_error : MqttClientError.t := MqttClientError.InvalidConfig (lit "tls.client_cert_pem").

Definition verify_key_matches_cert (cert : Cert) (client_key_pem : list Z) : MqttResult () :=
  let? key := parse_private_key client_key_pem in
  let? signing_key := ok_or (load_private_key key) key_error in
  let? spki := ok_or (subject_public_key_info cert) cert_error in
  let? public_key := ok_or (extract_spki_key spki) cert_error in
  let? scheme := ok_or (signature_scheme (key_algorithm signing_key)) key_error in
  let? signer := ok_or (choose_scheme signing_key [scheme; SignatureScheme.ECDSA_NISTP384_SHA384])
    key_error in
  let? signature := ok_or (sign signer MESSAGE) key_error in
  let? algorithm := ok_or (verification_algorithm (signer_scheme signer)) key_error in
  if verify algorithm public_key MESSAGE signature then Ok () else Err key_error.

Definition build_tls_config (tls : TlsMode.t) : MqttResult (Transport Cert Key) :=
  match tls with
  | TlsMode.None => Ok Tcp
  | TlsMode.ServerAuth ca_pem =>
      let? roots := load_root_certs ca_pem in
      Ok (Tls roots None)
  | TlsMode.MutualTls ca_pem client_cert_pem client_key_pem =>
      let? roots := load_root_certs ca_pem in
      let? certs := parse_cert_chain client_cert_pem "tls.client_cert_pem" in
      let? key := parse_private_key client_key_pem in
      let? cert := expect (head certs) in            (* [&certs[0]] *)
      let? _ := verify_key_matches_cert cert client_key_pem in
      if client_auth_acceptable certs key then Ok (Tls roots (Some (certs, key)))
      else invalid "tls.client_cert_pem / client_key_pem"
  end.

(** The part of [spawn_inner] before the worker starts. *)
Definition spawn_transport (c : MqttClientConfig) : MqttResult (Transport Cert Key) :=
  let? _ := map_err (λ _, MqttClientError.InvalidConfig (lit "MqttClientConfig")) (validate c) in
  build_tls_config (mq_tls c).
End tls.

(** ** Reconnection delay *)
Definition saturating_mul (d k : Z) : Z := Z.min (d * k) DURATION_MAX.

(** [failures] is a [u32]; a shift by less than 32 bits does not overflow. *)
Definition backoff_delay (min max failures : Z) : Z :=
  let exponent := Z.min (Z.max (failures - 1) 0) 31 in
  let multiplier := if exponent <? 32 then wrap 32 (Z.shiftl 1 exponent) else 2 ^ 32 - 1 in
  Z.min (saturating_mul min multiplier) max.

(** ** Laws *)

Lemma reject_Ok b e u : reject b e = Ok u → b = false.
Proof. by destruct b. Qed.

Lemma validate_path_segment_Ok v t u : validate_path_segment v t = Ok u → v ≠ [] ∧ slash ∉ v.
Proof. unfold validate_path_segment. destruct v as [|c v]; [done|]. case_bool_decide; naive_solver. Qed.

Lemma device_topic_Ok kind s d t :
  device_topic kind s d = Ok t →
  t = lit kind ++ s ++ [slash] ++ d ∧ s ≠ [] ∧ d ≠ [] ∧ (slash ∉ s) ∧ (slash ∉ d) ∧ validate_publish_topic t = Ok ().
Proof.
  unfold device_topic. intros H. inv_ok. subst t.
  apply validate_path_segment_Ok in Hv as [??]. apply validate_path_segment_Ok in Hv0 as [??].
  destruct v1. naive_solver.
Qed.

(** The topic names the device: two devices never share one. *)
Lemma device_topic_inj kind s d s' d' t :
  device_topic kind s d = Ok t → device_topic kind s' d' = Ok t → s = s' ∧ d = d'.
Proof.
  intros (-> & _ & _ & Hs & _ & _)%device_topic_Ok (Ht & _ & _ & Hs' & _ & _)%device_topic_Ok.
  apply app_inv_head in Ht. cbn [app] in Ht.
  pose proof (split_once_app slash s d Hs) as H1. rewrite Ht, split_once_app in H1 by done. naive_solver.
Qed.

Lemma telemetry_status_apart s d s' d' t : telemetry_topic s d = Ok t → status_topic s' d' ≠ Ok t.
Proof.
  intros (-> & _)%device_topic_Ok (H & _)%device_topic_Ok.
  apply (f_equal (lookup 13%nat)) in H.
  vm_compute in H. discriminate.
Qed.

(** An accepted payload fits the packet: five bytes of fixed header, the topic
    with its length, the packet identifier and the payload. *)
Lemma validate_payload_size_Ok t p m u :
  validate_payload_size t p m = Ok u → 5 + (2 + byte_len t) + 2 + Z.of_nat (length p) ≤ m.
Proof.
  unfold validate_payload_size, PUBLISH_OVERHEAD_MAX. case_if; [done|]. intros _. lia.
Qed.

(** What a validated configuration promises to the library. *)
Lemma mqtt_validate_Ok c :
  validate c = Ok () →
  mq_client_id c ≠ [] ∧ mq_broker_port c ≠ 0 ∧
  (mq_keep_alive c = 0 ∨ NS_PER_SEC ≤ mq_keep_alive c) ∧ mq_keep_alive c / NS_PER_SEC ≤ 65535 ∧
  NS_PER_SEC ≤ mq_connect_timeout c ∧ mq_reconnect_min_delay c ≠ 0 ∧
  mq_reconnect_min_delay c ≤ mq_reconnect_max_delay c ∧ (0 < mq_publish_capacity c)%nat ∧
  mq_max_inflight c ≠ 0 ∧ (∀ p, mq_password c = Some p → is_Some (mq_username c)) ∧
  (∀ w, mq_will c = Some w → validate_publish_topic (wl_topic w) = Ok ()).
Proof.
  unfold validate. intros H. inv_ok.
  repeat match goal with H : reject _ _ = Ok _ |- _ => apply reject_Ok in H end.
  unfold KEEP_ALIVE_MAX_SECS in *.
  repeat match goal with H : bool_decide _ = false |- _ => apply bool_decide_eq_false_1 in H end.
  split_and!; try lia.
  - by destruct (mq_client_id c).
  - intros p Hp. destruct (mq_username c); [eauto|]. naive_solver.
  - intros w Hw. rewrite Hw in Hv15. unfold validate_will in Hv15. inv_ok.
    destruct (validate_publish_topic (wl_topic w)) as [[]|e|]; done.
Qed.

(** A reference encoder of the structure: SEQUENCE { SEQUENCE alg, BIT STRING }. *)
Definition der_len (n : nat) : list Z :=
  let n := Z.of_nat n in
  if n <? 128 then [n] else if n <? 256 then [0x81; n] else [0x82; n / 256; n mod 256].
Definition der_tlv (tag : Z) (body : list Z) : list Z := tag :: der_len (length body) ++ body.
Definition der_spki (alg key : list Z) : list Z := der_tlv 0x30 (der_tlv 0x30 alg ++ der_tlv 0x03 (0 :: key)).

Lemma read_der_len_encode n rest :
  Z.of_nat n < 65536 → read_der_len (der_len n ++ rest) = Some (n, rest).
Proof.
  intros Hn. unfold der_len. destruct (Z.ltb_spec (Z.of_nat n) 128).
  - cbn. rewrite (proj2 (Z.ltb_lt _ _)) by lia. by rewrite Nat2Z.id.
  - destruct (Z.ltb_spec (Z.of_nat n) 256); cbn [app read_der_len].
    + change (Z.to_nat (Z.land 0x81 0x7F)) with 1%nat. rewrite !bool_decide_eq_false_2 by (cbn; lia).
      cbn -[Z.mul checked_mul]. change (checked_mul 64 0 256) with (Some 0).
      rewrite take_0, drop_0. cbn -[Z.mul]. do 2 f_equal. lia.
    + change (Z.to_nat (Z.land 0x82 0x7F)) with 2%nat. rewrite !bool_decide_eq_false_2 by (cbn; lia).
      cbn -[Z.mul Z.div Z.modulo Z.pow checked_mul]. change (checked_mul 64 0 256) with (Some 0).
      cbn -[Z.mul Z.div Z.modulo Z.pow checked_mul]. unfold checked_mul.
      rewrite (proj2 (Z.ltb_lt _ _)) by dlia. rewrite take_0, drop_0. cbn -[Z.mul Z.div Z.modulo]. do 2 f_equal. dlia.
Qed.

Lemma get_to_app n l k : n = length l → get_to n (l ++ k) = Some l.
Proof.
  intros ->. unfold get_to. rewrite decide_True by (rewrite length_app; lia). by rewrite take_app_length.
Qed.
Lemma get_from_app n l k : n = length l → get_from n (l ++ k) = Some k.
Proof.
  intros ->. unfold get_from. rewrite decide_True by (rewrite length_app; lia). by rewrite drop_app_length.
Qed.

Lemma get_from_1 b k : get_from 1 (b :: k) = Some k.
Proof. by apply (get_from_app 1 [b]). Qed.

(** The walk recovers the key, whatever forms the lengths have. *)
Lemma extract_spki_key_encode alg key :
  Z.of_nat (length (der_tlv 0x30 alg ++ der_tlv 0x03 (0 :: key))) < 65536 →
  extract_spki_key (der_spki alg key) = Some key.
Proof.
  intros Hl. unfold extract_spki_key, der_spki. set (content := der_tlv 0x30 alg ++ der_tlv 0x03 (0 :: key)) in *.
  unfold der_tlv at 1. rewrite get_from_1. cbn [mbind option_bind].
  rewrite read_der_len_encode by done. cbn [mbind option_bind].
  rewrite <- (app_nil_r content) at 2. rewrite get_to_app by done. cbn [mbind option_bind].
  unfold content in *. unfold der_tlv in Hl. rewrite !length_app in Hl. cbn in Hl. rewrite !length_app in Hl. cbn in Hl.
  unfold der_tlv. cbn [app]. rewrite get_from_1. cbn [mbind option_bind].
  rewrite <- app_assoc, read_der_len_encode by lia. cbn [mbind option_bind].
  rewrite get_from_app by done. cbn [mbind option_bind].
  rewrite get_from_1. cbn [mbind option_bind].
  rewrite read_der_len_encode by (cbn; lia). cbn [mbind option_bind].
  rewrite <- (app_nil_r (0 :: key)) at 2. rewrite get_to_app by done. cbn [mbind option_bind].
  apply get_from_1.
Qed.

(** *** Transports *)
Section tls_laws.
Context {Cert Key SigningKey Signer : Type} `{!TlsLibrary Cert Key SigningKey Signer}.

Lemma parse_cert_chain_Ok pem field certs :
  parse_cert_chain pem field = Ok certs → certs ≠ [] ∧ pem_certs pem = Some certs.
Proof. unfold parse_cert_chain, invalid. destruct (pem_certs pem) as [[|c l]|]; naive_solver. Qed.

Lemma parse_private_key_Ok pem key : parse_private_key pem = Ok key → pem_private_key pem = Some (Some key).
Proof. unfold parse_private_key, invalid. destruct (pem_private_key pem) as [[k|]|]; naive_solver. Qed.

(** The key of the file signed the message, and the public key of the
    certificate verifies the signature. *)
Definition key_matches (cert : Cert) (key : Key) : Prop :=
  ∃ signing_key spki public_key scheme signer signature algorithm,
    load_private_key key = Some signing_key ∧ subject_public_key_info cert = Some spki ∧
    extract_spki_key spki = Some public_key ∧
    choose_scheme signing_key [scheme; SignatureScheme.ECDSA_NISTP384_SHA384] = Some signer ∧
    sign signer MESSAGE = Some signature ∧
    verification_algorithm (signer_scheme signer) = Some algorithm ∧
    verify algorithm public_key MESSAGE signature = true.

Lemma verify_key_matches_cert_Ok cert pem key :
  parse_private_key pem = Ok key → verify_key_matches_cert cert pem = Ok () → key_matches cert key.
Proof.
  intros Hk H. unfold verify_key_matches_cert in H. rewrite Hk in H. cbn [outcome_bind] in H.
  destruct (load_private_key key) as [sk|] eqn:Hl; [cbn [ok_or outcome_bind] in H|done].
  destruct (subject_public_key_info cert) as [spki|] eqn:Hs; [cbn [ok_or outcome_bind] in H|done].
  destruct (extract_spki_key spki) as [pk|] eqn:He; [cbn [ok_or outcome_bind] in H|done].
  destruct (signature_scheme _) as [sc|] eqn:Hsc; [cbn [ok_or outcome_bind] in H|done].
  destruct (choose_scheme _ _) as [sg|] eqn:Hch; [cbn [ok_or outcome_bind] in H|done].
  destruct (sign sg MESSAGE) as [si|] eqn:Hsi; [cbn [ok_or outcome_bind] in H|done].
  destruct (verification_algorithm _) as [va|] eqn:Hva; [cbn [ok_or outcome_bind] in H|done].
  destruct (verify va pk MESSAGE si) eqn:Hv; [|done].
  exists sk, spki, pk, sc, sg, si, va. done.
Qed.

(** A transport with client authentication carries a key that belongs to the
    first certificate of its chain. *)
Theorem mutual_tls_key_matches tls roots certs key :
  build_tls_config tls = Ok (Tls roots (Some (certs, key))) →
  ∃ cert rest, certs = cert :: rest ∧ key_matches cert key ∧ client_auth_acceptable certs key = true.
Proof.
  destruct tls as [|ca|ca cc ck]; cbn [build_tls_config]; [done|by destruct (load_root_certs ca)|].
  intros H. inv_ok. destruct (client_auth_acceptable v0 v1) eqn:Ha; [|done].
  injection H as -> -> ->. destruct certs as [|cert rest]; [done|]. cbn in Hv2. injection Hv2 as ->.
  exists v2, rest. destruct v3. split_and!; [done|by eapply verify_key_matches_cert_Ok|done].
Qed.

Lemma add_roots_no_panic roots certs : add_roots roots certs ≠ Panic.
Proof. revert roots. induction certs as [|c certs IH]; intros roots; cbn; [done|]. by destruct (root_acceptable c). Qed.

Lemma parse_private_key_no_panic pem : parse_private_key pem ≠ Panic.
Proof. unfold parse_private_key. by destruct (pem_private_key pem) as [[k|]|]. Qed.

Lemma verify_no_panic cert pem : verify_key_matches_cert cert pem ≠ Panic.
Proof.
  unfold verify_key_matches_cert. apply outcome_bind_no_panic; [apply parse_private_key_no_panic|]. intros key _.
  do 7 (apply outcome_bind_no_panic; [match goal with |- ok_or ?o _ ≠ _ => by destruct o end|intros ? _]).
  by case_if.
Qed.

(** No TLS material makes [spawn] panic. *)
Theorem build_tls_config_no_panic tls : build_tls_config tls ≠ Panic.
Proof.
  assert (∀ ca, load_root_certs ca ≠ Panic) as Hr.
  { intros ca. unfold load_root_certs, parse_cert_chain, invalid.
    destruct (pem_certs ca) as [[|c l]|]; cbn [outcome_bind]; [done| |done]. apply add_roots_no_panic. }
  destruct tls as [|ca|ca cc ck]; cbn [build_tls_config]; [done| |].
  - apply outcome_bind_no_panic; done.
  - apply outcome_bind_no_panic; [done|]. intros roots _. apply outcome_bind_no_panic.
    { unfold parse_cert_chain, invalid. destruct (pem_certs cc) as [[|c l]|]; done. }
    intros [|c l] Hc%parse_cert_chain_Ok; [by destruct Hc|]. cbn [head expect outcome_bind].
    apply outcome_bind_no_panic; [apply parse_private_key_no_panic|]. intros key _.
    apply outcome_bind_no_panic; [apply verify_no_panic|]. intros _ _. by destruct (client_auth_acceptable _ _).
Qed.
End tls_laws.

(** *** The delay: [min * 2^(failures - 1)] up to [max] *)
Lemma backoff_delay_eq min max failures :
  0 ≤ min ≤ max → max ≤ DURATION_MAX →
  backoff_delay min max failures = Z.min (min * 2 ^ Z.min (Z.max (failures - 1) 0) 31) max.
Proof.
  intros Hm HM. unfold backoff_delay. set (e := Z.min (Z.max (failures - 1) 0) 31).
  assert (0 ≤ e < 32) as He by lia. rewrite (proj2 (Z.ltb_lt e 32)) by lia.
  rewrite Z.shiftl_1_l, wrap_small. 2:{ split; [lia|]. apply Z.pow_lt_mono_r; lia. }
  unfold saturating_mul. lia.
Qed.

Lemma backoff_delay_bounds min max failures :
  0 ≤ min ≤ max → max ≤ DURATION_MAX → min ≤ backoff_delay min max failures ≤ max.
Proof.
  intros Hm HM. rewrite backoff_delay_eq by done. set (e := Z.min _ 31).
  assert (2 ^ 0 ≤ 2 ^ e) by (apply Z.pow_le_mono_r; lia). split; [|lia]. apply Z.min_glb; [nia|lia].
Qed.

Lemma backoff_delay_mono min max n m :
  0 ≤ min ≤ max → max ≤ DURATION_MAX → n ≤ m → backoff_delay min max n ≤ backoff_delay min max m.
Proof.
  intros Hm HM Hnm. rewrite !backoff_delay_eq by done.
  assert (2 ^ Z.min (Z.max (n - 1) 0) 31 ≤ 2 ^ Z.min (Z.max (m - 1) 0) 31)
    by (apply Z.pow_le_mono_r; lia). nia.
Qed.
