(* ===== verification/MqttClient.v ===== *)
(** * MQTT client: the publishing worker (crates/mqtt-client/src/client.rs)

    The client hands publish requests through a bounded channel to one worker
    task.  The worker stages them in [pending], forwards them to the MQTT
    library and keeps them in [awaiting_ack] until the broker's PUBACK, which
    it finds by packet identifier.  [Worker] is the state of the task, one
    function per handler of the source; [World] adds the channel, the library
    and the position in the loop, and [step] is one uninterrupted piece of
    [run_worker] or one action of a client.

    The library (rumqttc) is the class [Rumqttc]: what [try_publish] and
    [disconnect] return, and which events [poll] may deliver.  The reply
    channels are numbers, and [wk_replies] lists the answers in order.
    [wk_forwarded] is a history variable: whose requests the library took, in
    the order in which it took them.  Not modelled: the latency histogram and
    log lines. *)

From S2P Require Import Prelude RustStd MqttConfig.
From stdpp Require Import options.

#[local] Set Default Proof Using "Type".

Abbreviation Ids := (str * str)%type.

(** ** Requests *)
Record PublishRequest : Type := mkPublishRequest {
  pr_topic : str;
  pr_payload : list Z;
  pr_retain : bool;
  pr_online_status : bool;
  pr_status_ids : option Ids;
  pr_deregister : bool;
  pr_metrics_counted : bool;
  pr_ack_tx : option nat;              (* [None]: the receiver was dropped at once *)
}.

Record AwaitingAck : Type := mkAwaitingAck {
  aa_pkid : option Z;
  aa_parked_pkid : option Z;
  aa_leftover : bool;
  aa_metrics_counted : bool;
  aa_ack_tx : option nat;
}.

Definition set_counted (r : PublishRequest) : PublishRequest :=
  mkPublishRequest (pr_topic r) (pr_payload r) (pr_retain r) (pr_online_status r)
    (pr_status_ids r) (pr_deregister r) true (pr_ack_tx r).

Definition set_pkid (p : option Z) (e : AwaitingAck) : AwaitingAck :=
  mkAwaitingAck p (aa_parked_pkid e) (aa_leftover e) (aa_metrics_counted e) (aa_ack_tx e).
Definition set_parked (p : option Z) (e : AwaitingAck) : AwaitingAck :=
  mkAwaitingAck (aa_pkid e) p (aa_leftover e) (aa_metrics_counted e) (aa_ack_tx e).

(** What [publish_inner] puts into the channel; [id] is the reply channel. *)
Definition publish_inner (max_packet_size : Z) (topic : str) (payload : list Z)
    (retain online_status : bool) (status_ids : option Ids) (deregister : bool) (id : nat) :
    MqttResult PublishRequest :=
  let? _ := validate_publish_topic topic in
  let? _ := validate_payload_size topic payload max_packet_size in
  Ok {| pr_topic := topic; pr_payload := payload; pr_retain := retain;
        pr_online_status := online_status; pr_status_ids := status_ids;
        pr_deregister := deregister; pr_metrics_counted := false; pr_ack_tx := Some id |}.

(** The public entry points, in the order of the source. *)
Module Publish.
Inductive t : Type :=
| Plain (topic : str) (payload : list Z)
| Retained (topic : str) (payload : list Z)
| Batch (site_id device_id : str) (json : option (list Z))   (* [serde_json::to_vec] *)
| Online (wall_ns : Z) (site_id device_id : str)
| Offline (wall_ns : Z) (site_id device_id : str).
End Publish.

Definition publish `{!StatusJson} (max : Z) (p : Publish.t) (id : nat) : MqttResult PublishRequest :=
  match p with
  | Publish.Plain topic payload => publish_inner max topic payload false false None false id
  | Publish.Retained topic payload => publish_inner max topic payload true false None false id
  | Publish.Batch site_id device_id json =>
      let? topic := telemetry_topic site_id device_id in
      let? payload := ok_or json MqttClientError.InvalidPayload in
      publish_inner max topic payload false false None false id
  | Publish.Online wall_ns site_id device_id =>
      let? topic := status_topic site_id device_id in
      publish_inner max topic (status_envelope wall_ns site_id device_id (lit "online"))
        true true (Some (site_id, device_id)) false id
  | Publish.Offline wall_ns site_id device_id =>
      let? topic := status_topic site_id device_id in
      publish_inner max topic (status_envelope wall_ns site_id device_id (lit "offline"))
        true false (Some (site_id, device_id)) true id
  end.

(** A request the worker makes for itself: online again after a loss
    ([make_online_status_request]), offline before a shutdown. *)
Definition make_status_request `{!StatusJson} (online : bool) (wall_ns : Z) (ids : Ids) :
    option PublishRequest :=
  topic ← outcome_ok (status_topic ids.1 ids.2);
  Some {| pr_topic := topic;
          pr_payload := status_envelope wall_ns ids.1 ids.2
            (if online then lit "online" else lit "offline");
          pr_retain := true; pr_online_status := online; pr_status_ids := Some ids;
          pr_deregister := false; pr_metrics_counted := false; pr_ack_tx := None |}.
Definition make_online_status_request `{!StatusJson} := make_status_request true.
Definition make_offline_status_request `{!StatusJson} := make_status_request false.

(** ** Metrics (metrics.rs) *)
Record MqttMetrics : Type := mkMqttMetrics {
  mm_inflight : Z;
  mm_published : Z;
  mm_redelivered : Z;
  mm_failed : Z;
}.

Definition bump_inflight (delta : Z) (m : MqttMetrics) : MqttMetrics :=
  mkMqttMetrics (mm_inflight m + delta) (mm_published m) (mm_redelivered m) (mm_failed m).
(** What the gauge shows. *)
Definition inflight_gauge (m : MqttMetrics) : Z := Z.max (mm_inflight m) 0.
Definition observe_accepted : MqttMetrics → MqttMetrics := bump_inflight 1.
Definition observe_failed_uncounted (m : MqttMetrics) : MqttMetrics :=
  mkMqttMetrics (mm_inflight m) (mm_published m) (mm_redelivered m) (mm_failed m + 1).
Definition observe_failed (m : MqttMetrics) : MqttMetrics :=
  bump_inflight (-1) (observe_failed_uncounted m).
Definition observe_published (m : MqttMetrics) : MqttMetrics :=
  bump_inflight (-1)
    (mkMqttMetrics (mm_inflight m) (mm_published m + 1) (mm_redelivered m) (mm_failed m)).
Definition observe_disconnect_with_unacked (m : MqttMetrics) : MqttMetrics :=
  mkMqttMetrics (mm_inflight m) (mm_published m) (mm_redelivered m + 1) (mm_failed m).

(** ** The state of the worker *)
Record Collision : Type := mkCollision {
  co_pkid : option Z;
  co_recovered : bool;
  co_reset_pending : bool;
}.

(** [on_last] is a [BTreeSet], kept sorted. *)
Record Online : Type := mkOnline {
  on_last : list Ids;
  on_republish : list Ids;
  on_needs_republish : bool;
}.

Record Worker : Type := mkWorker {
  wk_connected : bool;
  wk_connect_failures : Z;
  wk_pending : list PublishRequest;
  wk_awaiting_ack : list AwaitingAck;
  wk_last_puback : Z;
  wk_collision : Collision;
  wk_online : Online;
  wk_metrics : MqttMetrics;
  wk_replies : list (nat * MqttResult ());
  wk_forwarded : list (option nat);
}.

Definition worker_new : Worker :=
  mkWorker false 0 [] [] 0 (mkCollision None false false) (mkOnline [] [] false)
    (mkMqttMetrics 0 0 0 0) [] [].

Definition set_connection (connected : bool) (failures : Z) (w : Worker) : Worker :=
  mkWorker connected failures (wk_pending w) (wk_awaiting_ack w) (wk_last_puback w)
    (wk_collision w) (wk_online w) (wk_metrics w) (wk_replies w) (wk_forwarded w).
Definition set_pending (l : list PublishRequest) (w : Worker) : Worker :=
  mkWorker (wk_connected w) (wk_connect_failures w) l (wk_awaiting_ack w) (wk_last_puback w)
    (wk_collision w) (wk_online w) (wk_metrics w) (wk_replies w) (wk_forwarded w).
Definition set_awaiting (l : list AwaitingAck) (w : Worker) : Worker :=
  mkWorker (wk_connected w) (wk_connect_failures w) (wk_pending w) l (wk_last_puback w)
    (wk_collision w) (wk_online w) (wk_metrics w) (wk_replies w) (wk_forwarded w).
Definition set_last_puback (p : Z) (w : Worker) : Worker :=
  mkWorker (wk_connected w) (wk_connect_failures w) (wk_pending w) (wk_awaiting_ack w) p
    (wk_collision w) (wk_online w) (wk_metrics w) (wk_replies w) (wk_forwarded w).
Definition set_collision (c : Collision) (w : Worker) : Worker :=
  mkWorker (wk_connected w) (wk_connect_failures w) (wk_pending w) (wk_awaiting_ack w)
    (wk_last_puback w) c (wk_online w) (wk_metrics w) (wk_replies w) (wk_forwarded w).
Definition set_online (o : Online) (w : Worker) : Worker :=
  mkWorker (wk_connected w) (wk_connect_failures w) (wk_pending w) (wk_awaiting_ack w)
    (wk_last_puback w) (wk_collision w) o (wk_metrics w) (wk_replies w) (wk_forwarded w).
Definition observe (f : MqttMetrics → MqttMetrics) (w : Worker) : Worker :=
  mkWorker (wk_connected w) (wk_connect_failures w) (wk_pending w) (wk_awaiting_ack w)
    (wk_last_puback w) (wk_collision w) (wk_online w) (f (wk_metrics w)) (wk_replies w)
    (wk_forwarded w).
Definition record_forward (ack : option nat) (w : Worker) : Worker :=
  mkWorker (wk_connected w) (wk_connect_failures w) (wk_pending w) (wk_awaiting_ack w)
    (wk_last_puback w) (wk_collision w) (wk_online w) (wk_metrics w) (wk_replies w)
    (wk_forwarded w ++ [ack]).

(** [ack_tx.send(result)]; a dropped sender is read as [Closed] by [acked]. *)
Definition answer (ack : option nat) (result : MqttResult ()) (w : Worker) : Worker :=
  match ack with
  | Some id =>
      mkWorker (wk_connected w) (wk_connect_failures w) (wk_pending w) (wk_awaiting_ack w)
        (wk_last_puback w) (wk_collision w) (wk_online w) (wk_metrics w)
        (wk_replies w ++ [(id, result)]) (wk_forwarded w)
  | None => w
  end.

Definition observe_if (counted : bool) (f : MqttMetrics → MqttMetrics) (w : Worker) : Worker :=
  if counted then observe f w else w.

(** ** Online tracking: a sorted set of devices *)
Definition ids_le (a b : Ids) : bool := if decide (a.1 = b.1) then str_le a.2 b.2 else str_le a.1 b.1.

Fixpoint ids_insert (x : Ids) (l : list Ids) : list Ids :=
  match l with
  | [] => [x]
  | y :: l' => if decide (x = y) then l else if ids_le x y then x :: l else y :: ids_insert x l'
  end.
Definition ids_remove (x : Ids) (l : list Ids) : list Ids := filter (λ y, y ≠ x) l.

(** The part of [accept_request] for [publish_offline]: the queued online
    requests of the device leave the queue, their senders are dropped. *)
Definition online_of (ids : Ids) (r : PublishRequest) : bool :=
  pr_online_status r && bool_decide (pr_status_ids r = Some ids).

Definition drop_removed (w : Worker) (r : PublishRequest) : Worker :=
  answer (pr_ack_tx r) (Err MqttClientError.Closed) (observe_if (pr_metrics_counted r) observe_failed w).

Definition deregister (ids : Ids) (w : Worker) : Worker :=
  let o := wk_online w in
  let removed := filter (λ r, online_of ids r = true) (wk_pending w) in
  let w := set_pending (filter (λ r, online_of ids r = false) (wk_pending w)) w in
  let w := foldl drop_removed w removed in
  set_online (mkOnline (ids_remove ids (on_last o)) (filter (λ d, d ≠ ids) (on_republish o))
    (on_needs_republish o)) w.

Definition accept_request (max_packet_size : Z) (request : PublishRequest) (w : Worker) : Worker :=
  match (let? _ := validate_publish_topic (pr_topic request) in
         validate_payload_size (pr_topic request) (pr_payload request) max_packet_size) with
  | Ok _ =>
      let w := match pr_deregister request, pr_status_ids request with
               | true, Some ids => deregister ids w
               | _, _ => w
               end in
      let w := observe observe_accepted w in
      set_pending (wk_pending w ++ [set_counted request]) w
  | Err e => answer (pr_ack_tx request) (Err e) (observe observe_failed_uncounted w)
  | Panic => w
  end.

(** ** The library *)
Module TryPublish.
Inductive t : Type := Sent | Full | Failed.
End TryPublish.

Module Event.
Inductive t : Type :=
| ConnAck
| Publish (pkid : Z)          (* [Outgoing::Publish]: a message was written *)
| AwaitAck (pkid : Z)         (* [Outgoing::AwaitAck]: the identifier is still in use *)
| PubAck (pkid : Z)           (* [Incoming::PubAck] *)
| Disconnect                  (* [Outgoing::Disconnect]: DISCONNECT was written *)
| Other
| Error.                      (* [poll] returned an error: the connection is lost *)
End Event.

Class Rumqttc (L : Type) : Type := {
  try_publish : str → bool → list Z → L → L * TryPublish.t;
  poll : L → Event.t → L → Prop;
  disconnect : L → option L;           (* [None] while its queue is full *)
}.

(** ** Forwarding and republishing *)
Section forward.
Context {L : Type} `{!Rumqttc L}.

(** [pending] is the part of the queue from its front. *)
Fixpoint forward_loop (limit : option nat) (forwarded : nat) (pending : list PublishRequest)
    (w : Worker) (lib : L) : Worker * L :=
  match pending with
  | [] => (set_pending [] w, lib)
  | req :: rest =>
      if match limit with Some n => bool_decide (n ≤ forwarded)%nat | None => false end
      then (set_pending pending w, lib)
      else
        match try_publish (pr_topic req) (pr_retain req) (pr_payload req) lib with
        | (lib, TryPublish.Sent) =>
            let o := wk_online w in
            let w := match pr_online_status req, pr_status_ids req with
                     | true, Some ids =>
                         set_online (mkOnline (ids_insert ids (on_last o)) (on_republish o)
                           (on_needs_republish o)) w
                     | _, _ => w
                     end in
            let entry := mkAwaitingAck None None false (pr_metrics_counted req) (pr_ack_tx req) in
            let w := record_forward (pr_ack_tx req) (set_awaiting (wk_awaiting_ack w ++ [entry]) w) in
            forward_loop limit (S forwarded) rest w lib
        | (lib, TryPublish.Full) => (set_pending pending w, lib)
        | (lib, TryPublish.Failed) =>
            let w := observe_if (pr_metrics_counted req) observe_failed w in
            let w := answer (pr_ack_tx req) (Err MqttClientError.PublishFailed) w in
            forward_loop limit (S forwarded) rest w lib
        end
  end.

Definition forward_pending (limit : option nat) (w : Worker) (lib : L) : Worker * L :=
  forward_loop limit 0 (wk_pending w) w lib.
End forward.

Definition rebuild_online_republish (o : Online) : Online :=
  mkOnline (on_last o) (on_last o) (on_needs_republish o).

(** The queue of devices is consumed from its front; [wall_ns] is the reading
    of the wall clock for each request. *)
Fixpoint republish_loop `{!StatusJson} (wall_ns : Ids → Z) (capacity : nat) (queue : list Ids) (w : Worker) : Worker :=
  let o := wk_online w in
  if bool_decide (length (wk_pending w) < capacity)%nat then
    match queue with
    | [] => set_online (mkOnline (on_last o) [] false) w
    | ids :: queue' =>
        let w := match make_online_status_request (wall_ns ids) ids with
                 | Some r => set_pending (wk_pending w ++ [set_counted r]) (observe observe_accepted w)
                 | None => w
                 end in
        republish_loop wall_ns capacity queue' w
    end
  else set_online (mkOnline (on_last o) queue (on_needs_republish o)) w.

Definition step_online_republish `{!StatusJson} (wall_ns : Ids → Z) (capacity : nat) (w : Worker) : Worker :=
  republish_loop wall_ns capacity (on_republish (wk_online w)) w.

(** ** Events *)

(** [iter_mut().find(p)] followed by an assignment. *)
Fixpoint update_first (p : AwaitingAck → bool) (f : AwaitingAck → AwaitingAck) (l : list AwaitingAck) :
    list AwaitingAck :=
  match l with
  | [] => []
  | e :: l' => if p e then f e :: l' else e :: update_first p f l'
  end.

(** [iter().position(p)] followed by [remove]. *)
Fixpoint remove_first (p : AwaitingAck → bool) (l : list AwaitingAck) : option (AwaitingAck * list AwaitingAck) :=
  match l with
  | [] => None
  | e :: l' =>
      if p e then Some (e, l')
      else match remove_first p l' with Some (x, l'') => Some (x, e :: l'') | None => None end
  end.

Definition unassigned (e : AwaitingAck) : bool :=
  bool_decide (aa_pkid e = None) && bool_decide (aa_parked_pkid e = None).
Definition parked_at (p : Z) (e : AwaitingAck) : bool := bool_decide (aa_parked_pkid e = Some p).
Definition has_pkid (p : Z) (e : AwaitingAck) : bool := bool_decide (aa_pkid e = Some p).

Definition assign_pkid (pkid : Z) (w : Worker) : Worker :=
  set_awaiting (update_first unassigned (set_pkid (Some pkid)) (wk_awaiting_ack w)) w.

Definition park_collided (pkid : Z) (w : Worker) : Worker :=
  let c := wk_collision w in
  if existsb unassigned (wk_awaiting_ack w) then
    set_collision (mkCollision (Some pkid) (co_recovered c) (co_reset_pending c))
      (set_awaiting (update_first unassigned (set_parked (Some pkid)) (wk_awaiting_ack w)) w)
  else w.

Definition on_publish_event (pkid : Z) (w : Worker) : Worker :=
  let c := wk_collision w in
  let w :=
    if existsb (parked_at pkid) (wk_awaiting_ack w) then
      if co_recovered c || negb (co_reset_pending c) then
        set_collision (mkCollision None false (co_reset_pending c))
          (set_awaiting (update_first (parked_at pkid) (set_parked None) (wk_awaiting_ack w)) w)
      else set_collision (mkCollision (co_pkid c) (co_recovered c) false) w
    else w in
  assign_pkid pkid w.

Definition resolve_puback (pkid : Z) (w : Worker) : Worker :=
  match remove_first (has_pkid pkid) (wk_awaiting_ack w) with
  | Some (entry, rest) =>
      answer (aa_ack_tx entry) (Ok ())
        (observe_if (aa_metrics_counted entry) observe_published (set_awaiting rest w))
  | None => w
  end.

Definition on_puback_event (pkid : Z) (w : Worker) : Worker :=
  let c := wk_collision w in
  let w := if bool_decide (co_pkid c = Some pkid)
           then set_collision (mkCollision (co_pkid c) true (co_reset_pending c)) w else w in
  resolve_puback pkid w.

Definition on_await_ack_event (pkid : Z) (w : Worker) : Worker :=
  let c := wk_collision w in
  let w := set_collision (mkCollision (co_pkid c) false (co_reset_pending c)) w in
  let w :=
    match co_pkid c with
    | Some previous =>
        match remove_first (parked_at previous) (wk_awaiting_ack w) with
        | Some (entry, rest) =>
            answer (aa_ack_tx entry) (Err MqttClientError.CollisionOverwritten)
              (observe_if (aa_metrics_counted entry) observe_failed (set_awaiting rest w))
        | None => w
        end
    | None => w
    end in
  park_collided pkid w.

(** The sort key of [reset_pkids], compared lexicographically. *)
Definition reset_key (last_puback : Z) (e : AwaitingAck) : Z * bool * Z :=
  match aa_pkid e with
  | Some pkid => (1, pkid <=? last_puback, pkid)
  | None => if aa_leftover e then (0, false, 0) else (2, false, 0)
  end.

Definition key_leb (a b : Z * bool * Z) : bool :=
  if a.1.1 =? b.1.1 then
    if bool_decide (a.1.2 = b.1.2) then a.2 <=? b.2 else negb a.1.2
  else a.1.1 <? b.1.1.

Definition mark_leftover (e : AwaitingAck) : AwaitingAck :=
  mkAwaitingAck None (aa_parked_pkid e) true (aa_metrics_counted e) (aa_ack_tx e).

Definition reset_pkids (l : list AwaitingAck) (last_puback : Z) : list AwaitingAck :=
  mark_leftover <$> sort_by (λ a b, key_leb (reset_key last_puback a) (reset_key last_puback b)) l.

(** The events that every phase handles in the same way. *)
Definition on_common_event (ev : Event.t) (w : Worker) : Worker :=
  match ev with
  | Event.Publish pkid => on_publish_event pkid w
  | Event.AwaitAck pkid => on_await_ack_event pkid w
  | Event.PubAck pkid => on_puback_event pkid w
  | _ => w
  end.

(** An event in the main loop. *)
Definition on_main_event (ev : Event.t) (w : Worker) : Worker :=
  let w := set_connection true 0 w in
  match ev with
  | Event.PubAck pkid => on_common_event ev (set_last_puback pkid w)
  | _ => on_common_event ev w
  end.

(** An error in the main loop, up to the choice between giving up and waiting. *)
Definition on_poll_error (w : Worker) : Worker :=
  let w := set_connection false (wk_connect_failures w + 1) w in
  let w := if bool_decide (wk_awaiting_ack w = []) then w else observe observe_disconnect_with_unacked w in
  let w := set_awaiting (reset_pkids (wk_awaiting_ack w) (wk_last_puback w)) w in
  let c := wk_collision w in
  let w := if bool_decide (is_Some (co_pkid c)) then set_collision (mkCollision (co_pkid c) false true) w else w in
  let o := rebuild_online_republish (wk_online w) in
  set_online (mkOnline (on_last o) (on_republish o) true) w.

(** ** The end of the task *)
Definition fail_request (err : MqttClientError.t) (w : Worker) (r : PublishRequest) : Worker :=
  answer (pr_ack_tx r) (Err err) (observe_if (pr_metrics_counted r) observe_failed w).
Definition fail_awaiting (err : MqttClientError.t) (w : Worker) (e : AwaitingAck) : Worker :=
  answer (aa_ack_tx e) (Err err) (observe_if (aa_metrics_counted e) observe_failed w).
Definition fail_channel (err : MqttClientError.t) (w : Worker) (r : PublishRequest) : Worker :=
  answer (pr_ack_tx r) (Err err) (observe observe_failed_uncounted w).

Definition fail_all_queued (channel : list PublishRequest) (err : MqttClientError.t) (w : Worker) : Worker :=
  let w := foldl (fail_channel err) w channel in
  let pending := wk_pending w in
  let w := foldl (fail_request err) (set_pending [] w) pending in
  let awaiting := wk_awaiting_ack w in
  foldl (fail_awaiting err) (set_awaiting [] w) awaiting.

(** The offline requests of a shutdown, for every tracked device, pushed to
    the front in reverse order. *)
Definition push_offline `{!StatusJson} (wall_ns : Ids → Z) (w : Worker) : Worker * nat :=
  let l := omap (λ ids, make_offline_status_request (wall_ns ids) ids) (on_last (wk_online w)) in
  (set_pending (l ++ wk_pending w) w, length l).

(** [take_while(..).count()] at the front of the queue. *)
Fixpoint offline_prefix (l : list PublishRequest) : nat :=
  match l with
  | [] => 0
  | r :: l' =>
      if bool_decide (is_Some (pr_status_ids r)) && negb (pr_online_status r)
      then S (offline_prefix l') else 0
  end.

(** ** The loop *)
Module Pc.
Inductive t : Type :=
| Backoff                        (* waiting for the end of a back-off *)
| Top                            (* top of the loop *)
| Receive                        (* the non-blocking receive loop *)
| Select                         (* awaiting a request, an event or the shutdown *)
| Break                          (* left the loop *)
| Offline (remaining : nat)      (* shutdown: head of the loop that forwards offline requests *)
| OfflinePoll (remaining : nat)  (* shutdown: awaiting an event in it *)
| Disconnecting (pending : bool) (* shutdown: until DISCONNECT is written *)
| Draining                       (* shutdown: until everything is acknowledged *)
| Failing (err : MqttClientError.t) (* about to settle what is left *)
| Dropping                       (* settled, the channel still open *)
| Done.
End Pc.

Record World (L : Type) : Type := mkWorld {
  w_worker : Worker;
  w_lib : L;
  w_channel : list PublishRequest;
  w_next : nat;                       (* reply channels handed out *)
  w_closed : bool;                    (* every handle was dropped *)
  w_shutdown : bool;                  (* the shutdown signal was raised *)
  w_pc : Pc.t;
}.
Arguments mkWorld {L}.
Arguments w_worker {L}.
Arguments w_lib {L}.
Arguments w_channel {L}.
Arguments w_next {L}.
Arguments w_closed {L}.
Arguments w_shutdown {L}.
Arguments w_pc {L}.

(** The world after a piece of the worker. *)
Definition run_to {L} (k : Worker) (lib : L) (pc : Pc.t) (w : World L) : World L :=
  mkWorld k lib (w_channel w) (w_next w) (w_closed w) (w_shutdown w) pc.
Definition take_channel {L} (l : list PublishRequest) (w : World L) : World L :=
  mkWorld (w_worker w) (w_lib w) l (w_next w) (w_closed w) (w_shutdown w) (w_pc w).

Definition can_receive {L} (capacity : nat) (w : World L) : bool :=
  wk_connected (w_worker w) && bool_decide (length (wk_pending (w_worker w)) < capacity)%nat.

Section world.
Context {L : Type} `{!Rumqttc L} `{!StatusJson} (config : MqttClientConfig).
Abbreviation capacity := (mq_publish_capacity config).
Abbreviation max_packet := (mq_max_packet_size config).

Definition world_new (lib : L) : World L := mkWorld worker_new lib [] 0 false false Pc.Top.

(** Where the main loop goes after an error: gives up, or waits. *)
Definition after_error (w : Worker) : Pc.t :=
  match mq_max_reconnect_retries config with
  | Some max => if max <=? wk_connect_failures w then Pc.Failing MqttClientError.Disconnected else Pc.Backoff
  | None => Pc.Backoff
  end.

(** A polled event is the label of a step. *)
Inductive client_step : World L → option Event.t → World L → Prop :=
| step_send w p r :
    w_pc w ≠ Pc.Done → w_closed w = false → (length (w_channel w) < capacity)%nat →
    publish max_packet p (w_next w) = Ok r →
    client_step w None (mkWorld (w_worker w) (w_lib w) (w_channel w ++ [r]) (S (w_next w)) false
      (w_shutdown w) (w_pc w))
| step_shutdown w :
    client_step w None (mkWorld (w_worker w) (w_lib w) (w_channel w) (w_next w) (w_closed w) true (w_pc w))
| step_drop w :
    client_step w None (mkWorld (w_worker w) (w_lib w) (w_channel w) (w_next w) true true (w_pc w)).

(** The main loop. *)
Inductive main_step : World L → option Event.t → World L → Prop :=
| step_backoff_over w :
    w_pc w = Pc.Backoff → main_step w None (run_to (w_worker w) (w_lib w) Pc.Top w)
| step_backoff_shutdown w :
    w_pc w = Pc.Backoff → w_shutdown w = true →
    main_step w None (run_to (w_worker w) (w_lib w) Pc.Break w)
| step_top w wall_ns :
    w_pc w = Pc.Top →
    main_step w None (run_to
      (if on_needs_republish (wk_online (w_worker w)) && wk_connected (w_worker w)
       then step_online_republish wall_ns capacity (w_worker w) else w_worker w)
      (w_lib w) Pc.Receive w)
| step_receive w r l :
    w_pc w = Pc.Receive → can_receive capacity w = true → w_channel w = r :: l →
    main_step w None (run_to (accept_request max_packet r (w_worker w)) (w_lib w) Pc.Receive
      (take_channel l w))
| step_forward w k lib :
    w_pc w = Pc.Receive → can_receive capacity w = false ∨ w_channel w = [] →
    (if wk_connected (w_worker w) then forward_pending None (w_worker w) (w_lib w)
     else (w_worker w, w_lib w)) = (k, lib) →
    main_step w None (run_to k lib Pc.Select w)
| step_select_receive w r l :
    w_pc w = Pc.Select → can_receive capacity w = true → w_channel w = r :: l →
    main_step w None (run_to (accept_request max_packet r (w_worker w)) (w_lib w) Pc.Top
      (take_channel l w))
| step_select_closed w :
    w_pc w = Pc.Select → can_receive capacity w = true → w_channel w = [] → w_closed w = true →
    main_step w None (run_to (w_worker w) (w_lib w) Pc.Break w)
| step_select_shutdown w :
    w_pc w = Pc.Select → w_shutdown w = true →
    main_step w None (run_to (w_worker w) (w_lib w) Pc.Break w)
| step_select_event w ev lib :
    w_pc w = Pc.Select → poll (w_lib w) ev lib → ev ≠ Event.Error →
    main_step w (Some ev) (run_to (on_main_event ev (w_worker w)) lib Pc.Top w)
| step_select_error w lib :
    w_pc w = Pc.Select → poll (w_lib w) Event.Error lib →
    main_step w (Some Event.Error)
      (run_to (on_poll_error (w_worker w)) lib (after_error (on_poll_error (w_worker w))) w).

(** The shutdown, whose deadline may pass at any time: offline requests first. *)
Inductive offline_step : World L → option Event.t → World L → Prop :=
| step_break_connected w wall_ns k n :
    w_pc w = Pc.Break → wk_connected (w_worker w) = true →
    push_offline wall_ns (w_worker w) = (k, n) →
    offline_step w None (run_to k (w_lib w) (Pc.Offline n) w)
| step_break_disconnected w :
    w_pc w = Pc.Break → wk_connected (w_worker w) = false →
    offline_step w None (run_to (w_worker w) (w_lib w) (Pc.Failing MqttClientError.Closed) w)
| step_offline w n k lib :
    w_pc w = Pc.Offline (S n) → forward_pending (Some (S n)) (w_worker w) (w_lib w) = (k, lib) →
    offline_step w None (run_to k lib
      (match offline_prefix (wk_pending k) with
       | O => Pc.Disconnecting true
       | m => Pc.OfflinePoll m
       end) w)
| step_offline_over w n :
    w_pc w = Pc.Offline n →                    (* none is left, or the deadline has passed *)
    offline_step w None (run_to (w_worker w) (w_lib w) (Pc.Disconnecting true) w)
| step_offline_event w n ev lib :
    w_pc w = Pc.OfflinePoll n → poll (w_lib w) ev lib → ev ≠ Event.Error →
    offline_step w (Some ev) (run_to (on_common_event ev (w_worker w)) lib (Pc.Offline n) w)
| step_offline_error w n lib :
    w_pc w = Pc.OfflinePoll n → poll (w_lib w) Event.Error lib →
    offline_step w (Some Event.Error) (run_to (w_worker w) lib (Pc.Disconnecting true) w)
| step_offline_deadline w n :
    w_pc w = Pc.OfflinePoll n →
    offline_step w None (run_to (w_worker w) (w_lib w) (Pc.Disconnecting true) w).

(** Then DISCONNECT, the acknowledgements on their way, and the end. *)
Inductive disconnect_step : World L → option Event.t → World L → Prop :=
| step_disconnect_queued w lib :
    w_pc w = Pc.Disconnecting true → disconnect (w_lib w) = Some lib →
    disconnect_step w None (run_to (w_worker w) lib (Pc.Disconnecting false) w)
| step_disconnect_event w b ev lib :
    w_pc w = Pc.Disconnecting b → poll (w_lib w) ev lib → ev ≠ Event.Error →
    disconnect_step w (Some ev) (run_to (on_common_event ev (w_worker w)) lib
      (match ev with Event.Disconnect => Pc.Draining | _ => Pc.Disconnecting b end) w)
| step_disconnect_error w b lib :
    w_pc w = Pc.Disconnecting b → poll (w_lib w) Event.Error lib →
    disconnect_step w (Some Event.Error) (run_to (w_worker w) lib (Pc.Failing MqttClientError.Closed) w)
| step_disconnect_deadline w b :
    w_pc w = Pc.Disconnecting b →
    disconnect_step w None (run_to (w_worker w) (w_lib w) (Pc.Failing MqttClientError.Closed) w)
| step_drain_event w ev lib :
    w_pc w = Pc.Draining → wk_awaiting_ack (w_worker w) ≠ [] → poll (w_lib w) ev lib → ev ≠ Event.Error →
    disconnect_step w (Some ev) (run_to (on_common_event ev (w_worker w)) lib Pc.Draining w)
| step_drain_error w lib :
    w_pc w = Pc.Draining → wk_awaiting_ack (w_worker w) ≠ [] → poll (w_lib w) Event.Error lib →
    disconnect_step w (Some Event.Error) (run_to (w_worker w) lib (Pc.Failing MqttClientError.Closed) w)
| step_drain_over w :
    w_pc w = Pc.Draining →                     (* nothing is left, or the deadline has passed *)
    disconnect_step w None (run_to (w_worker w) (w_lib w) (Pc.Failing MqttClientError.Closed) w)
(* the end: what was sent after the drain is dropped with the channel *)
| step_fail w err :
    w_pc w = Pc.Failing err →
    disconnect_step w None (run_to (fail_all_queued (w_channel w) err (w_worker w)) (w_lib w) Pc.Dropping
      (take_channel [] w))
| step_exit w :
    w_pc w = Pc.Dropping →
    disconnect_step w None (run_to (foldl drop_removed (w_worker w) (w_channel w)) (w_lib w) Pc.Done
      (take_channel [] w)).

Inductive step : World L → option Event.t → World L → Prop :=
| by_client w l w' : client_step w l w' → step w l w'
| by_main w l w' : main_step w l w' → step w l w'
| by_offline w l w' : offline_step w l w' → step w l w'
| by_disconnect w l w' : disconnect_step w l w' → step w l w'.

Definition any_step (w w' : World L) : Prop := ∃ l, step w l w'.
Definition reaches (lib : L) (w : World L) : Prop := rtc any_step (world_new lib) w.
End world.
