(* ===== verification/MqttClientLaws.v ===== *)
(** * Laws of the MQTT worker

    Every request that a client handed in is in exactly one place: the channel,
    the queue, the list of unacknowledged messages, or the answers; when the
    task has ended it has been answered, once.  The in-flight metric is the
    number of counted requests the worker holds.  The queue respects its
    capacity, the failures their limit; a device that was taken offline is not
    announced again. *)

From S2P Require Import Prelude RustStd MqttConfig MqttClient.
From stdpp Require Import options.

#[local] Set Default Proof Using "Type".

(** ** Counting *)
Definition one (ack : option nat) (id : nat) : nat := if decide (ack = Some id) then 1 else 0.
Definition flag (b : bool) : Z := if b then 1 else 0.

Section count.
Context {A : Type}.
Implicit Types (l : list A).

(** How often [id] occurs, and how many elements are flagged. *)
Fixpoint occ (ack : A → option nat) (id : nat) (l : list A) : nat :=
  match l with [] => 0 | x :: l' => one (ack x) id + occ ack id l' end.
Fixpoint flagged (b : A → bool) (l : list A) : Z :=
  match l with [] => 0 | x :: l' => flag (b x) + flagged b l' end.

Lemma occ_app ack id l1 l2 : occ ack id (l1 ++ l2) = (occ ack id l1 + occ ack id l2)%nat.
Proof. induction l1; cbn; lia. Qed.
Lemma flagged_app b l1 l2 : flagged b (l1 ++ l2) = flagged b l1 + flagged b l2.
Proof. induction l1; cbn; lia. Qed.

Lemma occ_perm ack id l1 l2 : l1 ≡ₚ l2 → occ ack id l1 = occ ack id l2.
Proof. induction 1; cbn; lia. Qed.
Lemma flagged_perm b l1 l2 : l1 ≡ₚ l2 → flagged b l1 = flagged b l2.
Proof. induction 1; cbn; lia. Qed.

Lemma occ_fmap ack (f : A → A) id l : (∀ x, ack (f x) = ack x) → occ ack id (f <$> l) = occ ack id l.
Proof. intros H. induction l as [|x l IH]; cbn; [done|]. by rewrite H, IH. Qed.
Lemma flagged_fmap b (f : A → A) l : (∀ x, b (f x) = b x) → flagged b (f <$> l) = flagged b l.
Proof. intros H. induction l as [|x l IH]; cbn; [done|]. by rewrite H, IH. Qed.

Lemma occ_split ack id (p : A → bool) l :
  (occ ack id (filter (λ x, p x = true) l) + occ ack id (filter (λ x, p x = false) l))%nat = occ ack id l.
Proof.
  induction l as [|x l IH]; [done|]. rewrite !filter_cons. destruct (p x); repeat (case_decide; try done); cbn; lia.
Qed.
Lemma flagged_split b (p : A → bool) l :
  flagged b (filter (λ x, p x = true) l) + flagged b (filter (λ x, p x = false) l) = flagged b l.
Proof.
  induction l as [|x l IH]; [done|]. rewrite !filter_cons. destruct (p x); repeat (case_decide; try done); cbn; lia.
Qed.

Lemma flagged_nonneg b l : 0 ≤ flagged b l.
Proof. induction l as [|x l IH]; cbn; [done|]. unfold flag. destruct (b x); lia. Qed.
End count.

Section ledger.
Implicit Types (w : Worker) (e : AwaitingAck) (r : PublishRequest).

(** Where the requests of a worker are, and the error of the metric. *)
Definition held id w : nat :=
  (occ pr_ack_tx id (wk_pending w) + occ aa_ack_tx id (wk_awaiting_ack w)
   + occ (λ x, Some x.1) id (wk_replies w))%nat.
Definition slack w : Z :=
  mm_inflight (wk_metrics w)
  - (flagged pr_metrics_counted (wk_pending w) + flagged aa_metrics_counted (wk_awaiting_ack w)).

(** From [w] to [w'] the requests counted by [n] came in; the metric is as
    right or wrong as before. *)
Definition absorbs (n : nat → nat) w w' : Prop := (∀ id, held id w' = n id + held id w)%nat ∧ slack w' = slack w.
Definition conserves : Worker → Worker → Prop := absorbs (λ _, 0%nat).

#[export] Instance conserves_preorder : PreOrder conserves.
Proof.
  split; [by intros w|]. intros w1 w2 w3 [H1 S1] [H2 S2]. split; [|congruence].
  intros id. rewrite H2, H1. lia.
Qed.

Lemma absorbs_conserves n w1 w2 w3 : absorbs n w1 w2 → conserves w2 w3 → absorbs n w1 w3.
Proof. intros [H1 S1] [H2 S2]. split; [|congruence]. intros id. rewrite H2, H1. lia. Qed.
Lemma conserves_absorbs n w1 w2 w3 : conserves w1 w2 → absorbs n w2 w3 → absorbs n w1 w3.
Proof. intros [H1 S1] [H2 S2]. split; [|congruence]. intros id. rewrite H2, H1. lia. Qed.

Lemma held_answer ack x w id : held id (answer ack x w) = (one ack id + held id w)%nat.
Proof.
  unfold held, answer, one. destruct ack as [i|]; cbn; [|done]. rewrite occ_app. cbn. unfold one.
  repeat case_decide; try congruence; lia.
Qed.
Lemma slack_answer ack x w : slack (answer ack x w) = slack w.
Proof. by destruct ack. Qed.
Lemma held_observe_if b f w id : held id (observe_if b f w) = held id w.
Proof. by destruct b. Qed.
Lemma slack_observe_failed b w : slack (observe_if b observe_failed w) = slack w - flag b.
Proof. destruct b; unfold slack; cbn; lia. Qed.
Lemma slack_observe_published b w : slack (observe_if b observe_published w) = slack w - flag b.
Proof. destruct b; unfold slack; cbn; lia. Qed.

Lemma answer_fields ack x w :
  wk_pending (answer ack x w) = wk_pending w ∧ wk_awaiting_ack (answer ack x w) = wk_awaiting_ack w ∧
  wk_collision (answer ack x w) = wk_collision w ∧ wk_online (answer ack x w) = wk_online w ∧
  wk_last_puback (answer ack x w) = wk_last_puback w ∧ wk_forwarded (answer ack x w) = wk_forwarded w.
Proof. by destruct ack. Qed.

(** ** A request that leaves is answered

    Settling a list of requests answers each and corrects the metric. *)
Section settle.
Context {A : Type} (ack : A → option nat) (counted : A → bool) (g : Worker → A → Worker).

Record settling : Prop := {
  st_held w x id : held id (g w x) = (one (ack x) id + held id w)%nat;
  st_slack w x : slack (g w x) = slack w - flag (counted x);
  st_pending w x : wk_pending (g w x) = wk_pending w;
  st_awaiting w x : wk_awaiting_ack (g w x) = wk_awaiting_ack w;
  st_online w x : wk_online (g w x) = wk_online w;
}.

Context (Hg : settling).

Lemma settle_held l w id : held id (foldl g w l) = (occ ack id l + held id w)%nat.
Proof using Hg.
  revert w. induction l as [|x l IH]; intros w; cbn; [done|]. rewrite IH, st_held by done. lia.
Qed.
Lemma settle_slack l w : slack (foldl g w l) = slack w - flagged counted l.
Proof using Hg.
  revert w. induction l as [|x l IH]; intros w; cbn; [lia|]. rewrite IH, st_slack by done. lia.
Qed.
Lemma settle_pending l w : wk_pending (foldl g w l) = wk_pending w.
Proof using Hg. revert w. induction l as [|x l IH]; intros w; cbn; [done|]. by rewrite IH, st_pending. Qed.
Lemma settle_awaiting l w : wk_awaiting_ack (foldl g w l) = wk_awaiting_ack w.
Proof using Hg. revert w. induction l as [|x l IH]; intros w; cbn; [done|]. by rewrite IH, st_awaiting. Qed.
Lemma settle_online l w : wk_online (foldl g w l) = wk_online w.
Proof using Hg. revert w. induction l as [|x l IH]; intros w; cbn; [done|]. by rewrite IH, st_online. Qed.
End settle.

Lemma settling_of {A} (ack : A → option nat) (counted : A → bool) (res : A → MqttResult ()) f :
  (∀ b w, slack (observe_if b f w) = slack w - flag b) →
  settling ack counted (λ w x, answer (ack x) (res x) (observe_if (counted x) f w)).
Proof.
  intros Hf. split; intros w x; intros; rewrite ?held_answer, ?slack_answer, ?held_observe_if, ?Hf; try done.
  - destruct (answer_fields (ack x) (res x) (observe_if (counted x) f w)) as (-> & _). by destruct (counted x).
  - destruct (answer_fields (ack x) (res x) (observe_if (counted x) f w)) as (_ & -> & _). by destruct (counted x).
  - destruct (answer_fields (ack x) (res x) (observe_if (counted x) f w)) as (_ & _ & _ & -> & _). by destruct (counted x).
Qed.

Lemma settling_removed : settling pr_ack_tx pr_metrics_counted drop_removed.
Proof. apply (settling_of _ _ (λ _, Err MqttClientError.Closed)), slack_observe_failed. Qed.
Lemma settling_request err : settling pr_ack_tx pr_metrics_counted (fail_request err).
Proof. apply (settling_of _ _ (λ _, Err err)), slack_observe_failed. Qed.
Lemma settling_awaiting err : settling aa_ack_tx aa_metrics_counted (fail_awaiting err).
Proof. apply (settling_of _ _ (λ _, Err err)), slack_observe_failed. Qed.
Lemma settling_channel err : settling pr_ack_tx (λ _, false) (fail_channel err).
Proof.
  split; intros w x; intros; unfold fail_channel.
  - by rewrite held_answer.
  - rewrite slack_answer. unfold slack; cbn; lia.
  - by destruct (pr_ack_tx x).
  - by destruct (pr_ack_tx x).
  - by destruct (pr_ack_tx x).
Qed.

(** ** The handlers *)
Lemma deregister_conserves ids w : conserves w (deregister ids w).
Proof.
  pose proof settling_removed as Hg. unfold deregister. set (w1 := set_pending _ w).
  set (removed := filter _ (wk_pending w)).
  split; [intros id|].
  - transitivity (held id (foldl drop_removed w1 removed)); [done|].
    rewrite (settle_held _ _ _ Hg). unfold held; cbn. unfold removed.
    pose proof (occ_split pr_ack_tx id (online_of ids) (wk_pending w)). lia.
  - transitivity (slack (foldl drop_removed w1 removed)); [done|].
    rewrite (settle_slack _ _ _ Hg). unfold slack; cbn. unfold removed.
    pose proof (flagged_split pr_metrics_counted (online_of ids) (wk_pending w)). lia.
Qed.

Lemma accept_request_absorbs max r w :
  pr_metrics_counted r = false → absorbs (one (pr_ack_tx r)) w (accept_request max r w).
Proof.
  intros Hr. unfold accept_request.
  destruct (outcome_bind _ _) as [u|e|] eqn:Hv.
  - apply (conserves_absorbs _ _ (match pr_deregister r, pr_status_ids r with true, Some ids => deregister ids w | _, _ => w end)).
    { destruct (pr_deregister r), (pr_status_ids r); [apply deregister_conserves|done..]. }
    set (w1 := match pr_deregister r with true => _ | false => _ end).
    split; [intros id|]; unfold held, slack; cbn; rewrite ?occ_app, ?flagged_app; cbn; lia.
  - split; [intros id; by rewrite held_answer|]. rewrite slack_answer. unfold slack; cbn; lia.
  - exfalso. revert Hv. apply outcome_bind_no_panic.
    + unfold validate_publish_topic. destruct (pr_topic r); [done|]. by repeat case_if.
    + intros _ _. unfold validate_payload_size. by case_if.
Qed.

Lemma remove_first_Some p l e l' :
  remove_first p l = Some (e, l') → ∃ l1 l2, l = l1 ++ e :: l2 ∧ l' = l1 ++ l2 ∧ p e = true ∧ Forall (λ x, p x = false) l1.
Proof.
  revert l'. induction l as [|x l IH]; intros l'; cbn; [done|]. destruct (p x) eqn:Hp.
  - intros [= <- <-]. by exists [], l.
  - destruct (remove_first p l) as [[y l'']|] eqn:H; [|done]. intros [= -> <-].
    destruct (IH _ eq_refl) as (l1 & l2 & -> & -> & ? & ?). exists (x :: l1), l2. split_and!; auto.
Qed.

Lemma update_first_occ p f l id : (∀ e, aa_ack_tx (f e) = aa_ack_tx e) → occ aa_ack_tx id (update_first p f l) = occ aa_ack_tx id l.
Proof. intros Hf. induction l as [|x l IH]; cbn; [done|]. destruct (p x); cbn; [by rewrite Hf|by rewrite IH]. Qed.
Lemma update_first_flagged p f l :
  (∀ e, aa_metrics_counted (f e) = aa_metrics_counted e) →
  flagged aa_metrics_counted (update_first p f l) = flagged aa_metrics_counted l.
Proof. intros Hf. induction l as [|x l IH]; cbn; [done|]. destruct (p x); cbn; [by rewrite Hf|by rewrite IH]. Qed.

Lemma set_awaiting_conserves l w :
  (∀ id, occ aa_ack_tx id l = occ aa_ack_tx id (wk_awaiting_ack w)) →
  flagged aa_metrics_counted l = flagged aa_metrics_counted (wk_awaiting_ack w) → conserves w (set_awaiting l w).
Proof. intros H1 H2. split; [intros id|]; unfold held, slack; cbn; [rewrite H1|rewrite H2]; done. Qed.

Lemma update_first_conserves p f w :
  (∀ e, aa_ack_tx (f e) = aa_ack_tx e) → (∀ e, aa_metrics_counted (f e) = aa_metrics_counted e) →
  conserves w (set_awaiting (update_first p f (wk_awaiting_ack w)) w).
Proof.
  intros H1 H2. apply set_awaiting_conserves; [intros id; by apply update_first_occ|by apply update_first_flagged].
Qed.

(** Removing an entry and answering it. *)
Lemma settle_entry_conserves p e rest res f w :
  remove_first p (wk_awaiting_ack w) = Some (e, rest) → (∀ b w, slack (observe_if b f w) = slack w - flag b) →
  conserves w (answer (aa_ack_tx e) res (observe_if (aa_metrics_counted e) f (set_awaiting rest w))).
Proof.
  intros (l1 & l2 & Hl & -> & _)%remove_first_Some Hf. split; [intros id|].
  - rewrite held_answer, held_observe_if. unfold held; cbn. rewrite Hl, !occ_app. cbn. lia.
  - rewrite slack_answer, Hf. unfold slack; cbn. rewrite Hl, !flagged_app. cbn. lia.
Qed.

Lemma on_publish_conserves p w : conserves w (on_publish_event p w).
Proof.
  unfold on_publish_event. repeat case_if.
  - etransitivity; [apply (update_first_conserves (parked_at p) (set_parked None)); done|].
    etransitivity; [|by apply update_first_conserves]. done.
  - etransitivity; [|by apply update_first_conserves]. done.
  - by apply update_first_conserves.
Qed.

Lemma on_puback_conserves p w : conserves w (on_puback_event p w).
Proof.
  unfold on_puback_event. set (w1 := if bool_decide _ then _ else w).
  transitivity w1. { unfold w1. by case_bool_decide. }
  unfold resolve_puback. destruct (remove_first _ _) as [[e rest]|] eqn:H; [|done].
  by eapply settle_entry_conserves, slack_observe_published.
Qed.

Lemma on_await_ack_conserves p w : conserves w (on_await_ack_event p w).
Proof.
  unfold on_await_ack_event. set (w1 := set_collision _ w).
  transitivity w1; [done|].
  set (w2 := match co_pkid (wk_collision w) with Some _ => _ | None => w1 end).
  transitivity w2.
  - unfold w2. destruct (co_pkid (wk_collision w)) as [q|]; [|done].
    destruct (remove_first _ _) as [[e rest]|] eqn:H; [|done].
    by eapply settle_entry_conserves, slack_observe_failed.
  - unfold park_collided. case_if; [|done]. by etransitivity; [|by apply update_first_conserves].
Qed.

Lemma on_common_conserves ev w : conserves w (on_common_event ev w).
Proof.
  destruct ev; cbn; [done|apply on_publish_conserves|apply on_await_ack_conserves|apply on_puback_conserves|done..].
Qed.

Lemma on_main_conserves ev w : conserves w (on_main_event ev w).
Proof.
  unfold on_main_event. transitivity (set_connection true 0 w); [done|].
  destruct ev; try apply on_common_conserves.
  by etransitivity; [|apply on_common_conserves].
Qed.

Lemma on_poll_error_conserves w : conserves w (on_poll_error w).
Proof.
  unfold on_poll_error. set (w0 := set_connection _ _ w).
  set (w1 := if bool_decide (wk_awaiting_ack w0 = []) then w0 else _).
  assert (conserves w w1) as H1 by (unfold w1; by case_bool_decide).
  assert (wk_awaiting_ack w1 = wk_awaiting_ack w) as Ha by (unfold w1; by case_bool_decide).
  set (w2 := set_awaiting _ w1).
  assert (conserves w1 w2) as H2.
  { apply set_awaiting_conserves.
    - intros id. unfold reset_pkids. rewrite occ_fmap by done. by apply occ_perm, sort_by_perm.
    - unfold reset_pkids. rewrite flagged_fmap by done. by apply flagged_perm, sort_by_perm. }
  transitivity w1; [done|]. transitivity w2; [done|]. by case_bool_decide.
Qed.

Lemma republish_conserves `{!StatusJson} wall cap queue w : conserves w (republish_loop wall cap queue w).
Proof.
  revert w. induction queue as [|ids queue IH]; intros w; cbn; (case_bool_decide; [|done]); [done|].
  etransitivity; [|apply IH]. unfold make_online_status_request, make_status_request.
  destruct (outcome_ok _) as [topic|]; cbn; [|done].
  split; [intros id|]; unfold held, slack; cbn; rewrite ?occ_app, ?flagged_app; cbn; unfold one, flag; cbn; repeat case_decide; simplify_eq; lia.
Qed.

Lemma push_offline_conserves `{!StatusJson} wall w : conserves w (push_offline wall w).1.
Proof.
  unfold push_offline; cbn. set (l := omap _ _).
  assert (Forall (λ r, pr_ack_tx r = None ∧ pr_metrics_counted r = false) l) as Hf.
  { apply Forall_forall. intros r (ids & _ & Hr)%list_elem_of_omap.
    unfold make_offline_status_request, make_status_request in Hr.
    destruct (outcome_ok _) as [topic|]; cbn in Hr; by simplify_eq. }
  assert (∀ id, occ pr_ack_tx id l = 0%nat ∧ flagged pr_metrics_counted l = 0) as Hl.
  { intros id. clear -Hf. induction Hf as [|r l [Ha Hc] _ [IH1 IH2]]; cbn; [done|].
    rewrite Ha, Hc, IH1, IH2. done. }
  split; [intros id|]; unfold held, slack; cbn; rewrite ?occ_app, ?flagged_app.
  - destruct (Hl id) as [-> _]. lia.
  - destruct (Hl 0%nat) as [_ ->]. lia.
Qed.

Lemma forward_loop_conserves {L} `{!Rumqttc L} limit n pending w lib w' lib' :
  forward_loop limit n pending w lib = (w', lib') → conserves (set_pending pending w) w'.
Proof.
  revert n w lib. induction pending as [|r pending IH]; intros n w lib; cbn [forward_loop].
  { by intros [= <- <-]. }
  destruct (match limit with Some _ => _ | None => _ end); [by intros [= <- <-]|].
  destruct (try_publish _ _ _ lib) as [lib1 []]; [|by intros [= <- <-]|].
  - set (w1 := match pr_online_status r with true => _ | false => _ end).
    assert (w1 = set_online (wk_online w1) w) as ->.
    { unfold w1. destruct (pr_online_status r), (pr_status_ids r); by destruct w. }
    generalize (wk_online w1). clear w1. intros o H%IH. etransitivity; [|exact H].
    split; [intros id|]; unfold held, slack; cbn; rewrite ?occ_app, ?flagged_app; cbn; lia.
  - intros H%IH. etransitivity; [|exact H]. clear.
    destruct r as [t0 p0 r0 o0 s0 d0 [] [i|]];
      (split; [intros id|]); unfold held, slack; cbn; rewrite ?occ_app; cbn; unfold one, flag; cbn;
      repeat case_decide; simplify_eq; lia.
Qed.

Lemma forward_pending_conserves {L} `{!Rumqttc L} limit w lib w' lib' :
  forward_pending limit w lib = (w', lib') → conserves w w'.
Proof. intros H%forward_loop_conserves. by etransitivity; [|exact H]. Qed.

Lemma fail_all_queued_absorbs channel err w :
  absorbs (λ id, occ pr_ack_tx id channel) w (fail_all_queued channel err w) ∧
  wk_pending (fail_all_queued channel err w) = [] ∧ wk_awaiting_ack (fail_all_queued channel err w) = [].
Proof.
  unfold fail_all_queued. pose proof (settling_channel err) as Hc. pose proof (settling_request err) as Hr.
  pose proof (settling_awaiting err) as Ha.
  set (w1 := foldl (fail_channel err) w channel). set (w2 := foldl (fail_request err) _ (wk_pending w1)).
  assert (wk_pending w2 = []) as Hp2 by (unfold w2; by rewrite (settle_pending _ _ _ Hr)).
  assert (wk_awaiting_ack w2 = wk_awaiting_ack w1) as Ha2 by (unfold w2; by rewrite (settle_awaiting _ _ _ Hr)).
  set (w3 := foldl (fail_awaiting err) _ (wk_awaiting_ack w2)).
  assert (∀ id, held id w1 = occ pr_ack_tx id channel + held id w)%nat as H1 by apply (settle_held _ _ _ Hc).
  assert (slack w1 = slack w) as S1.
  { unfold w1. rewrite (settle_slack _ _ _ Hc). clear. induction channel as [|x l IH]; cbn; lia. }
  assert (conserves w1 w2) as [H2 S2].
  { split; [intros id|]; unfold w2; [rewrite (settle_held _ _ _ Hr)|rewrite (settle_slack _ _ _ Hr)];
      unfold held, slack; cbn; lia. }
  assert (conserves w2 w3) as [H3 S3].
  { split; [intros id|]; unfold w3; [rewrite (settle_held _ _ _ Ha)|rewrite (settle_slack _ _ _ Ha)];
      unfold held, slack; cbn; lia. }
  split_and!.
  - split; [intros id; rewrite H3, H2, H1; lia|congruence].
  - unfold w3. by rewrite (settle_pending _ _ _ Ha).
  - unfold w3. by rewrite (settle_awaiting _ _ _ Ha).
Qed.

Lemma drop_channel_absorbs l w :
  Forall (λ r, pr_metrics_counted r = false) l → absorbs (λ id, occ pr_ack_tx id l) w (foldl drop_removed w l).
Proof.
  intros Hl. split; [intros id; apply (settle_held _ _ _ settling_removed)|].
  rewrite (settle_slack _ _ _ settling_removed).
  assert (flagged pr_metrics_counted l = 0) as ->; [|lia].
  induction Hl as [|r l Hr _ IH]; cbn; [done|]. by rewrite Hr, IH.
Qed.

End ledger.

(** ** Runs *)
Section runs.
Context {L : Type} `{!Rumqttc L} {SJ : StatusJson} (config : MqttClientConfig).
Implicit Types (w : World L).
Abbreviation step := (step (L := L) config).
Abbreviation reaches := (reaches (L := L) config).

Definition pc_settled (w : World L) : Prop :=
  match w_pc w with
  | Pc.Dropping => wk_pending (w_worker w) = [] ∧ wk_awaiting_ack (w_worker w) = []
  | Pc.Done => wk_pending (w_worker w) = [] ∧ wk_awaiting_ack (w_worker w) = [] ∧ w_channel w = []
  | _ => True
  end.

Record ledger w : Prop := {
  lg_one id : (occ pr_ack_tx id (w_channel w) + held id (w_worker w))%nat = if decide (id < w_next w)%nat then 1%nat else 0%nat;
  lg_slack : slack (w_worker w) = 0;
  lg_channel : Forall (λ r, pr_metrics_counted r = false) (w_channel w);
  lg_settled : pc_settled w;
}.

Lemma ledger_run w k lib pc :
  ledger w → conserves (w_worker w) k → pc_settled (run_to k lib pc w) → ledger (run_to k lib pc w).
Proof.
  intros [H1 H2 H3 _] [C1 C2] H4. split; cbn; [|congruence|done|done]. intros id. rewrite C1. apply H1.
Qed.

(** The worker takes some requests of the channel. *)
Lemma ledger_take w n l1 l2 k lib pc :
  ledger w → w_channel w = l1 ++ l2 → (∀ id, n id = occ pr_ack_tx id l1) → absorbs n (w_worker w) k →
  pc_settled (run_to k lib pc (take_channel l2 w)) → ledger (run_to k lib pc (take_channel l2 w)).
Proof.
  intros [H1 H2 H3 _] Hc Hn [C1 C2] H4. rewrite Hc in H3. apply Forall_app in H3 as [_ H3].
  split; cbn; [|congruence|done|done]. intros id. rewrite C1, Hn, <- (H1 id), Hc, occ_app. lia.
Qed.

Lemma publish_inner_Ok max t p ret on ids d id r :
  publish_inner max t p ret on ids d id = Ok r →
  r = mkPublishRequest t p ret on ids d false (Some id).
Proof. unfold publish_inner. intros H. by inv_ok. Qed.

Lemma publish_inner_valid max t p ret on ids d id r :
  publish_inner max t p ret on ids d id = Ok r →
  r = mkPublishRequest t p ret on ids d false (Some id) ∧
  validate_publish_topic t = Ok () ∧ validate_payload_size t p max = Ok ().
Proof.
  unfold publish_inner. destruct (validate_publish_topic t) as [[]| |]; [|done..]. cbn [outcome_bind].
  destruct (validate_payload_size t p max) as [[]| |]; [|done..]. by intros [= <-].
Qed.

Lemma publish_Ok max p id r :
  publish max p id = Ok r → pr_ack_tx r = Some id ∧ pr_metrics_counted r = false.
Proof.
  destruct p as [t pl|t pl|s d json|wall s d|wall s d]; cbn [publish]; intros H; inv_ok;
    match goal with H : publish_inner _ _ _ _ _ _ _ _ = _ |- _ => by apply publish_inner_Ok in H as -> end.
Qed.

Lemma ledger_receive w r l lib pc :
  ledger w → w_channel w = r :: l → match pc with Pc.Receive | Pc.Top => True | _ => False end →
  ledger (run_to (accept_request (mq_max_packet_size config) r (w_worker w)) lib pc (take_channel l w)).
Proof.
  intros Hw Hc Hpc. eapply (ledger_take _ _ [r]); [done|done| |apply accept_request_absorbs|].
  - intros id. cbn. lia.
  - pose proof (lg_channel _ Hw) as HF. rewrite Hc in HF. by inversion HF.
  - unfold pc_settled; cbn. by destruct pc.
Qed.

Lemma ledger_new lib : ledger (world_new lib).
Proof. by split. Qed.

Lemma ledger_step w l w' : ledger w → step w l w' → ledger w'.
Proof.
  intros Hw Hs. destruct Hs as [? ? ? Hs|? ? ? Hs|? ? ? Hs|? ? ? Hs]; destruct Hs;
    try match goal with
    | H : forward_pending _ _ _ = _ |- _ => apply forward_pending_conserves in H
    end.
  - (* send *) destruct Hw as [H1' H2' H3' H4']. apply publish_Ok in H2 as [Ha Hc].
    split; cbn; [|done| |].
    + intros id. specialize (H1' id). rewrite occ_app. cbn. rewrite Ha. unfold one.
      destruct (decide (id = w_next w)) as [->|]; [rewrite (decide_True (P := Some _ = _)) by done|
        rewrite (decide_False (P := Some _ = _)) by congruence]; repeat case_decide; lia.
    + apply Forall_app. auto.
    + revert H4'. unfold pc_settled; cbn. by destruct (w_pc w).
  - by destruct Hw.
  - by destruct Hw.
  - by apply ledger_run.
  - by apply ledger_run.
  - apply ledger_run; [done| |done]. case_if; [apply republish_conserves|done].
  - eapply ledger_receive; done.
  - apply ledger_run; [done| |done]. destruct (wk_connected _); [by eapply forward_pending_conserves|].
    by simplify_eq.
  - eapply ledger_receive; done.
  - by apply ledger_run.
  - by apply ledger_run.
  - apply ledger_run; [done|apply on_main_conserves|done].
  - apply ledger_run; [done|apply on_poll_error_conserves|].
    unfold after_error, pc_settled; cbn. destruct (mq_max_reconnect_retries config); [|done]. by case_if.
  - apply ledger_run; [done| |done].
    match goal with E : push_offline _ _ = _ |- _ => pose proof (push_offline_conserves wall_ns (w_worker w)) as C; by rewrite E in C end.
  - by apply ledger_run.
  - apply ledger_run; [done|done|]. unfold pc_settled; cbn. by destruct (offline_prefix _).
  - by apply ledger_run.
  - apply ledger_run; [done|apply on_common_conserves|done].
  - by apply ledger_run.
  - by apply ledger_run.
  - by apply ledger_run.
  - apply ledger_run; [done|apply on_common_conserves|]. by destruct ev.
  - by apply ledger_run.
  - by apply ledger_run.
  - apply ledger_run; [done|apply on_common_conserves|done].
  - by apply ledger_run.
  - by apply ledger_run.
  - destruct (fail_all_queued_absorbs (w_channel w) err (w_worker w)) as (C & Hp & Ha).
    eapply (ledger_take _ _ (w_channel w)); [done|by rewrite app_nil_r|done|exact C|done].
  - pose proof (lg_settled _ Hw) as Hst. unfold pc_settled in Hst. rewrite H in Hst. destruct Hst as [Hp Ha].
    eapply (ledger_take _ _ (w_channel w)); [done|by rewrite app_nil_r|done| |].
    + apply drop_channel_absorbs, Hw.
    + unfold pc_settled; cbn. by rewrite (settle_pending _ _ _ settling_removed), (settle_awaiting _ _ _ settling_removed).
Qed.

(** What holds at the start and after every step holds in every run. *)
Lemma reaches_ind (P : World L → Prop) lib w :
  P (world_new lib) → (∀ w l w', P w → step w l w' → P w') → reaches lib w → P w.
Proof.
  intros H0 Hstep Hr. unfold MqttClient.reaches in Hr. revert H0.
  induction Hr as [w|w1 w2 w3 [l Hs] _ IH]; [done|]. intros H1. by eapply IH, Hstep.
Qed.

Lemma ledger_reaches lib w : reaches lib w → ledger w.
Proof. apply reaches_ind; [apply ledger_new|apply ledger_step]. Qed.

(** Answers name requests that were handed in, each at most once. *)
Lemma occ_elem (l : list (nat * MqttResult ())) id : (0 < occ (λ x, Some x.1) id l)%nat ↔ id ∈ l.*1.
Proof.
  induction l as [|[i x] l IH]; cbn; [split; [lia|by intros ?%elem_of_nil]|].
  rewrite elem_of_cons, <- IH. unfold one. case_decide; simplify_eq; [split; [by left|lia]|].
  split; [by right|]. intros [->|?]; [done|lia].
Qed.

Lemma occ_NoDup (l : list (nat * MqttResult ())) : (∀ id, occ (λ x, Some x.1) id l ≤ 1)%nat → NoDup l.*1.
Proof.
  induction l as [|[i x] l IH]; intros H; cbn; [constructor|]. constructor.
  - intros Hi%occ_elem. specialize (H i). cbn in H. unfold one in H. rewrite decide_True in H by done. lia.
  - apply IH. intros id. specialize (H id). cbn in H. lia.
Qed.

(** C12: every request handed to the client is answered at most once while it
    runs, and when the task has ended every one of them has been answered. *)
Theorem mqtt_settled_once lib w :
  reaches lib w →
  NoDup (wk_replies (w_worker w)).*1 ∧
  (w_pc w = Pc.Done → (wk_replies (w_worker w)).*1 ≡ₚ seq 0 (w_next w)).
Proof.
  intros Hw%ledger_reaches. pose proof (lg_one _ Hw) as H1. unfold held in H1.
  assert (NoDup (wk_replies (w_worker w)).*1) as Hnd.
  { apply occ_NoDup. intros id. specialize (H1 id). case_decide; lia. }
  split; [done|]. intros Hpc. pose proof (lg_settled _ Hw) as Hs. unfold pc_settled in Hs.
  rewrite Hpc in Hs. destruct Hs as (Hp & Ha & Hc). rewrite Hp, Ha, Hc in H1. cbn in H1.
  apply NoDup_Permutation; [done|apply NoDup_seq|]. intros id. specialize (H1 id).
  rewrite <- occ_elem, elem_of_seq. case_decide; lia.
Qed.

(** The in-flight metric counts the counted requests that the worker holds. *)
Theorem mqtt_inflight_exact lib w :
  reaches lib w →
  mm_inflight (wk_metrics (w_worker w)) =
    flagged pr_metrics_counted (wk_pending (w_worker w)) + flagged aa_metrics_counted (wk_awaiting_ack (w_worker w)) ∧
  inflight_gauge (wk_metrics (w_worker w)) = mm_inflight (wk_metrics (w_worker w)).
Proof.
  intros Hw%ledger_reaches. pose proof (lg_slack _ Hw) as S. unfold slack in S.
  pose proof (flagged_nonneg pr_metrics_counted (wk_pending (w_worker w))).
  pose proof (flagged_nonneg aa_metrics_counted (wk_awaiting_ack (w_worker w))). unfold inflight_gauge. lia.
Qed.

(** *** Bounds of the main loop *)
Definition main_loop (pc : Pc.t) : bool :=
  match pc with Pc.Backoff | Pc.Top | Pc.Receive | Pc.Select => true | _ => false end.

Lemma on_common_pending ev (w : Worker) : wk_pending (on_common_event ev w) = wk_pending w.
Proof.
  assert (∀ ack x (w : Worker), wk_pending (answer ack x w) = wk_pending w) as Ha by (intros [] ?? ; done).
  assert (∀ b f (w : Worker), wk_pending (observe_if b f w) = wk_pending w) as Ho by (intros [] ?? ; done).
  destruct ev; cbn; [done| | | |done..].
  - unfold on_publish_event. by repeat case_if.
  - unfold on_await_ack_event, park_collided. destruct (co_pkid _) as [q|]; [destruct (remove_first _ _) as [[e l]|]|];
      (case_if; cbn; rewrite ?Ha, ?Ho; done).
  - unfold on_puback_event, resolve_puback. case_bool_decide; (destruct (remove_first _ _) as [[e l]|]; rewrite ?Ha, ?Ho; done).
Qed.

Lemma on_poll_error_pending (w : Worker) : wk_pending (on_poll_error w) = wk_pending w.
Proof. unfold on_poll_error. by repeat case_bool_decide. Qed.

Lemma forward_pending_length limit (w : Worker) lib (w' : Worker) lib' :
  forward_pending (L := L) limit w lib = (w', lib') → (length (wk_pending w') ≤ length (wk_pending w))%nat.
Proof.
  unfold forward_pending. generalize (wk_pending w) at 1 2. intros l. generalize 0%nat. intros n. revert n w lib.
  induction l as [|r l IH]; intros n w lib; cbn [forward_loop]; [intros [= <- <-]; cbn; lia|].
  destruct (match limit with Some _ => _ | None => _ end); [intros [= <- <-]; cbn; lia|].
  destruct (try_publish _ _ _ lib) as [lib1 []]; [intros H%IH; cbn; lia|intros [= <- <-]; cbn; lia|intros H%IH; cbn; lia].
Qed.

Lemma accept_request_length max r (w : Worker) :
  (length (wk_pending (accept_request max r w)) ≤ S (length (wk_pending w)))%nat.
Proof.
  unfold accept_request. destruct (outcome_bind _ _) as [u|e|]; [|by destruct (pr_ack_tx r); cbn; lia|lia].
  set (w1 := match pr_deregister r with true => _ | false => _ end).
  assert (length (wk_pending w1) ≤ length (wk_pending w))%nat.
  { unfold w1. destruct (pr_deregister r), (pr_status_ids r); try done. unfold deregister; cbn.
    rewrite (settle_pending _ _ _ settling_removed). cbn. apply length_filter. }
  cbn. rewrite length_app. cbn. lia.
Qed.

Lemma republish_length wall cap queue (w : Worker) :
  (length (wk_pending w) ≤ cap)%nat → (length (wk_pending (republish_loop wall cap queue w)) ≤ cap)%nat.
Proof.
  revert w. induction queue as [|ids queue IH]; intros w Hw; cbn; (case_bool_decide; [|done]); [done|].
  apply IH. destruct (make_online_status_request _ ids); cbn; [|done]. rewrite length_app. cbn. lia.
Qed.

(** In the main loop the worker never holds more than [publish_capacity]
    requests that it has not forwarded. *)
Theorem mqtt_pending_bounded lib w :
  reaches lib w → main_loop (w_pc w) = true →
  (length (wk_pending (w_worker w)) ≤ mq_publish_capacity config)%nat.
Proof.
  intros Hr. pattern w. revert Hr. apply reaches_ind; clear w; [cbn; lia|].
  intros w l w' IH Hs. destruct Hs as [? ? ? Hs|? ? ? Hs|? ? ? Hs|? ? ? Hs]; destruct Hs; cbn [run_to take_channel w_worker w_pc main_loop]; intros Hm; try done; try (rewrite H in IH; specialize (IH eq_refl));
    try (exact IH); try (by apply IH).
  - case_if; [by apply republish_length|done].
  - apply andb_true_iff in H0 as [_ H0%bool_decide_eq_true_1].
    pose proof (accept_request_length (mq_max_packet_size config) r (w_worker w)). lia.
  - destruct (wk_connected (w_worker w)); [apply forward_pending_length in H1; lia|by simplify_eq].
  - apply andb_true_iff in H0 as [_ H0%bool_decide_eq_true_1].
    pose proof (accept_request_length (mq_max_packet_size config) r (w_worker w)). lia.
  - unfold on_main_event. destruct ev; rewrite on_common_pending; done.
  - by rewrite on_poll_error_pending.
  - destruct (offline_prefix _); done.
  - by destruct ev.
Qed.

(** *** Devices taken offline *)

(** The worker neither announces the device nor plans to. *)
Definition silent (ids : Ids) (k : Worker) : Prop :=
  (ids ∉ on_last (wk_online k)) ∧ (ids ∉ on_republish (wk_online k)) ∧
  Forall (λ r, online_of ids r = false) (wk_pending k).

Lemma accept_pending max r (k : Worker) :
  validate_publish_topic (pr_topic r) = Ok () → validate_payload_size (pr_topic r) (pr_payload r) max = Ok () →
  ∃ k1, accept_request max r k = set_pending (wk_pending k1 ++ [set_counted r]) (observe observe_accepted k1) ∧
    k1 = match pr_deregister r, pr_status_ids r with true, Some ids => deregister ids k | _, _ => k end.
Proof. intros H1 H2. unfold accept_request. rewrite H1. cbn [outcome_bind]. rewrite H2. eexists. split; [|reflexivity]. reflexivity. Qed.

(** An accepted [publish_offline] silences its device; its own message is the
    last one of the queue. *)
Lemma offline_silences max ids r (k : Worker) :
  pr_deregister r = true → pr_status_ids r = Some ids → pr_online_status r = false →
  validate_publish_topic (pr_topic r) = Ok () → validate_payload_size (pr_topic r) (pr_payload r) max = Ok () →
  silent ids (accept_request max r k) ∧ last (wk_pending (accept_request max r k)) = Some (set_counted r).
Proof.
  intros Hd Hs Ho H1 H2. destruct (accept_pending max r k H1 H2) as (k1 & -> & ->). rewrite Hd, Hs.
  split; [|cbn; by rewrite last_snoc]. unfold silent; cbn. split_and!.
  - unfold ids_remove. by intros [? _]%list_elem_of_filter.
  - by intros [? _]%list_elem_of_filter.
  - apply Forall_app. split; [|constructor; [|done]; unfold online_of; cbn; by rewrite Ho].
    rewrite (settle_pending _ _ _ settling_removed). cbn. apply Forall_forall. by intros x [? _]%list_elem_of_filter.
Qed.

Lemma ids_insert_elem x y l : x ∈ ids_insert y l → x = y ∨ x ∈ l.
Proof.
  induction l as [|z l IH]; cbn; [set_solver|]. case_decide; [set_solver|]. case_if; set_solver.
Qed.

Lemma silent_accept max ids r (k : Worker) : silent ids k → online_of ids r = false → silent ids (accept_request max r k).
Proof.
  intros Hk Hr. unfold accept_request. destruct (outcome_bind _ _) as [u|e|]; [|by destruct (pr_ack_tx r)|done].
  set (k1 := match pr_deregister r with true => _ | false => _ end).
  assert (silent ids k1) as (H1 & H2 & H3).
  { unfold k1. destruct (pr_deregister r), (pr_status_ids r) as [d|]; try done. destruct Hk as (H1 & H2 & H3).
    unfold silent, deregister; cbn. split_and!.
    - unfold ids_remove. intros [_ ?]%list_elem_of_filter. done.
    - intros [_ ?]%list_elem_of_filter. done.
    - rewrite (settle_pending _ _ _ settling_removed). cbn. apply Forall_forall. intros x [_ Hx]%list_elem_of_filter.
      rewrite Forall_forall in H3. auto. }
  unfold silent; cbn. split_and!; [done..|]. apply Forall_app. split; [done|]. by constructor.
Qed.

Lemma silent_republish wall cap ids queue (k : Worker) :
  ids ∉ queue → silent ids k → silent ids (republish_loop wall cap queue k).
Proof.
  revert k. induction queue as [|d queue IH]; intros k Hq Hk; cbn; case_bool_decide.
  - destruct Hk as (H1 & H2 & H3). unfold silent; cbn. split_and!; [done|by apply not_elem_of_nil|done].
  - by destruct Hk as (H1 & H2 & H3).
  - apply IH; [set_solver|]. unfold make_online_status_request, make_status_request.
    destruct (outcome_ok _) as [topic|]; cbn; [|done]. destruct Hk as (H1 & H2 & H3). unfold silent; cbn.
    split_and!; [done..|]. apply Forall_app. split; [done|]. constructor; [|done]. unfold online_of; cbn.
    apply bool_decide_eq_false. set_solver.
  - by destruct Hk as (H1 & H2 & H3).
Qed.

Lemma silent_forward limit n ids pending (k : Worker) lib k' lib' :
  forward_loop (L := L) limit n pending k lib = (k', lib') →
  ids ∉ on_last (wk_online k) → ids ∉ on_republish (wk_online k) → Forall (λ r, online_of ids r = false) pending →
  silent ids k'.
Proof.
  revert n k lib. induction pending as [|r pending IH]; intros n k lib; cbn [forward_loop].
  { intros [= <- <-] H1 H2 H3. done. }
  destruct (match limit with Some _ => _ | None => _ end); [by intros [= <- <-] H1 H2 H3|].
  destruct (try_publish _ _ _ lib) as [lib1 []]; [|by intros [= <- <-] H1 H2 H3|].
  - intros Hf H1 H2 [Hr H3]%Forall_cons. refine (IH _ _ _ Hf _ _ H3); cbn.
    + destruct (pr_online_status r) eqn:Ho, (pr_status_ids r) as [d|] eqn:Hd; cbn; try done.
      intros [->|?]%ids_insert_elem; [|done]. unfold online_of in Hr. rewrite Ho, Hd in Hr. cbn in Hr.
      by apply bool_decide_eq_false in Hr.
    + by destruct (pr_online_status r), (pr_status_ids r).
  - intros Hf H1 H2 [Hr H3]%Forall_cons.
    refine (IH _ _ _ Hf _ _ H3); by destruct (pr_ack_tx r), (pr_metrics_counted r).
Qed.

Lemma silent_push_offline wall ids (k : Worker) k' n : push_offline wall k = (k', n) → silent ids k → silent ids k'.
Proof.
  intros [= <- _] (H1 & H2 & H3). unfold silent; cbn. split_and!; [done..|]. apply Forall_app. split; [|done].
  apply Forall_forall. intros r (d & _ & Hr)%list_elem_of_omap.
  unfold make_offline_status_request, make_status_request in Hr.
  destruct (outcome_ok _) as [topic|]; cbn in Hr; by simplify_eq.
Qed.

Lemma on_common_online ev (k : Worker) : wk_online (on_common_event ev k) = wk_online k.
Proof.
  assert (∀ ack x (k : Worker), wk_online (answer ack x k) = wk_online k) as Ha by (intros [] ?? ; done).
  assert (∀ b f (k : Worker), wk_online (observe_if b f k) = wk_online k) as Ho by (intros [] ?? ; done).
  destruct ev; cbn; [done| | | |done..].
  - unfold on_publish_event. by repeat case_if.
  - unfold on_await_ack_event, park_collided. destruct (co_pkid _) as [q|]; [destruct (remove_first _ _) as [[e l]|]|];
      (case_if; cbn; rewrite ?Ha, ?Ho; done).
  - unfold on_puback_event, resolve_puback. case_bool_decide; (destruct (remove_first _ _) as [[e l]|]; rewrite ?Ha, ?Ho; done).
Qed.

Lemma silent_same ids (k k' : Worker) : wk_online k' = wk_online k → wk_pending k' = wk_pending k → silent ids k → silent ids k'.
Proof. unfold silent. by intros -> ->. Qed.

Lemma silent_poll_error ids (k : Worker) : silent ids k → silent ids (on_poll_error k).
Proof.
  intros (H1 & H2 & H3). unfold silent. rewrite on_poll_error_pending.
  assert (on_last (wk_online (on_poll_error k)) = on_last (wk_online k) ∧
    on_republish (wk_online (on_poll_error k)) = on_last (wk_online k)) as [-> ->]; [|done].
  unfold on_poll_error. by repeat case_bool_decide.
Qed.

Lemma fail_all_online channel err (k : Worker) : wk_online (fail_all_queued channel err k) = wk_online k.
Proof.
  unfold fail_all_queued. rewrite (settle_online _ _ _ (settling_awaiting err)). cbn.
  rewrite (settle_online _ _ _ (settling_request err)). cbn. apply (settle_online _ _ _ (settling_channel err)).
Qed.

Lemma silent_step ids w l w' :
  step w l w' → silent ids (w_worker w) →
  Forall (λ r, online_of ids r = false) (w_channel w) → silent ids (w_worker w').
Proof.
  intros Hs Hk Hc. destruct Hs as [? ? ? Hs|? ? ? Hs|? ? ? Hs|? ? ? Hs]; destruct Hs; cbn [run_to take_channel w_worker]; try done.
  - case_if; [|done]. apply silent_republish; [|done]. apply Hk.
  - rewrite H1 in Hc. apply Forall_cons in Hc as [Hr _]. by apply silent_accept.
  - destruct (wk_connected (w_worker w)); [|by simplify_eq]. destruct Hk as (K1 & K2 & K3). by eapply silent_forward.
  - rewrite H1 in Hc. apply Forall_cons in Hc as [Hr _]. by apply silent_accept.
  - unfold on_main_event. destruct ev; (eapply silent_same; [apply on_common_online|apply on_common_pending|exact Hk]).
  - by apply silent_poll_error.
  - by eapply silent_push_offline.
  - destruct Hk as (K1 & K2 & K3). by eapply silent_forward.
  - eapply silent_same; [apply on_common_online|apply on_common_pending|exact Hk].
  - eapply silent_same; [apply on_common_online|apply on_common_pending|exact Hk].
  - eapply silent_same; [apply on_common_online|apply on_common_pending|exact Hk].
  - destruct (fail_all_queued_absorbs (w_channel w) err (w_worker w)) as (_ & Hp & _).
    unfold silent. rewrite Hp, fail_all_online. destruct Hk as (K1 & K2 & _). by split_and!.
  - eapply silent_same; [apply (settle_online _ _ _ settling_removed)|apply (settle_pending _ _ _ settling_removed)|exact Hk].
Qed.

(** The main loop takes a request from the channel only by accepting it. *)
Lemma main_takes w w' r :
  step w None w' → main_loop (w_pc w) = true → w_channel w = r :: w_channel w' →
  w_worker w' = accept_request (mq_max_packet_size config) r (w_worker w).
Proof.
  assert (∀ (x : PublishRequest) l, l ≠ x :: l) as Hcons.
  { intros x l E. apply (f_equal length) in E. cbn in E. lia. }
  intros Hs Hm Hc. destruct Hs as [? ? ? Hs|? ? ? Hs|? ? ? Hs|? ? ? Hs]; destruct Hs;
    cbn [run_to take_channel w_worker w_channel] in *; try (by destruct (Hcons _ _ Hc));
    try (by rewrite H in Hm).
  - exfalso. apply (f_equal length) in Hc. cbn [length] in Hc. rewrite length_app in Hc. cbn in Hc. lia.
  - rewrite Hc in H1. by injection H1 as ->.
  - rewrite Hc in H1. by injection H1 as ->.
Qed.

(** A step while no client announces the device. *)
Definition unannounced (ids : Ids) (w w' : World L) : Prop :=
  any_step config w w' ∧ Forall (λ r, online_of ids r = false) (w_channel w).

(** C34: a device that is taken offline stays silent.  When the worker takes
    the request of a [publish_offline] from its channel, the device is no
    longer tracked as online nor waiting to be announced again, every request
    to announce it has left the queue and the offline message is its last
    element; and this stays so, through losses of the connection and the
    republishing after them, as long as no client announces the device. *)
Theorem mqtt_offline_stays wall id ids r w w1 w2 :
  publish (mq_max_packet_size config) (Publish.Offline wall ids.1 ids.2) id = Ok r →
  main_loop (w_pc w) = true → w_channel w = r :: w_channel w1 → step w None w1 →
  rtc (unannounced ids) w1 w2 →
  last (wk_pending (w_worker w1)) = Some (set_counted r) ∧ silent ids (w_worker w2).
Proof.
  intros Hp Hm Hc Hs Hr. rewrite (main_takes w w1 r Hs Hm Hc).
  cbn [publish] in Hp. destruct (status_topic _ _) as [topic| |]; [|done..]. cbn [outcome_bind] in Hp.
  apply publish_inner_valid in Hp as (-> & Ht & Hz).
  assert (silent ids (w_worker w1)) as H1.
  { rewrite (main_takes w w1 _ Hs Hm Hc). by apply offline_silences; destruct ids. }
  split; [by eapply (offline_silences _ ids); destruct ids|].
  clear Hs Hc. induction Hr as [w1|w1 w3 w2 [[l Hs] Hc] _ IH]; [done|]. apply IH. by eapply silent_step.
Qed.

(** Republishing takes devices from the front of its queue, one online request
    for each, until the worker's queue is full or no device is left; the
    request to republish is dropped only then. *)
Theorem republish_progress wall cap queue (k : Worker) :
  ∃ done rest, queue = done ++ rest ∧ on_republish (wk_online (republish_loop wall cap queue k)) = rest ∧
    wk_pending (republish_loop wall cap queue k) =
      wk_pending k ++ omap (λ d, set_counted <$> make_online_status_request (wall d) d) done ∧
    (rest = [] ∨ cap ≤ length (wk_pending (republish_loop wall cap queue k)))%nat ∧
    (on_needs_republish (wk_online (republish_loop wall cap queue k)) = false →
       on_needs_republish (wk_online k) = false ∨ rest = []).
Proof.
  revert k. induction queue as [|d queue IH]; intros k; cbn; case_bool_decide as Hl.
  - exists [], []. cbn. rewrite app_nil_r. split_and!; auto.
  - exists [], []. cbn. rewrite app_nil_r. split_and!; auto.
  - set (k1 := match make_online_status_request (wall d) d with Some _ => _ | None => k end).
    destruct (IH k1) as (dn & rest & E1 & E2 & E3 & E4 & E5). exists (d :: dn), rest. cbn.
    split_and!; [by rewrite E1|done| |done|].
    + rewrite E3. unfold k1. destruct (make_online_status_request (wall d) d); cbn; [|done]. by rewrite <- app_assoc.
    + intros H%E5. unfold k1 in H. by destruct (make_online_status_request (wall d) d).
  - exists [], (d :: queue). cbn. rewrite app_nil_r. split_and!; auto. right. lia.
Qed.
End runs.
