(* ===== verification/MqttAcks.v ===== *)
(** * Which message an acknowledgement is for

    The worker decides by packet identifier which request a PUBACK answers,
    although the library chooses the identifiers and the worker learns them
    only from the order of its write events.  [Lib] is what the library
    promises about that order, as client.rs documents it (at [AwaitingAck],
    [assign_pkid], [park_collided], [on_publish_event] and [reset_pkids]): an
    accepted message has a number; it waits in the queue for retransmission or
    in the channel, then occupies the slot of its identifier, or is parked
    while that slot is taken.  [RumqttcLaws] says that a library has such a view.

    The theorem: as long as no connection is lost while a message is parked,
    nor during the first phase of a shutdown, a request is reported as
    acknowledged only when the broker has acknowledged its own message. *)

From S2P Require Import Prelude RustStd MqttConfig MqttClient MqttClientLaws.
From stdpp Require Import options.

#[local] Set Default Proof Using "Type".

(** ** The documented behaviour of the library *)
Record Lib : Type := mkLib {
  lb_pending : list nat;                (* to be sent again after a reconnection *)
  lb_channel : list nat;                (* accepted, not yet written *)
  lb_slots : gmap Z nat;                (* written, by packet identifier *)
  lb_collision : option (Z * nat);      (* parked until the identifier is free *)
  lb_answering : option (Z * nat);      (* confirmed, its PUBACK is the next event *)
  lb_last_puback : Z;
  lb_accepted : nat;                    (* messages accepted so far *)
  lb_confirmed : gset nat;              (* messages the broker has acknowledged *)
}.

Definition lib_new : Lib := mkLib [] [] ∅ None None 0 0 ∅.

Definition lib_accept (v : Lib) : Lib :=
  mkLib (lb_pending v) (lb_channel v ++ [lb_accepted v]) (lb_slots v) (lb_collision v)
    (lb_answering v) (lb_last_puback v) (S (lb_accepted v)) (lb_confirmed v).

(** The next message to be written: retransmissions first. *)
Definition lib_pop (v : Lib) : option (nat * Lib) :=
  match lb_pending v, lb_channel v with
  | n :: l, c =>
      Some (n, mkLib l c (lb_slots v) (lb_collision v) (lb_answering v) (lb_last_puback v)
        (lb_accepted v) (lb_confirmed v))
  | [], n :: l =>
      Some (n, mkLib [] l (lb_slots v) (lb_collision v) (lb_answering v) (lb_last_puback v)
        (lb_accepted v) (lb_confirmed v))
  | [], [] => None
  end.

Definition lib_set_slots (m : gmap Z nat) (v : Lib) : Lib :=
  mkLib (lb_pending v) (lb_channel v) m (lb_collision v) (lb_answering v) (lb_last_puback v)
    (lb_accepted v) (lb_confirmed v).
Definition lib_set_collision (c : option (Z * nat)) (v : Lib) : Lib :=
  mkLib (lb_pending v) (lb_channel v) (lb_slots v) c (lb_answering v) (lb_last_puback v)
    (lb_accepted v) (lb_confirmed v).
Definition lib_set_answering (a : option (Z * nat)) (v : Lib) : Lib :=
  mkLib (lb_pending v) (lb_channel v) (lb_slots v) (lb_collision v) a (lb_last_puback v)
    (lb_accepted v) (lb_confirmed v).
Definition lib_puback (p : Z) (v : Lib) : Lib :=
  mkLib (lb_pending v) (lb_channel v) (lb_slots v) (lb_collision v) (lb_answering v) p
    (lb_accepted v) (lb_confirmed v).
Definition lib_confirm (n : nat) (v : Lib) : Lib :=
  mkLib (lb_pending v) (lb_channel v) (lb_slots v) (lb_collision v) (lb_answering v)
    (lb_last_puback v) (lb_accepted v) ({[n]} ∪ lb_confirmed v).

(** The messages in flight in the order of [MqttState::clean]: identifiers
    above the last acknowledged one first. *)
Definition slot_leb (last : Z) (a b : Z * nat) : bool :=
  key_leb (1, a.1 <=? last, a.1) (1, b.1 <=? last, b.1).
Definition clean_order (last : Z) (m : gmap Z nat) : list nat := (sort_by (slot_leb last) (map_to_list m)).*2.

Definition lib_clean (v : Lib) : Lib :=
  mkLib (lb_pending v ++ clean_order (lb_last_puback v) (lb_slots v) ++ lb_channel v) [] ∅
    (lb_collision v) (lb_answering v) (lb_last_puback v) (lb_accepted v) (lb_confirmed v).

Inductive delivers : Lib → Event.t → Lib → Prop :=
(* a message is written into a free slot *)
| dl_write v p n v1 :
    lb_answering v = None → lib_pop v = Some (n, v1) → lb_slots v !! p = None →
    delivers v (Event.Publish p) (lib_set_slots (<[p := n]> (lb_slots v)) v1)
(* its slot is taken: it is parked, over a message that was parked before *)
| dl_collide v p n v1 :
    lb_answering v = None → lib_pop v = Some (n, v1) → is_Some (lb_slots v !! p) →
    delivers v (Event.AwaitAck p) (lib_set_collision (Some (p, n)) v1)
(* an acknowledgement frees the slot *)
| dl_puback v p n :
    lb_answering v = None → lb_slots v !! p = Some n → fst <$> lb_collision v ≠ Some p →
    delivers v (Event.PubAck p) (lib_puback p (lib_confirm n (lib_set_slots (delete p (lb_slots v)) v)))
(* or lets the parked message in: first the write, then the acknowledgement *)
| dl_recover v p n o :
    lb_answering v = None → lb_slots v !! p = Some o → lb_collision v = Some (p, n) →
    delivers v (Event.Publish p)
      (lib_confirm o (lib_set_answering (Some (p, o)) (lib_set_collision None
        (lib_set_slots (<[p := n]> (lb_slots v)) v))))
| dl_recovered v p o :
    lb_answering v = Some (p, o) →
    delivers v (Event.PubAck p) (lib_puback p (lib_set_answering None v))
| dl_unsolicited v p :
    lb_answering v = None → lb_slots v !! p = None → delivers v (Event.PubAck p) (lib_puback p v)
| dl_other v ev :
    lb_answering v = None →
    match ev with Event.ConnAck | Event.Disconnect | Event.Other => True | _ => False end →
    delivers v ev v
(* the connection is lost; the parked message stays parked *)
| dl_error v : lb_answering v = None → delivers v Event.Error (lib_clean v).

Class RumqttcLaws (L : Type) `{!Rumqttc L} : Type := {
  view : L → Lib;
  view_sent topic retain payload lib lib' :
    try_publish topic retain payload lib = (lib', TryPublish.Sent) → view lib' = lib_accept (view lib);
  view_refused topic retain payload lib lib' res :
    try_publish topic retain payload lib = (lib', res) → res ≠ TryPublish.Sent → view lib' = view lib;
  view_poll lib ev lib' : poll lib ev lib' → delivers (view lib) ev (view lib');
  view_disconnect lib lib' : disconnect lib = Some lib' → view lib' = view lib;
}.

(** ** Lists of entries *)
Lemma update_first_at p f l1 e l2 :
  Forall (λ x, p x = false) l1 → p e = true → update_first p f (l1 ++ e :: l2) = l1 ++ f e :: l2.
Proof. intros H He. induction H as [|x l1 Hx _ IH]; cbn; [by rewrite He|by rewrite Hx, IH]. Qed.

Lemma update_first_none p f l : Forall (λ x, p x = false) l → update_first p f l = l.
Proof. induction 1 as [|x l Hx _ IH]; cbn; [done|by rewrite Hx, IH]. Qed.

Lemma remove_first_at p l1 e l2 :
  Forall (λ x, p x = false) l1 → p e = true → remove_first p (l1 ++ e :: l2) = Some (e, l1 ++ l2).
Proof. intros H He. induction H as [|x l1 Hx _ IH]; cbn; [by rewrite He|by rewrite Hx, IH]. Qed.

Lemma remove_first_none p l : Forall (λ x, p x = false) l → remove_first p l = None.
Proof. induction 1 as [|x l Hx _ IH]; cbn; [done|by rewrite Hx, IH]. Qed.

Lemma existsb_at (p : AwaitingAck → bool) l1 e l2 : p e = true → existsb p (l1 ++ e :: l2) = true.
Proof. intros He. induction l1 as [|x l1 IH]; cbn; [by rewrite He|]. rewrite IH. apply orb_true_r. Qed.

Lemma existsb_none (p : AwaitingAck → bool) l : Forall (λ x, p x = false) l → existsb p l = false.
Proof. induction 1 as [|x l Hx _ IH]; cbn; [done|by rewrite Hx, IH]. Qed.

Definition before (a b : nat) (l : list nat) : Prop := sublist [a; b] l.

Lemma before_remove a b n l1 l2 : before a b (l1 ++ n :: l2) → a ≠ n → b ≠ n → before a b (l1 ++ l2).
Proof.
  unfold before. intros (k1 & k2 & Hk & H1 & H2)%sublist_app_r Ha Hb. rewrite Hk. apply sublist_app; [done|].
  apply sublist_cons_r in H2 as [H2|(k & -> & _)]; [done|]. exfalso.
  assert (n ∈ [a; b]) as Hn by (rewrite Hk; set_solver). set_solver.
Qed.

Lemma before_app_l a b l1 l2 : before a b l1 → before a b (l1 ++ l2).
Proof. unfold before. intros H. by apply sublist_inserts_r. Qed.

Lemma before_last a b l : a ∈ l → before a b (l ++ [b]).
Proof. intros H. unfold before. apply (sublist_app [a] l [b] [b]); [by apply singleton_sublist_l|done]. Qed.

(** Of two elements the first one is found first. *)
Lemma before_split a b l1 l2 : before a b (l1 ++ b :: l2) → NoDup (l1 ++ b :: l2) → a ∈ l1.
Proof.
  unfold before. intros (k1 & k2 & Hk & H1 & H2)%sublist_app_r Hnd.
  apply NoDup_app in Hnd as (_ & Hd & Hnd). apply NoDup_cons in Hnd as [Hb _].
  destruct k1 as [|x k1]; cbn in Hk.
  - subst k2. exfalso. apply sublist_cons_r in H2 as [H2|(k & [= -> <-] & H2)].
    + apply Hb. eapply elem_of_sublist; [|exact H2]. set_solver.
    + apply Hb. eapply elem_of_sublist; [|exact H2]. set_solver.
  - injection Hk as <- Hk. eapply elem_of_sublist; [|exact H1]. by left.
Qed.

(** ** The worker's list and the library's view

    [A] are the entries that were written or parked, [P] those waiting for
    retransmission, [C] those still in the channel; every entry carries the
    number of its message. *)
Abbreviation Entry := (nat * AwaitingAck)%type.

Definition written (v : Lib) (x : Entry) : Prop :=
  match aa_pkid x.2 with
  | Some p =>
      aa_parked_pkid x.2 = None ∧ (lb_slots v !! p = Some x.1 ∨ lb_answering v = Some (p, x.1))
  | None => ∃ p, aa_parked_pkid x.2 = Some p ∧ lb_collision v = Some (p, x.1)
  end.

Definition waiting (leftover : bool) (x : Entry) : Prop :=
  unassigned x.2 = true ∧ aa_leftover x.2 = leftover.

Record agrees (w : Worker) (v : Lib) (A P C : list Entry) : Prop := {
  ag_awaiting : wk_awaiting_ack w = (A ++ P ++ C).*2;
  ag_ids : Forall (λ x, wk_forwarded w !! x.1 = Some (aa_ack_tx x.2)) (A ++ P ++ C);
  ag_nodup : NoDup (A ++ P ++ C).*1;
  ag_accepted : length (wk_forwarded w) = lb_accepted v;
  ag_pending : P.*1 = lb_pending v;
  ag_pending_ok : Forall (waiting true) P;
  ag_channel : C.*1 = lb_channel v;
  ag_channel_ok : Forall (waiting false) C;
  ag_written : Forall (written v) A;
  ag_slots p n : lb_slots v !! p = Some n → ∃ e, (n, e) ∈ A ∧ aa_pkid e = Some p;
  ag_state : wk_collision w = mkCollision (fst <$> lb_collision v) false false;
  ag_parked p n : lb_collision v = Some (p, n) →
    ∃ e o, (n, e) ∈ A ∧ aa_pkid e = None ∧ lb_slots v !! p = Some o ∧ before o n A.*1;
  ag_answering p o : lb_answering v = Some (p, o) →
    lb_collision v = None ∧ o ∈ lb_confirmed v ∧
    ∃ e, (o, e) ∈ A ∧ aa_pkid e = Some p ∧ ∀ n, lb_slots v !! p = Some n → before o n A.*1;
}.

(** Requests answered with success belong to confirmed messages. *)
Definition acks_ok (w : Worker) (v : Lib) : Prop :=
  ∀ id, (id, Ok ()) ∈ wk_replies w → ∃ n, wk_forwarded w !! n = Some (Some id) ∧ n ∈ lb_confirmed v.

Definition tracked (w : Worker) (v : Lib) : Prop := acks_ok w v ∧ ∃ A P C, agrees w v A P C.

Lemma unassigned_true e : unassigned e = true ↔ aa_pkid e = None ∧ aa_parked_pkid e = None.
Proof. unfold unassigned. rewrite andb_true_iff, !bool_decide_eq_true. done. Qed.

Lemma written_assigned v x : written v x → unassigned x.2 = false.
Proof.
  unfold written, unassigned. destruct (aa_pkid x.2); cbn; [done|]. intros (p & -> & _). done.
Qed.

Lemma NoDup_entries (l : list Entry) n e e' : NoDup l.*1 → (n, e) ∈ l → (n, e') ∈ l → e = e'.
Proof.
  intros Hnd (i & Hi)%list_elem_of_lookup (j & Hj)%list_elem_of_lookup.
  assert (i = j) as ->; [|congruence].
  eapply NoDup_lookup; [exact Hnd| |]; rewrite list_lookup_fmap; [by rewrite Hi|by rewrite Hj].
Qed.

Lemma Forall_snd (Q : AwaitingAck → Prop) (l : list Entry) : Forall (λ x, Q x.2) l → Forall Q l.*2.
Proof. intros H. by apply Forall_fmap. Qed.

Section agree.
Context {w : Worker} {v : Lib} {A P C : list Entry} (H : agrees w v A P C).

Lemma ag_nodup_A : NoDup A.*1.
Proof using H.
  pose proof (ag_nodup _ _ _ _ _ H) as Hn. rewrite fmap_app in Hn. by apply NoDup_app in Hn as [? _].
Qed.

Lemma ag_no_free_A : Forall (λ e, unassigned e = false) A.*2.
Proof using H.
  apply Forall_snd. eapply Forall_impl; [exact (ag_written _ _ _ _ _ H)|]. intros x. apply written_assigned.
Qed.

(** The entry with identifier [p] outside of a recovery is the slot's. *)
Lemma ag_pkid_slot n e p : (n, e) ∈ A → aa_pkid e = Some p → lb_slots v !! p = Some n ∨ lb_answering v = Some (p, n).
Proof using H.
  intros Hx Hp. pose proof (ag_written _ _ _ _ _ H) as Hw. rewrite Forall_forall in Hw.
  specialize (Hw _ Hx). unfold written in Hw; cbn in Hw. rewrite Hp in Hw. tauto.
Qed.

(** The library's next message is the worker's first free entry. *)
Lemma ag_pop n v1 :
  lib_pop v = Some (n, v1) →
  ∃ e P' C', P ++ C = (n, e) :: P' ++ C' ∧ unassigned e = true ∧
    P'.*1 = lb_pending v1 ∧ Forall (waiting true) P' ∧ C'.*1 = lb_channel v1 ∧ Forall (waiting false) C' ∧
    lb_slots v1 = lb_slots v ∧ lb_collision v1 = lb_collision v ∧ lb_answering v1 = lb_answering v ∧
    lb_last_puback v1 = lb_last_puback v ∧ lb_accepted v1 = lb_accepted v ∧ lb_confirmed v1 = lb_confirmed v.
Proof using H.
  destruct H as [_ _ _ _ Hp Hpo Hc Hco _ _ _ _ _]. unfold lib_pop. rewrite <- Hp, <- Hc.
  destruct P as [|[m e] P'].
  - cbn. destruct C as [|[m e] C']; [done|]. cbn. intros [= -> <-]. inversion Hco as [|?? [Hu _] Hco']; subst.
    exists e, [], C'. by split_and!.
  - cbn. intros [= -> <-]. inversion Hpo as [|?? [Hu _] Hpo']; subst. exists e, P', C. by split_and!.
Qed.

Lemma ag_not_parked p : lb_slots v !! p = None → Forall (λ e, parked_at p e = false) (A ++ P ++ C).*2.
Proof using H.
  intros Hs. apply Forall_snd. rewrite !Forall_app. split_and!.
  - eapply Forall_impl; [exact (ag_written _ _ _ _ _ H)|]. intros x Hx. unfold written in Hx. unfold parked_at.
    apply bool_decide_eq_false. destruct (aa_pkid x.2); [by destruct Hx as [-> _]|].
    destruct Hx as (q & -> & Hc). intros [= ->]. destruct (ag_parked _ _ _ _ _ H _ _ Hc) as (e & o & _ & _ & Ho & _).
    congruence.
  - eapply Forall_impl; [exact (ag_pending_ok _ _ _ _ _ H)|]. intros x [[_ Hu]%unassigned_true _].
    unfold parked_at. by rewrite Hu.
  - eapply Forall_impl; [exact (ag_channel_ok _ _ _ _ _ H)|]. intros x [[_ Hu]%unassigned_true _].
    unfold parked_at. by rewrite Hu.
Qed.

(** The first free entry moves to the written ones. *)
Lemma ag_shift n e f P' C' :
  P ++ C = (n, e) :: P' ++ C' → unassigned e = true → (aa_ack_tx (f e) = aa_ack_tx e) →
  update_first unassigned f (wk_awaiting_ack w) = ((A ++ [(n, f e)]) ++ P' ++ C').*2 ∧
  Forall (λ x, wk_forwarded w !! x.1 = Some (aa_ack_tx x.2)) ((A ++ [(n, f e)]) ++ P' ++ C') ∧
  NoDup ((A ++ [(n, f e)]) ++ P' ++ C').*1 ∧ existsb unassigned (wk_awaiting_ack w) = true.
Proof using H.
  intros Hl Hu Hf. pose proof (ag_ids _ _ _ _ _ H) as Hi. pose proof (ag_nodup _ _ _ _ _ H) as Hn.
  rewrite (ag_awaiting _ _ _ _ _ H). rewrite Hl in *. rewrite <- !app_assoc. cbn [app].
  split_and!.
  - rewrite !fmap_app. cbn. apply update_first_at; [apply ag_no_free_A|done].
  - apply Forall_app in Hi as [Hi1 Hi2]. inversion Hi2; subst. apply Forall_app. split; [done|].
    constructor; [cbn; by rewrite Hf|done].
  - rewrite !fmap_app in *. done.
  - rewrite !fmap_app. cbn. by apply existsb_at.
Qed.
End agree.

(** ** Events *)
Lemma delivers_write w v A P C p n v1 :
  agrees w v A P C → lb_answering v = None → lib_pop v = Some (n, v1) → lb_slots v !! p = None →
  ∃ A' P' C', agrees (on_publish_event p w) (lib_set_slots (<[p := n]> (lb_slots v)) v1) A' P' C'.
Proof.
  intros H Ha Hp Hs. destruct (ag_pop H n v1 Hp) as (e & P' & C' & Hl & Hu & Hp1 & Hp2 & Hc1 & Hc2 & E1 & E2 & E3 & E4 & E5 & E6).
  destruct (ag_shift H n e (set_pkid (Some p)) P' C' Hl Hu eq_refl) as (S1 & S2 & S3 & _).
  pose proof (proj1 (unassigned_true e) Hu) as [_ Hpk].
  exists (A ++ [(n, set_pkid (Some p) e)]), P', C'.
  assert (on_publish_event p w = assign_pkid p w) as ->.
  { unfold on_publish_event. rewrite existsb_none; [done|]. rewrite (ag_awaiting _ _ _ _ _ H). by apply (ag_not_parked H). }
  split; cbn; try done; rewrite ?E2, ?E3.
  - by rewrite E5, (ag_accepted _ _ _ _ _ H).
  - apply Forall_app. split.
    + eapply Forall_impl; [exact (ag_written _ _ _ _ _ H)|]. intros x. unfold written; cbn. rewrite E2, E3, Ha.
      destruct (aa_pkid x.2) as [q|]; [|done]. intros [? [Hx|Hx]]; [|done]. split; [done|left].
      rewrite lookup_insert_ne; [done|congruence].
    + constructor; [|constructor]. unfold written; cbn. split; [done|]. left. apply lookup_insert_eq.
  - intros q m. rewrite lookup_insert_Some. intros [[<- <-]|[_ Hq]].
    + exists (set_pkid (Some p) e). split; [set_solver|done].
    + destruct (ag_slots _ _ _ _ _ H q m Hq) as (e' & ? & ?). exists e'. split; [set_solver|done].
  - apply (ag_state _ _ _ _ _ H).
  - intros q m Hq. destruct (ag_parked _ _ _ _ _ H q m Hq) as (e' & o & ? & ? & Ho & ?). exists e', o.
    split_and!; [set_solver|done| |].
    + rewrite lookup_insert_ne; [done|congruence].
    + rewrite fmap_app. by apply before_app_l.
  - congruence.
Qed.

(** Splitting [A] at an entry: its number occurs nowhere else. *)
Lemma entry_split (A : list Entry) n e :
  NoDup A.*1 → (n, e) ∈ A → ∃ A1 A2, A = A1 ++ (n, e) :: A2 ∧ Forall (λ x, x.1 ≠ n) A1 ∧ Forall (λ x, x.1 ≠ n) A2.
Proof.
  intros Hnd (A1 & A2 & ->)%list_elem_of_split. exists A1, A2. split; [done|].
  rewrite fmap_app in Hnd. cbn in Hnd. apply NoDup_app in Hnd as (_ & Hd & [Hn _]%NoDup_cons).
  split; apply Forall_forall; intros x Hx <-.
  - apply (Hd x.1); [by apply list_elem_of_fmap_2|by left].
  - apply Hn. by apply list_elem_of_fmap_2.
Qed.

Lemma elem_of_other {X} (A1 A2 : list X) x y : x ∈ A1 ++ y :: A2 → x ≠ y → x ∈ A1 ++ A2.
Proof. set_solver. Qed.

Lemma delivers_recover w v A P C p n o :
  agrees w v A P C → lb_answering v = None → lb_slots v !! p = Some o → lb_collision v = Some (p, n) →
  ∃ A', agrees (on_publish_event p w)
    (lib_confirm o (lib_set_answering (Some (p, o)) (lib_set_collision None (lib_set_slots (<[p := n]> (lb_slots v)) v)))) A' P C.
Proof.
  intros H Ha Hs Hc. pose proof (ag_nodup_A H) as Hnd.
  destruct (ag_parked _ _ _ _ _ H _ _ Hc) as (e & o' & He & Hpk & Ho & Hb). rewrite Hs in Ho. injection Ho as <-.
  destruct (entry_split A n e Hnd He) as (A1 & A2 & -> & H1 & H2).
  pose proof (ag_written _ _ _ _ _ H) as Hw. apply Forall_app in Hw as [Hw1 Hw2]. inversion Hw2 as [|?? Hwe Hw2']; subst.
  assert (aa_parked_pkid e = Some p) as Hpar.
  { unfold written in Hwe; cbn in Hwe. rewrite Hpk in Hwe. destruct Hwe as (q & Hq & Hcq). congruence. }
  set (e' := set_pkid (Some p) (set_parked None e)).
  assert (wk_awaiting_ack (on_publish_event p w) = ((A1 ++ (n, e') :: A2) ++ P ++ C).*2 ∧
    wk_collision (on_publish_event p w) = mkCollision None false false) as [Haw Hst].
  { unfold on_publish_event. rewrite (ag_awaiting _ _ _ _ _ H), (ag_state _ _ _ _ _ H). cbn.
    rewrite <- app_assoc. cbn [app]. rewrite !fmap_app. cbn.
    rewrite existsb_at by (unfold parked_at; by rewrite Hpar, bool_decide_true). cbn. split; [|done].
    rewrite update_first_at; [|apply Forall_snd|by unfold parked_at; rewrite Hpar, bool_decide_true].
    2:{ rewrite Forall_forall in *. intros x Hx. specialize (Hw1 _ Hx). specialize (H1 _ Hx). unfold parked_at.
        apply bool_decide_eq_false. unfold written in Hw1. destruct (aa_pkid x.2); [by destruct Hw1 as [-> _]|].
        destruct Hw1 as (q & -> & Hq). intros [= ->]. rewrite Hc in Hq. by injection Hq as ->. }
    rewrite update_first_at; [by rewrite !fmap_app, <- app_assoc| |].
    - apply Forall_snd. eapply Forall_impl; [exact Hw1|]. intros x. apply written_assigned.
    - apply unassigned_true. by split. }
  assert (wk_forwarded (on_publish_event p w) = wk_forwarded w) as Hf.
  { unfold on_publish_event. by repeat case_if. }
  generalize dependent (on_publish_event p w). intros w' Haw Hst Hf.
  pose proof (ag_ids _ _ _ _ _ H) as Hi. pose proof (ag_nodup _ _ _ _ _ H) as Hn.
  assert ((A1 ++ (n, e') :: A2).*1 = (A1 ++ (n, e) :: A2).*1) as Hfst by (rewrite !fmap_app; done).
  exists (A1 ++ (n, e') :: A2). split; cbn; rewrite ?Hf; try apply H.
  - done.
  - rewrite !Forall_app, !Forall_cons in *. tauto.
  - rewrite fmap_app, Hfst, <- fmap_app. done.
  - assert (∀ x, x.1 ≠ n → written v x → written (lib_confirm o (lib_set_answering (Some (p, o))
      (lib_set_collision None (lib_set_slots (<[p := n]> (lb_slots v)) v)))) x) as Hstep.
    { intros x Hx. unfold written; cbn. rewrite Ha. destruct (aa_pkid x.2) as [q|].
      - intros [? [Hq|Hq]]; [|done]. split; [done|]. destruct (decide (q = p)) as [->|]; [right|left].
        + congruence.
        + by rewrite lookup_insert_ne.
      - intros (q & _ & Hq). rewrite Hc in Hq. by injection Hq as -> ->. }
    apply Forall_app. split; [|constructor].
    + rewrite Forall_forall in *. auto.
    + unfold written; cbn. split; [done|left]. apply lookup_insert_eq.
    + rewrite Forall_forall in *. auto.
  - intros q m. rewrite lookup_insert_Some. intros [[<- <-]|[Hne Hq]]; [exists e'; split; [set_solver|done]|].
    destruct (ag_slots _ _ _ _ _ H q m Hq) as (e'' & Hm & Hpm). exists e''. split; [|done].
    apply (elem_of_other A1 A2 _ (n, e)) in Hm; [set_solver|]. intros [= -> ->]. congruence.
  - done.
  - done.
  - intros q o2 [= <- <-]. split; [done|]. split; [set_solver|].
    destruct (ag_slots _ _ _ _ _ H p o Hs) as (eo & Hm & Hpm). exists eo. split_and!; [|done|].
    + apply (elem_of_other A1 A2 _ (n, e)) in Hm; [set_solver|]. intros [= -> ->]. congruence.
    + intros m. rewrite lookup_insert_eq. intros [= <-]. by rewrite Hfst.
Qed.

(** Removing a written entry from the list. *)
Lemma ag_remove w v A1 n e A2 P C :
  agrees w v (A1 ++ (n, e) :: A2) P C →
  Forall (λ x, wk_forwarded w !! x.1 = Some (aa_ack_tx x.2)) ((A1 ++ A2) ++ P ++ C) ∧
  NoDup ((A1 ++ A2) ++ P ++ C).*1 ∧ wk_forwarded w !! n = Some (aa_ack_tx e) ∧
  ∀ p : AwaitingAck → bool, Forall (λ x, p x.2 = false) A1 → p e = true →
    remove_first p (wk_awaiting_ack w) = Some (e, ((A1 ++ A2) ++ P ++ C).*2).
Proof.
  intros H. pose proof (ag_ids _ _ _ _ _ H) as Hi. pose proof (ag_nodup _ _ _ _ _ H) as Hn.
  rewrite !Forall_app, !Forall_cons in Hi. split_and!.
  - rewrite !Forall_app. tauto.
  - refine (sublist_NoDup _ _ Hn _). rewrite !fmap_app. apply sublist_app; [|done].
    apply sublist_app; [done|]. cbn. by apply sublist_cons.
  - tauto.
  - intros p Hp1 Hp2. rewrite (ag_awaiting _ _ _ _ _ H), <- !app_assoc, !fmap_app. cbn.
    rewrite remove_first_at; [by rewrite <- !fmap_app|by apply Forall_snd|done].
Qed.

(** The parked message that is overwritten leaves the list. *)
Lemma drop_parked w v A P C q m ans :
  agrees w v A P C → lb_answering v = None → lb_collision v = Some (q, m) →
  ∃ A' e rest, remove_first (parked_at q) (wk_awaiting_ack w) = Some (e, rest) ∧
    agrees (set_collision (mkCollision None false false) (answer (aa_ack_tx e) (Err ans)
      (observe_if (aa_metrics_counted e) observe_failed (set_awaiting rest w)))) (lib_set_collision None v) A' P C.
Proof.
  intros H Ha Hc. pose proof (ag_nodup_A H) as Hnd.
  destruct (ag_parked _ _ _ _ _ H _ _ Hc) as (e & o & He & Hpk & Ho & Hb).
  destruct (entry_split A m e Hnd He) as (A1 & A2 & -> & H1 & H2).
  destruct (ag_remove _ _ _ _ _ _ _ _ H) as (R1 & R2 & _ & R4).
  pose proof (ag_written _ _ _ _ _ H) as Hw. apply Forall_app in Hw as [Hw1 Hw2]. inversion Hw2 as [|?? Hwe Hw2']; subst.
  assert (aa_parked_pkid e = Some q) as Hpar.
  { unfold written in Hwe; cbn in Hwe. rewrite Hpk in Hwe. destruct Hwe as (q' & Hq & Hcq). congruence. }
  assert (∀ x, x.1 ≠ m → written v x → aa_parked_pkid x.2 = None ∧ written (lib_set_collision None v) x) as Hstep.
  { intros x Hx. unfold written; cbn. destruct (aa_pkid x.2) as [p|]; [tauto|].
    intros (p & _ & Hp). rewrite Hc in Hp. by injection Hp as -> ->. }
  exists (A1 ++ A2), e, ((A1 ++ A2) ++ P ++ C).*2. split.
  { apply R4; [|by unfold parked_at; rewrite Hpar, bool_decide_true]. rewrite Forall_forall in *. intros x Hx.
    destruct (Hstep x (H1 _ Hx) (Hw1 _ Hx)) as [Hn _]. unfold parked_at. by rewrite Hn. }
  set (w' := set_collision _ _).
  assert (wk_awaiting_ack w' = ((A1 ++ A2) ++ P ++ C).*2) as Haw by (unfold w'; by destruct (aa_ack_tx e), (aa_metrics_counted e)).
  assert (wk_forwarded w' = wk_forwarded w) as Hf by (unfold w'; by destruct (aa_ack_tx e), (aa_metrics_counted e)).
  assert (wk_collision w' = mkCollision None false false) as Hst by done.
  clearbody w'. split; cbn; rewrite ?Hf; try apply H; try done.
  - apply Forall_app. rewrite !Forall_forall in *. split; intros x Hx; [by apply Hstep; auto|by apply Hstep; auto].
  - intros p n Hp. destruct (ag_slots _ _ _ _ _ H p n Hp) as (e' & Hm & Hpm). exists e'. split; [|done].
    apply (elem_of_other A1 A2 _ (m, e)) in Hm; [done|]. intros [= -> ->]. congruence.
  - congruence.
Qed.

(** The next message is parked. *)
Lemma park_next w v A P C p n v1 :
  agrees w v A P C → lb_answering v = None → lb_collision v = None → lib_pop v = Some (n, v1) →
  is_Some (lb_slots v !! p) →
  existsb unassigned (wk_awaiting_ack w) = true ∧
  ∃ A' P' C', agrees (park_collided p w) (lib_set_collision (Some (p, n)) v1) A' P' C'.
Proof.
  intros H Ha Hc Hp [o Ho].
  destruct (ag_pop H n v1 Hp) as (e & P' & C' & Hl & Hu & Hp1 & Hp2 & Hc1 & Hc2 & E1 & E2 & E3 & E4 & E5 & E6).
  destruct (ag_shift H n e (set_parked (Some p)) P' C' Hl Hu eq_refl) as (S1 & S2 & S3 & S4).
  pose proof (proj1 (unassigned_true e) Hu) as [Hpk _].
  split; [done|]. exists (A ++ [(n, set_parked (Some p) e)]), P', C'.
  unfold park_collided. rewrite S4, (ag_state _ _ _ _ _ H). cbn.
  split; cbn; try done; rewrite ?E1, ?E3.
  - by rewrite E5, (ag_accepted _ _ _ _ _ H).
  - apply Forall_app. split.
    + eapply Forall_impl; [exact (ag_written _ _ _ _ _ H)|]. intros x. unfold written; cbn. rewrite E1, E3, Hc.
      destruct (aa_pkid x.2) as [q|]; [done|]. by intros (q & _ & ?).
    + constructor; [|constructor]. unfold written; cbn. rewrite Hpk. by exists p.
  - intros q m Hq. destruct (ag_slots _ _ _ _ _ H q m Hq) as (e' & ? & ?). exists e'. split; [set_solver|done].
  - intros q m [= <- <-]. exists (set_parked (Some p) e), o. split_and!; [set_solver|done|done|].
    rewrite fmap_app. cbn. apply before_last. destruct (ag_slots _ _ _ _ _ H p o Ho) as (e' & Hx & _).
    by apply (list_elem_of_fmap_2 fst _ _ Hx).
  - congruence.
Qed.

Lemma delivers_collide w v A P C p n v1 :
  agrees w v A P C → lb_answering v = None → lib_pop v = Some (n, v1) → is_Some (lb_slots v !! p) →
  ∃ A' P' C', agrees (on_await_ack_event p w) (lib_set_collision (Some (p, n)) v1) A' P' C'.
Proof.
  intros H Ha Hp Hs. unfold on_await_ack_event. rewrite (ag_state _ _ _ _ _ H). cbn [co_pkid co_recovered co_reset_pending].
  destruct (lb_collision v) as [[q m]|] eqn:Hc; cbn [fmap option_fmap option_map fst].
  - destruct (drop_parked w v A P C q m MqttClientError.CollisionOverwritten H Ha Hc) as (A' & e & rest & Hr & H').
    cbn [set_collision wk_awaiting_ack]. rewrite Hr.
    assert (lib_pop (lib_set_collision None v) = Some (n, lib_set_collision None v1)) as Hp'.
    { revert Hp. unfold lib_pop; cbn. destruct (lb_pending v); [destruct (lb_channel v)|]; naive_solver. }
    destruct (park_next _ _ _ _ _ p n _ H' Ha eq_refl Hp' Hs) as (Hex & A2 & P2 & C2 & H2). exists A2, P2, C2.
    revert Hex H2. unfold park_collided.
    destruct (aa_ack_tx e), (aa_metrics_counted e); cbn; intros -> H2; exact H2.
  - assert (set_collision (mkCollision None false false) w = w) as ->.
    { pose proof (ag_state _ _ _ _ _ H) as Hst. rewrite Hc in Hst. destruct w; cbn in *. by subst. }
    by destruct (park_next _ _ _ _ _ p n _ H Ha Hc Hp Hs) as (_ & ?).
Qed.

(** The answer of an acknowledged message. *)
Definition settle_acked (e : AwaitingAck) (rest : list AwaitingAck) (w : Worker) : Worker :=
  answer (aa_ack_tx e) (Ok ()) (observe_if (aa_metrics_counted e) observe_published (set_awaiting rest w)).

Lemma settle_acked_fields e rest w :
  wk_awaiting_ack (settle_acked e rest w) = rest ∧ wk_forwarded (settle_acked e rest w) = wk_forwarded w ∧
  wk_collision (settle_acked e rest w) = wk_collision w ∧
  ∀ id x, (id, x) ∈ wk_replies (settle_acked e rest w) → (id, x) ∈ wk_replies w ∨ aa_ack_tx e = Some id.
Proof.
  unfold settle_acked. destruct (aa_ack_tx e) as [i|], (aa_metrics_counted e); cbn; split_and!; try done; intros id x Hx;
    try (by left); (apply elem_of_app in Hx as [Hx|[= -> ->]%list_elem_of_singleton]; [by left|by right]).
Qed.

Lemma acks_ok_settle e rest w v v' n :
  acks_ok w v → wk_forwarded w !! n = Some (aa_ack_tx e) → n ∈ lb_confirmed v' → lb_confirmed v ⊆ lb_confirmed v' →
  acks_ok (settle_acked e rest w) v'.
Proof.
  intros Hok Hf Hn Hsub id Hx. destruct (settle_acked_fields e rest w) as (_ & E & _ & Hr). rewrite E.
  destruct (Hr _ _ Hx) as [Hin|Hack].
  - destruct (Hok id Hin) as (m & ? & ?). exists m. set_solver.
  - exists n. by rewrite Hf, Hack.
Qed.

Lemma on_puback_other w v p : wk_collision w = mkCollision (fst <$> lb_collision v) false false →
  fst <$> lb_collision v ≠ Some p → on_puback_event p w = resolve_puback p w.
Proof. intros Hst Hp. unfold on_puback_event. rewrite Hst. cbn. by rewrite bool_decide_false. Qed.

Lemma delivers_puback w v A P C p n :
  agrees w v A P C → acks_ok w v → lb_answering v = None → lb_slots v !! p = Some n → fst <$> lb_collision v ≠ Some p →
  tracked (on_puback_event p w) (lib_puback p (lib_confirm n (lib_set_slots (delete p (lb_slots v)) v))).
Proof.
  intros H Hok Ha Hs Hp. rewrite (on_puback_other _ _ _ (ag_state _ _ _ _ _ H) Hp). pose proof (ag_nodup_A H) as Hnd.
  destruct (ag_slots _ _ _ _ _ H p n Hs) as (e & He & Hpk).
  destruct (entry_split A n e Hnd He) as (A1 & A2 & -> & H1 & H2).
  destruct (ag_remove _ _ _ _ _ _ _ _ H) as (R1 & R2 & R3 & R4).
  assert (∀ x q, x ∈ A1 ++ (n, e) :: A2 → x.1 ≠ n → aa_pkid x.2 = Some q → q ≠ p) as Hother.
  { intros [m em] q Hx Hm Hq ->. destruct (ag_pkid_slot H m em p Hx Hq); cbn in *; congruence. }
  unfold resolve_puback. rewrite R4; [|apply Forall_forall; intros [m em] Hx|by unfold has_pkid; rewrite Hpk, bool_decide_true].
  2:{ unfold has_pkid. apply bool_decide_eq_false. intros Hq. rewrite Forall_forall in H1. specialize (H1 _ Hx).
      refine (Hother (m, em) p _ H1 Hq eq_refl). set_solver. }
  fold (settle_acked e ((A1 ++ A2) ++ P ++ C).*2 w).
  destruct (settle_acked_fields e ((A1 ++ A2) ++ P ++ C).*2 w) as (Haw & Hf & Hst & _).
  split; [eapply acks_ok_settle; [exact Hok|exact R3|cbn; set_solver|cbn; set_solver]|].
  exists (A1 ++ A2), P, C. generalize dependent (settle_acked e ((A1 ++ A2) ++ P ++ C).*2 w). intros w' Haw Hf Hst.
  pose proof (ag_written _ _ _ _ _ H) as Hw. apply Forall_app in Hw as [Hw1 Hw2]. inversion Hw2 as [|?? Hwe Hw2']; subst.
  split; cbn; rewrite ?Hf; try apply H; try done.
  - assert (∀ x, x ∈ A1 ++ (n, e) :: A2 → x.1 ≠ n → written v x →
      written (lib_puback p (lib_confirm n (lib_set_slots (delete p (lb_slots v)) v))) x) as Hstep.
    { intros x Hx Hn. unfold written; cbn. destruct (aa_pkid x.2) as [q|] eqn:Hq; [|done].
      intros [? [Hsl|Hsl]]; (split; [done|]); [left|right; done]. rewrite lookup_delete_ne; [done|].
      intros ->. by eapply Hother. }
    rewrite Forall_forall in *. intros x [Hx|Hx]%elem_of_app; apply Hstep; auto; set_solver.
  - intros q m Hq%lookup_delete_Some. destruct Hq as [Hne Hq]. destruct (ag_slots _ _ _ _ _ H q m Hq) as (em & Hm & Hpm).
    exists em. split; [|done]. apply (elem_of_other A1 A2 _ (n, e)) in Hm; [done|]. intros [= -> ->]. congruence.
  - rewrite Hst. apply (ag_state _ _ _ _ _ H).
  - intros q m Hc. destruct (ag_parked _ _ _ _ _ H q m Hc) as (em & o & Hm & Hpm & Ho & Hb). exists em, o.
    assert (q ≠ p) as Hqp. { intros ->. by rewrite Hc in Hp. }
    split_and!; [|done|by rewrite lookup_delete_ne|].
    + apply (elem_of_other A1 A2 _ (n, e)) in Hm; [done|]. intros [= -> ->]. congruence.
    + rewrite fmap_app in Hb |- *. cbn in Hb. eapply before_remove; [exact Hb| |].
      * intros ->. destruct (ag_slots _ _ _ _ _ H q n Ho) as (e2 & He2 & Hp2).
        assert (e2 = e) as -> by (eapply NoDup_entries; [|exact He2|done]; done). congruence.
      * intros ->. assert (em = e) as -> by (eapply NoDup_entries; [|exact Hm|done]; done). congruence.
  - intros q o Hq. congruence.
Qed.

Lemma delivers_recovered w v A P C p o :
  agrees w v A P C → acks_ok w v → lb_answering v = Some (p, o) →
  tracked (on_puback_event p w) (lib_puback p (lib_set_answering None v)).
Proof.
  intros H Hok Ha. destruct (ag_answering _ _ _ _ _ H _ _ Ha) as (Hc & Hcf & e & He & Hpk & Hb).
  assert (fst <$> lb_collision v ≠ Some p) as Hp by (by rewrite Hc).
  rewrite (on_puback_other _ _ _ (ag_state _ _ _ _ _ H) Hp). pose proof (ag_nodup_A H) as Hnd.
  assert (lb_slots v !! p ≠ Some o) as Hso.
  { intros Hs. specialize (Hb _ Hs). unfold before in Hb. pose proof (sublist_NoDup _ _ Hnd Hb) as Hoo.
    apply NoDup_cons in Hoo as [Hoo _]. set_solver. }
  destruct (entry_split A o e Hnd He) as (A1 & A2 & -> & H1 & H2).
  destruct (ag_remove _ _ _ _ _ _ _ _ H) as (R1 & R2 & R3 & R4).
  unfold resolve_puback. rewrite R4; [|apply Forall_forall; intros [m em] Hx|by unfold has_pkid; rewrite Hpk, bool_decide_true].
  2:{ unfold has_pkid. apply bool_decide_eq_false. intros Hq.
      pose proof (proj1 (Forall_forall _ _) H1 _ Hx) as Hm. cbn in Hm, Hq.
      destruct (ag_pkid_slot H m em p ltac:(set_solver) Hq) as [Hs|Hs]; [|congruence].
      apply list_elem_of_split in Hx as (B1 & B2 & ->). specialize (Hb _ Hs).
      rewrite <- app_assoc, fmap_app in Hb, Hnd. cbn in Hb, Hnd. pose proof (before_split _ _ _ _ Hb Hnd) as Ho.
      apply list_elem_of_fmap in Ho as (x & -> & Hx). rewrite Forall_forall in H1. apply (H1 x); [set_solver|done]. }
  fold (settle_acked e ((A1 ++ A2) ++ P ++ C).*2 w).
  destruct (settle_acked_fields e ((A1 ++ A2) ++ P ++ C).*2 w) as (Haw & Hf & Hst & _).
  split; [eapply acks_ok_settle; [exact Hok|exact R3|cbn; set_solver|cbn; set_solver]|].
  exists (A1 ++ A2), P, C. generalize dependent (settle_acked e ((A1 ++ A2) ++ P ++ C).*2 w). intros w' Haw Hf Hst.
  pose proof (ag_written _ _ _ _ _ H) as Hw. apply Forall_app in Hw as [Hw1 Hw2]. inversion Hw2 as [|?? Hwe Hw2']; subst.
  split; cbn; rewrite ?Hf; try apply H; try done.
  - assert (∀ x, x.1 ≠ o → written v x → written (lib_puback p (lib_set_answering None v)) x) as Hstep.
    { intros x Hx. unfold written; cbn. destruct (aa_pkid x.2) as [q|]; [|done].
      intros [? [?|Hq]]; (split; [done|]); left; [done|]. congruence. }
    rewrite Forall_forall in *. intros x [Hx|Hx]%elem_of_app; auto.
  - intros q m Hq. destruct (ag_slots _ _ _ _ _ H q m Hq) as (em & Hm & Hpm).
    exists em. split; [|done]. apply (elem_of_other A1 A2 _ (o, e)) in Hm; [done|]. intros [= -> ->]. congruence.
  - rewrite Hst. apply (ag_state _ _ _ _ _ H).
  - intros q m Hq. congruence.
Qed.

Lemma delivers_unsolicited w v A P C p :
  agrees w v A P C → acks_ok w v → lb_answering v = None → lb_slots v !! p = None →
  tracked (on_puback_event p w) (lib_puback p v).
Proof.
  intros H Hok Ha Hs. assert (fst <$> lb_collision v ≠ Some p) as Hp.
  { destruct (lb_collision v) as [[q n]|] eqn:Hc; [|done]. intros [= ->].
    destruct (ag_parked _ _ _ _ _ H _ _ Hc) as (? & ? & ? & ? & ? & ?). congruence. }
  rewrite (on_puback_other _ _ _ (ag_state _ _ _ _ _ H) Hp).
  unfold resolve_puback. rewrite (ag_awaiting _ _ _ _ _ H), remove_first_none.
  - split; [done|]. exists A, P, C. destruct H. by split.
  - apply Forall_snd. rewrite !Forall_app. split_and!; apply Forall_forall; intros [n e] Hx; unfold has_pkid; apply bool_decide_eq_false; cbn.
    + intros Hq. destruct (ag_pkid_slot H n e p Hx Hq); congruence.
    + pose proof (ag_pending_ok _ _ _ _ _ H) as Hf. rewrite Forall_forall in Hf.
      destruct (Hf _ Hx) as [[Hn _]%unassigned_true _]. cbn in Hn. by rewrite Hn.
    + pose proof (ag_channel_ok _ _ _ _ _ H) as Hf. rewrite Forall_forall in Hf.
      destruct (Hf _ Hx) as [[Hn _]%unassigned_true _]. cbn in Hn. by rewrite Hn.
Qed.

(** *** A lost connection *)
Lemma slot_leb_alt last a b :
  slot_leb last a b = true ↔
  if a.1 <=? last then (b.1 <=? last) = true ∧ a.1 ≤ b.1 else (b.1 <=? last) = true ∨ a.1 ≤ b.1.
Proof.
  unfold slot_leb, key_leb; cbn. destruct (a.1 <=? last), (b.1 <=? last); cbn [negb]; case_bool_decide;
    rewrite ?Z.leb_le; naive_solver.
Qed.

Lemma slot_leb_total last a b : slot_leb last a b = true ∨ slot_leb last b a = true.
Proof. rewrite !slot_leb_alt. destruct (Z.leb_spec a.1 last), (Z.leb_spec b.1 last); lia. Qed.

Lemma slot_leb_trans last a b c : slot_leb last a b = true → slot_leb last b c = true → slot_leb last a c = true.
Proof.
  rewrite !slot_leb_alt. destruct (Z.leb_spec a.1 last), (Z.leb_spec b.1 last), (Z.leb_spec c.1 last); lia.
Qed.

Lemma slot_leb_antisym last a b : slot_leb last a b = true → slot_leb last b a = true → a.1 = b.1.
Proof. rewrite !slot_leb_alt. destruct (Z.leb_spec a.1 last), (Z.leb_spec b.1 last); lia. Qed.

Definition reset_leb (last : Z) (x y : Entry) : bool := key_leb (reset_key last x.2) (reset_key last y.2).

Lemma waiting_key b last x : waiting b x → reset_key last x.2 = ((if b then 0 else 2), false, 0).
Proof. intros [[Hp _]%unassigned_true Hl]. unfold reset_key. rewrite Hp, Hl. by destruct b. Qed.

Section reset.
Context {w : Worker} {v : Lib} {A P C : list Entry} (H : agrees w v A P C).
Context (Ha : lb_answering v = None) (Hc : lb_collision v = None) (last : Z).

Lemma written_slot x : x ∈ A → ∃ p, aa_pkid x.2 = Some p ∧ lb_slots v !! p = Some x.1 ∧ aa_parked_pkid x.2 = None.
Proof using H Ha Hc.
  intros Hx. pose proof (ag_written _ _ _ _ _ H) as Hw. rewrite Forall_forall in Hw. specialize (Hw _ Hx).
  unfold written in Hw. rewrite Ha, Hc in Hw. destruct (aa_pkid x.2) as [p|]; [|naive_solver].
  destruct Hw as [? [?|?]]; [|done]. by exists p.
Qed.

Lemma written_key x : x ∈ A → ∃ p, aa_pkid x.2 = Some p ∧ reset_key last x.2 = (1, p <=? last, p).
Proof using H Ha Hc.
  intros (p & Hp & _)%written_slot. exists p. split; [done|]. unfold reset_key. by rewrite Hp.
Qed.

(** The worker sorts as the library does: retransmissions, slots, channel. *)
Lemma reset_order : sort_by (reset_leb last) (A ++ P ++ C) = P ++ sort_by (reset_leb last) A ++ C.
Proof using H Ha Hc.
  pose proof (ag_pending_ok _ _ _ _ _ H) as HP. pose proof (ag_channel_ok _ _ _ _ _ H) as HC.
  apply sort_by_between.
  - apply Forall_forall. intros x (p & _ & Hx)%written_key. unfold reset_leb. rewrite Hx. split.
    + eapply Forall_impl; [exact HP|]. intros y Hy. by rewrite (waiting_key _ last _ Hy).
    + eapply Forall_impl; [exact HC|]. intros y Hy. by rewrite (waiting_key _ last _ Hy).
  - apply sort_by_app_first.
    + apply Forall_forall. intros x Hx. rewrite Forall_forall in HP. unfold reset_leb. rewrite (waiting_key _ last _ (HP _ Hx)).
      apply Forall_app. split.
      * apply Forall_forall. intros y Hy. by rewrite (waiting_key _ last _ (HP _ Hy)).
      * eapply Forall_impl; [exact HC|]. intros y Hy. by rewrite (waiting_key _ last _ Hy).
    + rewrite <- (app_nil_r C) at 2. rewrite <- (app_nil_r C) at 1. apply sort_by_app_first; [|done].
      rewrite app_nil_r. rewrite Forall_forall in HC. apply Forall_forall. intros x Hx. unfold reset_leb.
      rewrite (waiting_key _ last _ (HC _ Hx)). apply Forall_forall. intros y Hy. by rewrite (waiting_key _ last _ (HC _ Hy)).
Qed.

Lemma reset_slots : (sort_by (reset_leb last) A).*1 = clean_order last (lb_slots v).
Proof using H Ha Hc.
  set (f := λ x : Entry, (default 0 (aa_pkid x.2), x.1)).
  assert (f <$> A ≡ₚ map_to_list (lb_slots v)) as Hperm.
  { apply NoDup_Permutation; [|apply NoDup_map_to_list|].
    - apply (NoDup_fmap_1 snd). rewrite <- list_fmap_compose. exact (ag_nodup_A H).
    - intros [p n]. rewrite elem_of_map_to_list, list_elem_of_fmap. split.
      + intros ([m e] & [= -> ->] & Hx). destruct (written_slot _ Hx) as (q & Hq & Hs & _). cbn in Hq, Hs |- *. by rewrite Hq.
      + intros Hs. destruct (ag_slots _ _ _ _ _ H p n Hs) as (e & He & Hp). exists (n, e). split; [|done].
        unfold f; cbn. by rewrite Hp. }
  transitivity ((f <$> sort_by (reset_leb last) A).*2); [by rewrite <- list_fmap_compose|].
  unfold clean_order. f_equal. rewrite (sort_by_fmap f _ (slot_leb last)).
  - apply sort_by_proper; [apply slot_leb_total|apply slot_leb_trans|done|].
    intros [p n] [q m]. rewrite Hperm, !elem_of_map_to_list. intros H1 H2 H3 H4.
    pose proof (slot_leb_antisym _ _ _ H3 H4) as E. cbn in E. subst q. congruence.
  - intros x y (p & Hp & Hx)%written_key (q & Hq & Hy)%written_key. unfold reset_leb, slot_leb, f.
    by rewrite Hx, Hy, Hp, Hq.
Qed.
End reset.

Lemma delivers_error w v A P C :
  agrees w v A P C → lb_answering v = None → lb_collision v = None → wk_last_puback w = lb_last_puback v →
  ∃ P', agrees (on_poll_error w) (lib_clean v) [] P' [].
Proof.
  intros H Ha Hc Hl. set (last := lb_last_puback v).
  set (mark := λ x : Entry, (x.1, mark_leftover x.2)). set (S := sort_by (reset_leb last) (A ++ P ++ C)).
  assert (S = P ++ sort_by (reset_leb last) A ++ C) as HS by exact (reset_order H Ha Hc last).
  assert (S ≡ₚ A ++ P ++ C) as Hperm by apply sort_by_perm.
  exists (mark <$> S).
  assert (wk_awaiting_ack (on_poll_error w) = (mark <$> S).*2) as Haw.
  { transitivity (reset_pkids (wk_awaiting_ack w) (wk_last_puback w)).
    { unfold on_poll_error. by repeat case_bool_decide. }
    rewrite Hl. unfold reset_pkids. rewrite (ag_awaiting _ _ _ _ _ H), <- list_fmap_compose. fold last.
    rewrite <- (sort_by_fmap snd (reset_leb last) _ (A ++ P ++ C)) by done. rewrite <- list_fmap_compose. done. }
  assert (wk_forwarded (on_poll_error w) = wk_forwarded w) as Hf by (unfold on_poll_error; by repeat case_bool_decide).
  assert (wk_collision (on_poll_error w) = mkCollision None false false) as Hst.
  { transitivity (wk_collision w).
    - unfold on_poll_error. pose proof (ag_state _ _ _ _ _ H) as Hst. rewrite Hc in Hst.
      cbn [set_connection wk_awaiting_ack]. destruct (bool_decide (wk_awaiting_ack w = [])); cbn;
        rewrite Hst; cbn; by rewrite ?Hst.
    - rewrite (ag_state _ _ _ _ _ H). by rewrite Hc. }
  assert ((mark <$> S).*1 = S.*1) as Hfst by by rewrite <- list_fmap_compose.
  assert (∀ x, x ∈ S → aa_parked_pkid x.2 = None) as Hpark.
  { intros x Hx. rewrite Hperm, !elem_of_app in Hx. destruct Hx as [Hx|[Hx|Hx]].
    - by destruct (written_slot H Ha Hc x Hx) as (? & _ & _ & ?).
    - pose proof (ag_pending_ok _ _ _ _ _ H) as HP. rewrite Forall_forall in HP. by destruct (HP _ Hx) as [[_ ?]%unassigned_true _].
    - pose proof (ag_channel_ok _ _ _ _ _ H) as HC. rewrite Forall_forall in HC. by destruct (HC _ Hx) as [[_ ?]%unassigned_true _]. }
  generalize dependent (on_poll_error w). intros w' Haw Hf Hst.
  split; cbn; rewrite ?app_nil_r, ?Hf; try done.
  - apply Forall_fmap. pose proof (ag_ids _ _ _ _ _ H) as Hi. by rewrite <- Hperm in Hi.
  - rewrite Hfst, Hperm. apply (ag_nodup _ _ _ _ _ H).
  - apply (ag_accepted _ _ _ _ _ H).
  - rewrite Hfst, HS, !fmap_app, (reset_slots H Ha Hc last), (ag_pending _ _ _ _ _ H), (ag_channel _ _ _ _ _ H). done.
  - apply Forall_fmap, Forall_forall. intros x Hx. split; [|done]. apply unassigned_true. cbn. auto.
  - by rewrite Hc.
  - congruence.
  - congruence.
Qed.

Lemma acks_ok_mono w v w' v' :
  acks_ok w v → (∀ id, (id, Ok ()) ∈ wk_replies w' → (id, Ok ()) ∈ wk_replies w) →
  (∀ n a, wk_forwarded w !! n = Some a → wk_forwarded w' !! n = Some a) →
  lb_confirmed v ⊆ lb_confirmed v' → acks_ok w' v'.
Proof.
  intros Hok Hr Hf Hs id Hid. destruct (Hok id (Hr _ Hid)) as (n & Hn & Hc). exists n. split; [by apply Hf|set_solver].
Qed.

Lemma on_publish_same p w :
  wk_replies (on_publish_event p w) = wk_replies w ∧ wk_forwarded (on_publish_event p w) = wk_forwarded w.
Proof. unfold on_publish_event. by repeat case_if. Qed.

Lemma answer_err_ok ack e w id : (id, Ok ()) ∈ wk_replies (answer ack (Err e) w) → (id, Ok ()) ∈ wk_replies w.
Proof. destruct ack as [i|]; cbn; [|done]. intros [?|[=]%list_elem_of_singleton]%elem_of_app. done. Qed.

Lemma observe_if_replies b f w : wk_replies (observe_if b f w) = wk_replies w.
Proof. by destruct b. Qed.

Lemma on_await_ack_same p w :
  wk_forwarded (on_await_ack_event p w) = wk_forwarded w ∧
  ∀ id, (id, Ok ()) ∈ wk_replies (on_await_ack_event p w) → (id, Ok ()) ∈ wk_replies w.
Proof.
  assert (∀ w, wk_forwarded (park_collided p w) = wk_forwarded w ∧ wk_replies (park_collided p w) = wk_replies w) as Hp
    by (intros w'; unfold park_collided; by case_if).
  unfold on_await_ack_event. set (w1 := set_collision _ w).
  destruct (co_pkid _) as [q|]; [destruct (remove_first _ _) as [[e rest]|]|];
    (split; [rewrite (proj1 (Hp _))|intros id; rewrite (proj2 (Hp _))]); try done.
  - by destruct (aa_ack_tx e), (aa_metrics_counted e).
  - intros Hid%answer_err_ok. by rewrite observe_if_replies in Hid.
Qed.

(** Every event the library delivers leaves the worker in agreement. *)
Lemma tracked_event w v ev v' :
  tracked w v → delivers v ev v' → ev ≠ Event.Error → tracked (on_common_event ev w) v'.
Proof.
  intros (Hok & A & P & C & H) Hd Hev. destruct Hd; cbn [on_common_event].
  - destruct (delivers_write _ _ _ _ _ _ _ _ H H0 H1 H2) as (A' & P' & C' & H').
    destruct (ag_pop H _ _ H1) as (_ & _ & _ & _ & _ & _ & _ & _ & _ & _ & _ & _ & _ & _ & E).
    split; [|by exists A', P', C']. destruct (on_publish_same p w) as [Er Ef].
    eapply acks_ok_mono; [exact Hok|by rewrite Er|by rewrite Ef|cbn; by rewrite E].
  - destruct (delivers_collide _ _ _ _ _ _ _ _ H H0 H1 H2) as (A' & P' & C' & H').
    destruct (ag_pop H _ _ H1) as (_ & _ & _ & _ & _ & _ & _ & _ & _ & _ & _ & _ & _ & _ & E).
    split; [|by exists A', P', C']. destruct (on_await_ack_same p w) as [Ef Er].
    eapply acks_ok_mono; [exact Hok|exact Er|by rewrite Ef|cbn; by rewrite E].
  - by eapply delivers_puback.
  - destruct (delivers_recover _ _ _ _ _ _ _ _ H H0 H1 H2) as (A' & H').
    split; [|by exists A', P, C]. destruct (on_publish_same p w) as [Er Ef].
    eapply acks_ok_mono; [exact Hok|by rewrite Er|by rewrite Ef|cbn; set_solver].
  - by eapply delivers_recovered.
  - by eapply delivers_unsolicited.
  - destruct ev; try done; (split; [done|by exists A, P, C]).
  - done.
Qed.

(** ** What does not concern acknowledgements *)
Record quiet (w w' : Worker) : Prop := {
  qt_awaiting : wk_awaiting_ack w' = wk_awaiting_ack w;
  qt_forwarded : wk_forwarded w' = wk_forwarded w;
  qt_collision : wk_collision w' = wk_collision w;
  qt_last : wk_last_puback w' = wk_last_puback w;
  qt_oks id : (id, Ok ()) ∈ wk_replies w' → (id, Ok ()) ∈ wk_replies w;
}.

#[export] Instance quiet_preorder : PreOrder quiet.
Proof.
  split; [by intros w|]. intros w1 w2 w3 [A1 F1 C1 L1 O1] [A2 F2 C2 L2 O2]. split; try congruence. eauto.
Qed.

Lemma quiet_foldl {X} (g : Worker → X → Worker) l w : (∀ w x, quiet w (g w x)) → quiet w (foldl g w l).
Proof. intros Hg. revert w. induction l as [|x l IH]; intros w; cbn; [done|]. etransitivity; [apply Hg|apply IH]. Qed.

Lemma quiet_answer_err ack e w : quiet w (answer ack (Err e) w).
Proof. split; [by destruct ack..|]. intros id. apply answer_err_ok. Qed.
Lemma quiet_observe_if b f w : quiet w (observe_if b f w).
Proof. by destruct b. Qed.
Lemma quiet_drop_removed w r : quiet w (drop_removed w r).
Proof. etransitivity; [apply quiet_observe_if|apply quiet_answer_err]. Qed.
Lemma quiet_fail_request err w r : quiet w (fail_request err w r).
Proof. etransitivity; [apply quiet_observe_if|apply quiet_answer_err]. Qed.

Lemma quiet_accept max r w : quiet w (accept_request max r w).
Proof.
  unfold accept_request. destruct (outcome_bind _ _) as [u|e|]; [| |done].
  - set (w1 := match pr_deregister r with true => _ | false => _ end).
    transitivity w1; [|done]. unfold w1. destruct (pr_deregister r), (pr_status_ids r) as [ids|]; try done.
    transitivity (foldl drop_removed (set_pending (filter (λ r, online_of ids r = false) (wk_pending w)) w)
      (filter (λ r, online_of ids r = true) (wk_pending w))); [|done].
    by etransitivity; [|apply quiet_foldl, quiet_drop_removed].
  - by etransitivity; [|apply quiet_answer_err].
Qed.

Lemma quiet_republish `{!StatusJson} wall cap queue w : quiet w (republish_loop wall cap queue w).
Proof.
  revert w. induction queue as [|ids queue IH]; intros w; cbn; (case_bool_decide; [|done]); [done|].
  etransitivity; [|apply IH]. by destruct (make_online_status_request _ ids).
Qed.

Lemma tracked_quiet w w' v : tracked w v → quiet w w' → tracked w' v.
Proof.
  intros (Hok & A & P & C & []) [E1 E2 E3 E4 Er]. split.
  - eapply acks_ok_mono; [exact Hok|exact Er|by rewrite E2|done].
  - exists A, P, C. split; rewrite ?E1, ?E2, ?E3; done.
Qed.

(** A message the library accepts. *)
Lemma tracked_accept w v ack counted :
  tracked w v →
  tracked (record_forward ack (set_awaiting (wk_awaiting_ack w ++ [mkAwaitingAck None None false counted ack]) w)) (lib_accept v).
Proof.
  intros (Hok & A & P & C & H). set (e := mkAwaitingAck None None false counted ack).
  split; [intros id Hid|].
  { destruct (Hok id Hid) as (n & Hn & ?). exists n. split; [|done]. cbn. by apply lookup_app_l_Some. }
  exists A, P, (C ++ [(lb_accepted v, e)]). pose proof (ag_accepted _ _ _ _ _ H) as Hacc. pose proof (ag_ids _ _ _ _ _ H) as Hi.
  assert (Forall (λ x, (wk_forwarded w ++ [ack]) !! x.1 = Some (aa_ack_tx x.2)) (A ++ P ++ C)) as Hi'.
  { eapply Forall_impl; [exact Hi|]. intros x Hx. by apply lookup_app_l_Some. }
  destruct H. split; cbn; try done.
  - rewrite ag_awaiting0. by rewrite !fmap_app, <- !app_assoc.
  - rewrite !app_assoc, Forall_app, <- app_assoc. split; [done|]. constructor; [|done]. cbn.
    rewrite lookup_app_r, Hacc, Nat.sub_diag by lia. done.
  - rewrite !app_assoc, fmap_app, <- app_assoc. apply NoDup_app. split_and!; [done| |apply NoDup_singleton].
    intros n (x & -> & Hx)%list_elem_of_fmap Hn%list_elem_of_singleton. cbn in Hn. rewrite Forall_forall in Hi. specialize (Hi _ Hx).
    apply lookup_lt_Some in Hi. lia.
  - rewrite length_app. cbn. lia.
  - by rewrite fmap_app, ag_channel0.
  - apply Forall_app. split; [done|]. by constructor.
Qed.

Section world.
Context {L : Type} `{!Rumqttc L} `{!RumqttcLaws L} {SJ : StatusJson} (config : MqttClientConfig).
Implicit Types (w : World L).

Lemma forward_loop_tracked limit n pending (k : Worker) lib k' lib' :
  forward_loop limit n pending k lib = (k', lib') → tracked k (view lib) →
  tracked k' (view lib') ∧ wk_last_puback k' = wk_last_puback k ∧ lb_last_puback (view lib') = lb_last_puback (view lib).
Proof.
  revert n k lib. induction pending as [|r pending IH]; intros n k lib; cbn [forward_loop].
  { intros [= <- <-] H. split; [|done]. by eapply tracked_quiet. }
  destruct (match limit with Some _ => _ | None => _ end).
  { intros [= <- <-] H. split; [|done]. by eapply tracked_quiet. }
  destruct (try_publish _ _ _ lib) as [lib1 []] eqn:Ht.
  - intros Hf H. set (k1 := match pr_online_status r with true => _ | false => _ end) in Hf.
    assert (quiet k k1) as Hq by (unfold k1; by destruct (pr_online_status r), (pr_status_ids r)).
    apply view_sent in Ht. destruct (IH _ _ _ Hf) as (H1 & H2 & H3).
    + rewrite Ht. by apply tracked_accept; eapply tracked_quiet.
    + split; [done|]. rewrite H2, H3, Ht. split; [apply Hq|done].
  - apply view_refused in Ht; [|done]. intros [= <- <-] H. rewrite Ht. split; [|done]. by eapply tracked_quiet.
  - apply view_refused in Ht; [|done]. intros Hf H.
    assert (quiet k (answer (pr_ack_tx r) (Err MqttClientError.PublishFailed) (observe_if (pr_metrics_counted r) observe_failed k))) as Hq
      by (etransitivity; [apply quiet_observe_if|apply quiet_answer_err]).
    destruct (IH _ _ _ Hf) as (H1 & H2 & H3).
    + rewrite Ht. by eapply tracked_quiet.
    + split; [done|]. rewrite H2, H3, Ht. split; [apply Hq|done].
Qed.

Lemma fail_all_oks channel err (k : Worker) v : acks_ok k v → acks_ok (fail_all_queued channel err k) v.
Proof.
  intros Hok. unfold fail_all_queued. set (k1 := foldl (fail_channel err) k channel).
  set (k2 := foldl (fail_request err) _ (wk_pending k1)).
  assert (quiet k k1) as H1.
  { apply quiet_foldl. intros. etransitivity; [|apply quiet_answer_err]. done. }
  assert (quiet k1 k2) as H2.
  { etransitivity; [|apply quiet_foldl; intros; apply quiet_fail_request]. done. }
  assert (∀ l k', (∀ id, (id, Ok ()) ∈ wk_replies (foldl (fail_awaiting err) k' l) → (id, Ok ()) ∈ wk_replies k') ∧
    wk_forwarded (foldl (fail_awaiting err) k' l) = wk_forwarded k') as H3.
  { intros l. induction l as [|e l IH]; intros k'; cbn; [done|]. destruct (IH (fail_awaiting err k' e)) as [I1 I2]. split.
    - intros id Hid%I1. unfold fail_awaiting in Hid. apply answer_err_ok in Hid. by rewrite observe_if_replies in Hid.
    - rewrite I2. unfold fail_awaiting. by destruct (aa_ack_tx e), (aa_metrics_counted e). }
  destruct (H3 (wk_awaiting_ack k2) (set_awaiting [] k2)) as [I1 I2].
  eapply acks_ok_mono; [exact Hok| |intros n a; rewrite I2|done].
  - intros id Hid%I1. cbn in Hid. by apply H1, H2.
  - cbn. rewrite (qt_forwarded _ _ H2), (qt_forwarded _ _ H1). done.
Qed.

Lemma on_common_last ev (k : Worker) : wk_last_puback (on_common_event ev k) = wk_last_puback k.
Proof.
  assert (∀ ack x (k : Worker), wk_last_puback (answer ack x k) = wk_last_puback k) as Ha by (intros [] ?? ; done).
  assert (∀ b f (k : Worker), wk_last_puback (observe_if b f k) = wk_last_puback k) as Ho by (intros [] ?? ; done).
  destruct ev; cbn; [done| | | |done..].
  - unfold on_publish_event. by repeat case_if.
  - unfold on_await_ack_event, park_collided. destruct (co_pkid _) as [q|]; [destruct (remove_first _ _) as [[e l]|]|];
      (case_if; cbn; rewrite ?Ha, ?Ho; done).
  - unfold on_puback_event, resolve_puback. case_bool_decide; (destruct (remove_first _ _) as [[e l]|]; rewrite ?Ha, ?Ho; done).
Qed.

Lemma delivers_last v ev v' :
  delivers v ev v' → lb_last_puback v' = match ev with Event.PubAck p => p | _ => lb_last_puback v end.
Proof.
  destruct 1; cbn; try done; [| |by destruct ev];
    (revert H0; unfold lib_pop; destruct (lb_pending v); [destruct (lb_channel v)|]; naive_solver).
Qed.

Lemma error_confirmed v v' : delivers v Event.Error v' → lb_confirmed v' = lb_confirmed v.
Proof. inversion 1; subst; done. Qed.

(** ** Runs

    A connection may be lost whenever no message is parked; while offline
    requests are forwarded for a shutdown it may not. *)
Definition benign w (l : option Event.t) : Prop :=
  match l, w_pc w with
  | Some Event.Error, Pc.Select => lb_collision (view (w_lib w)) = None
  | Some Event.Error, Pc.OfflinePoll _ => False
  | _, _ => True
  end.

Definition benign_step w w' : Prop := ∃ l, step config w l w' ∧ benign w l.

Definition ended (pc : Pc.t) : bool :=
  match pc with Pc.Failing _ | Pc.Dropping | Pc.Done => true | _ => false end.

Record attributed w : Prop := {
  at_acks : acks_ok (w_worker w) (view (w_lib w));
  at_tracked : ended (w_pc w) = false → tracked (w_worker w) (view (w_lib w));
  at_last : main_loop (w_pc w) = true → wk_last_puback (w_worker w) = lb_last_puback (view (w_lib w));
}.

(** The worker moves on while the library's view and what is tracked stay. *)
Lemma attributed_quiet w (k : Worker) lib pc w0 :
  attributed w → quiet (w_worker w) k → view lib = view (w_lib w) →
  (ended pc = false → ended (w_pc w) = false) → (main_loop pc = true → main_loop (w_pc w) = true) →
  attributed (run_to k lib pc w0).
Proof.
  intros [H1 H2 H3] Hq Hv He Hm. split; cbn; rewrite ?Hv.
  - eapply acks_ok_mono; [exact H1|apply Hq|by rewrite (qt_forwarded _ _ Hq)|done].
  - intros Hpc. by eapply tracked_quiet; [apply H2, He|].
  - intros Hpc. rewrite (qt_last _ _ Hq). auto.
Qed.

(** A part of the loop that keeps track establishes it for where it goes. *)
Lemma attributed_tracked (k : Worker) lib pc w0 :
  tracked k (view lib) → (main_loop pc = true → wk_last_puback k = lb_last_puback (view lib)) →
  attributed (run_to k lib pc w0).
Proof. intros H Hl. split; cbn; [apply H|done|done]. Qed.

Lemma attributed_step w w' : attributed w → benign_step w w' → attributed w'.
Proof.
  intros Hw (l & Hs & Hb). pose proof Hw as [H1 H2 H3]. destruct Hs as [? ? ? Hs|? ? ? Hs|? ? ? Hs|? ? ? Hs]; destruct Hs; try (rewrite H in H2, H3; specialize (H2 eq_refl));
    try (specialize (H3 eq_refl)).
  - by split.
  - by split.
  - by split.
  - by apply attributed_tracked.
  - by apply attributed_tracked.
  - eapply attributed_quiet; rewrite ?H; try done. case_if; [apply quiet_republish|done].
  - eapply attributed_quiet; rewrite ?H; try done. apply quiet_accept.
  - destruct (wk_connected (w_worker w)).
    + destruct (forward_loop_tracked _ _ _ _ _ _ _ H4 H2) as (T & E1 & E2). apply attributed_tracked; [done|].
      intros _. congruence.
    + simplify_eq. by apply attributed_tracked.
  - eapply attributed_quiet; rewrite ?H; try done. apply quiet_accept.
  - by apply attributed_tracked.
  - by apply attributed_tracked.
  - pose proof (view_poll _ _ _ H0) as Hd. apply attributed_tracked.
    + assert (tracked (set_connection true 0 (w_worker w)) (view (w_lib w))) as T by (by eapply tracked_quiet).
      unfold on_main_event. destruct ev; eapply tracked_event; try done.
      destruct T as (Tk & A & P & C & T). split; [done|]. exists A, P, C. by destruct T; split.
    + intros _. rewrite (delivers_last _ _ _ Hd). unfold on_main_event. destruct ev; rewrite on_common_last; done.
  - pose proof (view_poll _ _ _ H0) as Hd. unfold benign in Hb. rewrite H in Hb.
    inversion Hd as [| | | | | |? ? Ha Hbad|? Ha]; subst; [done|].
    destruct H2 as (Hok & A & P & C & T). destruct (delivers_error _ _ _ _ _ T Ha Hb H3) as (P' & T').
    apply attributed_tracked; (match goal with E : lib_clean _ = _ |- _ => rewrite <- E end).
    + split; [|by exists [], P', []].
      eapply acks_ok_mono; [exact Hok| | |done]; unfold on_poll_error; by repeat case_bool_decide.
    + intros _. cbn. rewrite <- H3. unfold on_poll_error. by repeat case_bool_decide.
  - eapply attributed_quiet; rewrite ?H; try done. by injection H4 as <- _.
  - split; cbn; [done|done|done].
  - destruct (forward_loop_tracked _ _ _ _ _ _ _ H0 H2) as (T & _). apply attributed_tracked; [done|].
    by destruct (offline_prefix _).
  - by apply attributed_tracked.
  - apply attributed_tracked; [|done]. eapply tracked_event; [done|by apply view_poll|done].
  - by unfold benign in Hb; rewrite H in Hb.
  - by apply attributed_tracked.
  - apply view_disconnect in H0. eapply attributed_quiet; rewrite ?H; done.
  - apply attributed_tracked; [|by destruct ev]. eapply tracked_event; [done|by apply view_poll|done].
  - split; cbn; [|done|done]. match goal with E : poll _ _ _ |- _ => apply view_poll, error_confirmed in E; by eapply acks_ok_mono; [exact H1|..|rewrite E] end.
  - split; cbn; [done|done|done].
  - apply attributed_tracked; [|done]. eapply tracked_event; [done|by apply view_poll|done].
  - split; cbn; [|done|done]. match goal with E : poll _ _ _ |- _ => apply view_poll, error_confirmed in E; by eapply acks_ok_mono; [exact H1|..|rewrite E] end.
  - split; cbn; [done|done|done].
  - split; cbn; [|done|done]. by apply fail_all_oks.
  - split; cbn; [|done|done].
    assert (quiet (w_worker w) (foldl drop_removed (w_worker w) (w_channel w))) as Hq by (apply quiet_foldl, quiet_drop_removed).
    eapply acks_ok_mono; [exact H1|apply Hq|by rewrite (qt_forwarded _ _ Hq)|done].
Qed.

(** C11: whatever the clients do and whatever order the events come in, a
    request is reported as acknowledged only if the library took a message for
    it and the broker has acknowledged that very message - provided no
    connection is lost while a message is parked or while a shutdown forwards
    its offline requests. *)
Theorem mqtt_acked_sound lib w id :
  view lib = lib_new → rtc benign_step (world_new lib) w → (id, Ok ()) ∈ wk_replies (w_worker w) →
  ∃ n, wk_forwarded (w_worker w) !! n = Some (Some id) ∧ n ∈ lb_confirmed (view (w_lib w)).
Proof.
  intros Hlib Hr. assert (attributed (world_new lib)) as H0.
  { apply (attributed_tracked worker_new lib Pc.Top (world_new lib)); [|by rewrite Hlib]. rewrite Hlib. split; [by intros ? ?%elem_of_nil|].
    exists [], [], []. split; try done. constructor. }
  assert (attributed w) as [Hok _ _].
  { clear Hlib. induction Hr as [w|w1 w2 w3 Hs _ IH]; [done|]. by eapply IH, attributed_step. }
  apply Hok.
Qed.
End world.
