(* ===== verification/MqttExamples.v ===== *)
(** * The MQTT client on concrete runs

    A library that behaves as documented, and scripts of the worker with it:
    the hypotheses of the theorems hold there, and two runs show what happens
    without them.  When the connection is lost while a message is parked, or
    while a shutdown forwards its offline requests, the worker can report a
    message as acknowledged that the broker has never received. *)

From S2P Require Import Prelude RustStd MqttConfig MqttClient MqttClientLaws MqttAcks.
From stdpp Require Import options.

#[local] Set Default Proof Using "Type".

(** ** A library: its own view, with a channel of three messages *)
Definition CHANNEL : nat := 3.

#[export] Instance model_lib : Rumqttc Lib := {|
  try_publish _ _ _ v :=
    if bool_decide (length (lb_channel v) < CHANNEL)%nat then (lib_accept v, TryPublish.Sent)
    else (v, TryPublish.Full);
  poll := delivers;
  disconnect v := Some v;
|}.

#[export] Instance model_laws : RumqttcLaws Lib.
Proof.
  refine {| view v := v |}.
  - intros *. unfold try_publish, model_lib. case_bool_decide; naive_solver.
  - intros *. unfold try_publish, model_lib. case_bool_decide; naive_solver.
  - done.
  - by intros ?? [= ->].
Defined.

#[export] Instance model_json : StatusJson := λ e, se_schema e ++ se_site_id e ++ se_device_id e ++ se_status e.

Definition deliver (ev : Event.t) (v : Lib) : option Lib :=
  match lb_answering v, ev with
  | Some (p, o), Event.PubAck q => if p =? q then Some (lib_puback p (lib_set_answering None v)) else None
  | Some _, _ => None
  | None, Event.Publish p =>
      match lb_slots v !! p, lb_collision v, lib_pop v with
      | None, _, Some (n, v1) => Some (lib_set_slots (<[p := n]> (lb_slots v)) v1)
      | Some o, Some (q, n), _ =>
          if p =? q then
            Some (lib_confirm o (lib_set_answering (Some (p, o)) (lib_set_collision None
              (lib_set_slots (<[p := n]> (lb_slots v)) v))))
          else None
      | _, _, _ => None
      end
  | None, Event.AwaitAck p =>
      match lb_slots v !! p, lib_pop v with
      | Some _, Some (n, v1) => Some (lib_set_collision (Some (p, n)) v1)
      | _, _ => None
      end
  | None, Event.PubAck p =>
      match lb_slots v !! p with
      | Some n =>
          if bool_decide (fst <$> lb_collision v = Some p) then None
          else Some (lib_puback p (lib_confirm n (lib_set_slots (delete p (lb_slots v)) v)))
      | None => Some (lib_puback p v)
      end
  | None, Event.Error => Some (lib_clean v)
  | None, _ => Some v
  end.

Lemma deliver_sound ev v v' : deliver ev v = Some v' → delivers v ev v'.
Proof.
  unfold deliver. destruct (lb_answering v) as [[p o]|] eqn:Ha; destruct ev as [|q|q|q| | |]; try done.
  - destruct (Z.eqb_spec p q) as [->|]; [|done]. intros [= <-]. by eapply dl_recovered.
  - intros [= <-]. by apply dl_other.
  - destruct (lb_slots v !! q) as [o|] eqn:Hs.
    + destruct (lb_collision v) as [[r n]|] eqn:Hc; [|done]. destruct (Z.eqb_spec q r) as [->|]; [|done].
      intros [= <-]. by apply dl_recover.
    + destruct (lib_pop v) as [[n v1]|] eqn:Hp; [|by destruct (lb_collision v)].
      intros H. assert (lib_set_slots (<[q:=n]> (lb_slots v)) v1 = v') as <-
        by (destruct (lb_collision v) as [[??]|]; by simplify_eq).
      by eapply dl_write.
  - destruct (lb_slots v !! q) eqn:Hs; [|done]. destruct (lib_pop v) as [[m v1]|] eqn:Hp; [|done].
    intros [= <-]. by eapply dl_collide.
  - destruct (lb_slots v !! q) as [n|] eqn:Hs.
    + case_bool_decide; [done|]. intros [= <-]. by apply dl_puback.
    + intros [= <-]. by apply dl_unsolicited.
  - intros [= <-]. by apply dl_other.
  - intros [= <-]. by apply dl_other.
  - intros [= <-]. by apply dl_error.
Qed.

(** ** Scripts *)
Inductive act : Type :=
| Send (p : Publish.t)
| Shut
| Go                      (* the next piece of the worker that waits for nothing *)
| Leave                   (* the shutdown branch of the select, or a deadline *)
| Ev (ev : Event.t).

Section script.
Context (config : MqttClientConfig).
Abbreviation step := (step (L := Lib) config).

Definition exec_event (ev : Event.t) (w : World Lib) (lib : Lib) : option (World Lib) :=
  match w_pc w, ev with
  | Pc.Select, Event.Error =>
      Some (run_to (on_poll_error (w_worker w)) lib (after_error config (on_poll_error (w_worker w))) w)
  | Pc.Select, _ => Some (run_to (on_main_event ev (w_worker w)) lib Pc.Top w)
  | Pc.OfflinePoll _, Event.Error => Some (run_to (w_worker w) lib (Pc.Disconnecting true) w)
  | Pc.Disconnecting b, Event.Disconnect => None
  | Pc.Disconnecting b, Event.Error => None
  | Pc.Disconnecting b, _ => Some (run_to (on_common_event ev (w_worker w)) lib (Pc.Disconnecting b) w)
  | _, _ => None
  end.

Definition exec (a : act) (w : World Lib) : option (World Lib) :=
  match a, w_pc w with
  | Send _, Pc.Done => None
  | Send p, _ =>
      if w_closed w || negb (bool_decide (length (w_channel w) < mq_publish_capacity config)%nat) then None
      else
        match publish (mq_max_packet_size config) p (w_next w) with
        | Ok r => Some (mkWorld (w_worker w) (w_lib w) (w_channel w ++ [r]) (S (w_next w)) false (w_shutdown w) (w_pc w))
        | _ => None
        end
  | Shut, _ => Some (mkWorld (w_worker w) (w_lib w) (w_channel w) (w_next w) (w_closed w) true (w_pc w))
  | Go, Pc.Backoff => Some (run_to (w_worker w) (w_lib w) Pc.Top w)
  | Go, Pc.Top =>
      Some (run_to
        (if on_needs_republish (wk_online (w_worker w)) && wk_connected (w_worker w)
         then step_online_republish (λ _, 0) (mq_publish_capacity config) (w_worker w) else w_worker w)
        (w_lib w) Pc.Receive w)
  | Go, Pc.Receive =>
      match can_receive (mq_publish_capacity config) w, w_channel w with
      | true, r :: l => Some (run_to (accept_request (mq_max_packet_size config) r (w_worker w)) (w_lib w) Pc.Receive (take_channel l w))
      | _, _ =>
          let '(k, lib) := if wk_connected (w_worker w) then forward_pending None (w_worker w) (w_lib w)
                           else (w_worker w, w_lib w) in
          Some (run_to k lib Pc.Select w)
      end
  | Go, Pc.Break =>
      if wk_connected (w_worker w) then
        let '(k, n) := push_offline (λ _, 0) (w_worker w) in Some (run_to k (w_lib w) (Pc.Offline n) w)
      else None
  | Go, Pc.Offline (S n) =>
      let '(k, lib) := forward_pending (Some (S n)) (w_worker w) (w_lib w) in
      Some (run_to k lib (match offline_prefix (wk_pending k) with O => Pc.Disconnecting true | m => Pc.OfflinePoll m end) w)
  | Go, Pc.Failing err =>
      Some (run_to (fail_all_queued (w_channel w) err (w_worker w)) (w_lib w) Pc.Dropping (take_channel [] w))
  | Go, Pc.Dropping =>
      Some (run_to (foldl drop_removed (w_worker w) (w_channel w)) (w_lib w) Pc.Done (take_channel [] w))
  | Leave, Pc.Disconnecting _ => Some (run_to (w_worker w) (w_lib w) (Pc.Failing MqttClientError.Closed) w)
  | Leave, Pc.Select => if w_shutdown w then Some (run_to (w_worker w) (w_lib w) Pc.Break w) else None
  | Ev ev, _ => lib ← deliver ev (w_lib w); exec_event ev w lib
  | _, _ => None
  end.

Definition benign_act (a : act) (w : World Lib) : bool :=
  match a, w_pc w with
  | Ev Event.Error, Pc.Select => bool_decide (lb_collision (w_lib w) = None)
  | Ev Event.Error, Pc.OfflinePoll _ => false
  | _, _ => true
  end.

Lemma exec_event_sound ev w lib w' :
  delivers (w_lib w) ev lib → exec_event ev w lib = Some w' → step w (Some ev) w'.
Proof.
  intros Hd. unfold exec_event. destruct (w_pc w) eqn:Hpc; try done.
  - destruct ev; intros Hw; apply (inj Some) in Hw as <-; try (by apply by_main, step_select_event); by apply by_main, step_select_error.
  - destruct ev; try done. intros Hw; apply (inj Some) in Hw as <-. by eapply by_offline, step_offline_error.
  - destruct ev; try done; intros Hw; apply (inj Some) in Hw as <-; by eapply by_disconnect, (step_disconnect_event w pending).
Qed.

Lemma exec_sound a w w' :
  exec a w = Some w' → ∃ l, step w l w' ∧ (benign_act a w = true → benign w l).
Proof.
  assert (∀ o, (∃ l, step w l o ∧ l = None) → ∃ l, step w l o ∧ (benign_act a w = true → benign w l)) as Hnone
    by (intros o (l & Hs & ->); exists None; split; [done|]; by intros _; unfold benign).
  destruct a as [p| | | |ev]; unfold exec.
  - intros H. apply Hnone. exists None. split; [|done]. assert (w_pc w ≠ Pc.Done) as Hpc by (intros E; by rewrite E in H).
    assert ((if w_closed w || negb (bool_decide (length (w_channel w) < mq_publish_capacity config)%nat) then None
      else match publish (mq_max_packet_size config) p (w_next w) with
           | Ok r => Some (mkWorld (w_worker w) (w_lib w) (w_channel w ++ [r]) (S (w_next w)) false (w_shutdown w) (w_pc w))
           | _ => None end) = Some w') as H' by (by destruct (w_pc w)). clear H.
    destruct (w_closed w) eqn:Hc; [done|]. cbn in H'. case_bool_decide; [|done]. cbn in H'.
    destruct (publish _ _ _) as [r| |] eqn:Hp; [|done..]. injection H' as <-. by eapply by_client, step_send.
  - intros [= <-]. apply Hnone. exists None. split; [apply by_client, step_shutdown|done].
  - destruct (w_pc w) eqn:Hpc; try done.
    + intros [= <-]. apply Hnone. exists None. split; [by apply by_main, step_backoff_over|done].
    + intros [= <-]. apply Hnone. exists None. split; [by apply by_main, step_top|done].
    + destruct (can_receive (mq_publish_capacity config) w) eqn:Hr; [destruct (w_channel w) as [|r l] eqn:Hc|].
      * destruct (if wk_connected (w_worker w) then _ else _) as [k lib] eqn:Hf. intros [= <-]. apply Hnone.
        exists None. split; [|done]. apply by_main, step_forward; [done|by right|done].
      * intros [= <-]. apply Hnone. exists None. split; [by eapply by_main, step_receive|done].
      * destruct (if wk_connected (w_worker w) then _ else _) as [k lib] eqn:Hf. intros [= <-]. apply Hnone.
        exists None. split; [|done]. apply by_main, step_forward; [done|by left|done].
    + destruct (wk_connected (w_worker w)) eqn:Hc; [|done]. destruct (push_offline _ _) as [k n] eqn:Hp.
      intros [= <-]. apply Hnone. exists None. split; [by eapply by_offline, step_break_connected|done].
    + destruct remaining as [|n]; [done|]. destruct (forward_pending _ _ _) as [k lib] eqn:Hf.
      intros [= <-]. apply Hnone. exists None. split; [by eapply by_offline, step_offline|done].
    + intros [= <-]. apply Hnone. exists None. split; [by apply by_disconnect, step_fail|done].
    + intros [= <-]. apply Hnone. exists None. split; [by apply by_disconnect, step_exit|done].
  - destruct (w_pc w) eqn:Hpc; try done.
    + destruct (w_shutdown w) eqn:Hs; [|done]. intros [= <-]. apply Hnone.
      exists None. split; [by apply by_main, step_select_shutdown|done].
    + intros [= <-]. apply Hnone. exists None. split; [by eapply by_disconnect, step_disconnect_deadline|done].
  - intros (lib & Hd%deliver_sound & He)%bind_Some. exists (Some ev). split; [by eapply exec_event_sound|].
    unfold benign, benign_act. destruct ev; try done. destruct (w_pc w); try done. by case_bool_decide.
Qed.

Fixpoint exec_all (l : list act) (w : World Lib) : option (World Lib * bool) :=
  match l with
  | [] => Some (w, true)
  | a :: l' =>
      w1 ← exec a w;
      '(w2, b) ← exec_all l' w1;
      Some (w2, benign_act a w && b)
  end.

Lemma exec_all_sound l w w' b :
  exec_all l w = Some (w', b) → rtc (any_step config) w w' ∧ (b = true → rtc (benign_step config) w w').
Proof.
  revert w b. induction l as [|a l IH]; intros w b; cbn; [by intros [= -> <-]|].
  intros (w1 & He & ([w2 b2] & Ha & [= -> <-])%bind_Some)%bind_Some.
  apply exec_sound in He as (ev & Hs & Hb). destruct (IH _ _ Ha) as [R1 R2]. split.
  - eapply rtc_l; [|exact R1]. by exists ev.
  - intros [??]%andb_true_iff. eapply rtc_l; [|by apply R2]. exists ev. auto.
Qed.
End script.

Definition example_config : MqttClientConfig :=
  mkMqttClientConfig (lit "edge") (lit "broker") 1883 DEFAULT_KEEP_ALIVE DEFAULT_CONNECT_TIMEOUT
    DEFAULT_MAX_PACKET_SIZE DEFAULT_RECONNECT_MIN_DELAY DEFAULT_RECONNECT_MAX_DELAY None 3 3
    TlsMode.None None None None.

Definition message (t : string) : act := Send (Publish.Plain (lit t) [1; 2; 3]).
Definition event (ev : Event.t) : list act := [Ev ev; Go; Go].
Definition connect : list act := [Go; Go] ++ event Event.ConnAck.

(** A message is published, lost with the connection, sent again and acknowledged. *)
Definition run_acked : list act :=
  connect ++ [message "a"; Ev Event.Other; Go; Go; Go] ++ event (Event.Publish 1) ++ [Ev Event.Error; Go; Go; Go]
  ++ event Event.ConnAck ++ event (Event.Publish 1) ++ event (Event.PubAck 1).


(** Messages a, d, c and b; the third is acknowledged, the identifiers wrap
    around and b is parked on the one of a.  The connection is lost; after the
    reconnection a is written again and acknowledged before d is.  The write of
    b is taken for the one of d, and b's acknowledgement answers d. *)
Definition run_collision : list act :=
  connect ++ [message "a"; message "d"; message "c"; Ev Event.Other; Go; Go; Go; Go; Go]
  ++ event (Event.Publish 1) ++ event (Event.Publish 2) ++ event (Event.Publish 3) ++ event (Event.PubAck 3)
  ++ [message "b"; Ev Event.Other; Go; Go; Go] ++ event (Event.AwaitAck 1)
  ++ [Ev Event.Error; Go; Go; Go] ++ event Event.ConnAck
  ++ event (Event.Publish 1) ++ event (Event.Publish 1) ++ event (Event.PubAck 1)
  ++ event (Event.Publish 2) ++ event (Event.PubAck 1).

(** Two devices are online and a message a is in flight; d and e are accepted
    by the library but not written when the shutdown begins.  The offline
    request of the second device does not fit; the connection is lost while the
    worker waits, and the library reconnects while the worker waits for
    DISCONNECT, without having reset its identifiers. *)
Definition online (d : string) : act := Send (Publish.Online 0 (lit "s") (lit d)).
Definition run_shutdown : list act :=
  connect ++ [online "x"; online "y"; message "a"; Ev Event.Other; Go; Go; Go; Go; Go]
  ++ event (Event.Publish 1) ++ event (Event.PubAck 1) ++ event (Event.Publish 2) ++ event (Event.PubAck 2)
  ++ event (Event.Publish 3)
  ++ [message "d"; message "e"; Ev Event.Other; Go; Go; Go; Go]
  ++ [Shut; Leave; Go; Go; Ev Event.Error; Ev Event.ConnAck]
  ++ [Ev (Event.Publish 3); Ev (Event.Publish 1); Ev (Event.PubAck 3); Ev (Event.PubAck 1)].

(** What a script ends with: the answers, the numbers of the messages of a
    request, and whether the broker has acknowledged one of them. *)
Definition outcome_of (l : list act) : option (list (nat * MqttResult ()) * list (option nat) * list bool * bool) :=
  '(w, b) ← exec_all example_config l (world_new lib_new);
  Some (wk_replies (w_worker w), wk_forwarded (w_worker w),
    (λ n, bool_decide (n ∈ lb_confirmed (w_lib w))) <$> seq 0 (length (wk_forwarded (w_worker w))), b).

Lemma outcome_run l rs fs cs b :
  outcome_of l = Some (rs, fs, cs, b) →
  ∃ w : World Lib, rtc (any_step example_config) (world_new lib_new) w ∧
    (b = true → rtc (benign_step example_config) (world_new lib_new) w) ∧
    wk_replies (w_worker w) = rs ∧ wk_forwarded (w_worker w) = fs ∧
    ∀ n, cs !! n = Some false → n ∉ lb_confirmed (w_lib w).
Proof.
  intros ([w c] & He & [= <- <- <- ->])%bind_Some. apply exec_all_sound in He as [R1 R2]. exists w.
  split_and!; [done..|]. intros n. rewrite list_lookup_fmap. intros (m & [-> _]%lookup_seq & Hm)%fmap_Some.
  symmetry in Hm. by apply bool_decide_eq_false in Hm.
Qed.

(** *** The theorems at these runs *)
Lemma mqtt_acked_sound_witness :
  ∃ w : World Lib, (0%nat, Ok ()) ∈ wk_replies (w_worker w) ∧
    ∃ n, wk_forwarded (w_worker w) !! n = Some (Some 0%nat) ∧ n ∈ lb_confirmed (view (w_lib w)).
Proof.
  destruct (outcome_run run_acked _ _ _ _ ltac:(vm_compute; reflexivity)) as (w & _ & R & Hr & _). exists w.
  assert ((0%nat, Ok ()) ∈ wk_replies (w_worker w)) as H by (rewrite Hr; left).
  split; [exact H|]. exact (mqtt_acked_sound example_config lib_new w 0%nat eq_refl (R eq_refl) H).
Defined.

Lemma mqtt_settled_once_witness :
  ∃ w : World Lib, NoDup (wk_replies (w_worker w)).*1 ∧ length (wk_replies (w_worker w)) = 5%nat.
Proof.
  destruct (outcome_run (run_shutdown ++ [Leave; Go; Go]) _ _ _ _ ltac:(vm_compute; reflexivity)) as (w & R & _ & Hr & _).
  exists w. split; [|by rewrite Hr]. exact (proj1 (mqtt_settled_once example_config lib_new w R)).
Defined.


(** The same when it is lost while a shutdown forwards its offline requests. *)
Theorem mqtt_loss_in_shutdown :
  ∃ (w : World Lib) id n, rtc (any_step example_config) (world_new lib_new) w ∧
    (id, Ok ()) ∈ wk_replies (w_worker w) ∧ wk_forwarded (w_worker w) !! n = Some (Some id) ∧
    (n ∉ lb_confirmed (w_lib w)) ∧ NoDup (wk_forwarded (w_worker w)).
Proof.
  destruct (outcome_run run_shutdown _ _ _ _ ltac:(vm_compute; reflexivity)) as (w & R & _ & Hr & Hf & Hc).
  exists w, 4%nat, 4%nat. rewrite Hr, Hf. split_and!; [done| |done|by apply Hc|].
  - do 3 right. left.
  - refine (bool_decide_unpack _ _). vm_compute. exact I.
Qed.

(** Devices x and y are online, x waits to be announced again, and its
    [publish_offline] is in the channel; then the connection is lost. *)
Definition offline_request : PublishRequest :=
  mkPublishRequest (lit "forgelink/v1/status/s/x")
    (status_envelope 0 (lit "s") (lit "x") (lit "offline")) true false (Some (lit "s", lit "x")) true false (Some 0%nat).

Definition leaving : World Lib :=
  mkWorld (set_online (mkOnline [(lit "s", lit "x"); (lit "s", lit "y")] [(lit "s", lit "x")] true)
      (set_connection true 0 worker_new))
    lib_new [offline_request] 1 false false Pc.Receive.

Definition left_ : World Lib :=
  run_to (accept_request (mq_max_packet_size example_config) offline_request (w_worker leaving)) lib_new Pc.Receive
    (take_channel [] leaving).

Lemma mqtt_offline_stays_witness :
  ∃ w2 : World Lib, rtc (unannounced example_config (lit "s", lit "x")) left_ w2 ∧ w_pc w2 = Pc.Backoff ∧
    silent (lit "s", lit "x") (w_worker w2).
Proof.
  destruct (forward_pending None (w_worker left_) lib_new) as [k lib] eqn:Hf.
  pose (w3 := run_to k lib Pc.Select left_). pose (w2 := run_to (on_poll_error k) (lib_clean lib) Pc.Backoff w3).
  assert (rtc (unannounced example_config (lit "s", lit "x")) left_ w2) as R.
  { apply (rtc_l _ _ w3); [|apply rtc_once]; (split; [|constructor]).
    - exists None. apply by_main, step_forward; [reflexivity|by right|exact Hf].
    - exists (Some Event.Error). apply by_main. refine (step_select_error example_config w3 (lib_clean lib) eq_refl _).
      apply (deliver_sound Event.Error). vm_compute in Hf. injection Hf as _ <-. vm_compute. reflexivity. }
  exists w2. split; [exact R|]. split; [reflexivity|].
  refine (proj2 (mqtt_offline_stays example_config 0 0%nat (lit "s", lit "x") offline_request leaving left_ w2 _ _ _ _ R)).
  - vm_compute. reflexivity.
  - reflexivity.
  - reflexivity.
  - apply by_main, step_receive; reflexivity.
Defined.
