(* ===== verification/ControlModel.v ===== *)
(** * Control data, policy and authorization

    The data of the control plane (crates/observation-model command.rs and
    control.rs, crates/driver-contract items.rs and results.rs, the key and
    error types of crates/control-engine) and its two pure components: the
    role-based authorizer (role.rs) and the control policy (policy.rs), with
    the driver-error whitelist of validate.rs.  JSON values are an opaque
    type; message texts are not modelled. *)

From S2P Require Import Prelude RustStd ObservationModel.
From stdpp Require Import options.

(** ** Roles and authorization (role.rs) *)
Module Role.
Inductive t : Type := Viewer | Operator | Engineer | Administrator.

#[global] Instance t_eq_dec : EqDecision t.
Proof. solve_decision. Defined.

(** The declaration order is the derived [Ord]. *)
Definition rank (r : t) : Z :=
  match r with Viewer => 0 | Operator => 1 | Engineer => 2 | Administrator => 3 end.
End Role.

Definition role_ordering (granted required : Role.t) : bool :=
  Role.rank required <=? Role.rank granted.

Module AuthorizationError.
Inductive t : Type := InsufficientRole.
End AuthorizationError.

(** [Authorizer]: what the engine asks of any authorization backend. *)
Class Authorizer (A : Type) : Type := {
  authorize : A → str → Role.t → str → outcome AuthorizationError.t ();
}.

Record MemoryAuthorizer : Type := mkMemoryAuthorizer {
  ma_roles : gmap str Role.t;
  ma_denied : list str;
}.

Definition authorizer_new : MemoryAuthorizer := {| ma_roles := ∅; ma_denied := [] |}.

Definition set_role (a : MemoryAuthorizer) (subject : str) (role : Role.t) : MemoryAuthorizer :=
  {| ma_roles := <[subject := role]> (ma_roles a); ma_denied := ma_denied a |}.

Definition remove_role (a : MemoryAuthorizer) (subject : str) : MemoryAuthorizer :=
  {| ma_roles := delete subject (ma_roles a); ma_denied := ma_denied a |}.

(** [format!("{subject}@{device_id}")] *)
Definition deny_key (subject device_id : str) : str := subject ++ [64] ++ device_id.

Definition deny (a : MemoryAuthorizer) (subject device_id : str) : MemoryAuthorizer :=
  {| ma_roles := ma_roles a; ma_denied := ma_denied a ++ [deny_key subject device_id] |}.

Definition role_of (a : MemoryAuthorizer) (subject : str) : option Role.t :=
  ma_roles a !! subject.

Definition memory_authorize (a : MemoryAuthorizer) (subject : str) (required : Role.t)
    (device_id : str) : outcome AuthorizationError.t () :=
  if existsb (λ entry, bool_decide (entry = deny_key subject device_id)) (ma_denied a)
  then Err AuthorizationError.InsufficientRole
  else
    let granted := default Role.Viewer (role_of a subject) in
    if role_ordering granted required then Ok () else Err AuthorizationError.InsufficientRole.

#[global] Instance memory_authorizer : Authorizer MemoryAuthorizer :=
  {| authorize := memory_authorize |}.

(** ** Risk levels, priorities and operation kinds *)

Module Priority.
Inductive t : Type := Low | Medium | High | Critical.

#[global] Instance t_eq_dec : EqDecision t.
Proof. solve_decision. Defined.

(** [as i64]; the declaration order is the derived [Ord]. *)
Definition rank (p : t) : Z :=
  match p with Low => 0 | Medium => 1 | High => 2 | Critical => 3 end.

Definition cmp (a b : t) : comparison := rank a ?= rank b.
End Priority.

Module OperationKind.
Inductive t : Type := PropertyWrite | Command (risk : CommandRiskLevel.t).
End OperationKind.

(** ** The control policy (policy.rs)

    Durations are in the unit of their Rust type: the retention in
    nanoseconds, everything else in milliseconds.  The checker object is
    modelled by its presence; its answers belong to the environment of the
    queue. *)
Record ControlPolicy : Type := mkControlPolicy {
  queue_capacity : nat;
  idempotency_retention : Z;
  property_write_required_role : Role.t;
  property_write_priority : Priority.t;
  property_write_timeout_ms : Z;
  command_required_role : gmap CommandRiskLevel.t Role.t;
  command_priority : gmap CommandRiskLevel.t Priority.t;
  command_timeout_ms : gmap CommandRiskLevel.t Z;
  precondition_checker : bool;
  precondition_timeout_ms : Z;
  max_request_age_ms : Z;
  control_status_required_role : Role.t;
  audit_timeout_ms : Z;
  priority_aging_ms : Z;
  indeterminate_cooldown_ms : Z;
}.

Definition ns_per_sec : Z := 1000000000.

Definition policy_default : ControlPolicy := {|
  queue_capacity := 64;
  idempotency_retention := 24 * 3600 * ns_per_sec;
  property_write_required_role := Role.Operator;
  property_write_priority := Priority.Medium;
  property_write_timeout_ms := 5000;
  command_required_role := list_to_map
    [(CommandRiskLevel.Low, Role.Operator); (CommandRiskLevel.Medium, Role.Operator);
     (CommandRiskLevel.High, Role.Engineer); (CommandRiskLevel.Critical, Role.Administrator)];
  command_priority := list_to_map
    [(CommandRiskLevel.Low, Priority.Low); (CommandRiskLevel.Medium, Priority.Medium);
     (CommandRiskLevel.High, Priority.High); (CommandRiskLevel.Critical, Priority.Critical)];
  command_timeout_ms := list_to_map
    [(CommandRiskLevel.Low, 5000); (CommandRiskLevel.Medium, 10000);
     (CommandRiskLevel.High, 15000); (CommandRiskLevel.Critical, 20000)];
  precondition_checker := false;
  precondition_timeout_ms := 1000;
  max_request_age_ms := 60000;
  control_status_required_role := Role.Operator;
  audit_timeout_ms := 1000;
  priority_aging_ms := 10000;
  indeterminate_cooldown_ms := 5000;
|}.

Module PolicyError.
Inductive t : Type :=
| IdempotencyRetention | QueueCapacity | PropertyWriteTimeout | CommandTimeout
| PreconditionTimeout | MaxRequestAge | AuditTimeout.
End PolicyError.

Definition policy_validate (p : ControlPolicy) : outcome PolicyError.t () :=
  if idempotency_retention p <? 24 * 3600 * ns_per_sec then Err PolicyError.IdempotencyRetention
  else if (queue_capacity p =? 0)%nat then Err PolicyError.QueueCapacity
  else if property_write_timeout_ms p =? 0 then Err PolicyError.PropertyWriteTimeout
  else if existsb (λ '(_, ms), ms =? 0) (map_to_list (command_timeout_ms p))
  then Err PolicyError.CommandTimeout
  else if precondition_timeout_ms p =? 0 then Err PolicyError.PreconditionTimeout
  else if max_request_age_ms p =? 0 then Err PolicyError.MaxRequestAge
  else if audit_timeout_ms p =? 0 then Err PolicyError.AuditTimeout
  else Ok ().

Definition required_role (p : ControlPolicy) (k : OperationKind.t) : Role.t :=
  match k with
  | OperationKind.PropertyWrite => property_write_required_role p
  | OperationKind.Command risk => default Role.Administrator (command_required_role p !! risk)
  end.

Definition priority (p : ControlPolicy) (k : OperationKind.t) : Priority.t :=
  match k with
  | OperationKind.PropertyWrite => property_write_priority p
  | OperationKind.Command risk => default Priority.Medium (command_priority p !! risk)
  end.

Definition timeout_ms (p : ControlPolicy) (k : OperationKind.t) : Z :=
  match k with
  | OperationKind.PropertyWrite => property_write_timeout_ms p
  | OperationKind.Command risk => default 5000 (command_timeout_ms p !! risk)
  end.

Definition effective_timeout_ms (p : ControlPolicy) (k : OperationKind.t)
    (request_timeout_ms : Z) : Z :=
  Z.min request_timeout_ms (timeout_ms p k).

Definition risk_default_role (risk : CommandRiskLevel.t) : Role.t :=
  match risk with
  | CommandRiskLevel.Low | CommandRiskLevel.Medium => Role.Operator
  | CommandRiskLevel.High => Role.Engineer
  | CommandRiskLevel.Critical => Role.Administrator
  end.

(** ** Results (control.rs, command.rs) *)
Module ControlStatus.
Inductive t : Type :=
| Accepted | Running | Succeeded | Failed | Rejected | Timeout | Cancelled | Indeterminate.

#[global] Instance t_eq_dec : EqDecision t.
Proof. solve_decision. Defined.

(** [Accepted] and [Running] are the states of a record that is not settled. *)
Definition unsettled (s : t) : bool := match s with Accepted | Running => true | _ => false end.
End ControlStatus.

(** [ControlError]; [details] only ever carries a protocol code. *)
Record ControlError : Type := mkControlError {
  ce_code : string;
  ce_details : option Z;
}.

Record PropertyWriteItemResult : Type := mkPropertyWriteItemResult {
  pw_path : str;
  pw_success : bool;
  pw_protocol_code : option Z;
  pw_error : option ControlError;
}.

Record CommandResult (Json : Type) : Type := mkCommandResult {
  cr_device_code : option Z;
  cr_payload : option Json;
}.
Arguments mkCommandResult {Json}.
Arguments cr_device_code {Json}.
Arguments cr_payload {Json}.

Module ControlPayloadResult.
Inductive t (Json : Type) : Type :=
| PropertyWrite (items : list PropertyWriteItemResult)
| Command (result : CommandResult Json).
Arguments PropertyWrite {Json}.
Arguments Command {Json}.
End ControlPayloadResult.

Record ControlResult (Json : Type) : Type := mkControlResult {
  res_request_id : str;
  res_namespace : str;
  res_device_id : str;
  res_status : ControlStatus.t;
  res_started_at_ns : option Z;
  res_completed_at_ns : option Z;
  res_result : option (ControlPayloadResult.t Json);
  res_error : option ControlError;
}.
Arguments mkControlResult {Json}.
Arguments res_request_id {Json}.
Arguments res_namespace {Json}.
Arguments res_device_id {Json}.
Arguments res_status {Json}.
Arguments res_started_at_ns {Json}.
Arguments res_completed_at_ns {Json}.
Arguments res_result {Json}.
Arguments res_error {Json}.

(** [IdempotencyKey] (journal.rs) *)
Record IdempotencyKey : Type := mkIdempotencyKey {
  ik_namespace : str;
  ik_device_id : str;
  ik_request_id : str;
}.

#[global] Instance IdempotencyKey_eq_dec : EqDecision IdempotencyKey.
Proof. solve_decision. Defined.
#[global] Instance IdempotencyKey_countable : Countable IdempotencyKey.
Proof.
  refine (inj_countable' (λ k, (ik_namespace k, ik_device_id k, ik_request_id k))
    (λ '(n, d, r), mkIdempotencyKey n d r) _). by intros [].
Defined.

(** ** Driver requests and results (driver-contract) *)
Record DriverWriteItem : Type := mkDriverWriteItem {
  dw_id : Z;
  dw_address : str;
  dw_value : RawValue.t;
}.

Record DriverCommand (Json : Type) : Type := mkDriverCommand {
  dc_command_id : str;
  dc_payload : Json;
}.
Arguments mkDriverCommand {Json}.

Record RawCommandResult (Json : Type) : Type := mkRawCommandResult {
  rc_success : bool;
  rc_protocol_code : option Z;
  rc_payload : option Json;
  rc_error : option DriverErrorInfo;
}.
Arguments mkRawCommandResult {Json}.
Arguments rc_success {Json}.
Arguments rc_protocol_code {Json}.
Arguments rc_payload {Json}.
Arguments rc_error {Json}.

(** ** Driver errors at the north-bound boundary (validate.rs) *)
Definition DRIVER_CODE_WHITELIST : list string :=
  ["driver_load_failed"; "driver_entry_not_found"; "driver_manifest_entry_invalid";
   "driver_entry_null"; "driver_struct_too_small"; "driver_abi_incompatible";
   "driver_manifest_abi_mismatch"; "driver_missing_function"; "driver_create_failed";
   "driver_call_failed"; "driver_empty_response"; "driver_invalid_response";
   "driver_invalid_handle"; "driver_encoding_error"; "driver_request_timeout";
   "driver_read_panicked"; "connection_failed"; "connection_lost"; "timeout";
   "modbus_exception"; "invalid_response"; "invalid_address"; "config_error";
   "decode_error"]%string.

Definition whitelist_driver_code (code : string) : string :=
  match List.find (λ known, bool_decide (known = code)) DRIVER_CODE_WHITELIST with
  | Some known => known
  | None => "driver_error"
  end%string.

Definition map_driver_error (info : DriverErrorInfo) : ControlError :=
  {| ce_code := whitelist_driver_code (dei_code info); ce_details := dei_protocol_code info |}.

(** ** Properties *)

(** The in-memory authorizer admits a subject on a device exactly when the
    pair is not on the deny list and the subject's role (viewer when it has
    none) is at least the required one. *)
Theorem memory_authorize_iff (a : MemoryAuthorizer) subject required device :
  authorize a subject required device = Ok () ↔
  (deny_key subject device ∉ ma_denied a) ∧
  Role.rank required ≤ Role.rank (default Role.Viewer (ma_roles a !! subject)).
Proof.
  cbn [authorize memory_authorizer]. unfold memory_authorize, role_ordering, role_of.
  destruct (existsb _ _) eqn:E.
  - apply existsb_exists in E as (x & Hx & ->%bool_decide_eq_true).
    split; [done|]. intros [[] _]. by apply list_elem_of_In.
  - destruct (Z.leb_spec (Role.rank required) (Role.rank (default Role.Viewer (ma_roles a !! subject)))).
    + split; [|done]. intros _. split; [|done]. intros Hin.
      enough (existsb (λ entry, bool_decide (entry = deny_key subject device)) (ma_denied a) = true)
        by congruence.
      apply existsb_exists. exists (deny_key subject device).
      split; [by apply list_elem_of_In|by apply bool_decide_eq_true].
    + split; [done|]. lia.
Qed.

(** Deny-list entries are not injective: a denial for device ["b@c"] also
    denies the user ["a@b"] on device ["c"]. *)
Example deny_key_ambiguous :
  memory_authorize
    (set_role (deny authorizer_new (lit "a") (lit "b@c")) (lit "a@b") Role.Administrator)
    (lit "a@b") Role.Viewer (lit "c") = Err AuthorizationError.InsufficientRole.
Proof. reflexivity. Qed.

Lemma policy_validate_Ok p :
  policy_validate p = Ok () →
  24 * 3600 * ns_per_sec ≤ idempotency_retention p ∧ (0 < queue_capacity p)%nat ∧
  property_write_timeout_ms p ≠ 0 ∧ map_Forall (λ _ ms, ms ≠ 0) (command_timeout_ms p) ∧
  precondition_timeout_ms p ≠ 0 ∧ max_request_age_ms p ≠ 0 ∧ audit_timeout_ms p ≠ 0.
Proof.
  unfold policy_validate. intros H.
  repeat (case_if; [discriminate H|]).
  split_and!; try lia. intros risk ms Hl ->.
  enough (existsb (λ '(_, ms), ms =? 0) (map_to_list (command_timeout_ms p)) = true) by congruence.
  apply existsb_exists. exists (risk, 0). split; [|done].
  by apply list_elem_of_In, elem_of_map_to_list.
Qed.

(** Under a validated policy with non-negative timeouts, every request with
    a positive timeout gets a positive deadline that exceeds neither the
    request's nor the policy's limit; nothing times out by configuration. *)
Theorem policy_effective_timeout p k request_ms :
  policy_validate p = Ok () → 0 ≤ property_write_timeout_ms p →
  map_Forall (λ _ ms, 0 ≤ ms) (command_timeout_ms p) → 0 < request_ms →
  0 < effective_timeout_ms p k request_ms ≤ request_ms ∧
  effective_timeout_ms p k request_ms ≤ timeout_ms p k.
Proof.
  intros (_ & _ & Hw & Hc & _)%policy_validate_Ok Hw0 Hc0 Hr.
  assert (0 < timeout_ms p k).
  { destruct k as [|risk]; cbn [timeout_ms]; [lia|].
    destruct (command_timeout_ms p !! risk) as [ms|] eqn:E; cbn [default from_option]; [|lia].
    apply Hc in E as ?. apply Hc0 in E. unfold id. lia. }
  unfold effective_timeout_ms. lia.
Qed.

(** The built-in policy passes its own validation, and its role table is
    [risk_default_role]. *)
Lemma policy_default_valid : policy_validate policy_default = Ok ().
Proof. vm_compute. reflexivity. Qed.

Lemma policy_default_roles risk :
  required_role policy_default (OperationKind.Command risk) = risk_default_role risk.
Proof. by destruct risk. Qed.

(** A code that leaves the engine is from the whitelist or generic: no text
    of a driver is passed on. *)
Lemma whitelist_driver_code_closed code :
  whitelist_driver_code code ∈ ("driver_error"%string :: DRIVER_CODE_WHITELIST).
Proof.
  unfold whitelist_driver_code. destruct (List.find _ _) eqn:E; [|left].
  apply List.find_some in E as [E _]. right. by apply list_elem_of_In.
Qed.
