(* ===== verification/ControlJournal.v ===== *)
(** * The idempotency journal (crates/control-engine/src/journal.rs)

    A control request is recorded under its idempotency key before it is
    executed; the record is settled with the result.  [InMemoryJournal] is a
    map; [FileJournal] is a map with an append-only log on disk, replayed when
    it is opened and compacted when records expire.

    The disk is the text of the file at the journal's path.  The JSON form of
    a record ([serde_json]) is an interface, [RecordCodec], and so is the
    iteration order of a hash map, [HashOrder].  Every write can fail: a fault
    says how much of the line reached the disk before the error, a compaction
    can fail before or after the rename. *)

From S2P Require Import Prelude RustStd ObservationModel ControlModel.
From stdpp Require Import options.

#[local] Set Default Proof Using "Type".

Definition newline : Z := 10.
Definition carriage_return : Z := 13.

(** [BufRead::lines]: a line ends with a newline, and a carriage return
    before it is dropped too; the rest of the text, if any, is a last line. *)
Definition strip_cr (l : str) : str :=
  match last l with
  | Some c => if c =? carriage_return then take (length l - 1) l else l
  | None => l
  end.

Fixpoint lines_from (cur s : str) : list str :=
  match s with
  | [] => match cur with [] => [] | _ => [cur] end
  | c :: s' => if c =? newline then strip_cr cur :: lines_from [] s' else lines_from (cur ++ [c]) s'
  end.

Definition lines (s : str) : list str := lines_from [] s.

Module JournalError.
Inductive t : Type := Io | Corrupt (line : nat).
End JournalError.

Record JournalEntry (Json : Type) : Type := mkJournalEntry {
  je_key : IdempotencyKey;
  je_payload_hash : str;
  je_status : ControlStatus.t;
  je_created_at_ns : Z;
  je_expires_at_ns : Z;
  je_result : option (ControlResult Json);
}.
Arguments mkJournalEntry {Json}.
Arguments je_key {Json}.
Arguments je_payload_hash {Json}.
Arguments je_status {Json}.
Arguments je_created_at_ns {Json}.
Arguments je_expires_at_ns {Json}.
Arguments je_result {Json}.

Module JournalDecision.
Inductive t (Json : Type) : Type :=
| Inserted
| Duplicate (existing : JournalEntry Json)
| Conflict (existing : JournalEntry Json).
Arguments Inserted {Json}.
Arguments Duplicate {Json}.
Arguments Conflict {Json}.
End JournalDecision.

(** [Record]: a line of the log. *)
Module LogRecord.
Inductive t (Json : Type) : Type :=
| Insert (key : IdempotencyKey) (payload_hash : str) (status : ControlStatus.t)
    (created_at_ns expires_at_ns : Z)
| Settle (key : IdempotencyKey) (result : ControlResult Json).
Arguments Insert {Json}.
Arguments Settle {Json}.
End LogRecord.

(** How a compaction fails: not at all, before the rename, or when the new
    file is opened for appending. *)
Module CompactFault.
Inductive t : Type := None | BeforeRename | Reopen.

#[global] Instance t_eq_dec : EqDecision t.
Proof. solve_decision. Defined.
End CompactFault.

(** [ControlJournal]: what the engine asks of a journal; the operations that
    write take the fault of their write, the purge that of its compaction. *)
Class ControlJournal (J Json : Type) : Type := {
  j_try_insert : option nat → IdempotencyKey → str → Z → Z →
    stm J JournalError.t (JournalDecision.t Json);
  j_settle : option nat → IdempotencyKey → ControlResult Json → stm J JournalError.t ();
  j_get : IdempotencyKey → J → option (JournalEntry Json);
  j_purge_expired : CompactFault.t → Z → J → J * nat;
}.

(** [serde_json::to_string] and [from_str] on records: compact JSON, which is
    one line of text. *)
Class RecordCodec (Json : Type) : Type := {
  to_line : LogRecord.t Json → option str;
  from_line : str → option (LogRecord.t Json);
}.

Definition good_line (l : str) : Prop :=
  (newline ∉ l) ∧ last l ≠ Some carriage_return ∧ trim l ≠ [].

Class RecordCodecLaws (Json : Type) `{RecordCodec Json} : Prop := {
  to_line_ok r l : to_line r = Some l → from_line l = Some r ∧ good_line l;
}.

Section journal.
Context {Json : Type}.
Abbreviation Entry := (JournalEntry Json).
Abbreviation Entries := (gmap IdempotencyKey (JournalEntry Json)).

Definition set_settled (result : ControlResult Json) (e : Entry) : Entry :=
  {| je_key := je_key e; je_payload_hash := je_payload_hash e;
     je_status := res_status result; je_created_at_ns := je_created_at_ns e;
     je_expires_at_ns := je_expires_at_ns e; je_result := Some result |}.

Definition new_entry (key : IdempotencyKey) (payload_hash : str) (created expires : Z) : Entry :=
  {| je_key := key; je_payload_hash := payload_hash; je_status := ControlStatus.Running;
     je_created_at_ns := created; je_expires_at_ns := expires; je_result := None |}.

(** The decision on a key that has a record within its retention. *)
Definition decide_existing (entries : Entries) (key : IdempotencyKey) (payload_hash : str)
    (created : Z) : option (JournalDecision.t Json) :=
  match entries !! key with
  | Some existing =>
      if created <=? je_expires_at_ns existing then
        if bool_decide (je_payload_hash existing = payload_hash)
        then Some (JournalDecision.Duplicate existing)
        else Some (JournalDecision.Conflict existing)
      else None
  | None => None
  end.

Definition live (now : Z) (ke : IdempotencyKey * Entry) : Prop := now ≤ je_expires_at_ns ke.2.
#[global] Instance live_dec now ke : Decision (live now ke).
Proof. unfold live. apply _. Defined.

(** [entries.retain(|_, e| e.expires_at_ns >= now_ns)] *)
Definition retain_live (now : Z) (entries : Entries) : Entries := filter (live now) entries.

(** ** InMemoryJournal *)
Definition mem_try_insert (key : IdempotencyKey) (payload_hash : str) (created expires : Z) :
    stm Entries JournalError.t (JournalDecision.t Json) := λ entries,
  match decide_existing entries key payload_hash created with
  | Some d => (entries, Ok d)
  | None => (<[key := new_entry key payload_hash created expires]> entries,
             Ok JournalDecision.Inserted)
  end.

Definition mem_settle (key : IdempotencyKey) (result : ControlResult Json) :
    stm Entries JournalError.t () := λ entries,
  match entries !! key with
  | None => (entries, Ok ())
  | Some e => (<[key := set_settled result e]> entries, Ok ())
  end.

Definition mem_get (key : IdempotencyKey) (entries : Entries) : option Entry := entries !! key.

Definition mem_purge_expired (now : Z) (entries : Entries) : Entries * nat :=
  let entries' := retain_live now entries in
  (entries', (size entries - size entries')%nat).

#[global] Instance in_memory_journal : ControlJournal Entries Json := {|
  j_try_insert _ := mem_try_insert;
  j_settle _ := mem_settle;
  j_get := mem_get;
  j_purge_expired _ := mem_purge_expired;
|}.
End journal.

(** ** FileJournal *)

(** [HashMap::values]: some order of the values. *)
Class HashOrder (Json : Type) : Type := {
  values : gmap IdempotencyKey (JournalEntry Json) → list (JournalEntry Json);
  values_perm m : values m ≡ₚ (map_to_list m).*2;
}.

(** [fj_attached]: the open handle is the file at the path, and not one that a
    rename has replaced. *)
Record FileJournal (Json : Type) : Type := mkFileJournal {
  fj_disk : str;
  fj_attached : bool;
  fj_entries : gmap IdempotencyKey (JournalEntry Json);
}.
Arguments mkFileJournal {Json}.
Arguments fj_disk {Json}.
Arguments fj_attached {Json}.
Arguments fj_entries {Json}.

Section file_journal.
Context {Json : Type} `{!RecordCodec Json} `{!HashOrder Json}.
Abbreviation Entry := (JournalEntry Json).
Abbreviation Entries := (gmap IdempotencyKey (JournalEntry Json)).
Abbreviation M := (stm (FileJournal Json) JournalError.t).

Definition set_entries (f : Entries → Entries) (j : FileJournal Json) : FileJournal Json :=
  {| fj_disk := fj_disk j; fj_attached := fj_attached j; fj_entries := f (fj_entries j) |}.

(** A write through the open handle. *)
Definition append (text : str) (j : FileJournal Json) : FileJournal Json :=
  {| fj_disk := if fj_attached j then fj_disk j ++ text else fj_disk j;
     fj_attached := fj_attached j; fj_entries := fj_entries j |}.

Definition write_record (fault : option nat) (record : LogRecord.t Json) : M () := λ j,
  match to_line record with
  | None => (j, Err (JournalError.Corrupt 0))
  | Some line =>
      let text := line ++ [newline] in
      match fault with
      | None => (append text j, Ok ())
      | Some n => (append (take n text) j, Err JournalError.Io)
      end
  end.

Definition file_try_insert (fault : option nat) (key : IdempotencyKey) (payload_hash : str)
    (created expires : Z) : M (JournalDecision.t Json) :=
  let! j := sget in
  match decide_existing (fj_entries j) key payload_hash created with
  | Some d => sret d
  | None =>
      let! _ := write_record fault
        (LogRecord.Insert key payload_hash ControlStatus.Running created expires) in
      let! _ := smodify (set_entries <[key := new_entry key payload_hash created expires]>) in
      sret JournalDecision.Inserted
  end.

Definition file_settle (fault : option nat) (key : IdempotencyKey) (result : ControlResult Json) :
    M () :=
  let! j := sget in
  match fj_entries j !! key with
  | None => sret ()
  | Some e =>
      let! _ := write_record fault (LogRecord.Settle key result) in
      smodify (set_entries <[key := set_settled result e]>)
  end.

Definition file_get (key : IdempotencyKey) (j : FileJournal Json) : option Entry :=
  fj_entries j !! key.

(** The lines a compaction writes for an entry. *)
Definition compact_entry (e : Entry) : list (LogRecord.t Json) :=
  LogRecord.Insert (je_key e) (je_payload_hash e) (je_status e) (je_created_at_ns e)
    (je_expires_at_ns e) ::
  match je_result e with Some r => [LogRecord.Settle (je_key e) r] | None => [] end.

(** The text of a sequence of records; [None] when one does not serialize. *)
Fixpoint render (records : list (LogRecord.t Json)) : option str :=
  match records with
  | [] => Some []
  | r :: records' =>
      match to_line r, render records' with
      | Some line, Some text => Some (line ++ [newline] ++ text)
      | _, _ => None
      end
  end.

Definition compact (fault : CompactFault.t) (now : Z) : M () := λ j,
  let kept := filter (λ e, now ≤ je_expires_at_ns e) (values (fj_entries j)) in
  match render (kept ≫= compact_entry), fault with
  | None, _ => (j, Err (JournalError.Corrupt 0))
  | Some _, CompactFault.BeforeRename => (j, Err JournalError.Io)
  | Some text, CompactFault.Reopen =>
      ({| fj_disk := text; fj_attached := false; fj_entries := fj_entries j |},
       Err JournalError.Io)
  | Some text, CompactFault.None =>
      ({| fj_disk := text; fj_attached := true; fj_entries := fj_entries j |}, Ok ())
  end.

Definition file_purge_expired (fault : CompactFault.t) (now : Z) (j : FileJournal Json) :
    FileJournal Json * nat :=
  let j' := set_entries (retain_live now) j in
  let removed := (size (fj_entries j) - size (fj_entries j'))%nat in
  (if (0 <? removed)%nat then (compact fault now j').1 else j', removed).

#[global] Instance file_journal : ControlJournal (FileJournal Json) Json := {|
  j_try_insert := file_try_insert;
  j_settle := file_settle;
  j_get := file_get;
  j_purge_expired := file_purge_expired;
|}.

(** ** Opening: replay, recovery, compaction *)
Record Replay : Type := mkReplay {
  rp_entries : Entries;
  rp_expired_keys : gset IdempotencyKey;
  rp_need_compact : bool;
}.

Definition replay_init : Replay :=
  {| rp_entries := ∅; rp_expired_keys := ∅; rp_need_compact := false |}.

(** One record; [line_no] is the line it is on. *)
Definition replay_record (now : Z) (line_no : nat) (record : LogRecord.t Json) (st : Replay) :
    outcome JournalError.t Replay :=
  match record with
  | LogRecord.Insert key payload_hash status created expires =>
      if expires <? now then
        Ok {| rp_entries := rp_entries st; rp_expired_keys := {[key]} ∪ rp_expired_keys st;
              rp_need_compact := true |}
      else
        Ok {| rp_entries := <[key := {| je_key := key; je_payload_hash := payload_hash;
                je_status := status; je_created_at_ns := created; je_expires_at_ns := expires;
                je_result := None |}]> (rp_entries st);
              rp_expired_keys := rp_expired_keys st; rp_need_compact := rp_need_compact st |}
  | LogRecord.Settle key result =>
      match rp_entries st !! key with
      | None =>
          if bool_decide (key ∈ rp_expired_keys st) then
            Ok {| rp_entries := rp_entries st; rp_expired_keys := rp_expired_keys st ∖ {[key]};
                  rp_need_compact := rp_need_compact st |}
          else Err (JournalError.Corrupt line_no)
      | Some e =>
          Ok {| rp_entries := <[key := set_settled result e]> (rp_entries st);
                rp_expired_keys := rp_expired_keys st; rp_need_compact := rp_need_compact st |}
      end
  end.

Fixpoint replay (now : Z) (line_no : nat) (ls : list str) (st : Replay) :
    outcome JournalError.t Replay :=
  match ls with
  | [] => Ok st
  | line :: ls' =>
      if bool_decide (trim line = []) then replay now (S line_no) ls' st
      else
        let? record := ok_or (from_line line) (JournalError.Corrupt line_no) in
        let? st' := replay_record now line_no record st in
        replay now (S line_no) ls' st'
  end.

(** The result given to a record whose execution was interrupted. *)
Definition interrupted (now : Z) (key : IdempotencyKey) : ControlResult Json :=
  {| res_request_id := ik_request_id key; res_namespace := ik_namespace key;
     res_device_id := ik_device_id key; res_status := ControlStatus.Indeterminate;
     res_started_at_ns := None; res_completed_at_ns := Some now; res_result := None;
     res_error := Some {| ce_code := "EXECUTION_INTERRUPTED"; ce_details := None |} |}.

Definition recover (now : Z) (e : Entry) : Entry :=
  if ControlStatus.unsettled (je_status e) then
    {| je_key := je_key e; je_payload_hash := je_payload_hash e;
       je_status := ControlStatus.Indeterminate; je_created_at_ns := je_created_at_ns e;
       je_expires_at_ns := je_expires_at_ns e; je_result := Some (interrupted now (je_key e)) |}
  else e.

(** [FileJournal::open] on the file's text ([None]: there is no file); the
    first component is the text at the path afterwards. *)
Definition open (fault : CompactFault.t) (now : Z) (content : option str) :
    option str * outcome JournalError.t (FileJournal Json) :=
  match replay now 1 (default [] (lines <$> content)) replay_init with
  | Err e => (content, Err e)
  | Panic => (content, Panic)
  | Ok st =>
      let j := {| fj_disk := default [] content; fj_attached := true;
                  fj_entries := recover now <$> rp_entries st |} in
      if rp_need_compact st then
        let '(j', r) := compact fault now j in (Some (fj_disk j'), outcome_map (λ _, j') r)
      else (Some (fj_disk j), Ok j)
  end.
End file_journal.

(** * Crash safety of the idempotency journal

    The log on disk denotes a map ([log]); replaying it at a time keeps the
    live part of that map.  The invariant [journal_inv] relates the memory of
    a running journal with its log across insertions, settlements, purges,
    compactions, failed writes and restarts; the theorems read off it that no
    request recorded within its retention is forgotten or executed again. *)

#[local] Set Default Proof Using "Type*".

(** ** Lines *)
Lemma lines_from_line l cur s :
  newline ∉ l → lines_from cur (l ++ newline :: s) = strip_cr (cur ++ l) :: lines_from [] s.
Proof.
  revert cur. induction l as [|c l IH]; intros cur Hl; cbn [app lines_from].
  - by rewrite app_nil_r.
  - apply not_elem_of_cons in Hl as [Hc Hl].
    destruct (Z.eqb_spec c newline) as [->|_]; [done|].
    rewrite IH by done. by rewrite <-app_assoc.
Qed.

Lemma strip_cr_good l : last l ≠ Some carriage_return → strip_cr l = l.
Proof.
  unfold strip_cr. intros Hl. destruct (last l) as [c|]; [|done].
  destruct (Z.eqb_spec c carriage_return) as [->|]; done.
Qed.

Section log.
Context {Json : Type} `{!RecordCodec Json} `{!RecordCodecLaws Json} `{!HashOrder Json}.
Abbreviation Entry := (JournalEntry Json).
Abbreviation Entries := (gmap IdempotencyKey (JournalEntry Json)).
Implicit Types (rs : list (LogRecord.t Json)) (m : Entries) (e : Entry) (k : IdempotencyKey).

(** ** The map a log denotes *)
Definition log_record (m : Entries) (r : LogRecord.t Json) : Entries :=
  match r with
  | LogRecord.Insert key payload_hash status created expires =>
      <[key := {| je_key := key; je_payload_hash := payload_hash; je_status := status;
                  je_created_at_ns := created; je_expires_at_ns := expires;
                  je_result := None |}]> m
  | LogRecord.Settle key result =>
      match m !! key with Some e => <[key := set_settled result e]> m | None => m end
  end.

Definition log (rs : list (LogRecord.t Json)) : Entries := foldl log_record ∅ rs.

Lemma log_snoc rs r : log (rs ++ [r]) = log_record (log rs) r.
Proof. unfold log. by rewrite foldl_app. Qed.

(** An entry under its own key, with the status of its result. *)
Definition entry_ok (k : IdempotencyKey) (e : Entry) : Prop :=
  je_key e = k ∧ ∀ r, je_result e = Some r → je_status e = res_status r.

Lemma log_record_ok m r : map_Forall entry_ok m → map_Forall entry_ok (log_record m r).
Proof.
  intros Hm. destruct r as [k h s c x|k r]; cbn [log_record].
  - by apply map_Forall_insert_2.
  - destruct (m !! k) as [e|] eqn:E; [|done]. apply map_Forall_insert_2; [|done].
    apply Hm in E as [? _]. split; [done|]. by intros ? [= ->].
Qed.

Lemma log_entries_ok rs : map_Forall entry_ok (log rs).
Proof.
  induction rs as [|r rs IH] using rev_ind; [apply map_Forall_empty|].
  rewrite log_snoc. by apply log_record_ok.
Qed.

(** ** Logs the journal writes

    A settlement follows the insertion of its key, and a later insertion of a
    key does not expire before the earlier one.  [once] adds that a record is
    settled once. *)
Inductive log_ok (once : bool) : list (LogRecord.t Json) → Prop :=
| log_ok_nil : log_ok once []
| log_ok_insert rs k h s c x :
    log_ok once rs → (∀ e, log rs !! k = Some e → je_expires_at_ns e ≤ x) →
    log_ok once (rs ++ [LogRecord.Insert k h s c x])
| log_ok_settle rs k r e :
    log_ok once rs → log rs !! k = Some e → (once = true → je_result e = None) →
    log_ok once (rs ++ [LogRecord.Settle k r]).

(** ** Replay is the live part of the log *)
Fixpoint replay_records (now : Z) (n : nat) (rs : list (LogRecord.t Json)) (st : Replay) :
    outcome JournalError.t Replay :=
  match rs with
  | [] => Ok st
  | r :: rs' => let? st' := replay_record now n r st in replay_records now (S n) rs' st'
  end.

Lemma replay_records_snoc now n rs r st :
  replay_records now n (rs ++ [r]) st =
    (let? st' := replay_records now n rs st in replay_record now (n + length rs) r st').
Proof.
  revert n st. induction rs as [|r' rs IH]; intros n st; cbn [app replay_records length].
  - cbn [outcome_bind]. rewrite Nat.add_0_r. by destruct (replay_record now n r st).
  - destruct (replay_record now n r' st) as [st'| |]; cbn [outcome_bind]; [|done..].
    rewrite IH. by rewrite Nat.add_succ_r.
Qed.

Lemma replay_render now n rs text st :
  render rs = Some text → replay now n (lines text) st = replay_records now n rs st.
Proof.
  revert n text st. induction rs as [|r rs IH]; intros n text st Hr; cbn [render] in Hr.
  { by injection Hr as <-. }
  destruct (to_line r) as [l|] eqn:El; [|done].
  destruct (render rs) as [text'|] eqn:Er; [|done]. injection Hr as <-.
  apply to_line_ok in El as [Hf (Hn & Hc & Ht)].
  unfold lines. cbn [app]. rewrite lines_from_line by done. cbn [app].
  rewrite strip_cr_good by done. cbn [replay replay_records].
  rewrite bool_decide_eq_false_2 by done. rewrite Hf. cbn [ok_or outcome_bind].
  destruct (replay_record now n r st); cbn [outcome_bind]; [|done..]. by apply IH.
Qed.

Lemma retain_live_insert now m k e :
  now ≤ je_expires_at_ns e → retain_live now (<[k := e]> m) = <[k := e]> (retain_live now m).
Proof. intros. by apply map_filter_insert_True. Qed.

Lemma retain_live_insert_dead now m k e :
  je_expires_at_ns e < now → retain_live now m !! k = None →
  retain_live now (<[k := e]> m) = retain_live now m.
Proof.
  intros He Hk. unfold retain_live. rewrite map_filter_insert_False by (unfold live; cbn; lia).
  rewrite map_filter_delete. by apply delete_id.
Qed.

Lemma retain_live_None now m k :
  retain_live now m !! k = None ↔ ∀ e, m !! k = Some e → je_expires_at_ns e < now.
Proof.
  unfold retain_live. rewrite map_lookup_filter_None. unfold live. cbn. split.
  - intros [Hk|Hk] e He; [congruence|]. apply Hk in He. lia.
  - intros Hk. destruct (m !! k) as [e|] eqn:E; [right|by left].
    intros e' [= <-]. specialize (Hk e eq_refl). lia.
Qed.

Lemma retain_live_Some now m k e :
  retain_live now m !! k = Some e ↔ m !! k = Some e ∧ now ≤ je_expires_at_ns e.
Proof. unfold retain_live. by rewrite map_lookup_filter_Some. Qed.

Lemma replay_live once now n rs st :
  log_ok once rs → replay_records now n rs replay_init = Ok st →
  rp_entries st = retain_live now (log rs).
Proof.
  intros Hok. revert st. induction Hok as [|rs k h s c x _ IH Hx|rs k r e _ IH Hk _]; intros st Hr.
  { by injection Hr as <-. }
  all: rewrite replay_records_snoc in Hr; inv_ok; specialize (IH _ Hv); rewrite log_snoc;
    cbn [replay_record log_record] in *.
  - destruct (Z.ltb_spec x now); inv_ok; subst st; cbn [rp_entries]; rewrite IH.
    + symmetry. apply retain_live_insert_dead; [done|]. apply retain_live_None.
      intros e He. apply Hx in He. lia.
    + by rewrite retain_live_insert.
  - rewrite Hk. destruct (rp_entries v !! k) as [e'|] eqn:E.
    + inv_ok. subst st. cbn [rp_entries]. rewrite IH in E |- *.
      apply retain_live_Some in E as [E He]. rewrite Hk in E. injection E as <-.
      by rewrite retain_live_insert.
    + case_if; [|done]. inv_ok. subst st. cbn [rp_entries]. rewrite IH in E |- *.
      symmetry. apply retain_live_insert_dead; [|done].
      rewrite retain_live_None in E. exact (E _ Hk).
Qed.

(** A log settled once per record replays without error: an expired record
    waits for its settlement in [rp_expired_keys]. *)
Lemma replay_once now n rs :
  log_ok true rs →
  ∃ st, replay_records now n rs replay_init = Ok st ∧
    ∀ k e, log rs !! k = Some e → je_expires_at_ns e < now → je_result e = None →
      k ∈ rp_expired_keys st.
Proof.
  induction 1 as [|rs k h s c x Hrs (st & Hst & IH) Hx|rs k r e Hrs (st & Hst & IH) Hk Hone].
  { exists replay_init. split; [done|]. intros k e. unfold log. cbn. by rewrite lookup_empty. }
  all: setoid_rewrite replay_records_snoc; rewrite Hst; cbn [outcome_bind replay_record].
  - destruct (Z.ltb_spec x now); eexists; (split; [done|]); intros k' e';
      rewrite log_snoc; cbn [log_record rp_expired_keys]; rewrite lookup_insert_Some;
      intros [[<- <-]|[Hne He']] Hlt Hres.
    + set_solver.
    + apply elem_of_union_r. by eapply IH.
    + cbn in Hlt. lia.
    + by eapply IH.
  - pose proof (replay_live true now n rs st Hrs Hst) as Hlive. specialize (Hone eq_refl).
    destruct (rp_entries st !! k) as [e0|] eqn:E.
    + eexists. split; [done|]. intros k' e'. rewrite log_snoc. cbn [log_record rp_expired_keys].
      rewrite Hk, lookup_insert_Some. intros [[<- <-]|[Hne He']] Hlt Hres; [done|by eapply IH].
    + assert (k ∈ rp_expired_keys st).
      { rewrite Hlive, retain_live_None in E. eapply IH; [done|by apply E|done]. }
      rewrite bool_decide_eq_true_2 by done. eexists. split; [done|].
      intros k' e'. rewrite log_snoc. cbn [log_record rp_expired_keys].
      rewrite Hk, lookup_insert_Some. intros [[<- <-]|[Hne He']] Hlt Hres; [done|].
      apply elem_of_difference. split; [by eapply IH|set_solver].
Qed.

(** ** Compaction writes the map it is given *)
Lemma log_app_compact m es :
  Forall (λ e, entry_ok (je_key e) e) es →
  foldl log_record m (es ≫= compact_entry) = foldl (λ m e, <[je_key e := e]> m) m es.
Proof.
  intros Hes. revert m. induction Hes as [|e es [_ He] _ IH]; intros m; [done|].
  cbn [mbind list_bind foldl]. rewrite foldl_app, <- IH. f_equal.
  destruct e as [k h s c x [r|]]; cbn [compact_entry je_key je_result app foldl log_record]; [|done].
  rewrite lookup_insert_eq, insert_insert_eq. unfold set_settled. cbn.
  by rewrite <- (He r eq_refl).
Qed.

Lemma compact_log_ok once rs es :
  log_ok once rs → NoDup (je_key <$> es) → (∀ e, e ∈ es → log rs !! je_key e = None) →
  Forall (λ e, entry_ok (je_key e) e) es → log_ok once (rs ++ (es ≫= compact_entry)).
Proof.
  revert rs. induction es as [|e es IH]; intros rs Hrs Hnd Hfresh Hes; cbn [mbind list_bind].
  { by rewrite app_nil_r. }
  cbn [fmap list_fmap] in Hnd. apply NoDup_cons in Hnd as [Hn Hnd].
  apply Forall_cons in Hes as [He Hes]. rewrite app_assoc.
  assert (log (rs ++ compact_entry e) = <[je_key e := e]> (log rs)) as Hlog.
  { unfold log. rewrite foldl_app.
    rewrite <- (app_nil_r (compact_entry e)). change [] with ((@nil Entry) ≫= compact_entry).
    change (compact_entry e ++ ([] ≫= compact_entry)) with ([e] ≫= compact_entry).
    rewrite log_app_compact by by constructor. done. }
  apply IH; [|done| |done].
  - unfold compact_entry. destruct (je_result e) as [r|] eqn:Er.
    + match goal with |- log_ok _ (rs ++ ?a :: [?b]) =>
        change (a :: [b]) with ([a] ++ [b]); rewrite app_assoc
      end.
      eapply log_ok_settle;
        [apply log_ok_insert; [done|]|rewrite log_snoc; apply lookup_insert_eq|done].
      intros e'. by rewrite (Hfresh e) by left.
    + apply log_ok_insert; [done|]. intros e'. by rewrite (Hfresh e) by left.
  - intros e' He'. rewrite Hlog. rewrite lookup_insert_ne; [apply Hfresh; by right|].
    intros Heq. apply Hn. rewrite Heq. by apply list_elem_of_fmap_2.
Qed.

Lemma foldl_insert_map es :
  NoDup (je_key <$> es) →
  foldl (λ m e, <[je_key e := e]> m) (∅ : Entries) es =
    list_to_map ((λ e, (je_key e, e)) <$> es).
Proof.
  intros Hnd. induction es as [|e es IH] using rev_ind; [done|].
  rewrite fmap_app in Hnd. apply NoDup_app in Hnd as (Hnd & Hdisj & _).
  rewrite foldl_app, fmap_app. cbn [foldl fmap list_fmap]. rewrite IH by done.
  rewrite list_to_map_snoc; [done|].
  rewrite <- list_fmap_compose. intros Hin. eapply Hdisj; [exact Hin|by left].
Qed.

(** The pairs a compaction keeps, in the order of the hash map. *)
Lemma kept_pairs now m :
  map_Forall entry_ok m →
  (λ e, (je_key e, e)) <$> filter (λ e, now ≤ je_expires_at_ns e) (values m)
    ≡ₚ map_to_list (retain_live now m).
Proof.
  intros Hm. rewrite (values_perm m).
  assert (map_to_list (retain_live now m) ≡ₚ filter (live now) (map_to_list m)) as ->.
  { unfold retain_live. apply NoDup_Permutation; [apply NoDup_map_to_list| |].
    - apply NoDup_filter, NoDup_map_to_list.
    - intros [k e]. rewrite list_elem_of_filter, !elem_of_map_to_list, map_lookup_filter_Some. tauto. }
  apply reflexive_eq.
  assert (Forall (λ ke : _ * Entry, je_key ke.2 = ke.1) (map_to_list m)) as HF.
  { apply Forall_forall. intros [k e] Hin%elem_of_map_to_list. by apply Hm in Hin as [? _]. }
  induction HF as [|[k e] l Hk _ IH]; [done|].
  cbn [fmap list_fmap snd]. rewrite !filter_cons. unfold live at 1. cbn [snd].
  destruct (decide (now ≤ je_expires_at_ns e)); [|done].
  cbn [fst snd] in Hk. cbn [fmap list_fmap]. by rewrite IH, Hk.
Qed.

Lemma kept_facts now m :
  map_Forall entry_ok m →
  let kept := filter (λ e, now ≤ je_expires_at_ns e) (values m) in
  NoDup (je_key <$> kept) ∧ Forall (λ e, entry_ok (je_key e) e) kept ∧
  list_to_map ((λ e, (je_key e, e)) <$> kept) = retain_live now m.
Proof.
  intros Hm kept. pose proof (kept_pairs now m Hm) as Hp. fold kept in Hp.
  assert (NoDup (je_key <$> kept)) as Hnd.
  { assert (je_key <$> kept = ((λ e, (je_key e, e)) <$> kept).*1) as -> by by rewrite <-list_fmap_compose.
    rewrite Hp. apply NoDup_fst_map_to_list. }
  split_and!; [done| |].
  - apply Forall_forall. intros e He.
    assert ((je_key e, e) ∈ map_to_list (retain_live now m)) as Hin.
    { rewrite <- Hp. by apply (list_elem_of_fmap_2 (λ e, (je_key e, e))). }
    apply elem_of_map_to_list, retain_live_Some in Hin as [Hin _]. by apply Hm in Hin.
  - rewrite <- (list_to_map_to_list (retain_live now m)). apply list_to_map_proper; [|done].
    by rewrite <- list_fmap_compose.
Qed.

Lemma compact_log once now m :
  map_Forall entry_ok m →
  let rs := filter (λ e, now ≤ je_expires_at_ns e) (values m) ≫= compact_entry in
  log_ok once rs ∧ log rs = retain_live now m.
Proof.
  intros Hm rs. destruct (kept_facts now m Hm) as (Hnd & Hes & Hmap). split.
  - apply (compact_log_ok once []); [constructor|done| |done].
    intros e _. apply lookup_empty.
  - unfold log, rs. rewrite log_app_compact by done. by rewrite foldl_insert_map.
Qed.

(** ** Memory and log

    A memory entry is the log's entry, or what a restart made of it. *)
Definition recovers (e e0 : Entry) : Prop := e = e0 ∨ ∃ t, e = recover t e0.

Lemma recover_fields t e :
  je_key (recover t e) = je_key e ∧ je_payload_hash (recover t e) = je_payload_hash e ∧
  je_created_at_ns (recover t e) = je_created_at_ns e ∧
  je_expires_at_ns (recover t e) = je_expires_at_ns e.
Proof. unfold recover. by case_if. Qed.

Lemma recovers_fields e e0 :
  recovers e e0 →
  je_key e = je_key e0 ∧ je_payload_hash e = je_payload_hash e0 ∧
  je_created_at_ns e = je_created_at_ns e0 ∧ je_expires_at_ns e = je_expires_at_ns e0.
Proof. intros [->|[t ->]]; [done|apply recover_fields]. Qed.

Lemma recover_ok t k e : entry_ok k e → entry_ok k (recover t e).
Proof.
  intros [Hk Hr]. unfold recover. case_if; [|done]. split; [done|]. by intros r [= <-].
Qed.

Lemma recovers_ok k e e0 : recovers e e0 → entry_ok k e0 → entry_ok k e.
Proof. intros [->|[t ->]]; [done|apply recover_ok]. Qed.

Lemma recovers_settle e e0 r : recovers e e0 → set_settled r e = set_settled r e0.
Proof. intros (H1 & H2 & H3 & H4)%recovers_fields. unfold set_settled. by rewrite H1, H2, H3, H4. Qed.

Lemma recovers_unsettled e e0 : recovers e e0 → je_result e = None → je_result e0 = None.
Proof. intros [->|[t ->]]; [done|]. unfold recover. by case_if. Qed.

(** Everything in memory is in the log; what is only in the log had expired
    by the time [T]. *)
Definition related (T : Z) (mem lg : Entries) : Prop :=
  ∀ k, match mem !! k, lg !! k with
       | Some e, Some e0 => recovers e e0
       | Some _, None => False
       | None, Some e0 => je_expires_at_ns e0 < T
       | None, None => True
       end.

Lemma related_mono T T' mem lg : T ≤ T' → related T mem lg → related T' mem lg.
Proof. intros HT H k. specialize (H k). repeat case_match; try done. lia. Qed.

Lemma related_refl T mem : related T mem mem.
Proof. intros k. destruct (mem !! k); [by left|done]. Qed.

Lemma related_Some T mem lg k e :
  related T mem lg → mem !! k = Some e → ∃ e0, lg !! k = Some e0 ∧ recovers e e0.
Proof. intros H E. specialize (H k). rewrite E in H. destruct (lg !! k); [eauto|done]. Qed.

Lemma related_insert T mem lg k e :
  related T mem lg → related T (<[k := e]> mem) (<[k := e]> lg).
Proof.
  intros H k'. specialize (H k'). destruct (decide (k = k')) as [<-|Hne].
  - rewrite !lookup_insert_eq. by left.
  - by rewrite !lookup_insert_ne.
Qed.

Lemma related_retain T t mem lg : T ≤ t → related T mem lg → related t (retain_live t mem) lg.
Proof.
  intros Ht H k. specialize (H k). destruct (retain_live t mem !! k) as [e|] eqn:E.
  - apply retain_live_Some in E as [E _]. rewrite E in H. by destruct (lg !! k).
  - rewrite retain_live_None in E. destruct (lg !! k) as [e0|]; [|done].
    destruct (mem !! k) as [e|]; [|lia]. specialize (E e eq_refl).
    apply recovers_fields in H as (_ & _ & _ & <-). done.
Qed.

Lemma related_ok T mem lg :
  related T mem lg → map_Forall entry_ok lg → map_Forall entry_ok mem.
Proof.
  intros H Hlg k e E. destruct (related_Some _ _ _ _ _ H E) as (e0 & E0 & Hr).
  eapply recovers_ok; [done|]. by apply Hlg.
Qed.

Definition journal_inv (once : bool) (T : Z) (j : FileJournal Json) : Prop :=
  fj_attached j = true ∧
  ∃ rs, render rs = Some (fj_disk j) ∧ log_ok once rs ∧ related T (fj_entries j) (log rs).

Lemma journal_inv_mono once T T' j : T ≤ T' → journal_inv once T j → journal_inv once T' j.
Proof. intros HT (Ha & rs & Hr & Hok & H). split; [done|]. eauto using related_mono. Qed.

Lemma journal_inv_ok once T j : journal_inv once T j → map_Forall entry_ok (fj_entries j).
Proof. intros (_ & rs & _ & _ & H). eapply related_ok; [done|apply log_entries_ok]. Qed.

(** A write that fails leaves nothing behind. *)
Definition clean (fault : option nat) : Prop := fault = None ∨ fault = Some 0%nat.

Lemma render_snoc rs r text l :
  render rs = Some text → to_line r = Some l → render (rs ++ [r]) = Some (text ++ l ++ [newline]).
Proof.
  intros Hr Hl. revert text Hr. induction rs as [|r' rs IH]; intros text Hr; cbn [app render] in *.
  - injection Hr as <-. by rewrite Hl.
  - destruct (to_line r') as [l'|]; [|done]. destruct (render rs) as [text'|]; [|done].
    rewrite (IH text') by done. injection Hr as <-. by rewrite <- !app_assoc.
Qed.

Lemma write_record_cases fault r (j : FileJournal Json) rs :
  clean fault → fj_attached j = true → render rs = Some (fj_disk j) →
  (∃ err, write_record fault r j = (j, Err err)) ∨
  (∃ disk', write_record fault r j =
      ({| fj_disk := disk'; fj_attached := true; fj_entries := fj_entries j |}, Ok ()) ∧
    render (rs ++ [r]) = Some disk').
Proof.
  intros Hf Ha Hr. unfold write_record. destruct (to_line r) as [l|] eqn:El; [|by left; eauto].
  destruct Hf as [->| ->].
  - right. unfold append. rewrite Ha. eexists. split; [done|]. by apply render_snoc.
  - left. exists JournalError.Io. unfold append. rewrite Ha, take_0, app_nil_r.
    by destruct j; cbn in *; subst.
Qed.

Lemma try_insert_inv once T t fault k h x j :
  journal_inv once T j → T ≤ t → t ≤ x → clean fault →
  journal_inv once t (file_try_insert fault k h t x j).1.
Proof.
  intros Hinv Ht Hx Hf. pose proof Hinv as (Ha & rs & Hr & Hok & Hrel).
  unfold file_try_insert. rewrite (sbind_Ok _ _ _ j j) by done.
  destruct (decide_existing _ _ _ _) as [d|] eqn:Ed.
  { by eapply journal_inv_mono. }
  destruct (write_record_cases fault
    (LogRecord.Insert k h ControlStatus.Running t x) j rs) as [[e E]|(disk' & E & Hr')]; [done..| |].
  { unfold sbind. rewrite E. by eapply journal_inv_mono. }
  rewrite (sbind_Ok _ _ _ _ _ E). split; [done|]. exists (rs ++ [LogRecord.Insert k h ControlStatus.Running t x]).
  split_and!; [done| |].
  - apply log_ok_insert; [done|]. intros e0 He0. specialize (Hrel k). rewrite He0 in Hrel.
    unfold decide_existing in Ed. destruct (fj_entries j !! k) as [e|]; [|lia].
    apply recovers_fields in Hrel as (_ & _ & _ & <-).
    destruct (Z.leb_spec t (je_expires_at_ns e)); [|lia]. by case_if.
  - rewrite log_snoc. cbn. apply related_insert. by eapply related_mono.
Qed.

Lemma settle_inv once T fault k r j :
  journal_inv once T j → clean fault →
  (once = true → ∀ e, fj_entries j !! k = Some e → je_result e = None) →
  journal_inv once T (file_settle fault k r j).1.
Proof.
  intros Hinv Hf Hone. pose proof Hinv as (Ha & rs & Hr & Hok & Hrel).
  unfold file_settle. rewrite (sbind_Ok _ _ _ j j) by done.
  destruct (fj_entries j !! k) as [e|] eqn:Ee; [|done].
  destruct (write_record_cases fault (LogRecord.Settle k r) j rs) as [[e' E]|(disk' & E & Hr')];
    [done..| |].
  { unfold sbind. by rewrite E. }
  rewrite (sbind_Ok _ _ _ _ _ E).
  destruct (related_Some _ _ _ _ _ Hrel Ee) as (e0 & He0 & Hre).
  split; [done|]. exists (rs ++ [LogRecord.Settle k r]). split_and!; [done| |].
  - eapply log_ok_settle; [done..|]. intros Ho. eapply recovers_unsettled; [done|by apply Hone].
  - rewrite log_snoc. cbn. rewrite He0, (recovers_settle _ _ _ Hre). by apply related_insert.
Qed.

Lemma compact_inv once T fault t (j : FileJournal Json) :
  journal_inv once T j → fault ≠ CompactFault.Reopen →
  (∃ err, compact fault t j = (j, Err err)) ∨
  (∃ j', compact fault t j = (j', Ok ()) ∧ fj_entries j' = fj_entries j ∧
     journal_inv once t {| fj_disk := fj_disk j'; fj_attached := fj_attached j';
                           fj_entries := retain_live t (fj_entries j) |}).
Proof.
  intros Hinv Hf. unfold compact.
  destruct (compact_log once t (fj_entries j) (journal_inv_ok _ _ _ Hinv)) as [Hok Hlog].
  destruct (render _) as [text|] eqn:Er; [|by left; eauto].
  destruct fault; [|by left; eauto|done].
  right. eexists. split_and!; [done..|]. split; [done|]. eexists. split_and!; [exact Er|done|].
  rewrite Hlog. apply related_refl.
Qed.

Lemma purge_inv once T t fault j :
  journal_inv once T j → T ≤ t → fault ≠ CompactFault.Reopen →
  journal_inv once t (file_purge_expired fault t j).1.
Proof.
  intros Hinv Ht Hf. unfold file_purge_expired. cbn [fst].
  assert (journal_inv once t (set_entries (retain_live t) j)) as Hinv'.
  { destruct Hinv as (Ha & rs & Hr & Hok & Hrel). split; [done|]. exists rs.
    split_and!; [done..|]. by eapply related_retain. }
  case_if; [|done].
  destruct (compact_inv once t fault t _ Hinv' Hf) as [[e ->]|(j' & -> & He & Hinv'')]; [done|].
  cbn [fst]. cbn [set_entries fj_entries] in He, Hinv''.
  assert (retain_live t (retain_live t (fj_entries j)) = retain_live t (fj_entries j)) as Hrr.
  { unfold retain_live. apply map_filter_id. intros k e. by intros [_ ?]%map_lookup_filter_Some. }
  rewrite Hrr, <- He in Hinv''. by destruct j'.
Qed.

(** Opening a file that a journal wrote. *)
Lemma open_inv once T t fault disk mem d j :
  journal_inv once T {| fj_disk := disk; fj_attached := true; fj_entries := mem |} → T ≤ t →
  open fault t (Some disk) = (d, Ok j) →
  journal_inv once t j ∧
  ∃ lg, related T mem lg ∧ fj_entries j = recover t <$> retain_live t lg.
Proof.
  intros (_ & rs & Hr & Hok & Hrel) Ht. cbn [fj_disk fj_entries] in *. unfold open.
  cbn [fmap option_fmap option_map default from_option].
  rewrite (replay_render _ _ _ _ _ Hr).
  destruct (replay_records _ _ _ _) as [st| |] eqn:Er; [|done..].
  apply (replay_live once) in Er; [|done]. rewrite Er.
  set (mem' := recover t <$> retain_live t (log rs)).
  set (j0 := {| fj_disk := _; fj_attached := true; fj_entries := mem' |}).
  assert (journal_inv once t j0) as Hinv.
  { split; [done|]. exists rs. split_and!; [done..|]. intros k. subst j0 mem'. cbn [fj_entries].
    rewrite lookup_fmap. destruct (retain_live t (log rs) !! k) as [e|] eqn:E; cbn [fmap option_fmap option_map].
    - apply retain_live_Some in E as [-> _]. right. eauto.
    - destruct (log rs !! k) as [e0|] eqn:E0; [|done]. rewrite retain_live_None in E. by apply E. }
  destruct (rp_need_compact st).
  - destruct (decide (fault = CompactFault.Reopen)) as [->|Hf].
    { destruct (compact CompactFault.Reopen t j0) as [j1 r] eqn:Ec. intros [= _ Hr1].
      unfold compact in Ec. destruct (render (_ ≫= _)); injection Ec as _ <-; discriminate Hr1. }
    destruct (compact_inv once t fault t j0 Hinv Hf) as [[e ->]|(j' & -> & He & Hinv')]; [done|].
    cbn [outcome_map]. intros [= _ <-]. split; [|exists (log rs); by rewrite He].
    assert (retain_live t (fj_entries j0) = fj_entries j') as Heq.
    { rewrite He. unfold retain_live. apply map_filter_id. intros k e.
      subst j0 mem'. cbn [fj_entries]. rewrite lookup_fmap, fmap_Some.
      intros (e0 & [_ Hl]%retain_live_Some & ->). unfold live. cbn [snd].
      by destruct (recover_fields t e0) as (_ & _ & _ & ->). }
    rewrite Heq in Hinv'. by destruct j'.
  - intros [= _ <-]. split; [done|]. exists (log rs). done.
Qed.

(** ** Journals over time

    The states of a journal that starts without a file and goes through
    insertions, settlements, purges and restarts, its clock never going back;
    failed writes are clean and a compaction fails before its rename.  With
    [once], a record that has a result is not settled again. *)
Inductive journal_at (once : bool) : Z → FileJournal Json → Prop :=
| ja_create t : journal_at once t {| fj_disk := []; fj_attached := true; fj_entries := ∅ |}
| ja_insert T t fault k h x j :
    journal_at once T j → T ≤ t → t ≤ x → clean fault →
    journal_at once t (file_try_insert fault k h t x j).1
| ja_settle T fault k r j :
    journal_at once T j → clean fault →
    (once = true → ∀ e, fj_entries j !! k = Some e → je_result e = None) →
    journal_at once T (file_settle fault k r j).1
| ja_purge T t fault j :
    journal_at once T j → T ≤ t → fault ≠ CompactFault.Reopen →
    journal_at once t (file_purge_expired fault t j).1
| ja_reopen T t fault d j j' :
    journal_at once T j → T ≤ t → open fault t (Some (fj_disk j)) = (d, Ok j') →
    journal_at once t j'.

Lemma journal_at_inv once T j : journal_at once T j → journal_inv once T j.
Proof.
  induction 1 as [t|T t fault k h x j _ IH|T fault k r j _ IH|T t fault j _ IH|T t fault d j j' _ IH].
  - split; [done|]. exists []. split_and!; [done|constructor|apply related_refl].
  - by eapply try_insert_inv.
  - by eapply settle_inv.
  - by eapply purge_inv.
  - pose proof IH as (Ha & _). destruct j as [disk att mem]. cbn in Ha. subst att.
    eapply open_inv; [exact IH|done|eassumption].
Qed.

(** What a restart at [now] makes of an entry: a settled one is kept, an
    unsettled one (or one an earlier restart found unsettled) is reported as
    interrupted. *)
Definition survives (now : Z) (e e' : Entry) : Prop :=
  e' = recover now e ∨ ∃ e0 t, e = recover t e0 ∧ e' = recover now e0.

Lemma recovers_survives now e e0 : recovers e e0 → survives now e (recover now e0).
Proof. intros [->|[t ->]]; [by left|right; eauto]. Qed.

(** When every record is settled at most once, the journal can always be
    reopened: replay finds no line it would call corrupt, whatever expired,
    and compaction succeeds when its writes do. *)
Lemma journal_reopens T t j :
  (∀ r : LogRecord.t Json, is_Some (to_line r)) → journal_at true T j → T ≤ t →
  ∃ d j', open CompactFault.None t (Some (fj_disk j)) = (d, Ok j').
Proof.
  intros Hser (Ha & rs & Hr & Hok & _)%journal_at_inv Ht. unfold open.
  cbn [fmap option_fmap option_map default from_option].
  rewrite (replay_render _ _ _ _ _ Hr).
  destruct (replay_once t 1 rs Hok) as (st & -> & _).
  destruct (rp_need_compact st); [|eauto]. unfold compact.
  assert (∀ rs, is_Some (render rs)) as Hren.
  { intros rs'. induction rs' as [|r rs' [text IH]]; [done|]. cbn [render]. rewrite IH.
    destruct (Hser r) as [l ->]. done. }
  destruct (Hren (filter (λ e, t ≤ je_expires_at_ns e)
    (values (recover t <$> rp_entries st)) ≫= compact_entry)) as [text Htext].
  cbn [fj_entries]. rewrite Htext. eauto.
Qed.

(** C21: a restart neither forgets nor invents a request.  After any history of
    insertions, settlements, purges, compactions and earlier restarts in which
    a write that failed left nothing of its line in the file and a compaction
    that failed did so before its rename, a journal that can be reopened holds
    exactly the live records of the running one; settled results are unchanged
    and unsettled records become indeterminate.  Hence a request that is
    submitted again within its retention is a duplicate or a conflict, and is
    not executed twice.  When no record was settled twice and every record has
    a text, the journal can be reopened unless the file system fails. *)
Theorem journal_crash_safe once T t j :
  journal_at once T j → T ≤ t →
  (∀ fault d j' k, open fault t (Some (fj_disk j)) = (d, Ok j') →
     match fj_entries j !! k with
     | Some e =>
         if t <=? je_expires_at_ns e then
           ∃ e', fj_entries j' !! k = Some e' ∧ survives t e e' ∧
             ∀ h t', t' ≤ je_expires_at_ns e →
               decide_existing (fj_entries j') k h t' =
                 Some (if decide (je_payload_hash e = h) then JournalDecision.Duplicate e'
                       else JournalDecision.Conflict e')
         else fj_entries j' !! k = None
     | None => fj_entries j' !! k = None
     end) ∧
  (once = true → (∀ r : LogRecord.t Json, is_Some (to_line r)) →
     ∃ d j', open CompactFault.None t (Some (fj_disk j)) = (d, Ok j')).
Proof.
  intros Hat Ht. split; [|by intros -> Hser; eapply journal_reopens].
  intros fault d j' k Ho. pose proof (journal_at_inv _ _ _ Hat) as Hinv. pose proof Hinv as (Ha & _).
  destruct j as [disk att mem]. cbn in Ha. subst att. cbn [fj_disk fj_entries] in *.
  eapply open_inv in Ho as [_ (lg & Hrel & Hj')]; [|done..].
  rewrite Hj', lookup_fmap. specialize (Hrel k).
  destruct (mem !! k) as [e|] eqn:Ee; destruct (lg !! k) as [e0|] eqn:E0; [|done| |].
  - pose proof (recovers_fields _ _ Hrel) as (_ & Hh & _ & Hx).
    destruct (Z.leb_spec t (je_expires_at_ns e)) as [Hl|Hl].
    + assert (retain_live t lg !! k = Some e0) as Hl0 by (apply retain_live_Some; split; [done|lia]).
      rewrite Hl0. exists (recover t e0). split_and!; [done|by apply recovers_survives|].
      intros h t' Ht'. unfold decide_existing. rewrite lookup_fmap, Hl0. cbn [fmap option_fmap option_map].
      destruct (recover_fields t e0) as (_ & Hh0 & _ & Hx0). rewrite Hx0, Hh0, <- Hx, <- Hh.
      destruct (Z.leb_spec t' (je_expires_at_ns e)); [|lia].
      case_bool_decide; by destruct (decide _).
    + assert (retain_live t lg !! k = None) as ->; [|done].
      apply retain_live_None. intros e1. rewrite E0. intros [= <-]. lia.
  - assert (retain_live t lg !! k = None) as ->; [|done].
    apply retain_live_None. intros e1. rewrite E0. intros [= <-]. lia.
  - assert (retain_live t lg !! k = None) as ->; [|done].
    apply retain_live_None. intros e1. by rewrite E0.
Qed.

(** A settlement that is written twice makes the journal unreadable once
    the record has expired: the first settlement consumes the note that its
    insertion was skipped, the second one is taken for an orphan. *)
Theorem double_settlement_corrupts k h created expires now r1 r2 disk :
  render [LogRecord.Insert k h ControlStatus.Running created expires;
          LogRecord.Settle k r1; LogRecord.Settle k r2] = Some disk →
  expires < now →
  ∀ fault, open fault now (Some disk) = (Some disk, Err (JournalError.Corrupt 3)).
Proof.
  intros Hr Hx fault. unfold open. cbn [fmap option_fmap option_map default from_option].
  rewrite (replay_render _ _ _ _ _ Hr). cbn [replay_records replay_record].
  destruct (Z.ltb_spec expires now); [|lia]. cbn [outcome_bind rp_entries replay_init rp_expired_keys].
  rewrite lookup_empty, bool_decide_eq_true_2 by set_solver.
  cbn [outcome_bind rp_entries rp_expired_keys].
  by rewrite lookup_empty, bool_decide_eq_false_2 by set_solver.
Qed.

Lemma compact_entries fault t (j : FileJournal Json) :
  fj_entries (compact fault t j).1 = fj_entries j.
Proof. unfold compact. destruct (render (_ ≫= _)), fault; done. Qed.

(** Every record of an opened journal has a result that can be reported. *)
Lemma open_settled fault t content d (j : FileJournal Json) k e :
  open fault t content = (d, Ok j) → fj_entries j !! k = Some e →
  ControlStatus.unsettled (je_status e) = false.
Proof.
  intros Ho. assert (∃ m, fj_entries j = recover t <$> m) as [m ->].
  { unfold open in Ho. destruct (replay _ _ _ _) as [st| |]; [|done..]. exists (rp_entries st).
    destruct (rp_need_compact st); [|by injection Ho as _ <-].
    pose proof (compact_entries fault t
      {| fj_disk := default [] content; fj_attached := true; fj_entries := recover t <$> rp_entries st |})
      as Hc.
    destruct (compact fault t _) as [j' [[]| |]]; cbn [outcome_map] in Ho; [|discriminate Ho..].
    injection Ho as _ <-. exact Hc. }
  rewrite lookup_fmap, fmap_Some. intros (e0 & _ & ->). unfold recover. by case_if.
Qed.

(** A compaction that fails after its rename detaches the handle: later
    records are confirmed without reaching the file. *)
Lemma detached_insert_lost fault k h created expires (j : FileJournal Json) :
  fj_attached j = false →
  fj_disk (file_try_insert fault k h created expires j).1 = fj_disk j.
Proof.
  intros Ha. unfold file_try_insert. rewrite (sbind_Ok _ _ _ j j) by done.
  destruct (decide_existing _ _ _ _); [done|]. unfold sbind, write_record.
  destruct (to_line _); [|done]. unfold append. rewrite Ha. by destruct fault.
Qed.
End log.
