(* ===== verification/ControlQueue.v ===== *)
(** * The per-device control queue (crates/control-engine/src/queue.rs)

    The data of a device queue, the operations of its clients ([enqueue],
    [peek_kind], [cancel], [shutdown]) and the pieces of its worker: the
    shutdown drain, the choice of the next request, the race of an execution
    with its deadline and its cancellation, the mapping of driver outcomes
    and the settlement of a request.  Each definition is what the code does
    under one acquisition of the queue lock or between two await points; the
    interleaving of the pieces is in ControlWorker.

    Cancellation tokens and shared results are objects that entries refer to:
    they are handles into a set of cancelled tokens and a map of replies. *)

From S2P Require Import Prelude RustStd ObservationModel ControlModel.
From stdpp Require Import options.

#[local] Set Default Proof Using "Type".

(** [CommandPrecondition] is passed to the checker untouched. *)
Module ValidatedOperation.
Inductive t (Json Precondition : Type) : Type :=
| Write (items : list DriverWriteItem) (paths : list str)
| Execute (command : DriverCommand Json) (risk_level : CommandRiskLevel.t)
    (preconditions : list Precondition).
Arguments Write {Json Precondition}.
Arguments Execute {Json Precondition}.

Definition kind {Json Precondition} (o : t Json Precondition) : OperationKind.t :=
  match o with
  | Write _ _ => OperationKind.PropertyWrite
  | Execute _ risk _ => OperationKind.Command risk
  end.
End ValidatedOperation.

Module EnqueueError.
Inductive t : Type := Full (capacity : nat) | Closed.
End EnqueueError.

Module CancelOutcome.
Inductive t : Type := Marked | NotFound | Closed.
End CancelOutcome.

Module PickedKind.
Inductive t : Type := Ready | Cancelled | Expired.
End PickedKind.

(** [RunResult] *)
Module RunResult.
Inductive t (Json : Type) : Type :=
| Done (r : ControlResult Json)
| Timeout
| Cancelled
| Indeterminate (code : string).
Arguments Done {Json}.
Arguments Timeout {Json}.
Arguments Cancelled {Json}.
Arguments Indeterminate {Json}.
End RunResult.

(** What a round of the shutdown drain asks the worker to do. *)
Module Drain.
Inductive t (E : Type) : Type := Exit | Settle (e : E) | Proceed.
Arguments Exit {E}.
Arguments Settle {E}.
Arguments Proceed {E}.
End Drain.

(** [QueuedEntry]: subject, source and the audit texts are only passed on to
    the audit log and are left out. *)
Record QueuedEntry (Json Precondition : Type) : Type := mkQueuedEntry {
  qe_key : IdempotencyKey;
  qe_operation : ValidatedOperation.t Json Precondition;
  qe_deadline : Z;
  qe_cancel : nat;
  qe_reply : nat;
  qe_queued_at_ns : Z;
}.
Arguments mkQueuedEntry {Json Precondition}.
Arguments qe_key {Json Precondition}.
Arguments qe_operation {Json Precondition}.
Arguments qe_deadline {Json Precondition}.
Arguments qe_cancel {Json Precondition}.
Arguments qe_reply {Json Precondition}.
Arguments qe_queued_at_ns {Json Precondition}.

(** [QueueInner] *)
Record QueueInner (Json Precondition : Type) : Type := mkQueueInner {
  qi_entries : list (Priority.t * list (QueuedEntry Json Precondition));
  qi_capacity : nat;
  qi_closed : bool;
  qi_len : Z;
  qi_running : option (QueuedEntry Json Precondition);
  qi_draining : list (QueuedEntry Json Precondition);
  qi_cooldown_until : option Z;
}.
Arguments mkQueueInner {Json Precondition}.
Arguments qi_entries {Json Precondition}.
Arguments qi_capacity {Json Precondition}.
Arguments qi_closed {Json Precondition}.
Arguments qi_len {Json Precondition}.
Arguments qi_running {Json Precondition}.
Arguments qi_draining {Json Precondition}.
Arguments qi_cooldown_until {Json Precondition}.

Section queue.
Context {Json Precondition : Type}.
Abbreviation Entry := (QueuedEntry Json Precondition).
Abbreviation Queue := (QueueInner Json Precondition).

Definition queue_new (capacity : nat) : Queue :=
  {| qi_entries := []; qi_capacity := capacity; qi_closed := false; qi_len := 0;
     qi_running := None; qi_draining := []; qi_cooldown_until := None |}.

Definition set_queued (entries : list (Priority.t * list Entry)) (len : Z) (q : Queue) : Queue :=
  {| qi_entries := entries; qi_capacity := qi_capacity q; qi_closed := qi_closed q;
     qi_len := len; qi_running := qi_running q; qi_draining := qi_draining q;
     qi_cooldown_until := qi_cooldown_until q |}.
Definition set_closed (closed : bool) (q : Queue) : Queue :=
  {| qi_entries := qi_entries q; qi_capacity := qi_capacity q; qi_closed := closed;
     qi_len := qi_len q; qi_running := qi_running q; qi_draining := qi_draining q;
     qi_cooldown_until := qi_cooldown_until q |}.
Definition set_running (running : option Entry) (q : Queue) : Queue :=
  {| qi_entries := qi_entries q; qi_capacity := qi_capacity q; qi_closed := qi_closed q;
     qi_len := qi_len q; qi_running := running; qi_draining := qi_draining q;
     qi_cooldown_until := qi_cooldown_until q |}.
Definition set_draining (draining : list Entry) (q : Queue) : Queue :=
  {| qi_entries := qi_entries q; qi_capacity := qi_capacity q; qi_closed := qi_closed q;
     qi_len := qi_len q; qi_running := qi_running q; qi_draining := draining;
     qi_cooldown_until := qi_cooldown_until q |}.
Definition set_cooldown (until : option Z) (q : Queue) : Queue :=
  {| qi_entries := qi_entries q; qi_capacity := qi_capacity q; qi_closed := qi_closed q;
     qi_len := qi_len q; qi_running := qi_running q; qi_draining := qi_draining q;
     qi_cooldown_until := until |}.

(** ** Client operations *)
Definition in_cooldown (now : Z) (q : Queue) : bool :=
  match qi_cooldown_until q with Some t => now <? t | None => false end.

Definition enqueue (policy : ControlPolicy) (closed_flag : bool) (entry : Entry) :
    stm Queue EnqueueError.t () := λ q,
  if qi_closed q || closed_flag then (q, Err EnqueueError.Closed)
  else if Z.of_nat (qi_capacity q) <=? qi_len q then (q, Err (EnqueueError.Full (qi_capacity q)))
  else
    let p := priority policy (ValidatedOperation.kind (qe_operation entry)) in
    (set_queued (btree_push Priority.cmp p entry (qi_entries q)) (qi_len q + 1) q, Ok ()).

(** The scans compare namespace and request id; a queue serves one device. *)
Definition matches_key (key : IdempotencyKey) (e : Entry) : bool :=
  bool_decide (ik_namespace (qe_key e) = ik_namespace key) &&
  bool_decide (ik_request_id (qe_key e) = ik_request_id key).

(** The first match in the queued entries, then the running one. *)
Definition find_entry (key : IdempotencyKey) (q : Queue) : option Entry :=
  match List.find (matches_key key) (btree_values (qi_entries q)) with
  | Some e => Some e
  | None =>
      match qi_running q with
      | Some e => if matches_key key e then Some e else None
      | None => None
      end
  end.

Definition peek_kind (key : IdempotencyKey) (q : Queue) : option OperationKind.t :=
  (λ e, ValidatedOperation.kind (qe_operation e)) <$> find_entry key q.

Definition cancel (key : IdempotencyKey) (q : Queue) (tokens : gset nat) :
    gset nat * CancelOutcome.t :=
  if qi_closed q then (tokens, CancelOutcome.Closed)
  else match find_entry key q with
       | Some e => ({[qe_cancel e]} ∪ tokens, CancelOutcome.Marked)
       | None => (tokens, CancelOutcome.NotFound)
       end.

Definition queue_shutdown (q : Queue) : Queue := set_closed true q.

(** ** The worker: shutdown drain (phase A) *)
(** Every queued entry moved behind the draining ones. *)
Definition move_queued (q : Queue) : Queue :=
  if 0 <? qi_len q then
    set_draining (qi_draining q ++ btree_values (qi_entries q))
      (set_queued ((λ '(p, _), (p, [])) <$> qi_entries q) 0 q)
  else q.

Definition drain_phase (closed_flag : bool) (q : Queue) : Queue * Drain.t Entry :=
  let q := if closed_flag then set_closed true q else q in
  if negb (qi_closed q) then (q, Drain.Proceed)
  else
    let q := move_queued q in
    match qi_draining q with
    | front :: _ => (q, Drain.Settle front)
    | [] => match qi_running q with None => (q, Drain.Exit) | Some _ => (q, Drain.Proceed) end
    end.

(** ** The worker: choosing the next request (phase B)

    [now] is read once per comparison in the code; [now_ready] is the reading
    for the front of each priority, [now_kind] the one that classifies the
    chosen entry, [now_ns] the wall clock of the aging rule. *)
Definition sat64 (z : Z) : Z := Z.max (- 2 ^ 63) (Z.min (2 ^ 63 - 1) z).

Definition is_ready (tokens : gset nat) (now : Z) (e : Entry) : bool :=
  negb (bool_decide (qe_cancel e ∈ tokens)) && (now <? qe_deadline e).

Definition boost (policy : ControlPolicy) (now_ns : Z) (ready : bool) (base : Z) (e : Entry) : Z :=
  if (0 <? priority_aging_ms policy) && ready then
    let waited_ms := Z.quot (sat64 (now_ns - qe_queued_at_ns e)) 1000000 in
    Z.max 0 (Z.min (3 - base)
      (Z.quot waited_ms (wrap_signed 64 (priority_aging_ms policy))))
  else 0.

Definition effective (policy : ControlPolicy) (tokens : gset nat) (now_ready : Priority.t → Z)
    (now_ns : Z) (p : Priority.t) (front : Entry) : Z :=
  Priority.rank p
  + boost policy now_ns (is_ready tokens (now_ready p) front) (Priority.rank p) front.

(** The scan over the priorities from high to low; a strictly larger
    effective priority replaces the best so far. *)
Fixpoint scan (eff : Priority.t → Entry → Z) (best : option (Z * Priority.t))
    (desc : list (Priority.t * list Entry)) : option (Z * Priority.t) :=
  match desc with
  | [] => best
  | (p, deque) :: desc' =>
      match deque with
      | [] => scan eff best desc'
      | front :: _ =>
          let e := eff p front in
          let better := match best with None => true | Some (b, _) => b <? e end in
          scan eff (if better then Some (e, p) else best) desc'
      end
  end.

(** [entries.get_mut(&prio)] and [pop_front]. *)
Fixpoint pop_front_at (p : Priority.t) (entries : list (Priority.t * list Entry)) :
    option (Entry * list (Priority.t * list Entry)) :=
  match entries with
  | [] => None
  | (p', deque) :: entries' =>
      if decide (p' = p) then
        match deque with
        | [] => None
        | e :: deque' => Some (e, (p', deque') :: entries')
        end
      else
        match pop_front_at p entries' with
        | Some (e, entries'') => Some (e, (p', deque) :: entries'')
        | None => None
        end
  end.

Definition picked_kind (tokens : gset nat) (now : Z) (e : Entry) : PickedKind.t :=
  if bool_decide (qe_cancel e ∈ tokens) then PickedKind.Cancelled
  else if qe_deadline e <=? now then PickedKind.Expired
  else PickedKind.Ready.

(** [None]: nothing to do, because of the cooldown or an empty queue. *)
Definition pick (policy : ControlPolicy) (tokens : gset nat) (now : Z)
    (now_ready : Priority.t → Z) (now_kind now_ns : Z) (q : Queue) :
    Queue * outcome () (option (Entry * PickedKind.t)) :=
  let cooling := match qi_cooldown_until q with Some until => now <? until | None => false end in
  if cooling then (q, Ok None)
  else
    match scan (effective policy tokens now_ready now_ns) None (reverse (qi_entries q)) with
    | None => (q, Ok None)
    | Some (_, p) =>
        match pop_front_at p (qi_entries q) with
        | None => (q, Panic)
        | Some (e, entries') =>
            (set_queued entries' (qi_len q - 1) q, Ok (Some (e, picked_kind tokens now_kind e)))
        end
    end.

(** ** Settlement bookkeeping ([settle_tracked], [settle_abandoned]) *)
Definition track (e : Entry) (q : Queue) : Queue := set_draining (qi_draining q ++ [e]) q.

Fixpoint drop_replied (replied : Entry → bool) (l : list Entry) : list Entry :=
  match l with
  | [] => []
  | e :: l' => if replied e then drop_replied replied l' else l
  end.

Definition untrack (replied : Entry → bool) (q : Queue) : Queue :=
  set_draining (drop_replied replied (qi_draining q)) q.

(** What a forced stop takes over: the running entry, and the queued and
    draining ones. *)
Definition take_abandoned (q : Queue) : Queue * option Entry * list Entry :=
  let queued := btree_values (qi_entries q) in
  let q' :=
    {| qi_entries := (λ '(p, _), (p, [])) <$> qi_entries q; qi_capacity := qi_capacity q;
       qi_closed := true; qi_len := Z.max 0 (qi_len q - Z.of_nat (length queued));
       qi_running := None; qi_draining := []; qi_cooldown_until := qi_cooldown_until q |} in
  (q', qi_running q, queued ++ qi_draining q).

(** ** Execution *)

(** The branch of the [select!] that completes first, and whether the
    executor future had been polled by then. *)
Inductive race : Type :=
| RaceSleep (started : bool)
| RaceCancelled (started : bool)
| RaceDone (r : ControlResult Json).

Definition run_entry (now : Z) (e : Entry) (winner : race) : RunResult.t Json :=
  if qe_deadline e <=? now then RunResult.Timeout
  else
    match winner with
    | RaceSleep started =>
        if started then RunResult.Indeterminate "TIMEOUT" else RunResult.Timeout
    | RaceCancelled started =>
        if started then RunResult.Indeterminate "CANCELLED" else RunResult.Cancelled
    | RaceDone r => RunResult.Done r
    end.

(** The cooldown after an execution whose result is not known. *)
Definition indeterminate_run (r : RunResult.t Json) : bool :=
  match r with
  | RunResult.Indeterminate _ => true
  | RunResult.Done r => bool_decide (res_status r = ControlStatus.Indeterminate)
  | _ => false
  end.

Definition cooldown_after (policy : ControlPolicy) (now : Z) (r : RunResult.t Json) (q : Queue) :
    Queue :=
  if indeterminate_run r && (0 <? indeterminate_cooldown_ms policy)
  then set_cooldown (Some (now + indeterminate_cooldown_ms policy)) q
  else q.

(** ** Settlement ([settle_entry]): the result, before the journal *)
Definition settle_base (e : Entry) (status : ControlStatus.t) (started : option Z)
    (completed : Z) (code : string) : ControlResult Json :=
  {| res_request_id := ik_request_id (qe_key e); res_namespace := ik_namespace (qe_key e);
     res_device_id := ik_device_id (qe_key e); res_status := status;
     res_started_at_ns := started; res_completed_at_ns := Some completed; res_result := None;
     res_error := Some {| ce_code := code; ce_details := None |} |}.

Definition settle_result (e : Entry) (run : RunResult.t Json) (completed : Z) :
    ControlResult Json :=
  let r :=
    match run with
    | RunResult.Done r => r
    | RunResult.Timeout => settle_base e ControlStatus.Timeout None completed "TIMEOUT"
    | RunResult.Cancelled => settle_base e ControlStatus.Cancelled None completed "CANCELLED"
    | RunResult.Indeterminate code =>
        settle_base e ControlStatus.Indeterminate (Some completed) completed code
    end in
  {| res_request_id := ik_request_id (qe_key e); res_namespace := ik_namespace (qe_key e);
     res_device_id := res_device_id r; res_status := res_status r;
     res_started_at_ns := res_started_at_ns r; res_completed_at_ns := Some completed;
     res_result := res_result r; res_error := res_error r |}.

(** The journal's answer: settled (or skipped, or timed out, on shutdown), or
    an error, after which no success may be claimed. *)
Definition settle_journal (journal_ok : bool) (r : ControlResult Json) : ControlResult Json :=
  if journal_ok then r
  else {| res_request_id := res_request_id r; res_namespace := res_namespace r;
          res_device_id := res_device_id r; res_status := ControlStatus.Indeterminate;
          res_started_at_ns := res_started_at_ns r;
          res_completed_at_ns := res_completed_at_ns r; res_result := res_result r;
          res_error := Some {| ce_code := "JOURNAL_SETTLE_FAILED"; ce_details := None |} |}.
End queue.
Arguments race : clear implicits.

(** ** Running an operation ([run_operation])

    The executor and the precondition checker are the environment; a check
    that does not answer within the policy's limit is a timeout. *)
Module WriteOutcome.
Inductive t : Type :=
| Succeeded (results : list RawWriteResult)
| Failed (info : DriverErrorInfo)
| Indeterminate (info : DriverErrorInfo).
End WriteOutcome.

Module ExecuteOutcome.
Inductive t (Json : Type) : Type :=
| Succeeded (raw : RawCommandResult Json)
| Failed (info : DriverErrorInfo)
| Indeterminate (info : DriverErrorInfo).
Arguments Succeeded {Json}.
Arguments Failed {Json}.
Arguments Indeterminate {Json}.
End ExecuteOutcome.

Module CheckOutcome.
Inductive t : Type := Passed | Failed | TimedOut.
End CheckOutcome.

Class ControlExecutor (W Json Precondition : Type) : Type := {
  ex_write : str → list DriverWriteItem → W → W * WriteOutcome.t;
  ex_execute : str → DriverCommand Json → W → W * ExecuteOutcome.t Json;
  ex_check : str → list Precondition → W → W * CheckOutcome.t;
}.

Section run_operation.
Context {W Json Precondition : Type} `{!ControlExecutor W Json Precondition}.

(** [ControlResult { .., ..base }]: the identifiers are filled in on
    settlement. *)
Definition run_base (device_id : str) (started : Z) (status : ControlStatus.t)
    (result : option (ControlPayloadResult.t Json)) (error : option ControlError) :
    ControlResult Json :=
  {| res_request_id := []; res_namespace := []; res_device_id := device_id; res_status := status;
     res_started_at_ns := Some started; res_completed_at_ns := None; res_result := result;
     res_error := error |}.

Definition control_error (code : string) : ControlError := {| ce_code := code; ce_details := None |}.

(** The result of the item at [index]; [items[index]] panics out of range. *)
Definition write_item_result (items : list DriverWriteItem) (raw_results : list RawWriteResult)
    (index : nat) (path : str) : outcome () PropertyWriteItemResult :=
  let? item := expect (items !! index) in
  Ok match List.find (λ r, wr_item_id r =? dw_id item) raw_results with
     | Some raw => {| pw_path := path; pw_success := wr_success raw;
                      pw_protocol_code := wr_protocol_code raw;
                      pw_error := map_driver_error <$> wr_error raw |}
     | None => {| pw_path := path; pw_success := false; pw_protocol_code := None;
                  pw_error := Some (control_error "DRIVER_NO_ITEM_RESULT") |}
     end.

Fixpoint write_item_results (items : list DriverWriteItem) (raw_results : list RawWriteResult)
    (index : nat) (paths : list str) : outcome () (list PropertyWriteItemResult) :=
  match paths with
  | [] => Ok []
  | path :: paths' =>
      let? r := write_item_result items raw_results index path in
      let? rs := write_item_results items raw_results (S index) paths' in
      Ok (r :: rs)
  end.

Definition write_operation (device_id : str) (started : Z) (items : list DriverWriteItem)
    (paths : list str) (w : W) : W * outcome () (ControlResult Json) :=
  let '(w', o) := ex_write device_id items w in
  (w', match o with
       | WriteOutcome.Succeeded raw_results =>
           let? item_results := write_item_results items raw_results 0 paths in
           let any_failed := existsb (λ r, negb (pw_success r)) item_results in
           Ok (run_base device_id started
                 (if any_failed then ControlStatus.Failed else ControlStatus.Succeeded)
                 (Some (ControlPayloadResult.PropertyWrite item_results))
                 (if any_failed then Some (control_error "PARTIAL_WRITE_FAILURE") else None))
       | WriteOutcome.Failed info =>
           Ok (run_base device_id started ControlStatus.Failed None (Some (map_driver_error info)))
       | WriteOutcome.Indeterminate info =>
           Ok (run_base device_id started ControlStatus.Indeterminate None
                 (Some (map_driver_error info)))
       end).

(** The check before a command: [Some code] refuses it. *)
Definition check_preconditions (policy : ControlPolicy) (device_id : str)
    (preconditions : list Precondition) (w : W) : W * option string :=
  match preconditions with
  | [] => (w, None)
  | _ =>
      if precondition_checker policy then
        let '(w', o) := ex_check device_id preconditions w in
        (w', match o with
             | CheckOutcome.TimedOut => Some "PRECONDITION_TIMEOUT"%string
             | CheckOutcome.Failed => Some "PRECONDITION_FAILED"%string
             | CheckOutcome.Passed => None
             end)
      else (w, Some "PRECONDITION_UNCONFIGURED"%string)
  end.

Definition execute_result (device_id : str) (started : Z) (o : ExecuteOutcome.t Json) :
    ControlResult Json :=
  match o with
  | ExecuteOutcome.Succeeded raw =>
      if rc_success raw then
        run_base device_id started ControlStatus.Succeeded
          (Some (ControlPayloadResult.Command
             {| cr_device_code := rc_protocol_code raw; cr_payload := rc_payload raw |})) None
      else
        run_base device_id started ControlStatus.Failed None
          (Some (default (control_error "driver_error") (map_driver_error <$> rc_error raw)))
  | ExecuteOutcome.Failed info =>
      run_base device_id started ControlStatus.Failed None (Some (map_driver_error info))
  | ExecuteOutcome.Indeterminate info =>
      run_base device_id started ControlStatus.Indeterminate None (Some (map_driver_error info))
  end.

Definition run_operation (policy : ControlPolicy) (device_id : str) (started : Z)
    (o : ValidatedOperation.t Json Precondition) (w : W) : W * outcome () (ControlResult Json) :=
  match o with
  | ValidatedOperation.Write items paths => write_operation device_id started items paths w
  | ValidatedOperation.Execute command _ preconditions =>
      let '(w, failure) := check_preconditions policy device_id preconditions w in
      match failure with
      | Some code =>
          (w, Ok (run_base device_id started ControlStatus.Failed None (Some (control_error code))))
      | None =>
          let '(w', o) := ex_execute device_id command w in
          (w', Ok (execute_result device_id started o))
      end
  end.
End run_operation.

(** * Laws of the control queue

    The representation invariant of a queue, the specification of the choice
    of the next request, the mapping of driver outcomes to results and the
    termination of the shutdown drain. *)

Lemma priority_rank_inj p p' : Priority.rank p = Priority.rank p' → p = p'.
Proof. by destruct p, p'. Qed.

Lemma priority_rank_range p : 0 ≤ Priority.rank p ≤ 3.
Proof. destruct p; cbn; lia. Qed.

Lemma priority_cmp_eq a b : Priority.cmp a b = Eq → a = b.
Proof. unfold Priority.cmp. intros ?%Z.compare_eq. by apply priority_rank_inj. Qed.

Lemma priority_cmp_lt a b : Priority.cmp a b = Lt ↔ Priority.rank a < Priority.rank b.
Proof. apply Z.compare_lt_iff. Qed.

Section laws.
Context {Json Precondition : Type}.
Abbreviation Entry := (QueuedEntry Json Precondition).
Abbreviation Queue := (QueueInner Json Precondition).
Implicit Types (q : Queue) (e front : Entry) (p : Priority.t).

(** ** The representation invariant *)
Record queue_ok (policy : ControlPolicy) (q : Queue) : Prop := {
  qo_sorted : btree_sorted Priority.cmp (qi_entries q);
  qo_len : qi_len q = Z.of_nat (length (btree_values (qi_entries q)));
  qo_bound : qi_len q ≤ Z.of_nat (qi_capacity q);
  qo_priority : btree_all (λ p e, priority policy (ValidatedOperation.kind (qe_operation e)) = p)
                  (qi_entries q);
}.

Lemma btree_values_cleared (m : list (Priority.t * list Entry)) :
  btree_values ((λ '(p, _), (p, [] : list Entry)) <$> m) = [].
Proof. unfold btree_values. induction m as [|[p d] m IH]; [done|]. exact IH. Qed.

Lemma cleared_sorted (m : list (Priority.t * list Entry)) :
  btree_sorted Priority.cmp m →
  btree_sorted Priority.cmp ((λ '(p, _), (p, [] : list Entry)) <$> m).
Proof.
  unfold btree_sorted. induction 1 as [|[p d] m _ IH Hp]; cbn [fmap list_fmap]; constructor; [done|].
  apply Forall_fmap. eapply Forall_impl; [exact Hp|]. by intros [p' d'].
Qed.

Lemma cleared_all P (m : list (Priority.t * list Entry)) :
  btree_all P ((λ '(p, _), (p, [] : list Entry)) <$> m).
Proof. unfold btree_all. apply Forall_fmap, Forall_forall. intros [p d] _. constructor. Qed.

Lemma enqueue_ok policy flag e q q' :
  queue_ok policy q → enqueue policy flag e q = (q', Ok ()) → queue_ok policy q'.
Proof.
  intros [Hs Hl Hb Hp]. unfold enqueue. case_if; [done|].
  destruct (Z.leb_spec (Z.of_nat (qi_capacity q)) (qi_len q)); [done|]. intros [= <-].
  split; cbn [set_queued qi_entries qi_len qi_capacity].
  - apply btree_push_sorted; [apply priority_cmp_eq| | |done].
    + intros a b. unfold Priority.cmp. rewrite Z.compare_gt_iff, Z.compare_lt_iff. done.
    + intros a b c. rewrite !priority_cmp_lt. lia.
  - rewrite btree_push_values, length_app. cbn. lia.
  - lia.
  - apply btree_push_all; [|done|done]. intros p'. apply priority_cmp_eq.
Qed.

(** ** Choosing the next request *)
Lemma scan_spec (eff : Priority.t → Entry → Z) best desc b p :
  StronglySorted (λ x y : Priority.t * list Entry, Priority.rank y.1 < Priority.rank x.1) desc →
  (∀ b0 p0, best = Some (b0, p0) → Forall (λ x, Priority.rank x.1 < Priority.rank p0) desc) →
  scan eff best desc = Some (b, p) →
  (best = Some (b, p) ∨ ∃ front d, (p, front :: d) ∈ desc ∧ b = eff p front) ∧
  (∀ b0 p0, best = Some (b0, p0) → b0 ≤ b ∧ (b0 = b → p0 = p)) ∧
  (∀ p' front d, (p', front :: d) ∈ desc →
     eff p' front ≤ b ∧ (eff p' front = b → Priority.rank p' ≤ Priority.rank p)).
Proof.
  intros Hs. revert best. induction Hs as [|[p1 [|f1 d1]] desc Hs IH Hp1]; intros best Hbest Hscan;
    cbn [scan] in Hscan.
  - rewrite Hscan. split_and!; [by left| |].
    + intros b0 p0 [= -> ->]. split; [lia|done].
    + intros ??? []%not_elem_of_nil.
  - apply IH in Hscan as (H1 & H2 & H3).
    2: { intros b0 p0 E. by apply Hbest in E as [_ ?]%Forall_cons. }
    split_and!; [|done|].
    + destruct H1 as [?|(f & d & Hin & ->)]; [by left|right]. exists f, d. split; [by right|done].
    + intros p' f d [[=]|Hin]%elem_of_cons. by eapply H3.
  - set (better := match best with None => true | Some (b0, _) => b0 <? eff p1 f1 end) in Hscan.
    apply IH in Hscan as (H1 & H2 & H3).
    2: { destruct better; [by intros b0 p0 [= <- <-]|].
         intros b0 p0 E. by apply Hbest in E as [_ ?]%Forall_cons. }
    destruct better eqn:Eb.
    + destruct (H2 _ _ eq_refl) as [Hle Htie]. split_and!.
      * right. destruct H1 as [[= <- <-]|(f & d & Hin & ->)].
        -- exists f1, d1. split; [by left|done].
        -- exists f, d. split; [by right|done].
      * intros b0 p0 ->. cbn in Eb. lia.
      * intros p' f d [[= -> -> ->]|Hin]%elem_of_cons; [|by eapply H3].
        split; [done|]. intros ->%Htie. done.
    + destruct best as [[b0 p0]|]; [|done]. cbn in Eb.
      destruct (H2 _ _ eq_refl) as [Hle Htie]. split_and!.
      * destruct H1 as [?|(f & d & Hin & ->)]; [by left|right]. exists f, d. split; [by right|done].
      * done.
      * intros p' f d [[= -> -> ->]|Hin]%elem_of_cons; [|by eapply H3].
        split; [lia|]. intros Heq.
        assert (b0 = b) as Hb by lia. apply Htie in Hb as ->.
        pose proof (Hbest _ _ eq_refl) as [Hr _]%Forall_cons. cbn in Hr. lia.
Qed.

Lemma scan_None (eff : Priority.t → Entry → Z) desc :
  scan eff None desc = None → btree_values desc = [].
Proof.
  assert (∀ best desc, best ≠ None → scan eff best desc ≠ None) as Hsome.
  { intros best d. revert best. induction d as [|[p [|f d']] d IH]; intros best Hb; cbn [scan]; [done|by apply IH|].
    apply IH. by destruct best as [[]|]; [case_if|]. }
  induction desc as [|[p [|f d]] desc IH]; intros H; [done|by apply IH|].
  cbn [scan] in H. by apply Hsome in H.
Qed.

Lemma sorted_reverse (m : list (Priority.t * list Entry)) :
  btree_sorted Priority.cmp m →
  StronglySorted (λ x y : Priority.t * list Entry, Priority.rank y.1 < Priority.rank x.1) (reverse m).
Proof.
  unfold btree_sorted. induction 1 as [|x m Hm IH Hx]; [constructor|].
  rewrite reverse_cons. clear Hm.
  assert (Forall (λ y : Priority.t * list Entry, Priority.rank x.1 < Priority.rank y.1) (reverse m)) as Hr.
  { rewrite reverse_Permutation. eapply Forall_impl; [exact Hx|]. intros y. by rewrite priority_cmp_lt. }
  clear Hx. induction IH as [|y l Hl IHl Hy]; cbn [app]; [repeat constructor|].
  apply Forall_cons in Hr as [Hxy Hr]. constructor; [by apply IHl|].
  apply Forall_app. split; [done|]. by constructor.
Qed.

Lemma pop_front_at_spec p front d (m : list (Priority.t * list Entry)) :
  btree_sorted Priority.cmp m → (p, front :: d) ∈ m →
  ∃ before after, m = before ++ (p, front :: d) :: after ∧
    pop_front_at p m = Some (front, before ++ (p, d) :: after).
Proof.
  unfold btree_sorted. induction 1 as [|[p' d'] m Hm IH Hp']; intros Hin; [by apply not_elem_of_nil in Hin|].
  cbn [pop_front_at]. apply elem_of_cons in Hin as [[= <- <-]|Hin].
  - exists [], m. rewrite decide_True by done. done.
  - rewrite decide_False.
    + destruct (IH Hin) as (before & after & -> & ->). by exists ((p', d') :: before), after.
    + intros ->. rewrite Forall_forall in Hp'. specialize (Hp' _ Hin). cbn [fst] in Hp'.
      rewrite priority_cmp_lt in Hp'. lia.
Qed.

Lemma pick_spec policy tokens now now_ready now_kind now_ns q :
  btree_sorted Priority.cmp (qi_entries q) →
  let eff := effective policy tokens now_ready now_ns in
  match pick policy tokens now now_ready now_kind now_ns q with
  | (q', Ok None) =>
      q' = q ∧ (in_cooldown now q = true ∨ btree_values (qi_entries q) = [])
  | (q', Ok (Some (e, k))) =>
      in_cooldown now q = false ∧ k = picked_kind tokens now_kind e ∧
      ∃ p d before after,
        qi_entries q = before ++ (p, e :: d) :: after ∧
        q' = set_queued (before ++ (p, d) :: after) (qi_len q - 1) q ∧
        ∀ p' e' d', (p', e' :: d') ∈ qi_entries q →
          eff p' e' ≤ eff p e ∧ (eff p' e' = eff p e → Priority.rank p' ≤ Priority.rank p)
  | (_, Err _) | (_, Panic) => False
  end.
Proof.
  intros Hs eff. unfold pick. fold (in_cooldown now q).
  destruct (in_cooldown now q) eqn:Ec; [by split; [|left]|].
  destruct (scan _ _ _) as [[b p]|] eqn:Esc.
  - apply scan_spec in Esc as ([?|(front & d & Hin & ->)] & _ & Hmax);
      [done| |by apply sorted_reverse|done].
    rewrite elem_of_reverse in Hin.
    destruct (pop_front_at_spec p front d _ Hs Hin) as (before & after & Heq & ->).
    split_and!; [done..|]. exists p, d, before, after. split_and!; [done..|].
    intros p' e' d' Hin'. apply (Hmax p' e' d'). by rewrite elem_of_reverse.
  - split; [done|]. right. apply scan_None in Esc.
    assert (btree_values (reverse (qi_entries q)) ≡ₚ btree_values (qi_entries q)) as Hp.
    { unfold btree_values. rewrite fmap_reverse.
      by rewrite (reverse_Permutation ((qi_entries q).*2)). }
    rewrite Esc in Hp. by apply Permutation_nil in Hp.
Qed.

(** The worker starts nothing during a cooldown and otherwise takes a
    request whenever one is queued: the oldest of its priority, whose
    effective priority (base priority plus aging) is the largest, the higher
    base priority going first on a tie; the other requests keep their place.
    The [expect]s of the code cannot fail. *)
Theorem pick_chooses policy tokens now now_ready now_kind now_ns q :
  btree_sorted Priority.cmp (qi_entries q) →
  let eff := effective policy tokens now_ready now_ns in
  match pick policy tokens now now_ready now_kind now_ns q with
  | (q', Ok None) =>
      q' = q ∧ (in_cooldown now q = true ∨ btree_values (qi_entries q) = [])
  | (q', Ok (Some (e, k))) =>
      in_cooldown now q = false ∧ k = picked_kind tokens now_kind e ∧
      ∃ p d before after,
        qi_entries q = before ++ (p, e :: d) :: after ∧
        q' = set_queued (before ++ (p, d) :: after) (qi_len q - 1) q ∧
        ∀ p' e' d', (p', e' :: d') ∈ qi_entries q →
          eff p' e' ≤ eff p e ∧ (eff p' e' = eff p e → Priority.rank p' ≤ Priority.rank p)
  | (_, Err _) | (_, Panic) => False
  end.
Proof. apply pick_spec. Qed.

Lemma boost_range policy now_ns ready p e :
  0 ≤ boost policy now_ns ready (Priority.rank p) e ≤ 3 - Priority.rank p.
Proof. unfold boost. pose proof (priority_rank_range p). case_if; lia. Qed.

(** Aging lifts a request to the level of a critical one at most, and the
    critical one wins the tie: while critical requests are queued, no other
    request is started. *)
Lemma critical_first policy tokens now now_ready now_kind now_ns q q' e k e' d' :
  btree_sorted Priority.cmp (qi_entries q) → (Priority.Critical, e' :: d') ∈ qi_entries q →
  pick policy tokens now now_ready now_kind now_ns q = (q', Ok (Some (e, k))) → e = e'.
Proof.
  intros Hs Hin Hp. pose proof (pick_spec policy tokens now now_ready now_kind now_ns q Hs) as H.
  cbv zeta in H. rewrite Hp in H. destruct H as (_ & _ & p & d & before & after & Heq & _ & Hmax).
  destruct (Hmax _ _ _ Hin) as [Hle Htie].
  assert (∀ p e, effective policy tokens now_ready now_ns p e ≤ 3) as H3.
  { intros p0 e0. unfold effective. pose proof (boost_range policy now_ns
      (is_ready tokens (now_ready p0) e0) p0 e0). lia. }
  assert (3 ≤ effective policy tokens now_ready now_ns Priority.Critical e') as Hc.
  { unfold effective. pose proof (boost_range policy now_ns
      (is_ready tokens (now_ready Priority.Critical) e') Priority.Critical e'). cbn in *. lia. }
  specialize (H3 p e). specialize (Htie ltac:(lia)).
  assert (p = Priority.Critical) as ->.
  { pose proof (priority_rank_range p). apply priority_rank_inj. cbn in *. lia. }
  assert ((Priority.Critical, e :: d) ∈ qi_entries q) as Hin2 by (rewrite Heq; set_solver).
  destruct (pop_front_at_spec _ _ _ _ Hs Hin) as (? & ? & _ & H1).
  destruct (pop_front_at_spec _ _ _ _ Hs Hin2) as (? & ? & _ & H2). congruence.
Qed.

Lemma split_values before p e d (after : list (Priority.t * list Entry)) :
  btree_values (before ++ (p, e :: d) :: after) ≡ₚ e :: btree_values (before ++ (p, d) :: after).
Proof.
  unfold btree_values. rewrite !fmap_app, !concat_app. cbn. solve_Permutation.
Qed.

Lemma pick_ok policy tokens now now_ready now_kind now_ns q q' r :
  queue_ok policy q → pick policy tokens now now_ready now_kind now_ns q = (q', r) →
  queue_ok policy q'.
Proof.
  intros [Hs Hl Hb Hp] E. pose proof (pick_spec policy tokens now now_ready now_kind now_ns q Hs) as H.
  cbv zeta in H. rewrite E in H. destruct r as [[[e k]|]| |]; [|by destruct H as [-> _]|done..].
  destruct H as (_ & _ & p & d & before & after & Heq & -> & _).
  rewrite Heq in Hs, Hl, Hp. split; cbn [set_queued qi_entries qi_len qi_capacity].
  - clear -Hs. unfold btree_sorted in *. induction before as [|x before IH]; cbn [app] in *.
    + apply StronglySorted_inv in Hs as [Hs Hf]. by constructor.
    + apply StronglySorted_inv in Hs as [Hs Hf]. constructor; [by apply IH|].
      rewrite Forall_app, Forall_cons in Hf |- *. done.
  - rewrite Hl. rewrite split_values. cbn [length]. lia.
  - lia.
  - unfold btree_all in *. rewrite Forall_app, Forall_cons in Hp |- *.
    destruct Hp as (? & [? ?]%Forall_cons & ?). done.
Qed.
End laws.

(** ** What the executor reports *)
Section run_operation.
Context {W Json Precondition : Type} `{!ControlExecutor W Json Precondition}.

Lemma write_item_results_spec items raws index paths :
  (index + length paths ≤ length items)%nat →
  ∃ rs, write_item_results items raws index paths = Ok rs ∧ pw_path <$> rs = paths ∧
    (existsb (λ r, negb (pw_success r)) rs = false →
     ∀ i item, (index ≤ i < index + length paths)%nat → items !! i = Some item →
       ∃ raw, raw ∈ raws ∧ wr_item_id raw = dw_id item ∧ wr_success raw = true).
Proof.
  revert index. induction paths as [|path paths IH]; intros index Hlen; cbn [length] in Hlen.
  { exists []. split_and!; [done..|]. cbn. lia. }
  destruct (IH (S index)) as (rs & Hrs & Hpaths & Hok); [lia|].
  destruct (items !! index) as [item|] eqn:Ei.
  2: { apply lookup_ge_None_1 in Ei. lia. }
  cbn [write_item_results]. unfold write_item_result. rewrite Ei, Hrs. cbn [expect outcome_bind].
  eexists. split; [done|]. split; [cbn; f_equal; [by case_match|done]|].
  cbn [existsb length]. intros [Hs Hrest]%orb_false_iff i item' Hi Hitem.
  destruct (decide (i = index)) as [->|Hne]; [|apply (Hok Hrest i); [lia|done]].
  rewrite Ei in Hitem. injection Hitem as <-.
  destruct (List.find _ raws) as [raw|] eqn:Ef; [|done].
  apply List.find_some in Ef as [Hin Hid]. exists raw. split_and!; [by apply list_elem_of_In|by apply Z.eqb_eq|].
  cbn in Hs. by destruct (wr_success raw).
Qed.

(** An operation is reported as succeeded only when the driver confirmed
    it: every written item has its own positive result, and a command was
    executed after its preconditions passed (a missing checker refuses it);
    the result is indeterminate only when the driver said so.  Running never
    panics. *)
Theorem run_operation_sound policy device started
    (o : ValidatedOperation.t Json Precondition) (w : W) :
  (∀ items paths, o = ValidatedOperation.Write items paths → (length paths ≤ length items)%nat) →
  match run_operation policy device started o w with
  | (w', Ok r) =>
      match res_status r with
      | ControlStatus.Succeeded =>
          match o with
          | ValidatedOperation.Write items paths =>
              ∃ raws, ex_write device items w = (w', WriteOutcome.Succeeded raws) ∧
                ∀ i item, (i < length paths)%nat → items !! i = Some item →
                  ∃ raw, raw ∈ raws ∧ wr_item_id raw = dw_id item ∧ wr_success raw = true
          | ValidatedOperation.Execute command _ preconditions =>
              (preconditions = [] ∨ precondition_checker policy = true) ∧
              ∃ w1 raw, check_preconditions policy device preconditions w = (w1, None) ∧
                ex_execute device command w1 = (w', ExecuteOutcome.Succeeded raw) ∧
                rc_success raw = true
          end
      | ControlStatus.Indeterminate =>
          match o with
          | ValidatedOperation.Write items _ =>
              ∃ info, ex_write device items w = (w', WriteOutcome.Indeterminate info)
          | ValidatedOperation.Execute command _ preconditions =>
              ∃ w1 info, check_preconditions policy device preconditions w = (w1, None) ∧
                ex_execute device command w1 = (w', ExecuteOutcome.Indeterminate info)
          end
      | ControlStatus.Failed => is_Some (res_error r)
      | _ => False
      end
  | (_, Err _) | (_, Panic) => False
  end.
Proof.
  intros Hlen. destruct o as [items paths|command risk preconditions]; cbn [run_operation].
  - unfold write_operation. destruct (ex_write device items w) as [w' [raws|info|info]] eqn:E;
      cbn; [|done|by exists info].
    destruct (write_item_results_spec items raws 0 paths) as (rs & -> & _ & Hok);
      [by apply Hlen|]. cbn [outcome_bind].
    destruct (existsb _ rs) eqn:Ex; cbn; [done|]. exists raws. split; [done|].
    intros i item Hi. apply Hok; [done|lia].
  - destruct (check_preconditions policy device preconditions w) as [w1 [code|]] eqn:Ec; cbn; [done|].
    destruct (ex_execute device command w1) as [w' [raw|info|info]] eqn:Ee; cbn; [|done|by eauto].
    destruct (rc_success raw) eqn:Er; cbn; [|done]. split; [|by eauto].
    unfold check_preconditions in Ec. destruct preconditions; [by left|right].
    by destruct (precondition_checker policy).
Qed.
End run_operation.
