(* ===== verification/ControlValidate.v ===== *)
(** * Validation of control requests (crates/control-engine/src/validate.rs)

    A request is checked against the profile of its device before it reaches
    the queue: a property write is mapped to driver addresses and raw values, a
    command to the command of the driver.  The constructors of
    [serde_json::Value] are an interface, [JsonValue]. *)

From S2P Require Import Prelude RustStd RustFloat ObservationModel ProfileModel ProfileConvert ControlModel ControlQueue.
From stdpp Require Import options.

(** ** Requests (observation-model property.rs, command.rs, control.rs) *)
Record PropertyWriteItem : Type := mkPropertyWriteItem {
  wi_path : str;
  wi_value : Value.t;
}.

Record CommandParameter : Type := mkCommandParameter {
  pa_name : str;
  pa_value : Value.t;
}.

Record CommandRequest : Type := mkCommandRequest {
  co_command : str;
  co_parameters : list CommandParameter;
}.

Module ControlOperation.
Inductive t : Type :=
| PropertyWrite (items : list PropertyWriteItem)
| CommandExecute (request : CommandRequest).
End ControlOperation.

Record ControlRequest : Type := mkControlRequest {
  rq_request_id : str;
  rq_namespace : str;
  rq_device_id : str;
  rq_requested_at_ns : Z;
  rq_timeout_ms : Z;
  rq_operation : ControlOperation.t;
}.

Module ValidationError.
Inductive t : Type :=
| PropertyNotFound (path : str)
| PropertyNotWritable (path : str)
| ValueTypeMismatch (path : str) (expected : DataType.t)
| ValueOutOfRange (path : str) (value : Z) (min max : option Z)
| ValueNotRepresentable (path : str)
| CommandNotFound (command : str)
| MissingParameter (command parameter : str)
| UnknownParameter (command parameter : str)
| ParameterTypeMismatch (command parameter : str) (expected : DataType.t)
| DuplicateParameter (command parameter : str)
| ParameterOutOfRange (command parameter : str) (value : Z) (min max : option Z)
| ParameterNotFinite (command parameter : str)
| ParameterNotRepresentable (command parameter : str)
| EmptyWrite
| ProfileConfiguration (path : str).

Definition code (e : t) : string :=
  match e with
  | PropertyNotFound _ => "PROPERTY_NOT_FOUND"
  | PropertyNotWritable _ => "PROPERTY_NOT_WRITABLE"
  | ValueTypeMismatch _ _ => "VALUE_TYPE_MISMATCH"
  | ValueOutOfRange _ _ _ _ => "VALUE_OUT_OF_RANGE"
  | ValueNotRepresentable _ => "VALUE_NOT_REPRESENTABLE"
  | CommandNotFound _ => "COMMAND_NOT_FOUND"
  | MissingParameter _ _ => "MISSING_PARAMETER"
  | UnknownParameter _ _ => "UNKNOWN_PARAMETER"
  | ParameterTypeMismatch _ _ _ => "PARAMETER_TYPE_MISMATCH"
  | DuplicateParameter _ _ => "DUPLICATE_PARAMETER"
  | ParameterOutOfRange _ _ _ _ _ => "PARAMETER_OUT_OF_RANGE"
  | ParameterNotFinite _ _ => "PARAMETER_NOT_FINITE"
  | ParameterNotRepresentable _ _ => "PARAMETER_NOT_REPRESENTABLE"
  | EmptyWrite => "EMPTY_WRITE"
  | ProfileConfiguration _ => "PROFILE_CONFIGURATION"
  end.
End ValidationError.

Definition map_conversion (p : ProfileProperty) (e : ConversionError.t) : ValidationError.t :=
  let path := pr_path p in
  match e with
  | ConversionError.NotWritable => ValidationError.PropertyNotWritable path
  | ConversionError.SemanticTypeMismatch expected => ValidationError.ValueTypeMismatch path expected
  | ConversionError.MinMaxViolation value min max =>
      ValidationError.ValueOutOfRange path value min max
  | ConversionError.ScaleInvalid _ _ => ValidationError.ProfileConfiguration path
  | ConversionError.NotFinite _ | ConversionError.ExactRequired _ | ConversionError.Overflow _ _
  | ConversionError.PrecisionLoss _ => ValidationError.ValueNotRepresentable path
  end.

(** ** Property writes *)
Definition map_write_item (profile : DeviceProfile) (index : Z) (item : PropertyWriteItem) :
    outcome ValidationError.t DriverWriteItem :=
  let? property := ok_or (profile_property profile (wi_path item))
                     (ValidationError.PropertyNotFound (wi_path item)) in
  if negb (pr_writable property) then Err (ValidationError.PropertyNotWritable (wi_path item))
  else
    let? raw := map_err (map_conversion property) (encode_write property (wi_value item)) in
    Ok {| dw_id := index; dw_address := pr_driver_address property; dw_value := raw |}.

Fixpoint map_write_items (profile : DeviceProfile) (index : Z) (l : list PropertyWriteItem) :
    outcome ValidationError.t (list DriverWriteItem) :=
  match l with
  | [] => Ok []
  | item :: l' =>
      let? i := map_write_item profile index item in
      let? rest := map_write_items profile (index + 1) l' in
      Ok (i :: rest)
  end.

Definition validate_property_write {Json} (profile : DeviceProfile) (items : list PropertyWriteItem) :
    outcome ValidationError.t (ValidatedOperation.t Json CommandPrecondition) :=
  if bool_decide (items = []) then Err ValidationError.EmptyWrite
  else
    let? mapped := map_write_items profile 0 items in
    Ok (ValidatedOperation.Write mapped (wi_path <$> items)).

(** ** Parameter values *)
Fixpoint value_has_non_finite (v : Value.t) : bool :=
  match v with
  | Value.F32 x => f32_exp x =? 255
  | Value.F64 x => negb (f64_is_finite x)
  | Value.Array items => existsb value_has_non_finite items
  | Value.Struct fields => existsb (λ f, value_has_non_finite f.2) fields
  | _ => false
  end.

Fixpoint value_matches_type (v : Value.t) (t : DataType.t) : bool :=
  match t, v with
  | DataType.Bool, Value.Bool _ => true
  | DataType.String, Value.String _ => true
  | DataType.Bytes, Value.Bytes _ => true
  | DataType.Array elem, Value.Array items => forallb (λ x, value_matches_type x elem) items
  | DataType.Struct fields, Value.Struct values =>
      (length fields =? length values)%nat &&
      forallb (λ f, existsb (λ x, bool_decide (x.1 = f.1) && value_matches_type x.2 f.2) values) fields
  | t, v => is_numeric t && is_numeric_value v
  end.

(** The bounds of an integer type. *)
Definition integer_range (t : DataType.t) : option (Z * Z) :=
  match t with
  | DataType.I8 => Some (- 2 ^ 7, 2 ^ 7 - 1)
  | DataType.I16 => Some (- 2 ^ 15, 2 ^ 15 - 1)
  | DataType.I32 => Some (- 2 ^ 31, 2 ^ 31 - 1)
  | DataType.I64 => Some (- 2 ^ 63, 2 ^ 63 - 1)
  | DataType.U8 => Some (0, 2 ^ 8 - 1)
  | DataType.U16 => Some (0, 2 ^ 16 - 1)
  | DataType.U32 => Some (0, 2 ^ 32 - 1)
  | DataType.U64 => Some (0, 2 ^ 64 - 1)
  | _ => None
  end.

Definition in_range (r : Z * Z) (v : Z) : bool := (r.1 <=? v) && (v <=? r.2).

(** A float as a value of an integer type. *)
Definition float_representable (r : Z * Z) (f : Z) : bool :=
  f64_fract_is_zero f && f64_lt (f mod 2 ^ 63) (f64_of_int (2 ^ 53)) && in_range r (f64_as_i128 f).

(** A scalar as a value of a scalar type. *)
Definition scalar_representable (v : Value.t) (t : DataType.t) : bool :=
  match t, v with
  | DataType.F32, Value.F64 x => f64_is_finite x && negb (f32_exp (f64_to_f32 x) =? 255)
  | DataType.F32, _ => from_option (λ i, Z.abs i <? 2 ^ 24) true (integer_value_to_i128 v)
  | DataType.F64, _ => from_option (λ i, Z.abs i <? 2 ^ 53) true (integer_value_to_i128 v)
  | _, _ =>
      match integer_range t with
      | Some r =>
          match integer_value_to_i128 v with
          | Some i => in_range r i
          | None => from_option (float_representable r) true (numeric_value_to_f64 v)
          end
      | None => true
      end
  end.

Fixpoint value_representable (v : Value.t) (t : DataType.t) : bool :=
  match t, v with
  | DataType.Array elem, Value.Array items => forallb (λ x, value_representable x elem) items
  | DataType.Struct fields, Value.Struct values =>
      (* the fields of the value with the name of the declared one *)
      forallb (λ f, forallb (λ x, negb (bool_decide (x.1 = f.1)) || value_representable x.2 f.2) values)
        fields
  | _, _ => scalar_representable v t
  end.

(** [v < bound], first on integers and then on [f64]; .. *)
Definition param_below (v bound : Value.t) : bool :=
  match integer_value_to_i128 v, integer_value_to_i128 bound with
  | Some x, Some b => x <? b
  | _, _ => false
  end ||
  match numeric_value_to_f64 v, numeric_value_to_f64 bound with
  | Some x, Some b => f64_lt x b
  | _, _ => false
  end.

(** .. [v > bound] likewise. *)
Definition param_above (v bound : Value.t) : bool :=
  match integer_value_to_i128 v, integer_value_to_i128 bound with
  | Some x, Some b => b <? x
  | _, _ => false
  end ||
  match numeric_value_to_f64 v, numeric_value_to_f64 bound with
  | Some x, Some b => f64_lt b x
  | _, _ => false
  end.

Definition param_within_range (v : Value.t) (min max : option Value.t) : bool :=
  negb (from_option (param_below v) false min) && negb (from_option (param_above v) false max).

(** ** Commands *)
Class JsonValue (Json : Type) : Type := {
  json_null : Json;
  json_bool : bool → Json;
  json_int : Z → Json;
  json_f64 : Z → option Json;          (* [Number::from_f64] *)
  json_string : str → Json;
  json_array : list Json → Json;
  json_object : list (str * Json) → Json;
}.

Section json.
Context {Json : Type} `{!JsonValue Json}.

Fixpoint value_to_json (v : Value.t) : Json :=
  match v with
  | Value.Bool b => json_bool b
  | Value.I8 x | Value.I16 x | Value.I32 x | Value.I64 x
  | Value.U8 x | Value.U16 x | Value.U32 x | Value.U64 x => json_int x
  | Value.F32 x => default json_null (json_f64 (f32_to_f64 x))
  | Value.F64 x => default json_null (json_f64 x)
  | Value.String s => json_string s
  | Value.Bytes l => json_array (json_int <$> l)
  | Value.Array items => json_array (List.map value_to_json items)
  | Value.Struct fields => json_object (List.map (λ f, (f.1, value_to_json f.2)) fields)
  end.

(** The first name that was seen before. *)
Fixpoint first_duplicate (seen : list str) (l : list CommandParameter) : option str :=
  match l with
  | [] => None
  | p :: l' =>
      if bool_decide (pa_name p ∈ seen) then Some (pa_name p)
      else first_duplicate (pa_name p :: seen) l'
  end.

Definition has_parameter (l : list CommandParameter) (name : str) : bool :=
  existsb (λ p, bool_decide (pa_name p = name)) l.

Definition find_descriptor (l : list CommandParameterDescriptor) (name : str) :
    option CommandParameterDescriptor :=
  List.find (λ d, bool_decide (cp_name d = name)) l.

Definition check_parameter (command : str) (descriptors : list CommandParameterDescriptor)
    (p : CommandParameter) : outcome ValidationError.t () :=
  let? desc := ok_or (find_descriptor descriptors (pa_name p))
                 (ValidationError.UnknownParameter command (pa_name p)) in
  if value_has_non_finite (pa_value p) then Err (ValidationError.ParameterNotFinite command (pa_name p))
  else if negb (value_matches_type (pa_value p) (cp_data_type desc)) then
    Err (ValidationError.ParameterTypeMismatch command (pa_name p) (cp_data_type desc))
  else if negb (value_representable (pa_value p) (cp_data_type desc)) then
    Err (ValidationError.ParameterNotRepresentable command (pa_name p))
  else if negb (param_within_range (pa_value p) (cp_min desc) (cp_max desc)) then
    Err (ValidationError.ParameterOutOfRange command (pa_name p)
           (default NAN (numeric_value_to_f64 (pa_value p))) (cp_min desc ≫= numeric_value_to_f64)
           (cp_max desc ≫= numeric_value_to_f64))
  else Ok ().

Fixpoint check_parameters (command : str) (descriptors : list CommandParameterDescriptor)
    (l : list CommandParameter) : outcome ValidationError.t () :=
  match l with
  | [] => Ok ()
  | p :: l' =>
      let? _ := check_parameter command descriptors p in
      check_parameters command descriptors l'
  end.

Definition find_command (profile : DeviceProfile) (command : str) : option ProfileCommand :=
  List.find (λ c, bool_decide (pcmd_id c = command)) (dp_commands profile).

Definition validate_command (profile : DeviceProfile) (request : CommandRequest) :
    outcome ValidationError.t (ValidatedOperation.t Json CommandPrecondition) :=
  let command := co_command request in
  let? descriptor := ok_or (find_command profile command) (ValidationError.CommandNotFound command) in
  match first_duplicate [] (co_parameters request) with
  | Some name => Err (ValidationError.DuplicateParameter command name)
  | None =>
      match List.find (λ d, cp_required d && negb (has_parameter (co_parameters request) (cp_name d)))
              (pcmd_parameters descriptor) with
      | Some d => Err (ValidationError.MissingParameter command (cp_name d))
      | None =>
          let? _ := check_parameters command (pcmd_parameters descriptor) (co_parameters request) in
          Ok (ValidatedOperation.Execute
                {| dc_command_id := pcmd_driver_command_id descriptor;
                   dc_payload := json_object
                     ((λ p, (pa_name p, value_to_json (pa_value p))) <$> co_parameters request) |}
                (pcmd_risk_level descriptor) (pcmd_preconditions descriptor))
      end
  end.
End json.

(** * Token authentication (crates/control-engine/src/auth.rs)

    The credentials file maps bearer tokens to a subject and a role.  The JSON
    parser is an argument of [parse]; the file system's answers (the mode and
    the content of the file) are arguments of [from_file]. *)

Definition CREDENTIALS_SCHEMA : str := lit "forgelink.control.credentials.v1".

Module CredentialsError.
Inductive t : Type :=
| Io
| PermissionsTooOpen (mode : Z)
| Parse
| SchemaMismatch (actual : str)
| DuplicateToken
| DuplicateSubject
| EmptySubject.
End CredentialsError.

(** [CredentialEntryRaw] and [CredentialEntry] *)
Record CredentialEntry : Type := mkCredentialEntry {
  cd_token : str;
  cd_subject : str;
  cd_role : Role.t;
}.

Record CredentialsFile : Type := mkCredentialsFile {
  cf_schema : str;
  cf_credentials : list CredentialEntry;
}.

Record StaticTokenAuthorizer : Type := mkStaticTokenAuthorizer {
  ta_entries : list CredentialEntry;
  ta_roles : gmap str Role.t;
}.

(** The loop of [parse]: tokens and subjects seen so far, and the tables. *)
Fixpoint load_credentials (l : list CredentialEntry) (seen subjects : gset str)
    (a : StaticTokenAuthorizer) : outcome CredentialsError.t StaticTokenAuthorizer :=
  match l with
  | [] => Ok a
  | raw :: l' =>
      if bool_decide (cd_token raw = []) then Err CredentialsError.DuplicateToken
      else if bool_decide (cd_subject raw = []) then Err CredentialsError.EmptySubject
      else if bool_decide (cd_token raw ∈ seen) then Err CredentialsError.DuplicateToken
      else if bool_decide (cd_subject raw ∈ subjects) then Err CredentialsError.DuplicateSubject
      else
        load_credentials l' ({[cd_token raw]} ∪ seen) ({[cd_subject raw]} ∪ subjects)
          {| ta_entries := ta_entries a ++ [raw];
             ta_roles := <[cd_subject raw := cd_role raw]> (ta_roles a) |}
  end.

Definition parse (from_str : str → option CredentialsFile) (content : str) :
    outcome CredentialsError.t StaticTokenAuthorizer :=
  let? file := ok_or (from_str content) CredentialsError.Parse in
  if negb (bool_decide (cf_schema file = CREDENTIALS_SCHEMA)) then
    Err (CredentialsError.SchemaMismatch (cf_schema file))
  else load_credentials (cf_credentials file) ∅ ∅ {| ta_entries := []; ta_roles := ∅ |}.

(** [mode] and [content] are the answers of the file system (on Unix). *)
Definition from_file (from_str : str → option CredentialsFile) (mode : option Z)
    (content : option str) : outcome CredentialsError.t StaticTokenAuthorizer :=
  let? mode := ok_or mode CredentialsError.Io in
  let mode := Z.land mode 0x1FF in
  if negb (mode =? 0x180) then Err (CredentialsError.PermissionsTooOpen mode)
  else
    let? content := ok_or content CredentialsError.Io in
    parse from_str content.

(** [diff |= x ^ y] over both strings, judged at the end. *)
Fixpoint diff_bytes (a b : list Z) (diff : Z) : Z :=
  match a, b with
  | x :: a', y :: b' => diff_bytes a' b' (Z.lor diff (Z.lxor x y))
  | _, _ => diff
  end.

Definition constant_time_eq (a b : list Z) : bool :=
  if negb (length a =? length b)%nat then false else diff_bytes a b 0 =? 0.

(** The scan never stops early: the last match wins. *)
Fixpoint match_token (token : list Z) (l : list CredentialEntry) (matched : option CredentialEntry) :
    option CredentialEntry :=
  match l with
  | [] => matched
  | e :: l' =>
      match_token token l'
        (if constant_time_eq token (utf8_encode (cd_token e)) then Some e else matched)
  end.

Definition authenticate (a : StaticTokenAuthorizer) (token : str) : option (str * Role.t) :=
  (λ e, (cd_subject e, cd_role e)) <$> match_token (utf8_encode token) (ta_entries a) None.

Definition token_role_of (a : StaticTokenAuthorizer) (subject : str) : option Role.t :=
  ta_roles a !! subject.

Definition token_authorize (a : StaticTokenAuthorizer) (subject : str) (required : Role.t)
    (device_id : str) : outcome AuthorizationError.t () :=
  let granted := default Role.Viewer (token_role_of a subject) in
  if role_ordering granted required then Ok () else Err AuthorizationError.InsufficientRole.

#[global] Instance static_token_authorizer : Authorizer StaticTokenAuthorizer :=
  {| authorize := token_authorize |}.
