(* ===== verification/ControlValidateLaws.v ===== *)
(** * Laws of request validation and token authentication *)

From S2P Require Import Prelude RustStd RustFloat ObservationModel ProfileModel ProfileConvert ProfileLaws.
From S2P Require Import ControlModel ControlQueue ControlValidate.
From stdpp Require Import options.

#[local] Opaque f64_is_finite f64_eq f64_to_f32 f32_to_f64 f64_of_int f64_num f64_unit f64_le f64_lt.

(** ** Property writes *)
Lemma map_write_item_Ok profile i item d :
  map_write_item profile i item = Ok d →
  ∃ p, profile_property profile (wi_path item) = Some p ∧ pr_writable p = true ∧
    dw_id d = i ∧ dw_address d = pr_driver_address p ∧
    encode_write p (wi_value item) = Ok (dw_value d).
Proof.
  unfold map_write_item. destruct (profile_property _ _) as [p|]; cbn; [|discriminate].
  destruct (pr_writable p) eqn:Hw; cbn; [|discriminate].
  destruct (encode_write p (wi_value item)) as [raw|e|] eqn:He; cbn; [|discriminate|discriminate].
  intros [= <-]. by exists p.
Qed.

Lemma ok_or_no_panic {E A} (o : option A) (e : E) : ok_or o e ≠ Panic.
Proof. by destruct o. Qed.

Lemma apply_rounding_no_panic p c : apply_rounding p c ≠ Panic.
Proof. unfold apply_rounding. destruct (pr_write_rounding p); try done. by destruct (f64_fract_is_zero c). Qed.

Lemma encode_candidate_no_panic p c : encode_candidate p c ≠ Panic.
Proof.
  assert (∀ lo hi, checked_signed p c lo hi ≠ Panic) as Hs.
  { intros lo hi. apply outcome_bind_no_panic; [apply apply_rounding_no_panic|]. intros r _.
    destruct (negb _); [done|]. by destruct (f64_to_i64 r). }
  assert (∀ hi, checked_unsigned p c hi ≠ Panic) as Hu.
  { intros hi. apply outcome_bind_no_panic; [apply apply_rounding_no_panic|]. intros r _.
    destruct (negb _); [done|]. by destruct (f64_to_u64 r). }
  assert (checked_float p c ≠ Panic).
  { unfold checked_float. cbn zeta. destruct (_ && _); [done|]. by destruct (f32_is_infinite _). }
  unfold encode_candidate. destruct (pr_raw_type p); try done; (apply Hs || apply Hu).
Qed.

Lemma encode_write_no_panic p v : encode_write p v ≠ Panic.
Proof.
  assert (encode_scaled p v ≠ Panic) as Hscaled.
  { unfold encode_scaled. apply outcome_bind_no_panic.
    { unfold semantic_to_f64. destruct v; apply ok_or_no_panic. }
    intros f _. destruct (f64_is_finite f); [|done]. cbn zeta. cbn [negb].
    destruct (from_option _ _ _); [done|]. destruct (from_option _ _ _); [done|].
    destruct (_ || _); [done|]. destruct (f64_is_finite _); [apply encode_candidate_no_panic|done]. }
  assert (∀ x, encode_exact_int p x ≠ Panic) as Hexact.
  { intros x. apply outcome_bind_no_panic.
    { unfold check_exact_bounds. destruct (from_option _ _ _); [done|]. by destruct (from_option _ _ _). }
    intros _ _. cbn zeta. destruct (pr_raw_type p);
      first [apply ok_or_no_panic|intros Hp; discriminate Hp|destruct (negb _); intros Hp; discriminate Hp]. }
  unfold encode_write. destruct (pr_writable p); [|done]. cbn [negb].
  destruct (pr_value_type p); try (destruct v; done);
    (destruct (if is_identity p then wide_integer v else None); [apply Hexact|apply Hscaled]).
Qed.

Lemma map_write_item_no_panic profile i item : map_write_item profile i item ≠ Panic.
Proof.
  apply outcome_bind_no_panic; [by destruct (profile_property _ _)|]. intros p _.
  destruct (pr_writable p); cbn [negb]; [|done].
  apply outcome_bind_no_panic; [apply map_err_no_panic, encode_write_no_panic|done].
Qed.

(** The items in order, or the error of the first one that is refused. *)
Lemma map_write_items_spec profile i l :
  match map_write_items profile i l with
  | Ok ds => length ds = length l ∧
      ∀ k item, l !! k = Some item →
        ∃ d, ds !! k = Some d ∧ map_write_item profile (i + Z.of_nat k) item = Ok d
  | Err e => ∃ k item, l !! k = Some item ∧ map_write_item profile (i + Z.of_nat k) item = Err e ∧
      ∀ k' item', (k' < k)%nat → l !! k' = Some item' →
        ∃ d, map_write_item profile (i + Z.of_nat k') item' = Ok d
  | Panic => False
  end.
Proof.
  revert i. induction l as [|x l IH]; intros i; cbn [map_write_items]; [by split|].
  pose proof (map_write_item_no_panic profile i x) as Hp.
  destruct (map_write_item profile i x) as [d|e|] eqn:E; [| |done]; cbn [outcome_bind].
  - specialize (IH (i + 1)). destruct (map_write_items profile (i + 1) l) as [ds|e|]; [| |done]; cbn.
    + destruct IH as [Hl Hd]. split; [by rewrite Hl|]. intros [|k] item Hk.
      * injection Hk as <-. exists d. split; [done|]. by rewrite Z.add_0_r.
      * destruct (Hd k item Hk) as (d' & ? & ?). exists d'. split; [done|].
        by replace (i + Z.of_nat (S k)) with (i + 1 + Z.of_nat k) by lia.
    + destruct IH as (k & item & Hk & He & Hbefore). exists (S k), item. split; [done|]. split.
      * by replace (i + Z.of_nat (S k)) with (i + 1 + Z.of_nat k) by lia.
      * intros [|k'] item' Hlt Hk'.
        { injection Hk' as <-. exists d. by rewrite Z.add_0_r. }
        replace (i + Z.of_nat (S k')) with (i + 1 + Z.of_nat k') by lia. apply Hbefore; [lia|done].
  - exists 0%nat, x. split; [done|]. rewrite Z.add_0_r. split; [done|]. intros ? ? ?. lia.
Qed.

(** A property write is mapped completely or refused as a whole.  When it is
    accepted, every item, in order, is a writable property of the profile and
    becomes a driver item with its index, its address and a raw value that fits
    the raw type; when it is refused, the error is that of the first item that
    cannot be written, or the request was empty. *)
Theorem write_request_mapped {Json} profile items :
  (∀ q, q ∈ dp_properties profile →
     property_wf q ∧ same_family (pr_raw_type q) (pr_value_type q) = true) →
  Forall (λ i, ∃ t, Value.has_type (wi_value i) t) items →
  match validate_property_write (Json := Json) profile items with
  | Ok op => ∃ ds, op = ValidatedOperation.Write ds (wi_path <$> items) ∧ items ≠ [] ∧
      length ds = length items ∧
      ∀ k item, items !! k = Some item → ∃ d p, ds !! k = Some d ∧
        profile_property profile (wi_path item) = Some p ∧ pr_writable p = true ∧
        dw_id d = Z.of_nat k ∧ dw_address d = pr_driver_address p ∧
        encode_write p (wi_value item) = Ok (dw_value d) ∧ raw_fits (pr_raw_type p) (dw_value d)
  | Err e => (items = [] ∧ e = ValidationError.EmptyWrite) ∨
      ∃ k item, items !! k = Some item ∧ map_write_item profile (Z.of_nat k) item = Err e ∧
        ∀ k' item', (k' < k)%nat → items !! k' = Some item' →
          ∃ d, map_write_item profile (Z.of_nat k') item' = Ok d
  | Panic => False
  end.
Proof.
  intros Hprof Hty. unfold validate_property_write. case_bool_decide as Hne; [by left|].
  pose proof (map_write_items_spec profile 0 items) as Hs.
  destruct (map_write_items profile 0 items) as [ds|e|]; cbn [outcome_bind]; [|by right|done].
  destruct Hs as [Hl Hd]. exists ds. split_and!; [done..|]. intros k item Hk.
  destruct (Hd k item Hk) as (d & Hdk & (p & Hp & Hw & Hid & Ha & He)%map_write_item_Ok).
  exists d, p. split_and!; try done.
  assert (p ∈ dp_properties profile) as [Hwf Hfam]%Hprof.
  { apply List.find_some in Hp as [Hp _]. by apply list_elem_of_In. }
  apply (proj1 (Forall_lookup _ _) Hty) in Hk as [t Ht].
  by destruct (encode_write_spec p _ t _ Hwf Hfam Ht He) as (_ & ? & _).
Qed.

(** ** Commands *)
Lemma first_duplicate_None seen l :
  first_duplicate seen l = None ↔
  NoDup (pa_name <$> l) ∧ ∀ p, p ∈ l → pa_name p ∉ seen.
Proof.
  revert seen. induction l as [|p l IH]; intros seen; cbn.
  { split; [|done]. intros _. split; [apply NoDup_nil_2|]. by intros ? ?%not_elem_of_nil. }
  case_bool_decide as Hs.
  - split; [done|]. intros [_ Hp]. by destruct (Hp p); [left|].
  - rewrite IH, NoDup_cons, list_elem_of_fmap. split.
    + intros [Hnd Hl]. split_and!; [|done|].
      * intros (q & Hq & Hin). apply (Hl q Hin). rewrite <- Hq. left.
      * intros q [->|Hin]%elem_of_cons; [done|]. intros ?. apply (Hl q Hin). by right.
    + intros [[Hp Hnd] Hl]. split; [done|]. intros q Hin [Hq|Hq]%elem_of_cons.
      * apply Hp. by exists q.
      * apply (Hl q); [by right|done].
Qed.

Lemma has_parameter_true l name : has_parameter l name = true ↔ name ∈ pa_name <$> l.
Proof.
  unfold has_parameter. rewrite existsb_exists, list_elem_of_fmap. split.
  - intros (p & Hp & <-%bool_decide_eq_true). exists p. split; [done|]. by apply list_elem_of_In.
  - intros (p & -> & Hp). exists p. split; [by apply list_elem_of_In|]. by apply bool_decide_eq_true.
Qed.

(** What a parameter that is accepted satisfies. *)
Record parameter_ok (descriptors : list CommandParameterDescriptor) (p : CommandParameter)
    (d : CommandParameterDescriptor) : Prop := {
  po_declared : find_descriptor descriptors (pa_name p) = Some d;
  po_finite : value_has_non_finite (pa_value p) = false;
  po_type : value_matches_type (pa_value p) (cp_data_type d) = true;
  po_representable : value_representable (pa_value p) (cp_data_type d) = true;
  po_range : param_within_range (pa_value p) (cp_min d) (cp_max d) = true;
}.

Lemma check_parameter_Ok command descriptors p :
  check_parameter command descriptors p = Ok () ↔ ∃ d, parameter_ok descriptors p d.
Proof.
  unfold check_parameter. destruct (find_descriptor _ _) as [d|] eqn:Ed; cbn [ok_or outcome_bind].
  - split.
    + intros H. exists d.
      destruct (value_has_non_finite _) eqn:E1; [discriminate|].
      destruct (value_matches_type _ _) eqn:E2; [|discriminate].
      destruct (value_representable _ _) eqn:E3; [|discriminate].
      destruct (param_within_range _ _ _) eqn:E4; [|discriminate]. by split.
    + intros (d' & [Hd -> Ht Hr Hw]). rewrite Ed in Hd. injection Hd as <-. by rewrite Ht, Hr, Hw.
  - split; [discriminate|]. intros (d & [Hd _ _ _ _]). by rewrite Ed in Hd.
Qed.

Lemma check_parameters_Ok command descriptors l :
  check_parameters command descriptors l = Ok () ↔
  ∀ p, p ∈ l → ∃ d, parameter_ok descriptors p d.
Proof.
  induction l as [|p l IH]; cbn [check_parameters].
  { split; [|done]. by intros _ ? ?%not_elem_of_nil. }
  split.
  - intros ([] & Hp%check_parameter_Ok & Hl)%outcome_bind_Ok_inv q [->|Hq]%elem_of_cons; [done|].
    by apply IH.
  - intros Hl. destruct (check_parameter_Ok command descriptors p) as [_ Hp].
    rewrite Hp by (apply Hl; left). apply IH. intros q Hq. apply Hl. by right.
Qed.

(** A command is accepted exactly when it is one of the profile's, its
    parameters have distinct names, every required one is given, and each is
    declared, finite, of the declared type, representable in it and within its
    bounds; it is then mapped to the driver's command with the parameters as
    payload, and carries the risk level and the preconditions of the profile. *)
Theorem command_request_iff {Json} `{!JsonValue Json} profile request op :
  validate_command (Json := Json) profile request = Ok op ↔
  ∃ c, find_command profile (co_command request) = Some c ∧
    NoDup (pa_name <$> co_parameters request) ∧
    (∀ d, d ∈ pcmd_parameters c → cp_required d = true → cp_name d ∈ pa_name <$> co_parameters request) ∧
    (∀ p, p ∈ co_parameters request → ∃ d, parameter_ok (pcmd_parameters c) p d) ∧
    op = ValidatedOperation.Execute
           {| dc_command_id := pcmd_driver_command_id c;
              dc_payload := json_object
                ((λ p, (pa_name p, value_to_json (pa_value p))) <$> co_parameters request) |}
           (pcmd_risk_level c) (pcmd_preconditions c).
Proof.
  unfold validate_command. destruct (find_command _ _) as [c|]; cbn [ok_or outcome_bind].
  2: { split; [discriminate|]. by intros (? & ? & _). }
  destruct (first_duplicate [] _) as [n|] eqn:Ef.
  { split; [discriminate|]. intros (? & _ & Hnd & _).
    enough (first_duplicate [] (co_parameters request) = None) by congruence.
    apply first_duplicate_None. split; [done|]. by intros ? _ ?%not_elem_of_nil. }
  apply first_duplicate_None in Ef as [Hnd _].
  destruct (List.find _ (pcmd_parameters c)) as [d|] eqn:Er.
  { apply List.find_some in Er as [Hd%list_elem_of_In [Hreq Hmiss]%andb_true_iff].
    split; [discriminate|]. intros (? & [= <-] & _ & Hall & _).
    apply Hall in Hd; [|done]. apply has_parameter_true in Hd. by rewrite Hd in Hmiss. }
  split.
  - intros ([] & Hp & [= <-])%outcome_bind_Ok_inv. rewrite check_parameters_Ok in Hp.
    exists c. split_and!; try done.
    intros d Hd%list_elem_of_In Hreq. apply has_parameter_true.
    pose proof (List.find_none _ _ Er d Hd) as Hn. cbn in Hn. rewrite Hreq in Hn.
    by destruct (has_parameter _ _).
  - intros (? & [= <-] & _ & _ & Hp & ->). rewrite (proj2 (check_parameters_Ok _ _ _) Hp). done.
Qed.

(** What the engine needs of validation. *)
Lemma validate_command_risk {Json} `{!JsonValue Json} profile request op :
  validate_command (Json := Json) profile request = Ok op →
  ∃ c, find_command profile (co_command request) = Some c ∧
    ∃ cmd pre, op = ValidatedOperation.Execute cmd (pcmd_risk_level c) pre.
Proof.
  unfold validate_command. destruct (find_command _ _) as [c|]; cbn [ok_or outcome_bind]; [|discriminate].
  destruct (first_duplicate [] _); [discriminate|]. destruct (List.find _ _); [discriminate|].
  intros (? & _ & [= <-])%outcome_bind_Ok_inv. eauto.
Qed.

Lemma check_parameters_no_panic command descriptors l : check_parameters command descriptors l ≠ Panic.
Proof.
  induction l as [|p l IH]; cbn [check_parameters]; [done|].
  apply outcome_bind_no_panic; [|done]. unfold check_parameter.
  apply outcome_bind_no_panic; [by destruct (find_descriptor _ _)|]. intros d _.
  destruct (value_has_non_finite _); [done|]. destruct (negb _); [done|]. destruct (negb _); [done|].
  by destruct (negb _).
Qed.

Lemma request_command_no_panic {Json} `{!JsonValue Json} profile request :
  validate_command (Json := Json) profile request ≠ Panic.
Proof.
  apply outcome_bind_no_panic; [by destruct (find_command _ _)|]. intros c _.
  destruct (first_duplicate [] _); [done|]. destruct (List.find _ _); [done|].
  apply outcome_bind_no_panic; [apply check_parameters_no_panic|done].
Qed.

Lemma validate_property_write_no_panic {Json} profile items :
  validate_property_write (Json := Json) profile items ≠ Panic.
Proof.
  unfold validate_property_write. case_bool_decide; [done|]. apply outcome_bind_no_panic; [|done].
  pose proof (map_write_items_spec profile 0 items) as Hs. by destruct (map_write_items profile 0 items).
Qed.

(** An integer parameter denotes an integer of its type, whatever variant
    carries it. *)
Lemma float_representable_integer r f :
  - 2 ^ 127 < r.1 → r.2 < 2 ^ 127 - 1 → float_representable r f = true →
  ∃ n, r.1 ≤ n ≤ r.2 ∧ f64_num f = n * f64_unit.
Proof.
  intros Hlo Hhi [[Hf _]%andb_true_iff Hr]%andb_true_iff.
  unfold f64_fract_is_zero in Hf. apply andb_true_iff in Hf as [Hfin Hmod%Z.eqb_eq].
  pose proof f64_unit_pos as Hu. apply Z.mod_divide in Hmod as [n Hn]; [|lia].
  exists n. split; [|done]. unfold in_range, f64_as_i128, f64_as_int, f64_trunc_Z in Hr.
  destruct (f64_finite_not f Hfin) as [Hnan _]. rewrite Hnan, Hn, Z.quot_mul in Hr by lia. lia.
Qed.

Lemma integer_parameter v t :
  is_integer_type t = true → value_matches_type v t = true → value_representable v t = true →
  ∃ lo hi n, integer_range t = Some (lo, hi) ∧ lo ≤ n ≤ hi ∧ value_num v = Some (n * f64_unit).
Proof.
  intros Hi Hm Hr.
  assert (∃ r, integer_range t = Some r ∧ - 2 ^ 127 < r.1 ∧ r.2 < 2 ^ 127 - 1) as ([lo hi] & Er & Hlo & Hhi).
  { destruct t; try discriminate Hi; eexists; (split; [reflexivity|]); cbn; lia. }
  assert (is_numeric_value v = true) as Hv.
  { destruct t; try discriminate Hi; destruct v; try discriminate Hm; done. }
  assert (scalar_representable v t = true) as Hs.
  { destruct t; try discriminate Hi; destruct v; try discriminate Hv; exact Hr. }
  assert (match integer_value_to_i128 v with
          | Some i => in_range (lo, hi) i
          | None => from_option (float_representable (lo, hi)) true (numeric_value_to_f64 v)
          end = true) as Hc.
  { unfold scalar_representable in Hs. rewrite Er in Hs. by destruct t; try discriminate Hi. }
  exists lo, hi. unfold value_num. destruct (integer_value_to_i128 v) as [x|].
  - exists x. split_and!; [done| | |done]; unfold in_range in Hc; cbn in Hc; lia.
  - destruct (numeric_value_to_f64 v) as [f|] eqn:Ef.
    + cbn [from_option] in Hc. destruct (float_representable_integer (lo, hi) f Hlo Hhi Hc) as (n & Hn & Hnum).
      exists n. split_and!; [done| | |]; [cbn in Hn; lia..|]. cbn. by rewrite Hnum.
    + by destruct v.
Qed.

Lemma within_min v b x m max :
  param_within_range v (Some b) max = true → integer_value_to_i128 v = Some x →
  integer_value_to_i128 b = Some m → m ≤ x.
Proof.
  intros [H _]%andb_true_iff Hx Hm. cbn in H. unfold param_below in H. rewrite Hx, Hm in H.
  apply negb_true_iff, orb_false_iff in H as [H _]. lia.
Qed.

Lemma within_max v b x m min :
  param_within_range v min (Some b) = true → integer_value_to_i128 v = Some x →
  integer_value_to_i128 b = Some m → x ≤ m.
Proof.
  intros [_ H]%andb_true_iff Hx Hm. cbn in H. unfold param_above in H. rewrite Hx, Hm in H.
  apply negb_true_iff, orb_false_iff in H as [H _]. lia.
Qed.

(** What the driver is sent fits.  In a command that was accepted, a
    parameter of an integer type denotes an integer within the range of that
    type, whichever numeric variant the caller used, and an integer that is
    compared with integer bounds lies between them, over all 64 bits. *)
Theorem command_integers_fit {Json} `{!JsonValue Json} profile request op p :
  validate_command (Json := Json) profile request = Ok op → p ∈ co_parameters request →
  ∃ c d, find_command profile (co_command request) = Some c ∧
    find_descriptor (pcmd_parameters c) (pa_name p) = Some d ∧
    (is_integer_type (cp_data_type d) = true →
       ∃ lo hi n, integer_range (cp_data_type d) = Some (lo, hi) ∧ lo ≤ n ≤ hi ∧
         value_num (pa_value p) = Some (n * f64_unit)) ∧
    (∀ x b m, integer_value_to_i128 (pa_value p) = Some x → integer_value_to_i128 b = Some m →
       (cp_min d = Some b → m ≤ x) ∧ (cp_max d = Some b → x ≤ m)).
Proof.
  unfold validate_command. destruct (find_command _ _) as [c|]; cbn [ok_or outcome_bind]; [|discriminate].
  destruct (first_duplicate [] _); [discriminate|].
  destruct (List.find _ (pcmd_parameters c)); [discriminate|].
  intros ([] & Hall & _)%outcome_bind_Ok_inv Hp. rewrite check_parameters_Ok in Hall.
  destruct (Hall p Hp) as (d & [Hd Hf Ht Hr Hw]).
  exists c, d. split_and!; [done..| |].
  - intros Hi. by apply integer_parameter.
  - intros x b m Hx Hm. split; intros Hb; rewrite Hb in Hw; [by eapply within_min|by eapply within_max].
Qed.

(** ** Tokens *)
Lemma diff_bytes_zero a b diff :
  length a = length b → diff_bytes a b diff = 0 ↔ diff = 0 ∧ a = b.
Proof.
  revert b diff. induction a as [|x a IH]; intros [|y b] diff Hl; try discriminate Hl; cbn.
  { naive_solver. }
  injection Hl as Hl. rewrite IH by done. rewrite Z.lor_eq_0_iff, Z.lxor_eq_0_iff. naive_solver.
Qed.

Lemma constant_time_eq_true a b : constant_time_eq a b = true ↔ a = b.
Proof.
  unfold constant_time_eq. destruct (Nat.eqb_spec (length a) (length b)) as [Hl|Hl]; cbn.
  - rewrite Z.eqb_eq, diff_bytes_zero by done. naive_solver.
  - split; [done|]. by intros ->.
Qed.

Lemma utf8_encode_inj s s' : Forall char_ok s → Forall char_ok s' → utf8_encode s = utf8_encode s' → s = s'.
Proof. intros Hs Hs' H. apply utf8_decode_encode in Hs, Hs'. congruence. Qed.

Lemma match_token_spec token l m e :
  match_token token l m = Some e →
  (e ∈ l ∧ utf8_encode (cd_token e) = token) ∨ m = Some e.
Proof.
  revert m. induction l as [|x l IH]; intros m H; cbn in H; [by right|].
  apply IH in H as [[Hin He]|H]; [left; split; [by right|done]|].
  destruct (constant_time_eq _ _) eqn:E; [|by right].
  injection H as ->. apply constant_time_eq_true in E. left. split; [left|done].
Qed.

Lemma match_token_some token l m :
  (∃ e, e ∈ l ∧ utf8_encode (cd_token e) = token) ∨ is_Some m → is_Some (match_token token l m).
Proof.
  revert m. induction l as [|x l IH]; intros m H; cbn.
  { destruct H as [(? & ?%not_elem_of_nil & _)|H]; done. }
  apply IH. destruct H as [(e & [->|Hin]%elem_of_cons & He)|H].
  - right. rewrite (proj2 (constant_time_eq_true _ _)) by done. done.
  - left. by exists e.
  - right. destruct (constant_time_eq _ _); done.
Qed.

(** What a loaded table satisfies. *)
Record credentials_ok (a : StaticTokenAuthorizer) (seen subjects : gset str) : Prop := {
  ck_tokens : NoDup (cd_token <$> ta_entries a);
  ck_subjects : NoDup (cd_subject <$> ta_entries a);
  ck_nonempty e : e ∈ ta_entries a → cd_token e ≠ [] ∧ cd_subject e ≠ [];
  ck_roles e : e ∈ ta_entries a → ta_roles a !! cd_subject e = Some (cd_role e);
  ck_known s r : ta_roles a !! s = Some r → ∃ e, e ∈ ta_entries a ∧ cd_subject e = s;
  ck_seen e : e ∈ ta_entries a → cd_token e ∈ seen ∧ cd_subject e ∈ subjects;
}.

Lemma NoDup_fmap_snoc {A B} (f : A → B) l x : NoDup (f <$> l) → (∀ y, y ∈ l → f y ≠ f x) → NoDup (f <$> l ++ [x]).
Proof.
  intros Hl Hx. rewrite fmap_app. apply NoDup_app. split_and!; [done| |apply NoDup_singleton].
  intros y (z & -> & Hz)%list_elem_of_fmap Hy%list_elem_of_singleton. by apply (Hx z).
Qed.

Lemma load_credentials_ok l seen subjects a b :
  credentials_ok a seen subjects → load_credentials l seen subjects a = Ok b →
  ta_entries b = ta_entries a ++ l ∧ ∃ seen' subjects', credentials_ok b seen' subjects'.
Proof.
  revert seen subjects a. induction l as [|e l IH]; intros seen subjects a Ha; cbn.
  { intros [= <-]. rewrite app_nil_r. eauto. }
  case_bool_decide as H1; [discriminate|]. case_bool_decide as H2; [discriminate|].
  case_bool_decide as H3; [discriminate|]. case_bool_decide as H4; [discriminate|].
  intros H. apply IH in H.
  { cbn in H. rewrite <- app_assoc in H. done. }
  destruct Ha as [Ht Hs Hn Hr Hk Hse]. split; cbn.
  - apply NoDup_fmap_snoc; [done|]. intros y [Hy _]%Hse. congruence.
  - apply NoDup_fmap_snoc; [done|]. intros y [_ Hy]%Hse. congruence.
  - intros y [Hy| ->%list_elem_of_singleton]%elem_of_app; [by apply Hn|done].
  - intros y [Hy| ->%list_elem_of_singleton]%elem_of_app; [|by rewrite lookup_insert_eq].
    rewrite lookup_insert_ne; [by apply Hr|]. apply Hse in Hy as [_ Hy]. congruence.
  - intros s r Hsr. destruct (decide (s = cd_subject e)) as [->|].
    + exists e. split; [|done]. apply elem_of_app. right. left.
    + rewrite lookup_insert_ne in Hsr by done. apply Hk in Hsr as (y & Hy & ?).
      exists y. split; [|done]. apply elem_of_app. by left.
  - intros y [Hy| ->%list_elem_of_singleton]%elem_of_app; [apply Hse in Hy|]; set_solver.
Qed.

Lemma from_file_loaded from_str mode content a file :
  from_file from_str mode (Some content) = Ok a → from_str content = Some file →
  ta_entries a = cf_credentials file ∧ ∃ seen subjects, credentials_ok a seen subjects.
Proof.
  intros (m & _ & H)%outcome_bind_Ok_inv Hfile. cbn zeta in H.
  destruct (negb _); [discriminate|]. cbn [ok_or outcome_bind] in H. unfold parse in H.
  rewrite Hfile in H. cbn [ok_or outcome_bind] in H. destruct (negb _); [discriminate|].
  apply load_credentials_ok in H; [exact H|].
  split; cbn; try (intros ? ?%not_elem_of_nil; done); try apply NoDup_nil_2. intros ? ?. by rewrite lookup_empty.
Qed.

(** C22: authentication is sound and gives away no rights.  For a credentials
    file that was accepted, a token is recognised exactly when the file lists
    it, with its own subject and role; the role the engine later looks up for
    that subject is that role, and not the one of another token; an operation
    is allowed exactly when the role is high enough; nothing recognises the
    empty token. *)
Theorem authenticate_sound from_str mode content a file token :
  from_file from_str mode (Some content) = Ok a → from_str content = Some file →
  Forall char_ok token → Forall (λ e, Forall char_ok (cd_token e)) (cf_credentials file) →
  (∀ subject role, authenticate a token = Some (subject, role) ↔
     mkCredentialEntry token subject role ∈ cf_credentials file) ∧
  (∀ subject role required device, authenticate a token = Some (subject, role) →
     authorize a subject required device = Ok () ↔ Role.rank required ≤ Role.rank role) ∧
  (token = [] → authenticate a token = None).
Proof.
  intros Hload Hfile Htok Hchars.
  destruct (from_file_loaded _ _ _ _ _ Hload Hfile) as [He (seen & subjects & [Ht Hs Hn Hr Hk _])].
  rewrite He in *.
  assert (∀ subject role, authenticate a token = Some (subject, role) →
    mkCredentialEntry token subject role ∈ cf_credentials file) as Hauth.
  { intros subject role ([t s r] & Hm & [= -> ->])%fmap_Some_1.
    apply match_token_spec in Hm as [[Hin Henc]|?]; [|done]. rewrite He in Hin. cbn in Henc.
    pose proof (proj1 (Forall_forall _ _) Hchars _ Hin) as Hc. cbn in Hc.
    by apply utf8_encode_inj in Henc as ->. }
  split_and!.
  - intros subject role. split; [apply Hauth|]. intros Hin.
    assert (is_Some (authenticate a token)) as [[s r] Hsr].
    { apply fmap_is_Some, match_token_some. left. rewrite He. by exists (mkCredentialEntry token subject role). }
    rewrite Hsr. apply Hauth in Hsr. clear Hauth.
    apply list_elem_of_lookup in Hin as [i Hi], Hsr as [j Hj].
    assert (i = j) as ->.
    { eapply NoDup_lookup; [exact Ht|rewrite list_lookup_fmap, Hi|rewrite list_lookup_fmap, Hj]; done. }
    congruence.
  - intros subject role required device Hsr%Hauth%Hr. cbn. unfold token_authorize, token_role_of.
    cbn in Hsr. rewrite Hsr. cbn. unfold role_ordering.
    destruct (Z.leb_spec (Role.rank required) (Role.rank role)); split; try done; lia.
  - intros ->. destruct (authenticate a []) as [[s r]|]; [|done].
    by destruct (Hn _ (Hauth s r eq_refl)) as [? _].
Qed.

(** The table looks a subject up again when an operation is authorized, and
    takes one it does not list for a viewer. *)
Theorem unlisted_is_viewer from_str mode content a file subject required device :
  from_file from_str mode (Some content) = Ok a → from_str content = Some file →
  subject ∉ cd_subject <$> cf_credentials file →
  authorize a subject required device = Ok () ↔ required = Role.Viewer.
Proof.
  intros Hload Hfile Hns. destruct (from_file_loaded _ _ _ _ _ Hload Hfile) as [He (seen & subjects & [_ _ _ _ Hk _])].
  cbn. unfold token_authorize, token_role_of. destruct (ta_roles a !! subject) as [r|] eqn:Er.
  { apply Hk in Er as (e & Hin & <-). destruct Hns. rewrite <- He. apply list_elem_of_fmap. by exists e. }
  by destruct required.
Qed.
