(* ===== verification/ControlSubmit.v ===== *)
(** * Submission of control requests (crates/control-engine/src/engine.rs)

    [submit] runs concurrently with itself: a submission registers its key in
    the table of active requests, records it in the journal, and either becomes
    the executor of the request, whose entry goes to the queue of its device,
    or answers from what others recorded.  Its pieces between two await points
    or lock acquisitions are the steps of a transition relation over all
    submissions; the settlement of entries by the workers (ControlQueue,
    ControlWorker) appears by its effects on the journal, the active table and
    the shared results.

    A shared result is named by the submission that created it, so that a
    submission is the creator of its entry in the active table exactly when the
    name it found there is its own.  The catalog, the authorizer and the hash
    of a payload are parameters. *)

From S2P Require Import Prelude RustStd ObservationModel ProfileModel.
From S2P Require Import ControlModel ControlJournal ControlQueue ControlValidate.
From stdpp Require Import options.

#[local] Set Default Proof Using "Type".

(** [DeviceInfo] (catalog.rs) *)
Record DeviceInfo : Type := mkDeviceInfo {
  di_enabled : bool;
  di_profile : DeviceProfile;
}.

Module SubmitError.
Inductive t (Json : Type) : Type :=
| Conflict (existing : JournalEntry Json)
| InvalidRequest (code : string)
| EngineClosed.
Arguments Conflict {Json}.
Arguments InvalidRequest {Json}.
Arguments EngineClosed {Json}.
End SubmitError.

Module CancelError.
Inductive t : Type := NotFound | EngineClosed | Unauthorized.
End CancelError.

Module StatusQuery.
Inductive t (Json : Type) : Type := Unknown | Running | Settled (r : ControlResult Json).
Arguments Unknown {Json}.
Arguments Running {Json}.
Arguments Settled {Json}.
End StatusQuery.

(** What [submit] returns: a receipt that is ready, one that waits for a
    shared result, or an error. *)
Inductive answer (Json : Type) : Type :=
| Ready (r : ControlResult Json)
| Pending (shared : nat)
| Failed (e : SubmitError.t Json).
Arguments Ready {Json}.
Arguments Pending {Json}.
Arguments Failed {Json}.

(** The checks before anything is recorded. *)
Inductive admission (Json : Type) : Type :=
| Refused (e : SubmitError.t Json)
| RejectedUnregistered (code : string)
| Passed (profile : DeviceProfile).
Arguments Refused {Json}.
Arguments RejectedUnregistered {Json}.
Arguments Passed {Json}.

(** Where a submission is. *)
Inductive spc (Json : Type) : Type :=
| PRegister (profile : DeviceProfile)                 (* admitted *)
| PInsert (profile : DeviceProfile)                   (* awaiting [insert_record] *)
| PRemove (a : answer Json)                           (* takes its key out of [active] *)
| PSet (r : ControlResult Json)                       (* writes its shared result, then removes *)
| POrphan (r : ControlResult Json)                    (* awaiting the settlement of an orphan *)
| PPrepare (profile : DeviceProfile)                  (* executor: validation, preconditions *)
| PQueue (op : ValidatedOperation.t Json CommandPrecondition)
| PPush (op : ValidatedOperation.t Json CommandPrecondition)
| PCheck                                              (* enqueued *)
| PSettle (r : ControlResult Json) (closed : bool)    (* awaiting [settle_record] *)
| PReplyRemove (r : ControlResult Json) (a : answer Json)
| PReplySet (r : ControlResult Json) (a : answer Json)
| PDone (a : answer Json)
| PPanicked.
Arguments PRegister {Json}.
Arguments PInsert {Json}.
Arguments PRemove {Json}.
Arguments PSet {Json}.
Arguments POrphan {Json}.
Arguments PPrepare {Json}.
Arguments PQueue {Json}.
Arguments PPush {Json}.
Arguments PCheck {Json}.
Arguments PSettle {Json}.
Arguments PReplyRemove {Json}.
Arguments PReplySet {Json}.
Arguments PDone {Json}.
Arguments PPanicked {Json}.

(** A call of [submit]; [su_shared] names the shared result it found in the
    active table or created there, [su_created] is the clock reading of the
    journal record, [su_inserted] the time at which the record was written. *)
Record Submission (Json : Type) : Type := mkSubmission {
  su_request : ControlRequest;
  su_subject : str;
  su_created : Z;
  su_shared : option nat;
  su_inserted : option Z;
  su_pc : spc Json;
}.
Arguments mkSubmission {Json}.
Arguments su_request {Json}.
Arguments su_subject {Json}.
Arguments su_created {Json}.
Arguments su_shared {Json}.
Arguments su_inserted {Json}.
Arguments su_pc {Json}.

(** The progress of a worker in [settle_entry]. *)
Inductive sphase : Type := SJournal | SRemove | SSet.

Record Settling (Json : Type) : Type := mkSettling {
  se_entry : QueuedEntry Json CommandPrecondition;
  se_result : ControlResult Json;
  se_phase : sphase;
}.
Arguments mkSettling {Json}.
Arguments se_entry {Json}.
Arguments se_result {Json}.
Arguments se_phase {Json}.

Record Engine (J Json : Type) : Type := mkEngine {
  eg_closed : bool;
  eg_now : Z;
  eg_active : gmap IdempotencyKey nat;
  eg_replies : gmap nat (ControlResult Json);
  eg_journal : J;
  eg_queues : gmap str (QueueInner Json CommandPrecondition);
  eg_submits : gmap nat (Submission Json);
  eg_accepted : list (QueuedEntry Json CommandPrecondition);
  eg_settling : list (Settling Json);
}.
Arguments mkEngine {J Json}.
Arguments eg_closed {J Json}.
Arguments eg_now {J Json}.
Arguments eg_active {J Json}.
Arguments eg_replies {J Json}.
Arguments eg_journal {J Json}.
Arguments eg_queues {J Json}.
Arguments eg_submits {J Json}.
Arguments eg_accepted {J Json}.
Arguments eg_settling {J Json}.

Section submit.
Context {J Json A : Type} `{!ControlJournal J Json} `{!JsonValue Json} `{!Authorizer A}.
Context (policy : ControlPolicy) (authorizer : A) (catalog : str → option DeviceInfo)
  (payload_hash : ControlOperation.t → str).
Abbreviation Entry := (QueuedEntry Json CommandPrecondition).
Abbreviation Queue := (QueueInner Json CommandPrecondition).
Abbreviation Result := (ControlResult Json).
Implicit Types (w : Engine J Json) (s : Submission Json) (q : ControlRequest).

(** ** Results *)
Definition rejected_result q (code : string) (now : Z) : Result :=
  {| res_request_id := rq_request_id q; res_namespace := rq_namespace q;
     res_device_id := rq_device_id q; res_status := ControlStatus.Rejected;
     res_started_at_ns := None; res_completed_at_ns := Some now; res_result := None;
     res_error := Some {| ce_code := code; ce_details := None |} |}.

Definition interrupted_result q (code : string) (now : Z) : Result :=
  {| res_request_id := rq_request_id q; res_namespace := rq_namespace q;
     res_device_id := rq_device_id q; res_status := ControlStatus.Indeterminate;
     res_started_at_ns := None; res_completed_at_ns := Some now; res_result := None;
     res_error := Some {| ce_code := code; ce_details := None |} |}.

Definition key_of q : IdempotencyKey :=
  {| ik_namespace := rq_namespace q; ik_device_id := rq_device_id q;
     ik_request_id := rq_request_id q |}.

(** ** Steps 1 to 4 *)
Definition required_for q : Role.t :=
  match rq_operation q with
  | ControlOperation.PropertyWrite _ => required_role policy OperationKind.PropertyWrite
  | ControlOperation.CommandExecute payload =>
      let risk :=
        match catalog (rq_device_id q) with
        | None => CommandRiskLevel.Critical
        | Some info =>
            match find_command (di_profile info) (co_command payload) with
            | Some c => pcmd_risk_level c
            | None => CommandRiskLevel.Critical
            end
        end in
      required_role policy (OperationKind.Command risk)
  end.

Definition entry_checks (closed : bool) (now : Z) q (subject : str) : admission Json :=
  let max_age_ms := wrap_signed 64 (max_request_age_ms policy) in
  if closed then Refused SubmitError.EngineClosed
  else if bool_decide (rq_request_id q = []) then
    Refused (SubmitError.InvalidRequest "EMPTY_REQUEST_ID")
  else if rq_timeout_ms q =? 0 then Refused (SubmitError.InvalidRequest "INVALID_TIMEOUT")
  else if max_age_ms <? Z.quot (sat64 (now - rq_requested_at_ns q)) 1000000 then
    Refused (SubmitError.InvalidRequest "REQUEST_TOO_OLD")
  else if max_age_ms <? Z.quot (sat64 (rq_requested_at_ns q - now)) 1000000 then
    Refused (SubmitError.InvalidRequest "REQUEST_TOO_NEW")
  else
    match authorize authorizer subject (required_for q) (rq_device_id q) with
    | Ok _ =>
        match catalog (rq_device_id q) with
        | None => RejectedUnregistered "DEVICE_NOT_FOUND"
        | Some info =>
            if negb (di_enabled info) then RejectedUnregistered "DEVICE_DISABLED"
            else Passed (di_profile info)
        end
    | _ => RejectedUnregistered "INSUFFICIENT_ROLE"
    end.

(** [now + idempotency_retention], saturating. *)
Definition expires_at (created : Z) : Z := sat64 (created + Z.min (2 ^ 63 - 1) (idempotency_retention policy)).

(** ** After the journal's decision *)
Definition after_insert (id : nat) s (profile : DeviceProfile) (now : Z)
    (o : outcome JournalError.t (JournalDecision.t Json)) : spc Json :=
  let fresh := bool_decide (su_shared s = Some id) in
  let q := su_request s in
  match o with
  | Ok (JournalDecision.Duplicate e) =>
      match je_result e with
      | Some r => if fresh then PRemove (Ready r) else PDone (Ready r)
      | None =>
          if bool_decide (je_status e = ControlStatus.Running) then
            if negb fresh then PDone (Pending (default id (su_shared s)))
            else PSet (interrupted_result q "EXECUTION_INTERRUPTED" now)
          else
            let r := interrupted_result q "EXECUTION_INTERRUPTED" now in
            if fresh then PSet r else PDone (Ready r)
      end
  | Ok (JournalDecision.Conflict e) =>
      if fresh then PRemove (Failed (SubmitError.Conflict e)) else PDone (Failed (SubmitError.Conflict e))
  | Ok JournalDecision.Inserted =>
      if negb fresh then POrphan (rejected_result q "IDEMPOTENCY_RACE" now) else PPrepare profile
  | Err _ | Panic =>
      let r := rejected_result q "JOURNAL_UNAVAILABLE" now in
      if fresh then PSettle r false else PDone (Ready r)
  end.

(** ** Step 6: validation, and preconditions ([check] is the checker's answer) *)
Definition prepare (profile : DeviceProfile) q (check : CheckOutcome.t) :
    outcome string (ValidatedOperation.t Json CommandPrecondition) :=
  match rq_operation q with
  | ControlOperation.PropertyWrite items =>
      map_err ValidationError.code (validate_property_write profile items)
  | ControlOperation.CommandExecute payload =>
      let? op := map_err ValidationError.code (validate_command profile payload) in
      match op with
      | ValidatedOperation.Write _ _ => Panic
      | ValidatedOperation.Execute _ _ [] => Ok op
      | ValidatedOperation.Execute _ _ _ =>
          if negb (precondition_checker policy) then Err "PRECONDITION_UNCONFIGURED"%string
          else
            match check with
            | CheckOutcome.TimedOut => Err "PRECONDITION_TIMEOUT"%string
            | CheckOutcome.Failed => Err "PRECONDITION_FAILED"%string
            | CheckOutcome.Passed => Ok op
            end
      end
  end.

Definition make_entry (id : nat) q (op : ValidatedOperation.t Json CommandPrecondition)
    (instant now : Z) : Entry :=
  {| qe_key := key_of q; qe_operation := op;
     qe_deadline := instant + effective_timeout_ms policy (ValidatedOperation.kind op) (rq_timeout_ms q);
     qe_cancel := id; qe_reply := id; qe_queued_at_ns := now |}.

Definition get_or_create_queue (device : str) w : Queue :=
  default (queue_new (queue_capacity policy)) (eg_queues w !! device).

(** ** State updates *)
Definition set_submit (id : nat) s w : Engine J Json :=
  {| eg_closed := eg_closed w; eg_now := eg_now w; eg_active := eg_active w;
     eg_replies := eg_replies w; eg_journal := eg_journal w; eg_queues := eg_queues w;
     eg_submits := <[id := s]> (eg_submits w); eg_accepted := eg_accepted w;
     eg_settling := eg_settling w |}.

Definition at_pc (pc : spc Json) s : Submission Json :=
  {| su_request := su_request s; su_subject := su_subject s; su_created := su_created s;
     su_shared := su_shared s; su_inserted := su_inserted s; su_pc := pc |}.

Definition set_active (f : gmap IdempotencyKey nat → gmap IdempotencyKey nat) w : Engine J Json :=
  {| eg_closed := eg_closed w; eg_now := eg_now w; eg_active := f (eg_active w);
     eg_replies := eg_replies w; eg_journal := eg_journal w; eg_queues := eg_queues w;
     eg_submits := eg_submits w; eg_accepted := eg_accepted w; eg_settling := eg_settling w |}.

Definition set_reply (id : nat) (r : Result) w : Engine J Json :=
  {| eg_closed := eg_closed w; eg_now := eg_now w; eg_active := eg_active w;
     eg_replies := <[id := r]> (eg_replies w); eg_journal := eg_journal w; eg_queues := eg_queues w;
     eg_submits := eg_submits w; eg_accepted := eg_accepted w; eg_settling := eg_settling w |}.

Definition set_journal (j : J) w : Engine J Json :=
  {| eg_closed := eg_closed w; eg_now := eg_now w; eg_active := eg_active w;
     eg_replies := eg_replies w; eg_journal := j; eg_queues := eg_queues w;
     eg_submits := eg_submits w; eg_accepted := eg_accepted w; eg_settling := eg_settling w |}.

Definition set_queues (qs : gmap str Queue) w : Engine J Json :=
  {| eg_closed := eg_closed w; eg_now := eg_now w; eg_active := eg_active w;
     eg_replies := eg_replies w; eg_journal := eg_journal w; eg_queues := qs;
     eg_submits := eg_submits w; eg_accepted := eg_accepted w; eg_settling := eg_settling w |}.

Definition set_settling (l : list (Settling Json)) w : Engine J Json :=
  {| eg_closed := eg_closed w; eg_now := eg_now w; eg_active := eg_active w;
     eg_replies := eg_replies w; eg_journal := eg_journal w; eg_queues := eg_queues w;
     eg_submits := eg_submits w; eg_accepted := eg_accepted w; eg_settling := l |}.

(** ** The critical sections of a submission *)
Definition begin_submit (id : nat) q (subject : str) w : Engine J Json :=
  set_submit id
    {| su_request := q; su_subject := subject; su_created := eg_now w; su_shared := None;
       su_inserted := None;
       su_pc := match entry_checks (eg_closed w) (eg_now w) q subject with
                | Refused e => PDone (Failed e)
                | RejectedUnregistered code => PDone (Ready (rejected_result q code (eg_now w)))
                | Passed profile => PRegister profile
                end |} w.

(** [active.entry(key)] *)
Definition registered_as (profile : DeviceProfile) (shared : nat) s : Submission Json :=
  {| su_request := su_request s; su_subject := su_subject s; su_created := su_created s;
     su_shared := Some shared; su_inserted := su_inserted s; su_pc := PInsert profile |}.

Definition register_active (id : nat) s (profile : DeviceProfile) w : Engine J Json :=
  match eg_active w !! key_of (su_request s) with
  | Some shared => set_submit id (registered_as profile shared s) w
  | None =>
      set_submit id (registered_as profile id s) (set_active <[key_of (su_request s) := id]> w)
  end.

Definition insert_record (fault : option nat) (id : nat) s (profile : DeviceProfile) w : Engine J Json :=
  let '(j, o) := j_try_insert fault (key_of (su_request s)) (payload_hash (rq_operation (su_request s)))
                   (su_created s) (expires_at (su_created s)) (eg_journal w) in
  set_submit id
    {| su_request := su_request s; su_subject := su_subject s; su_created := su_created s;
       su_shared := su_shared s;
       su_inserted := match o with Ok JournalDecision.Inserted => Some (eg_now w) | _ => None end;
       su_pc := after_insert id s profile (eg_now w) o |} (set_journal j w).

Definition remove_active (id : nat) s (pc : spc Json) w : Engine J Json :=
  set_submit id (at_pc pc s) (set_active (delete (key_of (su_request s))) w).

(** [settle_record] of [reject_orphan_record], [reject_with_shared] and the
    closed queue; on an error the first two report an indeterminate result. *)
Definition settle_own (fault : option nat) s (r : Result) w : Engine J Json * bool :=
  let '(j, o) := j_settle fault (key_of (su_request s)) r (eg_journal w) in
  (set_journal j w, match o with Ok _ => true | _ => false end).

Definition prepare_step (id : nat) s (profile : DeviceProfile) (check : CheckOutcome.t) w : Engine J Json :=
  set_submit id
    (at_pc match prepare profile (su_request s) check with
           | Ok op => PQueue op
           | Err code => PSettle (rejected_result (su_request s) code (eg_now w)) false
           | Panic => PPanicked
           end s) w.

(** [get_or_create_queue] and [in_cooldown]; .. *)
Definition queue_step (id : nat) s (op : ValidatedOperation.t Json CommandPrecondition) (instant : Z) w :
    Engine J Json :=
  let device := rq_device_id (su_request s) in
  let queue := get_or_create_queue device w in
  set_submit id
    (at_pc (if in_cooldown instant queue
            then PSettle (rejected_result (su_request s) "DEVICE_COOLDOWN" (eg_now w)) false
            else PPush op) s)
    (set_queues (<[device := queue]> (eg_queues w)) w).

(** .. and [enqueue]. *)
Definition push_step (id : nat) s (op : ValidatedOperation.t Json CommandPrecondition) (instant : Z) w :
    Engine J Json :=
  let device := rq_device_id (su_request s) in
  let entry := make_entry id (su_request s) op instant (eg_now w) in
  match enqueue policy (eg_closed w) entry (get_or_create_queue device w) with
  | (queue, Ok _) =>
      let w := set_submit id (at_pc PCheck s) (set_queues (<[device := queue]> (eg_queues w)) w) in
      {| eg_closed := eg_closed w; eg_now := eg_now w; eg_active := eg_active w;
         eg_replies := eg_replies w; eg_journal := eg_journal w; eg_queues := eg_queues w;
         eg_submits := eg_submits w; eg_accepted := eg_accepted w ++ [entry];
         eg_settling := eg_settling w |}
  | (_, Err (EnqueueError.Full _)) =>
      set_submit id (at_pc (PSettle (rejected_result (su_request s) "QUEUE_FULL" (eg_now w)) false) s) w
  | (_, _) =>
      set_submit id (at_pc (PSettle (interrupted_result (su_request s) "QUEUE_CLOSED" (eg_now w)) true) s) w
  end.

(** ** The transition relation *)
Inductive step : Engine J Json → Engine J Json → Prop :=
| step_tick w t :
    eg_now w ≤ t →
    step w {| eg_closed := eg_closed w; eg_now := t; eg_active := eg_active w;
              eg_replies := eg_replies w; eg_journal := eg_journal w; eg_queues := eg_queues w;
              eg_submits := eg_submits w; eg_accepted := eg_accepted w; eg_settling := eg_settling w |}
| step_close w :                       (* [shutdown] *)
    step w {| eg_closed := true; eg_now := eg_now w; eg_active := eg_active w;
              eg_replies := eg_replies w; eg_journal := eg_journal w; eg_queues := ∅;
              eg_submits := eg_submits w; eg_accepted := eg_accepted w; eg_settling := eg_settling w |}
| step_workers w qs : step w (set_queues qs w)        (* the workers change their queues *)
| step_purge w fault : step w (set_journal (j_purge_expired fault (eg_now w) (eg_journal w)).1 w)
| step_submit w id q subject : eg_submits w !! id = None → step w (begin_submit id q subject w)
| step_register w id s profile :
    eg_submits w !! id = Some s → su_pc s = PRegister profile → step w (register_active id s profile w)
| step_insert w fault id s profile :
    eg_submits w !! id = Some s → su_pc s = PInsert profile →
    step w (insert_record fault id s profile w)
| step_remove w id s a :
    eg_submits w !! id = Some s → su_pc s = PRemove a → step w (remove_active id s (PDone a) w)
| step_set w id s r :
    eg_submits w !! id = Some s → su_pc s = PSet r →
    step w (set_submit id (at_pc (PRemove (Ready r)) s) (set_reply id r w))
| step_orphan w fault id s r w' ok :
    eg_submits w !! id = Some s → su_pc s = POrphan r → settle_own fault s r w = (w', ok) →
    step w (set_submit id (at_pc (PDone (Ready (settle_journal ok r))) s) w')
| step_prepare w id s profile check :
    eg_submits w !! id = Some s → su_pc s = PPrepare profile → step w (prepare_step id s profile check w)
| step_queue w id s op instant :
    eg_submits w !! id = Some s → su_pc s = PQueue op → step w (queue_step id s op instant w)
| step_push w id s op instant :
    eg_submits w !! id = Some s → su_pc s = PPush op → step w (push_step id s op instant w)
| step_check w id s :
    eg_submits w !! id = Some s → su_pc s = PCheck →
    step w (set_submit id (at_pc (if bool_decide (is_Some (eg_replies w !! id)) then PRemove (Pending id)
                                  else PDone (Pending id)) s) w)
| step_settle w fault id s r (closed : bool) w' ok :
    eg_submits w !! id = Some s → su_pc s = PSettle r closed → settle_own fault s r w = (w', ok) →
    let r' := if closed then r else settle_journal ok r in
    step w (set_submit id
      (at_pc (PReplyRemove r' (if closed then Failed SubmitError.EngineClosed else Ready r')) s) w')
| step_reply_remove w id s r a :
    eg_submits w !! id = Some s → su_pc s = PReplyRemove r a →
    step w (remove_active id s (PReplySet r a) w)
| step_reply_set w id s r a :
    eg_submits w !! id = Some s → su_pc s = PReplySet r a →
    step w (set_submit id (at_pc (PDone a) s) (set_reply id r w))
(* a worker settles an entry that is not answered, and can be stopped *)
| step_work w e run completed :
    e ∈ eg_accepted w → eg_replies w !! qe_reply e = None →
    step w (set_settling (eg_settling w ++ [mkSettling e (settle_result e run completed) SJournal]) w)
| step_work_journal w l l' e r fault j o :
    eg_settling w = l ++ mkSettling e r SJournal :: l' → j_settle fault (qe_key e) r (eg_journal w) = (j, o) →
    step w (set_settling (l ++ mkSettling e (settle_journal match o with Ok _ => true | _ => false end r) SRemove :: l')
              (set_journal j w))
| step_work_skip w l l' e r :
    eg_settling w = l ++ mkSettling e r SJournal :: l' →
    step w (set_settling (l ++ mkSettling e r SRemove :: l') w)
| step_work_remove w l l' e r :
    eg_settling w = l ++ mkSettling e r SRemove :: l' →
    step w (set_settling (l ++ mkSettling e r SSet :: l') (set_active (delete (qe_key e)) w))
| step_work_set w l l' e r :
    eg_settling w = l ++ mkSettling e r SSet :: l' →
    step w (set_settling (l ++ l') (set_reply (qe_reply e) r w))
| step_work_stop w l l' x :
    eg_settling w = l ++ x :: l' → step w (set_settling (l ++ l') w).

Definition engine_new (now : Z) (j : J) : Engine J Json :=
  {| eg_closed := false; eg_now := now; eg_active := ∅; eg_replies := ∅; eg_journal := j;
     eg_queues := ∅; eg_submits := ∅; eg_accepted := []; eg_settling := [] |}.

Definition reaches (j : J) w : Prop := ∃ now, rtc step (engine_new now j) w.

(** ** Cancellation and status *)
Definition cancel_request (key : IdempotencyKey) (subject : str) (tokens : gset nat) w :
    gset nat * outcome CancelError.t () :=
  if eg_closed w then (tokens, Err CancelError.EngineClosed)
  else
    match eg_queues w !! ik_device_id key with
    | None => (tokens, Err CancelError.NotFound)
    | Some queue =>
        match peek_kind key queue with
        | None => (tokens, Err CancelError.NotFound)
        | Some kind =>
            match authorize authorizer subject (required_role policy kind) (ik_device_id key) with
            | Ok _ =>
                match cancel key queue tokens with
                | (tokens', CancelOutcome.Marked) => (tokens', Ok ())
                | (tokens', CancelOutcome.NotFound) => (tokens', Err CancelError.NotFound)
                | (tokens', CancelOutcome.Closed) => (tokens', Err CancelError.EngineClosed)
                end
            | _ => (tokens, Err CancelError.Unauthorized)
            end
        end
    end.

Definition status (fault : CompactFault.t) (key : IdempotencyKey) (subject : str) w :
    Engine J Json * option (StatusQuery.t Json) :=
  match authorize authorizer subject (control_status_required_role policy) (ik_device_id key) with
  | Ok _ =>
      let w := set_journal (j_purge_expired fault (eg_now w) (eg_journal w)).1 w in
      (w, Some match j_get key (eg_journal w) with
               | Some e => match je_result e with
                           | Some r => StatusQuery.Settled r
                           | None => StatusQuery.Running
                           end
               | None => if bool_decide (is_Some (eg_active w !! key)) then StatusQuery.Running
                         else StatusQuery.Unknown
               end)
  | _ => (w, None)
  end.
End submit.
