(* ===== verification/ControlSubmitLaws.v ===== *)
(** * Laws of concurrent submission

    What a journal promises to the engine ([JournalLaws], discharged by both
    journals), and the invariant of all runs of concurrent submissions. *)

From S2P Require Import Prelude RustStd ObservationModel ProfileModel ProfileConvert ProfileLaws.
From S2P Require Import ControlModel ControlJournal ControlQueue ControlValidate ControlValidateLaws ControlSubmit.
From stdpp Require Import options.

#[local] Set Default Proof Using "Type".

(** ** What the engine relies on *)
Class JournalLaws (J Json : Type) `{!ControlJournal J Json} : Prop := {
  jl_insert fault k h c x j j' (o : outcome JournalError.t (JournalDecision.t Json)) :
    j_try_insert fault k h c x j = (j', o) →
    match o with
    | Ok JournalDecision.Inserted =>
        (∀ e, j_get k j = Some e → je_expires_at_ns e < c) ∧
        (∀ k', j_get k' j' = if decide (k' = k) then Some (new_entry k h c x) else j_get k' j)
    | Ok (JournalDecision.Duplicate e) =>
        (∀ k', j_get k' j' = j_get k' j) ∧ j_get k j = Some e ∧ je_payload_hash e = h
    | Ok (JournalDecision.Conflict e) =>
        (∀ k', j_get k' j' = j_get k' j) ∧ j_get k j = Some e ∧ je_payload_hash e ≠ h
    | Err _ => ∀ k', j_get k' j' = j_get k' j
    | Panic => False
    end;
  jl_settle fault k r j j' o :
    j_settle fault k r j = (j', o) →
    match o with
    | Ok _ => ∀ k', j_get k' j' = if decide (k' = k) then set_settled r <$> j_get k j else j_get k' j
    | Err _ => ∀ k', j_get k' j' = j_get k' j
    | Panic => False
    end;
  jl_purge fault now j k :
    j_get k (j_purge_expired fault now j).1 =
      (e ← j_get k j; if decide (now ≤ je_expires_at_ns e) then Some e else None);
}.

Section journals.
Context {Json : Type}.

Lemma decide_existing_Some (m : gmap IdempotencyKey (JournalEntry Json)) k h c d :
  decide_existing m k h c = Some d →
  match d with
  | JournalDecision.Inserted => False
  | JournalDecision.Duplicate e => m !! k = Some e ∧ je_payload_hash e = h
  | JournalDecision.Conflict e => m !! k = Some e ∧ je_payload_hash e ≠ h
  end.
Proof.
  unfold decide_existing. destruct (m !! k) as [e|]; [|done]. case_if; [|done].
  case_bool_decide; by intros [= <-].
Qed.

Lemma decide_existing_None (m : gmap IdempotencyKey (JournalEntry Json)) k h c :
  decide_existing m k h c = None → ∀ e, m !! k = Some e → je_expires_at_ns e < c.
Proof.
  unfold decide_existing. intros H e He. rewrite He in H.
  destruct (Z.leb_spec c (je_expires_at_ns e)); [by case_bool_decide|lia].
Qed.

Lemma lookup_retain_live now (m : gmap IdempotencyKey (JournalEntry Json)) k :
  retain_live now m !! k = (e ← m !! k; if decide (now ≤ je_expires_at_ns e) then Some e else None).
Proof.
  apply option_eq. intros e. unfold retain_live. rewrite map_lookup_filter_Some, bind_Some. unfold live. cbn. split.
  - intros [Hm Hl]. exists e. by rewrite decide_True.
  - intros (e' & Hm & He). case_decide; [|done]. by injection He as <-.
Qed.

#[global] Instance in_memory_journal_laws :
  JournalLaws (gmap IdempotencyKey (JournalEntry Json)) Json.
Proof.
  split.
  - intros fault k h c x j j' o. cbn. unfold mem_try_insert.
    destruct (decide_existing _ _ _ _) as [d|] eqn:E; intros [= <- <-].
    + apply decide_existing_Some in E. by destruct d.
    + split; [by eapply decide_existing_None|]. intros k'. unfold mem_get.
      case_decide; simplify_eq; [by rewrite lookup_insert_eq|by rewrite lookup_insert_ne].
  - intros fault k r j j' o. cbn. unfold mem_settle, mem_get. destruct (j !! k) as [e|] eqn:E; intros [= <- <-] k'.
    + case_decide; simplify_eq; [by rewrite lookup_insert_eq|by rewrite lookup_insert_ne].
    + case_decide; simplify_eq; by rewrite ?E.
  - intros fault now j k. cbn. apply lookup_retain_live.
Qed.

Context `{!RecordCodec Json} `{!HashOrder Json}.

Lemma write_record_entries fault record (j j' : FileJournal Json) o :
  write_record fault record j = (j', o) → fj_entries j' = fj_entries j ∧ o ≠ Panic.
Proof. unfold write_record. by destruct (to_line record), fault; intros [= <- <-]. Qed.

#[global] Instance file_journal_laws : JournalLaws (FileJournal Json) Json.
Proof.
  split.
  - intros fault k h c x j j' o. cbn [j_try_insert file_journal]. unfold file_try_insert, sbind, sget.
    destruct (decide_existing _ _ _ _) as [d|] eqn:E.
    { intros [= <- <-]. apply decide_existing_Some in E. by destruct d. }
    destruct (write_record _ _ j) as [j1 [[]|e|]] eqn:Ew; apply write_record_entries in Ew as [Hj Hp]; cbn.
    + intros [= <- <-]. cbn. split; [by eapply decide_existing_None|]. intros k'. unfold file_get. cbn.
      rewrite Hj. case_decide; simplify_eq; [by rewrite lookup_insert_eq|by rewrite lookup_insert_ne].
    + intros [= <- <-]. intros k'. cbn. unfold file_get. by rewrite Hj.
    + done.
  - intros fault k r j j' o. cbn [j_settle file_journal]. unfold file_settle, sbind, sget.
    destruct (fj_entries j !! k) as [e|] eqn:E.
    + destruct (write_record _ _ j) as [j1 [[]|x|]] eqn:Ew; apply write_record_entries in Ew as [Hj Hp]; cbn.
      * intros [= <- <-] k'. cbn. unfold file_get. cbn. rewrite Hj, E.
        case_decide; simplify_eq; [by rewrite lookup_insert_eq|by rewrite lookup_insert_ne].
      * intros [= <- <-] k'. cbn. unfold file_get. by rewrite Hj.
      * done.
    + intros [= <- <-] k'. cbn. unfold file_get. case_decide; simplify_eq; by rewrite ?E.
  - intros fault now j k. cbn. unfold file_get, file_purge_expired. cbn.
    assert (∀ j1 : FileJournal Json, fj_entries (compact fault now j1).1 = fj_entries j1) as Hc.
    { intros j1. unfold compact. cbn zeta. by destruct (render _), fault. }
    case_if; rewrite ?Hc; apply lookup_retain_live.
Qed.
End journals.

(** ** The invariant of runs *)
Section runs.
Context {J Json A : Type} `{!ControlJournal J Json} `{!JournalLaws J Json} `{!JsonValue Json} `{!Authorizer A}.
Context (policy : ControlPolicy) (authorizer : A) (catalog : str → option DeviceInfo)
  (payload_hash : ControlOperation.t → str).
Abbreviation Entry := (QueuedEntry Json CommandPrecondition).
Abbreviation Op := (ValidatedOperation.t Json CommandPrecondition).
Abbreviation step := (ControlSubmit.step policy authorizer catalog payload_hash).
Abbreviation reaches := (ControlSubmit.reaches policy authorizer catalog payload_hash).
Implicit Types (w : Engine J Json) (s : Submission Json) (e : Entry).

(** The checks before registration were passed. *)
Definition admitted s (profile : DeviceProfile) : Prop :=
  ∃ info, catalog (rq_device_id (su_request s)) = Some info ∧ di_enabled info = true ∧
    di_profile info = profile ∧
    authorize authorizer (su_subject s) (required_for policy catalog (su_request s))
      (rq_device_id (su_request s)) = Ok ().

(** The subject may run the operation on the device. *)
Definition cleared s (op : Op) : Prop :=
  authorize authorizer (su_subject s) (required_role policy (ValidatedOperation.kind op))
    (rq_device_id (su_request s)) = Ok ().

Definition enqueued w (id : nat) : Prop := ∃ e, e ∈ eg_accepted w ∧ qe_reply e = id.

Definition answered w (id : nat) : Prop := is_Some (eg_replies w !! id).

(** Another submission of the same request registered the shared result. *)
Definition shares w s (x : nat) : Prop :=
  ∃ sx, eg_submits w !! x = Some sx ∧ key_of (su_request sx) = key_of (su_request s) ∧
    su_shared sx = Some x.

(** The record of a submission is in the journal until it expires. *)
Definition recorded w s : Prop :=
  expires_at policy (su_created s) < eg_now w ∨
  ∃ x, j_get (key_of (su_request s)) (eg_journal w) = Some x ∧
    je_expires_at_ns x = expires_at policy (su_created s).

Definition answer_ok w (id : nat) s (a : answer Json) : Prop :=
  match a with
  | Ready _ => True
  | Pending x => (x = id ∧ enqueued w id) ∨ (x ≠ id ∧ shares w s x)
  | Failed (SubmitError.Conflict _) => True
  | Failed (SubmitError.InvalidRequest _) => su_shared s = None
  | Failed SubmitError.EngineClosed => su_shared s = None ∨ answered w id
  end.

Definition executor s : Prop := is_Some (su_inserted s).

Definition pc_ok w (id : nat) s : Prop :=
  match su_pc s with
  | PRegister profile => admitted s profile ∧ su_shared s = None ∧ su_inserted s = None
  | PInsert profile => admitted s profile ∧ (∃ x, su_shared s = Some x ∧ shares w s x) ∧
                       su_inserted s = None
  | PPrepare profile => admitted s profile ∧ executor s ∧ su_shared s = Some id
  | PQueue op | PPush op => cleared s op ∧ executor s ∧ su_shared s = Some id
  | PCheck => enqueued w id ∧ su_shared s = Some id
  | PSet _ | PSettle _ _ => su_shared s = Some id
  | PReplyRemove _ a | PReplySet _ a =>
      su_shared s = Some id ∧ match a with Ready _ | Failed SubmitError.EngineClosed => True | _ => False end
  | PRemove a => su_shared s = Some id ∧ answer_ok w id s a ∧ a ≠ Failed SubmitError.EngineClosed
  | PDone a => answer_ok w id s a
  | POrphan _ => True
  | PPanicked => False
  end.

Record sub_ok w (id : nat) s : Prop := {
  so_created : su_created s ≤ eg_now w;
  so_inserted t : su_inserted s = Some t → t ≤ eg_now w ∧ recorded w s;
  so_pc : pc_ok w id s;
}.

Definition acc_ok w e : Prop :=
  ∃ s, eg_submits w !! qe_reply e = Some s ∧ qe_key e = key_of (su_request s) ∧
    executor s ∧ cleared s (qe_operation e) ∧
    match su_pc s with PPrepare _ | PQueue _ | PPush _ => False | _ => True end.

Record engine_ok w : Prop := {
  eo_sub id s : eg_submits w !! id = Some s → sub_ok w id s;
  eo_once id1 id2 s1 s2 t1 t2 :
    eg_submits w !! id1 = Some s1 → eg_submits w !! id2 = Some s2 → id1 ≠ id2 →
    key_of (su_request s1) = key_of (su_request s2) →
    su_inserted s1 = Some t1 → su_inserted s2 = Some t2 →
    expires_at policy (su_created s1) < t2 ∨ expires_at policy (su_created s2) < t1;
  eo_accepted e : e ∈ eg_accepted w → acc_ok w e;
  eo_replies : NoDup (qe_reply <$> eg_accepted w);
  eo_settling x : x ∈ eg_settling w → se_entry x ∈ eg_accepted w;
  eo_active k x : eg_active w !! k = Some x →
    ∃ sx, eg_submits w !! x = Some sx ∧ key_of (su_request sx) = k ∧ su_shared sx = Some x;
}.

(** ** What every step preserves *)
Definition same_call s s' : Prop :=
  su_request s' = su_request s ∧ su_subject s' = su_subject s ∧ su_created s' = su_created s ∧
  (∀ x, su_shared s = Some x → su_shared s' = Some x) ∧
  (∀ t, su_inserted s = Some t → su_inserted s' = Some t).

Record extends w w' : Prop := {
  ex_now : eg_now w ≤ eg_now w';
  ex_replies id : answered w id → answered w' id;
  ex_accepted e : e ∈ eg_accepted w → e ∈ eg_accepted w';
  ex_submits id s : eg_submits w !! id = Some s → ∃ s', eg_submits w' !! id = Some s' ∧ same_call s s';
  ex_journal k x : j_get k (eg_journal w) = Some x →
    je_expires_at_ns x < eg_now w' ∨
    ∃ x', j_get k (eg_journal w') = Some x' ∧ je_expires_at_ns x' = je_expires_at_ns x;
}.

Lemma same_call_refl s : same_call s s.
Proof. by split_and!. Qed.

Lemma extends_refl w : extends w w.
Proof. split; eauto using same_call_refl. lia. Qed.

Lemma shares_mono w w' s x : extends w w' → shares w s x → shares w' s x.
Proof.
  intros Hx (sx & Hsx & Hk & Hs). destruct (ex_submits _ _ Hx _ _ Hsx) as (sx' & ? & Hr & _ & _ & Hsh & _).
  exists sx'. rewrite Hr. auto.
Qed.

Lemma enqueued_mono w w' id : extends w w' → enqueued w id → enqueued w' id.
Proof. intros Hx (e & He & <-). exists e. split; [by eapply ex_accepted|done]. Qed.

Lemma recorded_mono w w' s : extends w w' → recorded w s → recorded w' s.
Proof.
  intros Hx [Hr|(x & Hg & He)]; [left; pose proof (ex_now _ _ Hx); lia|].
  destruct (ex_journal _ _ Hx _ _ Hg) as [?|(x' & ? & ?)]; [left; lia|]. right. exists x'. split; [done|lia].
Qed.

Lemma answer_mono w w' id s a : extends w w' → answer_ok w id s a → answer_ok w' id s a.
Proof.
  intros Hx. destruct a as [r|x|[]]; cbn; try done.
  - intros [[-> ?]|[? ?]]; [left|right]; eauto using enqueued_mono, shares_mono.
  - intros [?|?]; [by left|right; by eapply ex_replies].
Qed.

Lemma sub_mono w w' id s : extends w w' → sub_ok w id s → sub_ok w' id s.
Proof.
  intros Hx [Hc Hi Hp]. pose proof (ex_now _ _ Hx). split.
  - lia.
  - intros t [? ?]%Hi. split; [lia|by eapply recorded_mono].
  - revert Hp. unfold pc_ok. destruct (su_pc s); try done.
    + intros (? & (x & ? & ?) & ?). split_and!; [done| |done]. exists x. eauto using shares_mono.
    + intros (? & ? & ?). eauto using answer_mono.
    + intros (? & ?). eauto using enqueued_mono.
    + by apply answer_mono.
Qed.

(** A step that leaves the submissions alone. *)
Lemma quiet_ok w w' :
  engine_ok w → extends w w' → eg_submits w' = eg_submits w → eg_accepted w' = eg_accepted w →
  (∀ k x, eg_active w' !! k = Some x → eg_active w !! k = Some x) →
  (∀ x, x ∈ eg_settling w' → se_entry x ∈ eg_accepted w) → engine_ok w'.
Proof.
  intros [Hs Ho Ha Hn Hse Hact] Hx Hsub Hacc Hactive Hsett. split.
  - intros id s. rewrite Hsub. eauto using sub_mono.
  - intros *. rewrite Hsub. eauto.
  - intros e. rewrite Hacc. unfold acc_ok. rewrite Hsub. apply Ha.
  - by rewrite Hacc.
  - intros x. rewrite Hacc. auto.
  - intros k x ?%Hactive. rewrite Hsub. auto.
Qed.

(** What a step does to the record of its submission: nothing, or it inserts
    it, when the record of every other submission of the key has expired. *)
Definition inserts w w' (id : nat) s s' : Prop :=
  su_inserted s' = su_inserted s ∨
  (su_inserted s = None ∧ su_inserted s' = Some (eg_now w') ∧ recorded w' s' ∧
   ∀ id2 s2, id2 ≠ id → eg_submits w !! id2 = Some s2 →
     key_of (su_request s2) = key_of (su_request s) → executor s2 →
     expires_at policy (su_created s2) < eg_now w').

(** A step of one submission that does not enqueue. *)
Lemma move_ok w w' id s s' :
  engine_ok w → extends w w' → eg_submits w !! id = Some s → eg_submits w' = <[id := s']> (eg_submits w) →
  same_call s s' → inserts w w' id s s' →
  match su_pc s' with PPrepare _ | PQueue _ | PPush _ => ¬ enqueued w id | _ => True end →
  pc_ok w' id s' → eg_accepted w' = eg_accepted w → eg_settling w' = eg_settling w →
  (∀ k x, eg_active w' !! k = Some x → eg_active w !! k = Some x ∨
     (x = id ∧ k = key_of (su_request s') ∧ su_shared s' = Some id)) → engine_ok w'.
Proof.
  intros [Hs Ho Ha Hn Hse Hact] Hx Hid Hsub Hsame Hins Hpc' Hp Hacc Hset Hactive.
  pose proof Hsame as (Hr & Hsu & Hc & Hsh & Hkeep). split.
  - intros id1 s1. rewrite Hsub, lookup_insert_Some. intros [[<- <-]|[? ?]]; [|eauto using sub_mono].
    destruct (sub_mono _ _ _ _ Hx (Hs _ _ Hid)) as [Hc0 Hi0 _]. split; [by rewrite Hc| |done].
    intros t Ht. destruct Hins as [Hins|(_ & Hins & Hrec & _)].
    + rewrite Hins in Ht. apply Hi0 in Ht as [? Hrec]. split; [done|]. unfold recorded in *. by rewrite Hr, Hc.
    + rewrite Hins in Ht. injection Ht as <-. split; [lia|done].
  - intros id1 id2 s1 s2 t1 t2. rewrite !Hsub, !lookup_insert_Some.
    intros [[<- <-]|[? H1]] [[<- <-]|[? H2]] Hne; try done; rewrite ?Hr, ?Hc; intros Hk Hi1 Hi2; [| |by eapply Ho].
    + destruct Hins as [Hins|(_ & Hins & _ & Hold)]; [rewrite Hins in Hi1; by eapply Ho|].
      right. rewrite Hins in Hi1. injection Hi1 as <-. by apply (Hold id2 s2); [..|by exists t2].
    + destruct Hins as [Hins|(_ & Hins & _ & Hold)]; [rewrite Hins in Hi2; by eapply Ho|].
      left. rewrite Hins in Hi2. injection Hi2 as <-. by apply (Hold id1 s1); [..|by exists t1].
  - intros e. rewrite Hacc. intros He. destruct (Ha e He) as (s0 & H0 & Hk & [t Hex] & Hcl & Hm). unfold acc_ok. rewrite Hsub.
    destruct (decide (qe_reply e = id)) as [Heq|Hne].
    + rewrite Heq in *. exists s'. rewrite lookup_insert_eq. assert (s0 = s) as -> by congruence.
      split_and!; [done|by rewrite Hr| | |].
      * exists t. by apply Hkeep.
      * unfold cleared. by rewrite Hsu, Hr.
      * destruct (su_pc s'); try done; destruct Hpc'; by exists e.
    + exists s0. rewrite lookup_insert_ne by done. split_and!; [done..|by exists t|done|done].
  - by rewrite Hacc.
  - intros x. rewrite Hset, Hacc. apply Hse.
  - intros k x. intros [Hk|(-> & -> & Hsx)]%Hactive.
    + destruct (Hact _ _ Hk) as (sx & Hsx & Hkx & Hshx). rewrite Hsub. destruct (decide (x = id)) as [->|].
      * assert (sx = s) as -> by congruence. exists s'. rewrite lookup_insert_eq, Hr. auto.
      * exists sx. by rewrite lookup_insert_ne.
    + exists s'. by rewrite Hsub, lookup_insert_eq.
Qed.

(** How the updates extend a state. *)
Definition journal_kept w w' : Prop := ∀ k x, j_get k (eg_journal w) = Some x →
  je_expires_at_ns x < eg_now w' ∨
  ∃ x', j_get k (eg_journal w') = Some x' ∧ je_expires_at_ns x' = je_expires_at_ns x.

Lemma journal_same w w' :
  (∀ k, j_get k (eg_journal w') = j_get k (eg_journal w)) → journal_kept w w'.
Proof. intros H k x Hx. right. exists x. by rewrite H. Qed.

Lemma journal_settle fault k r w w' o :
  j_settle fault k r (eg_journal w) = (eg_journal w', o) → journal_kept w w'.
Proof using JournalLaws0.
  intros H%jl_settle. destruct o as [[]|e|]; [|by apply journal_same|done].
  intros k' x Hx. right. rewrite H. case_decide; simplify_eq; [|by exists x].
  rewrite Hx. cbn. by exists (set_settled r x).
Qed.

Lemma extends_move w w' id s s' :
  eg_submits w !! id = Some s → eg_submits w' = <[id := s']> (eg_submits w) → same_call s s' →
  eg_now w' = eg_now w → (∀ x, answered w x → answered w' x) → eg_accepted w' = eg_accepted w →
  journal_kept w w' → extends w w'.
Proof.
  intros Hid Hsub Hsame Hnow Hrep Hacc Hj. split; [lia|done| | |done].
  - intros e. by rewrite Hacc.
  - intros id' s0 H0. rewrite Hsub. destruct (decide (id' = id)) as [->|].
    + exists s'. rewrite lookup_insert_eq. assert (s0 = s) as -> by congruence. done.
    + exists s0. rewrite lookup_insert_ne by done. auto using same_call_refl.
Qed.

Lemma at_pc_same pc s : same_call s (at_pc pc s).
Proof. by split_and!. Qed.

(** The common case: the journal may have settled a record, replies grow, and
    the key of the submission may have left the active table. *)
Lemma advance_ok w w' id s pc :
  engine_ok w → eg_submits w !! id = Some s → eg_submits w' = <[id := at_pc pc s]> (eg_submits w) →
  eg_now w' = eg_now w → (∀ x, answered w x → answered w' x) → eg_accepted w' = eg_accepted w →
  eg_settling w' = eg_settling w → eg_active w' ⊆ eg_active w → journal_kept w w' →
  match pc with PPrepare _ | PQueue _ | PPush _ => ¬ enqueued w id | _ => True end →
  (extends w w' → pc_ok w' id (at_pc pc s)) → engine_ok w'.
Proof.
  intros Hw Hid Hsub Hnow Hrep Hacc Hset Hact Hj Hpc Hp.
  assert (extends w w') as Hx by (eapply extends_move; eauto using at_pc_same).
  refine (move_ok w w' id s (at_pc pc s) Hw Hx Hid Hsub (at_pc_same _ _) (or_introl eq_refl) Hpc
    (Hp Hx) Hacc Hset _).
  intros k x Hk. left. by eapply lookup_weaken.
Qed.

(** Applies [advance_ok]; leaves what is not immediate. *)
Local Ltac advance w id s :=
  eapply (advance_ok w _ id s); [eassumption|eassumption|reflexivity|..]; try done.

Lemma not_enqueued w id s :
  engine_ok w → eg_submits w !! id = Some s →
  match su_pc s with PPrepare _ | PQueue _ | PPush _ => True | _ => False end → ¬ enqueued w id.
Proof.
  intros Hw Hid Hpc (e & He & <-). destruct (eo_accepted _ Hw e He) as (s0 & H0 & _ & _ & _ & Hm).
  assert (s0 = s) as -> by congruence. by destruct (su_pc s).
Qed.

(** ** Each step *)
Lemma prepare_cleared s profile check op :
  admitted s profile → prepare policy profile (su_request s) check = Ok op → cleared s op.
Proof.
  intros (info & Hcat & _ & Hprof & Hauth). unfold prepare, cleared, required_for in *.
  destruct (rq_operation (su_request s)) as [items|payload].
  - destruct (validate_property_write profile items) as [o| |] eqn:E; cbn; [|done|done].
    intros [= ->]. unfold validate_property_write in E. case_bool_decide; [done|].
    apply outcome_bind_Ok_inv in E as (ds & _ & [= <-]). exact Hauth.
  - intros (o & Ho & Hk)%outcome_bind_Ok_inv.
    destruct (validate_command profile payload) as [o'| |] eqn:E; cbn in Ho; [|done|done]. injection Ho as ->.
    apply validate_command_risk in E as (c & Hc & cmd & pre & ->).
    assert (op = ValidatedOperation.Execute cmd (pcmd_risk_level c) pre) as ->.
    { destruct pre; [by injection Hk|]. destruct (negb _); [done|]. destruct check; try done. by injection Hk. }
    cbn [ValidatedOperation.kind]. by rewrite Hcat, Hprof, Hc in Hauth.
Qed.

Lemma prepare_no_panic profile q check : prepare (Json := Json) policy profile q check ≠ Panic.
Proof.
  unfold prepare. destruct (rq_operation q) as [items|payload].
  - apply map_err_no_panic, validate_property_write_no_panic.
  - apply outcome_bind_no_panic; [apply map_err_no_panic, request_command_no_panic|]. intros o Ho.
    destruct (validate_command profile payload) as [o'| |] eqn:E; cbn in Ho; [|done|done]. injection Ho as ->.
    apply validate_command_risk in E as (c & _ & cmd & pre & ->).
    destruct pre; [done|]. destruct (negb _); [done|]. by destruct check.
Qed.

Lemma begin_ok w id q subject :
  engine_ok w → eg_submits w !! id = None → engine_ok (begin_submit policy authorizer catalog id q subject w).
Proof.
  intros [Hs Ho Ha Hn Hse Hact] Hid. unfold begin_submit. set (s0 := mkSubmission _ _ _ _ _ _).
  assert (extends w (set_submit id s0 w)) as Hx.
  { split; [cbn; lia|done..| |].
    - intros id' s H'. exists s. cbn. split; [|apply same_call_refl]. rewrite lookup_insert_ne; [done|congruence].
    - intros k x Hk. right. by exists x. }
  split; cbn.
  - intros id' s. rewrite lookup_insert_Some. intros [[<- <-]|[? ?]]; [|eauto using sub_mono].
    split; [cbn; lia|done|]. unfold s0, pc_ok, entry_checks. cbn -[required_for]. repeat case_if; cbn; auto.
    destruct (authorize _ _ _ _) as [[]|e|] eqn:Eauth; cbn; auto.
    destruct (catalog _) as [info|] eqn:Ecat; cbn; auto. destruct (di_enabled info) eqn:Een; cbn; auto.
    split_and!; [|done..]. by exists info.
  - intros id1 id2 s1 s2 t1 t2. rewrite !lookup_insert_Some. intros [[<- <-]|[? ?]] [[<- <-]|[? ?]]; try done. by apply Ho.
  - intros e He. destruct (Ha e He) as (s & ? & ?). exists s. cbn. rewrite lookup_insert_ne; [done|congruence].
  - done.
  - apply Hse.
  - intros k x (sx & ? & ?)%Hact. exists sx. rewrite lookup_insert_ne; [done|congruence].
Qed.

Lemma register_ok w id s profile :
  engine_ok w → eg_submits w !! id = Some s → su_pc s = PRegister profile →
  engine_ok (register_active id s profile w).
Proof.
  intros Hw Hid Hpc. pose proof (so_pc _ _ _ (eo_sub _ Hw _ _ Hid)) as Hp. unfold pc_ok in Hp. rewrite Hpc in Hp.
  destruct Hp as (Had & Hsh & Hins). unfold register_active.
  set (s' x := registered_as profile x s).
  assert (∀ x, same_call s (s' x)) as Hsame by (intros x; split_and!; cbn; congruence).
  destruct (eg_active w !! _) as [x|] eqn:Ea.
  - destruct (eo_active _ Hw _ _ Ea) as (sx & Hx & Hk & Hshx).
    assert (x ≠ id) by congruence.
    assert (extends w (set_submit id (s' x) w)) as Hx'.
    { apply (extends_move w _ id s (s' x)); try done. by apply journal_same. }
    refine (move_ok w _ id s (s' x) Hw Hx' Hid eq_refl (Hsame x) (or_introl eq_refl) I _ eq_refl eq_refl _).
    + split_and!; [done| |done]. exists x. split; [done|]. exists sx. cbn. by rewrite lookup_insert_ne.
    + cbn. intros k y. by left.
  - match goal with |- engine_ok ?v => set (w' := v) end.
    assert (extends w w') as Hx'.
    { apply (extends_move w _ id s (s' id)); try done. by apply journal_same. }
    refine (move_ok w w' id s (s' id) Hw Hx' Hid eq_refl (Hsame id) (or_introl eq_refl) I _ eq_refl eq_refl _).
    + split_and!; [done| |done]. exists id. split; [done|]. exists (s' id). cbn. by rewrite lookup_insert_eq.
    + cbn. intros k y. rewrite lookup_insert_Some. intros [[<- <-]|[? ?]]; [by right|by left].
Qed.

(** The decision of the journal. *)
Lemma after_insert_ok w' id s s' profile now o x :
  admitted s profile → su_shared s = Some x → shares w' s x → same_call s s' →
  su_pc s' = after_insert id s profile now o →
  (o = Ok JournalDecision.Inserted → executor s') → pc_ok w' id s'.
Proof.
  intros Had Hsh Hshare (Hr & Hsu & _ & Hkeep & _) Hpc Hex. unfold pc_ok. rewrite Hpc. unfold after_insert. cbn zeta.
  pose proof (Hkeep _ Hsh) as Hsh'. rewrite Hsh. unfold admitted in *. rewrite Hr, Hsu.
  assert (x ≠ id → shares w' s' x) as Hshare' by (intros _; unfold shares in *; by rewrite Hr).
  case_bool_decide as Hf.
  - injection Hf as ->. destruct o as [[|e|e]|e|]; cbn [negb]; [| | | |].
    + split_and!; [done|by apply Hex|done].
    + destruct (je_result e); [by split_and!|]. by case_bool_decide.
    + by split_and!.
    + done.
    + done.
  - assert (x ≠ id) as Hne by congruence. destruct o as [[|e|e]|e|]; cbn [negb]; try done.
    destruct (je_result e); [done|]. case_bool_decide; [|done]. cbn. right. auto.
Qed.

Lemma insert_ok w fault id s profile :
  engine_ok w → eg_submits w !! id = Some s → su_pc s = PInsert profile →
  engine_ok (insert_record policy payload_hash fault id s profile w).
Proof using JournalLaws0.
  intros Hw Hid Hpc. pose proof (eo_sub _ Hw _ _ Hid) as [Hc _ Hp]. unfold pc_ok in Hp. rewrite Hpc in Hp.
  destruct Hp as (Had & (x & Hsh & Hshare) & Hins). unfold insert_record.
  destruct (j_try_insert _ _ _ _ _ _) as [j o] eqn:Ej. apply jl_insert in Ej.
  set (s' := mkSubmission _ _ _ _ _ _). set (w' := set_submit id s' _).
  assert (same_call s s') as Hsame by (split_and!; cbn; congruence).
  assert (journal_kept w w') as Hj.
  { destruct o as [[|e|e]|e|]; [|apply journal_same; apply Ej..|done]. destruct Ej as [Hold Hnew].
    intros k y Hy. cbn. rewrite Hnew. case_decide as Hk; [|right; by exists y].
    left. subst k. apply Hold in Hy. lia. }
  assert (extends w w') as Hx by (apply (extends_move w w' id s s'); done).
  assert (pc_ok w' id s') as Hp'.
  { apply (after_insert_ok w' id s s' profile (eg_now w) o x); try done.
    - by eapply shares_mono.
    - intros ->. by exists (eg_now w). }
  refine (move_ok w w' id s s' Hw Hx Hid eq_refl Hsame _ _ Hp' eq_refl eq_refl _).
  - unfold inserts. destruct o as [[|e|e]|e|]; cbn; rewrite ?Hins; try by left. right. destruct Ej as [Hold Hnew].
    split_and!; [done..| |].
    + right. exists (new_entry (key_of (su_request s)) (payload_hash (rq_operation (su_request s)))
                      (su_created s) (expires_at policy (su_created s))). cbn. by rewrite Hnew, decide_True.
    + intros id2 s2 Hne H2 Hk [t2 Ht2]. destruct (so_inserted _ _ _ (eo_sub _ Hw _ _ H2) _ Ht2) as [_ [?|(y & Hy & He)]]; [done|].
      rewrite Hk in Hy. apply Hold in Hy. lia.
  - assert (¬ enqueued w id) as Hnot.
    { intros (e & He & <-). destruct (eo_accepted _ Hw e He) as (s0 & H0 & _ & [t Ht] & _).
      assert (s0 = s) as -> by congruence. congruence. }
    by destruct (su_pc s').
  - cbn. by left.
Qed.

(** Every step keeps the invariant. *)
Lemma answered_insert w w' id r x :
  eg_replies w' = <[id := r]> (eg_replies w) → answered w x → answered w' x.
Proof.
  unfold answered. intros -> Hx. destruct (decide (x = id)) as [->|];
    [rewrite lookup_insert_eq; eauto|by rewrite lookup_insert_ne].
Qed.

Lemma set_submit_twice id s w x : eg_submits (set_submit id s w) !! x = <[id := s]> (eg_submits w) !! x.
Proof. done. Qed.

Lemma push_ok w id s op instant :
  engine_ok w → eg_submits w !! id = Some s → su_pc s = PPush op → engine_ok (push_step policy id s op instant w).
Proof.
  intros Hw Hid Hpc. pose proof (eo_sub _ Hw _ _ Hid) as [Hc Hi Hp]. unfold pc_ok in Hp. rewrite Hpc in Hp.
  destruct Hp as (Hcl & Hex & Hsh).
  assert (¬ enqueued w id) as Hnot by (eapply not_enqueued; [done..|by rewrite Hpc]).
  unfold push_step. cbn zeta. destruct (enqueue _ _ _ _) as [queue [[]|[]|]].
  2-4: advance w id s; by apply journal_same.
  set (e := make_entry policy id (su_request s) op instant (eg_now w)).
  match goal with |- engine_ok ?v => set (w' := v) end.
  assert (extends w w') as Hx.
  { split; [cbn; lia|done| | |].
    - intros e' He'. apply elem_of_app. by left.
    - intros id' s0 H0. cbn. destruct (decide (id' = id)) as [->|].
      + exists (at_pc PCheck s). rewrite lookup_insert_eq. assert (s0 = s) as -> by congruence.
        split; [done|apply at_pc_same].
      + exists s0. rewrite lookup_insert_ne by done. auto using same_call_refl.
    - intros k y Hy. right. by exists y. }
  destruct Hw as [Hs Ho Ha Hn Hse Hact]. split.
  - intros id' s0. cbn. rewrite lookup_insert_Some. intros [[<- <-]|[? ?]]; [|eauto using sub_mono].
    destruct (sub_mono _ _ _ _ Hx (Hs _ _ Hid)) as [Hc' Hi' _]. split; [done|exact Hi'|]. split; [|done].
    exists e. split; [|done]. apply elem_of_app. right. left.
  - intros id1 id2 s1 s2 t1 t2. cbn. rewrite !lookup_insert_Some.
    intros [[<- <-]|[? ?]] [[<- <-]|[? ?]]; try done; cbn; by apply Ho.
  - intros e' [He'| ->%list_elem_of_singleton]%elem_of_app.
    + destruct (Ha e' He') as (s0 & H0 & Hrest). exists s0. cbn. rewrite lookup_insert_ne; [done|].
      intros Heq. apply Hnot. by exists e'.
    + exists (at_pc PCheck s). cbn. by rewrite lookup_insert_eq.
  - cbn. apply NoDup_fmap_snoc; [done|]. intros e' He' Heq. apply Hnot. exists e'. split; [done|exact Heq].
  - intros y Hy. apply elem_of_app. left. by apply Hse.
  - intros k y (sy & Hy & Hk & Hshy)%Hact. cbn. destruct (decide (y = id)) as [->|].
    + exists (at_pc PCheck s). rewrite lookup_insert_eq. assert (sy = s) as -> by congruence. done.
    + exists sy. by rewrite lookup_insert_ne.
Qed.

Lemma settle_own_ok w fault s r w' ok :
  settle_own fault s r w = (w', ok) → ∃ j, w' = set_journal j w ∧ journal_kept w w'.
Proof using JournalLaws0.
  unfold settle_own. destruct (j_settle _ _ _ _) as [j o] eqn:Ej. intros [= <- _]. exists j. split; [done|].
  by eapply journal_settle.
Qed.

(** What the program counter of a submission says. *)
Lemma submit_pc w id s pc :
  engine_ok w → eg_submits w !! id = Some s → su_pc s = pc → pc_ok w id (at_pc pc s).
Proof.
  intros Hw Hid Hpc. pose proof (so_pc _ _ _ (eo_sub _ Hw _ _ Hid)) as Hp. unfold pc_ok in *. rewrite Hpc in Hp. exact Hp.
Qed.

Lemma remove_ok w id s a :
  engine_ok w → eg_submits w !! id = Some s → su_pc s = PRemove a → engine_ok (remove_active id s (PDone a) w).
Proof.
  intros Hw Hid Hpc. destruct (submit_pc _ _ _ _ Hw Hid Hpc) as (Hsh & Ha & _).
  advance w id s; [apply delete_subseteq|by apply journal_same|]. intros Hx. by eapply answer_mono.
Qed.

Lemma set_ok w id s r :
  engine_ok w → eg_submits w !! id = Some s → su_pc s = PSet r →
  engine_ok (set_submit id (at_pc (PRemove (Ready r)) s) (set_reply id r w)).
Proof.
  intros Hw Hid Hpc. pose proof (submit_pc _ _ _ _ Hw Hid Hpc) as Hsh.
  advance w id s; [intros ?; by eapply answered_insert|by apply journal_same].
Qed.

Lemma orphan_ok w fault id s r w' ok :
  engine_ok w → eg_submits w !! id = Some s → su_pc s = POrphan r → settle_own fault s r w = (w', ok) →
  engine_ok (set_submit id (at_pc (PDone (Ready (settle_journal ok r))) s) w').
Proof using JournalLaws0.
  intros Hw Hid Hpc (j & -> & Hj)%settle_own_ok. advance w id s.
Qed.

Lemma prepare_ok w id s profile check :
  engine_ok w → eg_submits w !! id = Some s → su_pc s = PPrepare profile →
  engine_ok (prepare_step policy id s profile check w).
Proof.
  intros Hw Hid Hpc. destruct (submit_pc _ _ _ _ Hw Hid Hpc) as (Had & Hex & Hsh).
  advance w id s; [by apply journal_same| |].
  - destruct (prepare _ _ _ _); try done. eapply not_enqueued; [done..|by rewrite Hpc].
  - intros _. pose proof (prepare_no_panic profile (su_request s) check) as Hnp. unfold pc_ok. cbn.
    destruct (prepare policy profile (su_request s) check) as [op| |] eqn:E; [|done|done].
    split_and!; [|done..]. by eapply prepare_cleared.
Qed.

Lemma queue_ok w id s op instant :
  engine_ok w → eg_submits w !! id = Some s → su_pc s = PQueue op → engine_ok (queue_step policy id s op instant w).
Proof.
  intros Hw Hid Hpc. destruct (submit_pc _ _ _ _ Hw Hid Hpc) as (Hcl & Hex & Hsh).
  advance w id s; [by apply journal_same| |].
  - destruct (in_cooldown _ _); [done|]. eapply not_enqueued; [done..|by rewrite Hpc].
  - intros _. unfold pc_ok. cbn. by destruct (in_cooldown _ _).
Qed.

Lemma check_ok w id s :
  engine_ok w → eg_submits w !! id = Some s → su_pc s = PCheck →
  engine_ok (set_submit id (at_pc (if bool_decide (is_Some (eg_replies w !! id)) then PRemove (Pending id)
                                   else PDone (Pending id)) s) w).
Proof.
  intros Hw Hid Hpc. destruct (submit_pc _ _ _ _ Hw Hid Hpc) as (He & Hsh).
  advance w id s; [by apply journal_same|by case_bool_decide|].
  intros Hx. unfold pc_ok. cbn. pose proof (enqueued_mono _ _ _ Hx He).
  case_bool_decide; cbn; [split_and!; [done| |done]|]; by left.
Qed.

Lemma settle_step_ok w fault id s r (closed : bool) w' ok :
  engine_ok w → eg_submits w !! id = Some s → su_pc s = PSettle r closed → settle_own fault s r w = (w', ok) →
  let r' := if closed then r else settle_journal ok r in
  engine_ok (set_submit id
    (at_pc (PReplyRemove r' (if closed then Failed SubmitError.EngineClosed else Ready r')) s) w').
Proof using JournalLaws0.
  intros Hw Hid Hpc (j & -> & Hj)%settle_own_ok r'. pose proof (submit_pc _ _ _ _ Hw Hid Hpc) as Hsh.
  advance w id s. intros _. split; [done|]. by destruct closed.
Qed.

Lemma reply_remove_ok w id s r a :
  engine_ok w → eg_submits w !! id = Some s → su_pc s = PReplyRemove r a →
  engine_ok (remove_active id s (PReplySet r a) w).
Proof.
  intros Hw Hid Hpc. destruct (submit_pc _ _ _ _ Hw Hid Hpc) as (Hsh & Ha).
  advance w id s; [apply delete_subseteq|by apply journal_same].
Qed.

Lemma reply_set_ok w id s r a :
  engine_ok w → eg_submits w !! id = Some s → su_pc s = PReplySet r a →
  engine_ok (set_submit id (at_pc (PDone a) s) (set_reply id r w)).
Proof.
  intros Hw Hid Hpc. destruct (submit_pc _ _ _ _ Hw Hid Hpc) as (Hsh & Ha).
  advance w id s; [intros ?; by eapply answered_insert|by apply journal_same|].
  intros _. unfold pc_ok. cbn. destruct a as [|?|[]]; try done. cbn. right. unfold answered. cbn.
  rewrite lookup_insert_eq. eauto.
Qed.

(** The workers and the environment leave the submissions alone. *)
Lemma extends_quiet w w' :
  eg_submits w' = eg_submits w → eg_accepted w' = eg_accepted w → eg_now w ≤ eg_now w' →
  (∀ x, answered w x → answered w' x) → journal_kept w w' → extends w w'.
Proof.
  intros Hs Ha Hn Hr Hj. split; [done|done| | |done].
  - by rewrite Ha.
  - intros id s. rewrite Hs. eauto using same_call_refl.
Qed.

Lemma settling_mid w l l' x y :
  engine_ok w → eg_settling w = l ++ x :: l' → y ∈ l ++ l' ∨ se_entry y = se_entry x → se_entry y ∈ eg_accepted w.
Proof using JournalLaws0.
  intros Hw Hl. assert (∀ z, z ∈ l ++ x :: l' → se_entry z ∈ eg_accepted w) as Hin.
  { intros z Hz. apply (eo_settling _ Hw). by rewrite Hl. }
  intros [Hy| ->]; apply Hin; set_solver.
Qed.

Lemma engine_step_ok w w' : engine_ok w → step w w' → engine_ok w'.
Proof using JournalLaws0.
  intros Hw Hst. destruct Hst; eauto using begin_ok, register_ok, insert_ok, remove_ok, set_ok, orphan_ok, prepare_ok,
    queue_ok, push_ok, check_ok, settle_step_ok, reply_remove_ok, reply_set_ok.
  all: apply (quiet_ok w); try done; try (by apply (eo_settling _ Hw));
    try (apply extends_quiet; try done; by apply journal_same).
  - apply extends_quiet; try done. intros k x Hx. cbn. rewrite jl_purge, Hx. cbn.
    case_decide; [right; by exists x|left; lia].
  - intros x [Hx| ->%list_elem_of_singleton]%elem_of_app; [by apply (eo_settling _ Hw)|done].
  - apply extends_quiet; try done. by eapply journal_settle.
  - intros x Hx. eapply settling_mid; [done..|]. set_unfold. naive_solver.
  - intros x Hx. eapply settling_mid; [done..|]. set_unfold. naive_solver.
  - intros k x. cbn. rewrite lookup_delete_Some. naive_solver.
  - intros x Hx. eapply settling_mid; [done..|]. set_unfold. naive_solver.
  - apply extends_quiet; try done; [intros ?; by eapply answered_insert|by apply journal_same].
  - intros x Hx. eapply settling_mid; [done..|]. set_unfold. naive_solver.
  - intros y Hx. eapply settling_mid; [done..|]. set_unfold. naive_solver.
Qed.

Lemma engine_reaches_ok j w : reaches j w → engine_ok w.
Proof using JournalLaws0.
  intros [now Hr]. assert (engine_ok (engine_new now j)) as H0.
  { split; cbn; try done; try (intros ? ?%not_elem_of_nil; done). apply NoDup_nil_2. }
  revert H0. induction Hr as [|w1 w2 w3 Hs _ IH]; [done|]. intros H1. by eapply IH, engine_step_ok.
Qed.

(** ** A shared result that nobody will write *)
Record stranded w (x : nat) : Prop := {
  st_done : ∃ s a, eg_submits w !! x = Some s ∧ su_pc s = PDone a;
  st_accepted e : e ∈ eg_accepted w → qe_reply e ≠ x;
  st_settling y : y ∈ eg_settling w → qe_reply (se_entry y) ≠ x;
  st_reply : eg_replies w !! x = None;
}.

Lemma stranded_intro w w' x :
  stranded w x → (eg_submits w' !! x = eg_submits w !! x) →
  (∀ e, e ∈ eg_accepted w' → e ∈ eg_accepted w ∨ qe_reply e ≠ x) →
  (∀ y, y ∈ eg_settling w' → qe_reply (se_entry y) ≠ x) →
  eg_replies w' !! x = eg_replies w !! x → stranded w' x.
Proof.
  intros [Hd Ha Hs Hr] Es Ea Est Er. split; [by rewrite Es| |done|by rewrite Er].
  intros e [He|He]%Ea; eauto.
Qed.

Lemma stranded_other w x id s pc :
  stranded w x → eg_submits w !! id = Some s → su_pc s = pc → (∀ a, pc ≠ PDone a) → id ≠ x.
Proof. intros [(? & a & Hx & Hp) _ _ _] Hid Hpc Hno ->. apply (Hno a). congruence. Qed.

(** The settlements of a step are, up to their phase, those before it. *)
Lemma stranded_phase w w' x l l' z z' :
  stranded w x → eg_settling w = l ++ z :: l' → eg_settling w' = l ++ z' :: l' → se_entry z' = se_entry z →
  eg_submits w' = eg_submits w → eg_accepted w' = eg_accepted w → eg_replies w' = eg_replies w →
  stranded w' x.
Proof.
  intros Hx Hl Hl' Hz Hs Ha Hr. apply (stranded_intro w); rewrite ?Hs, ?Ha, ?Hr; [done..|by left| |done].
  intros y. rewrite Hl'. intros [Hy|[->|Hy]%elem_of_cons]%elem_of_app; rewrite ?Hz;
    apply (st_settling _ _ Hx); rewrite Hl, elem_of_app, elem_of_cons; auto.
Qed.

Lemma stranded_settled w x l l' z y :
  stranded w x → eg_settling w = l ++ z :: l' → y ∈ l ++ l' → qe_reply (se_entry y) ≠ x.
Proof. intros Hx Hl Hy. apply (st_settling _ _ Hx). rewrite elem_of_app in Hy. rewrite Hl, elem_of_app, elem_of_cons. tauto. Qed.

Lemma stranded_step w w' x : stranded w x → step w w' → stranded w' x.
Proof.
  intros Hx Hst. destruct Hst;
    repeat match goal with
    | H : eg_submits _ !! ?id = Some _, H' : su_pc _ = _ |- _ =>
        assert (id ≠ x) by (eapply stranded_other; [exact Hx|exact H|exact H'|discriminate]); clear H'
    | H : settle_own _ _ _ _ = _ |- _ =>
        unfold settle_own in H; destruct (j_settle _ _ _ _); injection H as <- <-
    end.
  all: try (apply (stranded_intro w); [done| | | |]; cbn; rewrite ?lookup_insert_ne by done;
    solve [done|by left|apply (st_settling _ _ Hx)|intros; by left|eauto using stranded_settled]).
  - assert (id ≠ x) as Hne by (intros ->; destruct (st_done _ _ Hx) as (? & ? & ? & _); congruence).
    apply (stranded_intro w); [done| |by left|apply (st_settling _ _ Hx)|done].
    cbn. by rewrite lookup_insert_ne.
  - unfold register_active. destruct (eg_active w !! _); apply (stranded_intro w); cbn;
      rewrite ?lookup_insert_ne by done; try done; try (by left); apply (st_settling _ _ Hx).
  - unfold insert_record. destruct (j_try_insert _ _ _ _ _ _) as [j o].
    apply (stranded_intro w); cbn; rewrite ?lookup_insert_ne by done; try done; try (by left).
    apply (st_settling _ _ Hx).
  - unfold push_step. destruct (enqueue _ _ _ _) as [qu [|[]|]]; apply (stranded_intro w); cbn;
      rewrite ?lookup_insert_ne by done; try done; try (by left); try apply (st_settling _ _ Hx).
    intros e [He| ->%list_elem_of_singleton]%elem_of_app; [by left|by right].
  - apply (stranded_intro w); cbn; try done; [by left|].
    intros y [Hy| ->%list_elem_of_singleton]%elem_of_app; [by apply (st_settling _ _ Hx)|].
    by apply (st_accepted _ _ Hx).
  - by eapply (stranded_phase w).
  - by eapply (stranded_phase w).
  - by eapply (stranded_phase w).
  - apply (stranded_intro w); cbn; try done; [by left|eauto using stranded_settled|].
    rewrite lookup_insert_ne; [done|].
    apply (st_settling _ _ Hx (mkSettling e r SSet)). rewrite H, elem_of_app, elem_of_cons. auto.
Qed.

Lemma stranded_forever w w' x : stranded w x → rtc step w w' → eg_replies w' !! x = None.
Proof.
  intros Hx Hr. induction Hr as [w|w1 w2 w3 Hs _ IH]; [apply (st_reply _ _ Hx)|].
  eapply IH, stranded_step; done.
Qed.

(** C4: a request is executed once.  In every run of concurrent submissions,
    settlements, failures of the journal and purges, of two entries with the
    same idempotency key in the queues the second was recorded only after the
    retention of the first had ended; each entry answers to its own submission,
    whose request it was mapped from. *)
Theorem executes_once j w i1 i2 e1 e2 :
  reaches j w → eg_accepted w !! i1 = Some e1 → eg_accepted w !! i2 = Some e2 → i1 ≠ i2 →
  qe_key e1 = qe_key e2 →
  ∃ s1 s2 t1 t2, eg_submits w !! qe_reply e1 = Some s1 ∧ eg_submits w !! qe_reply e2 = Some s2 ∧
    qe_reply e1 ≠ qe_reply e2 ∧ su_inserted s1 = Some t1 ∧ su_inserted s2 = Some t2 ∧
    (expires_at policy (su_created s1) < t2 ∨ expires_at policy (su_created s2) < t1).
Proof using JournalLaws0.
  intros Hw%engine_reaches_ok H1 H2 Hne Hk.
  destruct (eo_accepted _ Hw e1) as (s1 & Hs1 & Hk1 & [t1 Ht1] & _); [by eapply list_elem_of_lookup_2|].
  destruct (eo_accepted _ Hw e2) as (s2 & Hs2 & Hk2 & [t2 Ht2] & _); [by eapply list_elem_of_lookup_2|].
  assert (qe_reply e1 ≠ qe_reply e2) as Hr.
  { intros Heq. apply Hne. apply (NoDup_lookup _ _ _ (qe_reply e1) (eo_replies _ Hw));
      rewrite list_lookup_fmap; [by rewrite H1|rewrite H2; cbn; by f_equal]. }
  exists s1, s2, t1, t2. split_and!; [done..|]. eapply (eo_once _ Hw); [exact Hs1|exact Hs2|done|congruence|done..].
Qed.

(** C5: nothing reaches a queue without the right to be there.  In every run,
    the subject behind an entry of a queue holds, on the device of the entry,
    the role the policy demands for the kind of its operation, where the risk
    of a command is the one its profile declares. *)
Theorem accepted_authorized j w e :
  reaches j w → e ∈ eg_accepted w →
  ∃ s, eg_submits w !! qe_reply e = Some s ∧ qe_key e = key_of (su_request s) ∧
    authorize authorizer (su_subject s) (required_role policy (ValidatedOperation.kind (qe_operation e)))
      (ik_device_id (qe_key e)) = Ok ().
Proof using JournalLaws0.
  intros Hw%engine_reaches_ok He. destruct (eo_accepted _ Hw e He) as (s & Hs & Hk & _ & Hcl & _).
  exists s. split_and!; [done..|]. rewrite Hk. exact Hcl.
Qed.

(** What a caller waits for.  In every run, a receipt that waits for a
    shared result waits for a submission of the same request that registered
    it, and that result is written, or the submission is still under way, or
    its entry is in a queue, whose worker will answer it; the one exception is
    a submission that was itself answered from the journal. *)
Theorem receipt_waits j w id s x :
  reaches j w → eg_submits w !! id = Some s → su_pc s = PDone (Pending x) →
  ∃ sx, eg_submits w !! x = Some sx ∧ key_of (su_request sx) = key_of (su_request s) ∧
    (answered w x ∨ (∀ a, su_pc sx ≠ PDone a) ∨ enqueued w x ∨
     (∃ r, su_pc sx = PDone (Ready r)) ∨ (∃ c, su_pc sx = PDone (Failed (SubmitError.Conflict c))) ∨
     (∃ y, y ≠ x ∧ su_pc sx = PDone (Pending y))).
Proof using JournalLaws0.
  intros Hw%engine_reaches_ok Hid Hpc. pose proof (submit_pc _ _ _ _ Hw Hid Hpc) as Ha. cbn in Ha.
  destruct Ha as [[-> He]|[Hne (sx & Hx & Hk & Hsh)]]; [exists s; eauto 10|].
  exists sx. split_and!; [done..|]. pose proof (so_pc _ _ _ (eo_sub _ Hw _ _ Hx)) as Hp. unfold pc_ok in Hp.
  destruct (su_pc sx) as [| | | | | | | | | | | |a|]; try (right; left; congruence).
  destruct a as [r|y|[c|code|]]; cbn in Hp; [eauto 10| |eauto 10|congruence|destruct Hp; [congruence|by left]].
  destruct Hp as [[-> He]|[Hy _]]; eauto 10.
Qed.
End runs.
