(* ===== verification/ControlWorker.v ===== *)
(** * The worker of a control queue and its clients, interleaved

    One worker task per device runs the loop of queue.rs; clients submit,
    cancel and shut down; the task can panic or be aborted while it waits.
    The state of the task is a program counter ([wpc]): its points between
    two lock acquisitions and the await points where it can be stopped.  A
    step is one critical section, so that runs are all interleavings of them:
    a client pushes its request under the lock of the queue and calls
    [ensure_worker], which takes the lock of the worker slot, in another step;
    a supervisor reads the closed flag, looks at the slot and calls
    [ensure_worker] in three; [join] takes the handle out of the slot before
    it waits, so that a later [ensure_worker] can start a second task beside
    the one that is still running.

    The property the code is built around is that a request that was accepted
    is answered: until its reply is written it can be reached from the shared
    state, where a forced stop finds it.  It holds in the runs that are
    orderly: no task is started after the engine closed, and no forced stop
    falls on a task between two of its await points. *)

From S2P Require Import Prelude RustStd ObservationModel ControlModel ControlQueue.
From stdpp Require Import options.

#[local] Set Default Proof Using "Type".

(** Where the worker goes after a tracked settlement: the next orphan of a
    dead worker, or the main loop. *)
Inductive after (E : Type) : Type :=
| Adopt (rest : list E)
| Loop.
Arguments Adopt {E}.
Arguments Loop {E}.

Inductive wpc (E R : Type) : Type :=
| WDead                              (* no task, or a task that panicked or was aborted *)
| WExited                            (* returned from the loop *)
| WBoot                              (* spawned *)
| WAdopt (rest : list E)             (* settling what a dead worker left *)
| WLoop                              (* top of the loop *)
| WPick                              (* after the drain phase *)
| WWait                              (* awaiting a notification *)
| WTrack (e : E) (run : R) (k : after E)    (* entering settle_tracked *)
| WSettle (e : E) (run : R) (k : after E)   (* awaiting settle_entry in it *)
| WUntrack (k : after E)             (* reply written, entry still in draining *)
| WStart (e : E)                     (* picked, not yet marked as running *)
| WRun (e : E)                       (* awaiting the executor *)
| WRunSettle (e : E) (run : R)       (* awaiting settle_entry of an execution *)
| WRunDone.                          (* reply written, entry still in running *)
Arguments WDead {E R}.
Arguments WExited {E R}.
Arguments WBoot {E R}.
Arguments WAdopt {E R}.
Arguments WLoop {E R}.
Arguments WPick {E R}.
Arguments WWait {E R}.
Arguments WTrack {E R}.
Arguments WSettle {E R}.
Arguments WUntrack {E R}.
Arguments WStart {E R}.
Arguments WRun {E R}.
Arguments WRunSettle {E R}.
Arguments WRunDone {E R}.

(** The handle of a task: there is none yet, it is in the worker slot, [join]
    has taken it and waits for the task, or [join] has stopped the task. *)
Inductive handle : Type := NoHandle | InSlot | Joining | Released.

(** What surrounds the task that was started last: the calls of
    [ensure_worker] that have begun, the supervisors that sleep and those that
    have found the engine open, the handle of the task, the tasks started
    before it whose handles [join] took, and whether the run is orderly. *)
Record Calls (E R : Type) : Type := mkCalls {
  c_ensuring : nat;
  c_sleeping : nat;
  c_checked : nat;
  c_handle : handle;
  c_old : list (handle * wpc E R);
  c_orderly : bool;
}.
Arguments mkCalls {E R}.
Arguments c_ensuring {E R}.
Arguments c_sleeping {E R}.
Arguments c_checked {E R}.
Arguments c_handle {E R}.
Arguments c_old {E R}.
Arguments c_orderly {E R}.

(** The device queue with the objects its entries refer to and the task that
    was started last; [w_accepted] records every entry that was enqueued. *)
Record World (Json Precondition : Type) : Type := mkWorld {
  w_queue : QueueInner Json Precondition;
  w_closed_flag : bool;
  w_tokens : gset nat;
  w_replies : gmap nat (ControlResult Json);
  w_worker : wpc (QueuedEntry Json Precondition) (RunResult.t Json);
  w_accepted : list (QueuedEntry Json Precondition);
  w_calls : Calls (QueuedEntry Json Precondition) (RunResult.t Json);
}.
Arguments mkWorld {Json Precondition}.
Arguments w_queue {Json Precondition}.
Arguments w_closed_flag {Json Precondition}.
Arguments w_tokens {Json Precondition}.
Arguments w_replies {Json Precondition}.
Arguments w_worker {Json Precondition}.
Arguments w_accepted {Json Precondition}.
Arguments w_calls {Json Precondition}.

Section worker.
Context {Json Precondition : Type} (policy : ControlPolicy).
Abbreviation Entry := (QueuedEntry Json Precondition).
Abbreviation Queue := (QueueInner Json Precondition).
Abbreviation Replies := (gmap nat (ControlResult Json)).
Abbreviation Pc := (wpc (QueuedEntry Json Precondition) (RunResult.t Json)).
Implicit Types (w : World Json Precondition) (e : Entry) (q : Queue).

Definition world_new (capacity : nat) : World Json Precondition :=
  {| w_queue := queue_new capacity; w_closed_flag := false; w_tokens := ∅; w_replies := ∅;
     w_worker := WDead; w_accepted := [];
     w_calls := {| c_ensuring := 0; c_sleeping := 0; c_checked := 0; c_handle := NoHandle;
                   c_old := []; c_orderly := true |} |}.

Definition replied (replies : Replies) (e : Entry) : bool :=
  match replies !! qe_reply e with Some _ => true | None => false end.

Definition on_queue (q : Queue) (pc : Pc) (w : World Json Precondition) : World Json Precondition :=
  {| w_queue := q; w_closed_flag := w_closed_flag w; w_tokens := w_tokens w;
     w_replies := w_replies w; w_worker := pc; w_accepted := w_accepted w; w_calls := w_calls w |}.

Definition on_reply (e : Entry) (r : ControlResult Json) (pc : Pc) (w : World Json Precondition) :
    World Json Precondition :=
  {| w_queue := w_queue w; w_closed_flag := w_closed_flag w; w_tokens := w_tokens w;
     w_replies := <[qe_reply e := r]> (w_replies w); w_worker := pc; w_accepted := w_accepted w;
     w_calls := w_calls w |}.

Definition on_calls (c : Calls Entry (RunResult.t Json)) (w : World Json Precondition) :
    World Json Precondition :=
  {| w_queue := w_queue w; w_closed_flag := w_closed_flag w; w_tokens := w_tokens w;
     w_replies := w_replies w; w_worker := w_worker w; w_accepted := w_accepted w; w_calls := c |}.

Definition counts (ensuring sleeping checked : nat) (w : World Json Precondition) :
    World Json Precondition :=
  on_calls {| c_ensuring := ensuring; c_sleeping := sleeping; c_checked := checked;
              c_handle := c_handle (w_calls w); c_old := c_old (w_calls w);
              c_orderly := c_orderly (w_calls w) |} w.

Definition on_handle (h : handle) (old : list (handle * Pc)) (orderly : bool)
    (w : World Json Precondition) : World Json Precondition :=
  on_calls {| c_ensuring := c_ensuring (w_calls w); c_sleeping := c_sleeping (w_calls w);
              c_checked := c_checked (w_calls w); c_handle := h; c_old := old;
              c_orderly := orderly |} w.

(** The result a settlement writes. *)
Definition settled (e : Entry) (run : RunResult.t Json) (completed : Z) (journal_ok : bool) :
    ControlResult Json :=
  settle_journal journal_ok (settle_result e run completed).

Definition resume (k : after Entry) : Pc :=
  match k with Adopt rest => WAdopt rest | Loop => WLoop end.

(** [is_finished] of a task. *)
Definition finished (pc : Pc) : bool :=
  match pc with WDead | WExited => true | _ => false end.

(** [ensure_worker]: a task, with a supervisor of its own, is started when the
    slot is empty or the task in it has finished.  A task whose handle [join]
    took goes on beside the new one. *)
Definition ensure_worker (w : World Json Precondition) : World Json Precondition :=
  let c := w_calls w in
  if match c_handle c with InSlot => finished (w_worker w) | _ => true end then
    let old := match c_handle c with
               | Joining | Released => (c_handle c, w_worker w) :: c_old c
               | NoHandle | InSlot => c_old c
               end in
    on_handle InSlot old (c_orderly c && negb (w_closed_flag w))
      (counts (c_ensuring c) (S (c_sleeping c)) (c_checked c) (on_queue (w_queue w) WBoot w))
  else w.

(** The start of a task: the entries a dead one left behind. *)
Definition boot (w : World Json Precondition) : World Json Precondition :=
  let q := w_queue w in
  let orphan := qi_running q in
  let orphan_draining := qi_draining q in
  let q' := set_draining [] (set_running None q) in
  on_queue q'
    match orphan with
    | Some e =>
        if replied (w_replies w) e then WAdopt orphan_draining
        else WTrack e (RunResult.Indeterminate "QUEUE_WORKER_ABORTED") (Adopt orphan_draining)
    | None => WAdopt orphan_draining
    end w.

Definition adopt_next (replies : Replies) (rest : list Entry) : Pc :=
  match rest with
  | [] => WLoop
  | e :: rest' =>
      if replied replies e then WAdopt rest' else WTrack e RunResult.Cancelled (Adopt rest')
  end.

Definition drain_pc (d : Drain.t Entry) : Pc :=
  match d with
  | Drain.Exit => WExited
  | Drain.Settle e => WTrack e RunResult.Cancelled Loop
  | Drain.Proceed => WPick
  end.

Definition picked_pc (picked : option (Entry * PickedKind.t)) : Pc :=
  match picked with
  | None => WWait
  | Some (e, PickedKind.Cancelled) => WTrack e RunResult.Cancelled Loop
  | Some (e, PickedKind.Expired) => WTrack e RunResult.Timeout Loop
  | Some (e, PickedKind.Ready) => WStart e
  end.

(** The points where the task is suspended: an abort takes effect there, and
    the code it awaits can panic. *)
Definition awaiting (pc : Pc) : bool :=
  match pc with WWait | WSettle _ _ _ | WRun _ | WRunSettle _ _ => true | _ => false end.

(** The entries that only the task refers to. *)
Definition after_local (k : after Entry) : list Entry :=
  match k with Adopt rest => rest | Loop => [] end.

Definition local (pc : Pc) : list Entry :=
  match pc with
  | WAdopt rest => rest
  | WTrack e _ k => e :: after_local k
  | WSettle _ _ k | WUntrack k => after_local k
  | WStart e => [e]
  | _ => []
  end.

(** The part of [settle_abandoned] that answers a list of entries. *)
Definition settle_all (run : RunResult.t Json) (completed : Entry → Z) (journal_ok : Entry → bool)
    (replies : Replies) (es : list Entry) : Replies :=
  foldl (λ m e, if replied m e then m
                else <[qe_reply e := settled e run (completed e) (journal_ok e)]> m)
    replies es.

(** [settle_abandoned]. *)
Definition settle_abandoned (completed : Entry → Z) (journal_ok : Entry → bool)
    (w : World Json Precondition) : World Json Precondition :=
  let '(q', running, rest) := take_abandoned (w_queue w) in
  let replies := settle_all (RunResult.Indeterminate "QUEUE_WORKER_ABORTED") completed journal_ok
                   (w_replies w) (option_list running) in
  {| w_queue := q'; w_closed_flag := w_closed_flag w; w_tokens := w_tokens w;
     w_replies := settle_all RunResult.Cancelled completed journal_ok replies rest;
     w_worker := w_worker w; w_accepted := w_accepted w; w_calls := w_calls w |}.

Definition set_worker (pc : Pc) (w : World Json Precondition) : World Json Precondition :=
  on_queue (w_queue w) pc w.

(** The forced stop of a task that is suspended or has panicked. *)
Definition abandon (completed : Entry → Z) (journal_ok : Entry → bool) (w : World Json Precondition) :
    World Json Precondition :=
  set_worker WDead (settle_abandoned completed journal_ok w).

Definition suspended (pc : Pc) : bool :=
  match pc with WDead => true | _ => awaiting pc end.

(** ** Steps

    A turn of a task: one of its critical sections, the end of something it
    awaits, or its end by a panic or an abort where it waits. *)
Inductive turn : World Json Precondition → World Json Precondition → Prop :=
| step_boot w : w_worker w = WBoot → turn w (boot w)
| step_adopt w rest :
    w_worker w = WAdopt rest → turn w (on_queue (w_queue w) (adopt_next (w_replies w) rest) w)
| step_drain w q' d :
    w_worker w = WLoop → drain_phase (w_closed_flag w) (w_queue w) = (q', d) →
    turn w (on_queue q' (drain_pc d) w)
| step_pick w now now_ready now_kind now_ns q' picked :
    w_worker w = WPick →
    pick policy (w_tokens w) now now_ready now_kind now_ns (w_queue w) = (q', Ok picked) →
    turn w (on_queue q' (picked_pc picked) w)
| step_wake w : w_worker w = WWait → turn w (on_queue (w_queue w) WLoop w)
| step_track w e run k :
    w_worker w = WTrack e run k → turn w (on_queue (track e (w_queue w)) (WSettle e run k) w)
| step_settle w e run k completed journal_ok :
    w_worker w = WSettle e run k →
    turn w (on_reply e (settled e run completed journal_ok) (WUntrack k) w)
| step_untrack w k :
    w_worker w = WUntrack k →
    turn w (on_queue (untrack (replied (w_replies w)) (w_queue w)) (resume k) w)
| step_start w e :
    w_worker w = WStart e → turn w (on_queue (set_running (Some e) (w_queue w)) (WRun e) w)
| step_run w e now now' winner :
    w_worker w = WRun e →
    (∀ started, winner = RaceCancelled started → qe_cancel e ∈ w_tokens w) →
    let run := run_entry now e winner in
    turn w (on_queue (cooldown_after policy now' run (w_queue w)) (WRunSettle e run) w)
| step_run_settle w e run completed journal_ok :
    w_worker w = WRunSettle e run →
    turn w (on_reply e (settled e run completed journal_ok) WRunDone w)
| step_run_done w :
    w_worker w = WRunDone → turn w (on_queue (set_running None (w_queue w)) WLoop w)
| step_panic w : awaiting (w_worker w) = true → turn w (on_queue (w_queue w) WDead w).

(** A client pushes a request with a reply cell of its own and then calls
    [ensure_worker]; the engine sets its closed flag before it shuts its
    queues down and joins their workers.  A supervisor sleeps, reads the flag,
    looks whether the task in the slot has finished and then calls
    [ensure_worker].  The time limit of [join] can pass anywhere: on a task
    that runs, the abort only takes effect at its next await point, while
    [settle_abandoned] does not wait for it. *)
Inductive step : World Json Precondition → World Json Precondition → Prop :=
| step_enqueue w e q' :
    enqueue policy (w_closed_flag w) e (w_queue w) = (q', Ok ()) →
    w_replies w !! qe_reply e = None → Forall (λ x, qe_reply x ≠ qe_reply e) (w_accepted w) →
    step w (counts (S (c_ensuring (w_calls w))) (c_sleeping (w_calls w)) (c_checked (w_calls w))
      {| w_queue := q'; w_closed_flag := w_closed_flag w; w_tokens := w_tokens w;
         w_replies := w_replies w; w_worker := w_worker w;
         w_accepted := w_accepted w ++ [e]; w_calls := w_calls w |})
| step_ensure w n :
    c_ensuring (w_calls w) = S n →
    step w (ensure_worker (counts n (c_sleeping (w_calls w)) (c_checked (w_calls w)) w))
| step_cancel w key :
    step w {| w_queue := w_queue w; w_closed_flag := w_closed_flag w;
              w_tokens := (cancel key (w_queue w) (w_tokens w)).1; w_replies := w_replies w;
              w_worker := w_worker w; w_accepted := w_accepted w; w_calls := w_calls w |}
| step_shutdown w :
    w_closed_flag w = true → step w (on_queue (queue_shutdown (w_queue w)) (w_worker w) w)
| step_engine_closed w :
    step w {| w_queue := w_queue w; w_closed_flag := true; w_tokens := w_tokens w;
              w_replies := w_replies w; w_worker := w_worker w; w_accepted := w_accepted w;
              w_calls := w_calls w |}
| step_worker w w' : turn w w' → step w w'
| step_supervisor_ends w n :
    c_sleeping (w_calls w) = S n → w_closed_flag w = true →
    step w (counts (c_ensuring (w_calls w)) n (c_checked (w_calls w)) w)
| step_supervisor_open w n :
    c_sleeping (w_calls w) = S n → w_closed_flag w = false →
    step w (counts (c_ensuring (w_calls w)) n (S (c_checked (w_calls w))) w)
| step_supervisor_alive w n :
    c_checked (w_calls w) = S n → c_handle (w_calls w) ≠ InSlot ∨ finished (w_worker w) = false →
    step w (counts (c_ensuring (w_calls w)) (S (c_sleeping (w_calls w))) n w)
| step_supervisor_dead w n :
    c_checked (w_calls w) = S n → c_handle (w_calls w) = InSlot → finished (w_worker w) = true →
    step w (counts (S (c_ensuring (w_calls w))) (c_sleeping (w_calls w)) n w)
| step_join w :
    w_closed_flag w = true → c_handle (w_calls w) = InSlot →
    step w (on_handle Joining (c_old (w_calls w)) (c_orderly (w_calls w)) w)
| step_abandon w completed journal_ok :
    c_handle (w_calls w) = Joining → suspended (w_worker w) = true →
    step w (on_handle Released (c_old (w_calls w)) (c_orderly (w_calls w))
              (abandon completed journal_ok w))
| step_abandon_running w completed journal_ok :
    c_handle (w_calls w) = Joining → suspended (w_worker w) = false → w_worker w ≠ WExited →
    step w (on_handle Released (c_old (w_calls w)) false (settle_abandoned completed journal_ok w))
| step_old_worker w before h pc after w' :
    c_old (w_calls w) = before ++ (h, pc) :: after → turn (set_worker pc w) w' →
    step w (on_handle (c_handle (w_calls w)) (before ++ (h, w_worker w') :: after)
              (c_orderly (w_calls w)) (set_worker (w_worker w) w'))
| step_old_abandon w before pc after completed journal_ok :
    c_old (w_calls w) = before ++ (Joining, pc) :: after → pc ≠ WExited →
    step w (on_handle (c_handle (w_calls w))
              (before ++ (Released, if suspended pc then WDead else pc) :: after)
              (c_orderly (w_calls w)) (settle_abandoned completed journal_ok w)).

(** The states of a device queue over all runs. *)
Definition reaches (capacity : nat) : World Json Precondition → Prop :=
  rtc step (world_new capacity).
End worker.

(** * Every accepted control request is answered

    The invariant of the interleaved system of ControlWorker, by induction on
    its steps, and what follows from it: a forced stop answers every request
    that was accepted and not answered yet, wherever the worker was stopped
    and however often it had crashed before; and the shutdown drain
    terminates, answering everything it finds. *)

Section laws.
Context {Json Precondition : Type} (policy : ControlPolicy).
Abbreviation Entry := (QueuedEntry Json Precondition).
Abbreviation Queue := (QueueInner Json Precondition).
Abbreviation Replies := (gmap nat (ControlResult Json)).
Abbreviation Pc := (wpc (QueuedEntry Json Precondition) (RunResult.t Json)).
Implicit Types (w : World Json Precondition) (e x : Entry) (q : Queue) (m : Replies) (l : list Entry).

(** ** Replies only accumulate *)
Lemma replied_insert m e e' r :
  replied (<[qe_reply e := r]> m) e' = bool_decide (qe_reply e = qe_reply e') || replied m e'.
Proof.
  unfold replied. case_bool_decide as H.
  - by rewrite H, lookup_insert_eq.
  - by rewrite lookup_insert_ne.
Qed.

Lemma replied_insert_mono m e e' r : replied m e' = true → replied (<[qe_reply e := r]> m) e' = true.
Proof. intros H. by rewrite replied_insert, H, orb_true_r. Qed.

Lemma replied_insert_same m e r : replied (<[qe_reply e := r]> m) e = true.
Proof. by rewrite replied_insert, bool_decide_eq_true_2. Qed.

Lemma settle_all_mono run completed journal_ok m l e :
  replied m e = true → replied (settle_all run completed journal_ok m l) e = true.
Proof.
  unfold settle_all. revert m. induction l as [|e' l IH]; intros m Hm; [done|].
  cbn [foldl]. apply IH. destruct (replied m e'); [done|]. by apply replied_insert_mono.
Qed.

Lemma settle_all_replied run completed journal_ok m l e :
  e ∈ l → replied (settle_all run completed journal_ok m l) e = true.
Proof.
  revert m. induction l as [|e' l IH]; intros m Hin; [by apply not_elem_of_nil in Hin|].
  apply elem_of_cons in Hin as [<-|Hin].
  - unfold settle_all. cbn [foldl]. apply (settle_all_mono run completed journal_ok).
    destruct (replied m e) eqn:E; [done|]. apply replied_insert_same.
  - unfold settle_all. cbn [foldl]. by apply (IH _ Hin).
Qed.

(** ** Queue pieces *)
Lemma drop_replied_elem (f : Entry → bool) l e : e ∈ l → f e = false → e ∈ drop_replied f l.
Proof.
  induction l as [|e' l IH]; intros Hin Hf; [done|]. cbn [drop_replied].
  destruct (f e') eqn:E; [|done]. apply IH; [|done].
  apply elem_of_cons in Hin as [->|?]; [congruence|done].
Qed.

Lemma drop_replied_subset (f : Entry → bool) l e : e ∈ drop_replied f l → e ∈ l.
Proof.
  induction l as [|e' l IH]; [done|]. cbn [drop_replied].
  destruct (f e'); [|done]. intros. right. auto.
Qed.

Lemma drop_replied_all (f : Entry → bool) l : Forall (λ e, f e = true) l → drop_replied f l = [].
Proof. induction 1 as [|e l He _ IH]; [done|]. cbn [drop_replied]. by rewrite He. Qed.

Lemma move_queued_ok q : queue_ok policy q → queue_ok policy (move_queued q).
Proof.
  intros [Hs Hl Hb Hp]. unfold move_queued. case_if; [|done].
  split; cbn [set_draining set_queued qi_entries qi_len qi_capacity];
    [by apply cleared_sorted|by rewrite btree_values_cleared|lia|apply cleared_all].
Qed.

Lemma set_closed_ok b q : queue_ok policy q → queue_ok policy (set_closed b q).
Proof. intros []. by split. Qed.
Lemma set_running_ok r q : queue_ok policy q → queue_ok policy (set_running r q).
Proof. intros []. by split. Qed.
Lemma set_draining_ok l q : queue_ok policy q → queue_ok policy (set_draining l q).
Proof. intros []. by split. Qed.

Lemma cooldown_after_ok now run q : queue_ok policy q → queue_ok policy (cooldown_after policy now run q).
Proof. intros []. unfold cooldown_after. case_if; by split. Qed.

Lemma take_abandoned_ok q q' r l :
  queue_ok policy q → take_abandoned q = (q', r, l) → queue_ok policy q'.
Proof.
  intros [Hs Hl Hb Hp] [= <- _ _].
  split; cbn [qi_entries qi_len qi_capacity];
    [by apply cleared_sorted|rewrite btree_values_cleared; cbn [length]; lia|lia|apply cleared_all].
Qed.

(** The branches of the drain phase. *)
Lemma drain_phase_cases flag q q' d :
  drain_phase flag q = (q', d) →
  let q1 := if flag then set_closed true q else q in
  (qi_closed q1 = false ∧ q' = q1 ∧ d = Drain.Proceed) ∨
  (qi_closed q1 = true ∧ q' = move_queued q1 ∧
   match d with
   | Drain.Settle e => ∃ l, qi_draining q' = e :: l
   | Drain.Exit => qi_draining q' = [] ∧ qi_running q' = None
   | Drain.Proceed => qi_draining q' = [] ∧ qi_running q' ≠ None
   end).
Proof.
  intros H q1. unfold drain_phase in H. fold q1 in H. destruct (qi_closed q1); cbn [negb] in H.
  - right. destruct (qi_draining (move_queued q1)) as [|e l] eqn:E1.
    + destruct (qi_running (move_queued q1)) eqn:E2; injection H as <- <-; by rewrite E1, E2.
    + injection H as <- <-. eauto.
  - left. by injection H as <- <-.
Qed.

Lemma drain_phase_ok flag q q' d :
  queue_ok policy q → drain_phase flag q = (q', d) → queue_ok policy q'.
Proof.
  intros Hq [(_ & -> & _)|(_ & -> & _)]%drain_phase_cases; [|apply move_queued_ok];
    destruct flag; auto using set_closed_ok.
Qed.

(** ** Reachability of entries *)
Definition visible (q : Queue) (e : Entry) : Prop :=
  e ∈ btree_values (qi_entries q) ∨ qi_running q = Some e ∨ e ∈ qi_draining q.

Lemma move_queued_visible q e :
  qi_len q = Z.of_nat (length (btree_values (qi_entries q))) →
  visible q e → visible (move_queued q) e.
Proof.
  intros Hl. unfold move_queued. destruct (Z.ltb_spec 0 (qi_len q)); [|done].
  unfold visible. cbn. intros [H1|[H1|H1]]; [right; right|by right; left|right; right];
    apply elem_of_app; tauto.
Qed.

Lemma drain_phase_visible flag q q' d e :
  queue_ok policy q → drain_phase flag q = (q', d) → visible q e → visible q' e.
Proof.
  intros Hq [(_ & -> & _)|(_ & -> & _)]%drain_phase_cases Hv; [by destruct flag|].
  apply move_queued_visible; destruct flag; by try apply Hq.
Qed.

(** [x] is the only unanswered entry of a list; a list has one at most. *)
Definition only (m : Replies) (x : Entry) (l : list Entry) : Prop :=
  ∀ e, e ∈ l → replied m e = false → e = x.
Definition lone (m : Replies) (l : list Entry) : Prop :=
  ∀ e e', e ∈ l → e' ∈ l → replied m e = false → replied m e' = false → e = e'.
Definition all_replied (m : Replies) (l : list Entry) : Prop :=
  Forall (λ e, replied m e = true) l.

Lemma only_insert m x l e r : only m x l → only (<[qe_reply e := r]> m) x l.
Proof.
  intros H e' Hin Hr. apply H; [done|]. destruct (replied m e') eqn:E; [|done].
  by rewrite replied_insert_mono in Hr.
Qed.

Lemma all_replied_insert m l e r : all_replied m l → all_replied (<[qe_reply e := r]> m) l.
Proof. intros H. eapply Forall_impl; [exact H|]. intros. by apply replied_insert_mono. Qed.

Lemma only_reply m x l r : only m x l → all_replied (<[qe_reply x := r]> m) l.
Proof.
  intros H. apply Forall_forall. intros e Hin. destruct (replied m e) eqn:E.
  - by apply replied_insert_mono.
  - rewrite (H e Hin E). apply replied_insert_same.
Qed.

Lemma all_replied_only m l x : all_replied m l → only m x l.
Proof. intros H e Hin Hr. rewrite (proj1 (Forall_forall _ _) H e Hin) in Hr. done. Qed.

Lemma all_replied_lone m l : all_replied m l → lone m l.
Proof. intros H e e' Hin _ Hr _. by rewrite (proj1 (Forall_forall _ _) H e Hin) in Hr. Qed.

Lemma only_lone m x l : only m x l → lone m l.
Proof. intros H e e' He He' Hr Hr'. by rewrite (H e), (H e'). Qed.

Lemma lone_cons m x l : only m x l → lone m (x :: l).
Proof. intros H. apply (only_lone _ x). intros e [->|?]%elem_of_cons Hr; [done|by apply H]. Qed.

(** ** The invariant

    At each point of the worker: which entry it has marked as running, and
    how many unanswered entries are outside the queue.  As long as the engine
    is open there is at most one. *)
Definition pc_ok (m : Replies) (open : bool) (q : Queue) (pc : Pc) : Prop :=
  match pc with
  | WDead => open = true → lone m (option_list (qi_running q) ++ qi_draining q)
  | WBoot => lone m (option_list (qi_running q) ++ qi_draining q)
  | WExited => open = false
  | WAdopt rest => qi_running q = None ∧ qi_draining q = [] ∧ lone m rest
  | WTrack e _ (Adopt rest) => qi_running q = None ∧ qi_draining q = [] ∧ only m e rest
  | WSettle e _ (Adopt rest) => qi_running q = None ∧ qi_draining q = [e] ∧ only m e rest
  | WUntrack (Adopt rest) =>
      qi_running q = None ∧ all_replied m (qi_draining q) ∧ all_replied m rest
  | WTrack e _ Loop => qi_running q = None ∧ (open = true → only m e (qi_draining q))
  | WSettle e _ Loop =>
      qi_running q = None ∧ e ∈ qi_draining q ∧ (open = true → only m e (qi_draining q))
  | WUntrack Loop | WLoop | WPick | WWait | WStart _ =>
      qi_running q = None ∧ (open = true → all_replied m (qi_draining q))
  | WRun e | WRunSettle e _ =>
      qi_running q = Some e ∧ (open = true → all_replied m (qi_draining q))
  | WRunDone =>
      all_replied m (option_list (qi_running q)) ∧ (open = true → all_replied m (qi_draining q))
  end.

Record world_ok (w : World Json Precondition) : Prop := {
  wo_queue : queue_ok policy (w_queue w);
  wo_closed : qi_closed (w_queue w) = true → w_closed_flag w = true;
  wo_visible e :
    e ∈ w_accepted w → replied (w_replies w) e = false →
    visible (w_queue w) e ∨ e ∈ local (w_worker w);
  wo_pc : pc_ok (w_replies w) (negb (w_closed_flag w)) (w_queue w) (w_worker w);
}.

(** A worker step that changes the queue and the program counter. *)
Lemma on_queue_ok w q' (pc' : Pc) :
  world_ok w → queue_ok policy q' → (qi_closed q' = true → w_closed_flag w = true) →
  (∀ e, replied (w_replies w) e = false →
     visible (w_queue w) e ∨ e ∈ local (w_worker w) → visible q' e ∨ e ∈ local pc') →
  pc_ok (w_replies w) (negb (w_closed_flag w)) q' pc' → world_ok (on_queue q' pc' w).
Proof.
  intros Hw Hq Hc Hv Hpc. split; cbn; [done..| |done].
  intros e Hin Hr. apply Hv; [done|]. by apply Hw.
Qed.

(** A worker step that writes a reply. *)
Lemma on_reply_ok w e r (pc' : Pc) :
  world_ok w →
  (∀ e', e' ∈ local (w_worker w) → e' ∈ local pc') →
  pc_ok (<[qe_reply e := r]> (w_replies w)) (negb (w_closed_flag w)) (w_queue w) pc' →
  world_ok (on_reply e r pc' w).
Proof.
  intros Hw Hl Hpc. split; cbn; [apply Hw..| |done].
  intros e' Hin Hr. destruct (wo_visible _ Hw e' Hin) as [?|?]; [|by left|right; auto].
  destruct (replied (w_replies w) e') eqn:E; [|done]. by rewrite replied_insert_mono in Hr.
Qed.

Lemma boot_ok w : world_ok w → w_worker w = WBoot → world_ok (boot w).
Proof.
  intros Hw Hpc. pose proof (wo_pc _ Hw) as Hp. rewrite Hpc in Hp. cbn [pc_ok] in Hp.
  rename Hp into Hx. unfold boot. apply on_queue_ok; [done| | | |].
  - apply set_draining_ok, set_running_ok, Hw.
  - apply Hw.
  - intros e Hr [[Hv|[Hv|Hv]]|Hl]; [by left; left| | |by rewrite Hpc in Hl; apply not_elem_of_nil in Hl].
    + right. rewrite Hv, Hr. by left.
    + right. destruct (qi_running (w_queue w)) as [o|]; [|done].
      destruct (replied (w_replies w) o); [done|by right].
  - destruct (qi_running (w_queue w)) as [o|] eqn:Eo; cbn [option_list app] in Hx.
    + destruct (replied (w_replies w) o) eqn:Er; cbn [pc_ok set_draining qi_running qi_draining].
      * split_and!; [done..|]. intros e e' He He'. apply Hx; by right.
      * split_and!; [done..|]. intros e Hin Hr. apply Hx; [by right|by left|done|done].
    + by split_and!.
Qed.

Lemma adopt_ok w rest :
  world_ok w → w_worker w = WAdopt rest →
  world_ok (on_queue (w_queue w) (adopt_next (w_replies w) rest) w).
Proof.
  intros Hw Hpc. pose proof (wo_pc _ Hw) as Hp. rewrite Hpc in Hp. cbn [pc_ok] in Hp.
  destruct Hp as (Hrun & Hd & Hx). apply on_queue_ok; [done|apply Hw..| |].
  - intros e Hr [Hv|Hl]; [by left|right]. rewrite Hpc in Hl. cbn [local] in Hl.
    destruct rest as [|e1 rest]; [by apply not_elem_of_nil in Hl|]. cbn [adopt_next].
    apply elem_of_cons in Hl as [->|Hl]; [rewrite Hr; by left|].
    destruct (replied (w_replies w) e1); [done|by right].
  - destruct rest as [|e1 rest]; cbn [adopt_next].
    { cbn [pc_ok]. rewrite Hd. split; [done|]. constructor. }
    destruct (replied (w_replies w) e1) eqn:E; cbn [pc_ok]; split_and!; [done..| |done|done|].
    + intros e e' He He'. apply Hx; by right.
    + intros e Hin Hr. apply Hx; [by right|by left|done|done].
Qed.

Lemma drain_ok w q' d :
  world_ok w → w_worker w = WLoop → drain_phase (w_closed_flag w) (w_queue w) = (q', d) →
  world_ok (on_queue q' (drain_pc d) w).
Proof.
  intros Hw Hpc Hd. pose proof (wo_pc _ Hw) as Hp. rewrite Hpc in Hp. cbn [pc_ok] in Hp.
  destruct Hp as [Hrun Hdr]. apply on_queue_ok; [done|by eapply drain_phase_ok; [apply Hw|]| | |].
  - apply drain_phase_cases in Hd as [(Hc & -> & _)|(Hc & _)].
    + intros Hc'. congruence.
    + intros _. destruct (w_closed_flag w) eqn:E; [done|]. rewrite <- E. by apply Hw.
  - intros e Hr [Hv|Hl]; [|by rewrite Hpc in Hl; apply not_elem_of_nil in Hl]. left.
    eapply drain_phase_visible; [apply Hw|done|done].
  - apply drain_phase_cases in Hd as [(Hc & -> & ->)|(Hc & -> & Hcases)].
    + cbn [drain_pc pc_ok]. destruct (w_closed_flag w); [done|]. done.
    + assert (w_closed_flag w = true) as Hflag.
      { destruct (w_closed_flag w) eqn:E; [done|]. rewrite <- E. by apply Hw. }
      rewrite Hflag in *. assert (qi_running (move_queued (set_closed true (w_queue w))) = None) as Hr.
      { unfold move_queued. case_if; done. }
      destruct d as [|e|]; cbn [drain_pc pc_ok negb]; [done|by split|].
      destruct Hcases as [_ []]. done.
Qed.

Lemma pick_step_ok w now now_ready now_kind now_ns q' picked :
  world_ok w → w_worker w = WPick →
  pick policy (w_tokens w) now now_ready now_kind now_ns (w_queue w) = (q', Ok picked) →
  world_ok (on_queue q' (picked_pc picked) w).
Proof.
  intros Hw Hpc E. pose proof (wo_pc _ Hw) as Hp. rewrite Hpc in Hp. destruct Hp as [Hrun Hdr].
  pose proof (pick_spec policy (w_tokens w) now now_ready now_kind now_ns (w_queue w)
    (qo_sorted _ _ (wo_queue _ Hw))) as H. cbv zeta in H. rewrite E in H.
  apply on_queue_ok; [done|by eapply pick_ok; [apply Hw|]| | |].
  - destruct picked as [[e k]|]; [|by destruct H as [-> _]; apply Hw].
    destruct H as (_ & _ & p & d & before & after & _ & -> & _). apply Hw.
  - intros e Hr [Hv|Hl]; [|by rewrite Hpc in Hl; apply not_elem_of_nil in Hl].
    destruct picked as [[e' k]|]; [|by destruct H as [-> _]; left].
    destruct H as (_ & _ & p & d & before & after & Heq & -> & _).
    assert (e = e' ∨ visible (set_queued (before ++ (p, d) :: after) (qi_len (w_queue w) - 1)
      (w_queue w)) e) as [<-|?]; [|right; destruct k; by left|by left].
    destruct Hv as [Hv|Hv]; [|by right; right].
    rewrite Heq, split_values in Hv. apply elem_of_cons in Hv as [?|?]; [by left|by right; left].
  - destruct picked as [[e k]|]; [|by destruct H as [-> _]].
    destruct H as (_ & _ & p & d & before & after & _ & -> & _).
    destruct k; cbn [picked_pc pc_ok set_queued qi_running qi_draining]; split; try done;
      intros; by apply all_replied_only, Hdr.
Qed.

Lemma track_ok w e run k :
  world_ok w → w_worker w = WTrack e run k →
  world_ok (on_queue (track e (w_queue w)) (WSettle e run k) w).
Proof.
  intros Hw Hpc. pose proof (wo_pc _ Hw) as Hp. rewrite Hpc in Hp.
  apply on_queue_ok; [done|apply set_draining_ok, Hw|apply Hw| |].
  - intros e' Hr [Hv|Hl].
    + left. destruct Hv as [?|[?|?]]; [by left|by right; left|right; right; cbn; set_solver].
    + rewrite Hpc in Hl. cbn [local] in *. apply elem_of_cons in Hl as [->|Hl]; [|by right].
      left; right; right. cbn. set_solver.
  - destruct k as [rest|]; cbn [pc_ok] in *.
    + destruct Hp as (Hrun & Hd & Ho). cbn. by rewrite Hd.
    + destruct Hp as (Hrun & Ho). cbn. split_and!; [done|set_solver|].
      intros Hopen e' [Hin|Hin]%elem_of_app Hr; [by apply Ho|set_solver].
Qed.

Lemma settle_ok w e run k r :
  world_ok w → w_worker w = WSettle e run k → world_ok (on_reply e r (WUntrack k) w).
Proof.
  intros Hw Hpc. pose proof (wo_pc _ Hw) as Hp. rewrite Hpc in Hp.
  apply on_reply_ok; [done|by rewrite Hpc|].
  destruct k as [rest|]; cbn [pc_ok] in *.
  - destruct Hp as (Hrun & Hd & Ho). rewrite Hd. split_and!; [done| |by apply only_reply].
    constructor; [apply replied_insert_same|constructor].
  - destruct Hp as (Hrun & _ & Ho). split; [done|]. intros. by apply only_reply, Ho.
Qed.

Lemma untrack_ok w k :
  world_ok w → w_worker w = WUntrack k →
  world_ok (on_queue (untrack (replied (w_replies w)) (w_queue w)) (resume k) w).
Proof.
  intros Hw Hpc. pose proof (wo_pc _ Hw) as Hp. rewrite Hpc in Hp.
  apply on_queue_ok; [done|apply set_draining_ok, Hw|apply Hw| |].
  - intros e Hr [[?|[?|?]]|Hl]; [by left; left|by left; right; left| |].
    + left; right; right. cbn. by apply drop_replied_elem.
    + right. rewrite Hpc in Hl. by destruct k.
  - destruct k as [rest|]; cbn [pc_ok resume untrack set_draining qi_running qi_draining] in *.
    + destruct Hp as (Hrun & Hd & Hrest). split_and!; [done|by apply drop_replied_all|].
      by apply all_replied_lone.
    + destruct Hp as (Hrun & Hd). split; [done|]. intros Ho.
      rewrite (drop_replied_all _ _ (Hd Ho)). constructor.
Qed.

Lemma panic_ok w :
  world_ok w → awaiting (w_worker w) = true → world_ok (on_queue (w_queue w) WDead w).
Proof.
  intros Hw Ha. pose proof (wo_pc _ Hw) as Hp. apply on_queue_ok; [done|apply Hw..| |].
  - intros e Hr [Hv|Hl]; [by left|left]. destruct (w_worker w) as [| | |?| | | |???|e0 run [rest|]|?|?|?|??|];
      cbn in *; try discriminate; try by apply not_elem_of_nil in Hl.
    destruct Hp as (_ & Hd & Ho). right; right. rewrite Hd, (Ho e Hl Hr). by left.
  - cbn [pc_ok]. intros Hopen. destruct (w_worker w) as [| | |?| | | |???|e0 run [rest|]|?|?|e0|e0 ?|];
      cbn in *; try discriminate.
    + destruct Hp as (-> & Hd). by apply all_replied_lone, Hd.
    + destruct Hp as (-> & Hd & Ho). rewrite Hd. cbn. apply lone_cons. intros ? []%not_elem_of_nil.
    + destruct Hp as (-> & Hin & Ho). cbn. by eapply only_lone, Ho.
    + destruct Hp as (-> & Hd). cbn. by apply lone_cons, all_replied_only, Hd.
    + destruct Hp as (-> & Hd). cbn. by apply lone_cons, all_replied_only, Hd.
Qed.

(** A stop where the worker waits, or after it died, leaves nothing that only
    the worker knew. *)
Lemma stopped_visible w e :
  world_ok w → awaiting (w_worker w) = true ∨ w_worker w = WDead →
  e ∈ w_accepted w → replied (w_replies w) e = false → visible (w_queue w) e.
Proof.
  intros Hw [Ha|Hd] Hin Hr.
  - by destruct (wo_visible _ (panic_ok w Hw Ha) e Hin Hr) as [?|?%not_elem_of_nil].
  - destruct (wo_visible _ Hw e Hin Hr) as [?|Hl]; [done|]. rewrite Hd in Hl.
    by apply not_elem_of_nil in Hl.
Qed.

Lemma abandon_answers w e completed journal_ok :
  world_ok w → awaiting (w_worker w) = true ∨ w_worker w = WDead →
  e ∈ w_accepted w → replied (w_replies (abandon completed journal_ok w)) e = true.
Proof.
  intros Hw Hs Hin. unfold abandon, settle_abandoned, take_abandoned. cbn [set_worker on_queue w_replies].
  destruct (replied (w_replies w) e) eqn:Hr.
  { by apply settle_all_mono, settle_all_mono. }
  destruct (stopped_visible w e Hw Hs Hin Hr) as [Hv|[Hv|Hv]].
  - apply settle_all_replied. apply elem_of_app. by left.
  - apply settle_all_mono, settle_all_replied. rewrite Hv. by left.
  - apply settle_all_replied. apply elem_of_app. by right.
Qed.

Lemma settle_abandoned_queue w completed journal_ok :
  w_queue (settle_abandoned completed journal_ok w) = (take_abandoned (w_queue w)).1.1.
Proof. done. Qed.

Lemma abandon_ok w completed journal_ok :
  world_ok w → w_closed_flag w = true → awaiting (w_worker w) = true ∨ w_worker w = WDead →
  world_ok (abandon completed journal_ok w).
Proof.
  intros Hw Hc Hs. split.
  - by eapply take_abandoned_ok; [apply Hw|].
  - done.
  - intros e Hin Hr. by rewrite (abandon_answers w e completed journal_ok Hw Hs Hin) in Hr.
  - cbn. by rewrite Hc.
Qed.

(** Client operations do not touch what the worker is doing. *)
Lemma pc_ok_same m open q q' (pc : Pc) :
  qi_running q' = qi_running q → qi_draining q' = qi_draining q →
  pc_ok m open q pc → pc_ok m open q' pc.
Proof. intros Hr Hd. destruct pc as [| | |?| | | |?? []|?? []|[]|?|?|??|]; cbn; by rewrite ?Hr, ?Hd. Qed.

Lemma pc_ok_close m open q (pc : Pc) : pc_ok m open q pc → pc_ok m false q pc.
Proof. destruct pc as [| | |?| | | |?? []|?? []|[]|?|?|??|]; cbn; naive_solver. Qed.

Lemma enqueue_step_ok w e q' c :
  world_ok w → enqueue policy (w_closed_flag w) e (w_queue w) = (q', Ok ()) →
  world_ok {| w_queue := q'; w_closed_flag := w_closed_flag w; w_tokens := w_tokens w;
              w_replies := w_replies w; w_worker := w_worker w;
              w_accepted := w_accepted w ++ [e]; w_calls := c |}.
Proof.
  intros Hw E. pose proof (enqueue_ok _ _ _ _ _ (wo_queue _ Hw) E) as Hq.
  unfold enqueue in E. destruct (qi_closed (w_queue w) || w_closed_flag w) eqn:Ec; [done|].
  apply orb_false_iff in Ec as [Ec Ef]. case_if; [done|]. injection E as <-.
  split; cbn [w_queue w_closed_flag w_replies w_worker w_accepted]; [done|cbn; congruence| |].
  - intros e' [Hin|Hin]%elem_of_app Hr; unfold visible; cbn [set_queued qi_entries qi_running qi_draining];
      rewrite btree_push_values, elem_of_app.
    + destruct (wo_visible _ Hw e' Hin Hr) as [[?|?]|?]; tauto.
    + left. left. by right.
  - exact (pc_ok_same _ _ _ _ _ eq_refl eq_refl (wo_pc _ Hw)).
Qed.

Lemma start_ok w e :
  world_ok w → w_worker w = WStart e →
  world_ok (on_queue (set_running (Some e) (w_queue w)) (WRun e) w).
Proof.
  intros Hw Hst. pose proof (wo_pc _ Hw) as Hp. rewrite Hst in Hp. destruct Hp as [Hrun Hdr].
  apply on_queue_ok; [done|apply set_running_ok, Hw|apply Hw| |by split].
  intros e' Hr [[?|[?|?]]|Hl]; [by left; left|congruence|by left; right; right|].
  rewrite Hst in Hl. apply list_elem_of_singleton in Hl as ->. by left; right; left.
Qed.

Lemma cooldown_after_frame now run q :
  qi_running (cooldown_after policy now run q) = qi_running q ∧
  qi_draining (cooldown_after policy now run q) = qi_draining q ∧
  qi_entries (cooldown_after policy now run q) = qi_entries q ∧
  qi_closed (cooldown_after policy now run q) = qi_closed q.
Proof. unfold cooldown_after. by case_if. Qed.

Lemma run_ok w e now run :
  world_ok w → w_worker w = WRun e →
  world_ok (on_queue (cooldown_after policy now run (w_queue w)) (WRunSettle e run) w).
Proof.
  intros Hw Hr. pose proof (wo_pc _ Hw) as Hp. rewrite Hr in Hp.
  destruct (cooldown_after_frame now run (w_queue w)) as (H1 & H2 & H3 & H4).
  apply on_queue_ok; [done|apply cooldown_after_ok, Hw|rewrite H4; apply Hw| |].
  - rewrite Hr. unfold visible. rewrite H1, H2, H3. done.
  - cbn. by rewrite H1, H2.
Qed.

Lemma run_done_ok w :
  world_ok w → w_worker w = WRunDone →
  world_ok (on_queue (set_running None (w_queue w)) WLoop w).
Proof.
  intros Hw Hrd. pose proof (wo_pc _ Hw) as Hp. rewrite Hrd in Hp. destruct Hp as [Hrun Hdr].
  apply on_queue_ok; [done|apply set_running_ok, Hw|apply Hw| |by split].
  intros e Hr [[?|[Hv|?]]|Hl]; [by left; left| |by left; right; right|].
  - rewrite Hv in Hrun. apply Forall_inv in Hrun. congruence.
  - rewrite Hrd in Hl. by apply not_elem_of_nil in Hl.
Qed.

Lemma worker_turn_ok w w' : world_ok w → turn policy w w' → world_ok w'.
Proof.
  intros Hw Hs. destruct Hs as [w Hb|w rest Ha|w q' d Hl Hd
    |w now nr nk nn q' picked Hp Hpick|w Hwt|w e run k Ht|w e run k c j Hst|w k Hu|w e Hst
    |w e now now' winner Hr _ run|w e run c j Hrs|w Hrd|w Ha].
  - by apply boot_ok.
  - by apply adopt_ok.
  - by eapply drain_ok.
  - by eapply pick_step_ok.
  - pose proof (wo_pc _ Hw) as Hp. rewrite Hwt in Hp. apply on_queue_ok; [done|apply Hw..| |exact Hp].
    rewrite Hwt. done.
  - by apply track_ok.
  - by eapply settle_ok.
  - by apply untrack_ok.
  - by apply start_ok.
  - by apply run_ok.
  - pose proof (wo_pc _ Hw) as Hp. rewrite Hrs in Hp. destruct Hp as [Hrun Hdr].
    apply on_reply_ok; [done|by rewrite Hrs|]. cbn. rewrite Hrun. split.
    + constructor; [apply replied_insert_same|constructor].
    + intros. by apply all_replied_insert, Hdr.
  - by apply run_done_ok.
  - by apply panic_ok.
Qed.

(** ** What holds in every run, and what in the orderly ones *)
Definition bounded (w : World Json Precondition) : Prop :=
  queue_ok policy (w_queue w) ∧ (qi_closed (w_queue w) = true → w_closed_flag w = true).

Record calls_ok (w : World Json Precondition) : Prop := {
  co_old : c_old (w_calls w) = [];
  co_none : c_handle (w_calls w) = NoHandle → w_worker w = WDead;
}.

Record system_ok (w : World Json Precondition) : Prop := {
  so_bounded : bounded w;
  so_open :
    w_closed_flag w = false →
    c_old (w_calls w) = [] ∧ (c_handle (w_calls w) = NoHandle ∨ c_handle (w_calls w) = InSlot);
  so_orderly : c_orderly (w_calls w) = true → world_ok w ∧ calls_ok w;
}.

Lemma turn_bounded w w' : bounded w → turn policy w w' → bounded w'.
Proof.
  intros [Hq Hc] Hs. destruct Hs as [w Hb|w rest Ha|w q' d Hl Hd
    |w now nr nk nn q' picked Hp Hpick|w Hwt|w e run k Ht|w e run k c j Hst|w k Hu|w e Hst
    |w e now now' winner Hr _ run|w e run c j Hrs|w Hrd|w Ha]; try by split.
  - split; [by apply set_draining_ok, set_running_ok|exact Hc].
  - split; [by eapply drain_phase_ok|]. cbn. intros Hq'.
    apply drain_phase_cases in Hd as [(Hn & -> & _)|(Hn & _)]; [congruence|].
    destruct (w_closed_flag w) eqn:E; [done|]. by apply Hc.
  - split; [by eapply pick_ok|]. cbn.
    pose proof (pick_spec policy (w_tokens w) now nr nk nn (w_queue w) (qo_sorted _ _ Hq)) as H.
    cbv zeta in H. rewrite Hpick in H. destruct picked as [[e k]|]; [|by destruct H as [-> _]].
    destruct H as (_ & _ & p & d & before & after & _ & -> & _). exact Hc.
  - split; [by apply set_draining_ok|exact Hc].
  - split; [by apply set_draining_ok|exact Hc].
  - split; [by apply set_running_ok|exact Hc].
  - destruct (cooldown_after_frame now' run (w_queue w)) as (_ & _ & _ & H4).
    split; [by apply cooldown_after_ok|]. cbn. by rewrite H4.
  - split; [by apply set_running_ok|exact Hc].
Qed.

(** A turn changes neither the calls around the task nor the closed flag, and
    a dead task has none. *)
Lemma turn_frame w w' :
  turn policy w w' →
  w_calls w' = w_calls w ∧ w_closed_flag w' = w_closed_flag w ∧ w_accepted w' = w_accepted w ∧
  w_worker w ≠ WDead.
Proof. destruct 1; split_and!; try done; intros E; rewrite E in *; done. Qed.

Lemma abandon_bounded w completed journal_ok :
  w_closed_flag w = true → bounded w → bounded (settle_abandoned completed journal_ok w).
Proof.
  intros Hf [Hq Hc]. split; [|done]. rewrite settle_abandoned_queue.
  by destruct (take_abandoned (w_queue w)) as [[]] eqn:E; eapply take_abandoned_ok.
Qed.

(** What the calls around the task do not change. *)
Lemma counts_ok i j k w : system_ok w → system_ok (counts i j k w).
Proof. intros [Hb Hj Ho]. split; [done..|]. intros H. by destruct (Ho H) as [[] []]. Qed.

Lemma ensure_ok w : system_ok w → system_ok (ensure_worker w).
Proof.
  intros [Hb Ho Hc]. unfold ensure_worker.
  destruct (match c_handle _ with InSlot => _ | _ => _ end) eqn:Ev; [|done].
  split; [exact Hb| |]; cbn.
  - intros Hf. destruct (Ho Hf) as [-> [-> | ->]]; by auto.
  - intros [Ho' Hf%negb_true_iff]%andb_true_iff. destruct (Hc Ho') as [Hw [Hold Hnone]].
    destruct (Ho Hf) as [_ Hh]. split; [|split; cbn; [by destruct Hh as [-> | ->]|done]].
    assert (w_worker w = WDead) as Hd.
    { destruct Hh as [Hh|Hh]; [by apply Hnone|]. rewrite Hh in Ev.
      pose proof (wo_pc _ Hw) as Hp. rewrite Hf in Hp. by destruct (w_worker w). }
    destruct Hw as [Hq Hcl Hv Hp]. split; cbn; [done..| |].
    + rewrite Hd in Hv. exact Hv.
    + rewrite Hd, Hf in Hp. by apply Hp.
Qed.

Lemma enqueue_ok_system w e q' :
  system_ok w → enqueue policy (w_closed_flag w) e (w_queue w) = (q', Ok ()) →
  system_ok {| w_queue := q'; w_closed_flag := w_closed_flag w; w_tokens := w_tokens w;
               w_replies := w_replies w; w_worker := w_worker w;
               w_accepted := w_accepted w ++ [e]; w_calls := w_calls w |}.
Proof.
  intros [[Hq Hcl] Ho Hc] E. split; [|done|].
  - split; cbn; [by eapply enqueue_ok|]. unfold enqueue in E.
    destruct (qi_closed (w_queue w) || w_closed_flag w) eqn:Ec; [done|].
    apply orb_false_iff in Ec as [Ec _]. case_if; [done|]. injection E as <-. cbn. congruence.
  - intros H. destruct (Hc H) as [Hw []]. split; [by apply enqueue_step_ok|done].
Qed.

Lemma worker_ok_system w w' : system_ok w → turn policy w w' → system_ok w'.
Proof.
  intros [Hb Ho Hc] Ht. destruct (turn_frame w w' Ht) as (Hcalls & Hf & _ & Hnd). split.
  - by eapply turn_bounded.
  - by rewrite Hcalls, Hf.
  - rewrite Hcalls. intros H. destruct (Hc H) as [Hw [Hold Hnone]].
    split; [by eapply worker_turn_ok|]. split; rewrite Hcalls; [done|]. intros Hh. by apply Hnone in Hh.
Qed.

Lemma closed_ok_system w' :
  bounded w' → w_closed_flag w' = true → c_orderly (w_calls w') = false → system_ok w'.
Proof. intros Hb Hf Hn. split; [done|congruence|congruence]. Qed.

Lemma old_nonempty w before (x : handle * Pc) after :
  system_ok w → c_old (w_calls w) = before ++ x :: after →
  w_closed_flag w = true ∧ c_orderly (w_calls w) = false.
Proof.
  intros [_ Ho Hc] E. split.
  - destruct (w_closed_flag w); [done|]. destruct (Ho eq_refl) as [Hn _]. rewrite E in Hn.
    by destruct before.
  - destruct (c_orderly (w_calls w)); [|done]. destruct (Hc eq_refl) as [_ [Hn _]]. rewrite E in Hn.
    by destruct before.
Qed.

Lemma joining_closed w : system_ok w → c_handle (w_calls w) = Joining → w_closed_flag w = true.
Proof.
  intros [_ Ho _] E. destruct (w_closed_flag w); [done|]. destruct (Ho eq_refl) as [_ [?|?]]; congruence.
Qed.

Lemma suspended_cases (pc : Pc) : suspended pc = true → awaiting pc = true ∨ pc = WDead.
Proof. destruct pc; auto. Qed.

Lemma step_ok w w' : system_ok w → step policy w w' → system_ok w'.
Proof.
  intros Hw Hs. destruct Hs as [w e q' He _ _|w n Hn|w key|w Hf|w|w w' Ht|w n Hn _|w n Hn _|w n Hn _
    |w n Hn _ _|w Hf Hh|w c j Hh Hsu|w c j Hh _ _|w before h pc after w' Hold Ht|w before pc after c j Hold _].
  - by apply counts_ok, enqueue_ok_system.
  - by apply ensure_ok, counts_ok.
  - destruct Hw as [Hb Ho Hc]. split; [done..|]. intros H. by destruct (Hc H) as [[] []].
  - destruct Hw as [[Hq Hcl] Ho Hc]. split; [by split; [apply set_closed_ok|]|done|].
    intros H. destruct (Hc H) as [[? ? ? Hp] []]. split; [|done]. split; [by apply set_closed_ok|done..|].
    by eapply pc_ok_same; [..|exact Hp].
  - destruct Hw as [[Hq Hcl] Ho Hc]. split; [by split|done|]. intros H.
    destruct (Hc H) as [[? ? ? Hp] []]. split; [|done]. split; cbn; [done..|]. by eapply pc_ok_close.
  - by eapply worker_ok_system.
  - by apply counts_ok.
  - by apply counts_ok.
  - by apply counts_ok.
  - by apply counts_ok.
  - destruct Hw as [Hb Ho Hc]. split; [exact Hb|cbn; congruence|]. intros H.
    destruct (Hc H) as [[] []]. by split.
  - pose proof (joining_closed w Hw Hh) as Hf. destruct Hw as [Hb Ho Hc].
    split; [exact (abandon_bounded w c j Hf Hb)|cbn; congruence|]. intros H.
    destruct (Hc H) as [Hw [Hold _]]. apply suspended_cases in Hsu.
    destruct (abandon_ok w c j Hw Hf Hsu). by split.
  - pose proof (joining_closed w Hw Hh) as Hf. apply closed_ok_system; [|exact Hf|done].
    exact (abandon_bounded w c j Hf (so_bounded _ Hw)).
  - destruct (old_nonempty w _ _ _ Hw Hold) as [Hf Hn]. destruct (turn_frame _ _ Ht) as (_ & Hf' & _).
    apply closed_ok_system; [|by cbn; rewrite Hf'|done].
    exact (turn_bounded (set_worker pc w) w' (so_bounded _ Hw) Ht).
  - destruct (old_nonempty w _ _ _ Hw Hold) as [Hf Hn]. apply closed_ok_system; [|exact Hf|done].
    exact (abandon_bounded w c j Hf (so_bounded _ Hw)).
Qed.

Lemma reaches_system capacity w : reaches policy capacity w → system_ok w.
Proof.
  intros H. assert (system_ok (world_new capacity)) as H0.
  { assert (queue_ok policy (queue_new (Json := Json) (Precondition := Precondition) capacity))
      by (by split; [constructor|cbn; lia..|constructor]).
    split; [by split|by auto|]. intros _. split; [|by split]. split; [done..| |].
    - intros e []%not_elem_of_nil.
    - intros _ e e' []%not_elem_of_nil. }
  unfold reaches in H. revert H0. induction H as [w|w w1 w2 Hs _ IH]; [done|].
  intros Hw. by eapply IH, step_ok.
Qed.

Lemma reaches_ok capacity w :
  reaches policy capacity w → c_orderly (w_calls w) = true → world_ok w.
Proof. intros Hw%reaches_system Ho. by apply Hw. Qed.

(** C3: no receipt hangs.  In every interleaving of clients, supervisors, the
    worker's critical sections, its panics and restarts and the shutdown, the
    queue stays within its capacity.  In every run in which no task was
    started after the engine closed and no forced stop fell on a task between
    two of its await points, a forced stop of a task that is suspended or has
    died leaves every request that was ever accepted with a reply. *)
Theorem accepted_answered capacity w completed journal_ok :
  reaches policy capacity w →
  0 ≤ qi_len (w_queue w) ≤ Z.of_nat (qi_capacity (w_queue w)) ∧
  (c_orderly (w_calls w) = true → suspended (w_worker w) = true →
   ∀ e, e ∈ w_accepted w →
     is_Some (w_replies (abandon completed journal_ok w) !! qe_reply e)).
Proof.
  intros Hr. pose proof (reaches_system capacity w Hr) as Hw. split.
  - destruct (so_bounded _ Hw) as [[_ Hl Hb _] _]. lia.
  - intros Ho Hs%suspended_cases e Hin.
    pose proof (abandon_answers w e completed journal_ok (reaches_ok capacity w Hr Ho) Hs Hin) as H.
    unfold replied in H. by destruct (_ !! _).
Qed.

(** ** The shutdown drain terminates

    The rounds of the worker loop on a closed queue: each settles the front of
    the draining list, and the entry is removed once it is answered. *)
Fixpoint drain_rounds (completed : Entry → Z) (journal_ok : Entry → bool) (fuel : nat)
    (flag : bool) (q : Queue) (m : Replies) : option (Queue * Replies) :=
  match fuel with
  | O => None
  | S fuel' =>
      match drain_phase flag q with
      | (q', Drain.Exit) => Some (q', m)
      | (q', Drain.Proceed) => None
      | (q', Drain.Settle e) =>
          let m' := <[qe_reply e :=
            settled e RunResult.Cancelled (completed e) (journal_ok e)]> m in
          drain_rounds completed journal_ok fuel' flag (untrack (replied m') (track e q')) m'
      end
  end.

Section drain.
Context (completed : Entry → Z) (journal_ok : Entry → bool).

Lemma drain_rounds_mono fuel flag q m q' m' e :
  drain_rounds completed journal_ok fuel flag q m = Some (q', m') →
  replied m e = true → replied m' e = true.
Proof.
  revert q m. induction fuel as [|fuel IH]; intros q m; [done|]. cbn [drain_rounds].
  destruct (drain_phase flag q) as [q1 [|e1|]]; [by intros [= _ <-]| |done].
  intros H Hr. eapply IH; [exact H|]. by apply replied_insert_mono.
Qed.

(** The rounds are steps of the system. *)
Lemma drain_rounds_steps fuel flag q m q' m' tokens acc c :
  drain_rounds completed journal_ok fuel flag q m = Some (q', m') →
  rtc (step policy) (mkWorld q flag tokens m WLoop acc c) (mkWorld q' flag tokens m' WExited acc c).
Proof.
  revert q m. induction fuel as [|fuel IH]; intros q m; [done|]. cbn [drain_rounds].
  destruct (drain_phase flag q) as [q1 [|e|]] eqn:Ed; [| |done].
  - intros [= <- <-]. apply rtc_once, step_worker.
    exact (step_drain policy (mkWorld q flag tokens m WLoop acc c) q1 _ eq_refl Ed).
  - intros H. eapply rtc_l.
    { apply step_worker. exact (step_drain policy (mkWorld q flag tokens m WLoop acc c) q1 _ eq_refl Ed). }
    eapply rtc_l; [by eapply step_worker, step_track|].
    eapply rtc_l; [eapply step_worker, (step_settle _ _ _ _ _ (completed e) (journal_ok e)); reflexivity|].
    eapply rtc_l; [by eapply step_worker, step_untrack|]. exact (IH _ _ H).
Qed.

Definition unanswered (m : Replies) (l : list Entry) : nat := length (filter (λ e, replied m e = false) l).

Lemma unanswered_settle m e r l :
  replied m e = false →
  (unanswered (<[qe_reply e := r]> m) (drop_replied (replied (<[qe_reply e := r]> m)) (e :: l ++ [e]))
   < unanswered m (e :: l))%nat.
Proof.
  intros He. set (m' := <[qe_reply e := r]> m).
  assert (replied m' e = true) as He' by apply replied_insert_same.
  assert (∀ l, unanswered m' (drop_replied (replied m') l) = unanswered m' l) as Hdrop.
  { intros l0. induction l0 as [|e0 l0 IH]; [done|]. cbn [drop_replied].
    destruct (replied m' e0) eqn:E; [|done]. rewrite IH. unfold unanswered. rewrite filter_cons.
    by rewrite decide_False by congruence. }
  assert (∀ l, unanswered m' l ≤ unanswered m l)%nat as Hle.
  { intros l0. unfold unanswered. induction l0 as [|e0 l0 IH]; [done|]. rewrite !filter_cons.
    destruct (decide (replied m' e0 = false)) as [E|]; destruct (decide (replied m e0 = false)) as [|E2];
      cbn [length]; try lia. apply not_false_is_true in E2.
    apply (replied_insert_mono _ e e0 r) in E2. subst m'. congruence. }
  rewrite Hdrop. unfold unanswered. rewrite filter_cons, decide_False by congruence.
  rewrite filter_app, length_app, (filter_cons _ e []), decide_False by congruence.
  rewrite filter_cons, decide_True by done. cbn [length filter list_filter]. specialize (Hle l).
  unfold unanswered in Hle. cbn. lia.
Qed.

(** A closed queue whose entries have been moved to the draining list. *)
Definition moved (q : Queue) : Prop :=
  btree_values (qi_entries q) = [] ∧ qi_len q = 0 ∧ qi_running q = None ∧ qi_closed q = true.

Definition head_unanswered (m : Replies) (l : list Entry) : Prop :=
  match l with e :: _ => replied m e = false | [] => True end.

Lemma drop_replied_head (f : Entry → bool) l e l' : drop_replied f l = e :: l' → f e = false.
Proof.
  induction l as [|e0 l IH]; [done|]. cbn [drop_replied]. destruct (f e0) eqn:E; [done|].
  by intros [= <- _].
Qed.

Lemma drain_moved q : moved q → drain_phase true q =
  (set_closed true q, match qi_draining q with e :: _ => Drain.Settle e | [] => Drain.Exit end).
Proof.
  intros (Hv & Hl & Hr & Hc). unfold drain_phase. cbn [set_closed qi_closed negb].
  unfold move_queued. cbn [set_closed qi_len]. rewrite Hl. cbn [Z.ltb Z.compare].
  cbn [set_closed qi_draining qi_running]. rewrite Hr. by destruct (qi_draining q).
Qed.

Lemma drain_rounds_moved fuel q m :
  moved q → head_unanswered m (qi_draining q) → (unanswered m (qi_draining q) < fuel)%nat →
  ∃ q' m', drain_rounds completed journal_ok fuel true q m = Some (q', m') ∧
    moved q' ∧ qi_draining q' = [] ∧ (∀ e, e ∈ qi_draining q → replied m' e = true).
Proof.
  revert q m. induction fuel as [|fuel IH]; intros q m Hm Hh Hf; [lia|].
  cbn [drain_rounds]. rewrite (drain_moved q Hm). destruct (qi_draining q) as [|e l] eqn:Ed.
  { exists (set_closed true q), m. split_and!; [done| |done|by intros ? []%not_elem_of_nil].
    by destruct Hm as (? & ? & ? & ?). }
  set (r := settled e RunResult.Cancelled (completed e) (journal_ok e)).
  set (m1 := <[qe_reply e := r]> m). set (q1 := untrack _ _). cbn [head_unanswered] in Hh.
  assert (qi_draining q1 = drop_replied (replied m1) (e :: l ++ [e])) as Hd1.
  { subst q1. unfold untrack, track. cbn. by rewrite Ed. }
  destruct (IH q1 m1) as (q' & m' & Hrun & Hq' & Hdr & Hall).
  - by destruct Hm as (? & ? & ? & ?).
  - rewrite Hd1. destruct (drop_replied _ _) eqn:E; [done|]. by eapply drop_replied_head.
  - rewrite Hd1. pose proof (unanswered_settle m e r l Hh). subst m1. lia.
  - exists q', m'. split_and!; [done..|]. intros e' Hin.
    destruct (replied m1 e') eqn:E; [by eapply drain_rounds_mono|].
    apply Hall. rewrite Hd1. apply drop_replied_elem; [|done]. set_solver.
Qed.

(** One more round when the front was answered already. *)
Lemma drain_rounds_any q m :
  moved q →
  ∃ fuel q' m', drain_rounds completed journal_ok fuel true q m = Some (q', m') ∧
    moved q' ∧ qi_draining q' = [] ∧ (∀ e, e ∈ qi_draining q → replied m' e = true).
Proof.
  intros Hm. destruct (qi_draining q) as [|e l] eqn:Ed.
  { destruct (drain_rounds_moved 1 q m) as (q' & m' & H & ? & ? & _); [done|by rewrite Ed|rewrite Ed; cbn; lia|].
    exists 1%nat, q', m'. split_and!; [done..|]. by intros ? []%not_elem_of_nil. }
  set (r := settled e RunResult.Cancelled (completed e) (journal_ok e)).
  set (m1 := <[qe_reply e := r]> m).
  set (q1 := untrack (replied m1) (track e (set_closed true q))).
  assert (qi_draining q1 = drop_replied (replied m1) (e :: l ++ [e])) as Hd1.
  { subst q1. unfold untrack, track. cbn. by rewrite Ed. }
  destruct (drain_rounds_moved (S (unanswered m1 (qi_draining q1))) q1 m1)
    as (q' & m' & H & Hq' & Hd' & Hall); [by destruct Hm as (? & ? & ? & ?)| |lia|].
  { rewrite Hd1. destruct (drop_replied _ _) eqn:E; [done|]. by eapply drop_replied_head. }
  exists (S (S (unanswered m1 (qi_draining q1)))), q', m'. split_and!; [|done..|].
  - cbn [drain_rounds]. rewrite (drain_moved q Hm), Ed. exact H.
  - intros e' Hin. destruct (replied m1 e') eqn:E; [by eapply drain_rounds_mono|].
    apply Hall. rewrite Hd1. apply drop_replied_elem; [|done]. set_solver.
Qed.
End drain.

Lemma move_queued_moved q :
  queue_ok policy q → qi_running q = None →
  moved (move_queued (set_closed true q)) ∧
  drain_phase true (move_queued (set_closed true q)) = drain_phase true q.
Proof.
  intros [_ Hl _ _] Hr. unfold move_queued. cbn [set_closed qi_len].
  destruct (Z.ltb_spec 0 (qi_len q)).
  - assert (moved (set_draining (qi_draining (set_closed true q) ++ btree_values (qi_entries (set_closed true q)))
      (set_queued ((λ '(p, _), (p, [])) <$> qi_entries (set_closed true q)) 0 (set_closed true q)))) as Hm.
    { split_and!; [apply btree_values_cleared|done..]. }
    split; [done|]. rewrite (drain_moved _ Hm). unfold drain_phase, move_queued.
    cbn [set_closed qi_closed negb qi_len]. destruct (Z.ltb_spec 0 (qi_len q)); [|lia].
    cbn. destruct (qi_draining q ++ _); by rewrite ?Hr.
  - assert (moved (set_closed true q)) as Hm.
    { split_and!; [|cbn; lia|done..]. cbn [set_closed qi_entries]. apply nil_length_inv. lia. }
    split; [done|]. rewrite (drain_moved _ Hm). unfold drain_phase, move_queued.
    cbn [set_closed qi_closed negb qi_len]. destruct (Z.ltb_spec 0 (qi_len q)); [lia|].
    cbn. destruct (qi_draining q); by rewrite ?Hr.
Qed.

(** C30: an orderly shutdown terminates.  From every state of an orderly run
    (no task was started after the engine closed, no forced stop fell on a task
    between two await points) in which the engine is closed and the worker is
    at the top of its loop, the worker can run to its exit, whatever the
    journal answers; then nothing is queued, draining or running, and every
    accepted request has a reply. *)
Theorem shutdown_drains capacity w (completed : Entry → Z) (journal_ok : Entry → bool) :
  reaches policy capacity w → c_orderly (w_calls w) = true →
  w_worker w = WLoop → w_closed_flag w = true →
  ∃ w', rtc (step policy) w w' ∧ w_worker w' = WExited ∧
    btree_values (qi_entries (w_queue w')) = [] ∧ qi_draining (w_queue w') = [] ∧
    qi_running (w_queue w') = None ∧
    ∀ e, e ∈ w_accepted w' → is_Some (w_replies w' !! qe_reply e).
Proof.
  intros Hreach Hord Hpc Hflag. pose proof (reaches_ok capacity w Hreach Hord) as Hw.
  pose proof (wo_pc _ Hw) as Hp. rewrite Hpc in Hp.
  destruct Hp as [Hrun _]. destruct w as [q flag tokens m pc acc c]. cbn in Hpc, Hflag, Hrun. subst pc flag.
  destruct (move_queued_moved q (wo_queue _ Hw) Hrun) as [Hm Hphase].
  destruct (drain_rounds_any completed journal_ok _ m Hm) as (fuel & q' & m' & Hr & Hq' & Hd' & Hall).
  assert (drain_rounds completed journal_ok fuel true q m = Some (q', m')) as Hr'.
  { destruct fuel as [|fuel]; [done|]. cbn [drain_rounds] in *. by rewrite <- Hphase. }
  exists (mkWorld q' true tokens m' WExited acc c). destruct Hq' as (Hv' & _ & Hr0 & _).
  split_and!; [by apply (drain_rounds_steps completed journal_ok fuel)|done..|].
  cbn [w_accepted w_replies]. intros e Hin. enough (replied m' e = true) as He.
  { unfold replied in He. by destruct (m' !! _). }
  destruct (replied m e) eqn:E; [by eapply drain_rounds_mono|]. apply Hall.
  destruct (wo_visible _ Hw e Hin E) as [Hv|Hv]; [|by apply not_elem_of_nil in Hv].
  cbn [w_queue] in Hv. destruct (move_queued_visible (set_closed true q) e) as [H1|[H1|H1]];
    [apply (qo_len _ _ (wo_queue _ Hw))|exact Hv| | |done].
  - destruct Hm as (Hm & _). rewrite Hm in H1. by apply not_elem_of_nil in H1.
  - destruct Hm as (_ & _ & Hm & _). congruence.
Qed.
(** ** A reply that nobody writes

    The entries a task refers to, and those that are reachable at all: from
    the shared state or from a task.  A reply cell that no reachable entry
    carries stays empty. *)
Definition mentioned (pc : Pc) : list Entry :=
  match pc with
  | WAdopt rest => rest
  | WTrack e _ k | WSettle e _ k => e :: after_local k
  | WUntrack k => after_local k
  | WStart e | WRun e | WRunSettle e _ => [e]
  | _ => []
  end.

Definition reachable w x : Prop := visible (w_queue w) x ∨ x ∈ mentioned (w_worker w).

Record lost (cell : nat) (w : World Json Precondition) : Prop := {
  lo_accepted : Exists (λ e, qe_reply e = cell) (w_accepted w);
  lo_reply : w_replies w !! cell = None;
  lo_task x : reachable w x → qe_reply x ≠ cell;
  lo_old h pc x : (h, pc) ∈ c_old (w_calls w) → x ∈ mentioned pc → qe_reply x ≠ cell;
}.

Lemma move_queued_known q e : visible (move_queued q) e → visible q e.
Proof.
  unfold move_queued. case_if; [|done]. unfold visible. cbn [set_draining set_queued qi_entries qi_running qi_draining].
  rewrite btree_values_cleared, elem_of_app, elem_of_nil. tauto.
Qed.

Lemma drain_phase_known flag q q' d e :
  drain_phase flag q = (q', d) →
  (visible q' e ∨ e ∈ mentioned (drain_pc d)) → visible q e.
Proof.
  intros Hd. assert (visible q' e → visible q e) as Hv.
  { apply drain_phase_cases in Hd as [(_ & -> & _)|(_ & -> & _)]; [by destruct flag|].
    intros H%move_queued_known. by destruct flag. }
  intros [H|H]; [by apply Hv|]. destruct d as [|e'|]; [by apply not_elem_of_nil in H| |by apply not_elem_of_nil in H].
  apply list_elem_of_singleton in H as ->. apply Hv.
  apply drain_phase_cases in Hd as [(_ & _ & ?)|(_ & _ & l & Hl)]; [done|]. right; right. rewrite Hl. by left.
Qed.

Lemma pick_known tokens now nr nk nn q q' picked e :
  queue_ok policy q → pick policy tokens now nr nk nn q = (q', Ok picked) →
  (visible q' e ∨ e ∈ mentioned (picked_pc picked)) → visible q e.
Proof.
  intros Hq Hp. pose proof (pick_spec policy tokens now nr nk nn q (qo_sorted _ _ Hq)) as H.
  cbv zeta in H. rewrite Hp in H. destruct picked as [[e' k]|].
  - destruct H as (_ & _ & p & d & before & after & Heq & -> & _).
    assert (e ∈ btree_values (before ++ (p, d) :: after) ∨ e = e' → visible q e) as Hv.
    { intros Hv. left. rewrite Heq, split_values. apply elem_of_cons. tauto. }
    intros [[Hv'|[?|?]]|Hm]; [by apply Hv; left|by right; left|by right; right|].
    apply Hv. right. destruct k; by apply list_elem_of_singleton in Hm.
  - destruct H as [-> _]. intros [?|[]%not_elem_of_nil]. done.
Qed.

(** A turn finds no entry it could not reach, and writes the reply of one. *)
Lemma turn_reachable w w' x :
  queue_ok policy (w_queue w) → turn policy w w' → reachable w' x → reachable w x.
Proof.
  intros Hq Hs. unfold reachable. destruct Hs as [w Hb|w rest Ha|w q' d Hl Hd
    |w now nr nk nn q' picked Hp Hpick|w Hwt|w e run k Ht|w e run k c j Hst|w k Hu|w e Hst
    |w e now now' winner Hr _ run|w e run c j Hrs|w Hrd|w Ha]; cbn [on_queue on_reply w_queue w_worker].
  - unfold boot, visible. cbn. intros [[?|[?|?%not_elem_of_nil]]|H]; [by left; left|done..|]. left; right.
    destruct (qi_running (w_queue w)) as [o|]; [|by right].
    destruct (replied (w_replies w) o); [by right|]. cbn in H. apply elem_of_cons in H as [->|?]; auto.
  - intros [?|H]; [by left|]. right. rewrite Ha. cbn. destruct rest as [|e rest]; [by apply not_elem_of_nil in H|].
    cbn in H. destruct (replied _ e); [by right|exact H].
  - intros H. left. by eapply drain_phase_known.
  - intros H. left. by eapply pick_known.
  - intros [?|[]%not_elem_of_nil]. by left.
  - rewrite Ht. intros [[?|[?|H]]|H]; [by left; left|by left; right; left| |by right].
    cbn in H. apply elem_of_app in H as [?|?%list_elem_of_singleton]; [by left; right; right|subst; right; by left].
  - rewrite Hst. intros [?|H]; [by left|right; by right].
  - rewrite Hu. intros [[?|[?|H]]|H]; [by left; left|by left; right; left| |right].
    + left; right; right. by apply drop_replied_subset in H.
    + by destruct k as [rest|]; [|apply not_elem_of_nil in H].
  - rewrite Hst. intros [[?|[H|?]]|H]; [by left; left| |by left; right; right|by right].
    injection H as <-. right. by left.
  - rewrite Hr. destruct (cooldown_after_frame now' run (w_queue w)) as (H1 & H2 & H3 & _).
    unfold visible. rewrite H1, H2, H3. done.
  - rewrite Hrs. intros [?|[]%not_elem_of_nil]. by left.
  - intros [[?|[?|?]]|[]%not_elem_of_nil]; [by left; left|done|by left; right; right].
  - intros [?|[]%not_elem_of_nil]. by left.
Qed.

Lemma turn_replies w w' cell :
  turn policy w w' → w_replies w !! cell = None →
  (∀ x, reachable w x → qe_reply x ≠ cell) → w_replies w' !! cell = None.
Proof.
  intros Hs Hn Hx. destruct Hs as [w Hb|w rest Ha|w q' d Hl Hd
    |w now nr nk nn q' picked Hp Hpick|w Hwt|w e run k Ht|w e run k c j Hst|w k Hu|w e Hst
    |w e now now' winner Hr _ run|w e run c j Hrs|w Hrd|w Ha]; try exact Hn; cbn.
  - rewrite lookup_insert_ne; [done|]. apply Hx. right. rewrite Hst. by left.
  - rewrite lookup_insert_ne; [done|]. apply Hx. right. rewrite Hrs. by left.
Qed.

Lemma settle_all_none run completed journal_ok m l cell :
  m !! cell = None → (∀ x, x ∈ l → qe_reply x ≠ cell) →
  settle_all run completed journal_ok m l !! cell = None.
Proof.
  unfold settle_all. revert m. induction l as [|e l IH]; intros m Hm Hl; [done|]. cbn [foldl].
  apply IH; [|intros; apply Hl; by right]. destruct (replied m e); [done|].
  rewrite lookup_insert_ne; [done|]. apply Hl. by left.
Qed.

Lemma settle_abandoned_lost w completed journal_ok cell :
  lost cell w → lost cell (settle_abandoned completed journal_ok w).
Proof.
  intros [Ha Hr Ht Ho]. split; [exact Ha| | |exact Ho].
  - unfold settle_abandoned, take_abandoned. cbn [w_replies]. apply settle_all_none; [apply settle_all_none|].
    + done.
    + intros x Hx. apply Ht. left; right; left. destruct (qi_running (w_queue w)) as [o|];
        [|by apply not_elem_of_nil in Hx]. by apply list_elem_of_singleton in Hx as ->.
    + intros x [?|?]%elem_of_app; apply Ht; left; [by left|by right; right].
  - intros x [H|H]; [|apply Ht; by right]. rewrite settle_abandoned_queue in H.
    unfold visible, take_abandoned in H. cbn [fst qi_entries qi_running qi_draining] in H.
    rewrite btree_values_cleared in H. destruct H as [[]%not_elem_of_nil|[?|[]%not_elem_of_nil]]. done.
Qed.

Lemma turn_lost w w' cell :
  queue_ok policy (w_queue w) → turn policy w w' → lost cell w → lost cell w'.
Proof.
  intros Hq Ht [Ha Hr Hx Ho]. destruct (turn_frame w w' Ht) as (Hc & _ & Hacc & _). split.
  - by rewrite Hacc.
  - by eapply turn_replies.
  - intros x H. apply Hx. by eapply turn_reachable.
  - rewrite Hc. exact Ho.
Qed.

Lemma ensure_lost w cell : lost cell w → lost cell (ensure_worker w).
Proof.
  intros [Ha Hr Ht Ho]. unfold ensure_worker. destruct (match c_handle _ with InSlot => _ | _ => _ end); [|done].
  split; [exact Ha|exact Hr| |].
  - intros x [H|[]%not_elem_of_nil]. apply Ht. by left.
  - cbn. intros h pc x Hin Hx. destruct (c_handle (w_calls w)); try by eapply Ho.
    + apply elem_of_cons in Hin as [[= -> ->]|Hin]; [|by eapply Ho]. apply Ht. by right.
    + apply elem_of_cons in Hin as [[= -> ->]|Hin]; [|by eapply Ho]. apply Ht. by right.
Qed.

Lemma enqueue_lost w e q' n i j cell :
  enqueue policy (w_closed_flag w) e (w_queue w) = (q', Ok ()) →
  Forall (λ x, qe_reply x ≠ qe_reply e) (w_accepted w) → lost cell w →
  lost cell (counts n i j
    {| w_queue := q'; w_closed_flag := w_closed_flag w; w_tokens := w_tokens w;
       w_replies := w_replies w; w_worker := w_worker w;
       w_accepted := w_accepted w ++ [e]; w_calls := w_calls w |}).
Proof.
  intros E Hf [Ha Hr Ht Ho]. assert (qe_reply e ≠ cell) as Hne.
  { apply Exists_exists in Ha as (x & Hx & <-). intros Heq. by apply (proj1 (Forall_forall _ _) Hf x Hx). }
  unfold enqueue in E. destruct (_ || _); [done|]. destruct (_ <=? _); [done|]. injection E as <-.
  split; [apply Exists_app; by left|exact Hr| |exact Ho].
  intros x [[H|H]|H]; [|apply Ht; left; by right|apply Ht; by right].
  cbn [counts on_calls w_queue set_queued qi_entries] in H. rewrite btree_push_values in H. apply elem_of_app in H as [?|?%list_elem_of_singleton]; [|by subst].
  apply Ht. left. by left.
Qed.

Lemma step_lost w w' cell : system_ok w → step policy w w' → lost cell w → lost cell w'.
Proof.
  intros Hw Hs Hlost. destruct Hs as [w e q' He _ Hf|w n Hn|w key|w Hf|w|w w' Ht|w n Hn _|w n Hn _|w n Hn _
    |w n Hn _ _|w Hf Hh|w c j Hh Hsu|w c j Hh _ _|w before h pc after w' Hold Ht|w before pc after c j Hold _].
  - by apply enqueue_lost.
  - apply ensure_lost. by destruct Hlost.
  - by destruct Hlost.
  - by destruct Hlost.
  - by destruct Hlost.
  - by eapply turn_lost; [apply Hw|..].
  - by destruct Hlost.
  - by destruct Hlost.
  - by destruct Hlost.
  - by destruct Hlost.
  - by destruct Hlost.
  - destruct (settle_abandoned_lost w c j cell Hlost) as [Ha Hr Ht Ho]. split; [done..| |done].
    intros x [H|[]%not_elem_of_nil]. apply Ht. by left.
  - by destruct (settle_abandoned_lost w c j cell Hlost).
  - destruct Hlost as [Ha Hr Hx Ho].
    assert (lost cell (set_worker pc w)) as Hlost'.
    { split; [done..| |done]. intros x [H|H]; [apply Hx; by left|]. eapply Ho; [|done]. rewrite Hold.
      apply elem_of_app. right. by left. }
    destruct (turn_lost (set_worker pc w) w' cell (proj1 (so_bounded _ Hw)) Ht Hlost') as [Ha' Hr' Hx' Ho'].
    split; [exact Ha'|exact Hr'| |].
    + intros x [H|H]; [apply Hx'; by left|apply Hx; by right].
    + cbn. intros h' pc' x Hin Hm. apply elem_of_app in Hin as [Hin|[[= -> ->]|Hin]%elem_of_cons];
        [eapply Ho; [|done]; rewrite Hold; apply elem_of_app; by left|apply Hx'; by right
        |eapply Ho; [|done]; rewrite Hold; apply elem_of_app; right; by right].
  - destruct (settle_abandoned_lost w c j cell Hlost) as [Ha Hr Ht Ho]. split; [done..|].
    cbn. intros h' pc' x Hin Hm. apply elem_of_app in Hin as [Hin|[[= -> ->]|Hin]%elem_of_cons].
    + eapply Ho; [|done]. cbn. rewrite Hold. apply elem_of_app. by left.
    + destruct (suspended pc); [by apply not_elem_of_nil in Hm|]. eapply Ho; [|done]. cbn. rewrite Hold.
      apply elem_of_app. right. by left.
    + eapply Ho; [|done]. cbn. rewrite Hold. apply elem_of_app. right. by right.
Qed.

Lemma lost_forever capacity w w' cell :
  reaches policy capacity w → lost cell w → rtc (step policy) w w' → w_replies w' !! cell = None.
Proof.
  intros Hw%reaches_system Hl Hs. revert Hw Hl. induction Hs as [w|w w1 w2 Hs _ IH]; intros Hw Hl.
  - by apply Hl.
  - apply IH; [by eapply step_ok|by eapply step_lost].
Qed.
End laws.
