(* ===== verification/ControlExamples.v ===== *)
(** * The control theorems on concrete inputs

    A concrete record codec, a scripted executor and short runs of a queue:
    the hypotheses of the theorems about the control engine hold there. *)

From S2P Require Import Prelude RustStd ObservationModel ControlModel ControlJournal ControlQueue ControlWorker.
From S2P Require Import RustFloat ProfileModel ProfileConvert ProfileLaws ControlValidate ControlValidateLaws.
From S2P Require Import ControlSubmit ControlSubmitLaws.
From stdpp Require Import options.

(** ** Policy *)
Lemma policy_effective_timeout_witness :
  0 < effective_timeout_ms policy_default (OperationKind.Command CommandRiskLevel.Low) 60000.
Proof.
  apply (policy_effective_timeout policy_default (OperationKind.Command CommandRiskLevel.Low) 60000).
  - vm_compute. reflexivity.
  - vm_compute. discriminate.
  - apply map_Forall_to_list. vm_compute. repeat constructor; discriminate.
  - lia.
Defined.

(** ** A codec: a record as one character, from its countable encoding *)
Definition status_index (s : ControlStatus.t) : nat :=
  match s with
  | ControlStatus.Accepted => 0 | ControlStatus.Running => 1 | ControlStatus.Succeeded => 2
  | ControlStatus.Failed => 3 | ControlStatus.Rejected => 4 | ControlStatus.Timeout => 5
  | ControlStatus.Cancelled => 6 | ControlStatus.Indeterminate => 7
  end.
Definition status_of (n : nat) : option ControlStatus.t :=
  [ControlStatus.Accepted; ControlStatus.Running; ControlStatus.Succeeded; ControlStatus.Failed;
   ControlStatus.Rejected; ControlStatus.Timeout; ControlStatus.Cancelled;
   ControlStatus.Indeterminate] !! n.

#[export] Instance status_countable : Countable ControlStatus.t.
Proof. refine (inj_countable status_index status_of _). by intros []. Defined.

#[export] Instance error_eq_dec : EqDecision ControlError.
Proof. solve_decision. Defined.
#[export] Instance error_countable : Countable ControlError.
Proof.
  refine (inj_countable' (λ e, (ce_code e, ce_details e)) (λ '(c, d), mkControlError c d) _).
  by intros [].
Defined.

#[export] Instance item_eq_dec : EqDecision PropertyWriteItemResult.
Proof. solve_decision. Defined.
#[export] Instance item_countable : Countable PropertyWriteItemResult.
Proof.
  refine (inj_countable' (λ i, (pw_path i, pw_success i, pw_protocol_code i, pw_error i))
    (λ '(p, s, c, e), mkPropertyWriteItemResult p s c e) _). by intros [].
Defined.

#[export] Instance command_eq_dec : EqDecision (CommandResult ()).
Proof. solve_decision. Defined.
#[export] Instance payload_eq_dec : EqDecision (ControlPayloadResult.t ()).
Proof. solve_decision. Defined.
#[export] Instance payload_countable : Countable (ControlPayloadResult.t ()).
Proof.
  refine (inj_countable'
    (λ p, match p with
          | ControlPayloadResult.PropertyWrite items => inl items
          | ControlPayloadResult.Command r => inr (cr_device_code r, cr_payload r)
          end)
    (λ s, match s with
          | inl items => ControlPayloadResult.PropertyWrite items
          | inr (c, p) => ControlPayloadResult.Command (mkCommandResult c p)
          end) _). by intros [|[]].
Defined.

#[export] Instance result_eq_dec : EqDecision (ControlResult ()).
Proof. solve_decision. Defined.
#[export] Instance result_countable : Countable (ControlResult ()).
Proof.
  refine (inj_countable'
    (λ r, (res_request_id r, res_namespace r, res_device_id r, res_status r,
           res_started_at_ns r, res_completed_at_ns r, res_result r, res_error r))
    (λ '(a, b, c, d, e, f, g, h), mkControlResult a b c d e f g h) _). by intros [].
Defined.

#[export] Instance record_eq_dec : EqDecision (LogRecord.t ()).
Proof. solve_decision. Defined.
#[export] Instance record_countable : Countable (LogRecord.t ()).
Proof.
  refine (inj_countable'
    (λ r, match r with
          | LogRecord.Insert k h s c x => inl (k, h, s, c, x)
          | LogRecord.Settle k r => inr (k, r)
          end)
    (λ s, match s with
          | inl (k, h, s, c, x) => LogRecord.Insert k h s c x
          | inr (k, r) => LogRecord.Settle k r
          end) _). by intros [].
Defined.

#[export] Instance example_codec : RecordCodec () := {|
  to_line r := Some [65; Z.pos (encode r) + 32];
  from_line l := match l with [_; c] => decode (Z.to_pos (c - 32)) | _ => None end;
|}.

#[export] Instance example_codec_laws : RecordCodecLaws ().
Proof.
  split. intros r l [= <-]. split; [|split_and!].
  - cbn. rewrite Z.add_simpl_r. apply decode_encode.
  - unfold newline. rewrite !not_elem_of_cons. split_and!; [done|lia|apply not_elem_of_nil].
  - unfold carriage_return. cbn. intros [=]. lia.
  - unfold trim. cbn [trim_start]. change (is_whitespace 65) with false. cbv iota.
    cbn [reverse rev_append]. unfold reverse. cbn [rev_append trim_start].
    destruct (is_whitespace _); [|done]. by change (is_whitespace 65) with false.
Defined.

#[export] Instance example_order : HashOrder () :=
  {| values m := (map_to_list m).*2; values_perm _ := reflexivity _ |}.

(** ** A journal that is written, crashes and is opened again *)
Definition example_key : IdempotencyKey :=
  {| ik_namespace := lit "n"; ik_device_id := lit "d"; ik_request_id := lit "r" |}.

Definition empty_journal : FileJournal () := {| fj_disk := []; fj_attached := true; fj_entries := ∅ |}.

Definition example_journal : FileJournal () :=
  (file_try_insert None example_key (lit "h") 5 100 empty_journal).1.

Lemma example_journal_at once : journal_at once 5 example_journal.
Proof. apply (ja_insert once 0); [constructor|lia|lia|by left]. Defined.

Lemma journal_reopens_witness :
  ∃ d j', open CompactFault.None 200 (Some (fj_disk example_journal)) = (d, Ok j').
Proof.
  apply (journal_reopens 5 200 example_journal); [|apply example_journal_at|lia].
  intros r. by eexists.
Defined.

Lemma journal_crash_safe_witness :
  ∃ d j', open CompactFault.None 10 (Some (fj_disk example_journal)) = (d, Ok j') ∧
    is_Some (fj_entries j' !! example_key).
Proof.
  destruct (open CompactFault.None 10 (Some (fj_disk example_journal))) as [d [j'| |]] eqn:E;
    [|exfalso; vm_compute in E; discriminate E..].
  exists d, j'. split; [done|].
  destruct (journal_crash_safe false 5 10 example_journal (example_journal_at false) ltac:(lia)) as [H _].
  specialize (H CompactFault.None d j' example_key E).
  assert (fj_entries example_journal !! example_key = Some (new_entry example_key (lit "h") 5 100)) as He
    by (vm_compute; reflexivity).
  rewrite He in H. cbn [new_entry je_expires_at_ns] in H. change (10 <=? 100) with true in H.
  destruct H as (e' & -> & _). by eexists.
Defined.

Lemma double_settlement_corrupts_witness :
  ∃ disk, open CompactFault.None 200 (Some disk) = (Some disk, Err (JournalError.Corrupt 3)).
Proof.
  eexists. eapply (double_settlement_corrupts example_key (lit "h") 5 100 200
    (interrupted 6 example_key) (interrupted 7 example_key)); [reflexivity|lia].
Defined.

(** ** A queue with two priorities *)
Abbreviation ExEntry := (QueuedEntry () ()).

Definition example_entry (n : nat) (risk : CommandRiskLevel.t) : ExEntry :=
  {| qe_key := {| ik_namespace := lit "n"; ik_device_id := lit "d";
                  ik_request_id := to_string (Z.of_nat n) |};
     qe_operation := ValidatedOperation.Execute (mkDriverCommand (lit "c") ()) risk [];
     qe_deadline := 1000; qe_cancel := n; qe_reply := n; qe_queued_at_ns := 0 |}.

Definition example_queue : QueueInner () () :=
  {| qi_entries := [(Priority.Low, [example_entry 1 CommandRiskLevel.Low]);
                    (Priority.High, [example_entry 2 CommandRiskLevel.High;
                                     example_entry 3 CommandRiskLevel.High])];
     qi_capacity := 8; qi_closed := false; qi_len := 3; qi_running := None; qi_draining := [];
     qi_cooldown_until := None |}.

Lemma example_queue_sorted : btree_sorted Priority.cmp (qi_entries example_queue).
Proof. repeat constructor. Defined.

Lemma pick_chooses_witness :
  ∃ q', pick policy_default ∅ 5 (λ _, 5) 5 0 example_queue =
          (q', Ok (Some (example_entry 2 CommandRiskLevel.High, PickedKind.Ready))) ∧
    btree_values (qi_entries q') =
      [example_entry 1 CommandRiskLevel.Low; example_entry 3 CommandRiskLevel.High].
Proof.
  pose proof (pick_chooses policy_default ∅ 5 (λ _, 5) 5 0 example_queue example_queue_sorted) as H.
  cbv zeta in H.
  assert ((pick policy_default ∅ 5 (λ _, 5) 5 0 example_queue).2 =
    Ok (Some (example_entry 2 CommandRiskLevel.High, PickedKind.Ready))) as E by reflexivity.
  destruct (pick _ _ _ _ _ _ _) as [q' r] eqn:Ep. cbn [snd] in E. subst r.
  exists q'. split; [done|]. destruct H as (_ & _ & _).
  injection Ep as <-. reflexivity.
Defined.

(** ** An executor that confirms everything *)
#[export] Instance example_executor : ControlExecutor () () () := {|
  ex_write _ items w :=
    (w, WriteOutcome.Succeeded ((λ i, {| wr_item_id := dw_id i; wr_success := true;
                                         wr_protocol_code := None; wr_error := None |}) <$> items));
  ex_execute _ _ w :=
    (w, ExecuteOutcome.Succeeded {| rc_success := true; rc_protocol_code := None;
                                    rc_payload := None; rc_error := None |});
  ex_check _ _ w := (w, CheckOutcome.Passed);
|}.

Definition example_items : list DriverWriteItem :=
  [{| dw_id := 0; dw_address := lit "40001"; dw_value := RawValue.U64 7 |};
   {| dw_id := 1; dw_address := lit "40002"; dw_value := RawValue.U64 8 |}].

Lemma run_operation_sound_witness :
  ∃ raws, ex_write (lit "d") example_items () = ((), WriteOutcome.Succeeded raws) ∧
    ∃ raw, raw ∈ raws ∧ wr_item_id raw = 1 ∧ wr_success raw = true.
Proof.
  pose proof (run_operation_sound policy_default (lit "d") 0
    (ValidatedOperation.Write example_items [lit "a"; lit "b"]) ()) as H.
  assert (∀ items paths, ValidatedOperation.Write example_items [lit "a"; lit "b"] =
    (ValidatedOperation.Write items paths : ValidatedOperation.t () ()) →
    (length paths ≤ length items)%nat) as Hlen by (intros ?? [= <- <-]; cbn; lia).
  specialize (H Hlen). cbv [run_operation write_operation] in H.
  cbn in H. destruct H as (raws & Hw & Hall). exists raws. split; [exact Hw|].
  destruct (Hall 1%nat _ ltac:(lia) eq_refl) as (raw & Hin & Hid & Hs). by exists raw.
Defined.

(** ** A run: one request is accepted, picked and starts executing *)
Definition run_entry_1 : ExEntry := example_entry 1 CommandRiskLevel.High.

Definition example_calls : Calls ExEntry (RunResult.t ()) :=
  {| c_ensuring := 0; c_sleeping := 1; c_checked := 0; c_handle := InSlot; c_old := [];
     c_orderly := true |}.

Definition world_enqueued : World () () :=
  {| w_queue := (enqueue policy_default false run_entry_1 (queue_new 8)).1;
     w_closed_flag := false; w_tokens := ∅; w_replies := ∅; w_worker := WBoot;
     w_accepted := [run_entry_1]; w_calls := example_calls |}.

Definition world_looping : World () () := on_queue (w_queue world_enqueued) WLoop world_enqueued.

Definition world_running : World () () :=
  on_queue (set_running (Some run_entry_1)
    (pick policy_default ∅ 5 (λ _, 5) 5 0 (w_queue world_enqueued)).1) (WRun run_entry_1) world_enqueued.

Lemma reaches_enqueued : ControlWorker.reaches policy_default 8 world_enqueued.
Proof.
  eapply rtc_l.
  { exact (step_enqueue policy_default (world_new 8) run_entry_1 _ eq_refl eq_refl (Forall_nil_2 _)). }
  apply rtc_once. refine (step_ensure policy_default (counts 1 0 0 _) 0 eq_refl).
Defined.

Lemma reaches_looping : ControlWorker.reaches policy_default 8 world_looping.
Proof.
  eapply rtc_r; [eapply rtc_r; [exact reaches_enqueued|by apply step_worker, step_boot]|].
  exact (step_worker policy_default _ _ (step_adopt policy_default (boot world_enqueued) [] eq_refl)).
Defined.

Definition world_picking : World () () := on_queue (w_queue world_enqueued) WPick world_enqueued.

Definition world_starting : World () () :=
  on_queue (pick policy_default ∅ 5 (λ _, 5) 5 0 (w_queue world_enqueued)).1 (WStart run_entry_1)
    world_enqueued.

Lemma reaches_running : ControlWorker.reaches policy_default 8 world_running.
Proof.
  apply (rtc_r _ world_starting); [apply (rtc_r _ world_picking); [apply (rtc_r _ world_looping)|]|];
    [exact reaches_looping|apply step_worker..].
  - exact (step_drain policy_default world_looping (w_queue world_enqueued) Drain.Proceed eq_refl eq_refl).
  - exact (step_pick policy_default world_picking 5 (λ _, 5) 5 0 _
      (Some (run_entry_1, PickedKind.Ready)) eq_refl eq_refl).
  - exact (step_start policy_default world_starting run_entry_1 eq_refl).
Defined.

Lemma accepted_answered_witness :
  is_Some (w_replies (abandon (λ _, 7) (λ _, true) world_running) !! 1%nat).
Proof.
  apply (accepted_answered policy_default 8 world_running (λ _, 7) (λ _, true) reaches_running)
    with (e := run_entry_1); [reflexivity|reflexivity|by left].
Defined.

(** The engine is closed while the request is still queued. *)
Definition world_closing : World () () :=
  {| w_queue := w_queue world_looping; w_closed_flag := true; w_tokens := ∅; w_replies := ∅;
     w_worker := WLoop; w_accepted := [run_entry_1]; w_calls := example_calls |}.

Lemma shutdown_drains_witness :
  ∃ w', rtc (ControlWorker.step policy_default) world_closing w' ∧ w_worker w' = WExited ∧
    qi_draining (w_queue w') = [].
Proof.
  destruct (shutdown_drains policy_default 8 world_closing (λ _, 7) (λ _, true))
    as (w' & Hr & Hx & _ & Hd & _).
  - eapply rtc_r; [exact reaches_looping|]. exact (step_engine_closed policy_default world_looping).
  - reflexivity.
  - reflexivity.
  - reflexivity.
  - by exists w'.
Defined.

(** ** A worker that is started too late

    A second client has pushed its request when the engine closes, and has
    not called [ensure_worker] yet.  The worker moves both requests to the
    draining list and panics in the settlement of the first; the late call
    starts a worker, which takes the list out of the shared state and is
    stopped while it settles the first request again. *)
Definition run_entry_2 : ExEntry := example_entry 2 CommandRiskLevel.High.

Definition late_pushed : World () () :=
  counts 1 1 0
    {| w_queue := (enqueue policy_default false run_entry_2 (w_queue world_looping)).1;
       w_closed_flag := false; w_tokens := ∅; w_replies := ∅; w_worker := WLoop;
       w_accepted := [run_entry_1; run_entry_2]; w_calls := example_calls |}.

Definition late_closed : World () () :=
  {| w_queue := w_queue late_pushed; w_closed_flag := true; w_tokens := ∅; w_replies := ∅;
     w_worker := WLoop; w_accepted := [run_entry_1; run_entry_2]; w_calls := w_calls late_pushed |}.

Definition late_shut : World () () := on_queue (queue_shutdown (w_queue late_closed)) WLoop late_closed.

Definition late_drained : World () () :=
  on_queue (drain_phase true (w_queue late_shut)).1 (WTrack run_entry_1 RunResult.Cancelled Loop) late_shut.

Definition late_settling : World () () :=
  on_queue (track run_entry_1 (w_queue late_drained)) (WSettle run_entry_1 RunResult.Cancelled Loop) late_drained.

Definition late_panicked : World () () := on_queue (w_queue late_settling) WDead late_settling.

Definition late_started : World () () := ensure_worker (counts 0 1 0 late_panicked).

Definition late_adopting : World () () :=
  on_queue (w_queue (boot late_started))
    (WTrack run_entry_1 RunResult.Cancelled (Adopt [run_entry_2; run_entry_1])) (boot late_started).

Definition late_again : World () () :=
  on_queue (track run_entry_1 (w_queue late_adopting))
    (WSettle run_entry_1 RunResult.Cancelled (Adopt [run_entry_2; run_entry_1])) late_adopting.

Definition late_joining : World () () := on_handle Joining [] false late_again.

Definition late_stopped : World () () :=
  on_handle Released [] false (abandon (λ _, 7) (λ _, true) late_joining).

Lemma reaches_late : ControlWorker.reaches policy_default 8 late_stopped.
Proof.
  unfold ControlWorker.reaches. transitivity world_looping; [exact reaches_looping|].
  apply (rtc_l _ _ late_pushed).
  { apply (step_enqueue policy_default world_looping run_entry_2); [reflexivity..|].
    repeat constructor. cbn. lia. }
  apply (rtc_l _ _ late_closed); [exact (step_engine_closed policy_default late_pushed)|].
  apply (rtc_l _ _ late_shut); [exact (step_shutdown policy_default late_closed eq_refl)|].
  apply (rtc_l _ _ late_drained).
  { exact (step_worker _ _ _ (step_drain policy_default late_shut _ (Drain.Settle run_entry_1) eq_refl eq_refl)). }
  apply (rtc_l _ _ late_settling); [exact (step_worker _ _ _ (step_track policy_default late_drained _ _ _ eq_refl))|].
  apply (rtc_l _ _ late_panicked); [exact (step_worker _ _ _ (step_panic policy_default late_settling eq_refl))|].
  apply (rtc_l _ _ late_started); [exact (step_ensure policy_default late_panicked 0 eq_refl)|].
  apply (rtc_l _ _ (boot late_started)); [exact (step_worker _ _ _ (step_boot policy_default late_started eq_refl))|].
  apply (rtc_l _ _ late_adopting).
  { exact (step_worker _ _ _ (step_adopt policy_default (boot late_started)
      [run_entry_1; run_entry_2; run_entry_1] eq_refl)). }
  apply (rtc_l _ _ late_again); [exact (step_worker _ _ _ (step_track policy_default late_adopting _ _ _ eq_refl))|].
  apply (rtc_l _ _ late_joining); [exact (step_join policy_default late_again eq_refl eq_refl)|].
  apply rtc_once. exact (step_abandon policy_default late_joining (λ _, 7) (λ _, true) eq_refl eq_refl).
Defined.


(** * The submission theorems on concrete runs

    A scheduler that executes chosen steps of the transition relation of
    ControlSubmit, a device with one property and one command, and runs of
    concurrent submissions over the in-memory journal: a request that is
    executed again after its retention, and one whose waiter is never answered. *)

#[local] Set Default Proof Using "Type".

#[export] Instance unit_json : JsonValue () := {|
  json_null := (); json_bool _ := (); json_int _ := (); json_f64 _ := Some (); json_string _ := ();
  json_array _ := (); json_object _ := () |}.

(** ** A scheduler *)
Section scheduler.
Context {J Json A : Type} `{!ControlJournal J Json} `{!JsonValue Json} `{!Authorizer A}.
Context (policy : ControlPolicy) (authorizer : A) (catalog : str → option DeviceInfo)
  (payload_hash : ControlOperation.t → str).
Abbreviation step := (ControlSubmit.step policy authorizer catalog payload_hash).
Implicit Types (w : Engine J Json).

Inductive act : Type :=
| ASubmit (id : nat) (q : ControlRequest) (subject : str)
| AGo (id : nat)                    (* the next step of a submission, without faults *)
| ATick (t : Z)
| APurge
| AWork (i : nat)                   (* a worker settles the [i]th entry as timed out *)
| ASettle.                          (* the next step of the first settlement *)

Definition go (id : nat) w : option (Engine J Json) :=
  s ← eg_submits w !! id;
  match su_pc s with
  | PRegister p => Some (register_active id s p w)
  | PInsert p => Some (insert_record policy payload_hash None id s p w)
  | PRemove a => Some (remove_active id s (PDone a) w)
  | PSet r => Some (set_submit id (at_pc (PRemove (Ready r)) s) (set_reply id r w))
  | POrphan r =>
      let '(w', ok) := settle_own None s r w in
      Some (set_submit id (at_pc (PDone (Ready (settle_journal ok r))) s) w')
  | PPrepare p => Some (prepare_step policy id s p CheckOutcome.Passed w)
  | PQueue op => Some (queue_step policy id s op 0 w)
  | PPush op => Some (push_step policy id s op 0 w)
  | PCheck =>
      Some (set_submit id (at_pc (if bool_decide (is_Some (eg_replies w !! id)) then PRemove (Pending id)
                                  else PDone (Pending id)) s) w)
  | PReplyRemove r a => Some (remove_active id s (PReplySet r a) w)
  | PReplySet r a => Some (set_submit id (at_pc (PDone a) s) (set_reply id r w))
  | _ => None
  end.

Definition settle_first w : option (Engine J Json) :=
  match eg_settling w with
  | [] => None
  | x :: l' =>
      match se_phase x with
      | SJournal =>
          let '(j, o) := j_settle None (qe_key (se_entry x)) (se_result x) (eg_journal w) in
          Some (set_settling
            ([] ++ mkSettling (se_entry x)
               (settle_journal match o with Ok _ => true | _ => false end (se_result x)) SRemove :: l')
            (set_journal j w))
      | SRemove => Some (set_settling ([] ++ mkSettling (se_entry x) (se_result x) SSet :: l')
                           (set_active (delete (qe_key (se_entry x))) w))
      | SSet => Some (set_settling ([] ++ l') (set_reply (qe_reply (se_entry x)) (se_result x) w))
      end
  end.

Definition exec (a : act) w : option (Engine J Json) :=
  match a with
  | ASubmit id q subject =>
      if eg_submits w !! id is Some _ then None
      else Some (begin_submit policy authorizer catalog id q subject w)
  | AGo id => go id w
  | ATick t =>
      if eg_now w <=? t then
        Some {| eg_closed := eg_closed w; eg_now := t; eg_active := eg_active w;
                eg_replies := eg_replies w; eg_journal := eg_journal w; eg_queues := eg_queues w;
                eg_submits := eg_submits w; eg_accepted := eg_accepted w; eg_settling := eg_settling w |}
      else None
  | APurge => Some (set_journal (j_purge_expired CompactFault.None (eg_now w) (eg_journal w)).1 w)
  | AWork i =>
      e ← eg_accepted w !! i;
      if eg_replies w !! qe_reply e is Some _ then None
      else Some (set_settling (eg_settling w ++
             [mkSettling e (settle_result e RunResult.Timeout (eg_now w)) SJournal]) w)
  | ASettle => settle_first w
  end.

Definition run (l : list act) w : option (Engine J Json) := foldl (λ o a, o ≫= exec a) (Some w) l.

Lemma go_step id w w' : go id w = Some w' → step w w'.
Proof.
  unfold go. destruct (eg_submits w !! id) as [s|] eqn:E; cbn; [|done].
  destruct (su_pc s) eqn:Ep; try (intros [= <-]; econstructor; eassumption); try done.
  destruct (settle_own None s r w) as [w1 ok] eqn:Es. intros [= <-]. by eapply step_orphan.
Qed.

Lemma settle_first_step w w' : settle_first w = Some w' → step w w'.
Proof.
  unfold settle_first. destruct (eg_settling w) as [|[e r []] l] eqn:E; [done| | |]; cbn.
  - destruct (j_settle _ _ _ _) as [j o] eqn:Ej. intros [= <-]. by apply (step_work_journal _ _ _ _ w [] l e r None).
  - intros [= <-]. by apply (step_work_remove _ _ _ _ w [] l).
  - intros [= <-]. by apply (step_work_set _ _ _ _ w [] l).
Qed.

Lemma exec_step a w w' : exec a w = Some w' → step w w'.
Proof.
  destruct a as [id q subject|id|t| |i|]; cbn.
  - destruct (eg_submits w !! id) eqn:E; [done|]. intros [= <-]. by constructor.
  - apply go_step.
  - destruct (eg_now w <=? t) eqn:E; [|done]. intros [= <-]. constructor. by apply Z.leb_le.
  - intros [= <-]. constructor.
  - destruct (eg_accepted w !! i) as [e|] eqn:E; cbn; [|done].
    destruct (eg_replies w !! _) eqn:Er; [done|]. intros [= <-].
    constructor; [by eapply list_elem_of_lookup_2|done].
  - apply settle_first_step.
Qed.

Lemma run_steps l w w' : run l w = Some w' → rtc step w w'.
Proof.
  unfold run. revert w. induction l as [|a l IH]; intros w; cbn.
  - by intros [= ->].
  - destruct (exec a w) as [w1|] eqn:E.
    + intros Hr. eapply rtc_l; [by eapply exec_step|by apply IH].
    + intros Hr. exfalso. revert Hr. clear. induction l as [|b l IH]; [done|]. exact IH.
Qed.
End scheduler.

(** ** A device *)
Definition level_property : ProfileProperty := {|
  pr_path := lit "level"; pr_driver_address := lit "40001"; pr_raw_type := DataType.U16;
  pr_value_type := DataType.U16; pr_unit := None; pr_scale := 0x3FF0000000000000; pr_offset := 0;
  pr_write_rounding := WriteRounding.Exact; pr_readable := true; pr_writable := true;
  pr_default_interval_ms := None; pr_min := None; pr_max := None |}.

Definition dose_parameter : CommandParameterDescriptor := {|
  cp_name := lit "ml"; cp_data_type := DataType.U8; cp_required := true;
  cp_min := Some (Value.I64 1); cp_max := Some (Value.I64 100) |}.

Definition dose_command : ProfileCommand := {|
  pcmd_id := lit "dose"; pcmd_driver_command_id := lit "DOSE"; pcmd_parameters := [dose_parameter];
  pcmd_risk_level := CommandRiskLevel.Medium; pcmd_preconditions := [] |}.

Definition pump_profile : DeviceProfile := {|
  dp_id := lit "pump"; dp_vendor := lit "v"; dp_family := lit "f"; dp_models := [];
  dp_domain := DomainKind.Plc; dp_driver_id := lit "modbus"; dp_properties := [level_property];
  dp_commands := [dose_command];
  dp_capabilities := {| cap_supported_properties := []; cap_supported_commands := [];
    cap_acquisition := {| ac_polling := None; ac_subscription := None; ac_events := None; ac_history := None |};
    cap_limits := [] |} |}.

Definition plant (device : str) : option DeviceInfo :=
  if bool_decide (device = lit "d") then Some {| di_enabled := true; di_profile := pump_profile |} else None.

(** ** Validation *)
Lemma level_wf : property_wf level_property.
Proof. by vm_compute. Qed.

Definition dose_request (v : Value.t) : CommandRequest :=
  {| co_command := lit "dose"; co_parameters := [{| pa_name := lit "ml"; pa_value := v |}] |}.

Definition level_item (v : Value.t) : PropertyWriteItem := {| wi_path := lit "level"; wi_value := v |}.

Lemma pump_profile_wf q :
  q ∈ dp_properties pump_profile →
  property_wf q ∧ same_family (pr_raw_type q) (pr_value_type q) = true.
Proof. intros ->%list_elem_of_singleton. split; [apply level_wf|vm_compute; reflexivity]. Qed.

Lemma level_item_typed : Forall (λ i, ∃ t, Value.has_type (wi_value i) t) [level_item (Value.U16 7)].
Proof. apply Forall_singleton. exists DataType.U16. cbn. unfold in_u. lia. Qed.

Lemma write_request_mapped_witness :
  match validate_property_write (Json := ()) pump_profile [level_item (Value.U16 7)] with
  | Ok op => ∃ ds, op = ValidatedOperation.Write ds [lit "level"] ∧ length ds = 1%nat
  | _ => False
  end.
Proof.
  pose proof (write_request_mapped (Json := ()) pump_profile [level_item (Value.U16 7)]
    pump_profile_wf level_item_typed) as H.
  assert (∃ op, validate_property_write (Json := ()) pump_profile [level_item (Value.U16 7)] = Ok op) as [op E]
    by (eexists; vm_compute; reflexivity).
  rewrite E in H |- *. destruct H as (ds & Hop & _ & Hl & _). exists ds. split; [exact Hop|exact Hl].
Defined.

Lemma command_integers_fit_witness :
  ∃ op, validate_command (Json := ()) pump_profile (dose_request (Value.I64 30)) = Ok op ∧
    find_command pump_profile (lit "dose") = Some dose_command.
Proof.
  destruct (validate_command (Json := ()) pump_profile (dose_request (Value.I64 30))) as [op|e|] eqn:E;
    [|exfalso; vm_compute in E; discriminate E..].
  exists op. split; [done|].
  destruct (command_integers_fit pump_profile (dose_request (Value.I64 30)) op
    {| pa_name := lit "ml"; pa_value := Value.I64 30 |} E ltac:(by left)) as (c & d & Hc & _).
  etransitivity; [exact Hc|]. rewrite <- Hc. reflexivity.
Defined.

(** ** Credentials *)
Definition staff : list CredentialEntry :=
  [{| cd_token := lit "t1"; cd_subject := lit "op"; cd_role := Role.Operator |};
   {| cd_token := lit "t2"; cd_subject := lit "view"; cd_role := Role.Viewer |}].

Definition staff_file (_ : str) : option CredentialsFile :=
  Some {| cf_schema := CREDENTIALS_SCHEMA; cf_credentials := staff |}.

Definition staff_authorizer : StaticTokenAuthorizer :=
  {| ta_entries := staff;
     ta_roles := <[lit "view" := Role.Viewer]> (<[lit "op" := Role.Operator]> ∅) |}.

Lemma authenticate_sound_witness :
  from_file staff_file (Some 0x180) (Some []) = Ok staff_authorizer ∧
  authenticate staff_authorizer (lit "t1") = Some (lit "op", Role.Operator).
Proof.
  assert (from_file staff_file (Some 0x180) (Some []) = Ok staff_authorizer) as E by (vm_compute; reflexivity).
  split; [done|].
  apply (authenticate_sound staff_file (Some 0x180) [] staff_authorizer _ (lit "t1") E eq_refl).
  - repeat constructor; vm_compute; intuition congruence.
  - repeat constructor; vm_compute; intuition congruence.
  - by left.
Defined.

(** ** Runs *)
Definition dose (at_ns : Z) : ControlRequest := {|
  rq_request_id := lit "r"; rq_namespace := lit "n"; rq_device_id := lit "d"; rq_requested_at_ns := at_ns;
  rq_timeout_ms := 1000; rq_operation := ControlOperation.CommandExecute (dose_request (Value.I64 30)) |}.

Definition hash (_ : ControlOperation.t) : str := lit "h".

Abbreviation plant_step :=
  (step (J := gmap IdempotencyKey (JournalEntry ())) (Json := ()) policy_default staff_authorizer plant hash).
Abbreviation plant_reaches :=
  (reaches (J := gmap IdempotencyKey (JournalEntry ())) (Json := ()) policy_default staff_authorizer plant hash ∅).
Abbreviation plant_run l :=
  (run policy_default staff_authorizer plant hash l
     (engine_new (J := gmap IdempotencyKey (JournalEntry ())) (Json := ()) 0 ∅)).

Lemma plant_run_reaches l w : plant_run l = Some w → plant_reaches w.
Proof. intros Hr%run_steps. by exists 0. Qed.

(** A request is executed, settled and, after its retention, executed again. *)
Definition submitted (id : nat) (q : ControlRequest) : list act :=
  ASubmit id q (lit "op") :: replicate 6 (AGo id).

Definition after_retention : Z := 24 * 3600 * ns_per_sec + 1.

Definition twice : list act :=
  submitted 0 (dose 0) ++ [AWork 0; ASettle; ASettle; ASettle; ATick after_retention; APurge] ++
  submitted 1 (dose after_retention).

Definition twice_world : Engine (gmap IdempotencyKey (JournalEntry ())) () :=
  Eval vm_compute in default (engine_new 0 ∅) (plant_run twice).

Lemma twice_runs :
  ∃ w e1 e2, plant_run twice = Some w ∧ eg_accepted w = [e1; e2] ∧ qe_key e1 = qe_key e2.
Proof.
  exists twice_world. do 2 eexists. split; [vm_compute; reflexivity|]. split_and!; reflexivity.
Qed.

Lemma executes_once_witness :
  ∃ w (e1 e2 : QueuedEntry () CommandPrecondition), plant_reaches w ∧ eg_accepted w = [e1; e2] ∧
    qe_key e1 = qe_key e2 ∧
  ∃ s1 s2 t1 t2, eg_submits w !! qe_reply e1 = Some s1 ∧ eg_submits w !! qe_reply e2 = Some s2 ∧
    qe_reply e1 ≠ qe_reply e2 ∧ su_inserted s1 = Some t1 ∧ su_inserted s2 = Some t2 ∧
    (expires_at policy_default (su_created s1) < t2 ∨ expires_at policy_default (su_created s2) < t1).
Proof.
  destruct twice_runs as (w & e1 & e2 & Hw%plant_run_reaches & He & Hk).
  exists w, e1, e2. split_and!; [exact Hw|exact He|exact Hk|].
  apply (executes_once policy_default staff_authorizer plant hash ∅ w 0 1 e1 e2 Hw);
    [by rewrite He|by rewrite He|discriminate|exact Hk].
Defined.

Lemma accepted_authorized_witness :
  ∃ w (e : QueuedEntry () CommandPrecondition), plant_reaches w ∧ e ∈ eg_accepted w ∧
  ∃ s, eg_submits w !! qe_reply e = Some s ∧ qe_key e = key_of (su_request s) ∧
    authorize staff_authorizer (su_subject s)
      (required_role policy_default (ValidatedOperation.kind (qe_operation e))) (ik_device_id (qe_key e)) = Ok ().
Proof.
  destruct twice_runs as (w & e1 & e2 & Hw%plant_run_reaches & He & _).
  assert (e1 ∈ eg_accepted w) as Hin by (rewrite He; by left).
  exists w, e1. split_and!; [exact Hw|exact Hin|].
  exact (accepted_authorized policy_default staff_authorizer plant hash ∅ w e1 Hw Hin).
Defined.

(** Three submissions of one request: 0 registers it, 1 and 2 find it
    registered.  1 is the first to reach the journal, so the record is an
    orphan; 2 finds it running and waits for 0; 1 settles the orphan as
    rejected; 0 is answered from the journal and returns. *)
Definition race : list act :=
  [ASubmit 0 (dose 0) (lit "op"); AGo 0; ASubmit 1 (dose 0) (lit "op"); AGo 1;
   ASubmit 2 (dose 0) (lit "op"); AGo 2; AGo 1; AGo 2; AGo 1; AGo 0; AGo 0].

Definition race_world : Engine (gmap IdempotencyKey (JournalEntry ())) () :=
  Eval vm_compute in default (engine_new 0 ∅) (plant_run race).

Lemma race_runs :
  ∃ w s0 r s2, plant_run race = Some w ∧ eg_submits w !! 0%nat = Some s0 ∧ su_pc s0 = PDone (Ready r) ∧
    eg_submits w !! 2%nat = Some s2 ∧ su_pc s2 = PDone (Pending 0) ∧
    eg_accepted w = [] ∧ eg_settling w = [] ∧ eg_replies w !! 0%nat = None.
Proof.
  exists race_world. do 3 eexists. split; [vm_compute; reflexivity|]. split_and!; reflexivity.
Qed.

Lemma receipt_waits_witness :
  ∃ w (s2 : Submission ()), plant_reaches w ∧ eg_submits w !! 2%nat = Some s2 ∧ su_pc s2 = PDone (Pending 0) ∧
  ∃ sx, eg_submits w !! 0%nat = Some sx ∧ key_of (su_request sx) = key_of (su_request s2).
Proof.
  destruct race_runs as (w & s0 & r & s2 & Hw%plant_run_reaches & _ & _ & H2 & Hp & _).
  exists w, s2. split_and!; [exact Hw|exact H2|exact Hp|].
  destruct (receipt_waits policy_default staff_authorizer plant hash ∅ w 2 s2 0 Hw H2 Hp)
    as (sx & Hx & Hk & _).
  exists sx. split; [exact Hx|exact Hk].
Defined.

(** C39: a waiter can be left without an answer.  There is a run of three
    submissions of one request, in which nothing fails, after which a receipt
    waits for the shared result of a submission that has returned: no
    continuation of the run, whatever the workers and the callers do, ever
    writes that result. *)
Theorem receipt_stranded :
  ∃ (w : Engine (gmap IdempotencyKey (JournalEntry ())) ()) s,
    plant_reaches w ∧ eg_submits w !! 2%nat = Some s ∧ su_pc s = PDone (Pending 0) ∧
    ∀ w', rtc plant_step w w' → eg_replies w' !! 0%nat = None.
Proof.
  destruct race_runs as (w & s0 & r & s2 & Hw & H0 & Hp0 & H2 & Hp2 & Ha & Hs & Hr).
  exists w, s2. split_and!; [exact (plant_run_reaches _ _ Hw)|exact H2|exact Hp2|]. clear Hw.
  intros w'. apply stranded_forever. split; [exists s0, (Ready r); auto| | |exact Hr].
  - rewrite Ha. by intros ? ?%not_elem_of_nil.
  - rewrite Hs. by intros ? ?%not_elem_of_nil.
Qed.
