(* ===== verification/PollEngine.v ===== *)
(** * The poll engine: crates/poll-engine/src

    The configuration with its back-off, and the polling task of one target as
    a step relation: its await points, the blocking driver calls it starts, the
    event channel, cancellation and the passing of time.  Times are
    nanoseconds.  Log messages and metrics are not modelled. *)

From S2P Require Import Prelude RustStd ObservationModel.
From stdpp Require Import options.

#[local] Set Default Proof Using "Type".

(** ** Configuration (config.rs) *)
Module PollConfigError.
Inductive t : Type := InvalidInterval | InvalidTimeout | InvalidBackoff | InvalidBackoffFactor | InvalidDrainTimeout.
End PollConfigError.

Record PollConfig : Type := mkPollConfig {
  request_timeout : Z;
  backoff_base_ms : Z;
  backoff_max_ms : Z;
  backoff_factor : Z;
  shutdown_drain_timeout : Z;
}.

Definition NS_PER_MS : Z := 1000000.

Definition poll_config_default : PollConfig :=
  {| request_timeout := 5000 * NS_PER_MS; backoff_base_ms := 1000; backoff_max_ms := 30000;
     backoff_factor := 2; shutdown_drain_timeout := 10000 * NS_PER_MS |}.

Definition config_validate (c : PollConfig) : outcome PollConfigError.t () :=
  if request_timeout c =? 0 then Err PollConfigError.InvalidTimeout
  else if (backoff_base_ms c =? 0) || (backoff_max_ms c =? 0) then Err PollConfigError.InvalidBackoff
  else if backoff_factor c =? 0 then Err PollConfigError.InvalidBackoffFactor
  else if shutdown_drain_timeout c =? 0 then Err PollConfigError.InvalidDrainTimeout
  else Ok ().

(** ** Back-off *)
Record Backoff : Type := mkBackoff {
  b_base_ms : Z;
  b_max_ms : Z;
  b_factor : Z;
  b_attempt : Z;
}.

Definition backoff_new (base_ms max_ms factor : Z) : Backoff :=
  {| b_base_ms := base_ms; b_max_ms := max_ms; b_factor := factor; b_attempt := 0 |}.

Definition backoff_of (c : PollConfig) : Backoff :=
  backoff_new (backoff_base_ms c) (backoff_max_ms c) (backoff_factor c).

(** [u64::saturating_mul], [u32::saturating_pow], [u32::saturating_add] *)
Definition saturating_mul64 (a b : Z) : Z := Z.min (2 ^ 64 - 1) (a * b).
Definition saturating_pow32 (a n : Z) : Z := Z.min (2 ^ 32 - 1) (a ^ n).
Definition saturating_add32 (a b : Z) : Z := Z.min (2 ^ 32 - 1) (a + b).

(** [Backoff::next], in milliseconds *)
Definition backoff_next (b : Backoff) : Backoff * Z :=
  ({| b_base_ms := b_base_ms b; b_max_ms := b_max_ms b; b_factor := b_factor b;
      b_attempt := saturating_add32 (b_attempt b) 1 |},
   Z.min (saturating_mul64 (b_base_ms b) (saturating_pow32 (b_factor b) (b_attempt b))) (b_max_ms b)).

Definition backoff_reset (b : Backoff) : Backoff :=
  {| b_base_ms := b_base_ms b; b_max_ms := b_max_ms b; b_factor := b_factor b; b_attempt := 0 |}.

(** ** Targets and events (poll.rs, events.rs) *)
Record PollTarget : Type := mkPollTarget {
  pt_device_id : str;
  pt_interval_ms : Z;
  pt_items : list DriverReadItem;
}.

Definition target_validate (t : PollTarget) : outcome PollConfigError.t () :=
  if pt_interval_ms t =? 0 then Err PollConfigError.InvalidInterval else Ok ().

Record PollBatch : Type := mkPollBatch {
  pb_device_id : str;
  pb_interval_ms : Z;
  pb_results : list RawReadResult;
  pb_elapsed_ms : Z;
}.

Module PollEvent.
Inductive t : Type :=
| Batch (b : PollBatch)
| Failed (device_id : str) (interval_ms : Z) (items : list DriverReadItem) (error : DriverErrorInfo).
End PollEvent.

Definition ERROR_TIMEOUT_CODE : string := "driver_request_timeout".
Definition ERROR_PANIC_CODE : string := "driver_read_panicked".

Definition timeout_error : DriverErrorInfo :=
  {| dei_code := ERROR_TIMEOUT_CODE; dei_protocol_code := None; dei_retryable := true |}.
Definition panic_error : DriverErrorInfo :=
  {| dei_code := ERROR_PANIC_CODE; dei_protocol_code := None; dei_retryable := true |}.

(** What a blocking call ended with. *)
Module CallResult.
Inductive t : Type :=
| Returned (r : DriverErrorInfo + list RawReadResult)
| Panicked.
End CallResult.

(** The result of [BatchCall::run], with the time the call took. *)
Definition run_result (r : CallResult.t) : DriverErrorInfo + list RawReadResult :=
  match r with
  | CallResult.Returned o => o
  | CallResult.Panicked => inl panic_error
  end.

Definition batch_event (t : PollTarget) (results : list RawReadResult) (elapsed_ns : Z) : PollEvent.t :=
  PollEvent.Batch {| pb_device_id := pt_device_id t; pb_interval_ms := pt_interval_ms t;
                     pb_results := results; pb_elapsed_ms := wrap64 (elapsed_ns / 1000000) |}.

Definition failure_event (t : PollTarget) (error : DriverErrorInfo) : PollEvent.t :=
  PollEvent.Failed (pt_device_id t) (pt_interval_ms t) (pt_items t) error.

(** ** The task *)

(** A blocking call is named by its number; its result is kept in the list of
    calls of the state, since the thread may outlive the wait for it. *)
Record CallRec : Type := mkCallRec {
  cr_started : Z;
  cr_result : option (Z * CallResult.t);      (* when and what the driver returned *)
}.

(** Which of the two loops of [run_loop] asked for the call. *)
Inductive origin : Type := Periodic | Retry.

(** The await points of [poll_loop]. *)
Inductive phase : Type :=
| Ticking                                      (* the outer select *)
| Collecting (o : origin)                      (* [run]: the call in the slot is still going *)
| Reading (o : origin) (call : nat)            (* [run]: the new call, under its timeout *)
| Sending (o : origin) (event : PollEvent.t) (retryable : option bool)
| Waiting (until : Z)                          (* the select around the back-off sleep *)
| Draining (until : Z)                         (* [drain] *)
| Ended.

Record Task : Type := mkTask {
  t_now : Z;
  t_cancelled : bool;
  t_closed : bool;                             (* the receiver of the events is gone *)
  t_phase : phase;
  t_ticker : Z;                                (* when the next tick is due *)
  t_backoff : Backoff;
  t_slot : option nat;                         (* [BatchCall::slot] *)
  t_calls : list CallRec;
  t_events : list PollEvent.t;                 (* delivered *)
  t_ticks : nat;                               (* ticks taken so far *)
}.

Definition set_phase (p : phase) (t : Task) : Task :=
  {| t_now := t_now t; t_cancelled := t_cancelled t; t_closed := t_closed t; t_phase := p;
     t_ticker := t_ticker t; t_backoff := t_backoff t; t_slot := t_slot t; t_calls := t_calls t;
     t_events := t_events t; t_ticks := t_ticks t |}.

Definition set_slot (s : option nat) (t : Task) : Task :=
  {| t_now := t_now t; t_cancelled := t_cancelled t; t_closed := t_closed t; t_phase := t_phase t;
     t_ticker := t_ticker t; t_backoff := t_backoff t; t_slot := s; t_calls := t_calls t;
     t_events := t_events t; t_ticks := t_ticks t |}.

Definition set_backoff (b : Backoff) (t : Task) : Task :=
  {| t_now := t_now t; t_cancelled := t_cancelled t; t_closed := t_closed t; t_phase := t_phase t;
     t_ticker := t_ticker t; t_backoff := b; t_slot := t_slot t; t_calls := t_calls t;
     t_events := t_events t; t_ticks := t_ticks t |}.

Definition set_calls (c : list CallRec) (t : Task) : Task :=
  {| t_now := t_now t; t_cancelled := t_cancelled t; t_closed := t_closed t; t_phase := t_phase t;
     t_ticker := t_ticker t; t_backoff := t_backoff t; t_slot := t_slot t; t_calls := c;
     t_events := t_events t; t_ticks := t_ticks t |}.

Definition is_finished (t : Task) (call : nat) : bool :=
  match t_calls t !! call with Some {| cr_result := Some _ |} => true | _ => false end.

(** Step 2 of [BatchCall::run]: a new blocking call. *)
Definition start_call (o : origin) (t : Task) : Task :=
  set_phase (Reading o (length (t_calls t)))
    (set_calls (t_calls t ++ [{| cr_started := t_now t; cr_result := None |}]) t).

(** Step 1: an earlier call is waited for and its result discarded. *)
Definition begin_run (o : origin) (t : Task) : Task :=
  match t_slot t with
  | None => start_call o t
  | Some call => if is_finished t call then start_call o (set_slot None t) else set_phase (Collecting o) t
  end.

Section task.
Context (target : PollTarget) (config : PollConfig).

(** [tokio::time::Interval] with [MissedTickBehavior::Skip]: the instant the
    next tick is due, given the period, the instant the last one was due and the
    instant it was taken. *)
Context (next_tick : Z → Z → Z → Z).

Definition interval_ns : Z := pt_interval_ms target * NS_PER_MS.

(** [poll_loop] up to the first await point; the first tick is due at once. *)
Definition poll_loop (now : Z) : Task :=
  {| t_now := now; t_cancelled := false; t_closed := false;
     t_phase := match (let? _ := target_validate target in config_validate config) with
                | Ok _ => Ticking | _ => Ended end;
     t_ticker := now; t_backoff := backoff_of config; t_slot := None; t_calls := [];
     t_events := []; t_ticks := 0 |}.

(** The end of [run_loop] and the entry of [drain]. *)
Definition exit (t : Task) : Task :=
  match t_slot t with
  | None => set_phase Ended t
  | Some _ => set_phase (Draining (t_now t + shutdown_drain_timeout config)) t
  end.

(** The outer select chose the tick. *)
Definition take_tick (t : Task) : Task :=
  begin_run Periodic
    {| t_now := t_now t; t_cancelled := t_cancelled t; t_closed := t_closed t; t_phase := t_phase t;
       t_ticker := next_tick interval_ns (t_ticker t) (t_now t); t_backoff := t_backoff t;
       t_slot := t_slot t; t_calls := t_calls t; t_events := t_events t; t_ticks := S (t_ticks t) |}.

(** [call.run] returned. *)
Definition finish_run (o : origin) (result : DriverErrorInfo + list RawReadResult) (elapsed : Z) (t : Task) : Task :=
  match result with
  | inr results => set_phase (Sending o (batch_event target results elapsed) None)
                     (set_backoff (backoff_reset (t_backoff t)) t)
  | inl error => set_phase (Sending o (failure_event target error) (Some (dei_retryable error))) t
  end.

(** [send_batch] or [send_failure] returned [true]: both loops go on alike. *)
Definition after_send (retryable : option bool) (t : Task) : Task :=
  match retryable with
  | Some true =>
      let '(b, wait) := backoff_next (t_backoff t) in
      set_phase (Waiting (t_now t + wait * NS_PER_MS)) (set_backoff b t)
  | _ => set_phase Ticking t
  end.

Definition deliver (event : PollEvent.t) (t : Task) : Task :=
  {| t_now := t_now t; t_cancelled := t_cancelled t; t_closed := t_closed t; t_phase := t_phase t;
     t_ticker := t_ticker t; t_backoff := t_backoff t; t_slot := t_slot t; t_calls := t_calls t;
     t_events := t_events t ++ [event]; t_ticks := t_ticks t |}.

(** The phases that wait for cancellation as well. *)
Definition cancellable (p : phase) : bool :=
  match p with Ticking | Collecting _ | Sending _ _ _ | Waiting _ => true | _ => false end.

(** How long the task may be left alone: a call and the drain are bounded by
    their timers, and a cancelled task is scheduled before time goes on.  This
    assumes that the runtime polls the task when its timer ends: [timeout]
    polls the call before its timer, so that a task that is polled late can
    still take a result that came after the limit. *)
Definition may_wait (delta : Z) (t : Task) : Prop :=
  0 ≤ delta ∧
  match t_phase t with
  | Reading _ call =>
      match t_calls t !! call with
      | Some c => t_now t + delta ≤ cr_started c + request_timeout config
      | None => True
      end
  | Draining until => t_now t + delta ≤ until
  | p => t_cancelled t = true → cancellable p = true → delta = 0
  end.

Definition pass (delta : Z) (t : Task) : Task :=
  {| t_now := t_now t + delta; t_cancelled := t_cancelled t; t_closed := t_closed t; t_phase := t_phase t;
     t_ticker := t_ticker t; t_backoff := t_backoff t; t_slot := t_slot t; t_calls := t_calls t;
     t_events := t_events t; t_ticks := t_ticks t |}.

Definition with_flags (cancelled closed : bool) (t : Task) : Task :=
  {| t_now := t_now t; t_cancelled := cancelled; t_closed := closed; t_phase := t_phase t;
     t_ticker := t_ticker t; t_backoff := t_backoff t; t_slot := t_slot t; t_calls := t_calls t;
     t_events := t_events t; t_ticks := t_ticks t |}.

Inductive step : Task → Task → Prop :=
(* the environment *)
| step_pass t delta : may_wait delta t → step t (pass delta t)
| step_cancel t : step t (with_flags true (t_closed t) t)
| step_close t : step t (with_flags (t_cancelled t) true t)
| step_return t call c r :
    t_calls t !! call = Some c → cr_result c = None →
    step t (set_calls (<[call := {| cr_started := cr_started c; cr_result := Some (t_now t, r) |}]> (t_calls t)) t)
(* the task *)
| step_tick t : t_phase t = Ticking → t_ticker t ≤ t_now t → step t (take_tick t)
| step_cancelled t : cancellable (t_phase t) = true → t_cancelled t = true → step t (exit t)
| step_collected t o call :
    t_phase t = Collecting o → t_slot t = Some call → is_finished t call = true →
    step t (start_call o (set_slot None t))
| step_result t o call c at_ r :
    t_phase t = Reading o call → t_calls t !! call = Some c → cr_result c = Some (at_, r) →
    step t (finish_run o (run_result r) (t_now t - cr_started c) t)
| step_timeout t o call c :
    t_phase t = Reading o call → t_calls t !! call = Some c → cr_result c = None →
    cr_started c + request_timeout config ≤ t_now t →
    step t (finish_run o (inl timeout_error) (t_now t - cr_started c) (set_slot (Some call) t))
| step_sent t o event retryable :
    t_phase t = Sending o event retryable → t_closed t = false →
    step t (after_send retryable (deliver event t))
| step_send_failed t o event retryable :
    t_phase t = Sending o event retryable → t_closed t = true → step t (exit t)
| step_slept t until : t_phase t = Waiting until → until ≤ t_now t → step t (begin_run Retry t)
| step_drained t until call :
    t_phase t = Draining until → t_slot t = Some call → is_finished t call = true →
    step t (set_phase Ended (set_slot None t))
| step_drain_timeout t until call :
    t_phase t = Draining until → t_slot t = Some call → is_finished t call = false → until ≤ t_now t →
    step t (set_phase Ended (set_slot None t)).

Definition reachable (start : Z) (t : Task) : Prop := rtc step (poll_loop start) t.
End task.

(** ** The scheduler (scheduler.rs) *)

(** A task handle is known to the scheduler by when it ends, if it does. *)
Record PollScheduler : Type := mkPollScheduler {
  ps_cancel : bool;                            (* the root token exists *)
  ps_tasks : list (PollTarget * PollConfig);
}.

Definition scheduler_new : PollScheduler := {| ps_cancel := false; ps_tasks := [] |}.

Definition spawn (target : PollTarget) (config : PollConfig) (s : PollScheduler) :
    PollScheduler * outcome PollConfigError.t () :=
  match (let? _ := target_validate target in config_validate config) with
  | Ok _ => ({| ps_cancel := true; ps_tasks := ps_tasks s ++ [(target, config)] |}, Ok ())
  | Err e => (s, Err e)
  | Panic => (s, Panic)
  end.

(** How [shutdown_with_timeout] left a task. *)
Inductive disposition : Type := Joined | Aborted.

(** The loop over the tasks, each with the instant it ends by itself after the
    cancellation; the awaited instant and whether the deadline has passed. *)
Fixpoint join_tasks (deadline now : Z) (timed_out : bool) (ends : list (option Z)) : Z * list disposition :=
  match ends with
  | [] => (now, [])
  | e :: ends' =>
      let in_time := match e with Some at_ => at_ <=? deadline | None => false end in
      if timed_out then
        (* [abort] does not undo an end that has been reached *)
        let d := match e with Some at_ => if at_ <=? now then Joined else Aborted | None => Aborted end in
        let '(n, ds) := join_tasks deadline now true ends' in (n, d :: ds)
      else if in_time then
        let '(n, ds) := join_tasks deadline (Z.max now (default now e)) false ends' in (n, Joined :: ds)
      else
        let '(n, ds) := join_tasks deadline (Z.max now deadline) true ends' in (n, Aborted :: ds)
  end.

(** Without a root token nothing is done; otherwise the token is dropped and no
    task is left. *)
Definition shutdown_with_timeout (grace now : Z) (ends : list (option Z)) (s : PollScheduler) :
    PollScheduler * (Z * list disposition) :=
  if ps_cancel s then (scheduler_new, join_tasks (now + grace) now false ends)
  else (s, (now, [])).

(** * Laws of the poll engine

    The back-off schedule, and what holds in every run of a polling task: one
    event per call, from that call, in order; one call at a time; a bounded
    load on the device; and a bounded time to stop. *)

(** ** Back-off *)

(** The waits after [n] failures in a row. *)
Fixpoint backoff_waits (n : nat) (b : Backoff) : list Z :=
  match n with
  | O => []
  | S n' => let '(b', wait) := backoff_next b in wait :: backoff_waits n' b'
  end.

Definition config_ok (c : PollConfig) : Prop :=
  config_validate c = Ok () ∧ 0 ≤ request_timeout c ∧ 0 ≤ shutdown_drain_timeout c ∧
  in_u 64 (backoff_base_ms c) ∧ in_u 64 (backoff_max_ms c) ∧ in_u 32 (backoff_factor c).

Lemma config_ok_pos c :
  config_ok c →
  0 < request_timeout c ∧ 0 < backoff_base_ms c ∧ 0 < backoff_max_ms c ∧ 0 < backoff_factor c ∧
  0 < shutdown_drain_timeout c.
Proof.
  unfold config_ok, config_validate, in_u. intros (Hv & H). repeat case_if; try done. lia.
Qed.

(** One wait: the exponential, up to the limit. *)
Definition reference_wait (base max factor : Z) (n : nat) : Z := Z.min max (base * factor ^ Z.of_nat n).

Lemma backoff_next_wait b (n : nat) :
  0 < b_base_ms b → 1 ≤ b_factor b → 0 ≤ b_max_ms b < 2 ^ 64 → b_max_ms b ≤ b_base_ms b * (2 ^ 32 - 1) →
  b_attempt b = Z.min (2 ^ 32 - 1) (Z.of_nat n) →
  (backoff_next b).2 = reference_wait (b_base_ms b) (b_max_ms b) (b_factor b) n.
Proof.
  intros Hb Hf Hm Hcap Ha. unfold backoff_next, reference_wait, saturating_mul64, saturating_pow32. cbn [snd].
  rewrite Ha. clear Ha. remember (2 ^ 32 - 1) as N eqn:HN.
  assert (0 < N) as HN0 by (rewrite HN; done). clear HN.
  pose proof (Z.pow_pos_nonneg (b_factor b) (Z.of_nat n) ltac:(lia) ltac:(lia)) as Hp.
  destruct (Z.le_gt_cases (Z.of_nat n) N) as [Hn|Hn].
  - rewrite (Z.min_r N (Z.of_nat n)) by lia.
    destruct (Z.le_gt_cases (b_factor b ^ Z.of_nat n) N) as [Hs|Hs].
    + rewrite (Z.min_r N) by lia. lia.
    + rewrite (Z.min_l N) by lia.
      assert (b_max_ms b ≤ b_base_ms b * b_factor b ^ Z.of_nat n) by nia. lia.
  - rewrite (Z.min_l N (Z.of_nat n)) by lia.
    destruct (Z.eq_dec (b_factor b) 1) as [Hone|Hone].
    + rewrite Hone, !Z.pow_1_l by lia. lia.
    + pose proof (Z.pow_gt_lin_r (b_factor b) N ltac:(lia) ltac:(lia)) as H1.
      pose proof (Z.pow_le_mono_r (b_factor b) N (Z.of_nat n) ltac:(lia) ltac:(lia)) as H2.
      rewrite (Z.min_l N) by lia.
      assert (b_max_ms b ≤ b_base_ms b * b_factor b ^ Z.of_nat n) by nia. lia.
Qed.

(** The waits of a task that keeps failing follow the documented schedule: the
    base doubled (or multiplied by the configured factor) after each failure, up
    to the limit, and a success starts it again. *)
Theorem backoff_schedule c (n k : nat) b :
  config_ok c → backoff_max_ms c ≤ backoff_base_ms c * (2 ^ 32 - 1) → (k < n)%nat →
  b = backoff_of c ∨ (∃ b', b = backoff_reset b' ∧ b_base_ms b' = backoff_base_ms c ∧
                        b_max_ms b' = backoff_max_ms c ∧ b_factor b' = backoff_factor c) →
  backoff_waits n b !! k =
    Some (reference_wait (backoff_base_ms c) (backoff_max_ms c) (backoff_factor c) k).
Proof.
  intros Hc Hcap Hk Hb. pose proof (config_ok_pos c Hc) as Hpos. destruct Hc as (_ & _ & _ & Hb64 & Hm64 & Hf32).
  assert (∀ n k m b, b_base_ms b = backoff_base_ms c → b_max_ms b = backoff_max_ms c → b_factor b = backoff_factor c →
    b_attempt b = Z.min (2 ^ 32 - 1) (Z.of_nat m) → (k < n)%nat →
    backoff_waits n b !! k =
      Some (reference_wait (backoff_base_ms c) (backoff_max_ms c) (backoff_factor c) (m + k))) as Hgen.
  { clear n k b Hk Hb. induction n as [|n IH]; intros k m b H1 H2 H3 H4 Hk; [lia|].
    cbn [backoff_waits]. destruct (backoff_next b) as [b' wait] eqn:E.
    assert (wait = (backoff_next b).2) as Hw by (by rewrite E).
    destruct k as [|k]; cbn.
    - rewrite Nat.add_0_r, Hw, <- H1, <- H2, <- H3. f_equal. unfold in_u in *. apply backoff_next_wait; lia || done.
    - replace (m + S k)%nat with (S m + k)%nat by lia.
      injection E as <- _. apply IH; try done; [|lia]. cbn. unfold saturating_add32. rewrite H4. lia. }
  rewrite (Hgen n k 0%nat); [done|..|done].
  all: destruct Hb as [->|(b' & -> & ? & ? & ?)]; done.
Qed.

(** ** Runs of a task *)

(** The documented behaviour of an interval that skips missed ticks: the next
    tick is due strictly later, at the next multiple of the period. *)
Class SkipsMissed (next_tick : Z → Z → Z → Z) : Prop := {
  next_tick_later period due now : 0 < period → due ≤ now → now < next_tick period due now;
  next_tick_aligned period due now :
    0 < period → due ≤ now → ∃ k, 1 ≤ k ∧ next_tick period due now = due + k * period;
}.

Section runs.
Context (target : PollTarget) (config : PollConfig) (next_tick : Z → Z → Z → Z).
Abbreviation step := (step target config next_tick).
Abbreviation reachable := (reachable target config next_tick).

(** What an event says of the call it reports: the results the driver returned
    for this call within the time limit, or its error, or that it took longer. *)
Inductive reports (c : CallRec) : PollEvent.t → Prop :=
| reports_batch at_ rs elapsed :
    cr_result c = Some (at_, CallResult.Returned (inr rs)) →
    at_ ≤ cr_started c + elapsed → elapsed ≤ request_timeout config →
    reports c (batch_event target rs elapsed)
| reports_error at_ r e :
    cr_result c = Some (at_, r) → run_result r = inl e → at_ ≤ cr_started c + request_timeout config →
    reports c (failure_event target e)
| reports_timeout :
    (∀ at_ r, cr_result c = Some (at_, r) → cr_started c + request_timeout config ≤ at_) →
    reports c (failure_event target timeout_error).

(** A call the driver finishes later is still reported correctly. *)
Lemma reports_later c now r ev :
  cr_result c = None → cr_started c + request_timeout config ≤ now → reports c ev →
  reports {| cr_started := cr_started c; cr_result := Some (now, r) |} ev.
Proof.
  intros Hc Hnow. inversion 1; subst; try congruence. apply reports_timeout. cbn. intros ? ? [= <- _]. done.
Qed.

(** How many calls have been reported in each phase. *)
Definition unreported (p : phase) : nat :=
  match p with Reading _ _ | Sending _ _ _ => 1 | _ => 0 end.

Record task_inv (t : Task) : Prop := {
  ti_timeout : 0 ≤ request_timeout config;
  (* every call but the last has finished *)
  ti_flight k c : t_calls t !! k = Some c → (S k < length (t_calls t))%nat → cr_result c ≠ None;
  (* what the task waits for is the last call *)
  ti_slot k : t_slot t = Some k → S k = length (t_calls t) ∧ (∀ o call, t_phase t ≠ Reading o call);
  ti_reading o k : t_phase t = Reading o k → S k = length (t_calls t);
  (* an unfinished call is being waited for, unless the task has given it up *)
  ti_waited k c : t_calls t !! k = Some c → cr_result c = None →
    t_slot t = Some k ∨ (∃ o, t_phase t = Reading o k) ∨ t_phase t = Ended;
  (* times *)
  ti_times k c : t_calls t !! k = Some c → cr_started c ≤ t_now t ∧
    ∀ at_ r, cr_result c = Some (at_, r) → at_ ≤ t_now t;
  ti_limit o k c : t_phase t = Reading o k → t_calls t !! k = Some c →
    t_now t ≤ cr_started c + request_timeout config;
  ti_slow k c : t_calls t !! k = Some c → cr_result c = None → (∀ o, t_phase t ≠ Reading o k) →
    cr_started c + request_timeout config ≤ t_now t;
  (* events *)
  ti_count : t_phase t ≠ Ended → (∀ until, t_phase t ≠ Draining until) →
    (length (t_events t) + unreported (t_phase t) = length (t_calls t))%nat;
  ti_most : (length (t_events t) ≤ length (t_calls t) ≤ S (length (t_events t)))%nat;
  ti_events k ev c : t_events t !! k = Some ev → t_calls t !! k = Some c → reports c ev;
  ti_sending o ev r : t_phase t = Sending o ev r →
    ∃ c, last (t_calls t) = Some c ∧ reports c ev;
  ti_drain u : t_phase t = Draining u → is_Some (t_slot t);
}.

Lemma poll_loop_inv start : 0 ≤ request_timeout config → task_inv (poll_loop target config start).
Proof.
  intros Ht. split; cbn; try done; try lia.
  - intros o k H. by destruct (outcome_bind _ _).
  - intros Hne Hnd. by destruct (outcome_bind _ _).
  - intros o ev r H. by destruct (outcome_bind _ _).
  - intros u H. by destruct (outcome_bind _ _).
Qed.

Lemma calls_snoc_inv (l : list CallRec) x k c :
  (l ++ [x]) !! k = Some c → l !! k = Some c ∨ k = length l ∧ c = x.
Proof. rewrite lookup_snoc_Some. naive_solver. Qed.

(** A new call is started when nothing is going on and all is reported. *)
Lemma start_call_inv o t :
  task_inv t → t_slot t = None → (∀ k c, t_calls t !! k = Some c → cr_result c ≠ None) →
  length (t_events t) = length (t_calls t) → task_inv (start_call o t).
Proof.
  intros [Ht _ _ _ _ Htm _ _ _ _ Hev _ _] Hs Hfin Hlen.
  split; unfold start_call; cbn [set_phase set_calls t_calls t_slot t_phase t_events t_now unreported]; try done.
  - intros k c [Hc|[-> _]]%calls_snoc_inv Hk; [by eapply Hfin|]. rewrite length_app in Hk. cbn in Hk. lia.
  - by rewrite Hs.
  - intros o' k [= _ <-]. rewrite length_app. cbn. lia.
  - intros k c [Hc|[-> ->]]%calls_snoc_inv Hr; [by destruct (Hfin k c Hc)|]. right. left. by eexists.
  - intros k c [Hc|[-> ->]]%calls_snoc_inv; [by eapply Htm|]. cbn. by split.
  - intros o' k c [= _ <-] [Hc|[_ ->]]%calls_snoc_inv; [apply lookup_lt_Some in Hc; lia|]. cbn. lia.
  - intros k c [Hc|[-> ->]]%calls_snoc_inv Hr Hk; [by destruct (Hfin k c Hc)|]. by destruct (Hk o).
  - intros _ _. rewrite length_app. cbn. lia.
  - rewrite length_app. cbn. lia.
  - intros k ev c Hk [Hc|[-> ->]]%calls_snoc_inv; [by eapply Hev|]. apply lookup_lt_Some in Hk. lia.
Qed.

(** Moving between phases that report nothing and read nothing. *)
Definition quiet (p : phase) : bool := match p with Ticking | Collecting _ | Waiting _ => true | _ => false end.

Lemma set_phase_inv p t :
  task_inv t → quiet p = true → length (t_events t) = length (t_calls t) →
  (∀ k c, t_calls t !! k = Some c → cr_result c = None → t_slot t = Some k) →
  (∀ k c, t_calls t !! k = Some c → cr_result c = None → cr_started c + request_timeout config ≤ t_now t) →
  task_inv (set_phase p t).
Proof.
  intros [Ht Hf Hs _ _ Htm _ _ _ _ Hev _ _] Hp Hlen Hslot Hslow.
  split; cbn [set_phase t_calls t_slot t_phase t_events t_now]; try done; try (by destruct p).
  - intros k Hk. split; [by destruct (Hs k Hk)|by destruct p].
  - intros k c Hc Hr. left. by eapply Hslot.
  - intros k c Hc Hr _. by eapply Hslow.
  - intros _ _. destruct p; cbn; try done; lia.
  - lia.
Qed.

Lemma is_finished_result t call c :
  is_finished t call = true → t_calls t !! call = Some c → cr_result c ≠ None.
Proof. unfold is_finished. intros H Hc. rewrite Hc in H. by destruct c as [? []]. Qed.

Lemma clear_slot_inv t call :
  task_inv t → t_slot t = Some call → is_finished t call = true → (∀ u, t_phase t ≠ Draining u) →
  task_inv (set_slot None t).
Proof.
  intros [Ht Hf Hs Hr Hw Htm Hli Hsl Hc Hm Hev Hse Hdr] Hslot Hfin Hnd.
  split; cbn [set_slot t_calls t_slot t_phase t_events t_now]; try done.
  2: by intros u ?%Hnd.
  intros k c Hk Hn. destruct (Hw k c Hk Hn) as [Hk'|?]; [|by right]. rewrite Hslot in Hk'. injection Hk' as <-.
  by destruct (is_finished_result _ _ _ Hfin Hk).
Qed.

Lemma begin_run_inv o t :
  task_inv t → quiet (t_phase t) = true → task_inv (begin_run o t).
Proof.
  intros Hi Hq. pose proof Hi as [Ht Hf Hs _ Hw Htm _ Hsl Hc _ Hev _ _].
  assert (length (t_events t) = length (t_calls t)) as Hlen.
  { specialize (Hc ltac:(by destruct (t_phase t)) ltac:(by destruct (t_phase t))). destruct (t_phase t); cbn in *; done || lia. }
  assert (∀ k c, t_calls t !! k = Some c → cr_result c = None → t_slot t = Some k) as Hslot.
  { intros k c Hk Hr. destruct (Hw k c Hk Hr) as [?|[[o' Ho]|He]]; [done|by rewrite Ho in Hq|by rewrite He in Hq]. }
  unfold begin_run. destruct (t_slot t) as [call|] eqn:Es.
  - destruct (is_finished t call) eqn:Ef.
    + apply start_call_inv; [|done| |done].
      * eapply clear_slot_inv; try done. by destruct (t_phase t).
      * cbn [set_slot t_calls]. intros k c Hk Hr. apply Hslot in Hk as Hk'; [|done]. injection Hk' as <-.
        by eapply is_finished_result.
    + apply set_phase_inv; try done; [by rewrite Es|]. intros k c Hk Hr. eapply Hsl; try done.
      intros o' Ho. by rewrite Ho in Hq.
  - apply start_call_inv; try done. intros k c Hk Hr. by apply Hslot in Hk.
Qed.

Lemma exit_inv t : task_inv t → cancellable (t_phase t) = true → task_inv (exit config t).
Proof.
  intros [Ht Hf Hs Hr Hw Htm Hli Hsl Hc Hm Hev Hse Hdr] Hcan.
  assert (∀ k c, t_calls t !! k = Some c → cr_result c = None → t_slot t = Some k) as Hslot.
  { intros k c Hk Hn. destruct (Hw k c Hk Hn) as [?|[[o Ho]|He]]; [done|by rewrite Ho in Hcan|by rewrite He in Hcan]. }
  assert (∀ k c, t_calls t !! k = Some c → cr_result c = None → cr_started c + request_timeout config ≤ t_now t) as Hslow.
  { intros k c Hk Hn. eapply Hsl; try done. intros o Ho. by rewrite Ho in Hcan. }
  unfold exit. destruct (t_slot t) as [call|] eqn:Es;
    split; cbn [set_phase t_calls t_slot t_phase t_events t_now]; try done; eauto.
  all: rewrite ?Es; naive_solver.
Qed.

Lemma finish_inv o call c t b s ev retryable :
  task_inv t → t_phase t = Reading o call → t_calls t !! call = Some c → reports c ev →
  (s = None ∧ cr_result c ≠ None ∨
   s = Some call ∧ cr_started c + request_timeout config ≤ t_now t) →
  task_inv (set_phase (Sending o ev retryable) (set_backoff b (set_slot s t))).
Proof.
  intros [Ht Hf Hs Hr Hw Htm Hli Hsl Hc Hm Hev Hse Hdr] Hp Hcall Hrep Hslot.
  pose proof (Hr _ _ Hp) as Hlast.
  assert (∀ k d, t_calls t !! k = Some d → cr_result d = None → k = call) as Honly.
  { intros k d Hk Hn. apply lookup_lt_Some in Hk as Hlt.
    destruct (decide (S k < length (t_calls t))%nat) as [Hl|Hl]; [by destruct (Hf k d Hk Hl)|lia]. }
  split; cbn [set_phase set_backoff set_slot t_calls t_slot t_phase t_events t_now]; try done.
  - intros k ->. destruct Hslot as [[? _]|[[= <-] _]]; done.
  - intros k d Hk Hn. left. assert (k = call) as -> by (by eapply Honly). assert (d = c) as -> by congruence.
    destruct Hslot as [[_ Hfin]|[-> _]]; done.
  - intros k d Hk Hn _. assert (k = call) as -> by (by eapply Honly). assert (d = c) as -> by congruence.
    destruct Hslot as [[_ Hfin]|[_ ?]]; done.
  - intros _ _. rewrite <- Hc, Hp by (by rewrite Hp). done.
  - intros o' ev' r' [= <- <- <-]. exists c. split; [|done]. rewrite last_lookup, <- Hlast. done.
Qed.

Lemma after_send_inv o ev retryable t :
  task_inv t → t_phase t = Sending o ev retryable → task_inv (after_send retryable (deliver ev t)).
Proof.
  intros [Ht Hf Hs Hr Hw Htm Hli Hsl Hc Hm Hev Hse Hdr] Hp.
  assert (S (length (t_events t)) = length (t_calls t)) as Hlen.
  { specialize (Hc ltac:(by rewrite Hp) ltac:(by rewrite Hp)). rewrite Hp in Hc. cbn in Hc. lia. }
  assert (∀ k c, t_calls t !! k = Some c → cr_result c = None → t_slot t = Some k) as Hslot.
  { intros k c Hk Hn. destruct (Hw k c Hk Hn) as [?|[[o' Ho]|He]]; [done|by rewrite Ho in Hp|by rewrite He in Hp]. }
  assert (∀ k c, t_calls t !! k = Some c → cr_result c = None → cr_started c + request_timeout config ≤ t_now t) as Hslow.
  { intros k c Hk Hn. eapply Hsl; try done. intros o' Ho. by rewrite Ho in Hp. }
  destruct (Hse _ _ _ Hp) as (last_c & Hl & Hrep).
  assert (∀ p b, quiet p = true → task_inv (set_phase p (set_backoff b (deliver ev t)))) as Hq.
  { intros p b Hp'. split; cbn [set_phase set_backoff deliver t_calls t_slot t_phase t_events t_now];
      rewrite ?length_app; cbn [length]; try done; try (by destruct p).
    - intros k Hk. split; [by apply Hs|by destruct p].
    - eauto.
    - eauto.
    - intros _ _. destruct p; cbn; try done; lia.
    - lia.
    - intros k ev' c [Hk|[-> <-]]%lookup_snoc_Some Hcall; [eapply Hev; [apply Hk|done]|].
      rewrite last_lookup, <- Hlen in Hl. cbn in Hl. by replace c with last_c by congruence. }
  unfold after_send. destruct retryable as [[]|].
  - destruct (backoff_next _) as [b wait]. by apply (Hq (Waiting _)).
  - apply (Hq Ticking (t_backoff t)). done.
  - apply (Hq Ticking (t_backoff t)). done.
Qed.

(** The driver returns from a call. *)
Lemma return_inv t call c r :
  task_inv t → t_calls t !! call = Some c → cr_result c = None →
  task_inv (set_calls (<[call := {| cr_started := cr_started c; cr_result := Some (t_now t, r) |}]> (t_calls t)) t).
Proof.
  intros [Ht Hf Hs Hr Hw Htm Hli Hsl Hc Hm Hev Hse Hdr] Hcall Hn.
  set (c' := {| cr_started := cr_started c; cr_result := Some (t_now t, r) |}).
  assert (∀ k d, <[call := c']> (t_calls t) !! k = Some d →
    (k = call ∧ d = c') ∨ (k ≠ call ∧ t_calls t !! k = Some d)) as Hins.
  { intros k d. rewrite list_lookup_insert_Some. apply lookup_lt_Some in Hcall. naive_solver. }
  assert (∀ ev, (∀ o, t_phase t ≠ Reading o call) → reports c ev → reports c' ev) as Hlate.
  { intros ev Hp Hrep. apply reports_later; [done| |done]. by eapply Hsl. }
  split; cbn [set_calls t_calls t_slot t_phase t_events t_now]; rewrite ?length_insert; try done.
  - intros k d [[-> ->]|[_ Hk]]%Hins Hlt; [done|by eapply Hf].
  - intros k d [[-> ->]|[_ Hk]]%Hins Hd; [done|by eapply Hw].
  - intros k d [[-> ->]|[_ Hk]]%Hins; [|by eapply Htm]. destruct (Htm _ _ Hcall) as [? _]. split; [done|]. by intros ? ? [= <- _].
  - intros o k d Hp [[-> ->]|[_ Hk]]%Hins; [|by eapply Hli]. cbn. by eapply Hli.
  - intros k d [[-> ->]|[_ Hk]]%Hins Hd Hp; [done|by eapply Hsl].
  - intros k ev d Hk [[-> ->]|[_ Hd]]%Hins; [|by eapply Hev].
    apply Hlate; [|by eapply Hev]. intros o Ho. specialize (Hc ltac:(by rewrite Ho) ltac:(by rewrite Ho)).
    rewrite Ho in Hc. cbn in Hc. pose proof (Hr _ _ Ho). apply lookup_lt_Some in Hk. lia.
  - intros o ev rt Hp. destruct (Hse _ _ _ Hp) as (d & Hd & Hrep). rewrite last_lookup in *.
    destruct (decide (call = pred (length (t_calls t)))) as [->|Hne].
    + exists c'. rewrite length_insert, list_lookup_insert_eq by (by eapply lookup_lt_Some). split; [done|].
      replace d with c in Hrep by congruence. apply Hlate; [|done]. by rewrite Hp.
    + exists d. by rewrite length_insert, list_lookup_insert_ne by done.
Qed.

Lemma flags_inv cancelled closed t : task_inv t → task_inv (with_flags cancelled closed t).
Proof. intros []. by split. Qed.

Lemma pass_inv delta t : task_inv t → may_wait config delta t → task_inv (pass delta t).
Proof.
  intros [Ht Hf Hs Hr Hw Htm Hli Hsl Hc Hm Hev Hse Hdr] [Hd Hmay].
  split; cbn [pass t_calls t_slot t_phase t_events t_now]; try done.
  - intros k c Hk. destruct (Htm k c Hk) as [? Hat]. split; [lia|]. intros at_ r Hr'. specialize (Hat at_ r Hr'). lia.
  - intros o k c Hp Hk. rewrite Hp in Hmay. by rewrite Hk in Hmay.
  - intros k c Hk Hn Hp. specialize (Hsl k c Hk Hn Hp). lia.
Qed.

Lemma reading_slot t o call : task_inv t → t_phase t = Reading o call → t_slot t = None.
Proof.
  intros Hi Hp. destruct (t_slot t) as [k|] eqn:Es; [|done].
  destruct (ti_slot _ Hi k Es) as [_ Hn]. by destruct (Hn o call).
Qed.

Lemma set_slot_same t : set_slot (t_slot t) t = t.
Proof. by destruct t. Qed.

Lemma set_backoff_same t : set_backoff (t_backoff t) t = t.
Proof. by destruct t. Qed.

(** The result of a call, and what is reported of it. *)
Lemma result_inv o call c at_ r t :
  task_inv t → t_phase t = Reading o call → t_calls t !! call = Some c → cr_result c = Some (at_, r) →
  task_inv (finish_run target o (run_result r) (t_now t - cr_started c) t).
Proof.
  intros Hi Hp Hcall Hr. destruct (ti_times _ Hi _ _ Hcall) as [_ Hat]. specialize (Hat _ _ Hr).
  pose proof (ti_limit _ Hi _ _ _ Hp Hcall) as Hlim. pose proof (reading_slot _ _ _ Hi Hp) as Hs.
  unfold finish_run. destruct (run_result r) as [e|rs] eqn:Er.
  - rewrite <- (set_slot_same t), Hs, <- (set_backoff_same (set_slot None t)).
    eapply finish_inv; try done; [|left; split; [done|congruence]].
    eapply reports_error; try done. lia.
  - rewrite <- (set_slot_same t) at 2. rewrite Hs.
    eapply finish_inv; try done; [|left; split; [done|congruence]].
    destruct r as [[|rs']|]; try done. injection Er as ->. eapply reports_batch; try done; lia.
Qed.

Lemma step_inv t t' : task_inv t → step t t' → task_inv t'.
Proof.
  intros Hi Hstep. destruct Hstep as [t delta Hm|t|t|t call c r Hc Hn|t Hp Htk|t Hcan Hx|t o call Hp Hs Hf
    |t o call c at_ r Hp Hc Hr|t o call c Hp Hc Hn Hto|t o ev rt Hp Hcl|t o ev rt Hp Hcl|t until Hp Hu
    |t until call Hp Hs Hf|t until call Hp Hs Hf Hu].
  - by apply pass_inv.
  - by apply flags_inv.
  - by apply flags_inv.
  - by apply return_inv.
  - unfold take_tick. apply begin_run_inv; [|by rewrite Hp]. by destruct Hi.
  - by apply exit_inv.
  - pose proof (ti_count _ Hi ltac:(by rewrite Hp) ltac:(by rewrite Hp)) as Hc. rewrite Hp in Hc. cbn in Hc.
    apply start_call_inv; [eapply clear_slot_inv; try done; by rewrite Hp|done| |cbn; lia].
    cbn [set_slot t_calls]. intros k c Hk Hn. destruct (ti_waited _ Hi k c Hk Hn) as [Hk'|[[? Ho]|Ho]]; [|congruence..].
    rewrite Hs in Hk'. injection Hk' as <-. by eapply is_finished_result.
  - by eapply result_inv.
  - unfold finish_run. rewrite <- (set_backoff_same (set_slot (Some call) t)).
    eapply finish_inv; try done; [|by right]. apply reports_timeout. congruence.
  - by eapply after_send_inv.
  - apply exit_inv; [done|by rewrite Hp].
  - apply begin_run_inv; [done|by rewrite Hp].
  - pose proof Hi as [Ht Hfl Hsl Hr Hw Htm Hli Hslow Hc Hm Hev Hse Hdr].
    split; cbn [set_phase set_slot t_calls t_slot t_phase t_events t_now] in *; try done; eauto.
    intros k c Hk Hn _. eapply Hslow; try done. by rewrite Hp.
  - pose proof Hi as [Ht Hfl Hsl Hr Hw Htm Hli Hslow Hc Hm Hev Hse Hdr].
    split; cbn [set_phase set_slot t_calls t_slot t_phase t_events t_now] in *; try done; eauto.
    intros k c Hk Hn _. eapply Hslow; try done. by rewrite Hp.
Qed.

Lemma reachable_inv start t : 0 ≤ request_timeout config → reachable start t → task_inv t.
Proof.
  intros Ht Hr. unfold PollEngine.reachable in Hr. remember (poll_loop target config start) as t0 eqn:E.
  assert (task_inv t0) as Hi by (subst; by apply poll_loop_inv). clear E.
  induction Hr as [|t0 t1 t Hs _ IH]; [done|]. by eapply IH, step_inv.
Qed.

(** C31: a polling task reports faithfully and asks one thing at a time.  In every
    run, whatever the driver, the channel and the clock do: the events delivered
    are, in order, one for each call but at most the last; an event carries the
    results the driver returned for that very call within the time limit, or its
    error, or says that the call took longer (a late result is never reported,
    provided the runtime polls the task by the end of the limit); and at most
    one call of the task is going on at any time. *)
Theorem poll_reports start t :
  0 ≤ request_timeout config → reachable start t →
  (length (t_events t) ≤ length (t_calls t) ≤ S (length (t_events t)))%nat ∧
  (∀ k ev, t_events t !! k = Some ev → ∃ c, t_calls t !! k = Some c ∧ reports c ev) ∧
  (∀ j k c d, t_calls t !! j = Some c → t_calls t !! k = Some d →
     cr_result c = None → cr_result d = None → j = k).
Proof.
  intros Ht Hr. pose proof (reachable_inv _ _ Ht Hr) as Hi. split_and!.
  - apply Hi.
  - apply Hi.
  - intros k ev Hk. apply lookup_lt_Some in Hk as Hlt. pose proof (ti_most _ Hi).
    destruct (lookup_lt_is_Some_2 (t_calls t) k) as [c Hc]; [lia|]. exists c. split; [done|]. by eapply Hi.
  - intros j k c d Hj Hk Hc Hd.
    assert (∀ k c, t_calls t !! k = Some c → cr_result c = None → S k = length (t_calls t)) as Hlast.
    { clear -Hi. intros k c Hk Hc. apply lookup_lt_Some in Hk as Hlt.
      destruct (decide (S k < length (t_calls t))%nat) as [Hl|Hl]; [by destruct (ti_flight _ Hi k c Hk Hl)|lia]. }
    apply Hlast in Hj, Hk; [lia|done..].
Qed.

(** ** Load *)
Context `{!SkipsMissed next_tick}.

(** The shortest wait between a failure and its retry. *)
Definition least_wait : Z := Z.min (backoff_base_ms config) (backoff_max_ms config) * NS_PER_MS.

Record load_inv (start : Z) (t : Task) : Prop := {
  li_ticker : start + Z.of_nat (t_ticks t) * interval_ns target ≤ t_ticker t;
  li_ticks : t_ticks t = 0%nat ∨ start + (Z.of_nat (t_ticks t) - 1) * interval_ns target ≤ t_now t;
  li_backoff : b_base_ms (t_backoff t) = backoff_base_ms config ∧ b_max_ms (t_backoff t) = backoff_max_ms config ∧
    b_factor (t_backoff t) = backoff_factor config ∧ 0 ≤ b_attempt (t_backoff t);
  li_calls : ∃ retries : nat,
    (length (t_calls t) + (if t_phase t is Collecting _ then 1 else 0) ≤ t_ticks t + retries)%nat ∧
    start + Z.of_nat retries * least_wait ≤ t_now t ∧
    (∀ until, t_phase t = Waiting until → start + (Z.of_nat retries + 1) * least_wait ≤ until);
}.

Lemma backoff_next_least b :
  config_ok config → b_base_ms b = backoff_base_ms config → b_max_ms b = backoff_max_ms config →
  b_factor b = backoff_factor config → 0 ≤ b_attempt b →
  Z.min (backoff_base_ms config) (backoff_max_ms config) ≤ (backoff_next b).2.
Proof.
  intros Hc Hb Hm Hf Ha. pose proof (config_ok_pos _ Hc) as Hpos. destruct Hc as (_ & _ & _ & Hb64 & _ & _).
  unfold backoff_next, saturating_mul64, saturating_pow32. cbn [snd]. rewrite Hb, Hm, Hf. unfold in_u in *.
  pose proof (Z.pow_pos_nonneg (backoff_factor config) (b_attempt b) ltac:(lia) Ha). nia.
Qed.

Lemma begin_run_load start o t retries :
  (length (t_calls t) < t_ticks t + retries)%nat → t_phase t ≠ Ended →
  start + Z.of_nat retries * least_wait ≤ t_now t →
  load_inv start t → load_inv start (begin_run o t).
Proof.
  intros Hc _ Hr [H1 H2 H3 _]. unfold begin_run, start_call.
  destruct (t_slot t) as [call|]; [destruct (is_finished t call)|];
    (split; cbn [set_phase set_calls set_slot t_calls t_phase t_ticks t_ticker t_now t_backoff]; [done..|];
     exists retries; rewrite ?length_app; cbn [length]; split_and!; [lia|done|done]).
Qed.

Lemma step_load start t t' :
  config_ok config → 0 < interval_ns target → start ≤ t_now t → load_inv start t → step t t' →
  load_inv start t' ∧ start ≤ t_now t'.
Proof using SkipsMissed0.
  intros Hcfg Hint Hst Hi Hstep. pose proof Hi as [H1 H2 H3 (r & Hcalls & Hr & Hwait)].
  destruct Hstep as [t delta [Hd Hm]|t|t|t call c res Hc Hn|t Hp Htk|t Hcan Hx|t o call Hp Hs Hf
    |t o call c at_ res Hp Hc Hres|t o call c Hp Hc Hn Hto|t o ev rt Hp Hcl|t o ev rt Hp Hcl|t until Hp Hu
    |t until call Hp Hs Hf|t until call Hp Hs Hf Hu].
  - split; [|cbn; lia]. split; cbn [pass t_calls t_phase t_ticks t_ticker t_now t_backoff]; [done|lia|done|].
    exists r. split_and!; [done|lia|done].
  - split; [|done]. split; cbn; try done. by exists r.
  - split; [|done]. split; cbn; try done. by exists r.
  - split; [|done]. split; cbn; rewrite ?length_insert; try done. by exists r.
  - destruct (next_tick_aligned (interval_ns target) (t_ticker t) (t_now t)) as (k & Hk & Hnext); [done..|].
    rewrite Hp in Hcalls. split; [|unfold take_tick, begin_run, start_call; cbn; repeat case_match; done].
    unfold take_tick. apply begin_run_load with r; cbn; [lia|by rewrite Hp|done|].
    split; cbn; [rewrite Hnext; nia|right; lia|done|]. exists r. rewrite Hp. split_and!; [lia|done|done].
  - split; [|by unfold exit; destruct (t_slot t)].
    unfold exit. destruct (t_slot t); (split; cbn; [done..|]; exists r; split_and!; [destruct (t_phase t); lia|done|done]).
  - rewrite Hp in Hcalls. split; [|done]. split; cbn; [done..|]. exists r. rewrite length_app. cbn. split_and!; [lia|done|done].
  - rewrite Hp in Hcalls. unfold finish_run. destruct (run_result res);
      (split; [|done]; split; cbn; [done|done|naive_solver|]; exists r; split_and!; [lia|done|done]).
  - rewrite Hp in Hcalls. split; [|done]. split; cbn; [done..|]. exists r. split_and!; [lia|done|done].
  - rewrite Hp in Hcalls. destruct H3 as (Hb & Hm & Hf & Ha).
    pose proof (backoff_next_least (t_backoff t) Hcfg Hb Hm Hf Ha) as Hleast.
    unfold after_send. destruct rt as [[]|].
    + cbn [deliver t_backoff]. destruct (backoff_next (t_backoff t)) as [b wait] eqn:E. cbn [snd] in Hleast.
      split; [|done]. split; cbn; [done..| |].
      { injection E as <- _. cbn. unfold saturating_add32. split_and!; try done. lia. }
      exists r. split_and!; [lia|done|]. intros u [= <-]. unfold least_wait, NS_PER_MS in *. lia.
    + split; [|done]. split; cbn; [done..|]. exists r. split_and!; [lia|done|done].
    + split; [|done]. split; cbn; [done..|]. exists r. split_and!; [lia|done|done].
  - rewrite Hp in Hcalls. split; [|by unfold exit; destruct (t_slot t)].
    unfold exit. destruct (t_slot t); (split; cbn; [done..|]; exists r; split_and!; [lia|done|done]).
  - rewrite Hp in Hcalls. specialize (Hwait _ Hp).
    split; [|unfold begin_run, start_call; cbn; repeat case_match; done].
    apply begin_run_load with (S r); [lia|by rewrite Hp|lia|done].
  - rewrite Hp in Hcalls. split; [|done]. split; cbn; [done..|]. exists r. split_and!; [lia|done|done].
  - rewrite Hp in Hcalls. split; [|done]. split; cbn; [done..|]. exists r. split_and!; [lia|done|done].
Qed.

(** The load a polling task puts on its device is bounded.  At any time the
    calls started since the beginning are at most one per period and one more,
    plus one for each shortest back-off that fits into the elapsed time: ticks
    that were missed are not made up for, and retries wait. *)
Theorem poll_load start t :
  config_ok config → 0 < pt_interval_ms target → reachable start t →
  Z.of_nat (length (t_calls t)) ≤
    (t_now t - start) / interval_ns target + 1 + (t_now t - start) / least_wait.
Proof using SkipsMissed0.
  intros Hcfg Hint Hr. pose proof (config_ok_pos _ Hcfg) as Hpos.
  assert (0 < interval_ns target) as Hi by (unfold interval_ns, NS_PER_MS; lia).
  assert (0 < least_wait) as Hl by (unfold least_wait, NS_PER_MS; lia).
  assert (load_inv start t ∧ start ≤ t_now t) as [[H1 H2 _ (r & Hc & Hw & _)] Hnow].
  { unfold PollEngine.reachable in Hr. remember (poll_loop target config start) as t0 eqn:E.
    assert (load_inv start t0 ∧ start ≤ t_now t0) as Hinv.
    { subst t0. split; [|done]. split; cbn; [lia|by left|done|]. exists 0%nat. split_and!; [|lia|];
        by destruct (outcome_bind _ _). }
    clear E. induction Hr as [|t0 t1 t Hs _ IH]; [done|]. apply IH. destruct Hinv. by eapply step_load. }
  assert (Z.of_nat r ≤ (t_now t - start) / least_wait) by (apply Z.div_le_lower_bound; lia).
  assert (Z.of_nat (t_ticks t) - 1 ≤ (t_now t - start) / interval_ns target) as Ht.
  { destruct H2 as [->|H2]; [pose proof (Z.div_pos (t_now t - start) (interval_ns target)); lia|].
    apply Z.div_le_lower_bound; lia. }
  assert ((if t_phase t is Collecting _ then 1 else 0) ≥ 0)%nat by (destruct (t_phase t); lia).
  lia.
Qed.

(** ** Stopping *)

(** A cancelled task, [n] calls after a state at time [since]. *)
Definition stopping_inv (since : Z) (n : nat) (t : Task) : Prop :=
  t_cancelled t = true ∧
  match t_phase t with
  | Reading _ k => ∃ c, t_calls t !! k = Some c ∧ cr_started c ≤ since + Z.of_nat n * request_timeout config ∧
      t_now t ≤ cr_started c + request_timeout config
  | Draining until =>
      t_now t ≤ until ∧
      until ≤ since + (Z.of_nat n + 1) * request_timeout config + shutdown_drain_timeout config
  | Ended => True
  | _ => t_now t ≤ since + (Z.of_nat n + 1) * request_timeout config
  end.

Lemma exit_stopping since n t :
  0 ≤ shutdown_drain_timeout config → cancellable (t_phase t) = true →
  stopping_inv since n t → stopping_inv since n (exit config t).
Proof.
  intros Hd Hc [Hx Hp]. unfold exit. destruct (t_slot t); (split; [done|]); cbn; [|done].
  destruct (t_phase t); try done; cbn in Hp; lia.
Qed.

Lemma begin_run_stopping since n o t :
  0 ≤ request_timeout config → quiet (t_phase t) = true → stopping_inv since n t →
  stopping_inv since (length (t_calls (begin_run o t)) - length (t_calls t) + n) (begin_run o t).
Proof.
  intros Ht Hq [Hx Hp].
  assert (t_now t ≤ since + (Z.of_nat n + 1) * request_timeout config) as Hnow by (destruct (t_phase t); done).
  unfold begin_run. destruct (t_slot t) as [call|]; [destruct (is_finished t call)|]; (split; [done|]); cbn.
  2: by rewrite Nat.sub_diag.
  all: replace (length (t_calls t ++ _) - length (t_calls t) + n)%nat with (S n) by (rewrite length_app; cbn; lia);
    eexists; (split; [by apply list_lookup_middle|]); cbn; lia.
Qed.

Lemma step_stopping since n t t' :
  0 ≤ request_timeout config → 0 ≤ shutdown_drain_timeout config → task_inv t → stopping_inv since n t →
  step t t' →
  stopping_inv since (length (t_calls t') - length (t_calls t) + n) t' ∧
  (length (t_calls t) ≤ length (t_calls t'))%nat.
Proof.
  intros Ht Hd Hi Hst Hstep. pose proof Hst as [Hx Hph].
  destruct Hstep as [t delta [Hdl Hm]|t|t|t call c res Hc Hn|t Hp Htk|t Hcan Hcx|t o call Hp Hs Hf
    |t o call c at_ res Hp Hc Hres|t o call c Hp Hc Hn Hto|t o ev rt Hp Hcl|t o ev rt Hp Hcl|t until Hp Hu
    |t until call Hp Hs Hf|t until call Hp Hs Hf Hu].
  - split; [|done]. cbn [pass t_calls]. rewrite Nat.sub_diag. split; [done|]. cbn.
    destruct (t_phase t) eqn:Ep; cbn in *; try done; try (rewrite (Hm Hx eq_refl); lia); try lia.
    destruct Hph as (c & Hc & ? & ?). rewrite Hc in Hm. by exists c.
  - split; [|done]. cbn [with_flags t_calls]. rewrite Nat.sub_diag. by split.
  - split; [|done]. cbn [with_flags t_calls]. rewrite Nat.sub_diag. by split.
  - cbn [set_calls t_calls]. rewrite length_insert, Nat.sub_diag. split; [|done]. split; [done|]. cbn.
    destruct (t_phase t) as [| |o k| | | |] eqn:Ep; try done. destruct Hph as (d & Hd' & ? & ?).
    destruct (decide (call = k)) as [->|Hne].
    + eexists. split; [apply list_lookup_insert_eq; by eapply lookup_lt_Some|]. cbn.
      by replace c with d by congruence.
    + exists d. by rewrite list_lookup_insert_ne.
  - unfold take_tick. set (t1 := {| t_now := t_now t |}).
    assert (stopping_inv since n t1) as H1 by (by split).
    split; [by apply (begin_run_stopping since n Periodic t1 Ht); [change (quiet (t_phase t) = true); rewrite Hp|]|].
    unfold begin_run, start_call. repeat case_match; cbn; rewrite ?length_app; lia.
  - assert (t_calls (exit config t) = t_calls t) as -> by (unfold exit; by destruct (t_slot t)).
    rewrite Nat.sub_diag. split; [by apply exit_stopping|done].
  - rewrite Hp in Hph. unfold start_call. cbn. rewrite length_app. cbn.
    split; [|lia]. split; [done|]. cbn. eexists. split; [by apply list_lookup_middle|]. cbn. lia.
  - rewrite Hp in Hph. destruct Hph as (d & Hd' & ? & ?). unfold finish_run.
    destruct (run_result res); cbn; rewrite Nat.sub_diag; (split; [|done]); (split; [done|]); cbn; lia.
  - rewrite Hp in Hph. destruct Hph as (d & Hd' & ? & ?).
    cbn. rewrite Nat.sub_diag. split; [|done]. split; [done|]. cbn. lia.
  - rewrite Hp in Hph. unfold after_send. destruct rt as [[]|].
    + destruct (backoff_next _) as [b w]. cbn. rewrite Nat.sub_diag. split; [|done]. by split.
    + cbn. rewrite Nat.sub_diag. split; [|done]. by split.
    + cbn. rewrite Nat.sub_diag. split; [|done]. by split.
  - assert (t_calls (exit config t) = t_calls t) as -> by (unfold exit; by destruct (t_slot t)).
    rewrite Nat.sub_diag. split; [|done]. apply exit_stopping; [done|by rewrite Hp|done].
  - split; [by apply begin_run_stopping; [|rewrite Hp|]|].
    unfold begin_run, start_call. repeat case_match; cbn; rewrite ?length_app; lia.
  - cbn. rewrite Nat.sub_diag. split; [|done]. by split.
  - cbn. rewrite Nat.sub_diag. split; [|done]. by split.
Qed.

Lemma run_stopping since n t t' :
  0 ≤ request_timeout config → 0 ≤ shutdown_drain_timeout config → task_inv t → stopping_inv since n t →
  rtc step t t' →
  stopping_inv since (length (t_calls t') - length (t_calls t) + n) t' ∧
  (length (t_calls t) ≤ length (t_calls t'))%nat.
Proof.
  intros Ht Hd Hi Hst Hrun. revert n Hst. induction Hrun as [t|t t1 t' Hs _ IH]; intros n Hst.
  { by rewrite Nat.sub_diag. }
  destruct (step_stopping _ _ _ _ Ht Hd Hi Hst Hs) as [Hst1 Hle1].
  destruct (IH (step_inv _ _ Hi Hs) _ Hst1) as [Hst2 Hle2]. split; [|lia].
  by replace (length (t_calls t') - length (t_calls t) + n)%nat
    with (length (t_calls t') - length (t_calls t1) + (length (t_calls t1) - length (t_calls t) + n))%nat by lia.
Qed.

(** From a cancelled state the task can end without another call. *)
Definition can_end (t : Task) : Prop := ∃ t', rtc step t t' ∧ t_phase t' = Ended ∧ t_calls t' = t_calls t.

Lemma can_end_step t t' : step t t' → t_calls t' = t_calls t → can_end t' → can_end t.
Proof. intros Hs Hc (t2 & Hr & He & Hc2). exists t2. split_and!; [by eapply rtc_l|done|congruence]. Qed.

Lemma draining_can_end u t : task_inv t → t_phase t = Draining u → can_end t.
Proof.
  intros Hi Hp. destruct (ti_drain _ Hi u Hp) as [k Es].
  destruct (is_finished t k) eqn:Ef.
  { eexists. split; [eapply rtc_once, step_drained; eauto|done]. }
  destruct (Z.le_gt_cases (t_now t) u) as [Hu|Hu].
  - apply (can_end_step _ (pass (u - t_now t) t)); [apply step_pass; split; [lia|rewrite Hp; lia]|done|].
    eexists. split; [eapply rtc_once, step_drain_timeout; cbn; [exact Hp|exact Es|exact Ef|lia]|done].
  - eexists. split; [eapply rtc_once, step_drain_timeout; eauto; lia|done].
Qed.

Lemma cancellable_can_end t :
  task_inv t → t_cancelled t = true → cancellable (t_phase t) = true → can_end t.
Proof.
  intros Hi Hx Hc. assert (step t (exit config t)) as Hs by (by apply step_cancelled).
  assert (t_calls (exit config t) = t_calls t) as Hcalls by (unfold exit; by destruct (t_slot t)).
  apply (can_end_step _ _ Hs Hcalls). pose proof (step_inv _ _ Hi Hs) as Hi'.
  destruct (t_slot t) as [k|] eqn:Es.
  - eapply draining_can_end; [done|]. unfold exit. by rewrite Es.
  - eexists. split; [apply rtc_refl|]. unfold exit. by rewrite Es.
Qed.

Lemma cancelled_can_end t : task_inv t → t_cancelled t = true → can_end t.
Proof.
  intros Hi Hx. destruct (t_phase t) as [|o|o k|o ev rt|u|u|] eqn:Ep;
    try (apply cancellable_can_end; [done|done|by rewrite Ep]).
  - assert (∃ c, t_calls t !! k = Some c) as [c Hc].
    { apply lookup_lt_is_Some_2. pose proof (ti_reading _ Hi _ _ Ep). lia. }
    destruct (cr_result c) as [[at_ r]|] eqn:Er.
    + eapply can_end_step; [by eapply step_result|by unfold finish_run; destruct (run_result r)|].
      apply cancellable_can_end; [by eapply result_inv|..]; unfold finish_run; by destruct (run_result r).
    + pose proof (ti_limit _ Hi _ _ _ Ep Hc) as Hlim.
      set (t1 := pass (cr_started c + request_timeout config - t_now t) t).
      assert (step t t1) as Hs1 by (apply step_pass; split; [lia|]; rewrite Ep, Hc; lia).
      pose proof (step_inv _ _ Hi Hs1) as Hi1.
      apply (can_end_step _ t1 Hs1); [done|].
      assert (step t1 (finish_run target o (inl timeout_error) (t_now t1 - cr_started c) (set_slot (Some k) t1))) as Hs2.
      { eapply step_timeout; try done. cbn. lia. }
      apply (can_end_step _ _ Hs2); [done|]. apply cancellable_can_end; [by eapply step_inv|done|done].
  - by eapply draining_can_end.
  - exists t. by split_and!; [apply rtc_refl| |].
Qed.

(** A cancelled task stops in bounded time.  However the driver and the
    channel behave, even if both block for ever: while a task that has been
    cancelled is not yet at its end, no more time has passed since than one
    request timeout for each call it still started and one more, plus the limit
    of the final drain; and it is always possible for it to end without starting
    another call.  (It starts another one only when a tick, the end of a sleep
    or of an old call is ready at the same moment as the cancellation.) *)
Theorem poll_stops start t t' :
  0 ≤ request_timeout config → 0 ≤ shutdown_drain_timeout config →
  reachable start t → t_cancelled t = true → t_phase t ≠ Ended → (∀ u, t_phase t ≠ Draining u) →
  rtc step t t' →
  (t_phase t' ≠ Ended →
   t_now t' ≤ t_now t
     + (Z.of_nat (length (t_calls t') - length (t_calls t)) + 1) * request_timeout config
     + shutdown_drain_timeout config) ∧
  ∃ t2, rtc step t' t2 ∧ t_phase t2 = Ended ∧ t_calls t2 = t_calls t'.
Proof.
  intros Ht Hd Hr Hx Hne Hnd Hrun. pose proof (reachable_inv _ _ Ht Hr) as Hi.
  assert (stopping_inv (t_now t) 0 t) as Hst.
  { split; [done|]. destruct (t_phase t) as [|o|o k|o ev rt|u|u|] eqn:Ep; cbn; try done; try lia.
    - assert (∃ c, t_calls t !! k = Some c) as [c Hc].
      { apply lookup_lt_is_Some_2. pose proof (ti_reading _ Hi _ _ Ep). lia. }
      exists c. split; [done|]. destruct (ti_times _ Hi _ _ Hc). pose proof (ti_limit _ Hi _ _ _ Ep Hc). lia.
    - by destruct (Hnd u). }
  destruct (run_stopping _ _ _ _ Ht Hd Hi Hst Hrun) as [[Hx' Hst'] _]. rewrite Nat.add_0_r in Hst'. split.
  - intros Hne'. destruct (t_phase t') as [|o|o k|o ev rt|u|u|]; cbn in Hst'; try done; try lia.
    destruct Hst' as (c & _ & ? & ?). lia.
  - apply cancelled_can_end; [|done].
    clear -Hi Hrun. induction Hrun as [|t t1 t' Hs _ IH]; [done|]. by eapply IH, step_inv.
Qed.
End runs.

(** ** The scheduler *)
Lemma join_tasks_bounded deadline now timed_out ends :
  now ≤ deadline → (timed_out = true → now = deadline) →
  let '(n, ds) := join_tasks deadline now timed_out ends in
  now ≤ n ≤ deadline ∧
  ds = (λ e, match e with Some at_ => if at_ <=? deadline then Joined else Aborted | None => Aborted end) <$> ends.
Proof.
  revert now timed_out. induction ends as [|e ends IH]; intros now timed_out Hn Ht; cbn [join_tasks fmap list_fmap].
  { split; [lia|done]. }
  destruct timed_out.
  - rewrite (Ht eq_refl) in *. specialize (IH deadline true ltac:(lia) ltac:(done)).
    destruct (join_tasks deadline deadline true ends) as [n ds]. destruct IH as [? ->]. by split.
  - destruct e as [at_|]; cbn [default].
    + destruct (Z.leb_spec at_ deadline).
      * specialize (IH (Z.max now at_) false ltac:(lia) ltac:(done)).
        destruct (join_tasks _ _ _ _) as [n ds]. destruct IH as [? ->]. split; [lia|done].
      * specialize (IH (Z.max now deadline) true ltac:(lia) ltac:(lia)).
        destruct (join_tasks _ _ _ _) as [n ds]. destruct IH as [? ->]. split; [lia|done].
    + specialize (IH (Z.max now deadline) true ltac:(lia) ltac:(lia)).
      destruct (join_tasks _ _ _ _) as [n ds]. destruct IH as [? ->]. split; [lia|done].
Qed.

(** The scheduler stops all its tasks within one grace period, however many
    there are: those that end by then are joined, the others aborted. *)
Theorem shutdown_bounded grace now ends s :
  0 ≤ grace → ps_cancel s = true →
  ∃ n, shutdown_with_timeout grace now ends s =
    (scheduler_new,
     (n, (λ e, match e with Some at_ => if at_ <=? now + grace then Joined else Aborted | None => Aborted end) <$> ends)) ∧
    n ≤ now + grace.
Proof.
  intros Hg Hc. unfold shutdown_with_timeout. rewrite Hc.
  pose proof (join_tasks_bounded (now + grace) now false ends ltac:(lia) ltac:(done)) as H.
  destruct (join_tasks _ _ _ _) as [n ds]. destruct H as [? ->]. exists n. split; [done|lia].
Qed.

(** * Concrete runs of the poll engine *)

(** The next multiple of the period after the present. *)
Definition skip_tick (period due now : Z) : Z := now + period - (now - due) mod period.

#[export] Instance skip_tick_skips : SkipsMissed skip_tick.
Proof.
  split; unfold skip_tick; intros period due now Hp Hd.
  - pose proof (Z.mod_pos_bound (now - due) period Hp). lia.
  - exists ((now - due) / period + 1). pose proof (Z.div_mod (now - due) period ltac:(lia)).
    pose proof (Z.div_pos (now - due) period ltac:(lia) Hp). split; [lia|]. nia.
Qed.

Definition example_target : PollTarget :=
  {| pt_device_id := lit "press-1"; pt_interval_ms := 1000;
     pt_items := [{| ri_id := 1; ri_address := lit "40001"; ri_expected_type := None |}] |}.

Lemma default_config_ok : config_ok poll_config_default.
Proof. unfold config_ok, in_u. split_and!; by vm_compute. Qed.

Lemma backoff_schedule_witness :
  backoff_waits 7 (backoff_of poll_config_default) !! 5%nat = Some 30000.
Proof.
  apply (backoff_schedule poll_config_default 7 5 (backoff_of poll_config_default) default_config_ok);
    [by vm_compute|lia|by left].
Defined.

Abbreviation example_step := (step example_target poll_config_default skip_tick).
Abbreviation example_reachable := (reachable example_target poll_config_default skip_tick 0).

(** A first call that returns, is reported, and a second one that does not. *)
Definition example_start : Task := poll_loop example_target poll_config_default 0.
Definition example_first : Task := take_tick example_target skip_tick example_start.
Definition example_returned : Task :=
  set_calls (<[0%nat := {| cr_started := 0; cr_result := Some (5, CallResult.Returned (inr [])) |}]>
    (t_calls (pass 5 example_first))) (pass 5 example_first).
Definition example_done : Task :=
  finish_run example_target Periodic (run_result (CallResult.Returned (inr []))) (t_now example_returned - 0) example_returned.
Definition example_reported : Task :=
  after_send None (deliver (batch_event example_target [] 5) example_done).
Definition example_second : Task := take_tick example_target skip_tick (pass 1000000000 example_reported).
Definition example_cancelled : Task := with_flags true false example_second.

Lemma example_run : example_reachable example_cancelled.
Proof.
  unfold reachable. apply (rtc_l _ _ example_first); [by apply step_tick|].
  apply (rtc_l _ _ (pass 5 example_first)); [apply step_pass; by vm_compute|].
  apply (rtc_l _ _ example_returned).
  { apply (step_return _ _ _ (pass 5 example_first) 0 {| cr_started := 0; cr_result := None |}); by vm_compute. }
  apply (rtc_l _ _ example_done).
  { apply (step_result _ _ _ example_returned Periodic 0
      {| cr_started := 0; cr_result := Some (5, CallResult.Returned (inr [])) |} 5); by vm_compute. }
  apply (rtc_l _ _ example_reported); [by apply (step_sent _ _ _ _ Periodic)|].
  apply (rtc_l _ _ (pass 1000000000 example_reported)); [apply step_pass; by vm_compute|].
  apply (rtc_l _ _ example_second); [apply step_tick; by vm_compute|].
  apply rtc_once. apply (step_cancel _ _ _ example_second).
Qed.

Lemma poll_reports_witness :
  (length (t_events example_cancelled) ≤ length (t_calls example_cancelled) ≤ S (length (t_events example_cancelled)))%nat ∧
  (∀ k ev, t_events example_cancelled !! k = Some ev → ∃ c, t_calls example_cancelled !! k = Some c ∧
     reports example_target poll_config_default c ev) ∧
  (∀ j k c d, t_calls example_cancelled !! j = Some c → t_calls example_cancelled !! k = Some d →
     cr_result c = None → cr_result d = None → j = k).
Proof.
  apply (poll_reports example_target poll_config_default skip_tick 0 example_cancelled); [by vm_compute|apply example_run].
Defined.

Lemma poll_load_witness :
  Z.of_nat (length (t_calls example_cancelled)) ≤
    (t_now example_cancelled - 0) / interval_ns example_target + 1
    + (t_now example_cancelled - 0) / least_wait poll_config_default.
Proof.
  apply (poll_load example_target poll_config_default skip_tick 0 example_cancelled);
    [apply default_config_ok|done|apply example_run].
Defined.

Lemma poll_stops_witness :
  (t_phase example_cancelled ≠ Ended →
   t_now example_cancelled ≤ t_now example_cancelled
     + (Z.of_nat (length (t_calls example_cancelled) - length (t_calls example_cancelled)) + 1)
         * request_timeout poll_config_default
     + shutdown_drain_timeout poll_config_default) ∧
  ∃ t2, rtc example_step example_cancelled t2 ∧ t_phase t2 = Ended ∧ t_calls t2 = t_calls example_cancelled.
Proof.
  apply (poll_stops example_target poll_config_default skip_tick 0 example_cancelled example_cancelled);
    [by vm_compute|by vm_compute|apply example_run|done|done|done|apply rtc_refl].
Defined.

Lemma shutdown_bounded_witness :
  ∃ n, shutdown_with_timeout 100 0 [Some 40; None] {| ps_cancel := true; ps_tasks := [] |} =
    (scheduler_new, (n, [Joined; Aborted])) ∧ n ≤ 0 + 100.
Proof. apply (shutdown_bounded 100 0 [Some 40; None] {| ps_cancel := true; ps_tasks := [] |}); done. Defined.
