(* ===== verification/DriverLoader.v ===== *)
(** * The driver loader: crates/driver-loader/src

    Loading a plugin and checking its function table, and [NativeDriver], which
    calls the table: the requests are encoded for the C ABI, the status codes,
    buffers and JSON envelopes of the answers are turned into results or
    errors.  The functions behind the table, the dynamic linker and the JSON
    decoders are parameters; buffers are the bytes they own. *)

From S2P Require Import Prelude RustStd ObservationModel DriverAbi AbiTag ControlModel.
From stdpp Require Import options.

#[local] Set Default Proof Using "Type".
#[local] Set Warnings "-register-all".

(** ** Errors (error.rs); texts and paths are left out *)
Module LoaderError.
Inductive t : Type :=
| LoadFailed
| EntryNotFound
| InvalidEntryName
| NullEntry
| StructTooSmall (size required : Z)
| AbiIncompatible (major minor : Z)
| ManifestAbiMismatch (declared actual : Z * Z)
| MissingFunction (name : string)
| CreateFailed (detail : option DriverErrorInfo)
| CallFailed (function : string) (status : Z) (detail : option DriverErrorInfo)
| EmptyResponse (function : string)
| InvalidUtf8 (function : string)
| InvalidResponse (function : string)
| InvalidHandle
| Encoding.

Definition code (e : t) : string :=
  match e with
  | LoadFailed => "driver_load_failed"
  | EntryNotFound => "driver_entry_not_found"
  | InvalidEntryName => "driver_manifest_entry_invalid"
  | NullEntry => "driver_entry_null"
  | StructTooSmall _ _ => "driver_struct_too_small"
  | AbiIncompatible _ _ => "driver_abi_incompatible"
  | ManifestAbiMismatch _ _ => "driver_manifest_abi_mismatch"
  | MissingFunction _ => "driver_missing_function"
  | CreateFailed _ => "driver_create_failed"
  | CallFailed _ _ _ => "driver_call_failed"
  | EmptyResponse _ => "driver_empty_response"
  | InvalidUtf8 _ => "driver_invalid_utf8"
  | InvalidResponse _ => "driver_invalid_response"
  | InvalidHandle => "driver_invalid_handle"
  | Encoding => "driver_encoding_error"
  end.
End LoaderError.

(** ** Loading (plugin.rs)

    The memory the entry function points to is a list of bytes; a read beyond
    its end is undefined behaviour and shows as a panic. *)
Definition ABI_MAJOR : Z := 1.
Definition ABI_MINOR : Z := 0.
Definition HEADER_SIZE : nat := 16.

Definition read_unaligned (mem : list Z) (offset size : nat) : outcome LoaderError.t Z :=
  if (offset + size <=? length mem)%nat then Ok (from_le_bytes (slice offset (offset + size) mem))
  else Panic.

(** The function pointers of [DriverApiV1] with their offsets. *)
Definition FUNCTIONS : list (string * nat) :=
  [("create", 16); ("destroy", 24); ("connect", 32); ("disconnect", 40);
   ("get_capabilities_json", 48); ("validate_address", 56); ("read", 64); ("write", 72);
   ("execute", 80); ("browse", 88); ("subscribe", 96); ("unsubscribe", 104);
   ("query_history", 112); ("get_last_error_json", 120); ("free_buffer", 128)]%string%nat.

Definition require_function_at (mem : list Z) (struct_size : nat) (name : string) (offset : nat) :
    outcome LoaderError.t () :=
  let field_end := (offset + 8)%nat in
  if (struct_size <? field_end)%nat then
    Err (LoaderError.StructTooSmall (Z.of_nat struct_size) (Z.of_nat field_end))
  else
    let? value := read_unaligned mem offset 8 in
    if value =? 0 then Err (LoaderError.MissingFunction name) else Ok ().

Fixpoint require_functions (mem : list Z) (struct_size : nat) (l : list (string * nat)) :
    outcome LoaderError.t () :=
  match l with
  | [] => Ok ()
  | (name, offset) :: l' =>
      let? _ := require_function_at mem struct_size name offset in
      require_functions mem struct_size l'
  end.

(** [manifest] is the ABI version the manifest declares. *)
Definition validate_api (mem : list Z) (manifest : Z * Z) : outcome LoaderError.t () :=
  let? size := read_unaligned mem 0 4 in
  let struct_size := Z.to_nat size in
  if (struct_size <? HEADER_SIZE)%nat then
    Err (LoaderError.StructTooSmall size (Z.of_nat HEADER_SIZE))
  else
    let? abi_major := read_unaligned mem 4 2 in
    let? abi_minor := read_unaligned mem 6 2 in
    if negb (abi_major =? ABI_MAJOR) || (ABI_MINOR <? abi_minor) then
      Err (LoaderError.AbiIncompatible abi_major abi_minor)
    else if negb (manifest.1 =? abi_major) || negb (manifest.2 =? abi_minor) then
      Err (LoaderError.ManifestAbiMismatch manifest (abi_major, abi_minor))
    else require_functions mem struct_size FUNCTIONS.

(** [NativePlugin::load]: [library] is what the dynamic linker found, its
    symbols with what calling them returns (null or the table's memory). *)
Definition load (library : option (str → option (option (list Z)))) (entry : str) (manifest : Z * Z) :
    outcome LoaderError.t (list Z) :=
  let? lib := ok_or library LoaderError.LoadFailed in
  if bool_decide (0 ∈ entry) then Err LoaderError.InvalidEntryName
  else
    let? api_ptr := ok_or (lib entry) LoaderError.EntryNotFound in
    let? mem := ok_or api_ptr LoaderError.NullEntry in
    let? _ := validate_api mem manifest in
    Ok mem.

(** ** The function table

    A handle is the state [D] behind it; a call yields a status and the buffer
    it wrote, if any. *)
Abbreviation ffi_result := (Z * option (list Z))%type.

Class DriverApiV1 (D W : Type) : Type := {
  fn_create : FfiStr → W → W * (Z * option D);
  fn_destroy : D → W → W * Z;
  fn_connect : D * W → (D * W) * ffi_result;
  fn_disconnect : D * W → (D * W) * ffi_result;
  fn_get_capabilities_json : D * W → (D * W) * ffi_result;
  fn_validate_address : FfiStr → D * W → (D * W) * ffi_result;
  fn_read : option (list FfiReadItem) → nat → D * W → (D * W) * ffi_result;
  fn_write : option (list FfiWriteItem) → nat → D * W → (D * W) * ffi_result;
  fn_execute : FfiStr → D * W → (D * W) * ffi_result;
  fn_browse : FfiStr → D * W → (D * W) * ffi_result;
  fn_query_history : FfiStr → D * W → (D * W) * ffi_result;
  fn_get_last_error_json : D * W → (D * W) * ffi_result;
}.

(** [serde_json] on the envelopes, as far as the loader uses it. *)
Class Decoders (Json Node HistoryRequest HistoryPage : Type) : Type := {
  from_read_envelope : str → option (list RawReadResult);
  float_read_back : Z → Z;            (* what a finite [f64] is read as after it was written *)
  from_write_envelope : str → option (list RawWriteResult);
  from_address_envelope : str → option AddressMetadata;
  from_capabilities_envelope : str → option ProtocolCapabilities;
  from_error_envelope : str → option DriverErrorInfo;
  from_execute_envelope : str → option (RawCommandResult Json);
  from_browse_envelope : str → option (list Node);
  from_history_envelope : str → option HistoryPage;
  to_execute_request : DriverCommand Json → option str;
  to_history_request : HistoryRequest → option str;
}.

(** ** [NativeDriver] (driver.rs) *)
Record NativeDriver (D : Type) : Type := mkNativeDriver {
  nd_handle : D;
  nd_capabilities : option ProtocolCapabilities;
  nd_connected : bool;
}.
Arguments mkNativeDriver {D}.
Arguments nd_handle {D}.
Arguments nd_capabilities {D}.
Arguments nd_connected {D}.

Definition ffi_str (s : str) : FfiStr := {| fs_null := false; fs_bytes := utf8_encode s |}.
Definition ffi_str_empty : FfiStr := {| fs_null := true; fs_bytes := [] |}.

Definition tag_for_value (value : RawValue.t) : outcome LoaderError.t TypeTag.t :=
  match value with
  | RawValue.Bool _ => Ok TypeTag.Bool
  | RawValue.I64 _ => Ok TypeTag.I64
  | RawValue.U64 _ => Ok TypeTag.U64
  | RawValue.F64 _ => Ok TypeTag.F64
  | RawValue.String _ => Ok TypeTag.String
  | RawValue.Bytes _ => Ok TypeTag.Bytes
  | RawValue.Array _ | RawValue.Struct _ => Err LoaderError.Encoding
  end.

Definition encode_request (json : option str) : outcome LoaderError.t str :=
  ok_or json LoaderError.Encoding.

Definition ffi_read_item (item : DriverReadItem) : FfiReadItem :=
  {| fr_id := ri_id item; fr_address := ffi_str (ri_address item);
     fr_expected_type := data_type_to_tag (ri_expected_type item) |}.

(** The loop of [NativeDriver::write] that fills [ffi_items]. *)
Fixpoint ffi_write_items (items : list DriverWriteItem) : outcome LoaderError.t (list FfiWriteItem) :=
  match items with
  | [] => Ok []
  | item :: items' =>
      let? tag := tag_for_value (dw_value item) in
      let? bytes := map_err (λ _, LoaderError.Encoding)
                      (encode_value_bytes (TypeTag.as_u32 tag) (dw_value item)) in
      let? rest := ffi_write_items items' in
      Ok ({| fw_id := dw_id item; fw_address := ffi_str (dw_address item);
             fw_value_type := TypeTag.as_u32 tag; fw_value_bytes := bytes |} :: rest)
  end.

Section native_driver.
Context {D W Json Node HistoryRequest HistoryPage : Type}.
Context {api : DriverApiV1 D W} `{!Decoders Json Node HistoryRequest HistoryPage}.

(** The last error of the handle; a null or undecodable buffer is none. *)
Definition fetch_error (s : D * W) : (D * W) * option DriverErrorInfo :=
  let '(s', (status, out)) := fn_get_last_error_json s in
  (s', if negb (status =? 0) then None
       else bytes ← out; json ← utf8_decode bytes; from_error_envelope json).

(** [NativeDriver::create] *)
Definition create (config : str) (w : W) : W * outcome LoaderError.t (NativeDriver D) :=
  let '(w1, (status, handle)) := fn_create (ffi_str config) w in
  if negb (status =? 0) then
    match handle with
    | Some d =>
        let '((d', w2), detail) := fetch_error (d, w1) in
        ((fn_destroy d' w2).1, Err (LoaderError.CreateFailed detail))
    | None => (w1, Err (LoaderError.CreateFailed None))
    end
  else
    match handle with
    | None => (w1, Err LoaderError.InvalidHandle)
    | Some d => (w1, Ok {| nd_handle := d; nd_capabilities := None; nd_connected := false |})
    end.

Abbreviation M := (stm (NativeDriver D * W) LoaderError.t).

Definition set_handle (d : D) (n : NativeDriver D) : NativeDriver D :=
  {| nd_handle := d; nd_capabilities := nd_capabilities n; nd_connected := nd_connected n |}.

Definition set_connected (b : bool) (n : NativeDriver D) : NativeDriver D :=
  {| nd_handle := nd_handle n; nd_capabilities := nd_capabilities n; nd_connected := b |}.

Definition set_capabilities (c : ProtocolCapabilities) (n : NativeDriver D) : NativeDriver D :=
  {| nd_handle := nd_handle n; nd_capabilities := Some c; nd_connected := nd_connected n |}.

(** A call of the table; a status that is not 0 becomes [call_failed]. *)
Definition call (function : string) (f : D * W → (D * W) * ffi_result) : M (option (list Z)) := λ '(n, w),
  let '(s1, (status, out)) := f (nd_handle n, w) in
  if negb (status =? 0) then
    let '((d2, w2), detail) := fetch_error s1 in
    ((set_handle d2 n, w2), Err (LoaderError.CallFailed function status detail))
  else ((set_handle s1.1 n, s1.2), Ok out).

(** [take_owned], [as_str] and [serde_json::from_str] *)
Definition decode_buffer {A} (function : string) (decode : str → option A) (out : option (list Z)) :
    outcome LoaderError.t A :=
  let? bytes := ok_or out (LoaderError.EmptyResponse function) in
  let? json := ok_or (utf8_decode bytes) (LoaderError.InvalidUtf8 function) in
  ok_or (decode json) (LoaderError.InvalidResponse function).

Definition query {A} (function : string) (decode : str → option A)
    (f : D * W → (D * W) * ffi_result) : M A :=
  sbind (call function f) (λ out, slift (decode_buffer function decode out)).

Definition protocol_capabilities : M ProtocolCapabilities := λ s,
  match nd_capabilities s.1 with
  | Some c => (s, Ok c)
  | None =>
      sbind (query "get_capabilities_json" from_capabilities_envelope fn_get_capabilities_json)
        (λ c '(n, w), ((set_capabilities c n, w), Ok c)) s
  end.

Definition connect : M () :=
  sbind (call "connect" fn_connect) (λ _ '(n, w), ((set_connected true n, w), Ok ())).

Definition disconnect : M () :=
  sbind (call "disconnect" fn_disconnect) (λ _ '(n, w), ((set_connected false n, w), Ok ())).

Definition validate_address (address : str) : M AddressMetadata :=
  query "validate_address" from_address_envelope (fn_validate_address (ffi_str address)).

Definition read (items : list DriverReadItem) : M (list RawReadResult) :=
  query "read" from_read_envelope (fn_read (Some (ffi_read_item <$> items)) (length items)).

Definition write (items : list DriverWriteItem) : M (list RawWriteResult) :=
  sbind (slift (ffi_write_items items)) (λ ffi_items,
  query "write" from_write_envelope (fn_write (Some ffi_items) (length ffi_items))).

Definition execute (command : DriverCommand Json) : M (RawCommandResult Json) :=
  sbind (slift (encode_request (to_execute_request command))) (λ request,
  query "execute" from_execute_envelope (fn_execute (ffi_str request))).

Definition browse (path : option str) : M (list Node) :=
  query "browse" from_browse_envelope
    (fn_browse (match path with Some p => ffi_str p | None => ffi_str_empty end)).

Definition query_history (request : HistoryRequest) : M HistoryPage :=
  sbind (slift (encode_request (to_history_request request))) (λ request,
  query "query_history" from_history_envelope (fn_query_history (ffi_str request))).

(** [Drop]: the handle is destroyed once. *)
Definition drop_driver (n : NativeDriver D) (w : W) : W := (fn_destroy (nd_handle n) w).1.
End native_driver.

(** ** What a driver behind the table promises

    [ad_read] and [ad_write] are the driver's own batch operations, [ad_fail]
    records an error in its handle.  The table runs them on the items it was
    given, answers with the envelope of their results, and turns errors and
    panics into status -1 with the error recorded. *)
Definition scalar_type (d : option DataType.t) : bool :=
  match d with Some (DataType.Array _ | DataType.Struct _) => false | _ => true end.

Section abi_driver.
Context {D W E : Type}.

Definition answered {A} (ad_fail : E → D → D) (panicked : E)
    (to_vec : A → option (list Z)) (r : (D * W) * outcome E A) : (D * W) * ffi_result :=
  match r with
  | (s, Ok a) => (s, match to_vec a with Some bytes => (0, Some bytes) | None => (-1, None) end)
  | ((d, w), Err e) => ((ad_fail e d, w), (-1, None))
  | ((d, w), Panic) => ((ad_fail panicked d, w), (-1, None))
  end.
End abi_driver.

Class AbiDriver (D W E : Type) {api : DriverApiV1 D W} `{!Envelopes} : Type := {
  ad_read : list DriverReadItem → stm (D * W) E (list RawReadResult);
  ad_write : list DriverWriteItem → stm (D * W) E (list RawWriteResult);
  ad_fail : E → D → D;
  ad_panicked : E;
  ad_info : E → DriverErrorInfo;
  fn_read_spec items s :
    Forall (λ i, Forall char_ok (ri_address i) ∧ scalar_type (ri_expected_type i) = true) items →
    fn_read (Some (ffi_read_item <$> items)) (length items) s =
      answered ad_fail ad_panicked read_envelope (ad_read items s);
  fn_write_spec items ffi_items s :
    Forall (λ i, Forall char_ok (dw_address i) ∧ RawValue.wf (dw_value i)) items →
    ffi_write_items items = Ok ffi_items →
    fn_write (Some ffi_items) (length ffi_items) s =
      answered ad_fail ad_panicked write_envelope (ad_write items s);
  fn_last_error_spec e d w :
    fn_get_last_error_json (ad_fail e d, w) =
      ((ad_fail e d, w), match error_envelope (ad_info e) with Some bytes => (0, Some bytes) | None => (-1, None) end);
}.

(** ** JSON

    [serde_json] writes an [f64] that is not finite as [null], which is not
    accepted where an [f64] is expected.  A finite one is read back as
    [float_read_back] says: the number itself with the [float_roundtrip] feature,
    which no crate of the workspace asks for, otherwise what the faster parser
    makes of the text.  Everything else round-trips. *)
Section json.
Context {Json Node HistoryRequest HistoryPage : Type} `{!Decoders Json Node HistoryRequest HistoryPage}.

Fixpoint finite_value (v : RawValue.t) : bool :=
  match v with
  | RawValue.F64 b => f64_is_finite b
  | RawValue.Array l => forallb finite_value l
  | RawValue.Struct l => forallb (λ f, finite_value f.2) l
  | _ => true
  end.

Fixpoint json_value (v : RawValue.t) : RawValue.t :=
  match v with
  | RawValue.F64 b => RawValue.F64 (float_read_back b)
  | RawValue.Array l => RawValue.Array (map json_value l)
  | RawValue.Struct l => RawValue.Struct (map (λ f, (f.1, json_value f.2)) l)
  | _ => v
  end.

Definition finite_result (r : RawReadResult) : bool :=
  match rr_value r with Some v => finite_value v | None => true end.

(** A result after JSON: the same, but for the floats of its value. *)
Definition json_result (r : RawReadResult) : RawReadResult :=
  {| rr_item_id := rr_item_id r; rr_value := json_value <$> rr_value r;
     rr_source_timestamp_ns := rr_source_timestamp_ns r;
     rr_received_timestamp_ns := rr_received_timestamp_ns r;
     rr_protocol_quality_code := rr_protocol_quality_code r; rr_error := rr_error r |}.
End json.

Class EnvelopeLaws `{!Envelopes} `{!Decoders Json Node HistoryRequest HistoryPage} : Prop := {
  read_envelope_decodes l : ∃ bytes json,
    read_envelope l = Some bytes ∧ utf8_decode bytes = Some json ∧
    from_read_envelope json = if forallb finite_result l then Some (json_result <$> l) else None;
  write_envelope_decodes l : ∃ bytes json,
    write_envelope l = Some bytes ∧ utf8_decode bytes = Some json ∧ from_write_envelope json = Some l;
  error_envelope_decodes e : ∃ bytes json,
    error_envelope e = Some bytes ∧ utf8_decode bytes = Some json ∧ from_error_envelope json = Some e;
}.

(** * Correctness of the driver loader

    The check of a function table stays within the table and accepts exactly
    the complete ones; [NativeDriver] is transparent: through the C ABI and
    JSON a driver's batch operations have the outcome they have when called
    directly, except that a value JSON cannot carry loses the whole batch. *)

(** ** The function table *)
Lemma read_unaligned_Ok mem offset size :
  (offset + size ≤ length mem)%nat →
  read_unaligned mem offset size = Ok (from_le_bytes (slice offset (offset + size) mem)).
Proof. intros H. unfold read_unaligned. by rewrite (proj2 (Nat.leb_le _ _) H). Qed.

Definition pointer_at (mem : list Z) (offset : nat) : Z := from_le_bytes (slice offset (offset + 8) mem).

Lemma require_functions_spec mem struct_size l :
  (struct_size ≤ length mem)%nat →
  require_functions mem struct_size l ≠ Panic ∧
  (require_functions mem struct_size l = Ok () ↔
     Forall (λ f, (f.2 + 8 ≤ struct_size)%nat ∧ pointer_at mem f.2 ≠ 0) l).
Proof.
  intros Hs. induction l as [|[name offset] l [IHp IH]]; cbn [require_functions]; [done|].
  unfold require_function_at. destruct (Nat.ltb_spec struct_size (offset + 8)) as [Hlt|Hge]; cbn [outcome_bind].
  { split; [done|]. split; [done|]. rewrite Forall_cons. cbn [snd]. intros [[? _] _]. lia. }
  rewrite read_unaligned_Ok by lia. cbn [outcome_bind]. fold (pointer_at mem offset).
  rewrite Forall_cons. cbn [snd]. destruct (Z.eqb_spec (pointer_at mem offset) 0) as [Hz|Hz]; cbn [outcome_bind].
  - split; [done|]. split; [done|]. intros [[_ ?] _]. done.
  - split; [done|]. rewrite IH. naive_solver.
Qed.

(** Checking a plugin's function table is safe and exact.  If the table
    really has the bytes its [struct_size] field declares (and at least its
    header), no byte beyond them is read; and the table is accepted exactly when
    the declared size covers all fifteen functions, none of them is null, the
    ABI version is the one of the program and the manifest declares it. *)
Theorem validate_api_exact mem manifest size :
  (HEADER_SIZE ≤ length mem)%nat → size = from_le_bytes (slice 0 4 mem) →
  (Z.to_nat size ≤ length mem)%nat →
  validate_api mem manifest ≠ Panic ∧
  (validate_api mem manifest = Ok () ↔
     (136 ≤ Z.to_nat size)%nat ∧
     from_le_bytes (slice 4 6 mem) = ABI_MAJOR ∧ from_le_bytes (slice 6 8 mem) ≤ ABI_MINOR ∧
     manifest = (from_le_bytes (slice 4 6 mem), from_le_bytes (slice 6 8 mem)) ∧
     Forall (λ f, pointer_at mem f.2 ≠ 0) FUNCTIONS).
Proof.
  intros Hh -> Hs. unfold HEADER_SIZE in Hh. unfold validate_api.
  rewrite !read_unaligned_Ok by lia. cbn [outcome_bind Nat.add].
  set (size := from_le_bytes (slice 0 4 mem)) in *. set (major := from_le_bytes (slice 4 6 mem)).
  set (minor := from_le_bytes (slice 6 8 mem)).
  destruct (Nat.ltb_spec (Z.to_nat size) HEADER_SIZE) as [Hlt|Hge].
  { split; [done|]. split; [done|]. unfold HEADER_SIZE in *. intros [? _]. lia. }
  destruct (negb (major =? ABI_MAJOR) || (ABI_MINOR <? minor)) eqn:Ev.
  { split; [done|]. split; [done|]. intros (_ & ? & ? & _). lia. }
  destruct (negb (manifest.1 =? major) || negb (manifest.2 =? minor)) eqn:Em.
  { split; [done|]. split; [done|]. intros (_ & _ & _ & -> & _). cbn [fst snd] in Em. lia. }
  destruct (require_functions_spec mem (Z.to_nat size) FUNCTIONS Hs) as [Hp Hiff]. split; [done|].
  rewrite Hiff. split.
  - intros Hall. split_and!; [|lia|lia|by destruct manifest; f_equal; cbn [fst snd] in Em; lia|].
    + rewrite Forall_forall in Hall. destruct (Hall ("free_buffer"%string, 128%nat)) as [? _]; [|cbn in *; lia].
      unfold FUNCTIONS. set_solver.
    + eapply Forall_impl; [exact Hall|]. by intros f [_ ?].
  - intros (Hsz & _ & _ & _ & Hall). apply Forall_forall. intros f Hf. split.
    + unfold FUNCTIONS in Hf. repeat (apply elem_of_cons in Hf as [->|Hf]; [cbn [snd]; lia|]). set_solver.
    + by apply (proj1 (Forall_forall _ _) Hall).
Qed.

(** ** Calls *)
Section calls.
Context {D W E Json Node HistoryRequest HistoryPage : Type}.
Context {api : DriverApiV1 D W} `{!Envelopes} `{!Decoders Json Node HistoryRequest HistoryPage}.
Context `{!AbiDriver D W E} {json_laws : EnvelopeLaws}.

Lemma fetch_error_spec e d w :
  fetch_error (ad_fail e d, w) = ((ad_fail e d, w), Some (ad_info e)).
Proof using json_laws.
  unfold fetch_error. rewrite fn_last_error_spec.
  destruct (error_envelope_decodes (ad_info e)) as (bytes & json & -> & Hu & Hd). cbn.
  by rewrite Hu; cbn; rewrite Hd.
Qed.

(** The answer of a table turned into a result. *)
Lemma query_answered {A} function (decode : str → option A) (to_vec : A → option (list Z)) f
    (r : (D * W) * outcome E A) (n : NativeDriver D) w :
  f (nd_handle n, w) = answered ad_fail ad_panicked to_vec r →
  query function decode f (n, w) =
    match r with
    | ((d, w'), Ok a) =>
        match to_vec a with
        | Some bytes => ((set_handle d n, w'), decode_buffer function decode (Some bytes))
        | None => let '((d2, w2), detail) := fetch_error (d, w') in
                  ((set_handle d2 n, w2), Err (LoaderError.CallFailed function (-1) detail))
        end
    | ((d, w'), Err e) =>
        ((set_handle (ad_fail e d) n, w'), Err (LoaderError.CallFailed function (-1) (Some (ad_info e))))
    | ((d, w'), Panic) =>
        ((set_handle (ad_fail ad_panicked d) n, w'),
         Err (LoaderError.CallFailed function (-1) (Some (ad_info ad_panicked))))
    end.
Proof using json_laws.
  intros Hf. unfold query, sbind, call. rewrite Hf. destruct r as [[d w'] [a|e|]]; cbn [answered].
  - destruct (to_vec a) as [bytes|]; cbn; [done|]. by destruct (fetch_error (d, w')) as [[d2 w2] det].
  - cbn. by rewrite fetch_error_spec.
  - cbn. by rewrite fetch_error_spec.
Qed.

(** What the caller of the driver would have seen without the ABI between. *)
Definition call_failed {A} (function : string) (n : NativeDriver D) (e : E) (s : D * W) :
    (NativeDriver D * W) * outcome LoaderError.t A :=
  ((set_handle (ad_fail e s.1) n, s.2), Err (LoaderError.CallFailed function (-1) (Some (ad_info e)))).

(** C19: a plugin is as good as the driver inside it.  A batch read of items of
    scalar types through the loader, the C ABI and JSON runs the driver's own
    batch read on the same items and returns its results, each finite float as
    the JSON parser reads back what was written for it; an error or a
    panic of the driver arrives with its code, device code and retry flag; but
    when one value of the batch is a NaN or an infinity, the whole batch is
    refused as an invalid response, although the driver read every item.  A
    batch write runs the driver's batch write on the same values and returns
    exactly its results, or refuses a composite value before any call. *)
Theorem native_driver_transparent (n : NativeDriver D) w reads writes :
  Forall (λ i, Forall char_ok (ri_address i) ∧ scalar_type (ri_expected_type i) = true) reads →
  Forall (λ i, Forall char_ok (dw_address i) ∧ RawValue.wf (dw_value i)) writes →
  match ad_read reads (nd_handle n, w) with
  | ((d, w'), Ok rs) =>
      if forallb finite_result rs
      then read reads (n, w) = ((set_handle d n, w'), Ok (json_result <$> rs))
      else read reads (n, w) = ((set_handle d n, w'), Err (LoaderError.InvalidResponse "read"))
  | (s, Err e) => read reads (n, w) = call_failed "read" n e s
  | (s, Panic) => read reads (n, w) = call_failed "read" n ad_panicked s
  end ∧
  match ffi_write_items writes with
  | Ok _ =>
      match ad_write writes (nd_handle n, w) with
      | ((d, w'), Ok rs) => write writes (n, w) = ((set_handle d n, w'), Ok rs)
      | (s, Err e) => write writes (n, w) = call_failed "write" n e s
      | (s, Panic) => write writes (n, w) = call_failed "write" n ad_panicked s
      end
  | Err e => write writes (n, w) = ((n, w), Err e) ∧ e = LoaderError.Encoding
  | Panic => False
  end.
Proof using json_laws.
  intros Hr Hw. split.
  - unfold read. rewrite (query_answered _ _ _ _ _ n w (fn_read_spec reads (nd_handle n, w) Hr)).
    destruct (ad_read reads (nd_handle n, w)) as [[d w'] [rs|e|]]; [|done..].
    destruct (read_envelope_decodes rs) as (bytes & json & -> & Hu & Hd). unfold decode_buffer. cbn [ok_or outcome_bind].
    rewrite Hu. cbn [ok_or outcome_bind]. rewrite Hd. by destruct (forallb finite_result rs).
  - unfold write. destruct (ffi_write_items writes) as [ffi|e|] eqn:Ef.
    + rewrite (sbind_Ok _ _ _ (n, w) ffi) by done.
      rewrite (query_answered _ _ _ _ _ n w (fn_write_spec writes ffi (nd_handle n, w) Hw Ef)).
      destruct (ad_write writes (nd_handle n, w)) as [[d w'] [rs|e|]]; [|done..].
      destruct (write_envelope_decodes rs) as (bytes & json & -> & Hu & Hd). unfold decode_buffer. cbn [ok_or outcome_bind].
      by rewrite Hu; cbn [ok_or outcome_bind]; rewrite Hd.
    + split; [done|]. clear Hr Hw. revert e Ef. induction writes as [|i l IH]; cbn [ffi_write_items]; [done|]. intros e.
      destruct (tag_for_value (dw_value i)) as [t|e'|] eqn:Et; cbn [outcome_bind].
      * destruct (encode_value_bytes _ _) as [b|e'|]; cbn [map_err outcome_bind]; [|by intros [= <-]|done].
        destruct (ffi_write_items l) as [x|e'|]; cbn [outcome_bind]; [done| |done]. intros [= <-]. by apply IH.
      * intros [= <-]. unfold tag_for_value in Et. by destruct (dw_value i); simplify_eq.
      * done.
    + clear Hr Hw. induction writes as [|i l IH]; cbn [ffi_write_items] in *; [done|].
      destruct (dw_value i) as [[]|v|v|v|s|b|l1|l1]; cbn in Ef; try done; destruct (ffi_write_items l); by try apply IH.
Qed.
End calls.
