(* ===== verification/DriverPlugins.v ===== *)
(** * The drivers as plugins of the loader

    The function tables of the drivers: the Modbus one over its own entry
    points, the others over [DriverAbi], and the proofs that they keep the
    promises of [AbiDriver]. *)

From S2P Require Import Prelude RustStd ObservationModel AbiTag ControlModel.
From S2P Require Import ModbusFrame ModbusCodec ModbusSession ModbusBatch ModbusDriver.
From S2P Require Import S7Codec S7Batch S7Driver.
From S2P Require Import DriverAbi DriverLoader.
From stdpp Require Import options.

#[local] Set Default Proof Using "Type".

(** The state behind the pointer of a live handle after a call. *)
Definition live {D W R : Type} (d : D) (r : (option D * W) * R) : (D * W) * R :=
  let '((h, w), res) := r in ((default d h, w), res).

(** ** Items across the ABI *)
Lemma ffi_str_round_trip s : Forall char_ok s → ffi_str_to_str (ffi_str s) = Some s.
Proof.
  intros Hs. unfold ffi_str_to_str, ffi_str. cbn [fs_bytes fs_null].
  destruct (Nat.eqb_spec (length (utf8_encode s)) 0) as [Hl|_]; [|by apply utf8_decode_encode].
  destruct s as [|c s]; [done|]. exfalso. unfold utf8_encode in Hl. cbn in Hl.
  rewrite length_app in Hl. pose proof (utf8_encode_char_pos c). lia.
Qed.

Lemma ffi_type_round_trip d : scalar_type d = true → tag_to_data_type (data_type_to_tag d) = Ok d.
Proof. intros Hd. rewrite tag_data_type_round_trip. by destruct d as [[]|]. Qed.

(** A written value arrives as it was given. *)
Lemma ffi_write_items_cons i l ffi :
  RawValue.wf (dw_value i) → ffi_write_items (i :: l) = Ok ffi →
  ∃ tag bytes rest, tag_for_value (dw_value i) = Ok tag ∧ ffi_write_items l = Ok rest ∧
    decode_value_bytes (TypeTag.as_u32 tag) bytes = Ok (dw_value i) ∧
    ffi = {| fw_id := dw_id i; fw_address := ffi_str (dw_address i);
             fw_value_type := TypeTag.as_u32 tag; fw_value_bytes := bytes |} :: rest.
Proof.
  intros Hwf. cbn [ffi_write_items]. intros (tag & Ht & Hk)%outcome_bind_Ok_inv.
  apply outcome_bind_Ok_inv in Hk as (bytes & Hb & (rest & Hr & [= <-])%outcome_bind_Ok_inv).
  exists tag, bytes, rest. split_and!; [done..| |done].
  assert (encode_value_bytes (TypeTag.as_u32 tag) (dw_value i) = Ok bytes) as He
    by (destruct (encode_value_bytes _ _); cbn in Hb; by simplify_eq).
  erewrite tag_encode_decode; [|apply try_from_as_u32|done|exact He]. f_equal.
  destruct (dw_value i); cbn in Ht; by simplify_eq.
Qed.

(** ** Drivers over [DriverAbi] *)
Class PluginInfo (D W E Q : Type) `{!Plugin D W E Q} : Type := {
  pl_info : E → DriverErrorInfo;
  pl_last_error_info e (d : D) : pl_last_error (pl_set_last_error e d) = Some (pl_info e);
}.

Section plugin.
Context {D W E Q : Type} `{!Plugin D W E Q} `{!Envelopes}.

#[export] Instance plugin_api : DriverApiV1 D W := {|
  fn_create config w := (w, api_create (Plugin0 := Plugin0) config);
  fn_destroy d w := api_destroy (Some d) w;
  fn_connect '(d, w) := live d (api_connect (Some d) w);
  fn_disconnect '(d, w) := live d (api_disconnect (Some d) w);
  fn_get_capabilities_json '(d, w) := live d (api_get_capabilities_json (Some d) w);
  fn_validate_address addr '(d, w) := live d (api_validate_address addr (Some d) w);
  fn_read items len '(d, w) := live d (api_read items len (Some d) w);
  fn_write items len '(d, w) := live d (api_write items len (Some d) w);
  fn_execute _ '(d, w) := live d (api_unsupported (Some d) w);
  fn_browse _ '(d, w) := live d (api_unsupported (Some d) w);
  fn_query_history _ '(d, w) := live d (api_unsupported (Some d) w);
  fn_get_last_error_json '(d, w) := live d (api_get_last_error_json (Some d) w);
|}.

Lemma plugin_read_items (items : list DriverReadItem) :
  Forall (λ i, Forall char_ok (ri_address i) ∧ scalar_type (ri_expected_type i) = true) items →
  convert_read_items (Plugin0 := Plugin0) (ffi_read_item <$> items) = Ok items.
Proof.
  induction 1 as [|[id a t] l [Ha Ht] _ IH]; cbn [fmap list_fmap convert_read_items]; [done|].
  cbn [ffi_read_item fr_id fr_address fr_expected_type ri_id ri_address ri_expected_type] in *.
  rewrite ffi_type_round_trip by done. cbn [map_err outcome_bind].
  change (list_fmap _ _ ffi_read_item l) with (ffi_read_item <$> l). rewrite IH. cbn [outcome_bind].
  by rewrite ffi_str_round_trip.
Qed.

Definition plugin_request (i : DriverWriteItem) : Q := pl_request (dw_id i) (dw_address i) (dw_value i).

Lemma plugin_write_items items ffi :
  Forall (λ i, Forall char_ok (dw_address i) ∧ RawValue.wf (dw_value i)) items →
  ffi_write_items items = Ok ffi →
  convert_write_items (Plugin0 := Plugin0) ffi = Ok (plugin_request <$> items).
Proof.
  intros Hi. revert ffi. induction Hi as [|i l [Ha Hv] _ IH]; intros ffi; [by intros [= <-]|].
  intros (tag & bytes & rest & _ & Hr & Hd & ->)%ffi_write_items_cons; [|done].
  cbn [convert_write_items fw_value_type fw_value_bytes fw_id fw_address]. rewrite Hd. cbn [map_err outcome_bind].
  rewrite (IH _ Hr). cbn [outcome_bind]. by rewrite ffi_str_round_trip.
Qed.

Context `{!PluginInfo D W E Q}.

Lemma entry_answered {A} (m : stm (D * W) E A) to_vec d w :
  live d (entry (finish m to_vec) (Some d) w) = answered pl_set_last_error pl_driver_panic to_vec (m (d, w)).
Proof.
  unfold entry, catch_abi_panic, finish. destruct (m (d, w)) as [[d' w'] [a|e|]]; cbn; [|done..].
  by destruct (to_vec a).
Qed.

#[export] Program Instance plugin_driver : AbiDriver D W E := {|
  ad_read := pl_read_batch;
  ad_write items := pl_write_batch (plugin_request <$> items);
  ad_fail := pl_set_last_error;
  ad_panicked := pl_driver_panic;
  ad_info := pl_info;
|}.
Next Obligation.
  intros items [d w] Hi. cbn. unfold api_read, with_items.
  rewrite firstn_all2 by (by rewrite length_fmap). rewrite plugin_read_items by done. apply entry_answered.
Qed.
Next Obligation.
  intros items ffi [d w] Hi Hf. cbn. unfold api_write, with_items.
  rewrite firstn_all2 by done. rewrite (plugin_write_items items ffi) by done. apply entry_answered.
Qed.
Next Obligation.
  intros e d w. cbn. unfold api_get_last_error_json, entry, catch_abi_panic. cbn. rewrite pl_last_error_info.
  by destruct (error_envelope (pl_info e)).
Qed.
End plugin.

(** The S7comm driver. *)
Section s7.
Context {W H Addr : Type} `{!Os W} `{!ByteStream W H} `{!TcpNet W H Addr} `{!Envelopes}.
Context (from_str : str → option S7Codec.S7Config).

Definition s7_info : PluginInfo (Plugin0 := S7Driver.s7_plugin from_str) (S7Driver.S7commDriver H) W S7Codec.S7Error.t S7Batch.WriteRequest.
Proof. refine {| pl_info := S7Codec.S7Error.into_info |}. done. Defined.
End s7.

(** ** The Modbus driver *)
Section modbus.
Context {W T : Type} `{!Os W} `{!ModbusSession.Transport W T} `{!Envelopes}.
Context (from_str : str → option ModbusCodec.ModbusConfig).
Context (create_transport : ModbusCodec.ModbusConfig → outcome ModbusFrame.ModbusError.t T).

Definition modbus_api : DriverApiV1 (ModbusDriver.ModbusDriver T) W := {|
  fn_create config w := (w, ModbusDriver.api_create from_str create_transport config);
  fn_destroy d w := ModbusDriver.api_destroy (Some d) w;
  fn_connect '(d, w) := live d (ModbusDriver.api_connect (Some d) w);
  fn_disconnect '(d, w) := live d (ModbusDriver.api_disconnect (Some d) w);
  fn_get_capabilities_json '(d, w) := live d (ModbusDriver.api_get_capabilities_json (Some d) w);
  fn_validate_address addr '(d, w) := live d (ModbusDriver.api_validate_address addr (Some d) w);
  fn_read items len '(d, w) := live d (ModbusDriver.api_read items len (Some d) w);
  fn_write items len '(d, w) := live d (ModbusDriver.api_write items len (Some d) w);
  fn_execute _ '(d, w) := live d (ModbusDriver.api_unsupported (Some d) w);
  fn_browse _ '(d, w) := live d (ModbusDriver.api_unsupported (Some d) w);
  fn_query_history _ '(d, w) := live d (ModbusDriver.api_unsupported (Some d) w);
  fn_get_last_error_json '(d, w) := live d (ModbusDriver.api_get_last_error_json (Some d) w);
|}.

Lemma modbus_read_items (items : list DriverReadItem) :
  Forall (λ i, Forall char_ok (ri_address i) ∧ scalar_type (ri_expected_type i) = true) items →
  ModbusDriver.convert_read_items (ffi_read_item <$> items) = Ok items.
Proof.
  induction 1 as [|[id a t] l [Ha Ht] _ IH]; cbn [fmap list_fmap ModbusDriver.convert_read_items]; [done|].
  cbn [ffi_read_item fr_id fr_address fr_expected_type ri_id ri_address ri_expected_type] in *.
  rewrite ffi_type_round_trip by done. cbn [map_err outcome_bind].
  change (list_fmap _ _ ffi_read_item l) with (ffi_read_item <$> l). rewrite IH. cbn [outcome_bind].
  by rewrite ffi_str_round_trip.
Qed.

Definition modbus_request (i : DriverWriteItem) : ModbusBatch.WriteRequest :=
  {| ModbusBatch.wq_id := dw_id i; ModbusBatch.wq_address := dw_address i;
     ModbusBatch.wq_value_type :=
       match tag_for_value (dw_value i) with Ok tag => TypeTag.as_u32 tag | _ => TAG_UNKNOWN end;
     ModbusBatch.wq_value := dw_value i |}.

Lemma modbus_write_items items ffi :
  Forall (λ i, Forall char_ok (dw_address i) ∧ RawValue.wf (dw_value i)) items →
  ffi_write_items items = Ok ffi →
  ModbusDriver.convert_write_items ffi = Ok (modbus_request <$> items).
Proof.
  intros Hi. revert ffi. induction Hi as [|i l [Ha Hv] _ IH]; intros ffi; [by intros [= <-]|].
  intros (tag & bytes & rest & Ht & Hr & Hd & ->)%ffi_write_items_cons; [|done].
  cbn [ModbusDriver.convert_write_items fw_value_type fw_value_bytes fw_id fw_address]. rewrite Hd. cbn [map_err outcome_bind].
  rewrite (IH _ Hr). cbn [outcome_bind fmap list_fmap]. rewrite ffi_str_round_trip by done. unfold modbus_request at 2. by rewrite Ht.
Qed.

Lemma modbus_entry_answered {A} (m : stm (ModbusDriver.ModbusDriver T * W) _ A) to_vec d w :
  live d (ModbusDriver.entry (ModbusDriver.finish m to_vec) (Some d) w) =
    answered ModbusDriver.set_last_error ModbusFrame.ModbusError.driver_panic to_vec (m (d, w)).
Proof.
  unfold ModbusDriver.entry, ModbusDriver.catch_abi_panic, ModbusDriver.finish.
  destruct (m (d, w)) as [[d' w'] [a|e|]]; cbn; [|done..]. by destruct (to_vec a).
Qed.

Program Definition modbus_driver :
    AbiDriver (api := modbus_api) (ModbusDriver.ModbusDriver T) W ModbusFrame.ModbusError.t := {|
  ad_read := ModbusDriver.read_batch;
  ad_write items := ModbusDriver.write_batch (modbus_request <$> items);
  ad_fail := ModbusDriver.set_last_error;
  ad_panicked := ModbusFrame.ModbusError.driver_panic;
  ad_info := ModbusFrame.ModbusError.into_info;
|}.
Next Obligation.
  intros items [d w] Hi. cbn. unfold ModbusDriver.api_read.
  rewrite firstn_all2 by (by rewrite length_fmap). rewrite modbus_read_items by done. apply modbus_entry_answered.
Qed.
Next Obligation.
  intros items ffi [d w] Hi Hf. cbn. unfold ModbusDriver.api_write.
  rewrite firstn_all2 by done. rewrite (modbus_write_items items ffi) by done. apply modbus_entry_answered.
Qed.
Next Obligation.
  intros e d w. cbn. unfold ModbusDriver.api_get_last_error_json, ModbusDriver.entry, ModbusDriver.catch_abi_panic.
  cbn. by destruct (error_envelope (ModbusFrame.ModbusError.into_info e)).
Qed.
End modbus.
