(* ===== verification/DeviceManager.v ===== *)
(** * The device manager: crates/device-manager/src, and the event pump of apps/collector

    Devices bound to a profile and a driver session, the read items and polling
    groups generated from the profile, the mapping of polled results to
    observations, and the executor that routes control requests to the session.
    Sessions and the driver factory are interfaces; a session is shared by
    polling and control under one lock, so its state is a field of the
    instance. *)

From S2P Require Import Prelude RustStd ObservationModel ProfileModel ProfileConvert DomainModel ControlModel ControlQueue.
From S2P Require Import DriverAbi S7Address PollEngine DriverLoader ProfileRegistryLaws AbiTag.
From stdpp Require Import options.

#[local] Set Default Proof Using "Type".

#[export] Instance domain_kind_eq_dec : EqDecision DomainKind.t.
Proof. solve_decision. Defined.

(** ** Devices (observation-model device.rs) *)
Record Device (Json : Type) : Type := mkDevice {
  dev_id : str;
  dev_name : str;
  dev_domain : DomainKind.t;
  dev_driver_id : str;
  dev_profile_id : str;
  dev_connection_config : Json;
  dev_enabled : bool;
  dev_labels : gmap str str;
}.
Arguments mkDevice {Json}.
Arguments dev_id {Json}.
Arguments dev_name {Json}.
Arguments dev_domain {Json}.
Arguments dev_driver_id {Json}.
Arguments dev_profile_id {Json}.
Arguments dev_connection_config {Json}.
Arguments dev_enabled {Json}.
Arguments dev_labels {Json}.

(** ** Read items (read_items.rs) *)
Record ReadItem : Type := mkReadItem {
  it_item_id : Z;
  it_path : str;
  it_interval_ms : Z;
  it_driver_item : DriverReadItem;
  it_property : ProfileProperty;
}.

Record ReadGroup : Type := mkReadGroup {
  rg_interval_ms : Z;
  rg_read_items : list ReadItem;
  rg_driver_items : list DriverReadItem;
}.

Definition read_item_of (default_interval_ms : Z) (index : nat) (p : ProfileProperty) : ReadItem :=
  {| it_item_id := Z.of_nat index; it_path := pr_path p;
     it_interval_ms := default default_interval_ms (pr_default_interval_ms p);
     it_driver_item := {| ri_id := Z.of_nat index; ri_address := pr_driver_address p;
                          ri_expected_type := Some (pr_raw_type p) |};
     it_property := p |}.

Definition readable_properties (profile : DeviceProfile) : list ProfileProperty :=
  filter (λ p, pr_readable p = true) (dp_properties profile).

Definition generate_read_items (profile : DeviceProfile) (default_interval_ms : Z) : list ReadItem :=
  imap (read_item_of default_interval_ms) (readable_properties profile).

(** The loop of [group_read_items]; [InvalidInterval] carries the path. *)
Fixpoint group_loop (items : list ReadItem) (by_interval : list (Z * list ReadItem)) :
    outcome str (list (Z * list ReadItem)) :=
  match items with
  | [] => Ok by_interval
  | item :: items' =>
      if it_interval_ms item =? 0 then Err (it_path item)
      else group_loop items' (btree_push Z.compare (it_interval_ms item) item by_interval)
  end.

Definition group_of (e : Z * list ReadItem) : ReadGroup :=
  {| rg_interval_ms := e.1; rg_read_items := e.2; rg_driver_items := it_driver_item <$> e.2 |}.

Definition group_read_items (items : list ReadItem) : outcome str (list ReadGroup) :=
  let? by_interval := group_loop items [] in
  Ok (group_of <$> by_interval).

(** ** Sequences (sequence.rs) *)
Abbreviation SequenceAllocator := (gmap str Z).

Definition current (device_id : str) (s : SequenceAllocator) : Z := default 0 (s !! device_id).

Definition allocate (device_id : str) (count : nat) (s : SequenceAllocator) : SequenceAllocator * Z :=
  let start := current device_id s in
  (<[device_id := wrap64 (start + Z.of_nat count)]> s, start).

Definition reset (device_id : str) (s : SequenceAllocator) : SequenceAllocator := <[device_id := 0]> s.

(** ** Sessions (session.rs)

    A session [S] in a world [W]. *)
Class DriverSession (S W Json : Type) : Type := {
  ds_read_batch : list DriverReadItem → stm (S * W) DriverErrorInfo (list RawReadResult);
  ds_write_batch : list DriverWriteItem → stm (S * W) DriverErrorInfo (list RawWriteResult);
  ds_execute_command : DriverCommand Json → stm (S * W) DriverErrorInfo (RawCommandResult Json);
  ds_validate_address : str → stm (S * W) DriverErrorInfo AddressMetadata;
  ds_protocol_capabilities : stm (S * W) DriverErrorInfo ProtocolCapabilities;
  ds_drop : S → W → W;
}.

Definition map_loader_error (error : LoaderError.t) : DriverErrorInfo :=
  match error with
  | LoaderError.CallFailed _ _ (Some info) => info
  | LoaderError.CallFailed _ _ None =>
      {| dei_code := LoaderError.code error; dei_protocol_code := None; dei_retryable := true |}
  | other =>
      {| dei_code := LoaderError.code other; dei_protocol_code := None; dei_retryable := false |}
  end.

Definition smap_err {S E F A} (f : E → F) (m : stm S E A) : stm S F A :=
  λ s, let '(s', r) := m s in (s', map_err f r).

(** [NativeSessionDriver] *)
Definition native_session {D W Json Node HistoryRequest HistoryPage} {api : DriverApiV1 D W}
    `{!Decoders Json Node HistoryRequest HistoryPage} : DriverSession (NativeDriver D) W Json := {|
  ds_read_batch items := smap_err map_loader_error (read items);
  ds_write_batch items := smap_err map_loader_error (write items);
  ds_execute_command command := smap_err map_loader_error (execute command);
  ds_validate_address address := smap_err map_loader_error (DriverLoader.validate_address address);
  ds_protocol_capabilities := smap_err map_loader_error protocol_capabilities;
  ds_drop := drop_driver;
|}.

(** [NativeDriverAdapter::read_batch] (poll-engine driver.rs) *)
Definition adapter_read_batch {D W Json Node HistoryRequest HistoryPage} {api : DriverApiV1 D W}
    `{!Decoders Json Node HistoryRequest HistoryPage} (items : list DriverReadItem) :
    stm (NativeDriver D * W) DriverErrorInfo (list RawReadResult) :=
  smap_err (λ error,
    match error with
    | LoaderError.CallFailed _ _ (Some info) =>
        {| dei_code := dei_code info; dei_protocol_code := dei_protocol_code info;
           dei_retryable := dei_retryable info |}
    | LoaderError.CallFailed _ _ None =>
        {| dei_code := LoaderError.code error; dei_protocol_code := None; dei_retryable := true |}
    | other =>
        {| dei_code := LoaderError.code other; dei_protocol_code := None; dei_retryable := false |}
    end) (read items).

(** ** Binding (bind.rs) *)
Module BindError.
Inductive t : Type :=
| UnknownDriver (driver_id : str)
| CreateFailed (driver_id : str)
| DuplicateDriver (driver_id : str).
End BindError.

Class DriverFactory (F S W Json : Type) : Type := {
  df_create_driver : F → str → Json → W → W * outcome BindError.t S;
}.

(** [NativeDriverFactory] over loaded plugins [P] whose [NativeDriver::create]
    makes a session. *)
Section native_factory.
Context {P S W Json : Type} (manifest_id : P → str) (to_string_json : Json → option str).
Context (native_create : P → str → W → W * outcome LoaderError.t S).

Definition add_plugin (plugin : P) (plugins : gmap str P) : gmap str P * outcome BindError.t () :=
  let driver_id := manifest_id plugin in
  match plugins !! driver_id with
  | Some _ => (plugins, Err (BindError.DuplicateDriver driver_id))
  | None => (<[driver_id := plugin]> plugins, Ok ())
  end.

Definition create_driver (plugins : gmap str P) (driver_id : str) (config : Json) (w : W) :
    W * outcome BindError.t S :=
  match plugins !! driver_id with
  | None => (w, Err (BindError.UnknownDriver driver_id))
  | Some plugin =>
      match to_string_json config with
      | None => (w, Err (BindError.CreateFailed driver_id))
      | Some config_str =>
          let '(w', r) := native_create plugin config_str w in
          (w', map_err (λ _, BindError.CreateFailed driver_id) r)
      end
  end.
End native_factory.

(** ** Instances and the manager (instance.rs, error.rs) *)
Module DeviceManagerError.
Inductive t : Type :=
| DuplicateDevice (device_id : str)
| ProfileNotFound (device_id profile_id : str)
| DriverMismatch (device_id device_driver_id profile_driver_id : str)
| DomainMismatch (device_id : str) (device_domain profile_domain : DomainKind.t)
| DriverBindFailed (device_id driver_id : str) (reason : BindError.t)
| InvalidDefaultInterval (interval_ms : Z)
| InvalidReadItemInterval (device_id path : str).
End DeviceManagerError.

Record DeviceInstance (S Json : Type) : Type := mkDeviceInstance {
  di_device : Device Json;
  di_profile : DeviceProfile;
  di_session : S;
  di_read_items : list ReadItem;
  di_groups : list ReadGroup;
}.
Arguments mkDeviceInstance {S Json}.
Arguments di_device {S Json}.
Arguments di_profile {S Json}.
Arguments di_session {S Json}.
Arguments di_read_items {S Json}.
Arguments di_groups {S Json}.

Record DeviceManager (S Json F : Type) : Type := mkDeviceManager {
  dm_profiles : ProfileRegistry;
  dm_drivers : F;
  dm_default_interval_ms : Z;
  dm_devices : gmap str (DeviceInstance S Json);
}.
Arguments mkDeviceManager {S Json F}.
Arguments dm_profiles {S Json F}.
Arguments dm_drivers {S Json F}.
Arguments dm_default_interval_ms {S Json F}.
Arguments dm_devices {S Json F}.

(** [MapContext] (pipeline.rs) *)
Record MapContext : Type := mkMapContext {
  mc_collector_session_id : str;
  mc_ingest_timestamp_ns : Z;
}.

(** [reason_for_driver_error] *)
Fixpoint starts_with (needle s : str) : bool :=
  match needle, s with
  | [], _ => true
  | a :: needle', b :: s' => (a =? b) && starts_with needle' s'
  | _ :: _, [] => false
  end.

Fixpoint contains (needle s : str) : bool :=
  starts_with needle s || match s with [] => false | _ :: s' => contains needle s' end.

Definition reason_for_driver_error (error : DriverErrorInfo) : QualityReason.t :=
  let code := to_ascii_lowercase (lit (dei_code error)) in
  if contains (lit "timeout") code then QualityReason.Timeout
  else if contains (lit "connection") code || contains (lit "not_connected") code then QualityReason.NotConnected
  else QualityReason.ProtocolError.

Section manager.
Context {S W Json F : Type} `{!DriverSession S W Json} `{!DriverFactory F S W Json}.
Abbreviation Instance_ := (DeviceInstance S Json).
Abbreviation Manager := (DeviceManager S Json F).

Definition item (i : Instance_) (item_id : Z) : option ReadItem := di_read_items i !! Z.to_nat item_id.

Definition poll_targets (i : Instance_) : list PollTarget :=
  if dev_enabled (di_device i) then
    (λ g, {| pt_device_id := dev_id (di_device i); pt_interval_ms := rg_interval_ms g;
             pt_items := rg_driver_items g |}) <$> di_groups i
  else [].

Definition manager_new (profiles : ProfileRegistry) (drivers : F) (default_interval_ms : Z) :
    outcome DeviceManagerError.t Manager :=
  if default_interval_ms =? 0 then Err (DeviceManagerError.InvalidDefaultInterval 0)
  else Ok {| dm_profiles := profiles; dm_drivers := drivers;
             dm_default_interval_ms := default_interval_ms; dm_devices := ∅ |}.

Definition set_devices (devices : gmap str Instance_) (m : Manager) : Manager :=
  {| dm_profiles := dm_profiles m; dm_drivers := dm_drivers m;
     dm_default_interval_ms := dm_default_interval_ms m; dm_devices := devices |}.

(** The checks before the driver is created. *)
Definition bind_profile (m : Manager) (device : Device Json) : outcome DeviceManagerError.t DeviceProfile :=
  match dm_devices m !! dev_id device with
  | Some _ => Err (DeviceManagerError.DuplicateDevice (dev_id device))
  | None =>
      let? profile := ok_or (dm_profiles m !! dev_profile_id device)
        (DeviceManagerError.ProfileNotFound (dev_id device) (dev_profile_id device)) in
      if negb (bool_decide (dp_driver_id profile = dev_driver_id device)) then
        Err (DeviceManagerError.DriverMismatch (dev_id device) (dev_driver_id device) (dp_driver_id profile))
      else if negb (bool_decide (dp_domain profile = dev_domain device)) then
        Err (DeviceManagerError.DomainMismatch (dev_id device) (dev_domain device) (dp_domain profile))
      else Ok profile
  end.

(** A session that is not kept is dropped. *)
Definition register_device (device : Device Json) : stm (Manager * W) DeviceManagerError.t () := λ '(m, w),
  match bind_profile m device with
  | Ok profile =>
      match df_create_driver (dm_drivers m) (dev_driver_id device) (dev_connection_config device) w with
      | (w1, Ok session) =>
          let read_items := generate_read_items profile (dm_default_interval_ms m) in
          match group_read_items read_items with
          | Ok groups =>
              ((set_devices (<[dev_id device :=
                  {| di_device := device; di_profile := profile; di_session := session;
                     di_read_items := read_items; di_groups := groups |}]> (dm_devices m)) m, w1), Ok ())
          | Err path => ((m, ds_drop session w1), Err (DeviceManagerError.InvalidReadItemInterval (dev_id device) path))
          | Panic => ((m, ds_drop session w1), Panic)
          end
      | (w1, Err e) => ((m, w1), Err (DeviceManagerError.DriverBindFailed (dev_id device) (dev_driver_id device) e))
      | (w1, Panic) => ((m, w1), Panic)
      end
  | Err e => ((m, w), Err e)
  | Panic => ((m, w), Panic)
  end.

Definition get (m : Manager) (device_id : str) : option Instance_ := dm_devices m !! device_id.

Definition remove (device_id : str) (m : Manager) : Manager * option Instance_ :=
  (set_devices (delete device_id (dm_devices m)) m, dm_devices m !! device_id).

(** ** Mapping (pipeline.rs)

    The loops of [map_results] and [map_failure]; [index] counts all items. *)
Definition map_result (i : Instance_) (ctx : MapContext) (sequence : Z) (result : RawReadResult) :
    outcome DomainError.t (option Observation) :=
  match item i (rr_item_id result) with
  | None => Ok None
  | Some it =>
      let? o := build_observation (dev_id (di_device i)) (dp_domain (di_profile i)) (it_path it)
                  (decode_read (it_property it) result) (rr_source_timestamp_ns result)
                  (mc_ingest_timestamp_ns ctx) sequence (mc_collector_session_id ctx) in
      Ok (Some o)
  end.

Definition map_failed_item (i : Instance_) (error : DriverErrorInfo) (ctx : MapContext) (sequence : Z)
    (failed : DriverReadItem) : outcome DomainError.t (option Observation) :=
  match item i (ri_id failed) with
  | None => Ok None
  | Some it =>
      let? o := build_observation (dev_id (di_device i)) (dp_domain (di_profile i)) (it_path it)
                  {| dr_value := None;
                     dr_quality := {| q_level := QualityLevel.Bad; q_reason := reason_for_driver_error error;
                                      q_protocol_code := dei_protocol_code error |} |}
                  None (mc_ingest_timestamp_ns ctx) sequence (mc_collector_session_id ctx) in
      Ok (Some o)
  end.

Fixpoint map_all {A} (f : Z → A → outcome DomainError.t (option Observation)) (start : Z) (l : list A) :
    outcome DomainError.t (list Observation) :=
  match l with
  | [] => Ok []
  | a :: l' =>
      let? o := f (wrap64 start) a in
      let? rest := map_all f (start + 1) l' in
      Ok (match o with Some o => o :: rest | None => rest end)
  end.

Definition map_results (i : Instance_) (results : list RawReadResult) (ctx : MapContext)
    (sequences : SequenceAllocator) : SequenceAllocator * outcome DomainError.t (list Observation) :=
  let '(sequences', start) := allocate (dev_id (di_device i)) (length results) sequences in
  (sequences', map_all (map_result i ctx) start results).

Definition map_failure (i : Instance_) (items : list DriverReadItem) (error : DriverErrorInfo) (ctx : MapContext)
    (sequences : SequenceAllocator) : SequenceAllocator * outcome DomainError.t (list Observation) :=
  let '(sequences', start) := allocate (dev_id (di_device i)) (length items) sequences in
  (sequences', map_all (map_failed_item i error ctx) start items).

(** [pump_event] (apps/collector tasks.rs): what is handed to the pipeline. *)
Definition pump_event (m : Manager) (session_id : str) (now : Z) (event : PollEvent.t)
    (sequences : SequenceAllocator) : SequenceAllocator * list Observation :=
  let ctx := {| mc_collector_session_id := session_id; mc_ingest_timestamp_ns := now |} in
  let ingested r := match r with (s, Ok observations) => (s, observations) | (s, _) => (s, []) end in
  match event with
  | PollEvent.Batch batch =>
      match get m (pb_device_id batch) with
      | None => (sequences, [])
      | Some i => ingested (map_results i (pb_results batch) ctx sequences)
      end
  | PollEvent.Failed device_id _ items error =>
      match get m device_id with
      | None => (sequences, [])
      | Some i => ingested (map_failure i items error ctx sequences)
      end
  end.

(** ** The executor (control_exec.rs) *)
Definition set_session (device_id : str) (i : Instance_) (s : S) (m : Manager) : Manager :=
  set_devices (<[device_id := {| di_device := di_device i; di_profile := di_profile i; di_session := s;
                                 di_read_items := di_read_items i; di_groups := di_groups i |}]> (dm_devices m)) m.

(** [SessionPollHandle::read_batch]: the same lock, the same session. *)
Definition poll_read (device_id : str) (items : list DriverReadItem) :
    stm (Manager * W) DriverErrorInfo (option (list RawReadResult)) := λ '(m, w),
  match get m device_id with
  | None => ((m, w), Ok None)
  | Some i =>
      let '((s', w'), r) := ds_read_batch items (di_session i, w) in
      ((set_session device_id i s' m, w'), outcome_map Some r)
  end.
End manager.

Inductive Certainty : Type := Deterministic | Uncertain.

Definition NOT_SENT_CODES : list string :=
  ["connection_failed"; "unsupported"; "config_error"; "invalid_address"; "invalid_type";
   "driver_encoding_error"; "modbus_exception"]%string.

Definition classify_failure (info : DriverErrorInfo) : Certainty :=
  if bool_decide (dei_code info ∈ NOT_SENT_CODES) then Deterministic else Uncertain.

Definition executor_error (code : string) : DriverErrorInfo :=
  {| dei_code := code; dei_protocol_code := None; dei_retryable := false |}.

Definition device_not_found : DriverErrorInfo := executor_error "device_not_found".
Definition runtime_shutdown : DriverErrorInfo := executor_error "executor_runtime_shutdown".
Definition blocking_panicked : DriverErrorInfo := executor_error "executor_blocking_panicked".

(** What became of a blocking call; [None] when the runtime was shut down
    before it started. *)
Definition write_outcome (r : option (outcome DriverErrorInfo (list RawWriteResult))) : WriteOutcome.t :=
  match r with
  | Some (Ok results) => WriteOutcome.Succeeded results
  | Some (Err info) =>
      match classify_failure info with
      | Deterministic => WriteOutcome.Failed info
      | Uncertain => WriteOutcome.Indeterminate info
      end
  | Some Panic => WriteOutcome.Indeterminate blocking_panicked
  | None => WriteOutcome.Failed runtime_shutdown
  end.

Definition execute_outcome {Json} (r : option (outcome DriverErrorInfo (RawCommandResult Json))) :
    ExecuteOutcome.t Json :=
  match r with
  | Some (Ok result) => ExecuteOutcome.Succeeded result
  | Some (Err info) =>
      match classify_failure info with
      | Deterministic => ExecuteOutcome.Failed info
      | Uncertain => ExecuteOutcome.Indeterminate info
      end
  | Some Panic => ExecuteOutcome.Indeterminate blocking_panicked
  | None => ExecuteOutcome.Failed runtime_shutdown
  end.

Section executor.
Context {S W Json F : Type} `{!DriverSession S W Json}.
Abbreviation Manager := (DeviceManager S Json F).

(** Whether [spawn_blocking] still runs its closure. *)
Context (runs : W → bool).

Definition on_session {A} (device_id : str) (call : stm (S * W) DriverErrorInfo A) (s : Manager * W) :
    (Manager * W) * option (option (outcome DriverErrorInfo A)) :=
  match get s.1 device_id with
  | None => (s, None)
  | Some i =>
      if runs s.2 then
        let '((session, w'), r) := call (di_session i, s.2) in
        ((set_session device_id i session s.1, w'), Some (Some r))
      else (s, Some None)
  end.

Definition executor_write (device_id : str) (items : list DriverWriteItem) (s : Manager * W) :
    (Manager * W) * WriteOutcome.t :=
  let '(s', r) := on_session device_id (ds_write_batch items) s in
  (s', match r with None => WriteOutcome.Failed device_not_found | Some r => write_outcome r end).

Definition executor_execute (device_id : str) (command : DriverCommand Json) (s : Manager * W) :
    (Manager * W) * ExecuteOutcome.t Json :=
  let '(s', r) := on_session device_id (ds_execute_command command) s in
  (s', match r with None => ExecuteOutcome.Failed device_not_found | Some r => execute_outcome r end).
End executor.

(** * Correctness of the device manager

    Every readable property of a registered device is polled, once, under an
    identifier that leads back to it; observations are numbered and named
    without repetition; a control request is reported as failed only when it
    cannot have reached the device. *)

(** The adapter of the poll engine and the session map errors alike. *)
Lemma adapter_same {D W Json Node HistoryRequest HistoryPage} {api : DriverApiV1 D W}
    `{!Decoders Json Node HistoryRequest HistoryPage} items (s : NativeDriver D * W) :
  adapter_read_batch items s = ds_read_batch (DriverSession := native_session) items s.
Proof.
  unfold adapter_read_batch. cbn. unfold smap_err. destruct (read items s) as [s' [rs|e|]]; [done| |done]. f_equal.
  cbn. f_equal. by destruct e as [| | | | | | | | |f st [[]|]| | | | |].
Qed.

(** ** Groups *)
Section groups.

Lemma group_loop_Ok items m :
  Forall (λ it, it_interval_ms it ≠ 0) items →
  group_loop items m = Ok (foldl (λ m it, btree_push Z.compare (it_interval_ms it) it m) m items).
Proof.
  intros Hi. revert m. induction Hi as [|it l Hit _ IH]; intros m; cbn; [done|].
  destruct (Z.eqb_spec (it_interval_ms it) 0); [done|]. apply IH.
Qed.

Lemma pushed_groups items m :
  let r := foldl (λ m it, btree_push Z.compare (it_interval_ms it) it m) m items in
  btree_sorted Z.compare m → btree_all (λ k it, it_interval_ms it = k) m →
  Forall (λ it, 0 < it_interval_ms it) items → Forall (λ e, 0 < e.1) m →
  btree_sorted Z.compare r ∧ btree_all (λ k it, it_interval_ms it = k) r ∧
  btree_values r ≡ₚ btree_values m ++ items ∧ Forall (λ e, 0 < e.1) r.
Proof.
  revert m. induction items as [|it l IH]; intros m; cbn; [intros Hs Ha _ Hp; by rewrite app_nil_r|].
  intros Hs Ha Hi Hp. apply Forall_cons in Hi as [Hit Hi].
  destruct (IH (btree_push Z.compare (it_interval_ms it) it m)) as (H1 & H2 & H3 & H4).
  - apply btree_push_sorted; [apply Z.compare_eq| |apply Z.lt_trans|done].
    intros a b Hab. by rewrite Z.compare_antisym, Hab.
  - apply btree_push_all; [intros k; apply Z.compare_eq|done|done].
  - done.
  - clear -Hp Hit. induction Hp as [|[k vs] m Hk Hp IH]; cbn; [by repeat constructor|].
    destruct (it_interval_ms it ?= k); by repeat constructor.
  - split_and!; [done..| |done]. rewrite H3, btree_push_values, <- app_assoc. done.
Qed.

Lemma sorted_intervals (r : list (Z * list ReadItem)) :
  btree_sorted Z.compare r → StronglySorted Z.lt (rg_interval_ms <$> (group_of <$> r)).
Proof.
  induction 1 as [|[k vs] r Hr IH Hk]; cbn; [constructor|]. constructor; [done|].
  apply Forall_fmap, Forall_fmap. eapply Forall_impl; [exact Hk|]. done.
Qed.

(** What grouping makes of items with positive intervals. *)
Lemma group_read_items_Ok items :
  Forall (λ it, 0 < it_interval_ms it) items →
  ∃ groups, group_read_items items = Ok groups ∧
    StronglySorted Z.lt (rg_interval_ms <$> groups) ∧
    Forall (λ g, 0 < rg_interval_ms g ∧ rg_driver_items g = it_driver_item <$> rg_read_items g ∧
              Forall (λ it, it_interval_ms it = rg_interval_ms g) (rg_read_items g)) groups ∧
    concat (rg_read_items <$> groups) ≡ₚ items.
Proof.
  intros Hi. unfold group_read_items. rewrite group_loop_Ok.
  2:{ eapply Forall_impl; [exact Hi|]. cbn. lia. }
  cbn [outcome_bind]. eexists. split; [done|].
  destruct (pushed_groups items []) as (Hs & Ha & Hv & Hp); [constructor|constructor|done|constructor|].
  set (r := foldl _ _ _) in *. split_and!; [by apply sorted_intervals| |].
  - apply Forall_fmap. apply Forall_forall. intros e He. cbn. split_and!; [|done|].
    + by apply (proj1 (Forall_forall _ _) Hp).
    + by apply (proj1 (Forall_forall _ _) Ha).
  - rewrite <- list_fmap_compose. exact Hv.
Qed.
End groups.

(** ** Devices of a running manager *)
Lemma read_item_lookup profile interval k :
  generate_read_items profile interval !! k =
    read_item_of interval k <$> readable_properties profile !! k.
Proof. unfold generate_read_items. apply list_lookup_imap. Qed.

Lemma generated_intervals profile interval :
  validate_profile profile = Ok () → 0 < interval →
  Forall (λ p, default 1 (pr_default_interval_ms p) >= 0) (dp_properties profile) →
  Forall (λ it, 0 < it_interval_ms it) (generate_read_items profile interval).
Proof.
  intros (_ & Hall & _)%validate_profile_Ok Hi Hn. apply Forall_lookup. intros k it.
  rewrite read_item_lookup. destruct (readable_properties profile !! k) as [p|] eqn:Hp; [|done].
  intros [= <-]. cbn. apply list_elem_of_lookup_2, list_elem_of_filter in Hp as [_ Hp].
  rewrite Forall_forall in Hall, Hn. destruct (Hall p Hp). specialize (Hn p Hp).
  destruct (pr_default_interval_ms p) as [v|]; cbn in *; [|done]. assert (v ≠ 0) by congruence. lia.
Qed.

Section runs.
Context {S W Json F : Type} `{!DriverSession S W Json} `{!DriverFactory F S W Json}.
Abbreviation Manager := (DeviceManager S Json F).

(** Every manager of a running program, with the state of the world: after
    [new], any device registrations, removals, and driver calls by polling and
    control.  Intervals are unsigned. *)
Definition unsigned_intervals (r : ProfileRegistry) : Prop :=
  map_Forall (λ _ p, Forall (λ q, default 1 (pr_default_interval_ms q) >= 0) (dp_properties p)) r.

Inductive manager_run : Manager * W → Prop :=
| mr_new profiles drivers interval m w :
    registry_run profiles → unsigned_intervals profiles → 0 ≤ interval →
    manager_new profiles drivers interval = Ok m → manager_run (m, w)
| mr_register device s : manager_run s → manager_run (register_device device s).1
| mr_remove device_id m w : manager_run (m, w) → manager_run ((remove device_id m).1, w)
| mr_poll device_id items s : manager_run s → manager_run (poll_read device_id items s).1
| mr_write runs device_id items s : manager_run s → manager_run (executor_write runs device_id items s).1
| mr_execute runs device_id command s : manager_run s → manager_run (executor_execute runs device_id command s).1
| mr_world m w w' : manager_run (m, w) → manager_run (m, w').

(** What registration establishes for an instance. *)
Record instance_ok (m : Manager) (id : str) (i : DeviceInstance S Json) : Prop := {
  io_id : dev_id (di_device i) = id;
  io_profile : dm_profiles m !! dev_profile_id (di_device i) = Some (di_profile i);
  io_driver : dp_driver_id (di_profile i) = dev_driver_id (di_device i);
  io_domain : dp_domain (di_profile i) = dev_domain (di_device i);
  io_items : di_read_items i = generate_read_items (di_profile i) (dm_default_interval_ms m);
  io_groups : group_read_items (di_read_items i) = Ok (di_groups i);
}.

Record manager_ok (m : Manager) : Prop := {
  mo_profiles : registry_wf (dm_profiles m);
  mo_unsigned : unsigned_intervals (dm_profiles m);
  mo_interval : 0 < dm_default_interval_ms m;
  mo_devices : map_Forall (instance_ok m) (dm_devices m);
}.

Lemma manager_ok_devices m devices :
  manager_ok m → map_Forall (instance_ok m) devices → manager_ok (set_devices devices m).
Proof. intros [H1 H2 H3 _] Hd. split; [done..|]. intros id i Hi. destruct (Hd id i Hi). by split. Qed.

Lemma set_session_ok m id i s :
  manager_ok m → get m id = Some i → manager_ok (set_session id i s m).
Proof.
  intros Hm Hi. apply manager_ok_devices; [done|]. pose proof (mo_devices _ Hm id i Hi) as [].
  apply map_Forall_insert_2; [by split|]. apply Hm.
Qed.

(** The intervals of a registered profile are positive, so that grouping it
    cannot fail. *)
Lemma registered_groups (m : Manager) profile id :
  manager_ok m → dm_profiles m !! id = Some profile →
  Forall (λ it, 0 < it_interval_ms it) (generate_read_items profile (dm_default_interval_ms m)).
Proof.
  intros Hm Hp. apply generated_intervals; [|apply Hm|].
  - by apply (mo_profiles _ Hm id profile Hp).
  - by apply (mo_unsigned _ Hm id profile Hp).
Qed.

Lemma bind_profile_Ok (m : Manager) (device : Device Json) profile :
  bind_profile m device = Ok profile ↔
    dm_devices m !! dev_id device = None ∧ dm_profiles m !! dev_profile_id device = Some profile ∧
    dp_driver_id profile = dev_driver_id device ∧ dp_domain profile = dev_domain device.
Proof.
  unfold bind_profile. destruct (dm_devices m !! dev_id device); [naive_solver|].
  destruct (dm_profiles m !! dev_profile_id device) as [p|]; cbn; [|naive_solver].
  case_bool_decide; cbn; [|naive_solver]. case_bool_decide; cbn; naive_solver.
Qed.

Lemma register_device_ok device s : manager_ok s.1 → manager_ok (register_device device s).1.1.
Proof.
  destruct s as [m w]. intros Hm. cbn in Hm. unfold register_device.
  destruct (bind_profile m device) as [profile|e|] eqn:Eb; [|done..].
  apply bind_profile_Ok in Eb as (Hnew & Hp & Hdr & Hdo).
  destruct (df_create_driver _ _ _ w) as [w1 [session|e|]]; [|done..].
  destruct (group_read_items _) as [groups|path|] eqn:Eg; [|done..]. cbn [fst].
  apply manager_ok_devices; [done|]. apply map_Forall_insert_2; [by split|apply Hm].
Qed.

Lemma on_session_ok {A} runs id (call : stm (S * W) DriverErrorInfo A) s :
  manager_ok s.1 → manager_ok (on_session runs id call s).1.1.
Proof.
  intros Hm. unfold on_session. destruct (get s.1 id) as [i|] eqn:Ei; [|done].
  destruct (runs s.2); [|done]. destruct (call _) as [[s' w'] r]. by apply set_session_ok.
Qed.

Lemma manager_run_ok s : manager_run s → manager_ok s.1.
Proof.
  induction 1 as [profiles drivers interval m w Hr Hu Hi Hn|device s _ IH|id m w _ IH|id items [m w] _ IH
    |runs id items s _ IH|runs id command s _ IH|m w w' _ IH].
  - unfold manager_new in Hn. destruct (Z.eqb_spec interval 0); [done|]. injection Hn as <-.
    split; cbn; [by apply registry_run_wf|done|lia|apply map_Forall_empty].
  - by apply register_device_ok.
  - apply manager_ok_devices; [done|]. apply map_Forall_delete, IH.
  - cbn. destruct (get m id) as [i|] eqn:Ei; [|done]. destruct (ds_read_batch _ _) as [[s' w'] r].
    by apply set_session_ok.
  - unfold executor_write. pose proof (on_session_ok runs id (ds_write_batch items) s IH) as Hs.
    by destruct (on_session _ _ _ _).
  - unfold executor_execute. pose proof (on_session_ok runs id (ds_execute_command command) s IH) as Hs.
    by destruct (on_session _ _ _ _).
  - done.
Qed.

(** C10: a registered device is polled completely.  In every run the polling
    targets of an enabled device cover each readable property of its profile
    exactly once, with the address and type of the property and, as identifier,
    the number by which [item] finds the property again; each at the interval of
    its property, in groups of distinct positive intervals, so that the
    scheduler accepts every target.  The device is bound to a validated profile
    of the same driver and domain. *)
Theorem poll_targets_cover m w id i config sched :
  manager_run (m, w) → get m id = Some i → config_validate config = Ok () →
  validate_profile (di_profile i) = Ok () ∧
  dp_driver_id (di_profile i) = dev_driver_id (di_device i) ∧
  dp_domain (di_profile i) = dev_domain (di_device i) ∧
  (if dev_enabled (di_device i)
   then concat (pt_items <$> poll_targets i) ≡ₚ
          imap (λ k p, {| ri_id := Z.of_nat k; ri_address := pr_driver_address p;
                          ri_expected_type := Some (pr_raw_type p) |}) (readable_properties (di_profile i))
   else poll_targets i = []) ∧
  StronglySorted Z.lt (pt_interval_ms <$> poll_targets i) ∧
  Forall (λ t, pt_device_id t = id ∧ (spawn t config sched).2 = Ok () ∧
    ∀ r, r ∈ pt_items t → ∃ p it, readable_properties (di_profile i) !! Z.to_nat (ri_id r) = Some p ∧
      item i (ri_id r) = Some it ∧ it_property it = p ∧ it_path it = pr_path p ∧
      pt_interval_ms t = default (dm_default_interval_ms m) (pr_default_interval_ms p)) (poll_targets i).
Proof.
  intros Hm%manager_run_ok Hi Hc. cbn [fst] in Hm. pose proof (mo_devices _ Hm id i Hi) as [Hid Hp Hdr Hdo Hit Hg].
  split; [by apply (mo_profiles _ Hm _ _ Hp)|]. split; [done|]. split; [done|].
  pose proof (registered_groups m (di_profile i) _ Hm Hp) as Hpos. rewrite Hit in Hg.
  destruct (group_read_items_Ok _ Hpos) as (groups & Hg' & Hsort & Hgr & Hperm).
  rewrite Hg in Hg'. injection Hg' as <-. unfold poll_targets.
  destruct (dev_enabled (di_device i)); [|split_and!; [done|constructor|constructor]]. split_and!.
  - rewrite <- list_fmap_compose.
    assert (pt_items ∘ (λ g, {| pt_device_id := dev_id (di_device i); pt_interval_ms := rg_interval_ms g;
      pt_items := rg_driver_items g |}) <$> di_groups i = (fmap it_driver_item ∘ rg_read_items) <$> di_groups i) as ->.
    { apply list_fmap_ext. intros k g Hk. cbn. by apply (Forall_lookup_1 _ _ _ _ Hgr) in Hk as (_ & -> & _). }
    rewrite list_fmap_compose.
    assert (concat (fmap it_driver_item <$> (rg_read_items <$> di_groups i)) =
            it_driver_item <$> concat (rg_read_items <$> di_groups i)) as ->.
    { generalize (rg_read_items <$> di_groups i). intros ls. induction ls as [|l ls IH]; cbn; [done|].
      by rewrite fmap_app, <- IH. }
    rewrite Hperm. unfold generate_read_items. by rewrite fmap_imap.
  - rewrite <- list_fmap_compose. exact Hsort.
  - apply Forall_fmap, Forall_forall. intros g Hgin. pose proof (proj1 (Forall_forall _ _) Hgr g Hgin) as (Hpg & Hdi & Hall).
    cbn. split; [done|]. split.
    { unfold spawn, target_validate. cbn. destruct (Z.eqb_spec (rg_interval_ms g) 0); [lia|]. cbn. by rewrite Hc. }
    rewrite Hdi. intros r (it & -> & Hin)%list_elem_of_fmap.
    assert (it ∈ generate_read_items (di_profile i) (dm_default_interval_ms m)) as (k & Hk)%list_elem_of_lookup.
    { rewrite <- Hperm. apply elem_of_concat. exists (rg_read_items g). split; [done|]. apply list_elem_of_fmap. by exists g. }
    pose proof Hk as Hk'. rewrite read_item_lookup in Hk'.
    destruct (readable_properties (di_profile i) !! k) as [p|] eqn:Hpk; [|done]. injection Hk' as <-.
    cbn. rewrite Nat2Z.id. exists p, (read_item_of (dm_default_interval_ms m) k p). split_and!; [done| |done|done|].
    + unfold item. by rewrite Nat2Z.id, Hit.
    + apply (proj1 (Forall_forall _ _) Hall) in Hin. by rewrite <- Hin.
Qed.

(** Registering a device succeeds exactly when the identifier is new, its
    profile is known and of its driver and domain, and the driver can be
    created; otherwise the manager is as before.  In particular the intervals
    are never what it fails for. *)
Theorem register_device_iff device m w :
  manager_run (m, w) →
  let '((m', w'), r) := register_device device (m, w) in
  (r = Ok () ↔ ∃ profile w1 s, bind_profile m device = Ok profile ∧
     df_create_driver (dm_drivers m) (dev_driver_id device) (dev_connection_config device) w = (w1, Ok s)) ∧
  (r ≠ Ok () → m' = m) ∧
  (∀ path, r ≠ Err (DeviceManagerError.InvalidReadItemInterval (dev_id device) path)).
Proof.
  intros Hm%manager_run_ok. cbn [fst] in Hm. unfold register_device.
  destruct (bind_profile m device) as [profile|e|] eqn:Eb.
  2:{ split_and!; [naive_solver|done|]. intros path [= ->]. unfold bind_profile in Eb.
      destruct (dm_devices m !! _); [done|]. destruct (dm_profiles m !! _); cbn in Eb; [|done].
      by repeat case_bool_decide. }
  2:{ split_and!; naive_solver. }
  destruct (df_create_driver _ _ _ w) as [w1 [session|e|]]; [|split_and!; naive_solver..].
  pose proof Eb as (_ & Hp & _)%bind_profile_Ok.
  destruct (group_read_items_Ok _ (registered_groups m profile _ Hm Hp)) as (groups & -> & _).
  split_and!; [|done|done]. split; [|done]. intros _. eauto.
Qed.
End runs.
