(* ===== verification/DevicePipelineLaws.v ===== *)
(** * From polled events to observations

    The observations the pump hands to the pipeline: what they say, their
    numbering, and that no two of a collector session share an identifier. *)

From S2P Require Import Prelude RustStd ObservationModel ProfileModel ProfileConvert ProfileRegistryLaws.
From S2P Require Import DomainModel ControlModel DriverAbi PollEngine DriverLoader DeviceManager.
From stdpp Require Import options.

#[local] Set Default Proof Using "Type".

Section map_all.
Context {A : Type} (f : Z → A → outcome DomainError.t (option Observation)).

(** Numbers do not wrap below [2^64]. *)
Lemma map_all_numbers (Q : Z → Observation → Prop) start l os :
  (∀ n a o, f n a = Ok (Some o) → Q n o) → (∀ n o, Q n o → obs_sequence o = n) →
  0 ≤ start → start + Z.of_nat (length l) ≤ 2 ^ 64 → map_all f start l = Ok os →
  StronglySorted (λ o o', obs_sequence o < obs_sequence o') os ∧
  Forall (λ o, start ≤ obs_sequence o < start + Z.of_nat (length l) ∧ Q (obs_sequence o) o) os.
Proof.
  intros HQ Hn. revert start os. induction l as [|a l IH]; intros start os Hs Hl; cbn [map_all length] in *.
  { intros [= <-]. by repeat constructor. }
  intros (o & Ho & (rest & Hr & [= <-])%outcome_bind_Ok_inv)%outcome_bind_Ok_inv.
  destruct (IH (start + 1) rest) as [Hsort Hall]; [lia|lia|done|].
  rewrite wrap_small in Ho by (unfold in_u; lia).
  assert (Forall (λ o, start ≤ obs_sequence o < start + Z.of_nat (S (length l)) ∧ Q (obs_sequence o) o) rest) as Hrest.
  { eapply Forall_impl; [exact Hall|]. cbn. intros x [? ?]. split; [lia|done]. }
  destruct o as [o|]; [|done]. apply HQ in Ho as HQo. apply Hn in HQo as Heq. split.
  - constructor; [done|]. eapply Forall_impl; [exact Hall|]. cbn. intros x [? _]. lia.
  - constructor; [|done]. rewrite Heq. split; [lia|done].
Qed.

(** Where every call succeeds, the observations are those of the items that
    have one, in order. *)
Lemma map_all_total (g : Z → A → option Observation) start l :
  (∀ n a, f n a = Ok (g n a)) → 0 ≤ start → start + Z.of_nat (length l) ≤ 2 ^ 64 →
  map_all f start l = Ok (omap id (imap (λ k a, g (start + Z.of_nat k) a) l)).
Proof.
  intros Hf. revert start. induction l as [|a l IH]; intros start Hs Hl; cbn [map_all length imap] in *; [done|].
  rewrite Hf. cbn [outcome_bind]. rewrite IH by lia. cbn [outcome_bind].
  rewrite wrap_small by (unfold in_u; lia). cbn [imap]. rewrite Z.add_0_r. f_equal.
  assert (imap (λ k a, g (start + 1 + Z.of_nat k) a) l = imap ((λ k a, g (start + Z.of_nat k) a) ∘ S) l) as ->.
  { apply imap_ext. intros k x _. cbn. f_equal. lia. }
  change (omap id (?x :: ?y)) with (match x with Some y' => y' :: omap id y | None => omap id y end).
  by destruct (g start a).
Qed.
End map_all.

Section pump.
Context {S W Json F : Type} `{!DriverSession S W Json} `{!DriverFactory F S W Json}.
Abbreviation Manager := (DeviceManager S Json F).

(** ** What an observation of a known item is *)
Definition observation_of (i : DeviceInstance S Json) (session : str) (now : Z) (n : Z) (it : ReadItem)
    (decoded : DecodedRead) (source : option Z) : Observation :=
  {| obs_observation_id := observation_id (dev_id (di_device i)) (it_path it) n session;
     obs_device_id := dev_id (di_device i); obs_path := it_path it;
     obs_value := dr_value decoded; obs_quality := dr_quality decoded;
     obs_source_timestamp_ns := source; obs_ingest_timestamp_ns := now; obs_sequence := n;
     obs_metadata := ∅ |}.

Lemma build_observation_Ok device domain path decoded source now n session o :
  build_observation device domain path decoded source now n session = Ok o →
  o = {| obs_observation_id := observation_id device path n session; obs_device_id := device; obs_path := path;
         obs_value := dr_value decoded; obs_quality := dr_quality decoded; obs_source_timestamp_ns := source;
         obs_ingest_timestamp_ns := now; obs_sequence := n; obs_metadata := ∅ |}.
Proof.
  unfold build_observation. destruct session; [done|].
  intros ([] & _ & [= <-])%outcome_bind_Ok_inv. done.
Qed.

(** The paths of a device lie in its domain. *)
Definition in_domain (i : DeviceInstance S Json) : Prop :=
  Forall (λ it, first_segment (it_path it) = standard_prefix (dp_domain (di_profile i))) (di_read_items i).

Lemma build_in_domain (i : DeviceInstance S Json) it id decoded source now n session :
  in_domain i → item i id = Some it → session ≠ [] →
  build_observation (dev_id (di_device i)) (dp_domain (di_profile i)) (it_path it) decoded source now n session =
    Ok (observation_of i session now n it decoded source).
Proof.
  intros Hd Hi Hs. unfold build_observation, validate_domain_path. destruct session; [done|].
  rewrite bool_decide_eq_true_2; [done|]. unfold item in Hi. by apply (Forall_lookup_1 _ _ _ _ Hd) in Hi.
Qed.

(** ** The pump over a sequence of events *)
Definition event_size (e : PollEvent.t) : nat :=
  match e with PollEvent.Batch b => length (pb_results b) | PollEvent.Failed _ _ items _ => length items end.

Fixpoint pump_all (m : Manager) (session : str) (events : list (Z * PollEvent.t)) (seqs : SequenceAllocator) :
    SequenceAllocator * list Observation :=
  match events with
  | [] => (seqs, [])
  | (now, e) :: events' =>
      let '(seqs1, os) := pump_event m session now e seqs in
      let '(seqs2, os') := pump_all m session events' seqs1 in
      (seqs2, os ++ os')
  end.

Definition total_size (events : list (Z * PollEvent.t)) : Z :=
  foldr (λ e n, Z.of_nat (event_size e.2) + n) 0 events.

(** The texts of the program are shorter than [2^64] bytes. *)
Definition texts_ok (m : Manager) : Prop :=
  map_Forall (λ id i, in_u 64 (byte_len id) ∧ Forall (λ it, in_u 64 (byte_len (it_path it))) (di_read_items i)) (dm_devices m).

(** An observation named after its device, path, number and session. *)
Definition named (session : str) (n : Z) (o : Observation) : Prop :=
  obs_observation_id o = observation_id (obs_device_id o) (obs_path o) n session ∧ obs_sequence o = n ∧
  in_u 64 (byte_len (obs_device_id o)) ∧ in_u 64 (byte_len (obs_path o)).

Lemma map_result_named (m : Manager) id i ctx n r o :
  texts_ok m → manager_ok m → get m id = Some i → map_result i ctx n r = Ok (Some o) →
  named (mc_collector_session_id ctx) n o ∧ obs_device_id o = id.
Proof.
  intros Ht Hm Hi. pose proof (Ht id i Hi) as [Hid Hp]. pose proof (io_id _ _ _ (mo_devices _ Hm id i Hi)) as Hdev.
  unfold map_result. destruct (item i _) as [it|] eqn:Eit; [|done].
  intros (o' & ->%build_observation_Ok & [= <-])%outcome_bind_Ok_inv. unfold named. cbn. rewrite Hdev. split_and!; try done.
  unfold item in Eit. by apply (Forall_lookup_1 _ _ _ _ Hp) in Eit.
Qed.

Lemma map_failed_named (m : Manager) id i error ctx n r o :
  texts_ok m → manager_ok m → get m id = Some i → map_failed_item i error ctx n r = Ok (Some o) →
  named (mc_collector_session_id ctx) n o ∧ obs_device_id o = id.
Proof.
  intros Ht Hm Hi. pose proof (Ht id i Hi) as [Hid Hp]. pose proof (io_id _ _ _ (mo_devices _ Hm id i Hi)) as Hdev.
  unfold map_failed_item. destruct (item i _) as [it|] eqn:Eit; [|done].
  intros (o' & ->%build_observation_Ok & [= <-])%outcome_bind_Ok_inv. unfold named. cbn. rewrite Hdev. split_and!; try done.
  unfold item in Eit. by apply (Forall_lookup_1 _ _ _ _ Hp) in Eit.
Qed.

Lemma current_allocate d d' n s :
  current d' (allocate d n s).1 = if decide (d = d') then wrap64 (current d s + Z.of_nat n) else current d' s.
Proof.
  unfold allocate, current. cbn. case_decide as Hd; [subst; by rewrite lookup_insert_eq|by rewrite lookup_insert_ne].
Qed.

(** The numbers of one event: fresh, consecutive in order, and all of one
    device. *)
Definition produced (seqs seqs' : SequenceAllocator) (session : str) (size : nat) (os : list Observation) : Prop :=
  (∀ d, current d seqs ≤ current d seqs' ≤ current d seqs + Z.of_nat size) ∧
  StronglySorted (λ o o', obs_sequence o < obs_sequence o') os ∧
  Forall (λ o, named session (obs_sequence o) o ∧
    current (obs_device_id o) seqs ≤ obs_sequence o < current (obs_device_id o) seqs') os.

Lemma produced_none seqs seqs' session size :
  (∀ d, current d seqs ≤ current d seqs' ≤ current d seqs + Z.of_nat size) → produced seqs seqs' session size [].
Proof. intros H. split; [done|]. by repeat constructor. Qed.

Lemma allocate_range d n s d' :
  0 ≤ current d' s → 0 ≤ current d s → current d s + Z.of_nat n < 2 ^ 64 →
  current d' s ≤ current d' (allocate d n s).1 ≤ current d' s + Z.of_nat n.
Proof.
  intros H0 H1 H2. rewrite current_allocate. case_decide; [|lia]. subst. rewrite wrap_small; unfold in_u; lia.
Qed.

Lemma mapped_produced {A} (f : Z → A → outcome DomainError.t (option Observation)) (m : Manager) id session l seqs :
  (∀ n a o, f n a = Ok (Some o) → named session n o ∧ obs_device_id o = id) →
  (∀ d, 0 ≤ current d seqs) → current id seqs + Z.of_nat (length l) < 2 ^ 64 →
  produced seqs (allocate id (length l) seqs).1 session (length l)
    (match map_all f (allocate id (length l) seqs).2 l with Ok os => os | _ => [] end).
Proof.
  intros Hf H0 Hc. assert (∀ d, current d seqs ≤ current d (allocate id (length l) seqs).1 ≤ current d seqs + Z.of_nat (length l)) as Hr.
  { intros d. by apply allocate_range. }
  change (allocate id (length l) seqs).2 with (current id seqs).
  destruct (map_all f _ l) as [os|e|] eqn:Em; [|by apply produced_none..].
  destruct (map_all_numbers f (λ n o, named session n o ∧ obs_device_id o = id) (current id seqs) l os Hf ltac:(intros n o [(_ & ? & _) _]; done)
    (H0 id) ltac:(lia) Em) as [Hs Ha].
  split; [done|]. split; [done|]. eapply Forall_impl; [exact Ha|]. cbn beta. intros o [Ho [Hn Hd]]. split; [done|].
  rewrite Hd, current_allocate, decide_True by done. rewrite wrap_small; [done|]. unfold in_u. specialize (H0 id). lia.
Qed.

Lemma pump_event_produced (m : Manager) session now e seqs :
  texts_ok m → manager_ok m → (∀ d, 0 ≤ current d seqs ∧ current d seqs + Z.of_nat (event_size e) < 2 ^ 64) →
  produced seqs (pump_event m session now e seqs).1 session (event_size e) (pump_event m session now e seqs).2.
Proof.
  intros Ht Hm Hs. assert (∀ d, 0 ≤ current d seqs) as H0 by apply Hs.
  unfold pump_event. destruct e as [b|id iv items error]; cbn [event_size] in *.
  - destruct (get m (pb_device_id b)) as [i|] eqn:Ei; [|apply produced_none; intros d; specialize (Hs d); cbn [fst]; lia].
    unfold map_results. rewrite (io_id _ _ _ (mo_devices _ Hm _ i Ei)).
    set (ctx := {| mc_collector_session_id := session; mc_ingest_timestamp_ns := now |}).
    pose proof (mapped_produced (map_result i ctx) m (pb_device_id b) session (pb_results b) seqs
      (λ n r o, map_result_named m _ i ctx n r o Ht Hm Ei) H0 ltac:(apply Hs)) as Hp.
    destruct (allocate _ _ _) as [s' st]. cbn [fst snd] in *. by destruct (map_all _ _ _).
  - destruct (get m id) as [i|] eqn:Ei; [|apply produced_none; intros d; specialize (Hs d); cbn [fst]; lia].
    unfold map_failure. rewrite (io_id _ _ _ (mo_devices _ Hm _ i Ei)).
    set (ctx := {| mc_collector_session_id := session; mc_ingest_timestamp_ns := now |}).
    pose proof (mapped_produced (map_failed_item i error ctx) m id session items seqs
      (λ n r o, map_failed_named m _ i error ctx n r o Ht Hm Ei) H0 ltac:(apply Hs)) as Hp.
    destruct (allocate _ _ _) as [s' st]. cbn [fst snd] in *. by destruct (map_all _ _ _).
Qed.

(** Later observations of a device have larger numbers. *)
Definition ascending (o o' : Observation) : Prop :=
  obs_device_id o = obs_device_id o' → obs_sequence o < obs_sequence o'.

Lemma pump_all_ordered (m : Manager) session events seqs :
  texts_ok m → manager_ok m → (∀ d, 0 ≤ current d seqs ∧ current d seqs + total_size events < 2 ^ 64) →
  let os := (pump_all m session events seqs).2 in
  StronglySorted ascending os ∧
  Forall (λ o, named session (obs_sequence o) o ∧ current (obs_device_id o) seqs ≤ obs_sequence o < 2 ^ 64) os.
Proof.
  intros Ht Hm. revert seqs. induction events as [|[now e] events IH]; intros seqs Hs; cbn [pump_all].
  { by repeat constructor. }
  cbn [total_size foldr snd] in Hs. fold (total_size events) in Hs.
  assert (0 ≤ total_size events) as Hpos by (unfold total_size; clear; induction events; cbn; lia).
  pose proof (pump_event_produced m session now e seqs Ht Hm) as Hp.
  destruct (pump_event m session now e seqs) as [seqs1 os]. cbn [fst snd] in Hp.
  destruct Hp as (Hc & Hsort & Hall); [intros d; specialize (Hs d); lia|].
  specialize (IH seqs1 ltac:(intros d; specialize (Hs d); specialize (Hc d); lia)). cbn zeta in IH.
  destruct (pump_all m session events seqs1) as [seqs2 os']. cbn [snd] in *. destruct IH as [Hsort' Hall']. split.
  - apply StronglySorted_app. split_and!.
    + intros o o' Ho Ho' Hd. rewrite Forall_forall in Hall, Hall'. destruct (Hall o Ho) as [_ ?]. destruct (Hall' o' Ho') as [_ ?].
      rewrite Hd in *. lia.
    + clear -Hsort. induction Hsort as [|o l _ IH Ho]; constructor; [done|].
      eapply Forall_impl; [exact Ho|]. intros o' H _. exact H.
    + done.
  - apply Forall_app. split; (eapply Forall_impl; [eassumption|]); cbn; intros o [Hn Hb]; (split; [done|]);
      specialize (Hs (obs_device_id o)); specialize (Hc (obs_device_id o)); lia.
Qed.

(** C8: observations are numbered and named without repetition.  Whatever
    events the polling tasks of all devices deliver, in any order, successes and
    failures, the observations of one device have strictly ascending sequence
    numbers in the order in which they are handed on, across its groups and
    batches, and no two observations of the session have the same identifier
    (the key by which the platform removes duplicates). *)
Theorem observations_unique m w session events :
  manager_run (W := W) (m, w) → texts_ok m → total_size events < 2 ^ 64 →
  let os := (pump_all m session events ∅).2 in
  NoDup (obs_observation_id <$> os) ∧
  ∀ j k o o', os !! j = Some o → os !! k = Some o' → (j < k)%nat → obs_device_id o = obs_device_id o' →
    obs_sequence o < obs_sequence o'.
Proof.
  intros Hm%manager_run_ok Ht Hsize. cbn [fst] in Hm.
  destruct (pump_all_ordered m session events ∅ Ht Hm) as [Hsort Hall].
  { intros d. unfold current. rewrite lookup_empty. cbn. lia. }
  set (os := (pump_all m session events ∅).2) in *. cbn zeta.
  assert (∀ j k o o', os !! j = Some o → os !! k = Some o' → (j < k)%nat → ascending o o') as Hord.
  { intros j k o o' Hj Hk Hlt. clear -Hsort Hj Hk Hlt. revert j k Hj Hk Hlt.
    induction Hsort as [|x l _ IH Hx]; intros [|j] [|k] Hj Hk Hlt; try done; try lia; cbn in Hj, Hk.
    - injection Hj as <-. by apply (Forall_lookup_1 _ _ _ _ Hx) in Hk.
    - apply (IH j k); [done..|lia]. }
  split; [|done]. apply NoDup_alt. intros j k id Hj Hk.
  apply list_lookup_fmap_Some in Hj as (o & Hid & Ho). apply list_lookup_fmap_Some in Hk as (o' & Hid' & Ho').
  pose proof (Forall_lookup_1 _ _ _ _ Hall Ho) as [(Hn & _ & Hd & Hp) Hb].
  pose proof (Forall_lookup_1 _ _ _ _ Hall Ho') as [(Hn' & _ & Hd' & Hp') Hb'].
  assert (∀ d, 0 ≤ current d (∅ : SequenceAllocator)) as H0 by (intros d; unfold current; by rewrite lookup_empty).
  assert (obs_device_id o = obs_device_id o' ∧ obs_path o = obs_path o' ∧ obs_sequence o = obs_sequence o' ∧ session = session)
    as (Hdev & _ & Hseq & _).
  { apply observation_id_inj; [by rewrite !Forall_cons, Forall_nil|specialize (H0 (obs_device_id o)); unfold in_u; lia
      |specialize (H0 (obs_device_id o')); unfold in_u; lia|congruence]. }
  destruct (Nat.lt_trichotomy j k) as [Hlt|[->|Hlt]]; [|done|].
  - pose proof (Hord j k o o' Ho Ho' Hlt Hdev). lia.
  - pose proof (Hord k j o' o Ho' Ho Hlt (eq_sym Hdev)). lia.
Qed.

(** ** What is reported *)
Definition known_results (i : DeviceInstance S Json) (results : list RawReadResult) : list (nat * RawReadResult) :=
  filter (λ kr, is_Some (item i (rr_item_id kr.2))) (imap pair results).

Definition known_items (i : DeviceInstance S Json) (items : list DriverReadItem) : list (nat * DriverReadItem) :=
  filter (λ kr, is_Some (item i (ri_id kr.2))) (imap pair items).

(** [omap id] of an indexed map keeps what the filter keeps. *)
Lemma omap_imap_filter {A} (P : A → Prop) `{!∀ a, Decision (P a)} (g : nat → A → option Observation) (l : list A) :
  (∀ k a, is_Some (g k a) ↔ P a) →
  Forall2 (λ ka o, g ka.1 ka.2 = Some o) (filter (λ ka, P ka.2) (imap pair l)) (omap id (imap g l)).
Proof.
  revert g. assert (∀ (h : nat → nat) (g : nat → A → option Observation), (∀ k a, is_Some (g k a) ↔ P a) →
    Forall2 (λ ka o, g ka.1 ka.2 = Some o) (filter (λ ka, P ka.2) (imap (λ k a, (h k, a)) l))
      (omap id (imap (λ k a, g (h k) a) l))) as Hgen.
  { induction l as [|a l IH]; intros h g Hg; cbn [imap]; [constructor|].
    specialize (IH (h ∘ Datatypes.S) g Hg). rewrite filter_cons. cbn [snd].
    change (omap id (?x :: ?y)) with (match x with Some y' => y' :: omap id y | None => omap id y end).
    destruct (g (h 0%nat) a) as [o|] eqn:Eg.
    - rewrite decide_True by (apply (Hg (h 0%nat)); by rewrite Eg). constructor; [done|exact IH].
    - rewrite decide_False; [exact IH|]. intros [o Ho]%(Hg (h 0%nat)). congruence. }
  intros g Hg. by apply (Hgen (λ k, k) g Hg).
Qed.

(** C9: polled results become observations without loss.  When the paths of a
    device's profile lie in its domain and the session has a name, a delivered
    batch yields one observation for every result of a known item, in order,
    with the item's path, the profile's decoding of the value and the number at
    which the device's counter stood plus the position of the result in the
    batch (the numbers of unknown items are skipped); a failed poll yields one
    for every item that was asked for, numbered likewise, without a value, of
    bad quality, with the reason of the driver's error and its device code. *)
Theorem pump_reports m w session now i id seqs b items error interval :
  manager_run (W := W) (m, w) → get m id = Some i → in_domain i → session ≠ [] →
  pb_device_id b = id → 0 ≤ current id seqs →
  current id seqs + Z.of_nat (length (pb_results b)) < 2 ^ 64 →
  current id seqs + Z.of_nat (length items) < 2 ^ 64 →
  Forall2 (λ kr o, ∃ it, item i (rr_item_id kr.2) = Some it ∧
      o = observation_of i session now (current id seqs + Z.of_nat kr.1) it
            (decode_read (it_property it) kr.2) (rr_source_timestamp_ns kr.2))
    (known_results i (pb_results b)) (pump_event m session now (PollEvent.Batch b) seqs).2 ∧
  Forall2 (λ kr o, ∃ it, item i (ri_id kr.2) = Some it ∧ obs_path o = it_path it ∧ obs_device_id o = id ∧
      obs_value o = None ∧ obs_sequence o = current id seqs + Z.of_nat kr.1 ∧
      obs_quality o = {| q_level := QualityLevel.Bad; q_reason := reason_for_driver_error error;
                         q_protocol_code := dei_protocol_code error |})
    (known_items i items) (pump_event m session now (PollEvent.Failed id interval items error) seqs).2.
Proof.
  intros Hm%manager_run_ok Hi Hd Hs Hb Hseq Hr Hit. cbn [fst] in Hm.
  pose proof (io_id _ _ _ (mo_devices _ Hm id i Hi)) as Hid.
  set (ctx := {| mc_collector_session_id := session; mc_ingest_timestamp_ns := now |}). split.
  - unfold pump_event. rewrite Hb, Hi. unfold map_results. rewrite Hid. cbn [allocate].
    rewrite (map_all_total (map_result i ctx) (λ n r, (λ it, observation_of i session now n it
      (decode_read (it_property it) r) (rr_source_timestamp_ns r)) <$> item i (rr_item_id r))); [|..|done|lia].
    2:{ intros n r. unfold map_result. destruct (item i _) as [it|] eqn:Eit; [|done].
        by erewrite (build_in_domain i it); [|done..]. }
    cbn [snd]. match goal with |- Forall2 _ _ (omap _ (imap ?g ?l)) =>
      pose proof (omap_imap_filter (λ r, is_Some (item i (rr_item_id r))) g l) as Ho end.
    eapply Forall2_impl; [apply Ho|].
    + intros k r. by rewrite fmap_is_Some.
    + cbn beta. intros [k r] o (it & Hit' & ->)%fmap_Some. by exists it.
  - unfold pump_event. rewrite Hi. unfold map_failure. rewrite Hid. cbn [allocate].
    set (q := {| q_level := QualityLevel.Bad; q_reason := reason_for_driver_error error; q_protocol_code := dei_protocol_code error |}).
    rewrite (map_all_total (map_failed_item i error ctx) (λ n r, (λ it, observation_of i session now n it
      {| dr_value := None; dr_quality := q |} None) <$> item i (ri_id r))); [|..|done|lia].
    2:{ intros n r. unfold map_failed_item. destruct (item i _) as [it|] eqn:Eit; [|done].
        by erewrite (build_in_domain i it); [|done..]. }
    cbn [snd]. match goal with |- Forall2 _ _ (omap _ (imap ?g ?l)) =>
      pose proof (omap_imap_filter (λ r, is_Some (item i (ri_id r))) g l) as Ho end.
    eapply Forall2_impl; [apply Ho|].
    + intros k r. by rewrite fmap_is_Some.
    + cbn beta. intros [k r] o (it & Hit' & ->)%fmap_Some. by exists it.
Qed.
End pump.
