(* ===== verification/DeviceControlLaws.v ===== *)
(** * Control requests on devices

    The executor's promise to the control engine: a write that is reported as
    failed has not reached the device.  It is proved against the interface
    [UnsentDriver]; the Modbus and the S7comm driver discharge it. *)

From S2P Require Import Prelude RustStd ObservationModel ControlModel ControlQueue DriverAbi AbiTag.
From S2P Require Import S7Codec S7Driver S7Batch.
From S2P Require Import ModbusCodec ModbusFrame ModbusSession ModbusSessionLaws ModbusBatch ModbusDriver.
From S2P Require Import PollEngine DriverLoader DriverPlugins DeviceManager.
From stdpp Require Import options.

#[local] Set Default Proof Using "Type".

(** [ad_connecting s s']: between the states nothing but attempts to connect
    happened. *)
Class UnsentDriver (D W E : Type) {api : DriverApiV1 D W} `{!Envelopes} `{!AbiDriver D W E} : Type := {
  ad_connecting : D * W → D * W → Prop;
  ad_write_unsent items s s' e :
    ad_write items s = (s', Err e) → dei_code (ad_info e) ∈ NOT_SENT_CODES → ad_connecting s s';
  ad_panicked_sent : dei_code (ad_info ad_panicked) ∉ NOT_SENT_CODES;
}.

(** ** The executor *)
Section executor.
Context {D W E Json Node HistoryRequest HistoryPage F : Type}.
Context {api : DriverApiV1 D W} `{!Envelopes} `{!Decoders Json Node HistoryRequest HistoryPage}.
Context `{!AbiDriver D W E} {json_laws : EnvelopeLaws} {unsent : UnsentDriver D W E}.
Abbreviation Manager := (DeviceManager (NativeDriver D) Json F).

(** The state of a device after a write that was not sent: the error may be
    recorded in the handle. *)
Definition not_sent (i : DeviceInstance (NativeDriver D) Json) (w : W) (id : str) (m m' : Manager) (w' : W) : Prop :=
  ∃ d', ad_connecting (nd_handle (di_session i), w) (d', w') ∧
    (m' = set_session id i (set_handle d' (di_session i)) m ∨
     ∃ e, m' = set_session id i (set_handle (ad_fail e d') (di_session i)) m).

(** C6: a control request that is reported as failed is safe to repeat, and one
    that may have had an effect is not reported so.  A write of well-formed
    values through the executor, the loader, the C ABI and JSON is reported as
    succeeded exactly with the item results the driver's batch write returned;
    when it is reported as failed, the device is unknown, or the call was never
    started, or a value could not be encoded, all without touching the driver,
    or the driver did nothing but try to connect; a panic, an error outside the
    list of codes and an answer that cannot be read are reported as
    indeterminate. *)
Theorem write_outcome_sound runs id items (m : Manager) w m' w' o :
  Forall (λ i, Forall char_ok (dw_address i) ∧ RawValue.wf (dw_value i)) items →
  executor_write (DriverSession0 := native_session) runs id items (m, w) = ((m', w'), o) →
  match o with
  | WriteOutcome.Succeeded rs =>
      ∃ i d', get m id = Some i ∧ ad_write items (nd_handle (di_session i), w) = ((d', w'), Ok rs) ∧
        m' = set_session id i (set_handle d' (di_session i)) m
  | WriteOutcome.Failed info =>
      (m', w') = (m, w) ∧ (get m id = None ∨ runs w = false) ∨
      ∃ i, get m id = Some i ∧
        ((ffi_write_items items = Err LoaderError.Encoding ∧ w' = w ∧ m' = set_session id i (di_session i) m) ∨
         not_sent i w id m m' w')
  | WriteOutcome.Indeterminate info =>
      ∃ i s r, get m id = Some i ∧ ad_write items (nd_handle (di_session i), w) = (s, r) ∧ s.2 = w' ∧
        (∀ rs, r ≠ Ok rs)
  end.
Proof using json_laws unsent.
  intros Hitems. unfold executor_write, on_session. cbn [fst snd].
  destruct (get m id) as [i|] eqn:Ei; [|intros [= <- <- <-]; left; auto].
  destruct (runs w) eqn:Er; [|intros [= <- <- <-]; left; auto].
  pose proof (native_driver_transparent (di_session i) w [] items ltac:(constructor) Hitems) as [_ Ht].
  unfold ds_write_batch, native_session, smap_err.
  destruct (ffi_write_items items) as [ffi|e|] eqn:Ef; [| |done].
  2:{ destruct Ht as [-> ->]. intros [= <- <- <-]. right. exists i. split; [done|]. left. done. }
  destruct (ad_write items (nd_handle (di_session i), w)) as [[d w1] [rs|e|]] eqn:Ew.
  - rewrite Ht. intros [= <- <- <-]. exists i, d. done.
  - rewrite Ht. unfold call_failed. cbn [map_err map_loader_error write_outcome snd fst]. unfold classify_failure.
    case_bool_decide as Hc; intros [= <- <- <-].
    + right. exists i. split; [done|]. right. exists d. split; [by eapply ad_write_unsent|]. right. by exists e.
    + exists i, (d, w1), (Err e). done.
  - rewrite Ht. unfold call_failed. cbn [map_err map_loader_error write_outcome snd fst]. unfold classify_failure.
    rewrite bool_decide_eq_false_2 by apply ad_panicked_sent. intros [= <- <- <-]. exists i, (d, w1), Panic. done.
Qed.
End executor.

(** ** Modbus *)

(** A transaction, once begun, does not report that connecting failed. *)
Class BegunTransactions (W T : Type) `{!Transport W T} : Prop := {
  write_begun unit fc off p s s' e :
    tr_write_transaction unit fc off p s = (s', Err e) → ModbusError.code e ≠ "connection_failed"%string;
}.

Lemma transport_code_sent e :
  ModbusError.is_transport_level e = true → ModbusError.code e ≠ "connection_failed"%string →
  ModbusError.code e ∉ NOT_SENT_CODES.
Proof.
  unfold ModbusError.is_transport_level. intros H%bool_decide_eq_true Hne.
  destruct H as [H|[H|[H|H]]]; [|done|..]; rewrite H; unfold NOT_SENT_CODES; set_solver.
Qed.

Section modbus.
Context {W T : Type} `{!Os W} `{!Transport W T} `{!TransportLaws W T} `{!BegunTransactions W T}.

Definition linked (s : ModbusDriver T * W) : Prop :=
  ∃ t, md_transport s.1 = Some t ∧ tr_is_connected t = true.

Lemma linked_ensure s : linked s → ensure_connected_before_plan s = (s, Ok ()).
Proof.
  destruct s as [[c t l] w]. intros (t' & Ht & Hc). cbn in Ht. subst t.
  unfold ensure_connected_before_plan, sbind, with_transport. cbn. by rewrite Hc.
Qed.

Lemma ensure_linked s s' x : ensure_connected_before_plan s = (s', Ok x) → linked s'.
Proof using TransportLaws0.
  destruct s as [[c [t|] l] w]; unfold ensure_connected_before_plan, sbind, with_transport; cbn; [|done].
  destruct (tr_is_connected t) eqn:Hc; [intros [= <- _]; by exists t|].
  unfold connect, sbind, sget, with_transport. cbn. rewrite Hc.
  destruct (connect_attempts _ _ None (t, w)) as [[t' w'] [[]|e|]] eqn:Ea; try done.
  intros [= <- _]. exists t'. split; [done|]. cbn [md_config] in Ea. clear Hc. revert Ea.
  generalize (@None ModbusError.t). generalize (attempts_of c). intros n. revert t w.
  induction n as [|n IH]; intros t w last; cbn; [by destruct last|].
  destruct (tr_connect (t, w)) as [[t1 w1] [[]|e|]] eqn:Ec; [|apply IH|done].
  intros [= <- <-]. by apply connect_connected in Ec.
Qed.

Lemma request_write_linked plan s s' r :
  linked s → request_write_plan plan s = (s', r) →
  match r with
  | Err e => if ModbusError.is_transport_level e then ModbusError.code e ∉ NOT_SENT_CODES else linked s'
  | _ => linked s'
  end.
Proof using TransportLaws0 BegunTransactions0.
  destruct s as [[c t0 l] w]. intros (t & Ht & Hc). cbn in Ht. subst t0.
  unfold request_write_plan, with_transport, drop_on_transport_error. cbn [md_transport].
  pose proof (write_keeps_connection (wp_unit_id plan) (wp_function plan) (wp_start_offset plan) (wp_payload plan) (t, w)) as Hk.
  destruct (tr_write_transaction _ _ _ _ (t, w)) as [[t1 w1] [[]|e|]] eqn:Et; cbn [fst] in Hk.
  - intros [= <- <-]. exists t1. split; [done|congruence].
  - destruct (ModbusError.is_transport_level e) eqn:Ee.
    + destruct (tr_disconnect (t1, w1)). intros [= <- <-]. rewrite Ee. apply transport_code_sent; [done|]. by eapply write_begun.
    + intros [= <- <-]. rewrite Ee. exists t1. split; [done|congruence].
  - intros [= <- <-]. exists t1. split; [done|congruence].
Qed.

Lemma write_plans_linked plans rs s s' e :
  linked s → write_plans plans rs s = (s', Err e) → ModbusError.code e ∉ NOT_SENT_CODES.
Proof using TransportLaws0 BegunTransactions0.
  revert rs s. induction plans as [|plan plans IH]; intros rs s Hs; cbn [write_plans]; [done|].
  unfold sbind at 1. rewrite linked_ensure by done. unfold sbind, on_protocol_error.
  destruct (request_write_plan plan s) as [s1 [[]|e1|]] eqn:Er; apply (request_write_linked _ _ _ _ Hs) in Er; [|..|done].
  - by apply IH.
  - cbv beta iota in Er. destruct (ModbusError.is_transport_level e1); [by intros [= _ <-]|by apply IH].
Qed.

(** A batch write that fails with one of the codes did not begin. *)
Lemma modbus_write_unsent items s s' e :
  write_batch items s = (s', Err e) → ModbusError.code e ∈ NOT_SENT_CODES →
  s' = s ∨ ensure_connected_before_plan s = (s', Err e).
Proof using TransportLaws0 BegunTransactions0.
  destruct s as [d w]. unfold write_batch, sbind, sget, slift. cbn [fst].
  destruct (plan_write_batch _ _ _) as [[plans rs]|e1|]; [|intros [= <- _]; by left|done].
  destruct (write_plans plans rs (d, w)) as [s1 [a|e1|]] eqn:Ew; [done| |done]. intros [= <- ->] Hc. right.
  destruct plans as [|plan plans]; [done|]. cbn [write_plans] in Ew. unfold sbind at 1 in Ew.
  destruct (ensure_connected_before_plan (d, w)) as [s2 [[]|e2|]] eqn:Ee; [|by injection Ew as <- <-|done].
  exfalso. apply ensure_linked in Ee. revert Hc. apply (write_plans_linked (plan :: plans) rs s2 s1 e Ee).
  cbn [write_plans]. unfold sbind at 1. by rewrite linked_ensure.
Qed.

Context `{!Envelopes} (from_str : str → option ModbusConfig).
Context (create_transport : ModbusConfig → outcome ModbusError.t T).

Definition modbus_unsent : UnsentDriver (api := modbus_api from_str create_transport)
    (AbiDriver0 := modbus_driver from_str create_transport) (ModbusDriver T) W ModbusError.t.
Proof using TransportLaws0 BegunTransactions0.
  refine {| ad_connecting s s' := s' = s ∨ ∃ e, ensure_connected_before_plan s = (s', Err e) |}.
  - intros items s s' e Hw Hc. destruct (modbus_write_unsent _ _ _ _ Hw Hc) as [->|He]; [by left|right; by exists e].
  - unfold NOT_SENT_CODES. cbn. set_solver.
Defined.
End modbus.

(** ** Which errors a computation can end with *)
Definition errs {S E A} (G : E → Prop) (m : stm S E A) : Prop := ∀ s s' e, m s = (s', Err e) → G e.

Section errs.
Context {S E : Type} (G : E → Prop).

Lemma errs_bind {A B} (m : stm S E A) (k : A → stm S E B) :
  errs G m → (∀ a, errs G (k a)) → errs G (sbind m k).
Proof.
  intros Hm Hk s s' e. unfold sbind. destruct (m s) as [s1 [a|e1|]] eqn:Em; [apply Hk| |done].
  intros [= _ <-]. by eapply Hm.
Qed.

Lemma errs_ret {A} (a : A) : errs G (sret a : stm S E A).
Proof. done. Qed.

Lemma errs_get : errs G (sget : stm S E S).
Proof. done. Qed.

Lemma errs_modify (f : S → S) : errs G (smodify f : stm S E ()).
Proof. done. Qed.

Lemma errs_fail {A} e : G e → errs G (sfail e : stm S E A).
Proof. intros He s s' e' [= _ <-]. done. Qed.

Lemma errs_lift {A} (o : outcome E A) : (∀ e, o = Err e → G e) → errs G (slift o : stm S E A).
Proof. intros Ho s s' e [= _ ->]. auto. Qed.
End errs.

Ltac errs_walk :=
  repeat match goal with
  | |- errs _ (sbind _ _) => apply errs_bind; [|intros ?]
  | |- errs _ (if ?b then _ else _) => destruct b
  | |- errs _ (let '(_, _) := ?o in _) => destruct o
  | |- errs _ (match ?o with _ => _ end) => destruct o eqn:?
  | |- errs _ sget => apply errs_get
  | |- errs _ (sret _) => apply errs_ret
  | |- errs _ (smodify _) => apply errs_modify
  | |- errs _ (sfail _) => apply errs_fail; try done
  | |- errs _ (slift _) => apply errs_lift
  end.

Section transports.
Abbreviation begun := (λ e, ModbusError.code e ≠ "connection_failed"%string).

Lemma errs_io {W T A} err (op : W → W * io_result A) :
  (∀ k, begun (err k)) → errs begun (io (T := T) err op).
Proof.
  intros Hk [t w] s' e. unfold io. destruct (op w) as [w1 [k|a]]; [intros [= _ <-]; apply Hk|done].
Qed.

Lemma errs_map_io k : begun (map_io_error k).
Proof. by destruct k. Qed.

Lemma invalid_frame_begun {A} (o : outcome FrameError.t A) e : invalid_frame o = Err e → begun e.
Proof. destruct o; cbn; [done| |done]. by intros [= <-]. Qed.

Lemma write_body_begun fc off payload body e : validate_write_body fc off payload body = Err e → begun e.
Proof.
  unfold validate_write_body. destruct body as [|f data]; [by intros [= <-]|].
  repeat case_match; try (by intros [= <-]). apply invalid_frame_begun.
Qed.

#[export] Instance tcp_begun {W H Addr} `{!ByteStream W H} `{!TcpNet W H Addr} : BegunTransactions W (TcpTransport H).
Proof.
  assert (errs begun (tcp_stream (W := W) (H := H))) as Hst.
  { intros [t w] s' e. unfold tcp_stream. cbn. destruct (tt_stream t); [done|by intros [= _ <-]]. }
  assert (∀ n, errs begun (tcp_read_exact (W := W) (H := H) n)) as Hre.
  { intros n. apply errs_bind; [done|]. intros h. apply errs_io, errs_map_io. }
  split. intros unit fc off p. unfold tr_write_transaction. cbn.
  change (errs begun (tcp_write_transaction (W := W) (H := H) unit fc off p)).
  unfold tcp_write_transaction, tcp_exchange. errs_walk; try done; try (intros e; apply invalid_frame_begun);
    try (intros e; apply write_body_begun); by try apply errs_io.
Qed.

#[export] Instance rtu_begun {W H} `{!ByteStream W H} `{!SerialNet W H} : BegunTransactions W (RtuTransport H).
Proof.
  assert (errs begun (rtu_port (W := W) (H := H))) as Hst.
  { intros [t w] s' e. unfold rtu_port. cbn. destruct (rt_port t); [done|by intros [= _ <-]]. }
  assert (∀ n, errs begun (rtu_read_exact (W := W) (H := H) n)) as Hre.
  { intros n. apply errs_bind; [done|]. intros h. apply errs_io, errs_map_io. }
  split. intros unit fc off p. unfold tr_write_transaction. cbn.
  change (errs begun (rtu_write_transaction (W := W) (H := H) unit fc off p)).
  unfold rtu_write_transaction, rtu_exchange. errs_walk; try done; try (intros e; apply invalid_frame_begun);
    try (intros e; apply write_body_begun); by try apply errs_io.
Qed.
End transports.

(** ** S7comm *)
Section s7.
Context {W H Addr : Type} `{!Os W} `{!ByteStream W H} `{!TcpNet W H Addr}.
Abbreviation sent := (λ e, S7Error.code e ∉ NOT_SENT_CODES).

Lemma s7_sent (e : S7Error.t) :
  S7Error.code e ∈ ["connection_lost"; "timeout"; "invalid_response"; "unexpected_function_code"; "s7_error_response"]%string →
  sent e.
Proof using.
  clear. unfold NOT_SENT_CODES. intros H0 H1.
  repeat (apply elem_of_cons in H0 as [H0|H0]; [rewrite H0 in H1; by repeat (apply elem_of_cons in H1 as [H1|H1]; [done|]); apply elem_of_nil in H1|]).
  by apply elem_of_nil in H0.
Qed.

Lemma errs_on_stream {A} (op : H → W → W * io_result A) : errs sent (on_stream op).
Proof using.
  intros s s' e. unfold on_stream. destruct (ts_stream s.1) as [h|].
  - destruct (op h s.2) as [w [k|a]]; [|done]. intros [= _ <-]. apply s7_sent. destruct k; cbn; set_solver.
  - intros [= _ <-]. apply s7_sent. cbn. set_solver.
Qed.

Lemma errs_fail_disconnect {A} e : sent e → errs sent (fail_disconnect (W := W) (H := H) (A := A) e).
Proof using. intros He s s' e' [= _ <-]. done. Qed.

Lemma match_ack_sent r s7 e : match_ack r s7 = Err e → sent e.
Proof using.
  unfold match_ack, parse_ack. repeat case_match; cbn [outcome_bind]; repeat case_match; intros [= <-]; apply s7_sent; cbn; set_solver.
Qed.

Lemma errs_exchange r job : errs sent (exchange (W := W) (H := H) r job).
Proof using.
  assert (∀ e, S7Error.code e = "invalid_response"%string → sent e) as Hi by (intros e He; apply s7_sent; rewrite He; set_solver).
  unfold exchange. errs_walk.
  - intros s s' e. unfold send_frame. destruct (ts_stream s.1) as [h|]; [|intros [= _ <-]; apply s7_sent; cbn; set_solver].
    destruct (_ <? _); [intros [= _ <-]; by apply Hi|apply errs_on_stream].
  - unfold read_frame. errs_walk; try apply errs_on_stream. by apply errs_fail_disconnect, Hi.
  - intros e. unfold parse_frame. repeat case_match; intros [= <-]; by apply Hi.
  - by apply errs_fail_disconnect, Hi.
  - done.
  - apply errs_fail_disconnect. by eapply match_ack_sent.
  - by eapply match_ack_sent.
  - done.
Qed.

Lemma errs_with_session {A} G (m : stm (TcpSession H * W) S7Error.t A) : errs G m → errs G (with_session m).
Proof using.
  intros Hm [d w] s' e. unfold with_session. destruct (sd_session d) as [t|]; [|done].
  destruct (m (t, w)) as [[t' w'] r] eqn:Em. intros [= _ ->]. by eapply Hm.
Qed.

Lemma errs_write_plans plans rs : errs sent (S7Driver.write_plans (W := W) (H := H) plans rs).
Proof using.
  revert rs. induction plans as [|plan plans IH]; intros rs; cbn [S7Driver.write_plans]; [done|].
  apply errs_bind; [|intros code; apply IH]. apply errs_with_session. errs_walk.
  - done.
  - apply errs_exchange.
  - intros e. unfold parse_write_response. repeat case_match; intros [= <-]; apply s7_sent; cbn; set_solver.
  - intros e. by destruct a1.
Qed.

(** Only connecting and planning can fail with one of the codes. *)
Lemma s7_write_unsent items s s' e :
  S7Driver.write_batch (W := W) (H := H) (Addr := Addr) items s = (s', Err e) → S7Error.code e ∈ NOT_SENT_CODES →
  ∃ r, S7Driver.ensure_connected s = (s', r).
Proof using.
  unfold S7Driver.write_batch. unfold sbind at 1.
  destruct (S7Driver.ensure_connected s) as [s1 [n|e1|]] eqn:Ec; [|intros [= <- _] _; by eexists|done].
  destruct s1 as [d w]. unfold sbind at 1, sget. unfold sbind at 1, slift.
  destruct (S7Batch.plan_write_batch _ _ _) as [[plans failed]|e1|]; [|intros [= <- _] _; by eexists|done].
  intros Hw Hc. exfalso. revert Hc.
  eapply (errs_bind sent _ _ (errs_write_plans plans _) (λ a, errs_ret sent _)). exact Hw.
Qed.

Context `{!Envelopes} (from_str : str → option S7Config).

Definition s7_unsent :
    UnsentDriver (api := plugin_api (Plugin0 := S7Driver.s7_plugin from_str))
      (AbiDriver0 := plugin_driver (Plugin0 := S7Driver.s7_plugin from_str) (PluginInfo0 := s7_info from_str))
      (S7commDriver H) W S7Error.t.
Proof using.
  refine {| ad_connecting s s' := ∃ r, S7Driver.ensure_connected s = (s', r) |}.
  - intros items s s' e Hw Hc. eapply s7_write_unsent; [exact Hw|exact Hc].
  - unfold NOT_SENT_CODES. cbn. set_solver.
Defined.
End s7.
