(* ===== verification/DriverDevices.v ===== *)
(** * The MC and EtherNet/IP drivers behind the loader and the executor

    Each driver provides what the loader asks of a plugin ([PluginInfo]) and
    what the control path asks of its errors ([UnsentDriver]). *)

From S2P Require Import Prelude RustStd ObservationModel DriverAbi AbiTag DriverLoader DriverPlugins DeviceManager DeviceControlLaws.
From S2P Require Import McCodec McBatch McDriver.
From stdpp Require Import options.

#[local] Set Default Proof Using "Type".

(** ** MC *)
Section mc.
Context {W H Addr : Type} `{!Os W} `{!ByteStream W H} `{!TcpNet W H Addr} `{!Envelopes}.
Context (from_str : str → option McConfig).

Definition mc_info : PluginInfo (Plugin0 := mc_plugin from_str) (MitsubishiMcDriver H) W McError.t WriteRequest.
Proof. refine {| pl_info := McError.into_info |}. done. Defined.

Abbreviation sent := (λ e, McError.code e ∉ NOT_SENT_CODES).

Lemma mc_sent (e : McError.t) :
  McError.code e ∈ ["connection_lost"; "timeout"; "invalid_response"; "unexpected_subheader"]%string → sent e.
Proof using.
  clear. unfold NOT_SENT_CODES. intros H0 H1.
  repeat (apply elem_of_cons in H0 as [H0|H0]; [rewrite H0 in H1; by repeat (apply elem_of_cons in H1 as [H1|H1]; [done|]); apply elem_of_nil in H1|]).
  by apply elem_of_nil in H0.
Qed.

(** A computation on a connected session: it stays connected unless it fails,
    and then not with an error that stands for a request that was not sent. *)
Definition begun {A} (m : stm (TcpSession H * W) McError.t A) : Prop :=
  ∀ s s' r, is_connected s.1 = true → m s = (s', r) →
    match r with Ok _ => is_connected s'.1 = true | Err e => sent e | Panic => True end.

Lemma begun_bind {A B} (m : stm (TcpSession H * W) McError.t A) (k : A → stm (TcpSession H * W) McError.t B) :
  begun m → (∀ a, begun (k a)) → begun (sbind m k).
Proof using.
  intros Hm Hk s s' r Hs. unfold sbind. destruct (m s) as [s1 [a|e|]] eqn:Em.
  - intros Hr. exact (Hk a s1 s' r (Hm s s1 (Ok a) Hs Em) Hr).
  - intros [= <- <-]. exact (Hm s s1 (Err e) Hs Em).
  - by intros [= <- <-].
Qed.

Lemma begun_lift {A} (o : outcome McError.t A) :
  match o with Err e => sent e | _ => True end → begun (slift o).
Proof using. intros Ho s s' r Hs [= <- <-]. by destruct o. Qed.

Lemma begun_get : begun sget.
Proof using. by intros s s' r Hs [= <- <-]. Qed.

Lemma begun_fail {A} e : sent e → begun (fail_disconnect (A := A) e).
Proof using. intros He s s' r Hs [= <- <-]. done. Qed.

Lemma begun_stream {A} (op : H → W → W * io_result A) : begun (on_stream op).
Proof using.
  intros s s' r Hs. unfold on_stream. destruct (ts_stream s.1) as [h|].
  - destruct (op h s.2) as [w [k|a]]; intros [= <- <-]; [|done]. apply mc_sent. clear. destruct k; cbn; set_solver.
  - intros [= <- <-]. apply mc_sent. clear. cbn. set_solver.
Qed.

Lemma begun_connected : begun session_ensure_connected.
Proof using. intros s s' r Hs. unfold session_ensure_connected. rewrite Hs. by intros [= <- <-]. Qed.

Lemma begun_head frame t : begun (slift (parse_response_head frame t)).
Proof using.
  assert (sent McError.invalid_response) as Hi by (clear; apply mc_sent; cbn; set_solver).
  assert (sent McError.unexpected_subheader) as Hs by (clear; apply mc_sent; cbn; set_solver).
  apply begun_lift. unfold parse_response_head. case_if; [done|]. cbn zeta. case_if; [done|].
  destruct (routing_decode frame); [|done]. cbn [ok_or outcome_bind]. case_if; [done|].
  case_if; [done|]. by case_if.
Qed.

Lemma begun_ret {A} (a : A) : begun (sret a).
Proof using. by intros s s' r Hs [= <- <-]. Qed.

Lemma begun_transact request : begun (transact request).
Proof using.
  assert (sent McError.invalid_response) as Hinv by (clear; apply mc_sent; cbn; set_solver).
  unfold transact. apply begun_bind; [apply begun_connected|]. intros [].
  apply begun_bind; [apply begun_lift; unfold command_area; by repeat case_match|]. intros area.
  case_if; [by apply begun_fail|]. apply begun_bind; [apply begun_stream|]. intros [].
  apply begun_bind.
  { apply begun_bind; [apply begun_stream|]. intros head. cbn zeta.
    apply begun_bind; [apply begun_stream|]. intros body. apply begun_ret. }
  intros frame. apply begun_bind; [apply begun_get|]. intros [t w].
  apply begun_bind; [apply begun_head|]. intros [head body]. cbn zeta. case_if; [by apply begun_fail|apply begun_ret].
Qed.

Lemma begun_response request : begun (plan_response request).
Proof using.
  unfold plan_response. apply begun_bind; [apply begun_get|]. intros [t w].
  apply begun_bind; [apply begun_transact|]. intros frame.
  apply begun_bind; [apply begun_get|]. intros [t' w'].
  apply begun_bind; [apply begun_head|]. intros [head body]. apply begun_ret.
Qed.

(** A connected driver. *)
Definition connected (s : MitsubishiMcDriver H * W) : Prop :=
  ∃ t, md_session s.1 = Some t ∧ is_connected t = true.

Lemma write_plans_sent plans rs s s' e :
  connected s → write_plans plans rs s = (s', Err e) → sent e.
Proof using.
  revert rs s. induction plans as [|plan plans IH]; intros rs [d w] Hs; cbn [write_plans]; [done|].
  unfold sbind at 1. unfold execute_write_plan, with_session at 1.
  destruct Hs as (t & Ht & Hc). cbn [fst] in Ht. rewrite Ht.
  destruct (plan_response _ (t, w)) as [[t' w'] r] eqn:Er.
  pose proof (begun_response _ (t, w) _ _ Hc Er) as Hb. destruct r as [resp|e1|].
  - apply IH. by exists t'.
  - intros [= _ <-]. exact Hb.
  - done.
Qed.

Lemma ensure_connected_ok s s' : ensure_connected s = (s', Ok ()) → connected s'.
Proof using.
  destruct s as [d w]. unfold ensure_connected, with_session. destruct (md_session d) as [t|]; [|done].
  destruct (session_ensure_connected (t, w)) as [[t' w'] r] eqn:Er. intros [= <- ->]. exists t'. split; [done|].
  revert Er. unfold session_ensure_connected. destruct (is_connected (t, w).1) eqn:E; [by intros [= <- <-]|].
  generalize (None : option McError.t) as last. generalize (t, w) as s0. clear.
  induction attempts as [|n IH]; intros s0 last; cbn [connect_attempts]; [by destruct last|].
  destruct (tcp_connect s0) as [[t1 w1] [h|e|]]; [by intros [= <- <-]|apply IH|done].
Qed.

(** Only connecting and planning can fail with one of the codes. *)
Lemma mc_write_unsent items s s' e :
  write_batch items s = (s', Err e) → McError.code e ∈ NOT_SENT_CODES → ∃ r, ensure_connected s = (s', r).
Proof using.
  unfold write_batch. unfold sbind at 1.
  destruct (ensure_connected s) as [s1 [[]|e1|]] eqn:Ec; [|intros [= <- _] _; by eexists|done].
  pose proof (ensure_connected_ok _ _ Ec) as Hcon. destruct s1 as [d w]. unfold sbind at 1, sget. cbn zeta.
  unfold sbind at 1, slift.
  destruct (plan_write_batch _ _ _) as [[plans failed]|e1|]; [|intros [= <- _] _; by eexists|done].
  unfold sbind. destruct (write_plans plans _ (d, w)) as [s2 [rs|e2|]] eqn:Ew; try done.
  intros [= _ <-] Hc. exfalso. exact (write_plans_sent _ _ _ _ _ Hcon Ew Hc).
Qed.

Definition mc_unsent :
    UnsentDriver (api := plugin_api (Plugin0 := mc_plugin from_str))
      (AbiDriver0 := plugin_driver (Plugin0 := mc_plugin from_str) (PluginInfo0 := mc_info))
      (MitsubishiMcDriver H) W McError.t.
Proof using.
  refine {| ad_connecting s s' := ∃ r, ensure_connected s = (s', r) |}.
  - intros items s s' e Hw Hc. eapply mc_write_unsent; [exact Hw|exact Hc].
  - unfold NOT_SENT_CODES. cbn. set_solver.
Defined.
End mc.

(** ** EtherNet/IP *)
From S2P Require Import EipAddress EipFrame EipCodec EipDriver.

Section eip.
Context {W H Addr : Type} `{!Os W} `{!ByteStream W H} `{!TcpNet W H Addr} `{!Envelopes}.
Context (from_str : str → option EnIpConfig).

Definition eip_info : PluginInfo (Plugin0 := eip_plugin from_str) (EtherIpDriver H) W EtherIpError.t WriteRequest.
Proof. refine {| pl_info := EtherIpError.into_info |}. done. Defined.

Abbreviation sent := (λ e, EtherIpError.code e ∉ NOT_SENT_CODES).

Lemma eip_sent (e : EtherIpError.t) :
  EtherIpError.code e ∈ ["connection_lost"; "timeout"; "invalid_response"; "unexpected_command_code";
                         "enip_error_response"; "cip_item_error"]%string → sent e.
Proof using.
  clear. unfold NOT_SENT_CODES. intros H0 H1.
  repeat (apply elem_of_cons in H0 as [H0|H0]; [rewrite H0 in H1; by repeat (apply elem_of_cons in H1 as [H1|H1]; [done|]); apply elem_of_nil in H1|]).
  by apply elem_of_nil in H0.
Qed.

(** A computation that fails only with errors that may follow a sent request. *)
Definition after_send {S A} (m : stm S EtherIpError.t A) : Prop := ∀ s s' e, m s = (s', Err e) → sent e.

Lemma after_bind {S A B} (m : stm S EtherIpError.t A) (k : A → stm S EtherIpError.t B) :
  after_send m → (∀ a, after_send (k a)) → after_send (sbind m k).
Proof using.
  intros Hm Hk s s' e. unfold sbind. destruct (m s) as [s1 [a|e1|]] eqn:Em; [apply Hk| |done].
  intros [= <- <-]. exact (Hm s s1 e1 Em).
Qed.

Lemma after_ok {S A} (m : stm S EtherIpError.t A) : (∀ s, match (m s).2 with Err e => sent e | _ => True end) → after_send m.
Proof using. intros Hm s s' e E. specialize (Hm s). by rewrite E in Hm. Qed.

Lemma after_lift {S A} (o : outcome EtherIpError.t A) :
  match o with Err e => sent e | _ => True end → after_send (S := S) (slift o).
Proof using. intros Ho. by apply after_ok. Qed.

Lemma after_fail {A} e : sent e → after_send (fail_disconnect (A := A) (W := W) (H := H) e).
Proof using. intros He. by apply after_ok. Qed.

Lemma after_stream {A} (op : H → W → W * io_result A) : after_send (on_stream op).
Proof using.
  apply after_ok. intros [t w]. unfold on_stream. cbn [fst snd]. destruct (ts_stream t) as [h|].
  - destruct (op h w) as [w' [k|a]]; [|done]. apply eip_sent. clear. destruct k; cbn; set_solver.
  - apply eip_sent. clear. cbn. set_solver.
Qed.

Lemma after_header frame : after_send (S := TcpSession H * W) (slift (parse_header frame)).
Proof using.
  apply after_lift. unfold parse_header. case_if; [apply eip_sent; clear; cbn; set_solver|]. cbn zeta.
  case_if; [apply eip_sent; clear; cbn; set_solver|done].
Qed.

Lemma after_exchange request : after_send (exchange (W := W) (H := H) request).
Proof using.
  assert (sent EtherIpError.invalid_response) as Hi by (clear; apply eip_sent; cbn; set_solver).
  unfold exchange. apply after_bind; [by apply after_ok; intros []|]. intros ctx.
  apply after_bind; [by apply after_ok|]. intros [t w]. cbn zeta.
  apply after_bind; [apply after_stream|]. intros [].
  apply after_bind.
  { apply after_bind; [apply after_stream|]. intros header. pose proof (parse_header_safe header) as Hp.
    unfold parse_header. case_if; [by apply after_fail|]. cbn zeta. case_if; [by apply after_fail|].
    apply after_bind; [apply after_stream|]. intros body. by apply after_ok. }
  intros resp. apply after_bind; [apply after_header|]. intros hd. apply after_bind; [by apply after_ok|].
  intros [t' w']. repeat (case_if; [apply after_fail, eip_sent; clear; cbn; set_solver|]).
  apply after_lift. unfold unwrap_rr_data. cbn zeta. by repeat (case_if; [done|]).
Qed.

Lemma after_exchange_checked request : after_send (exchange_checked (W := W) (H := H) request).
Proof using.
  unfold exchange_checked. apply after_bind.
  - apply after_ok. intros [d w]. unfold with_session. destruct (ed_session d) as [t|]; [|done].
    destruct (exchange request (t, w)) as [[t' w'] [a|e|]] eqn:E; [done| |done]. exact (after_exchange _ _ _ _ E).
  - intros reply. apply after_lift. unfold check_reply. case_if; [apply eip_sent; clear; cbn; set_solver|].
    destruct (request !! 0%nat); [|done]. cbn [expect outcome_bind].
    case_if; [apply eip_sent; clear; cbn; set_solver|]. case_if; [apply eip_sent; clear; cbn; set_solver|done].
Qed.

Lemma after_replies reply n : after_send (S := EtherIpDriver H * W) (slift (parse_multi_reply reply n)).
Proof using.
  assert (sent EtherIpError.invalid_response) as Hi by (clear; apply eip_sent; cbn; set_solver).
  apply after_lift. unfold parse_multi_reply. case_if; [done|]. cbn zeta. case_if; [done|]. case_if; [done|].
  generalize (parse_offsets reply n). intros l. induction l as [|off l IH]; cbn [cut_replies]; [done|].
  case_if; [done|]. cbn zeta. destruct (_ || _); [done|]. by destruct (cut_replies reply l).
Qed.

Lemma after_write_chunks chunks ready tally : after_send (write_chunks (W := W) (H := H) chunks ready tally).
Proof using.
  revert ready tally. induction chunks as [|chunk chunks IH]; intros ready tally; cbn [write_chunks]; [by apply after_ok|].
  apply after_bind; [apply after_exchange_checked|]. intros reply. apply after_bind; [apply after_replies|]. intros subs.
  apply IH.
Qed.

Lemma after_discover chunks discovery tally : after_send (discover_chunks (W := W) (H := H) chunks discovery tally).
Proof using.
  revert discovery tally. induction chunks as [|chunk chunks IH]; intros discovery tally; cbn [discover_chunks];
    [by apply after_ok|].
  intros s s' e. destruct (exchange_checked (build_multi chunk) s) as [s1 [reply|e1|]]; [|apply IH|done].
  revert s1 s' e. apply after_bind; [apply after_replies|]. intros subs. apply after_bind; [by apply after_ok|].
  intros [d w]. destruct (register_types _ _ _ _) as [cache t]. apply after_bind; [by apply after_ok; intros []|].
  intros []. apply IH.
Qed.

(** A plan that was made can be made again: only the address can fail it. *)
Lemma stage1_addresses items c e : plan_write_stage1 items c = Err e → ∀ c', plan_write_stage1 items c' = Err e ∨ plan_write_stage1 items c' = Panic.
Proof using.
  induction items as [|i items IH]; [done|]. cbn [plan_write_stage1]. intros Hs c'. revert Hs. unfold stage_item.
  destruct (parse (wq_address i)) as [p|er|]; cbn [map_err outcome_bind]; [| |done].
  2:{ intros [= <-]. by left. }
  destruct (c !! tp_raw p) as [tc|]; [destruct (encode_write tc (wq_value i)); cbn [outcome_bind]; try done|];
    (destruct (plan_write_stage1 items c) as [[[? ?] ?]|e1|] eqn:E1; cbn [outcome_bind]; try done; intros [= <-];
     destruct (c' !! tp_raw p) as [tc'|]; [destruct (encode_write tc' (wq_value i)); cbn [outcome_bind]; try (by right)|];
     cbn [outcome_bind]; destruct (IH eq_refl c') as [-> | ->]; auto).
Qed.

(** Only connecting and the first planning can fail with one of the codes. *)
Lemma eip_write_unsent items s s' e :
  write_batch items s = (s', Err e) → EtherIpError.code e ∈ NOT_SENT_CODES →
  ∃ r, ensure_connected (W := W) (H := H) s = (s', r).
Proof using.
  unfold write_batch. unfold sbind at 1.
  destruct (ensure_connected s) as [s1 [[]|e1|]] eqn:Ec; [|intros [= <- _] _; by eexists|done].
  destruct s1 as [d w]. unfold sbind at 1, sget. cbn zeta. unfold sbind at 1, slift.
  destruct (plan_write_stage1 items (ed_type_cache d)) as [[[discovery rd] failed]|e1|] eqn:Ep;
    [|intros [= <- _] _; by eexists|done].
  intros Hr Hc. exfalso. revert Hr Hc. generalize (d, w) as s0. revert s' e. 
  assert (after_send (S := EtherIpDriver H * W) (A := list RawWriteResult)
    (let! tally :=
       if bool_decide (discovery = []) then sret (foldl (λ t '(id, e), settle_failed id e t) (∅, []) failed)
       else discover_chunks (chunk_multi ((λ d, build_read_tag (td_tag d)) <$> discovery)
              (ec_max_services_per_multi (ed_config d)) (ec_max_bytes_per_multi (ed_config d))) discovery
              (foldl (λ t '(id, e), settle_failed id e t) (∅, []) failed) in
     write_known items (ec_max_services_per_multi (ed_config d)) (ec_max_bytes_per_multi (ed_config d)) tally)) as Ha.
  { apply after_bind; [case_if; [by apply after_ok|apply after_discover]|]. intros tally. unfold write_known.
    apply after_bind; [by apply after_ok|]. intros [d1 w1]. apply after_bind.
    - apply after_lift. destruct (plan_write_stage1 items (ed_type_cache d1)) as [|e1|] eqn:E1; [done| |done].
      exfalso. destruct (stage1_addresses _ _ _ E1 (ed_type_cache d)) as [E|E]; by rewrite E in Ep.
    - intros [[? ready] failed2]. apply after_bind; [apply after_write_chunks|]. intros t. by apply after_ok. }
  intros s' e s0 Hr Hc. exact (Ha s0 s' e Hr Hc).
Qed.

Definition eip_unsent :
    UnsentDriver (api := plugin_api (Plugin0 := eip_plugin from_str))
      (AbiDriver0 := plugin_driver (Plugin0 := eip_plugin from_str) (PluginInfo0 := eip_info))
      (EtherIpDriver H) W EtherIpError.t.
Proof using.
  refine {| ad_connecting s s' := ∃ r, ensure_connected s = (s', r) |}.
  - intros items s s' e Hw Hc. eapply eip_write_unsent; [exact Hw|exact Hc].
  - unfold NOT_SENT_CODES. cbn. set_solver.
Defined.
End eip.
