(* ===== verification/DeviceEndToEnd.v ===== *)
(** * A concrete form of the envelopes

    An encoding of driver results that has the properties of [EnvelopeLaws]: a
    batch with a float that is not finite can be written and not be read back,
    everything else is read back as it was.  The examples of the loader and the
    device manager run on it. *)

From stdpp Require Import countable strings.
From S2P Require Import Prelude RustStd ObservationModel ProfileModel ProfileConvert ProfileRegistryLaws.
From S2P Require Import DomainModel ControlModel ControlQueue DriverAbi AbiTag ModbusAddress ModbusCodec.
From S2P Require Import ModbusFrame ModbusSession ModbusSessionLaws ModbusBatch ModbusPlans ModbusMock ModbusDriver.
From S2P Require Import ModbusEndToEnd ModbusExamples PollEngine DriverLoader DriverPlugins DeviceManager.
From S2P Require Import DevicePipelineLaws DeviceControlLaws.
From stdpp Require Import options.

#[local] Set Default Proof Using "Type".

(** ** Numbers as texts of zeros and ones *)
Fixpoint bits (p : positive) : str :=
  match p with xH => [] | xO p => 48 :: bits p | xI p => 49 :: bits p end.

Fixpoint unbits (s : str) : positive :=
  match s with [] => xH | c :: s' => if c =? 49 then xI (unbits s') else xO (unbits s') end.

Lemma unbits_bits p : unbits (bits p) = p.
Proof. induction p as [p IH|p IH|]; cbn; by rewrite ?IH. Qed.

Lemma bits_ok p : Forall char_ok (bits p).
Proof. induction p as [p IH|p IH|]; cbn; repeat constructor; try done; lia. Qed.

Definition to_bytes `{Countable A} (a : A) : list Z := utf8_encode (bits (encode a)).
Definition of_text `{Countable A} (s : str) : option A := decode (unbits s).

Lemma to_bytes_text `{Countable A} (a : A) : utf8_decode (to_bytes a) = Some (bits (encode a)).
Proof. apply utf8_decode_encode, bits_ok. Qed.

Lemma of_text_bits `{Countable A} (a : A) : of_text (bits (encode a)) = Some a.
Proof. unfold of_text. rewrite unbits_bits. apply decode_encode. Qed.

(** ** Values as trees *)
Abbreviation tree := (gen_tree Z).

Fixpoint value_tree (v : RawValue.t) : tree :=
  match v with
  | RawValue.Bool b => GenNode 0 [GenLeaf (if b then 1 else 0)]
  | RawValue.I64 z => GenNode 1 [GenLeaf z]
  | RawValue.U64 z => GenNode 2 [GenLeaf z]
  | RawValue.F64 z => GenNode 3 [GenLeaf z]
  | RawValue.String s => GenNode 4 (GenLeaf <$> s)
  | RawValue.Bytes l => GenNode 5 (GenLeaf <$> l)
  | RawValue.Array l => GenNode 6 (value_tree <$> l)
  | RawValue.Struct l => GenNode 7 ((λ f, GenNode 8 [GenNode 4 (GenLeaf <$> f.1); value_tree f.2]) <$> l)
  end.

Definition leaf (t : tree) : Z := match t with GenLeaf z => z | GenNode _ _ => 0 end.
Definition leaves (t : tree) : list Z := match t with GenNode _ l => leaf <$> l | GenLeaf _ => [] end.

Fixpoint tree_value (t : tree) : RawValue.t :=
  match t with
  | GenNode 0 [GenLeaf b] => RawValue.Bool (b =? 1)
  | GenNode 1 [GenLeaf z] => RawValue.I64 z
  | GenNode 2 [GenLeaf z] => RawValue.U64 z
  | GenNode 3 [GenLeaf z] => RawValue.F64 z
  | GenNode 4 l => RawValue.String (leaf <$> l)
  | GenNode 5 l => RawValue.Bytes (leaf <$> l)
  | GenNode 6 l => RawValue.Array (tree_value <$> l)
  | GenNode 7 l =>
      RawValue.Struct ((λ f, match f with GenNode _ [n; v] => (leaves n, tree_value v) | _ => ([], RawValue.Bool false) end) <$> l)
  | _ => RawValue.Bool false
  end.

Lemma leaf_leaves (l : list Z) : leaf <$> ((GenLeaf <$> l) : list tree) = l.
Proof. induction l as [|z l IH]; cbn; [done|]. f_equal. exact IH. Qed.

Lemma tree_value_tree : ∀ v, tree_value (value_tree v) = v.
Proof.
  fix IH 1. intros [b|z|z|z|s|l|l|l]; cbn [value_tree tree_value]; try done.
  - by destruct b.
  - by rewrite leaf_leaves.
  - by rewrite leaf_leaves.
  - f_equal. induction l as [|v l IHl]; cbn; [done|]. by rewrite IH; f_equal.
  - f_equal. induction l as [|[n v] l IHl]; cbn; [done|]. by rewrite leaf_leaves, IH; f_equal.
Qed.

(** ** Results as tuples *)
Abbreviation error_tuple := (string * option Z * bool)%type.
Definition error_of (e : DriverErrorInfo) : error_tuple := (dei_code e, dei_protocol_code e, dei_retryable e).
Definition of_error (t : error_tuple) : DriverErrorInfo :=
  {| dei_code := t.1.1; dei_protocol_code := t.1.2; dei_retryable := t.2 |}.

Abbreviation read_tuple := (Z * option tree * option Z * Z * option Z * option error_tuple)%type.
Definition read_of (r : RawReadResult) : read_tuple :=
  (rr_item_id r, value_tree <$> rr_value r, rr_source_timestamp_ns r, rr_received_timestamp_ns r,
   rr_protocol_quality_code r, error_of <$> rr_error r).
Definition of_read (t : read_tuple) : RawReadResult :=
  let '(id, v, src, rcv, q, e) := t in
  {| rr_item_id := id; rr_value := tree_value <$> v; rr_source_timestamp_ns := src;
     rr_received_timestamp_ns := rcv; rr_protocol_quality_code := q; rr_error := of_error <$> e |}.

Abbreviation write_tuple := (Z * bool * option Z * option error_tuple)%type.
Definition write_of (r : RawWriteResult) : write_tuple :=
  (wr_item_id r, wr_success r, wr_protocol_code r, error_of <$> wr_error r).
Definition of_write (t : write_tuple) : RawWriteResult :=
  let '(id, ok, q, e) := t in
  {| wr_item_id := id; wr_success := ok; wr_protocol_code := q; wr_error := of_error <$> e |}.

Lemma of_error_of e : of_error (error_of e) = e.
Proof. by destruct e. Qed.

Lemma of_error_option (e : option DriverErrorInfo) : of_error <$> (error_of <$> e) = e.
Proof. destruct e as [[]|]; done. Qed.

Lemma of_read_of r : of_read (read_of r) = r.
Proof.
  destruct r as [id v src rcv q e]. unfold of_read, read_of. cbn. rewrite of_error_option.
  f_equal. destruct v as [v|]; cbn; [by rewrite tree_value_tree|done].
Qed.

Lemma of_write_of r : of_write (write_of r) = r.
Proof. destruct r as [id ok q e]. unfold of_write, write_of. cbn. by rewrite of_error_option. Qed.

(** ** The envelopes *)
Definition codec : Envelopes := {|
  read_envelope l := Some (to_bytes (read_of <$> l));
  write_envelope l := Some (to_bytes (write_of <$> l));
  address_envelope _ := Some (to_bytes ());
  capabilities_envelope _ := Some (to_bytes ());
  error_envelope e := Some (to_bytes (error_of e));
|}.

Definition read_text (s : str) : option (list RawReadResult) :=
  l ← fmap of_read <$> of_text (A := list read_tuple) s;
  if forallb finite_result l then Some l else None.

Lemma map_same {A} (f : A → A) l : Forall (λ x, f x = x) l → map f l = l.
Proof. induction 1 as [|x l Hx _ IH]; [done|]. cbn. by rewrite Hx, IH. Qed.

Definition write_text (s : str) : option (list RawWriteResult) :=
  match of_text (A := list write_tuple) s with Some l => Some (of_write <$> l) | None => None end.

Definition error_text (s : str) : option DriverErrorInfo :=
  match of_text (A := error_tuple) s with Some t => Some (of_error t) | None => None end.

Definition decoders : Decoders () () () () := {|
  from_read_envelope := read_text;
  float_read_back b := b;
  from_write_envelope := write_text;
  from_address_envelope _ := None;
  from_capabilities_envelope _ := None;
  from_error_envelope := error_text;
  from_execute_envelope _ := None;
  from_browse_envelope _ := None;
  from_history_envelope _ := None;
  to_execute_request _ := None;
  to_history_request _ := None;
|}.

Fixpoint json_value_same (v : RawValue.t) : json_value (Decoders0 := decoders) v = v.
Proof.
  destruct v as [b|z|z|b|s|b|l|l]; try reflexivity; cbn; f_equal; apply map_same.
  - induction l as [|v l IH]; constructor; [apply json_value_same|exact IH].
  - induction l as [|[k v] l IH]; constructor; [|exact IH]. cbn. f_equal. apply json_value_same.
Qed.

Lemma json_result_same r : json_result (Decoders0 := decoders) r = r.
Proof. destruct r as [id v src rcv q e]. unfold json_result. cbn. f_equal. destruct v; cbn; by rewrite ?json_value_same. Qed.

Lemma codec_laws : EnvelopeLaws (H := codec) (Decoders0 := decoders).
Proof.
  split.
  - intros l. exists (to_bytes (read_of <$> l)), (bits (encode (read_of <$> l))).
    split; [done|]. split; [apply to_bytes_text|]. cbn. unfold read_text. rewrite of_text_bits. cbn.
    rewrite <- list_fmap_compose. rewrite (list_fmap_ext _ id l) by (intros k r _; apply of_read_of).
    rewrite list_fmap_id. destruct (forallb finite_result l); [|done]. f_equal. symmetry.
    rewrite (list_fmap_ext _ id l) by (intros k r _; apply json_result_same). apply list_fmap_id.
  - intros l. exists (to_bytes (write_of <$> l)), (bits (encode (write_of <$> l))).
    split; [done|]. split; [apply to_bytes_text|]. cbn. unfold write_text. rewrite of_text_bits. cbn. f_equal.
    rewrite <- list_fmap_compose. rewrite (list_fmap_ext _ id l) by (intros k r _; apply of_write_of).
    apply list_fmap_id.
  - intros e. exists (to_bytes (error_of e)), (bits (encode (error_of e))).
    split; [done|]. split; [apply to_bytes_text|]. cbn. unfold error_text. rewrite of_text_bits. cbn. by rewrite of_error_of.
Qed.

(** * A Modbus device through the loader

    What the device manager sees of a healthy Modbus slave: the driver's batch
    read, carried through the C ABI and JSON. *)

Section modbus_device.
Context {Json Node HistoryRequest HistoryPage : Type} `{!Envelopes} `{!Decoders Json Node HistoryRequest HistoryPage}.
Context {json_laws : EnvelopeLaws}.
Context (from_str : str → option ModbusConfig) (create_transport : ModbusConfig → outcome ModbusError.t (TcpTransport ())).

Definition modbus_read (items : list DriverReadItem) : stm (NativeDriver Driver * Conn) LoaderError.t (list RawReadResult) :=
  read (D := Driver) (W := Conn) (api := modbus_api from_str create_transport) items.

Lemma modbus_read_transparent items (n : NativeDriver Driver) c :
  Forall (λ i, Forall char_ok (ri_address i) ∧ scalar_type (ri_expected_type i) = true) items →
  match read_batch items (nd_handle n, c) with
  | ((d, w'), Ok rs) =>
      if forallb finite_result rs
      then modbus_read items (n, c) = ((set_handle d n, w'), Ok (json_result <$> rs))
      else modbus_read items (n, c) = ((set_handle d n, w'), Err (LoaderError.InvalidResponse "read"))
  | _ => True
  end.
Proof using json_laws.
  intros Hi. unfold modbus_read, read.
  rewrite (query_answered (api := modbus_api from_str create_transport)
    (AbiDriver0 := modbus_driver from_str create_transport) _ _ _ _ _ n c
    (fn_read_spec (AbiDriver := modbus_driver from_str create_transport) items (nd_handle n, c) Hi)).
  cbn [ad_read modbus_driver]. destruct (read_batch items (nd_handle n, c)) as [[d w'] [rs|e|]]; [|done..].
  destruct (read_envelope_decodes rs) as (bytes & json & -> & Hu & Hd). unfold decode_buffer. cbn [ok_or outcome_bind].
  rewrite Hu. cbn [ok_or outcome_bind]. rewrite Hd. by destruct (forallb finite_result rs).
Qed.

(** C37: one unrepresentable value loses a whole batch.  On a healthy slave a
    batch of items of scalar types that fit their address space and do not
    overlap, read through the loader, arrives item by item as the slave holds
    it (a float as the JSON parser reads it back), if no float register of the
    batch holds a NaN or an infinity; if one does, the driver
    still reads every item, but the caller gets no value at all, only an error
    that is marked as not worth a retry. *)
Theorem nonfinite_value_loses_batch items (n : NativeDriver Driver) c t bank :
  let d := nd_handle n in
  let alone := read_alone (mc_unit_id (md_config d)) bank (mc_word_order (md_config d)) in
  Forall (λ i, Forall char_ok (ri_address i) ∧ scalar_type (ri_expected_type i) = true) items →
  md_transport d = Some t → serving bank (t, c) → in_u 8 (mc_unit_id (md_config d)) →
  forallb (item_fits (mc_unit_id (md_config d))) items = true →
  ForallOrdPairs (spans_disjoint (mc_unit_id (md_config d))) items →
  (∃ s' rs, read_batch items (d, c) = (s', Ok rs) ∧ Some <$> rs ≡ₚ alone <$> items) ∧
  (Forall (λ i, from_option finite_result true (alone i) = true) items →
     ∃ s' rs, modbus_read items (n, c) = (s', Ok (json_result <$> rs)) ∧
       Some <$> rs ≡ₚ alone <$> items) ∧
  (Exists (λ i, from_option finite_result true (alone i) = false) items →
     ∃ s' e, modbus_read items (n, c) = (s', Err e) ∧
       map_loader_error e = {| dei_code := "driver_invalid_response"; dei_protocol_code := None; dei_retryable := false |}).
Proof using json_laws.
  intros d alone Hi Ht Hserv Hu Hfit Hdis.
  destruct (read_batch_alone items d c t bank Ht Hserv Hu Hfit Hdis) as ([d' c'] & rs & Hrun & _ & Hperm).
  pose proof (modbus_read_transparent items n c Hi) as Hread. fold d in Hread. rewrite Hrun in Hread.
  fold alone in Hperm.
  assert (∀ i, i ∈ items → ∃ r, r ∈ rs ∧ alone i = Some r) as Hin.
  { intros i Hini. assert (alone i ∈ Some <$> rs) as (r & Hr & Hin)%list_elem_of_fmap.
    { rewrite Hperm. apply list_elem_of_fmap. by exists i. }
    by exists r. }
  assert (∀ r, r ∈ rs → ∃ i, i ∈ items ∧ alone i = Some r) as Hout.
  { intros r Hr. assert (Some r ∈ alone <$> items) as (i & Hr' & Hii)%list_elem_of_fmap.
    { rewrite <- Hperm. apply list_elem_of_fmap. by exists r. }
    by exists i. }
  split; [|split].
  - by exists (d', c'), rs.
  - intros Hfin. destruct (forallb finite_result rs) eqn:Ef.
    + exists (set_handle d' n, c'), rs. by rewrite Hread.
    + exfalso. apply not_true_iff_false in Ef. apply Ef, forallb_forall. intros r Hr%list_elem_of_In.
      destruct (Hout r Hr) as (i & Hii & Ha). rewrite Forall_forall in Hfin. specialize (Hfin i Hii). by rewrite Ha in Hfin.
  - intros (i & Hii & Hnf)%Exists_exists. destruct (Hin i Hii) as (r & Hr & Ha). rewrite Ha in Hnf. cbn in Hnf.
    destruct (forallb finite_result rs) eqn:Ef.
    { rewrite forallb_forall in Ef. rewrite (Ef r) in Hnf; [done|]. by apply list_elem_of_In. }
    eexists _, _. split; [exact Hread|]. done.
Qed.
End modbus_device.

(** * The loader and the device manager at work

    Concrete tables, drivers, devices and events at which the theorems of the
    loader and the device manager apply. *)

(** ** A function table *)
Definition example_table : list Z :=
  to_le_bytes 4 136 ++ to_le_bytes 2 1 ++ to_le_bytes 2 0 ++ to_le_bytes 8 0 ++ replicate 120 1.

Lemma validate_api_exact_witness :
  validate_api example_table (1, 0) ≠ Panic ∧
  (validate_api example_table (1, 0) = Ok () ↔
     (136 ≤ Z.to_nat 136)%nat ∧
     from_le_bytes (slice 4 6 example_table) = ABI_MAJOR ∧ from_le_bytes (slice 6 8 example_table) ≤ ABI_MINOR ∧
     (1, 0) = (from_le_bytes (slice 4 6 example_table), from_le_bytes (slice 6 8 example_table)) ∧
     Forall (λ f, pointer_at example_table f.2 ≠ 0) FUNCTIONS).
Proof.
  apply (validate_api_exact example_table (1, 0) 136);
    [by apply (bool_decide_unpack _); vm_compute|by vm_compute|by apply (bool_decide_unpack _); vm_compute].
Defined.

(** ** A Modbus driver behind the loader *)
Definition no_config : str → option ModbusConfig := λ _, None.
Definition tcp_only (c : ModbusConfig) : outcome ModbusError.t (TcpTransport ()) := Ok (tcp_new c).

Definition example_native : NativeDriver Driver :=
  {| nd_handle := example_driver; nd_capabilities := None; nd_connected := true |}.

Definition example_write_items : list DriverWriteItem :=
  [{| dw_id := 1; dw_address := lit "40001"; dw_value := RawValue.U64 5 |}].

Lemma example_reads_ok :
  Forall (λ i, Forall char_ok (ri_address i) ∧ scalar_type (ri_expected_type i) = true) example_reads.
Proof. repeat constructor; cbn; unfold char_ok; lia. Qed.

Lemma example_write_items_ok :
  Forall (λ i, Forall char_ok (dw_address i) ∧ RawValue.wf (dw_value i)) example_write_items.
Proof. repeat constructor; cbn; unfold char_ok; lia. Qed.

Lemma native_driver_transparent_witness :
  match ModbusDriver.write_batch (modbus_request <$> example_write_items) (example_driver, example_conn) with
  | ((d, w'), Ok rs) =>
      write (api := modbus_api (H0 := codec) no_config tcp_only) (Decoders0 := decoders) example_write_items (example_native, example_conn) =
        ((set_handle d example_native, w'), Ok rs)
  | _ => True
  end.
Proof.
  pose proof (native_driver_transparent (api := modbus_api (H0 := codec) no_config tcp_only) (H := codec) (Decoders0 := decoders)
    (AbiDriver0 := modbus_driver (H0 := codec) no_config tcp_only) (json_laws := codec_laws)
    example_native example_conn example_reads example_write_items example_reads_ok example_write_items_ok) as [_ Hw].
  revert Hw. destruct (ffi_write_items example_write_items) as [ffi|e|] eqn:Ef; [|by vm_compute in Ef..].
  cbn [ad_write modbus_driver nd_handle example_native].
  destruct (ModbusDriver.write_batch _ _) as [[d w'] [rs|e|]]; [|done..]. auto.
Defined.

(** ** Devices *)
#[local] Instance idle_session : DriverSession () () () := {|
  ds_read_batch _ s := (s, Ok []);
  ds_write_batch _ s := (s, Ok []);
  ds_execute_command _ s := (s, Err device_not_found);
  ds_validate_address _ s := (s, Err device_not_found);
  ds_protocol_capabilities s := (s, Err device_not_found);
  ds_drop _ w := w;
|}.

#[local] Instance idle_factory : DriverFactory () () () () := {| df_create_driver _ _ _ w := (w, Ok ()) |}.

Definition example_device : Device () :=
  {| dev_id := lit "vfd-01"; dev_name := lit "VFD"; dev_domain := DomainKind.Drive;
     dev_driver_id := lit "modbus-tcp"; dev_profile_id := lit "drive"; dev_connection_config := ();
     dev_enabled := true; dev_labels := ∅ |}.

Definition example_registry : ProfileRegistry := (register drive ∅).1.

Definition empty_manager : DeviceManager () () () :=
  {| dm_profiles := example_registry; dm_drivers := (); dm_default_interval_ms := 1000; dm_devices := ∅ |}.

Definition example_manager : DeviceManager () () () := (register_device example_device (empty_manager, ())).1.1.

Definition example_instance : DeviceInstance () () :=
  {| di_device := example_device; di_profile := drive; di_session := ();
     di_read_items := generate_read_items drive 1000;
     di_groups := match group_read_items (generate_read_items drive 1000) with Ok g => g | _ => [] end |}.

Lemma example_registry_eq : example_registry = {[lit "drive" := drive]}.
Proof. vm_compute. reflexivity. Qed.

Lemma example_manager_run : manager_run (W := ()) (example_manager, ()).
Proof.
  assert (manager_run (W := ()) (empty_manager, ())) as H0.
  { apply (mr_new example_registry () 1000); [| |done|done].
    - apply (run_register drive ∅), run_new.
    - rewrite example_registry_eq. apply map_Forall_singleton. repeat constructor; cbn; lia. }
  pose proof (mr_register example_device _ H0) as H1. unfold example_manager.
  by destruct (register_device example_device (empty_manager, ())) as [[m []] r].
Qed.

Lemma example_instance_found : get example_manager (lit "vfd-01") = Some example_instance.
Proof. vm_compute. reflexivity. Qed.

Lemma poll_targets_cover_witness :
  concat (pt_items <$> poll_targets example_instance) ≡ₚ
    imap (λ k p, {| ri_id := Z.of_nat k; ri_address := pr_driver_address p;
                    ri_expected_type := Some (pr_raw_type p) |}) (readable_properties drive).
Proof.
  pose proof (poll_targets_cover example_manager () (lit "vfd-01") example_instance poll_config_default scheduler_new
    example_manager_run example_instance_found eq_refl) as (_ & _ & _ & Hcover & _). exact Hcover.
Defined.

(** ** Events *)
Definition example_batch : PollBatch :=
  {| pb_device_id := lit "vfd-01"; pb_interval_ms := 1000;
     pb_results := [mkRawReadResult 0 (Some (RawValue.U64 4999)) None 0 None None]; pb_elapsed_ms := 3 |}.

Definition example_events : list (Z * PollEvent.t) :=
  [(10, PollEvent.Batch example_batch);
   (20, PollEvent.Failed (lit "vfd-01") 1000 (it_driver_item <$> di_read_items example_instance) timeout_error);
   (30, PollEvent.Batch example_batch)].

Lemma example_manager_eq : dm_devices example_manager = {[lit "vfd-01" := example_instance]}.
Proof.
  assert (bind_profile empty_manager example_device = Ok drive) as Hb by by vm_compute.
  assert (group_read_items (generate_read_items drive 1000) = Ok (di_groups example_instance)) as Hg by by vm_compute.
  unfold example_manager, register_device. rewrite Hb. cbn [df_create_driver idle_factory].
  change (dm_default_interval_ms empty_manager) with 1000. rewrite Hg. done.
Qed.

Lemma example_texts : texts_ok example_manager.
Proof.
  intros id i Hi. rewrite example_manager_eq in Hi. apply lookup_singleton_Some in Hi as [<- <-]. split; [by vm_compute|].
  assert (forallb (λ it, byte_len (it_path it) <? 2 ^ 64) (di_read_items example_instance) = true) as Hf by by vm_compute.
  rewrite forallb_forall in Hf. apply Forall_forall. intros it Hit%list_elem_of_In%Hf.
  pose proof (byte_len_nonneg (it_path it)). unfold in_u. lia.
Qed.

Lemma observations_unique_witness :
  NoDup (obs_observation_id <$> (pump_all example_manager (lit "s") example_events ∅).2).
Proof.
  apply (observations_unique example_manager () (lit "s") example_events example_manager_run example_texts). by vm_compute.
Defined.

Lemma example_in_domain : in_domain example_instance.
Proof.
  apply Forall_forall.
  assert (forallb (λ it, bool_decide (first_segment (it_path it) = standard_prefix (dp_domain (di_profile example_instance))))
    (di_read_items example_instance) = true) as Hf by by vm_compute.
  rewrite forallb_forall in Hf. intros it Hit%list_elem_of_In%Hf. by apply bool_decide_eq_true in Hit.
Qed.

Lemma pump_reports_witness :
  Forall2 (λ kr o, ∃ it, item example_instance (ri_id kr.2) = Some it ∧ obs_path o = it_path it ∧
      obs_device_id o = lit "vfd-01" ∧ obs_value o = None ∧ obs_sequence o = current (lit "vfd-01") ∅ + Z.of_nat kr.1 ∧
      obs_quality o = {| q_level := QualityLevel.Bad; q_reason := reason_for_driver_error timeout_error;
                         q_protocol_code := dei_protocol_code timeout_error |})
    (known_items example_instance (it_driver_item <$> di_read_items example_instance))
    (pump_event example_manager (lit "s") 20
       (PollEvent.Failed (lit "vfd-01") 1000 (it_driver_item <$> di_read_items example_instance) timeout_error) ∅).2.
Proof.
  apply (pump_reports example_manager () (lit "s") 20 example_instance (lit "vfd-01") ∅ example_batch
    (it_driver_item <$> di_read_items example_instance) timeout_error 1000 example_manager_run example_instance_found
    example_in_domain); by vm_compute.
Defined.

(** ** A control write *)
Definition modbus_manager : DeviceManager (NativeDriver Driver) () () :=
  {| dm_profiles := ∅; dm_drivers := (); dm_default_interval_ms := 1000;
     dm_devices := {[lit "vfd-01" := {| di_device := example_device; di_profile := drive; di_session := example_native;
                                        di_read_items := []; di_groups := [] |}]} |}.

Lemma write_outcome_sound_witness :
  match executor_write (DriverSession0 := native_session (api := modbus_api (H0 := codec) no_config tcp_only) (Decoders0 := decoders))
          (λ _, true) (lit "vfd-01") example_write_items (modbus_manager, example_conn) with
  | ((m', w'), WriteOutcome.Succeeded rs) =>
      ∃ i d', get modbus_manager (lit "vfd-01") = Some i ∧
        ModbusDriver.write_batch (modbus_request <$> example_write_items) (nd_handle (di_session i), example_conn) = ((d', w'), Ok rs) ∧
        m' = set_session (lit "vfd-01") i (set_handle d' (di_session i)) modbus_manager
  | _ => True
  end.
Proof.
  destruct (executor_write _ _ _ (modbus_manager, example_conn)) as [[m' w'] o] eqn:Ew.
  pose proof (write_outcome_sound (api := modbus_api (H0 := codec) no_config tcp_only) (H := codec) (Decoders0 := decoders)
    (AbiDriver0 := modbus_driver (H0 := codec) no_config tcp_only) (json_laws := codec_laws)
    (unsent := modbus_unsent (H := codec) no_config tcp_only)
    (λ _, true) (lit "vfd-01") example_write_items modbus_manager example_conn m' w' o example_write_items_ok Ew) as Hs.
  destruct o; [exact Hs|done..].
Defined.

(** ** A register that holds a NaN next to one that holds 7 *)
Definition nan_bank : gmap AddrKey Z :=
  <[(1, Kind.HoldingRegister, 0) := 0]> (<[(1, Kind.HoldingRegister, 1) := 0x7FC0]> (<[(1, Kind.HoldingRegister, 2) := 7]> ∅)).

Definition nan_conn : Conn :=
  {| cn_behavior := set_values (λ _, nan_bank) mock_new; cn_rng := None; cn_inbox := [];
     cn_outbox := []; cn_open := true |}.

Definition nan_reads : list DriverReadItem :=
  [ {| ri_id := 1; ri_address := lit "40001"; ri_expected_type := Some DataType.F32 |};
    {| ri_id := 2; ri_address := lit "40003"; ri_expected_type := Some DataType.U16 |} ].

Lemma nan_reads_disjoint : ForallOrdPairs (spans_disjoint 1) nan_reads.
Proof.
  all_pairs; unfold spans_disjoint;
    repeat match goal with |- context [parse_address ?a ?d] =>
      let r := eval vm_compute in (parse_address a d) in
      change (parse_address a d) with r end; cbv iota; cbn [unit_id kind];
    first [by left|right; left; by vm_compute|right; right; by vm_compute].
Qed.

Lemma nonfinite_value_loses_batch_witness :
  ∃ s' e, modbus_read (H := codec) (Decoders0 := decoders) no_config tcp_only nan_reads (example_native, nan_conn) = (s', Err e) ∧
    map_loader_error e = {| dei_code := "driver_invalid_response"; dei_protocol_code := None; dei_retryable := false |}.
Proof.
  pose proof (nonfinite_value_loses_batch (H := codec) (Decoders0 := decoders) (json_laws := codec_laws) no_config tcp_only
    nan_reads example_native nan_conn example_tcp nan_bank) as Ht. cbn zeta in Ht.
  apply Ht; [repeat constructor; cbn; unfold char_ok; lia|done|by repeat split|done|by vm_compute|exact nan_reads_disjoint|].
  apply Exists_cons_hd. by vm_compute.
Defined.
