(* ===== verification/CollectorForward.v ===== *)
(** * The collector's working tasks (apps/collector/src/tasks.rs)

    The health counters, the event pump and the forwarding loop that stores the
    batches of the pipeline in the local buffer and publishes what is stored.
    The buffer, the MQTT client, the channels and the clock are the class
    [Collaborators]; [fw_log] records each call that moves a batch with its
    answer, in order, and the theorems speak about that record, for every
    behaviour of the collaborators. *)

From S2P Require Import Prelude RustStd ObservationModel.
From S2P Require Import PollEngine DomainModel DriverAbi DriverLoader DeviceManager.
From S2P Require Import MqttConfig LocalBuffer DataPipeline.
From stdpp Require Import options.

#[local] Set Default Proof Using "Type".

Definition NS_PER_MS : Z := 1000000.
Definition PUBLISH_FAIL_BACKOFF : Z := 200 * NS_PER_MS.
Definition PUSH_CAPACITY_WAIT : Z := 500 * NS_PER_MS.
Definition PUSH_TRANSIENT_RETRIES : nat := 3.

(** ** Error codes that may reach the health view *)
Definition DRIVER_CODE_WHITELIST : list string :=
  ["driver_load_failed"; "driver_entry_not_found"; "driver_manifest_entry_invalid"; "driver_entry_null";
   "driver_struct_too_small"; "driver_abi_incompatible"; "driver_manifest_abi_mismatch";
   "driver_missing_function"; "driver_create_failed"; "driver_call_failed"; "driver_empty_response";
   "driver_invalid_response"; "driver_invalid_handle"; "driver_encoding_error";
   "driver_request_timeout"; "driver_read_panicked";
   "connection_failed"; "connection_lost"; "timeout"; "modbus_exception"; "invalid_response";
   "invalid_address"; "config_error"; "decode_error"]%string.

Definition whitelist_driver_code (code : string) : string :=
  if bool_decide (code ∈ DRIVER_CODE_WHITELIST) then code else "driver_error".

(** ** Health counters *)
Record HealthState : Type := mkHealthState {
  hs_started_at_ns : Z;
  hs_mqtt_acked : Z;
  hs_mqtt_failed : Z;
  hs_last_acked_at_ns : Z;
  hs_last_failed_at_ns : Z;
  hs_last_error : option str;
  hs_replayed : Z;
  hs_inflight : Z;
  hs_device_last_batch : gmap str Z;
  hs_device_error : gmap str (option string);
}.

Definition health_default : HealthState :=
  {| hs_started_at_ns := 0; hs_mqtt_acked := 0; hs_mqtt_failed := 0; hs_last_acked_at_ns := 0;
     hs_last_failed_at_ns := 0; hs_last_error := None; hs_replayed := 0; hs_inflight := 0;
     hs_device_last_batch := ∅; hs_device_error := ∅ |}.

Definition record_device_batch (device_id : str) (at_ns : Z) (h : HealthState) : HealthState :=
  mkHealthState (hs_started_at_ns h) (hs_mqtt_acked h) (hs_mqtt_failed h) (hs_last_acked_at_ns h)
    (hs_last_failed_at_ns h) (hs_last_error h) (hs_replayed h) (hs_inflight h)
    (<[device_id := at_ns]> (hs_device_last_batch h)) (hs_device_error h).

Definition record_device_error (device_id : str) (code : option string) (h : HealthState) : HealthState :=
  mkHealthState (hs_started_at_ns h) (hs_mqtt_acked h) (hs_mqtt_failed h) (hs_last_acked_at_ns h)
    (hs_last_failed_at_ns h) (hs_last_error h) (hs_replayed h) (hs_inflight h)
    (hs_device_last_batch h) (<[device_id := code]> (hs_device_error h)).

(** [fetch_add] and [fetch_sub] wrap. *)
Definition record_acked (at_ns : Z) (h : HealthState) : HealthState :=
  mkHealthState (hs_started_at_ns h) (wrap 64 (hs_mqtt_acked h + 1)) (hs_mqtt_failed h) at_ns
    (hs_last_failed_at_ns h) (hs_last_error h) (hs_replayed h) (wrap 64 (hs_inflight h - 1))
    (hs_device_last_batch h) (hs_device_error h).

Definition record_failed (at_ns : Z) (code : str) (h : HealthState) : HealthState :=
  mkHealthState (hs_started_at_ns h) (hs_mqtt_acked h) (wrap 64 (hs_mqtt_failed h + 1))
    (hs_last_acked_at_ns h) at_ns (Some code) (hs_replayed h) (wrap 64 (hs_inflight h - 1))
    (hs_device_last_batch h) (hs_device_error h).

Definition record_inflight (h : HealthState) : HealthState :=
  mkHealthState (hs_started_at_ns h) (hs_mqtt_acked h) (hs_mqtt_failed h) (hs_last_acked_at_ns h)
    (hs_last_failed_at_ns h) (hs_last_error h) (hs_replayed h) (wrap 64 (hs_inflight h + 1))
    (hs_device_last_batch h) (hs_device_error h).

Definition record_replayed (h : HealthState) : HealthState :=
  mkHealthState (hs_started_at_ns h) (hs_mqtt_acked h) (hs_mqtt_failed h) (hs_last_acked_at_ns h)
    (hs_last_failed_at_ns h) (hs_last_error h) (wrap 64 (hs_replayed h + 1)) (hs_inflight h)
    (hs_device_last_batch h) (hs_device_error h).

(** The snapshot (health.rs). *)
Record DeviceHealth : Type := mkDeviceHealth {
  dh_device_id : str;
  dh_enabled : bool;
  dh_read_items : nat;
  dh_groups : nat;
  dh_last_batch_at_ns : option Z;
  dh_last_error : option string;
}.

Record MqttHealth : Type := mkMqttHealth {
  mh_last_acked_at_ns : option Z;
  mh_last_failed_at_ns : option Z;
  mh_last_error : option str;
  mh_publishes_acked : Z;
  mh_publishes_failed : Z;
}.

Record CollectorHealth : Type := mkCollectorHealth {
  ch_started_at_ns : Z;
  ch_devices : list DeviceHealth;
  ch_mqtt : MqttHealth;
  ch_inflight : Z;
  ch_replayed_batches : Z;
}.

Definition nonzero (v : Z) : option Z := if v =? 0 then None else Some v.

Definition snapshot (devices : list (str * bool * nat * nat)) (h : HealthState) : CollectorHealth :=
  {| ch_started_at_ns := hs_started_at_ns h;
     ch_devices := (λ '(id, enabled, items, groups),
       {| dh_device_id := id; dh_enabled := enabled; dh_read_items := items; dh_groups := groups;
          dh_last_batch_at_ns := hs_device_last_batch h !! id;
          dh_last_error := mjoin (hs_device_error h !! id) |}) <$> devices;
     ch_mqtt := {| mh_last_acked_at_ns := nonzero (hs_last_acked_at_ns h);
                   mh_last_failed_at_ns := nonzero (hs_last_failed_at_ns h);
                   mh_last_error := hs_last_error h;
                   mh_publishes_acked := hs_mqtt_acked h; mh_publishes_failed := hs_mqtt_failed h |};
     ch_inflight := hs_inflight h; ch_replayed_batches := hs_replayed h |}.

Definition has_device_errors (h : CollectorHealth) : bool :=
  existsb (λ d, bool_decide (is_Some (dh_last_error d))) (ch_devices h).

(** ** The event pump *)
Section pump.
Context {S W Json F : Type} `{!DriverSession S W Json} `{!DriverFactory F S W Json}.
Abbreviation Manager := (DeviceManager S Json F).

(** What an event leaves in the health counters ([pump_event]). *)
Definition pump_health (m : Manager) (session_id : str) (now : Z) (event : PollEvent.t)
    (sequences : SequenceAllocator) (h : HealthState) : HealthState :=
  let ctx := {| mc_collector_session_id := session_id; mc_ingest_timestamp_ns := now |} in
  match event with
  | PollEvent.Batch batch =>
      match get m (pb_device_id batch) with
      | None => h
      | Some i =>
          let h := record_device_batch (pb_device_id batch) now h in
          match (map_results i (pb_results batch) ctx sequences).2 with
          | Ok _ => record_device_error (pb_device_id batch) None h
          | _ => record_device_error (pb_device_id batch) (Some "map_failed"%string) h
          end
      end
  | PollEvent.Failed device_id _ _ error =>
      match get m device_id with
      | None => h
      | Some _ => record_device_error device_id (Some (whitelist_driver_code (dei_code error))) h
      end
  end.

(** [ingest_all]: stops when the pipeline is closed. *)
Fixpoint ingest_all {P : Type} (ingest : Observation → P → P * (PipelineError.t + ()))
    (observations : list Observation) (p : P) : P :=
  match observations with
  | [] => p
  | obs :: observations =>
      match ingest obs p with
      | (p, inl PipelineError.Closed) => p
      | (p, _) => ingest_all ingest observations p
      end
  end.

(** [run_pump]: the events with the time at which each is handled. *)
Fixpoint run_pump {P : Type} (ingest : Observation → P → P * (PipelineError.t + ())) (m : Manager)
    (session_id : str) (events : list (Z * PollEvent.t)) (sequences : SequenceAllocator) (h : HealthState) (p : P) :
    HealthState * P :=
  match events with
  | [] => (h, p)
  | (now, event) :: events =>
      let '(sequences', observations) := pump_event m session_id now event sequences in
      run_pump ingest m session_id events sequences' (pump_health m session_id now event sequences h)
        (ingest_all ingest observations p)
  end.

(** The codes the health view may show for a device. *)
Definition PUBLIC_CODES : list string := "driver_error"%string :: "map_failed"%string :: DRIVER_CODE_WHITELIST.

Definition public_errors (h : HealthState) : Prop :=
  map_Forall (λ _ code, ∀ c, code = Some c → c ∈ PUBLIC_CODES) (hs_device_error h).

Lemma whitelist_public code : whitelist_driver_code code ∈ PUBLIC_CODES.
Proof. unfold whitelist_driver_code, PUBLIC_CODES. case_bool_decide; set_solver. Qed.

Lemma record_error_public device_id code h :
  (∀ c, code = Some c → c ∈ PUBLIC_CODES) → public_errors h → public_errors (record_device_error device_id code h).
Proof. intros Hc Hh. by apply map_Forall_insert_2. Qed.

Lemma pump_health_public m session now event sequences h :
  public_errors h → public_errors (pump_health m session now event sequences h).
Proof.
  intros Hh. unfold pump_health. destruct event as [b|d interval items error]; (destruct (get m _); [|done]).
  - assert (public_errors (record_device_batch (pb_device_id b) now h)) as Hb by exact Hh.
    destruct (map_results _ _ _ _) as [? [| |]]; cbn [snd]; apply record_error_public; try done;
      intros c [= <-]; set_solver.
  - apply record_error_public; [|done]. intros c [= <-]. apply whitelist_public.
Qed.

(** Whatever texts drivers return as error codes and whatever events are
    delivered, the health view shows only codes of the fixed set. *)
Theorem health_codes_public {P} (ingest : Observation → P → P * (PipelineError.t + ())) m session events sequences p devices :
  Forall (λ d, ∀ c, dh_last_error d = Some c → c ∈ PUBLIC_CODES)
    (ch_devices (snapshot devices (run_pump ingest m session events sequences health_default p).1)).
Proof.
  assert (∀ h, public_errors h → public_errors (run_pump ingest m session events sequences h p).1) as Hrun.
  { revert sequences p. induction events as [|[now event] events IH]; intros sequences p h Hh; cbn [run_pump]; [done|].
    destruct (pump_event _ _ _ _ _) as [sequences' os]. by apply IH, pump_health_public. }
  specialize (Hrun health_default (map_Forall_empty _)). unfold snapshot. cbn [ch_devices].
  apply Forall_fmap, Forall_true. intros [[[id enabled] items] groups] c. cbn.
  destruct (_ !! id) as [code|] eqn:Ec; [|done]. cbn. intros ->. by eapply Hrun.
Qed.
End pump.

(** ** Errors *)
Module CollectorError.
Inductive t : Type :=
| Buffer (e : LocalBufferError.t)
| Mqtt (e : MqttClientError.t)
| Task.
End CollectorError.

(** ** What the forwarding loop calls

    Answers that are a Rust [Result] are sums with the error on the left. *)
Inductive AckRace : Type :=
| StopSignal                                    (* stopping_rx.changed() *)
| DrainDeadline
| Answered (r : MqttClientError.t + ()).

Inductive Ready : Type :=
| Changed
| Received (batch : option ObservationBatch)
| Next (r : LocalBufferError.t + option StoredBatch).

Inductive IdleReady : Type :=
| Elapsed
| IdleChanged
| IdleReceived (batch : option ObservationBatch).

Class Collaborators (Env Receipt : Type) : Type := {
  stop_requested : Env → Env * bool;                              (* *stopping_rx.borrow() *)
  instant : Env → Env * Z;
  now_ns : Env → Env * Z;
  recv : Env → Env * option ObservationBatch;                     (* out_rx.recv() *)
  push : Z → ObservationBatch → Env → Env * option (LocalBufferError.t + ()); (* within the limit *)
  next : Env → Env * (LocalBufferError.t + option StoredBatch);
  ack : Z → Env → Env * (LocalBufferError.t + ());
  requeue : Z → Env → Env * (LocalBufferError.t + ());
  publish_batch : ObservationBatch → Env → Env * (MqttClientError.t + Receipt);
  acked : Receipt → Env → Env * option (MqttClientError.t + ());  (* None: the stop signal was first *)
  acked_until : Z → Receipt → Env → Env * AckRace;
  select : Env → Env * Ready;
  select_idle : Z → Env → Env * IdleReady;
  sleep : Z → Env → Env * ();
  try_send_lost : ObservationBatch → Env → Env * bool;
}.

Section forward.
Context {Env Receipt : Type} `{!Collaborators Env Receipt}.

Inductive Event : Type :=
| EReceived (batch : ObservationBatch)
| EPushed (batch : ObservationBatch) (r : option (LocalBufferError.t + ()))
| ESettled (batch : ObservationBatch) (queued : bool)
| ETaken (stored : StoredBatch)
| EPublished (batch : ObservationBatch) (r : MqttClientError.t + Receipt)
| EAwaited (receipt : Receipt) (r : AckRace)
| EAcked (local_seq : Z) (r : LocalBufferError.t + ())
| ERequeued (local_seq : Z) (r : LocalBufferError.t + ()).

Record ForwardWorld : Type := mkForwardWorld {
  fw_env : Env;
  fw_health : HealthState;
  fw_log : list Event;
}.

Abbreviation task := (stm ForwardWorld CollectorError.t).

(** A call, and the entries it leaves. *)
Definition call {A} (op : Env → Env * A) (entries : A → list Event) : task A := λ w,
  let '(env, a) := op (fw_env w) in
  (mkForwardWorld env (fw_health w) (fw_log w ++ entries a), Ok a).

Definition silent {A} (op : Env → Env * A) : task A := call op (λ _, []).

Definition on_health (f : HealthState → HealthState) : task () :=
  smodify (λ w, mkForwardWorld (fw_env w) (f (fw_health w)) (fw_log w)).

(** ** Storing a batch *)
Inductive PushResult : Type :=
| Stored
| Fatal (e : CollectorError.t)
| Overflow (batch : ObservationBatch).

Definition is_transient_push_error (e : LocalBufferError.t) : bool :=
  match e with LocalBufferError.Db => true | _ => false end.

Definition settle_lost (batch : ObservationBatch) : task () :=
  let! _ := call (try_send_lost batch) (λ queued, [ESettled batch queued]) in
  sret ().

Definition try_push (batch : ObservationBatch) : task (option (LocalBufferError.t + ())) :=
  call (push PUSH_CAPACITY_WAIT batch) (λ r, [EPushed batch r]).

Fixpoint push_loop (transient_left : nat) (pending : ObservationBatch) : task PushResult :=
  let! r := try_push pending in
  match r with
  | Some (inr _) => sret Stored
  | Some (inl e) =>
      let fatal :=
        let err := CollectorError.Buffer e in
        let! _ := settle_lost pending in
        sret (Fatal err) in
      match is_transient_push_error e, transient_left with
      | true, S remaining =>
          let! _ := silent (sleep PUBLISH_FAIL_BACKOFF) in
          push_loop remaining pending
      | _, _ => fatal
      end
  | None => sret (Overflow pending)
  end.

Definition push_batch (batch : ObservationBatch) : task PushResult :=
  push_loop PUSH_TRANSIENT_RETRIES batch.

(** ** Publishing a stored batch *)
Inductive PublishOutcome : Type := Continue | StopTaking.

(** [buffer.ack(..).await?] and [buffer.requeue(..).await?]. *)
Definition or_buffer_error {A} (m : task (LocalBufferError.t + A)) : task A :=
  let! r := m in
  match r with
  | inl e => sfail (CollectorError.Buffer e)
  | inr a => sret a
  end.

Definition refused (stored : StoredBatch) (at_ns : Z) (e : MqttClientError.t) : task () :=
  let! _ := or_buffer_error (call (requeue (sb_local_seq stored)) (λ r, [ERequeued (sb_local_seq stored) r])) in
  let! _ := on_health (record_failed at_ns (MqttClientError.code e)) in
  let! _ := silent (sleep PUBLISH_FAIL_BACKOFF) in
  sfail (CollectorError.Mqtt e).

Definition await_ack (receipt : Receipt) (drain_deadline : option Z) : task AckRace :=
  match drain_deadline with
  | Some deadline => call (acked_until deadline receipt) (λ r, [EAwaited receipt r])
  | None =>
      call (λ env, let '(env, r) := acked receipt env in
                   (env, match r with Some r => Answered r | None => StopSignal end))
        (λ r, [EAwaited receipt r])
  end.

Definition forward_batch (stored : StoredBatch) (drain_deadline : option Z) : task () :=
  let! at_ns := silent now_ns in
  let! published := call (publish_batch (sb_batch stored)) (λ r, [EPublished (sb_batch stored) r]) in
  match published with
  | inr receipt =>
      let! race := await_ack receipt drain_deadline in
      match race with
      | StopSignal =>
          let! _ := on_health (record_failed at_ns (lit "shutdown_interrupted_publish")) in
          sfail CollectorError.Task
      | DrainDeadline =>
          let! _ := on_health (record_failed at_ns (lit "drain_puback_timeout")) in
          sfail CollectorError.Task
      | Answered (inr _) =>
          let! _ := or_buffer_error
            (call (ack (sb_local_seq stored)) (λ r, [EAcked (sb_local_seq stored) r])) in
          on_health (record_acked at_ns)
      | Answered (inl e) => refused stored at_ns e
      end
  | inl e => refused stored at_ns e
  end.

(** A task whose failure is a value. *)
Definition attempt {A} (m : task A) : task (A + CollectorError.t) := λ w,
  match m w with
  | (w', Ok a) => (w', Ok (inl a))
  | (w', Err e) => (w', Ok (inr e))
  | (w', Panic) => (w', Panic)
  end.

Definition publish_stored (stored : StoredBatch) (drain_deadline : option Z) : task PublishOutcome :=
  let! _ := on_health record_inflight in
  let! _ := (if ob_replayed (sb_batch stored) then on_health record_replayed else sret ()) in
  let! r := attempt (forward_batch stored drain_deadline) in
  match r with
  | inl _ => sret Continue
  | inr CollectorError.Task => sret StopTaking
  | inr _ => sret Continue
  end.

(** ** The loop ([run_forward]) *)
Record Fwd : Type := mkFwd {
  fd_draining : bool;
  fd_out_closed : bool;
  fd_drain_deadline : option Z;
  fd_publish_suspended : bool;
  fd_pending_retry : option ObservationBatch;
}.

Definition fwd_new : Fwd := mkFwd false false None false None.

Definition set_out_closed (s : Fwd) : Fwd :=
  mkFwd (fd_draining s) true (fd_drain_deadline s) (fd_publish_suspended s) (fd_pending_retry s).
Definition set_suspended (s : Fwd) : Fwd :=
  mkFwd (fd_draining s) (fd_out_closed s) (fd_drain_deadline s) true (fd_pending_retry s).
Definition set_pending (p : option ObservationBatch) (s : Fwd) : Fwd :=
  mkFwd (fd_draining s) (fd_out_closed s) (fd_drain_deadline s) (fd_publish_suspended s) p.

(** One iteration: what the next one starts with, or [break]. *)
Inductive Turn : Type := Again (s : Fwd) | Break (s : Fwd).

Definition after_publish (o : PublishOutcome) (s : Fwd) : Fwd :=
  match o with StopTaking => set_suspended s | Continue => s end.

Definition taken (r : LocalBufferError.t + option StoredBatch) : list Event :=
  match r with inr (Some stored) => [ETaken stored] | _ => [] end.

Definition received (batch : option ObservationBatch) : list Event :=
  match batch with Some batch => [EReceived batch] | None => [] end.

Definition store_received (batch : ObservationBatch) (s : Fwd) : task Turn :=
  let! r := push_batch batch in
  match r with
  | Stored => sret (Again s)
  | Fatal e => sfail e
  | Overflow b => sret (Again (set_pending (Some b) s))
  end.

(** The two tests at the top of the loop; [None] is the [break] at the
    deadline. *)
Definition check_drain (drain_timeout : Z) (s : Fwd) : task (option Fwd) :=
  let! stop := (if fd_draining s then sret false else silent stop_requested) in
  let! s := (if stop then
               let! now := silent instant in
               sret (mkFwd true (fd_out_closed s) (Some (now + drain_timeout)) (fd_publish_suspended s)
                       (fd_pending_retry s))
             else sret s) in
  match fd_draining s, fd_drain_deadline s with
  | true, Some deadline =>
      let! now := silent instant in
      sret (if deadline <=? now then None else Some s)
  | _, _ => sret (Some s)
  end.

Definition turn_pending (batch : ObservationBatch) (s : Fwd) : task Turn :=
  let! r := try_push batch in
  match r with
  | Some (inl e) =>
      let err := CollectorError.Buffer e in
      let! _ := settle_lost batch in
      sfail err
  | Some (inr _) => sret (Again (set_pending None s))
  | None =>
      if fd_publish_suspended s then sret (Again s)
      else
        let! r := call next taken in
        match r with
        | inr (Some stored) =>
            let! outcome := publish_stored stored (fd_drain_deadline s) in
            sret (Again (after_publish outcome s))
        | inr None | inl _ => sret (Again s)
        end
  end.

Definition turn_suspended (s : Fwd) : task Turn :=
  let! batch := call recv received in
  match batch with
  | Some batch => store_received batch s
  | None => sret (Break s)
  end.

Definition turn_closed (idle_poll : Z) (s : Fwd) : task Turn :=
  let! r := call next taken in
  match r with
  | inr (Some stored) =>
      let! outcome := publish_stored stored (fd_drain_deadline s) in
      match outcome with
      | StopTaking => sret (Break s)
      | Continue => sret (Again s)
      end
  | inr None =>
      if fd_draining s then sret (Break s)
      else
        let! _ := silent (sleep idle_poll) in
        sret (Again s)
  | inl _ =>
      let! _ := silent (sleep (10 * NS_PER_MS)) in
      sret (Again s)
  end.

Definition turn_open (idle_poll : Z) (s : Fwd) : task Turn :=
  let! ready := call select (λ r, match r with
                                  | Changed => []
                                  | Received batch => received batch
                                  | Next r => taken r
                                  end) in
  match ready with
  | Changed => sret (Again s)
  | Received (Some batch) => store_received batch s
  | Received None => sret (Again (set_out_closed s))
  | Next (inr (Some stored)) =>
      let! outcome := publish_stored stored (fd_drain_deadline s) in
      sret (Again (after_publish outcome s))
  | Next (inr None) =>
      if fd_draining s && fd_out_closed s then sret (Break s)
      else if fd_draining s then
        let! _ := silent (sleep (10 * NS_PER_MS)) in
        sret (Again s)
      else
        let! ready := call (select_idle idle_poll) (λ r, match r with
                                                         | IdleReceived batch => received batch
                                                         | _ => []
                                                         end) in
        match ready with
        | Elapsed | IdleChanged => sret (Again s)
        | IdleReceived (Some batch) => store_received batch s
        | IdleReceived None => sret (Again (set_out_closed s))
        end
  | Next (inl _) =>
      let! _ := silent (sleep (10 * NS_PER_MS)) in
      sret (Again s)
  end.

Definition turn (idle_poll drain_timeout : Z) (s : Fwd) : task Turn :=
  let! checked := check_drain drain_timeout s in
  match checked with
  | None => sret (Break s)
  | Some s =>
      match fd_pending_retry s with
      | Some batch => turn_pending batch s
      | None =>
          if fd_publish_suspended s then turn_suspended s
          else if fd_out_closed s then turn_closed idle_poll s
          else turn_open idle_poll s
      end
  end.

(** [Some s]: the fuel ended before the loop did. *)
Fixpoint forward_loop (fuel : nat) (idle_poll drain_timeout : Z) (s : Fwd) : task (option Fwd) :=
  match fuel with
  | O => sret (Some s)
  | S fuel =>
      let! t := turn idle_poll drain_timeout s in
      match t with
      | Again s => forward_loop fuel idle_poll drain_timeout s
      | Break s =>
          let! _ := match fd_pending_retry s with Some batch => settle_lost batch | None => sret () end in
          sret None
      end
  end.

Definition run_forward (fuel : nat) (idle_poll drain_timeout : Z) : task (option Fwd) :=
  forward_loop fuel idle_poll drain_timeout fwd_new.

(** ** What the record says *)
Definition inflow (l : list Event) : list ObservationBatch :=
  omap (λ e, match e with EReceived b => Some b | _ => None end) l.
Definition stored (l : list Event) : list ObservationBatch :=
  omap (λ e, match e with EPushed b (Some (inr _)) => Some b | _ => None end) l.
Definition settled (l : list Event) : list ObservationBatch :=
  omap (λ e, match e with ESettled b _ => Some b | _ => None end) l.

Definition count (f : Event → bool) (l : list Event) : Z :=
  foldr (λ e n, (if f e then 1 else 0) + n) 0 l.
Definition is_acked (e : Event) : bool := match e with EAcked _ (inr _) => true | _ => false end.
(** A publication that ended without a confirmation. *)
Definition is_failed (e : Event) : bool :=
  match e with
  | EAwaited _ StopSignal | EAwaited _ DrainDeadline | ERequeued _ (inr _) => true
  | _ => false
  end.
(** An answer of the buffer that [?] turns into an early return. *)
Definition is_unsettled (e : Event) : bool :=
  match e with EAcked _ (inl _) | ERequeued _ (inl _) => true | _ => false end.

Definition passive (e : Event) : Prop :=
  match e with EReceived _ | EPushed _ _ | ESettled _ _ => True | _ => False end.

(** What the publication of a taken record may leave. *)
Inductive publication (s : StoredBatch) : list Event → PublishOutcome → Prop :=
| pub_refused e r : publication s [EPublished (sb_batch s) (inl e); ERequeued (sb_local_seq s) r] Continue
| pub_failed rc e r :
    publication s [EPublished (sb_batch s) (inr rc); EAwaited rc (Answered (inl e));
                   ERequeued (sb_local_seq s) r] Continue
| pub_confirmed rc r :
    publication s [EPublished (sb_batch s) (inr rc); EAwaited rc (Answered (inr ()));
                   EAcked (sb_local_seq s) r] Continue
| pub_interrupted rc race :
    race = StopSignal ∨ race = DrainDeadline →
    publication s [EPublished (sb_batch s) (inr rc); EAwaited rc race] StopTaking.

(** Records are taken one at a time, while [taking]. *)
Inductive tracks : bool → list Event → bool → Prop :=
| tracks_nil taking : tracks taking [] taking
| tracks_passive taking e l taking' :
    passive e → tracks taking l taking' → tracks taking (e :: l) taking'
| tracks_taken s l o l' taking' :
    publication s l o → tracks (match o with Continue => true | StopTaking => false end) l' taking' →
    tracks true (ETaken s :: l ++ l') taking'.

Lemma tracks_app a l b l' c : tracks a l b → tracks b l' c → tracks a (l ++ l') c.
Proof.
  intros Hl Hl'. induction Hl as [|? ? ? ? ? _ IH|s l1 o l2 b Hp _ IH]; [done|..].
  - constructor; [done|by apply IH].
  - cbn. rewrite <- app_assoc. econstructor; [exact Hp|by apply IH].
Qed.

Lemma tracks_passives taking l : Forall passive l → tracks taking l taking.
Proof. induction 1; by constructor. Qed.

Lemma count_cons f e l : count f (e :: l) = (if f e then 1 else 0) + count f l.
Proof. done. Qed.

Lemma count_app f l l' : count f (l ++ l') = count f l + count f l'.
Proof. induction l as [|e l IH]; [done|]. rewrite <- app_comm_cons, !count_cons, IH. lia. Qed.

Lemma count_nonneg f l : 0 ≤ count f l.
Proof. induction l as [|e l IH]; [done|]. rewrite count_cons. destruct (f e); lia. Qed.

Lemma count_passive f l :
  (∀ e, passive e → f e = false) → Forall passive l → count f l = 0.
Proof. intros Hf. induction 1 as [|e l He _ IH]; [done|]. by rewrite count_cons, (Hf e He), IH. Qed.

(** ** Effects: what a computation appends to the record, and the health after it *)
Section effects.
Context {A B : Type}.

Definition effect (m : task A) (h : HealthState) (Q : list Event → HealthState → A → Prop)
    (R : list Event → HealthState → CollectorError.t → Prop) : Prop :=
  ∀ w, fw_health w = h →
  wp m (λ w' a, ∃ l, fw_log w' = fw_log w ++ l ∧ Q l (fw_health w') a)
       (λ w' e, ∃ l, fw_log w' = fw_log w ++ l ∧ R l (fw_health w') e) w.
End effects.

Lemma effect_bind {A B} (m : task A) (k : A → task B) h Q0 R0 Q R :
  effect m h Q0 R0 → (∀ l h' e, R0 l h' e → R l h' e) →
  (∀ l h' a, Q0 l h' a → effect (k a) h' (λ l', Q (l ++ l')) (λ l', R (l ++ l'))) →
  effect (sbind m k) h Q R.
Proof.
  intros Hm HR Hk w Hw. apply wp_bind. eapply wp_mono; [by apply Hm| |].
  - intros w1 a (l & Hl & Ha). eapply wp_mono; [by apply (Hk _ _ _ Ha w1)|..].
    + intros w2 b (l' & Hl' & Hb). exists (l ++ l'). rewrite Hl', Hl. by rewrite app_assoc.
    + intros w2 e (l' & Hl' & Hb). exists (l ++ l'). rewrite Hl', Hl. by rewrite app_assoc.
  - intros w1 e (l & Hl & He). exists l. split; [done|by apply HR].
Qed.

Lemma effect_mono {A} (m : task A) h (Q Q' : list Event → HealthState → A → Prop)
    (R R' : list Event → HealthState → CollectorError.t → Prop) :
  effect m h Q R → (∀ l h' a, Q l h' a → Q' l h' a) → (∀ l h' e, R l h' e → R' l h' e) → effect m h Q' R'.
Proof.
  intros Hm HQ HR w Hw. eapply wp_mono; [by apply Hm|..]; intros w' x (l & ? & ?); exists l; eauto.
Qed.

Lemma effect_ret {A} (a : A) h (Q : list Event → HealthState → A → Prop) R : Q [] h a → effect (sret a) h Q R.
Proof. intros HQ w <-. exists []. by rewrite app_nil_r. Qed.

Lemma effect_fail {A} e h (Q : list Event → HealthState → A → Prop) R : R [] h e → effect (sfail e) h Q R.
Proof. intros HR w <-. exists []. by rewrite app_nil_r. Qed.

Lemma effect_call {A B} (op : Env → Env * A) entries (k : A → task B) h Q R :
  (∀ a, effect (k a) h (λ l', Q (entries a ++ l')) (λ l', R (entries a ++ l'))) →
  effect (sbind (call op entries) k) h Q R.
Proof.
  intros Hk. eapply (effect_bind _ _ _ (λ l h' a, l = entries a ∧ h' = h) (λ _ _ _, False)); [|done|].
  - intros w Hw. unfold wp, call. destruct (op _) as [env a]. by exists (entries a).
  - intros l h' a [-> ->]. apply Hk.
Qed.

Lemma effect_silent {A B} (op : Env → Env * A) (k : A → task B) h Q R :
  (∀ a, effect (k a) h Q R) → effect (sbind (silent op) k) h Q R.
Proof. intros Hk. apply effect_call. intros a. apply Hk. Qed.

Lemma effect_on_health {B} f (k : () → task B) h Q R :
  effect (k ()) (f h) Q R → effect (sbind (on_health f) k) h Q R.
Proof.
  intros Hk. eapply (effect_bind _ _ _ (λ l h' _, l = [] ∧ h' = f h) (λ _ _ _, False)); [|done|].
  - intros w <-. exists []. by rewrite app_nil_r.
  - by intros l h' [] [-> ->].
Qed.

Lemma effect_try_push {B} batch (k : _ → task B) h Q R :
  (∀ r, effect (k r) h (λ l', Q (EPushed batch r :: l')) (λ l', R (EPushed batch r :: l'))) →
  effect (sbind (try_push batch) k) h Q R.
Proof. intros Hk. apply effect_call. intros r. apply Hk. Qed.

Lemma effect_settle {B} batch (k : _ → task B) h Q R :
  (∀ queued, effect (k ()) h (λ l', Q (ESettled batch queued :: l')) (λ l', R (ESettled batch queued :: l'))) →
  effect (sbind (settle_lost batch) k) h Q R.
Proof.
  intros Hk. eapply (effect_bind _ _ _ (λ l h' _, ∃ queued, l = [ESettled batch queued] ∧ h' = h) (λ _ _ _, False)); [|done|].
  - apply effect_call. intros queued. apply effect_ret. by exists queued.
  - intros l h' [] (queued & -> & ->). apply Hk.
Qed.

Lemma effect_attempt {A} (m : task A) h Q R :
  effect m h Q R →
  effect (attempt m) h (λ l h' r, match r with inl a => Q l h' a | inr e => R l h' e end) (λ _ _ _, False).
Proof.
  intros Hm w Hw. specialize (Hm w Hw). unfold attempt, wp in *.
  destruct (m w) as [w' [a|e|]]; naive_solver.
Qed.

Lemma effect_or_buffer {A B} (op : Env → Env * (LocalBufferError.t + A)) entries (k : A → task B) h Q R :
  (∀ e, R (entries (inl e)) h (CollectorError.Buffer e)) →
  (∀ a, effect (k a) h (λ l', Q (entries (inr a) ++ l')) (λ l', R (entries (inr a) ++ l'))) →
  effect (sbind (or_buffer_error (call op entries)) k) h Q R.
Proof.
  intros HR Hk.
  eapply (effect_bind _ _ _ (λ l h' a, l = entries (inr a) ∧ h' = h)
    (λ l h' e, ∃ e', e = CollectorError.Buffer e' ∧ l = entries (inl e') ∧ h' = h)).
  - apply effect_call. intros [e|a].
    + apply effect_fail. exists e. by rewrite app_nil_r.
    + apply effect_ret. by rewrite app_nil_r.
  - intros l h' e (e' & -> & -> & ->). apply HR.
  - intros l h' a [-> ->]. apply Hk.
Qed.

(** ** Storing *)
Definition pushed (batch : ObservationBatch) (r : PushResult) (l : list Event) : Prop :=
  Forall passive l ∧ inflow l = [] ∧
  match r with
  | Stored => stored l = [batch] ∧ settled l = []
  | Fatal _ => stored l = [] ∧ settled l = [batch]
  | Overflow b => b = batch ∧ stored l = [] ∧ settled l = []
  end.

Lemma push_loop_effect n batch h :
  effect (push_loop n batch) h (λ l h' r, h' = h ∧ pushed batch r l) (λ _ _ _, False).
Proof.
  assert (∀ e, effect (sbind (settle_lost batch) (λ _, sret (Fatal (CollectorError.Buffer e)))) h
    (λ l h' r, h' = h ∧ pushed batch r (EPushed batch (Some (inl e)) :: l)) (λ _ _ _, False)) as Hfatal.
  { intros e. apply effect_settle. intros queued. apply effect_ret. repeat split; by repeat constructor. }
  induction n as [|n IH]; cbn [push_loop]; apply effect_try_push;
    (intros [[e|[]]|]; [|apply effect_ret; repeat split; by repeat constructor..]).
  - case_match; apply Hfatal.
  - destruct (is_transient_push_error e); [|apply Hfatal]. apply effect_silent. intros _.
    eapply effect_mono; [exact IH| |done]. cbn beta. intros l h' r [-> (Hp & Hi & Hr)].
    split; [done|]. split; [by constructor|done].
Qed.

(** ** Publishing *)
Definition counters (h : HealthState) (acked failed inflight : Z) : Prop :=
  hs_mqtt_acked h = wrap 64 acked ∧ hs_mqtt_failed h = wrap 64 failed ∧ hs_inflight h = wrap 64 inflight.

(** The counters follow the record, from [inflight + k] publications under way. *)
Definition follows (k : Z) (h : HealthState) (l : list Event) (h' : HealthState) : Prop :=
  ∀ a f i, counters h a f (i + k) →
  counters h' (a + count is_acked l) (f + count is_failed l) (i + count is_unsettled l).

Lemma wrap_succ x : wrap 64 (wrap 64 x + 1) = wrap 64 (x + 1).
Proof. apply Zplus_mod_idemp_l. Qed.

Lemma wrap_pred x : wrap 64 (wrap 64 x - 1) = wrap 64 (x - 1).
Proof. apply Zminus_mod_idemp_l. Qed.

Ltac follow :=
  let Ha := fresh in let Hf := fresh in let Hi := fresh in
  intros ? ? ? (Ha & Hf & Hi); unfold counters; cbn; rewrite ?Ha, ?Hf, ?Hi, ?wrap_succ, ?wrap_pred;
  repeat split; f_equal; lia.

Definition outcome_of (e : CollectorError.t) : PublishOutcome :=
  match e with CollectorError.Task => StopTaking | _ => Continue end.

Lemma refused_effect s at_ns e pre h :
  count is_acked pre = 0 → count is_failed pre = 0 → count is_unsettled pre = 0 →
  (∀ r, publication s (pre ++ [ERequeued (sb_local_seq s) r]) Continue) →
  effect (refused s at_ns e) h (λ _ _ _, False)
    (λ l h' e', publication s (pre ++ l) (outcome_of e') ∧ follows 1 h (pre ++ l) h').
Proof.
  intros Ha Hf Hu Hpub. apply effect_or_buffer.
  - intros e'. split; [apply Hpub|]. unfold follows. rewrite !count_app, Ha, Hf, Hu. follow.
  - intros []. apply effect_on_health, effect_silent. intros _. apply effect_fail. rewrite app_nil_r.
    split; [apply Hpub|]. unfold follows. rewrite !count_app, Ha, Hf, Hu. follow.
Qed.

Lemma await_effect {B} receipt deadline (k : AckRace → task B) h Q R :
  (∀ race, effect (k race) h (λ l', Q (EAwaited receipt race :: l')) (λ l', R (EAwaited receipt race :: l'))) →
  effect (sbind (await_ack receipt deadline) k) h Q R.
Proof. intros Hk. unfold await_ack. destruct deadline; apply effect_call; intros r; apply Hk. Qed.

Lemma forward_batch_effect s deadline h :
  effect (forward_batch s deadline) h
    (λ l h' _, publication s l Continue ∧ follows 1 h l h')
    (λ l h' e, publication s l (outcome_of e) ∧ follows 1 h l h').
Proof.
  unfold forward_batch. apply effect_silent. intros at_ns. apply effect_call. intros [e|rc].
  { eapply effect_mono; [apply (refused_effect s at_ns e [EPublished (sb_batch s) (inl e)])|done|done]; try done.
    intros r. apply pub_refused. }
  apply await_effect. intros [| |[e|[]]].
  - apply effect_on_health, effect_fail. split; [apply pub_interrupted; by left|follow].
  - apply effect_on_health, effect_fail. split; [apply pub_interrupted; by right|follow].
  - eapply effect_mono;
      [apply (refused_effect s at_ns e [EPublished (sb_batch s) (inr rc); EAwaited rc (Answered (inl e))])|done|done];
      try done. intros r. apply pub_failed.
  - apply effect_or_buffer.
    + intros e. split; [apply pub_confirmed|follow].
    + intros []. intros w <-. exists []. rewrite app_nil_r. split; [done|]. split; [apply pub_confirmed|follow].
Qed.

Lemma publish_stored_effect s deadline h :
  effect (publish_stored s deadline) h (λ l h' o, publication s l o ∧ follows 0 h l h') (λ _ _ _, False).
Proof.
  assert (∀ h1, (∀ l h', follows 1 h1 l h' → follows 0 h l h') →
    effect (sbind (attempt (forward_batch s deadline)) (λ r,
      match r with inl _ => sret Continue | inr CollectorError.Task => sret StopTaking | inr _ => sret Continue end)) h1
      (λ l h' o, publication s l o ∧ follows 0 h l h') (λ _ _ _, False)) as Hrest.
  { intros h1 Hh. eapply effect_bind; [apply effect_attempt, forward_batch_effect|done|].
    intros l h' [u|e] [Hp Hf]; [|destruct e]; apply effect_ret; rewrite app_nil_r; auto. }
  unfold publish_stored. apply effect_on_health.
  assert (∀ l h', follows 1 (record_inflight h) l h' → follows 0 h l h') as Hin.
  { intros l h' Hf a f i (Ha & Hfa & Hi). apply Hf. unfold counters. cbn.
    rewrite Hi, wrap_succ. repeat split; [done..|f_equal; lia]. }
  destruct (ob_replayed (sb_batch s)).
  - apply effect_on_health, Hrest. intros l h' Hf. apply Hin. exact Hf.
  - eapply effect_bind; [by apply (effect_ret () _ (λ l h' _, l = [] ∧ h' = record_inflight h) (λ _ _ _, False))|done|].
    intros l h' [] [-> ->]. by apply Hrest.
Qed.

(** ** One iteration *)
Abbreviation held s := (option_list (fd_pending_retry s)).
Abbreviation taking s := (negb (fd_publish_suspended s)).

(** The batches held before and received are those stored, settled and held
    after, in this order. *)
Definition conserves (s : Fwd) (l : list Event) (lost rest : list ObservationBatch) : Prop :=
  settled l = lost ∧ held s ++ inflow l = stored l ++ lost ++ rest.

Definition iterates (s : Fwd) (h : HealthState) (l : list Event) (h' : HealthState) (t : Turn) : Prop :=
  follows 0 h l h' ∧
  match t with
  | Again s' => conserves s l [] (held s') ∧ tracks (taking s) l (taking s')
  | Break s' => conserves s l [] (held s') ∧ ∃ b, tracks (taking s) l b
  end.

Definition dies (s : Fwd) (h : HealthState) (l : list Event) (h' : HealthState) (e : CollectorError.t) : Prop :=
  follows 0 h l h' ∧ (∃ b, conserves s l [b] []) ∧ ∃ b, tracks (taking s) l b.

Lemma follows_passive h l : Forall passive l → follows 0 h l h.
Proof.
  intros Hl a f i Hc. rewrite Z.add_0_r in Hc.
  by rewrite !(count_passive _ l), !Z.add_0_r by (done || by intros []).
Qed.

Lemma follows_trans h l h1 l' h2 : follows 0 h l h1 → follows 0 h1 l' h2 → follows 0 h (l ++ l') h2.
Proof.
  intros H H' a f i Hc%H. rewrite !count_app, !Z.add_assoc. apply H'. by rewrite Z.add_0_r.
Qed.

Lemma publication_projections s l o :
  publication s l o → inflow l = [] ∧ stored l = [] ∧ settled l = [].
Proof. by destruct 1. Qed.

Lemma inflow_app l l' : inflow (l ++ l') = inflow l ++ inflow l'.
Proof. apply omap_app. Qed.
Lemma stored_app l l' : stored (l ++ l') = stored l ++ stored l'.
Proof. apply omap_app. Qed.
Lemma settled_app l l' : settled (l ++ l') = settled l ++ settled l'.
Proof. apply omap_app. Qed.

Lemma conserves_received s batch l lost rest :
  held s = [] → inflow l = [] → settled l = lost → stored l ++ lost ++ rest = [batch] →
  conserves s (EReceived batch :: l) lost rest.
Proof.
  intros Hh Hi Hl Hr. change (EReceived batch :: l) with ([EReceived batch] ++ l).
  split; [by rewrite settled_app, Hl|]. by rewrite inflow_app, stored_app, Hi, Hh, <- app_assoc, Hr.
Qed.

Lemma store_received_effect batch s h :
  held s = [] →
  effect (store_received batch s) h
    (λ l h' t, iterates s h (EReceived batch :: l) h' t)
    (λ l h' e, dies s h (EReceived batch :: l) h' e).
Proof.
  intros Hh. eapply effect_bind; [apply push_loop_effect|done|]. intros l h' r [-> (Hp & Hi & Hr)].
  assert (Forall passive (EReceived batch :: l)) as Hpass by by constructor.
  pose proof (follows_passive h _ Hpass). pose proof (tracks_passives (taking s) _ Hpass).
  destruct r as [|e|b].
  - apply effect_ret. rewrite app_nil_r. destruct Hr as [Hs Hse]. split; [done|]. split; [|done].
    apply conserves_received; [done..|]. by rewrite Hs, Hh.
  - apply effect_fail. rewrite app_nil_r. destruct Hr as [Hs Hse]. split; [done|]. split; [|by eexists].
    exists batch. apply conserves_received; [done..|]. by rewrite Hs.
  - apply effect_ret. rewrite app_nil_r. destruct Hr as (-> & Hs & Hse). split; [done|]. split; [|done].
    apply conserves_received; [done..|]. by rewrite Hs.
Qed.

(** The publication of a taken record, whatever was left before it. *)
Lemma publish_iterates {B} s0 s h pre stored_batch (k : PublishOutcome → task B) Q R :
  fd_publish_suspended s0 = false → Forall passive pre → settled pre = [] →
  held s0 ++ inflow pre = stored pre ++ held s →
  (∀ l h' o, follows 0 h (pre ++ ETaken stored_batch :: l) h' →
     conserves s0 (pre ++ ETaken stored_batch :: l) [] (held s) →
     tracks true (pre ++ ETaken stored_batch :: l) (match o with Continue => true | StopTaking => false end) →
     effect (k o) h' (λ l', Q (l ++ l')) (λ l', R (l ++ l'))) →
  effect (sbind (publish_stored stored_batch (fd_drain_deadline s)) k) h Q R.
Proof.
  intros Hs Hpre Hse Hin Hk. eapply effect_bind; [apply publish_stored_effect|done|].
  intros l h' o [Hpub Hf]. destruct (publication_projections _ _ _ Hpub) as (Hi & Hst & Hl).
  apply Hk.
  - apply (follows_trans h pre h); [by apply follows_passive|]. exact Hf.
  - change (ETaken stored_batch :: l) with ([ETaken stored_batch] ++ l). unfold conserves.
    rewrite !inflow_app, !stored_app, !settled_app, Hi, Hst, Hl, Hse. split; [done|].
    change (inflow [ETaken stored_batch]) with (@nil ObservationBatch).
    change (stored [ETaken stored_batch]) with (@nil ObservationBatch).
    by rewrite !app_nil_r.
  - eapply tracks_app; [by apply tracks_passives|]. rewrite <- (app_nil_r l). econstructor; [done|constructor].
Qed.

Lemma turn_pending_effect batch s h :
  fd_pending_retry s = Some batch → effect (turn_pending batch s) h (iterates s h) (dies s h).
Proof.
  intros Hh. apply effect_try_push. intros [[e|[]]|].
  - apply effect_settle. intros queued. apply effect_fail.
    assert (Forall passive [EPushed batch (Some (inl e)); ESettled batch queued]) as Hp by by repeat constructor.
    split; [by apply follows_passive|]. split; [|eexists; by apply tracks_passives].
    exists batch. unfold conserves. by rewrite Hh.
  - apply effect_ret. assert (Forall passive [EPushed batch (Some (inr ()))]) as Hp by by repeat constructor.
    split; [by apply follows_passive|]. split; [unfold conserves; by rewrite Hh|by apply tracks_passives].
  - assert (Forall passive [EPushed batch None]) as Hp by by repeat constructor.
    destruct (fd_publish_suspended s) eqn:Es.
    { apply effect_ret. split; [by apply follows_passive|]. split; [|by apply tracks_passives].
      unfold conserves. cbn. by rewrite app_nil_r. }
    assert (effect (sret (Again s)) h (λ l', iterates s h ([EPushed batch None] ++ l'))
      (λ l', dies s h ([EPushed batch None] ++ l'))) as Hidle.
    { apply effect_ret. split; [by apply follows_passive|]. split; [|by apply tracks_passives].
      unfold conserves. cbn. by rewrite app_nil_r. }
    apply effect_call. intros [e|[stored_batch|]]; [exact Hidle| |exact Hidle].
    apply (publish_iterates s s h [EPushed batch None]); [done..|cbn; by rewrite app_nil_r|].
    intros l h' o Hf Hc Ht. apply effect_ret. rewrite app_nil_r. split; [exact Hf|].
    split; [destruct o; exact Hc|]. rewrite Es. destruct o; cbn [after_publish set_suspended]; [by rewrite Es|exact Ht].
Qed.

Lemma idle_iterates s h t : t = Again s ∨ t = Break s → iterates s h [] h t.
Proof.
  intros Ht. split; [by apply follows_passive|].
  destruct Ht as [-> | ->]; (split; [unfold conserves; cbn; by rewrite app_nil_r|]); [|eexists]; constructor.
Qed.

Lemma turn_suspended_effect s h : held s = [] → effect (turn_suspended s) h (iterates s h) (dies s h).
Proof.
  intros Hh. apply effect_call. intros [batch|].
  - by apply store_received_effect.
  - apply effect_ret, idle_iterates. by right.
Qed.

Lemma turn_closed_effect idle_poll s h :
  fd_publish_suspended s = false → effect (turn_closed idle_poll s) h (iterates s h) (dies s h).
Proof.
  intros Hs. apply effect_call. intros [e|[stored_batch|]].
  - apply effect_silent. intros _. apply effect_ret, idle_iterates. by left.
  - apply (publish_iterates s s h []); [done|done|done|cbn; by rewrite app_nil_r|].
    intros l h' o Hf Hc Ht. destruct o; apply effect_ret; rewrite app_nil_r.
    + split; [exact Hf|]. split; [exact Hc|by rewrite Hs].
    + split; [exact Hf|]. split; [exact Hc|]. rewrite Hs. by eexists.
  - destruct (fd_draining s); [apply effect_ret, idle_iterates; by right|].
    apply effect_silent. intros _. apply effect_ret, idle_iterates. by left.
Qed.

Lemma turn_open_effect idle_poll s h :
  held s = [] → fd_publish_suspended s = false → effect (turn_open idle_poll s) h (iterates s h) (dies s h).
Proof.
  intros Hh Hs. apply effect_call.
  assert (∀ t, t = Again s ∨ t = Break s →
    effect (sret t) h (λ l', iterates s h ([] ++ l')) (λ l', dies s h ([] ++ l'))) as Hidle.
  { intros t Ht. by apply effect_ret, idle_iterates. }
  assert (iterates s h [] h (Again (set_out_closed s))) as Hclosed.
  { pose proof (idle_iterates s h (Again s) ltac:(by left)) as H. exact H. }
  intros [|[batch|]|[e|[stored_batch|]]]; cbn [received taken].
  - apply Hidle. by left.
  - by apply store_received_effect.
  - apply effect_ret, Hclosed.
  - apply effect_silent. intros _. apply Hidle. by left.
  - apply (publish_iterates s s h []); [done|done|done|cbn; by rewrite app_nil_r|].
    intros l h' o Hf Hc Ht. apply effect_ret. rewrite app_nil_r. split; [exact Hf|].
    split; [destruct o; exact Hc|]. rewrite Hs. destruct o; cbn; [by rewrite Hs|exact Ht].
  - destruct (fd_draining s && fd_out_closed s); [apply Hidle; by right|].
    destruct (fd_draining s).
    + apply effect_silent. intros _. apply Hidle. by left.
    + apply effect_call. intros [| |[batch|]].
      * apply Hidle. by left.
      * apply Hidle. by left.
      * by apply store_received_effect.
      * apply effect_ret, Hclosed.
Qed.

(** The tests at the top change neither what is held nor what may be taken. *)
Lemma check_drain_effect drain_timeout s h :
  effect (check_drain drain_timeout s) h
    (λ l h' r, l = [] ∧ h' = h ∧ ∀ s', r = Some s' →
       fd_publish_suspended s' = fd_publish_suspended s ∧ fd_pending_retry s' = fd_pending_retry s ∧
       fd_out_closed s' = fd_out_closed s) (λ _ _ _, False).
Proof.
  unfold check_drain.
  eapply (effect_bind _ _ _ (λ l h' _, l = [] ∧ h' = h) (λ _ _ _, False)); [|done|].
  { destruct (fd_draining s); [by apply effect_ret|]. intros w <-. unfold silent, wp, call.
    destruct (stop_requested _) as [env stop]. by exists []. }
  intros l h' stop [-> ->].
  eapply (effect_bind _ _ _ (λ l h' s', l = [] ∧ h' = h ∧ fd_publish_suspended s' = fd_publish_suspended s ∧
    fd_pending_retry s' = fd_pending_retry s ∧ fd_out_closed s' = fd_out_closed s) (λ _ _ _, False)); [|done|].
  { destruct stop; [|by apply effect_ret]. apply effect_silent. intros now. by apply effect_ret. }
  intros l h' s' (-> & -> & Hs).
  assert (∀ now b, effect (sret (if b : bool then None else Some s')) h
    (λ l h' r, l = [] ∧ h' = h ∧ ∀ s'', r = Some s'' →
       fd_publish_suspended s'' = fd_publish_suspended s ∧ fd_pending_retry s'' = fd_pending_retry s ∧
       fd_out_closed s'' = fd_out_closed s) (λ _ _ _, False) ∧ now = now :> Z) as Hret.
  { intros now b. split; [|done]. apply effect_ret. destruct b; split_and!; try done. by intros ? [= <-]. }
  destruct (fd_draining s'); [|apply (Hret 0 false)]. destruct (fd_drain_deadline s'); [|apply (Hret 0 false)].
  apply effect_silent. intros now. apply (Hret now).
Qed.

Lemma turn_effect idle_poll drain_timeout s h :
  effect (turn idle_poll drain_timeout s) h (iterates s h) (dies s h).
Proof.
  eapply effect_bind; [apply check_drain_effect|done|]. intros l h' [s'|] (-> & -> & Hs).
  2:{ apply effect_ret, idle_iterates. by right. }
  destruct (Hs s' eq_refl) as (Hsus & Hpend & Hout).
  assert (∀ m, effect m h (iterates s' h) (dies s' h) → effect m h (λ l', iterates s h ([] ++ l')) (λ l', dies s h ([] ++ l'))) as Hsame.
  { intros m Hm. eapply effect_mono; [exact Hm|..]; cbn [app]; unfold iterates, dies, conserves;
      intros l h' x; by rewrite Hsus, Hpend. }
  apply Hsame. destruct (fd_pending_retry s') as [batch|] eqn:Ep; [by apply turn_pending_effect|].
  destruct (fd_publish_suspended s') eqn:Es.
  - apply turn_suspended_effect. by rewrite Ep.
  - destruct (fd_out_closed s') eqn:Eo; [by apply turn_closed_effect|]. apply turn_open_effect; [by rewrite Ep|done].
Qed.

(** ** Runs of the loop *)
Definition runs (s : Fwd) (h : HealthState) (l : list Event) (h' : HealthState) (r : option Fwd) : Prop :=
  follows 0 h l h' ∧ (∃ b, tracks (taking s) l b) ∧
  match r with
  | Some s' => conserves s l [] (held s')
  | None => ∃ lost, (length lost ≤ 1)%nat ∧ conserves s l lost []
  end.

Lemma conserves_trans s s' l l' lost rest :
  conserves s l [] (held s') → conserves s' l' lost rest → conserves s (l ++ l') lost rest.
Proof.
  intros [Hl Hb] [Hl' Hb']. split; [by rewrite settled_app, Hl, Hl'|].
  rewrite inflow_app, stored_app, (assoc_L app), Hb. cbn [app]. by rewrite <- !(assoc_L app), Hb'.
Qed.

Lemma forward_loop_effect fuel idle_poll drain_timeout s h :
  effect (forward_loop fuel idle_poll drain_timeout s) h (runs s h) (dies s h).
Proof.
  revert s h. induction fuel as [|fuel IH]; intros s h.
  { apply effect_ret. split; [by apply follows_passive|]. split; [eexists; constructor|].
    unfold conserves. cbn. by rewrite app_nil_r. }
  eapply effect_bind; [apply turn_effect|done|]. intros l h1 [s'|s'] (Hf & Hc & Ht).
  - eapply effect_mono; [apply IH|..]; cbn beta.
    + intros l' h' r (Hf' & (b & Ht') & Hr). split; [by eapply follows_trans|].
      split; [exists b; by eapply tracks_app|]. destruct r as [s''|]; [by eapply conserves_trans|].
      destruct Hr as (lost & Hlen & Hr). exists lost. split; [done|by eapply conserves_trans].
    + intros l' h' e (Hf' & (b & Hr) & b' & Ht'). split; [by eapply follows_trans|].
      split; [exists b; by eapply conserves_trans|]. exists b'. by eapply tracks_app.
  - destruct Ht as [b Ht]. destruct (fd_pending_retry s') as [batch|] eqn:Ep.
    + apply effect_settle. intros queued. apply effect_ret.
      assert (Forall passive [ESettled batch queued]) as Hp by by repeat constructor.
      split; [by eapply follows_trans; [|apply follows_passive]|].
      split; [exists b; eapply tracks_app; [done|by apply tracks_passives]|].
      exists [batch]. split; [done|]. eapply conserves_trans; [rewrite Ep; exact Hc|]. unfold conserves. by rewrite Ep.
    + eapply effect_bind; [by apply (effect_ret () _ (λ l h' _, l = [] ∧ h' = h1) (λ _ _ _, False))|done|].
      intros l' h' [] [-> ->]. apply effect_ret. rewrite !app_nil_r.
      split; [done|]. split; [by exists b|]. exists []. by split; [cbn; lia|].
Qed.

(** *** Nothing that was received is lost or reordered *)

(** C13: the forwarding loop neither loses nor reorders a batch it received.
    Whatever the buffer, the MQTT client, the clock and the signals do, the
    batches received from the pipeline are, in order, those whose push was
    answered with success and then at most one: the batch the loop still holds
    while it runs, or, when it has ended, the one handed to the queue of
    unstored batches (of which there is never a second, so that queue cannot
    be full).  The loop does not panic. *)
Theorem forward_conserves fuel idle_poll drain_timeout env h :
  match run_forward fuel idle_poll drain_timeout (mkForwardWorld env h []) with
  | (w, Ok (Some s)) =>
      inflow (fw_log w) = stored (fw_log w) ++ option_list (fd_pending_retry s) ∧ settled (fw_log w) = []
  | (w, Ok None) | (w, Err _) =>
      inflow (fw_log w) = stored (fw_log w) ++ settled (fw_log w) ∧ (length (settled (fw_log w)) ≤ 1)%nat
  | (_, Panic) => False
  end.
Proof.
  pose proof (forward_loop_effect fuel idle_poll drain_timeout fwd_new h (mkForwardWorld env h []) eq_refl) as H.
  unfold run_forward, wp in *. destruct (forward_loop _ _ _ _ _) as [w [[s|]|e|]]; [..|done];
    destruct H as (l & -> & H); cbn [fw_log app].
  - destruct H as (_ & _ & Hl & Hb). by rewrite Hl.
  - destruct H as (_ & _ & lost & Hlen & Hl & Hb). cbn in Hb. by rewrite Hl, Hb, app_nil_r.
  - destruct H as (_ & (b & Hl & Hb) & _). cbn in Hb. rewrite Hl, Hb. split; [done|cbn; lia].
Qed.

(** *** Deletions *)
Lemma run_tracks fuel idle_poll drain_timeout env h :
  ∃ b, tracks true (fw_log (run_forward fuel idle_poll drain_timeout (mkForwardWorld env h [])).1) b.
Proof.
  pose proof (forward_loop_effect fuel idle_poll drain_timeout fwd_new h (mkForwardWorld env h []) eq_refl) as H.
  unfold run_forward, wp in *. destruct (forward_loop _ _ _ _ _) as [w [[s|]|e|]]; [..|done];
    destruct H as (l & Hl & H); cbn [fst]; rewrite Hl; cbn [fw_log app].
  - by destruct H as (_ & H & _).
  - by destruct H as (_ & H & _).
  - by destruct H as (_ & _ & H).
Qed.

Lemma publication_acked s l o l1 seq r l2 :
  publication s l o → l = l1 ++ EAcked seq r :: l2 →
  ∃ rc, l1 = [EPublished (sb_batch s) (inr rc); EAwaited rc (Answered (inr ()))] ∧ sb_local_seq s = seq.
Proof.
  destruct 1 as [e r'|rc e r'|rc r'|rc race]; intros Hl;
    destruct l1 as [|e1 [|e2 [|e3 [|e4 l1]]]]; simplify_eq/=. by exists rc.
Qed.

Lemma publication_awaited s l o l1 rc race l2 :
  publication s l o → l = l1 ++ EAwaited rc race :: l2 → race = StopSignal ∨ race = DrainDeadline →
  o = StopTaking ∧ l2 = [].
Proof.
  destruct 1 as [e r'|rc' e r'|rc' r'|rc' race'']; intros Hl Hr;
    destruct l1 as [|e1 [|e2 [|e3 [|e4 l1]]]]; simplify_eq/=; naive_solver.
Qed.

(** An entry of a record that takes something: inside one publication, or
    among those that follow it. *)
Lemma tracks_acked taking l b l1 seq r l2 :
  tracks taking l b → l = l1 ++ EAcked seq r :: l2 →
  ∃ l0 s rc, l1 = l0 ++ [ETaken s; EPublished (sb_batch s) (inr rc); EAwaited rc (Answered (inr ()))] ∧
             sb_local_seq s = seq.
Proof.
  intros Ht. revert l1. induction Ht as [taking|taking e l taking' He _ IH|s l o l' taking' Hp _ IH]; intros l1 Hl.
  - by destruct l1.
  - destruct l1 as [|e' l1]; injection Hl as -> Hl; [done|].
    destruct (IH l1 Hl) as (l0 & s & rc & -> & Hs). exists (e' :: l0), s, rc. by split.
  - destruct l1 as [|e' l1]; injection Hl as He Hl; [done|]. subst e'.
    apply app_eq_inv in Hl as [(k & Hk & Hl)|(k & -> & Hl)].
    + destruct k as [|e k].
      { destruct (IH [] (eq_sym Hl)) as (l0 & ? & ? & ?%eq_sym & _). by apply app_eq_nil in H as [_ ?]. }
      injection Hl as <- Hl. destruct (publication_acked _ _ _ _ _ _ _ Hp Hk) as (rc & -> & Hs).
      by exists [], s, rc.
    + destruct (IH k Hl) as (l0 & s' & rc & -> & Hs). exists ((ETaken s :: l) ++ l0), s', rc.
      split; [|done]. cbn. by rewrite <- app_assoc.
Qed.

Definition is_taken (e : Event) : Prop := match e with ETaken _ => True | _ => False end.

Lemma tracks_suspended l b : tracks false l b → Forall (λ e, passive e) l.
Proof.
  intros Ht. remember false as t eqn:Et. induction Ht as [|? e l ? He _ IH|]; [done| |done].
  constructor; [done|by apply IH].
Qed.

Lemma tracks_interrupted taking l b l1 rc race l2 :
  tracks taking l b → l = l1 ++ EAwaited rc race :: l2 → race = StopSignal ∨ race = DrainDeadline →
  Forall passive l2.
Proof.
  intros Ht. revert l1. induction Ht as [taking|taking e l taking' He _ IH|s l o l' taking' Hp Ht IH]; intros l1 Hl Hr.
  - by destruct l1.
  - destruct l1 as [|e' l1]; injection Hl as -> Hl; [done|]. by apply (IH l1).
  - destruct l1 as [|e' l1]; injection Hl as He Hl; [done|].
    apply app_eq_inv in Hl as [(k & Hk & Hl)|(k & -> & Hl)]; [|by apply (IH k)].
    destruct k as [|e k]; [by apply (IH [] (eq_sym Hl))|]. injection Hl as <- Hl.
    destruct (publication_awaited _ _ _ _ _ _ _ Hp Hk Hr) as [-> ->]. rewrite Hl. cbn. by eapply tracks_suspended.
Qed.

(** C14: a record is deleted only when it was delivered.  In every run, the
    calls just before a deletion from the buffer are the taking of that very
    record, the publication of its batch and the success of the receipt of
    that publication; and after a publication was interrupted by the stop
    signal or the drain deadline nothing is taken, published or deleted any
    more, so no later record overtakes the interrupted one. *)
Theorem forward_confirmed fuel idle_poll drain_timeout env h w r :
  run_forward fuel idle_poll drain_timeout (mkForwardWorld env h []) = (w, r) →
  (∀ l1 seq answer l2, fw_log w = l1 ++ EAcked seq answer :: l2 →
     ∃ l0 s rc, l1 = l0 ++ [ETaken s; EPublished (sb_batch s) (inr rc); EAwaited rc (Answered (inr ()))] ∧
                sb_local_seq s = seq) ∧
  (∀ l1 rc race l2, fw_log w = l1 ++ EAwaited rc race :: l2 → race = StopSignal ∨ race = DrainDeadline →
     Forall passive l2).
Proof.
  intros Hrun. destruct (run_tracks fuel idle_poll drain_timeout env h) as [b Ht]. rewrite Hrun in Ht. split.
  - intros l1 seq answer l2 Hl. by eapply tracks_acked.
  - intros l1 rc race l2 Hl. by eapply tracks_interrupted.
Qed.

(** *** The counters *)

(** The confirmed and failed publications are counted; the counter of those
    under way is what an error of the buffer left behind. *)
Lemma forward_counters fuel idle_poll drain_timeout env h :
  counters h 0 0 0 →
  let w := (run_forward fuel idle_poll drain_timeout (mkForwardWorld env h [])).1 in
  counters (fw_health w) (count is_acked (fw_log w)) (count is_failed (fw_log w)) (count is_unsettled (fw_log w)).
Proof.
  intros Hh. pose proof (forward_loop_effect fuel idle_poll drain_timeout fwd_new h (mkForwardWorld env h []) eq_refl) as H.
  unfold run_forward, wp in *. destruct (forward_loop _ _ _ _ _) as [w [[s|]|e|]]; [..|done];
    destruct H as (l & Hl & Hf & _); cbn [fst]; rewrite Hl; cbn [fw_log app]; by apply (Hf 0 0 0).
Qed.

(** *** The drain *)
Definition deleted (l : list Event) : list Z :=
  omap (λ e, match e with EAcked seq (inr _) => Some seq | _ => None end) l.

(** Where the publication of a record stands. *)
Inductive Stage : Type :=
| AtTop
| Has (s : StoredBatch)
| Waits (s : StoredBatch) (rc : Receipt)
| Delivered (s : StoredBatch).

(** Collaborators that work while the buffer is drained: [healthy stage l env]
    says that the buffer holds [l], that the stop signal was already seen and
    that the deadline is still ahead. *)
Record drains_healthily (deadline : Z) (healthy : Stage → list StoredBatch → Env → Prop) : Prop := {
  dh_instant l e : healthy AtTop l e → (instant e).2 < deadline ∧ healthy AtTop l (instant e).1;
  dh_next s l e : healthy AtTop (s :: l) e → (next e).2 = inr (Some s) ∧ healthy (Has s) l (next e).1;
  dh_empty e : healthy AtTop [] e → (next e).2 = inr None;
  dh_now_ns s l e : healthy (Has s) l e → healthy (Has s) l (now_ns e).1;
  dh_publish s l e : healthy (Has s) l e →
    ∃ rc, (publish_batch (sb_batch s) e).2 = inr rc ∧ healthy (Waits s rc) l (publish_batch (sb_batch s) e).1;
  dh_acked s rc l e : healthy (Waits s rc) l e →
    (acked_until deadline rc e).2 = Answered (inr ()) ∧ healthy (Delivered s) l (acked_until deadline rc e).1;
  dh_ack s l e : healthy (Delivered s) l e →
    (ack (sb_local_seq s) e).2 = inr () ∧ healthy AtTop l (ack (sb_local_seq s) e).1;
}.

Definition drain_state (deadline : Z) : Fwd := mkFwd true true (Some deadline) false None.

Section drain.
Context (deadline : Z) (healthy : Stage → list StoredBatch → Env → Prop).
Context (laws : drains_healthily deadline healthy).

Lemma silent_bind {A B} (op : Env → Env * A) (k : A → task B) w :
  sbind (silent op) k w = k (op (fw_env w)).2 (mkForwardWorld (op (fw_env w)).1 (fw_health w) (fw_log w)).
Proof. unfold sbind, silent, call. destruct (op _) as [env a]. cbn. by rewrite app_nil_r. Qed.

Lemma call_bind {A B} (op : Env → Env * A) entries (k : A → task B) w :
  sbind (call op entries) k w =
  k (op (fw_env w)).2 (mkForwardWorld (op (fw_env w)).1 (fw_health w) (fw_log w ++ entries (op (fw_env w)).2)).
Proof. unfold sbind, call. by destruct (op _) as [env a]. Qed.

(** The tests at the top of a healthy drain. *)
Lemma drain_top l idle_poll drain_timeout w :
  healthy AtTop l (fw_env w) →
  turn idle_poll drain_timeout (drain_state deadline) w =
  turn_closed idle_poll (drain_state deadline) (mkForwardWorld (instant (fw_env w)).1 (fw_health w) (fw_log w)).
Proof using laws.
  intros [Hlt _]%(dh_instant _ _ laws). apply Z.leb_gt in Hlt.
  unfold turn, check_drain, drain_state. cbn -[silent]. unfold sbind at 1 2 3, sret. cbn -[silent].
  rewrite silent_bind, Hlt. done.
Qed.

Lemma drain_publishes s l w :
  healthy (Has s) l (fw_env w) →
  ∃ w' es, publish_stored s (Some deadline) w = (w', Ok Continue) ∧ healthy AtTop l (fw_env w') ∧
           fw_log w' = fw_log w ++ es ∧ deleted es = [sb_local_seq s].
Proof using laws.
  intros Hh. set (h0 := if ob_replayed (sb_batch s) then record_replayed (record_inflight (fw_health w))
                        else record_inflight (fw_health w)).
  apply (dh_now_ns _ _ laws) in Hh. destruct (now_ns (fw_env w)) as [e1 at_ns] eqn:E1. cbn [fst] in Hh.
  destruct (dh_publish _ _ laws _ _ _ Hh) as (rc & Hp & Hh2).
  destruct (publish_batch (sb_batch s) e1) as [e2 p] eqn:E2. cbn in Hp, Hh2. subst p.
  destruct (dh_acked _ _ laws _ _ _ _ Hh2) as [Ha Hh3].
  destruct (acked_until deadline rc e2) as [e3 a] eqn:E3. cbn in Ha, Hh3. subst a.
  destruct (dh_ack _ _ laws _ _ _ Hh3) as [Hk Hh4].
  destruct (ack (sb_local_seq s) e3) as [e4 k] eqn:E4. cbn in Hk, Hh4. subst k.
  eexists (mkForwardWorld e4 (record_acked at_ns h0) _),
    ([EPublished (sb_batch s) (inr rc)] ++ [EAwaited rc (Answered (inr ()))] ++ [EAcked (sb_local_seq s) (inr ())]).
  split; [|split; [exact Hh4|split; [reflexivity|done]]].
  assert (attempt (forward_batch s (Some deadline)) (mkForwardWorld (fw_env w) h0 (fw_log w)) =
    (mkForwardWorld e4 (record_acked at_ns h0)
      (fw_log w ++ [EPublished (sb_batch s) (inr rc)] ++ [EAwaited rc (Answered (inr ()))] ++ [EAcked (sb_local_seq s) (inr ())]),
     Ok (inl ()))) as Hb.
  { unfold attempt, forward_batch. rewrite silent_bind. cbn [fw_env fw_health fw_log]. rewrite E1. cbn [fst snd].
    rewrite call_bind. cbn [fw_env fw_health fw_log]. rewrite E2. cbn [fst snd].
    unfold await_ack. rewrite call_bind. cbn [fw_env fw_health fw_log]. rewrite E3. cbn [fst snd].
    unfold or_buffer_error, sbind, call. cbn [fw_env fw_health fw_log]. rewrite E4. cbn.
    by rewrite <- !(assoc_L app). }
  unfold publish_stored, sbind at 1 2, on_health, smodify, sret. subst h0.
  destruct (ob_replayed (sb_batch s)); unfold sbind; cbn [fw_env fw_health fw_log]; by rewrite Hb.
Qed.

(** C33: a drain that is not disturbed publishes everything.  When the pipeline
    has ended, the stop signal has been seen, the deadline lies ahead and the
    broker and the buffer work, the loop publishes and deletes every record of
    the buffer, in order, and ends with success after one iteration per record
    and one more. *)
Theorem forward_drains l idle_poll drain_timeout w :
  healthy AtTop l (fw_env w) →
  ∃ w' es, forward_loop (S (length l)) idle_poll drain_timeout (drain_state deadline) w = (w', Ok None) ∧
           fw_log w' = fw_log w ++ es ∧ deleted es = sb_local_seq <$> l.
Proof using laws.
  revert w. induction l as [|s l IH]; intros w Hh.
  - cbn [length forward_loop]. unfold sbind at 1. rewrite (drain_top [] _ _ _ Hh). unfold turn_closed.
    destruct (dh_instant _ _ laws _ _ Hh) as [_ Hh1%(dh_empty _ _ laws)].
    rewrite call_bind. cbn [fw_env fw_health fw_log]. rewrite Hh1. cbn. eexists _, []. by rewrite !app_nil_r.
  - destruct (dh_instant _ _ laws _ _ Hh) as [_ [Hn Hh1]%(dh_next _ _ laws)].
    set (w1 := mkForwardWorld (next (instant (fw_env w)).1).1 (fw_health w) (fw_log w ++ [ETaken s])).
    destruct (drain_publishes s l w1 Hh1) as (w2 & es & Hp & Hh2 & Hl & Hd).
    destruct (IH w2 Hh2) as (w' & es' & Hrun & Hl' & Hd').
    exists w', ([ETaken s] ++ es ++ es'). split.
    + change (length (s :: l)) with (S (length l)). rewrite <- Hrun. remember (S (length l)) as n eqn:En.
      cbn [forward_loop]. unfold sbind at 1. rewrite (drain_top (s :: l) _ _ _ Hh). unfold turn_closed.
      rewrite call_bind. cbn [fw_env fw_health fw_log]. rewrite Hn. unfold sbind. cbn [taken].
      change (fd_drain_deadline (drain_state deadline)) with (Some deadline).
      change (mkForwardWorld _ _ _) with w1. by rewrite Hp.
    + rewrite Hl', Hl. subst w1. cbn [fw_log]. rewrite <- !(assoc_L app). split; [done|].
      unfold deleted in *. rewrite !omap_app, Hd, Hd'. done.
Qed.
End drain.
End forward.
