(* ===== verification/CollectorRuntime.v ===== *)
(** * The collector's runtime (apps/collector/src/runtime.rs)

    Supervision and orderly shutdown over the class [RuntimeParts] of the
    components that are stopped; [rw_log] records the calls with their answers.
    The second part holds concrete collaborators of the forwarding loop, with
    the signal as tokio's watch channel, and the runs they give rise to. *)

From S2P Require Import Prelude RustStd ObservationModel.
From S2P Require Import MqttConfig LocalBuffer DataPipeline CollectorForward.
From stdpp Require Import options.

#[local] Set Default Proof Using "Type".

Definition PUMP_JOIN_TIMEOUT : Z := 5 * NS_PER_SEC.
Definition FORWARD_JOIN_MARGIN : Z := 30 * NS_PER_SEC.
Definition LOST_BUDGET : Z := 5 * NS_PER_SEC.
Definition LOST_ATTEMPT : Z := 200 * NS_PER_MS.

Module RuntimeError.
Inductive t : Type :=
| ShutdownTimeout (stage : string)
| Task (reason : string)
| Pipeline (e : PipelineError.t)
| Mqtt (e : MqttClientError.t)
| Buffer (e : LocalBufferError.t).
End RuntimeError.

(** How a joined task ended: with a value, or by a panic. *)
Inductive Joined (A : Type) : Type := Returned (a : A) | JoinError.
Arguments Returned {A} a.
Arguments JoinError {A}.

(** What ended the wait of [run_until_shutdown]. *)
Inductive Wake : Type :=
| Sigint
| Signalled (closed : bool)
| ForwardEnded (r : Joined (CollectorError.t + ()))
| RestExited (failed : bool).

Class RuntimeParts (Env : Type) : Type := {
  send_stop : Env → Env * ();                              (* self.stopping.send(true) *)
  rest_usable : Env → Env * bool;                          (* is_alive, and no exit notified *)
  wait : Env → Env * Wake;
  rest_shutdown : Env → Env * ();
  control_shutdown : Env → Env * ();
  scheduler_shutdown : Env → Env * ();
  join_pump : Z → Env → Env * option (Joined ());          (* None: not within the limit *)
  unwrap_pipeline : Env → Env * bool;                      (* Arc::try_unwrap succeeds *)
  pipeline_shutdown : Env → Env * (PipelineError.t + DrainStats);
  join_forward : Z → Env → Env * option (Joined (CollectorError.t + ()));
  unwrap_mqtt : Env → Env * bool;
  mqtt_shutdown : Env → Env * (MqttClientError.t + ());
  runtime_instant : Env → Env * Z;
  runtime_push : Z → ObservationBatch → Env → Env * option (LocalBufferError.t + ());
  buffer_shutdown : Env → Env * (LocalBufferError.t + ());
  abort_heartbeat : Env → Env * ();
}.

Section runtime.
Context {Env : Type} `{!RuntimeParts Env}.

Inductive Call : Type :=
| CStop
| CRest
| CControl
| CScheduler
| CPump (r : option (Joined ()))
| CPipeline (r : PipelineError.t + DrainStats)
| CForward (r : option (Joined (CollectorError.t + ())))
| CMqtt (r : MqttClientError.t + ())
| CClock (now : Z)
| CPushed (batch : ObservationBatch) (limit : Z) (r : option (LocalBufferError.t + ()))
| CDropped (batch : ObservationBatch)
| CBuffer (r : LocalBufferError.t + ())
| CHeartbeat.

Record RuntimeWorld : Type := mkRuntimeWorld { rw_env : Env; rw_log : list Call }.

Abbreviation script := (stm RuntimeWorld RuntimeError.t).

Definition rcall {A} (op : Env → Env * A) (entries : A → list Call) : script A := λ w,
  let '(env, a) := op (rw_env w) in (mkRuntimeWorld env (rw_log w ++ entries a), Ok a).

(** The parts of the runtime that its methods read and change: which
    components exist, whether the result of the forwarding task was consumed,
    the configured drain window, and the queue of unstored batches, to which
    nothing is added once the forwarding task has ended. *)
Record Runtime : Type := mkRuntime {
  rt_rest : bool;
  rt_control : bool;
  rt_mqtt : bool;
  rt_forward_done : bool;
  rt_drain_timeout_ns : Z;
  rt_lost : list ObservationBatch;
}.

Definition set_forward_done (rt : Runtime) : Runtime :=
  mkRuntime (rt_rest rt) (rt_control rt) (rt_mqtt rt) true (rt_drain_timeout_ns rt) (rt_lost rt).

Definition when (b : bool) (m : script ()) : script () := if b then m else sret ().

(** Step 4.5: the batches that were never stored. *)
Fixpoint settle_all (lost_deadline : Z) (lost : list ObservationBatch) : script () :=
  match lost with
  | [] => sret ()
  | batch :: lost =>
      let! now := rcall runtime_instant (λ now, [CClock now]) in
      let remaining := Z.max 0 (lost_deadline - now) in
      if remaining =? 0 then
        let! _ := rcall (λ env, (env, ())) (λ _, [CDropped batch]) in
        settle_all lost_deadline lost
      else
        let attempt := Z.min remaining LOST_ATTEMPT in
        let! _ := rcall (runtime_push attempt batch) (λ r, [CPushed batch attempt r]) in
        settle_all lost_deadline lost
  end.

(** Step 4: the error of the settlement, kept for the end. *)
Definition settle_mqtt (rt : Runtime) : script (option RuntimeError.t) :=
  if rt_mqtt rt then
    let! released := rcall unwrap_mqtt (λ _, []) in
    if released then
      let! r := rcall mqtt_shutdown (λ r, [CMqtt r]) in
      sret (match r with inl e => Some (RuntimeError.Mqtt e) | inr _ => None end)
    else sfail (RuntimeError.Task "mqtt")
  else sret None.

(** Steps 4 to 6, once the forwarding task has ended. *)
Definition finish_shutdown (rt : Runtime) : script () :=
  let! settle_error := settle_mqtt rt in
  let! now := rcall runtime_instant (λ now, [CClock now]) in
  let! _ := settle_all (now + LOST_BUDGET) (rt_lost rt) in
  let! closed := rcall buffer_shutdown (λ r, [CBuffer r]) in
  match closed with
  | inl e => sfail (RuntimeError.Buffer e)
  | inr _ =>
      let! _ := rcall abort_heartbeat (λ _, [CHeartbeat]) in
      match settle_error with Some e => sfail e | None => sret () end
  end.

(** Steps 0 to 2: the sources of data are stopped and the pipeline drained. *)
Definition stop_sources (rt : Runtime) : script () :=
  let! _ := rcall send_stop (λ _, [CStop]) in
  let! _ := when (rt_rest rt) (rcall rest_shutdown (λ _, [CRest])) in
  let! _ := when (rt_control rt) (rcall control_shutdown (λ _, [CControl])) in
  let! _ := rcall scheduler_shutdown (λ _, [CScheduler]) in
  let! pump := rcall (join_pump PUMP_JOIN_TIMEOUT) (λ r, [CPump r]) in
  match pump with
  | None => sfail (RuntimeError.ShutdownTimeout "pump")
  | Some _ =>
      let! released := rcall unwrap_pipeline (λ _, []) in
      if negb released then sfail (RuntimeError.Task "pipeline")
      else
        let! drained := rcall pipeline_shutdown (λ r, [CPipeline r]) in
        match drained with
        | inl e => sfail (RuntimeError.Pipeline e)
        | inr _ => sret ()
        end
  end.

(** Step 3. *)
Definition stop_forward (rt : Runtime) : script () :=
  if rt_forward_done rt then sret ()
  else
    let! r := rcall (join_forward (rt_drain_timeout_ns rt + FORWARD_JOIN_MARGIN)) (λ r, [CForward r]) in
    match r with
    | None => sfail (RuntimeError.ShutdownTimeout "forward")
    | Some _ => sret ()
    end.

Definition shutdown (rt : Runtime) : script () :=
  let! _ := stop_sources rt in
  let! _ := stop_forward rt in
  finish_shutdown rt.

(** A failure of its own, whether or not the shutdown succeeds. *)
Definition shutdown_after (reason : string) (rt : Runtime) : script () := λ w,
  match shutdown rt w with
  | (w', Ok _) => (w', Err (RuntimeError.Task reason))
  | (w', Err _) => (w', Err (RuntimeError.Task (reason ++ "; orderly shutdown failed")))
  | (w', Panic) => (w', Panic)
  end.

Definition run_until_shutdown (rt : Runtime) : script () :=
  let! usable := (if rt_rest rt then rcall rest_usable (λ _, []) else sret true) in
  if negb usable then
    let! _ := rcall send_stop (λ _, [CStop]) in
    shutdown_after "rest unavailable" rt
  else
    let! wake := rcall wait (λ w, match w with ForwardEnded r => [CForward (Some r)] | _ => [] end) in
    match wake with
    | Sigint | Signalled _ => shutdown rt
    | ForwardEnded r =>
        let! _ := rcall send_stop (λ _, [CStop]) in
        shutdown_after (match r with
                        | Returned (inr _) => "forward ended early"
                        | Returned (inl _) => "forward failed"
                        | JoinError => "forward panicked"
                        end) (set_forward_done rt)
    | RestExited failed =>
        if failed then
          let! _ := rcall send_stop (λ _, [CStop]) in
          shutdown_after "rest exited" rt
        else shutdown rt
    end.

(** ** What a shutdown calls, in which order *)

(** The calls that stop the sources of data: each component that exists. *)
Definition sources_stopped (rt : Runtime) : list Call :=
  [CStop] ++ (if rt_rest rt then [CRest] else []) ++ (if rt_control rt then [CControl] else []) ++ [CScheduler].

Definition forward_joined (rt : Runtime) (f : Joined (CollectorError.t + ())) : list Call :=
  if rt_forward_done rt then [] else [CForward (Some f)].

Definition mqtt_settled (rt : Runtime) (m : MqttClientError.t + ()) : list Call :=
  if rt_mqtt rt then [CMqtt m] else [].

(** The queue of unstored batches is worked through in order.  The clock is
    read before each batch: while time is left before the deadline the batch
    is pushed, for at most the attempt limit and the time that is left;
    afterwards it is given up. *)
Inductive retried (deadline : Z) : list ObservationBatch → list Call → Prop :=
| retried_nil : retried deadline [] []
| retried_tried now batch r lost l :
    now < deadline → retried deadline lost l →
    retried deadline (batch :: lost)
      (CClock now :: CPushed batch (Z.min (deadline - now) LOST_ATTEMPT) r :: l)
| retried_dropped now batch lost l :
    deadline ≤ now → retried deadline lost l →
    retried deadline (batch :: lost) (CClock now :: CDropped batch :: l).

(** The calls of a shutdown that gets as far as the buffer. *)
Definition completed (rt : Runtime) (m : MqttClientError.t + ()) (last l : list Call) : Prop :=
  ∃ pump stats fwd start tries,
    l = sources_stopped rt ++ [CPump (Some pump); CPipeline (inr stats)] ++ forward_joined rt fwd ++
        mqtt_settled rt m ++ CClock start :: tries ++ last ∧
    retried (start + LOST_BUDGET) (rt_lost rt) tries.

(** The failures that end a shutdown before, and the calls until then. *)
Inductive stopped_early (rt : Runtime) : RuntimeError.t → list Call → Prop :=
| early_pump :
    stopped_early rt (RuntimeError.ShutdownTimeout "pump") (sources_stopped rt ++ [CPump None])
| early_unwrap pump :
    stopped_early rt (RuntimeError.Task "pipeline") (sources_stopped rt ++ [CPump (Some pump)])
| early_pipeline pump e :
    stopped_early rt (RuntimeError.Pipeline e)
      (sources_stopped rt ++ [CPump (Some pump); CPipeline (inl e)])
| early_forward pump stats :
    rt_forward_done rt = false →
    stopped_early rt (RuntimeError.ShutdownTimeout "forward")
      (sources_stopped rt ++ [CPump (Some pump); CPipeline (inr stats); CForward None])
| early_mqtt pump stats fwd :
    rt_mqtt rt = true →
    stopped_early rt (RuntimeError.Task "mqtt")
      (sources_stopped rt ++ [CPump (Some pump); CPipeline (inr stats)] ++ forward_joined rt fwd).

Definition emits {A} (m : script A) (Q : list Call → A → Prop) (R : list Call → RuntimeError.t → Prop) : Prop :=
  ∀ w, wp m (λ w' a, ∃ l, rw_log w' = rw_log w ++ l ∧ Q l a) (λ w' e, ∃ l, rw_log w' = rw_log w ++ l ∧ R l e) w.

Lemma emits_bind {A B} (m : script A) (k : A → script B) Q0 R0 Q R :
  emits m Q0 R0 → (∀ l e, R0 l e → R l e) →
  (∀ l a, Q0 l a → emits (k a) (λ l', Q (l ++ l')) (λ l', R (l ++ l'))) → emits (sbind m k) Q R.
Proof.
  intros Hm HR Hk w. apply wp_bind. eapply wp_mono; [apply Hm| |].
  - intros w1 a (l & Hl & Ha). eapply wp_mono; [apply (Hk _ _ Ha w1)|..];
      intros w2 x (l' & Hl' & Hx); exists (l ++ l'); by rewrite Hl', Hl, app_assoc.
  - intros w1 e (l & Hl & He). exists l. split; [done|by apply HR].
Qed.

Lemma emits_ret {A} (a : A) (Q : list Call → A → Prop) R : Q [] a → emits (sret a) Q R.
Proof. intros HQ w. exists []. by rewrite app_nil_r. Qed.

Lemma emits_fail {A} e (Q : list Call → A → Prop) R : R [] e → emits (sfail e) Q R.
Proof. intros HR w. exists []. by rewrite app_nil_r. Qed.

Lemma emits_call {A B} (op : Env → Env * A) entries (k : A → script B) Q R :
  (∀ a, emits (k a) (λ l', Q (entries a ++ l')) (λ l', R (entries a ++ l'))) →
  emits (sbind (rcall op entries) k) Q R.
Proof.
  intros Hk. eapply (emits_bind _ _ (λ l a, l = entries a) (λ _ _, False)); [|done|].
  - intros w. unfold wp, rcall. destruct (op _) as [env a]. by exists (entries a).
  - intros l a ->. apply Hk.
Qed.

Lemma emits_when {B} (b : bool) (op : Env → Env * ()) (entries : () → list Call) (k : () → script B)
    (Q : list Call → B → Prop) (R : list Call → RuntimeError.t → Prop) :
  (let l := if b then entries () else [] in emits (k ()) (λ l', Q (l ++ l')) (λ l', R (l ++ l'))) →
  emits (sbind (when b (rcall op entries)) k) Q R.
Proof.
  intros Hk. destruct b; cbn [when].
  - apply emits_call. by intros [].
  - eapply (emits_bind _ _ (λ l _, l = []) (λ _ _, False)); [by apply emits_ret|done|]. by intros l [] ->.
Qed.

Lemma emits_mono {A} (m : script A) (Q Q' : list Call → A → Prop) (R R' : list Call → RuntimeError.t → Prop) :
  emits m Q R → (∀ l a, Q l a → Q' l a) → (∀ l e, R l e → R' l e) → emits m Q' R'.
Proof. intros Hm HQ HR w. eapply wp_mono; [apply Hm|..]; intros w' x (l & ? & ?); exists l; eauto. Qed.

Lemma settle_all_emits deadline lost :
  emits (settle_all deadline lost) (λ l _, retried deadline lost l) (λ _ _, False).
Proof.
  induction lost as [|batch lost IH]; cbn [settle_all]; [apply emits_ret; constructor|].
  apply emits_call. intros now. cbv zeta. destruct (Z.eqb_spec (Z.max 0 (deadline - now)) 0) as [E|E];
    apply emits_call; intros r; (eapply emits_mono; [exact IH| |done]); intros l [] Hl.
  - apply retried_dropped; [lia|done].
  - rewrite Z.max_r by lia. apply retried_tried; [lia|done].
Qed.

Lemma settle_mqtt_emits rt :
  emits (settle_mqtt rt)
    (λ l r, ∃ m, l = mqtt_settled rt m ∧
       match r with
       | Some e => ∃ e', e = RuntimeError.Mqtt e' ∧ m = inl e' ∧ rt_mqtt rt = true
       | None => m = inr ()
       end)
    (λ l e, l = [] ∧ e = RuntimeError.Task "mqtt" ∧ rt_mqtt rt = true).
Proof.
  unfold settle_mqtt, mqtt_settled. destruct (rt_mqtt rt); [|apply emits_ret; by exists (inr ())].
  apply emits_call. intros [|]; [|by apply emits_fail]. apply emits_call. intros r. apply emits_ret.
  exists r. split; [done|]. destruct r as [e|[]]; [by exists e|done].
Qed.

Lemma stop_sources_emits rt :
  emits (stop_sources rt)
    (λ l _, ∃ pump stats, l = sources_stopped rt ++ [CPump (Some pump); CPipeline (inr stats)])
    (λ l e, stopped_early rt e l).
Proof.
  apply emits_call. intros []. apply emits_when. apply emits_when. cbv zeta. apply emits_call. intros [].
  apply emits_call. intros pump.
  assert (∀ l, [CStop] ++ (if rt_rest rt then [CRest] else []) ++ (if rt_control rt then [CControl] else []) ++
    [CScheduler] ++ [CPump pump] ++ l = sources_stopped rt ++ CPump pump :: l) as Heq.
  { intros l. unfold sources_stopped. by rewrite <- !app_assoc. }
  destruct pump as [joined|]; [|apply emits_fail; rewrite Heq; constructor].
  apply emits_call. intros [|]; cbn [negb]; [|apply emits_fail; rewrite Heq; constructor].
  apply emits_call. intros [e|stats].
  - apply emits_fail. rewrite Heq. constructor.
  - apply emits_ret. rewrite Heq. by exists joined, stats.
Qed.

Lemma stop_forward_emits rt :
  emits (stop_forward rt) (λ l _, ∃ fwd, l = forward_joined rt fwd)
    (λ l e, l = [CForward None] ∧ e = RuntimeError.ShutdownTimeout "forward" ∧ rt_forward_done rt = false).
Proof.
  unfold stop_forward, forward_joined.
  destruct (rt_forward_done rt); [apply emits_ret; by exists JoinError|].
  apply emits_call. intros [r|]; [apply emits_ret; by exists r|by apply emits_fail].
Qed.

(** What comes after the forwarding task, up to the buffer. *)
Definition wound_up (rt : Runtime) (m : MqttClientError.t + ()) (last l : list Call) : Prop :=
  ∃ start tries, l = mqtt_settled rt m ++ CClock start :: tries ++ last ∧
    retried (start + LOST_BUDGET) (rt_lost rt) tries.

Lemma finish_emits rt :
  emits (finish_shutdown rt)
    (λ l _, wound_up rt (inr ()) [CBuffer (inr ()); CHeartbeat] l)
    (λ l e, match e with
            | RuntimeError.Mqtt e' =>
                rt_mqtt rt = true ∧ wound_up rt (inl e') [CBuffer (inr ()); CHeartbeat] l
            | RuntimeError.Buffer e' => ∃ m, wound_up rt m [CBuffer (inl e')] l
            | _ => l = [] ∧ e = RuntimeError.Task "mqtt" ∧ rt_mqtt rt = true
            end).
Proof.
  eapply emits_bind; [apply settle_mqtt_emits|by intros l e (-> & -> & ?)|].
  intros l1 settle_error (m & -> & Hm). apply emits_call. intros start.
  eapply emits_bind; [apply settle_all_emits|done|]. intros tries [] Ht.
  assert (∀ last, wound_up rt m last (mqtt_settled rt m ++ [CClock start] ++ tries ++ last)) as Hset.
  { intros last. by exists start, tries. }
  apply emits_call. intros [e|[]]; [apply emits_fail; by exists m|]. apply emits_call. intros [].
  destruct settle_error as [e|].
  - destruct Hm as (e' & -> & -> & Hr). apply emits_fail. split; [done|apply Hset].
  - subst m. apply emits_ret, Hset.
Qed.

Lemma shutdown_emits rt :
  emits (shutdown rt)
    (λ l _, completed rt (inr ()) [CBuffer (inr ()); CHeartbeat] l)
    (λ l e, match e with
            | RuntimeError.Mqtt e' =>
                rt_mqtt rt = true ∧ completed rt (inl e') [CBuffer (inr ()); CHeartbeat] l
            | RuntimeError.Buffer e' => ∃ m, completed rt m [CBuffer (inl e')] l
            | _ => stopped_early rt e l
            end).
Proof.
  eapply emits_bind; [apply stop_sources_emits|by intros l e []; constructor|].
  intros l1 [] (pump & stats & ->). eapply emits_bind; [apply stop_forward_emits| |].
  { intros l e (-> & -> & Hf). rewrite <- app_assoc. by apply early_forward. }
  intros l2 [] (fwd & ->). assert (∀ m last l, wound_up rt m last l →
    completed rt m last ((sources_stopped rt ++ [CPump (Some pump); CPipeline (inr stats)]) ++
      forward_joined rt fwd ++ l)) as Hc.
  { intros m last l (start & tries & -> & Ht). exists pump, stats, fwd, start, tries.
    by rewrite <- !app_assoc. }
  eapply emits_mono; [apply finish_emits|..].
  - intros l [] Hl. by apply Hc.
  - intros l [stage|reason|e|e|e]; try by intros (-> & [=] & _).
    + intros (-> & [= ->] & Hm). rewrite app_nil_r, <- app_assoc. by apply early_mqtt.
    + intros [Hm Hl]. split; [done|]. by apply Hc.
    + intros [m Hl]. exists m. by apply Hc.
Qed.

(** C15: the order and the reach of a shutdown.  Whatever the components
    answer, a shutdown that succeeds has stopped every component there is, in
    this order: the signal, REST, control, polling, the pump, the pipeline, the
    forwarding task unless its result was taken before, MQTT; then it has worked
    through the batches that were never stored, pushing each with at most
    200 ms and the rest of the budget of five seconds and giving one up only
    when the clock has passed the budget; then it has closed the buffer and
    ended the heartbeat.  A failure of MQTT is kept back until all this is done,
    and a failure of the buffer comes after the unstored batches too; every
    other failure (the pump or the forwarding task not joined in time, a
    pipeline that is still referenced or fails, an MQTT client that is still
    referenced) ends the shutdown at once, with none of these batches touched
    and the buffer not closed. *)
Theorem shutdown_order rt env :
  let '(w, r) := shutdown rt (mkRuntimeWorld env []) in
  match r with
  | Ok _ => completed rt (inr ()) [CBuffer (inr ()); CHeartbeat] (rw_log w)
  | Err (RuntimeError.Mqtt e) =>
      rt_mqtt rt = true ∧ completed rt (inl e) [CBuffer (inr ()); CHeartbeat] (rw_log w)
  | Err (RuntimeError.Buffer e) => ∃ m, completed rt m [CBuffer (inl e)] (rw_log w)
  | Err e => stopped_early rt e (rw_log w)
  | Panic => False
  end.
Proof.
  pose proof (shutdown_emits rt (mkRuntimeWorld env [])) as H.
  unfold wp in H. destruct (shutdown rt _) as [w [[]|e|]]; [..|done]; by destruct H as (l & -> & H).
Qed.
End runtime.
