(* ===== verification/CollectorExamples.v ===== *)
(** * Concrete runs of the collector's tasks

    A bench for the forwarding loop: a buffer of bounded capacity, a broker
    that confirms everything at once, a pipeline with some batches left, a clock
    that waiting advances, and the stop signal as tokio's watch channel, which is
    set at a given time and whose receiver reports the change once.  Which ready
    branch the unbiased [select] takes is scripted. *)

From S2P Require Import Prelude RustStd ObservationModel.
From S2P Require Import MqttConfig LocalBuffer DataPipeline CollectorForward CollectorRuntime.
From stdpp Require Import options.

Inductive Pick : Type := PickSignal | PickPipeline | PickBuffer.

Record Bench : Type := mkBench {
  bn_stop_at : Z;                       (* when the watch channel is set *)
  bn_seen : bool;                       (* the receiver has reported the change *)
  bn_clock : Z;
  bn_out : list ObservationBatch;       (* what the pipeline still sends *)
  bn_table : list StoredBatch;
  bn_inflight : list StoredBatch;
  bn_next_seq : Z;
  bn_capacity : nat;
  bn_picks : list Pick;
}.

Definition bn_stop (e : Bench) : bool := bn_stop_at e <=? bn_clock e.
Definition bn_unseen (e : Bench) : bool := bn_stop e && negb (bn_seen e).

Definition see (e : Bench) : Bench :=
  mkBench (bn_stop_at e) true (bn_clock e) (bn_out e) (bn_table e) (bn_inflight e) (bn_next_seq e) (bn_capacity e)
    (bn_picks e).

Definition bench_recv (e : Bench) : Bench * option ObservationBatch :=
  (mkBench (bn_stop_at e) (bn_seen e) (bn_clock e) (tail (bn_out e)) (bn_table e) (bn_inflight e) (bn_next_seq e)
     (bn_capacity e) (bn_picks e), head (bn_out e)).

Definition bench_push (b : ObservationBatch) (e : Bench) : Bench * option (LocalBufferError.t + ()) :=
  if (length (bn_table e) + length (bn_inflight e) <? bn_capacity e)%nat then
    (mkBench (bn_stop_at e) (bn_seen e) (bn_clock e) (bn_out e)
       (bn_table e ++ [{| sb_local_seq := bn_next_seq e; sb_topic := []; sb_batch := b |}]) (bn_inflight e)
       (bn_next_seq e + 1) (bn_capacity e) (bn_picks e), Some (inr ()))
  else (e, None).

Definition bench_next (e : Bench) : Bench * (LocalBufferError.t + option StoredBatch) :=
  match bn_table e with
  | [] => (e, inr None)
  | s :: rest =>
      (mkBench (bn_stop_at e) (bn_seen e) (bn_clock e) (bn_out e) rest (s :: bn_inflight e) (bn_next_seq e)
         (bn_capacity e) (bn_picks e), inr (Some s))
  end.

Definition bench_ack (seq : Z) (e : Bench) : Bench * (LocalBufferError.t + ()) :=
  (mkBench (bn_stop_at e) (bn_seen e) (bn_clock e) (bn_out e) (bn_table e)
     (filter (λ s, sb_local_seq s ≠ seq) (bn_inflight e)) (bn_next_seq e) (bn_capacity e) (bn_picks e), inr ()).

Definition bench_requeue (seq : Z) (e : Bench) : Bench * (LocalBufferError.t + ()) :=
  (mkBench (bn_stop_at e) (bn_seen e) (bn_clock e) (bn_out e)
     (filter (λ s, sb_local_seq s = seq) (bn_inflight e) ++ bn_table e)
     (filter (λ s, sb_local_seq s ≠ seq) (bn_inflight e)) (bn_next_seq e) (bn_capacity e) (bn_picks e), inr ()).

(** The receipt answers at once; the signal is looked at first. *)
Definition bench_acked (e : Bench) : Bench * option (MqttClientError.t + ()) :=
  if bn_unseen e then (see e, None) else (e, Some (inr ())).

Definition bench_acked_until (e : Bench) : Bench * AckRace :=
  if bn_unseen e then (see e, StopSignal) else (e, Answered (inr ())).

Definition pop_pick (e : Bench) : Bench :=
  mkBench (bn_stop_at e) (bn_seen e) (bn_clock e) (bn_out e) (bn_table e) (bn_inflight e) (bn_next_seq e)
    (bn_capacity e) (tail (bn_picks e)).

Definition bench_select (e : Bench) : Bench * Ready :=
  let pipeline e := let '(e, b) := bench_recv e in (e, Received b) in
  match head (bn_picks e) with
  | Some PickSignal => if bn_unseen e then (see (pop_pick e), Changed) else pipeline (pop_pick e)
  | Some PickBuffer => let '(e, r) := bench_next (pop_pick e) in (e, Next r)
  | Some PickPipeline | None => pipeline (pop_pick e)
  end.

Definition bench_idle (idle_poll : Z) (e : Bench) : Bench * IdleReady :=
  if bn_unseen e then (see e, IdleChanged) else let '(e, b) := bench_recv e in (e, IdleReceived b).

Definition bench_sleep (ns : Z) (e : Bench) : Bench * () :=
  (mkBench (bn_stop_at e) (bn_seen e) (bn_clock e + ns) (bn_out e) (bn_table e) (bn_inflight e) (bn_next_seq e)
     (bn_capacity e) (bn_picks e), ()).

#[export] Instance bench_collaborators : Collaborators Bench () := {|
  stop_requested e := (e, bn_stop e);
  instant e := (e, bn_clock e);
  CollectorForward.now_ns e := (e, bn_clock e);
  recv := bench_recv;
  CollectorForward.push limit b e :=
    match bench_push b e with
    | (e', None) => ((bench_sleep limit e').1, None)
    | answered => answered
    end;
  next := bench_next;
  ack := bench_ack;
  requeue := bench_requeue;
  publish_batch _ e := (e, inr ());
  acked _ := bench_acked;
  acked_until _ _ := bench_acked_until;
  select := bench_select;
  select_idle := bench_idle;
  sleep := bench_sleep;
  try_send_lost _ e := (e, true);
|}.

Definition sample_batch (n : Z) : ObservationBatch :=
  batch_new (lit "site") (lit "session") (lit "pump") n [] 0.

Definition sample_stored (n : Z) : StoredBatch :=
  {| sb_local_seq := n; sb_topic := lit "t"; sb_batch := sample_batch n |}.

(** Two records fill the buffer, the pipeline sends a third batch and ends. *)
Definition full_bench (stop_at : Z) : Bench :=
  {| bn_stop_at := stop_at; bn_seen := false; bn_clock := 0; bn_out := [sample_batch 3];
     bn_table := [sample_stored 1; sample_stored 2]; bn_inflight := []; bn_next_seq := 3; bn_capacity := 2;
     bn_picks := [] |}.

Definition five_seconds : Z := 5 * NS_PER_SEC.
Definition idle : Z := 50 * NS_PER_MS.

Definition full_run (fuel : nat) (stop_at : Z) : ForwardWorld * outcome CollectorError.t (option Fwd) :=
  run_forward fuel idle five_seconds (mkForwardWorld (full_bench stop_at) health_default []).

(** ** The undisturbed drain *)
Definition bench_healthy (st : Stage (Receipt := ())) (l : list StoredBatch) (e : Bench) : Prop :=
  bn_seen e = true ∧ bn_clock e < five_seconds ∧ bn_table e = l ∧
  bn_inflight e = match st with AtTop => [] | Has s | Waits s _ | Delivered s => [s] end.

Lemma bench_drains : drains_healthily five_seconds bench_healthy.
Proof.
  split.
  - intros l e (Hu & Hc & Ht & Hi). by repeat split.
  - intros s l e (Hu & Hc & Ht & Hi). cbn. unfold bench_next. rewrite Ht. repeat split; try done. cbn. by rewrite Hi.
  - intros e (Hu & Hc & Ht & Hi). cbn. unfold bench_next. by rewrite Ht.
  - intros s l e H. exact H.
  - intros s l e H. exists (). by split.
  - intros s rc l e (Hu & Hc & Ht & Hi). cbn. unfold bench_acked_until, bn_unseen. rewrite Hu, andb_false_r. by repeat split.
  - intros s l e (Hu & Hc & Ht & Hi). cbn. split; [done|]. repeat split; try done. cbn. rewrite Hi.
    by rewrite filter_cons_False by naive_solver.
Qed.

Definition drained_bench : Bench :=
  {| bn_stop_at := 0; bn_seen := true; bn_clock := 0; bn_out := []; bn_table := [sample_stored 1; sample_stored 2];
     bn_inflight := []; bn_next_seq := 3; bn_capacity := 2; bn_picks := [] |}.

Lemma forward_drains_witness :
  ∃ w' es, forward_loop 3 idle five_seconds (drain_state five_seconds)
             (mkForwardWorld drained_bench health_default []) = (w', Ok None) ∧
           fw_log w' = [] ++ es ∧ deleted es = [1; 2].
Proof.
  apply (forward_drains five_seconds bench_healthy bench_drains [sample_stored 1; sample_stored 2]).
  repeat split.
Defined.

(** ** A stop while the buffer is full *)

(** A stop signal can disable the drain.  Two records fill the buffer, a
    third batch is received and held for want of space, and the broker confirms
    everything at once.  Left alone, the loop publishes and deletes the records
    and stores the third batch, all within two seconds.  When the stop signal comes
    during the first wait for space, the loop enters its drain with the change
    of the signal unseen (only a selection marks it, and a loop that holds a
    batch makes none): the first publication of the drain is sent, but the wait
    for its confirmation counts as interrupted and publishing is suspended; no
    record is deleted, no space is released, and after
    the whole drain window the third batch is handed to the queue of unstored
    batches. *)
Theorem forward_stop_when_full :
  (let w := (full_run 8 (60 * NS_PER_SEC)).1 in
   deleted (fw_log w) = [1; 2; 3] ∧ stored (fw_log w) = [sample_batch 3] ∧ bn_clock (fw_env w) < 2 * NS_PER_SEC) ∧
  (let '(w, r) := full_run 20 (300 * NS_PER_MS) in
   r = Ok None ∧ deleted (fw_log w) = [] ∧ stored (fw_log w) = [] ∧ settled (fw_log w) = [sample_batch 3] ∧
   five_seconds < bn_clock (fw_env w)).
Proof. by vm_compute. Qed.

Lemma forward_confirmed_witness :
  let log := fw_log (full_run 8 (60 * NS_PER_SEC)).1 in
  ∃ l0 s rc, take 6 log = l0 ++ [ETaken s; EPublished (sb_batch s) (inr rc); EAwaited rc (Answered (inr ()))] ∧
             sb_local_seq s = 1.
Proof.
  set (run := full_run 8 (60 * NS_PER_SEC)).
  apply (proj1 (forward_confirmed 8 idle five_seconds (full_bench (60 * NS_PER_SEC)) health_default
    run.1 run.2 (surjective_pairing _)) (take 6 (fw_log run.1)) 1 (inr ()) (drop 7 (fw_log run.1))).
  by vm_compute.
Defined.
