(* ===== verification/CollectorConfig.v ===== *)
(** * The collector's configuration and preflight (apps/collector/src: config.rs, preflight.rs)

    The configuration as it is after deserialization, its validation, the
    conversion to the configurations of the components, and the checks of every
    device before anything is started.  A rejected configuration is reported by
    its field.  Paths are texts; reading a certificate file is the function
    [read]; [control_build] says whether the crate is built with its feature
    [control].  Socket addresses are parsed as the standard library does. *)

From S2P Require Import Prelude RustStd RustFloat ObservationModel ProfileModel ProfileConvert DomainModel.
From S2P Require Import PollEngine DriverAbi DriverLoader DeviceManager LocalBuffer DataPipeline MqttConfig.
From stdpp Require Import options.

#[local] Set Default Proof Using "Type".

(** ** Socket addresses ([std::net]: parser.rs, ip_addr.rs) *)
Module SocketAddr.
Inductive t : Type :=
| V4 (octets : list Z) (port : Z)
| V6 (segments : list Z) (scope_id port : Z).

(** [is_loopback] of the address. *)
Definition is_loopback (a : t) : bool :=
  match a with
  | V4 octets _ => bool_decide (head octets = Some 127)
  | V6 segments _ _ => bool_decide (segments = [0; 0; 0; 0; 0; 0; 0; 1])
  end.
End SocketAddr.

(** A parser consumes a prefix or fails without consuming. *)
Abbreviation parser A := (str → option (A * str)).

Definition digit_in (radix c : Z) : option Z :=
  let d := if (48 <=? c) && (c <=? 57) then c - 48
           else if (97 <=? c) && (c <=? 122) then c - 87
           else if (65 <=? c) && (c <=? 90) then c - 55 else radix in
  if d <? radix then Some d else None.

(** The loop of [read_number]: the value and the number of digits. *)
Fixpoint read_digits (w radix : Z) (max_digits : option nat) (result : Z) (count : nat) (s : str) :
    option (Z * nat * str) :=
  match s with
  | c :: s' =>
      match digit_in radix c with
      | Some d =>
          let result := result * radix + d in
          if 2 ^ w <=? result then None
          else
            let count := S count in
            match max_digits with
            | Some m => if (m <? count)%nat then None else read_digits w radix max_digits result count s'
            | None => read_digits w radix max_digits result count s'
            end
      | None => Some (result, count, s)
      end
  | [] => Some (result, count, [])
  end.

Definition read_number (w radix : Z) (max_digits : option nat) (allow_zero_prefix : bool) : parser Z := λ s,
  match read_digits w radix max_digits 0 0 s with
  | Some (n, count, rest) =>
      if (count =? 0)%nat then None
      else if negb allow_zero_prefix && bool_decide (head s = Some 48) && (1 <? count)%nat then None
      else Some (n, rest)
  | None => None
  end.

Definition read_given_char (c : Z) : parser () := λ s,
  match s with x :: s' => if x =? c then Some ((), s') else None | [] => None end.

Definition read_separator {A} (sep : Z) (index : nat) (p : parser A) : parser A := λ s,
  match index with
  | O => p s
  | _ => match read_given_char sep s with Some (_, s') => p s' | None => None end
  end.

Fixpoint read_octets (n index : nat) (s : str) : option (list Z * str) :=
  match n with
  | O => Some ([], s)
  | S n =>
      match read_separator 46 index (read_number 8 10 (Some 3%nat) false) s with
      | Some (o, s') => prod_map (cons o) id <$> read_octets n (S index) s'
      | None => None
      end
  end.

Definition read_ipv4_addr : parser (list Z) := read_octets 4 0.

(** [read_groups]: the groups read (at most [limit + index]) and whether they
    end with an embedded IPv4 address. *)
Fixpoint read_groups (limit index : nat) (s : str) : list Z * bool * str :=
  match limit with
  | O => ([], false, s)
  | S limit =>
      let v4 := match limit with
                | O => None
                | _ => read_separator 58 index read_ipv4_addr s
                end in
      match v4 with
      | Some ([a; b; c; d], s') => ([a * 256 + b; c * 256 + d], true, s')
      | _ =>
          match read_separator 58 index (read_number 16 16 (Some 4%nat) true) s with
          | Some (g, s') =>
              let '(gs, v4, s'') := read_groups limit (S index) s' in (g :: gs, v4, s'')
          | None => ([], false, s)
          end
      end
  end.

Definition read_ipv6_addr : parser (list Z) := λ s,
  let '(head, head_ipv4, s1) := read_groups 8 0 s in
  if (length head =? 8)%nat then Some (head, s1)
  else if head_ipv4 then None
  else
    match read_given_char 58 s1 with
    | Some (_, s2) =>
        match read_given_char 58 s2 with
        | Some (_, s3) =>
            let limit := (8 - (length head + 1))%nat in
            let '(tail, _, s4) := read_groups limit 0 s3 in
            Some (head ++ replicate (8 - length head - length tail) 0 ++ tail, s4)
        | None => None
        end
    | None => None
    end.

Definition read_port : parser Z := λ s,
  match read_given_char 58 s with Some (_, s') => read_number 16 10 None true s' | None => None end.

Definition read_scope_id : parser Z := λ s,
  match read_given_char 37 s with Some (_, s') => read_number 32 10 None true s' | None => None end.

Definition read_socket_addr_v4 : parser SocketAddr.t := λ s,
  match read_ipv4_addr s with
  | Some (ip, s') => match read_port s' with Some (port, s'') => Some (SocketAddr.V4 ip port, s'') | None => None end
  | None => None
  end.

Definition read_socket_addr_v6 : parser SocketAddr.t := λ s,
  match read_given_char 91 s with
  | Some (_, s1) =>
      match read_ipv6_addr s1 with
      | Some (ip, s2) =>
          let '(scope_id, s3) := default (0, s2) (read_scope_id s2) in
          match read_given_char 93 s3 with
          | Some (_, s4) =>
              match read_port s4 with Some (port, s5) => Some (SocketAddr.V6 ip scope_id port, s5) | None => None end
          | None => None
          end
      | None => None
      end
  | None => None
  end.

Definition parse_socket_addr (s : str) : option SocketAddr.t :=
  match (match read_socket_addr_v4 s with Some r => Some r | None => read_socket_addr_v6 s end) with
  | Some (a, []) => Some a
  | _ => None
  end.

(** ** The sections of the configuration *)
Record DeviceSpec (Json : Type) : Type := mkDeviceSpec {
  sp_id : str;
  sp_name : option str;
  sp_domain : option DomainKind.t;
  sp_driver : str;
  sp_profile : str;
  sp_connection : Json;
  sp_enabled : bool;
  sp_labels : gmap str str;
}.
Arguments mkDeviceSpec {Json}.
Arguments sp_id {Json}.
Arguments sp_name {Json}.
Arguments sp_domain {Json}.
Arguments sp_driver {Json}.
Arguments sp_profile {Json}.
Arguments sp_connection {Json}.
Arguments sp_enabled {Json}.
Arguments sp_labels {Json}.

Definition default_manifest_version : str := lit "0.1.0".

Record ManifestSpec : Type := mkManifestSpec {
  ms_id : str;
  ms_name : str;
  ms_version : str;
  ms_abi_major : Z;
  ms_abi_minor : Z;
}.

Definition manifest_default : ManifestSpec := mkManifestSpec [] [] default_manifest_version 1 0.

Record DriverSpec : Type := mkDriverSpec {
  drv_plugin : str;
  drv_manifest : ManifestSpec;
}.

Module IsolationOverride.
Inductive t : Type := Shared | PerDriver | PerDevice.
End IsolationOverride.

(** [isolation_overrides] in the order of its keys. *)
Record DriversOptions : Type := mkDriversOptions {
  dro_directories : list str;
  dro_isolation_overrides : list (str * IsolationOverride.t);
}.

Module TlsOptions.
Inductive t : Type :=
| None
| ServerAuth (ca_pem_path : str)
| Mutual (ca_pem_path client_cert_pem_path client_key_pem_path : str).
End TlsOptions.

Record MqttOptions : Type := mkMqttOptions {
  mo_broker_host : str;
  mo_broker_port : Z;
  mo_client_id : str;
  mo_keep_alive_secs : Z;
  mo_max_packet_size : Z;
  mo_reconnect_min_secs : Z;
  mo_reconnect_max_secs : Z;
  mo_max_reconnect_retries : option Z;
  mo_publish_capacity : nat;
  mo_max_inflight : Z;
  mo_username : option str;
  mo_password : option str;
  mo_tls : TlsOptions.t;
  mo_will_device_id : option str;
}.

(** [po_request_timeout_secs] is the bit pattern of an [f64]. *)
Record PollOptions : Type := mkPollOptions {
  po_request_timeout_secs : Z;
  po_backoff_base_ms : Z;
  po_backoff_max_ms : Z;
  po_backoff_factor : Z;
  po_shutdown_drain_secs : Z;
  po_default_interval_ms : Z;
}.

Record PipelineOptions : Type := mkPipelineOptions {
  pl_max_batch_size : nat;
  pl_flush_interval_ms : Z;
  pl_input_capacity : nat;
  pl_drain_timeout_secs : Z;
}.

Record BufferOptions : Type := mkBufferOptions {
  bo_db_path : str;
  bo_memory_records : nat;
  bo_disk_max_bytes : Z;
  bo_retention_secs : Z;
  bo_capacity_policy : CapacityPolicy.t;
  bo_drain_timeout_secs : Z;
}.

Record RestOptions : Type := mkRestOptions {
  ro_listen : option str;
  ro_max_concurrency : Z;
}.

Record ControlOptions : Type := mkControlOptions {
  co_namespace : str;
  co_credentials_file : str;
  co_journal_path : option str;
  co_timeout_ms : Z;
  co_queue_capacity : nat;
  co_audit_timeout_ms : Z;
  co_shutdown_grace_ms : Z;
}.

(** [cf_mqtt] is [northbound.mqtt]. *)
Record CollectorConfig (Json : Type) : Type := mkCollectorConfig {
  cf_site_id : str;
  cf_session_id : option str;
  cf_profiles_dir : str;
  cf_driver : option DriverSpec;
  cf_drivers : DriversOptions;
  cf_devices : list (DeviceSpec Json);
  cf_mqtt : MqttOptions;
  cf_poll : PollOptions;
  cf_pipeline : PipelineOptions;
  cf_buffer : BufferOptions;
  cf_forward_poll_ms : Z;
  cf_rest : RestOptions;
  cf_control : option ControlOptions;
}.
Arguments mkCollectorConfig {Json}.
Arguments cf_site_id {Json}.
Arguments cf_session_id {Json}.
Arguments cf_profiles_dir {Json}.
Arguments cf_driver {Json}.
Arguments cf_drivers {Json}.
Arguments cf_devices {Json}.
Arguments cf_mqtt {Json}.
Arguments cf_poll {Json}.
Arguments cf_pipeline {Json}.
Arguments cf_buffer {Json}.
Arguments cf_forward_poll_ms {Json}.
Arguments cf_rest {Json}.
Arguments cf_control {Json}.

(** *** Defaults *)
Definition default_profiles_dir : str := lit "profiles".
Definition default_forward_poll_ms : Z := 500.

Definition mqtt_default : MqttOptions :=
  {| mo_broker_host := []; mo_broker_port := 1883; mo_client_id := []; mo_keep_alive_secs := 30;
     mo_max_packet_size := 16 * 1024 * 1024; mo_reconnect_min_secs := 1; mo_reconnect_max_secs := 30;
     mo_max_reconnect_retries := None; mo_publish_capacity := 256; mo_max_inflight := 100; mo_username := None;
     mo_password := None; mo_tls := TlsOptions.None; mo_will_device_id := None |}.

(** The pattern of 5.0. *)
Definition default_request_timeout_secs : Z := 0x4014000000000000.

Definition poll_default : PollOptions :=
  {| po_request_timeout_secs := default_request_timeout_secs; po_backoff_base_ms := 1000; po_backoff_max_ms := 30000;
     po_backoff_factor := 2; po_shutdown_drain_secs := 10; po_default_interval_ms := 1000 |}.

Definition pipeline_default : PipelineOptions :=
  {| pl_max_batch_size := 1000; pl_flush_interval_ms := 1000; pl_input_capacity := 4096; pl_drain_timeout_secs := 5 |}.

Definition buffer_default : BufferOptions :=
  {| bo_db_path := []; bo_memory_records := (100 * 100)%nat; bo_disk_max_bytes := 2 * 1024 * 1024 * 1024;
     bo_retention_secs := 72 * 3600; bo_capacity_policy := CapacityPolicy.Backpressure; bo_drain_timeout_secs := 5 |}.

Definition rest_default : RestOptions := {| ro_listen := None; ro_max_concurrency := 64 |}.

(** ** Validation of the sections *)
Abbreviation Checked := (outcome string).

Definition refuse (b : bool) (field : string) : Checked () := if b then Err field else Ok ().

Definition empty {A} (l : list A) : bool := match l with [] => true | _ => false end.

Definition some_empty (o : option str) : bool := match o with Some [] => true | _ => false end.

(** [char::is_control]: the general category Cc. *)
Definition is_control_char (c : Z) : bool := (c <=? 0x1F) || ((0x7F <=? c) && (c <=? 0x9F)).

Definition MIN_PACKET_SIZE : Z := 1024.

(** [tokio::sync::Semaphore::MAX_PERMITS] on a 64-bit machine. *)
Definition MAX_PERMITS : Z := 2 ^ 61 - 1.

Definition control_validate (c : ControlOptions) : Checked () :=
  let? _ := refuse (empty (co_namespace c)) "control.namespace" in
  let? _ := refuse (existsb is_control_char (co_namespace c)) "control.namespace" in
  let? _ := refuse (empty (co_credentials_file c)) "control.credentials_file" in
  let? _ := refuse (co_timeout_ms c =? 0) "control.timeout_ms" in
  let? _ := refuse (co_queue_capacity c =? 0)%nat "control.queue_capacity" in
  let? _ := refuse (co_audit_timeout_ms c =? 0) "control.audit_timeout_ms" in
  let? _ := refuse (co_shutdown_grace_ms c =? 0) "control.shutdown_grace_ms" in
  refuse (some_empty (co_journal_path c)) "control.journal_path".

Definition rest_validate (r : RestOptions) : Checked () :=
  let? _ := match ro_listen r with
            | Some listen => refuse (bool_decide (parse_socket_addr listen = None)) "rest.listen"
            | None => Ok ()
            end in
  let? _ := refuse (ro_max_concurrency r =? 0) "rest.max_concurrency" in
  refuse (MAX_PERMITS <? ro_max_concurrency r) "rest.max_concurrency".

Definition tls_validate (t : TlsOptions.t) : Checked () :=
  match t with
  | TlsOptions.None => Ok ()
  | TlsOptions.ServerAuth ca => refuse (empty ca) "northbound.mqtt.tls.ca_pem_path"
  | TlsOptions.Mutual ca cert key => refuse (empty ca || empty cert || empty key) "northbound.mqtt.tls"
  end.

Definition mqtt_validate (m : MqttOptions) : Checked () :=
  let? _ := refuse (empty (mo_broker_host m)) "northbound.mqtt.broker_host" in
  let? _ := refuse (mo_broker_port m =? 0) "northbound.mqtt.broker_port" in
  let? _ := refuse (mo_keep_alive_secs m =? 0) "northbound.mqtt.keep_alive_secs" in
  let? _ := refuse (mo_max_packet_size m <? MIN_PACKET_SIZE) "northbound.mqtt.max_packet_size" in
  let? _ := refuse ((mo_publish_capacity m =? 0)%nat || (mo_max_inflight m =? 0)) "northbound.mqtt" in
  let? _ := refuse (some_empty (mo_will_device_id m)) "northbound.mqtt.will_device_id" in
  tls_validate (mo_tls m).

(** The pattern 0 is [0.0]. *)
Definition poll_validate (p : PollOptions) : Checked () :=
  let? _ := refuse (f64_le (po_request_timeout_secs p) 0 || negb (f64_is_finite (po_request_timeout_secs p)))
              "poll.request_timeout_secs" in
  let? _ := refuse ((po_backoff_base_ms p =? 0) || (po_backoff_max_ms p =? 0)) "poll" in
  let? _ := refuse (po_backoff_factor p =? 0) "poll.backoff_factor" in
  let? _ := refuse (po_shutdown_drain_secs p =? 0) "poll.shutdown_drain_secs" in
  refuse (po_default_interval_ms p =? 0) "poll.default_interval_ms".

Definition pipeline_options_validate (p : PipelineOptions) : Checked () :=
  refuse ((pl_max_batch_size p =? 0)%nat || (pl_flush_interval_ms p =? 0) || (pl_input_capacity p =? 0)%nat
          || (pl_drain_timeout_secs p =? 0)) "pipeline".

Definition buffer_options_validate (b : BufferOptions) : Checked () :=
  let? _ := refuse (empty (bo_db_path b)) "buffer.db_path" in
  let? _ := refuse ((bo_memory_records b =? 0)%nat || (bo_disk_max_bytes b =? 0) || (bo_retention_secs b =? 0))
              "buffer" in
  let? _ := refuse (2 ^ 63 - 1 <? bo_retention_secs b * NS_PER_SEC) "buffer.retention_secs" in
  refuse (bo_drain_timeout_secs b =? 0) "buffer.drain_timeout_secs".

(** ** Validation of the whole *)
Section config.
Context {Json : Type} (control_build : bool).
Implicit Types (c : CollectorConfig Json) (d : DeviceSpec Json).

Definition topic_refused {A} (r : MqttResult A) (field : string) : Checked () :=
  match r with Ok _ => Ok () | Err _ => Err field | Panic => Panic end.

Fixpoint devices_validate (site_id : str) (seen : list str) (devices : list (DeviceSpec Json)) : Checked () :=
  match devices with
  | [] => Ok ()
  | d :: devices =>
      let? _ := refuse (empty (sp_id d)) "devices[].id" in
      let? _ := topic_refused (MqttConfig.telemetry_topic site_id (sp_id d)) "devices[].id" in
      let? _ := refuse (empty (sp_driver d)) "devices[].driver" in
      let? _ := refuse (empty (sp_profile d)) "devices[].profile" in
      let? _ := refuse (bool_decide (sp_id d ∈ seen)) "devices[].id" in
      devices_validate site_id (sp_id d :: seen) devices
  end.

Definition will_validate (site_id : str) (will : option str) (devices : list (DeviceSpec Json)) : Checked () :=
  match will with
  | None => Ok ()
  | Some will =>
      let? _ := topic_refused (MqttConfig.status_topic site_id will) "northbound.mqtt.will_device_id" in
      match List.find (λ d, bool_decide (sp_id d = will)) devices with
      | Some d => refuse (negb (sp_enabled d)) "northbound.mqtt.will_device_id"
      | None => Err "northbound.mqtt.will_device_id"
      end
  end.

Definition legacy_driver_provided c : bool := bool_decide (is_Some (cf_driver c)).

Definition drivers_validate c : Checked () :=
  let legacy_driver := legacy_driver_provided c in
  let? _ := (if negb (empty (dro_directories (cf_drivers c))) then
               let? _ := refuse legacy_driver "driver" in
               let? _ := refuse (existsb empty (dro_directories (cf_drivers c))) "drivers.directories[]" in
               refuse (existsb empty (dro_isolation_overrides (cf_drivers c)).*1) "drivers.isolation_overrides"
             else refuse (negb legacy_driver && negb (empty (dro_isolation_overrides (cf_drivers c))))
                    "drivers.isolation_overrides") in
  match cf_driver c with
  | Some driver =>
      let? _ := refuse (empty (drv_plugin driver)) "driver.plugin" in
      refuse (empty (ms_id (drv_manifest driver))) "driver.manifest.id"
  | None => Ok ()
  end.

Definition control_section_validate c : Checked () :=
  match cf_control c with
  | None => Ok ()
  | Some control =>
      if control_build then
        let? _ := control_validate control in
        let? listen := ok_or (ro_listen (cf_rest c)) "rest.listen"%string in
        let? addr := ok_or (parse_socket_addr listen) "rest.listen"%string in
        refuse (negb (SocketAddr.is_loopback addr)) "rest.listen"
      else Err "control"%string
  end.

Definition validate c : Checked () :=
  let? _ := refuse (empty (cf_site_id c)) "site_id" in
  let? _ := topic_refused (MqttConfig.telemetry_topic (cf_site_id c) (lit "device")) "site_id" in
  let? _ := refuse (some_empty (cf_session_id c)) "session_id" in
  let? _ := refuse (empty (cf_devices c)) "devices" in
  let? _ := devices_validate (cf_site_id c) [] (cf_devices c) in
  let? _ := will_validate (cf_site_id c) (mo_will_device_id (cf_mqtt c)) (cf_devices c) in
  let? _ := drivers_validate c in
  let? _ := mqtt_validate (cf_mqtt c) in
  let? _ := poll_validate (cf_poll c) in
  let? _ := pipeline_options_validate (cf_pipeline c) in
  let? _ := buffer_options_validate (cf_buffer c) in
  let? _ := rest_validate (cf_rest c) in
  control_section_validate c.

(** [now_ns] is not negative. *)
Definition effective_session_id c (now_ns : Z) : str :=
  match cf_session_id c with
  | Some s => s ++ [45] ++ to_string now_ns
  | None => cf_site_id c ++ [45] ++ to_string now_ns
  end.
End config.

(** ** Conversion to the components' configurations *)

(** [Duration::from_secs_f64] of a number that is not negative: the nearest
    nanosecond, ties to even; a panic from 2^64 seconds on. *)
Definition duration_from_secs_f64 (secs : Z) : Checked Z :=
  if negb (f64_is_finite secs) || (2 ^ 64 * f64_unit <=? f64_num secs) then Panic
  else Ok (div_half_even (f64_num secs * NS_PER_SEC) f64_unit).

Definition to_poll_config (p : PollOptions) : Checked PollConfig :=
  let? request_timeout := duration_from_secs_f64 (po_request_timeout_secs p) in
  Ok {| request_timeout := request_timeout; backoff_base_ms := po_backoff_base_ms p;
        backoff_max_ms := po_backoff_max_ms p; backoff_factor := po_backoff_factor p;
        shutdown_drain_timeout := po_shutdown_drain_secs p * NS_PER_SEC |}.

Definition to_pipeline_config (p : PipelineOptions) (site_id session_id : str) : Checked PipelineConfig :=
  let cfg := {| pc_collector_session_id := session_id; pc_site_id := site_id;
                pc_max_batch_size := pl_max_batch_size p;
                pc_flush_interval_ns := pl_flush_interval_ms p * 1000000;
                pc_input_capacity := pl_input_capacity p;
                pc_drain_timeout_ns := pl_drain_timeout_secs p * NS_PER_SEC |} in
  let? _ := map_err (λ _, "pipeline"%string) (pipeline_validate cfg) in
  Ok cfg.

Definition to_buffer_config (b : BufferOptions) : outcome LocalBufferError.t LocalBufferConfig :=
  let cfg := {| lc_db_path := bo_db_path b; lc_memory_records := bo_memory_records b;
                lc_disk_max_bytes := bo_disk_max_bytes b; lc_retention_ns := bo_retention_secs b * NS_PER_SEC;
                lc_capacity_policy := bo_capacity_policy b |} in
  let? _ := buffer_validate cfg in
  Ok cfg.

Section tls_files.
Context (read : str → option (list Z)).

Definition read_file (field : string) (path : str) : Checked (list Z) := ok_or (read path) field.

Definition to_tls_mode (t : TlsOptions.t) : Checked TlsMode.t :=
  match t with
  | TlsOptions.None => Ok TlsMode.None
  | TlsOptions.ServerAuth ca =>
      let? ca := read_file "ca_pem_path" ca in
      Ok (TlsMode.ServerAuth ca)
  | TlsOptions.Mutual ca cert key =>
      let? ca := read_file "ca_pem_path" ca in
      let? cert := read_file "client_cert_pem_path" cert in
      let? key := read_file "client_key_pem_path" key in
      Ok (TlsMode.MutualTls ca cert key)
  end.

Definition to_client_config {SJ : StatusJson} (m : MqttOptions) (site_id : str) : Checked MqttClientConfig :=
  let client_id := if empty (mo_client_id m) then lit "collector-" ++ site_id else mo_client_id m in
  let base := MqttConfig.config_new client_id (mo_broker_host m) (mo_broker_port m) in
  let? tls := to_tls_mode (mo_tls m) in
  let? will := match mo_will_device_id m with
               | Some device_id =>
                   let? w := map_err (λ _, "mqtt"%string) (offline_status site_id device_id) in
                   Ok (Some w)
               | None => Ok None
               end in
  let cfg := {| mq_client_id := mq_client_id base; mq_broker_host := mq_broker_host base;
                mq_broker_port := mq_broker_port base;
                mq_keep_alive := mo_keep_alive_secs m * NS_PER_SEC;
                mq_connect_timeout := mq_connect_timeout base;
                mq_max_packet_size := mo_max_packet_size m;
                mq_reconnect_min_delay := mo_reconnect_min_secs m * NS_PER_SEC;
                mq_reconnect_max_delay := mo_reconnect_max_secs m * NS_PER_SEC;
                mq_max_reconnect_retries := mo_max_reconnect_retries m;
                mq_publish_capacity := mo_publish_capacity m;
                mq_max_inflight := mo_max_inflight m;
                mq_tls := tls; mq_username := mo_username m; mq_password := mo_password m; mq_will := will |} in
  let? _ := map_err (λ _, "northbound.mqtt"%string) (MqttConfig.validate cfg) in
  Ok cfg.
End tls_files.

(** ** Preflight (preflight.rs) *)
Record PreflightFailure : Type := mkPreflightFailure {
  pf_device_id : str;
  pf_check : string;
}.

Section preflight.
Context {S W Json F : Type} `{!DriverSession S W Json} `{!DriverFactory F S W Json}.
Implicit Types (spec : DeviceSpec Json).

Abbreviation probe := (stm (S * W) PreflightFailure).

Definition fail {A} spec (check : string) : probe A := sfail (mkPreflightFailure (sp_id spec) check).

Definition unsupported (info : DriverErrorInfo) : bool := bool_decide (dei_code info = "unsupported"%string).

(** A query of the session: its failure is a value. *)
Definition query {A} (m : stm (S * W) DriverErrorInfo A) : probe (A + DriverErrorInfo) := λ s,
  match m s with
  | (s', Ok a) => (s', Ok (inl a))
  | (s', Err e) => (s', Ok (inr e))
  | (s', Panic) => (s', Panic)
  end.

Fixpoint validate_profile_addresses spec (properties : list ProfileProperty) : probe () :=
  match properties with
  | [] => sret ()
  | prop :: properties =>
      if negb (pr_readable prop) && negb (pr_writable prop) then validate_profile_addresses spec properties
      else
        let! r := query (ds_validate_address (pr_driver_address prop)) in
        match r with
        | inl _ => validate_profile_addresses spec properties
        | inr info => if unsupported info then sret () else fail spec "address_validates"
        end
  end.

Definition requires (b : option bool) : bool := bool_decide (b = Some true).

Definition validate_capabilities spec (profile : DeviceProfile) : probe () :=
  let! r := query ds_protocol_capabilities in
  match r with
  | inr info => if unsupported info then sret () else fail spec "capability_requirements"
  | inl caps =>
      let acquisition := cap_acquisition (dp_capabilities profile) in
      if existsb pr_writable (dp_properties profile) && negb (cap_write caps) then
        fail spec "write_requires_write_api"
      else if negb (empty (dp_commands profile)) && negb (cap_write caps) then
        fail spec "commands_require_command_api"
      else if requires (ac_subscription acquisition) && negb (cap_subscription caps) then
        fail spec "subscription_requires_subscription_api"
      else if requires (ac_polling acquisition) && negb (cap_polling caps) then
        fail spec "capability_requirements"
      else sret ()
  end.

Definition probe_driver spec (profile : DeviceProfile) : probe () :=
  let! _ := validate_profile_addresses spec (dp_properties profile) in
  validate_capabilities spec profile.

Definition drop_all (sessions : list S) (w : W) : W := foldl (λ w s, ds_drop s w) w sessions.

(** The loop over the devices: the drivers seen, the sessions kept. *)
Fixpoint preflight_loop (profiles : ProfileRegistry) (factory : F) (seen : gset str) (probed : list S)
    (devices : list (DeviceSpec Json)) (w : W) : W * outcome PreflightFailure () :=
  match devices with
  | [] => (drop_all probed w, Ok ())
  | spec :: devices =>
      let stop check s w := (drop_all (s ++ probed) w, Err (mkPreflightFailure (sp_id spec) check)) in
      match df_create_driver factory (sp_driver spec) (sp_connection spec) w with
      | (w, Err (BindError.UnknownDriver _)) => stop "driver_exists"%string [] w
      | (w, Err _) => stop "connection_config_valid"%string [] w
      | (w, Panic) => (w, Panic)
      | (w, Ok session) =>
          match profiles !! sp_profile spec with
          | None => stop "profile_exists"%string [session] w
          | Some profile =>
              if negb (bool_decide (dp_driver_id profile = sp_driver spec)) then
                stop "profile_driver_matches"%string [session] w
              else if bool_decide (sp_driver spec ∈ seen) then
                preflight_loop profiles factory seen probed devices (ds_drop session w)
              else
                match probe_driver spec profile (session, w) with
                | ((session, w), Ok _) =>
                    preflight_loop profiles factory ({[sp_driver spec]} ∪ seen) (probed ++ [session]) devices w
                | ((session, w), Err e) => (drop_all (session :: probed) w, Err e)
                | ((_, w), Panic) => (w, Panic)
                end
          end
      end
  end.

Definition run_preflight (c : CollectorConfig Json) (profiles : ProfileRegistry) (factory : F) (w : W) :
    W * outcome PreflightFailure () :=
  preflight_loop profiles factory ∅ [] (cf_devices c) w.
End preflight.

(** * Laws *)

Lemma refuse_Ok b field u : refuse b field = Ok u → b = false.
Proof. by destruct b. Qed.

Ltac inv_refuse :=
  repeat match goal with
  | H : refuse _ _ = Ok _ |- _ => apply refuse_Ok in H
  | H : _ || _ = false |- _ => apply orb_false_iff in H as [? ?]
  | H : negb _ = false |- _ => apply negb_false_iff in H
  end.

Lemma empty_false {A} (l : list A) : empty l = false ↔ l ≠ [].
Proof. by destruct l. Qed.

(** ** Topics: the buffer and the MQTT client agree *)
Lemma segment_ok_spec s :
  segment_ok s = true ↔
  s ≠ [] ∧ (47 ∉ s) ∧ (43 ∉ s) ∧ (35 ∉ s) ∧ existsb is_control s = false.
Proof.
  unfold segment_ok, LocalBuffer.slash. rewrite !andb_true_iff, !negb_true_iff, !bool_decide_eq_false.
  assert (forallb (λ c, negb ((c <=? 31) || (c =? 127))) s = true ↔ existsb is_control s = false) as ->.
  { induction s as [|c s IH]; [done|]. cbn [forallb existsb]. unfold is_control at 1.
    destruct ((c <=? 31) || (c =? 127)); cbn; [done|exact IH]. }
  tauto.
Qed.

Lemma validate_publish_topic_Ok t :
  validate_publish_topic t = Ok () ↔
  t ≠ [] ∧ byte_len t ≤ 65535 ∧ (35 ∉ t) ∧ (43 ∉ t) ∧ existsb is_control t = false.
Proof.
  unfold validate_publish_topic. destruct t as [|c t]; [naive_solver|].
  destruct (Z.ltb_spec 65535 (byte_len (c :: t))); [naive_solver lia|].
  case_bool_decide; [naive_solver|]. case_if; naive_solver.
Qed.

Lemma existsb_app_false {A} (f : A → bool) l l' :
  existsb f (l ++ l') = false ↔ existsb f l = false ∧ existsb f l' = false.
Proof. by rewrite existsb_app, orb_false_iff. Qed.

(** The prefix and the separator hold nothing that is refused. *)
Lemma topic_text_ok s d :
  let t := lit "forgelink/v1/telemetry/" ++ s ++ [47] ++ d in
  (35 ∉ t) ∧ (43 ∉ t) ∧ existsb is_control t = false ↔
  ((35 ∉ s) ∧ (43 ∉ s) ∧ existsb is_control s = false) ∧ (35 ∉ d) ∧ (43 ∉ d) ∧ existsb is_control d = false.
Proof.
  cbv zeta. rewrite !not_elem_of_app, !existsb_app_false.
  assert ((35 ∉ lit "forgelink/v1/telemetry/") ∧ (43 ∉ lit "forgelink/v1/telemetry/") ∧
    existsb is_control (lit "forgelink/v1/telemetry/") = false ∧ (35 ∉ [47]) ∧ (43 ∉ [47])) as (? & ? & ? & ? & ?).
  { split_and!; try reflexivity; refine (bool_decide_unpack _ _); by vm_compute. }
  cbn [existsb]. change (is_control 47) with false. tauto.
Qed.

Lemma mqtt_topic_Ok s d t :
  MqttConfig.telemetry_topic s d = Ok t ↔
  t = lit "forgelink/v1/telemetry/" ++ s ++ [47] ++ d ∧ segment_ok s = true ∧ segment_ok d = true ∧ byte_len t ≤ 65535.
Proof.
  rewrite !segment_ok_spec. pose proof (topic_text_ok s d) as Ht. cbv zeta in Ht. split.
  - intros (-> & Hs & Hd & Hss & Hsd & (_ & Hl & Hp)%validate_publish_topic_Ok)%device_topic_Ok.
    change MqttConfig.slash with 47 in *. tauto.
  - intros (-> & Hs & Hd & Hl). unfold MqttConfig.telemetry_topic, device_topic, validate_path_segment.
    change MqttConfig.slash with 47.
    destruct s as [|cs s]; [tauto|]. rewrite bool_decide_eq_false_2 by tauto. cbn [outcome_bind].
    destruct d as [|cd d]; [tauto|]. rewrite bool_decide_eq_false_2 by tauto. cbn [outcome_bind].
    rewrite (proj2 (validate_publish_topic_Ok _)); [done|]. split; [by destruct (lit _)|]. tauto.
Qed.

Lemma buffer_topic_Ok batch t :
  LocalBuffer.telemetry_topic batch = Ok t ↔
  t = lit "forgelink/v1/telemetry/" ++ ob_site_id batch ++ [47] ++ ob_device_id batch ∧
  segment_ok (ob_site_id batch) = true ∧ segment_ok (ob_device_id batch) = true ∧ byte_len t ≤ 65535.
Proof.
  unfold LocalBuffer.telemetry_topic. change LocalBuffer.slash with 47.
  destruct (segment_ok (ob_site_id batch)); cbn [negb]; [|naive_solver].
  destruct (segment_ok (ob_device_id batch)); cbn [negb]; [|naive_solver].
  destruct (Z.ltb_spec 65535 (byte_len (lit "forgelink/v1/telemetry/" ++ ob_site_id batch ++ [47] ++ ob_device_id batch)));
    naive_solver lia.
Qed.

Lemma outcome_ok_Some {E A} (o : outcome E A) a : outcome_ok o = Some a ↔ o = Ok a.
Proof. destruct o; naive_solver. Qed.

(** C17: the buffer accepts a batch exactly when its topic can be published.
    The buffer and the MQTT client each check the site and device identifiers
    and build the topic on their own; for every batch they agree on whether
    there is one and on its text, so nothing is stored that can never be
    published and nothing publishable is refused. *)
Theorem topics_agree batch :
  outcome_ok (LocalBuffer.telemetry_topic batch) =
  outcome_ok (MqttConfig.telemetry_topic (ob_site_id batch) (ob_device_id batch)).
Proof. apply option_eq. intros t. by rewrite !outcome_ok_Some, mqtt_topic_Ok, buffer_topic_Ok. Qed.

(** ** What validation establishes *)
Section validated.
Context {Json : Type} (control_build : bool).
Implicit Types (c : CollectorConfig Json) (d : DeviceSpec Json).

Record config_ok c : Prop := {
  ok_devices : cf_devices c ≠ [];
  ok_distinct : NoDup (sp_id <$> cf_devices c);
  ok_topics : ∀ d batch, d ∈ cf_devices c → ob_site_id batch = cf_site_id c → ob_device_id batch = sp_id d →
    ∃ topic, LocalBuffer.telemetry_topic batch = Ok topic ∧
             MqttConfig.telemetry_topic (cf_site_id c) (sp_id d) = Ok topic;
  ok_will : ∀ will, mo_will_device_id (cf_mqtt c) = Some will →
    ∃ d, d ∈ cf_devices c ∧ sp_id d = will ∧ sp_enabled d = true;
  ok_drivers : is_Some (cf_driver c) → dro_directories (cf_drivers c) = [];
  ok_control : is_Some (cf_control c) →
    control_build = true ∧ ∃ listen addr, ro_listen (cf_rest c) = Some listen ∧
      parse_socket_addr listen = Some addr ∧ SocketAddr.is_loopback addr = true;
}.

Lemma topic_refused_Ok {A} (r : MqttResult A) field u : topic_refused r field = Ok u → ∃ a, r = Ok a.
Proof. destruct r; naive_solver. Qed.

Lemma devices_validate_Ok site seen (devices : list (DeviceSpec Json)) u :
  devices_validate site seen devices = Ok u →
  NoDup (sp_id <$> devices) ∧
  Forall (λ d, (sp_id d ∉ seen) ∧ ∃ topic, MqttConfig.telemetry_topic site (sp_id d) = Ok topic) devices.
Proof.
  revert seen. induction devices as [|d devices IH]; intros seen H; [split; constructor|].
  cbn [devices_validate] in H. inv_ok. inv_refuse.
  repeat match goal with H : topic_refused _ _ = Ok _ |- _ => apply topic_refused_Ok in H as [? ?] end.
  destruct (IH _ H) as [Hnd Hall]. case_bool_decide as Hseen; [done|]. split.
  - cbn. constructor; [|done]. intros (d' & Heq & Hd')%list_elem_of_fmap.
    rewrite Forall_forall in Hall. destruct (Hall _ Hd') as [Hn _]. apply Hn. rewrite Heq. constructor.
  - constructor; [by eauto|]. eapply Forall_impl; [exact Hall|]. cbn. intros d' [Hn Ht]. split; [|done].
    intros Hin. apply Hn. by constructor.
Qed.

Lemma will_validate_Ok site will (devices : list (DeviceSpec Json)) u :
  will_validate site (Some will) devices = Ok u → ∃ d, d ∈ devices ∧ sp_id d = will ∧ sp_enabled d = true.
Proof.
  unfold will_validate. intros H. inv_ok. destruct (List.find _ devices) as [d|] eqn:Ef; [|done].
  apply List.find_some in Ef as [Hin Heq]. apply bool_decide_eq_true in Heq. inv_refuse.
  exists d. split; [by apply list_elem_of_In|done].
Qed.

(** C16: a validated configuration is one the collector can serve.  There are
    devices, with distinct identifiers; every batch of every device has a topic,
    the same for the buffer and for MQTT; the last will names an enabled device
    of the list; the legacy driver and driver directories are not both given;
    and control is enabled only in a
    build that has it and with an interface that listens on a loopback address. *)
Theorem validate_sound c : validate control_build c = Ok () → config_ok c.
Proof.
  unfold validate. intros H. inv_ok. inv_refuse.
  match goal with H : devices_validate _ _ _ = Ok _ |- _ => apply devices_validate_Ok in H as [Hnd Hall] end.
  rewrite Forall_forall in Hall. split.
  - by apply empty_false.
  - done.
  - intros d batch Hd Hs Hid. destruct (Hall _ Hd) as [_ [topic Ht]]. exists topic. split; [|done].
    apply mqtt_topic_Ok in Ht. apply buffer_topic_Ok. by rewrite Hs, Hid.
  - intros will Hw. match goal with H : will_validate _ _ _ = Ok _ |- _ => rewrite Hw in H; by apply will_validate_Ok in H end.
  - intros Hl. match goal with H : drivers_validate _ = Ok _ |- _ => rename H into Hd end.
    unfold drivers_validate, legacy_driver_provided in Hd. rewrite bool_decide_eq_true_2 in Hd by done.
    by destruct (dro_directories (cf_drivers c)).
  - intros [control Hc]. match goal with H : control_section_validate _ _ = Ok _ |- _ => rename H into Hd end.
    unfold control_section_validate in Hd. rewrite Hc in Hd. destruct control_build; [|done]. split; [done|].
    inv_ok. inv_refuse. repeat match goal with H : ok_or ?o _ = Ok _ |- _ => destruct o eqn:?; [|done]; injection H as -> end.
    naive_solver.
Qed.

(** Sessions of different starts differ, so message identifiers do. *)
Lemma effective_session_id_inj c n n' :
  in_u 64 n → in_u 64 n' → effective_session_id c n = effective_session_id c n' → n = n'.
Proof.
  unfold effective_session_id. intros Hn Hn' H.
  by destruct (cf_session_id c); apply app_inv_head, app_inv_head in H; apply to_string_inj in H.
Qed.

Lemma effective_session_id_nonempty c n : cf_site_id c ≠ [] → effective_session_id c n ≠ [].
Proof.
  unfold effective_session_id. intros Hs. destruct (cf_session_id c) as [[|x s]|]; [done..|].
  by destruct (cf_site_id c).
Qed.

(** ** What the components say to a validated configuration *)

(** The fields are of their Rust types. *)
Definition typed c : Prop :=
  0 ≤ bo_retention_secs (cf_buffer c) ∧ 0 ≤ pl_flush_interval_ms (cf_pipeline c) ∧
  0 ≤ pl_drain_timeout_secs (cf_pipeline c) ∧ in_u 64 (po_request_timeout_secs (cf_poll c)).

Lemma buffer_accepts (b : BufferOptions) u :
  0 ≤ bo_retention_secs b → buffer_options_validate b = Ok u → ∃ cfg, to_buffer_config b = Ok cfg.
Proof.
  intros Ht H. unfold buffer_options_validate in H. inv_ok. inv_refuse.
  unfold to_buffer_config, buffer_validate. cbn.
  rewrite bool_decide_eq_false_2 by by apply empty_false.
  match goal with H : (bo_memory_records b =? 0)%nat = false |- _ => rewrite H end.
  repeat match goal with H : (_ =? 0) = false |- _ => apply Z.eqb_neq in H end.
  match goal with H : (_ <? _) = false |- _ => rewrite H end.
  rewrite !(proj2 (Z.eqb_neq _ _)) by (unfold NS_PER_SEC; lia). by eexists.
Qed.

Lemma pipeline_accepts (p : PipelineOptions) site session u :
  site ≠ [] → session ≠ [] → 0 ≤ pl_flush_interval_ms p → 0 ≤ pl_drain_timeout_secs p →
  pipeline_options_validate p = Ok u →
  (∃ cfg, to_pipeline_config p site session = Ok cfg) ↔
  Z.of_nat (pl_max_batch_size p) * BUFFER_BATCH_MULTIPLIER < 2 ^ 64.
Proof.
  intros Hsite Hsession Hf Hd H. unfold pipeline_options_validate in H. inv_refuse.
  unfold to_pipeline_config, pipeline_validate. cbn [pc_site_id pc_collector_session_id pc_max_batch_size
    pc_flush_interval_ns pc_input_capacity pc_drain_timeout_ns].
  rewrite !bool_decide_eq_false_2 by done.
  repeat match goal with H : (_ =? 0)%nat = false |- _ => rewrite H end.
  repeat match goal with H : (_ =? 0) = false |- _ => apply Z.eqb_neq in H end.
  rewrite !(proj2 (Z.eqb_neq _ 0)) by (unfold NS_PER_SEC; lia).
  destruct (Z.leb_spec (2 ^ 64) (Z.of_nat (pl_max_batch_size p) * BUFFER_BATCH_MULTIPLIER)); cbn.
  - split; [naive_solver|lia].
  - split; [done|]. intros _. by eexists.
Qed.

Lemma poll_accepts (p : PollOptions) u :
  poll_validate p = Ok u →
  (to_poll_config p = Panic ↔ 2 ^ 64 * f64_unit ≤ f64_num (po_request_timeout_secs p)) ∧
  ∀ cfg, to_poll_config p = Ok cfg → config_validate cfg = Ok () ↔ request_timeout cfg ≠ 0.
Proof.
  intros H. unfold poll_validate in H. inv_ok. inv_refuse.
  match goal with H : f64_is_finite _ = true |- _ => rename H into Hfin end.
  unfold to_poll_config, duration_from_secs_f64. rewrite Hfin. cbn [negb orb]. split.
  - destruct (Z.leb_spec (2 ^ 64 * f64_unit) (f64_num (po_request_timeout_secs p))); cbn; split; try done; lia.
  - intros cfg Hcfg. destruct (_ <=? _); [done|]. cbn in Hcfg. injection Hcfg as <-. unfold config_validate. cbn.
    repeat match goal with H : (_ =? 0) = false |- _ => rewrite H end. cbn [orb].
    match goal with H : (po_shutdown_drain_secs p =? 0) = false |- _ => apply Z.eqb_neq in H end.
    rewrite (proj2 (Z.eqb_neq (po_shutdown_drain_secs p * NS_PER_SEC) 0)) by (unfold NS_PER_SEC; lia).
    destruct (Z.eqb_spec (div_half_even (f64_num (po_request_timeout_secs p) * NS_PER_SEC) f64_unit) 0); naive_solver.
Qed.

(** Which validated configurations the components refuse.  The buffer
    accepts every validated configuration; the pipeline every one whose batches
    leave sixteen times their size within 64 bits; the conversion of the polling
    section panics exactly from a request timeout of 2^64 seconds on, and the
    poll engine refuses what remains exactly when the timeout rounds to no
    nanosecond at all. *)
Theorem config_parts c now :
  validate control_build c = Ok () → typed c →
  (∃ b, to_buffer_config (cf_buffer c) = Ok b) ∧
  ((∃ p, to_pipeline_config (cf_pipeline c) (cf_site_id c) (effective_session_id c now) = Ok p) ↔
   Z.of_nat (pl_max_batch_size (cf_pipeline c)) * BUFFER_BATCH_MULTIPLIER < 2 ^ 64) ∧
  (to_poll_config (cf_poll c) = Panic ↔ 2 ^ 64 * f64_unit ≤ f64_num (po_request_timeout_secs (cf_poll c))) ∧
  (∀ cfg, to_poll_config (cf_poll c) = Ok cfg → config_validate cfg = Ok () ↔ request_timeout cfg ≠ 0).
Proof.
  unfold validate. intros H (Hr & Hf & Hd & Hp). inv_ok. inv_refuse.
  match goal with H : empty (cf_site_id c) = false |- _ => apply empty_false in H as Hsite end.
  split; [by eapply buffer_accepts|]. split.
  - eapply pipeline_accepts; try done. by apply effective_session_id_nonempty.
  - by eapply poll_accepts.
Qed.
End validated.

(** ** What preflight establishes *)
Section preflight_laws.
Context {S W Json F : Type} `{!DriverSession S W Json} `{!DriverFactory F S W Json}.

(** The checks made of every device: its profile exists and names its driver,
    and the driver accepts its connection. *)
Definition statically_ok (profiles : ProfileRegistry) (factory : F) (spec : DeviceSpec Json) : Prop :=
  (∃ profile, profiles !! sp_profile spec = Some profile ∧ dp_driver_id profile = sp_driver spec) ∧
  ∃ w w' session, df_create_driver factory (sp_driver spec) (sp_connection spec) w = (w', Ok session).

(** The checks made of the first device of each driver. *)
Definition probed_ok (profiles : ProfileRegistry) (spec : DeviceSpec Json) : Prop :=
  ∃ profile sw sw', profiles !! sp_profile spec = Some profile ∧ probe_driver spec profile sw = (sw', Ok ()).

Lemma preflight_loop_Ok profiles factory seen probed devices w w' :
  preflight_loop profiles factory seen probed devices w = (w', Ok ()) →
  Forall (statically_ok profiles factory) devices ∧
  ∀ driver, driver ∈ sp_driver <$> devices → driver ∉ seen →
    ∃ spec, spec ∈ devices ∧ sp_driver spec = driver ∧ probed_ok profiles spec.
Proof.
  revert seen probed w. induction devices as [|spec devices IH]; intros seen probed w; cbn [preflight_loop].
  { intros _. split; [constructor|]. intros driver Hd. by apply elem_of_nil in Hd. }
  destruct (df_create_driver _ _ _ w) as [w1 [session|[]|]] eqn:Ec; [|done..].
  destruct (profiles !! sp_profile spec) as [profile|] eqn:Ep; [|done].
  case_bool_decide as Hd; cbn [negb]; [|done]. case_bool_decide as Hs.
  - intros [Hall Hdrv]%IH. split; [constructor; [|done]; split; [by exists profile|by eexists _, _, _]|].
    intros driver Hin Hn. cbn in Hin. apply elem_of_cons in Hin as [->|Hin]; [done|].
    destruct (Hdrv _ Hin Hn) as (spec' & ? & ? & ?). exists spec'. split_and!; try done. by constructor.
  - destruct (probe_driver spec profile (session, w1)) as [[session' w2] [[]|e|]] eqn:Eb; [|done..].
    intros [Hall Hdrv]%IH. split; [constructor; [|done]; split; [by exists profile|by eexists _, _, _]|].
    intros driver Hin Hn. destruct (decide (driver = sp_driver spec)) as [->|Hne].
    + exists spec. split_and!; [constructor|done|]. by eexists _, _, _.
    + cbn in Hin. apply elem_of_cons in Hin as [->|Hin]; [done|].
      destruct (Hdrv driver Hin) as (spec' & ? & ? & ?); [set_solver|].
      exists spec'. split_and!; try done. by constructor.
Qed.

(** After a successful preflight every device has a profile for its driver and
    a connection the driver accepts, and of each driver the addresses and the
    capabilities of one device's profile have been checked. *)
Theorem preflight_sound c profiles factory w w' :
  run_preflight c profiles factory w = (w', Ok ()) →
  Forall (statically_ok profiles factory) (cf_devices c) ∧
  ∀ d, d ∈ cf_devices c → ∃ spec, spec ∈ cf_devices c ∧ sp_driver spec = sp_driver d ∧ probed_ok profiles spec.
Proof.
  intros [Hall Hd]%preflight_loop_Ok. split; [done|]. intros d Hin. apply Hd; [by apply list_elem_of_fmap_2|set_solver].
Qed.

(** The devices before which no device uses the same driver. *)
Fixpoint firsts (seen : gset str) (devices : list (DeviceSpec Json)) : list (DeviceSpec Json) :=
  match devices with
  | [] => []
  | spec :: devices =>
      if bool_decide (sp_driver spec ∈ seen) then firsts seen devices
      else spec :: firsts ({[sp_driver spec]} ∪ seen) devices
  end.

(** Two sets of profiles that agree on what preflight reads of them. *)
Definition same_for_preflight (profiles profiles' : ProfileRegistry) (seen : gset str)
    (devices : list (DeviceSpec Json)) : Prop :=
  (∀ spec, spec ∈ firsts seen devices → profiles !! sp_profile spec = profiles' !! sp_profile spec) ∧
  (∀ spec, spec ∈ devices →
     dp_driver_id <$> profiles !! sp_profile spec = dp_driver_id <$> profiles' !! sp_profile spec).

Lemma preflight_loop_same profiles profiles' factory seen probed devices w :
  same_for_preflight profiles profiles' seen devices →
  preflight_loop profiles factory seen probed devices w = preflight_loop profiles' factory seen probed devices w.
Proof.
  revert seen probed w. induction devices as [|spec devices IH]; intros seen probed w [Hf Hd]; [done|].
  cbn [preflight_loop firsts] in *.
  assert (∀ spec', spec' ∈ devices →
    dp_driver_id <$> profiles !! sp_profile spec' = dp_driver_id <$> profiles' !! sp_profile spec') as Hd'.
  { intros spec' Hin. apply Hd. by constructor. }
  specialize (Hd spec (list_elem_of_here _ _)).
  destruct (df_create_driver _ _ _ w) as [w1 [session|[]|]]; try done. case_bool_decide as Hs.
  - destruct (profiles !! sp_profile spec) as [p|], (profiles' !! sp_profile spec) as [p'|]; try done.
    injection Hd as ->. case_bool_decide; cbn [negb]; [|done]. by apply IH.
  - rewrite (Hf spec (list_elem_of_here _ _)). destruct (profiles' !! sp_profile spec) as [p'|]; [|done].
    case_bool_decide; cbn [negb]; [|done].
    destruct (probe_driver spec p' (session, w1)) as [[session' w2] [[]|e|]]; try done.
    apply IH. split; [|done]. intros spec' Hin. apply Hf. by constructor.
Qed.

(** C36: preflight does not look at every profile.  Of the profile of a device
    it reads only the driver it names, unless the device is the first one with
    its driver: for every configuration, every factory of drivers and every
    behaviour of their sessions, its result does not change when the addresses,
    commands and capabilities in the profiles of all other devices are replaced
    by anything.  So it accepts a device whose addresses the driver refuses
    when another device of that driver is listed before it. *)
Theorem preflight_skips c profiles profiles' factory w :
  same_for_preflight profiles profiles' ∅ (cf_devices c) →
  run_preflight c profiles factory w = run_preflight c profiles' factory w.
Proof. apply preflight_loop_same. Qed.
End preflight_laws.

(** * Concrete configurations *)

(** The defaults are those of the components. *)
Example defaults_agree :
  to_poll_config poll_default = Ok poll_config_default ∧
  to_pipeline_config pipeline_default (lit "s") (lit "c") = Ok (DataPipeline.config_new (lit "s") (lit "c")).
Proof. split; [by vm_compute|]. reflexivity. Qed.

Definition sample_mqtt : MqttOptions :=
  {| mo_broker_host := lit "broker"; mo_broker_port := 1883; mo_client_id := []; mo_keep_alive_secs := 30;
     mo_max_packet_size := 65536; mo_reconnect_min_secs := 1; mo_reconnect_max_secs := 30;
     mo_max_reconnect_retries := None; mo_publish_capacity := 256; mo_max_inflight := 100; mo_username := None;
     mo_password := None; mo_tls := TlsOptions.None; mo_will_device_id := Some (lit "pump") |}.

(** The default polling section with a request timeout of [bits]. *)
Definition sample_poll (bits : Z) : PollOptions :=
  mkPollOptions bits (po_backoff_base_ms poll_default) (po_backoff_max_ms poll_default)
    (po_backoff_factor poll_default) (po_shutdown_drain_secs poll_default) (po_default_interval_ms poll_default).

Definition sample_device (id profile : string) : DeviceSpec () :=
  {| sp_id := lit id; sp_name := None; sp_domain := None; sp_driver := lit "modbus-tcp"; sp_profile := lit profile;
     sp_connection := (); sp_enabled := true; sp_labels := ∅ |}.

Definition config_of (devices : list (DeviceSpec ())) (bits : Z) : CollectorConfig () :=
  {| cf_site_id := lit "site"; cf_session_id := None; cf_profiles_dir := default_profiles_dir; cf_driver := None;
     cf_drivers := {| dro_directories := [lit "drivers"]; dro_isolation_overrides := [] |};
     cf_devices := devices; cf_mqtt := sample_mqtt; cf_poll := sample_poll bits; cf_pipeline := pipeline_default;
     cf_buffer := {| bo_db_path := lit "wal.db"; bo_memory_records := 10; bo_disk_max_bytes := 2 ^ 31;
                     bo_retention_secs := 259200; bo_capacity_policy := CapacityPolicy.Backpressure;
                     bo_drain_timeout_secs := 5 |};
     cf_forward_poll_ms := default_forward_poll_ms;
     cf_rest := {| ro_listen := Some (lit "127.0.0.1:8080"); ro_max_concurrency := 64 |};
     cf_control := Some {| co_namespace := lit "ns"; co_credentials_file := lit "cred.json"; co_journal_path := None;
                           co_timeout_ms := 5000; co_queue_capacity := 64; co_audit_timeout_ms := 1000;
                           co_shutdown_grace_ms := 5000 |} |}.

Definition sample_config : Z → CollectorConfig () :=
  config_of [sample_device "pump" "good"; sample_device "fan" "bad"].

(** The patterns of 2^64 and of 2^-40. *)
Definition huge : Z := 1087 * 2 ^ 52.
Definition tiny : Z := 983 * 2 ^ 52.

Example loopback_texts :
  (SocketAddr.is_loopback <$> parse_socket_addr (lit "127.0.0.1:8080")) = Some true ∧
  (SocketAddr.is_loopback <$> parse_socket_addr (lit "[::1]:0")) = Some true ∧
  (SocketAddr.is_loopback <$> parse_socket_addr (lit "[::ffff:127.0.0.1]:80")) = Some false ∧
  (SocketAddr.is_loopback <$> parse_socket_addr (lit "0.0.0.0:80")) = Some false ∧
  parse_socket_addr (lit "localhost:80") = None ∧ parse_socket_addr (lit "127.0.0.01:80") = None ∧
  parse_socket_addr (lit "127.0.0.1:65536") = None ∧ parse_socket_addr (lit "[1:2]:80") = None.
Proof. by vm_compute. Qed.

Lemma validate_sound_witness : validate true (sample_config default_request_timeout_secs) = Ok () ∧ config_ok true (sample_config default_request_timeout_secs).
Proof. split; [by vm_compute|]. apply validate_sound. by vm_compute. Defined.

Lemma config_parts_witness : ∃ b, to_buffer_config (cf_buffer (sample_config default_request_timeout_secs)) = Ok b.
Proof. apply (config_parts true (sample_config default_request_timeout_secs) 0); [by vm_compute|]. by repeat split. Defined.

(** A validated configuration can panic.  A request timeout of 2^64 seconds
    is finite and positive, so the configuration is accepted, and its
    conversion panics after the drivers are loaded; one of 2^-40 seconds is
    accepted too and is refused only when the first polling task is started. *)
Theorem timeout_panics :
  validate true (sample_config huge) = Ok () ∧ to_poll_config (cf_poll (sample_config huge)) = Panic ∧
  validate true (sample_config tiny) = Ok () ∧
  (∃ cfg, to_poll_config (cf_poll (sample_config tiny)) = Ok cfg ∧
          config_validate cfg = Err PollConfigError.InvalidTimeout).
Proof. split_and!; [by vm_compute..|]. eexists. split; by vm_compute. Qed.

(** ** A profile that preflight does not look at *)

(** A driver that refuses the address [x]. *)
#[local] Instance toy_session : DriverSession () () () := {|
  ds_read_batch _ := sret [];
  ds_write_batch _ := sret [];
  ds_execute_command _ := sfail (mkDriverErrorInfo "unsupported" None false);
  ds_validate_address a :=
    if bool_decide (a = lit "x") then sfail (mkDriverErrorInfo "invalid_address" None false)
    else sret (mkAddressMetadata a None true true);
  ds_protocol_capabilities := sret (mkProtocolCapabilities true true true true true true true true true);
  ds_drop _ w := w;
|}.

#[local] Instance toy_factory : DriverFactory () () () () := {| df_create_driver _ _ _ w := (w, Ok ()) |}.

Definition toy_property (address : string) : ProfileProperty :=
  mkProfileProperty (lit "drive.speed") (lit address) DataType.U16 DataType.U16 None ONE 0 WriteRounding.Nearest
    true true None None None.

Definition toy_profile (id address : string) : DeviceProfile :=
  mkDeviceProfile (lit id) (lit "v") (lit "f") [] DomainKind.Drive (lit "modbus-tcp") [toy_property address] []
    (mkProfileCapabilities [] [] (mkAcquisitionConstraints None None None None) []).

Definition toy_profiles : ProfileRegistry :=
  {[ lit "good" := toy_profile "good" "40001"; lit "bad" := toy_profile "bad" "x" ]}.

(** The configuration with its devices in the opposite order. *)
Definition swapped_config : Z → CollectorConfig () :=
  config_of [sample_device "fan" "bad"; sample_device "pump" "good"].

(** The profiles with an address the driver accepts in both. *)
Definition repaired_profiles : ProfileRegistry :=
  {[ lit "good" := toy_profile "good" "40001"; lit "bad" := toy_profile "bad" "40001" ]}.

(** The fan's profile has an address the driver refuses, and preflight accepts
    it as if it had not .. *)
Lemma preflight_skips_witness :
  run_preflight (sample_config default_request_timeout_secs) toy_profiles () () = ((), Ok ()).
Proof.
  transitivity (run_preflight (sample_config default_request_timeout_secs) repaired_profiles () ()).
  - apply (preflight_skips (sample_config default_request_timeout_secs) toy_profiles repaired_profiles () ()). split.
    + intros spec Hin. change (spec ∈ [sample_device "pump" "good"]) in Hin.
      apply list_elem_of_singleton in Hin as ->. by vm_compute.
    + intros spec Hin. change (spec ∈ [sample_device "pump" "good"; sample_device "fan" "bad"]) in Hin.
      apply elem_of_cons in Hin as [->|Hin]; [by vm_compute|]. apply list_elem_of_singleton in Hin as ->. by vm_compute.
  - by vm_compute.
Defined.

(** .. and refuses it when the fan is listed first. *)
Example preflight_order :
  run_preflight (swapped_config default_request_timeout_secs) toy_profiles () () =
    ((), Err (mkPreflightFailure (lit "fan") "address_validates")).
Proof. by vm_compute. Qed.

Lemma preflight_sound_witness :
  Forall (statically_ok toy_profiles ()) (cf_devices (sample_config default_request_timeout_secs)).
Proof. apply (preflight_sound (sample_config default_request_timeout_secs) toy_profiles () () ()). by vm_compute. Defined.
